(* ===== verification/_CoqProject ===== *)
-Q . S2P
Prelude.v
JsVal.v
Json.v
Types.v
State.v
Policy.v
RolePolicy.v
Path.v
Validation.v
HostArgs.v
HostPaths.v
Envelope.v
Codec.v
Redact.v
GitOps.v
Queue.v
Artifacts.v
Effects.v
Worker.v
WorkerFacts.v
Results.v
Diff.v
ResultFacts.v
Reaper.v
ReaperFacts.v
Authorization.v
GitGuard.v
PlanDoc.v
Server.v
FileOps.v
TraceLogic.v
FileOpsFacts.v
HostSteps.v
SandboxResult.v
SandboxResultFacts.v
HostRead.v
HostGit.v
HostGitFacts.v
PlanDocOps.v
PlanDocOpsFacts.v
Queries.v
TestRun.v
Locks.v
Advisor.v
AdvisorFacts.v
Relay.v
JsOps.v
ReviewArgv.v
SddRuntime.v
SddService.v
ReviewRun.v
ReviewMaterialize.v
ReviewPipeline.v
ReviewPersist.v
ReviewService.v
Config.v
Dispatch.v
ReviewRunFacts.v
ReviewMaterializeFacts.v
ReviewPersistFacts.v
ReviewPipelineFacts.v
SddFacts.v
Evidence.v
DispatchFacts.v
PluginValues.v
RelayFrames.v
RelayChild.v
RelayChildFacts.v
RelayHooks.v
RelayHooksFacts.v
Approval.v
EditCore.v
PluginTools.v
PluginToolsFacts.v
BrokerClient.v
BrokerClientFacts.v
RoutingGuard.v
RegisterProject.v
Msb.v
MsbFacts.v
