(* ===== verification/Prelude.v ===== *)
(** * Sandbox-Agents: a verification of the broker and its clients

    The program.  A broker process (src/broker/src) stands between AI agents
    and a host.  Clients send JSON lines on a Unix socket; each line names a
    session, an operation and a payload.  The broker runs agents' work in
    disposable workers (micro VMs), exports what they made as a git ref, and
    applies, installs or commits it on the host only after checks; it edits
    plan documents, runs configured tests, answers fixed host reads, and drives
    the SDD and review commands of one configured program, gentle-ai.  Its
    clients are plugins of the agents' shell (src/opencode/plugins): the tools an
    agent sees, a guard on the shell's own tools, the socket client, and the relay
    that lets a provider process answer for a reviewer.  A script
    (src/scripts/register-project.ts) registers a project with all of them.

    How the parts interact.  A line is framed and parsed (Server), bound to its
    connection (Authorization), counted and serialized under the session's lock
    (Locks), guarded and sent to its operation's handler (Dispatch).  A handler
    validates its payload (Validation, HostArgs, HostPaths, Envelope), checks
    its session's recorded identity (Authorization, RolePolicy), reads and
    writes the session store (State), the worker pool (Policy) and the pending
    queue (Queue), and calls git, the worker adapter (Msb), gentle-ai and the file
    system.  The reaper does the same on a timer and on disconnects.  In the
    plugins a tool validates and asks the user (Approval, PluginTools), the guard
    asks the broker (RoutingGuard), and both speak through BrokerClient.

    How it is modelled.  Pure code is a Rocq function; a validator returns [res],
    a value or a thrown error of the source's classes.  A handler of the broker is
    a function of the monad [M] of Effects.v: from a world (store, pool, queue,
    started creations, locks, clock) to its result, the world it leaves and its
    trace, the external calls it made with their answers.  The environment that
    answers the calls is a parameter and may change the world at each call, which
    is where other handlers run: a theorem holds for every interleaving at the
    awaits and every behaviour of git, workers and files, unless a hypothesis
    (that nobody else writes the session's record, for instance) says otherwise.
    The worker adapter is modelled twice over: its calls are the environment of
    the handlers, and Msb gives that environment ([adapter_env]) over the
    processes and files the adapter itself uses.  Code driven by events (the
    broker client, the relay child, a spawned process, the relay's hooks, the
    locks) is a function or a relation from a state and an event to the next
    state, one case for each handler, and a theorem about it holds of every
    sequence of events.  A plugin tool and a hook of the guard are trees of what
    they ask of the broker and the user.  The registration script is a state monad
    over its files and actions.
    JavaScript strings are lists of UTF-16 code units, numbers are integers or the
    shortest decimal text of a double, CPU shares are rationals, objects used as
    tables keep their inherited names.

    The files, each with the source it models (under src/broker/src).
    - Prelude, JsVal, Json (JSON.parse and numbers), JsOps (operators on any
      value), Path, Codec: strings, errors, values, node:path and byte encodings
      of the language.  Effects: calls, world, monad, and the rules [wp],
      [always], [keeps], [only_calls].  TraceLogic: [traced], safety of every call
      with respect to the calls before it.
    - Types (types.ts), State (state.ts), Policy (policy.ts), RolePolicy
      (role-policy.ts), Queue (queue.ts), Artifacts (artifacts.ts, copy-review.ts),
      GitOps (gitops.ts), GitGuard (gitguard.ts), Redact (logging.ts: redaction and
      the log with its sinks), Config (config.ts and main.ts: the environment, the
      command line and the startup up to the server).
    - Validation, HostArgs, HostPaths, Envelope (validation.ts).
    - Authorization (validation.ts, service.ts, advisor-socket.ts, server.ts).
    - Of service.ts: Worker (ensureWorker, creation, drain, release), Results
      (prepare, apply, keep, discard, destroy), Diff, FileOps (exec, files, copies,
      patches), HostSteps and SandboxResult (with sandbox-result.ts), HostGit
      (commit, push, issue, registration), PlanDoc and PlanDocOps (plan documents:
      their text, and the operations on the files), TestRun, Queries.
    - HostRead (hostread.ts), Reaper (reaper.ts), Msb (msb.ts).
    - Advisor (advisor-records.ts, advisor-reviewer-result.ts) and
      Relay (advisor-relay.ts, advisor-lineages.ts): advisory requests as a state of
      their own, and the relay of a stored review as a step relation; Evidence
      (evidenceKeep of advisor-records.ts), a handler over the records it reads.
    - ReviewArgv, SddRuntime (sdd-runtime.ts, legacy-sdd.ts, review-guidance.ts):
      the argument builders and the executor; SddService (sdd-service.ts, with the
      calls of advisor-relay.ts): the request handlers.
    - ReviewRun (review-run.ts: the run store), ReviewMaterialize, ReviewPipeline,
      ReviewPersist (the files of those names), ReviewService (their handlers).
    - Server (framer, write queue, parsing), Locks (withSessionLock), Dispatch
      (dispatchLine, dispatch) of server.ts.
    - Of src/opencode/plugins: PluginValues (the values tools work on),
      RelayFrames, RelayChild and RelayHooks (lib/reviewer-relay-core.ts: frames and
      roots, one relay child, the hooks of any number of plugin instances),
      Approval (lib/host-tool-approval.ts), EditCore (lib/sandbox-edit-core.ts and
      the command tokenizer), PluginTools (sandbox-tools.ts, lib/legacy-sdd-tools.ts,
      lib/apply-preview-guard.ts, lib/session-agent-binding.ts), BrokerClient
      (lib/broker-client.ts), RoutingGuard (routing-guard.ts).
    - RegisterProject (src/scripts/register-project.ts).
    The theorems about X follow its definitions, or are in a file XFacts where they
    are long; SddFacts is about SddService, the relay of a stored review included.

    What the theorems show.
    - The host is protected.  An apply, an install and a commit change it only
      after every check, on exactly the approved paths (applyResult_guarded,
      install_writes_only_approved, commit_checked_and_once); a copy out, a worker
      write, a plan document and a task mark replace their file only by complete,
      checked content (copyOut_guarded, writeFile_staged,
      plan_write_loses_no_revision, mark_behind_its_gate); git runs hardened
      (harden_neutralizes); paths stay inside their roots.
    - Who may act.  A read-only identity reaches no sandbox operation
      (orchestrator_reaches_no_sandbox), host mutations need a recorded identity
      (host_mutation_iff_identity), a binding is made once, advisor connections
      are isolated; a plugin requests a host mutation only for what the user
      approved (mutations_need_approval), and the guard lets a tool run only for a
      reason of the broker (guard_allows_for_reason).
    - The life of a worker and of a session.  A creation succeeds or fails closed,
      a release frees an allocation only on a confirmed removal, the drain keeps
      order and caps, edits are exported before a worker is given back, closed
      states are never left, the record follows the host.  A worker is created
      from policy and returned when its guest answers (created_from_policy,
      wait_for_guest_ends), a command runs in it confined (worker_exec_confined),
      and a process settles once with its bounded output
      (process_result_of_streams).
    - The connection.  Framing does not depend on how bytes arrive, the write queue
      refines a byte stream, every line is answered once with its own id, locks
      count exactly and drain; the client settles a request once, by its deadlines,
      and never tears a frame while sockets end before the next opens
      (client_settles_once, client_deadlines, client_writes_frames).
    - Advisory records are written once, by one advisor, in time, and relayed at
      most once (advisor_records_written_once, relay_at_most_once,
      relay_under_marker); the evidence kept is checked files of the worker
      (evidence_checked).
    - SDD and reviews.  Only the configured program runs, in approved roots, with
      exactly the fields supplied (gentle_runs_gated, review_argv_roundtrip); a
      run keeps its caps and publishes files whole (run_within_caps,
      publication_atomic); slices are the diff (slices_are_the_diff); a phase runs
      the pinned helper and an artifact is published as validated
      (phase_runs_pinned_helper, persist_only_validated).
    - The reviewer relay.  A relay delivers the result line its child said
      (relay_delivers_the_stream, relay_child_protocol), a hook ends with its own
      relay's text, and an instance touches only its own relays
      (tasks_end_with_provider_text, relays_stay_with_their_owner).
    - Edits replace exactly the occurrences (edit_replaces_occurrences), commands
      are read back as their words (command_roundtrip); the registration script
      acts only as asked (register_acts_as_asked, launcher_registers_once,
      derived_id_free).
    - The configuration is checked before the broker starts, whatever overrides it
      (config_checked, runners_checked, main_config_checked); the log counts every
      line it loses and says so once (log_exact, fallback_once).
    - Formats are read back as written (numstat, configuration, gate verdicts).
    - Errors found are stated as theorems of the code as it is:
      retained_commit_never_recorded, pending_session_is_stuck, keepResult_unusable,
      direct_creations_oversubscribe, small_host_parks_forever,
      ensureWorker_rewrites_identity, plan_root_guard_textual, mark_shadows_gates,
      relay_cap_exceeded, relay_started_twice, late_close_fails_live_request,
      approved_root_escaped, dollar_in_path_corrupts, timed_out_copy_creates and
      others.

    Fuel and bounds.  The drain's loop takes the length of the queue plus one as
    fuel, and each turn removes one entry, so it never runs out.  UTF-8 decoding
    and JSON.parse take the length of their input, and each step consumes a unit.
    The decimal text of a rational looks for at most 17 digits, as many as a
    double has.  The walk to an existing parent takes the length of the path, and
    each step shortens it.  The digits of a 32-bit digest are eight.  A search for
    a free project number takes one try more than there are ids
    (derived_id_free).  The wait for a guest takes 121 turns, more than its minute
    has half seconds; that this is enough is wait_for_guest_ends, under the
    hypothesis that the clock goes on while a timer runs.  A random name for a
    staged input of gentle-ai is tried a number of times that is an argument.
    Regular expressions of the source are structural functions on the string,
    and glob patterns are matched by a backtracking function on the pattern.

    What is not modelled.  The six handlers of the advisor records are an argument
    of the dispatch: they act on a state of their own, and the manifest an answer
    reads is an argument of Advisor.  What the handlers of the broker read of the configuration
    Config makes is their argument [BrokerConfig].  Not modelled because they are
    input and output only: listeners, signals and socket files, progress frames,
    the closing of the log, and Node's own spawn.  Of the plugins, the argument
    schemas and descriptions of the tools (the shell checks a call against them
    before the tool runs), logging, and the promise that shares one client among
    the tools of a plugin.  Symbolic links in the registration script.  Timers are
    events of the environment. *)
From stdpp Require Export base option list numbers gmap sets strings pretty.
From Stdlib Require Export ZArith Lia.
#[export] Set Default Proof Using "Type".
Open Scope Z_scope.

(** ** JavaScript strings

    A JavaScript string is the sequence of its UTF-16 code units; [js]
    turns an ASCII literal into one. *)
Abbreviation jsstr := (list N).

Definition js (s : string) : jsstr :=
  map Ascii.N_of_ascii (String.list_ascii_of_string s).

(** The code unit of a one-character literal. *)
Definition ch (s : string) : N := default 0%N (head (js s)).

Definition str_eqb (a b : jsstr) : bool := bool_decide (a = b).

(** [xs.includes(x)] on an array of strings. *)
Definition mem (x : jsstr) (l : list jsstr) : bool := bool_decide (x ∈ l).

(** [s.startsWith(p)], [s.endsWith(p)]. *)
Fixpoint startsWith (s p : jsstr) : bool :=
  match p, s with
  | [], _ => true
  | c :: p', d :: s' => N.eqb c d && startsWith s' p'
  | _ :: _, [] => false
  end.

Definition endsWith (s p : jsstr) : bool := startsWith (rev s) (rev p).

(** [s.includes(p)]. *)
Fixpoint includes (s p : jsstr) : bool :=
  startsWith s p ||
  match s with
  | [] => false
  | _ :: s' => includes s' p
  end.

(** [s.indexOf(c)] for a one-unit separator: the text before it and after it. *)
Fixpoint cut_at (c : N) (s : jsstr) : option (jsstr * jsstr) :=
  match s with
  | [] => None
  | d :: s' =>
      if N.eqb c d then Some ([], s')
      else match cut_at c s' with
           | Some (l, r) => Some (d :: l, r)
           | None => None
           end
  end.

(** [s.split(c)] for a one-unit separator; never the empty list. *)
Fixpoint split_on (c : N) (s : jsstr) : list jsstr :=
  match s with
  | [] => [[]]
  | d :: s' =>
      if N.eqb c d then [] :: split_on c s'
      else match split_on c s' with
           | [] => [[d]]
           | w :: ws => (d :: w) :: ws
           end
  end.

(** [ws.join(sep)]. *)
Fixpoint join_with (sep : jsstr) (ws : list jsstr) : jsstr :=
  match ws with
  | [] => []
  | [w] => w
  | w :: ws' => w ++ sep ++ join_with sep ws'
  end.

(** [Buffer.byteLength(s, "utf8")]: a surrogate pair is four bytes, a lone
    surrogate is replaced by the three bytes of U+FFFD. *)
Fixpoint byteLength (s : jsstr) : Z :=
  match s with
  | [] => 0
  | c :: s' =>
      if (c <? 128)%N then 1 + byteLength s'
      else if (c <? 2048)%N then 2 + byteLength s'
      else if ((55296 <=? c) && (c <? 56320))%N then
        match s' with
        | d :: s'' =>
            if ((56320 <=? d) && (d <? 57344))%N then 4 + byteLength s''
            else 3 + byteLength s'
        | [] => 3 + byteLength s'
        end
      else 3 + byteLength s'
  end.

(** [s.length] *)
Definition js_length (s : jsstr) : Z := Z.of_nat (length s).

(** Decimal text of an integer, as in a template literal. *)
Definition dec (z : Z) : jsstr := js (pretty z).

(** Code units of the ECMAScript whitespace and line terminators, as [trim],
    and [\s] in a regular expression, use them. *)
Definition is_ws (c : N) : bool :=
  (((9 <=? c) && (c <=? 13)) || (c =? 32) || (c =? 160) || (c =? 5760) ||
   ((8192 <=? c) && (c <=? 8202)) || (c =? 8232) || (c =? 8233) ||
   (c =? 8239) || (c =? 8287) || (c =? 12288) || (c =? 65279))%N.

Fixpoint trim_start (s : jsstr) : jsstr :=
  match s with
  | [] => []
  | c :: s' => if is_ws c then trim_start s' else s
  end.

Definition trim (s : jsstr) : jsstr := rev (trim_start (rev (trim_start s))).

(** [s.trimEnd()], and [s.replace] of [/\s*$/] by nothing. *)
Definition trim_end (s : jsstr) : jsstr := rev (trim_start (rev s)).

(** The longest prefix of characters in [p], and the rest. *)
Fixpoint span (p : N -> bool) (s : jsstr) : jsstr * jsstr :=
  match s with
  | c :: s' => if p c then let '(a, b) := span p s' in (c :: a, b) else ([], s)
  | [] => ([], [])
  end.

(** [s.toLowerCase()] where only ASCII results matter: the ASCII letters, and
    the two other characters whose lower case is ASCII (U+212A is a [k];
    U+0130 an [i] and a combining dot).  Every other letter keeps its case. *)
Definition toLowerCase (s : jsstr) : jsstr :=
  concat (map (fun c =>
    if ((65 <=? c) && (c <=? 90))%N then [(c + 32)%N]
    else if (c =? 8490)%N then [107%N]
    else if (c =? 304)%N then [105; 775]%N
    else [c]) s).

(** Character classes used by the source's regular expressions. *)
Definition is_lower (c : N) : bool := ((97 <=? c) && (c <=? 122))%N.
Definition is_upper (c : N) : bool := ((65 <=? c) && (c <=? 90))%N.
Definition is_digit (c : N) : bool := ((48 <=? c) && (c <=? 57))%N.
Definition is_alnum (c : N) : bool := is_lower c || is_upper c || is_digit c.
Definition is_hex_lower (c : N) : bool := is_digit c || ((97 <=? c) && (c <=? 102))%N.
Definition one_of (cs : string) (c : N) : bool := bool_decide (c ∈ js cs).

(** [/^[class]{lo,hi}$/.test(s)] *)
Definition re_class (p : N -> bool) (lo hi : Z) (s : jsstr) : bool :=
  (lo <=? js_length s) && (js_length s <=? hi) && forallb p s.

(** ** Exceptions and results

    The error classes of the broker; [StateCorruptionError] extends
    [StateError] and [QueuedTimedOutError] extends [PolicyError].  [ECoded] is
    an [Error] with an own [code]: an errno (ENOENT, EEXIST, ...) or the code of
    a review error.  [EError] is any other [Error]. *)
Inductive errclass :=
  | EValidation | EState | ECorruption | EPolicy | EQueuedTimedOut | EMsb
  | ECoded (code : jsstr) | EError.

#[export] Instance errclass_eq_dec : EqDecision errclass.
Proof. solve_decision. Defined.

Record exn := Exn { exn_class : errclass; exn_msg : jsstr }.

#[export] Instance exn_eq_dec : EqDecision exn.
Proof. solve_decision. Defined.

(** A call that returns or throws. *)
Inductive res (A : Type) :=
  | Ok (a : A)
  | Throw (e : exn).
Arguments Ok {A} a.
Arguments Throw {A} e.

#[export] Instance res_ret : MRet res := fun A a => Ok a.
#[export] Instance res_bind : MBind res := fun A B f m =>
  match m with Ok a => f a | Throw e => Throw e end.

Definition is_ok {A} (r : res A) : bool :=
  match r with Ok _ => true | Throw _ => false end.

(** [if (b) throw e;] *)
Definition throw_if (b : bool) (e : exn) : res unit :=
  if b then Throw e else Ok tt.

Definition validation_error (m : jsstr) : exn := Exn EValidation m.
Definition state_error (m : jsstr) : exn := Exn EState m.
Definition policy_error (m : jsstr) : exn := Exn EPolicy m.
Definition msb_error (m : jsstr) : exn := Exn EMsb m.

(** [for (const x of xs) f(x);] for a body that may throw. *)
Fixpoint for_each {A} (f : A -> res unit) (xs : list A) : res unit :=
  match xs with
  | [] => Ok tt
  | x :: xs' => _ ← f x; for_each f xs'
  end.

(** [xs.map(f)] for an [f] that may throw. *)
Fixpoint map_res {A B} (f : A -> res B) (xs : list A) : res (list B) :=
  match xs with
  | [] => Ok []
  | x :: xs' => y ← f x; ys ← map_res f xs'; Ok (y :: ys)
  end.

(** ** Lemmas shared by the components *)

Lemma res_bind_Ok {A B} (m : res A) (f : A -> res B) b :
  mbind f m = Ok b <-> exists a, m = Ok a /\ f a = Ok b.
Proof.
  destruct m as [a|e]; split; cbn.
  - eauto.
  - by intros (a' & [= ->] & ?).
  - done.
  - by intros (? & ? & _).
Qed.

Lemma res_bind_Throw {A B} (m : res A) (f : A -> res B) e :
  mbind f m = Throw e <-> m = Throw e \/ exists a, m = Ok a /\ f a = Throw e.
Proof. destruct m as [a|e']; cbn; naive_solver. Qed.

Lemma res_seq_Ok {B} (m : res unit) (k : res B) b :
  mbind (fun _ => k) m = Ok b <-> m = Ok tt /\ k = Ok b.
Proof. destruct m as [[]|e]; cbn; naive_solver. Qed.

Lemma throw_if_Ok b e u : throw_if b e = Ok u <-> b = false.
Proof. destruct b, u; cbn; naive_solver. Qed.

Lemma throw_if_Throw b e e' : throw_if b e = Throw e' <-> b = true /\ e' = e.
Proof. destruct b; cbn; naive_solver. Qed.

Lemma is_ok_true {A} (r : res A) : is_ok r = true <-> exists a, r = Ok a.
Proof. destruct r; cbn; naive_solver. Qed.

Lemma for_each_Ok {A} (f : A -> res unit) xs u :
  for_each f xs = Ok u <-> Forall (fun x => f x = Ok tt) xs.
Proof.
  destruct u. induction xs as [|x xs IH]; cbn.
  - split; [constructor | done].
  - rewrite res_bind_Ok, Forall_cons, <- IH.
    split; [intros ([] & ? & ?) | intros [? ?]; exists tt]; done.
Qed.

Lemma map_res_Ok {A B} (f : A -> res B) xs ys :
  map_res f xs = Ok ys <-> Forall2 (fun x y => f x = Ok y) xs ys.
Proof.
  revert ys; induction xs as [|x xs IH]; intros ys; cbn.
  - split; [intros [= <-]; constructor | by intros ->%Forall2_nil_inv_l].
  - rewrite res_bind_Ok. setoid_rewrite res_bind_Ok. split.
    + intros (y & ? & ys' & ?%IH & [= <-]). by constructor.
    + intros (y & ys' & ? & ? & ->)%Forall2_cons_inv_l.
      exists y. split; [done|]. exists ys'. by rewrite IH.
Qed.

Lemma str_eqb_eq a b : str_eqb a b = true <-> a = b.
Proof. apply bool_decide_eq_true. Qed.

Lemma str_eqb_neq a b : str_eqb a b = false <-> a <> b.
Proof. apply bool_decide_eq_false. Qed.

Lemma mem_true x l : mem x l = true <-> x ∈ l.
Proof. apply bool_decide_eq_true. Qed.

Lemma mem_false x l : mem x l = false <-> x ∉ l.
Proof. apply bool_decide_eq_false. Qed.

Lemma startsWith_spec s p : startsWith s p = true <-> exists t, s = p ++ t.
Proof.
  revert s; induction p as [|c p IH]; intros s; cbn.
  - split; [eauto | by destruct s].
  - destruct s as [|d s]; cbn; [naive_solver|].
    rewrite andb_true_iff, N.eqb_eq, IH. naive_solver.
Qed.

Lemma startsWith_app p t : startsWith (p ++ t) p = true.
Proof. apply startsWith_spec; eauto. Qed.

Lemma includes_spec s p : includes s p = true <-> exists a b, s = a ++ p ++ b.
Proof.
  induction s as [|c s IH]; cbn [includes]; rewrite orb_true_iff, startsWith_spec.
  - split.
    + intros [[t Ht]|?]; [|done]. by exists [], t.
    + intros (a & b & Hab). left. exists b.
      by destruct a; cbn in *.
  - rewrite IH. split.
    + intros [[t Ht]|(a & b & ->)]; [by exists [], t | by exists (c :: a), b].
    + intros (a & b & Hab). destruct a as [|d a]; cbn in Hab; [eauto|].
      injection Hab as <- ->. right; eauto.
Qed.

Lemma byteLength_nonneg s : 0 <= byteLength s.
Proof.
  induction s as [s IH] using (induction_ltof1 _ (@length N)); unfold ltof in IH.
  destruct s as [|c s]; cbn; [lia|].
  repeat case_match; subst;
    repeat match goal with
    | |- context [byteLength ?t] =>
        let H := fresh in assert (0 <= byteLength t) as H by (apply IH; cbn; lia);
        generalize dependent (byteLength t); intros
    end; lia.
Qed.

Lemma re_class_true p lo hi s :
  re_class p lo hi s = true <->
  lo <= js_length s <= hi /\ Forall (fun c => p c = true) s.
Proof.
  unfold re_class. rewrite !andb_true_iff, !Z.leb_le, forallb_forall, Forall_forall.
  setoid_rewrite list_elem_of_In. tauto.
Qed.

(** ** Spans *)
Lemma span_app p s : fst (span p s) ++ snd (span p s) = s.
Proof.
  induction s as [|c s IH]; [done|]. cbn. destruct (p c); [|done].
  destruct (span p s) as [a b]. cbn in *. by rewrite IH.
Qed.

Lemma span_Forall p s : forallb p (fst (span p s)) = true.
Proof.
  induction s as [|c s IH]; [done|]. cbn. destruct (p c) eqn:Hc; [|done].
  destruct (span p s) as [a b]. cbn in *. by rewrite Hc.
Qed.

(** A prefix in the class, then nothing or a character outside it. *)
Lemma span_exact p a b :
  forallb p a = true -> match b with c :: _ => p c = false | [] => True end -> span p (a ++ b) = (a, b).
Proof.
  intros Ha Hb. induction a as [|c a IH]; cbn in *.
  - destruct b as [|c b]; [done|]. cbn. by rewrite Hb.
  - apply andb_true_iff in Ha as [-> Ha]. by rewrite IH.
Qed.

Lemma forallb_impl {A} (p q : A -> bool) l :
  (forall x, p x = true -> q x = true) -> forallb p l = true -> forallb q l = true.
Proof. intros H. rewrite !forallb_forall. auto. Qed.

(** ** Trimming *)
Definition starts_solid (s : jsstr) : Prop := match s with c :: _ => is_ws c = false | [] => True end.

Lemma trim_start_solid s : starts_solid s -> trim_start s = s.
Proof. destruct s as [|c s]; cbn; [done|]. by intros ->. Qed.

Lemma trim_start_length s : (length (trim_start s) <= length s)%nat.
Proof. induction s as [|c s IH]; cbn; [lia|]. destruct (is_ws c); cbn; lia. Qed.

Lemma trim_start_fixed s : trim_start s = s -> starts_solid s.
Proof.
  destruct s as [|c s]; cbn; [done|]. destruct (is_ws c); [|done]. intros H.
  pose proof (trim_start_length s). rewrite H in *. cbn in *. lia.
Qed.

Lemma trim_fixed s : trim s = s -> trim_start s = s /\ trim_end s = s.
Proof.
  unfold trim, trim_end. intros H.
  assert (trim_start s = s) as Hs.
  { pose proof (trim_start_length s) as H1. pose proof (trim_start_length (rev (trim_start s))) as H2.
    assert (length (trim_start s) = length s) as Hl.
    { apply (f_equal (@length N)) in H. rewrite !length_rev in *. lia. }
    clear -Hl. destruct s as [|c s]; [done|]. cbn in *. destruct (is_ws c); [|done].
    pose proof (trim_start_length s). lia. }
  split; [done|]. by rewrite Hs in H.
Qed.

Lemma trim_start_app_solid a c b : is_ws c = false -> trim_start (a ++ c :: b) = trim_start a ++ c :: b.
Proof. intros Hc. induction a as [|d a IH]; cbn; [by rewrite Hc|]. by destruct (is_ws d). Qed.

Lemma trim_end_app_solid a c b : is_ws c = false -> trim_end (a ++ c :: b) = a ++ c :: trim_end b.
Proof.
  intros Hc. unfold trim_end. rewrite rev_app_distr. cbn [rev]. rewrite <- !app_assoc. cbn [app].
  rewrite trim_start_app_solid by done. rewrite rev_app_distr. cbn [rev]. rewrite rev_involutive.
  by rewrite <- app_assoc.
Qed.

Lemma endsWith_last doc c : endsWith doc [c] = true <-> exists d, doc = d ++ [c].
Proof.
  unfold endsWith. cbn [rev app]. rewrite startsWith_spec. split.
  - intros [t Ht]. exists (rev t). apply (f_equal (@rev N)) in Ht. rewrite rev_involutive in Ht.
    by rewrite Ht, rev_app_distr.
  - intros [d ->]. rewrite rev_app_distr. by eexists.
Qed.

Lemma cut_at_exact c a b : c ∉ a -> cut_at c (a ++ c :: b) = Some (a, b).
Proof.
  induction a as [|d a IH]; intros H; cbn [app cut_at].
  - by rewrite N.eqb_refl.
  - apply not_elem_of_cons in H as [H1 H2]. destruct (N.eqb_spec c d); [done|]. by rewrite IH.
Qed.
