(* ===== verification/JsVal.v ===== *)
(** * JavaScript values

    The values a parsed request carries ([unknown] in the source), field
    access, property lookup on object literals (with the names every object
    inherits), and [JSON.stringify].  Definitions here model the language and
    its standard library, not the repository. *)
From S2P Require Import Prelude.

(** Numbers: an integer, a finite non-integer (kept as its shortest decimal
    text, which determines it), and the values [Number.isInteger] refuses. *)
Inductive jsnum :=
  | NumInt (z : Z)
  | NumFrac (text : jsstr)
  | NumNaN
  | NumInf (negative : bool).

Inductive jsval :=
  | JUndef
  | JNull
  | JBool (b : bool)
  | JNum (n : jsnum)
  | JStr (s : jsstr)
  | JArr (xs : list jsval)
  | JObj (fields : list (jsstr * jsval)).

(** Lookup in an association list: the first binding of the key. *)
Fixpoint assoc {A} (k : jsstr) (l : list (jsstr * A)) : option A :=
  match l with
  | [] => None
  | (k', v) :: l' => if str_eqb k k' then Some v else assoc k l'
  end.

(** [v.k] for a field name that is not one of the inherited ones; a missing
    field, and any field of a primitive, reads as [undefined]. *)
Definition field (v : jsval) (k : jsstr) : jsval :=
  match v with
  | JObj fs => default JUndef (assoc k fs)
  | _ => JUndef
  end.

Definition is_nullish (v : jsval) : bool :=
  match v with JUndef | JNull => true | _ => false end.

Definition is_undef (v : jsval) : bool :=
  match v with JUndef => true | _ => false end.

(** [Object.keys(v)] of an object. *)
Definition object_keys (v : jsval) : list jsstr :=
  match v with JObj fs => map fst fs | _ => [] end.

(** ** Property lookup on an object literal used as a table

    [table[key]] answers the own property when there is one, and otherwise
    what [Object.prototype] holds under that name. *)
Definition OBJECT_PROTOTYPE_NAMES : list jsstr :=
  map js ["constructor"; "__defineGetter__"; "__defineSetter__";
          "hasOwnProperty"; "__lookupGetter__"; "__lookupSetter__";
          "isPrototypeOf"; "propertyIsEnumerable"; "toString"; "valueOf";
          "__proto__"; "toLocaleString"]%string.

Inductive prop (A : Type) :=
  | Own (a : A)
  | Inherited (name : jsstr)
  | Absent.
Arguments Own {A} a.
Arguments Inherited {A} name.
Arguments Absent {A}.

Definition table_get {A} (table : list (jsstr * A)) (key : jsstr) : prop A :=
  match assoc key table with
  | Some a => Own a
  | None => if mem key OBJECT_PROTOTYPE_NAMES then Inherited key else Absent
  end.

(** ** [JSON.stringify] *)
Definition hex_digit (n : N) : N :=
  if (n <? 10)%N then (48 + n)%N else (87 + n)%N.

(** [\uXXXX] *)
Definition u_escape (c : N) : jsstr :=
  js "\u" ++ [hex_digit (c / 4096); hex_digit ((c / 256) mod 16);
              hex_digit ((c / 16) mod 16); hex_digit (c mod 16)]%N.

Definition is_high_surrogate (c : N) : bool := ((55296 <=? c) && (c <? 56320))%N.
Definition is_low_surrogate (c : N) : bool := ((56320 <=? c) && (c <? 57344))%N.

Fixpoint json_escape (s : jsstr) : jsstr :=
  match s with
  | [] => []
  | c :: s' =>
      if (c =? 8)%N then js "\b" ++ json_escape s'
      else if (c =? 9)%N then js "\t" ++ json_escape s'
      else if (c =? 10)%N then js "\n" ++ json_escape s'
      else if (c =? 12)%N then js "\f" ++ json_escape s'
      else if (c =? 13)%N then js "\r" ++ json_escape s'
      else if (c =? 34)%N then [92; 34]%N ++ json_escape s'
      else if (c =? 92)%N then js "\\" ++ json_escape s'
      else if (c <? 32)%N || is_low_surrogate c then u_escape c ++ json_escape s'
      else if is_high_surrogate c then
        match s' with
        | d :: s'' =>
            if is_low_surrogate d then c :: d :: json_escape s''
            else u_escape c ++ json_escape s'
        | [] => u_escape c
        end
      else c :: json_escape s'
  end.

Definition json_string (s : jsstr) : jsstr := [34%N] ++ json_escape s ++ [34%N].

(** Integers print in decimal (exact below 10^21). *)
Definition json_number (n : jsnum) : jsstr :=
  match n with
  | NumInt z => dec z
  | NumFrac t => t
  | NumNaN | NumInf _ => js "null"
  end.

(** [None] is the [undefined] that [JSON.stringify(undefined)] returns. *)
Fixpoint json_stringify (v : jsval) : option jsstr :=
  match v with
  | JUndef => None
  | JNull => Some (js "null")
  | JBool b => Some (js (if b then "true" else "false"))
  | JNum n => Some (json_number n)
  | JStr s => Some (json_string s)
  | JArr xs =>
      Some (js "[" ++ join_with (js ",")
        (map (fun x => default (js "null") (json_stringify x)) xs) ++ js "]")
  | JObj fs =>
      Some (js "{" ++ join_with (js ",")
        (omap (fun kv => match json_stringify (snd kv) with
                         | Some t => Some (json_string (fst kv) ++ js ":" ++ t)
                         | None => None
                         end) fs) ++ js "}")
  end.

(** [`${JSON.stringify(v)}`] *)
Definition json_text (v : jsval) : jsstr := default (js "undefined") (json_stringify v).

(** ** Lemmas *)
Lemma assoc_Some_In {A} k (l : list (jsstr * A)) v : assoc k l = Some v -> (k, v) ∈ l.
Proof.
  induction l as [|[k' v'] l IH]; cbn; [done|].
  destruct (str_eqb k k') eqn:E.
  - apply str_eqb_eq in E as ->. intros [= ->]. apply list_elem_of_here.
  - intros H. apply list_elem_of_further. auto.
Qed.

Lemma assoc_None {A} k (l : list (jsstr * A)) : assoc k l = None <-> k ∉ map fst l.
Proof.
  induction l as [|[k' v'] l IH]; cbn.
  - split; [intros _; apply not_elem_of_nil | done].
  - rewrite not_elem_of_cons, <- IH. destruct (str_eqb k k') eqn:E.
    + apply str_eqb_eq in E as ->. naive_solver.
    + apply str_eqb_neq in E. tauto.
Qed.

Lemma table_get_Own {A} (t : list (jsstr * A)) k a :
  table_get t k = Own a <-> assoc k t = Some a.
Proof.
  unfold table_get.
  destruct (assoc k t), (mem k OBJECT_PROTOTYPE_NAMES); naive_solver.
Qed.

Lemma table_get_Absent {A} (t : list (jsstr * A)) k :
  table_get t k = Absent <-> k ∉ map fst t /\ k ∉ OBJECT_PROTOTYPE_NAMES.
Proof.
  unfold table_get. rewrite <- assoc_None, <- mem_false.
  destruct (assoc k t), (mem k OBJECT_PROTOTYPE_NAMES); naive_solver.
Qed.
