(* ===== verification/Json.v ===== *)
(** * JSON.parse

    The text of a JSON value and the value it denotes: white space, literals,
    strings with their escapes, numbers rounded to a double, arrays and objects
    (a repeated key keeps its place and takes the last value; keys that are array
    indices come first).  Definitions here model the language, not the
    repository. *)
From stdpp Require Import sorting.
From S2P Require Import Prelude JsVal.
Open Scope Z_scope.

Definition is_json_ws (c : N) : bool := ((c =? 32) || (c =? 9) || (c =? 10) || (c =? 13))%N.

Fixpoint skip_ws (s : jsstr) : jsstr :=
  match s with c :: r => if is_json_ws c then skip_ws r else s | [] => [] end.

(** ** Strings *)
Definition hex_value (c : N) : option N :=
  if is_digit c then Some (c - 48)%N
  else if ((97 <=? c) && (c <=? 102))%N then Some (c - 87)%N
  else if ((65 <=? c) && (c <=? 70))%N then Some (c - 55)%N
  else None.

Definition unit_of_hex (a b c d : N) : option N :=
  match hex_value a, hex_value b, hex_value c, hex_value d with
  | Some a, Some b, Some c, Some d => Some (4096 * a + 256 * b + 16 * c + d)%N
  | _, _, _, _ => None
  end.

(** The unit a one-letter escape stands for. *)
Definition escaped (e : N) : option N :=
  if one_of "/\" e || (e =? 34)%N then Some e
  else assoc [e] [(js "b", 8); (js "f", 12); (js "n", 10); (js "r", 13); (js "t", 9)]%N.

Definition push (c : N) (o : option (jsstr * jsstr)) : option (jsstr * jsstr) :=
  match o with Some (t, rest) => Some (c :: t, rest) | None => None end.

(** The rest of a string after its opening quote. *)
Fixpoint json_chars (s : jsstr) : option (jsstr * jsstr) :=
  match s with
  | [] => None
  | c :: r =>
      if (c =? 34)%N then Some ([], r)
      else if (c =? 92)%N then
        match r with
        | [] => None
        | e :: r' =>
            if (e =? 117)%N then
              match r' with
              | a :: b :: c' :: d :: r'' =>
                  match unit_of_hex a b c' d with Some u => push u (json_chars r'') | None => None end
              | _ => None
              end
            else match escaped e with Some u => push u (json_chars r') | None => None end
        end
      else if (c <? 32)%N then None
      else push c (json_chars r)
  end.

(** ** Numbers *)
Definition digits_value (s : jsstr) : Z := foldl (fun acc c => 10 * acc + (Z.of_N c - 48)) 0 s.

(** The quotient of two positive integers rounded to the nearest, ties to even. *)
Definition round_div (n d : Z) : Z :=
  let q := n / d in
  let r := 2 * (n mod d) in
  if (d <? r) || ((r =? d) && Z.odd q) then q + 1 else q.

(** [n/d * 2^-k], as a quotient. *)
Definition scale (n d k : Z) : Z * Z := if 0 <=? k then (n, d * 2 ^ k) else (n * 2 ^ (- k), d).

(** The double nearest to [n/d] (both positive), as [q * 2^k]. *)
Definition nearest_double (n d : Z) : Z * Z :=
  let l := Z.log2 n - Z.log2 d in
  let '(a, b) := scale n d l in
  let k := Z.max (-1074) (if a <? b then l - 53 else l - 52) in
  let '(a, b) := scale n d k in
  (round_div a b, k).

Definition same_double (x y : Z * Z) : bool :=
  let m := Z.min (snd x) (snd y) in fst x * 2 ^ (snd x - m) =? fst y * 2 ^ (snd y - m).

(** [m * 10^e], as a quotient. *)
Definition decimal (m e : Z) : Z * Z := if 0 <=? e then (m * 10 ^ e, 1) else (m, 10 ^ (- e)).

(** The least [p] with [n/d < 10^p], looked for downwards. *)
Fixpoint decimal_point (fuel : nat) (n d p : Z) : Z :=
  match fuel with
  | O => p
  | S fuel => let '(a, b) := decimal 1 (p - 1) in if n * b <? a * d then decimal_point fuel n d (p - 1) else p
  end.

(** The shortest digits that read back as the double [q * 2^k] ([k < 0]). *)
Fixpoint shortest_digits (fuel : nat) (q k p len : Z) : Z * Z :=
  let '(a, b) := (q, 2 ^ (- k)) in
  let '(x, y) := decimal 1 (len - p) in
  let s := round_div (a * x) (b * y) in
  match fuel with
  | O => (s, len)
  | S fuel =>
      let '(n, d) := decimal s (p - len) in
      if (0 <? s) && same_double (nearest_double n d) (q, k) then (s, len) else shortest_digits fuel q k p (len + 1)
  end.

Definition zeros (n : Z) : jsstr := repeat 48%N (Z.to_nat n).

(** [Number::toString] of a non-integer: digits and the place of the point. *)
Definition fraction_text (digits : jsstr) (p : Z) : jsstr :=
  if 0 <? p then take (Z.to_nat p) digits ++ js "." ++ drop (Z.to_nat p) digits
  else if -6 <? p then js "0." ++ zeros (- p) ++ digits
  else match digits with
       | [d] => [d] ++ js "e" ++ dec (p - 1)
       | d :: ds => [d] ++ js "." ++ ds ++ js "e" ++ dec (p - 1)
       | [] => []
       end.

Definition signed (neg : bool) (z : Z) : Z := if neg then - z else z.

Definition double_number (neg : bool) (q k : Z) : jsnum :=
  if 0 <=? k then
    if 2 ^ 1024 <=? q * 2 ^ k then NumInf neg else NumInt (signed neg (q * 2 ^ k))
  else if q mod 2 ^ (- k) =? 0 then NumInt (signed neg (q / 2 ^ (- k)))
  else
    let p := decimal_point 400 q (2 ^ (- k)) 17 in
    let '(s, len) := shortest_digits 17 q k p 1 in
    let '(digits, p) := if len <? js_length (dec s) then (js "1", p + 1) else (dec s, p) in   (* s rounded up to 10^len *)
    NumFrac ((if neg then js "-" else []) ++ fraction_text digits p).

(** The number [m * 10^e]; a literal far outside the range of doubles is not
    expanded. *)
Definition decimal_number (neg : bool) (digits : jsstr) (e : Z) : jsnum :=
  let m := digits_value digits in
  let size := Z.of_nat (length digits) + e in
  if (m =? 0) || (size <? -400) then NumInt 0
  else if (e =? 0) && (m <=? 2 ^ 53) then NumInt (signed neg m)
  else if (400 <? size) && (400 <? Z.log2 m / 4 + e) then NumInf neg
  else let '(n, d) := decimal m e in let '(q, k) := nearest_double n d in double_number neg q k.

(** The digits of an integer part: no leading zero. *)
Definition integer_part (s : jsstr) : option (jsstr * jsstr) :=
  let '(ds, rest) := span is_digit s in
  match ds with
  | [] => None
  | c :: (_ :: _) => if (c =? 48)%N then None else Some (ds, rest)
  | _ => Some (ds, rest)
  end.

(** [(\.[0-9]+)?] *)
Definition fraction_part (s : jsstr) : option (jsstr * jsstr) :=
  match s with
  | c :: r =>
      if (c =? 46)%N then match span is_digit r with ([], _) => None | (ds, rest) => Some (ds, rest) end else Some ([], s)
  | [] => Some ([], s)
  end.

(** [([eE][+-]?[0-9]+)?] *)
Definition exponent_part (s : jsstr) : option (Z * jsstr) :=
  match s with
  | c :: r =>
      if one_of "eE" c then
        let '(neg, r) := match r with c :: r' => if (c =? 45)%N then (true, r') else if (c =? 43)%N then (false, r') else (false, r) | [] => (false, r) end in
        match span is_digit r with ([], _) => None | (ds, rest) => Some (signed neg (digits_value ds), rest) end
      else Some (0, s)
  | [] => Some (0, s)
  end.

Definition json_num (s : jsstr) : option (jsval * jsstr) :=
  let '(neg, s) := match s with c :: r => if (c =? 45)%N then (true, r) else (false, s) | [] => (false, s) end in
  '(int, s) ← integer_part s;
  '(frac, s) ← fraction_part s;
  '(e, s) ← exponent_part s;
  Some (JNum (decimal_number neg (int ++ frac) (e - Z.of_nat (length frac))), s).

(** ** Objects *)

(** [o[k] = v] on the own properties of an object. *)
Fixpoint set_key (k : jsstr) (v : jsval) (fs : list (jsstr * jsval)) : list (jsstr * jsval) :=
  match fs with
  | [] => [(k, v)]
  | (k', v') :: fs' => if str_eqb k k' then (k', v) :: fs' else (k', v') :: set_key k v fs'
  end.

(** [{ ...fs, ...extra }] *)
Definition merge_fields (fs extra : list (jsstr * jsval)) : list (jsstr * jsval) :=
  foldl (fun acc kv => set_key (fst kv) (snd kv) acc) fs extra.

(** The array index a key names. *)
Definition array_index (k : jsstr) : option Z :=
  if (match integer_part k with Some (_, []) => true | _ => false end) && (digits_value k <? 2 ^ 32 - 1)
  then Some (digits_value k) else None.

Definition index_before (a b : jsstr * jsval) : Prop := digits_value (fst a) <= digits_value (fst b).
#[export] Instance index_before_dec : RelDecision index_before := fun a b => Z_le_dec _ _.

Definition has_index (kv : jsstr * jsval) : bool := match array_index (fst kv) with Some _ => true | None => false end.

(** Own properties in their enumeration order. *)
Definition key_order (fs : list (jsstr * jsval)) : list (jsstr * jsval) :=
  merge_sort index_before (List.filter has_index fs) ++ List.filter (fun kv => negb (has_index kv)) fs.

Definition object_of (members : list (jsstr * jsval)) : jsval := JObj (key_order (merge_fields [] members)).

Lemma assoc_set_key k v fs : assoc k (set_key k v fs) = Some v.
Proof.
  induction fs as [|[a b] fs IH]; cbn [set_key assoc].
  - by rewrite (proj2 (str_eqb_eq k k) eq_refl).
  - destruct (str_eqb k a) eqn:E; cbn [assoc]; by rewrite E.
Qed.

Lemma field_set_key_same k v fs : field (JObj (set_key k v fs)) k = v.
Proof. cbn [field]. by rewrite assoc_set_key. Qed.

Lemma field_set_key_other k v fs k' : k <> k' -> field (JObj (set_key k v fs)) k' = field (JObj fs) k'.
Proof.
  intros Hne. cbn [field]. f_equal. induction fs as [|[a b] fs IH]; cbn [set_key assoc].
  - rewrite (proj2 (str_eqb_neq k' k)); [done | congruence].
  - destruct (str_eqb k a) eqn:E; cbn [assoc].
    + apply str_eqb_eq in E as <-. by rewrite (proj2 (str_eqb_neq k' k)) by congruence.
    + by rewrite IH.
Qed.

(** A spread object: its own fields over the ones it extends. *)
Lemma field_merge base extra k : k ∉ map fst extra -> field (JObj (merge_fields base extra)) k = field (JObj base) k.
Proof.
  unfold merge_fields. revert base. induction extra as [|[a b] extra IH]; intros base; cbn [foldl map fst]; [done|].
  rewrite not_elem_of_cons. intros [Hne Hk]. rewrite IH by done. by apply field_set_key_other.
Qed.

Lemma filtered_keys {A} (p : jsstr * A -> bool) fs k : k ∈ map fst (List.filter p fs) -> k ∈ map fst fs.
Proof.
  rewrite !list_elem_of_In, !in_map_iff. intros (kv & <- & H). apply filter_In in H as [H _]. by exists kv.
Qed.

Lemma filter_NoDup {A} (p : jsstr * A -> bool) fs : NoDup (map fst fs) -> NoDup (map fst (List.filter p fs)).
Proof.
  induction fs as [|[a b] fs IH]; cbn [List.filter map fst]; [done|]. rewrite NoDup_cons. intros [Ha Hf].
  destruct (p (a, b)); cbn [map fst]; [|by apply IH]. rewrite NoDup_cons. split; [|by apply IH].
  intros H%filtered_keys. done.
Qed.

Lemma field_merge_in base extra k v : NoDup (map fst extra) -> assoc k extra = Some v -> field (JObj (merge_fields base extra)) k = v.
Proof.
  unfold merge_fields. revert base. induction extra as [|[a b] extra IH]; intros base; cbn [foldl map fst assoc]; [done|].
  rewrite NoDup_cons. intros [Ha Hn]. destruct (str_eqb k a) eqn:E.
  - apply str_eqb_eq in E as ->. intros [= ->]. change (foldl _ _ extra) with (merge_fields (set_key a v base) extra).
    rewrite field_merge by done. cbn [field]. by rewrite assoc_set_key.
  - by apply IH.
Qed.

(** ** Values *)
Definition literal (s : jsstr) : option (jsval * jsstr) :=
  if startsWith s (js "true") then Some (JBool true, drop 4 s)
  else if startsWith s (js "false") then Some (JBool false, drop 5 s)
  else if startsWith s (js "null") then Some (JNull, drop 4 s)
  else json_num s.

Fixpoint json_value (n : nat) (s : jsstr) : option (jsval * jsstr) :=
  match n with
  | O => None
  | S n =>
      match skip_ws s with
      | [] => None
      | c :: r =>
          if (c =? 34)%N then match json_chars r with Some (t, rest) => Some (JStr t, rest) | None => None end
          else if (c =? 91)%N then
            match skip_ws r with
            | d :: r' => if (d =? 93)%N then Some (JArr [], r') else
                match json_elements n r with Some (vs, rest) => Some (JArr vs, rest) | None => None end
            | [] => None
            end
          else if (c =? 123)%N then
            match skip_ws r with
            | d :: r' => if (d =? 125)%N then Some (JObj [], r') else
                match json_members n r with Some (ms, rest) => Some (object_of ms, rest) | None => None end
            | [] => None
            end
          else literal (c :: r)
      end
  end
with json_elements (n : nat) (s : jsstr) : option (list jsval * jsstr) :=
  match n with
  | O => None
  | S n =>
      '(v, r) ← json_value n s;
      match skip_ws r with
      | c :: r' =>
          if (c =? 44)%N then '(vs, rest) ← json_elements n r'; Some (v :: vs, rest)
          else if (c =? 93)%N then Some ([v], r') else None
      | [] => None
      end
  end
with json_members (n : nat) (s : jsstr) : option (list (jsstr * jsval) * jsstr) :=
  match n with
  | O => None
  | S n =>
      match skip_ws s with
      | q :: r =>
          if (q =? 34)%N then
            '(k, r) ← json_chars r;
            match skip_ws r with
            | d :: r =>
                if (d =? 58)%N then
                  '(v, r) ← json_value n r;
                  match skip_ws r with
                  | c :: r' =>
                      if (c =? 44)%N then '(ms, rest) ← json_members n r'; Some ((k, v) :: ms, rest)
                      else if (c =? 125)%N then Some ([(k, v)], r') else None
                  | [] => None
                  end
                else None
            | [] => None
            end
          else None
      | [] => None
      end
  end.

(** [JSON.parse(s)]; [None]: it throws.  Every nested value costs two units of
    fuel and at least one unit of text. *)
Definition json_parse (s : jsstr) : option jsval :=
  match json_value (2 * length s + 2) s with
  | Some (v, rest) => match skip_ws rest with [] => Some v | _ => None end
  | None => None
  end.

(** ** [Number(v)] *)
Definition radix_digits (base : N) (s : jsstr) : option Z :=
  match s with
  | [] => None
  | _ => foldl (fun acc c => match acc, hex_value c with
                             | Some z, Some d => if (d <? base)%N then Some (Z.of_N base * z + Z.of_N d) else None
                             | _, _ => None
                             end) (Some 0) s
  end.

Definition radix_literal (s : jsstr) : option Z :=
  match s with
  | z :: x :: r =>
      if negb (z =? 48)%N then None
      else if one_of "xX" x then radix_digits 16 r
      else if one_of "oO" x then radix_digits 8 r
      else if one_of "bB" x then radix_digits 2 r
      else None
  | _ => None
  end.

(** [[+-]?(Infinity|d+(.d{0,})?|.d+)(e..)?], whole. *)
Definition decimal_literal (s : jsstr) : option jsnum :=
  let '(neg, s) := match s with c :: r => if (c =? 45)%N then (true, r) else if (c =? 43)%N then (false, r) else (false, s) | [] => (false, s) end in
  if str_eqb s (js "Infinity") then Some (NumInf neg) else
  let '(int, s) := span is_digit s in
  let '(frac, s) := match s with c :: r => if (c =? 46)%N then span is_digit r else ([], s) | [] => ([], s) end in
  match int ++ frac, exponent_part s with
  | _ :: _, Some (e, []) => Some (decimal_number neg (int ++ frac) (e - Z.of_nat (length frac)))
  | _, _ => None
  end.

Definition number_of_text (s : jsstr) : jsnum :=
  match trim s with
  | [] => NumInt 0
  | t => match radix_literal t with
         | Some z => decimal_number false (dec z) 0
         | None => default NumNaN (decimal_literal t)
         end
  end.
