(* ===== verification/Types.v ===== *)
(** * Protocol and domain types (broker/src/types.ts)

    The session and worker states, the operation names with their guard-class
    partition, the worker-policy fields no request may carry, the session
    record with its partial patches, and the request envelope. *)
From Stdlib Require Import QArith.
From S2P Require Import Prelude JsVal.
Open Scope Z_scope.

(** ** States *)
Inductive SessionState :=
  | HOST_READ_ONLY | CREATING_SANDBOX | SANDBOX_ACTIVE | RESULT_READY
  | APPLY_PENDING | APPLIED | REJECTED | RETAINED | FAILED_CLOSED.

Inductive WorkerState := CREATING | ACTIVE | PAUSED | DESTROYED | FAILED.

#[export] Instance SessionState_eq_dec : EqDecision SessionState.
Proof. solve_decision. Defined.
#[export] Instance WorkerState_eq_dec : EqDecision WorkerState.
Proof. solve_decision. Defined.

#[export] Program Instance SessionState_finite : finite.Finite SessionState := {|
  finite.enum := [HOST_READ_ONLY; CREATING_SANDBOX; SANDBOX_ACTIVE; RESULT_READY;
                  APPLY_PENDING; APPLIED; REJECTED; RETAINED; FAILED_CLOSED] |}.
Next Obligation. repeat (constructor; [set_solver|]). constructor. Qed.
Next Obligation. intros []; set_solver. Qed.

Definition state_name (s : SessionState) : jsstr :=
  js match s with
     | HOST_READ_ONLY => "HOST_READ_ONLY" | CREATING_SANDBOX => "CREATING_SANDBOX"
     | SANDBOX_ACTIVE => "SANDBOX_ACTIVE" | RESULT_READY => "RESULT_READY"
     | APPLY_PENDING => "APPLY_PENDING" | APPLIED => "APPLIED"
     | REJECTED => "REJECTED" | RETAINED => "RETAINED"
     | FAILED_CLOSED => "FAILED_CLOSED"
     end.

Definition worker_state_name (w : WorkerState) : jsstr :=
  js match w with
     | CREATING => "CREATING" | ACTIVE => "ACTIVE" | PAUSED => "PAUSED"
     | DESTROYED => "DESTROYED" | FAILED => "FAILED"
     end.

(** ** Operations

    One constructor per member of the [Operation] union, in the order of the
    declaration. *)
Module Op.
Inductive Operation :=
  | ensureWorker | workerStatus | exec | readFile | writeFile | applyPatch
  | listDir | grep | diff | prepareResult | applyResult | discardResult
  | keepResult | destroyWorker | listWorkers | metrics | sddStatus
  | sddContinue | sddArchiveCompose | sddTaskResult | reviewAssess
  | reviewModeStatus | reviewStatus | reviewLensContext | sddAttemptGrant
  | planDocAppend | planDocWrite | taskMark | testRun | gateVerdict
  | sandboxResult | sandboxResultInstall | bindSessionAgent | reviewStart
  | reviewCaptureResult | reviewCaptureUnachievable
  | reviewAcknowledgeApproved | reviewCaptureCorrectionPlan
  | reviewCaptureRefuter | reviewCaptureValidation | reviewValidate
  | reviewRecover | reviewMaterialize | reviewDiffRead | reviewPipelineRun
  | reviewPersist | reviewPersistPreflight | gitCommit | gitClearCommitIntent
  | gitPush | ghIssueCreate | hostSystemSummary | hostMemory | hostDiskUsage
  | hostNetworkListeners | hostProcessList | hostServiceStatus
  | hostServiceLogs | hostTailscaleStatus | hostDockerList | hostDockerLogs
  | copyOutInfo | copyOut | copyInInfo | copyIn | policy | toolAdmission
  | registerProject | resultDiff | advisorAsk | advisorGet | advisorList
  | advisorRead | advisorRespond | evidenceKeep.

#[export] Instance Operation_eq_dec : EqDecision Operation.
Proof. solve_decision. Defined.

(** The operation's name on the wire. *)
Definition name (op : Operation) : jsstr :=
  js match op with
     | ensureWorker => "ensureWorker" | workerStatus => "workerStatus"
     | exec => "exec" | readFile => "readFile" | writeFile => "writeFile"
     | applyPatch => "applyPatch" | listDir => "listDir" | grep => "grep"
     | diff => "diff" | prepareResult => "prepareResult"
     | applyResult => "applyResult" | discardResult => "discardResult"
     | keepResult => "keepResult" | destroyWorker => "destroyWorker"
     | listWorkers => "listWorkers" | metrics => "metrics"
     | sddStatus => "sddStatus" | sddContinue => "sddContinue"
     | sddArchiveCompose => "sddArchiveCompose"
     | sddTaskResult => "sddTaskResult" | reviewAssess => "reviewAssess"
     | reviewModeStatus => "reviewModeStatus" | reviewStatus => "reviewStatus"
     | reviewLensContext => "reviewLensContext"
     | sddAttemptGrant => "sddAttemptGrant" | planDocAppend => "planDocAppend"
     | planDocWrite => "planDocWrite" | taskMark => "taskMark"
     | testRun => "testRun" | gateVerdict => "gateVerdict"
     | sandboxResult => "sandboxResult"
     | sandboxResultInstall => "sandboxResultInstall"
     | bindSessionAgent => "bindSessionAgent" | reviewStart => "reviewStart"
     | reviewCaptureResult => "reviewCaptureResult"
     | reviewCaptureUnachievable => "reviewCaptureUnachievable"
     | reviewAcknowledgeApproved => "reviewAcknowledgeApproved"
     | reviewCaptureCorrectionPlan => "reviewCaptureCorrectionPlan"
     | reviewCaptureRefuter => "reviewCaptureRefuter"
     | reviewCaptureValidation => "reviewCaptureValidation"
     | reviewValidate => "reviewValidate" | reviewRecover => "reviewRecover"
     | reviewMaterialize => "reviewMaterialize"
     | reviewDiffRead => "reviewDiffRead"
     | reviewPipelineRun => "reviewPipelineRun"
     | reviewPersist => "reviewPersist"
     | reviewPersistPreflight => "reviewPersistPreflight"
     | gitCommit => "gitCommit" | gitClearCommitIntent => "gitClearCommitIntent"
     | gitPush => "gitPush" | ghIssueCreate => "ghIssueCreate"
     | hostSystemSummary => "hostSystemSummary" | hostMemory => "hostMemory"
     | hostDiskUsage => "hostDiskUsage"
     | hostNetworkListeners => "hostNetworkListeners"
     | hostProcessList => "hostProcessList"
     | hostServiceStatus => "hostServiceStatus"
     | hostServiceLogs => "hostServiceLogs"
     | hostTailscaleStatus => "hostTailscaleStatus"
     | hostDockerList => "hostDockerList" | hostDockerLogs => "hostDockerLogs"
     | copyOutInfo => "copyOutInfo" | copyOut => "copyOut"
     | copyInInfo => "copyInInfo" | copyIn => "copyIn" | policy => "policy"
     | toolAdmission => "toolAdmission" | registerProject => "registerProject"
     | resultDiff => "resultDiff" | advisorAsk => "advisorAsk"
     | advisorGet => "advisorGet" | advisorList => "advisorList"
     | advisorRead => "advisorRead" | advisorRespond => "advisorRespond"
     | evidenceKeep => "evidenceKeep"
     end.
End Op.
Export (hints) Op.
Abbreviation Operation := Op.Operation.

(** Where a sandbox operation is guarded against a read-only orchestrator. *)
Inductive SandboxGuardClass := DispatchGuard | HandlerGuard | Exempt.

#[export] Instance SandboxGuardClass_eq_dec : EqDecision SandboxGuardClass.
Proof. solve_decision. Defined.

Definition SANDBOX_GUARD_CLASS (op : Operation) : SandboxGuardClass :=
  match op with
   | Op.ensureWorker => HandlerGuard
   | Op.workerStatus | Op.exec | Op.readFile | Op.writeFile | Op.applyPatch
   | Op.listDir | Op.grep | Op.diff | Op.prepareResult | Op.applyResult
   | Op.discardResult | Op.keepResult | Op.destroyWorker | Op.listWorkers => DispatchGuard
   | Op.metrics | Op.sddStatus | Op.sddContinue | Op.sddArchiveCompose
   | Op.sddTaskResult | Op.reviewAssess | Op.reviewModeStatus
   | Op.reviewStatus | Op.reviewLensContext | Op.sddAttemptGrant
   | Op.planDocAppend | Op.planDocWrite | Op.taskMark | Op.testRun
   | Op.gateVerdict | Op.sandboxResult | Op.sandboxResultInstall
   | Op.bindSessionAgent | Op.reviewStart | Op.reviewCaptureResult
   | Op.reviewCaptureUnachievable | Op.reviewAcknowledgeApproved
   | Op.reviewCaptureCorrectionPlan | Op.reviewCaptureRefuter
   | Op.reviewCaptureValidation | Op.reviewValidate | Op.reviewRecover
   | Op.reviewMaterialize | Op.reviewDiffRead | Op.reviewPipelineRun
   | Op.reviewPersist | Op.reviewPersistPreflight | Op.gitCommit
   | Op.gitClearCommitIntent | Op.gitPush | Op.ghIssueCreate
   | Op.hostSystemSummary | Op.hostMemory | Op.hostDiskUsage
   | Op.hostNetworkListeners | Op.hostProcessList | Op.hostServiceStatus
   | Op.hostServiceLogs | Op.hostTailscaleStatus | Op.hostDockerList
   | Op.hostDockerLogs => Exempt
   | Op.copyOutInfo | Op.copyOut | Op.copyInInfo | Op.copyIn => DispatchGuard
   | Op.policy | Op.toolAdmission | Op.registerProject | Op.resultDiff
   | Op.advisorAsk | Op.advisorGet | Op.advisorList | Op.advisorRead
   | Op.advisorRespond | Op.evidenceKeep => Exempt
  end.

(** Every operation of the protocol, in the source's order. *)
Definition OPERATIONS : list Operation :=
  [Op.ensureWorker; Op.workerStatus; Op.exec; Op.readFile; Op.writeFile;
 Op.applyPatch; Op.listDir; Op.grep; Op.diff; Op.prepareResult; Op.applyResult;
 Op.discardResult; Op.keepResult; Op.destroyWorker; Op.listWorkers; Op.metrics;
 Op.sddStatus; Op.sddContinue; Op.sddArchiveCompose; Op.sddTaskResult;
 Op.reviewAssess; Op.reviewModeStatus; Op.reviewStatus; Op.reviewLensContext;
 Op.sddAttemptGrant; Op.planDocAppend; Op.planDocWrite; Op.taskMark; Op.testRun;
 Op.gateVerdict; Op.sandboxResult; Op.sandboxResultInstall; Op.bindSessionAgent;
 Op.reviewStart; Op.reviewCaptureResult; Op.reviewCaptureUnachievable;
 Op.reviewAcknowledgeApproved; Op.reviewCaptureCorrectionPlan;
 Op.reviewCaptureRefuter; Op.reviewCaptureValidation; Op.reviewValidate;
 Op.reviewRecover; Op.reviewMaterialize; Op.reviewDiffRead;
 Op.reviewPipelineRun; Op.reviewPersist; Op.reviewPersistPreflight;
 Op.gitCommit; Op.gitClearCommitIntent; Op.gitPush; Op.ghIssueCreate;
 Op.hostSystemSummary; Op.hostMemory; Op.hostDiskUsage; Op.hostNetworkListeners;
 Op.hostProcessList; Op.hostServiceStatus; Op.hostServiceLogs;
 Op.hostTailscaleStatus; Op.hostDockerList; Op.hostDockerLogs; Op.copyOutInfo;
 Op.copyOut; Op.copyInInfo; Op.copyIn; Op.policy; Op.toolAdmission;
 Op.registerProject; Op.resultDiff; Op.advisorAsk; Op.advisorGet;
 Op.advisorList; Op.advisorRead; Op.advisorRespond; Op.evidenceKeep].

Definition SANDBOX_OPERATIONS : list Operation :=
  List.filter (fun op => bool_decide (SANDBOX_GUARD_CLASS op = DispatchGuard))
    OPERATIONS.

(** [OPERATIONS.includes(name)], as the operation it names. *)
Definition operation_of_name (n : jsstr) : option Operation :=
  List.find (fun op => str_eqb (Op.name op) n) OPERATIONS.

(** Worker policy fields a request must never supply. *)
Definition FORBIDDEN_WORKER_FIELDS : list jsstr :=
  map js ["image"; "hostMount"; "mounts"; "privileged"; "device"; "devices";
          "hostNetwork"; "network"; "securityProfile"; "security_profile";
          "fsConf"; "runtimeConf"; "secretConf"; "rawMsbConfig"]%string.

(** ** Request envelope *)
Record BrokerRequestEnvelope := {
  req_id : jsstr;
  req_operation : Operation;
  req_sessionID : jsstr;
  req_agent : option jsstr;
  req_payload : jsval;
}.

(** ** Session record

    The optional fields are [option]s: [None] is the absent (or [undefined])
    field.  [snapshotIdentity] is the field service.ts adds to the record. *)
Record SnapshotIdentity := {
  si_commit : jsstr; si_tree : jsstr; si_source : jsstr;
  si_resultRef : option jsstr; si_headSha : jsstr;
}.

Record SessionRecord := {
  sessionID : jsstr;
  state : SessionState;
  projectID : option jsstr;
  workerName : option jsstr;
  workerState : option WorkerState;
  workerLifecycleEntered : option bool;
  agent : option jsstr;
  baselineRef : option jsstr;
  resultRef : option jsstr;
  installedCommit : option jsstr;
  pendingCommit : option (jsstr * jsstr);
  committedCommit : option jsstr;
  error : option jsstr;
  reapedAt : option jsstr;
  lastOperation : option jsstr;
  resources : option (Q * Z);
  snapshotIdentity : option SnapshotIdentity;
  createdAt : jsstr;
  updatedAt : jsstr;
}.

(** One property of a [Partial<SessionRecord>].  A property written with the
    value [undefined] is [None]: spreading it clears the field. *)
Inductive field_patch :=
  | P_sessionID (v : jsstr)
  | P_state (v : SessionState)
  | P_projectID (v : option jsstr)
  | P_workerName (v : option jsstr)
  | P_workerState (v : option WorkerState)
  | P_workerLifecycleEntered (v : option bool)
  | P_agent (v : option jsstr)
  | P_baselineRef (v : option jsstr)
  | P_resultRef (v : option jsstr)
  | P_installedCommit (v : option jsstr)
  | P_pendingCommit (v : option (jsstr * jsstr))
  | P_committedCommit (v : option jsstr)
  | P_error (v : option jsstr)
  | P_reapedAt (v : option jsstr)
  | P_lastOperation (v : option jsstr)
  | P_resources (v : option (Q * Z))
  | P_snapshotIdentity (v : option SnapshotIdentity)
  | P_createdAt (v : jsstr)
  | P_updatedAt (v : jsstr).

(** [{ ...r, [k]: v }] *)
Definition patch_field (p : field_patch) (r : SessionRecord) : SessionRecord :=
  {|
    sessionID := match p with P_sessionID v => v | _ => sessionID r end;
    state := match p with P_state v => v | _ => state r end;
    projectID := match p with P_projectID v => v | _ => projectID r end;
    workerName := match p with P_workerName v => v | _ => workerName r end;
    workerState := match p with P_workerState v => v | _ => workerState r end;
    workerLifecycleEntered := match p with P_workerLifecycleEntered v => v | _ => workerLifecycleEntered r end;
    agent := match p with P_agent v => v | _ => agent r end;
    baselineRef := match p with P_baselineRef v => v | _ => baselineRef r end;
    resultRef := match p with P_resultRef v => v | _ => resultRef r end;
    installedCommit := match p with P_installedCommit v => v | _ => installedCommit r end;
    pendingCommit := match p with P_pendingCommit v => v | _ => pendingCommit r end;
    committedCommit := match p with P_committedCommit v => v | _ => committedCommit r end;
    error := match p with P_error v => v | _ => error r end;
    reapedAt := match p with P_reapedAt v => v | _ => reapedAt r end;
    lastOperation := match p with P_lastOperation v => v | _ => lastOperation r end;
    resources := match p with P_resources v => v | _ => resources r end;
    snapshotIdentity := match p with P_snapshotIdentity v => v | _ => snapshotIdentity r end;
    createdAt := match p with P_createdAt v => v | _ => createdAt r end;
    updatedAt := match p with P_updatedAt v => v | _ => updatedAt r end;
  |}.

(** [{ ...r, ...patch }] *)
Definition apply_patch (ps : list field_patch) (r : SessionRecord) : SessionRecord :=
  fold_left (fun r p => patch_field p r) ps r.

(** ** Lemmas *)
Lemma OPERATIONS_complete op : op ∈ OPERATIONS.
Proof. destruct op; vm_compute; repeat first [apply list_elem_of_here | apply list_elem_of_further]. Qed.

Lemma apply_patch_app ps qs r : apply_patch (ps ++ qs) r = apply_patch qs (apply_patch ps r).
Proof. apply fold_left_app. Qed.
