(* ===== verification/State.v ===== *)
(** * Session state machine and store (broker/src/state.ts)

    The legal transition graph, the terminal states, and the [SessionStore]
    operations over the session directory: a finite map from session id to the
    content of its record file. *)
From S2P Require Import Prelude JsVal Types.

(** ** Transition graph *)
Definition LEGAL_TRANSITIONS (from : SessionState) : list SessionState :=
  match from with
  | HOST_READ_ONLY => [CREATING_SANDBOX]
  | CREATING_SANDBOX => [SANDBOX_ACTIVE; FAILED_CLOSED; HOST_READ_ONLY]
  | SANDBOX_ACTIVE => [CREATING_SANDBOX; RESULT_READY; FAILED_CLOSED; RETAINED]
  | RESULT_READY =>
      [APPLY_PENDING; REJECTED; RETAINED; SANDBOX_ACTIVE; CREATING_SANDBOX]
  | APPLY_PENDING => [APPLIED; FAILED_CLOSED; RESULT_READY]
  | APPLIED => [RETAINED]
  | REJECTED => []
  | RETAINED => [RESULT_READY]
  | FAILED_CLOSED => []
  end.

Definition legal (from to : SessionState) : bool :=
  bool_decide (to ∈ LEGAL_TRANSITIONS from).

Definition assertLegalTransition (from to : SessionState) : res unit :=
  throw_if (negb (legal from to))
    (state_error (js "illegal state transition " ++ state_name from ++ js " -> "
                  ++ state_name to)).

Definition TERMINAL_STATES : list SessionState :=
  [APPLIED; REJECTED; RETAINED; FAILED_CLOSED].

Definition isTerminalState (s : SessionState) : bool :=
  bool_decide (s ∈ TERMINAL_STATES).

(** ** The session directory *)

(** The content of one record file: text that does not parse (with the
    parser's message), JSON without the record's shape, or a record. *)
Inductive record_file :=
  | RFMalformed (detail : jsstr)
  | RFBadShape
  | RFRecord (r : SessionRecord).

Abbreviation store := (gmap jsstr record_file).

Definition corruption_error (id detail : jsstr) : exn :=
  Exn ECorruption (js "corrupt state file for session " ++ id ++ js ": " ++ detail).

Definition MEANINGFUL_TOUCH_OPS : list jsstr :=
  map js ["writeFile"; "exec"; "applyPatch"; "prepareResult"; "ensureWorker";
          "copyIn"; "copyOut"; "copyInInfo"; "copyOutInfo"; "diff"; "grep";
          "listDir"; "list"]%string.

Definition isMeaningfulTouchOp (op : jsstr) : bool :=
  mem op MEANINGFUL_TOUCH_OPS || startsWith op (js "copy").

(** The shape check [get] applies to parsed JSON. *)
Definition isSessionRecord (v : jsval) : bool :=
  match v with
  | JObj _ | JArr _ =>
      match field v (js "sessionID"), field v (js "state"),
            field v (js "createdAt"), field v (js "updatedAt") with
      | JStr _, JStr _, JStr _, JStr _ => true
      | _, _, _, _ => false
      end
  | _ => false
  end.

(** The record [touch] creates for an unknown session, before the patch. *)
Definition fresh_record (id nowIso : jsstr) : SessionRecord := {|
  sessionID := id; state := HOST_READ_ONLY; projectID := None; workerName := None;
  workerState := None; workerLifecycleEntered := None; agent := None;
  baselineRef := None; resultRef := None; installedCommit := None;
  pendingCommit := None; committedCommit := None; error := None;
  reapedAt := None; lastOperation := None; resources := None;
  snapshotIdentity := None; createdAt := nowIso; updatedAt := nowIso |}.

Module SessionStore.

Definition get (st : store) (id : jsstr) : res (option SessionRecord) :=
  match st !! id with
  | None => Ok None
  | Some (RFMalformed d) => Throw (corruption_error id d)
  | Some RFBadShape => Throw (corruption_error id (js "shape validation failed"))
  | Some (RFRecord r) => Ok (Some r)
  end.

(** The loop of [list] over the session ids of the directory listing. *)
Fixpoint list_ids (st : store) (ids : list jsstr) : res (list SessionRecord) :=
  match ids with
  | [] => Ok []
  | id :: ids' =>
      rec ← get st id;
      out ← list_ids st ids';
      Ok (match rec with Some r => r :: out | None => out end)
  end.

(** [SessionStore.list]; the directory order is [map_to_list]'s. *)
Definition list_ (st : store) : res (list SessionRecord) :=
  list_ids st (map_to_list st).*1.

(** The record file of the record's own session id. *)
Definition persist (r : SessionRecord) (st : store) : store :=
  <[sessionID r := RFRecord r]> st.

(** [touch(sessionID, patch, operation)] at time [nowIso]; returns the record
    and the store it is persisted in. *)
Definition touch (st : store) (nowIso id : jsstr) (patch : list field_patch)
    (operation : option jsstr) : res (SessionRecord * store) :=
  existing ← get st id;
  let isMeaningful :=
    match operation with None => true | Some op => isMeaningfulTouchOp op end in
  match existing with
  | None =>
      let record := apply_patch patch (fresh_record id nowIso) in
      Ok (record, persist record st)
  | Some r =>
      let updated := if isMeaningful then nowIso else updatedAt r in
      let record := patch_field (P_updatedAt updated) (apply_patch patch r) in
      Ok (record, persist record st)
  end.

Definition transition (st : store) (nowIso id : jsstr) (from to : SessionState)
    (patch : list field_patch) : res (SessionRecord * store) :=
  record ← get st id;
  match record with
  | None => Throw (state_error (js "no session record for " ++ id))
  | Some r =>
      _ ← throw_if (negb (bool_decide (state r = from)))
            (state_error (js "session " ++ id ++ js " is in state "
               ++ state_name (state r) ++ js ", expected " ++ state_name from
               ++ js " to transition to " ++ state_name to));
      _ ← assertLegalTransition from to;
      let next := apply_patch (patch ++ [P_state to; P_updatedAt nowIso]) r in
      Ok (next, persist next st)
  end.

Definition remove (st : store) (id : jsstr) : store := delete id st.

End SessionStore.

(** ** Persistence steps

    [persist] writes the whole text to a temporary file, syncs it and renames
    it over the record file.  A crash stops the steps at any point; a
    temporary file may then hold any prefix of the text. *)
Record disk := { d_sessions : store; d_tmp : gmap jsstr (option SessionRecord) }.

Inductive persist_step :=
  | TmpOpen            (* the temporary file exists, not yet complete *)
  | TmpWritten         (* the complete text is written *)
  | TmpSynced
  | TmpRenamed         (* renameSync onto the record file *)
  | TmpUnlinked.       (* the finally block, when the rename did not happen *)

Definition run_persist_step (tmp : jsstr) (r : SessionRecord) (s : persist_step)
    (d : disk) : disk :=
  match s with
  | TmpOpen => {| d_sessions := d_sessions d; d_tmp := <[tmp := None]> (d_tmp d) |}
  | TmpWritten => {| d_sessions := d_sessions d; d_tmp := <[tmp := Some r]> (d_tmp d) |}
  | TmpSynced => d
  | TmpRenamed =>
      match d_tmp d !! tmp with
      | Some (Some r') => {| d_sessions := SessionStore.persist r' (d_sessions d);
                             d_tmp := delete tmp (d_tmp d) |}
      | Some None => {| d_sessions := <[sessionID r := RFBadShape]> (d_sessions d);
                        d_tmp := delete tmp (d_tmp d) |}
      | None => d
      end
  | TmpUnlinked => {| d_sessions := d_sessions d; d_tmp := delete tmp (d_tmp d) |}
  end.

Definition persist_steps : list persist_step :=
  [TmpOpen; TmpWritten; TmpSynced; TmpRenamed; TmpUnlinked].

Definition run_persist (tmp : jsstr) (r : SessionRecord) (n : nat) (d : disk) : disk :=
  fold_left (fun d s => run_persist_step tmp r s d) (take n persist_steps) d.

(** ** Patches that leave a field alone *)
Definition sets_state (p : field_patch) : bool :=
  match p with P_state _ => true | _ => false end.
Definition sets_id (p : field_patch) : bool :=
  match p with P_sessionID _ => true | _ => false end.

(** The patches of the code never carry [sessionID], and never [state]
    outside [transition], which writes it itself. *)
Definition plain_patch (ps : list field_patch) : bool :=
  forallb (fun p => negb (sets_state p) && negb (sets_id p)) ps.

(** Every record file holds the record of the session it is named after. *)
Definition store_wf (st : store) : Prop :=
  forall id r, st !! id = Some (RFRecord r) -> sessionID r = id.

(** One store operation the broker performs on a live store. *)
Inductive store_step (st : store) : store -> Prop :=
  | step_touch nowIso id ps op r st' :
      plain_patch ps = true ->
      SessionStore.touch st nowIso id ps op = Ok (r, st') -> store_step st st'
  | step_transition nowIso id from to ps r st' :
      plain_patch ps = true ->
      SessionStore.transition st nowIso id from to ps = Ok (r, st') ->
      store_step st st'.

Inductive store_steps : store -> store -> Prop :=
  | steps_refl st : store_steps st st
  | steps_trans st1 st2 st3 :
      store_step st1 st2 -> store_steps st2 st3 -> store_steps st1 st3.

(** The state a session is in, as far as the store knows. *)
Definition state_of (st : store) (id : jsstr) : option SessionState :=
  match st !! id with Some (RFRecord r) => Some (state r) | _ => None end.

(** A store that holds one session, in the given state. *)
Definition one_session (id : jsstr) (s : SessionState) : store :=
  {[ id := RFRecord (apply_patch [P_state s] (fresh_record id (js "t0"))) ]}.

(** ** Helper lemmas *)
Lemma legal_spec from to : legal from to = true <-> to ∈ LEGAL_TRANSITIONS from.
Proof. apply bool_decide_eq_true. Qed.

Lemma patch_fields_plain ps r :
  plain_patch ps = true ->
  state (apply_patch ps r) = state r /\ sessionID (apply_patch ps r) = sessionID r.
Proof.
  revert r; induction ps as [|p ps IH]; intros r; [done|].
  unfold plain_patch; cbn [forallb]. rewrite !andb_true_iff. intros [[Hs Hi] Hps].
  change (apply_patch (p :: ps) r) with (apply_patch ps (patch_field p r)).
  destruct (IH (patch_field p r) Hps) as [-> ->]. by destruct p.
Qed.

Lemma get_Some st id r :
  SessionStore.get st id = Ok (Some r) <-> st !! id = Some (RFRecord r).
Proof. unfold SessionStore.get. repeat case_match; naive_solver. Qed.

Lemma get_None st id : SessionStore.get st id = Ok None <-> st !! id = None.
Proof. unfold SessionStore.get. repeat case_match; naive_solver. Qed.

Lemma touch_Ok st now id ps op r st' :
  SessionStore.touch st now id ps op = Ok (r, st') ->
  st' = SessionStore.persist r st /\
  (st !! id = None /\ r = apply_patch ps (fresh_record id now) \/
   exists r0, st !! id = Some (RFRecord r0) /\
     exists u, r = patch_field (P_updatedAt u) (apply_patch ps r0)).
Proof.
  unfold SessionStore.touch. rewrite res_bind_Ok.
  intros (o & Hget & H). destruct o as [r0|]; injection H as <- <-.
  - apply get_Some in Hget. eauto 7.
  - apply get_None in Hget. auto.
Qed.

Lemma touch_result st now id ps op r st' :
  plain_patch ps = true -> store_wf st ->
  SessionStore.touch st now id ps op = Ok (r, st') ->
  st' = <[id := RFRecord r]> st /\ sessionID r = id /\
  state r = default HOST_READ_ONLY (state_of st id).
Proof.
  intros Hps Hwf H. apply touch_Ok in H as [-> [[Hn ->]|(r0 & Hr0 & u & ->)]];
    unfold SessionStore.persist, state_of.
  - destruct (patch_fields_plain ps (fresh_record id now) Hps) as [-> Hi].
    rewrite Hn. by rewrite Hi.
  - destruct (patch_fields_plain ps r0 Hps) as [Hs Hi].
    rewrite Hr0. cbn. rewrite Hs, Hi. by rewrite (Hwf _ _ Hr0).
Qed.

Lemma transition_Ok st now id from to ps r st' :
  SessionStore.transition st now id from to ps = Ok (r, st') <->
  exists r0, st !! id = Some (RFRecord r0) /\ state r0 = from /\
    legal from to = true /\
    r = apply_patch (ps ++ [P_state to; P_updatedAt now]) r0 /\
    st' = SessionStore.persist r st.
Proof.
  unfold SessionStore.transition, assertLegalTransition.
  rewrite res_bind_Ok. split.
  - intros ([r0|] & Hget & H); [apply get_Some in Hget|done].
    rewrite res_bind_Ok in H. destruct H as ([] & Hf%throw_if_Ok & H).
    rewrite res_bind_Ok in H. destruct H as ([] & Hl%throw_if_Ok & [= <- <-]).
    apply negb_false_iff, bool_decide_eq_true in Hf. apply negb_false_iff in Hl.
    exists r0. auto.
  - intros (r0 & Hget & <- & Hl & -> & ->). exists (Some r0).
    rewrite get_Some. split; [done|].
    rewrite bool_decide_eq_true_2 by done. cbn. by rewrite Hl.
Qed.

Lemma transition_result st now id from to ps r st' :
  plain_patch ps = true -> store_wf st ->
  SessionStore.transition st now id from to ps = Ok (r, st') ->
  st' = <[id := RFRecord r]> st /\ sessionID r = id /\ state r = to /\
  state_of st id = Some from /\ legal from to = true.
Proof.
  intros Hps Hwf (r0 & Hr0 & Hf & Hl & -> & ->)%transition_Ok.
  unfold SessionStore.persist, state_of. rewrite apply_patch_app, Hr0. cbn.
  destruct (patch_fields_plain ps r0 Hps) as [_ ->].
  rewrite (Hwf _ _ Hr0). by subst.
Qed.

Lemma state_of_insert st id id' r :
  state_of (<[id := RFRecord r]> st) id' =
  if decide (id = id') then Some (state r) else state_of st id'.
Proof.
  unfold state_of. case_decide; subst; [by rewrite lookup_insert_eq|].
  by rewrite lookup_insert_ne.
Qed.

Lemma store_wf_insert st id r :
  store_wf st -> sessionID r = id -> store_wf (<[id := RFRecord r]> st).
Proof.
  intros Hwf Hr i r' Hi. destruct (decide (id = i)) as [->|Hne].
  - rewrite lookup_insert_eq in Hi. by injection Hi as <-.
  - rewrite lookup_insert_ne in Hi by done. eauto.
Qed.

(** What one step does to the state of a session that has a record. *)
Lemma store_step_state st st' id s :
  store_wf st -> store_step st st' -> state_of st id = Some s ->
  store_wf st' /\
  (state_of st' id = Some s \/
   exists s', state_of st' id = Some s' /\ legal s s' = true).
Proof.
  intros Hwf Hstep Hs. destruct Hstep as
    [now i ps op r st' Hps H | now i from to ps r st' Hps H].
  - destruct (touch_result _ _ _ _ _ _ _ Hps Hwf H) as (-> & Hid & Hst).
    split; [by apply store_wf_insert|]. left.
    rewrite state_of_insert. case_decide; subst; [|done].
    by rewrite Hst, Hs.
  - destruct (transition_result _ _ _ _ _ _ _ _ Hps Hwf H) as (-> & Hid & Hto & Hf & Hl).
    split; [by apply store_wf_insert|].
    rewrite state_of_insert. case_decide; subst; [|auto].
    right. exists (state r). split; [done|]. congruence.
Qed.

Lemma store_step_cases st st' id :
  store_wf st -> store_step st st' ->
  store_wf st' /\
  (state_of st' id = state_of st id \/
   state_of st id = None /\ state_of st' id = Some HOST_READ_ONLY \/
   exists s s', state_of st id = Some s /\ state_of st' id = Some s' /\ legal s s' = true).
Proof.
  intros Hwf Hstep. destruct (state_of st id) as [s|] eqn:Hs.
  - destruct (store_step_state _ _ _ _ Hwf Hstep Hs) as [? [?|(s' & ? & ?)]]; [by auto|].
    split; [done|]. right; right; eauto.
  - destruct Hstep as [now i ps op r st' Hps H | now i from to ps r st' Hps H].
    + destruct (touch_result _ _ _ _ _ _ _ Hps Hwf H) as (-> & Hid & Hst).
      split; [by apply store_wf_insert|].
      rewrite state_of_insert. case_decide; subst; [|by auto].
      right; left. by rewrite Hst, Hs.
    + destruct (transition_result _ _ _ _ _ _ _ _ Hps Hwf H) as (-> & Hid & Hto & Hf & Hl).
      split; [by apply store_wf_insert|].
      rewrite state_of_insert. case_decide; subst; [congruence|auto].
Qed.

Lemma store_steps_wf st st' : store_wf st -> store_steps st st' -> store_wf st'.
Proof.
  intros Hwf Hs. induction Hs as [|st1 st2 st3 H12 H23 IH]; [done|].
  apply IH. by apply (store_step_cases st1 st2 []).
Qed.

Lemma one_session_wf id s : store_wf (one_session id s).
Proof.
  intros i r. unfold one_session. rewrite lookup_singleton_Some. by intros [<- [= <-]].
Qed.

Create HintDb state discriminated.
#[export] Hint Resolve store_wf_insert store_steps_wf : state.
#[export] Hint Constructors store_steps : state.

(** ** Properties *)

(** [SessionStore.transition] succeeds exactly when the session has a
    readable record in the expected state and the graph has the edge; it then
    persists that record with the patch, the new state and the new time, and
    nothing else in the store changes. *)
Theorem transition_spec st now id from to ps r st' :
  SessionStore.transition st now id from to ps = Ok (r, st') <->
  exists r0, st !! id = Some (RFRecord r0) /\ state r0 = from /\
    to ∈ LEGAL_TRANSITIONS from /\
    r = apply_patch (ps ++ [P_state to; P_updatedAt now]) r0 /\
    st' = <[sessionID r := RFRecord r]> st.
Proof. rewrite transition_Ok. by setoid_rewrite legal_spec. Qed.

(** [FAILED_CLOSED] and [REJECTED] are permanent: whatever sequence of
    touches and transitions runs afterwards, on any sessions, the session
    stays in that state. *)
Theorem closed_states_permanent st st' id s :
  store_wf st -> store_steps st st' ->
  s = FAILED_CLOSED \/ s = REJECTED ->
  state_of st id = Some s -> state_of st' id = Some s.
Proof.
  intros Hwf Hsteps Hs. induction Hsteps as [|st1 st2 st3 H12 _ IH]; intros H; [done|].
  destruct (store_step_cases _ _ id Hwf H12) as
    (Hwf2 & [Heq|[[Hn _]|(a & b & Ha & _ & Hl)]]); [apply IH; [done|congruence]|congruence|].
  rewrite Ha in H. injection H as ->. by destruct Hs as [-> | ->], b.
Qed.

Lemma closed_states_permanent_witness :
  store_wf (one_session (js "s") REJECTED) /\
  exists st', store_steps (one_session (js "s") REJECTED) st' /\
    state_of (one_session (js "s") REJECTED) (js "s") = Some REJECTED /\
    state_of st' (js "s") = Some REJECTED.
Proof.
  pose (st' := match SessionStore.touch (one_session (js "s") REJECTED) (js "t1") (js "s") [] None with
               | Ok (_, st') => st' | Throw _ => one_session (js "s") REJECTED end).
  assert (store_steps (one_session (js "s") REJECTED) st') as Hs.
  { eapply steps_trans; [|apply steps_refl].
    eapply (step_touch _ (js "t1") (js "s") [] None); [reflexivity | vm_compute; reflexivity]. }
  assert (state_of (one_session (js "s") REJECTED) (js "s") = Some REJECTED) as H0
    by (vm_compute; reflexivity).
  split; [apply one_session_wf|]. exists st'. split; [exact Hs|]. split; [exact H0|].
  exact (closed_states_permanent _ _ (js "s") REJECTED (one_session_wf _ _) Hs
           (or_intror eq_refl) H0).
Defined.

(** A session that is [APPLIED], and was neither applied nor pending at the
    start, went through a finished result whose application was opened: some
    step of the run took it from [RESULT_READY] to [APPLY_PENDING]. *)
Theorem applied_only_through_pending st st' id :
  store_wf st -> store_steps st st' ->
  state_of st id <> Some APPLY_PENDING -> state_of st id <> Some APPLIED ->
  state_of st' id = Some APPLIED ->
  exists st1 st2, store_steps st st1 /\ state_of st1 id = Some RESULT_READY /\
    store_step st1 st2 /\ state_of st2 id = Some APPLY_PENDING /\
    store_steps st2 st'.
Proof.
  intros Hwf Hsteps. induction Hsteps as [|st1 st2 st3 H12 H23 IH]; intros Hp Ha Hend; [done|].
  destruct (store_step_cases _ _ id Hwf H12) as (Hwf2 & Hcases).
  destruct (decide (state_of st2 id = Some APPLY_PENDING)) as [Hp2|Hp2].
  - destruct Hcases as [Heq|[[_ Hh]|(a & b & Ha1 & Hb & Hl)]]; [congruence|congruence|].
    exists st1, st2. rewrite Hp2 in Hb. injection Hb as <-.
    repeat split; auto with state. destruct a; cbn in Hl; done.
  - assert (state_of st2 id <> Some APPLIED) as Ha2.
    { intros Ha2. destruct Hcases as [Heq|[[_ Hh]|(a & b & Ha1 & Hb & Hl)]];
        [congruence|congruence|].
      rewrite Ha2 in Hb. injection Hb as <-. destruct a; cbn in Hl; done. }
    destruct (IH Hwf2 Hp2 Ha2 Hend) as (s1 & s2 & ? & ? & ? & ? & ?).
    exists s1, s2. repeat split; auto. eapply steps_trans; eauto.
Qed.

Lemma applied_only_through_pending_witness :
  exists st', store_steps (one_session (js "s") RESULT_READY) st' /\
    state_of st' (js "s") = Some APPLIED /\
    exists st1 st2, store_steps (one_session (js "s") RESULT_READY) st1 /\
      state_of st1 (js "s") = Some RESULT_READY /\ store_step st1 st2 /\
      state_of st2 (js "s") = Some APPLY_PENDING /\ store_steps st2 st'.
Proof.
  pose (st0 := one_session (js "s") RESULT_READY).
  pose (st1 := match SessionStore.transition st0 (js "t1") (js "s") RESULT_READY APPLY_PENDING [] with
               | Ok (_, st') => st' | Throw _ => st0 end).
  pose (st2 := match SessionStore.transition st1 (js "t2") (js "s") APPLY_PENDING APPLIED [] with
               | Ok (_, st') => st' | Throw _ => st0 end).
  assert (store_steps st0 st2) as Hs.
  { eapply (steps_trans _ st1).
    { by eapply (step_transition _ (js "t1") (js "s") RESULT_READY APPLY_PENDING []);
        [| vm_compute; reflexivity]. }
    eapply steps_trans; [|apply steps_refl].
    by eapply (step_transition _ (js "t2") (js "s") APPLY_PENDING APPLIED []);
      [| vm_compute; reflexivity]. }
  assert (state_of st2 (js "s") = Some APPLIED) as H2 by (vm_compute; reflexivity).
  exists st2. split; [exact Hs|]. split; [exact H2|].
  apply (applied_only_through_pending st0 st2 (js "s") (one_session_wf _ _) Hs);
    [vm_compute; discriminate | vm_compute; discriminate | exact H2].
Defined.

(** [touch] on a known session keeps its state and every other session's
    record, and moves [updatedAt] only for a meaningful operation, so a status
    or policy probe never makes an idle session look active. *)
Theorem touch_existing_spec st now id ps op r :
  store_wf st -> st !! id = Some (RFRecord r) -> plain_patch ps = true ->
  exists r', SessionStore.touch st now id ps (Some op) = Ok (r', <[id := RFRecord r']> st) /\
    state r' = state r /\ sessionID r' = id /\
    updatedAt r' = (if isMeaningfulTouchOp op then now else updatedAt r).
Proof.
  intros Hwf Hr Hps. unfold SessionStore.touch, SessionStore.get. rewrite Hr.
  cbn [mbind res_bind].
  set (u := if isMeaningfulTouchOp op then now else updatedAt r).
  destruct (patch_fields_plain ps r Hps) as [Hs Hi].
  exists (patch_field (P_updatedAt u) (apply_patch ps r)).
  unfold SessionStore.persist. cbn [sessionID state updatedAt patch_field].
  rewrite Hi, (Hwf _ _ Hr). auto.
Qed.

Lemma touch_existing_spec_witness :
  store_wf (one_session (js "s") SANDBOX_ACTIVE) /\
  exists r r', one_session (js "s") SANDBOX_ACTIVE !! js "s" = Some (RFRecord r) /\
    SessionStore.touch (one_session (js "s") SANDBOX_ACTIVE) (js "t1") (js "s")
      [P_agent (Some (js "worker"))] (Some (js "workerStatus")) =
      Ok (r', <[js "s" := RFRecord r']> (one_session (js "s") SANDBOX_ACTIVE)) /\
    state r' = state r /\ sessionID r' = js "s" /\
    updatedAt r' = (if isMeaningfulTouchOp (js "workerStatus") then js "t1" else updatedAt r).
Proof.
  split; [apply one_session_wf|].
  assert (one_session (js "s") SANDBOX_ACTIVE !! js "s" =
    Some (RFRecord (apply_patch [P_state SANDBOX_ACTIVE] (fresh_record (js "s") (js "t0"))))) as Hr
    by (vm_compute; reflexivity).
  destruct (touch_existing_spec _ (js "t1") (js "s") [P_agent (Some (js "worker"))]
    (js "workerStatus") _ (one_session_wf _ _) Hr eq_refl) as (r' & H).
  eexists _, r'. split; [exact Hr | exact H].
Defined.

(** Persistence is atomic under a crash: after any number of its steps the
    session directory is exactly the old one or, once the rename has run, the
    old one with the complete new record; a run to the end also leaves no
    temporary file behind. *)
Theorem persist_crash_atomic tmp r n d :
  d_sessions (run_persist tmp r n d) =
    (if bool_decide (4 <= n)%nat then SessionStore.persist r (d_sessions d)
     else d_sessions d) /\
  d_tmp (run_persist tmp r (5 + n) d) = delete tmp (d_tmp d).
Proof.
  unfold run_persist, persist_steps. split.
  - do 4 (destruct n as [|n]; [done|]). rewrite bool_decide_eq_true_2 by lia.
    destruct n as [|n]; cbn; rewrite ?take_nil; cbn; by rewrite !lookup_insert_eq.
  - cbn. rewrite take_nil. cbn. rewrite !lookup_insert_eq. cbn.
    by rewrite delete_delete_eq, insert_insert_eq, delete_insert_eq.
Qed.
