(* ===== verification/Policy.v ===== *)
(** * Resource policy (broker/src/policy.ts)

    The discovery of the host's resources, the budget computed from the host's resources and the configuration, and
    the admission check of a worker request against the pool.  vCPU counts and
    fractions are rationals ([number] in the source, of which the configured
    values are exact), byte counts are integers. *)
From Stdlib Require Import QArith Qround Qminmax Lqa.
From S2P Require Import Prelude JsVal Json Types.
Open Scope Q_scope.

(** ** Data *)
Record HostResources := { cpuCount : Z; totalMemBytes : Z }.

(** The fields of [ResourceConfig] (broker/src/config.ts) the policy reads. *)
Record ResourceConfig := {
  reserveCpuFraction : Q;
  reserveMemFraction : Q;
  reserveMemBytes : Z;
  cfg_perWorkerCpu : Q;
  cfg_perWorkerMemBytes : Z;
  maxPerWorkerCpu : Q;
  maxPerWorkerMemBytes : Z;
  cfg_maxWorkers : Z;
  cfg_maxAggregateCpu : Q;
  cfg_maxAggregateMemBytes : Z;
}.

Record WorkerAllocation := {
  wa_cpu : Q;
  wa_memBytes : Z;
  wa_sessionID : option jsstr;
}.

Record Budget := {
  perWorkerCpu : Q;
  perWorkerMemBytes : Z;
  maxAggregateCpu : Q;
  maxAggregateMemBytes : Z;
  maxWorkers : Z;
  hostReservedCpu : Z;
  hostReservedMemBytes : Z;
}.

(** [{allowed: true, cpu, memBytes}] or [{allowed: false, ...}]. *)
Inductive Admission :=
  | Allowed (cpu : Q) (memBytes : Z)
  | Refused (reason : jsstr) (queueHint : Z) (queueable : bool).

Definition allowed (a : Admission) : bool :=
  match a with Allowed _ _ => true | Refused _ _ _ => false end.

(** ** The host *)
Definition line_end (c : N) : bool := ((c =? 10) || (c =? 13) || (c =? 8232) || (c =? 8233))%N.

(** [/^MemTotal:\s+(\d+)\s*kB$/m] at the start of a line of [s]: the number. *)
Definition mem_total_here (s : jsstr) : option Z :=
  if negb (startsWith s (js "MemTotal:")) then None else
  let '(blanks, rest) := span is_ws (drop 9 s) in
  let '(digits, rest) := span is_digit rest in
  let rest := snd (span is_ws rest) in
  let ends := match drop 2 rest with [] => true | c :: _ => line_end c end in
  if negb (bool_decide (blanks = [])) && negb (bool_decide (digits = [])) && startsWith rest (js "kB") && ends
  then Some (digits_value digits) else None.

Fixpoint mem_total (line_start : bool) (s : jsstr) : option Z :=
  match (if line_start then mem_total_here s else None), s with
  | Some n, _ => Some n
  | None, c :: s' => mem_total (line_end c) s'
  | None, [] => None
  end.

(** The counts of the operating system, and the text of /proc/meminfo when it
    can be read.  A count of kibibytes of a machine is exact as a double. *)
Definition discoverHostResources (cpus totalmem : Z) (meminfo : option jsstr) : HostResources :=
  {| cpuCount := cpus;
     totalMemBytes := match meminfo ≫= mem_total true with Some kib => (kib * 1024)%Z | None => totalmem end |}.

(** ** Operations *)
Definition Qlt_bool (a b : Q) : bool := negb (Qle_bool b a).

Definition clampQ (v lo hi : Q) : Q := Qmin hi (Qmax lo v).
Definition clampZ (v lo hi : Z) : Z := Z.min hi (Z.max lo v).

(** Decimal text of a rational with [k] digits after the point. *)
Definition decimal_text (k : nat) (q : Q) : jsstr :=
  let n := Qfloor (q * inject_Z (10 ^ Z.of_nat k) + (1 # 2)) in
  match k with
  | O => dec n
  | _ =>
      let p := (10 ^ Z.of_nat k)%Z in
      let frac := dec (n mod p) in
      dec (n / p) ++ js "." ++ replicate (k - length frac) 48%N ++ frac
  end.

(** [String(q)]: the fewest digits that give the number exactly. *)
Fixpoint number_text_from (fuel k : nat) (q : Q) : jsstr :=
  match fuel with
  | O => decimal_text k q
  | S fuel' =>
      if Qeq_bool (inject_Z (Qfloor (q * inject_Z (10 ^ Z.of_nat k))))
                  (q * inject_Z (10 ^ Z.of_nat k))
      then decimal_text k q
      else number_text_from fuel' (S k) q
  end.
Definition number_text (q : Q) : jsstr := number_text_from 17 0 q.

(** The unit loop of [formatBytes]: at most four divisions. *)
Fixpoint format_unit (units : list jsstr) (v : Q) : Q * jsstr :=
  match units with
  | [] => (v, [])
  | [u] => (v, u)
  | u :: us => if Qle_bool 1024 v then format_unit us (v / 1024) else (v, u)
  end.

Definition formatBytes (bytes : Z) : jsstr :=
  let '(v, u) := format_unit (map js ["B"; "KiB"; "MiB"; "GiB"; "TiB"]%string)
                             (inject_Z bytes) in
  decimal_text (if Qle_bool 100 v then 0 else 1) v ++ js " " ++ u.

Definition computeBudget (res : HostResources) (cfg : ResourceConfig) : Budget :=
  let reservedCpu :=
    Z.max 1 (Qceiling (inject_Z (cpuCount res) * reserveCpuFraction cfg)) in
  let reservedMem :=
    Z.max (Qfloor (inject_Z (totalMemBytes res) * reserveMemFraction cfg))
          (reserveMemBytes cfg) in
  let availCpu := Z.max 1 (cpuCount res - reservedCpu) in
  let availMem := Z.max 0 (totalMemBytes res - reservedMem) in
  let pCpu := clampQ (cfg_perWorkerCpu cfg) (1 # 4) (maxPerWorkerCpu cfg) in
  let pMem := clampZ (cfg_perWorkerMemBytes cfg) (128 * 1024 * 1024)
                     (maxPerWorkerMemBytes cfg) in
  let aggCpu := Qmin (cfg_maxAggregateCpu cfg) (inject_Z availCpu) in
  let aggMem := Z.min (cfg_maxAggregateMemBytes cfg) availMem in
  let byCpu := Z.max 0 (Qfloor (aggCpu / pCpu)) in
  let byMem := Z.max 0 (Qfloor (inject_Z aggMem / inject_Z pMem)) in
  {| perWorkerCpu := pCpu;
     perWorkerMemBytes := pMem;
     maxAggregateCpu := aggCpu;
     maxAggregateMemBytes := aggMem;
     maxWorkers := Z.min (Z.min (cfg_maxWorkers cfg) byCpu) byMem;
     hostReservedCpu := reservedCpu;
     hostReservedMemBytes := reservedMem |}.

Definition aggregateCpu (pool : list WorkerAllocation) : Q :=
  fold_left (fun a w => a + wa_cpu w) pool 0.
Definition aggregateMem (pool : list WorkerAllocation) : Z :=
  fold_left (fun a w => (a + wa_memBytes w)%Z) pool 0%Z.

(** A [Partial<WorkerAllocation>]: the missing fields default to the budget's. *)
Definition checkAdmission (pool : list WorkerAllocation) (budget : Budget)
    (requestedCpu : option Q) (requestedMem : option Z) : Admission :=
  let cpu := default (perWorkerCpu budget) requestedCpu in
  let memBytes := default (perWorkerMemBytes budget) requestedMem in
  if Qle_bool cpu 0 || (memBytes <=? 0)%Z then
    Refused (js "invalid resource request") 0 false
  else if Qlt_bool (perWorkerCpu budget) cpu
       || (perWorkerMemBytes budget <? memBytes)%Z then
    Refused (js "resource request above policy (max "
             ++ number_text (perWorkerCpu budget) ++ js " vCPU / "
             ++ formatBytes (perWorkerMemBytes budget) ++ js ")") 0 false
  else if Qlt_bool (maxAggregateCpu budget) (aggregateCpu pool + cpu) then
    Refused (js "aggregate vCPU pool exhausted") 1 true
  else if (maxAggregateMemBytes budget <? aggregateMem pool + memBytes)%Z then
    Refused (js "aggregate memory pool exhausted") 1 true
  else if (maxWorkers budget <=? Z.of_nat (length pool))%Z then
    Refused (js "maximum concurrent workers reached (" ++ dec (maxWorkers budget) ++ js ")")
      (Z.of_nat (length pool) - maxWorkers budget + 1) true
  else Allowed cpu memBytes.

(** ** What the pool must satisfy *)
Record pool_within (budget : Budget) (pool : list WorkerAllocation) : Prop := {
  pw_cpu : aggregateCpu pool <= maxAggregateCpu budget;
  pw_mem : (aggregateMem pool <= maxAggregateMemBytes budget)%Z;
  pw_count : (Z.of_nat (length pool) <= maxWorkers budget)%Z;
}.

(** ** Lemmas *)
Lemma Qlt_bool_true a b : Qlt_bool a b = true <-> a < b.
Proof.
  unfold Qlt_bool. rewrite negb_true_iff. split.
  - intros H. apply Qnot_le_lt. intros Hle%Qle_bool_iff. congruence.
  - intros H. apply not_true_iff_false. rewrite Qle_bool_iff. by apply Qlt_not_le.
Qed.

Lemma Qlt_bool_false a b : Qlt_bool a b = false <-> b <= a.
Proof.
  unfold Qlt_bool. rewrite negb_false_iff, Qle_bool_iff. done.
Qed.

Lemma Qle_bool_false a b : Qle_bool a b = false <-> b < a.
Proof. rewrite <- Qlt_bool_true. unfold Qlt_bool. by rewrite negb_true_iff. Qed.

Lemma aggregateCpu_from q x :
  fold_left (fun a w => a + wa_cpu w) q x == x + aggregateCpu q.
Proof.
  induction q as [|w q IH] using rev_ind; [cbn; lra|].
  unfold aggregateCpu in *. rewrite !fold_left_app. cbn. rewrite IH. lra.
Qed.

Lemma aggregateMem_from q x :
  (fold_left (fun a w => a + wa_memBytes w) q x = x + aggregateMem q)%Z.
Proof.
  induction q as [|w q IH] using rev_ind; [cbn; lia|].
  unfold aggregateMem in *. rewrite !fold_left_app. cbn. rewrite IH. lia.
Qed.

Lemma aggregateCpu_app p q : aggregateCpu (p ++ q) == aggregateCpu p + aggregateCpu q.
Proof. unfold aggregateCpu at 1. rewrite fold_left_app. apply aggregateCpu_from. Qed.

Lemma aggregateMem_app p q : (aggregateMem (p ++ q) = aggregateMem p + aggregateMem q)%Z.
Proof. unfold aggregateMem at 1. rewrite fold_left_app. apply aggregateMem_from. Qed.

(** The admission check decides exactly the four caps. *)
Lemma checkAdmission_allowed pool b rc rm cpu m :
  checkAdmission pool b rc rm = Allowed cpu m <->
  cpu = default (perWorkerCpu b) rc /\ m = default (perWorkerMemBytes b) rm /\
  0 < cpu /\ cpu <= perWorkerCpu b /\ (0 < m <= perWorkerMemBytes b)%Z /\
  aggregateCpu pool + cpu <= maxAggregateCpu b /\
  (aggregateMem pool + m <= maxAggregateMemBytes b)%Z /\
  (Z.of_nat (length pool) < maxWorkers b)%Z.
Proof.
  unfold checkAdmission.
  generalize (default (perWorkerCpu b) rc) as c, (default (perWorkerMemBytes b) rm) as mm.
  intros c mm.
  repeat match goal with
  | |- context [if ?x then _ else _] => destruct x eqn:?
  end; repeat match goal with
  | H : _ || _ = true |- _ =>
      apply orb_true_iff in H;
      rewrite ?Qle_bool_iff, ?Qlt_bool_true, ?Z.leb_le, ?Z.ltb_lt in H
  | H : _ || _ = false |- _ => apply orb_false_iff in H as [? ?]
  | H : Qle_bool _ _ = true |- _ => apply Qle_bool_iff in H
  | H : Qle_bool _ _ = false |- _ => apply Qle_bool_false in H
  | H : Qlt_bool _ _ = true |- _ => apply Qlt_bool_true in H
  | H : Qlt_bool _ _ = false |- _ => apply Qlt_bool_false in H
  | H : (_ <=? _)%Z = _ |- _ => first [apply Z.leb_le in H | apply Z.leb_gt in H]
  | H : (_ <? _)%Z = _ |- _ => first [apply Z.ltb_lt in H | apply Z.ltb_ge in H]
  end; split; try done;
    try (intros (-> & -> & ? & ? & ? & ? & ? & ?); exfalso; intuition (lra || lia)).
  - intros [= <- <-]. repeat split; done || lia.
  - intros (-> & -> & _). done.
Qed.

Lemma admit_within pool b rc rm cpu m sid :
  checkAdmission pool b rc rm = Allowed cpu m ->
  pool_within b (pool ++ [{| wa_cpu := cpu; wa_memBytes := m; wa_sessionID := sid |}]).
Proof.
  intros (_ & _ & _ & _ & _ & Hc & Hm & Hn)%checkAdmission_allowed.
  constructor.
  - rewrite aggregateCpu_app. unfold aggregateCpu at 2; cbn. lra.
  - rewrite aggregateMem_app. unfold aggregateMem at 2; cbn. lia.
  - rewrite length_app; cbn. lia.
Qed.

(** ** Properties *)

(** Admission never oversubscribes: whatever the pool holds, pushing the
    admitted allocation leaves the pool within every cap of the budget. *)
Theorem admission_keeps_caps pool b rc rm cpu m sid :
  checkAdmission pool b rc rm = Allowed cpu m ->
  pool_within b (pool ++ [{| wa_cpu := cpu; wa_memBytes := m; wa_sessionID := sid |}]).
Proof.
  apply admit_within.
Qed.

Example meminfo_is_read :
  discoverHostResources 8 0 (Some (js "MemFree: 12 kB" ++ [10%N] ++ js "MemTotal:       16384 kB" ++ [10%N] ++ js "Swap: 1 kB")) =
  {| cpuCount := 8; totalMemBytes := 16 * 1024 * 1024 |}.
Proof. vm_compute. reflexivity. Qed.

(** The 4-vCPU host with the default configuration of config.ts. *)
Definition GiB : Z := 1024 * 1024 * 1024.
Definition default_resource_config : ResourceConfig := {|
  reserveCpuFraction := 1 # 4; reserveMemFraction := 1 # 4;
  reserveMemBytes := 4 * GiB; cfg_perWorkerCpu := 2;
  cfg_perWorkerMemBytes := 2 * GiB; maxPerWorkerCpu := 4;
  maxPerWorkerMemBytes := 4 * GiB; cfg_maxWorkers := 4;
  cfg_maxAggregateCpu := 8; cfg_maxAggregateMemBytes := 8 * GiB |}.
Definition host (cpus gib : Z) : HostResources :=
  {| cpuCount := cpus; totalMemBytes := gib * GiB |}.

Lemma admission_keeps_caps_witness :
  let b := computeBudget (host 16 32) default_resource_config in
  pool_within b [{| wa_cpu := 2; wa_memBytes := 2 * GiB; wa_sessionID := Some (js "s1") |}].
Proof.
  intros b.
  apply (admission_keeps_caps [] b None None 2 (2 * GiB) (Some (js "s1"))).
  vm_compute; reflexivity.
Defined.

(** A pool within the computed budget leaves the host its reserve: at least
    one vCPU and the configured fraction of the vCPUs, and the configured
    bytes of memory, as long as the host is larger than the reserve. *)
Theorem budget_protects_host res cfg pool :
  let b := computeBudget res cfg in
  pool_within b pool ->
  (hostReservedCpu b < cpuCount res)%Z ->
  (hostReservedMemBytes b <= totalMemBytes res)%Z ->
  aggregateCpu pool + inject_Z (hostReservedCpu b) <= inject_Z (cpuCount res) /\
  (1 <= hostReservedCpu b)%Z /\
  inject_Z (cpuCount res) * reserveCpuFraction cfg <= inject_Z (hostReservedCpu b) /\
  (aggregateMem pool + hostReservedMemBytes b <= totalMemBytes res)%Z /\
  (reserveMemBytes cfg <= hostReservedMemBytes b)%Z.
Proof.
  intros b [Hc Hm _]. cbn in *. intros Hrc Hrm. repeat split; try lia.
  - assert (aggregateCpu pool <= inject_Z (Z.max 1 (cpuCount res -
      Z.max 1 (Qceiling (inject_Z (cpuCount res) * reserveCpuFraction cfg))))) as Hle
      by (eapply Qle_trans; [exact Hc | apply Q.le_min_r]).
    rewrite Z.max_r in Hle by lia.
    unfold Z.sub in Hle. rewrite inject_Z_plus, inject_Z_opp in Hle. lra.
  - eapply Qle_trans; [apply Qle_ceiling|]. rewrite <- Zle_Qle. lia.
Qed.

Lemma budget_protects_host_witness :
  let b := computeBudget (host 16 32) default_resource_config in
  (aggregateMem [] + hostReservedMemBytes b <= totalMemBytes (host 16 32))%Z.
Proof.
  apply (budget_protects_host (host 16 32) default_resource_config []).
  - constructor; vm_compute; congruence.
  - vm_compute; reflexivity.
  - vm_compute; congruence.
Defined.

(** A refusal is marked queueable exactly when the request itself is
    acceptable, so an invalid or above-policy request is refused without
    queueing whatever the pool holds. *)
Theorem refusal_queueable_iff pool b rc rm why hint q :
  checkAdmission pool b rc rm = Refused why hint q ->
  q = true <->
  0 < default (perWorkerCpu b) rc /\ default (perWorkerCpu b) rc <= perWorkerCpu b /\
  (0 < default (perWorkerMemBytes b) rm <= perWorkerMemBytes b)%Z.
Proof.
  unfold checkAdmission.
  generalize (default (perWorkerCpu b) rc) as c, (default (perWorkerMemBytes b) rm) as m.
  intros c m. rewrite <- (Qle_bool_iff c (perWorkerCpu b)), <- (Qlt_bool_true 0 c).
  unfold Qlt_bool at 1 3.
  destruct (Qle_bool c 0), (Z.leb_spec m 0), (Qle_bool c (perWorkerCpu b)),
    (Z.ltb_spec (perWorkerMemBytes b) m); cbn;
    repeat case_match; intros [= <- <- <-]; intuition (congruence || lia).
Qed.

Lemma refusal_queueable_iff_witness :
  let b := computeBudget (host 16 32) default_resource_config in
  checkAdmission [] b (Some 3) None =
    Refused (js "resource request above policy (max 2 vCPU / 2.0 GiB)") 0 false /\
  (false = true <-> 0 < 3 /\ 3 <= perWorkerCpu b /\
    (0 < perWorkerMemBytes b <= perWorkerMemBytes b)%Z).
Proof.
  split; [vm_compute; reflexivity|].
  apply (refusal_queueable_iff [] (computeBudget (host 16 32) default_resource_config)
    (Some 3) None (js "resource request above policy (max 2 vCPU / 2.0 GiB)") 0 false).
  vm_compute; reflexivity.
Defined.

(** Queueable is not the same as transient.  With the default configuration
    a host of one or two vCPUs gets an aggregate cap below one worker, so the
    default request is refused as queueable even by an empty pool: parking
    such a request can only end in its timeout. *)
Theorem small_host_parks_forever cpus gib pool :
  (1 <= cpus <= 2)%Z -> (forall w, w ∈ pool -> 0 <= wa_cpu w) ->
  checkAdmission pool (computeBudget (host cpus gib) default_resource_config) None None =
    Refused (js "aggregate vCPU pool exhausted") 1 true.
Proof.
  intros Hcpus Hpool.
  assert (0 <= aggregateCpu pool) as Hagg.
  { clear -Hpool. induction pool as [|w pool IH] using rev_ind; [done|].
    rewrite aggregateCpu_app. unfold aggregateCpu at 2; cbn.
    assert (0 <= aggregateCpu pool) by (apply IH; intros; apply Hpool; set_solver).
    assert (0 <= wa_cpu w) by (apply Hpool; set_solver). lra. }
  unfold checkAdmission.
  set (b := computeBudget _ _).
  assert (perWorkerCpu b = 2) as Hw by (vm_compute; reflexivity).
  assert (maxAggregateCpu b = 1) as Hm
    by (assert (cpus = 1 \/ cpus = 2)%Z as [-> | ->] by lia; vm_compute; reflexivity).
  assert (perWorkerMemBytes b = 2 * GiB)%Z as Hb by (vm_compute; reflexivity).
  clearbody b. rewrite Hw, Hm, Hb. cbn [default].
  replace (Qlt_bool 1 (aggregateCpu pool + 2)) with true; [vm_compute; reflexivity|].
  symmetry. apply Qlt_bool_true. lra.
Qed.

Lemma small_host_parks_forever_witness :
  checkAdmission [] (computeBudget (host 2 16) default_resource_config) None None =
    Refused (js "aggregate vCPU pool exhausted") 1 true.
Proof.
  apply (small_host_parks_forever 2 16 []); [lia|].
  intros w Hw. by apply elem_of_nil in Hw.
Defined.
