(* ===== verification/RolePolicy.v ===== *)
(** * Capability policy (broker/src/role-policy.ts)

    The capability and role taxonomies, the classification of every governed
    tool or operation, the role-by-capability matrix and the fail-closed
    decision function. *)
From S2P Require Import Prelude JsVal Types.

(** ** Taxonomies *)
Inductive Capability :=
  | READ_PROJECT | RESEARCH_EXTERNAL | MUTATE_PROJECT
  | HOST_APPROVED_MUTATION | EXECUTE_PROJECT | TEST_EXECUTION
  | HOST_READ_STRUCTURED | HOST_ADMIN_STRUCTURED | SECURITY_MUTATION
  | CONSULT | DELIBERATE.

Inductive Role :=
  | R_general | R_researcher | R_worker | R_advisor | R_solver | R_challenger
  | R_judge | R_fresh_eyes | R_planner | R_pm.

#[export] Instance Capability_eq_dec : EqDecision Capability.
Proof. solve_decision. Defined.
#[export] Instance Role_eq_dec : EqDecision Role.
Proof. solve_decision. Defined.

Definition capability_name (c : Capability) : jsstr :=
  js match c with
     | READ_PROJECT => "READ_PROJECT" | RESEARCH_EXTERNAL => "RESEARCH_EXTERNAL"
     | MUTATE_PROJECT => "MUTATE_PROJECT"
     | HOST_APPROVED_MUTATION => "HOST_APPROVED_MUTATION"
     | EXECUTE_PROJECT => "EXECUTE_PROJECT" | TEST_EXECUTION => "TEST_EXECUTION"
     | HOST_READ_STRUCTURED => "HOST_READ_STRUCTURED"
     | HOST_ADMIN_STRUCTURED => "HOST_ADMIN_STRUCTURED"
     | SECURITY_MUTATION => "SECURITY_MUTATION" | CONSULT => "CONSULT"
     | DELIBERATE => "DELIBERATE"
     end.

Definition role_name (r : Role) : jsstr :=
  js match r with
     | R_general => "general" | R_researcher => "researcher"
     | R_worker => "worker" | R_advisor => "advisor" | R_solver => "solver"
     | R_challenger => "challenger" | R_judge => "judge"
     | R_fresh_eyes => "fresh_eyes" | R_planner => "planner" | R_pm => "pm"
     end.

Definition CAPABILITIES : list Capability :=
  [READ_PROJECT; RESEARCH_EXTERNAL; MUTATE_PROJECT; HOST_APPROVED_MUTATION;
   EXECUTE_PROJECT; TEST_EXECUTION; HOST_READ_STRUCTURED; HOST_ADMIN_STRUCTURED;
   SECURITY_MUTATION; CONSULT; DELIBERATE].

Definition ROLES : list Role :=
  [R_general; R_researcher; R_worker; R_advisor; R_solver;
   R_challenger; R_judge; R_fresh_eyes; R_planner; R_pm].

(** The capability a value names; [None] when [isCapability] refuses it. *)
Definition capability_of (v : jsval) : option Capability :=
  match v with
  | JStr s => List.find (fun c => str_eqb (capability_name c) s) CAPABILITIES
  | _ => None
  end.
Definition isCapability (v : jsval) : bool :=
  match capability_of v with Some _ => true | None => false end.

(** The role a string names; [None] when [isRole] refuses it. *)
Definition role_of (s : jsstr) : option Role :=
  List.find (fun r => str_eqb (role_name r) s) ROLES.
Definition isRole (s : jsstr) : bool :=
  match role_of s with Some _ => true | None => false end.

Definition normalizeRoleKey (raw : jsstr) : jsstr :=
  if str_eqb raw (js "fresh-eyes") then js "fresh_eyes"
  else if str_eqb raw (js "pm-odd") || str_eqb raw (js "pm-systematic") then js "pm"
  else raw.

(** ** Classification of tools and operations *)
Definition TOOL_CLASSIFICATION_INVENTORY : list (jsstr * Capability) :=
  map (fun p => (js (fst p), snd p)) [
    ("read", READ_PROJECT);
    ("list", READ_PROJECT);
    ("bash", HOST_ADMIN_STRUCTURED);
    ("edit", HOST_ADMIN_STRUCTURED);
    ("write", HOST_ADMIN_STRUCTURED);
    ("apply_patch", HOST_ADMIN_STRUCTURED);
    ("patch", HOST_ADMIN_STRUCTURED);
    ("grep", READ_PROJECT);
    ("glob", READ_PROJECT);
    ("codegraph_codegraph_explore", READ_PROJECT);
    ("sandbox_read", READ_PROJECT);
    ("sandbox_list", READ_PROJECT);
    ("sandbox_grep", READ_PROJECT);
    ("sandbox_diff", READ_PROJECT);
    ("webfetch", RESEARCH_EXTERNAL);
    ("websearch", RESEARCH_EXTERNAL);
    ("context7_resolve-library-id", RESEARCH_EXTERNAL);
    ("context7_query-docs", RESEARCH_EXTERNAL);
    ("github_ro_get_commit", RESEARCH_EXTERNAL);
    ("github_ro_get_file_contents", RESEARCH_EXTERNAL);
    ("github_ro_get_label", RESEARCH_EXTERNAL);
    ("github_ro_get_latest_release", RESEARCH_EXTERNAL);
    ("github_ro_get_release_by_tag", RESEARCH_EXTERNAL);
    ("github_ro_get_tag", RESEARCH_EXTERNAL);
    ("github_ro_issue_read", RESEARCH_EXTERNAL);
    ("github_ro_list_branches", RESEARCH_EXTERNAL);
    ("github_ro_list_commits", RESEARCH_EXTERNAL);
    ("github_ro_list_issue_fields", RESEARCH_EXTERNAL);
    ("github_ro_list_issue_types", RESEARCH_EXTERNAL);
    ("github_ro_list_issues", RESEARCH_EXTERNAL);
    ("github_ro_list_pull_requests", RESEARCH_EXTERNAL);
    ("github_ro_list_releases", RESEARCH_EXTERNAL);
    ("github_ro_list_repository_collaborators", RESEARCH_EXTERNAL);
    ("github_ro_list_tags", RESEARCH_EXTERNAL);
    ("github_ro_pull_request_read", RESEARCH_EXTERNAL);
    ("github_ro_search_code", RESEARCH_EXTERNAL);
    ("github_ro_search_commits", RESEARCH_EXTERNAL);
    ("github_ro_search_issues", RESEARCH_EXTERNAL);
    ("github_ro_search_pull_requests", RESEARCH_EXTERNAL);
    ("github_ro_search_repositories", RESEARCH_EXTERNAL);
    ("sandbox_write", MUTATE_PROJECT);
    ("sandbox_edit", MUTATE_PROJECT);
    ("sandbox_apply_patch", MUTATE_PROJECT);
    ("sandbox_finish", MUTATE_PROJECT);
    ("sandbox_apply", MUTATE_PROJECT);
    ("sandbox_copy_in", MUTATE_PROJECT);
    ("sandbox_copy_out", MUTATE_PROJECT);
    ("sandbox_discard", MUTATE_PROJECT);
    ("sandbox_bash", EXECUTE_PROJECT);
    ("host_test_run", TEST_EXECUTION);
    ("host_sandbox_result", HOST_READ_STRUCTURED);
    ("host_review_assess", HOST_READ_STRUCTURED);
    ("host_review_mode_status", HOST_READ_STRUCTURED);
    ("host_review_status", HOST_READ_STRUCTURED);
    ("host_review_lens_context", HOST_READ_STRUCTURED);
    ("host_review_diff_read", HOST_READ_STRUCTURED);
    ("host_review_materialize", HOST_READ_STRUCTURED);
    ("host_review_pipeline_run", HOST_APPROVED_MUTATION);
    ("host_review_persist", HOST_APPROVED_MUTATION);
    ("host_sandbox_result_install", HOST_APPROVED_MUTATION);
    ("host_git_commit", HOST_APPROVED_MUTATION);
    ("host_git_clear_commit_intent", HOST_APPROVED_MUTATION);
    ("host_git_push", HOST_APPROVED_MUTATION);
    ("host_gh_issue_create", HOST_APPROVED_MUTATION);
    ("host_plan_append", HOST_APPROVED_MUTATION);
    ("host_plan_write", HOST_APPROVED_MUTATION);
    ("host_task_mark", HOST_APPROVED_MUTATION);
    ("host_gate_verdict", HOST_APPROVED_MUTATION);
    ("host_review_start", HOST_APPROVED_MUTATION);
    ("host_review_capture_result", HOST_APPROVED_MUTATION);
    ("host_review_capture_unachievable", HOST_APPROVED_MUTATION);
    ("host_review_acknowledge_approved", HOST_APPROVED_MUTATION);
    ("host_review_capture_correction_plan", HOST_APPROVED_MUTATION);
    ("host_review_capture_refuter", HOST_APPROVED_MUTATION);
    ("host_review_capture_validation", HOST_APPROVED_MUTATION);
    ("host_review_validate", HOST_APPROVED_MUTATION);
    ("host_review_recover", HOST_APPROVED_MUTATION);
    ("host_register_project", HOST_APPROVED_MUTATION);
    ("host_sdd_status", HOST_READ_STRUCTURED);
    ("host_sdd_continue", HOST_READ_STRUCTURED);
    ("host_sdd_task_result", HOST_READ_STRUCTURED);
    ("host_sdd_archive_compose", HOST_APPROVED_MUTATION);
    ("host_sdd_attempt_grant", HOST_APPROVED_MUTATION);
    ("sddArchiveCompose", MUTATE_PROJECT);
    ("sddAttemptGrant", MUTATE_PROJECT);
    ("planDocAppend", MUTATE_PROJECT);
    ("taskMark", MUTATE_PROJECT);
    ("reviewStart", MUTATE_PROJECT);
    ("reviewCaptureResult", MUTATE_PROJECT);
    ("reviewCaptureUnachievable", MUTATE_PROJECT);
    ("reviewAcknowledgeApproved", MUTATE_PROJECT);
    ("reviewCaptureCorrectionPlan", MUTATE_PROJECT);
    ("reviewCaptureRefuter", MUTATE_PROJECT);
    ("reviewCaptureValidation", MUTATE_PROJECT);
    ("reviewValidate", MUTATE_PROJECT);
    ("reviewRecover", MUTATE_PROJECT);
    ("reviewMaterialize", MUTATE_PROJECT);
    ("reviewPipelineRun", MUTATE_PROJECT);
    ("reviewPersist", MUTATE_PROJECT);
    ("sandboxResultInstall", MUTATE_PROJECT);
    ("resultDiff", HOST_READ_STRUCTURED);
    ("metrics", HOST_READ_STRUCTURED);
    ("workerStatus", READ_PROJECT);
    ("exec", EXECUTE_PROJECT);
    ("readFile", READ_PROJECT);
    ("writeFile", MUTATE_PROJECT);
    ("applyPatch", MUTATE_PROJECT);
    ("listDir", READ_PROJECT);
    ("prepareResult", MUTATE_PROJECT);
    ("applyResult", MUTATE_PROJECT);
    ("discardResult", MUTATE_PROJECT);
    ("keepResult", MUTATE_PROJECT);
    ("destroyWorker", MUTATE_PROJECT);
    ("listWorkers", HOST_READ_STRUCTURED);
    ("ast_grep_search", READ_PROJECT);
    ("codegraph_aft_callgraph", READ_PROJECT);
    ("sddStatus", HOST_READ_STRUCTURED);
    ("sddContinue", HOST_READ_STRUCTURED);
    ("sddTaskResult", HOST_READ_STRUCTURED);
    ("reviewAssess", HOST_READ_STRUCTURED);
    ("reviewModeStatus", HOST_READ_STRUCTURED);
    ("reviewStatus", HOST_READ_STRUCTURED);
    ("reviewLensContext", HOST_READ_STRUCTURED);
    ("reviewDiffRead", HOST_READ_STRUCTURED);
    ("reviewPersistPreflight", HOST_READ_STRUCTURED);
    ("sandboxResult", HOST_READ_STRUCTURED);
    ("advisorGet", HOST_READ_STRUCTURED);
    ("advisorList", HOST_READ_STRUCTURED);
    ("hostSystemSummary", HOST_READ_STRUCTURED);
    ("hostMemory", HOST_READ_STRUCTURED);
    ("hostDiskUsage", HOST_READ_STRUCTURED);
    ("hostNetworkListeners", HOST_READ_STRUCTURED);
    ("hostProcessList", HOST_READ_STRUCTURED);
    ("hostServiceStatus", HOST_READ_STRUCTURED);
    ("hostServiceLogs", HOST_READ_STRUCTURED);
    ("hostTailscaleStatus", HOST_READ_STRUCTURED);
    ("hostDockerList", HOST_READ_STRUCTURED);
    ("hostDockerLogs", HOST_READ_STRUCTURED);
    ("gitCommit", MUTATE_PROJECT);
    ("gitClearCommitIntent", MUTATE_PROJECT);
    ("gitPush", MUTATE_PROJECT);
    ("ghIssueCreate", MUTATE_PROJECT);
    ("copyOutInfo", HOST_READ_STRUCTURED);
    ("copyInInfo", HOST_READ_STRUCTURED);
    ("copyOut", MUTATE_PROJECT);
    ("copyIn", MUTATE_PROJECT);
    ("policy", HOST_READ_STRUCTURED);
    ("registerProject", MUTATE_PROJECT);
    ("advisorAsk", CONSULT);
    ("advisorRead", CONSULT);
    ("advisorRespond", CONSULT);
    ("evidenceKeep", CONSULT);
    ("task", DELIBERATE);
    ("question", CONSULT);
    ("skill", CONSULT);
    ("systematic_skill", CONSULT);
    ("todowrite", CONSULT);
    ("list_mcp_resources", CONSULT);
    ("read_mcp_resource", CONSULT);
    ("ctx_search", CONSULT);
    ("ctx_expand", CONSULT);
    ("ctx_reduce", CONSULT);
    ("ctx_memory", CONSULT);
    ("ctx_note", CONSULT);
    ("systematic_workflow_start", CONSULT);
    ("systematic_workflow_status", CONSULT);
    ("systematic_workflow_complete", CONSULT);
    ("codegraph_codegraph_explore", READ_PROJECT);
    ("vision_bridge_describe_image", READ_PROJECT);
    ("vision-bridge_describe_image", READ_PROJECT);
    ("github", RESEARCH_EXTERNAL);
    ("aft_outline", HOST_READ_STRUCTURED);
    ("aft_zoom", HOST_READ_STRUCTURED);
    ("aft_search", HOST_READ_STRUCTURED);
    ("aft_callgraph", HOST_READ_STRUCTURED);
    ("aft_inspect", HOST_READ_STRUCTURED);
    ("aft_safety", HOST_ADMIN_STRUCTURED);
    ("aft_import", HOST_ADMIN_STRUCTURED);
    ("ast_grep_replace", HOST_ADMIN_STRUCTURED)
  ]%string.

(** [TOOL_CLASSIFICATION_INVENTORY[operation] ?? null]: the null of an unknown
    operation is [Absent]; a name the table inherits is not replaced. *)
Definition classifyOperation (operation : jsstr) : prop Capability :=
  table_get TOOL_CLASSIFICATION_INVENTORY operation.

Definition classifyAft (operation : jsstr) : option Capability :=
  if negb (startsWith operation (js "aft_"))
     && negb (str_eqb operation (js "ast_grep_replace")) then None
  else match table_get TOOL_CLASSIFICATION_INVENTORY operation with
       | Own HOST_READ_STRUCTURED => Some HOST_READ_STRUCTURED
       | Own HOST_ADMIN_STRUCTURED => Some HOST_ADMIN_STRUCTURED
       | _ => None
       end.

(** ** Orchestrator tool surface *)
Definition ORCHESTRATOR_ALLOWED_TOOLS : list jsstr :=
  map js ["read"; "grep"; "glob"; "codegraph_codegraph_explore"; "question"; "task"]%string.

Definition isSandboxTool (toolName : jsstr) : bool := startsWith toolName (js "sandbox_").

Definition orchestratorHasZeroSandboxTools : bool :=
  negb (existsb (fun t => startsWith t (js "sandbox_")) ORCHESTRATOR_ALLOWED_TOOLS).

(** ** Protected security paths *)
Definition PROTECTED_SECURITY_PREFIXES : list jsstr :=
  map js ["broker/src/"; "nono/profile/"; "opencode/plugins/";
          "opencode/config-fragments/"; "systemd-user/"; "scripts/";
          "tests/security/"; "tests/acceptance/"; "docs/threat-model.md";
          "broker/package.json"; "broker/tsconfig.json"]%string.

(** One [./] is stripped, once. *)
Definition strip_dot_slash (p : jsstr) : jsstr :=
  if startsWith p (js "./") then drop 2 p else p.

Definition isSecurityMutation (targetPath : option jsstr) : bool :=
  match targetPath with
  | None | Some [] => false
  | Some p =>
      let normalized := strip_dot_slash p in
      existsb (fun prefix =>
        if endsWith prefix (js "/")
        then str_eqb normalized (take (length prefix - 1) prefix)
             || startsWith normalized prefix
        else str_eqb normalized prefix || startsWith normalized (prefix ++ js "/"))
        PROTECTED_SECURITY_PREFIXES
      || str_eqb normalized (js "docs/threat-model.md")
  end.

(** ** Decision function *)
Record AuthorizationContext := {
  ac_role : jsstr;
  ac_capability : jsval;
  ac_sessionState : SessionState;
  ac_authoritativeLocation : jsstr;
  ac_isReadOnlyOrchestrator : bool;
  ac_targetPath : option jsstr;
}.

Record DecisionResult := Decision { dr_allow : bool; dr_reasonCode : jsstr }.
Definition deny (r : string) : DecisionResult := Decision false (js r).
Definition allow (r : string) : DecisionResult := Decision true (js r).

Definition ROLE_CAPABILITY_MATRIX (r : Role) (c : Capability) : bool :=
  match r with
  | R_general =>
      match c with
      | READ_PROJECT | HOST_READ_STRUCTURED | CONSULT | DELIBERATE => true
      | RESEARCH_EXTERNAL | MUTATE_PROJECT | HOST_APPROVED_MUTATION
      | EXECUTE_PROJECT | TEST_EXECUTION | HOST_ADMIN_STRUCTURED
      | SECURITY_MUTATION => false
      end
  | R_researcher =>
      match c with
      | READ_PROJECT | RESEARCH_EXTERNAL | HOST_READ_STRUCTURED
      | CONSULT | DELIBERATE => true
      | MUTATE_PROJECT | HOST_APPROVED_MUTATION | EXECUTE_PROJECT
      | TEST_EXECUTION | HOST_ADMIN_STRUCTURED | SECURITY_MUTATION => false
      end
  | R_worker =>
      match c with
      | READ_PROJECT | MUTATE_PROJECT | EXECUTE_PROJECT | CONSULT
      | DELIBERATE => true
      | RESEARCH_EXTERNAL | HOST_APPROVED_MUTATION | TEST_EXECUTION
      | HOST_READ_STRUCTURED | HOST_ADMIN_STRUCTURED | SECURITY_MUTATION => false
      end
  | R_advisor =>
      match c with
      | RESEARCH_EXTERNAL | CONSULT => true
      | READ_PROJECT | MUTATE_PROJECT | HOST_APPROVED_MUTATION
      | EXECUTE_PROJECT | TEST_EXECUTION | HOST_READ_STRUCTURED
      | HOST_ADMIN_STRUCTURED | SECURITY_MUTATION | DELIBERATE => false
      end
  | R_solver =>
      match c with
      | DELIBERATE => true
      | READ_PROJECT | RESEARCH_EXTERNAL | MUTATE_PROJECT
      | HOST_APPROVED_MUTATION | EXECUTE_PROJECT | TEST_EXECUTION
      | HOST_READ_STRUCTURED | HOST_ADMIN_STRUCTURED | SECURITY_MUTATION
      | CONSULT => false
      end
  | R_challenger =>
      match c with
      | DELIBERATE => true
      | READ_PROJECT | RESEARCH_EXTERNAL | MUTATE_PROJECT
      | HOST_APPROVED_MUTATION | EXECUTE_PROJECT | TEST_EXECUTION
      | HOST_READ_STRUCTURED | HOST_ADMIN_STRUCTURED | SECURITY_MUTATION
      | CONSULT => false
      end
  | R_judge =>
      match c with
      | DELIBERATE => true
      | READ_PROJECT | RESEARCH_EXTERNAL | MUTATE_PROJECT
      | HOST_APPROVED_MUTATION | EXECUTE_PROJECT | TEST_EXECUTION
      | HOST_READ_STRUCTURED | HOST_ADMIN_STRUCTURED | SECURITY_MUTATION
      | CONSULT => false
      end
  | R_fresh_eyes =>
      match c with
      | DELIBERATE => true
      | READ_PROJECT | RESEARCH_EXTERNAL | MUTATE_PROJECT
      | HOST_APPROVED_MUTATION | EXECUTE_PROJECT | TEST_EXECUTION
      | HOST_READ_STRUCTURED | HOST_ADMIN_STRUCTURED | SECURITY_MUTATION
      | CONSULT => false
      end
  | R_planner =>
      match c with
      | READ_PROJECT | RESEARCH_EXTERNAL | HOST_APPROVED_MUTATION
      | HOST_READ_STRUCTURED | CONSULT | DELIBERATE => true
      | MUTATE_PROJECT | EXECUTE_PROJECT | TEST_EXECUTION
      | HOST_ADMIN_STRUCTURED | SECURITY_MUTATION => false
      end
  | R_pm =>
      match c with
      | READ_PROJECT | HOST_APPROVED_MUTATION | HOST_READ_STRUCTURED
      | CONSULT | DELIBERATE => true
      | RESEARCH_EXTERNAL | MUTATE_PROJECT | EXECUTE_PROJECT
      | TEST_EXECUTION | HOST_ADMIN_STRUCTURED | SECURITY_MUTATION => false
      end
  end.

Definition is_cap (c : Capability) (v : jsval) : bool :=
  bool_decide (capability_of v = Some c).

Definition decide (ctx : AuthorizationContext) : DecisionResult :=
  let cap := ac_capability ctx in
  if ac_isReadOnlyOrchestrator ctx then
    if is_cap MUTATE_PROJECT cap || is_cap EXECUTE_PROJECT cap
       || is_cap SECURITY_MUTATION cap || is_cap HOST_ADMIN_STRUCTURED cap
    then deny "ORCHESTRATOR_READ_ONLY"
    else if negb (isCapability cap) then deny "UNKNOWN_CAPABILITY"
    else allow "ORCHESTRATOR_READ_ONLY_ALLOWED"
  else
  match role_of (ac_role ctx), capability_of cap with
  | None, _ => deny "UNKNOWN_ROLE"
  | _, None => deny "UNKNOWN_CAPABILITY"
  | Some role, Some capability =>
      if bool_decide (capability = SECURITY_MUTATION) then deny "SECURITY_MUTATION_DENIED"
      else if isSecurityMutation (ac_targetPath ctx)
              && bool_decide (capability ∈ [MUTATE_PROJECT; EXECUTE_PROJECT])
      then deny "SECURITY_MUTATION_DENIED"
      else if bool_decide (capability = HOST_ADMIN_STRUCTURED) then deny "HOST_ADMIN_DENIED"
      else if str_eqb (ac_authoritativeLocation ctx) []
              && bool_decide (capability ∈ [MUTATE_PROJECT; EXECUTE_PROJECT])
      then deny "UNKNOWN_LOCATION"
      else if bool_decide (capability = HOST_READ_STRUCTURED) then
        if bool_decide (role ∈ [R_researcher; R_general]) then
          if bool_decide (ac_sessionState ctx = HOST_READ_ONLY)
          then allow "PRE_ACTIVATION_AFT_READ_ALLOWED"
          else deny "POST_ACTIVATION_AFT_DENIED"
        else deny "ROLE_DENIED_FOR_AFT_READ"
      else if negb (ROLE_CAPABILITY_MATRIX role capability)
      then deny "ROLE_CAPABILITY_DENIED"
      else allow "ALLOWED"
  end.

(** ** Read-only agents *)
Definition isReadOnlyAgent (agent : option jsstr) (readOnlyAgents : list jsstr) : bool :=
  match agent with
  | None | Some [] => false
  | Some a => mem a readOnlyAgents
  end.

Definition shouldRefuseEnsureWorker (trustedAgent : option jsstr)
    (readOnlyAgents : list jsstr) : bool :=
  isReadOnlyAgent trustedAgent readOnlyAgents.

Definition assertNotOrchestratorForSandbox (agent : option jsstr)
    (readOnlyAgents : list jsstr) (toolName : option jsstr) : res unit :=
  throw_if (isReadOnlyAgent agent readOnlyAgents)
    (Exn EError (js "orchestrator agent " ++ [34%N] ++ default (js "unknown") agent
       ++ [34%N] ++ js " is not allowed to use sandbox operation"
       ++ match toolName with
          | None | Some [] => []
          | Some t => js " " ++ [34%N] ++ t ++ [34%N]
          end ++ js " (orchestrator-readonly)")).

(** ** Lemmas *)
Lemma capability_of_name c : capability_of (JStr (capability_name c)) = Some c.
Proof. by destruct c. Qed.

Lemma role_of_name r : role_of (role_name r) = Some r.
Proof. by destruct r. Qed.

Lemma role_of_Some s r : role_of s = Some r -> s = role_name r.
Proof.
  unfold role_of. intros H%List.find_some. destruct H as [_ H].
  symmetry. by apply str_eqb_eq in H.
Qed.

Lemma role_is_worker s r : role_of s = Some r -> s = js "worker" <-> r = R_worker.
Proof.
  intros Hr. rewrite (role_of_Some _ _ Hr). split; [by destruct r | by intros ->].
Qed.

Lemma is_cap_of c v : capability_of v = Some c -> forall c', is_cap c' v = bool_decide (c = c').
Proof.
  intros H c'. unfold is_cap. rewrite H. apply bool_decide_ext. naive_solver.
Qed.

(** Every branch of [decide] for a session that is not a read-only
    orchestrator's, for known role and capability. *)
Lemma decide_role ctx r c :
  ac_isReadOnlyOrchestrator ctx = false ->
  role_of (ac_role ctx) = Some r -> capability_of (ac_capability ctx) = Some c ->
  dr_allow (decide ctx) =
    match c with
    | SECURITY_MUTATION | HOST_ADMIN_STRUCTURED => false
    | HOST_READ_STRUCTURED =>
        bool_decide (r ∈ [R_researcher; R_general])
        && bool_decide (ac_sessionState ctx = HOST_READ_ONLY)
    | MUTATE_PROJECT | EXECUTE_PROJECT =>
        negb (isSecurityMutation (ac_targetPath ctx))
        && negb (str_eqb (ac_authoritativeLocation ctx) [])
        && ROLE_CAPABILITY_MATRIX r c
    | _ => ROLE_CAPABILITY_MATRIX r c
    end.
Proof.
  intros Hro Hr Hc. unfold decide. rewrite Hro, Hr, Hc.
  destruct (isSecurityMutation (ac_targetPath ctx)),
    (str_eqb (ac_authoritativeLocation ctx) []), c, r; try reflexivity;
    cbn; by destruct (bool_decide (ac_sessionState ctx = HOST_READ_ONLY)).
Qed.

(** ** Properties *)

(** No decision ever grants a security mutation or host administration,
    and a read-only orchestrator is never granted a project mutation or
    execution either. *)
Theorem decide_never_grants ctx c :
  capability_of (ac_capability ctx) = Some c ->
  c = SECURITY_MUTATION \/ c = HOST_ADMIN_STRUCTURED \/
  (ac_isReadOnlyOrchestrator ctx = true /\ (c = MUTATE_PROJECT \/ c = EXECUTE_PROJECT)) ->
  dr_allow (decide ctx) = false.
Proof.
  intros Hc H. destruct (ac_isReadOnlyOrchestrator ctx) eqn:Hro.
  - unfold decide. rewrite Hro, !(is_cap_of _ _ Hc).
    by destruct H as [-> | [-> | [_ [-> | ->]]]].
  - destruct (role_of (ac_role ctx)) as [r|] eqn:Hr.
    + rewrite (decide_role ctx r c Hro Hr Hc). by destruct H as [-> | [-> | [? _]]].
    + unfold decide. by rewrite Hro, Hr.
Qed.

Lemma decide_never_grants_witness :
  let ctx := {| ac_role := js "worker"; ac_capability := JStr (js "SECURITY_MUTATION");
                ac_sessionState := SANDBOX_ACTIVE; ac_authoritativeLocation := js "proj";
                ac_isReadOnlyOrchestrator := false; ac_targetPath := None |} in
  dr_allow (decide ctx) = false.
Proof.
  cbv zeta. apply (decide_never_grants _ SECURITY_MUTATION); [reflexivity|left; reflexivity].
Defined.

(** Project mutation and execution are granted to one role only: an allowed
    [MUTATE_PROJECT] or [EXECUTE_PROJECT] decision is for the [worker] role, at
    a known project, on a path outside the protected security files; and under
    those conditions it is granted. *)
Theorem mutation_granted_iff ctx c :
  capability_of (ac_capability ctx) = Some c ->
  c = MUTATE_PROJECT \/ c = EXECUTE_PROJECT ->
  dr_allow (decide ctx) = true <->
  ac_isReadOnlyOrchestrator ctx = false /\ ac_role ctx = js "worker" /\
  ac_authoritativeLocation ctx <> [] /\ isSecurityMutation (ac_targetPath ctx) = false.
Proof.
  intros Hc Hm. destruct (ac_isReadOnlyOrchestrator ctx) eqn:Hro.
  { unfold decide. rewrite Hro, !(is_cap_of _ _ Hc).
    split; [by destruct Hm as [-> | ->] | intros [? _]; congruence]. }
  destruct (role_of (ac_role ctx)) as [r|] eqn:Hr.
  - rewrite (decide_role ctx r c Hro Hr Hc), <- (str_eqb_neq _ []).
    rewrite (role_is_worker _ _ Hr).
    destruct (isSecurityMutation (ac_targetPath ctx)),
      (str_eqb (ac_authoritativeLocation ctx) []), Hm as [-> | ->], r; cbn;
      intuition congruence.
  - unfold decide. rewrite Hro, Hr. cbn. split; [done|].
    intros (_ & Hw & _). rewrite Hw in Hr. done.
Qed.

Lemma mutation_granted_iff_witness :
  let ctx := {| ac_role := js "worker"; ac_capability := JStr (js "MUTATE_PROJECT");
                ac_sessionState := SANDBOX_ACTIVE; ac_authoritativeLocation := js "proj";
                ac_isReadOnlyOrchestrator := false; ac_targetPath := Some (js "src/a.ts") |} in
  dr_allow (decide ctx) = true.
Proof.
  cbv zeta. apply (mutation_granted_iff _ MUTATE_PROJECT); [reflexivity|left; reflexivity|].
  vm_compute; repeat split; congruence.
Defined.

(** The matrix's structured-host-read grants to [planner] and [pm] are dead:
    the decision function refuses that capability to every role except
    [researcher] and [general], and to those once the session has left
    [HOST_READ_ONLY]. *)
Theorem host_read_granted_iff ctx r :
  ac_isReadOnlyOrchestrator ctx = false ->
  role_of (ac_role ctx) = Some r ->
  capability_of (ac_capability ctx) = Some HOST_READ_STRUCTURED ->
  (dr_allow (decide ctx) = true <->
   (r = R_researcher \/ r = R_general) /\ ac_sessionState ctx = HOST_READ_ONLY) /\
  ROLE_CAPABILITY_MATRIX R_planner HOST_READ_STRUCTURED = true /\
  ROLE_CAPABILITY_MATRIX R_pm HOST_READ_STRUCTURED = true.
Proof.
  intros Hro Hr Hc. rewrite (decide_role ctx r _ Hro Hr Hc).
  rewrite andb_true_iff, !bool_decide_eq_true. split; [set_solver|done].
Qed.

Lemma host_read_granted_iff_witness :
  let ctx := {| ac_role := js "planner"; ac_capability := JStr (js "HOST_READ_STRUCTURED");
                ac_sessionState := HOST_READ_ONLY; ac_authoritativeLocation := js "proj";
                ac_isReadOnlyOrchestrator := false; ac_targetPath := None |} in
  dr_allow (decide ctx) = true <->
  (R_planner = R_researcher \/ R_planner = R_general) /\ HOST_READ_ONLY = HOST_READ_ONLY.
Proof.
  cbv zeta.
  exact (proj1 (host_read_granted_iff
    {| ac_role := js "planner"; ac_capability := JStr (js "HOST_READ_STRUCTURED");
       ac_sessionState := HOST_READ_ONLY; ac_authoritativeLocation := js "proj";
       ac_isReadOnlyOrchestrator := false; ac_targetPath := None |} R_planner
    eq_refl eq_refl eq_refl)).
Defined.
