(* ===== verification/Path.v ===== *)
(** * POSIX paths

    The [node:path] functions the source imports ([normalize], [resolve],
    [join], [dirname], [basename], [extname], [isAbsolute]) and the containment
    test [isWithin] (broker/src/validation.ts).  A path is handled as the list
    of its segments, as the library does. *)
From S2P Require Import Prelude.

(** ["/"] *)
Definition SLASH : N := 47.
Definition DOT : jsstr := js ".".
Definition DOTDOT : jsstr := js "..".

Definition isAbsolute (p : jsstr) : bool := startsWith p [SLASH].

(** One segment of [normalizeString]: the output is a stack, top first. *)
Definition norm_step (allowAboveRoot : bool) (out : list jsstr) (seg : jsstr) : list jsstr :=
  if str_eqb seg [] || str_eqb seg DOT then out
  else if str_eqb seg DOTDOT then
    match out with
    | [] => if allowAboveRoot then [DOTDOT] else []
    | top :: out' =>
        if str_eqb top DOTDOT then (if allowAboveRoot then DOTDOT :: out else out)
        else out'
    end
  else seg :: out.

(** The segments of [normalizeString(path, allowAboveRoot)], in order. *)
Definition norm_segs (allowAboveRoot : bool) (segs : list jsstr) : list jsstr :=
  rev (fold_left (norm_step allowAboveRoot) segs []).

Definition normalizeString (p : jsstr) (allowAboveRoot : bool) : jsstr :=
  join_with [SLASH] (norm_segs allowAboveRoot (split_on SLASH p)).

Definition normalize (p : jsstr) : jsstr :=
  match p with
  | [] => DOT
  | _ =>
      let abs := isAbsolute p in
      let trailing := endsWith p [SLASH] in
      let body := normalizeString p (negb abs) in
      match body with
      | [] => if abs then [SLASH] else if trailing then js "./" else DOT
      | _ =>
          let body := if trailing then body ++ [SLASH] else body in
          if abs then SLASH :: body else body
      end
  end.

(** [join(...parts)] *)
Definition join (parts : list jsstr) : jsstr :=
  match List.filter (fun p => negb (str_eqb p [])) parts with
  | [] => DOT
  | ps => normalize (join_with [SLASH] ps)
  end.

(** [resolve(base, p)] for an absolute base. *)
Definition resolve2 (base p : jsstr) : jsstr :=
  let full := if isAbsolute p then p
              else match p with [] => base | _ => base ++ [SLASH] ++ p end in
  SLASH :: normalizeString full false.

(** [resolve(p)] with the process's working directory. *)
Definition resolve1 (cwd p : jsstr) : jsstr := resolve2 cwd p.

(** The path without its trailing slashes. *)
Fixpoint drop_slashes (r : jsstr) : jsstr :=
  match r with
  | c :: r' => if N.eqb c SLASH then drop_slashes r' else r
  | [] => []
  end.
Definition strip_trailing (p : jsstr) : jsstr := rev (drop_slashes (rev p)).

(** [basename(p)]: the last segment, trailing slashes ignored. *)
Definition basename (p : jsstr) : jsstr :=
  default [] (last (split_on SLASH (strip_trailing p))).

(** [dirname(p)] *)
Definition dirname (p : jsstr) : jsstr :=
  match p with
  | [] => DOT
  | _ =>
      let q := strip_trailing p in
      let front := take (length q - length (basename q)) q in
      match q, front with
      | [], _ => [SLASH]
      | _, [] => DOT
      | _, [_] => [SLASH]
      | _, [_; _] => if isAbsolute p then [SLASH; SLASH] else take 1 front
      | _, _ => take (length front - 1) front
      end
  end.

(** [extname(p)]: from the last dot of the base name, unless the base name
    starts with its only dot or is [..]. *)
Definition extname (p : jsstr) : jsstr :=
  let b := basename p in
  if str_eqb b DOTDOT then [] else
  match cut_at (ch ".") (rev b) with
  | Some (ext_r, (_ :: _)) => DOT ++ rev ext_r
  | _ => []
  end.

Definition segments (p : jsstr) : list jsstr := List.filter (fun s => negb (str_eqb s [])) (split_on SLASH p).

Fixpoint drop_common (a b : list jsstr) : list jsstr * list jsstr :=
  match a, b with
  | x :: a', y :: b' => if str_eqb x y then drop_common a' b' else (a, b)
  | _, _ => (a, b)
  end.

(** [relative(from, to)] of resolved absolute paths: up from [from], then down. *)
Definition relative (from to : jsstr) : jsstr :=
  let '(up, down) := drop_common (segments from) (segments to) in
  join_with [SLASH] (map (fun _ => DOTDOT) up ++ down).

(** [isWithin(parent, child)] *)
Definition isWithin (parent child : jsstr) : bool :=
  str_eqb child parent
  || startsWith child (if endsWith parent [SLASH] then parent else parent ++ [SLASH]).

(** ** Lemmas *)
Lemma split_on_nonempty c s : split_on c s <> [].
Proof. destruct s; cbn; [done|]. repeat case_match; done. Qed.

Lemma split_on_app c a b :
  split_on c (a ++ c :: b) = split_on c a ++ split_on c b.
Proof.
  induction a as [|d a IH]; cbn [split_on app].
  - by rewrite N.eqb_refl.
  - destruct (N.eqb c d); [by rewrite IH|]. rewrite IH.
    destruct (split_on c a) eqn:E; [by apply split_on_nonempty in E|done].
Qed.

Lemma join_split c s : join_with [c] (split_on c s) = s.
Proof.
  induction s as [|d s IH]; cbn [split_on]; [done|].
  destruct (N.eqb_spec c d) as [->|Hne].
  - destruct (split_on d s) eqn:E; [by apply split_on_nonempty in E|].
    cbn in *. by rewrite <- IH.
  - destruct (split_on c s) as [|w ws] eqn:E; [by apply split_on_nonempty in E|].
    rewrite <- IH. by destruct ws.
Qed.

Lemma split_on_no_sep c s w : w ∈ split_on c s -> c ∉ w.
Proof.
  revert w; induction s as [|d s IH]; cbn [split_on]; intros w.
  - intros ->%list_elem_of_singleton. apply not_elem_of_nil.
  - destruct (N.eqb_spec c d) as [->|Hne].
    + intros [->|?]%elem_of_cons; [apply not_elem_of_nil | auto].
    + destruct (split_on c s) as [|w' ws] eqn:E; [by apply split_on_nonempty in E|].
      intros [->|Hw]%elem_of_cons.
      * apply not_elem_of_cons. split; [done|]. apply IH. apply elem_of_cons; auto.
      * apply IH. apply elem_of_cons; auto.
Qed.

Lemma join_with_cons sep w ws :
  ws <> [] -> join_with sep (w :: ws) = w ++ sep ++ join_with sep ws.
Proof. by destruct ws. Qed.

Lemma join_with_app sep a b :
  a <> [] -> b <> [] -> join_with sep (a ++ b) = join_with sep a ++ sep ++ join_with sep b.
Proof.
  intros Ha Hb. induction a as [|w a IH]; [done|].
  destruct a as [|w' a].
  - cbn [app]. by rewrite join_with_cons.
  - change ((w :: w' :: a) ++ b) with (w :: ((w' :: a) ++ b)).
    rewrite !join_with_cons, IH by done. by rewrite <- !app_assoc.
Qed.

Lemma isAbsolute_true p : isAbsolute p = true <-> exists q, p = SLASH :: q.
Proof. unfold isAbsolute. rewrite startsWith_spec. naive_solver. Qed.

Lemma norm_step_eqs b out seg :
  norm_step b out seg =
    if decide (seg = [] \/ seg = DOT) then out
    else if decide (seg = DOTDOT) then
      match out with
      | [] => if b then [DOTDOT] else []
      | top :: out' =>
          if decide (top = DOTDOT) then (if b then DOTDOT :: out else out) else out'
      end
    else seg :: out.
Proof.
  unfold norm_step, str_eqb. repeat case_bool_decide; repeat case_decide; cbn;
    try tauto; destruct out; try done; repeat case_bool_decide; repeat case_decide; tauto.
Qed.

(** A stack whose bottom is [..] keeps it. *)
Lemma norm_fold_dotdot segs s :
  last s = Some DOTDOT ->
  last (fold_left (norm_step true) segs s) = Some DOTDOT.
Proof.
  revert s; induction segs as [|seg segs IH]; cbn; intros s Hs; [done|].
  apply IH. rewrite norm_step_eqs. repeat case_decide; try done.
  - destruct s as [|top s]; [done|]. case_decide as Ht; [by destruct s|].
    destruct s as [|t' s]; [|done]. cbn in Hs. by injection Hs as ->.
  - by destruct s.
Qed.

(** A relative walk that never climbs above its start is the same walk from
    any base. *)
Lemma norm_fold_base segs s base :
  DOTDOT ∉ s ->
  last (fold_left (norm_step true) segs s) <> Some DOTDOT ->
  fold_left (norm_step false) segs (s ++ base) =
  fold_left (norm_step true) segs s ++ base.
Proof.
  revert s; induction segs as [|seg segs IH]; cbn; intros s Hs Hl; [done|].
  rewrite norm_step_eqs. revert Hl. rewrite norm_step_eqs.
  case_decide; [by apply IH|]. case_decide.
  - destruct s as [|top s].
    + intros Hl. destruct Hl. by apply norm_fold_dotdot.
    + apply not_elem_of_cons in Hs as [Ht Hs]. cbn [app].
      rewrite !decide_False by done. by apply IH.
  - intros Hl. apply (IH (seg :: s)); [|done]. apply not_elem_of_cons; done.
Qed.

(** An absolute path in the form [resolve] gives. *)
Definition canonical_abs (p : jsstr) : Prop := isAbsolute p = true /\ resolve1 p p = p.

Lemma resolve2_segs base p :
  isAbsolute p = false -> p <> [] ->
  resolve2 base p =
  SLASH :: join_with [SLASH]
    (rev (fold_left (norm_step false) (split_on SLASH p)
            (fold_left (norm_step false) (split_on SLASH base) []))).
Proof.
  intros Hr Hp. unfold resolve2, normalizeString, norm_segs. rewrite Hr.
  destruct p as [|c p]; [done|].
  change (base ++ [SLASH] ++ c :: p) with (base ++ SLASH :: (c :: p)).
  by rewrite split_on_app, fold_left_app.
Qed.

Lemma isWithin_app root t :
  isWithin root (root ++ [SLASH] ++ t) = true.
Proof.
  unfold isWithin. apply orb_true_iff. right.
  destruct (endsWith root [SLASH]); [apply startsWith_app|].
  rewrite app_assoc. apply startsWith_app.
Qed.

Lemma isWithin_refl root : isWithin root root = true.
Proof. unfold isWithin. by rewrite (proj2 (str_eqb_eq _ _) eq_refl). Qed.

(** The two tests a validator makes on a normalized relative path. *)
Definition climbs (n : jsstr) : bool :=
  str_eqb n DOTDOT || startsWith n (DOTDOT ++ [SLASH]).

Lemma normalize_climbs p :
  p <> [] -> isAbsolute p = false ->
  last (fold_left (norm_step true) (split_on SLASH p) []) = Some DOTDOT ->
  climbs (normalize p) = true.
Proof.
  intros Hp Hr Hl. destruct p as [|c p]; [done|].
  unfold normalize. rewrite Hr. cbn [negb].
  unfold normalizeString, norm_segs.
  set (stk := fold_left _ _ _) in *.
  destruct (rev stk) as [|w ws] eqn:E.
  { apply (f_equal (@rev _)) in E. rewrite rev_involutive in E. by rewrite E in Hl. }
  assert (w = DOTDOT) as ->.
  { apply (f_equal (@rev _)) in E. rewrite rev_involutive in E. rewrite E in Hl.
    change (rev (w :: ws)) with (rev ws ++ [w]) in Hl.
    rewrite last_snoc in Hl. by injection Hl. }
  clear E. unfold climbs. apply orb_true_iff.
  destruct ws as [|w' ws].
  - change (join_with [SLASH] [DOTDOT]) with DOTDOT.
    destruct (endsWith _ _); cbn; auto.
  - right. rewrite join_with_cons by done.
    generalize (join_with [SLASH] (w' :: ws)); intros x.
    assert (forall y, startsWith (DOTDOT ++ [SLASH] ++ y) (DOTDOT ++ [SLASH]) = true) as Hsw
      by (intros y; rewrite app_assoc; apply startsWith_app).
    destruct (endsWith _ _); [|apply Hsw].
    rewrite <- !(app_assoc DOTDOT), <- (app_assoc [SLASH]). apply Hsw.
Qed.

(** A relative path that never climbs above its start resolves inside every
    canonical root. *)
Lemma resolve_within_walk root p :
  canonical_abs root -> p <> [] -> isAbsolute p = false ->
  last (fold_left (norm_step true) (split_on SLASH p) []) <> Some DOTDOT ->
  isWithin root (resolve2 root p) = true.
Proof.
  intros [Habs Hcan] Hp Hr Hl. rewrite resolve2_segs by done.
  unfold resolve1, resolve2 in Hcan. rewrite Habs in Hcan.
  unfold normalizeString, norm_segs in Hcan.
  set (B := fold_left (norm_step false) (split_on SLASH root) []) in *.
  rewrite (norm_fold_base _ [] B); [|apply not_elem_of_nil | exact Hl].
  rewrite rev_app_distr.
  destruct (rev (fold_left (norm_step true) (split_on SLASH p) [])) as [|w ws] eqn:Es.
  { rewrite app_nil_r, Hcan. apply isWithin_refl. }
  destruct (rev B) as [|b bs] eqn:EB.
  { cbn in Hcan. rewrite <- Hcan. unfold isWithin. apply orb_true_iff. right.
    apply (startsWith_app [SLASH]). }
  rewrite join_with_app by done.
  rewrite app_comm_cons, Hcan. apply isWithin_app.
Qed.

Lemma resolve_within root p :
  canonical_abs root -> p <> [] -> isAbsolute p = false ->
  climbs (normalize p) = false ->
  isWithin root (resolve2 root p) = true.
Proof.
  intros Hroot Hp Hr Hc. apply resolve_within_walk; [done..|]. intros Hl. by rewrite (normalize_climbs p) in Hc.
Qed.

(** Without a [..] a walk never climbs. *)
Lemma norm_fold_no_dotdot b segs s :
  DOTDOT ∉ segs -> DOTDOT ∉ s -> DOTDOT ∉ fold_left (norm_step b) segs s.
Proof.
  revert s. induction segs as [|seg segs IH]; intros s Hs H; [done|]. apply not_elem_of_cons in Hs as [Hne Hs].
  cbn [fold_left]. apply IH; [done|]. rewrite norm_step_eqs. case_decide; [done|]. rewrite decide_False by congruence.
  apply not_elem_of_cons. split; [congruence | done].
Qed.
