(* ===== verification/Validation.v ===== *)
(** * Argument validation (broker/src/validation.ts)

    The validators of identifiers, strings, argument vectors, paths, host-tool,
    git and review arguments, over the values a parsed request can carry.  Each
    returns [Ok tt] or throws the source's [ValidationError].  The validators
    that consult the file system are in HostPaths.v, the payload-key allowlist
    and the envelope in Envelope.v. *)
From S2P Require Import Prelude JsVal Path.

Definition invalid (m : string) : exn := validation_error (js m).
Definition invalid_ (parts : list jsstr) : exn := validation_error (concat parts).

(** ** Identifiers *)
Definition SESSION_ID_RE : jsstr -> bool :=
  re_class (fun c => is_alnum c || one_of "_-" c) 1 64.
Definition SESSION_ID_RE_text : jsstr := js "/^[A-Za-z0-9_-]{1,64}$/".

Definition PROJECT_ID_RE (s : jsstr) : bool :=
  match s with
  | c :: s' => is_lower c &&
      re_class (fun c => is_lower c || is_digit c || one_of "._-" c) 0 63 s'
  | [] => false
  end.
Definition PROJECT_ID_RE_text : jsstr := js "/^[a-z][a-z0-9._-]{0,63}$/".

Definition AGENT_NAME_RE : jsstr -> bool :=
  re_class (fun c => is_alnum c || one_of "_.-" c) 0 128.
Definition REQUEST_ID_RE : jsstr -> bool :=
  re_class (fun c => is_alnum c || one_of "-" c) 1 128.

Definition assertSessionID (id : jsval) : res unit :=
  let bad := throw_if true (invalid_
    [js "invalid sessionID: must match "; SESSION_ID_RE_text; js ", got "; json_text id]) in
  match id with
  | JStr s => if SESSION_ID_RE s then Ok tt else bad
  | _ => bad
  end.

Definition assertProjectID (id : jsval) : res unit :=
  let bad := throw_if true (invalid_
    [js "invalid projectID: must match "; PROJECT_ID_RE_text; js ", got "; json_text id]) in
  match id with
  | JStr s => if PROJECT_ID_RE s then Ok tt else bad
  | _ => bad
  end.

Definition assertAgentName (a : jsval) : res unit :=
  if is_nullish a then Ok tt else
  match a with
  | JStr s => throw_if (negb (AGENT_NAME_RE s) || (128 <? js_length s))
                (invalid "invalid agent name (logging field only)")
  | _ => Throw (invalid "invalid agent name (logging field only)")
  end.

Definition assertRequestID (id : jsval) : res unit :=
  match id with
  | JStr s => throw_if (negb (REQUEST_ID_RE s)) (invalid "invalid request id")
  | _ => Throw (invalid "invalid request id")
  end.

Definition assertRefComponent (id : jsstr) : res unit :=
  _ ← assertSessionID (JStr id);
  throw_if (includes id (js "..") || startsWith id (js ".") || endsWith id (js ".")
            || startsWith id (js "-") || includes id (js "@{") || includes id (js "/"))
    (invalid "sessionID not safe as a git ref component").

(** ** Strings, sizes, control characters *)
Definition CONTROL_CHARS (s : jsstr) : bool :=
  existsb (fun c => (c <=? 31)%N || (c =? 127)%N) s.

Definition assertNoControlChars (value what : jsstr) : res unit :=
  throw_if (CONTROL_CHARS value)
    (invalid_ [what; js " contains control characters or NUL"]).

Definition assertMaxBytes (value : jsstr) (max : Z) (what : jsstr) : res unit :=
  throw_if (max <? byteLength value)
    (invalid_ [what; js " exceeds "; dec max; js " bytes"]).

(** [;&|<>$`'] and the double quote, backslash, LF and CR. *)
Definition SHELL_METACHARS (s : jsstr) : bool :=
  existsb (fun c => one_of ";&|<>$`'\" c || (c =? 34)%N || (c =? 10)%N || (c =? 13)%N) s.

Definition assertNoShellMetachars (value what : jsstr) : res unit :=
  throw_if (SHELL_METACHARS value)
    (invalid_ [what; js " contains shell metacharacters"]).

(** ** Argument vectors *)
Record ArgvLimits := mkArgvLimits {
  itemMaxBytes : Z;
  maxItems : Z;
  totalMaxBytes : Z
}.

(** The body of the loop over the items; [total] is the running byte count. *)
Fixpoint argv_items (limits : ArgvLimits) (total : Z) (items : list jsval) : res unit :=
  match items with
  | [] => Ok tt
  | JStr item :: rest =>
      _ ← assertMaxBytes item (itemMaxBytes limits) (js "argv item");
      _ ← assertNoControlChars item (js "argv item");
      _ ← assertNoShellMetachars item (js "argv item");
      let total := total + byteLength item in
      if totalMaxBytes limits <? total
      then Throw (invalid_ [js "argv exceeds "; dec (totalMaxBytes limits); js " bytes total"])
      else argv_items limits total rest
  | _ :: _ => Throw (invalid "argv items must be strings")
  end.

Definition assertArgv (argv : jsval) (limits : ArgvLimits) : res unit :=
  match argv with
  | JArr items =>
      _ ← throw_if (Z.of_nat (length items) =? 0) (invalid "argv must not be empty");
      _ ← throw_if (maxItems limits <? Z.of_nat (length items))
            (invalid_ [js "argv exceeds "; dec (maxItems limits); js " items"]);
      argv_items limits 0 items
  | _ => Throw (invalid "argv must be an array of strings (never a shell string)")
  end.

(** ** Sandbox paths and small arguments *)

(** [/^[A-Za-z]:[\\/]/] *)
Definition drive_prefix (p : jsstr) : bool :=
  match p with
  | c :: d :: e :: _ => (is_lower c || is_upper c) && (d =? 58)%N && ((e =? 92) || (e =? 47))%N
  | _ => false
  end.

Definition assertSandboxPath_max (maxBytes : Z) (path : jsval) : res unit :=
  match path with
  | JStr p =>
      _ ← throw_if (js_length p =? 0) (invalid "path must be a non-empty string");
      _ ← assertMaxBytes p maxBytes (js "path");
      _ ← assertNoControlChars p (js "path");
      _ ← throw_if (startsWith p (js "/") || startsWith p (js "~") || drive_prefix p)
            (invalid "path must be relative to the sandbox project root");
      _ ← throw_if (includes p (js "\")) (invalid "path contains a backslash");
      let normalized := normalize p in
      throw_if (str_eqb normalized (js "..") || startsWith normalized (js "../"))
        (invalid "path escapes the sandbox project root (..)")
  | _ => Throw (invalid "path must be a non-empty string")
  end.

Definition assertSandboxPath : jsval -> res unit := assertSandboxPath_max 4096.

Definition assertSince (since : jsval) : res unit :=
  if is_nullish since then Ok tt else
  match since with
  | JStr s => throw_if (negb (re_class (fun c => is_alnum c || one_of " :.+-" c) 1 64 s))
                (invalid "invalid 'since' value")
  | _ => Throw (invalid "invalid 'since' value")
  end.

Definition assertPositiveInt (value : jsval) (max : Z) (what : jsstr) : res unit :=
  let bad := Throw (invalid_ [what; js " must be an integer in [1, "; dec max; js "]"]) in
  if is_nullish value then Ok tt else
  match value with
  | JNum (NumInt z) => if (z <=? 0) || (max <? z) then bad else Ok tt
  | _ => bad
  end.

Definition assertServiceOrContainerName (value : jsval) (what : jsstr) : res unit :=
  let bad := Throw (invalid_ [js "invalid "; what; js " name"]) in
  match value with
  | JStr s =>
      if negb (re_class (fun c => is_alnum c || one_of "_.:@-" c) 1 128 s) then bad else
      _ ← throw_if (startsWith s (js "-")) (invalid_ [what; js " name must not start with '-'"]);
      assertNoShellMetachars s what
  | _ => bad
  end.

Definition assertProcessFilter (filter : jsval) : res unit :=
  if is_nullish filter then Ok tt else
  match filter with
  | JStr s =>
      _ ← assertMaxBytes s 256 (js "filter");
      _ ← assertNoControlChars s (js "filter");
      throw_if (includes s (js "/")) (invalid "filter must not contain '/'")
  | _ => Throw (invalid "filter must be a string")
  end.

Definition assertGrepQuery (query : jsval) (maxBytes : Z) : res unit :=
  match query with
  | JStr s =>
      _ ← throw_if (js_length s =? 0) (invalid "query must be a non-empty string");
      _ ← assertMaxBytes s maxBytes (js "query");
      _ ← assertNoControlChars s (js "query");
      throw_if (SHELL_METACHARS s) (invalid "query contains shell metacharacters")
  | _ => Throw (invalid "query must be a non-empty string")
  end.

Definition assertContent (content : jsval) (maxBytes : Z) : res unit :=
  match content with
  | JStr s => assertMaxBytes s maxBytes (js "content")
  | _ => Throw (invalid "content must be a string")
  end.

(** ** Host-tool (SDD runtime) arguments *)
Definition MAX_HOST_PATH_BYTES : Z := 4096.
Definition MAX_HOST_TOOL_COUNT : Z := 100000.
Definition SDD_IDENTIFIER_RE : jsstr -> bool :=
  re_class (fun c => is_alnum c || one_of "._-" c) 1 128.
Definition SDD_STATUS_CONTRACTS : list jsstr := [js "gentle-ai.sdd-status/v2"].
Definition SHA256_HEX_RE : jsstr -> bool := re_class is_hex_lower 64 64.
Definition REVIEW_RUNTIME_AGENT_RE : jsstr -> bool :=
  re_class (fun c => is_lower c || is_digit c || one_of "_-" c) 1 64.
Definition MAX_INTENDED_UNTRACKED : Z := 256.
Definition SDD_TOKEN_RE : jsstr -> bool :=
  re_class (fun c => is_alnum c || one_of "._:+/=-" c) 1 512.

(** A value the source compares with [!==] against a fixed list of strings. *)
Definition is_one_of (allowed : list string) (v : jsval) : bool :=
  match v with JStr s => mem s (map js allowed) | _ => false end.

Definition assertSddIdentifier (value : jsval) (what : jsstr) : res unit :=
  let bad := Throw (invalid_ [js "invalid "; what]) in
  match value with
  | JStr s =>
      if negb (SDD_IDENTIFIER_RE s) || includes s (js "..") || startsWith s (js "-") then bad else
      _ ← assertNoControlChars s what;
      assertNoShellMetachars s what
  | _ => bad
  end.

Definition assertSddContract (value : jsval) : res unit :=
  let bad := Throw (invalid_ [js "unsupported SDD status contract: "; json_text value]) in
  match value with
  | JStr s => if mem s SDD_STATUS_CONTRACTS then Ok tt else bad
  | _ => bad
  end.

Definition assertSddOutcome (value : jsval) : res unit :=
  throw_if (negb (is_one_of ["passed"; "failed"; "interrupted"]%string value))
    (invalid "outcome must be passed, failed, or interrupted").

Definition assertHarnessDisposition (value : jsval) : res unit :=
  throw_if (negb (is_one_of ["reused"; "invalidated"]%string value))
    (invalid "harnessDisposition must be reused or invalidated").

Definition assertReviewRuntimeAgent (value : jsval) : res unit :=
  match value with
  | JStr s => throw_if (negb (REVIEW_RUNTIME_AGENT_RE s))
                (invalid "agent must match ^[a-z0-9_-]{1,64}$")
  | _ => Throw (invalid "agent must match ^[a-z0-9_-]{1,64}$")
  end.

Definition assertUntrackedScope (value : jsval) : res unit :=
  throw_if (negb (is_one_of ["exclude"; "select"]%string value))
    (invalid "untrackedScope must be exclude or select").

(** [value.startsWith("sha256:") && SHA256_HEX_RE.test(value.slice(7))] *)
Definition sha256_token (v : jsval) : bool :=
  match v with
  | JStr s => startsWith s (js "sha256:") && SHA256_HEX_RE (drop 7 s)
  | _ => false
  end.

Definition assertExpectedUntrackedInventory (value : jsval) : res unit :=
  throw_if (negb (sha256_token value))
    (invalid "expectedUntrackedInventory must be sha256:<64 lowercase hex>").

Definition assertProjectRelativePath_max (maxBytes : Z) (value : jsval) (what : jsstr) : res unit :=
  match value with
  | JStr p =>
      _ ← throw_if (js_length p =? 0) (invalid_ [what; js " must be a non-empty project-relative path"]);
      _ ← assertMaxBytes p maxBytes what;
      _ ← assertNoControlChars p what;
      if str_eqb p (js "-") then Ok tt else
      _ ← throw_if (startsWith p (js "/") || startsWith p (js "~") || drive_prefix p)
            (invalid_ [what; js " must be relative to the project root"]);
      _ ← throw_if (includes p (js "\")) (invalid_ [what; js " must not contain a backslash"]);
      let normalized := normalize p in
      throw_if (str_eqb normalized (js "..") || startsWith normalized (js "../")
                || isAbsolute normalized)
        (invalid_ [what; js " escapes the project root"])
  | _ => Throw (invalid_ [what; js " must be a non-empty project-relative path"])
  end.

Definition assertProjectRelativePath : jsval -> jsstr -> res unit :=
  assertProjectRelativePath_max MAX_HOST_PATH_BYTES.

Definition assertIntendedUntracked (value : jsval) : res unit :=
  match value with
  | JArr entries =>
      _ ← throw_if (MAX_INTENDED_UNTRACKED <? Z.of_nat (length entries))
            (invalid_ [js "intendedUntracked exceeds "; dec MAX_INTENDED_UNTRACKED; js " entries"]);
      for_each (fun entry =>
        match entry with
        | JStr s =>
            _ ← throw_if (str_eqb s (js "-"))
                  (invalid "intendedUntracked entries must be repo-relative paths");
            assertProjectRelativePath entry (js "intendedUntracked path")
        | _ => Throw (invalid "intendedUntracked entries must be repo-relative paths")
        end) entries
  | _ => Throw (invalid "intendedUntracked must be an array of repo-relative paths")
  end.

Definition assertEvidenceRevision (value : jsval) : res unit :=
  match value with
  | JStr s => throw_if (negb (SHA256_HEX_RE s))
                (invalid "evidenceRevision must be a lowercase sha256 hex digest")
  | _ => Throw (invalid "evidenceRevision must be a lowercase sha256 hex digest")
  end.

Definition assertExpectedRevision (value : jsval) : res unit :=
  throw_if (negb (sha256_token value))
    (invalid "expectedRevision must be sha256:<64 lowercase hex>").

Definition LOWERCASE_REQUEST_ID_RE (s : jsstr) : bool :=
  match s with
  | c :: s' => (is_lower c || is_digit c) &&
      re_class (fun c => is_lower c || is_digit c || one_of "-" c) 0 127 s'
  | [] => false
  end.

Definition assertLowercaseRequestId (value : jsval) : res unit :=
  match value with
  | JStr s => throw_if (negb (LOWERCASE_REQUEST_ID_RE s))
                (invalid "requestId must match ^[a-z0-9][a-z0-9-]{0,127}$")
  | _ => Throw (invalid "requestId must match ^[a-z0-9][a-z0-9-]{0,127}$")
  end.

Definition assertObjectiveRelation (value : jsval) : res unit :=
  throw_if (negb (is_one_of ["remediation"; "independent"]%string value))
    (invalid "objectiveRelation must be remediation or independent").

Definition MAX_GRANT_ROOTS : Z := 32.

(** The loop over the roots; [seen] is the set built so far. *)
Fixpoint canonical_roots_loop (cwd : jsstr) (seen : list jsstr) (roots : list jsval) : res unit :=
  match roots with
  | [] => Ok tt
  | v :: rest =>
      match v with
      | JStr root =>
          _ ← throw_if ((js_length root =? 0) || negb (isAbsolute root))
                (invalid "each root must be a canonical absolute path");
          _ ← assertMaxBytes root MAX_HOST_PATH_BYTES (js "root");
          _ ← assertNoControlChars root (js "root");
          _ ← throw_if (startsWith root (js "-") || negb (str_eqb (resolve1 cwd root) root))
                (invalid "each root must be a canonical absolute path");
          _ ← throw_if (mem root seen) (invalid "roots must be unique");
          canonical_roots_loop cwd (root :: seen) rest
      | _ => Throw (invalid "each root must be a canonical absolute path")
      end
  end.

Definition assertCanonicalRoots (cwd : jsstr) (value : jsval) : res unit :=
  let bad := Throw (invalid_ [js "roots must contain 1.."; dec MAX_GRANT_ROOTS;
                              js " canonical absolute paths"]) in
  match value with
  | JArr roots =>
      if (Z.of_nat (length roots) =? 0) || (MAX_GRANT_ROOTS <? Z.of_nat (length roots)) then bad
      else canonical_roots_loop cwd [] roots
  | _ => bad
  end.

Definition assertOpaqueToken (value : jsval) : res unit :=
  match value with
  | JStr s =>
      _ ← throw_if (negb (SDD_TOKEN_RE s) || startsWith s (js "-")) (invalid "invalid settle token");
      assertNoControlChars s (js "token")
  | _ => Throw (invalid "invalid settle token")
  end.

(** Non-empty, bounded, control-free text that does not look like a flag. *)
Definition assertEvidenceText_max (maxBytes : Z) (value : jsval) (what : jsstr) : res unit :=
  match value with
  | JStr s =>
      _ ← throw_if (js_length s =? 0) (invalid_ [what; js " must be a non-empty string"]);
      _ ← assertMaxBytes s maxBytes what;
      _ ← assertNoControlChars s what;
      throw_if (startsWith s (js "-")) (invalid_ [what; js " must not start with '-'"])
  | _ => Throw (invalid_ [what; js " must be a non-empty string"])
  end.

Definition assertEvidenceText : jsval -> jsstr -> res unit := assertEvidenceText_max 4096.

Definition assertCount (value : jsval) (max : Z) (what : jsstr) : res unit :=
  let bad := Throw (invalid_ [what; js " must be an integer in [0, "; dec max; js "]"]) in
  match value with
  | JNum (NumInt z) => if (z <? 0) || (max <? z) then bad else Ok tt
  | _ => bad
  end.

(** ** Plan documents *)
Definition PLAN_DOC_TARGETS : list (jsstr * jsstr) :=
  [(js "todo", js "docs/TODO.md"); (js "plan", js "docs/PLAN.md")].
Definition PLAN_DOC_CONTENT_MAX_BYTES : Z := 16 * 1024.
Definition PLAN_DOC_HEADING_MAX_BYTES : Z := 256.

Definition PLAN_DOC_CONTENT_CONTROL_RE (s : jsstr) : bool :=
  existsb (fun c => (c <=? 9)%N || ((11 <=? c) && (c <=? 31))%N || (c =? 127)%N) s.

Definition assertPlanDocName (value : jsval) : res unit :=
  throw_if (negb (is_one_of ["todo"; "plan"]%string value))
    (invalid "doc must be one of: todo, plan").

Definition normalizePlanDocContent (value : jsval) : res jsstr :=
  match value with
  | JStr s =>
      _ ← throw_if (PLAN_DOC_CONTENT_CONTROL_RE s)
            (invalid "content contains a control character other than LF");
      let trimmed := trim s in
      _ ← throw_if (js_length trimmed =? 0)
            (invalid "content must be a non-empty block after trimming");
      _ ← assertMaxBytes trimmed PLAN_DOC_CONTENT_MAX_BYTES (js "content");
      Ok trimmed
  | _ => Throw (invalid "content must be a string")
  end.

Definition assertPlanDocHeading (value : jsval) : res unit :=
  match value with
  | JStr s =>
      _ ← throw_if (js_length s =? 0) (invalid "heading must be a non-empty string");
      _ ← assertMaxBytes s PLAN_DOC_HEADING_MAX_BYTES (js "heading");
      _ ← assertNoControlChars s (js "heading");
      throw_if (startsWith s (js "#"))
        (invalid "heading must be the heading text without '#' markers")
  | _ => Throw (invalid "heading must be a non-empty string")
  end.

(** ** What an accepted argument guarantees *)
Definition safe_item (limits : ArgvLimits) (v : jsval) : Prop :=
  exists s, v = JStr s /\ byteLength s <= itemMaxBytes limits /\
            CONTROL_CHARS s = false /\ SHELL_METACHARS s = false.

Definition item_bytes (v : jsval) : Z :=
  match v with JStr s => byteLength s | _ => 0 end.

Definition total_bytes (items : list jsval) : Z := foldr Z.add 0 (map item_bytes items).

Lemma assertMaxBytes_Ok v m w u : assertMaxBytes v m w = Ok u <-> byteLength v <= m.
Proof. unfold assertMaxBytes. rewrite throw_if_Ok. lia. Qed.

Lemma assertNoControlChars_Ok v w u :
  assertNoControlChars v w = Ok u <-> CONTROL_CHARS v = false.
Proof. apply throw_if_Ok. Qed.

Lemma assertNoShellMetachars_Ok v w u :
  assertNoShellMetachars v w = Ok u <-> SHELL_METACHARS v = false.
Proof. apply throw_if_Ok. Qed.

(** Rewrites an accepted validator into the checks it passed. *)
Ltac accepted :=
  rewrite ?res_seq_Ok, ?throw_if_Ok, ?assertMaxBytes_Ok, ?assertNoControlChars_Ok,
    ?assertNoShellMetachars_Ok, ?orb_false_iff, ?negb_false_iff, ?str_eqb_eq, ?str_eqb_neq,
    ?mem_true, ?mem_false.

Lemma total_bytes_nonneg items : 0 <= total_bytes items.
Proof.
  induction items as [|v items IH]; [done|]. unfold total_bytes in *. cbn.
  destruct v; cbn; try lia. pose proof (byteLength_nonneg s). lia.
Qed.

Lemma argv_items_Ok limits t items u :
  t <= totalMaxBytes limits ->
  argv_items limits t items = Ok u <->
  Forall (safe_item limits) items /\ t + total_bytes items <= totalMaxBytes limits.
Proof.
  destruct u. revert t; induction items as [|v items IH]; intros t Ht.
  - cbn. split; [split; [constructor | unfold total_bytes; cbn; lia] | done].
  - rewrite Forall_cons. pose proof (total_bytes_nonneg items) as Hn.
    destruct v; cbn [argv_items]; try (split; [done | intros [[(? & ? & _) _] _]; done]).
    accepted. change (total_bytes (JStr s :: items)) with (byteLength s + total_bytes items).
    destruct (totalMaxBytes limits <? t + byteLength s) eqn:E.
    + split; [naive_solver | intros [_ ?]; lia].
    + rewrite IH by lia. unfold safe_item. rewrite Z.add_assoc.
      split; [naive_solver|]. intros [[(s' & [= <-] & ?) ?] ?]. naive_solver.
Qed.

Lemma canonical_roots_loop_Ok cwd seen roots u :
  canonical_roots_loop cwd seen roots = Ok u <->
  exists ss, roots = map JStr ss /\ NoDup ss /\ (forall s, s ∈ ss -> s ∉ seen) /\
    Forall (fun s => isAbsolute s = true /\ resolve1 cwd s = s /\
                     byteLength s <= MAX_HOST_PATH_BYTES /\ CONTROL_CHARS s = false) ss.
Proof.
  destruct u. revert seen; induction roots as [|v roots IH]; intros seen.
  { cbn. split; [intros _; exists []; repeat split; try constructor | done].
    intros s Hs. by apply elem_of_nil in Hs. }
  destruct v; cbn [canonical_roots_loop]; try (split; [done | intros ([] & [=] & _)]).
  accepted. rewrite IH. split.
  - intros ([_ ?] & ? & ? & [_ ?] & ? & ss & -> & Hnd & Hseen & Hall).
    exists (s :: ss). split; [done|]. split; [|split].
    + constructor; [|done]. intros Hs. apply Hseen in Hs. apply Hs. apply list_elem_of_here.
    + intros s' [->|Hs']%elem_of_cons; [done|]. apply Hseen in Hs'.
      by apply not_elem_of_cons in Hs' as [_ ?].
    + constructor; tauto.
  - intros ([|s' ss] & [= <- ->] & [Hs Hnd]%NoDup_cons & Hseen & [(Habs & ? & ? & ?) Hall]%Forall_cons).
    split_and!; try done.
    + apply isAbsolute_true in Habs as [q ->]. apply Z.eqb_neq. unfold js_length. cbn [length]. lia.
    + apply isAbsolute_true in Habs as [q ->]. done.
    + apply Hseen, list_elem_of_here.
    + exists ss. split_and!; try done.
      intros s' Hs'. apply not_elem_of_cons. split; [congruence|].
      apply Hseen. by apply list_elem_of_further.
Qed.

(** Trimming removes exactly a prefix and a suffix of white space. *)
Lemma trim_start_split s : exists w, s = w ++ trim_start s.
Proof.
  induction s as [|c s [w IH]]; cbn; [by exists []|].
  destruct (is_ws c); [exists (c :: w); cbn; congruence | by exists []].
Qed.

Lemma trim_split s : exists a b, s = a ++ trim s ++ b.
Proof.
  unfold trim. destruct (trim_start_split s) as [a Ha].
  destruct (trim_start_split (rev (trim_start s))) as [b Hb].
  exists a, (rev b). rewrite Ha at 1. f_equal.
  apply (f_equal (@rev _)) in Hb. rewrite rev_involutive, rev_app_distr in Hb. done.
Qed.

Lemma trim_start_head s c t : trim_start s = c :: t -> is_ws c = false.
Proof.
  induction s as [|d s IH]; cbn; [done|].
  destruct (is_ws d) eqn:E; [done|]. by intros [= -> ->].
Qed.

Lemma trim_start_id s : match s with c :: _ => is_ws c = false | [] => True end ->
  trim_start s = s.
Proof. destruct s as [|c s]; cbn; [done|]. by intros ->. Qed.

Lemma trim_start_idem s : trim_start (trim_start s) = trim_start s.
Proof.
  apply trim_start_id. destruct (trim_start s) eqn:E; [done|]. by eapply trim_start_head.
Qed.

Lemma trim_trim_start s : trim_start (trim s) = trim s.
Proof.
  apply trim_start_id. unfold trim.
  destruct (trim_start_split (rev (trim_start s))) as [b Hb].
  destruct (trim_start (rev (trim_start s))) as [|x xs] eqn:E; [done|].
  destruct (rev (x :: xs)) as [|c t] eqn:Er; [done|].
  apply (f_equal (@rev _)) in Hb. rewrite rev_involutive, rev_app_distr, Er in Hb.
  by eapply trim_start_head.
Qed.

Lemma trim_idem s : trim (trim s) = trim s.
Proof.
  unfold trim at 1. rewrite trim_trim_start.
  unfold trim. by rewrite rev_involutive, trim_start_idem.
Qed.

Lemma existsb_middle {A} (f : A -> bool) a b c :
  existsb f (a ++ b ++ c) = false -> existsb f b = false.
Proof. rewrite !existsb_app, !orb_false_iff. tauto. Qed.

(** ** Properties *)

(** An argument vector is accepted exactly when it is a non-empty array of
    at most [maxItems] strings, each within the item limit and free of control
    characters and shell metacharacters, whose byte lengths sum to at most
    [totalMaxBytes]. *)
Theorem assertArgv_exact argv limits :
  0 <= totalMaxBytes limits ->
  assertArgv argv limits = Ok tt <->
  exists items, argv = JArr items /\ items <> [] /\
    Z.of_nat (length items) <= maxItems limits /\
    Forall (safe_item limits) items /\ total_bytes items <= totalMaxBytes limits.
Proof.
  intros Ht. destruct argv as [| | | | |items|]; cbn [assertArgv];
    try (split; [done | naive_solver]).
  accepted. rewrite argv_items_Ok by lia.
  rewrite Z.eqb_neq, Z.ltb_ge. split.
  - intros (Hn & ? & ? & ?). exists items. split_and!; try done. by intros ->.
  - intros (? & [= <-] & ? & ? & ? & ?). split_and!; try done.
    destruct items; [done|]. cbn [length]. lia.
Qed.

Lemma assertArgv_exact_witness :
  0 <= totalMaxBytes (mkArgvLimits 16 4 32) /\
  (assertArgv (JArr [JStr (js "ls"); JStr (js "-la")]) (mkArgvLimits 16 4 32) = Ok tt) /\
  exists items, JArr [JStr (js "ls"); JStr (js "-la")] = JArr items /\ items <> [] /\
    Z.of_nat (length items) <= 4 /\
    Forall (safe_item (mkArgvLimits 16 4 32)) items /\ total_bytes items <= 32.
Proof.
  assert (assertArgv (JArr [JStr (js "ls"); JStr (js "-la")]) (mkArgvLimits 16 4 32) = Ok tt)
    as Hok by reflexivity.
  split; [cbn; lia|]. split; [exact Hok|].
  apply (assertArgv_exact (JArr [JStr (js "ls"); JStr (js "-la")]) (mkArgvLimits 16 4 32)).
  - cbn; lia.
  - exact Hok.
Defined.

(** A path the sandbox validator accepts is relative and, resolved against
    any canonical project root, stays inside that root: no [..] sequence,
    however it is interleaved with other segments, escapes. *)
Theorem sandbox_path_contained p root :
  assertSandboxPath (JStr p) = Ok tt -> canonical_abs root ->
  isAbsolute p = false /\ isWithin root (resolve2 root p) = true.
Proof.
  unfold assertSandboxPath, assertSandboxPath_max. accepted.
  intros (Hlen & _ & _ & [[Hrel _] _] & _ & Hdd & Hup) Hroot.
  split; [exact Hrel|]. apply resolve_within; try done.
  - by intros ->.
  - unfold climbs. rewrite orb_false_iff. by rewrite str_eqb_neq.
Qed.

Lemma sandbox_path_contained_witness :
  assertSandboxPath (JStr (js "a/../src//./main.ts")) = Ok tt /\ canonical_abs (js "/work/p") /\
  isAbsolute (js "a/../src//./main.ts") = false /\
  isWithin (js "/work/p") (resolve2 (js "/work/p") (js "a/../src//./main.ts")) = true.
Proof.
  assert (assertSandboxPath (JStr (js "a/../src//./main.ts")) = Ok tt) as H by reflexivity.
  assert (canonical_abs (js "/work/p")) as Hr by (split; reflexivity).
  split; [exact H|]. split; [exact Hr|].
  exact (sandbox_path_contained (js "a/../src//./main.ts") (js "/work/p") H Hr).
Defined.

(** Grant roots are accepted exactly when they are 1 to 32 pairwise
    distinct absolute paths, each already in the form [resolve] gives, at most
    4096 bytes long and free of control characters. *)
Theorem assertCanonicalRoots_exact cwd value :
  assertCanonicalRoots cwd value = Ok tt <->
  exists ss, value = JArr (map JStr ss) /\ (1 <= length ss <= 32)%nat /\ NoDup ss /\
    Forall (fun s => isAbsolute s = true /\ resolve1 cwd s = s /\
                     byteLength s <= MAX_HOST_PATH_BYTES /\ CONTROL_CHARS s = false) ss.
Proof.
  destruct value as [| | | | |roots|]; cbn [assertCanonicalRoots];
    try (split; [done | naive_solver]).
  unfold MAX_GRANT_ROOTS. destruct (_ || _) eqn:E.
  - split; [done|]. intros (ss & [= ->] & Hlen & _). rewrite length_map in E.
    apply orb_true_iff in E as [E|E]; lia.
  - apply orb_false_iff in E as [E1 E2].
    apply Z.eqb_neq in E1. apply Z.ltb_ge in E2.
    rewrite canonical_roots_loop_Ok. split.
    + intros (ss & -> & ? & _ & ?). rewrite length_map in *. exists ss.
      split_and!; [done | lia | lia | done | done].
    + intros (ss & [= ->] & _ & ? & ?). exists ss.
      split_and!; try done. intros s _. apply not_elem_of_nil.
Qed.

(** Normalizing a plan-document block yields a non-empty block of at most
    16 KiB that appears verbatim in the input, carries no control character
    but LF, and normalizes to itself. *)
Theorem normalizePlanDocContent_idempotent s t :
  normalizePlanDocContent (JStr s) = Ok t ->
  t <> [] /\ byteLength t <= 16384 /\ includes s t = true /\
  PLAN_DOC_CONTENT_CONTROL_RE t = false /\ normalizePlanDocContent (JStr t) = Ok t.
Proof.
  cbn [normalizePlanDocContent]. accepted.
  intros (Hctl & Hne & Hmax & [= <-]).
  destruct (trim_split s) as (a & b & Hs).
  assert (PLAN_DOC_CONTENT_CONTROL_RE (trim s) = false) as Hctl'.
  { unfold PLAN_DOC_CONTENT_CONTROL_RE in *. rewrite Hs in Hctl. by apply existsb_middle in Hctl. }
  split_and!; rewrite ?trim_idem; try done.
  - intros H. by rewrite H in Hne.
  - apply includes_spec. eauto.
Qed.

Lemma normalizePlanDocContent_idempotent_witness :
  normalizePlanDocContent (JStr (js "  - [ ] ship it ")) = Ok (js "- [ ] ship it") /\
  js "- [ ] ship it" <> [] /\ byteLength (js "- [ ] ship it") <= 16384 /\
  includes (js "  - [ ] ship it ") (js "- [ ] ship it") = true /\
  PLAN_DOC_CONTENT_CONTROL_RE (js "- [ ] ship it") = false /\
  normalizePlanDocContent (JStr (js "- [ ] ship it")) = Ok (js "- [ ] ship it").
Proof.
  assert (normalizePlanDocContent (JStr (js "  - [ ] ship it ")) = Ok (js "- [ ] ship it"))
    as H by reflexivity.
  split; [exact H|].
  exact (normalizePlanDocContent_idempotent (js "  - [ ] ship it ") (js "- [ ] ship it") H).
Defined.
