(* ===== verification/HostArgs.v ===== *)
(** * Arguments of the host git, GitHub and review tools (broker/src/validation.ts)

    The validators of commit messages, path lists, remotes, branches,
    repository slugs, issue titles and bodies, and of the review lifecycle's
    tokens, refs and enumerations. *)
From S2P Require Import Prelude JsVal Path Validation.

(** ** git and gh *)
Definition GIT_COMMIT_MESSAGE_MAX_BYTES : Z := 4096.

Definition GIT_COMMIT_OID_RE (s : jsstr) : bool :=
  re_class is_hex_lower 40 40 s || re_class is_hex_lower 64 64 s.

Definition assertExpectedResultCommit (value : jsval) : res unit :=
  match value with
  | JStr s => throw_if (negb (GIT_COMMIT_OID_RE s))
      (invalid "expectedResultCommit must be a full lowercase commit id (40 or 64 hex)")
  | _ => Throw (invalid "expectedResultCommit must be a full lowercase commit id (40 or 64 hex)")
  end.

Definition GH_REPO_MAX_BYTES : Z := 256.
Definition GH_TITLE_MAX_BYTES : Z := 256.
Definition GH_BODY_MAX_BYTES : Z := 65536.

(** A first character of one class, then 0..254 of another, no [..]. *)
Definition GIT_REMOTE_RE (s : jsstr) : bool :=
  negb (includes s (js "..")) &&
  match s with
  | c :: s' => (is_alnum c || one_of "._" c) &&
               re_class (fun c => is_alnum c || one_of "._-" c) 0 254 s'
  | [] => false
  end.

Definition GIT_BRANCH_RE (s : jsstr) : bool :=
  negb (includes s (js "..")) &&
  match s with
  | c :: s' => (is_alnum c || one_of "._/" c) &&
               re_class (fun c => is_alnum c || one_of "._/-" c) 0 254 s'
  | [] => false
  end.

Definition gh_slug_part (s : jsstr) : bool :=
  negb (startsWith s (js "-")) && re_class (fun c => is_alnum c || one_of "._-" c) 1 100 s.

Definition GH_REPO_RE (s : jsstr) : bool :=
  match split_on SLASH s with
  | [owner; name] => gh_slug_part owner && gh_slug_part name
  | _ => false
  end.

(** Controls other than TAB, LF and CR. *)
Definition BODY_UNSAFE_CONTROL_RE (s : jsstr) : bool :=
  existsb (fun c => (c <=? 8)%N || (c =? 11)%N || (c =? 12)%N ||
                    ((14 <=? c) && (c <=? 31))%N || (c =? 127)%N) s.

(** [/\r(?!\n)/] *)
Fixpoint BARE_CARRIAGE_RETURN_RE (s : jsstr) : bool :=
  match s with
  | [] => false
  | c :: s' =>
      ((c =? 13)%N && negb (match s' with d :: _ => (d =? 10)%N | [] => false end))
      || BARE_CARRIAGE_RETURN_RE s'
  end.

Definition assertBodyTextControls (value what : jsstr) : res unit :=
  throw_if (BODY_UNSAFE_CONTROL_RE value || BARE_CARRIAGE_RETURN_RE value)
    (invalid_ [what; js " contains control characters or NUL"]).

(** [value.split(/\r?\n/, 1)[0]] *)
Definition first_line (value : jsstr) : jsstr :=
  match cut_at 10 value with
  | None => value
  | Some (l, _) => if endsWith l [13%N] then take (length l - 1) l else l
  end.

Definition assertGitCommitMessage (value : jsval) : res unit :=
  match value with
  | JStr s =>
      _ ← throw_if (js_length s =? 0) (invalid "message must be a non-empty string");
      _ ← assertMaxBytes s GIT_COMMIT_MESSAGE_MAX_BYTES (js "message");
      _ ← throw_if (js_length (first_line s) =? 0)
            (invalid "message subject must be a non-empty single line");
      _ ← assertBodyTextControls s (js "message");
      throw_if (startsWith s (js "-")) (invalid "message must not start with '-'")
  | _ => Throw (invalid "message must be a non-empty string")
  end.

(** One entry of the list of paths to commit. *)
Definition git_path_entry (v : jsval) : res unit :=
  match v with
  | JStr entry =>
      _ ← throw_if (js_length entry =? 0) (invalid "path entries must be non-empty strings");
      _ ← assertMaxBytes entry MAX_HOST_PATH_BYTES (js "path");
      _ ← assertNoControlChars entry (js "path");
      _ ← throw_if (startsWith entry (js "-")) (invalid "path must not start with '-'");
      _ ← throw_if (startsWith entry (js "/") || startsWith entry (js "~") || drive_prefix entry)
            (invalid "path must be repo-relative");
      throw_if (includes entry (js "\") || includes entry (js "..")
                || includes entry (js ":(") || includes entry (js ":!"))
        (invalid "path contains unsafe traversal or git magic")
  | _ => Throw (invalid "path entries must be non-empty strings")
  end.

Definition assertGitPathList (value : jsval) : res unit :=
  match value with
  | JArr ((_ :: _) as entries) => for_each git_path_entry entries
  | _ => Throw (invalid "paths must be a non-empty array")
  end.

Definition assertGitRemote (value : jsval) : res unit :=
  match value with
  | JStr s => throw_if (negb (GIT_REMOTE_RE s)) (invalid "invalid git remote")
  | _ => Throw (invalid "invalid git remote")
  end.

Definition assertGitBranch (value : jsval) : res unit :=
  match value with
  | JStr s => throw_if (negb (GIT_BRANCH_RE s)) (invalid "invalid git branch")
  | _ => Throw (invalid "invalid git branch")
  end.

Definition assertGhRepo (value : jsval) : res unit :=
  match value with
  | JStr s =>
      _ ← throw_if (js_length s =? 0) (invalid "repo must be a non-empty string");
      _ ← assertMaxBytes s GH_REPO_MAX_BYTES (js "repo");
      throw_if (negb (GH_REPO_RE s)) (invalid "repo must be an owner/name slug")
  | _ => Throw (invalid "repo must be a non-empty string")
  end.

Definition assertGhTitle (value : jsval) : res unit :=
  match value with
  | JStr s =>
      _ ← throw_if (js_length s =? 0) (invalid "title must be a non-empty string");
      _ ← assertMaxBytes s GH_TITLE_MAX_BYTES (js "title");
      _ ← assertNoControlChars s (js "title");
      throw_if (startsWith s (js "-")) (invalid "title must not start with '-'")
  | _ => Throw (invalid "title must be a non-empty string")
  end.

Definition assertGhBody (value : jsval) : res unit :=
  match value with
  | JStr s =>
      _ ← assertMaxBytes s GH_BODY_MAX_BYTES (js "body");
      _ ← assertBodyTextControls s (js "body");
      throw_if (startsWith s (js "-")) (invalid "body must not start with '-'")
  | _ => Throw (invalid "body must be a string")
  end.

(** ** Review lifecycle *)
Definition assertReviewProjection (value : jsval) : res unit :=
  throw_if (negb (is_one_of ["workspace"; "staged"]%string value))
    (invalid "projection must be workspace or staged").

Definition assertReviewFocus (value : jsval) : res unit :=
  throw_if (negb (is_one_of ["risk"; "resilience"; "readability"; "reliability"]%string value))
    (invalid "focus must be risk, resilience, readability, or reliability").

Definition assertReviewConsent (value : jsval) : res unit :=
  throw_if (negb (is_one_of ["relay"; "granted"; "declined"]%string value))
    (invalid "consent must be relay, granted, or declined").

Definition assertReviewLocale (value : jsval) : res unit :=
  throw_if (negb (is_one_of ["en"; "es"]%string value)) (invalid "locale must be en or es").

Definition assertReviewGate (value : jsval) : res unit :=
  throw_if (negb (is_one_of ["post-apply"; "pre-commit"; "pre-push"; "pre-pr"; "release"]%string value))
    (invalid "gate must be post-apply, pre-commit, pre-push, pre-pr, or release").

Definition assertReviewDisposition (value : jsval) : res unit :=
  throw_if (negb (is_one_of ["scope_changed"; "invalidated"; "escalated"]%string value))
    (invalid "disposition must be scope_changed, invalidated, or escalated").

Definition REVIEW_TOKEN_MAX_BYTES : Z := 4096.
Definition REVIEW_FOCUS_MAX_BYTES : Z := 128.
Definition REVIEW_BASE_REF_MAX_BYTES : Z := 1024.

Definition assertReviewToken_max (maxBytes : Z) (value : jsval) (what : jsstr) : res unit :=
  match value with
  | JStr s =>
      _ ← throw_if (js_length s =? 0) (invalid_ [what; js " must be a non-empty string"]);
      _ ← assertMaxBytes s maxBytes what;
      _ ← assertNoControlChars s what;
      throw_if (startsWith s (js "-")) (invalid_ [what; js " must not start with '-'"])
  | _ => Throw (invalid_ [what; js " must be a non-empty string"])
  end.

Definition assertReviewToken : jsval -> jsstr -> res unit :=
  assertReviewToken_max REVIEW_TOKEN_MAX_BYTES.

Definition assertReviewBaseRef (value : jsval) : res unit :=
  _ ← assertReviewToken_max REVIEW_BASE_REF_MAX_BYTES value (js "baseRef");
  match value with
  | JStr s =>
      _ ← throw_if (includes s (js "..") || includes s (js "@{"))
            (invalid "baseRef must not contain revision traversal");
      throw_if (existsb (one_of "~^:?*[]\") s)
        (invalid "baseRef must not contain git revision magic")
  | _ => Ok tt
  end.

Definition assertReviewOrder (value : jsval) : res unit :=
  match value with
  | JNum (NumInt z) => throw_if ((z <? 0) || (32 <? z)) (invalid "order must be an integer in [0, 32]")
  | _ => Throw (invalid "order must be an integer in [0, 32]")
  end.

Definition assertReviewCorrectionLines (value : jsval) : res unit :=
  match value with
  | JNum (NumInt z) => throw_if ((z <? 1) || (2147483647 <? z))
      (invalid "correctionLines must be a positive 32-bit integer")
  | _ => Throw (invalid "correctionLines must be a positive 32-bit integer")
  end.

Definition assertReviewSha256 (value : jsval) (what : jsstr) : res unit :=
  throw_if (negb (sha256_token value)) (invalid_ [what; js " must be sha256:<64 lowercase hex>"]).

Definition assertOptionalBoolean (value : jsval) (what : jsstr) : res unit :=
  if is_nullish value then Ok tt else
  match value with
  | JBool _ => Ok tt
  | _ => Throw (invalid_ [what; js " must be a boolean"])
  end.

(** The loop that looks for a repeated path; [seen] is the set built so far. *)
Fixpoint unique_entries (seen entries : list jsstr) : res unit :=
  match entries with
  | [] => Ok tt
  | e :: rest =>
      if mem e seen then Throw (invalid "intendedUntracked paths must be unique")
      else unique_entries (e :: seen) rest
  end.

(** Only strings are left once [assertIntendedUntracked] has accepted. *)
Definition assertReviewIntendedUntracked (value : jsval) : res unit :=
  _ ← assertIntendedUntracked value;
  match value with
  | JArr entries =>
      unique_entries [] (omap (fun v => match v with JStr s => Some s | _ => None end) entries)
  | _ => Ok tt
  end.

Definition assertReviewLens (value : jsval) : res unit :=
  throw_if (negb (is_one_of ["review-risk"; "review-resilience"; "review-readability";
                             "review-reliability"]%string value))
    (invalid "lens must be review-risk, review-resilience, review-readability, or review-reliability").
