(* ===== verification/HostPaths.v ===== *)
(** * Host paths and containment (broker/src/validation.ts)

    The validators that canonicalize a path on the host before they decide.
    The file system is a parameter: [realpath] answers what [realpathSync]
    returns ([None] when it throws) and [isDirectory] what
    [statSync(p).isDirectory()] does, during one synchronous validation. *)
From S2P Require Import Prelude JsVal Path Validation.

Definition REGISTER_PROJECT_PATH_MAX_BYTES : Z := 4096.
Definition REGISTER_PROJECT_BANNED_SYSTEM_ROOTS : list jsstr :=
  map js ["/etc"; "/usr"; "/var"; "/tmp"]%string.
Definition REGISTER_PROJECT_BANNED_HOME_DIRS : list jsstr :=
  map js [".ssh"; ".config"; ".local"; ".cache"; ".gnupg"; ".aws"; ".kube"]%string.

(** [$], back quote, backslash, double quote, [!]. *)
Definition REGISTER_PROJECT_SHELL_UNSAFE_RE (s : jsstr) : bool :=
  existsb (fun c => one_of "$`\!" c || (c =? 34)%N) s.

(** The roots nothing may be registered under, for one [$HOME]. *)
Definition banned_roots (home : jsstr) : list jsstr :=
  REGISTER_PROJECT_BANNED_SYSTEM_ROOTS ++
  (if 0 <? js_length home
   then map (fun dir => join [home; dir]) REGISTER_PROJECT_BANNED_HOME_DIRS
   else []).

Definition assertRegistrationRootAllowed (value home : jsstr) : res unit :=
  _ ← throw_if (str_eqb value (js "/") || ((0 <? js_length home) && str_eqb value home))
        (invalid "refusing to register the filesystem root or $HOME itself");
  for_each (fun root =>
    throw_if (isWithin root value)
      (invalid_ [js "refusing to register a path under "; root])) (banned_roots home).

Record Project := mkProject { project_id : jsstr; project_path : jsstr }.

Lemma assertRegistrationRootAllowed_Ok value home u :
  assertRegistrationRootAllowed value home = Ok u <->
  value <> js "/" /\ (home <> [] -> value <> home) /\
  Forall (fun root => isWithin root value = false) (banned_roots home).
Proof.
  unfold assertRegistrationRootAllowed. accepted. rewrite for_each_Ok.
  assert ((0 <? js_length home) && str_eqb value home = false <-> (home <> [] -> value <> home)) as ->.
  { destruct home as [|c h]; [cbn; naive_solver|].
    assert ((0 <? js_length (c :: h)) = true) as ->
      by (apply Z.ltb_lt; unfold js_length; cbn [length]; lia).
    cbn [andb]. rewrite str_eqb_neq. naive_solver. }
  assert (Forall (fun x => throw_if (isWithin x value)
            (invalid_ [js "refusing to register a path under "; x]) = Ok tt) (banned_roots home)
          <-> Forall (fun root => isWithin root value = false) (banned_roots home)) as ->
    by (apply Forall_iff; intros ?; apply throw_if_Ok).
  tauto.
Qed.

Section filesystem.
  Context (cwd : jsstr) (realpath : jsstr -> option jsstr) (isDirectory : jsstr -> option bool).

(** [try { return realpathSync(p) } catch { throw e }] *)
Definition realpath_or (e : exn) (p : jsstr) : res jsstr :=
  match realpath p with Some q => Ok q | None => Throw e end.

Definition resolveProjectRelativePath (projectRoot value what : jsstr) : res jsstr :=
  if str_eqb value (js "-") then Ok (js "-") else
  let resolved := resolve2 projectRoot value in
  _ ← throw_if (negb (isWithin projectRoot resolved))
        (invalid_ [what; js " escapes the approved project root"]);
  realRoot ← realpath_or (invalid_ [what; js " project root does not resolve on the host"]) projectRoot;
  canonical ← match realpath resolved with
              | Some c => Ok c
              | None =>
                  realParent ← realpath_or
                    (invalid_ [what; js " parent directory does not resolve on the host"])
                    (dirname resolved);
                  Ok (join [realParent; basename resolved])
              end;
  _ ← throw_if (negb (isWithin realRoot canonical))
        (invalid_ [what; js " escapes the approved project root"]);
  Ok canonical.

Definition assertRegisterableProjectPath (value : jsval) (home : jsstr) : res jsstr :=
  match value with
  | JStr p =>
      _ ← throw_if ((js_length p =? 0) || negb (isAbsolute p)) (invalid "path must be an absolute string");
      _ ← assertMaxBytes p REGISTER_PROJECT_PATH_MAX_BYTES (js "path");
      _ ← assertNoControlChars p (js "path");
      _ ← assertRegistrationRootAllowed p home;
      canonical ← realpath_or (invalid "path does not exist on the host") p;
      _ ← throw_if (negb (isAbsolute canonical) || negb (str_eqb (resolve1 cwd canonical) canonical))
            (invalid "path must resolve to a canonical absolute path");
      _ ← assertRegistrationRootAllowed canonical home;
      _ ← throw_if (REGISTER_PROJECT_SHELL_UNSAFE_RE canonical)
            (invalid "path must not contain shell-active characters");
      match isDirectory canonical with
      | None => Throw (invalid "path does not exist on the host")
      | Some d => _ ← throw_if (negb d) (invalid "path is not a directory"); Ok canonical
      end
  | _ => Throw (invalid "path must be an absolute string")
  end.

Definition canonicalizeWithinRoots_max (maxBytes : Z) (path : jsval) (approvedRoots : list jsstr)
    : res jsstr :=
  match path with
  | JStr p =>
      _ ← throw_if ((js_length p =? 0) || negb (isAbsolute p))
            (invalid "host read path must be an absolute path");
      _ ← assertMaxBytes p maxBytes (js "path");
      _ ← assertNoControlChars p (js "path");
      _ ← throw_if (includes p [0%N]) (invalid "path contains NUL");
      canonicalRoots ← map_res (fun root =>
        realpath_or (invalid_ [js "approved read root does not exist: "; root]) root) approvedRoots;
      _ ← throw_if (Z.of_nat (length canonicalRoots) =? 0)
            (invalid "no approved external read roots configured (S6)");
      canonical ← realpath_or (invalid "path does not resolve to a real file on the host") p;
      if existsb (fun root => str_eqb canonical root || startsWith canonical (root ++ [SLASH]))
           canonicalRoots
      then Ok canonical
      else Throw (invalid_ [js "path escapes approved read roots (S6): "; canonical])
  | _ => Throw (invalid "host read path must be an absolute path")
  end.

Definition canonicalizeWithinRoots : jsval -> list jsstr -> res jsstr :=
  canonicalizeWithinRoots_max 4096.

(** [join(realpathSync(dirname(p)), basename(p))] *)
Definition canonical_leaf (e : exn) (p : jsstr) : res jsstr :=
  parent ← realpath_or e (dirname p); Ok (join [parent; basename p]).

Definition assertExternalCopyTarget (target : jsval) (allowlist : list jsstr) : res jsstr :=
  match target with
  | JStr t =>
      _ ← throw_if ((js_length t =? 0) || negb (isAbsolute t))
            (invalid "copy target must be an absolute path");
      _ ← assertMaxBytes t 4096 (js "target");
      _ ← assertNoControlChars t (js "target");
      canonicalTarget ← canonical_leaf (invalid_ [js "copy target parent does not resolve: "; t]) t;
      canonicalAllowlist ← map_res (fun entry =>
        canonical_leaf (invalid_ [js "copy allowlist entry does not resolve: "; entry]) entry) allowlist;
      _ ← throw_if (negb (mem canonicalTarget canonicalAllowlist))
            (invalid "copy target is not in the external copy allowlist (S15)");
      Ok canonicalTarget
  | _ => Throw (invalid "copy target must be an absolute path")
  end.

(** The loop over the projects: a project root that does not resolve throws. *)
Fixpoint project_containing (canonical : jsstr) (projects : list Project) : res (option jsstr) :=
  match projects with
  | [] => Ok None
  | project :: rest =>
      root ← realpath_or (Exn EError (js "ENOENT: no such file or directory, lstat")) (project_path project);
      if isWithin root canonical then Ok (Some (project_id project))
      else project_containing canonical rest
  end.

Definition resolveProjectID (projectDir : jsval) (projects : list Project) : res jsstr :=
  match projectDir with
  | JStr d =>
      _ ← throw_if (js_length d =? 0) (invalid "projectDir must be a non-empty absolute path");
      _ ← assertMaxBytes d 4096 (js "projectDir");
      _ ← throw_if (negb (isAbsolute d)) (invalid "projectDir must be absolute");
      canonical ← realpath_or (invalid "projectDir does not resolve on the host") d;
      found ← project_containing canonical projects;
      match found with
      | Some id => Ok id
      | None => Throw (invalid_ [js "directory is not an approved project root: "; d])
      end
  | _ => Throw (invalid "projectDir must be a non-empty absolute path")
  end.

(** ** Lemmas *)
Lemma realpath_or_Ok e p q : realpath_or e p = Ok q <-> realpath p = Some q.
Proof.
  unfold realpath_or.
  destruct (realpath p); split; [by intros [= ->] | by intros [= ->] | done | done].
Qed.

(** ** Properties *)

(** A host-tool path that is accepted is either the literal [-] or a path
    whose canonical form (its real path, or for a leaf that does not resolve
    the real path of its parent joined with its name) lies inside the real
    path of the project root; the lexical form is inside the root as well. *)
Theorem resolveProjectRelativePath_contained projectRoot value what out :
  resolveProjectRelativePath projectRoot value what = Ok out ->
  (value = js "-" /\ out = js "-") \/
  (isWithin projectRoot (resolve2 projectRoot value) = true /\
   exists realRoot, realpath projectRoot = Some realRoot /\ isWithin realRoot out = true /\
   (realpath (resolve2 projectRoot value) = Some out \/
    realpath (resolve2 projectRoot value) = None /\
    exists parent, realpath (dirname (resolve2 projectRoot value)) = Some parent /\
      out = join [parent; basename (resolve2 projectRoot value)])).
Proof.
  unfold resolveProjectRelativePath. destruct (str_eqb value (js "-")) eqn:E.
  { apply str_eqb_eq in E. intros [= <-]. by left. }
  accepted. intros [Hlex (realRoot & Hroot & (canonical & Hc & H)%res_bind_Ok)%res_bind_Ok].
  revert H. accepted. intros [Hin [= <-]]. right. split; [done|].
  exists realRoot. apply realpath_or_Ok in Hroot. split_and!; try done.
  revert Hc. destruct (realpath (resolve2 projectRoot value)) as [c|] eqn:Er.
  - intros [= ->]. by left.
  - intros (parent & ?%realpath_or_Ok & [= <-])%res_bind_Ok. right. eauto.
Qed.

(** A registration target that is accepted is the real path of the
    caller's value, an existing directory in canonical absolute form that is
    neither [/] nor [$HOME], lies under no banned root, and has no character
    the launcher's shell would evaluate. *)
Theorem registered_path_safe value home out :
  assertRegisterableProjectPath value home = Ok out ->
  exists p, value = JStr p /\ realpath p = Some out /\ isDirectory out = Some true /\
    isAbsolute out = true /\ resolve1 cwd out = out /\
    out <> js "/" /\ (home <> [] -> out <> home) /\
    Forall (fun root => isWithin root out = false /\ isWithin root p = false) (banned_roots home) /\
    REGISTER_PROJECT_SHELL_UNSAFE_RE out = false.
Proof.
  destruct value as [| | | |p| |]; try done. cbn [assertRegisterableProjectPath]. accepted.
  intros (_ & _ & _ & H1 & (canonical & Hc & H)%res_bind_Ok). revert H. accepted.
  intros ([Habs Hres] & H2 & Hsh & Hd).
  apply assertRegistrationRootAllowed_Ok in H1 as (_ & _ & Hban1).
  apply assertRegistrationRootAllowed_Ok in H2 as (Hne & Hhome & Hban2).
  destruct (isDirectory canonical) as [d|] eqn:Ed; [|done]. revert Hd. accepted.
  intros [-> [= <-]]. exists p. apply realpath_or_Ok in Hc. split_and!; try done.
  by apply Forall_and.
Qed.

(** A host read path that is accepted is the real path of the request's
    path and equals, or lies under, the real path of one of the approved
    roots. *)
Theorem canonicalizeWithinRoots_contained path roots out :
  canonicalizeWithinRoots path roots = Ok out ->
  exists p root realRoot, path = JStr p /\ realpath p = Some out /\
    root ∈ roots /\ realpath root = Some realRoot /\
    (out = realRoot \/ exists rest, out = realRoot ++ [SLASH] ++ rest).
Proof.
  unfold canonicalizeWithinRoots. destruct path as [| | | |p| |]; try done.
  cbn [canonicalizeWithinRoots_max]. accepted.
  intros (_ & _ & _ & _ & (crs & Hcrs & H)%res_bind_Ok). revert H. accepted.
  intros (_ & (c & Hc & H)%res_bind_Ok).
  destruct (existsb _ crs) eqn:E; [|done]. injection H as <-.
  apply existsb_exists in E as (realRoot & Hin%list_elem_of_In & Hor).
  apply map_res_Ok in Hcrs. apply list_elem_of_lookup in Hin as [i Hi].
  destruct (Forall2_lookup_r _ _ _ _ _ Hcrs Hi) as (root & Hroot & Hr%realpath_or_Ok).
  exists p, root, realRoot. apply realpath_or_Ok in Hc. split_and!; try done.
  { by eapply list_elem_of_lookup_2. }
  apply orb_true_iff in Hor as [->%str_eqb_eq | [rest ->]%startsWith_spec]; [by left|].
  right. exists rest. by rewrite <- app_assoc.
Qed.
End filesystem.

(** ** Witnesses: a host whose paths are their own real paths *)
Definition plain_realpath (p : jsstr) : option jsstr :=
  if str_eqb (resolve1 [] p) p then Some p else None.

Lemma resolveProjectRelativePath_contained_witness :
  resolveProjectRelativePath plain_realpath (js "/work/p") (js "docs/a.md") (js "output")
    = Ok (js "/work/p/docs/a.md") /\
  ((js "docs/a.md" = js "-" /\ js "/work/p/docs/a.md" = js "-") \/
   (isWithin (js "/work/p") (resolve2 (js "/work/p") (js "docs/a.md")) = true /\
    exists realRoot, plain_realpath (js "/work/p") = Some realRoot /\
      isWithin realRoot (js "/work/p/docs/a.md") = true /\
      (plain_realpath (resolve2 (js "/work/p") (js "docs/a.md")) = Some (js "/work/p/docs/a.md") \/
       plain_realpath (resolve2 (js "/work/p") (js "docs/a.md")) = None /\
       exists parent, plain_realpath (dirname (resolve2 (js "/work/p") (js "docs/a.md"))) = Some parent /\
         js "/work/p/docs/a.md" = join [parent; basename (resolve2 (js "/work/p") (js "docs/a.md"))]))).
Proof.
  assert (resolveProjectRelativePath plain_realpath (js "/work/p") (js "docs/a.md") (js "output")
    = Ok (js "/work/p/docs/a.md")) as H by (vm_compute; reflexivity).
  split; [exact H|]. exact (resolveProjectRelativePath_contained _ _ _ _ _ H).
Defined.

Lemma registered_path_safe_witness :
  assertRegisterableProjectPath (js "/") plain_realpath (fun _ => Some true)
    (JStr (js "/home/u/app")) (js "/home/u") = Ok (js "/home/u/app") /\
  exists p, JStr (js "/home/u/app") = JStr p /\ plain_realpath p = Some (js "/home/u/app") /\
    Some true = Some true /\ isAbsolute (js "/home/u/app") = true /\
    resolve1 (js "/") (js "/home/u/app") = js "/home/u/app" /\
    js "/home/u/app" <> js "/" /\ (js "/home/u" <> [] -> js "/home/u/app" <> js "/home/u") /\
    Forall (fun root => isWithin root (js "/home/u/app") = false /\ isWithin root p = false)
      (banned_roots (js "/home/u")) /\
    REGISTER_PROJECT_SHELL_UNSAFE_RE (js "/home/u/app") = false.
Proof.
  assert (assertRegisterableProjectPath (js "/") plain_realpath (fun _ => Some true)
    (JStr (js "/home/u/app")) (js "/home/u") = Ok (js "/home/u/app")) as H
    by (vm_compute; reflexivity).
  split; [exact H|]. exact (registered_path_safe _ _ _ _ _ _ H).
Defined.

Lemma canonicalizeWithinRoots_contained_witness :
  canonicalizeWithinRoots plain_realpath (JStr (js "/srv/data/x")) [js "/opt"; js "/srv/data"]
    = Ok (js "/srv/data/x") /\
  exists p root realRoot, JStr (js "/srv/data/x") = JStr p /\
    plain_realpath p = Some (js "/srv/data/x") /\
    root ∈ [js "/opt"; js "/srv/data"] /\ plain_realpath root = Some realRoot /\
    (js "/srv/data/x" = realRoot \/ exists rest, js "/srv/data/x" = realRoot ++ [SLASH] ++ rest).
Proof.
  assert (canonicalizeWithinRoots plain_realpath (JStr (js "/srv/data/x")) [js "/opt"; js "/srv/data"]
    = Ok (js "/srv/data/x")) as H by (vm_compute; reflexivity).
  split; [exact H|]. exact (canonicalizeWithinRoots_contained _ _ _ _ H).
Defined.
