(* ===== verification/Envelope.v ===== *)
(** * Payload keys and the request envelope (broker/src/validation.ts)

    The allowlist of payload keys per operation and the validation every
    request passes before dispatch. *)
From S2P Require Import Prelude JsVal Types Validation.

Definition ALLOWED_PAYLOAD_KEYS : list (jsstr * list jsstr) :=
  map (fun kv => (js (fst kv), map js (snd kv)))
  ([("ensureWorker", ["projectDir"; "snapshot"]);
      ("exec", ["argv"; "cwd"; "timeoutMs"; "env"]);
      ("readFile", ["path"]);
      ("writeFile", ["path"; "content"]);
      ("applyPatch", ["patch"]);
      ("listDir", ["path"]);
      ("grep", ["query"; "path"]);
      ("diff", ["mode"]);
      ("applyResult", ["confirm"]);
      ("discardResult", ["confirm"]);
      ("destroyWorker", []);
      ("listWorkers", []);
      ("metrics", []);
      ("prepareResult", []);
      ("workerStatus", []);
      ("sddStatus", ["projectDir"; "change"; "contract"]);
      ("sddContinue", ["projectDir"; "change"]);
      ("sddArchiveCompose", ["projectDir"; "canonical"; "delta"; "output"]);
      ("sddTaskResult", ["projectDir"; "phase"; "input"]);
      ("reviewAssess", ["projectDir"; "baseRef"; "committedOnly"; "untrackedScope";
      "expectedUntrackedInventory"; "intendedUntracked"]);
      ("reviewModeStatus", ["projectDir"]);
      ("reviewStatus", ["projectDir"; "agent"; "lineage"; "repositoryContext"; "projection";
      "baseRef"; "committedOnly"; "intendedUntrackedSelection"]);
      ("reviewLensContext", ["projectDir"; "repositoryContext"; "lineage"; "target";
      "expectedRevision"; "lens"]);
      ("sddAttemptGrant", ["projectDir"; "change"; "expectedRevision"; "roots"; "changeInstance";
      "requestId"; "actor"; "reason"]);
      ("planDocAppend", ["projectDir"; "doc"; "content"; "heading"]);
      ("planDocWrite", ["projectDir"; "target"; "name"; "content"; "expectedRevision"; "note";
      "agent"]);
      ("taskMark", ["projectDir"; "target"; "name"; "taskId"; "status"; "evidenceCommit"; "note"]);
      ("testRun", ["projectDir"; "runner"]);
      ("gateVerdict", ["projectDir"; "name"; "taskId"; "verdict"; "refinementPlan"; "evidenceRef";
      "agent"]);
      ("bindSessionAgent", ["agent"]);
      ("reviewStart", ["projectDir"; "agent"; "contract"; "target"; "projection"; "focus";
      "untrackedScope"; "expectedUntrackedInventory"; "intendedUntracked"; "baseRef";
      "committedOnly"; "workspaceOverlay"; "lineage"; "consent"; "locale"; "policy"; "trace";
      "externalLenses"]);
      ("reviewCaptureResult", ["projectDir"; "agent"; "input"; "inputJson"; "lens"; "order";
      "target"; "lineage"; "expectedRevision"; "repositoryContext"; "subjectHash"; "materialize";
      "preflight"; "inputFromAdvisorResponse"]);
      ("reviewCaptureUnachievable", ["projectDir"; "target"; "lineage"; "expectedRevision";
      "repositoryContext"; "requestHash"; "reason"; "detail"; "withdraw"]);
      ("reviewAcknowledgeApproved", ["projectDir"; "lineage"; "target"; "expectedRevision";
      "token"]);
      ("reviewCaptureCorrectionPlan", ["projectDir"; "target"; "lineage"; "expectedRevision";
      "repositoryContext"; "requestHash"; "correctionLines"]);
      ("reviewCaptureRefuter", ["projectDir"; "agent"; "target"; "lineage"; "expectedRevision";
      "repositoryContext"; "materialize"; "execute"]);
      ("reviewCaptureValidation", ["projectDir"; "agent"; "target"; "lineage"; "expectedRevision";
      "repositoryContext"; "requestHash"; "materialize"; "execute"]);
      ("reviewValidate", ["projectDir"; "contract"; "gate"; "baseRef"; "lineage"; "policy";
      "prePrCiAttestation"; "releaseConfiguration"; "releaseEvidenceFreshness"; "releaseGenerated";
      "releaseProvenance"; "releasePublicationBoundary"]);
      ("reviewRecover", ["projectDir"; "actor"; "disposition"; "expectedPredecessorRevision";
      "predecessorLineage"; "successorLineage"; "reason"; "maintainerAuthorization"; "baseRef";
      "committedOnly"; "workspaceOverlay"; "releaseScope"; "projection"; "untrackedScope";
      "expectedUntrackedInventory"; "intendedUntracked"; "focus"; "policy"]);
      ("reviewMaterialize", ["projectDir"; "baseRef"; "headRef"; "contextLines"; "paths"]);
      ("reviewDiffRead", ["projectDir"; "runId"; "slice"]);
      ("reviewPipelineRun", ["projectDir"; "phase"; "reviewer"; "stdin"; "inputRef"; "inputRefs";
      "runId"; "adjudication"; "preparedRef"; "mergeRef"; "dispatch_records";
      "validator_lifecycle_results"; "plan_assessment"; "parent_run_metadata"; "prepared"; "merge";
      "screen_results"; "selected_dispatches"]);
      ("reviewPersist", ["projectDir"; "runId"; "finalizeRef"; "mode"]);
      ("reviewPersistPreflight", ["projectDir"; "runId"; "finalizeRef"; "mode"]);
      ("gitCommit", ["projectDir"; "message"; "sandboxSessionID"]);
      ("gitClearCommitIntent", ["projectDir"; "sandboxSessionID"]);
      ("gitPush", ["projectDir"; "remote"; "setUpstream"; "allowProtectedBranch"]);
      ("ghIssueCreate", ["projectDir"; "repo"; "title"; "body"]);
      ("sandboxResult", ["projectDir"; "sandboxSessionID"; "compareSandboxSessionID"]);
      ("resultDiff", ["ref"]);
      ("toolAdmission", ["projectDir"; "tool"]);
      ("sandboxResultInstall", ["projectDir"; "sandboxSessionID"; "expectedResultCommit"]);
      ("hostSystemSummary", []);
      ("hostMemory", []);
      ("hostNetworkListeners", []);
      ("hostTailscaleStatus", []);
      ("hostDockerList", []);
      ("hostDiskUsage", ["path"]);
      ("hostProcessList", ["filter"]);
      ("hostServiceStatus", ["service"]);
      ("hostServiceLogs", ["service"; "lines"; "since"]);
      ("hostDockerLogs", ["container"; "lines"]);
      ("copyOutInfo", ["workerPath"; "hostTarget"]);
      ("copyOut", ["workerPath"; "hostTarget"; "confirm"]);
      ("copyInInfo", ["hostSource"; "workerPath"]);
      ("copyIn", ["hostSource"; "workerPath"; "confirm"]);
      ("policy", []);
      ("registerProject", ["path"; "dryRun"; "createRemote"; "makePublic"]);
      ("advisorAsk", ["projectDir"; "kind"; "binding"; "snapshot"; "host"; "selection"; "group";
      "parentId"; "question"; "evidenceRefs"; "review"]);
      ("advisorGet", ["projectDir"; "id"]);
      ("advisorList", ["projectDir"; "task"; "step"; "status"]);
      ("advisorRead", ["id"]);
      ("advisorRespond", ["id"; "status"; "verdict"; "findings"; "reviewerResult"]);
      ("evidenceKeep", ["requestId"; "paths"])])%string.

(** [/^[A-Za-z0-9_.-]{1,128}$/] *)
Definition TOOL_NAME_RE : jsstr -> bool :=
  re_class (fun c => is_alnum c || one_of "_.-" c) 1 128.

Definition is_plain_object (v : jsval) : bool :=
  match v with JObj _ => true | _ => false end.

(** The loop over [Object.keys(record)]. *)
Definition check_key (operation : jsstr) (allowed : list jsstr) (key : jsstr) : res unit :=
  throw_if (negb (mem key allowed))
    (if mem key FORBIDDEN_WORKER_FIELDS
     then invalid_ [js "field '"; key; js "' is broker-side policy and cannot be supplied by a request ("; [167%N]; js "7)"]
     else invalid_ [js "unexpected field '"; key; js "' in "; operation; js " payload"]).

Definition assertPayloadKeys (operation : jsstr) (payload : jsval) : res unit :=
  let isToolAdmission := str_eqb operation (js "toolAdmission") in
  _ ← throw_if (isToolAdmission && negb (is_plain_object payload))
        (invalid "payload must be a JSON object");
  if is_nullish payload then Ok tt else
  _ ← throw_if (negb (is_plain_object payload)) (invalid "payload must be a JSON object");
  match table_get ALLOWED_PAYLOAD_KEYS operation with
  | Absent => Throw (invalid_ [js "unknown operation: "; operation])
  | found =>
      _ ← throw_if (isToolAdmission &&
            negb (match field payload (js "tool") with JStr t => TOOL_NAME_RE t | _ => false end))
            (invalid "tool must be a 1..128 character tool name using letters, digits, underscore, hyphen, or dot");
      match found with
      | Own allowed => for_each (check_key operation allowed) (object_keys payload)
      | _ => for_each (fun _ => Throw (Exn EError (js "allowed.includes is not a function")))
               (object_keys payload)
      end
  end.

(** [String(v)]; an object that redefines its conversion throws a TypeError. *)
Fixpoint js_String (v : jsval) : res jsstr :=
  match v with
  | JUndef => Ok (js "undefined")
  | JNull => Ok (js "null")
  | JBool b => Ok (js (if b then "true" else "false"))
  | JNum (NumInt z) => Ok (dec z)
  | JNum (NumFrac t) => Ok t
  | JNum NumNaN => Ok (js "NaN")
  | JNum (NumInf neg) => Ok (js (if neg then "-Infinity" else "Infinity"))
  | JStr s => Ok s
  | JArr xs =>
      parts ← (fix go (ys : list jsval) : res (list jsstr) :=
        match ys with
        | [] => Ok []
        | y :: ys' =>
            s ← (if is_nullish y then Ok [] else js_String y);
            rest ← go ys'; Ok (s :: rest)
        end) xs;
      Ok (join_with (js ",") parts)
  | JObj fs =>
      match assoc (js "toString") fs with
      | Some _ => Throw (Exn EError (js "Cannot convert object to primitive value"))
      | None => Ok (js "[object Object]")
      end
  end.

(** [v as string], once a check has left only strings. *)
Definition as_string (v : jsval) : jsstr :=
  match v with JStr s => s | _ => [] end.

Definition validateEnvelope (raw : jsval) : res BrokerRequestEnvelope :=
  _ ← throw_if (match raw with JObj _ | JArr _ => false | _ => true end)
        (invalid "request must be a JSON object");
  _ ← throw_if (match field raw (js "version") with JNum (NumInt 1) => false | _ => true end)
        (invalid "unsupported protocol version");
  _ ← assertRequestID (field raw (js "id"));
  match (match field raw (js "operation") with JStr o => operation_of_name o | _ => None end) with
  | None => shown ← js_String (field raw (js "operation"));
            Throw (invalid_ [js "unknown operation: "; shown])
  | Some op =>
      _ ← assertSessionID (field raw (js "sessionID"));
      _ ← assertAgentName (field raw (js "agent"));
      _ ← assertPayloadKeys (Op.name op) (field raw (js "payload"));
      Ok {| req_id := as_string (field raw (js "id"));
            req_operation := op;
            req_sessionID := as_string (field raw (js "sessionID"));
            req_agent := match field raw (js "agent") with JStr a => Some a | _ => None end;
            req_payload := field raw (js "payload") |}
  end.

(** ** Lemmas *)
Lemma operation_of_name_Some n op : operation_of_name n = Some op -> n = Op.name op.
Proof.
  unfold operation_of_name. intros [_ H]%find_some. by apply str_eqb_eq in H.
Qed.

Lemma assertSessionID_Ok v u :
  assertSessionID v = Ok u -> exists s, v = JStr s /\ SESSION_ID_RE s = true.
Proof.
  destruct v; cbn; try done. destruct (SESSION_ID_RE s) eqn:E; [eauto | done].
Qed.

Lemma assertRequestID_Ok v u :
  assertRequestID v = Ok u -> exists s, v = JStr s /\ REQUEST_ID_RE s = true.
Proof.
  destruct v; cbn; try done. destruct (REQUEST_ID_RE s) eqn:E; [eauto | done].
Qed.

(** The names of the table are not inherited ones, so an operation has its own
    allowlist or none. *)
Lemma allowed_keys_of_operation op :
  table_get ALLOWED_PAYLOAD_KEYS (Op.name op) =
  match assoc (Op.name op) ALLOWED_PAYLOAD_KEYS with Some ks => Own ks | None => Absent end.
Proof. destruct op; vm_compute; reflexivity. Qed.

Lemma allowlists_avoid_policy_fields :
  forallb (fun row => forallb (fun k => negb (mem k FORBIDDEN_WORKER_FIELDS)) (snd row))
    ALLOWED_PAYLOAD_KEYS = true.
Proof. vm_compute. reflexivity. Qed.

Lemma assertPayloadKeys_Ok op payload u :
  assertPayloadKeys (Op.name op) payload = Ok u ->
  is_nullish payload = true \/
  exists allowed, assoc (Op.name op) ALLOWED_PAYLOAD_KEYS = Some allowed /\
    Forall (fun k => k ∈ allowed) (object_keys payload).
Proof.
  unfold assertPayloadKeys. destruct (is_nullish payload) eqn:En; [by left|].
  accepted. intros (_ & _ & H). right. rewrite allowed_keys_of_operation in H.
  destruct (assoc _ _) as [allowed|]; [|done]. revert H. accepted. rewrite for_each_Ok.
  intros [_ H]. exists allowed. split; [done|].
  eapply Forall_impl; [exact H|]. cbn. intros k. unfold check_key. by accepted.
Qed.

Lemma validateEnvelope_Ok raw req :
  validateEnvelope raw = Ok req ->
  exists op, operation_of_name (as_string (field raw (js "operation"))) = Some op /\
    field raw (js "version") = JNum (NumInt 1) /\
    assertRequestID (field raw (js "id")) = Ok tt /\
    assertSessionID (field raw (js "sessionID")) = Ok tt /\
    assertPayloadKeys (Op.name op) (field raw (js "payload")) = Ok tt /\
    req = {| req_id := as_string (field raw (js "id")); req_operation := op;
             req_sessionID := as_string (field raw (js "sessionID"));
             req_agent := match field raw (js "agent") with JStr a => Some a | _ => None end;
             req_payload := field raw (js "payload") |}.
Proof.
  unfold validateEnvelope. accepted. intros (_ & Hv & Hid & H).
  destruct (field raw (js "operation")) as [| | | |o| |];
    try (by apply res_bind_Ok in H as (? & _ & ?)).
  destruct (operation_of_name o) as [op|] eqn:Eo; [|done].
  revert H. accepted. intros (Hs & _ & Hp & [= <-]). exists op. split_and!; try done.
  destruct (field raw (js "version")) as [| | |[[|[]|]| | |]| | |]; done.
Qed.

(** ** Properties *)

(** C40: a request that passes validation has a well-formed request id and
    session id, names an operation of the protocol, and carries a payload that
    is absent or an object all of whose keys are in that operation's
    allowlist; no key is a worker-policy field (image, mounts, privileged,
    network, ...). *)
Theorem envelope_sound raw req :
  validateEnvelope raw = Ok req ->
  REQUEST_ID_RE (req_id req) = true /\ SESSION_ID_RE (req_sessionID req) = true /\
  field raw (js "operation") = JStr (Op.name (req_operation req)) /\
  (is_nullish (req_payload req) = true \/
   exists allowed, assoc (Op.name (req_operation req)) ALLOWED_PAYLOAD_KEYS = Some allowed /\
     Forall (fun k => k ∈ allowed /\ k ∉ FORBIDDEN_WORKER_FIELDS) (object_keys (req_payload req))).
Proof.
  intros (op & Hop & _ & Hid & Hs & Hp & ->)%validateEnvelope_Ok.
  cbn [req_id req_sessionID req_operation req_payload].
  apply assertRequestID_Ok in Hid as (i & Ei & Hi).
  apply assertSessionID_Ok in Hs as (s & Es & Hs).
  rewrite Ei, Es.
  split_and!; [done | done | |].
  - revert Hop. destruct (field raw (js "operation")); try done. cbn [as_string]. intros Hop. by apply operation_of_name_Some in Hop as ->.
  - apply assertPayloadKeys_Ok in Hp as [Hp|(allowed & Ha & Hp)]; [by left|right].
    exists allowed. split; [done|]. eapply Forall_impl; [exact Hp|]. cbn. intros k Hk.
    split; [done|]. apply mem_false, negb_true_iff.
    pose proof allowlists_avoid_policy_fields as Hall.
    rewrite forallb_forall in Hall. apply assoc_Some_In, list_elem_of_In, Hall in Ha.
    rewrite forallb_forall in Ha. by apply Ha, list_elem_of_In.
Qed.

(** A request that reads a file. *)
Definition sample_request (op : string) (payload : jsval) : jsval :=
  JObj [(js "version", JNum (NumInt 1)); (js "id", JStr (js "r-1"));
        (js "operation", JStr (js op)); (js "sessionID", JStr (js "ses_1"));
        (js "payload", payload)].

Lemma envelope_sound_witness :
  exists req, validateEnvelope (sample_request "readFile" (JObj [(js "path", JStr (js "a"))])) = Ok req /\
  REQUEST_ID_RE (req_id req) = true /\ SESSION_ID_RE (req_sessionID req) = true /\
  field (sample_request "readFile" (JObj [(js "path", JStr (js "a"))])) (js "operation")
    = JStr (Op.name (req_operation req)) /\
  (is_nullish (req_payload req) = true \/
   exists allowed, assoc (Op.name (req_operation req)) ALLOWED_PAYLOAD_KEYS = Some allowed /\
     Forall (fun k => k ∈ allowed /\ k ∉ FORBIDDEN_WORKER_FIELDS) (object_keys (req_payload req))).
Proof.
  eexists. split; [vm_compute; reflexivity|].
  apply (envelope_sound (sample_request "readFile" (JObj [(js "path", JStr (js "a"))]))).
  vm_compute. reflexivity.
Defined.
