(* ===== verification/Codec.v ===== *)
(** * Byte encodings of the language's library

    [Buffer.from(s)] and [TextDecoder]/[toString("utf8")], and the base64 of
    [Buffer].  A byte is an [N] below 256.  Definitions here model the language
    and its standard library, not the repository. *)
From S2P Require Import Prelude.
Open Scope N_scope.

(** ** UTF-8 *)

(** The code points of a string; a lone surrogate reads as U+FFFD. *)
Fixpoint code_points (s : jsstr) : list N :=
  match s with
  | [] => []
  | c :: s' =>
      if (55296 <=? c) && (c <? 56320) then
        match s' with
        | d :: s'' =>
            if (56320 <=? d) && (d <? 57344)
            then (65536 + (c - 55296) * 1024 + (d - 56320)) :: code_points s''
            else 65533 :: code_points s'
        | [] => [65533]
        end
      else if (56320 <=? c) && (c <? 57344) then 65533 :: code_points s'
      else c :: code_points s'
  end.

Definition utf8_encode_point (c : N) : list N :=
  if c <? 128 then [c]
  else if c <? 2048 then [192 + c / 64; 128 + c mod 64]
  else if c <? 65536 then [224 + c / 4096; 128 + c / 64 mod 64; 128 + c mod 64]
  else [240 + c / 262144; 128 + c / 4096 mod 64; 128 + c / 64 mod 64; 128 + c mod 64].

(** [Buffer.from(s, "utf8")] *)
Definition utf8_encode (s : jsstr) : list N := concat (map utf8_encode_point (code_points s)).

(** Continuation bytes: the code point, or [None] at the first byte that is not
    one; and what is left. *)
Fixpoint utf8_continue (n : nat) (lo hi acc : N) (bs : list N) : option N * list N :=
  match n with
  | O => (Some acc, bs)
  | S n' =>
      match bs with
      | b :: r => if (lo <=? b) && (b <=? hi) then utf8_continue n' 128 191 (acc * 64 + (b - 128)) r
                  else (None, bs)
      | [] => (None, [])
      end
  end.

(** One code point off the front, [None] for an ill-formed sequence. *)
Definition utf8_next (b : N) (r : list N) : option N * list N :=
  if b <? 128 then (Some b, r)
  else if (194 <=? b) && (b <=? 223) then utf8_continue 1 128 191 (b - 192) r
  else if (224 <=? b) && (b <=? 239) then
    utf8_continue 2 (if b =? 224 then 160 else 128) (if b =? 237 then 159 else 191) (b - 224) r
  else if (240 <=? b) && (b <=? 244) then
    utf8_continue 3 (if b =? 240 then 144 else 128) (if b =? 244 then 143 else 191) (b - 240) r
  else (None, r).

Fixpoint utf8_points (fuel : nat) (bs : list N) : list (option N) :=
  match fuel, bs with
  | S fuel', b :: r => let '(p, rest) := utf8_next b r in p :: utf8_points fuel' rest
  | _, _ => []
  end.

(** The UTF-16 code units of a code point. *)
Definition units (c : N) : jsstr :=
  if c <? 65536 then [c] else [55296 + (c - 65536) / 1024; 56320 + (c - 65536) mod 1024].

(** [new TextDecoder("utf-8", { fatal: true }).decode(bs)]; [None] throws. *)
Definition utf8_decode (bs : list N) : option jsstr :=
  points ← mapM id (utf8_points (length bs) bs);
  Some (concat (map units points)).

(** [bs.toString("utf8")]: ill-formed sequences read as U+FFFD. *)
Definition utf8_lossy (bs : list N) : jsstr :=
  concat (map (fun p => units (default 65533 p)) (utf8_points (length bs) bs)).

(** ** Base64 *)
Definition b64_char (v : N) : N :=
  if v <? 26 then 65 + v else if v <? 52 then 71 + v else if v <? 62 then v - 4
  else if v =? 62 then 43 else 47.

(** The value of a character; both alphabets are read. *)
Definition b64_value (c : N) : option N :=
  if (65 <=? c) && (c <=? 90) then Some (c - 65)
  else if (97 <=? c) && (c <=? 122) then Some (c - 71)
  else if (48 <=? c) && (c <=? 57) then Some (c + 4)
  else if (c =? 43) || (c =? 45) then Some 62
  else if (c =? 47) || (c =? 95) then Some 63
  else None.

Fixpoint base64_encode (bs : list N) : jsstr :=
  match bs with
  | a :: b :: c :: r =>
      b64_char (a / 4) :: b64_char (a mod 4 * 16 + b / 16) ::
      b64_char (b mod 16 * 4 + c / 64) :: b64_char (c mod 64) :: base64_encode r
  | [a; b] => [b64_char (a / 4); b64_char (a mod 4 * 16 + b / 16); b64_char (b mod 16 * 4); 61]
  | [a] => [b64_char (a / 4); b64_char (a mod 4 * 16); 61; 61]
  | [] => []
  end.

(** Six-bit values to bytes; the bits of an incomplete byte are dropped. *)
Fixpoint sextets_bytes (vs : list N) : list N :=
  match vs with
  | a :: b :: c :: d :: r =>
      (a * 4 + b / 16) :: (b mod 16 * 16 + c / 4) :: (c mod 4 * 64 + d) :: sextets_bytes r
  | [a; b; c] => [a * 4 + b / 16; b mod 16 * 16 + c / 4]
  | [a; b] => [a * 4 + b / 16]
  | _ => []
  end.

(** [Buffer.from(s, "base64")]: characters outside the alphabets are skipped. *)
Definition base64_decode (s : jsstr) : list N := sextets_bytes (omap b64_value s).

(** ** Round trips *)
Definition is_byte (b : N) : Prop := b < 256.

Lemma b64_value_char v : v < 64 -> b64_value (b64_char v) = Some v.
Proof.
  intros H.
  assert (forallb (fun n => bool_decide (b64_value (b64_char (N.of_nat n)) = Some (N.of_nat n))) (seq 0 64) = true)
    as Hall by (vm_compute; reflexivity).
  rewrite forallb_forall in Hall. specialize (Hall (N.to_nat v)).
  rewrite N2Nat.id in Hall. apply (bool_decide_eq_true _), Hall, in_seq. lia.
Qed.

Lemma base64_step3 a b c : is_byte a -> is_byte b -> is_byte c ->
  a / 4 < 64 /\ a mod 4 * 16 + b / 16 < 64 /\ b mod 16 * 4 + c / 64 < 64 /\ c mod 64 < 64 /\
  a / 4 * 4 + (a mod 4 * 16 + b / 16) / 16 = a /\
  (a mod 4 * 16 + b / 16) mod 16 * 16 + (b mod 16 * 4 + c / 64) / 4 = b /\
  (b mod 16 * 4 + c / 64) mod 4 * 64 + c mod 64 = c.
Proof.
  unfold is_byte. intros. repeat split; try (apply N.Div0.div_lt_upper_bound; lia);
  zify; Z.to_euclidean_division_equations; lia.
Qed.

Lemma base64_roundtrip bs : Forall is_byte bs -> base64_decode (base64_encode bs) = bs.
Proof.
  unfold base64_decode.
  induction bs as [bs IH] using (induction_ltof1 _ (@length N)); unfold ltof in IH. intros H.
  destruct bs as [|a [|b [|c r]]]; [done| | |].
  - apply Forall_cons in H as [Ha _]. destruct (base64_step3 a 0 0) as (H1 & H2 & _ & _ & H3 & _); try (by unfold is_byte in *; lia).
    change (0 / 16) with 0 in *. rewrite N.add_0_r in *. cbn [base64_encode omap list_omap].
    rewrite !b64_value_char by done. cbn. by rewrite H3.
  - apply Forall_cons in H as [Ha H]. apply Forall_cons in H as [Hb _].
    destruct (base64_step3 a b 0) as (H1 & H2 & H3 & _ & H4 & H5 & _); try (by unfold is_byte in *; lia).
    change (0 / 64) with 0 in *. rewrite N.add_0_r in *. cbn [base64_encode omap list_omap].
    rewrite !b64_value_char by done. cbn [sextets_bytes]. change (b64_value 61) with (@None N).
    cbn [sextets_bytes]. by rewrite H4, H5.
  - apply Forall_cons in H as [Ha H]. apply Forall_cons in H as [Hb H]. apply Forall_cons in H as [Hc H].
    destruct (base64_step3 a b c) as (H1 & H2 & H3 & H4 & H5 & H6 & H7); try done.
    cbn [base64_encode omap list_omap]. rewrite !b64_value_char by done. cbn [sextets_bytes].
    rewrite H5, H6, H7. do 3 f_equal. apply IH; [cbn; lia | done].
Qed.

(** [s.isWellFormed()]: every surrogate is half of a pair. *)
Fixpoint isWellFormed (s : jsstr) : bool :=
  match s with
  | [] => true
  | c :: s' =>
      if (55296 <=? c) && (c <? 56320) then
        match s' with
        | d :: s'' => (56320 <=? d) && (d <? 57344) && isWellFormed s''
        | [] => false
        end
      else negb ((56320 <=? c) && (c <? 57344)) && (c <? 65536) && isWellFormed s'
  end.

(** A code point that is not a surrogate. *)
Definition scalar (c : N) : Prop := c < 55296 \/ 57344 <= c < 1114112.

Ltac split_N :=
  repeat match goal with
  | H : context [?x <? ?y] |- _ => destruct (N.ltb_spec x y)
  | H : context [?x <=? ?y] |- _ => destruct (N.leb_spec x y)
  | |- context [?x <? ?y] => destruct (N.ltb_spec x y)
  | |- context [?x =? ?y] => destruct (N.eqb_spec x y)
  | |- context [?x <=? ?y] => destruct (N.leb_spec x y)
  end; cbn [andb orb negb] in *; try lia; try discriminate.

Lemma well_formed_points s : isWellFormed s = true ->
  Forall scalar (code_points s) /\ concat (map units (code_points s)) = s.
Proof.
  induction s as [s IH] using (induction_ltof1 _ (@length N)); unfold ltof in IH.
  destruct s as [|c s]; [done|]. cbn [isWellFormed code_points].
  destruct ((55296 <=? c) && (c <? 56320)) eqn:Hc.
  - destruct s as [|d s]; [done|]. rewrite !andb_true_iff. intros [[H1 H2] H3].
    rewrite H1, H2. cbn [andb map concat]. apply andb_true_iff in Hc as [H4 H5].
    apply N.leb_le in H1, H4. apply N.ltb_lt in H2, H5.
    destruct (IH s) as [IH1 IH2]; [cbn; lia | done|]. split.
    + constructor; [|done]. unfold scalar. lia.
    + rewrite IH2. unfold units. destruct (N.ltb_spec (65536 + (c - 55296) * 1024 + (d - 56320)) 65536); [lia|].
      cbn [app]. f_equal; [|f_equal]; zify; Z.to_euclidean_division_equations; lia.
  - rewrite !andb_true_iff, negb_true_iff. intros [[H1 H2] H3]. rewrite H1. cbn [map concat].
    destruct (IH s) as [IH1 IH2]; [cbn; lia | done|]. apply N.ltb_lt in H2. split.
    + constructor; [|done]. unfold scalar.
      apply andb_false_iff in Hc, H1. rewrite !N.leb_gt, !N.ltb_ge in *. lia.
    + rewrite IH2. unfold units. destruct (N.ltb_spec c 65536); [done | lia].
Qed.

(** Decides the comparisons that arithmetic settles. *)
Ltac decide_N :=
  repeat match goal with
  | |- context [?x <? ?y] =>
      first [rewrite (proj2 (N.ltb_lt x y)) by lia | rewrite (proj2 (N.ltb_ge x y)) by lia]
  | |- context [?x <=? ?y] =>
      first [rewrite (proj2 (N.leb_le x y)) by lia | rewrite (proj2 (N.leb_gt x y)) by lia]
  end.

(** The base-64 digits of a number, as equations without division. *)
Lemma digit64 c : exists q r, c = q * 64 + r /\ r < 64 /\ c / 64 = q /\ c mod 64 = r.
Proof.
  exists (c / 64), (c mod 64). pose proof (N.div_mod' c 64). pose proof (N.mod_lt c 64).
  repeat split; lia.
Qed.

Lemma utf8_next_encode c r : scalar c ->
  exists b bs, utf8_encode_point c = b :: bs /\ utf8_next b (bs ++ r) = (Some c, r).
Proof.
  unfold scalar. intros H. unfold utf8_encode_point.
  replace (c / 4096) with (c / 64 / 64) by (by rewrite N.Div0.div_div).
  replace (c / 262144) with (c / 64 / 64 / 64) by (by rewrite !N.Div0.div_div).
  destruct (digit64 c) as (q & d & -> & Hd & -> & ->).
  destruct (digit64 q) as (q2 & d2 & -> & Hd2 & -> & ->).
  destruct (digit64 q2) as (q3 & d3 & -> & Hd3 & -> & ->).
  set (c := ((q3 * 64 + d3) * 64 + d2) * 64 + d) in *.
  destruct (N.ltb_spec c 128).
  { exists c, []. split; [done|]. unfold utf8_next. destruct (N.ltb_spec c 128); [done | lia]. }
  destruct (N.ltb_spec c 2048).
  { eexists _, _. split; [done|]. subst c. unfold utf8_next. decide_N. cbn [andb utf8_continue app].
    decide_N. cbn [andb]. do 2 f_equal. lia. }
  destruct (N.ltb_spec c 65536).
  { eexists _, _. split; [done|]. subst c. unfold utf8_next. decide_N. cbn [andb utf8_continue app].
    destruct (N.eqb_spec (224 + (q3 * 64 + d3)) 224), (N.eqb_spec (224 + (q3 * 64 + d3)) 237);
      decide_N; cbn [andb utf8_continue]; decide_N; cbn [andb]; do 2 f_equal; lia. }
  eexists _, _. split; [done|]. subst c. unfold utf8_next. decide_N. cbn [andb utf8_continue app].
  destruct (N.eqb_spec (240 + q3) 240), (N.eqb_spec (240 + q3) 244);
    decide_N; cbn [andb utf8_continue]; decide_N; cbn [andb utf8_continue]; decide_N; cbn [andb];
    do 2 f_equal; lia.
Qed.

Lemma utf8_points_encode cs fuel : Forall scalar cs ->
  (length (concat (map utf8_encode_point cs)) <= fuel)%nat ->
  utf8_points fuel (concat (map utf8_encode_point cs)) = map Some cs.
Proof.
  intros H. revert fuel. induction H as [|c cs Hc _ IH]; intros fuel Hf; [by destruct fuel|].
  cbn [map concat] in *. destruct (utf8_next_encode c (concat (map utf8_encode_point cs)) Hc) as (b & bs & He & Hn).
  rewrite He in *. cbn [app] in *. destruct fuel as [|fuel]; [cbn in Hf; lia|].
  cbn [utf8_points]. rewrite Hn. f_equal. apply IH. cbn in Hf. rewrite length_app in Hf. lia.
Qed.

Lemma mapM_id_Some {A} (cs : list A) : mapM id (map Some cs) = Some cs.
Proof. induction cs as [|c cs IH]; [done|]. cbn. by rewrite IH. Qed.

Lemma map_lossy_Some cs : concat (map (fun p => units (default 65533 p)) (map Some cs)) = concat (map units cs).
Proof. by rewrite map_map. Qed.

Lemma utf8_roundtrip s : isWellFormed s = true ->
  utf8_decode (utf8_encode s) = Some s /\ utf8_lossy (utf8_encode s) = s.
Proof.
  intros H. destruct (well_formed_points s H) as [H1 H2].
  unfold utf8_decode, utf8_lossy, utf8_encode. rewrite utf8_points_encode by (done || lia).
  rewrite mapM_id_Some, map_lossy_Some. cbn. by rewrite H2.
Qed.
