(* ===== verification/Redact.v ===== *)
(** * Redaction of secrets and the log (broker/src/logging.ts, gitops.ts)

    [redact] replaces the value of every secret-shaped assignment in a text;
    [capAndRedact] also cuts the text to a number of bytes.  [Logger] is the log:
    its two sinks, their failures as outcomes of the calls and as events, the
    counters, and the one record it writes to the error output when it loses a
    line. *)
From S2P Require Import Prelude JsVal Json Codec.
Open Scope Z_scope.

(** ** The pattern *)
Definition ascii_lower (c : N) : N := if is_upper c then (c + 32)%N else c.

(** What follows [p] at the front of [s], whatever the case of its letters. *)
Fixpoint strip_prefix_ci (p s : jsstr) : option jsstr :=
  match p, s with
  | [], _ => Some s
  | c :: p', d :: s' => if (c =? ascii_lower d)%N then strip_prefix_ci p' s' else None
  | _ :: _, [] => None
  end.

Definition SECRET_WORDS : list jsstr :=
  map js ["token"; "secret"; "password"; "credential"; "apikey"; "api_key"; "api-key"; "authorization"].

Definition secret_word (s : jsstr) : option jsstr := head (omap (fun w => strip_prefix_ci w s) SECRET_WORDS).

Definition is_quote (c : N) : bool := ((c =? 34) || (c =? 39))%N.
Definition is_value_char (c : N) : bool := negb (is_ws c || is_quote c || (c =? 38)%N).

(** The value of an assignment, with its opening quote: what follows it. *)
Definition secret_value (s : jsstr) : option jsstr :=
  let unquoted := match s with c :: s' => if is_quote c then s' else s | [] => s end in
  match span is_value_char unquoted with
  | (_ :: _, rest) => Some rest
  | ([], _) => None
  end.

(** [SECRET_VALUE_RE] at the front of [s]: what follows the match. *)
Definition SECRET_VALUE_RE (s : jsstr) : option jsstr :=
  r ← secret_word s;
  match snd (span is_ws r) with
  | c :: r' => if ((c =? 61) || (c =? 58))%N then secret_value (snd (span is_ws r')) else None
  | [] => None
  end.

(** ** [redact] *)
Definition before_char (c : N) (s : jsstr) : jsstr := match cut_at c s with Some (a, _) => a | None => s end.

Definition has_char (c : N) (s : jsstr) : bool := existsb (N.eqb c) s.

Definition replacement (matched : jsstr) : jsstr :=
  let eq := if has_char 61 matched then 61%N else 58%N in
  let quote := if has_char 34 matched then [34%N] else if has_char 39 matched then [39%N] else [] in
  before_char eq matched ++ [eq] ++ quote ++ js "REDACTED" ++ quote.

(** Every match from the left; [skip] units belong to the last one. *)
Fixpoint redact_from (skip : nat) (s : jsstr) : jsstr :=
  match s with
  | [] => []
  | c :: s' =>
      match skip with
      | S k => redact_from k s'
      | O => match SECRET_VALUE_RE s with
             | Some rest => let matched := take (length s - length rest) s in
                            replacement matched ++ redact_from (length matched - 1) s'
             | None => c :: redact_from 0 s'
             end
      end
  end.
Definition redact : jsstr -> jsstr := redact_from 0.

(** ** [capAndRedactWithFlag] *)
Definition GIT_OUTPUT_MAX_BYTES : Z := 512 * 1024.

Record CapAndRedactResult := mkCapped { cr_text : jsstr; cr_truncated : bool }.

Definition capAndRedactWithFlag (text : jsstr) (maxBytes : Z) : CapAndRedactResult :=
  let redacted := redact text in
  if byteLength redacted <=? maxBytes then mkCapped redacted false
  else mkCapped (utf8_lossy (take (Z.to_nat maxBytes) (utf8_encode redacted))) true.

Definition capAndRedact (text : jsstr) : jsstr := cr_text (capAndRedactWithFlag text GIT_OUTPUT_MAX_BYTES).

(** ** Facts *)
Lemma redact_skip n s : (n <= length s)%nat -> redact_from n s = redact (drop n s).
Proof.
  revert s. induction n as [|n IH]; intros s H; [done|]. destruct s as [|c s]; [cbn in H; lia|].
  cbn [redact_from drop]. apply IH. cbn in H. lia.
Qed.

Lemma redact_match s m rest : s = m ++ rest -> m <> [] -> SECRET_VALUE_RE s = Some rest ->
  redact s = replacement m ++ redact rest.
Proof.
  intros -> Hm H. destruct m as [|c m]; [done|]. unfold redact at 1. cbn [app redact_from]. cbn [app] in H. rewrite H.
  assert (take (length (c :: m ++ rest) - length rest) (c :: m ++ rest) = c :: m) as ->.
  { change (c :: m ++ rest) with ((c :: m) ++ rest). rewrite length_app, Nat.add_sub. by rewrite take_app_length. }
  f_equal. cbn [length]. rewrite Nat.sub_succ, Nat.sub_0_r, redact_skip by (rewrite length_app; lia).
  by rewrite drop_app_length.
Qed.

(** The texts [secret_word] accepts, whatever their case. *)
Definition is_secret_word (w : jsstr) : bool := mem (map ascii_lower w) SECRET_WORDS.

Lemma strip_prefix_ci_app w s : strip_prefix_ci (map ascii_lower w) (w ++ s) = Some s.
Proof. induction w as [|c w IH]; [done|]. cbn. by rewrite N.eqb_refl. Qed.

Lemma strip_prefix_ci_spec p s r : strip_prefix_ci p s = Some r -> exists w, map ascii_lower w = p /\ s = w ++ r.
Proof.
  revert s. induction p as [|c p IH]; intros s H; [exists []; by injection H as ->|].
  destruct s as [|d s]; [done|]. cbn in H. destruct (N.eqb_spec c (ascii_lower d)); [|done].
  apply IH in H as (w & <- & ->). exists (d :: w). by subst c.
Qed.

(** No secret word is a proper prefix of another. *)
Lemma secret_word_app w s : is_secret_word w = true -> secret_word (w ++ s) = Some s.
Proof.
  unfold is_secret_word. rewrite mem_true. intros Hw. unfold secret_word.
  assert (forall ws, Forall (fun p => p ∈ SECRET_WORDS) ws -> map ascii_lower w ∈ ws ->
    head (omap (fun p => strip_prefix_ci p (w ++ s)) ws) = Some s) as H.
  { induction 1 as [|p ws Hp _ IH]; intros Hin; [by apply not_elem_of_nil in Hin|].
    cbn [omap list_omap]. destruct (strip_prefix_ci p (w ++ s)) as [r|] eqn:E.
    - apply strip_prefix_ci_spec in E as (w' & Hw' & E). cbn. f_equal.
      assert (map ascii_lower w = map ascii_lower w') as Heq.
      { assert (startsWith (map ascii_lower w ++ map ascii_lower s) (map ascii_lower w') = true) as Hpre.
        { rewrite <- map_app, E, map_app. apply startsWith_app. }
        rewrite Hw' in *. clear -Hw Hp Hpre.
        assert (forallb (fun a => forallb (fun b => str_eqb a b || negb (startsWith a b) && negb (startsWith b a)) SECRET_WORDS)
          SECRET_WORDS = true) as Htab by (vm_compute; reflexivity).
        rewrite forallb_forall in Htab. apply list_elem_of_In in Hw, Hp. specialize (Htab _ Hw).
        rewrite forallb_forall in Htab. specialize (Htab _ Hp). apply orb_true_iff in Htab as [Htab|Htab].
        { by apply str_eqb_eq in Htab. }
        apply andb_true_iff in Htab as [H1%negb_true_iff H2%negb_true_iff].
        exfalso. apply startsWith_spec in Hpre as [t Ht].
        apply app_eq_inv in Ht as [(k & Hk & _)|(k & Hk & _)].
        - rewrite Hk, startsWith_app in H1. done.
        - rewrite Hk, startsWith_app in H2. done. }
      assert (length w = length w') as Hl by (apply (f_equal (@length N)) in Heq; by rewrite !length_map in Heq).
      by apply app_inj_1 in E as [_ ->].
    - apply elem_of_cons in Hin as [<-|Hin]; [by rewrite strip_prefix_ci_app in E | by apply IH]. }
  apply H; [|done]. by apply Forall_forall.
Qed.

(** An assignment: a secret word, a separator between blanks, and a bare value
    that ends where [post] starts. *)
Record assignment (w b1 : jsstr) (sep : N) (b2 v post : jsstr) : Prop := {
  as_word : is_secret_word w = true;
  as_b1 : forallb is_ws b1 = true;
  as_sep : sep = 61%N \/ sep = 58%N;
  as_b2 : forallb is_ws b2 = true;
  as_value : v <> [] /\ forallb is_value_char v = true;
  as_post : match post with c :: _ => is_value_char c = false | [] => True end
}.

Lemma value_char_plain c : is_value_char c = true -> is_ws c = false /\ is_quote c = false.
Proof. unfold is_value_char. rewrite negb_true_iff, !orb_false_iff. tauto. Qed.

Lemma assignment_match w b1 sep b2 v post :
  assignment w b1 sep b2 v post -> SECRET_VALUE_RE (w ++ b1 ++ sep :: b2 ++ v ++ post) = Some post.
Proof.
  intros [Hw H1 Hsep H2 [Hne Hv] Hp]. unfold SECRET_VALUE_RE. rewrite secret_word_app by done. cbn [mbind option_bind].
  assert (is_ws sep = false /\ ((sep =? 61) || (sep =? 58))%N = true) as [Hs1 Hs2] by (destruct Hsep as [-> | ->]; done).
  rewrite (span_exact is_ws b1) by done. cbn [snd]. rewrite Hs2.
  destruct v as [|c v]; [done|]. cbn [forallb] in Hv. apply andb_true_iff in Hv as [Hc Hv].
  destruct (value_char_plain c Hc) as [Hws Hq].
  rewrite (span_exact is_ws b2) by done. cbn [snd]. unfold secret_value. cbn [app]. rewrite Hq.
  change (c :: v ++ post) with ((c :: v) ++ post). rewrite (span_exact is_value_char (c :: v) post) by (done || by cbn; rewrite Hc).
  done.
Qed.

Lemma before_char_app c a b : has_char c a = false -> before_char c (a ++ c :: b) = a.
Proof.
  intros H. unfold before_char. assert (cut_at c (a ++ c :: b) = Some (a, b)) as ->; [|done].
  induction a as [|d a IH]; cbn [app cut_at]; [by rewrite N.eqb_refl|].
  cbn [has_char existsb] in H. apply orb_false_iff in H as [-> H]. by rewrite IH.
Qed.

Lemma has_char_app c a b : has_char c (a ++ b) = has_char c a || has_char c b.
Proof. apply existsb_app. Qed.

Lemma no_char c (p : N -> bool) s : p c = false -> forallb p s = true -> has_char c s = false.
Proof.
  intros Hc H. apply not_true_is_false. intros (d & Hd & E)%existsb_exists. apply N.eqb_eq in E as <-.
  rewrite forallb_forall in H. rewrite (H c Hd) in Hc. discriminate.
Qed.

Lemma secret_word_no_char c w : is_upper c = false -> ascii_lower c = c ->
  forallb (fun p => negb (has_char c p)) SECRET_WORDS = true -> is_secret_word w = true -> has_char c w = false.
Proof.
  intros Hu Hl Htab Hw%mem_true. rewrite forallb_forall in Htab. apply list_elem_of_In in Hw.
  specialize (Htab _ Hw). apply negb_true_iff in Htab. clear Hw. induction w as [|d w IH]; [done|].
  cbn [map has_char existsb] in *. apply orb_false_iff in Htab as [H1 H2]. apply orb_false_iff. split; [|by apply IH].
  apply N.eqb_neq in H1. apply N.eqb_neq. congruence.
Qed.

(** No quote anywhere in a bare assignment. *)
Lemma assignment_unquoted w b1 sep b2 v post q : (q = 34 \/ q = 39)%N ->
  assignment w b1 sep b2 v post -> has_char q (w ++ b1 ++ sep :: b2 ++ v) = false.
Proof.
  intros Hq [Hw H1 Hsep H2 [_ Hv] _].
  assert (is_ws q = false /\ is_value_char q = false) as [Hq1 Hq2] by (destruct Hq as [-> | ->]; done).
  rewrite !has_char_app. change (has_char q (sep :: b2 ++ v)) with ((q =? sep)%N || has_char q (b2 ++ v)).
  rewrite has_char_app, (no_char q is_ws b1), (no_char q is_ws b2), (no_char q is_value_char v) by done.
  rewrite secret_word_no_char; [|destruct Hq as [-> | ->]; reflexivity..|done].
  cbn [orb]. rewrite orb_false_r. apply N.eqb_neq. destruct Hq as [-> | ->], Hsep as [-> | ->]; done.
Qed.

Lemma assignment_head w b1 sep b2 v post c : (c = 61 \/ c = 58)%N ->
  assignment w b1 sep b2 v post -> has_char c (w ++ b1) = false /\ has_char c b2 = false.
Proof.
  intros Hc [Hw H1 _ H2 _ _].
  assert (is_ws c = false) as Hws by (destruct Hc as [-> | ->]; done).
  rewrite has_char_app, (no_char c is_ws b1), (no_char c is_ws b2) by done.
  rewrite secret_word_no_char; [done | destruct Hc as [-> | ->]; reflexivity.. | done].
Qed.

(** What redaction makes of a bare assignment, exactly.  After [=], or after
    [:] with a value that holds no [=], the value is gone.  After [:] a value
    that holds [=] is kept up to it, and in every case a value ends at the
    first blank, so the token of an [Authorization: Bearer] header is kept
    whole. *)
Theorem redact_assignment_exact w b1 sep b2 v post :
  assignment w b1 sep b2 v post ->
  (sep = 61%N -> redact (w ++ b1 ++ sep :: b2 ++ v ++ post) = w ++ b1 ++ js "=REDACTED" ++ redact post) /\
  (sep = 58%N -> has_char 61 v = false ->
    redact (w ++ b1 ++ sep :: b2 ++ v ++ post) = w ++ b1 ++ js ":REDACTED" ++ redact post) /\
  (forall x y, sep = 58%N -> v = x ++ 61%N :: y -> has_char 61 x = false ->
    redact (w ++ b1 ++ sep :: b2 ++ v ++ post) = w ++ b1 ++ 58%N :: b2 ++ x ++ js "=REDACTED" ++ redact post).
Proof.
  intros H. pose proof (assignment_match _ _ _ _ _ _ H) as Hm.
  set (m := w ++ b1 ++ sep :: b2 ++ v).
  assert (redact (w ++ b1 ++ sep :: b2 ++ v ++ post) = replacement m ++ redact post) as ->.
  { apply redact_match; [|unfold m; destruct w, b1; done|done]. unfold m. by rewrite <- !app_assoc, <- app_comm_cons, <- app_assoc. }
  unfold replacement. subst m. rewrite (assignment_unquoted _ _ _ _ _ _ 34 ltac:(auto) H), (assignment_unquoted _ _ _ _ _ _ 39 ltac:(auto) H).
  destruct (assignment_head _ _ _ _ _ _ 61 ltac:(auto) H) as [He1 He2], (assignment_head _ _ _ _ _ _ 58 ltac:(auto) H) as [Hc1 Hc2].
  rewrite (app_assoc w b1 (sep :: b2 ++ v)), has_char_app, He1. cbn [orb].
  split_and!.
  - intros ->. change (has_char 61 (61%N :: b2 ++ v)) with true. cbn iota.
    rewrite before_char_app by done. by rewrite <- !app_assoc.
  - intros -> Hv. assert (has_char 61 (58%N :: b2 ++ v) = false) as ->.
    { change (has_char 61 (58%N :: b2 ++ v)) with (has_char 61 (b2 ++ v)). by rewrite has_char_app, He2, Hv. }
    rewrite before_char_app by done. by rewrite <- !app_assoc.
  - intros x y -> -> Hx. assert (has_char 61 (58%N :: b2 ++ x ++ 61%N :: y) = true) as ->.
    { apply existsb_exists. exists 61%N. split; [|done]. right. apply in_or_app. right. apply in_or_app. right. by left. }
    assert ((w ++ b1) ++ 58%N :: b2 ++ x ++ 61%N :: y = ((w ++ b1) ++ 58%N :: b2 ++ x) ++ 61%N :: y) as ->
      by by rewrite <- !app_assoc, <- app_comm_cons, <- app_assoc.
    rewrite before_char_app.
    + rewrite <- !app_assoc, <- app_comm_cons. by rewrite <- !app_assoc.
    + rewrite has_char_app, He1. change (has_char 61 (58%N :: b2 ++ x)) with (has_char 61 (b2 ++ x)).
      by rewrite has_char_app, He2, Hx.
Qed.

Lemma redact_assignment_exact_witness :
  redact (js "Authorization: Bearer sk-1") = js "Authorization:REDACTED sk-1" /\
  redact (js "password: hunter2=x") = js "password: hunter2=REDACTED".
Proof.
  split.
  - assert (assignment (js "Authorization") [] 58 (js " ") (js "Bearer") (js " sk-1")) as H.
    { split; [vm_compute; reflexivity | done | by right | done | split; [discriminate | vm_compute; reflexivity] | done]. }
    exact (proj1 (proj2 (redact_assignment_exact _ _ _ _ _ _ H)) eq_refl eq_refl).
  - assert (assignment (js "password") [] 58 (js " ") (js "hunter2=x") []) as H.
    { split; [vm_compute; reflexivity | done | by right | done | split; [discriminate | vm_compute; reflexivity] | done]. }
    exact (proj2 (proj2 (redact_assignment_exact _ _ _ _ _ _ H)) (js "hunter2") (js "x") eq_refl eq_refl eq_refl).
Defined.

(** ** The log *)
Module Log.
(** The text of a line: the fields of the entry in their order, a redacted
    [error], the time.  An [error] is a text, or not given. *)
Definition log_line (entry : list (jsstr * jsval)) (ts : jsstr) : jsstr :=
  let error := match field (JObj entry) (js "error") with JStr (c :: s) => JStr (redact (c :: s)) | _ => JUndef end in
  json_text (JObj (merge_fields entry [(js "error", error); (js "ts", JStr ts)])).

Record Logger := mkLogger {
  file : bool;             (* [this.stream] is set *)
  toConsole : bool;
  streamDead : bool; stdoutDead : bool; fallbackWritten : bool;
  droppedLogLineCount : Z; droppedReaperTelemetryEventsCount : Z
}.
Definition new_logger (file toConsole : bool) : Logger := mkLogger file toConsole false false false 0 0.

(** What reaches the sinks and the error output. *)
Inductive sink_write := ToFile (s : jsstr) | ToStdout (s : jsstr) | ToStderr (s : jsstr).

(** Which of the writes return, when they are made. *)
Record sinks := mkSinks { file_ok : bool; stdout_ok : bool; stderr_ok : bool }.

Definition fallback_record : jsstr :=
  let encode s := json_string (redact s) in
  js "{" ++ ([34%N] ++ js "event" ++ [34%N] ++ js ":" ++ encode (js "logger_sink_failure"))
    ++ js "," ++ ([34%N] ++ js "error" ++ [34%N] ++ js ":" ++ encode (js "logging sink failed")) ++ js "}".

Definition writeFallback (ok : bool) (l : Logger) : Logger * list sink_write :=
  if fallbackWritten l then (l, []) else
  (mkLogger (file l) (toConsole l) (streamDead l) (stdoutDead l) true (droppedLogLineCount l) (droppedReaperTelemetryEventsCount l),
   if ok then [ToStderr (fallback_record ++ [10%N])] else []).

Definition markDropped (ok : bool) (l : Logger) : Logger * list sink_write :=
  writeFallback ok (mkLogger (file l) (toConsole l) (streamDead l) (stdoutDead l) (fallbackWritten l)
    (droppedLogLineCount l + 1) (droppedReaperTelemetryEventsCount l)).

Definition stream_dies (l : Logger) : Logger :=
  mkLogger (file l) (toConsole l) true (stdoutDead l) (fallbackWritten l) (droppedLogLineCount l) (droppedReaperTelemetryEventsCount l).
Definition stdout_dies (l : Logger) : Logger :=
  mkLogger (file l) (toConsole l) (streamDead l) true (fallbackWritten l) (droppedLogLineCount l) (droppedReaperTelemetryEventsCount l).

(** A call of [log] under way: the logger, what was written, and [dropped]. *)
Record logging := mkLogging { lg_logger : Logger; lg_out : list sink_write; lg_dropped : bool }.

Definition markLineDropped (o : sinks) (s : logging) : logging :=
  if lg_dropped s then s else
  let '(l, out) := markDropped (stderr_ok o) (lg_logger s) in mkLogging l (lg_out s ++ out) true.

Definition write_stream (o : sinks) (line : jsstr) (s : logging) : logging :=
  if negb (file (lg_logger s)) then s
  else if streamDead (lg_logger s) then markLineDropped o s
  else if file_ok o then mkLogging (lg_logger s) (lg_out s ++ [ToFile (line ++ [10%N])]) (lg_dropped s)
  else markLineDropped o (mkLogging (stream_dies (lg_logger s)) (lg_out s) (lg_dropped s)).

Definition write_console (o : sinks) (line : jsstr) (s : logging) : logging :=
  if negb (toConsole (lg_logger s)) then s
  else if stdoutDead (lg_logger s) then markLineDropped o s
  else if stdout_ok o then mkLogging (lg_logger s) (lg_out s ++ [ToStdout (line ++ [10%N])]) (lg_dropped s)
  else markLineDropped o (mkLogging (stdout_dies (lg_logger s)) (lg_out s) (lg_dropped s)).

Definition Logger_log (entry : list (jsstr * jsval)) (ts : jsstr) (o : sinks) (l : Logger) : Logger * list sink_write :=
  let line := log_line entry ts in
  let s := write_console o line (write_stream o line (mkLogging l [] false)) in
  (lg_logger s, lg_out s).

(** [handleStreamError] and [handleStdoutError], called when a sink says error. *)
Definition handleStreamError (ok : bool) (l : Logger) : Logger * list sink_write :=
  if streamDead l then (l, []) else markDropped ok (stream_dies l).
Definition handleStdoutError (ok : bool) (l : Logger) : Logger * list sink_write :=
  if stdoutDead l then (l, []) else markDropped ok (stdout_dies l).

Definition noteReaperTelemetryDrop (l : Logger) : Logger :=
  mkLogger (file l) (toConsole l) (streamDead l) (stdoutDead l) (fallbackWritten l) (droppedLogLineCount l)
    (droppedReaperTelemetryEventsCount l + 1).

(** A logger over time, until it is closed. *)
Inductive log_event :=
  | Logged (entry : list (jsstr * jsval)) (ts : jsstr) (o : sinks)
  | StreamError (stderr_ok : bool)
  | StdoutError (stderr_ok : bool)
  | TelemetryDropped.

Definition logger_step (l : Logger) (e : log_event) : Logger * list sink_write :=
  match e with
  | Logged entry ts o => Logger_log entry ts o l
  | StreamError ok => handleStreamError ok l
  | StdoutError ok => handleStdoutError ok l
  | TelemetryDropped => (noteReaperTelemetryDrop l, [])
  end.
Definition logger_run (events : list log_event) (l : Logger) : Logger * list sink_write :=
  fold_left (fun s e => let '(l, out) := logger_step (fst s) e in (l, snd s ++ out)) events (l, []).

(** ** Facts of the log *)
Definition is_fallback (w : sink_write) : bool := match w with ToStderr _ => true | _ => false end.

(** The sinks a line is due to, and whether it reaches every one of them. *)
Definition reaches_file (o : sinks) (l : Logger) : bool := negb (streamDead l) && file_ok o.
Definition reaches_stdout (o : sinks) (l : Logger) : bool := negb (stdoutDead l) && stdout_ok o.
Definition reaches_all (o : sinks) (l : Logger) : bool :=
  (negb (file l) || reaches_file o l) && (negb (toConsole l) || reaches_stdout o l).

(** A call of [log] writes the line, whole and once, to each sink that takes it,
    and counts one lost line exactly when some sink does not: never two, and
    never more than one record of its own. *)
Theorem log_exact entry ts o l :
  let '(l', out) := Logger_log entry ts o l in
  let line := log_line entry ts ++ [10%N] in
  List.filter (fun w => negb (is_fallback w)) out =
    (if file l && reaches_file o l then [ToFile line] else []) ++
    (if toConsole l && reaches_stdout o l then [ToStdout line] else []) /\
  droppedLogLineCount l' = droppedLogLineCount l + (if reaches_all o l then 0 else 1) /\
  List.filter is_fallback out =
    (if negb (reaches_all o l) && negb (fallbackWritten l) && stderr_ok o then [ToStderr (fallback_record ++ [10%N])] else []) /\
  fallbackWritten l' = fallbackWritten l || negb (reaches_all o l).
Proof.
  destruct l as [f c sd od fb n t], o as [fo so eo].
  destruct f, c, sd, od, fb, fo, so, eo; cbn -[fallback_record log_line]; split_and!; (reflexivity || lia).
Qed.

(** A logger over any run: the lost lines are counted from the first, and the
    error output holds one record at most, and none while nothing was lost. *)
Definition logger_ok (l : Logger) (out : list sink_write) : Prop :=
  0 <= droppedLogLineCount l /\ (fallbackWritten l = true <-> 0 < droppedLogLineCount l) /\
  (fallbackWritten l = false -> List.filter is_fallback out = []) /\
  (length (List.filter is_fallback out) <= 1)%nat.

Lemma marked_ok ok l out : logger_ok l out -> let '(l', more) := markDropped ok l in logger_ok l' (out ++ more).
Proof.
  destruct l as [f c sd od fb n t]. unfold logger_ok, markDropped, writeFallback. cbn -[fallback_record]. intros (H0 & H1 & H2 & H3).
  destruct fb; cbn -[fallback_record]; rewrite ?app_nil_r; [split_and!; [lia | split; [lia | done] | done | done]|].
  rewrite List.filter_app, length_app, (H2 eq_refl). split_and!; [lia | split; [lia | done] | done | destruct ok; cbn -[fallback_record]; lia].
Qed.

Lemma logger_ok_more l out w : is_fallback w = false -> logger_ok l out -> logger_ok l (out ++ [w]).
Proof. intros Hw H. unfold logger_ok. rewrite List.filter_app. cbn. by rewrite Hw, app_nil_r. Qed.

Lemma line_dropped_ok o out s :
  logger_ok (lg_logger s) (out ++ lg_out s) ->
  let s' := markLineDropped o s in logger_ok (lg_logger s') (out ++ lg_out s').
Proof.
  intros H. unfold markLineDropped. destruct (lg_dropped s); [done|].
  pose proof (marked_ok (stderr_ok o) _ _ H) as Hm. destruct (markDropped _ _) as [l' more]. cbn. by rewrite app_assoc.
Qed.

Lemma logger_step_ok l out e : logger_ok l out -> let '(l', more) := logger_step l e in logger_ok l' (out ++ more).
Proof.
  intros H. destruct e as [entry ts o|ok|ok|]; cbn [logger_step].
  - unfold Logger_log. cbn zeta. set (line := log_line entry ts). set (s0 := mkLogging l [] false).
    assert (logger_ok (lg_logger (write_stream o line s0)) (out ++ lg_out (write_stream o line s0))) as H1.
    { unfold write_stream, s0. cbn [lg_logger lg_out]. destruct (negb (file l)); [by rewrite app_nil_r|].
      destruct (streamDead l); [by apply line_dropped_ok; rewrite app_nil_r|]. destruct (file_ok o).
      - by apply logger_ok_more.
      - apply line_dropped_ok. by rewrite app_nil_r. }
    generalize (write_stream o line s0), H1. clear. intros [l out1 d] H. unfold write_console. cbn [lg_logger lg_out] in *.
    destruct (negb (toConsole l)); [done|]. destruct (stdoutDead l); [by apply line_dropped_ok|].
    destruct (stdout_ok o); cbn [lg_logger lg_out]; [by rewrite app_assoc; apply logger_ok_more | by apply line_dropped_ok].
  - unfold handleStreamError. destruct (streamDead l); [by rewrite app_nil_r | by apply marked_ok].
  - unfold handleStdoutError. destruct (stdoutDead l); [by rewrite app_nil_r | by apply marked_ok].
  - by rewrite app_nil_r.
Qed.

Theorem fallback_once file toConsole events :
  let '(l, out) := logger_run events (new_logger file toConsole) in logger_ok l out.
Proof.
  unfold logger_run. assert (logger_ok (new_logger file toConsole) []) as H by (split_and!; cbn; [lia | split; [done | lia] | done | lia]).
  revert H. generalize (new_logger file toConsole), (@nil sink_write). induction events as [|e events IH]; intros l out H; [done|].
  cbn [fold_left fst snd]. pose proof (logger_step_ok l out e H). destruct (logger_step l e) as [l' more]. by apply IH.
Qed.

(** The text [error] of an entry is logged redacted; [detail], and every other
    field, as it is given. *)
Example detail_is_not_redacted :
  log_line [(js "operation", JStr (js "reap")); (js "error", JStr (js "token=abc")); (js "detail", JStr (js "token=abc"))] (js "T") =
  json_text (JObj [(js "operation", JStr (js "reap")); (js "error", JStr (js "token=REDACTED"));
    (js "detail", JStr (js "token=abc")); (js "ts", JStr (js "T"))]).
Proof. vm_compute. reflexivity. Qed.
End Log.
