(* ===== verification/GitOps.v ===== *)
(** * The git boundary (broker/src/gitops.ts)

    Ref names, the fixed argument vectors, the parsers of git's output, the
    glob matcher behind the protected-path check, and the divergence test.
    Running git is an external call, modelled in Effects.v. *)
From stdpp Require Import sorting.
From S2P Require Import Prelude JsVal Path Validation HostArgs.

Definition BASELINE_REF_PREFIX : jsstr := js "refs/opencode-sandbox/baseline".
Definition RESULT_REF_PREFIX : jsstr := js "refs/opencode-sandbox/result".

Definition baselineRef (sessionID : jsstr) : res jsstr :=
  _ ← assertRefComponent sessionID;
  Ok (BASELINE_REF_PREFIX ++ js "/" ++ sessionID).

Definition resultRef (sessionID : jsstr) : res jsstr :=
  _ ← assertRefComponent sessionID;
  Ok (RESULT_REF_PREFIX ++ js "/" ++ sessionID).

(** ** Argument vectors *)
Record GitPlan := mkGitPlan {
  plan_env : list (jsstr * jsstr);
  argvSteps : list (list jsstr)
}.

Definition argv (words : list string) : list jsstr := map js words.

Definition buildSnapshotPlan (gitDir tmpIndex sessionID author : jsstr) : res GitPlan :=
  ref ← baselineRef sessionID;
  Ok (mkGitPlan
    [(js "GIT_DIR", gitDir); (js "GIT_INDEX_FILE", tmpIndex)]
    [argv ["git"; "add"; "-A"; "--"];
     argv ["git"; "write-tree"];
     argv ["git"; "commit-tree"; "<TREE>"; "-p"; "HEAD"; "-m"]
       ++ [js "opencode-sandbox baseline for " ++ sessionID; js "--author=" ++ author];
     argv ["git"; "update-ref"] ++ [ref; js "<COMMIT>"];
     argv ["git"; "bundle"; "create"; "<BUNDLE>"] ++ [ref]]).

Definition buildResultImportPlan (gitDir bundlePath sessionID : jsstr) : res GitPlan :=
  ref ← resultRef sessionID;
  Ok (mkGitPlan [(js "GIT_DIR", gitDir)]
    [argv ["git"; "bundle"; "verify"] ++ [bundlePath];
     argv ["git"; "fetch"; "--no-tags"] ++ [bundlePath; js "+" ++ ref ++ js ":" ++ ref]]).

Definition buildChangedPathsArgv (baseline result : jsstr) : list jsstr :=
  argv ["git"; "diff"; "--name-only"; "--no-renames"; "-z"] ++ [baseline; result; js "--"; js "."].

Definition buildDiffArgv (baseline result : jsstr) : list (list jsstr) :=
  [argv ["git"; "diff"; "--stat"] ++ [baseline; result];
   argv ["git"; "diff"; "--raw"; "-z"] ++ [baseline; result];
   buildChangedPathsArgv baseline result].

Definition buildApplyArgv (baseline result patchFile : jsstr) : list (list jsstr) :=
  [argv ["git"; "diff"] ++ [baseline; result; js "--"; js "."; js ":(exclude).git"];
   argv ["git"; "apply"; "--check"; "--whitelist="] ++ [patchFile];
   argv ["git"; "apply"] ++ [patchFile]].

Definition buildCheckArgv (patchFile : jsstr) : res (list jsstr) :=
  _ ← throw_if (includes patchFile [0%N]) (invalid "patchFile must not contain NUL");
  Ok (argv ["git"; "apply"; "--check"] ++ [patchFile]).

Definition GIT_COMMIT_IDENTITY : list jsstr :=
  argv ["-c"; "user.name=opencode-sandbox"; "-c"; "user.email=sandbox@local"].

Definition buildGitCommitArgv (paths : list jsstr) (message : jsstr) : res (list (list jsstr)) :=
  _ ← assertGitCommitMessage (JStr message);
  _ ← assertGitPathList (JArr (map JStr paths));
  Ok [argv ["git"; "add"; "--"] ++ paths;
      argv ["git"] ++ GIT_COMMIT_IDENTITY ++ argv ["commit"; "-m"] ++ [message; js "--"] ++ paths].

Record GitPushArgvInput := {
  push_branch : option jsstr;
  push_upstream : option jsstr;
  push_ahead : jsnum;
  push_remote : jsstr;
  push_setUpstream : bool;
  push_allowProtectedBranch : bool
}.

Definition buildGitPushArgv (input : GitPushArgvInput) : res (list jsstr) :=
  match push_branch input with
  | None => Throw (invalid "cannot push: detached HEAD")
  | Some branch =>
      _ ← assertGitBranch (JStr branch);
      _ ← assertGitRemote (JStr (push_remote input));
      _ ← (match push_upstream input with Some u => assertGitBranch (JStr u) | None => Ok tt end);
      _ ← throw_if (negb (push_setUpstream input) && bool_decide (push_upstream input = None))
            (invalid "cannot push: no upstream without setUpstream");
      _ ← throw_if ((str_eqb branch (js "main") || str_eqb branch (js "master"))
                    && negb (push_allowProtectedBranch input))
            (invalid_ [js "refusing direct push to protected branch '"; branch;
                       js "' without allowProtectedBranch"]);
      _ ← throw_if (match push_ahead input with NumInt z => z <? 0 | _ => true end)
            (invalid "ahead count must be a non-negative integer");
      Ok (argv ["git"; "push"]
          ++ (if push_setUpstream input then [js "--set-upstream"] else [])
          ++ [push_remote input; branch])
  end.

Definition buildGhIssueCreateArgv (repo title body : jsstr) : res (list jsstr) :=
  _ ← assertGhRepo (JStr repo);
  _ ← assertGhTitle (JStr title);
  _ ← assertGhBody (JStr body);
  Ok (argv ["gh"; "issue"; "create"; "--repo"] ++ [repo; js "--title"; title; js "--body"; body]).

(** ** Paths under the state directory *)
Definition patchPathFor (stateDir sessionID : jsstr) : jsstr :=
  join [stateDir; js "patches"; sessionID ++ js ".patch"].
Definition applyPreviewPathFor (stateDir sessionID : jsstr) : jsstr :=
  join [stateDir; js "apply-preview"; sessionID ++ js ".diff"].
Definition applyPreviewAnsiPathFor (stateDir sessionID : jsstr) : jsstr :=
  join [stateDir; js "apply-preview"; sessionID ++ js ".ansi.diff"].
Definition bundlePathFor (stateDir sessionID : jsstr) : jsstr :=
  join [stateDir; js "bundles"; sessionID ++ js ".bundle"].

(** ** Parsers of git's output *)
Record NulDelimitedPaths := mkNulPaths { np_paths : list jsstr; np_complete : bool }.

Definition parseNulDelimitedPaths (output : jsstr) : NulDelimitedPaths :=
  if js_length output =? 0 then mkNulPaths [] true else
  if negb (endsWith output [0%N]) then mkNulPaths [] false else
  let paths := split_on 0 (take (length output - 1) output) in
  if existsb (fun p => js_length p =? 0) paths then mkNulPaths [] false
  else mkNulPaths paths true.

Inductive ChangeKind := added | modified | deleted | symlink | submodule | mode.

#[export] Instance ChangeKind_eq_dec : EqDecision ChangeKind.
Proof. solve_decision. Defined.

Record FileChange := mkFileChange {
  fc_path : jsstr; fc_kind : ChangeKind; fc_oldMode : jsstr; fc_newMode : jsstr
}.

(** Line terminators, which the regular expression's [.] does not match. *)
Definition is_line_term (c : N) : bool := ((c =? 10) || (c =? 13) || (c =? 8232) || (c =? 8233))%N.

(** [RAW_DIFF_RE]: [:mode mode oid oid S<score> TAB path]. *)
Definition raw_diff_match (line : jsstr) : option (jsstr * jsstr * N * jsstr) :=
  match line with
  | 58%N :: rest =>
      match cut_at 9 rest with
      | None => None
      | Some (meta, path) =>
          match split_on 32 meta with
          | [oldMode; newMode; oid1; oid2; status :: score] =>
              if re_class is_digit 6 6 oldMode && re_class is_digit 6 6 newMode
                 && negb (bool_decide (oid1 = [])) && forallb is_hex_lower oid1
                 && negb (bool_decide (oid2 = [])) && forallb is_hex_lower oid2
                 && one_of "ACDMRTUX" status && re_class is_digit 0 3 score
                 && negb (bool_decide (path = [])) && forallb (fun c => negb (is_line_term c)) path
              then Some (oldMode, newMode, status, path) else None
          | _ => None
          end
      end
  | _ => None
  end.

Definition classify_change (m : jsstr * jsstr * N * jsstr) : FileChange :=
  let '(oldMode, newMode, status, path) := m in
  let either w := str_eqb oldMode (js w) || str_eqb newMode (js w) in
  let kind :=
    if either "120000"%string then symlink
    else if either "160000"%string then submodule
    else if (status =? 65)%N then added
    else if (status =? 68)%N then deleted
    else if (status =? 77)%N && negb (str_eqb oldMode newMode) then mode
    else modified in
  mkFileChange path kind oldMode newMode.

Definition classifyRawDiff (lines : list jsstr) : list FileChange :=
  omap (fun raw => classify_change <$> raw_diff_match raw) lines.

(** ** Protected-path globs

    [globToRegex] builds a regular expression out of five pieces; a pattern is
    kept as the list of its pieces and [rmatch] is the anchored match. *)
Inductive glob_piece :=
  | GAnySegments     (* (?:.*/)? *)
  | GAll             (* .* *)
  | GStar            (* [^/]* *)
  | GOne             (* [^/] *)
  | GLit (c : N).

Fixpoint globToRegex (pattern : jsstr) : list glob_piece :=
  match pattern with
  | 42%N :: 42%N :: 47%N :: p => GAnySegments :: globToRegex p
  | 42%N :: 42%N :: p => GAll :: globToRegex p
  | 42%N :: p => GStar :: globToRegex p
  | 63%N :: p => GOne :: globToRegex p
  | c :: p => GLit c :: globToRegex p
  | [] => []
  end.

(** [x*] followed by [k], for a one-unit [x]. *)
Fixpoint many (x : N -> bool) (k : jsstr -> bool) (s : jsstr) : bool :=
  k s || match s with d :: s' => x d && many x k s' | [] => false end.

Definition dot (c : N) : bool := negb (is_line_term c).
Definition not_slash (c : N) : bool := negb (c =? SLASH)%N.

Fixpoint rmatch (re : list glob_piece) (s : jsstr) : bool :=
  match re with
  | [] => match s with [] => true | _ => false end
  | GLit c :: re' => match s with d :: s' => (c =? d)%N && rmatch re' s' | [] => false end
  | GOne :: re' => match s with d :: s' => not_slash d && rmatch re' s' | [] => false end
  | GStar :: re' => many not_slash (rmatch re') s
  | GAll :: re' => many dot (rmatch re') s
  | GAnySegments :: re' =>
      rmatch re' s ||
      many dot (fun t => match t with d :: t' => (d =? SLASH)%N && rmatch re' t' | [] => false end) s
  end.

Definition globMatch (pattern path : jsstr) : bool := rmatch (globToRegex pattern) path.

Definition checkProtectedPaths (changed protectedPatterns : list jsstr) : list jsstr :=
  List.filter (fun path => existsb (fun pattern => globMatch pattern path) protectedPatterns) changed.

(** ** Divergence *)
Abbreviation TreeEntries := (gmap jsstr jsstr).

(** Entries of [git ls-tree]/[git ls-files -s]: the oid is the [k]-th word
    before the TAB; a line with fewer than [k+1] words is skipped. *)
Definition parse_tree_line (k : nat) (m : TreeEntries) (line : jsstr) : TreeEntries :=
  match cut_at 9 line with
  | None => m
  | Some (meta, path) =>
      match split_on 32 meta !! k with
      | Some oid => <[path := oid]> m
      | None => m
      end
  end.

Definition parseLsTreeLines (lines : list jsstr) : TreeEntries :=
  fold_left (parse_tree_line 2) lines ∅.
Definition parseLsFilesLines (lines : list jsstr) : TreeEntries :=
  fold_left (parse_tree_line 1) lines ∅.

(** The order of [Array.prototype.sort] on strings: by code units. *)
Fixpoint str_leb (a b : jsstr) : bool :=
  match a, b with
  | [], _ => true
  | _ :: _, [] => false
  | c :: a', d :: b' => (c <? d)%N || ((c =? d)%N && str_leb a' b')
  end.
Definition str_le (a b : jsstr) : Prop := str_leb a b = true.
#[export] Instance str_le_dec : RelDecision str_le := fun a b => decide (str_leb a b = true).

Definition oid_of (m : TreeEntries) (path : jsstr) : jsstr := default [] (m !! path).

Definition computeDivergence (baseline current : TreeEntries) : list jsstr :=
  merge_sort str_le
    (List.filter (fun path => negb (str_eqb (oid_of baseline path) (oid_of current path)))
       (elements (dom baseline ∪ dom current))).

(** ** Review colours *)
Definition ansi (code : string) (line : jsstr) : jsstr :=
  [27%N] ++ js "[" ++ js code ++ js "m" ++ line ++ [27%N] ++ js "[0m".

Definition colorise_line (line : jsstr) : jsstr :=
  if startsWith line (js "diff --git") || startsWith line (js "---") || startsWith line (js "+++")
  then ansi "1" line
  else if startsWith line (js "@@") then ansi "36" line
  else if startsWith line (js "+") then ansi "32" line
  else if startsWith line (js "-") then ansi "31" line
  else line.

Definition coloriseDiff (diff : jsstr) : jsstr :=
  join_with [10%N] (map colorise_line (split_on 10 diff)).

(** ** Lemmas *)
Lemma str_leb_total a b : str_leb a b = true \/ str_leb b a = true.
Proof.
  revert b; induction a as [|c a IH]; intros [|d b]; cbn; auto.
  rewrite !orb_true_iff, !andb_true_iff, !N.ltb_lt, !N.eqb_eq.
  destruct (N.lt_trichotomy c d) as [?|[->|?]]; [tauto | | tauto].
  destruct (IH b); tauto.
Qed.

Lemma str_leb_trans a b c : str_leb a b = true -> str_leb b c = true -> str_leb a c = true.
Proof.
  revert b c; induction a as [|x a IH]; intros [|y b] [|z c]; cbn; auto; try done.
  rewrite !orb_true_iff, !andb_true_iff, !N.ltb_lt, !N.eqb_eq.
  intros [?|[-> ?]] [?|[-> ?]]; [left; lia | by left | by left | right; eauto].
Qed.

#[export] Instance str_le_total : Total str_le.
Proof. intros a b. apply str_leb_total. Qed.
#[export] Instance str_le_trans : Transitive str_le.
Proof. intros a b c. apply str_leb_trans. Qed.

Lemma dom_oid (m : TreeEntries) p : p ∉ dom m -> oid_of m p = [].
Proof. intros Hp. unfold oid_of. by rewrite (proj1 (not_elem_of_dom m p) Hp). Qed.

Lemma elem_of_filter_true {A} (f : A -> bool) l x :
  x ∈ List.filter f l <-> x ∈ l /\ f x = true.
Proof. by rewrite list_elem_of_In, filter_In, <- list_elem_of_In. Qed.

Definition literal (p : jsstr) : bool := forallb (fun c => negb (one_of "*?" c)) p.

Lemma globToRegex_literal p q :
  literal p = true -> globToRegex (p ++ q) = map GLit p ++ globToRegex q.
Proof.
  induction p as [|c p IH]; [done|]. cbn [literal forallb app map]. fold (literal p).
  intros [Hc Hp]%andb_true_iff. rewrite <- IH by done.
  assert (c <> 42%N /\ c <> 63%N) as [H1 H2].
  { unfold one_of in Hc. apply negb_true_iff, bool_decide_eq_false in Hc.
    split; intros ->; apply Hc; vm_compute; repeat constructor. }
  destruct c as [|c]; [done|].
  do 6 (destruct c as [c|c|]; try done).
Qed.

Lemma rmatch_literal p re s :
  rmatch (map GLit p ++ re) s = true <-> exists t, s = p ++ t /\ rmatch re t = true.
Proof.
  revert s; induction p as [|c p IH]; intros s; cbn [map app rmatch].
  - naive_solver.
  - destruct s as [|d s]; [naive_solver|]. rewrite andb_true_iff, N.eqb_eq, IH. naive_solver.
Qed.

Lemma many_all x s : many x (fun t => match t with [] => true | _ => false end) s = forallb x s.
Proof. induction s as [|d s IH]; cbn; [done|]. by rewrite IH. Qed.

Lemma split_on_none c a : c ∉ a -> split_on c a = [a].
Proof.
  induction a as [|d a IH]; cbn; [done|]. intros [? Ha]%not_elem_of_cons.
  destruct (N.eqb_spec c d); [done|]. by rewrite IH.
Qed.

Lemma split_on_cons_sep c a b :
  c ∉ a -> split_on c (a ++ c :: b) = a :: split_on c b.
Proof. intros Ha. by rewrite split_on_app, split_on_none. Qed.

(** The [-z] output for a list of paths. *)
Definition nul_output (paths : list jsstr) : jsstr := concat (map (fun p => p ++ [0%N]) paths).

Lemma nul_output_join p ps : nul_output (p :: ps) = join_with [0%N] (p :: ps) ++ [0%N].
Proof.
  revert p; induction ps as [|q ps IH]; intros p; [apply app_nil_r|].
  change (nul_output (p :: q :: ps)) with ((p ++ [0%N]) ++ nul_output (q :: ps)).
  rewrite IH, (join_with_cons _ p) by done. by rewrite <- !app_assoc.
Qed.

Lemma split_on_join c p ps :
  Forall (fun w => c ∉ w) (p :: ps) -> split_on c (join_with [c] (p :: ps)) = p :: ps.
Proof.
  revert p; induction ps as [|q ps IH]; intros p [Hp Hps]%Forall_cons.
  - by apply split_on_none.
  - rewrite join_with_cons by done. cbn [app]. rewrite split_on_cons_sep by done. by rewrite IH.
Qed.

Lemma take_snoc {A} (l : list A) x : take (length (l ++ [x]) - 1) (l ++ [x]) = l.
Proof.
  rewrite length_app. cbn. replace (length l + 1 - 1)%nat with (length l) by lia.
  by rewrite take_app_length.
Qed.

Lemma endsWith_snoc s c : endsWith s [c] = true <-> exists t, s = t ++ [c].
Proof.
  unfold endsWith. rewrite startsWith_spec. cbn. split.
  - intros [t Ht]. exists (rev t). apply (f_equal (@rev _)) in Ht.
    by rewrite rev_involutive in Ht.
  - intros [t ->]. exists (rev t). by rewrite rev_app_distr.
Qed.

(** A word that git reads neither as a flag nor as a refspec. *)
Definition plain_word (w : jsstr) : Prop :=
  startsWith w (js "-") = false /\ startsWith w (js "+") = false /\ ch ":" ∉ w.

Lemma plain_word_class first rest w :
  one_of first 45 = false -> one_of first 43 = false -> one_of first 58 = false ->
  one_of rest 58 = false ->
  match w with
  | [] => false
  | c :: s' => (is_alnum c || one_of first c) &&
               re_class (fun c => is_alnum c || one_of rest c) 0 254 s'
  end = true -> plain_word w.
Proof.
  intros H1 H2 H3 H4. destruct w as [|c w]; [done|].
  intros [Hc [_ Hw]%re_class_true]%andb_true_iff.
  unfold plain_word.
  change (js "-") with [45%N]. change (js "+") with [43%N]. change (ch ":") with 58%N.
  assert (c <> 45%N /\ c <> 43%N /\ c <> 58%N) as (? & ? & ?).
  { split_and!; intros ->; cbn in Hc; congruence. }
  cbn [startsWith]. destruct (N.eqb_spec 45 c), (N.eqb_spec 43 c); try congruence.
  split; [done|]. split; [done|]. apply not_elem_of_cons. split; [done|].
  intros Hin. rewrite Forall_forall in Hw. apply Hw in Hin. cbn in Hin. congruence.
Qed.

(** ** Properties *)

(** The divergence test reports a path exactly when its object id differs
    between the baseline tree and the host tree (a missing path counting as
    the empty id), in sorted order; so an empty report means the two trees
    agree on every path. *)
Theorem computeDivergence_exact baseline current :
  (forall path, path ∈ computeDivergence baseline current <->
     oid_of baseline path <> oid_of current path) /\
  StronglySorted str_le (computeDivergence baseline current) /\
  (computeDivergence baseline current = [] <->
     forall path, oid_of baseline path = oid_of current path).
Proof.
  assert (forall path, path ∈ computeDivergence baseline current <->
     oid_of baseline path <> oid_of current path) as Hin.
  { intros path. unfold computeDivergence. rewrite merge_sort_Permutation, elem_of_filter_true,
      elem_of_elements, elem_of_union, negb_true_iff, str_eqb_neq.
    split; [tauto|]. intros Hne. split; [|done].
    destruct (decide (path ∈ dom baseline)); [by left|].
    destruct (decide (path ∈ dom current)); [by right|].
    by rewrite !dom_oid in Hne. }
  split; [done|]. split; [apply (StronglySorted_merge_sort str_le)|].
  split.
  - intros Hnil path. destruct (decide (oid_of baseline path = oid_of current path)) as [|Hne]; [done|].
    apply Hin in Hne. rewrite Hnil in Hne. by apply elem_of_nil in Hne.
  - intros Heq. destruct (computeDivergence baseline current) as [|p l] eqn:E; [done|].
    destruct (proj1 (Hin p)); [rewrite ?E; apply list_elem_of_here | done].
Qed.

(** A pattern [dir/**] without wildcards in [dir] rejects exactly the paths
    below [dir] whose remainder has no line terminator; a path with a newline
    in it escapes the pattern. *)
Theorem protect_tree_exact dir path :
  literal dir = true ->
  globMatch (dir ++ js "/**") path = true <->
  exists rest, path = dir ++ js "/" ++ rest /\ forallb dot rest = true.
Proof.
  intros Hlit. unfold globMatch. rewrite globToRegex_literal by done.
  rewrite rmatch_literal. split.
  - intros (t & -> & Ht). destruct t as [|d t]; [done|].
    change (rmatch (globToRegex (js "/**")) (d :: t))
      with ((47 =? d)%N && many dot (rmatch []) t) in Ht.
    apply andb_true_iff in Ht as [<-%N.eqb_eq Ht]. exists t. split; [done|].
    by rewrite <- many_all.
  - intros (rest & -> & Hrest). exists (js "/" ++ rest). split; [done|].
    change (many dot (rmatch []) rest = true). by rewrite <- many_all in Hrest.
Qed.

Lemma protect_tree_exact_witness :
  literal (js "odd/tasks") = true /\
  globMatch (js "odd/tasks" ++ js "/**") (js "odd/tasks/a.md") = true /\
  globMatch (js "odd/tasks" ++ js "/**") (js "odd/tasks/a" ++ [10%N] ++ js ".md") = false.
Proof.
  assert (literal (js "odd/tasks") = true) as H by reflexivity.
  split; [exact H|]. split.
  - apply (proj2 (protect_tree_exact (js "odd/tasks") (js "odd/tasks/a.md") H)).
    exists (js "a.md"). split; reflexivity.
  - reflexivity.
Defined.

(** Parsing the NUL-delimited output of git gives back the paths it was
    written for, complete; and whenever the parse is complete, the output was
    the NUL-terminated concatenation of the returned paths, none of them empty
    or containing a NUL. *)
Theorem parseNulDelimitedPaths_roundtrip :
  (forall paths, Forall (fun p => p <> [] /\ 0%N ∉ p) paths ->
     parseNulDelimitedPaths (nul_output paths) = mkNulPaths paths true) /\
  (forall output paths, parseNulDelimitedPaths output = mkNulPaths paths true ->
     output = nul_output paths /\ Forall (fun p => p <> [] /\ 0%N ∉ p) paths).
Proof.
  split.
  - intros [|p ps] Hall; [done|]. rewrite nul_output_join. unfold parseNulDelimitedPaths.
    set (body := join_with [0%N] (p :: ps)).
    assert ((js_length (body ++ [0%N]) =? 0) = false) as ->.
    { apply Z.eqb_neq. unfold js_length. rewrite length_app. cbn. lia. }
    assert (endsWith (body ++ [0%N]) [0%N] = true) as -> by (apply endsWith_snoc; eauto).
    cbn [negb]. rewrite take_snoc. subst body.
    rewrite split_on_join by (eapply Forall_impl; [exact Hall | naive_solver]).
    destruct (existsb _ (p :: ps)) eqn:E; [|done].
    apply existsb_exists in E as (w & Hw%list_elem_of_In & Hz).
    rewrite Forall_forall in Hall. destruct (Hall _ Hw) as [Hne _]. by destruct w.
  - intros output paths. unfold parseNulDelimitedPaths.
    destruct (js_length output =? 0) eqn:E0.
    { intros [= <-]. destruct output; [|done]. split; [done | constructor]. }
    destruct (endsWith output [0%N]) eqn:E1; [|done]. cbn [negb].
    apply endsWith_snoc in E1 as [t ->]. rewrite take_snoc.
    destruct (existsb _ (split_on 0 t)) eqn:E; [done|]. intros [= <-].
    split.
    + destruct (split_on 0 t) as [|p ps] eqn:Es; [by apply split_on_nonempty in Es|].
      by rewrite nul_output_join, <- Es, join_split.
    + apply Forall_forall. intros w Hw. split; [|by eapply split_on_no_sep].
      intros ->. assert (existsb (fun p => js_length p =? 0) (split_on 0 t) = true) as Ht
        by (apply existsb_exists; exists []; by rewrite <- list_elem_of_In).
      congruence.
Qed.

Lemma parseNulDelimitedPaths_roundtrip_witness :
  Forall (fun p => p <> [] /\ 0%N ∉ p) [js "a b"; js "src/x.ts"] /\
  parseNulDelimitedPaths (nul_output [js "a b"; js "src/x.ts"])
    = mkNulPaths [js "a b"; js "src/x.ts"] true.
Proof.
  assert (Forall (fun p => p <> [] /\ 0%N ∉ p) [js "a b"; js "src/x.ts"]) as H.
  { repeat constructor; try discriminate; apply (bool_decide_unpack _); vm_compute; exact I. }
  split; [exact H|]. exact (proj1 parseNulDelimitedPaths_roundtrip _ H).
Defined.

(** A push vector is always [git push], an optional [--set-upstream], the
    remote and the branch; neither of them starts with a dash or a plus or
    contains a colon, so no force, delete or refspec syntax can be smuggled
    in; and [main] or [master] are pushed only when explicitly allowed. *)
Theorem push_argv_is_plain input out :
  buildGitPushArgv input = Ok out ->
  exists branch, push_branch input = Some branch /\
    out = [js "git"; js "push"] ++ (if push_setUpstream input then [js "--set-upstream"] else [])
          ++ [push_remote input; branch] /\
    Forall plain_word [push_remote input; branch] /\
    (branch = js "main" \/ branch = js "master" -> push_allowProtectedBranch input = true) /\
    (push_upstream input = None -> push_setUpstream input = true).
Proof.
  unfold buildGitPushArgv. destruct (push_branch input) as [branch|]; [|done]. accepted.
  unfold assertGitBranch, assertGitRemote. accepted.
  intros (Hb & Hr & _ & Hup & Hprot & _ & [= <-]). exists branch.
  split; [done|]. split; [done|]. split; [|split].
  - apply andb_true_iff in Hb as [_ Hb]. apply andb_true_iff in Hr as [_ Hr].
    apply Forall_cons. split; [|apply Forall_singleton];
      (eapply plain_word_class; [| | | | eassumption]); reflexivity.
  - intros Hm. apply andb_false_iff in Hprot as [Hp|Hp]; [|by apply negb_false_iff in Hp].
    apply orb_false_iff in Hp as [H1 H2]. rewrite str_eqb_neq in H1, H2. tauto.
  - intros Hn. apply andb_false_iff in Hup as [Hp|Hp]; [by apply negb_false_iff in Hp|].
    by apply bool_decide_eq_false in Hp.
Qed.

Definition sample_push : GitPushArgvInput :=
  {| push_branch := Some (js "feature/x"); push_upstream := None; push_ahead := NumInt 1;
     push_remote := js "origin"; push_setUpstream := true; push_allowProtectedBranch := false |}.

Lemma push_argv_is_plain_witness :
  buildGitPushArgv sample_push = Ok (map js ["git"; "push"; "--set-upstream"; "origin"; "feature/x"]%string) /\
  exists branch, Some (js "feature/x") = Some branch /\
    map js ["git"; "push"; "--set-upstream"; "origin"; "feature/x"]%string =
      [js "git"; js "push"] ++ [js "--set-upstream"] ++ [js "origin"; branch] /\
    Forall plain_word [js "origin"; branch] /\
    (branch = js "main" \/ branch = js "master" -> false = true) /\
    (@None jsstr = None -> true = true).
Proof.
  assert (buildGitPushArgv sample_push =
    Ok (map js ["git"; "push"; "--set-upstream"; "origin"; "feature/x"]%string)) as H
    by (vm_compute; reflexivity).
  split; [exact H|]. exact (push_argv_is_plain sample_push _ H).
Defined.
