(* ===== verification/Queue.v ===== *)
(** * The pending queue (broker/src/queue.ts)

    The FIFO of ensureWorker requests parked while the pool is exhausted.
    Every method is synchronous; a promise's settlement is an entry of
    [settled], oldest first. *)
From S2P Require Import Prelude JsVal Types.

Record QueuedEntry := mkEntry {
  qe_sessionID : jsstr;
  qe_request : BrokerRequestEnvelope;
  qe_projectID : jsstr;
  qe_position : Z
}.

Record PendingQueue := mkQueue {
  entries : list QueuedEntry;
  inFlight : Z;
  settled : list (QueuedEntry * res jsval)
}.

Definition empty_queue : PendingQueue := mkQueue [] 0 [].

Definition has_session (sid : jsstr) (e : QueuedEntry) : bool := str_eqb (qe_sessionID e) sid.

Module PQ.

Definition length (q : PendingQueue) : Z := Z.of_nat (List.length (entries q)).

(** The entry gets its one-based position and goes to the back. *)
Definition enqueue (e : QueuedEntry) (q : PendingQueue) : QueuedEntry * PendingQueue :=
  let e' := mkEntry (qe_sessionID e) (qe_request e) (qe_projectID e) (length q + 1) in
  (e', mkQueue (entries q ++ [e']) (inFlight q) (settled q)).

Definition find (q : PendingQueue) (sid : jsstr) : option QueuedEntry :=
  List.find (has_session sid) (entries q).

Definition head (q : PendingQueue) : option QueuedEntry := List.head (entries q).

(** [splice(findIndex(...), 1)] *)
Fixpoint remove_first (sid : jsstr) (l : list QueuedEntry) : option QueuedEntry * list QueuedEntry :=
  match l with
  | [] => (None, [])
  | e :: l' =>
      if has_session sid e then (Some e, l')
      else let '(r, l'') := remove_first sid l' in (r, e :: l'')
  end.

Definition remove (sid : jsstr) (q : PendingQueue) : option QueuedEntry * PendingQueue :=
  let '(r, l) := remove_first sid (entries q) in (r, mkQueue l (inFlight q) (settled q)).

(** [entry.resolve(v)] or [entry.reject(e)] *)
Definition settle (e : QueuedEntry) (r : res jsval) (q : PendingQueue) : PendingQueue :=
  mkQueue (entries q) (inFlight q) (settled q ++ [(e, r)]).

Definition cancel (sid : jsstr) (message : jsstr) (q : PendingQueue)
    : option QueuedEntry * PendingQueue :=
  match remove sid q with
  | (None, q') => (None, q')
  | (Some e, q') => (Some e, settle e (Throw (policy_error message)) q')
  end.

Definition set_inFlight (n : Z) (q : PendingQueue) : PendingQueue :=
  mkQueue (entries q) n (settled q).

End PQ.

(** ** Invariant and lemmas *)

(** One entry per session. *)
Definition queue_wf (q : PendingQueue) : Prop := NoDup (map qe_sessionID (entries q)).

Lemma find_None q sid : PQ.find q sid = None <-> sid ∉ map qe_sessionID (entries q).
Proof.
  unfold PQ.find. induction (entries q) as [|e l IH]; cbn.
  - split; [intros _; apply not_elem_of_nil | done].
  - rewrite not_elem_of_cons, <- IH. unfold has_session at 1.
    destruct (str_eqb (qe_sessionID e) sid) eqn:E.
    + apply str_eqb_eq in E. split; [done|]. intros [Hne _]. by destruct Hne.
    + apply str_eqb_neq in E. split; [intros ?; split; congruence | tauto].
Qed.

Definition others (sid : jsstr) (l : list QueuedEntry) : list QueuedEntry :=
  List.filter (fun x => negb (has_session sid x)) l.

Lemma has_session_refl e : has_session (qe_sessionID e) e = true.
Proof. by apply str_eqb_eq. Qed.

Lemma others_absent sid l : sid ∉ map qe_sessionID l -> others sid l = l.
Proof.
  induction l as [|y l IH]; [done|]. intros [Hy Hl]%not_elem_of_cons. cbn.
  unfold has_session at 1. rewrite (proj2 (str_eqb_neq _ _)) by congruence.
  cbn. unfold others in IH. by rewrite IH.
Qed.

Lemma others_no_session sid l : sid ∉ map qe_sessionID (others sid l).
Proof.
  intros (y & -> & [_ Hy]%list_elem_of_In%filter_In)%list_elem_of_fmap.
  by rewrite has_session_refl in Hy.
Qed.

Lemma others_NoDup sid l :
  NoDup (map qe_sessionID l) -> NoDup (map qe_sessionID (others sid l)).
Proof.
  induction l as [|x l IH]; [done|]. cbn. intros [Hx Hl]%NoDup_cons.
  destruct (has_session sid x); cbn; [auto|]. apply NoDup_cons. split; [|auto].
  intros (y & Heq & [Hy _]%list_elem_of_In%filter_In)%list_elem_of_fmap. apply Hx.
  rewrite Heq. apply list_elem_of_fmap_2. by apply list_elem_of_In.
Qed.

Lemma remove_first_eq sid l :
  NoDup (map qe_sessionID l) ->
  PQ.remove_first sid l = (List.find (has_session sid) l, others sid l).
Proof.
  induction l as [|x l IH]; [done|]. cbn [map]. intros [Hx Hl]%NoDup_cons.
  change (others sid (x :: l)) with
    (if negb (has_session sid x) then x :: others sid l else others sid l).
  cbn [PQ.remove_first List.find]. destruct (has_session sid x) eqn:E; cbn [negb].
  - apply str_eqb_eq in E as <-. by rewrite others_absent.
  - by rewrite IH.
Qed.

Lemma remove_head e l i s :
  PQ.remove (qe_sessionID e) (mkQueue (e :: l) i s) = (Some e, mkQueue l i s).
Proof.
  unfold PQ.remove. cbn. unfold has_session.
  by rewrite (proj2 (str_eqb_eq _ _) eq_refl).
Qed.

(** ** Properties *)

(** The queue stays a first-in first-out line with one entry per session:
    enqueuing a session that is not parked keeps the invariant and puts it
    behind everyone, at the position it is told; removing or cancelling a
    session takes out exactly its entry, keeps the others in order, and after
    it the session is not parked; a cancelled entry is rejected exactly once. *)
Theorem queue_fifo q e sid msg :
  queue_wf q ->
  (PQ.find q (qe_sessionID e) = None ->
     queue_wf (snd (PQ.enqueue e q)) /\
     map qe_sessionID (entries (snd (PQ.enqueue e q))) =
       map qe_sessionID (entries q) ++ [qe_sessionID e] /\
     qe_position (fst (PQ.enqueue e q)) = PQ.length (snd (PQ.enqueue e q))) /\
  (queue_wf (snd (PQ.remove sid q)) /\ PQ.find (snd (PQ.remove sid q)) sid = None /\
   entries (snd (PQ.remove sid q)) = others sid (entries q)) /\
  (entries (snd (PQ.cancel sid msg q)) = entries (snd (PQ.remove sid q)) /\
   settled (snd (PQ.cancel sid msg q)) =
     settled q ++ match PQ.find q sid with
                  | Some x => [(x, Throw (policy_error msg))]
                  | None => []
                  end).
Proof.
  intros Hwf. destruct q as [l i s]. unfold queue_wf in *. cbn [entries] in *.
  unfold PQ.cancel, PQ.remove, PQ.find. cbn [entries]. rewrite remove_first_eq by done.
  split; [|split].
  - intros Hnone. apply (find_None (mkQueue l i s)) in Hnone. cbn in *.
    rewrite map_app. split_and!; [|done|].
    + apply NoDup_app. split; [done|]. split; [|apply NoDup_singleton].
      intros x Hx Heq. apply list_elem_of_singleton in Heq as ->. done.
    + unfold PQ.length. cbn. rewrite length_app. cbn. lia.
  - cbn. split_and!; [by apply others_NoDup | |done].
    apply (find_None (mkQueue (others sid l) i s)). apply others_no_session.
  - destruct (List.find _ l) as [x|]; cbn; [done|]. by rewrite app_nil_r.
Qed.

Definition sample_entry (sid : string) : QueuedEntry :=
  mkEntry (js sid) {| req_id := js "r"; req_operation := Op.ensureWorker; req_sessionID := js sid;
                      req_agent := None; req_payload := JUndef |} (js "p") 0.

Lemma queue_fifo_witness :
  queue_wf (mkQueue [sample_entry "a"; sample_entry "b"] 0 []) /\
  entries (snd (PQ.remove (js "a") (mkQueue [sample_entry "a"; sample_entry "b"] 0 [])))
    = [sample_entry "b"].
Proof.
  assert (queue_wf (mkQueue [sample_entry "a"; sample_entry "b"] 0 [])) as H
    by (apply (bool_decide_unpack _); vm_compute; exact I).
  split; [exact H|].
  destruct (queue_fifo _ (sample_entry "c") (js "a") (js "m") H) as (_ & (_ & _ & Heq) & _).
  rewrite Heq. vm_compute. reflexivity.
Defined.
