(* ===== verification/Artifacts.v ===== *)
(** * State-dir artifacts and copy review (broker/src/artifacts.ts, copy-review.ts)

    The artifact paths of a session, the rule that decides when they may be
    removed, the enumeration of orphan files, and the line limit of copy-out
    review.  Reading and unlinking files are external calls (Effects.v). *)
From S2P Require Import Prelude JsVal Path Types Validation GitOps.

Inductive ArtifactKind :=
  | K_bundle | K_tmp_index | K_divergence_index | K_patch | K_apply_preview | K_apply_preview_ansi.

#[export] Instance ArtifactKind_eq_dec : EqDecision ArtifactKind.
Proof. solve_decision. Defined.

Definition kind_name (k : ArtifactKind) : jsstr :=
  js match k with
     | K_bundle => "bundle" | K_tmp_index => "tmp_index" | K_divergence_index => "divergence_index"
     | K_patch => "patch" | K_apply_preview => "apply_preview"
     | K_apply_preview_ansi => "apply_preview_ansi"
     end.

Record ArtifactPath := mkArtifact { ap_kind : ArtifactKind; ap_path : jsstr }.

Definition tmpIndexPathFor (stateDir sessionID : jsstr) : jsstr :=
  join [stateDir; js "tmp"; sessionID ++ js ".index"].
Definition divergenceIndexPathFor (stateDir sessionID : jsstr) : jsstr :=
  join [stateDir; js "tmp"; js "divergence-" ++ sessionID ++ js ".index"].

Definition sessionArtifactPaths (stateDir sessionID : jsstr) : list ArtifactPath :=
  [mkArtifact K_bundle (bundlePathFor stateDir sessionID);
   mkArtifact K_tmp_index (tmpIndexPathFor stateDir sessionID);
   mkArtifact K_divergence_index (divergenceIndexPathFor stateDir sessionID);
   mkArtifact K_patch (patchPathFor stateDir sessionID);
   mkArtifact K_apply_preview (applyPreviewPathFor stateDir sessionID);
   mkArtifact K_apply_preview_ansi (applyPreviewAnsiPathFor stateDir sessionID)].

Record ArtifactRemoval := mkRemoval {
  ar_artifact : ArtifactPath; ar_bytes : Z; ar_removed : bool; ar_error : option jsstr
}.

(** ** The durability rule *)
Definition removalNeedsDurableRef (record : SessionRecord) (bundleExists : bool) : bool :=
  match state record with
  | REJECTED => false
  | FAILED_CLOSED => negb (bool_decide (Types.resultRef record = None)) || bundleExists
  | _ => true
  end.

Definition shouldRemoveSessionArtifacts (record : SessionRecord) (durable bundleExists : bool) : bool :=
  match state record with
  | REJECTED => true
  | FAILED_CLOSED => (bool_decide (Types.resultRef record = None) && negb bundleExists) || durable
  | _ => durable
  end.

(** ** Orphan candidates *)
Record OrphanArtifactCandidate := mkOrphan {
  oc_artifact : ArtifactPath; oc_sessionKey : option jsstr
}.

(** [name.slice(0, -suffix.length)] *)
Definition drop_suffix (name suffix : jsstr) : jsstr := take (length name - length suffix) name.

(** The files of one directory whose name ends in [suffix]. *)
Definition candidates_with_suffix (kind : ArtifactKind) (dir suffix : jsstr) (names : list jsstr)
    : list OrphanArtifactCandidate :=
  omap (fun name =>
    if endsWith name suffix
    then Some (mkOrphan (mkArtifact kind (join [dir; name])) (Some (drop_suffix name suffix)))
    else None) names.

Definition preview_candidate (dir name : jsstr) : option OrphanArtifactCandidate :=
  if endsWith name (js ".ansi.diff")
  then Some (mkOrphan (mkArtifact K_apply_preview_ansi (join [dir; name]))
               (Some (drop_suffix name (js ".ansi.diff"))))
  else if endsWith name (js ".diff")
  then Some (mkOrphan (mkArtifact K_apply_preview (join [dir; name]))
               (Some (drop_suffix name (js ".diff"))))
  else None.

(** [name.slice(prefix.length, -suffix.length)] *)
Definition divergence_candidate (dir name : jsstr) : option OrphanArtifactCandidate :=
  if startsWith name (js "divergence-") && endsWith name (js ".index")
  then Some (mkOrphan (mkArtifact K_divergence_index (join [dir; name]))
               (Some (drop 11 (drop_suffix name (js ".index")))))
  else None.

(** [listDirNames dir] is the directory's listing, empty when unreadable. *)
Definition listOrphanArtifactCandidates (listDirNames : jsstr -> list jsstr) (stateDir : jsstr)
    : list OrphanArtifactCandidate :=
  let bundlesDir := join [stateDir; js "bundles"] in
  let patchesDir := join [stateDir; js "patches"] in
  let previewDir := join [stateDir; js "apply-preview"] in
  let tmpDir := join [stateDir; js "tmp"] in
  candidates_with_suffix K_bundle bundlesDir (js ".bundle") (listDirNames bundlesDir)
  ++ candidates_with_suffix K_patch patchesDir (js ".patch") (listDirNames patchesDir)
  ++ omap (preview_candidate previewDir) (listDirNames previewDir)
  ++ omap (divergence_candidate tmpDir) (listDirNames tmpDir).

(** ** Copy review *)
Definition SOURCE_CODE_EXTENSIONS : list jsstr :=
  map js [".c"; ".cpp"; ".go"; ".h"; ".java"; ".js"; ".jsx"; ".py"; ".rs"; ".sh"; ".ts"; ".tsx";
          ".json"; ".toml"; ".yaml"; ".yml"]%string.

(** [toLowerCase] on the ASCII letters; a name with other letters has no
    extension of the list either way, save for U+212A and U+0130, which
    lower-case to ASCII but occur in none of these extensions. *)
Definition ascii_lower (s : jsstr) : jsstr :=
  map (fun c => if is_upper c then (c + 32)%N else c) s.

Definition isSourceCodeTarget (target : jsstr) : bool :=
  mem (ascii_lower (extname target)) SOURCE_CODE_EXTENSIONS.

Definition countCopyLines (content : jsstr) : Z := Z.of_nat (length (split_on 10 content)).

Definition assertCopyOutReviewLimit (target : jsstr) (totalLines maxApplyDiffLines : Z) : res unit :=
  throw_if (negb (negb (isSourceCodeTarget target) || (totalLines <=? maxApplyDiffLines)))
    (invalid_ [js "source-code copy target exceeds the reviewable line limit ("; dec totalLines;
               js " lines > "; dec maxApplyDiffLines; js " maxApplyDiffLines); ";
               js "large code changes must use sandbox_apply or be split into smaller copies"]).

(** ** Properties *)

(** Artifacts are removable exactly when the durable host ref resolves or
    was not needed; it is not needed only for a rejected result, or for a
    failed session that has neither a result ref nor a bundle. *)
Theorem removal_rule_exact record durable bundleExists :
  shouldRemoveSessionArtifacts record durable bundleExists =
    (durable || negb (removalNeedsDurableRef record bundleExists)) /\
  (removalNeedsDurableRef record bundleExists = false <->
     state record = REJECTED \/
     (state record = FAILED_CLOSED /\ Types.resultRef record = None /\ bundleExists = false)).
Proof.
  unfold shouldRemoveSessionArtifacts, removalNeedsDurableRef.
  destruct (state record), durable, bundleExists;
    repeat case_bool_decide; cbn; split; try done; try naive_solver.
Qed.

(** The temporary index of a session named [divergence-<id>] is the
    divergence index of session [<id>]: two sessions share a file. *)
Theorem index_paths_collide stateDir sid :
  tmpIndexPathFor stateDir (js "divergence-" ++ sid) = divergenceIndexPathFor stateDir sid /\
  (SESSION_ID_RE (js "divergence-" ++ js "s1") = true /\ js "divergence-" ++ js "s1" <> js "s1").
Proof.
  split; [|split; [vm_compute; reflexivity | discriminate]].
  unfold tmpIndexPathFor, divergenceIndexPathFor. by rewrite <- app_assoc.
Qed.

(** The orphan enumeration covers bundles, patches, previews and divergence
    indexes and nothing else: an orphan's temporary snapshot index is never a
    candidate, so no sweep removes it. *)
Theorem orphan_scan_misses_tmp_index listDirNames stateDir c :
  c ∈ listOrphanArtifactCandidates listDirNames stateDir ->
  ap_kind (oc_artifact c) <> K_tmp_index.
Proof.
  unfold listOrphanArtifactCandidates. rewrite !elem_of_app.
  unfold candidates_with_suffix. rewrite !list_elem_of_omap.
  unfold preview_candidate, divergence_candidate.
  intros [(n & _ & H)|[(n & _ & H)|[(n & _ & H)|(n & _ & H)]]]; revert H;
    repeat case_match; naive_solver.
Qed.

Lemma orphan_scan_misses_tmp_index_witness :
  exists c, c ∈ listOrphanArtifactCandidates (fun _ => [js "s.index"; js "s.bundle"]) (js "/st") /\
    ap_kind (oc_artifact c) <> K_tmp_index.
Proof.
  eexists (mkOrphan (mkArtifact K_bundle (js "/st/bundles/s.bundle")) (Some (js "s"))).
  assert (mkOrphan (mkArtifact K_bundle (js "/st/bundles/s.bundle")) (Some (js "s")) ∈
    listOrphanArtifactCandidates (fun _ => [js "s.index"; js "s.bundle"]) (js "/st")) as H.
  { vm_compute. apply list_elem_of_here. }
  split; [exact H|]. exact (orphan_scan_misses_tmp_index _ _ _ H).
Defined.
