(* ===== verification/Effects.v ===== *)
(** * The broker's effects (broker/src/service.ts, OpContext)

    A handler reads and writes the broker's state (session store, worker pool,
    pending queue), may throw, and awaits external calls: the worker adapter,
    git, the file system, the logger, random ids and timers.  It is a function
    from a world to its result, the world it leaves and the external calls it
    made with their answers, in order.

    The environment answers every call and may change the world while the
    handler waits: other sessions' handlers, the reaper and the clock run in
    that window.  It is a parameter of the whole model, so a theorem holds for
    every behaviour of git, of the workers and of the rest of the broker that
    meets its named hypotheses. *)
From Stdlib Require Import QArith.
From S2P Require Import Prelude JsVal Types State Policy Path Validation HostPaths Queue.
Open Scope Z_scope.

(** ** External calls *)
Record SpawnResult := mkSpawnBytes {
  status : option Z;          (* None: the process was killed or failed to start *)
  stdout : jsstr;
  stderr : jsstr;
  timedOut : bool;
  outputTruncated : bool;
  stderrTruncated : bool;
  stdoutBytes : option (list N);   (* the bytes before UTF-8 decoding *)
  stderrBytes : option (list N)
}.
Definition mkSpawn st out err timeout outcut errcut : SpawnResult :=
  mkSpawnBytes st out err timeout outcut errcut None None.

Record SpawnOptions := mkOpts {
  o_cwd : option jsstr;
  o_timeoutMs : jsval;
  o_env : jsval;
  o_maxOutputBytes : option Z
}.
Definition no_opts : SpawnOptions := mkOpts None JUndef JUndef None.
Definition opt_timeout (ms : Z) : SpawnOptions := mkOpts None (JNum (NumInt ms)) JUndef None.
Definition opt_env (cwd : option jsstr) (ms : Z) (vars : jsval) : SpawnOptions :=
  mkOpts cwd (JNum (NumInt ms)) vars None.
Definition opt_cwd (cwd : jsstr) (ms : Z) : SpawnOptions :=
  mkOpts (Some cwd) (JNum (NumInt ms)) JUndef None.

Record WorkerSpec := mkSpec {
  ws_name : jsstr; ws_cpu : Q; ws_memBytes : Z; ws_image : jsstr;
  ws_configDir : jsstr; ws_networkMode : jsstr
}.

Inductive call :=
  | CCreateWorker (spec : WorkerSpec)
  | CExec (worker : jsstr) (argv : list jsstr) (opts : SpawnOptions)
  | CCopyIn (worker hostSrc workerDest : jsstr)
  | CCopyOut (worker workerSrc hostDest : jsstr)
  | CStop (worker : jsstr)
  | CRemove (worker : jsstr)
  | CRemoveConfigDir (worker : jsstr)
  | CGit (argv : list jsstr) (opts : SpawnOptions)
  | CSpawn (argv : list jsstr) (opts : SpawnOptions)   (* a host command that is not git's *)
  | CMkdir (path : jsstr)
  | CWriteFile (path content : jsstr) (mode : Z)
  | CReadFile (path : jsstr)
  | CReadBytes (path : jsstr)                  (* readFileSync(path); the bytes *)
  | CChmod (path : jsstr) (mode : Z)
  | CRename (src dst : jsstr)
  | CCopyFile (src dst : jsstr)
  | CRm (path : jsstr)
  | CLstat (path : jsstr)
  | CRealpath (path : jsstr)
  | COpenExclusive (path : jsstr) (mode : Z)   (* openSync(O_CREAT|O_EXCL|O_WRONLY) *)
  | CWriteFd (path content : jsstr)            (* writeFileSync of the open file *)
  | CFsyncFd (path : jsstr)
  | CCloseFd (path : jsstr)
  | COpenRead (path : jsstr)
  | CUnlink (path : jsstr)
  | CExists (path : jsstr)
  | CIsFile (path : jsstr)
  | CIsDirectory (path : jsstr)
  | CAccess (path : jsstr)                     (* accessSync(path, X_OK) *)
  | CFileSize (path : jsstr)
  | CModifiedAt (path : jsstr)          (* statSync(path).mtimeMs, whole ms *)
  | CListDir (path : jsstr)
  | CListDirs (path : jsstr)                   (* the entries of readdirSync that are directories *)
  | CSpawnReplace (argv : list jsstr) (opts : SpawnOptions) (stdin : option (list N))  (* envMode replace *)
  | CMkdirOne (path : jsstr) (mode : Z)        (* mkdirSync, not recursive *)
  | CWriteBytes (path : jsstr) (bytes : list N)   (* writeFileSync of the open file *)
  | CFchmod (path : jsstr) (mode : Z)
  | COpenNoFollow (path : jsstr)               (* openSync(O_RDONLY|O_NOFOLLOW) *)
  | CFdStats (path : jsstr)                    (* fstatSync of the open file *)
  | CFdSize (path : jsstr)
  | CReadFd (path : jsstr) (max : option Z)    (* the bytes of the open file, at most max *)
  | CFileMode (path : jsstr)                   (* lstatSync(path).mode *)
  | COpenDirectory (path : jsstr)              (* openSync(O_DIRECTORY|O_NOFOLLOW); the descriptor *)
  | CCloseDirectory (fd : Z)
  | CFsyncDirectory (fd : Z)
  | CRandomHex (bytes : Z)                     (* randomBytes(n) in hexadecimal *)
  | CRandomUUID
  | CNow
  | CSleep (ms : Z)
  | CTimerFirst (ms : Z)                       (* does the timer settle the race first? *)
  | CTurn (sessionID : jsstr)           (* await the session's earlier operations *)
  | CLog (sessionID operation : jsstr) (ok : bool) (detail : jsstr)
  | CReaperLog (sessionID action : jsstr) (detail : option jsstr)
  | CReaperDrop.

(** ** World *)
Record world := mkWorld {
  w_store : store;
  w_pool : list WorkerAllocation;
  w_queue : PendingQueue;
  w_tasks : list QueuedEntry;      (* queued creations started and not yet run *)
  w_locks : gmap jsstr Z;          (* activeLocks: operations in flight per session *)
  w_now : jsstr;                   (* the clock, as an ISO text *)
  w_outside : N                    (* everything outside the broker *)
}.

Definition set_store (st : store) (w : world) : world :=
  mkWorld st (w_pool w) (w_queue w) (w_tasks w) (w_locks w) (w_now w) (w_outside w).
Definition set_pool (p : list WorkerAllocation) (w : world) : world :=
  mkWorld (w_store w) p (w_queue w) (w_tasks w) (w_locks w) (w_now w) (w_outside w).
Definition set_queue (q : PendingQueue) (w : world) : world :=
  mkWorld (w_store w) (w_pool w) q (w_tasks w) (w_locks w) (w_now w) (w_outside w).
Definition set_locks (l : gmap jsstr Z) (w : world) : world :=
  mkWorld (w_store w) (w_pool w) (w_queue w) (w_tasks w) l (w_now w) (w_outside w).
Definition set_tasks (t : list QueuedEntry) (w : world) : world :=
  mkWorld (w_store w) (w_pool w) (w_queue w) t (w_locks w) (w_now w) (w_outside w).

(** What [lstatSync] tells of an existing path. *)
Record Stats := mkStats { isFile : bool; isSymbolicLink : bool; nlink : Z }.

(** What the environment does at each call, by the type of the answer. *)
Record Environment := mkEnv {
  on_proc : call -> world -> res SpawnResult * world;
  on_unit : call -> world -> res unit * world;
  on_bool : call -> world -> res bool * world;
  on_text : call -> world -> res jsstr * world;
  on_int : call -> world -> res Z * world;
  on_names : call -> world -> res (list jsstr) * world;
  on_stats : call -> world -> res Stats * world
}.

(** ** The monad *)

(** A call and what was answered: an element of a run's trace. *)
Inductive event :=
  | EvProc (c : call) (a : res SpawnResult)
  | EvUnit (c : call) (a : res unit)
  | EvBool (c : call) (a : res bool)
  | EvText (c : call) (a : res jsstr)
  | EvInt (c : call) (a : res Z)
  | EvNames (c : call) (a : res (list jsstr))
  | EvStats (c : call) (a : res Stats).

Definition call_of (e : event) : call :=
  match e with
  | EvProc c _ | EvUnit c _ | EvBool c _ | EvText c _ | EvInt c _ | EvNames c _ | EvStats c _ => c
  end.

Definition M (A : Type) : Type := world -> res A * world * list event.

#[export] Instance M_ret : MRet M := fun A a w => (Ok a, w, []).
#[export] Instance M_bind : MBind M := fun A B f m w =>
  let '(r, w1, t1) := m w in
  match r with
  | Ok a => let '(r2, w2, t2) := f a w1 in (r2, w2, t1 ++ t2)
  | Throw e => (Throw e, w1, t1)
  end.

Definition throw {A} (e : exn) : M A := fun w => (Throw e, w, []).
Definition lift {A} (r : res A) : M A := fun w => (r, w, []).
Definition when (b : bool) (m : M unit) : M unit := if b then m else mret tt.
Definition throw_when (b : bool) (e : exn) : M unit := if b then throw e else mret tt.
Definition ask {A} (f : world -> A) : M A := fun w => (Ok (f w), w, []).
Definition modify (f : world -> world) : M unit := fun w => (Ok tt, f w, []).

(** [try { m } catch (e) { h(e) }] *)
Definition try_catch {A} (m : M A) (h : exn -> M A) : M A := fun w =>
  let '(r, w1, t1) := m w in
  match r with
  | Ok a => (Ok a, w1, t1)
  | Throw e => let '(r2, w2, t2) := h e w1 in (r2, w2, t1 ++ t2)
  end.

(** [try { m } finally { f }]: an exception of [f] wins. *)
Definition try_finally {A} (m : M A) (f : M unit) : M A := fun w =>
  let '(r, w1, t1) := m w in
  let '(r2, w2, t2) := f w1 in
  (match r2 with Ok _ => r | Throw e => Throw e end, w2, t1 ++ t2).

(** [try { m } catch { throw e }], and the outcome of [m] as a value. *)
Definition catch_as {A} (m : M A) (e : exn) : M A := try_catch m (fun _ => throw e).
Definition attempt {A} (m : M A) : M (res A) := try_catch (a ← m; mret (Ok a)) (fun e => mret (Throw e)).

(** [try { m } catch {}] *)
Definition best_effort (m : M unit) : M unit := try_catch m (fun _ => mret tt).

Fixpoint for_eachM {A} (f : A -> M unit) (xs : list A) : M unit :=
  match xs with
  | [] => mret tt
  | x :: xs' => _ ← f x; for_eachM f xs'
  end.

Fixpoint mapM_ {A B} (f : A -> M B) (xs : list A) : M (list B) :=
  match xs with
  | [] => mret []
  | x :: xs' => y ← f x; ys ← mapM_ f xs'; mret (y :: ys)
  end.

Section calls.
  Context (E : Environment).

Definition call_proc (c : call) : M SpawnResult := fun w =>
  let '(r, w') := on_proc E c w in (r, w', [EvProc c r]).
Definition call_unit (c : call) : M unit := fun w =>
  let '(r, w') := on_unit E c w in (r, w', [EvUnit c r]).
Definition call_bool (c : call) : M bool := fun w =>
  let '(r, w') := on_bool E c w in (r, w', [EvBool c r]).
Definition call_text (c : call) : M jsstr := fun w =>
  let '(r, w') := on_text E c w in (r, w', [EvText c r]).
Definition call_int (c : call) : M Z := fun w =>
  let '(r, w') := on_int E c w in (r, w', [EvInt c r]).
Definition call_names (c : call) : M (list jsstr) := fun w =>
  let '(r, w') := on_names E c w in (r, w', [EvNames c r]).
Definition call_stats (c : call) : M Stats := fun w =>
  let '(r, w') := on_stats E c w in (r, w', [EvStats c r]).

End calls.

(** ** The session store, in the world *)
Definition store_get (sid : jsstr) : M (option SessionRecord) := fun w =>
  (SessionStore.get (w_store w) sid, w, []).

Definition store_list : M (list SessionRecord) := fun w =>
  (SessionStore.list_ (w_store w), w, []).

Definition store_touch (sid : jsstr) (ps : list field_patch) (op : option jsstr) : M SessionRecord :=
  fun w =>
  match SessionStore.touch (w_store w) (w_now w) sid ps op with
  | Ok (r, st) => (Ok r, set_store st w, [])
  | Throw e => (Throw e, w, [])
  end.

Definition store_transition (sid : jsstr) (from to : SessionState) (ps : list field_patch)
    : M SessionRecord := fun w =>
  match SessionStore.transition (w_store w) (w_now w) sid from to ps with
  | Ok (r, st) => (Ok r, set_store st w, [])
  | Throw e => (Throw e, w, [])
  end.

(** ** Configuration (the fields of BrokerConfig the handlers read) *)
Record BrokerConfig := mkConfig {
  stateDir : jsstr;
  workerImage : jsstr;
  workerNamePrefix : jsstr;
  projects : list Project;
  externalCopyTargets : list jsstr;
  protectedPaths : list jsstr;
  protectedSecurityFiles : list jsstr;
  planRootProtection : bool;
  queueMaxLength : Z;
  queueTimeoutMs : Z;
  readOnlyAgents : list jsstr;
  argvLimits : ArgvLimits;
  execTimeoutMsDefault : Z;
  execTimeoutMsMax : Z;
  contentMaxBytes : Z;
  patchMaxBytes : Z;
  pathMaxBytes : Z;
  grepQueryMaxBytes : Z;
  maxApplyDiffLines : Z;
  planWriterAgents : list jsstr;
  planMiniWriterAgents : list jsstr;
  advisorProjects : list jsstr
}.

(** The broker's context: configuration, budget, and the host facts the
    validators consult. *)
Record OpContext := mkCtx {
  cfg : BrokerConfig;
  budget : Budget;
  host_resources : HostResources;
  gitReal : bool;                       (* git.runnerMode === "real" *)
  host_realpath : jsstr -> option jsstr;
  env : Environment
}.

(** ** Reasoning about handlers *)

(** The outcome of a run: its result, final world and calls. *)
Definition wp {A} (m : M A) (Q : res A -> world -> list event -> Prop) (w : world) : Prop :=
  let '(r, w', t) := m w in Q r w' t.

Lemma wp_bind {A B} (m : M A) (f : A -> M B) Q w :
  wp (mbind f m) Q w <->
  wp m (fun r w1 t1 =>
    match r with
    | Ok a => wp (f a) (fun r2 w2 t2 => Q r2 w2 (t1 ++ t2)) w1
    | Throw e => Q (Throw e) w1 t1
    end) w.
Proof.
  unfold wp, mbind, M_bind. destruct (m w) as [[[a|e] w1] t1]; [|done].
  by destruct (f a w1) as [[r2 w2] t2].
Qed.

Lemma wp_mono {A} (m : M A) (Q R : res A -> world -> list event -> Prop) w :
  wp m Q w -> (forall r w' t, Q r w' t -> R r w' t) -> wp m R w.
Proof. unfold wp. destruct (m w) as [[r w'] t]. auto. Qed.

Lemma wp_try_catch {A} (m : M A) h Q w :
  wp (try_catch m h) Q w <->
  wp m (fun r w1 t1 =>
    match r with
    | Ok a => Q (Ok a) w1 t1
    | Throw e => wp (h e) (fun r2 w2 t2 => Q r2 w2 (t1 ++ t2)) w1
    end) w.
Proof.
  unfold wp, try_catch. destruct (m w) as [[[a|e] w1] t1]; [done|].
  by destruct (h e w1) as [[r2 w2] t2].
Qed.

Lemma wp_run {A} (m : M A) Q w r w' t : m w = (r, w', t) -> wp m Q w <-> Q r w' t.
Proof. unfold wp. by intros ->. Qed.

(** Running a sequence whose first part makes no call. *)
Lemma run_bind_pure {A B} (m : M A) (f : A -> M B) a w w1 :
  m w = (Ok a, w1, []) -> mbind f m w = f a w1.
Proof. unfold mbind, M_bind. intros ->. by destruct (f a w1) as [[r w2] t]. Qed.

Lemma run_bind_throw {A B} (m : M A) (f : A -> M B) e w w1 t :
  m w = (Throw e, w1, t) -> mbind f m w = (Throw e, w1, t).
Proof. unfold mbind, M_bind. by intros ->. Qed.

Lemma run_throw_when_false {B} e (f : unit -> M B) w : mbind f (throw_when false e) w = f tt w.
Proof. by apply run_bind_pure. Qed.
Lemma run_throw_when_true {B} e (f : unit -> M B) w : mbind f (throw_when true e) w = (Throw e, w, []).
Proof. by apply run_bind_throw. Qed.
Lemma run_lift_Ok {A B} (a : A) (f : A -> M B) w : mbind f (lift (Ok a)) w = f a w.
Proof. by apply run_bind_pure. Qed.
Lemma run_lift_Throw {A B} e (f : A -> M B) w : mbind f (lift (Throw e)) w = (Throw e, w, []).
Proof. by apply run_bind_throw. Qed.

(** A property of worlds that a run keeps, whatever its outcome. *)
Definition keeps {A} (I : world -> Prop) (m : M A) : Prop :=
  forall w, I w -> wp m (fun _ w' _ => I w') w.

Lemma keeps_ret {A} I (a : A) : keeps I (mret a).
Proof. by intros w. Qed.
Lemma keeps_throw {A} I e : keeps I (@throw A e).
Proof. by intros w. Qed.
Lemma keeps_lift {A} I (r : res A) : keeps I (lift r).
Proof. by intros w. Qed.
Lemma keeps_ask {A} I (f : world -> A) : keeps I (ask f).
Proof. by intros w. Qed.
Lemma keeps_store_get I sid : keeps I (store_get sid).
Proof. by intros w. Qed.

Lemma keeps_bind {A B} I (m : M A) (f : A -> M B) :
  keeps I m -> (forall a, keeps I (f a)) -> keeps I (mbind f m).
Proof.
  intros Hm Hf w Hw. apply wp_bind. eapply wp_mono; [exact (Hm w Hw)|].
  intros [a|e] w1 t1 H1; cbn in *; [|done].
  eapply wp_mono; [exact (Hf a w1 H1) | auto].
Qed.

Lemma keeps_try_catch {A} I (m : M A) h :
  keeps I m -> (forall e, keeps I (h e)) -> keeps I (try_catch m h).
Proof.
  intros Hm Hh w Hw. apply wp_try_catch. eapply wp_mono; [exact (Hm w Hw)|].
  intros [a|e] w1 t1 H1; cbn in *; [done|].
  eapply wp_mono; [exact (Hh e w1 H1) | auto].
Qed.

Lemma keeps_try_finally {A} I (m : M A) f :
  keeps I m -> keeps I f -> keeps I (try_finally m f).
Proof.
  intros Hm Hf w Hw. unfold wp, try_finally.
  specialize (Hm w Hw). unfold wp in Hm. destruct (m w) as [[r w1] t1].
  specialize (Hf w1 Hm). unfold wp in Hf. by destruct (f w1) as [[r2 w2] t2].
Qed.

Lemma keeps_throw_when I b e : keeps I (throw_when b e).
Proof. by destruct b; intros w. Qed.
Lemma keeps_when I b m : keeps I m -> keeps I (when b m).
Proof. destruct b; [done | intros _; apply keeps_ret]. Qed.
Lemma keeps_best_effort I m : keeps I m -> keeps I (best_effort m).
Proof. intros ?. apply keeps_try_catch; [done | intros; apply keeps_ret]. Qed.

Lemma keeps_for_eachM {A} I (f : A -> M unit) xs :
  (forall x, keeps I (f x)) -> keeps I (for_eachM f xs).
Proof.
  intros Hf. induction xs as [|x xs IH]; cbn; [apply keeps_ret|].
  apply keeps_bind; [apply Hf | done].
Qed.

Lemma keeps_mapM {A B} I (f : A -> M B) xs :
  (forall x, keeps I (f x)) -> keeps I (mapM_ f xs).
Proof.
  intros Hf. induction xs as [|x xs IH]; cbn; [apply keeps_ret|].
  apply keeps_bind; [apply Hf|]. intros y. apply keeps_bind; [done|].
  intros ys. apply keeps_ret.
Qed.

(** An environment that keeps [I] whatever it is asked. *)
Definition env_keeps (I : world -> Prop) (E : Environment) : Prop :=
  forall c w, I w ->
    I (snd (on_proc E c w)) /\ I (snd (on_unit E c w)) /\ I (snd (on_bool E c w)) /\
    I (snd (on_text E c w)) /\ I (snd (on_int E c w)) /\ I (snd (on_names E c w)) /\ I (snd (on_stats E c w)).

Lemma keeps_call_proc I E c : env_keeps I E -> keeps I (call_proc E c).
Proof.
  intros HE w Hw. destruct (HE c w Hw) as (H & _). unfold wp, call_proc.
  by destruct (on_proc E c w).
Qed.
Lemma keeps_call_unit I E c : env_keeps I E -> keeps I (call_unit E c).
Proof.
  intros HE w Hw. destruct (HE c w Hw) as (_ & H & _). unfold wp, call_unit.
  by destruct (on_unit E c w).
Qed.
Lemma keeps_call_bool I E c : env_keeps I E -> keeps I (call_bool E c).
Proof.
  intros HE w Hw. destruct (HE c w Hw) as (_ & _ & H & _). unfold wp, call_bool.
  by destruct (on_bool E c w).
Qed.
Lemma keeps_call_text I E c : env_keeps I E -> keeps I (call_text E c).
Proof.
  intros HE w Hw. destruct (HE c w Hw) as (_ & _ & _ & H & _). unfold wp, call_text.
  by destruct (on_text E c w).
Qed.
Lemma keeps_call_int I E c : env_keeps I E -> keeps I (call_int E c).
Proof.
  intros HE w Hw. destruct (HE c w Hw) as (_ & _ & _ & _ & H & _). unfold wp, call_int.
  by destruct (on_int E c w).
Qed.
Lemma keeps_call_names I E c : env_keeps I E -> keeps I (call_names E c).
Proof.
  intros HE w Hw. destruct (HE c w Hw) as (_ & _ & _ & _ & _ & H & _). unfold wp, call_names.
  by destruct (on_names E c w).
Qed.
Lemma keeps_call_stats I E c : env_keeps I E -> keeps I (call_stats E c).
Proof.
  intros HE w Hw. destruct (HE c w Hw) as (_ & _ & _ & _ & _ & _ & H). unfold wp, call_stats.
  by destruct (on_stats E c w).
Qed.

(** ** Reasoning about traces *)

(** Whatever the world and the environment, the run's result and trace satisfy
    [Q]. *)
Definition always {A} (m : M A) (Q : res A -> list event -> Prop) : Prop :=
  forall w, wp m (fun r _ t => Q r t) w.

Lemma always_mono {A} (m : M A) (Q R : res A -> list event -> Prop) :
  always m Q -> (forall r t, Q r t -> R r t) -> always m R.
Proof. intros H HQ w. eapply wp_mono; [apply H | eauto]. Qed.

Lemma always_ret {A} (a : A) (Q : res A -> list event -> Prop) : Q (Ok a) [] -> always (mret a) Q.
Proof. by intros H w. Qed.
Lemma always_throw {A} e (Q : res A -> list event -> Prop) : Q (Throw e) [] -> always (throw e) Q.
Proof. by intros H w. Qed.
Lemma always_lift {A} (r : res A) (Q : res A -> list event -> Prop) : Q r [] -> always (lift r) Q.
Proof. by intros H w. Qed.
Lemma always_throw_when b e (Q : res unit -> list event -> Prop) :
  (b = true -> Q (Throw e) []) -> (b = false -> Q (Ok tt) []) -> always (throw_when b e) Q.
Proof. destruct b; intros H1 H2 w; [by apply H1 | by apply H2]. Qed.
Lemma always_ask {A} (f : world -> A) (Q : res A -> list event -> Prop) :
  (forall a, Q (Ok a) []) -> always (ask f) Q.
Proof. intros H w. apply H. Qed.
Lemma always_modify f (Q : res unit -> list event -> Prop) : Q (Ok tt) [] -> always (modify f) Q.
Proof. by intros H w. Qed.
Lemma always_store_get sid Q : (forall r, Q r []) -> always (store_get sid) Q.
Proof. intros H w. apply H. Qed.
Lemma always_store_list Q : (forall r, Q r []) -> always store_list Q.
Proof. intros H w. apply H. Qed.
Lemma always_store_touch sid ps op Q : (forall r, Q r []) -> always (store_touch sid ps op) Q.
Proof.
  intros H w. unfold wp, store_touch. by destruct (SessionStore.touch _ _ _ _ _) as [[]|].
Qed.
Lemma always_store_transition sid from to ps Q :
  (forall r, Q r []) -> always (store_transition sid from to ps) Q.
Proof.
  intros H w. unfold wp, store_transition.
  by destruct (SessionStore.transition _ _ _ _ _ _) as [[]|].
Qed.

Lemma always_call_proc E c Q : (forall r, Q r [EvProc c r]) -> always (call_proc E c) Q.
Proof. intros H w. unfold wp, call_proc. by destruct (on_proc E c w). Qed.
Lemma always_call_unit E c Q : (forall r, Q r [EvUnit c r]) -> always (call_unit E c) Q.
Proof. intros H w. unfold wp, call_unit. by destruct (on_unit E c w). Qed.
Lemma always_call_bool E c Q : (forall r, Q r [EvBool c r]) -> always (call_bool E c) Q.
Proof. intros H w. unfold wp, call_bool. by destruct (on_bool E c w). Qed.
Lemma always_call_text E c Q : (forall r, Q r [EvText c r]) -> always (call_text E c) Q.
Proof. intros H w. unfold wp, call_text. by destruct (on_text E c w). Qed.
Lemma always_call_int E c Q : (forall r, Q r [EvInt c r]) -> always (call_int E c) Q.
Proof. intros H w. unfold wp, call_int. by destruct (on_int E c w). Qed.

Lemma always_call_names E c Q : (forall r, Q r [EvNames c r]) -> always (call_names E c) Q.
Proof. intros H w. unfold wp, call_names. by destruct (on_names E c w). Qed.
Lemma always_call_stats E c Q : (forall r, Q r [EvStats c r]) -> always (call_stats E c) Q.
Proof. intros H w. unfold wp, call_stats. by destruct (on_stats E c w). Qed.

Lemma always_bind {A B} (m : M A) (f : A -> M B) (Q : res B -> list event -> Prop) :
  always m (fun r t1 =>
    match r with
    | Ok a => always (f a) (fun r2 t2 => Q r2 (t1 ++ t2))
    | Throw e => Q (Throw e) t1
    end) -> always (mbind f m) Q.
Proof.
  intros H w. apply wp_bind. eapply wp_mono; [apply (H w)|].
  intros [a|e] w1 t1 H1; [apply (H1 w1) | done].
Qed.

Lemma always_try_catch {A} (m : M A) h (Q : res A -> list event -> Prop) :
  always m (fun r t1 =>
    match r with
    | Ok a => Q (Ok a) t1
    | Throw e => always (h e) (fun r2 t2 => Q r2 (t1 ++ t2))
    end) -> always (try_catch m h) Q.
Proof.
  intros H w. apply wp_try_catch. eapply wp_mono; [apply (H w)|].
  intros [a|e] w1 t1 H1; [done | apply (H1 w1)].
Qed.

Lemma always_try_finally {A} (m : M A) f (Q : res A -> list event -> Prop) :
  always m (fun r t1 => always f (fun r2 t2 =>
    Q (match r2 with Ok _ => r | Throw e => Throw e end) (t1 ++ t2))) ->
  always (try_finally m f) Q.
Proof.
  intros H w. unfold wp, try_finally. specialize (H w). unfold wp in H.
  destruct (m w) as [[r w1] t1]. specialize (H w1). unfold wp in H.
  by destruct (f w1) as [[r2 w2] t2].
Qed.

(** Whenever an event in [P] occurs in [t], the events before it, after [pre],
    satisfy [G]. *)
Definition precedes (P : event -> Prop) (G : list event -> Prop) (pre t : list event) : Prop :=
  forall t1 e t2, t = t1 ++ e :: t2 -> P e -> G (pre ++ t1).

Lemma precedes_none P G pre t : Forall (fun e => ~ P e) t -> precedes P G pre t.
Proof.
  intros H t1 e t2 -> HP. apply Forall_app in H as [_ H]. by apply Forall_cons in H as [? _].
Qed.

Lemma precedes_app P G pre t1 t2 :
  precedes P G pre t1 -> precedes P G (pre ++ t1) t2 -> precedes P G pre (t1 ++ t2).
Proof.
  intros H1 H2 u e v Heq HP. symmetry in Heq. apply app_eq_inv in Heq as [(k & -> & ->)|(k & -> & Hk)].
  - rewrite app_assoc. by eapply H2.
  - destruct k as [|e' k]; cbn in Hk.
    + rewrite app_nil_r in *. subst t2. specialize (H2 [] e v eq_refl HP). by rewrite app_nil_r in H2.
    + injection Hk as <- ->. exact (H1 u e k eq_refl HP).
Qed.

(** A property of every call a run makes. *)
Definition only_calls {A} (P : call -> Prop) (m : M A) : Prop :=
  always m (fun _ t => Forall (fun e => P (call_of e)) t).

Section only.
  Context (P : call -> Prop).

Lemma only_pure {A} (m : M A) :
  (forall Q : res A -> list event -> Prop, (forall r, Q r []) -> always m Q) -> only_calls P m.
Proof. intros H. apply H. intros _. constructor. Qed.
Lemma only_ret {A} (a : A) : only_calls P (mret a).
Proof. by apply always_ret. Qed.
Lemma only_throw {A} e : only_calls P (@throw A e).
Proof. by apply always_throw. Qed.
Lemma only_lift {A} (r : res A) : only_calls P (lift r).
Proof. by apply always_lift. Qed.
Lemma only_throw_when b e : only_calls P (throw_when b e).
Proof. by apply always_throw_when. Qed.
Lemma only_bind {A B} (m : M A) (f : A -> M B) :
  only_calls P m -> (forall a, only_calls P (f a)) -> only_calls P (mbind f m).
Proof.
  intros Hm Hf. apply always_bind. eapply always_mono; [exact Hm|]. intros [a|e] t Ht; [|done].
  eapply always_mono; [apply Hf|]. intros r t' Ht'. by apply Forall_app.
Qed.
Lemma only_try_catch {A} (m : M A) h :
  only_calls P m -> (forall e, only_calls P (h e)) -> only_calls P (try_catch m h).
Proof.
  intros Hm Hf. apply always_try_catch. eapply always_mono; [exact Hm|]. intros [a|e] t Ht; [done|].
  eapply always_mono; [apply Hf|]. intros r t' Ht'. by apply Forall_app.
Qed.
Lemma only_try_finally {A} (m : M A) f :
  only_calls P m -> only_calls P f -> only_calls P (try_finally m f).
Proof.
  intros Hm Hf. apply always_try_finally. eapply always_mono; [exact Hm|]. intros r t Ht.
  eapply always_mono; [apply Hf|]. intros r' t' Ht'. by apply Forall_app.
Qed.
Lemma only_mapM {A B} (f : A -> M B) xs :
  (forall x, only_calls P (f x)) -> only_calls P (mapM_ f xs).
Proof.
  intros Hf. induction xs as [|x xs IH]; cbn; [apply only_ret|].
  apply only_bind; [apply Hf|]. intros y. apply only_bind; [done|]. intros ys. apply only_ret.
Qed.
Lemma only_for_eachM {A} (f : A -> M unit) xs :
  (forall x, only_calls P (f x)) -> only_calls P (for_eachM f xs).
Proof.
  intros Hf. induction xs as [|x xs IH]; cbn; [apply only_ret|]. apply only_bind; [apply Hf | done].
Qed.
Lemma only_call_proc E c : P c -> only_calls P (call_proc E c).
Proof. intros H. apply always_call_proc. intros r. by repeat constructor. Qed.
Lemma only_call_unit E c : P c -> only_calls P (call_unit E c).
Proof. intros H. apply always_call_unit. intros r. by repeat constructor. Qed.
Lemma only_call_bool E c : P c -> only_calls P (call_bool E c).
Proof. intros H. apply always_call_bool. intros r. by repeat constructor. Qed.
Lemma only_call_text E c : P c -> only_calls P (call_text E c).
Proof. intros H. apply always_call_text. intros r. by repeat constructor. Qed.
Lemma only_call_int E c : P c -> only_calls P (call_int E c).
Proof. intros H. apply always_call_int. intros r. by repeat constructor. Qed.
Lemma only_call_names E c : P c -> only_calls P (call_names E c).
Proof. intros H. apply always_call_names. intros r. by repeat constructor. Qed.
Lemma only_call_stats E c : P c -> only_calls P (call_stats E c).
Proof. intros H. apply always_call_stats. intros r. by repeat constructor. Qed.
End only.

(** Walks through a handler's control structure; what remains is [P] of each
    call. *)
Ltac only_step :=
  lazymatch goal with
  | |- only_calls _ (mret _) => apply only_ret
  | |- only_calls _ (throw _) => apply only_throw
  | |- only_calls _ (lift _) => apply only_lift
  | |- only_calls _ (throw_when _ _) => apply only_throw_when
  | |- only_calls _ (ask _) => let H := fresh in apply only_pure; intros ? H; apply always_ask; intros ?; apply H
  | |- only_calls _ (modify _) => let H := fresh in apply only_pure; intros ? H; apply always_modify; apply H
  | |- only_calls _ (store_get _) => apply only_pure; intros ? ?; apply always_store_get; assumption
  | |- only_calls _ store_list => apply only_pure; intros ? ?; apply always_store_list; assumption
  | |- only_calls _ (store_touch _ _ _) =>
      apply only_pure; intros ? ?; apply always_store_touch; assumption
  | |- only_calls _ (store_transition _ _ _ _) =>
      apply only_pure; intros ? ?; apply always_store_transition; assumption
  | |- only_calls _ (call_proc _ _) => apply only_call_proc
  | |- only_calls _ (call_unit _ _) => apply only_call_unit
  | |- only_calls _ (call_bool _ _) => apply only_call_bool
  | |- only_calls _ (call_text _ _) => apply only_call_text
  | |- only_calls _ (call_int _ _) => apply only_call_int
  | |- only_calls _ (call_names _ _) => apply only_call_names
  | |- only_calls _ (call_stats _ _) => apply only_call_stats
  | |- only_calls _ (mbind _ _) => apply only_bind; [|intros ?]
  | |- only_calls _ (try_catch _ _) => apply only_try_catch; [|intros ?]
  | |- only_calls _ (best_effort _) => apply only_try_catch; [|intros ?]
  | |- only_calls _ (catch_as _ _) => apply only_try_catch; [|intros ?]
  | |- only_calls _ (attempt _) => apply only_try_catch; [|intros ?]
  | |- only_calls _ (try_finally _ _) => apply only_try_finally
  | |- only_calls _ (mapM_ _ _) => apply only_mapM; intros ?
  | |- only_calls _ (for_eachM _ _) => apply only_for_eachM; intros ?
  | |- only_calls _ (when ?b _) => destruct b; cbn [when]
  | |- only_calls _ (match ?x with _ => _ end) => destruct x
  | |- only_calls _ (let _ := _ in _) => cbv zeta
  end.

Create HintDb effects discriminated.
#[export] Hint Resolve keeps_ret keeps_throw keeps_lift keeps_ask keeps_store_get keeps_bind
  keeps_try_catch keeps_try_finally keeps_throw_when keeps_when keeps_best_effort
  keeps_for_eachM keeps_mapM keeps_call_proc keeps_call_unit keeps_call_bool keeps_call_text
  keeps_call_int keeps_call_names keeps_call_stats : effects.

(** Walks through a handler's control structure. *)
Ltac keeps_step :=
  lazymatch goal with
  | |- keeps _ (mret _) => apply keeps_ret
  | |- keeps _ (throw _) => apply keeps_throw
  | |- keeps _ (lift _) => apply keeps_lift
  | |- keeps _ (ask _) => apply keeps_ask
  | |- keeps _ (store_get _) => apply keeps_store_get
  | |- keeps _ (throw_when _ _) => apply keeps_throw_when
  | |- keeps _ (call_proc _ _) => apply keeps_call_proc; assumption
  | |- keeps _ (call_unit _ _) => apply keeps_call_unit; assumption
  | |- keeps _ (call_bool _ _) => apply keeps_call_bool; assumption
  | |- keeps _ (call_text _ _) => apply keeps_call_text; assumption
  | |- keeps _ (call_int _ _) => apply keeps_call_int; assumption
  | |- keeps _ (call_names _ _) => apply keeps_call_names; assumption
  | |- keeps _ (call_stats _ _) => apply keeps_call_stats; assumption
  | |- keeps _ (when _ _) => apply keeps_when
  | |- keeps _ (best_effort _) => apply keeps_best_effort
  | |- keeps _ (mbind _ _) => apply keeps_bind; [|intros ?]
  | |- keeps _ (try_catch _ _) => apply keeps_try_catch; [|intros ?]
  | |- keeps _ (try_finally _ _) => apply keeps_try_finally
  | |- keeps _ (for_eachM _ _) => apply keeps_for_eachM; intros ?
  | |- keeps _ (mapM_ _ _) => apply keeps_mapM; intros ?
  | |- keeps _ (match ?x with _ => _ end) => destruct x
  | |- keeps _ (let _ := _ in _) => cbv zeta
  end.

(** Sequencing after a step that keeps [I]: either it threw, or the rest runs
    from a world in [I]. *)
Lemma wp_bind_keeps {A B} I (m : M A) (f : A -> M B) (Q : res B -> world -> list event -> Prop) w :
  keeps I m -> I w ->
  (forall e w1 t1, I w1 -> Q (Throw e) w1 t1) ->
  (forall a w1 t1, I w1 -> wp (f a) (fun r w2 t2 => Q r w2 (t1 ++ t2)) w1) ->
  wp (mbind f m) Q w.
Proof.
  intros Hm Hw He Hf. apply wp_bind. eapply wp_mono; [exact (Hm w Hw)|].
  intros [a|e] w1 t1 H1; cbn in *; auto.
Qed.

Lemma wp_bind_best_effort {B} I (m : M unit) (f : unit -> M B)
    (Q : res B -> world -> list event -> Prop) w :
  keeps I m -> I w ->
  (forall w1 t1, I w1 -> wp (f tt) (fun r w2 t2 => Q r w2 (t1 ++ t2)) w1) ->
  wp (mbind f (best_effort m)) Q w.
Proof.
  intros Hm Hw Hf. apply wp_bind. unfold best_effort. apply wp_try_catch.
  eapply wp_mono; [exact (Hm w Hw)|]. intros [[]|e] w1 t1 H1; [by apply Hf|].
  unfold wp at 1, mret, M_ret. rewrite app_nil_r. by apply Hf.
Qed.

(** The record of a session. *)
Definition holds (sid : jsstr) (r : SessionRecord) (w : world) : Prop :=
  w_store w !! sid = Some (RFRecord r).

(** Nobody else writes the session's record while its handler waits: the
    server runs the operations of one session one at a time (withSessionLock)
    and the sweeps skip a session with an operation in flight. *)
Definition session_locked (sid : jsstr) (E : Environment) : Prop :=
  forall r, env_keeps (holds sid r) E.

Lemma store_get_holds sid r w : holds sid r w -> store_get sid w = (Ok (Some r), w, []).
Proof. intros H. unfold store_get. by rewrite (proj2 (get_Some _ _ _) H). Qed.

(** A transition along an edge of the graph from the recorded state. *)
Lemma store_transition_run sid from to ps r w :
  holds sid r w -> sessionID r = sid -> state r = from -> legal from to = true ->
  plain_patch ps = true ->
  let r' := apply_patch (ps ++ [P_state to; P_updatedAt (w_now w)]) r in
  store_transition sid from to ps w =
    (Ok r', set_store (<[sid := RFRecord r']> (w_store w)) w, []) /\
  sessionID r' = sid /\ state r' = to.
Proof.
  intros H Hid Hst Hl Hp r'.
  assert (sessionID r' = sid) as Hid'.
  { subst r'. rewrite apply_patch_app. cbn. destruct (patch_fields_plain ps r Hp). congruence. }
  split; [|split; [done|]].
  - unfold store_transition.
    rewrite (proj2 (transition_Ok (w_store w) (w_now w) sid from to ps r'
      (<[sessionID r' := RFRecord r']> (w_store w)))) by eauto 8.
    by rewrite Hid'.
  - subst r'. by rewrite apply_patch_app.
Qed.

Lemma store_touch_run sid ps op r w :
  holds sid r w -> sessionID r = sid -> plain_patch ps = true ->
  exists u, let r' := patch_field (P_updatedAt u) (apply_patch ps r) in
  store_touch sid ps op w = (Ok r', set_store (<[sid := RFRecord r']> (w_store w)) w, []) /\
  sessionID r' = sid /\ state r' = state r.
Proof.
  intros H Hid Hp. unfold store_touch, SessionStore.touch.
  rewrite (proj2 (get_Some _ _ _) H). cbn [mbind res_bind].
  eexists. cbv zeta. destruct (patch_fields_plain ps r Hp) as [Hs Hi].
  split; [|split].
  - unfold SessionStore.persist. cbn [sessionID patch_field]. by rewrite Hi, Hid.
  - cbn. congruence.
  - done.
Qed.

Lemma holds_insert sid r w : holds sid r (set_store (<[sid := RFRecord r]> (w_store w)) w).
Proof. apply lookup_insert_eq. Qed.
