(* ===== verification/Worker.v ===== *)
(** * Worker lifecycle (broker/src/service.ts)

    ensureWorker, the shared creation path, the pending queue's park and drain,
    snapshots, artifact collection and the release of a worker, as effectful
    handlers over the world of Effects.v. *)
From Stdlib Require Import QArith.
From S2P Require Import Prelude JsVal Types State Policy Path Validation HostPaths Envelope.
From S2P Require Import RolePolicy GitOps Artifacts Queue Effects.
Open Scope Z_scope.

(** ** Small helpers *)
Definition jint (z : Z) : jsval := JNum (NumInt z).
Definition opt_str (o : option jsstr) : jsval := match o with Some s => JStr s | None => JUndef end.

(** A string in a condition: absent and empty are both false. *)
Definition truthy (o : option jsstr) : option jsstr :=
  match o with Some ((_ :: _) as s) => Some s | _ => None end.

Definition ok_status (r : SpawnResult) : bool := bool_decide (status r = Some 0).

Definition status_text (r : SpawnResult) : jsstr :=
  match status r with Some z => dec z | None => js "null" end.

Definition trimErr (s : jsstr) : jsstr := take 500 (trim s).

(** [s || t] *)
Definition str_or (s t : jsstr) : jsstr := match s with [] => t | _ => s end.

Definition SHA1_RE : jsstr -> bool := re_class is_hex_lower 40 40.

Definition payloadOf (req : BrokerRequestEnvelope) : res jsval :=
  _ ← assertPayloadKeys (Op.name (req_operation req)) (req_payload req);
  Ok (if is_nullish (req_payload req) then JObj [] else req_payload req).

Definition requireActiveWorker (record : SessionRecord) : res jsstr :=
  _ ← throw_if (negb (bool_decide (state record = SANDBOX_ACTIVE))
                && negb (bool_decide (state record = RESULT_READY)))
        (state_error (js "session " ++ sessionID record ++ js " is not sandbox-active (state="
           ++ state_name (state record) ++ js ")"));
  match truthy (workerName record) with
  | None => Throw (state_error (js "session " ++ sessionID record
              ++ js " has no worker recorded " ++ [8212%N] ++ js " fail closed"))
  | Some worker =>
      match workerState record with
      | Some DESTROYED | Some FAILED =>
          Throw (state_error (js "worker for session " ++ sessionID record ++ js " is "
            ++ worker_state_name (default FAILED (workerState record))
            ++ js "; re-ensure before use"))
      | _ => Ok worker
      end
  end.

(** A named worker that is neither destroyed nor failed. *)
Definition live_worker (record : SessionRecord) : option jsstr :=
  match truthy (workerName record), workerState record with
  | Some _, Some DESTROYED | Some _, Some FAILED => None
  | w, _ => w
  end.

Definition recordOr404 (sid : jsstr) : M SessionRecord :=
  record ← store_get sid;
  match record with
  | Some r => mret r
  | None => throw (state_error (js "unknown session " ++ sid))
  end.

Inductive SnapshotSelection :=
  | SelWorktree
  | SelResultRef (ref : jsstr)
  | SelCommit (commit : jsstr).

(** [/^refs\/opencode-sandbox\/result\/[A-Za-z0-9_-]{1,64}$/] *)
Definition RESULT_REF_RE (s : jsstr) : bool :=
  let prefix := RESULT_REF_PREFIX ++ js "/" in
  startsWith s prefix && SESSION_ID_RE (drop (length prefix) s).

(** [/^[0-9a-fA-F]{40}$/] *)
Definition COMMIT_RE : jsstr -> bool :=
  re_class (fun c => is_hex_lower c || ((65 <=? c) && (c <=? 70))%N) 40 40.

Definition snapshotFromPayload (value : jsval) : res SnapshotSelection :=
  if is_undef value then Ok SelWorktree else
  match value with
  | JObj _ =>
      _ ← throw_if (negb (Z.of_nat (length (object_keys value)) =? 1))
            (invalid "snapshot must name exactly one of resultRef, commit, worktree");
      let key k := str_eqb (default [] (head (object_keys value))) (js k) in
      let bad := Throw (invalid
        "snapshot must contain a valid resultRef, full commit SHA, or worktree: true") in
      if key "worktree"%string && match field value (js "worktree") with JBool true => true | _ => false end
      then Ok SelWorktree else
      match key "resultRef"%string, field value (js "resultRef"),
            key "commit"%string, field value (js "commit") with
      | true, JStr r, _, _ => if RESULT_REF_RE r then Ok (SelResultRef r) else bad
      | _, _, true, JStr c => if COMMIT_RE c then Ok (SelCommit c) else bad
      | _, _, _, _ => bad
      end
  | _ => Throw (invalid "snapshot must be an object")
  end.

(** The ref or commit a selection other than the work tree names. *)
Definition selection_reference (s : SnapshotSelection) : jsstr :=
  match s with SelResultRef r => r | SelCommit c => c | SelWorktree => [] end.

Definition snapshot_json (s : SnapshotIdentity) : jsval :=
  JObj ([(js "commit", JStr (si_commit s)); (js "tree", JStr (si_tree s));
         (js "source", JStr (si_source s))]
        ++ (match si_resultRef s with Some r => [(js "resultRef", JStr r)] | None => [] end)
        ++ [(js "headSha", JStr (si_headSha s))]).

Definition project_of (ctx : OpContext) (projectID : jsstr) : option Project :=
  List.find (fun p => str_eqb (project_id p) projectID) (projects (cfg ctx)).

Definition projectDirFor (ctx : OpContext) (projectID : jsstr) : res jsstr :=
  match project_of ctx projectID with
  | Some project => Ok (project_path project)
  | None => Throw (state_error (js "project " ++ projectID ++ js " not in allowlist"))
  end.

Definition workerNameFor (ctx : OpContext) (sid : jsstr) : jsstr :=
  workerNamePrefix (cfg ctx) ++ js "-" ++ sid.

(** ** Admission and the pool *)
Definition virtual_allocation (ctx : OpContext) : WorkerAllocation :=
  {| wa_cpu := perWorkerCpu (budget ctx); wa_memBytes := perWorkerMemBytes (budget ctx);
     wa_sessionID := None |}.

Definition admissionFor (ctx : OpContext) (w : world) : Admission :=
  let n := inFlight (w_queue w) in
  if n =? 0 then checkAdmission (w_pool w) (budget ctx) None None
  else checkAdmission (w_pool w ++ repeat (virtual_allocation ctx) (Z.to_nat n))
         (budget ctx) None None.

(** [splice(findIndex(a => a.sessionID === id), 1)] *)
Fixpoint remove_allocation (sid : jsstr) (pool : list WorkerAllocation) : list WorkerAllocation :=
  match pool with
  | [] => []
  | a :: pool' =>
      if bool_decide (wa_sessionID a = Some sid) then pool' else a :: remove_allocation sid pool'
  end.

Definition removePoolAllocation (record : SessionRecord) : M unit :=
  modify (fun w => set_pool (remove_allocation (sessionID record) (w_pool w)) w).

(** ** The queue *)

(** One round of the drain loop; [fuel] bounds the rounds. *)
Fixpoint drain_loop (ctx : OpContext) (fuel : nat) : M unit :=
  match fuel with
  | O => mret tt
  | S fuel' =>
      q ← ask w_queue;
      match PQ.head q with
      | None => mret tt
      | Some entry =>
          adm ← ask (admissionFor ctx);
          if negb (allowed adm) then mret tt else
          _ ← modify (fun w =>
                let q' := snd (PQ.remove (qe_sessionID entry) (w_queue w)) in
                set_tasks (w_tasks w ++ [entry])
                  (set_queue (PQ.set_inFlight (inFlight q' + 1) q') w));
          drain_loop ctx fuel'
      end
  end.

(** Each round takes one entry out, so one round more than there are entries
    is enough.  A started creation is a task: its first steps touch only its
    own session's record, so they commute with the rest of the loop. *)
Definition drainQueue (ctx : OpContext) : M unit :=
  n ← ask (fun w => length (entries (w_queue w)));
  drain_loop ctx (S n).

(** What ensureWorker answers: a value, or the pending promise of an entry
    (whose position the client is told). *)
Inductive ensure_reply :=
  | Replied (v : jsval)
  | Parked (entry : QueuedEntry).

Definition parkAndWait (ctx : OpContext) (req : BrokerRequestEnvelope) (projectID : jsstr)
    : M ensure_reply :=
  q ← ask w_queue;
  match PQ.find q (req_sessionID req) with
  | Some existing => mret (Parked existing)
  | None =>
      _ ← throw_when (queueMaxLength (cfg ctx) <=? PQ.length q)
            (policy_error (js "worker queue full (" ++ dec (queueMaxLength (cfg ctx))
               ++ js "); retry later"));
      let '(entry, q') := PQ.enqueue (mkEntry (req_sessionID req) req projectID 0) q in
      _ ← modify (set_queue q');
      mret (Parked entry)
  end.

(** The timer of a parked entry. *)
Definition queue_timeout (ctx : OpContext) (entry : QueuedEntry) : M unit :=
  modify (fun w =>
    let q := snd (PQ.remove (qe_sessionID entry) (w_queue w)) in
    set_queue (PQ.settle entry (Throw (Exn EQueuedTimedOut
      (js "ensureWorker queued for session " ++ qe_sessionID entry ++ js " timed out after "
       ++ dec (queueTimeoutMs (cfg ctx)) ++ js "ms (queue position "
       ++ dec (qe_position entry) ++ js ")"))) q) w).

(** ** Artifacts *)
Section handlers.
  Context (ctx : OpContext).
#[local] Abbreviation E := (env ctx).

Definition git (argv : list jsstr) (opts : SpawnOptions) : M SpawnResult :=
  call_proc E (CGit argv opts).
Definition exec (worker : jsstr) (argv : list jsstr) (opts : SpawnOptions) : M SpawnResult :=
  call_proc E (CExec worker argv opts).

Definition durableHostRefResolves (record : SessionRecord) : M bool :=
  match truthy (projectID record) with
  | None => mret false
  | Some pid =>
      match project_of ctx pid with
      | None => mret false
      | Some project =>
          try_catch
            (ref ← lift (GitOps.resultRef (sessionID record));
             r ← git (argv ["git"; "rev-parse"; "--verify"; "--quiet"] ++ [ref])
                   (opt_cwd (project_path project) 30000);
             mret (ok_status r))
            (fun _ => mret false)
      end
  end.

Definition removeArtifact (artifact : ArtifactPath) : M ArtifactRemoval :=
  let path := ap_path artifact in
  try_catch
    (present ← call_bool E (CExists path);
     if negb present then mret (mkRemoval artifact 0 false None) else
     regular ← call_bool E (CIsFile path);
     if negb regular
     then mret (mkRemoval artifact 0 false
                 (Some (kind_name (ap_kind artifact) ++ js " is not a regular file")))
     else
     bytes ← call_int E (CFileSize path);
     _ ← call_unit E (CRm path);
     mret (mkRemoval artifact bytes true None))
    (fun e => mret (mkRemoval artifact 0 false (Some (exn_msg e)))).

Definition removeSessionArtifacts (sid : jsstr) : M (list ArtifactRemoval) :=
  mapM_ removeArtifact (sessionArtifactPaths (stateDir (cfg ctx)) sid).

Definition log (sid operation : jsstr) (ok : bool) (detail : jsstr) : M unit :=
  call_unit E (CLog sid operation ok detail).

Definition log_removal (sid operation : jsstr) (r : ArtifactRemoval) : M unit :=
  let k := kind_name (ap_kind (ar_artifact r)) in
  if ar_removed r then log sid operation true (k ++ js " " ++ dec (ar_bytes r) ++ js " bytes")
  else match truthy (ar_error r) with
       | Some e => log sid operation false (k ++ js ": " ++ e)
       | None => mret tt
       end.

Definition gcSessionArtifacts (sid operation : jsstr) (durableOpt : bool) : M unit :=
  try_catch
    (found ← store_get sid;
     match found with
     | None => mret tt
     | Some record =>
         remove ← (if durableOpt then mret true else
           bundleExists ← call_bool E (CExists (bundlePathFor (stateDir (cfg ctx)) sid));
           durable ← (if removalNeedsDurableRef record bundleExists
                      then durableHostRefResolves record else mret false);
           mret (shouldRemoveSessionArtifacts record durable bundleExists));
         if negb remove then mret tt else
         removals ← removeSessionArtifacts sid;
         for_eachM (log_removal sid operation) removals
     end)
    (fun e => log sid operation false (exn_msg e)).

(** ** Snapshots *)
Definition ensureGitRepo (repoDir : jsstr) : M unit :=
  present ← call_bool E (CExists (join [repoDir; js ".git"]));
  throw_when (negb present) (state_error (js "project is not a git repository: " ++ repoDir)).

Definition env_of (vars : list (jsstr * jsstr)) : jsval :=
  JObj (map (fun kv => (fst kv, JStr (snd kv))) vars).

(** [ctx.git.spawn] with the snapshot's environment. *)
Definition snapshot_git (repoDir tmpIndex : jsstr) (argv : list jsstr) : M SpawnResult :=
  git argv (mkOpts (Some repoDir) (jint 120000)
    (env_of [(js "GIT_DIR", join [repoDir; js ".git"]); (js "GIT_INDEX_FILE", tmpIndex);
             (js "GIT_AUTHOR_NAME", js "opencode-sandbox");
             (js "GIT_AUTHOR_EMAIL", js "sandbox@local");
             (js "GIT_COMMITTER_NAME", js "opencode-sandbox");
             (js "GIT_COMMITTER_EMAIL", js "sandbox@local")]) None).

(** A step whose non-zero status is a [StateError] with the given text. *)
Definition must (r : SpawnResult) (message : jsstr) : M unit :=
  throw_when (negb (ok_status r)) (state_error message).

Definition runSnapshot (repoDir sid bundle : jsstr) (selection : SnapshotSelection)
    : M SnapshotIdentity :=
  _ ← call_unit E (CMkdir (join [stateDir (cfg ctx); js "bundles"]));
  _ ← call_unit E (CMkdir (join [stateDir (cfg ctx); js "tmp"]));
  let tmpIndex := join [stateDir (cfg ctx); js "tmp"; sid ++ js ".index"] in
  ref ← lift (GitOps.baselineRef sid);
  let git := snapshot_git repoDir tmpIndex in
  headR ← git (argv ["git"; "rev-parse"; "--verify"; "HEAD"]);
  _ ← must headR (js "project has no HEAD commit; cannot snapshot (" ++ repoDir ++ js ")");
  let headSha := trim (stdout headR) in
  '(commitSha, treeSha, source, pinnedResultRef) ←
    match selection with
    | SelWorktree =>
        add ← git (argv ["git"; "add"; "-A"; "--"]);
        _ ← must add (js "snapshot add failed: " ++ trimErr (stderr add));
        tree ← git (argv ["git"; "write-tree"]);
        _ ← must tree (js "snapshot write-tree failed: " ++ trimErr (stderr tree));
        let treeSha := trim (stdout tree) in
        commit ← git (argv ["git"; "commit-tree"] ++ [treeSha] ++ argv ["-p"; "HEAD"; "-m"]
                      ++ [js "opencode-sandbox baseline for " ++ sid]);
        _ ← must commit (js "snapshot commit-tree failed: " ++ trimErr (stderr commit));
        mret (trim (stdout commit), treeSha, js "worktree", None)
    | _ =>
        resolved ← git (argv ["git"; "rev-parse"; "--verify"]
                        ++ [selection_reference selection ++ js "^{commit}"]);
        _ ← throw_when (negb (ok_status resolved) || negb (SHA1_RE (trim (stdout resolved))))
              (state_error (js "snapshot does not resolve to a commit in the registered project"));
        let commitSha := trim (stdout resolved) in
        tree ← git (argv ["git"; "rev-parse"; "--verify"] ++ [commitSha ++ js "^{tree}"]);
        _ ← throw_when (negb (ok_status tree) || negb (SHA1_RE (trim (stdout tree))))
              (state_error (js "snapshot commit tree cannot be resolved"));
        mret (commitSha, trim (stdout tree),
              match selection with SelResultRef _ => js "resultRef" | _ => js "commit" end,
              match selection with SelResultRef r => Some r | _ => None end)
    end;
  update ← git (argv ["git"; "update-ref"] ++ [ref; commitSha]);
  _ ← must update (js "snapshot update-ref failed: " ++ trimErr (stderr update));
  bundleCreate ← git (argv ["git"; "bundle"; "create"] ++ [bundle; ref]);
  _ ← must bundleCreate (js "snapshot bundle failed: " ++ trimErr (stderr bundleCreate));
  _ ← call_unit E (CChmod bundle 420);
  mret {| si_commit := commitSha; si_tree := treeSha; si_source := source;
          si_resultRef := pinnedResultRef; si_headSha := headSha |}.

(** [git rev-parse] and friends against the project of a pinned snapshot. *)
Definition pinned_git (repoDir : jsstr) (extra : list (jsstr * jsstr)) (argv : list jsstr)
    : M SpawnResult :=
  git argv (mkOpts (Some repoDir) JUndef
    (env_of ((js "GIT_DIR", join [repoDir; js ".git"]) :: extra)) None).

Definition baseline_subject (sid : jsstr) : jsstr := js "opencode-sandbox baseline for " ++ sid.

Definition assertPinnedSnapshotCompatible (projectID : jsstr) (record : SessionRecord)
    (rawSelection : jsval) : M unit :=
  selection ← lift (snapshotFromPayload rawSelection);
  repoDir ← lift (projectDirFor ctx projectID);
  let git0 := pinned_git repoDir [] in
  match truthy (Types.baselineRef record) with
  | None => throw (state_error (js "existing worker has no pinned snapshot identity"))
  | Some bref =>
      current ← git0 (argv ["git"; "rev-parse"; "--verify"] ++ [bref ++ js "^{commit}"]);
      _ ← throw_when (negb (ok_status current) || negb (SHA1_RE (trim (stdout current))))
            (state_error (js "existing worker snapshot identity cannot be resolved"));
      let cur := trim (stdout current) in
      let differs := state_error (js "snapshot differs from the existing worker snapshot") in
      match selection with
      | SelWorktree =>
          headR ← git0 (argv ["git"; "rev-parse"; "--verify"; "HEAD"]);
          _ ← must headR (js "project has no HEAD commit; cannot compare worker snapshot");
          let index := join [stateDir (cfg ctx); js "tmp"; sessionID record ++ js ".snapshot-check.index"] in
          _ ← call_unit E (CMkdir (join [stateDir (cfg ctx); js "tmp"]));
          let gitw := pinned_git repoDir [(js "GIT_INDEX_FILE", index)] in
          try_finally
            (_ ← for_eachM (fun a =>
               result ← gitw a;
               must result (js "cannot compare working-tree snapshot: " ++ trimErr (stderr result)))
               [argv ["git"; "read-tree"; "HEAD"]; argv ["git"; "add"; "-A"; "--"]];
             tree ← gitw (argv ["git"; "write-tree"]);
             oldTree ← git0 (argv ["git"; "rev-parse"; "--verify"] ++ [cur ++ js "^{tree}"]);
             oldParent ← git0 (argv ["git"; "rev-parse"; "--verify"] ++ [cur ++ js "^"]);
             oldSubject ← git0 (argv ["git"; "log"; "-1"; "--format=%s"] ++ [cur]);
             throw_when (negb (ok_status tree) || negb (ok_status oldTree)
               || negb (ok_status oldParent) || negb (ok_status oldSubject)
               || negb (str_eqb (trim (stdout tree)) (trim (stdout oldTree)))
               || negb (str_eqb (trim (stdout oldParent)) (trim (stdout headR)))
               || negb (str_eqb (trim (stdout oldSubject)) (baseline_subject (sessionID record))))
               differs)
            (call_unit E (CRm index))
      | _ =>
          resolved ← git0 (argv ["git"; "rev-parse"; "--verify"]
                           ++ [selection_reference selection ++ js "^{commit}"]);
          _ ← throw_when (negb (ok_status resolved) || negb (SHA1_RE (trim (stdout resolved))))
                (state_error (js "snapshot does not resolve to a commit in the registered project"));
          throw_when (negb (str_eqb cur (trim (stdout resolved)))) differs
      end
  end.

Definition pinnedSnapshotIdentity (projectID : jsstr) (record : SessionRecord)
    (rawSelection : jsval) : M SnapshotIdentity :=
  repoDir ← lift (projectDirFor ctx projectID);
  let git0 := pinned_git repoDir [] in
  match truthy (Types.baselineRef record) with
  | None => throw (state_error (js "existing worker has no pinned snapshot identity"))
  | Some bref =>
      commit ← git0 (argv ["git"; "rev-parse"; "--verify"] ++ [bref ++ js "^{commit}"]);
      let unresolved := state_error (js "existing worker snapshot identity cannot be resolved") in
      _ ← throw_when (negb (ok_status commit) || negb (SHA1_RE (trim (stdout commit)))) unresolved;
      let commitSha := trim (stdout commit) in
      tree ← git0 (argv ["git"; "rev-parse"; "--verify"] ++ [commitSha ++ js "^{tree}"]);
      headR ← git0 (argv ["git"; "rev-parse"; "--verify"] ++ [commitSha ++ js "^"]);
      subject ← git0 (argv ["git"; "log"; "-1"; "--format=%s"] ++ [commitSha]);
      _ ← throw_when (negb (ok_status tree) || negb (SHA1_RE (trim (stdout tree)))) unresolved;
      selection ← (if is_undef rawSelection then mret None
                   else s ← lift (snapshotFromPayload rawSelection); mret (Some s));
      let source :=
        match selection with
        | Some (SelResultRef _) => js "resultRef"
        | Some _ => js "commit"
        | None => if ok_status subject
                     && str_eqb (trim (stdout subject)) (baseline_subject (sessionID record))
                  then js "worktree" else js "commit"
        end in
      let headSha := trim (stdout headR) in
      mret {| si_commit := commitSha; si_tree := trim (stdout tree); si_source := source;
              si_resultRef := match selection with Some (SelResultRef r) => Some r | _ => None end;
              si_headSha := if SHA1_RE headSha then headSha else commitSha |}
  end.

(** ** Creation *)
Definition reused_reply (worker : jsstr) (record : SessionRecord) : list (jsstr * jsval) :=
  [(js "worker", JStr worker); (js "state", JStr (state_name (state record)));
   (js "reused", JBool true)].

Definition orchestrator_error (a : jsstr) : exn :=
  policy_error (js "orchestrator agent " ++ [34%N] ++ a ++ [34%N]
    ++ js " is not allowed to create a worker (orchestrator-readonly)").

(** [a ?? b] *)
Definition coalesce {A} (a b : option A) : option A := match a with Some _ => a | None => b end.

(** The argument vectors that prepare the worker's repository. *)
Definition prep_steps (sid bref : jsstr) : list (list jsstr) :=
  [argv ["sync"];
   argv ["git"; "init"; "-q"];
   argv ["git"; "config"; "user.name"; "opencode-sandbox"];
   argv ["git"; "config"; "user.email"; "sandbox@local"];
   argv ["git"; "fetch"] ++ [js "/work/" ++ sid ++ js ".bundle"; bref ++ js ":refs/heads/baseline"];
   argv ["git"; "checkout"; "-q"; "-b"; "work"; "baseline"];
   argv ["git"; "update-ref"] ++ [bref; js "refs/heads/baseline"]].

(** Up to [attempts] tries, 400 ms after each failed one; the last result. *)
Fixpoint exec_retry (attempts : nat) (worker : jsstr) (a : list jsstr) (last : option SpawnResult)
    : M (option SpawnResult) :=
  match attempts with
  | O => mret last
  | S n =>
      r ← exec worker a (opt_cwd (js "/work") 120000);
      if ok_status r then mret (Some r) else
      _ ← call_unit E (CSleep 400);
      exec_retry n worker a (Some r)
  end.

Definition run_prep_step (worker : jsstr) (a : list jsstr) : M unit :=
  r ← exec_retry 3 worker a None;
  match r with
  | Some p =>
      throw_when (negb (ok_status p))
        (msb_error (js "worker repo prep failed (" ++ default (js "undefined") (a !! 1%nat)
           ++ js "): " ++ trimErr (str_or (stderr p) (stdout p))))
  | None => throw (msb_error (js "worker repo prep failed (" ++ default (js "undefined") (a !! 1%nat)
           ++ js "): "))
  end.

Definition worker_spec (name : jsstr) : WorkerSpec :=
  {| ws_name := name; ws_cpu := perWorkerCpu (budget ctx); ws_memBytes := perWorkerMemBytes (budget ctx);
     ws_image := workerImage (cfg ctx);
     ws_configDir := join [stateDir (cfg ctx); js "workers"; name];
     ws_networkMode := js "deny-by-default" |}.

Definition session_allocation (sid : jsstr) : WorkerAllocation :=
  {| wa_cpu := perWorkerCpu (budget ctx); wa_memBytes := perWorkerMemBytes (budget ctx);
     wa_sessionID := Some sid |}.

Definition active_patch (sid workerName bref : jsstr) (snapshot : SnapshotIdentity) : list field_patch :=
  [P_workerName (Some workerName); P_workerState (Some ACTIVE); P_baselineRef (Some bref);
   P_snapshotIdentity (Some snapshot); P_resultRef None; P_error None;
   P_resources (Some (perWorkerCpu (budget ctx), perWorkerMemBytes (budget ctx)))].

(** The [try] block: everything that can fail closed. *)
Definition build_worker (req : BrokerRequestEnvelope) (sid projectID workerName : jsstr) : M jsval :=
  repoDir ← lift (projectDirFor ctx projectID);
  _ ← ensureGitRepo repoDir;
  let bundle := bundlePathFor (stateDir (cfg ctx)) sid in
  payload ← lift (payloadOf req);
  selection ← lift (snapshotFromPayload (field payload (js "snapshot")));
  snapshot ← runSnapshot repoDir sid bundle selection;
  _ ← call_unit E (CCreateWorker (worker_spec workerName));
  _ ← call_unit E (CCopyIn workerName bundle (js "/work/" ++ sid ++ js ".bundle"));
  bref ← lift (GitOps.baselineRef sid);
  _ ← for_eachM (run_prep_step workerName) (prep_steps sid bref);
  _ ← modify (fun w => set_pool (w_pool w ++ [session_allocation sid]) w);
  next ← store_transition sid CREATING_SANDBOX SANDBOX_ACTIVE (active_patch sid workerName bref snapshot);
  mret (JObj [(js "worker", JStr workerName); (js "state", JStr (state_name (state next)));
              (js "reused", JBool false); (js "snapshot", snapshot_json snapshot)]).

(** The [catch] block: stop and remove the partial worker, then close the
    session; every cleanup failure is swallowed and the first error wins. *)
Definition fail_closed (sid workerName : jsstr) (e : exn) : M jsval :=
  _ ← best_effort (_ ← call_unit E (CStop workerName); call_unit E (CRemove workerName));
  _ ← best_effort
        (_ ← store_transition sid CREATING_SANDBOX FAILED_CLOSED
               [P_error (Some (exn_msg e)); P_workerState (Some FAILED)];
         gcSessionArtifacts sid (js "ensureWorker") false);
  throw e.

Definition createWorkerForSession (req : BrokerRequestEnvelope) (sid projectID : jsstr) : M jsval :=
  existing2 ← store_get sid;
  let trusted2 := coalesce (existing2 ≫= agent) (req_agent req) in
  _ ← match truthy trusted2 with
      | Some a => throw_when (mem a (readOnlyAgents (cfg ctx))) (orchestrator_error a)
      | None => mret tt
      end;
  record ← recordOr404 sid;
  let proceed :=
    _ ← store_transition sid (state record) CREATING_SANDBOX
          [P_projectID (Some projectID); P_agent (req_agent req); P_error None];
    let workerName := workerNameFor ctx sid in
    try_catch (build_worker req sid projectID workerName) (fail_closed sid workerName) in
  match state record with
  | SANDBOX_ACTIVE | RESULT_READY =>
      match live_worker record with
      | Some worker => mret (JObj (reused_reply worker record))
      | None => proceed
      end
  | FAILED_CLOSED =>
      throw (state_error (js "session " ++ sid ++ js " is FAILED_CLOSED; manual review required"))
  | CREATING_SANDBOX =>
      throw (state_error (js "sandbox creation already in progress for " ++ sid ++ js " "
               ++ [8212%N] ++ js " retry"))
  | _ => proceed
  end.

Definition ensureWorker (req : BrokerRequestEnvelope) : M ensure_reply :=
  let sid := req_sessionID req in
  let readOnly := readOnlyAgents (cfg ctx) in
  existing ← store_get sid;
  let trusted := coalesce (existing ≫= agent) (req_agent req) in
  _ ← match truthy trusted with
      | Some a => throw_when (mem a readOnly) (orchestrator_error a)
      | None => mret tt
      end;
  _ ← match truthy (req_agent req) with
      | Some a => throw_when (mem a readOnly && negb (bool_decide (Some a = trusted)))
                    (orchestrator_error a)
      | None => mret tt
      end;
  payload ← lift (payloadOf req);
  projectID ← lift (resolveProjectID (host_realpath ctx) (field payload (js "projectDir"))
                      (projects (cfg ctx)));
  record ← store_touch sid
    [P_projectID (Some projectID); P_agent (req_agent req); P_workerLifecycleEntered (Some true);
     P_lastOperation (Some (js "ensureWorker"))] (Some (js "ensureWorker"));
  let admission :=
    adm ← ask (admissionFor ctx);
    match adm with
    | Refused reason hint queueable =>
        if negb queueable
        then throw (policy_error (reason ++
               if 0 <? hint then js " (queue position ~" ++ dec hint ++ js ")" else []))
        else parkAndWait ctx req projectID
    | Allowed _ _ => v ← createWorkerForSession req sid projectID; mret (Replied v)
    end in
  match state record with
  | SANDBOX_ACTIVE | RESULT_READY =>
      match live_worker record with
      | Some worker =>
          let selection := field payload (js "snapshot") in
          _ ← when (negb (is_undef selection))
                (assertPinnedSnapshotCompatible projectID record selection);
          snapshot ← match snapshotIdentity record with
                     | Some s => mret s
                     | None => pinnedSnapshotIdentity projectID record selection
                     end;
          mret (Replied (JObj (reused_reply worker record
                               ++ [(js "snapshot", snapshot_json snapshot)])))
      | None => admission
      end
  | FAILED_CLOSED =>
      throw (state_error (js "session " ++ sid ++ js " is FAILED_CLOSED; manual review required"))
  | CREATING_SANDBOX =>
      throw (state_error (js "sandbox creation already in progress for " ++ sid ++ js " "
               ++ [8212%N] ++ js " retry"))
  | _ => admission
  end.

(** A started task: runs the creation, settles the entry's promise, gives the
    reservation back and drains again. *)
Definition runQueuedCreation (entry : QueuedEntry) : M unit :=
  try_finally
    (try_catch
      (result ← createWorkerForSession (qe_request entry) (qe_sessionID entry) (qe_projectID entry);
       let fields := match result with JObj fs => fs | _ => [] end in
       modify (fun w => set_queue (PQ.settle entry (Ok (JObj (fields
         ++ [(js "queued", JBool true); (js "queuePosition", jint (qe_position entry))])))
         (w_queue w)) w))
      (fun e => modify (fun w => set_queue (PQ.settle entry (Throw e) (w_queue w)) w)))
    (_ ← modify (fun w => set_queue (PQ.set_inFlight (Z.max 0 (inFlight (w_queue w) - 1)) (w_queue w)) w);
     drainQueue ctx).

(** ** Release *)
Inductive release_reason := removed | no_worker | remove_failed.

Record WorkerReleaseOutcome := mkOutcome {
  released : bool; reason : release_reason; release_error : option jsstr
}.

(** Up to two removals, 1500 ms after the first failure; the last error. *)
Definition try_remove (workerName : jsstr) : M (option jsstr) :=
  first ← try_catch (_ ← call_unit E (CRemove workerName); mret None)
            (fun e => mret (Some (exn_msg e)));
  match first with
  | None => mret None
  | Some _ =>
      _ ← call_unit E (CSleep 1500);
      try_catch (_ ← call_unit E (CRemove workerName); mret None)
        (fun e => mret (Some (exn_msg e)))
  end.

Definition releaseWorker (record : SessionRecord) : M WorkerReleaseOutcome :=
  match live_worker record with
  | None =>
      _ ← removePoolAllocation record;
      _ ← drainQueue ctx;
      mret (mkOutcome true no_worker None)
  | Some workerName =>
      _ ← best_effort (call_unit E (CStop workerName));
      lastError ← try_remove workerName;
      match lastError with
      | Some e =>
          _ ← best_effort (log (sessionID record) (js "releaseWorker") false e);
          mret (mkOutcome false remove_failed (Some e))
      | None =>
          _ ← best_effort (call_unit E (CRemoveConfigDir workerName));
          _ ← removePoolAllocation record;
          _ ← drainQueue ctx;
          mret (mkOutcome true removed None)
      end
  end.

Definition destroyed_patch : list field_patch :=
  [P_workerName None; P_workerState (Some DESTROYED)].

Definition releaseRetainedWorker (sid : jsstr) : M unit :=
  found ← store_get sid;
  match found with
  | None => mret tt
  | Some record =>
      match live_worker record with
      | None => mret tt
      | Some _ =>
          try_catch
            (outcome ← releaseWorker record;
             if negb (released outcome) then mret tt else
             _ ← store_touch sid destroyed_patch None; mret tt)
            (fun e => best_effort (log sid (js "gitCommit") false (exn_msg e)))
      end
  end.
End handlers.
