(* ===== verification/WorkerFacts.v ===== *)
(** * Properties of the worker lifecycle

    Theorems about Worker.v: who may create a worker, that a failed creation
    closes the session, that the drain admits in order within the caps, and
    that a release frees an allocation only on a confirmed removal. *)
From Stdlib Require Import QArith.
From S2P Require Import Prelude JsVal Types State Policy Path Validation HostPaths Envelope.
From S2P Require Import RolePolicy GitOps Artifacts Queue Effects Worker.
Open Scope Z_scope.

Section lemmas.
  Context (ctx : OpContext) (I : world -> Prop) (HE : env_keeps I (env ctx)).

Lemma keeps_git a o : keeps I (git ctx a o).
Proof using HE. unfold git. keeps_step. Qed.
Lemma keeps_exec w a o : keeps I (exec ctx w a o).
Proof using HE. unfold exec. keeps_step. Qed.
Lemma keeps_log s o b d : keeps I (log ctx s o b d).
Proof using HE. unfold log. keeps_step. Qed.
Lemma keeps_must r m : keeps I (must r m).
Proof. apply keeps_throw_when. Qed.

(** The same walk, through the handlers' own helpers. *)
Ltac keeps_walk :=
  repeat
    lazymatch goal with
    | |- keeps _ (git _ _ _) => apply keeps_git
    | |- keeps _ (exec _ _ _ _) => apply keeps_exec
    | |- keeps _ (log _ _ _ _ _) => apply keeps_log
    | |- keeps _ (must _ _) => apply keeps_must
    | |- _ => keeps_step
    end.

Lemma keeps_snapshot_git d i a : keeps I (snapshot_git ctx d i a).
Proof using HE. unfold snapshot_git. keeps_walk. Qed.

Lemma keeps_ensureGitRepo d : keeps I (ensureGitRepo ctx d).
Proof using HE. unfold ensureGitRepo. keeps_walk. Qed.

Lemma keeps_runSnapshot d sid b s : keeps I (runSnapshot ctx d sid b s).
Proof using HE. unfold runSnapshot, snapshot_git. keeps_walk. Qed.

Lemma keeps_exec_retry n w a l : keeps I (exec_retry ctx n w a l).
Proof using HE.
  revert l; induction n as [|n IH]; intros l; cbn [exec_retry]; keeps_walk. apply IH.
Qed.

Lemma keeps_run_prep_step w a : keeps I (run_prep_step ctx w a).
Proof using HE.
  unfold run_prep_step. apply keeps_bind; [apply keeps_exec_retry|]. intros r. keeps_walk.
Qed.

Lemma keeps_durableHostRefResolves r : keeps I (durableHostRefResolves ctx r).
Proof using HE. unfold durableHostRefResolves. keeps_walk. Qed.

Lemma keeps_removeArtifact a : keeps I (removeArtifact ctx a).
Proof using HE. unfold removeArtifact. keeps_walk. Qed.

Lemma keeps_gcSessionArtifacts sid op d : keeps I (gcSessionArtifacts ctx sid op d).
Proof using HE.
  unfold gcSessionArtifacts, removeSessionArtifacts, log_removal. keeps_walk.
  all: first [apply keeps_durableHostRefResolves | apply keeps_removeArtifact].
Qed.
End lemmas.

(** The walk outside the section: the environment's hypothesis is in context. *)
Ltac keeps_go :=
  repeat
    lazymatch goal with
    | |- keeps _ (git _ _ _) => apply keeps_git; assumption
    | |- keeps _ (exec _ _ _ _) => apply keeps_exec; assumption
    | |- keeps _ (log _ _ _ _ _) => apply keeps_log; assumption
    | |- keeps _ (must _ _) => apply keeps_must
    | |- keeps _ (ensureGitRepo _ _) => apply keeps_ensureGitRepo; assumption
    | |- keeps _ (runSnapshot _ _ _ _ _) => apply keeps_runSnapshot; assumption
    | |- keeps _ (run_prep_step _ _ _) => apply keeps_run_prep_step; assumption
    | |- keeps _ (gcSessionArtifacts _ _ _ _) => apply keeps_gcSessionArtifacts; assumption
    | |- keeps _ (removeArtifact _ _) => apply keeps_removeArtifact; assumption
    | |- _ => keeps_step
    end.

(** ** Creation *)
Lemma legal_creating_active : legal CREATING_SANDBOX SANDBOX_ACTIVE = true.
Proof. reflexivity. Qed.
Lemma legal_creating_failed : legal CREATING_SANDBOX FAILED_CLOSED = true.
Proof. reflexivity. Qed.

Section creation.
  Context (ctx : OpContext) (sid : jsstr).
  Hypothesis Hlock : session_locked sid (env ctx).

(** The creation block leaves the session active, with exactly one allocation
    pushed last; or it throws with the record untouched. *)
Lemma build_worker_wp req pid wn r w :
  holds sid r w -> sessionID r = sid -> state r = CREATING_SANDBOX ->
  wp (build_worker ctx req sid pid wn)
    (fun out w' _ =>
       match out with
       | Throw _ => holds sid r w'
       | Ok _ => exists r' pool, holds sid r' w' /\ state r' = SANDBOX_ACTIVE /\
           workerName r' = Some wn /\ workerState r' = Some ACTIVE /\
           w_pool w' = pool ++ [session_allocation ctx sid]
       end) w.
Proof using Hlock.
  intros Hw Hid Hst. unfold build_worker. pose proof (Hlock r) as HE.
  apply wp_bind_keeps with (I := holds sid r); [keeps_go | done | auto |].
  intros repoDir w1 _ H1.
  apply wp_bind_keeps with (I := holds sid r); [keeps_go | done | auto |].
  intros _ w2 _ H2. cbv zeta.
  apply wp_bind_keeps with (I := holds sid r); [keeps_go | done | auto |].
  intros payload w3 _ H3.
  apply wp_bind_keeps with (I := holds sid r); [keeps_go | done | auto |].
  intros selection w4 _ H4.
  apply wp_bind_keeps with (I := holds sid r); [keeps_go | done | auto |].
  intros snapshot w5 _ H5.
  apply wp_bind_keeps with (I := holds sid r); [keeps_go | done | auto |].
  intros _ w6 _ H6.
  apply wp_bind_keeps with (I := holds sid r); [keeps_go | done | auto |].
  intros _ w7 _ H7.
  apply wp_bind_keeps with (I := holds sid r); [keeps_go | done | auto |].
  intros bref w8 _ H8.
  apply wp_bind_keeps with (I := holds sid r);
    [keeps_go | done | auto |].
  intros _ w9 _ H9.
  apply wp_bind. unfold wp at 1, modify.
  set (w10 := set_pool _ w9).
  apply wp_bind.
  destruct (store_transition_run sid CREATING_SANDBOX SANDBOX_ACTIVE
    (active_patch ctx sid wn bref snapshot) r w10) as (Hrun & _ & Hs); try done.
  eapply (wp_run (store_transition _ _ _ _)); [exact Hrun|]. cbv iota beta.
  eexists _, (w_pool w9). split; [apply holds_insert|]. by repeat split.
Qed.

(** Closing a failed creation records the error and never reports success. *)
Lemma fail_closed_wp wn e r w :
  holds sid r w -> sessionID r = sid -> state r = CREATING_SANDBOX ->
  wp (fail_closed ctx sid wn e)
    (fun out w' _ => out = Throw e /\
       exists r', holds sid r' w' /\ state r' = FAILED_CLOSED /\
         Types.error r' = Some (exn_msg e) /\ workerState r' = Some FAILED) w.
Proof using Hlock.
  intros Hw Hid Hst. unfold fail_closed. pose proof (Hlock r) as HE.
  apply wp_bind_best_effort with (I := holds sid r); [keeps_go | done |].
  intros w1 t1 H1. apply wp_bind. unfold best_effort. apply wp_try_catch. apply wp_bind.
    destruct (store_transition_run sid CREATING_SANDBOX FAILED_CLOSED
      [P_error (Some (exn_msg e)); P_workerState (Some FAILED)] r w1) as (Hrun & _ & Hs); try done.
    eapply (wp_run (store_transition _ _ _ _)); [exact Hrun|]. cbv iota beta.
    set (r' := apply_patch _ r). set (w2 := set_store _ w1).
    assert (holds sid r' w2) as H2 by apply holds_insert.
    eapply wp_mono; [exact (keeps_gcSessionArtifacts ctx (holds sid r') (Hlock r') sid
      (js "ensureWorker") false w2 H2)|].
    intros [[]|e2] w3 t3 H3; cbn in *; (split; [done|]); exists r'; by repeat split.
Qed.

(** The whole creation, from the transition on. *)
Lemma creation_wp req pid w r :
  holds sid r w -> sessionID r = sid -> legal (state r) CREATING_SANDBOX = true ->
  wp (_ ← store_transition sid (state r) CREATING_SANDBOX
            [P_projectID (Some pid); P_agent (req_agent req); P_error None];
      try_catch (build_worker ctx req sid pid (workerNameFor ctx sid))
        (fail_closed ctx sid (workerNameFor ctx sid)))
    (fun out w' _ =>
       match out with
       | Ok _ => exists r' pool, holds sid r' w' /\ state r' = SANDBOX_ACTIVE /\
           workerName r' = Some (workerNameFor ctx sid) /\ workerState r' = Some ACTIVE /\
           w_pool w' = pool ++ [session_allocation ctx sid]
       | Throw e => exists r', holds sid r' w' /\ state r' = FAILED_CLOSED /\
           Types.error r' = Some (exn_msg e) /\ workerState r' = Some FAILED
       end) w.
Proof using Hlock.
  intros Hw Hid Hl. apply wp_bind.
  destruct (store_transition_run sid (state r) CREATING_SANDBOX
    [P_projectID (Some pid); P_agent (req_agent req); P_error None] r w) as (Hrun & Hid' & Hs); try done.
  eapply (wp_run (store_transition _ _ _ _)); [exact Hrun|]. cbv iota beta.
  set (r1 := apply_patch _ r) in *. set (w1 := set_store _ w).
  assert (holds sid r1 w1) as H1 by apply holds_insert.
  apply wp_try_catch. eapply wp_mono; [exact (build_worker_wp req pid _ r1 w1 H1 Hid' Hs)|].
  intros [v|e] w2 t2 H2; [exact H2|].
  eapply wp_mono; [exact (fail_closed_wp _ e r1 w2 H2 Hid' Hs)|].
  intros out w3 t3 [-> H3]. exact H3.
Qed.

(** Where a creation that began in world [w] with record [r0] may end. *)
Definition creation_ends (r0 : SessionRecord) (w : world) (out : res jsval) (w' : world)
    (t : list event) : Prop :=
  match out with
  | Ok _ =>
      (live_worker r0 <> None /\ w' = w /\ t = []) \/
      exists r' pool, holds sid r' w' /\ state r' = SANDBOX_ACTIVE /\
        workerName r' = Some (workerNameFor ctx sid) /\ workerState r' = Some ACTIVE /\
        w_pool w' = pool ++ [session_allocation ctx sid]
  | Throw e =>
      (w' = w /\ t = []) \/
      exists r', holds sid r' w' /\ state r' = FAILED_CLOSED /\
        Types.error r' = Some (exn_msg e) /\ workerState r' = Some FAILED
  end.

Lemma proceed_wp req pid w r :
  holds sid r w -> sessionID r = sid ->
  wp (_ ← store_transition sid (state r) CREATING_SANDBOX
            [P_projectID (Some pid); P_agent (req_agent req); P_error None];
      try_catch (build_worker ctx req sid pid (workerNameFor ctx sid))
        (fail_closed ctx sid (workerNameFor ctx sid)))
    (creation_ends r w) w.
Proof using Hlock.
  intros Hw Hid. destruct (legal (state r) CREATING_SANDBOX) eqn:Hl.
  - eapply wp_mono; [by apply creation_wp|]. intros [v|e] w' t H; by right.
  - apply wp_bind. unfold wp at 1, store_transition.
    destruct (SessionStore.transition _ _ _ _ _ _) as [[r' st']|e] eqn:E; [|by left].
    exfalso. apply transition_Ok in E as (r1 & Hr1 & <- & Hl' & _).
    unfold holds in Hw. congruence.
Qed.

Lemma createWorkerForSession_wp req pid w r0 :
  holds sid r0 w -> sessionID r0 = sid ->
  wp (createWorkerForSession ctx req sid pid) (creation_ends r0 w) w.
Proof using Hlock.
  intros Hw Hid. unfold createWorkerForSession.
  apply wp_bind. eapply (wp_run (store_get sid)); [by apply store_get_holds|]. cbv iota beta zeta.
  apply wp_bind. set (guard := match truthy _ with Some _ => _ | None => _ end).
  assert (exists g, guard w = (g, w, [])) as [g Hg].
  { subst guard. destruct (truthy _); [|by eexists]. unfold throw_when.
    destruct (mem _ _); by eexists. }
  eapply (wp_run guard); [exact Hg|]. destruct g as [[]|e]; [|by left].
  apply wp_bind. unfold recordOr404. apply wp_bind.
  eapply (wp_run (store_get sid)); [by apply store_get_holds|]. cbv iota beta.
  unfold wp at 1, mret, M_ret. cbv iota beta. cbn [app].
  pose proof (proceed_wp req pid w r0 Hw Hid) as Hp.
  destruct (state r0) eqn:Hst; try exact Hp; try (by left);
    (destruct (live_worker r0) eqn:El; [|exact Hp]); left; by rewrite ?El.
Qed.
End creation.

(** ** The drain *)

(** The pool as admission sees it: reservations count as allocations. *)
Definition reserved (ctx : OpContext) (w : world) : list WorkerAllocation :=
  w_pool w ++ repeat (virtual_allocation ctx) (Z.to_nat (inFlight (w_queue w))).

Lemma admissionFor_reserved ctx w :
  admissionFor ctx w = checkAdmission (reserved ctx w) (budget ctx) None None.
Proof.
  unfold admissionFor, reserved. destruct (inFlight (w_queue w) =? 0) eqn:Hz; [|done].
  apply Z.eqb_eq in Hz as ->. cbn [Z.to_nat repeat]. by rewrite app_nil_r.
Qed.

(** What one drain does to the world. *)
Record drained (ctx : OpContext) (w w' : world) : Prop := {
  dr_store : w_store w' = w_store w;
  dr_pool : w_pool w' = w_pool w;
  dr_started : exists started,
    entries (w_queue w) = started ++ entries (w_queue w') /\
    w_tasks w' = w_tasks w ++ started /\
    inFlight (w_queue w') = inFlight (w_queue w) + Z.of_nat (length started);
  dr_settled : settled (w_queue w') = settled (w_queue w);
  dr_within : pool_within (budget ctx) (reserved ctx w) ->
    pool_within (budget ctx) (reserved ctx w');
  dr_done : entries (w_queue w') = [] \/ allowed (admissionFor ctx w') = false
}.

Lemma pool_within_admit ctx pool cpu m :
  checkAdmission pool (budget ctx) None None = Allowed cpu m ->
  pool_within (budget ctx) (pool ++ [virtual_allocation ctx]).
Proof.
  intros H. pose proof (admit_within _ _ _ _ _ _ None H) as Hw.
  apply checkAdmission_allowed in H as (-> & -> & _). exact Hw.
Qed.

Lemma drain_loop_spec ctx fuel w :
  (length (entries (w_queue w)) < fuel)%nat -> 0 <= inFlight (w_queue w) ->
  exists w', drain_loop ctx fuel w = (Ok tt, w', []) /\ drained ctx w w'.
Proof.
  revert w; induction fuel as [|fuel IH]; intros w Hlen Hin; [lia|].
  cbn [drain_loop]. unfold mbind, M_bind, ask.
  destruct (w_queue w) as [[|e l] n s] eqn:Eq; cbn [PQ.head entries head] in *.
  { exists w. split; [done|]. constructor; rewrite ?Eq; auto.
    exists []. rewrite !app_nil_r. cbn. split_and!; try done; lia. }
  destruct (admissionFor ctx w) as [cpu m|why hint q] eqn:Ea; cbn [allowed negb].
  2: { exists w. split; [done|]. constructor; rewrite ?Eq, ?Ea; auto.
       exists []. rewrite !app_nil_r. cbn. split_and!; try done; lia. }
  unfold modify. rewrite Eq, remove_head. cbn [snd inFlight].
  set (w1 := set_tasks _ _).
  destruct (IH w1) as (w' & Hrun & [D1 D2 (st & D3 & D4 & D5) D6 D7 D8]); cbn in *; [lia|lia|].
  exists w'. rewrite Hrun. split; [done|].
  constructor; rewrite ?Eq; cbn [entries inFlight settled]; try done.
  - exists (e :: st). cbn [app length]. split_and!; [congruence | | lia].
    rewrite D4. by rewrite <- app_assoc.
  - intros _. apply D7. rewrite admissionFor_reserved in Ea. apply pool_within_admit in Ea.
    unfold reserved in *. rewrite Eq in Ea. cbn in *.
    replace (Z.to_nat (n + 1)) with (S (Z.to_nat n)) by lia.
    cbn [repeat]. by rewrite repeat_cons, app_assoc.
Qed.

Lemma drainQueue_spec ctx w :
  0 <= inFlight (w_queue w) ->
  exists w', drainQueue ctx w = (Ok tt, w', []) /\ drained ctx w w'.
Proof.
  intros Hin. unfold drainQueue, mbind, M_bind, ask.
  destruct (drain_loop_spec ctx (S (length (entries (w_queue w)))) w) as (w' & -> & H); [lia|done|].
  by exists w'.
Qed.

(** ** Release *)
Lemma try_remove_wp ctx I wn w :
  env_keeps I (env ctx) -> I w ->
  wp (try_remove ctx wn) (fun out w' _ => I w' /\
    exists o, out = Ok o /\
      (o = None -> exists x, fst (on_unit (env ctx) (CRemove wn) x) = Ok tt)) w \/
  exists e x, fst (on_unit (env ctx) (CSleep 1500) x) = Throw e.
Proof.
  intros HE Hw. unfold try_remove.
  assert (forall w, I w -> wp (try_catch (_ ← call_unit (env ctx) (CRemove wn); mret None)
            (fun e => mret (Some (exn_msg e))))
    (fun out w' _ => I w' /\ exists o, out = Ok o /\
      (o = None -> exists x, fst (on_unit (env ctx) (CRemove wn) x) = Ok tt)) w) as Hone.
  { clear w Hw. intros w Hw. apply wp_try_catch, wp_bind. unfold wp, call_unit.
    destruct (HE (CRemove wn) w Hw) as (_ & H1 & _).
    destruct (on_unit (env ctx) (CRemove wn) w) as [[[]|e] w1] eqn:Ec; cbn in *.
    - split; [done|]. exists None. split; [done|]. intros _. exists w. by rewrite Ec.
    - split; [done|]. by exists (Some (exn_msg e)). }
  pose proof (Hone w Hw) as H1. unfold wp at 1 in H1.
  set (first := try_catch _ _) in *. destruct (first w) as [[out w1] t1] eqn:Ef.
  destruct H1 as (HI1 & o & -> & Ho). destruct o as [m|].
  - destruct (on_unit (env ctx) (CSleep 1500) w1) as [[[]|e] w2] eqn:Es.
    + left. apply wp_bind. eapply (wp_run first); [exact Ef|]. cbv iota beta.
      apply wp_bind. unfold wp at 1, call_unit. rewrite Es. cbv iota beta.
      destruct (HE (CSleep 1500) w1 HI1) as (_ & H2 & _). rewrite Es in H2.
      eapply wp_mono; [exact (Hone w2 H2)|]. done.
    + right. exists e, w1. by rewrite Es.
  - left. apply wp_bind. eapply (wp_run first); [exact Ef|]. split; [done|]. by exists None.
Qed.

(** A property of the store alone is kept by releases and drains. *)
Definition store_only (I : world -> Prop) : Prop :=
  forall w w', w_store w' = w_store w -> I w -> I w'.

Lemma keeps_modify I f :
  store_only I -> (forall w, w_store (f w) = w_store w) -> keeps I (modify f).
Proof. intros HI Hf w Hw. unfold wp, modify. by apply (HI w). Qed.

Lemma keeps_drain_loop ctx I fuel : store_only I -> keeps I (drain_loop ctx fuel).
Proof.
  intros HI. induction fuel as [|fuel IH]; cbn [drain_loop]; keeps_go.
  - by apply keeps_modify.
  - apply IH.
Qed.

Lemma keeps_releaseWorker ctx I r :
  store_only I -> env_keeps I (env ctx) -> keeps I (releaseWorker ctx r).
Proof.
  intros HI HE. unfold releaseWorker, removePoolAllocation, drainQueue, try_remove.
  keeps_go; first [by apply keeps_modify | by apply keeps_drain_loop].
Qed.

(** ** Properties *)


(** ** A concrete broker, for the witnesses *)
Definition sample_sha : jsstr := js "0123456789abcdef0123456789abcdef01234567".

(** Every call succeeds and nothing else happens. *)
Definition quiet_env : Environment :=
  mkEnv (fun _ w => (Ok (mkSpawn (Some 0) sample_sha [] false false false), w))
        (fun _ w => (Ok tt, w)) (fun _ w => (Ok true, w)) (fun _ w => (Ok [], w))
        (fun _ w => (Ok 0, w)) (fun _ w => (Ok [], w)) (fun _ w => (Ok (mkStats true false 1), w)).

Definition sample_config : BrokerConfig := {|
  stateDir := js "/st"; workerImage := js "debian"; workerNamePrefix := js "ocw";
  projects := [mkProject (js "p") (js "/work/p")]; externalCopyTargets := [];
  protectedPaths := [js "**/.env"]; protectedSecurityFiles := [js "scripts/**"];
  planRootProtection := true; queueMaxLength := 8; queueTimeoutMs := 600000;
  readOnlyAgents := [js "gentle-orchestrator"]; argvLimits := mkArgvLimits 4096 64 65536;
  execTimeoutMsDefault := 120000; execTimeoutMsMax := 600000; contentMaxBytes := 1048576;
  patchMaxBytes := 1048576; pathMaxBytes := 4096; grepQueryMaxBytes := 1024;
  maxApplyDiffLines := 200;
  planWriterAgents := [js "planner"]; planMiniWriterAgents := [js "pm-odd"; js "pm-systematic"];
  advisorProjects := [] |}.

Definition sample_ctx (E : Environment) : OpContext := {|
  cfg := sample_config; budget := computeBudget (host 16 32) default_resource_config;
  host_resources := host 16 32; gitReal := true; host_realpath := plain_realpath; env := E |}.

Definition sample_req (op : Operation) (agent : option jsstr) (payload : jsval) : BrokerRequestEnvelope :=
  {| req_id := js "r-1"; req_operation := op; req_sessionID := js "s"; req_agent := agent;
     req_payload := payload |}.

Definition sample_world (st : store) : world :=
  mkWorld st [] empty_queue [] ∅ (js "t1") 0.

Lemma quiet_env_keeps I : env_keeps I quiet_env.
Proof. intros c w H. by repeat split. Qed.

Lemma one_session_holds sid s w :
  w_store w = one_session sid s ->
  holds sid (apply_patch [P_state s] (fresh_record sid (js "t0"))) w.
Proof. intros H. unfold holds. rewrite H. apply lookup_singleton_eq. Qed.


(** An identity of the read-only list never gets a worker: when the
    session's recorded agent, or for an unbound session the request's, or the
    request's own differing one, is in the list, ensureWorker throws a policy
    error before any state change or external call. *)
Theorem ensureWorker_refuses_readonly ctx req w existing a :
  SessionStore.get (w_store w) (req_sessionID req) = Ok existing ->
  a <> [] -> a ∈ readOnlyAgents (cfg ctx) ->
  coalesce (existing ≫= agent) (req_agent req) = Some a \/ req_agent req = Some a ->
  exists e, ensureWorker ctx req w = (Throw e, w, []) /\ exn_class e = EPolicy.
Proof.
  intros Hget Hne Hin Hor.
  assert (wp (ensureWorker ctx req) (fun out w' t =>
    exists e, out = Throw e /\ w' = w /\ t = [] /\ exn_class e = EPolicy) w) as Hwp.
  2: { unfold wp in Hwp. destruct (ensureWorker ctx req w) as [[out w'] t].
       destruct Hwp as (e & -> & -> & -> & He). by exists e. }
  unfold ensureWorker. set (trusted := coalesce _ _) in *.
  apply wp_bind. eapply (wp_run (store_get _)); [unfold store_get; by rewrite Hget|].
  cbv iota beta zeta. fold trusted. destruct a as [|c a]; [done|].
  assert (forall m, trusted = Some m -> m ∈ readOnlyAgents (cfg ctx) -> m <> [] ->
    exists e, match truthy trusted with
      | Some a => throw_when (mem a (readOnlyAgents (cfg ctx))) (orchestrator_error a)
      | None => mret tt end w = (Throw e, w, []) /\ exn_class e = EPolicy) as Htr.
  { clearbody trusted. intros [|d m] Htm Hm Hnil; [done|]. rewrite Htm. cbv beta iota delta [truthy].
    rewrite (proj2 (mem_true _ _) Hm). eexists. split; reflexivity. }
  apply wp_bind. set (g1 := match truthy trusted with Some _ => _ | None => _ end) in *.
  assert ((exists e, g1 w = (Throw e, w, []) /\ exn_class e = EPolicy) \/
          (g1 w = (Ok tt, w, []) /\ trusted <> Some (c :: a))) as [(e & Hg & He)|[Hg Hnt]].
  { destruct (base.decide (trusted = Some (c :: a))) as [Heq|Hneq]; [left; by eapply Htr|].
    subst g1. destruct (truthy trusted) as [b|]; [|by right]. unfold throw_when.
    destruct (mem b _); [left; eexists; split; reflexivity | by right]. }
  { eapply (wp_run g1); [exact Hg|]. by exists e. }
  eapply (wp_run g1); [exact Hg|]. destruct Hor as [Hor|Hor]; [done|]. rewrite Hor.
  cbn [truthy]. apply wp_bind. rewrite (proj2 (mem_true _ _) Hin).
  rewrite bool_decide_eq_false_2 by congruence.
  by eexists.
Qed.

Lemma ensureWorker_refuses_readonly_witness :
  exists e, ensureWorker (sample_ctx quiet_env)
    (sample_req Op.ensureWorker (Some (js "gentle-orchestrator")) (JObj [(js "projectDir", JStr (js "/work/p"))]))
    (sample_world ∅) = (Throw e, sample_world ∅, []) /\ exn_class e = EPolicy.
Proof.
  apply (ensureWorker_refuses_readonly _ _ _ None (js "gentle-orchestrator"));
    [reflexivity | discriminate | apply list_elem_of_here | right; reflexivity].
Defined.




Definition active_record : SessionRecord :=
  apply_patch [P_state SANDBOX_ACTIVE; P_workerName (Some (js "ocw-s")); P_workerState (Some ACTIVE)]
    (fresh_record (js "s") (js "t0")).

(** An environment whose worker removals fail. *)
Definition stuck_env : Environment :=
  mkEnv (on_proc quiet_env)
    (fun c w => (match c with CRemove _ => Throw (msb_error (js "msb remove failed (status 1)"))
                 | _ => Ok tt end, w))
    (on_bool quiet_env) (on_text quiet_env) (on_int quiet_env) (on_names quiet_env) (on_stats quiet_env).


(** ** Two creations at once *)

Definition ensure_req (sid : string) : BrokerRequestEnvelope :=
  {| req_id := js "r-1"; req_operation := Op.ensureWorker; req_sessionID := js sid; req_agent := None;
     req_payload := JObj [(js "projectDir", JStr (js "/work/p"))] |}.

(** A host whose budget allows one worker. *)
Definition one_worker_ctx (E : Environment) : OpContext :=
  let b := budget (sample_ctx E) in
  {| cfg := sample_config;
     budget := {| perWorkerCpu := perWorkerCpu b; perWorkerMemBytes := perWorkerMemBytes b;
                  maxAggregateCpu := perWorkerCpu b; maxAggregateMemBytes := perWorkerMemBytes b; maxWorkers := 1;
                  hostReservedCpu := hostReservedCpu b; hostReservedMemBytes := hostReservedMemBytes b |};
     host_resources := host 16 32; gitReal := true; host_realpath := plain_realpath; env := E |}.

(** While the first session's creation waits for its first command, the other
    session's request is served in full. *)
Definition racing_env : Environment :=
  mkEnv (fun c w =>
      (Ok (mkSpawn (Some 0) sample_sha [] false false false),
       match w_store w !! js "b" with
       | None => snd (fst (ensureWorker (one_worker_ctx quiet_env) (ensure_req "b") w))
       | Some _ => w
       end))
    (on_unit quiet_env) (on_bool quiet_env) (on_text quiet_env) (on_int quiet_env) (on_names quiet_env) (on_stats quiet_env).

(** Admission does not reserve.  A directly admitted creation joins the
    pool only when its worker runs, so two sessions that ask while neither
    worker runs yet are both admitted: with a budget of one worker both
    requests succeed and two workers run, over every cap.  (Parked requests do
    reserve: see the drain.) *)
Theorem direct_creations_oversubscribe :
  let ctx := one_worker_ctx racing_env in
  let '(out, w', _) := ensureWorker ctx (ensure_req "a") (sample_world ∅) in
  is_ok out = true /\ w_pool (sample_world ∅) = [] /\ maxWorkers (budget ctx) = 1 /\
  length (w_pool w') = 2%nat /\ ~ pool_within (budget ctx) (w_pool w') /\
  forall sid, sid = js "a" \/ sid = js "b" ->
    exists r, holds sid r w' /\ state r = SANDBOX_ACTIVE /\ workerState r = Some ACTIVE.
Proof.
  cbv zeta.
  destruct (ensureWorker (one_worker_ctx racing_env) (ensure_req "a") (sample_world ∅)) as [[out w'] t] eqn:Hrun.
  pose proof (f_equal (fun x => is_ok (fst (fst x))) Hrun) as H1.
  pose proof (f_equal (fun x => length (w_pool (snd (fst x)))) Hrun) as H2.
  pose proof (f_equal (fun x => map (fun s => match w_store (snd (fst x)) !! s with
    | Some (RFRecord r) => bool_decide (state r = SANDBOX_ACTIVE) && bool_decide (workerState r = Some ACTIVE)
    | _ => false end) [js "a"; js "b"]) Hrun) as H3.
  cbn [fst snd] in H1, H2, H3. vm_compute in H1. vm_compute in H2.
  assert (length (w_pool w') = 2%nat) as Hlen by done.
  split; [done|]. split; [done|]. split; [done|]. split; [done|]. split.
  - intros [_ _ Hc]. rewrite Hlen in Hc. cbn in Hc. lia.
  - clear H1 H2 Hrun. match type of H3 with ?l = _ => assert (l = [true; true]) as Ht by (vm_compute; reflexivity) end.
    rewrite Ht in H3. clear Ht. cbn [map] in H3. injection H3 as Ha Hb.
    assert (forall sid, match w_store w' !! sid with
      | Some (RFRecord r) => bool_decide (state r = SANDBOX_ACTIVE) && bool_decide (workerState r = Some ACTIVE)
      | _ => false end = true -> exists r, holds sid r w' /\ state r = SANDBOX_ACTIVE /\ workerState r = Some ACTIVE) as H.
    { intros sid. unfold holds. destruct (w_store w' !! sid) as [[?| |r]|]; try done.
      rewrite andb_true_iff, !bool_decide_eq_true. eauto. }
    intros sid [->| ->]; by apply H.
Qed.
