(* ===== verification/Results.v ===== *)
(** * The result boundary (broker/src/service.ts, prepareResult to destroyWorker)

    Export of a worker's result, its inspection, and the ways it ends: applied
    to the host, kept, discarded; and the explicit destruction of a worker. *)
From Stdlib Require Import QArith.
From S2P Require Import Prelude JsVal Types State Policy Path Validation HostPaths Envelope.
From S2P Require Import RolePolicy GitOps Artifacts Queue Effects Worker Redact.
Open Scope Z_scope.

Definition RESULT_EXCLUDE_PATHS : list jsstr := argv [":(exclude).broker-tmp"; ":(exclude)*.bundle"].
Definition APPLY_PREVIEW_MAX_LINES : Z := 400.

Definition planRootPatterns (config : BrokerConfig) : list jsstr :=
  if planRootProtection config then argv ["odd/tasks/**"; "odd/mini/**"] else [].

(** ** The apply preview *)
Record ApplyPreview := mkPreview {
  files : Z; addedLines : Z; removedLines : Z; totalLines : Z;
  preview : jsstr; previewTruncated : bool
}.

(** One line's contribution to the counts. *)
Definition count_line (acc : Z * Z * Z) (line : jsstr) : Z * Z * Z :=
  let '(f, a, r) := acc in
  if startsWith line (js "diff --git ") then (f + 1, a, r)
  else if startsWith line (js "+") && negb (startsWith line (js "+++")) then (f, a + 1, r)
  else if startsWith line (js "-") && negb (startsWith line (js "---")) then (f, a, r + 1)
  else (f, a, r).

Definition buildApplyPreview (diff : jsstr) : ApplyPreview :=
  let lines := if js_length diff =? 0 then [] else split_on 10 diff in
  let '(f, a, r) := foldl count_line (0, 0, 0) lines in
  let total := Z.of_nat (length lines) in
  let truncated := APPLY_PREVIEW_MAX_LINES <? total in
  let shown := if truncated then take (Z.to_nat APPLY_PREVIEW_MAX_LINES) lines else lines in
  let text := join_with [10%N] shown in
  mkPreview f a r total
    (if truncated
     then text ++ [10%N] ++ js "(... preview truncated: showing " ++ dec APPLY_PREVIEW_MAX_LINES
            ++ js " of " ++ dec total ++ js " lines; see previewFile for the full diff)"
     else text)
    truncated.

Definition preview_json (p : ApplyPreview) : jsval :=
  JObj [(js "files", jint (files p)); (js "addedLines", jint (addedLines p));
        (js "removedLines", jint (removedLines p)); (js "totalLines", jint (totalLines p));
        (js "preview", JStr (preview p)); (js "previewTruncated", JBool (previewTruncated p))].

Record ApplyPreviewFiles := mkPreviewFiles { pf_plain : jsstr; pf_ansi : jsstr }.

Definition preview_files_json (f : ApplyPreviewFiles) : jsval :=
  JObj [(js "plain", JStr (pf_plain f)); (js "ansi", JStr (pf_ansi f))].

(** [record.resultRef ?? resultRef(id)] and the same for the baseline. *)
Definition result_ref_of (record : SessionRecord) (sid : jsstr) : res jsstr :=
  match Types.resultRef record with Some r => Ok r | None => GitOps.resultRef sid end.
Definition baseline_ref_of (record : SessionRecord) (sid : jsstr) : res jsstr :=
  match Types.baselineRef record with Some r => Ok r | None => GitOps.baselineRef sid end.

Definition confirmed (payload : jsval) (word : string) : bool :=
  match field payload (js "confirm") with JStr s => str_eqb s (js word) | _ => false end.

Definition confirm_error (op word : string) : exn :=
  invalid_ [js op; js " requires confirm: "; [34%N]; js word; [34%N]].

Section results.
  Context (ctx : OpContext).
#[local] Abbreviation E := (env ctx).

Definition writeFileAtomic (target content : jsstr) : M unit :=
  uuid ← call_text E CRandomUUID;
  let tmp := join [dirname target; js "." ++ basename target ++ js "." ++ uuid ++ js ".tmp"] in
  try_finally
    (_ ← call_unit E (CWriteFile tmp content 384);
     _ ← call_unit E (CChmod tmp 384);
     call_unit E (CRename tmp target))
    (call_unit E (CRm tmp)).

Definition writeApplyPreviewFiles (sid diff : jsstr) : M ApplyPreviewFiles :=
  _ ← call_unit E (CMkdir (join [stateDir (cfg ctx); js "apply-preview"]));
  let plain := applyPreviewPathFor (stateDir (cfg ctx)) sid in
  let ansi := applyPreviewAnsiPathFor (stateDir (cfg ctx)) sid in
  _ ← writeFileAtomic plain diff;
  _ ← writeFileAtomic ansi (coloriseDiff diff);
  mret (mkPreviewFiles plain ansi).

Definition ensureCompleteApplyPreview (sid completeDiff : jsstr) : M ApplyPreviewFiles :=
  try_catch
    (files ← writeApplyPreviewFiles sid completeDiff;
     onDisk ← call_text E (CReadFile (pf_plain files));
     _ ← throw_when (negb (str_eqb onDisk completeDiff))
           (Exn EError (js "plain preview artifact does not match the complete B->C diff"));
     mret files)
    (fun err => throw (state_error (js "apply-preview artifact unavailable: " ++ trimErr (exn_msg err)
       ++ js "; refusing to apply without a complete preview (result retained)"))).

(** ** Export *)
Definition safe_directory : jsval :=
  env_of [(js "GIT_CONFIG_COUNT", js "1"); (js "GIT_CONFIG_KEY_0", js "safe.directory");
          (js "GIT_CONFIG_VALUE_0", js "/work")].

Definition work_git (worker : jsstr) (a : list jsstr) (ms : Z) : M SpawnResult :=
  exec ctx worker a (opt_env (Some (js "/work")) ms safe_directory).

(** A step whose non-zero status is an [MsbError] with the given text. *)
Definition must_msb (r : SpawnResult) (message : jsstr) : M unit :=
  throw_when (negb (ok_status r)) (msb_error message).

(** The worker's half: stage, commit what is new, publish the ref, bundle it
    and copy the bundle out. *)
Definition export_bundle (sid worker ref hostBundle : jsstr) : M unit :=
  let workerBundle := js "/work/.broker-tmp/result-" ++ sid ++ js ".bundle" in
  stagingDir ← exec ctx worker (argv ["mkdir"; "-p"; "/work/.broker-tmp"]) (opt_cwd (js "/work") 30000);
  _ ← must_msb stagingDir (js "result bundle staging directory failed: " ++ trimErr (stderr stagingDir));
  add ← work_git worker (argv ["git"; "add"; "-A"; "--"; "."] ++ RESULT_EXCLUDE_PATHS) 60000;
  _ ← must_msb add (js "result staging failed: " ++ trimErr (stderr add));
  staged ← work_git worker (argv ["git"; "diff"; "--cached"; "--quiet"]) 60000;
  _ ← (if ok_status staged then mret tt else
       commit ← work_git worker (argv ["git"; "commit"; "-q"; "-m"]
                  ++ [js "opencode-sandbox result for " ++ sid]) 60000;
       must_msb commit (js "result commit failed: " ++ trimErr (stderr commit)));
  updated ← work_git worker (argv ["git"; "update-ref"] ++ [ref; js "HEAD"]) 60000;
  _ ← must_msb updated (js "result ref staging failed: " ++ trimErr (stderr updated));
  bundle ← work_git worker (argv ["git"; "bundle"; "create"] ++ [workerBundle; ref]) 120000;
  _ ← must_msb bundle (js "result bundle creation failed: " ++ trimErr (stderr bundle));
  call_unit E (CCopyOut worker workerBundle hostBundle).

Definition fetch_argv (hostBundle ref : jsstr) : list jsstr :=
  argv ["git"; "fetch"; "--no-tags"] ++ [hostBundle; js "+" ++ ref ++ js ":" ++ ref].

(** The host's half: verify the bundle and fetch the ref out of it. *)
Definition import_bundle (record : SessionRecord) (sid ref hostBundle : jsstr) : M jsstr :=
  if negb (gitReal ctx) then mret ref else
  verify ← git ctx (argv ["git"; "bundle"; "verify"] ++ [hostBundle]) (opt_timeout 60000);
  _ ← must_msb verify (js "result bundle verification failed: " ++ trim (stderr verify));
  match projectID record with
  | None => throw (state_error (js "project not in allowlist"))
  | Some pid =>
      dir ← lift (projectDirFor ctx pid);
      imported ← git ctx (fetch_argv hostBundle ref) (opt_cwd dir 120000);
      _ ← must_msb imported (js "result import failed: " ++ trim (stderr imported));
      _ ← gcSessionArtifacts ctx sid (js "prepareResult") true;
      mret ref
  end.

Definition runPrepare (sid : jsstr) : M jsstr :=
  record ← recordOr404 sid;
  worker ← lift (requireActiveWorker record);
  ref ← lift (GitOps.resultRef sid);
  _ ← call_unit E (CMkdir (join [stateDir (cfg ctx); js "bundles"]));
  let hostBundle := bundlePathFor (stateDir (cfg ctx)) sid in
  _ ← export_bundle sid worker ref hostBundle;
  import_bundle record sid ref hostBundle.

Definition prepareResult (req : BrokerRequestEnvelope) : M jsval :=
  let sid := req_sessionID req in
  _ ← lift (payloadOf req);
  record ← recordOr404 sid;
  _ ← throw_when (negb (bool_decide (state record = SANDBOX_ACTIVE))
                  && negb (bool_decide (state record = RESULT_READY)))
        (state_error (js "cannot prepare result from state " ++ state_name (state record)));
  ref ← runPrepare sid;
  record ← (if bool_decide (state record = SANDBOX_ACTIVE)
            then store_transition sid SANDBOX_ACTIVE RESULT_READY [P_resultRef (Some ref)]
            else mret record);
  mret (JObj [(js "resultRef", JStr ref); (js "state", JStr (state_name (state record)));
              (js "imported", JBool true)]).

(** ** Host comparisons *)
Definition divergence_artifact (sid : jsstr) : ArtifactPath :=
  mkArtifact K_divergence_index (divergenceIndexPathFor (stateDir (cfg ctx)) sid).

Definition divergence_env (project : Project) (sid : jsstr) : jsval :=
  env_of [(js "GIT_DIR", join [project_path project; js ".git"]);
          (js "GIT_INDEX_FILE", divergenceIndexPathFor (stateDir (cfg ctx)) sid)].

Definition ls_files_call (project : Project) (sid : jsstr) : call :=
  CGit (argv ["git"; "ls-files"; "-s"])
    (opt_env (Some (project_path project)) 60000 (divergence_env project sid)).
Definition ls_tree_call (project : Project) (sid baselineRefName : jsstr) : call :=
  CGit (argv ["git"; "ls-tree"; "-r"] ++ [baselineRefName])
    (opt_env None 60000 (divergence_env project sid)).

Definition divergence_of (lsFiles baseline : SpawnResult) : list jsstr :=
  computeDivergence (parseLsTreeLines (split_on 10 (stdout baseline)))
    (parseLsFilesLines (split_on 10 (stdout lsFiles))).

Definition hostDivergence (sid projectID baselineRefName : jsstr) : M (list jsstr) :=
  match project_of ctx projectID with
  | None => throw (state_error (js "no projects configured"))
  | Some project =>
      _ ← call_unit E (CMkdir (join [stateDir (cfg ctx); js "tmp"]));
      _ ← removeArtifact ctx (divergence_artifact sid);
      try_finally
        (currentTree ← git ctx (argv ["git"; "add"; "-A"; "--"])
            (opt_env (Some (project_path project)) 60000 (divergence_env project sid));
         _ ← must currentTree (js "cannot read host working tree: " ++ trim (stderr currentTree));
         lsFiles ← call_proc E (ls_files_call project sid);
         baseline ← call_proc E (ls_tree_call project sid baselineRefName);
         mret (divergence_of lsFiles baseline))
        (_ ← removeArtifact ctx (divergence_artifact sid); mret tt)
  end.

Definition git_dir_env (project : Project) : jsval :=
  env_of [(js "GIT_DIR", join [project_path project; js ".git"])].

Definition changed_paths_call (project : Project) (base result : jsstr) : call :=
  CGit (buildChangedPathsArgv base result) (opt_env None 60000 (git_dir_env project)).

Definition changedPathsBetween (projectID base result : jsstr) : M (list jsstr) :=
  match project_of ctx projectID with
  | None => throw (state_error (js "no projects configured"))
  | Some project =>
      raw ← call_proc E (changed_paths_call project base result);
      _ ← must raw (js "cannot diff result: " ++ trim (stderr raw));
      let parsed := parseNulDelimitedPaths (stdout raw) in
      _ ← throw_when (negb (np_complete parsed))
            (state_error (js "cannot diff result: changed path metadata incomplete"));
      mret (np_paths parsed)
  end.

Definition raw_diff_call (project : Project) (base result : jsstr) : call :=
  CGit (argv ["git"; "diff"; "--raw"; "--no-renames"] ++ [base; result; js "--"; js "."])
    (opt_env (Some (project_path project)) 60000 (git_dir_env project)).

(** The lines of a raw diff, its final newline dropped. *)
Definition raw_lines (text : jsstr) : list jsstr :=
  let lines := if js_length text =? 0 then [] else split_on 10 text in
  match rev lines with
  | [] :: before => rev before
  | _ => lines
  end.

(** Every line classified, or the metadata is malformed. *)
Definition parse_raw_diff (text : jsstr) : option (list FileChange) :=
  let lines := raw_lines text in
  let changes := classifyRawDiff lines in
  if includes text [0%N] || existsb (fun l => js_length l =? 0) lines
     || negb (length changes =? length lines)%nat
  then None else Some changes.

Definition rawChangesBetween (projectID base result : jsstr) : M (list FileChange) :=
  match project_of ctx projectID with
  | None => throw (state_error (js "no projects configured"))
  | Some project =>
      raw ← call_proc E (raw_diff_call project base result);
      _ ← must raw (js "cannot classify result diff: " ++ trim (stderr raw));
      match parse_raw_diff (stdout raw) with
      | None => throw (state_error (js "cannot classify result diff: raw metadata malformed"))
      | Some changes => mret changes
      end
  end.

(** ** Apply *)

(** Back to RESULT_READY with an error on the record, and a refusal. *)
Definition refuse_apply {A} (sid recorded : jsstr) (thrown : exn) : M A :=
  _ ← store_transition sid APPLY_PENDING RESULT_READY [P_error (Some recorded)];
  throw thrown.

Definition list_text (xs : list jsstr) : jsstr := join_with (js ", ") xs.

Definition unsafe_change (c : FileChange) : bool :=
  match fc_kind c with symlink | submodule => true | _ => false end.

Definition change_text (c : FileChange) : jsstr :=
  (match fc_kind c with symlink => js "symlink" | _ => js "submodule" end) ++ js ":" ++ fc_path c.

Definition patch_call (project : Project) (base result : jsstr) : call :=
  CGit (argv ["git"; "diff"] ++ [base; result; js "--"; js "."])
    (opt_cwd (project_path project) 60000).
Definition check_call (project : Project) (patchFile : jsstr) : call :=
  CGit (argv ["git"; "apply"; "--check"] ++ [patchFile]) (opt_cwd (project_path project) 60000).
Definition apply_call (project : Project) (patchFile : jsstr) : call :=
  CGit (argv ["git"; "apply"] ++ [patchFile]) (opt_cwd (project_path project) 120000).

(** The inspections before anything is written: S16, protected paths, plan
    roots, symlinks and submodules. *)
Definition inspect_result (sid projectID base result : jsstr) : M unit :=
  divergence ← hostDivergence sid projectID base;
  _ ← when (negb (bool_decide (divergence = [])))
        (refuse_apply sid
          (js "host diverged from baseline; result retained for reconciliation ("
             ++ list_text (take 10 divergence) ++ js ")")
          (state_error (js "host project diverged from baseline (S16). Automatic apply refused; result retained at "
             ++ result ++ js ". Reconcile manually or discard the result.")));
  changed ← changedPathsBetween projectID base result;
  let rejectedProtected := checkProtectedPaths changed
        (protectedPaths (cfg ctx) ++ protectedSecurityFiles (cfg ctx)) in
  _ ← when (negb (bool_decide (rejectedProtected = [])))
        (refuse_apply sid (js "result touches protected paths: " ++ list_text rejectedProtected)
          (state_error (js "result touches protected paths (S7/S17): " ++ list_text rejectedProtected)));
  let rejectedPlanRoot := checkProtectedPaths changed (planRootPatterns (cfg ctx)) in
  let plan_error := js "result touches plan-root paths (BROKER_PLAN_ROOT_PROTECTION): "
        ++ list_text rejectedPlanRoot in
  _ ← when (negb (bool_decide (rejectedPlanRoot = [])))
        (refuse_apply sid plan_error (state_error plan_error));
  rawChanges ← rawChangesBetween projectID base result;
  let unsafe_error := js "result contains unsafe symlink/submodule changes: "
        ++ list_text (map change_text (List.filter unsafe_change rawChanges)) in
  when (existsb unsafe_change rawChanges) (refuse_apply sid unsafe_error (state_error unsafe_error)).

(** The patch on disk, its complete preview beside it, and the dry run. *)
Definition stage_patch (sid : jsstr) (project : Project) (base result : jsstr)
    : M (jsstr * ApplyPreviewFiles) :=
  let patchFile := patchPathFor (stateDir (cfg ctx)) sid in
  patch ← call_proc E (patch_call project base result);
  _ ← when (negb (ok_status patch))
        (refuse_apply sid (js "diff generation failed")
          (state_error (js "diff generation failed; result retained")));
  _ ← call_unit E (CMkdir (join [stateDir (cfg ctx); js "patches"]));
  _ ← call_unit E (CWriteFile patchFile (stdout patch) 384);
  files ← try_catch (ensureCompleteApplyPreview sid (stdout patch))
            (fun err => refuse_apply sid (exn_msg err) err);
  _ ← lift (buildCheckArgv patchFile);
  check ← call_proc E (check_call project patchFile);
  _ ← when (negb (ok_status check))
        (refuse_apply sid (js "git apply --check failed: " ++ trim (stderr check))
          (state_error (js "git apply --check failed (" ++ trim (stderr check) ++ js "); result retained")));
  mret (stdout patch, files).

(** The mutation of the host and its record. *)
Definition land_patch (sid : jsstr) (project : Project) (result : jsstr) : M SessionRecord :=
  let patchFile := patchPathFor (stateDir (cfg ctx)) sid in
  applied ← call_proc E (apply_call project patchFile);
  _ ← when (negb (ok_status applied))
        (refuse_apply sid (js "apply failed: " ++ trim (stderr applied))
          (state_error (js "apply failed (" ++ trim (stderr applied) ++ js "); host unchanged")));
  store_transition sid APPLY_PENDING APPLIED [P_error None; P_resultRef (Some result)].

(** [releaseWorker], and the record's fields when the worker is gone. *)
Definition release_and_record (sid : jsstr) (record : SessionRecord) : M SessionRecord :=
  outcome ← releaseWorker ctx record;
  if released outcome then store_touch sid destroyed_patch None else mret record.

Definition applyResult (req : BrokerRequestEnvelope) : M jsval :=
  let sid := req_sessionID req in
  payload ← lift (payloadOf req);
  _ ← throw_when (negb (confirmed payload "APPLY")) (confirm_error "applyResult" "APPLY");
  record ← recordOr404 sid;
  _ ← throw_when (negb (bool_decide (state record = RESULT_READY)))
        (state_error (js "cannot apply result from state " ++ state_name (state record)));
  match projectID record ≫= (fun pid => project_of ctx pid ≫= fun p => Some (pid, p)) with
  | None => throw (state_error (js "project not in allowlist"))
  | Some (pid, project) =>
      resultRefName ← lift (result_ref_of record sid);
      baselineRefName ← lift (baseline_ref_of record sid);
      _ ← store_transition sid RESULT_READY APPLY_PENDING [];
      _ ← inspect_result sid pid baselineRefName resultRefName;
      staged ← stage_patch sid project baselineRefName resultRefName;
      record ← land_patch sid project resultRefName;
      record ← release_and_record sid record;
      _ ← gcSessionArtifacts ctx sid (js "applyResult") false;
      mret (JObj [(js "state", JStr (state_name (state record))); (js "applied", JBool true);
                  (js "resultRef", JStr resultRefName);
                  (js "applyPreview", preview_json (buildApplyPreview (fst staged)));
                  (js "applyPreviewFiles", preview_files_json (snd staged))])
  end.

(** ** Keep, discard, destroy *)
Definition keepResult (req : BrokerRequestEnvelope) : M jsval :=
  let sid := req_sessionID req in
  payload ← lift (payloadOf req);
  _ ← throw_when (negb (confirmed payload "KEEP")) (confirm_error "keepResult" "KEEP");
  record ← recordOr404 sid;
  record ← (if bool_decide (state record = SANDBOX_ACTIVE)
            then ref ← runPrepare sid;
                 store_transition sid SANDBOX_ACTIVE RESULT_READY [P_resultRef (Some ref)]
            else mret record);
  _ ← throw_when (negb (bool_decide (state record = RESULT_READY))
                  && negb (bool_decide (state record = APPLIED)))
        (state_error (js "cannot keep result from state " ++ state_name (state record)));
  record ← match truthy (workerName record) with
           | Some _ => release_and_record sid record
           | None => mret record
           end;
  record ← store_transition sid (state record) RETAINED [P_error None];
  _ ← gcSessionArtifacts ctx sid (js "keepResult") false;
  ref ← lift (result_ref_of record sid);
  mret (JObj [(js "state", JStr (state_name (state record))); (js "resultRef", JStr ref);
              (js "retained", JBool true)]).

Definition delete_ref_call (ref : jsstr) : call :=
  CGit (argv ["git"; "update-ref"; "-d"] ++ [ref]) (opt_timeout 30000).

(** The worker fields after a discard. *)
Definition discard_patch (record : SessionRecord) (outcome : WorkerReleaseOutcome) : list field_patch :=
  P_error None ::
  if released outcome
  then [P_workerName None;
        P_workerState (match truthy (workerName record) with Some _ => Some DESTROYED | None => None end)]
  else [P_workerName (workerName record); P_workerState (workerState record)].

Definition discardResult (req : BrokerRequestEnvelope) : M jsval :=
  let sid := req_sessionID req in
  payload ← lift (payloadOf req);
  _ ← throw_when (negb (confirmed payload "REJECT")) (confirm_error "discardResult" "REJECT");
  record ← recordOr404 sid;
  _ ← throw_when (negb (bool_decide (state record = RESULT_READY)))
        (state_error (js "cannot discard result from state " ++ state_name (state record)));
  ref ← lift (result_ref_of record sid);
  _ ← when (gitReal ctx)
        (deleted ← call_proc E (delete_ref_call ref);
         must deleted (js "result ref deletion failed (status " ++ status_text deleted
                       ++ js "); result retained"));
  outcome ← releaseWorker ctx record;
  _ ← store_transition sid RESULT_READY REJECTED (discard_patch record outcome);
  _ ← gcSessionArtifacts ctx sid (js "discardResult") false;
  mret (JObj [(js "state", JStr (js "REJECTED"))]).

Definition destroyWorker (req : BrokerRequestEnvelope) : M jsval :=
  let sid := req_sessionID req in
  let reply w := JObj [(js "destroyed", JBool true); (js "worker", w)] in
  _ ← lift (payloadOf req);
  record ← recordOr404 sid;
  match truthy (workerName record) with
  | None => mret (reply JNull)
  | Some worker =>
      match live_worker record with
      | None => _ ← releaseWorker ctx record; mret (reply (JStr worker))
      | Some _ =>
          outcome ← releaseWorker ctx record;
          _ ← throw_when (negb (released outcome))
                (msb_error (js "worker removal failed for " ++ worker ++ js ": "
                   ++ default (js "unknown error") (release_error outcome)));
          _ ← store_touch sid destroyed_patch None;
          mret (reply (JStr worker))
      end
  end.
End results.
