(* ===== verification/Diff.v ===== *)
(** * Inspection of a result (broker/src/service.ts, buildDiffOp and buildRetainedDiff)

    The diff operation: the worker's tree against its baseline, or the retained
    result on the host, with every output complete or the operation refused. *)
From S2P Require Import Prelude JsVal Types State Policy Path Validation HostPaths Envelope.
From S2P Require Import RolePolicy GitOps Artifacts Queue Effects Worker Redact Results.

Definition diff_too_large (label : string) : exn :=
  invalid_ [js "diff refused: "; js label; js " output exceeds "; dec GIT_OUTPUT_MAX_BYTES; js " bytes"].

Definition assertCompleteOutput (label : string) (r : SpawnResult) : M unit :=
  throw_when (outputTruncated r) (diff_too_large label).

Definition assertDerivedWithinCap (label : string) (output : jsstr) : M unit :=
  throw_when (GIT_OUTPUT_MAX_BYTES <? byteLength output) (diff_too_large label).

(** The changed paths of a name-only listing, unusable when git failed. *)
Definition parsed_paths (r : SpawnResult) : NulDelimitedPaths :=
  if ok_status r then parseNulDelimitedPaths (stdout r) else mkNulPaths [] false.

Definition exit_code (r : SpawnResult) : jsval :=
  match status r with Some z => jint z | None => JNull end.

Definition paths_json (paths : list jsstr) : jsval := JArr (map JStr paths).

(** [/^A[\t ]+(.+)$/] on a trimmed line: the added path. *)
Definition added_path (line : jsstr) : option jsstr :=
  match trim line with
  | 65%N :: c :: rest =>
      let blank := fun d => ((d =? 9) || (d =? 32))%N in
      if negb (blank c) then None else
      let path := (fix skip s := match s with
                                 | d :: s' => if blank d then skip s' else s
                                 | [] => []
                                 end) rest in
      if (0 <? js_length path) && negb (existsb is_line_term path) then Some path else None
  | _ => None
  end.

Section diff.
  Context (ctx : OpContext).
#[local] Abbreviation E := (env ctx).

Definition diff_env (tmpIndex : jsstr) : jsval :=
  env_of [(js "GIT_INDEX_FILE", tmpIndex); (js "GIT_CONFIG_COUNT", js "1");
          (js "GIT_CONFIG_KEY_0", js "safe.directory"); (js "GIT_CONFIG_VALUE_0", js "/work")].

Definition runDiffGit (worker tmpIndex : jsstr) (a : list jsstr) : M SpawnResult :=
  exec ctx worker a (mkOpts (Some (js "/work")) (jint 60000) (diff_env tmpIndex)
                       (Some GIT_OUTPUT_MAX_BYTES)).

(** The comparison of a [.new] file with the first sibling that exists and
    compares. *)
Fixpoint compare_with (worker fresh : jsstr) (candidates : list jsstr) : M jsstr :=
  match candidates with
  | [] => mret []
  | cand :: rest =>
      exists_ ← exec ctx worker (argv ["test"; "-e"] ++ [cand]) (opt_cwd (js "/work") 30000);
      if negb (ok_status exists_) then compare_with worker fresh rest else
      cmp ← exec ctx worker (argv ["git"; "diff"; "--no-index"; "--"] ++ [cand; fresh])
              (mkOpts (Some (js "/work")) (jint 60000) JUndef (Some GIT_OUTPUT_MAX_BYTES));
      _ ← assertCompleteOutput "compare" cmp;
      if negb (ok_status cmp) && negb (bool_decide (status cmp = Some 1))
      then compare_with worker fresh rest
      else mret (stdout cmp ++ [10%N])
  end.

Definition compare_line (worker line : jsstr) : M jsstr :=
  match added_path line with
  | Some fresh =>
      if negb (endsWith fresh (js ".new")) then mret [] else
      compare_with worker fresh
        [take (length fresh - 4) fresh; js ".broker-tmp/ref-" ++ fresh]
  | None => mret []
  end.

Definition active_diff (sid worker ref tmpIndex : jsstr) : M jsval :=
  let run := runDiffGit worker tmpIndex in
  let diffPathspecs := argv ["--"; "."] ++ RESULT_EXCLUDE_PATHS in
  seeded ← run (argv ["git"; "read-tree"] ++ [ref]);
  _ ← must_msb seeded (js "diff baseline staging failed: " ++ trimErr (stderr seeded));
  staged ← run (argv ["git"; "add"; "-A"; "--"; "."] ++ RESULT_EXCLUDE_PATHS);
  _ ← must_msb staged (js "diff working-tree staging failed: " ++ trimErr (stderr staged));
  stat ← run (argv ["git"; "diff"; "--cached"; "--stat"] ++ [ref] ++ diffPathspecs);
  _ ← assertCompleteOutput "stat" stat;
  diff ← run (argv ["git"; "diff"; "--cached"] ++ [ref] ++ diffPathspecs);
  _ ← assertCompleteOutput "diff" diff;
  nameStatus ← run (argv ["git"; "diff"; "--cached"; "--name-status"] ++ [ref] ++ diffPathspecs);
  _ ← assertCompleteOutput "name-status" nameStatus;
  parts ← mapM_ (compare_line worker) (split_on 10 (stdout nameStatus));
  let compare := concat parts in
  changedPathResult ← run (argv ["git"; "diff"; "--cached"; "--name-only"; "--no-renames"; "-z"]
                           ++ [ref] ++ diffPathspecs);
  _ ← assertCompleteOutput "changed-paths" changedPathResult;
  let parsed := parsed_paths changedPathResult in
  _ ← assertDerivedWithinCap "compare" compare;
  let applyPreviewDiff := if 0 <? js_length (trim compare) then compare else stdout diff in
  previewFiles ← writeApplyPreviewFiles ctx sid applyPreviewDiff;
  mret (JObj [(js "stat", JStr (stdout stat)); (js "diff", JStr (stdout diff));
              (js "compare", JStr compare);
              (js "applyPreview", preview_json (buildApplyPreview applyPreviewDiff));
              (js "applyPreviewFiles", preview_files_json previewFiles);
              (js "changedPaths", paths_json (np_paths parsed));
              (js "changedPathsComplete", JBool (ok_status changedPathResult && np_complete parsed));
              (js "exitCode", exit_code diff)]).

Definition retained_git (project : Project) (a : list jsstr) : M SpawnResult :=
  git ctx a (mkOpts (Some (project_path project)) (jint 60000) JUndef (Some GIT_OUTPUT_MAX_BYTES)).

Definition buildRetainedDiff (record : SessionRecord) : M jsval :=
  _ ← throw_when (negb (bool_decide (state record = RESULT_READY))
                  && negb (bool_decide (state record = RETAINED)))
        (state_error (js "cannot inspect retained result from state " ++ state_name (state record)));
  match projectID record ≫= project_of ctx with
  | None => throw (state_error (js "project not in allowlist"))
  | Some project =>
      baseline ← lift (baseline_ref_of record (sessionID record));
      match truthy (Types.resultRef record) with
      | None => throw (state_error (js "retained result has no result ref"))
      | Some result =>
          stat ← retained_git project (argv ["git"; "diff"; "--stat"] ++ [baseline; result]);
          _ ← assertCompleteOutput "stat" stat;
          diff ← retained_git project (argv ["git"; "diff"] ++ [baseline; result]);
          _ ← assertCompleteOutput "diff" diff;
          changedPathResult ← retained_git project (buildChangedPathsArgv baseline result);
          _ ← assertCompleteOutput "changed-paths" changedPathResult;
          let parsed := parsed_paths changedPathResult in
          mret (JObj [(js "stat", JStr (stdout stat)); (js "diff", JStr (stdout diff));
                      (js "compare", JStr []); (js "changedPaths", paths_json (np_paths parsed));
                      (js "changedPathsComplete",
                        JBool (ok_status changedPathResult && np_complete parsed));
                      (js "exitCode", exit_code diff)])
      end
  end.

Definition diff (req : BrokerRequestEnvelope) : M jsval :=
  payload ← lift (payloadOf req);
  which ← match field payload (js "mode") with
         | JUndef | JNull => mret (js "active")
         | JStr m => if str_eqb m (js "active") || str_eqb m (js "retained") then mret m
                     else throw (invalid "diff mode must be active or retained")
         | _ => throw (invalid "diff mode must be active or retained")
         end;
  record ← recordOr404 (req_sessionID req);
  if str_eqb which (js "retained") then buildRetainedDiff record else
  worker ← lift (requireActiveWorker record);
  ref ← lift (baseline_ref_of record (sessionID record));
  uuid ← call_text E CRandomUUID;
  let tmpIndex := js "/work/.broker-tmp/diff-" ++ uuid ++ js ".index" in
  stagingDir ← exec ctx worker (argv ["mkdir"; "-p"; "/work/.broker-tmp"]) (opt_cwd (js "/work") 30000);
  _ ← must_msb stagingDir (js "diff staging directory failed: " ++ trimErr (stderr stagingDir));
  try_finally (active_diff (req_sessionID req) worker ref tmpIndex)
    (_ ← exec ctx worker (argv ["rm"; "-f"; "--"] ++ [tmpIndex]) (opt_cwd (js "/work") 30000);
     mret tt).
End diff.
