(* ===== verification/ResultFacts.v ===== *)
(** * Properties of the result boundary

    Theorems about Results.v: what is known before the host is touched, where
    an apply can end, and what an export has shown. *)
From Stdlib Require Import QArith.
From S2P Require Import Prelude JsVal Types State Policy Path Validation HostPaths Envelope.
From S2P Require Import RolePolicy GitOps Artifacts Queue Effects Worker WorkerFacts Results.
Open Scope Z_scope.

(** Walks through a handler one call at a time; what remains is a statement
    about a concrete trace. *)
Ltac always_step :=
  lazymatch goal with
  | |- always (mret _) _ => apply always_ret
  | |- always (throw _) _ => apply always_throw
  | |- always (lift _) _ => apply always_lift
  | |- always (ask _) _ => apply always_ask; intros ?
  | |- always (modify _) _ => apply always_modify
  | |- always (store_get _) _ => apply always_store_get; intros ?
  | |- always store_list _ => apply always_store_list; intros ?
  | |- always (store_touch _ _ _) _ => apply always_store_touch; intros ?
  | |- always (store_transition _ _ _ _) _ => apply always_store_transition; intros ?
  | |- always (call_proc _ _) _ => apply always_call_proc; intros ?
  | |- always (call_unit _ _) _ => apply always_call_unit; intros ?
  | |- always (call_bool _ _) _ => apply always_call_bool; intros ?
  | |- always (call_text _ _) _ => apply always_call_text; intros ?
  | |- always (call_int _ _) _ => apply always_call_int; intros ?
  | |- always (call_names _ _) _ => apply always_call_names; intros ?
  | |- always (throw_when _ _) _ => apply always_throw_when; intros ?
  | |- always (must _ _) _ => apply always_throw_when; intros ?
  | |- always (must_msb _ _) _ => apply always_throw_when; intros ?
  | |- always (git _ _ _) _ => apply always_call_proc; intros ?
  | |- always (exec _ _ _ _) _ => apply always_call_proc; intros ?
  | |- always (log _ _ _ _ _) _ => apply always_call_unit; intros ?
  | |- always (mbind _ _) _ => apply always_bind
  | |- always (try_catch _ _) _ => apply always_try_catch
  | |- always (try_finally _ _) _ => apply always_try_finally
  | |- always (best_effort _) _ => apply always_try_catch
  | |- always (when ?b _) _ => destruct b eqn:?; cbn [when]
  | |- always (match ?x with _ => _ end) _ => destruct x eqn:?
  | |- match ?x with Ok _ => _ | Throw _ => _ end => destruct x eqn:?
  end.

Lemma always_any {A} (m : M A) (Q : res A -> list event -> Prop) : (forall r t, Q r t) -> always m Q.
Proof. intros H w. unfold wp. by destruct (m w) as [[r w'] t]. Qed.

(** ** The host is touched only after every check *)

(** [git apply <patch>] on the host. *)
Definition is_apply (e : event) : Prop :=
  exists patchFile opts, call_of e = CGit (argv ["git"; "apply"] ++ [patchFile]) opts.

Definition quiet (t : list event) : Prop := Forall (fun e => ~ is_apply e) t.

Ltac quiet_go :=
  unfold quiet; rewrite ?Forall_app; repeat split; repeat constructor;
  try (intros (? & ? & [=])); try assumption.

Ltac in_trace := rewrite ?elem_of_app, ?list_elem_of_singleton; tauto.

Lemma refuse_apply_always {A} sid m e (Q : res A -> list event -> Prop) :
  (forall e', Q (Throw e') []) -> always (refuse_apply sid m e) Q.
Proof. intros H. unfold refuse_apply. repeat always_step; apply H. Qed.

Lemma removeArtifact_always ctx a Q :
  (forall r t, quiet t -> Q (Ok r) t) -> always (removeArtifact ctx a) Q.
Proof.
  intros H. unfold removeArtifact. repeat always_step; cbn [app]; apply H; quiet_go.
Qed.

Lemma checkProtectedPaths_nil changed patterns :
  checkProtectedPaths changed patterns = [] ->
  forall p pat, p ∈ changed -> pat ∈ patterns -> globMatch pat p = false.
Proof.
  unfold checkProtectedPaths. intros H p pat Hp Hpat. destruct (globMatch pat p) eqn:Hm; [|done].
  exfalso. assert (p ∈ (@nil jsstr)) as Hin; [|by apply not_elem_of_nil in Hin].
  rewrite <- H. apply list_elem_of_In, filter_In. split; [by apply list_elem_of_In|].
  apply existsb_exists. exists pat. by rewrite <- list_elem_of_In.
Qed.

Lemma existsb_false_Forall {A} (f : A -> bool) l :
  existsb f l = false -> Forall (fun x => f x = false) l.
Proof.
  intros H. apply Forall_forall. intros x Hx. destruct (f x) eqn:Hf; [|done].
  rewrite <- H. symmetry. apply existsb_exists. exists x. by rewrite <- list_elem_of_In.
Qed.

Lemma decided_nil {A} `{EqDecision A} (l : list A) : negb (bool_decide (l = [])) = false -> l = [].
Proof. rewrite negb_false_iff. apply bool_decide_eq_true. Qed.

(** Walks until a handler of the development is reached, closing the branches
    that throw quietly with [HT]. *)
Ltac throws_quietly HT :=
  first [ solve [apply HT; quiet_go]
        | apply refuse_apply_always; intros ?; solve [apply HT; quiet_go] ].
Ltac always_walk HT := repeat (always_step; try throws_quietly HT).

Section checks.
  Context (ctx : OpContext) (sid pid : jsstr) (project : Project) (base result : jsstr).
  Hypothesis Hproject : project_of ctx pid = Some project.

(** The baseline check saw the host equal to the baseline. *)
Definition host_matches (t : list event) : Prop :=
  exists lf lt, EvProc (ls_files_call ctx project sid) (Ok lf) ∈ t /\
    EvProc (ls_tree_call ctx project sid base) (Ok lt) ∈ t /\ divergence_of lf lt = [].

(** The changed paths were read whole, and none is protected. *)
Definition paths_unprotected (t : list event) : Prop :=
  exists ch, EvProc (changed_paths_call project base result) (Ok ch) ∈ t /\ ok_status ch = true /\
    np_complete (parseNulDelimitedPaths (stdout ch)) = true /\
    forall p pat, p ∈ np_paths (parseNulDelimitedPaths (stdout ch)) ->
      pat ∈ protectedPaths (cfg ctx) ++ protectedSecurityFiles (cfg ctx) ++ planRootPatterns (cfg ctx) ->
      globMatch pat p = false.

(** Every raw change was classified, and none is a symlink or submodule. *)
Definition changes_plain (t : list event) : Prop :=
  exists rw changes, EvProc (raw_diff_call project base result) (Ok rw) ∈ t /\ ok_status rw = true /\
    parse_raw_diff (stdout rw) = Some changes /\
    Forall (fun c => unsafe_change c = false) changes.

(** The patch was generated and written, its preview read back equal to it,
    and the dry run succeeded. *)
Definition patch_staged (patchFile : jsstr) (t : list event) : Prop :=
  exists p c, EvProc (patch_call project base result) (Ok p) ∈ t /\ ok_status p = true /\
    EvUnit (CWriteFile patchFile (stdout p) 384) (Ok tt) ∈ t /\
    EvText (CReadFile (applyPreviewPathFor (stateDir (cfg ctx)) sid)) (Ok (stdout p)) ∈ t /\
    EvProc (check_call project patchFile) (Ok c) ∈ t /\ ok_status c = true.

Lemma hostDivergence_always Q :
  (forall e t, quiet t -> Q (Throw e) t) ->
  (forall lf lt t, quiet t -> EvProc (ls_files_call ctx project sid) (Ok lf) ∈ t ->
     EvProc (ls_tree_call ctx project sid base) (Ok lt) ∈ t -> Q (Ok (divergence_of lf lt)) t) ->
  always (hostDivergence ctx sid pid base) Q.
Proof using Hproject.
  intros HT HO. unfold hostDivergence. rewrite Hproject.
  always_step. always_step. always_step; [|apply HT; quiet_go].
  always_step. apply removeArtifact_always. intros a1 t1 Ht1.
  always_step. repeat always_step; apply removeArtifact_always; intros a2' t2 Ht2; repeat always_step;
    first [apply HT; quiet_go | apply HO; [quiet_go | in_trace | in_trace]].
Qed.

Lemma changedPathsBetween_always Q :
  (forall e t, quiet t -> Q (Throw e) t) ->
  (forall ch t, quiet t -> EvProc (changed_paths_call project base result) (Ok ch) ∈ t ->
     ok_status ch = true -> np_complete (parseNulDelimitedPaths (stdout ch)) = true ->
     Q (Ok (np_paths (parseNulDelimitedPaths (stdout ch)))) t) ->
  always (changedPathsBetween ctx pid base result) Q.
Proof using Hproject.
  intros HT HO. unfold changedPathsBetween. rewrite Hproject. repeat always_step;
    first [apply HT; quiet_go
          | apply HO; [quiet_go | in_trace | by apply negb_false_iff | by apply negb_false_iff]].
Qed.

Lemma rawChangesBetween_always Q :
  (forall e t, quiet t -> Q (Throw e) t) ->
  (forall rw changes t, quiet t -> EvProc (raw_diff_call project base result) (Ok rw) ∈ t ->
     ok_status rw = true -> parse_raw_diff (stdout rw) = Some changes -> Q (Ok changes) t) ->
  always (rawChangesBetween ctx pid base result) Q.
Proof using Hproject.
  intros HT HO. unfold rawChangesBetween. rewrite Hproject. repeat always_step;
    first [apply HT; quiet_go | eapply HO; [quiet_go | in_trace | by apply negb_false_iff | done]].
Qed.

Lemma inspect_result_always Q :
  (forall e t, quiet t -> Q (Throw e) t) ->
  (forall t, quiet t -> host_matches t -> paths_unprotected t -> changes_plain t -> Q (Ok tt) t) ->
  always (inspect_result ctx sid pid base result) Q.
Proof using Hproject.
  intros HT HO. unfold inspect_result.
  always_step. apply hostDivergence_always; [done|]. intros lf lt t1 Ht1 Hlf Hlt.
  always_walk HT. apply changedPathsBetween_always.
  { intros e t Ht. apply HT. quiet_go. }
  intros ch t2 Ht2 Hch Hok Hcomplete. always_walk HT. apply rawChangesBetween_always.
  { intros e t Ht. apply HT. quiet_go. }
  intros rw changes t3 Ht3 Hrw Hrok Hparse. always_walk HT. apply HO; [quiet_go | | |].
  - exists lf, lt. split_and!; [in_trace | in_trace | by apply decided_nil].
  - exists ch. split_and!; [in_trace | done | done |]. intros p pat Hp Hpat.
    rewrite app_assoc in Hpat. apply elem_of_app in Hpat as [Hpat|Hpat];
      eapply checkProtectedPaths_nil; try done; by apply decided_nil.
  - exists rw, changes. split_and!; [in_trace | done | done | by apply existsb_false_Forall].
Qed.

Lemma writeFileAtomic_always target content Q :
  (forall r t, quiet t -> Q r t) -> always (writeFileAtomic ctx target content) Q.
Proof using.
  intros H. unfold writeFileAtomic. repeat always_step; apply H; quiet_go.
Qed.

Lemma ensureCompleteApplyPreview_always diff Q :
  (forall e t, quiet t -> Q (Throw e) t) ->
  (forall files t, quiet t ->
     EvText (CReadFile (applyPreviewPathFor (stateDir (cfg ctx)) sid)) (Ok diff) ∈ t ->
     Q (Ok files) t) ->
  always (ensureCompleteApplyPreview ctx sid diff) Q.
Proof using.
  intros HT HO. unfold ensureCompleteApplyPreview, writeApplyPreviewFiles.
  repeat first [apply writeFileAtomic_always; intros ? ? ? | always_step];
    first [apply HT; quiet_go | apply HO; [quiet_go|]].
  apply negb_false_iff, str_eqb_eq in H1. subst. cbn [pf_plain]. in_trace.
Qed.

Lemma stage_patch_always Q :
  (forall e t, quiet t -> Q (Throw e) t) ->
  (forall x t, quiet t -> patch_staged (patchPathFor (stateDir (cfg ctx)) sid) t -> Q (Ok x) t) ->
  always (stage_patch ctx sid project base result) Q.
Proof using.
  intros HT HO. unfold stage_patch. cbv zeta.
  always_walk HT. apply ensureCompleteApplyPreview_always.
  { intros e t Ht. apply refuse_apply_always. intros e'. apply HT. quiet_go. }
  intros previewFiles t Ht Hread. always_walk HT. apply HO; [quiet_go|].
  destruct a0, a1. exists a, a3. apply negb_false_iff in Heqb, Heqb0. split_and!; try done; in_trace.
Qed.

(** Everything the host was checked against before it is touched. *)
Record approved (patchFile : jsstr) (t : list event) : Prop := {
  ap_host : host_matches t;
  ap_paths : paths_unprotected t;
  ap_changes : changes_plain t;
  ap_patch : patch_staged patchFile t
}.

Lemma host_matches_app t u : host_matches t -> host_matches (t ++ u).
Proof. intros (lf & lt & H1 & H2 & H3). exists lf, lt. split_and!; [in_trace | in_trace | done]. Qed.
Lemma paths_unprotected_app t u : paths_unprotected t -> paths_unprotected (t ++ u).
Proof. intros (ch & H1 & H2). exists ch. split; [in_trace | done]. Qed.
Lemma changes_plain_app t u : changes_plain t -> changes_plain (t ++ u).
Proof. intros (rw & cs & H1 & H2). exists rw, cs. split; [in_trace | done]. Qed.
Lemma patch_staged_app f t u : patch_staged f t -> patch_staged f (u ++ t).
Proof. intros (p & c & H1 & H2 & H3 & H4 & H5 & H6). exists p, c. split_and!; try done; in_trace. Qed.

Lemma approved_app f t u : approved f t -> approved f (t ++ u).
Proof.
  intros [H1 H2 H3 (p & c & H4 & H5 & H6 & H7 & H8 & H9)]. constructor.
  - by apply host_matches_app.
  - by apply paths_unprotected_app.
  - by apply changes_plain_app.
  - exists p, c. split_and!; try done; in_trace.
Qed.
End checks.

Lemma precedes_mono P G pre t :
  (forall t u, G t -> G (t ++ u)) -> G pre -> precedes P G pre t.
Proof. intros Hm Hpre t1 e t2 _ _. by apply Hm. Qed.

(** The whole of an apply after its transition to APPLY_PENDING. *)
Definition apply_body ctx sid pid project base result : M jsval :=
  _ ← inspect_result ctx sid pid base result;
  staged ← stage_patch ctx sid project base result;
  record ← land_patch ctx sid project result;
  record ← release_and_record ctx sid record;
  _ ← gcSessionArtifacts ctx sid (js "applyResult") false;
  mret (JObj [(js "state", JStr (state_name (state record))); (js "applied", JBool true);
              (js "resultRef", JStr result);
              (js "applyPreview", preview_json (buildApplyPreview (fst staged)));
              (js "applyPreviewFiles", preview_files_json (snd staged))]).

(** What is known of an apply from its record on. *)
Definition apply_shape ctx sid project base result (out : res jsval) (t : list event) : Prop :=
  let patchFile := patchPathFor (stateDir (cfg ctx)) sid in
  precedes is_apply (approved ctx sid project base result patchFile) [] t /\
  (is_ok out = true -> exists a, EvProc (apply_call project patchFile) (Ok a) ∈ t /\ ok_status a = true).

Lemma apply_shape_quiet ctx sid project base result e t :
  quiet t -> apply_shape ctx sid project base result (Throw e) t.
Proof. intros H. split; [by apply precedes_none | done]. Qed.

Lemma apply_result_always ctx sid pid project base result :
  project_of ctx pid = Some project ->
  always (apply_body ctx sid pid project base result) (apply_shape ctx sid project base result).
Proof.
  intros Hp. unfold apply_body. always_step. apply inspect_result_always with (project := project); [done| |].
  { intros e t Ht. by apply apply_shape_quiet. }
  intros t1 Hq1 Hh Hpu Hc. always_step. apply stage_patch_always.
  { intros e t Ht. apply apply_shape_quiet. quiet_go. }
  intros x t2 Hq2 Hs. always_step. unfold land_patch. cbv zeta.
  assert (approved ctx sid project base result (patchPathFor (stateDir (cfg ctx)) sid) (t1 ++ t2)) as Happ.
  { constructor; [by apply host_matches_app | by apply paths_unprotected_app
                 | by apply changes_plain_app | by apply patch_staged_app]. }
  assert (forall u, precedes is_apply
    (approved ctx sid project base result (patchPathFor (stateDir (cfg ctx)) sid)) [] (t1 ++ t2 ++ u)) as Hpre.
  { intros u. rewrite app_assoc. apply precedes_app; [apply precedes_none; quiet_go|].
    apply precedes_mono; [intros; by apply approved_app | done]. }
  assert (forall a u (out : res jsval), ok_status a = true ->
    EvProc (apply_call project (patchPathFor (stateDir (cfg ctx)) sid)) (Ok a) ∈ u ->
    apply_shape ctx sid project base result out (t1 ++ t2 ++ u)) as Hdone.
  { intros a u out Ha Hin. split; [apply Hpre|]. intros _. exists a. split; [in_trace | done]. }
  repeat always_step;
    first [ apply refuse_apply_always; intros ?; by split
          | by split
          | apply negb_false_iff in Heqb; apply always_any; intros [?|?] ?;
              [apply always_any; intros ? ?|]; eapply Hdone; [done | in_trace | done | in_trace]
          | apply negb_false_iff in Heqb; eapply Hdone; [done | in_trace] ].
Qed.

(** ** The record follows the host *)
Lemma wp_always {A} (m : M A) Q (R : res A -> list event -> Prop) w :
  wp m Q w -> always m R -> wp m (fun r w' t => Q r w' t /\ R r t) w.
Proof. intros H1 H2. specialize (H2 w). unfold wp in *. by destruct (m w) as [[r w'] t]. Qed.

Section record_follows.
  Context (ctx : OpContext) (sid : jsstr).
  Hypothesis Hlock : session_locked sid (env ctx).

(** From a record [r1] in APPLY_PENDING: kept while the checks go on and when
    one of them throws, and sent back to RESULT_READY with an error by a
    refusal. *)
Definition pending (r1 : SessionRecord) {A} (out : res A) (w' : world) : Prop :=
  match out with
  | Ok _ => holds sid r1 w'
  | Throw _ => exists r', holds sid r' w' /\
      (r' = r1 \/ (state r' = RESULT_READY /\ Types.error r' <> None))
  end.

Lemma pending_throw r1 {A} e w : holds sid r1 w -> pending r1 (@Throw A e) w.
Proof. intros H. exists r1. auto. Qed.

Lemma wp_bind_pending {A B} r1 (m : M A) (f : A -> M B) w :
  wp m (fun out w1 _ => pending r1 out w1) w ->
  (forall a w1, holds sid r1 w1 -> wp (f a) (fun out w2 _ => pending r1 out w2) w1) ->
  wp (mbind f m) (fun out w2 _ => pending r1 out w2) w.
Proof.
  intros Hm Hf. apply wp_bind. eapply wp_mono; [exact Hm|].
  intros [a|e] w1 t1 H1; [by apply Hf | exact H1].
Qed.

Lemma wp_keeps_pending {A} r1 (m : M A) w :
  keeps (holds sid r1) m -> holds sid r1 w -> wp m (fun out w1 _ => pending r1 out w1) w.
Proof.
  intros Hm Hw. eapply wp_mono; [exact (Hm w Hw)|].
  intros [a|e] w1 t1 H1; [done | by apply pending_throw].
Qed.

Lemma refuse_apply_wp {A} r1 m e w :
  holds sid r1 w -> sessionID r1 = sid -> state r1 = APPLY_PENDING ->
  wp (@refuse_apply A sid m e) (fun out w1 _ => pending r1 out w1) w.
Proof using.
  intros Hw Hid Hst. unfold refuse_apply. apply wp_bind.
  destruct (store_transition_run sid APPLY_PENDING RESULT_READY [P_error (Some m)] r1 w)
    as (Hrun & _ & Hs); try done.
  eapply (wp_run (store_transition _ _ _ _)); [exact Hrun|]. cbv iota beta.
  eexists. split; [apply holds_insert|]. right. by split.
Qed.

Lemma when_refuse_wp b r1 m e w :
  holds sid r1 w -> sessionID r1 = sid -> state r1 = APPLY_PENDING ->
  wp (when b (refuse_apply sid m e)) (fun out w1 _ => pending r1 out w1) w.
Proof using. destruct b; [apply refuse_apply_wp | done]. Qed.

Lemma keeps_hostDivergence I pid base : env_keeps I (env ctx) -> keeps I (hostDivergence ctx sid pid base).
Proof using. intros HE. unfold hostDivergence. keeps_go. Qed.
Lemma keeps_changedPathsBetween I pid base result :
  env_keeps I (env ctx) -> keeps I (changedPathsBetween ctx pid base result).
Proof using. intros HE. unfold changedPathsBetween. keeps_go. Qed.
Lemma keeps_rawChangesBetween I pid base result :
  env_keeps I (env ctx) -> keeps I (rawChangesBetween ctx pid base result).
Proof using. intros HE. unfold rawChangesBetween. keeps_go. Qed.
Lemma keeps_ensureCompleteApplyPreview I d :
  env_keeps I (env ctx) -> keeps I (ensureCompleteApplyPreview ctx sid d).
Proof using.
  intros HE. unfold ensureCompleteApplyPreview, writeApplyPreviewFiles, writeFileAtomic. keeps_go.
Qed.

Section from_pending.
  Context (r1 : SessionRecord) (Hid : sessionID r1 = sid) (Hst : state r1 = APPLY_PENDING).

Ltac pending_step :=
  first [ apply wp_bind_pending; [first [by apply when_refuse_wp
            | apply wp_keeps_pending; [|done]; pose proof (Hlock r1);
              first [by apply keeps_hostDivergence | by apply keeps_changedPathsBetween
                    | by apply keeps_rawChangesBetween | solve [keeps_go]]]
          | intros ? ? ?; cbv zeta]
        | by apply when_refuse_wp ].

Lemma inspect_result_wp pid base result w :
  holds sid r1 w ->
  wp (inspect_result ctx sid pid base result) (fun out w1 _ => pending r1 out w1) w.
Proof using Hlock Hid Hst. intros Hw. unfold inspect_result. repeat pending_step. Qed.

Lemma stage_patch_wp project base result w :
  holds sid r1 w ->
  wp (stage_patch ctx sid project base result) (fun out w1 _ => pending r1 out w1) w.
Proof using Hlock Hid Hst.
  intros Hw. unfold stage_patch. cbv zeta. repeat pending_step.
  apply wp_bind_pending.
  - apply wp_try_catch. eapply wp_mono.
    + by apply (keeps_ensureCompleteApplyPreview (holds sid r1)).
    + intros [f|e] ? ? ?; [done | by apply refuse_apply_wp].
  - intros. repeat pending_step. by apply wp_keeps_pending; [keeps_go|].
Qed.

(** The host mutation happened and succeeded. *)
Definition host_changed (t : list event) : Prop :=
  exists project a, EvProc (apply_call project (patchPathFor (stateDir (cfg ctx)) sid)) (Ok a) ∈ t /\
    ok_status a = true.

Lemma quiet_unchanged t : quiet t -> ~ host_changed t.
Proof.
  intros Hq (project & a & Hin & _). unfold quiet in Hq. rewrite Forall_forall in Hq.
  apply (Hq _ Hin). by eexists _, _.
Qed.

Lemma land_patch_wp project result w :
  holds sid r1 w ->
  wp (land_patch ctx sid project result)
    (fun out w1 t =>
       match out with
       | Ok r' => holds sid r' w1 /\ sessionID r' = sid /\ state r' = APPLIED /\
           Types.error r' = None /\ host_changed t
       | Throw e => pending r1 (@Throw unit e) w1 /\ ~ host_changed t
       end) w.
Proof using Hlock Hid Hst.
  intros Hw. unfold land_patch. cbv zeta. apply wp_bind.
  set (c := apply_call _ _). assert (holds sid r1 (snd (on_proc (env ctx) c w))) as H1
    by (destruct (Hlock r1 c w Hw) as (H & _); exact H).
  unfold wp at 1, call_proc. destruct (on_proc (env ctx) c w) as [[a|e] w1]; cbn [snd] in H1; cbv iota beta.
  2: { split; [by apply (pending_throw r1 (A:=unit) e)|].
       intros (p & a & Hin & _). apply list_elem_of_singleton in Hin. discriminate. }
  apply wp_bind. destruct (ok_status a) eqn:Ha; cbn [negb when].
  - unfold wp at 1, mret, M_ret. cbv iota beta.
    destruct (store_transition_run sid APPLY_PENDING APPLIED [P_error None; P_resultRef (Some result)] r1 w1)
      as (Hrun & Hid' & Hs); try done.
    eapply (wp_run (store_transition _ _ _ _)); [exact Hrun|]. cbv iota beta.
    split_and!; [apply holds_insert | done | done | done|]. exists project, a.
    split; [|done]. apply elem_of_app. left. apply list_elem_of_here.
  - pose proof (fun e => @refuse_apply_wp unit r1 (js "apply failed: " ++ trim (stderr a)) e w1 H1 Hid Hst) as Hr.
    set (e0 := state_error _). specialize (Hr e0).
    assert (always (@refuse_apply unit sid (js "apply failed: " ++ trim (stderr a)) e0)
      (fun out t => (exists e, out = Throw e) /\ t = [])) as Hal.
    { apply refuse_apply_always. intros e. split; [by exists e | done]. }
    eapply wp_mono; [exact (wp_always _ _ _ _ Hr Hal)|]. cbv beta.
    intros out w2 t [Hp [[e ->] ->]]. split; [exact Hp|].
    intros (p & b & Hin & Hb). rewrite app_nil_r in Hin. apply list_elem_of_singleton in Hin.
    injection Hin as _ <-. congruence.
Qed.
End from_pending.
End record_follows.

(** A record of the session satisfying [P], and the environment that keeps every
    record of it. *)
Definition holds_some (sid : jsstr) (P : SessionRecord -> Prop) (w : world) : Prop :=
  exists r, holds sid r w /\ P r.

Lemma holds_some_store_only sid P : store_only (holds_some sid P).
Proof. intros w w' H (r & Hr & HP). exists r. unfold holds in *. by rewrite H. Qed.

Lemma session_locked_some sid P E : session_locked sid E -> env_keeps (holds_some sid P) E.
Proof.
  intros HE c w (r & Hr & HP). destruct (HE r c w Hr) as (?&?&?&?&?&?&?).
  split_and!; by exists r.
Qed.

(** The record after a completed apply. *)
Definition applied_record (sid : jsstr) (r : SessionRecord) : Prop :=
  sessionID r = sid /\ state r = APPLIED /\ Types.error r = None.

Lemma keeps_touch_destroyed sid :
  keeps (holds_some sid (applied_record sid)) (store_touch sid destroyed_patch None).
Proof.
  intros w (r & Hr & Hid & Hst & He).
  destruct (store_touch_run sid destroyed_patch None r w) as (u & Hrun & Hid' & Hs); try done.
  unfold wp. rewrite Hrun. eexists. split; [apply holds_insert|].
  split_and!; [done | congruence | exact He].
Qed.

(** The end of an apply that landed. *)
Lemma apply_tail_wp ctx sid (k : SessionRecord -> jsval) record w :
  session_locked sid (env ctx) -> holds_some sid (applied_record sid) w ->
  wp (record ← release_and_record ctx sid record;
      _ ← gcSessionArtifacts ctx sid (js "applyResult") false;
      mret (k record)) (fun _ w' _ => holds_some sid (applied_record sid) w') w.
Proof.
  intros Hlock Hw.
  pose proof (session_locked_some sid (applied_record sid) (env ctx) Hlock) as HE.
  assert (keeps (holds_some sid (applied_record sid))
    (record ← release_and_record ctx sid record;
     _ ← gcSessionArtifacts ctx sid (js "applyResult") false; mret (k record))) as Hk.
  { unfold release_and_record. keeps_go;
      first [apply keeps_releaseWorker; [apply holds_some_store_only | done]
            | apply keeps_touch_destroyed]. }
  exact (Hk w Hw).
Qed.

(** Where a run from a pending record may end, and whether the host changed. *)
Definition apply_ends ctx sid r1 (out : res jsval) (w' : world) (t : list event) : Prop :=
  (host_changed ctx sid t /\ holds_some sid (applied_record sid) w') \/
  (~ host_changed ctx sid t /\ (exists e, out = Throw e) /\ pending sid r1 (@Throw unit (state_error [])) w').

Lemma host_changed_app ctx sid t u :
  quiet t -> host_changed ctx sid (t ++ u) <-> host_changed ctx sid u.
Proof.
  intros Hq. split.
  - intros (p & a & Hin & Ha). apply elem_of_app in Hin as [Hin|Hin]; [|by exists p, a].
    exfalso. eapply quiet_unchanged; [exact Hq|]. by exists p, a.
  - intros (p & a & Hin & Ha). exists p, a. split; [in_trace | done].
Qed.

Lemma apply_ends_app ctx sid r1 out w t u :
  quiet t -> apply_ends ctx sid r1 out w u -> apply_ends ctx sid r1 out w (t ++ u).
Proof. intros Hq. unfold apply_ends. by rewrite host_changed_app. Qed.

Lemma apply_ends_quiet ctx sid r1 {A} e w t :
  quiet t -> pending sid r1 (@Throw A e) w -> apply_ends ctx sid r1 (Throw e) w t.
Proof. intros Hq Hp. right. split_and!; [by apply quiet_unchanged | eauto | exact Hp]. Qed.

Section apply_body.
  Context (ctx : OpContext) (sid pid : jsstr) (project : Project) (base result : jsstr).
  Hypothesis Hlock : session_locked sid (env ctx).
  Hypothesis Hproject : project_of ctx pid = Some project.
  Context (r1 : SessionRecord) (Hid : sessionID r1 = sid) (Hst : state r1 = APPLY_PENDING).

Lemma bind_quiet_ends {A} (m : M A) (f : A -> M jsval) w :
  wp m (fun out w1 _ => pending sid r1 out w1) w -> always m (fun _ t => quiet t) ->
  (forall a w1, holds sid r1 w1 -> wp (f a) (apply_ends ctx sid r1) w1) ->
  wp (mbind f m) (apply_ends ctx sid r1) w.
Proof using.
  intros Hm Hq Hf. apply wp_bind. eapply wp_mono; [exact (wp_always _ _ _ _ Hm Hq)|]. cbv beta.
  intros [a|e] w1 t1 [H1 Hq1].
  - eapply wp_mono; [by apply Hf|]. intros. by apply apply_ends_app.
  - by apply (apply_ends_quiet ctx sid r1 (A:=A)).
Qed.

Lemma apply_body_wp w :
  holds sid r1 w -> wp (apply_body ctx sid pid project base result) (apply_ends ctx sid r1) w.
Proof using Hlock Hproject Hid Hst.
  intros Hw. unfold apply_body. apply bind_quiet_ends.
  { by apply inspect_result_wp. }
  { by apply inspect_result_always with (project := project). }
  intros _ w1 H1. apply bind_quiet_ends.
  { by apply stage_patch_wp. }
  { by apply stage_patch_always. }
  intros x w2 H2. apply wp_bind.
  eapply wp_mono; [by apply (land_patch_wp ctx sid Hlock r1 Hid Hst)|].
  intros [r'|e] w3 t3 H3; cbv iota beta in H3 |- *.
  - destruct H3 as (H3 & Hid' & Hs & He & p & a & Hin & Ha).
    eapply wp_mono; [apply (apply_tail_wp ctx sid _ r' w3 Hlock); by exists r'|].
    intros out w4 t4 H4. left. split; [|done]. exists p, a. split; [in_trace | done].
  - destruct H3 as [Hp Hn]. right. split_and!; [done | eauto | exact Hp].
Qed.
End apply_body.

Lemma recordOr404_run sid w :
  (exists r, SessionStore.get (w_store w) sid = Ok (Some r) /\ recordOr404 sid w = (Ok r, w, [])) \/
  (exists e, recordOr404 sid w = (Throw e, w, [])).
Proof.
  unfold recordOr404, mbind, M_bind, store_get.
  destruct (SessionStore.get (w_store w) sid) as [[r|]|e]; [left | right | right]; eexists; eauto.
Qed.

(** An apply refuses with nothing changed, or begins from a RESULT_READY record. *)
Lemma applyResult_begins ctx req w :
  let sid := req_sessionID req in
  (exists e, applyResult ctx req w = (Throw e, w, [])) \/
  exists record pid project base result r1 st,
    SessionStore.get (w_store w) sid = Ok (Some record) /\ state record = RESULT_READY /\
    projectID record = Some pid /\ project_of ctx pid = Some project /\
    baseline_ref_of record sid = Ok base /\ result_ref_of record sid = Ok result /\
    SessionStore.transition (w_store w) (w_now w) sid RESULT_READY APPLY_PENDING [] = Ok (r1, st) /\
    applyResult ctx req w = apply_body ctx sid pid project base result (set_store st w).
Proof.
  cbv zeta. set (sid := req_sessionID req). unfold applyResult. fold sid.
  destruct (payloadOf req) as [payload|e]; [rewrite run_lift_Ok | left; exists e; apply run_lift_Throw].
  destruct (negb (confirmed payload "APPLY"));
    [left; eexists; apply run_throw_when_true | rewrite run_throw_when_false].
  destruct (recordOr404_run sid w) as [(record & Hg & Hr)|(e & Hr)];
    [rewrite (run_bind_pure _ _ _ _ _ Hr) | left; exists e; by apply run_bind_throw].
  destruct (bool_decide (state record = RESULT_READY)) eqn:Hs; cbn [negb];
    [rewrite run_throw_when_false | left; eexists; apply run_throw_when_true].
  apply bool_decide_eq_true in Hs.
  destruct (projectID record) as [pid|] eqn:Hpid; cbn [mbind option_bind]; [|left; by eexists].
  destruct (project_of ctx pid) as [project|] eqn:Hproj; cbn [mbind option_bind]; [|left; by eexists].
  destruct (result_ref_of record sid) as [result|e] eqn:Hres;
    [rewrite run_lift_Ok | left; exists e; apply run_lift_Throw].
  destruct (baseline_ref_of record sid) as [base|e] eqn:Hbase;
    [rewrite run_lift_Ok | left; exists e; apply run_lift_Throw].
  destruct (SessionStore.transition (w_store w) (w_now w) sid RESULT_READY APPLY_PENDING []) as [[r1 st]|e] eqn:Ht.
  2: left; exists e; apply run_bind_throw; unfold store_transition; by rewrite Ht.
  right. exists record, pid, project, base, result, r1, st. split_and!; try done.
  rewrite (run_bind_pure _ _ r1 w (set_store st w)); [done|]. unfold store_transition. by rewrite Ht.
Qed.

(** ** Properties *)


(** The session's record follows the host.  From a RESULT_READY record, when
    nobody else writes it meanwhile, an apply that changed the host (its [git
    apply] was answered with status 0) ends APPLIED with no error recorded, even
    if the release of the worker or the collection of artifacts goes wrong; an
    apply that did not ends in a thrown error with the record as it was, or back
    in RESULT_READY with the reason recorded, or, when a step itself threw,
    still in APPLY_PENDING; never in APPLIED. *)
Theorem applyResult_record_follows_host ctx req r0 w out w' t :
  session_locked (req_sessionID req) (env ctx) -> holds (req_sessionID req) r0 w ->
  sessionID r0 = req_sessionID req -> state r0 = RESULT_READY ->
  applyResult ctx req w = (out, w', t) ->
  exists r', holds (req_sessionID req) r' w' /\
    ((host_changed ctx (req_sessionID req) t /\ state r' = APPLIED /\ Types.error r' = None) \/
     (~ host_changed ctx (req_sessionID req) t /\ (exists e, out = Throw e) /\
        (r' = r0 \/ (state r' = RESULT_READY /\ Types.error r' <> None) \/ state r' = APPLY_PENDING))).
Proof.
  intros Hlock Hw Hid Hst Hrun. destruct (applyResult_begins ctx req w)
    as [[e Hb]|(record & pid & project & base & result & r1 & st & H1 & _ & _ & H4 & _ & _ & Htr & Hb)];
    rewrite Hb in Hrun.
  { injection Hrun as <- <- <-. exists r0. split; [done|]. right. split_and!; [|eauto|auto].
    apply quiet_unchanged. constructor. }
  destruct (store_transition_run (req_sessionID req) RESULT_READY APPLY_PENDING [] r0 w)
    as (Hr & Hid1 & Hs1); try done.
  cbv zeta in Hr. unfold store_transition in Hr. rewrite Htr in Hr. injection Hr as -> ->.
  set (r1' := apply_patch _ r0) in *.
  pose proof (holds_insert (req_sessionID req) r1' w) as Hh.
  pose proof (apply_body_wp ctx (req_sessionID req) pid project base result Hlock H4 r1' Hid1 Hs1 _ Hh) as Hwp.
  pose proof (proj1 (wp_run _ _ _ _ _ _ Hrun) Hwp) as Hend. clear Hwp.
  destruct Hend as [[Hc (r' & Hr' & _ & Hs' & He')]|(Hn & He & r' & Hr' & Hcase)]; exists r';
    (split; [done|]); [by left|]. right. split_and!; [done | done|].
  destruct Hcase as [->|?]; auto.
Qed.

(** ** Concrete runs *)

(** Every call succeeds with no output; [git apply] and friends too. *)
Definition blank_env : Environment :=
  mkEnv (fun _ w => (Ok (mkSpawn (Some 0) [] [] false false false), w))
        (on_unit quiet_env) (on_bool quiet_env) (on_text quiet_env) (on_int quiet_env) (on_names quiet_env) (on_stats quiet_env).

(** As [blank_env], but git fails on the host. *)
Definition failing_git_env : Environment :=
  mkEnv (fun c w => (Ok (mkSpawn (match c with CGit _ _ => Some 1 | _ => Some 0 end) [] [] false false false), w))
        (on_unit quiet_env) (on_bool quiet_env) (on_text quiet_env) (on_int quiet_env) (on_names quiet_env) (on_stats quiet_env).

Lemma blank_env_locked sid : session_locked sid blank_env.
Proof. intros r c w H. by repeat split. Qed.

Definition ready_record : SessionRecord :=
  apply_patch [P_state RESULT_READY; P_projectID (Some (js "p"))] (fresh_record (js "s") (js "t0")).

Definition ready_world : world := sample_world {[ js "s" := RFRecord ready_record ]}.

Definition confirm_req (op : Operation) (word : string) : BrokerRequestEnvelope :=
  sample_req op None (JObj [(js "confirm", JStr (js word))]).

Lemma ready_world_holds : holds (js "s") ready_record ready_world.
Proof. apply lookup_singleton_eq. Qed.


Lemma applyResult_record_follows_host_witness :
  exists out w' t, applyResult (sample_ctx blank_env) (confirm_req Op.applyResult "APPLY") ready_world
      = (out, w', t) /\
    exists r', holds (js "s") r' w' /\
      ((host_changed (sample_ctx blank_env) (js "s") t /\ state r' = APPLIED /\ Types.error r' = None) \/
       (~ host_changed (sample_ctx blank_env) (js "s") t /\ (exists e, out = Throw e) /\
         (r' = ready_record \/ (state r' = RESULT_READY /\ Types.error r' <> None) \/ state r' = APPLY_PENDING))).
Proof.
  destruct (applyResult (sample_ctx blank_env) (confirm_req Op.applyResult "APPLY") ready_world)
    as [[out w'] t] eqn:Hrun.
  exists out, w', t. split; [reflexivity|].
  exact (applyResult_record_follows_host (sample_ctx blank_env) (confirm_req Op.applyResult "APPLY")
    ready_record ready_world out w' t (blank_env_locked (js "s")) ready_world_holds eq_refl eq_refl Hrun).
Defined.

(** ** A session left in APPLY_PENDING *)
Lemma refused_state ctx req w r (h : OpContext -> BrokerRequestEnvelope -> M jsval) :
  holds (req_sessionID req) r w -> state r = APPLY_PENDING ->
  (h = prepareResult \/ h = applyResult \/ h = keepResult \/ h = discardResult) ->
  exists e, h ctx req w = (Throw e, w, []).
Proof.
  intros Hw Hst Hh. assert (recordOr404 (req_sessionID req) w = (Ok r, w, [])) as Hr.
  { unfold recordOr404, mbind, M_bind. by rewrite (store_get_holds _ _ _ Hw). }
  destruct Hh as [Hh | [Hh | [Hh | Hh]]]; subst h.
  all: unfold prepareResult, applyResult, keepResult, discardResult; cbv zeta;
    destruct (payloadOf req) as [payload|e];
    [rewrite run_lift_Ok | eexists; apply run_lift_Throw];
    try (destruct (confirmed payload _); cbn [negb];
         [rewrite run_throw_when_false | eexists; apply run_throw_when_true]);
    rewrite (run_bind_pure _ _ _ _ _ Hr), Hst;
    first [ eexists; apply run_throw_when_true
          | rewrite (run_bind_pure _ _ r w w) by done; rewrite Hst; eexists; apply run_throw_when_true ].
Qed.

(** A session in APPLY_PENDING can only be left by the apply that put it
    there: prepareResult, applyResult, keepResult and discardResult all throw
    without any change or call, so once an apply has thrown between its
    transitions (host git fails, the patch cannot be written) no operation of
    the result boundary brings the session back. *)
Theorem pending_session_is_stuck ctx req w r :
  holds (req_sessionID req) r w -> state r = APPLY_PENDING ->
  Forall (fun h : OpContext -> BrokerRequestEnvelope -> M jsval =>
            exists e, h ctx req w = (Throw e, w, []))
    [prepareResult; applyResult; keepResult; discardResult].
Proof. intros Hw Hst. repeat constructor; eapply refused_state; eauto. Qed.

(** An apply whose host git fails leaves the session there. *)
Definition stranded_world : world :=
  snd (fst (applyResult (sample_ctx failing_git_env) (confirm_req Op.applyResult "APPLY") ready_world)).

Definition stranded_record : SessionRecord :=
  apply_patch [P_state APPLY_PENDING; P_updatedAt (js "t1")] ready_record.

Lemma pending_session_is_stuck_witness :
  holds (js "s") stranded_record stranded_world /\
  Forall (fun h : OpContext -> BrokerRequestEnvelope -> M jsval =>
            exists e, h (sample_ctx blank_env) (confirm_req Op.applyResult "APPLY") stranded_world
                      = (Throw e, stranded_world, []))
    [prepareResult; applyResult; keepResult; discardResult].
Proof.
  assert (holds (js "s") stranded_record stranded_world) as H by (vm_compute; reflexivity).
  split; [exact H|].
  exact (pending_session_is_stuck (sample_ctx blank_env) (confirm_req Op.applyResult "APPLY")
    stranded_world stranded_record H eq_refl).
Defined.

(** ** Keeping a result *)

(** KeepResult cannot be used: whatever its request, session and
    environment, it throws before it reads or changes anything.  Its operation
    is missing from the table of payload keys, so a payload is refused as an
    unknown operation's; and a request without one lacks the confirmation. *)
Theorem keepResult_unusable ctx req w :
  req_operation req = Op.keepResult -> exists e, keepResult ctx req w = (Throw e, w, []).
Proof.
  intros Hop. unfold keepResult. cbv zeta. unfold payloadOf. rewrite Hop.
  destruct (assertPayloadKeys (Op.name Op.keepResult) (req_payload req)) as [[]|e] eqn:Hk;
    [|exists e; apply run_lift_Throw].
  assert (is_nullish (req_payload req) = true) as Hn.
  { apply assertPayloadKeys_Ok in Hk as [?|(allowed & Ha & _)]; [done|]. vm_compute in Ha. discriminate. }
  cbn [mbind res_bind]. rewrite Hn, run_lift_Ok. eexists. apply run_throw_when_true.
Qed.

Lemma keepResult_unusable_witness :
  exists e, keepResult (sample_ctx blank_env) (confirm_req Op.keepResult "KEEP") ready_world
    = (Throw e, ready_world, []).
Proof. apply keepResult_unusable. reflexivity. Defined.
