(* ===== verification/Reaper.v ===== *)
(** * The reaper (broker/src/reaper.ts)

    The sweeps that give workers back (finished, terminal, idle, disconnected)
    and collect the artifacts of ended sessions. *)
From Stdlib Require Import QArith.
From S2P Require Import Prelude JsVal Types State Policy Path Validation HostPaths Envelope.
From S2P Require Import RolePolicy GitOps Artifacts Queue Effects Worker Results.
Open Scope Z_scope.

Inductive reaper_action :=
  | reaped_result_ready | reaped_active | reaped_active_unsaved | reaped_terminal
  | auto_finished | auto_finished_retained | swept_artifact | reaper_error.

#[export] Instance reaper_action_eq_dec : EqDecision reaper_action.
Proof. solve_decision. Defined.

Definition action_name (a : reaper_action) : jsstr :=
  js match a with
     | reaped_result_ready => "reaped_result_ready" | reaped_active => "reaped_active"
     | reaped_active_unsaved => "reaped_active_unsaved" | reaped_terminal => "reaped_terminal"
     | auto_finished => "auto_finished" | auto_finished_retained => "auto_finished_retained"
     | swept_artifact => "swept_artifact" | reaper_error => "error"
     end.

Record ReaperLogEntry := mkEntry {
  le_sessionID : jsstr; le_action : reaper_action; le_detail : option jsstr
}.

(** The logger's payload for an entry: operation, session, result, error, detail. *)
Record LogEntry := mkLogEntry {
  lg_operation : jsstr; lg_sessionID : option jsstr; lg_action : jsstr;
  lg_result : jsstr; lg_error : option jsstr; lg_detail : option jsstr
}.

Definition toReaperLogEntry (entry : ReaperLogEntry) : LogEntry :=
  let failed := bool_decide (le_action entry = reaper_error) in
  {| lg_operation := js "reaper";
     lg_sessionID := truthy (Some (le_sessionID entry));
     lg_action := action_name (le_action entry);
     lg_result := if failed then js "error" else js "ok";
     lg_error := if failed then le_detail entry else None;
     lg_detail := if failed then None else le_detail entry |}.

Definition DEFAULT_ARTIFACT_GRACE_MS : Z := 3600000.

Section reaper.
  Context (ctx : OpContext).
  (** [Date.parse] ([None] is NaN) and [new Date(ms).toISOString()]. *)
  Context (Date_parse : jsstr -> option Z) (toISOString : Z -> jsstr).
#[local] Abbreviation E := (env ctx).

Definition safeLog (entry : ReaperLogEntry) : M unit :=
  try_catch (call_unit E (CReaperLog (le_sessionID entry) (action_name (le_action entry)) (le_detail entry)))
    (fun _ => best_effort (call_unit E CReaperDrop)).

Definition log_error (sid : jsstr) (e : exn) : M unit :=
  safeLog (mkEntry sid reaper_error (Some (exn_msg e))).

(** What one removal adds to the counts, and its log line. *)
Definition log_one_removal (sid : jsstr) (r : ArtifactRemoval) : M unit :=
  let k := kind_name (ap_kind (ar_artifact r)) in
  if ar_removed r
  then safeLog (mkEntry sid swept_artifact
         (Some (k ++ js " " ++ dec (ar_bytes r) ++ js " bytes " ++ ap_path (ar_artifact r))))
  else match truthy (ar_error r) with
       | Some e => safeLog (mkEntry sid reaper_error (Some (k ++ js ": " ++ e)))
       | None => mret tt
       end.

Definition removal_counts (removals : list ArtifactRemoval) : Z * Z :=
  (Z.of_nat (length (List.filter ar_removed removals)),
   foldr (fun r n => if ar_removed r then ar_bytes r + n else n) 0 removals).

Definition logRemovals (sid : jsstr) (removals : list ArtifactRemoval) : M (Z * Z) :=
  _ ← for_eachM (log_one_removal sid) removals;
  mret (removal_counts removals).

(** The removal rule for one record, with the bundle and the durable ref looked
    up as it needs them. *)
Definition may_remove_artifacts (record : SessionRecord) : M bool :=
  bundleExists ← call_bool E (CExists (bundlePathFor (stateDir (cfg ctx)) (sessionID record)));
  durable ← (if removalNeedsDurableRef record bundleExists
             then durableHostRefResolves ctx record else mret false);
  mret (shouldRemoveSessionArtifacts record durable bundleExists).

(** [age > limit], false when the timestamp does not parse. *)
Definition older_than (now limit : Z) (stamp : jsstr) : bool :=
  match Date_parse stamp with Some at_ => limit <? now - at_ | None => false end.

(** [try { f } catch (err) { log }], counting nothing when it threw. *)
Definition counted {A} (sid : jsstr) (zero : A) (m : M A) : M A :=
  try_catch m (fun err => _ ← log_error sid err; mret zero).

Definition sweep_record_artifacts (now graceMs : Z) (record : SessionRecord) : M (Z * Z) :=
  counted (sessionID record) (0, 0)
    (if negb (isTerminalState (state record)) || negb (older_than now graceMs (updatedAt record))
     then mret (0, 0) else
     remove ← may_remove_artifacts record;
     if negb remove then mret (0, 0) else
     removals ← removeSessionArtifacts ctx (sessionID record);
     logRemovals (sessionID record) removals).

Definition sweep_orphan (known : list jsstr) (now graceMs : Z) (c : OrphanArtifactCandidate) : M (Z * Z) :=
  let sid := default [] (oc_sessionKey c) in
  counted sid (0, 0)
    (if match oc_sessionKey c with Some k => mem k known | None => false end then mret (0, 0) else
     regular ← call_bool E (CIsFile (ap_path (oc_artifact c)));
     if negb regular then mret (0, 0) else
     mtime ← call_int E (CModifiedAt (ap_path (oc_artifact c)));
     if negb (graceMs <? now - mtime) then mret (0, 0) else
     removal ← removeArtifact ctx (oc_artifact c);
     logRemovals sid [removal]).

(** [readdir] that never throws. *)
Definition listDirNames (dir : jsstr) : M (list jsstr) :=
  try_catch (call_names E (CListDir dir)) (fun _ => mret []).

Definition orphan_candidates : M (list OrphanArtifactCandidate) :=
  let dir d := join [stateDir (cfg ctx); js d] in
  bundles ← listDirNames (dir "bundles"%string);
  patches ← listDirNames (dir "patches"%string);
  previews ← listDirNames (dir "apply-preview"%string);
  tmp ← listDirNames (dir "tmp"%string);
  mret (listOrphanArtifactCandidates
    (fun d => if str_eqb d (dir "bundles"%string) then bundles
              else if str_eqb d (dir "patches"%string) then patches
              else if str_eqb d (dir "apply-preview"%string) then previews else tmp)
    (stateDir (cfg ctx))).

Definition sum_counts (xs : list (Z * Z)) : Z * Z :=
  foldr (fun x acc => (fst x + fst acc, snd x + snd acc)) (0, 0) xs.

Definition sweepStateArtifacts (graceMs : Z) : M (Z * Z) :=
  now ← call_int E CNow;
  records ← store_list;
  counts ← mapM_ (sweep_record_artifacts now graceMs) records;
  candidates ← orphan_candidates;
  counts' ← mapM_ (sweep_orphan (map sessionID records) now graceMs) candidates;
  mret (sum_counts (counts ++ counts')).

Definition runArtifactSweep (graceMs : Z) : M (Z * Z) :=
  counted [] (0, 0) (sweepStateArtifacts graceMs).

(** ** Workers *)

(** Parked, or an operation in flight. *)
Definition busy (sid : jsstr) (w : world) : bool :=
  match PQ.find (w_queue w) sid with Some _ => true | None => false end
  || (0 <? default 0 (w_locks w !! sid)).

Definition reaped_patch (now : Z) : list field_patch :=
  [P_workerName None; P_workerState (Some DESTROYED); P_reapedAt (Some (toISOString now))].

(** Release a worker; when it is gone, record that and log [entry]. *)
Definition release_reaped (now : Z) (record : SessionRecord) (entry : ReaperLogEntry) : M Z :=
  outcome ← releaseWorker ctx record;
  if negb (released outcome) then mret 0 else
  _ ← store_touch (sessionID record) (reaped_patch now) None;
  _ ← safeLog entry;
  mret 1.

Definition sweep_record_idle (now idleMs : Z) (record : SessionRecord) : M Z :=
  let sid := sessionID record in
  counted sid 0
    (skip ← ask (busy sid);
     if skip || bool_decide (state record = APPLY_PENDING) then mret 0 else
     match live_worker record with
     | None => mret 0
     | Some _ =>
         if isTerminalState (state record)
         then release_reaped now record (mkEntry sid reaped_terminal None) else
         if negb (older_than now idleMs (updatedAt record)) then mret 0 else
         match state record with
         | RESULT_READY => release_reaped now record (mkEntry sid reaped_result_ready None)
         | SANDBOX_ACTIVE =>
             release_reaped now record (mkEntry sid reaped_active_unsaved
               (Some (js "idle limit reached; worker released without an export")))
         | _ => mret 0
         end
     end).

Definition sum_Z (xs : list Z) : Z := foldr Z.add 0 xs.

Definition sweepIdle (idleMs : Z) : M Z :=
  now ← call_int E CNow;
  records ← store_list;
  counts ← mapM_ (sweep_record_idle now idleMs) records;
  mret (sum_Z counts).

Definition status_call (workerName : jsstr) : call :=
  CExec workerName (argv ["git"; "status"; "--porcelain"; "--"; "."] ++ RESULT_EXCLUDE_PATHS)
    (opt_env (Some (js "/work")) 30000 safe_directory).

(** Unsaved edits, or a status that cannot be read. *)
Definition has_changes (workerName : jsstr) : M bool :=
  try_catch
    (status ← call_proc E (status_call workerName);
     mret (if ok_status status then 0 <? js_length (trim (stdout status)) else true))
    (fun _ => mret true).

(** [prepare] is runPrepare in production. *)
Definition finishOrReleaseActive (prepare : jsstr -> M jsstr) (record : SessionRecord)
    (cleanDetail : jsstr) : M ReaperLogEntry :=
  let sid := sessionID record in
  let worker := default [] (workerName record) in
  hasChanges ← has_changes worker;
  if negb hasChanges then
    outcome ← releaseWorker ctx record;
    if negb (released outcome)
    then mret (mkEntry sid reaper_error (Some (js "worker release failed; retained for the next sweep")))
    else
    now ← call_int E CNow;
    _ ← store_touch sid (reaped_patch now) None;
    mret (mkEntry sid reaped_active (Some cleanDetail))
  else
  ref ← prepare sid;
  outcome ← releaseWorker ctx record;
  _ ← store_transition sid SANDBOX_ACTIVE RESULT_READY
        (P_resultRef (Some ref) :: if released outcome then destroyed_patch else []);
  mret (if negb (released outcome)
        then mkEntry sid auto_finished_retained (Some (ref ++ js " (worker retained for the next sweep)"))
        else mkEntry sid auto_finished (Some ref)).

Definition sweep_record_unfinished (prepare : jsstr -> M jsstr) (now idleMs : Z) (record : SessionRecord)
    : M Z :=
  let sid := sessionID record in
  counted sid 0
    (skip ← ask (busy sid);
     if skip || negb (bool_decide (state record = SANDBOX_ACTIVE))
        || bool_decide (truthy (workerName record) = None)
        || negb (bool_decide (workerState record = Some ACTIVE))
        || negb (bool_decide (truthy (Types.resultRef record) = None))
        || negb (older_than now idleMs (updatedAt record))
     then mret 0 else
     entry ← finishOrReleaseActive prepare record (js "idle clean worker released");
     _ ← safeLog entry;
     mret (if bool_decide (le_action entry = reaper_error) then 0 else 1)).

Definition sweepUnfinished (prepare : jsstr -> M jsstr) (idleMs : Z) : M Z :=
  now ← call_int E CNow;
  records ← store_list;
  counts ← mapM_ (sweep_record_unfinished prepare now idleMs) records;
  mret (sum_Z counts).

Definition reapOnDisconnect (prepare : jsstr -> M jsstr) (sid : jsstr) (disconnectIdleMs : Z) : M bool :=
  found ← store_get sid;
  match found with
  | None => mret false
  | Some record =>
      skip ← ask (busy sid);
      if skip || negb (bool_decide (state record = SANDBOX_ACTIVE))
         || negb (bool_decide (truthy (Types.resultRef record) = None))
         || bool_decide (live_worker record = None)
      then mret false else
      now ← call_int E CNow;
      if negb (older_than now disconnectIdleMs (updatedAt record)) then mret false else
      try_catch
        (entry ← finishOrReleaseActive prepare record (js "client disconnected");
         _ ← safeLog entry;
         mret true)
        (fun err => _ ← log_error sid err; mret false)
  end.

(** One tick: each phase isolated from the others' failures. *)
Definition runReaperSweeps (graceMs idleMs : Z) : M unit :=
  _ ← counted [] tt (_ ← sweepStateArtifacts graceMs; mret tt);
  _ ← counted [] tt (_ ← sweepUnfinished (runPrepare ctx) 60000; mret tt);
  counted [] tt (_ ← sweepIdle idleMs; mret tt).
End reaper.
