(* ===== verification/ReaperFacts.v ===== *)
(** * Properties of the reaper

    Theorems about Reaper.v: a worker with edits is exported before it is
    removed, sessions in use are left alone, and only ended sessions' artifacts
    are collected. *)
From Stdlib Require Import QArith.
From S2P Require Import Prelude JsVal Types State Policy Path Validation HostPaths Envelope.
From S2P Require Import RolePolicy GitOps Artifacts Queue Effects Worker WorkerFacts Results ResultFacts Reaper.
Open Scope Z_scope.

(** ** Export before release *)

(** A call that takes the VM [worker] away. *)
Definition takes_away (worker : jsstr) (e : event) : Prop :=
  call_of e = CStop worker \/ call_of e = CRemove worker.

Section export.
  Context (ctx : OpContext) (sid worker : jsstr).

(** The worker's tree was read, and clean. *)
Definition seen_clean (t : list event) : Prop :=
  exists s, EvProc (status_call worker) (Ok s) ∈ t /\ ok_status s = true /\ trim (stdout s) = [].

Definition worker_bundle : jsstr := js "/work/.broker-tmp/result-" ++ sid ++ js ".bundle".
Definition host_bundle : jsstr := bundlePathFor (stateDir (cfg ctx)) sid.

(** The worker's result was bundled and copied out; with a real git, verified
    and fetched into the project too. *)
Definition exported (t : list event) : Prop :=
  EvUnit (CCopyOut worker worker_bundle host_bundle) (Ok tt) ∈ t /\
  (exists b ref, EvProc (CExec worker (argv ["git"; "bundle"; "create"] ++ [worker_bundle; ref])
                   (opt_env (Some (js "/work")) 120000 safe_directory)) (Ok b) ∈ t /\ ok_status b = true) /\
  (gitReal ctx = true ->
     exists v f dir ref,
       EvProc (CGit (argv ["git"; "bundle"; "verify"] ++ [host_bundle]) (opt_timeout 60000)) (Ok v) ∈ t /\
       ok_status v = true /\
       EvProc (CGit (fetch_argv host_bundle ref) (opt_cwd dir 120000)) (Ok f) ∈ t /\ ok_status f = true).

Definition saved (t : list event) : Prop := seen_clean t \/ exported t.

Lemma saved_app t u : saved t -> saved (t ++ u).
Proof.
  intros [(s & H1 & H2)|(H1 & (b & ref & H2 & H3) & H4)]; [left | right].
  - exists s. split; [in_trace | done].
  - split_and!; [in_trace | exists b, ref; split; [in_trace | done]|].
    intros Hg. destruct (H4 Hg) as (v & f & dir & ref' & H5 & H6 & H7 & H8).
    exists v, f, dir, ref'. split_and!; try done; in_trace.
Qed.

Lemma saved_pre t u : saved t -> saved (u ++ t).
Proof.
  intros [(s & H1 & H2)|(H1 & (b & ref & H2 & H3) & H4)]; [left | right].
  - exists s. split; [in_trace | done].
  - split_and!; [in_trace | exists b, ref; split; [in_trace | done]|].
    intros Hg. destruct (H4 Hg) as (v & f & dir & ref' & H5 & H6 & H7 & H8).
    exists v, f, dir, ref'. split_and!; try done; in_trace.
Qed.

(** A call that leaves the worker alone. *)
Definition spares (c : call) : Prop := c <> CStop worker /\ c <> CRemove worker.

Lemma spares_precedes G pre t :
  Forall (fun e => spares (call_of e)) t -> precedes (takes_away worker) G pre t.
Proof.
  intros H. apply precedes_none. eapply Forall_impl; [exact H|]. intros e [H1 H2] [?|?]; done.
Qed.

Ltac spares_go :=
  repeat
    lazymatch goal with
    | |- only_calls _ (git _ _ _) => apply only_call_proc
    | |- only_calls _ (exec _ _ _ _) => apply only_call_proc
    | |- only_calls _ (log _ _ _ _ _) => apply only_call_unit
    | |- only_calls _ (must _ _) => apply only_throw_when
    | |- only_calls _ (must_msb _ _) => apply only_throw_when
    | |- spares _ => split; discriminate
    | |- _ => only_step
    end.

Lemma gcSessionArtifacts_spares s op d : only_calls spares (gcSessionArtifacts ctx s op d).
Proof.
  unfold gcSessionArtifacts, durableHostRefResolves, removeSessionArtifacts, removeArtifact, log_removal.
  spares_go.
Qed.

Lemma export_bundle_spares ref : only_calls spares (export_bundle ctx sid worker ref host_bundle).
Proof. unfold export_bundle, work_git. spares_go. Qed.

Lemma import_bundle_spares record ref : only_calls spares (import_bundle ctx record sid ref host_bundle).
Proof. unfold import_bundle. spares_go. apply gcSessionArtifacts_spares. Qed.

(** A completed export of this worker. *)
Lemma export_bundle_always ref :
  always (export_bundle ctx sid worker ref host_bundle) (fun out t =>
    out = Ok tt ->
    EvUnit (CCopyOut worker worker_bundle host_bundle) (Ok tt) ∈ t /\
    exists b, EvProc (CExec worker (argv ["git"; "bundle"; "create"] ++ [worker_bundle; ref])
                   (opt_env (Some (js "/work")) 120000 safe_directory)) (Ok b) ∈ t /\ ok_status b = true).
Proof.
  unfold export_bundle, work_git. cbv zeta. fold worker_bundle.
  repeat always_step; intros Hok; try discriminate Hok; subst; (split; [in_trace|]);
    match goal with
    | H : negb (ok_status ?x) = false |- _ => exists x; split; [in_trace | by apply negb_false_iff]
    end.
Qed.

Lemma import_bundle_always record ref :
  always (import_bundle ctx record sid ref host_bundle) (fun out t =>
    is_ok out = true -> gitReal ctx = true ->
    exists v f dir ref',
       EvProc (CGit (argv ["git"; "bundle"; "verify"] ++ [host_bundle]) (opt_timeout 60000)) (Ok v) ∈ t /\
       ok_status v = true /\
       EvProc (CGit (fetch_argv host_bundle ref') (opt_cwd dir 120000)) (Ok f) ∈ t /\ ok_status f = true).
Proof.
  unfold import_bundle. destruct (gitReal ctx); cbn [negb]; [|by apply always_ret].
  repeat always_step; try done; apply always_any; intros [[]|e] u; try done;
    try (apply always_ret); intros _ _;
    apply negb_false_iff in H, H0; exists a, a1, a0, ref; split_and!; try done; in_trace.
Qed.

(** The run of runPrepare on a session whose record is known. *)
Lemma runPrepare_wp record w :
  holds sid record w -> truthy (workerName record) = Some worker ->
  wp (runPrepare ctx sid) (fun out _ t =>
    Forall (fun e => spares (call_of e)) t /\ (is_ok out = true -> exported t)) w.
Proof.
  intros Hw Hn. unfold runPrepare.
  assert (recordOr404 sid w = (Ok record, w, [])) as Hr.
  { unfold recordOr404, mbind, M_bind. by rewrite (store_get_holds _ _ _ Hw). }
  unfold wp. rewrite (run_bind_pure _ _ _ _ _ Hr).
  destruct (requireActiveWorker record) as [wk|e] eqn:Hwk;
    [rewrite run_lift_Ok | by rewrite run_lift_Throw].
  assert (wk = worker) as ->.
  { unfold requireActiveWorker in Hwk. rewrite Hn in Hwk. apply res_seq_Ok in Hwk as [_ Hwk].
    destruct (workerState record) as [[]|]; congruence. }
  destruct (GitOps.resultRef sid) as [ref|e]; [rewrite run_lift_Ok | by rewrite run_lift_Throw].
  fold host_bundle.
  assert (always (_ ← call_unit (env ctx) (CMkdir (join [stateDir (cfg ctx); js "bundles"]));
    _ ← export_bundle ctx sid worker ref host_bundle; import_bundle ctx record sid ref host_bundle)
    (fun out t => Forall (fun e => spares (call_of e)) t /\ (is_ok out = true -> exported t))) as H; [|exact (H w)].
  always_step. always_step. always_step; [|repeat constructor; discriminate].
  always_step. eapply always_mono.
  { intros w'. exact (wp_always _ _ _ w' (export_bundle_spares ref w') (export_bundle_always ref)). }
  cbv beta. intros [[]|e] t [Hs He]; [|by repeat constructor].
  eapply always_mono.
  { intros w'. exact (wp_always _ _ _ w' (import_bundle_spares record ref w') (import_bundle_always record ref)). }
  cbv beta. intros out t' [Hs' He']. split; [rewrite !Forall_app; repeat constructor; done|].
  intros Hok. destruct (He eq_refl) as (H1 & b & H2 & H3). split; [in_trace|]. split.
  { exists b, ref. split; [in_trace | done]. }
  intros Hg. destruct (He' Hok Hg) as (v & f & dir & ref' & H4 & H5 & H6 & H7).
  exists v, f, dir, ref'. split_and!; try done; in_trace.
Qed.

Lemma precedes_around a t c :
  Forall (fun e => spares (call_of e)) a -> precedes (takes_away worker) saved [] t ->
  Forall (fun e => spares (call_of e)) c -> precedes (takes_away worker) saved [] (a ++ t ++ c).
Proof.
  intros Ha Ht Hc. apply precedes_app; [by apply spares_precedes|].
  apply precedes_app; [|by apply spares_precedes].
  intros t1 e t2 Heq He. apply saved_pre. exact (Ht t1 e t2 Heq He).
Qed.

Lemma safeLog_spares {A} entry (a : A) : only_calls spares (_ ← safeLog ctx entry; mret a).
Proof. unfold safeLog. spares_go. Qed.

Lemma has_changes_always :
  always (has_changes ctx worker) (fun out t =>
    Forall (fun e => spares (call_of e)) t /\ exists b, out = Ok b /\ (b = false -> seen_clean t)).
Proof.
  unfold has_changes. repeat always_step; (split; [repeat constructor; discriminate|]);
    eexists; (split; [reflexivity|]); try discriminate.
  destruct (ok_status a) eqn:Ha; [|discriminate]. intros Hlen.
  exists a. split_and!; [in_trace | done|].
  apply Z.ltb_ge in Hlen. destruct (trim (stdout a)); [done|]. unfold js_length in Hlen. cbn in Hlen. lia.
Qed.

(** Once the edits are safe, whatever follows may take the worker away. *)
Lemma saved_then {A} (m : M A) t1 w :
  Forall (fun e => spares (call_of e)) t1 -> saved t1 ->
  wp m (fun _ _ t => precedes (takes_away worker) saved [] (t1 ++ t)) w.
Proof.
  intros Hs Hsaved. unfold wp. destruct (m w) as [[r w'] t].
  apply precedes_app; [by apply spares_precedes|].
  apply precedes_mono; [intros; by apply saved_app | done].
Qed.

Lemma finishOrReleaseActive_wp toISO record detail w :
  session_locked sid (env ctx) -> holds sid record w -> sessionID record = sid ->
  truthy (workerName record) = Some worker ->
  wp (finishOrReleaseActive ctx toISO (runPrepare ctx) record detail)
    (fun _ _ t => precedes (takes_away worker) saved [] t) w.
Proof.
  intros Hlock Hw Hid Hn. unfold finishOrReleaseActive.
  assert (default [] (workerName record) = worker) as ->.
  { destruct (workerName record) as [[|c s]|]; cbn in *; congruence. }
  rewrite Hid. cbv zeta. apply wp_bind.
  assert (keeps (holds sid record) (has_changes ctx worker)) as Hk.
  { pose proof (Hlock record). unfold has_changes. keeps_go. }
  eapply wp_mono; [exact (wp_always _ _ _ _ (Hk w Hw) has_changes_always)|].
  cbv beta. intros out w1 t1 (H1 & Hs1 & b & -> & Hb). destruct b; cbn [negb].
  - apply wp_bind. eapply wp_mono; [exact (runPrepare_wp record w1 H1 Hn)|].
    intros [ref|e] w2 t2 [Hs2 He2].
    + eapply wp_mono; [apply (saved_then (A:=ReaperLogEntry)) with (t1 := t1 ++ t2)|].
      * by apply Forall_app.
      * apply saved_pre. right. by apply He2.
      * cbv beta. intros r w3 t3. by rewrite <- app_assoc.
    + rewrite <- (app_nil_r (t1 ++ t2)), <- app_assoc, app_nil_r.
      apply spares_precedes. by apply Forall_app.
  - apply (saved_then (A:=ReaperLogEntry)); [done|]. left. by apply Hb.
Qed.
End export.

(** ** Properties *)


(** The clock reads [ms]; every other call succeeds quietly. *)
Definition clock_env (ms : Z) : Environment :=
  mkEnv (on_proc quiet_env) (on_unit quiet_env) (on_bool quiet_env) (on_text quiet_env)
        (fun c w => (Ok (match c with CNow => ms | _ => 0 end), w)) (on_names quiet_env) (on_stats quiet_env).

Definition no_date : jsstr -> option Z := fun s => if str_eqb s (js "t0") then Some 0 else None.

Lemma clock_env_locked sid ms : session_locked sid (clock_env ms).
Proof. intros r c w H. by repeat split. Qed.

Definition active_world : world :=
  sample_world {[ js "s" := RFRecord (patch_field (P_projectID (Some (js "p"))) active_record) ]}.


(** ** The sweeps leave sessions in use alone *)

(** One step of the idle sweep does nothing at all to a session that is
    parked in the queue or has an operation in flight, that is being created,
    applied or has not left HOST_READ_ONLY, that has no live worker, or that is
    not finished and not older than the idle limit (a timestamp that does not
    parse is never old enough): no call, no change. *)
Theorem idle_sweep_skips ctx Date_parse toISO now idleMs record w :
  busy (sessionID record) w = true \/
  state record = APPLY_PENDING \/
  live_worker record = None \/
  (isTerminalState (state record) = false /\
     (older_than Date_parse now idleMs (updatedAt record) = false \/
      state record = CREATING_SANDBOX \/ state record = HOST_READ_ONLY)) ->
  sweep_record_idle ctx Date_parse toISO now idleMs record w = (Ok 0, w, []).
Proof.
  unfold sweep_record_idle, counted, try_catch, mbind, M_bind, ask.
  destruct (busy (sessionID record) w); [done|]. cbn [orb].
  destruct (bool_decide (state record = APPLY_PENDING)) eqn:Hp; [done|].
  apply bool_decide_eq_false in Hp.
  destruct (live_worker record); [|done].
  intros [?|[?|[?|[-> H]]]]; try done.
  destruct (older_than _ _ _ _); cbn [negb]; [|done].
  destruct H as [?|[->| ->]]; done.
Qed.

Lemma idle_sweep_skips_witness :
  sweep_record_idle (sample_ctx quiet_env) no_date (fun _ => []) 100000 3600000 active_record active_world
    = (Ok 0, active_world, []).
Proof.
  apply idle_sweep_skips. right. right. right. split; [vm_compute; reflexivity|].
  left. vm_compute. reflexivity.
Defined.

(** ** Only ended sessions' artifacts are collected *)

(** The trace of a loop is made of its rounds' traces. *)
Lemma mapM_trace {A B} (f : A -> M B) (Q : A -> list event -> Prop) xs :
  (forall x, x ∈ xs -> always (f x) (fun _ t => Q x t)) ->
  always (mapM_ f xs) (fun _ t => forall ev, ev ∈ t ->
    exists x tx, x ∈ xs /\ Q x tx /\ ev ∈ tx /\ tx ⊆ t).
Proof.
  induction xs as [|x xs IH]; intros Hf; cbn [mapM_].
  - apply always_ret. intros ev H. by apply not_elem_of_nil in H.
  - apply always_bind. eapply always_mono; [apply Hf, list_elem_of_here|]. cbv beta.
    intros [y|e] t Ht.
    2: { intros ev Hev. exists x, t. split_and!; [apply list_elem_of_here | done | done | done]. }
    apply always_bind. eapply always_mono; [apply IH; intros z Hz; by apply Hf, list_elem_of_further|].
    intros r t' Ht'.
    assert (forall ev, ev ∈ t ++ t' -> exists z tz, z ∈ x :: xs /\ Q z tz /\ ev ∈ tz /\ tz ⊆ t ++ t') as Hall.
    { intros ev [Hev|Hev]%elem_of_app.
      - exists x, t. split_and!; [apply list_elem_of_here | done | done | set_solver].
      - destruct (Ht' ev Hev) as (z & tz & H1 & H2 & H3 & H4). exists z, tz.
        split_and!; [by apply list_elem_of_further | done | done | set_solver]. }
    destruct r as [ys|e]; [|done]. apply always_ret. by rewrite app_nil_r.
Qed.

Definition rev_parse_call (cwd ref : jsstr) : call :=
  CGit (argv ["git"; "rev-parse"; "--verify"; "--quiet"] ++ [ref]) (opt_cwd cwd 30000).

Section collect.
  Context (ctx : OpContext).

(** Why a record's artifacts may go, with the evidence in the trace. *)
Definition expendable (record : SessionRecord) (t : list event) : Prop :=
  state record = REJECTED \/
  (state record = FAILED_CLOSED /\ Types.resultRef record = None /\
   EvBool (CExists (bundlePathFor (stateDir (cfg ctx)) (sessionID record))) (Ok false) ∈ t) \/
  (exists cwd ref r, EvProc (rev_parse_call cwd ref) (Ok r) ∈ t /\ ok_status r = true).

(** The files a call may unlink. *)
Definition unlinks (S : jsstr -> Prop) (c : call) : Prop := forall p, c = CRm p -> S p.
Definition nothing (p : jsstr) : Prop := False.

Ltac unlinks_go :=
  repeat
    lazymatch goal with
    | |- only_calls _ (git _ _ _) => apply only_call_proc
    | |- only_calls _ (safeLog _ _) => apply only_try_catch; [|intros ?]
    | |- unlinks _ _ => intros ? [=]; try (subst; done)
    | |- _ => only_step
    end.

Lemma removeArtifact_unlinks a : only_calls (unlinks (fun p => p = ap_path a)) (removeArtifact ctx a).
Proof. unfold removeArtifact. unlinks_go. Qed.

Lemma durable_unlinks record : only_calls (unlinks nothing) (durableHostRefResolves ctx record).
Proof. unfold durableHostRefResolves. unlinks_go. Qed.

Lemma may_remove_unlinks record : only_calls (unlinks nothing) (may_remove_artifacts ctx record).
Proof. unfold may_remove_artifacts. unlinks_go. apply durable_unlinks. Qed.

Lemma only_weaken {A} (P Q : call -> Prop) (m : M A) :
  (forall c, P c -> Q c) -> only_calls P m -> only_calls Q m.
Proof.
  intros H Hm. eapply always_mono; [exact Hm|]. cbv beta. intros _ t Ht. eapply Forall_impl; [exact Ht|]. auto.
Qed.

Lemma logRemovals_unlinks S sid rs : only_calls (unlinks S) (logRemovals ctx sid rs).
Proof. unfold logRemovals, log_one_removal. unlinks_go. Qed.

Lemma durable_trace record :
  always (durableHostRefResolves ctx record) (fun out t =>
    out = Ok true -> exists cwd ref r, EvProc (rev_parse_call cwd ref) (Ok r) ∈ t /\ ok_status r = true).
Proof.
  unfold durableHostRefResolves. repeat always_step; try discriminate.
  intros [= Hok]. exists (project_path p), a, a0. split; [in_trace | done].
Qed.

Lemma may_remove_trace record :
  always (may_remove_artifacts ctx record) (fun out t => out = Ok true -> expendable record t).
Proof.
  unfold may_remove_artifacts. always_step. always_step. always_step; [|discriminate].
  always_step. destruct (removalNeedsDurableRef record a) eqn:Hn.
  - eapply always_mono; [apply durable_trace|]. intros [d|e] t Ht; [|discriminate].
    apply always_ret. intros [= Hrm]. destruct d.
    + destruct (Ht eq_refl) as (cwd & ref & r' & H1 & H2). right. right. exists cwd, ref, r'.
      split; [in_trace | done].
    + unfold shouldRemoveSessionArtifacts, removalNeedsDurableRef in *. unfold expendable.
      destruct (state record); try discriminate; try (by left).
      right. left. rewrite orb_false_r, andb_true_iff, negb_true_iff in Hrm. destruct Hrm as [Hr ->].
      apply bool_decide_eq_true in Hr. split_and!; [done | done | in_trace].
  - apply always_ret, always_ret. intros [= Hrm].
    unfold shouldRemoveSessionArtifacts, removalNeedsDurableRef in *. unfold expendable.
    destruct (state record); try discriminate; try (by left).
    right. left. rewrite orb_false_r, andb_true_iff, negb_true_iff in Hrm. destruct Hrm as [Hr ->].
    apply bool_decide_eq_true in Hr. split_and!; [done | done | in_trace].
Qed.

Definition session_files (record : SessionRecord) (p : jsstr) : Prop :=
  p ∈ map ap_path (sessionArtifactPaths (stateDir (cfg ctx)) (sessionID record)).

Lemma log_error_unlinks {A} S sid e (a : A) : only_calls (unlinks S) (_ ← log_error ctx sid e; mret a).
Proof. unfold log_error. unlinks_go. Qed.

Lemma remove_session_unlinks record sid :
  only_calls (unlinks (session_files record))
    (removals ← removeSessionArtifacts ctx (sessionID record); logRemovals ctx sid removals).
Proof.
  apply only_bind; [|intros rs; apply logRemovals_unlinks].
  unfold removeSessionArtifacts, session_files.
  generalize (sessionArtifactPaths (stateDir (cfg ctx)) (sessionID record)). intros paths.
  induction paths as [|x xs IH]; cbn [mapM_]; [apply only_ret|].
  apply only_bind.
  - eapply only_weaken; [|apply removeArtifact_unlinks]. intros c Hc p Hp.
    rewrite (Hc p Hp). cbn [map]. apply list_elem_of_here.
  - intros y. apply only_bind; [|intros ys; apply only_ret].
    eapply only_weaken; [|exact IH]. intros c Hc p Hp. cbn [map]. apply list_elem_of_further. by apply Hc.
Qed.

Lemma unlinks_in S t p a :
  Forall (fun e => unlinks S (call_of e)) t -> EvUnit (CRm p) a ∈ t -> S p.
Proof. intros Ht Hin. rewrite Forall_forall in Ht. by apply (Ht _ Hin). Qed.

Lemma expendable_app record t u : expendable record t -> expendable record (t ++ u).
Proof.
  intros [H|[(H1 & H2 & H3)|(cwd & ref & r & H1 & H2)]]; [by left | right; left | right; right].
  - split_and!; [done | done | in_trace].
  - exists cwd, ref, r. split; [in_trace | done].
Qed.

  Context (Date_parse : jsstr -> option Z).

(** Why the file [p] was unlinked. *)
Definition of_ended_session (now graceMs : Z) (record : SessionRecord) (t : list event) (p : jsstr) : Prop :=
  isTerminalState (state record) = true /\
  older_than Date_parse now graceMs (updatedAt record) = true /\
  p ∈ map ap_path (sessionArtifactPaths (stateDir (cfg ctx)) (sessionID record)) /\
  expendable record t.

(** One record's round of the sweep. *)
Lemma sweep_record_trace now graceMs record :
  always (sweep_record_artifacts ctx Date_parse now graceMs record) (fun _ t =>
    forall p a, EvUnit (CRm p) a ∈ t -> of_ended_session now graceMs record t p).
Proof.
  unfold sweep_record_artifacts, counted. apply always_try_catch.
  destruct (isTerminalState (state record)) eqn:Hterm; cbn [negb orb];
    [|apply always_ret; intros p a Hin; by apply not_elem_of_nil in Hin].
  destruct (older_than Date_parse now graceMs (updatedAt record)) eqn:Hold; cbn [negb];
    [|apply always_ret; intros p a Hin; by apply not_elem_of_nil in Hin].
  apply always_bind.
  eapply always_mono.
  { intros w. exact (wp_always _ _ _ w (may_remove_unlinks record w) (may_remove_trace record)). }
  cbv beta. intros [[]|e] t1 [Hn He].
  - cbn [negb]. eapply always_mono; [apply remove_session_unlinks|]. cbv beta.
    assert (forall t u, Forall (fun e => unlinks (session_files record) (call_of e)) t ->
      Forall (fun e => unlinks nothing (call_of e)) u ->
      forall p a, EvUnit (CRm p) a ∈ t1 ++ t ++ u ->
        of_ended_session now graceMs record (t1 ++ t ++ u) p) as Hdone.
    { intros t u Ht Hu p a Hin. split_and!; [done | done | | by apply expendable_app, He].
      rewrite !elem_of_app in Hin. destruct Hin as [Hin|[Hin|Hin]].
      - by apply (unlinks_in _ _ _ _ Hn) in Hin.
      - exact (unlinks_in _ _ _ _ Ht Hin).
      - by apply (unlinks_in _ _ _ _ Hu) in Hin. }
    intros [c|e] t Ht.
    + specialize (Hdone t [] Ht). rewrite app_nil_r in Hdone. apply Hdone. constructor.
    + eapply always_mono; [apply (log_error_unlinks nothing)|]. cbv beta. intros _ u Hu.
      rewrite <- app_assoc. by apply Hdone.
  - apply always_ret. rewrite app_nil_r. intros p a Hin. by apply (unlinks_in _ _ _ _ Hn) in Hin.
  - eapply always_mono; [apply (log_error_unlinks nothing)|]. cbv beta. intros _ u Hu p a Hin.
    apply elem_of_app in Hin as [Hin|Hin]; [by apply (unlinks_in _ _ _ _ Hn) in Hin|].
    by apply (unlinks_in _ _ _ _ Hu) in Hin.
Qed.

(** A file of no known session, listed by the scan and old enough. *)
Definition orphan_file (known : list jsstr) (c : OrphanArtifactCandidate) (p : jsstr) : Prop :=
  p = ap_path (oc_artifact c) /\ match oc_sessionKey c with Some k => k ∉ known | None => True end.

Lemma sweep_orphan_unlinks known now graceMs c :
  only_calls (unlinks (orphan_file known c)) (sweep_orphan ctx known now graceMs c).
Proof.
  unfold sweep_orphan, counted. apply only_try_catch; [|intros e; apply log_error_unlinks].
  destruct (match oc_sessionKey c with Some k => mem k known | None => false end) eqn:Hk; [apply only_ret|].
  unlinks_go; try apply logRemovals_unlinks.
  eapply only_weaken; [|apply removeArtifact_unlinks]. intros x Hx p Hp. split; [by apply Hx|].
  destruct (oc_sessionKey c); [|done]. by apply mem_false.
Qed.

Lemma orphan_candidates_unlinks : only_calls (unlinks nothing) (orphan_candidates ctx).
Proof. unfold orphan_candidates, listDirNames. unlinks_go. Qed.

Lemma expendable_sub record t u : t ⊆ u -> expendable record t -> expendable record u.
Proof.
  intros Hs [H|[(H1 & H2 & H3)|(cwd & ref & r & H1 & H2)]]; [by left | right; left | right; right].
  - split_and!; [done | done | by apply Hs].
  - exists cwd, ref, r. split; [by apply Hs | done].
Qed.

Definition justified (now graceMs : Z) (records : list SessionRecord) (t : list event) (p : jsstr) : Prop :=
  (exists record, record ∈ records /\ of_ended_session now graceMs record t p) \/
  (exists c, orphan_file (map sessionID records) c p).

Lemma sweep_body_trace now graceMs records :
  always (counts ← mapM_ (sweep_record_artifacts ctx Date_parse now graceMs) records;
          candidates ← orphan_candidates ctx;
          counts' ← mapM_ (sweep_orphan ctx (map sessionID records) now graceMs) candidates;
          mret (sum_counts (counts ++ counts')))
    (fun _ t => forall p a, EvUnit (CRm p) a ∈ t -> justified now graceMs records t p).
Proof.
  assert (forall t t1 p a, t1 ⊆ t -> (forall ev, ev ∈ t1 -> exists x tx, x ∈ records /\
      (forall p a, EvUnit (CRm p) a ∈ tx -> of_ended_session now graceMs x tx p) /\ ev ∈ tx /\ tx ⊆ t1) ->
    EvUnit (CRm p) a ∈ t1 -> justified now graceMs records t p) as Hrec.
  { intros t t1 p a Hs H Hin. destruct (H _ Hin) as (x & tx & Hx & Hq & Htx & Hsub); clear Hin.
    left. exists x. split; [done|]. destruct (Hq _ _ Htx) as (H1 & H2 & H3 & H4).
    split_and!; try done. eapply expendable_sub; [|exact H4]. by transitivity t1. }
  apply always_bind. eapply always_mono.
  { apply (mapM_trace _ (fun x tx => forall p a, EvUnit (CRm p) a ∈ tx -> of_ended_session now graceMs x tx p)).
    intros x _. apply sweep_record_trace. }
  cbv beta. intros [counts|e] t1 H1; [|intros p a; by apply Hrec].
  apply always_bind. eapply always_mono; [apply orphan_candidates_unlinks|]. cbv beta.
  intros [cs|e] t2 H2.
  2: { intros p a [Hin|Hin]%elem_of_app; [eapply Hrec; [|exact H1|exact Hin]; set_solver|].
       by apply (unlinks_in _ _ _ _ H2) in Hin. }
  apply always_bind. eapply always_mono.
  { apply (mapM_trace _ (fun c tx => Forall (fun e => unlinks (orphan_file (map sessionID records) c) (call_of e)) tx)).
    intros c _. apply sweep_orphan_unlinks. }
  cbv beta. intros r t3 H3.
  assert (forall u p a, EvUnit (CRm p) a ∈ t1 ++ t2 ++ t3 -> t1 ⊆ u -> justified now graceMs records u p) as Hall.
  { intros u p a Hin Hs. rewrite !elem_of_app in Hin. destruct Hin as [Hin|[Hin|Hin]].
    - by eapply Hrec.
    - by apply (unlinks_in _ _ _ _ H2) in Hin.
    - destruct (H3 _ Hin) as (c & tx & _ & Hf & Htx & _). right. exists c.
      exact (unlinks_in _ _ _ _ Hf Htx). }
  destruct r as [cs'|e]; [apply always_ret; rewrite app_nil_r|]; intros p a Hin;
    (eapply Hall; [exact Hin |]; intros ev Hev; apply elem_of_app; by left).
Qed.
End collect.

(** The artifact sweep unlinks only what it may.  Every file it removes is
    either one of the artifact files of a session that has ended, has been so
    for longer than the grace period, and whose work is void or recoverable
    (rejected; or failed with no result and no bundle on disk; or its durable
    ref was seen to resolve), or a file the orphan scan attributes to no session
    that has a record. *)
Theorem artifact_sweep_removes_only_ended ctx Date_parse graceMs w out w' t p a :
  sweepStateArtifacts ctx Date_parse graceMs w = (out, w', t) ->
  EvUnit (CRm p) a ∈ t ->
  exists now records w1, EvInt CNow (Ok now) ∈ t /\ SessionStore.list_ (w_store w1) = Ok records /\
    ((exists record, record ∈ records /\ of_ended_session ctx Date_parse now graceMs record t p) \/
     (exists c, orphan_file (map sessionID records) c p)).
Proof.
  intros Hrun Hin. revert Hin.
  assert (wp (sweepStateArtifacts ctx Date_parse graceMs) (fun _ _ t => EvUnit (CRm p) a ∈ t ->
    exists now records w1, EvInt CNow (Ok now) ∈ t /\ SessionStore.list_ (w_store w1) = Ok records /\
      justified ctx Date_parse now graceMs records t p) w) as H.
  2: { unfold wp in H. by rewrite Hrun in H. }
  unfold sweepStateArtifacts. apply wp_bind. unfold wp at 1, call_int.
  destruct (on_int (env ctx) CNow w) as [[now|e] w1]; cbv iota beta.
  2: { intros Hin. apply list_elem_of_singleton in Hin. discriminate. }
  apply wp_bind. unfold wp at 1, store_list.
  destruct (SessionStore.list_ (w_store w1)) as [records|e] eqn:Hl; cbv iota beta.
  2: { intros Hin. apply list_elem_of_singleton in Hin. discriminate. }
  eapply wp_mono; [apply (sweep_body_trace ctx Date_parse now graceMs records)|]. cbv beta.
  intros _ w2 t2 Ht Hin. cbn [app] in *. apply elem_of_cons in Hin as [?|Hin]; [discriminate|].
  exists now, records, w1. split_and!; [apply list_elem_of_here | done|].
  destruct (Ht _ _ Hin) as [(x & Hx & H1 & H2 & H3 & H4)|?]; [left | by right].
  exists x. split; [done|]. split_and!; try done. eapply expendable_sub; [|exact H4].
  intros ev Hev. by apply list_elem_of_further.
Qed.

Definition rejected_world : world :=
  sample_world {[ js "s" := RFRecord (patch_field (P_state REJECTED) (fresh_record (js "s") (js "t0"))) ]}.

Lemma artifact_sweep_removes_only_ended_witness :
  exists out w' t, sweepStateArtifacts (sample_ctx (clock_env 7200000)) no_date 3600000 rejected_world
      = (out, w', t) /\
    exists now records w1, EvInt CNow (Ok now) ∈ t /\ SessionStore.list_ (w_store w1) = Ok records /\
      ((exists record, record ∈ records /\
          of_ended_session (sample_ctx (clock_env 7200000)) no_date now 3600000 record t (js "/st/bundles/s.bundle")) \/
       (exists c, orphan_file (map sessionID records) c (js "/st/bundles/s.bundle"))).
Proof.
  destruct (sweepStateArtifacts (sample_ctx (clock_env 7200000)) no_date 3600000 rejected_world)
    as [[out w'] t] eqn:Hrun.
  exists out, w', t. split; [reflexivity|].
  apply (artifact_sweep_removes_only_ended _ _ _ _ _ _ _ _ (Ok tt) Hrun).
  apply (f_equal snd) in Hrun. cbn [snd] in Hrun. rewrite <- Hrun. vm_compute.
  repeat first [apply list_elem_of_here | apply list_elem_of_further].
Defined.
