(* ===== verification/Authorization.v ===== *)
(** * Who may do what (broker/src/validation.ts, service.ts, server.ts, advisor-socket.ts)

    The host-tool policy, the binding of a session to an agent, the answers of
    toolAdmission, the dispatch guard of sandbox operations, and the rewriting
    of requests on the advisor sockets. *)
From Stdlib Require Import QArith.
From S2P Require Import Prelude JsVal Types State Policy Path Validation HostPaths Envelope RolePolicy GitOps Artifacts Queue Effects Worker.
From S2P Require Import WorkerFacts.
Open Scope Z_scope.

(** ** Host tools *)
Inductive HostToolAccess := A_read | A_mutation.

#[export] Instance HostToolAccess_eq_dec : EqDecision HostToolAccess.
Proof. solve_decision. Defined.

Definition access_name (a : HostToolAccess) : jsstr :=
  match a with A_read => js "read" | A_mutation => js "mutation" end.

Definition HOST_READ_OPERATIONS : list jsstr :=
  argv ["sddStatus"; "sddContinue"; "sddTaskResult"; "reviewAssess"; "reviewModeStatus";
        "reviewStatus"; "reviewLensContext"; "reviewDiffRead"; "reviewPersistPreflight";
        "sandboxResult"; "advisorGet"; "advisorList"; "toolAdmission"].

Definition HOST_MUTATION_OPERATIONS : list jsstr :=
  argv ["sddArchiveCompose"; "gitCommit"; "gitClearCommitIntent"; "gitPush"; "ghIssueCreate";
        "registerProject"; "sddAttemptGrant"; "planDocAppend"; "planDocWrite"; "taskMark";
        "gateVerdict"; "reviewStart"; "reviewCaptureResult"; "reviewCaptureUnachievable";
        "reviewAcknowledgeApproved"; "reviewCaptureCorrectionPlan"; "reviewCaptureRefuter";
        "reviewCaptureValidation"; "reviewValidate"; "reviewRecover"; "reviewMaterialize";
        "reviewPipelineRun"; "reviewPersist"; "sandboxResultInstall"; "advisorAsk"].

Definition hostToolAccess (operation : jsstr) : res HostToolAccess :=
  if mem operation HOST_READ_OPERATIONS then Ok A_read
  else if mem operation HOST_MUTATION_OPERATIONS then Ok A_mutation
  else Throw (invalid_ [js "unknown host tool operation: "; operation]).

(** [HOST_MUTATION_OPERATIONS.filter((o) => o !== name)] *)
Definition all_but (name : string) : list jsstr :=
  List.filter (fun o => negb (str_eqb o (js name))) HOST_MUTATION_OPERATIONS.

Definition HOST_MUTATION_IDENTITY_OPERATIONS : list (jsstr * list jsstr) :=
  [(js "pm", [js "taskMark"]);
   (js "gentle-orchestrator", all_but "taskMark");
   (js "pm-odd", all_but "registerProject");
   (js "pm-systematic", all_but "registerProject");
   (js "pm-sdd", all_but "registerProject");
   (js "pm-odd-astra", all_but "registerProject");
   (js "pm-systematic-astra", all_but "registerProject")].

Record HostToolDecision := mkDecision {
  hd_allowed : bool; hd_access : HostToolAccess; hd_reasonCode : jsstr
}.

(** [(TABLE[agent] ?? []).includes(operation)]: a name inherited from
    Object.prototype holds a value without an [includes] method. *)
Definition identity_allows (agent operation : jsstr) : res bool :=
  match table_get HOST_MUTATION_IDENTITY_OPERATIONS agent with
  | Own ops => Ok (mem operation ops)
  | Inherited _ => Throw (Exn EError (js "(HOST_MUTATION_IDENTITY_OPERATIONS[trustedAgent] ?? []).includes is not a function"))
  | Absent => Ok false
  end.

(** [HostToolPolicy.decide] of the policy built on [authorizedAgents]. *)
Definition HostToolPolicy_decide (authorizedAgents : list jsstr) (operation : jsstr)
    (trustedAgent : option jsstr) : res HostToolDecision :=
  access ← hostToolAccess operation;
  match access with
  | A_read => Ok (mkDecision true access (js "HOST_READ_OPEN"))
  | A_mutation =>
      permitted ← match trustedAgent with
                  | Some a => if mem a authorizedAgents then identity_allows a operation else Ok false
                  | None => Ok false
                  end;
      Ok (if permitted : bool then mkDecision true access (js "HOST_MUTATION_ORCHESTRATOR")
          else mkDecision false access
                 (match truthy trustedAgent with
                  | Some _ => js "HOST_MUTATION_NOT_ORCHESTRATOR"
                  | None => js "HOST_MUTATION_UNKNOWN_AGENT"
                  end))
  end.

Inductive HostDispatchCategory := orchestrator | plan_writer.

Definition PLAN_ROLES : list jsstr := argv ["planner"; "pm"].

(** The plan-writer category's own rule. *)
Definition plan_writer_allows (readOnly : list jsstr) (operation : jsstr) (trusted : option jsstr) : bool :=
  let role := normalizeRoleKey (default [] trusted) in
  let named := negb (bool_decide (truthy trusted = None)) in
  let isPlanRole := named && mem role PLAN_ROLES in
  (str_eqb operation (js "planDocWrite") && named
     && (isPlanRole || mem (default [] trusted) readOnly))
  || (str_eqb operation (js "gateVerdict") && isPlanRole)
  || (str_eqb operation (js "taskMark") && str_eqb role (js "pm")).

Definition authorizeHostDispatch (readOnly : list jsstr) (st : store) (operation sid : jsstr)
    (category : HostDispatchCategory) : res HostToolAccess :=
  existing ← SessionStore.get st sid;
  let trusted := existing ≫= agent in
  access ← hostToolAccess operation;
  match category with
  | plan_writer =>
      _ ← throw_if (str_eqb operation (js "taskMark")
                    && negb (str_eqb (normalizeRoleKey (default [] trusted)) (js "pm")))
            (policy_error (js "TASK_MARK_PM_ONLY: host operation " ++ [34%N] ++ operation ++ [34%N]
               ++ js " requires a PM identity"));
      if plan_writer_allows readOnly operation trusted then Ok access
      else Throw (policy_error (js "host " ++ access_name access ++ js " tool " ++ [34%N] ++ operation
             ++ [34%N] ++ js " requires plan-writer category (HOST_MUTATION_NOT_PLAN_WRITER)"))
  | orchestrator =>
      decision ← HostToolPolicy_decide readOnly operation trusted;
      if hd_allowed decision then Ok (hd_access decision)
      else Throw (policy_error (js "host " ++ access_name (hd_access decision) ++ js " tool " ++ [34%N]
             ++ operation ++ [34%N] ++ js " is orchestrator-only (" ++ hd_reasonCode decision ++ js ")"))
  end.

(** ** Binding a session to an agent *)
Definition assertBindableAgent (readOnly : list jsstr) (v : jsval) : res jsstr :=
  match v with
  | JStr a =>
      _ ← throw_if (js_length a =? 0) (invalid "bindSessionAgent requires a non-empty agent");
      _ ← throw_if (128 <? js_length a) (invalid "bindSessionAgent agent exceeds 128 bytes");
      _ ← throw_if (negb (mem a readOnly) && negb (isRole (normalizeRoleKey a)))
            (policy_error (js "session agent binding refused: " ++ [34%N] ++ a ++ [34%N]
               ++ js " is neither a host-authoritative identity nor a known role"));
      Ok a
  | _ => Throw (invalid "bindSessionAgent requires a non-empty agent")
  end.

(** The states of the worker lifecycle. *)
Definition in_worker_lifecycle (s : SessionState) : bool :=
  bool_decide (s ∈ [CREATING_SANDBOX; SANDBOX_ACTIVE; RESULT_READY; APPLY_PENDING; APPLIED; RETAINED; REJECTED]).

Definition entered_lifecycle (r : SessionRecord) : bool :=
  bool_decide (workerLifecycleEntered r = Some true)
  || negb (bool_decide (workerName r = None)) || negb (bool_decide (workerState r = None))
  || in_worker_lifecycle (state r).

Definition bindSessionAgent (readOnly : list jsstr) (sid : jsstr) (payload : jsval) : M SessionRecord :=
  _ ← lift (assertPayloadKeys (js "bindSessionAgent") payload);
  a ← lift (assertBindableAgent readOnly (field payload (js "agent")));
  existing ← store_get sid;
  _ ← throw_when (match existing with Some r => entered_lifecycle r | None => false end)
        (policy_error (js "session " ++ sid
           ++ js " entered the worker lifecycle and cannot be bound to a host mutation identity"));
  _ ← match existing ≫= agent with
      | Some b => throw_when (negb (str_eqb b a))
            (policy_error (js "session " ++ sid ++ js " is already bound to " ++ [34%N] ++ b ++ [34%N]
               ++ js "; the first host-authoritative binding wins"))
      | None => mret tt
      end;
  store_touch sid [P_agent (Some a); P_lastOperation (Some (js "bindSessionAgent"))]
    (Some (js "bindSessionAgent")).

(** ** Tool admission *)
Record ToolAdmission := mkAdmission {
  ta_classification : jsstr; ta_allow : bool; ta_reason : jsstr
}.

(** The classification of a tool: an inherited property name yields that
    property's value, which no comparison below matches. *)
Definition admission_unbound (cls : prop Capability) (st : SessionState) : ToolAdmission :=
  match cls with
  | Absent => mkAdmission (js "unclassified") false (js "UNCLASSIFIED_TOOL_DENIED")
  | Inherited n => mkAdmission n true (js "UNBOUND_SESSION_READ_ONLY_CLASS")
  | Own c =>
      match c with
      | MUTATE_PROJECT | HOST_APPROVED_MUTATION | EXECUTE_PROJECT | TEST_EXECUTION
      | SECURITY_MUTATION | HOST_ADMIN_STRUCTURED =>
          mkAdmission (capability_name c) false (js "UNBOUND_SESSION_MUTATION_DENIED")
      | _ =>
          if bool_decide (c = HOST_READ_STRUCTURED) && negb (bool_decide (st = HOST_READ_ONLY))
          then mkAdmission (capability_name c) false (js "UNBOUND_SESSION_POST_ACTIVATION_DENIED")
          else mkAdmission (capability_name c) true (js "UNBOUND_SESSION_READ_ONLY_CLASS")
      end
  end.

Definition toolAdmission (readOnly : list jsstr) (st : store) (sid tool : jsstr) : res ToolAdmission :=
  let cls := classifyOperation tool in
  match cls with
  | Absent => Ok (mkAdmission (js "unclassified") false (js "UNCLASSIFIED_TOOL_DENIED"))
  | _ =>
      record ← SessionStore.get st sid;
      match record, truthy (record ≫= agent) with
      | Some r, Some a =>
          let result := decide {|
            ac_role := normalizeRoleKey a;
            ac_capability := match cls with Own c => JStr (capability_name c) | _ => JObj [] end;
            ac_sessionState := state r;
            ac_authoritativeLocation := default [] (projectID r);
            ac_isReadOnlyOrchestrator := mem a readOnly;
            ac_targetPath := None |} in
          Ok (mkAdmission (match cls with Own c => capability_name c | Inherited n => n | Absent => [] end)
                (dr_allow result) (dr_reasonCode result))
      | _, _ => Ok (admission_unbound cls
                      (match record with Some r => state r | None => HOST_READ_ONLY end))
      end
  end.

(** ** The dispatch guard *)
Definition sandbox_guard (readOnly : list jsstr) (st : store) (op : Operation) (sid : jsstr) : res unit :=
  if negb (bool_decide (op = Op.ensureWorker)) && bool_decide (op ∈ SANDBOX_OPERATIONS)
  then
    existing ← SessionStore.get st sid;
    match truthy (existing ≫= agent) with
    | Some a => throw_if (mem a readOnly)
          (policy_error (js "orchestrator agent " ++ [34%N] ++ a ++ [34%N]
             ++ js " is not allowed to use sandbox operation " ++ [34%N] ++ Op.name op ++ [34%N]
             ++ js " (orchestrator-readonly)"))
    | None => Ok tt
    end
  else Ok tt.

(** ** Advisor connections *)

(** A request as it is on the wire, its operation still a name. *)
Record WireRequest := mkWire {
  wr_id : jsstr; wr_operation : jsstr; wr_sessionID : jsstr; wr_agent : option jsstr; wr_payload : jsval
}.

Definition ADVISOR_AGENT : jsstr := js "external-advisor".
Definition ADVISOR_SESSION_PLACEHOLDER : jsstr := js "advisor".
Definition ADVISOR_SESSION_PREFIX : jsstr := js "advisor".

Definition ADVISOR_ALLOWED_OPERATIONS : list jsstr :=
  argv ["ensureWorker"; "workerStatus"; "destroyWorker"; "exec"; "readFile"; "writeFile";
        "applyPatch"; "listDir"; "grep"; "diff"; "resultDiff"; "advisorRead"; "advisorRespond";
        "evidenceKeep"].
Definition ADVISOR_ONLY_OPERATIONS : list jsstr := argv ["advisorRead"; "advisorRespond"; "evidenceKeep"].

Record AdvisorBinding := mkBinding { ab_projectId : jsstr; ab_projectPath : jsstr; ab_sessionID : jsstr }.

(** [/^[A-Za-z0-9_-]{1,32}$/] *)
Definition assertProjectId (projectId : jsstr) : res unit :=
  throw_if (negb (re_class (fun c => is_alnum c || one_of "_-" c) 1 32 projectId))
    (invalid_ [js "advisor project id must match /^[A-Za-z0-9_-]{1,32}$/, got "; json_string projectId]).

Definition advisorSocketPath (mainSocketPath projectId : jsstr) : res jsstr :=
  _ ← assertProjectId projectId;
  Ok (join [dirname mainSocketPath; js "opencode-sandbox-advisor-" ++ projectId ++ js ".sock"]).

(** [hex] is the sixteen hex digits of eight random bytes. *)
Definition newAdvisorSessionID (projectId hex : jsstr) : res jsstr :=
  _ ← assertProjectId projectId;
  Ok (ADVISOR_SESSION_PREFIX ++ js "-" ++ projectId ++ js "-" ++ hex).

Definition isAdvisorSessionID (sid : jsstr) : bool :=
  str_eqb sid ADVISOR_SESSION_PLACEHOLDER || startsWith sid (ADVISOR_SESSION_PREFIX ++ js "-").

(** The own enumerable properties a value spreads into an object literal. *)
Definition spread (v : jsval) : list (jsstr * jsval) :=
  match v with
  | JObj fs => fs
  | JArr xs => imap (fun i x => (dec (Z.of_nat i), x)) xs
  | JStr s => imap (fun i c => (dec (Z.of_nat i), JStr [c])) s
  | _ => []
  end.

(** [{ ...fs, k: v }]: an existing property keeps its place. *)
Definition with_field (fs : list (jsstr * jsval)) (k : jsstr) (v : jsval) : list (jsstr * jsval) :=
  if mem k (map fst fs) then map (fun kv => if str_eqb (fst kv) k then (k, v) else kv) fs
  else fs ++ [(k, v)].

Definition bindAdvisorRequest (req : WireRequest) (binding : AdvisorBinding) : res WireRequest :=
  _ ← throw_if (negb (mem (wr_operation req) ADVISOR_ALLOWED_OPERATIONS))
        (policy_error (js "operation '" ++ wr_operation req ++ js "' is not available on the advisor socket"));
  _ ← throw_if (negb (str_eqb (wr_sessionID req) ADVISOR_SESSION_PLACEHOLDER)
                && negb (str_eqb (wr_sessionID req) (ab_sessionID binding)))
        (policy_error (js "an advisor connection operates only its own session"));
  payload ←
    (if str_eqb (wr_operation req) (js "ensureWorker") then
       let given := field (wr_payload req) (js "projectDir") in
       _ ← throw_if (negb (is_undef given)
                     && negb (match given with JStr s => str_eqb s (ab_projectPath binding) | _ => false end))
             (policy_error (js "the advisor socket is pinned to project '" ++ ab_projectId binding ++ js "'"));
       Ok (JObj (with_field (if is_nullish (wr_payload req) then [] else spread (wr_payload req))
                   (js "projectDir") (JStr (ab_projectPath binding))))
     else Ok (wr_payload req));
  Ok (mkWire (wr_id req) (wr_operation req) (ab_sessionID binding) (Some ADVISOR_AGENT) payload).

Definition refuseAdvisorSessionOnMain (req : WireRequest) : res WireRequest :=
  _ ← throw_if (mem (wr_operation req) ADVISOR_ONLY_OPERATIONS)
        (policy_error (js "operation '" ++ wr_operation req ++ js "' is available only on an advisor socket"));
  _ ← throw_if (isAdvisorSessionID (wr_sessionID req))
        (policy_error (js "advisor sessions are reachable only through their advisor socket"));
  Ok req.

(** ** Properties of authorization

    Theorems about Authorization.v: who may run a host mutation, that a binding
    is made once and by whom it can still be rewritten, what an unbound session
    is admitted to, and that advisor connections are isolated. *)
(** ** Helpers *)
Lemma hostToolAccess_Ok op a :
  hostToolAccess op = Ok a ->
  (a = A_read /\ op ∈ HOST_READ_OPERATIONS) \/ (a = A_mutation /\ op ∈ HOST_MUTATION_OPERATIONS).
Proof.
  unfold hostToolAccess. destruct (mem op HOST_READ_OPERATIONS) eqn:H1.
  - intros [= <-]. left. by apply mem_true in H1.
  - destruct (mem op HOST_MUTATION_OPERATIONS) eqn:H2; [|done].
    intros [= <-]. right. by apply mem_true in H2.
Qed.

Lemma host_operations_disjoint op : op ∈ HOST_READ_OPERATIONS -> op ∈ HOST_MUTATION_OPERATIONS -> False.
Proof.
  intros H1 H2. assert (forallb (fun o => negb (mem o HOST_MUTATION_OPERATIONS)) HOST_READ_OPERATIONS = true) as H
    by (vm_compute; reflexivity).
  rewrite forallb_forall in H. apply list_elem_of_In in H1. specialize (H op H1).
  apply negb_true_iff in H. by apply mem_false in H.
Qed.

Lemma hostToolAccess_mutation op : op ∈ HOST_MUTATION_OPERATIONS -> hostToolAccess op = Ok A_mutation.
Proof.
  intros H. unfold hostToolAccess. destruct (mem op HOST_READ_OPERATIONS) eqn:H1.
  - apply mem_true in H1. destruct (host_operations_disjoint op H1 H).
  - by rewrite (proj2 (mem_true _ _) H).
Qed.

(** Every identity of the table may only run host mutations. *)
Lemma identity_operations_are_mutations a ops op :
  assoc a HOST_MUTATION_IDENTITY_OPERATIONS = Some ops -> op ∈ ops -> op ∈ HOST_MUTATION_OPERATIONS.
Proof.
  intros Ha Hop. apply assoc_Some_In in Ha.
  assert (forallb (fun p => forallb (fun o => mem o HOST_MUTATION_OPERATIONS) (snd p))
            HOST_MUTATION_IDENTITY_OPERATIONS = true) as H by (vm_compute; reflexivity).
  rewrite forallb_forall in H. apply list_elem_of_In in Ha, Hop. specialize (H _ Ha).
  rewrite forallb_forall in H. by apply mem_true, H.
Qed.

(** ** Properties *)

(** A host mutation is dispatched exactly when the agent recorded for the
    session is one of the configured orchestrator identities and the identity's
    own table lists the operation; the request's claimed agent plays no part,
    and a session without a record or an agent is always refused. *)
Theorem host_mutation_iff_identity readOnly st op sid :
  op ∈ HOST_MUTATION_OPERATIONS ->
  authorizeHostDispatch readOnly st op sid orchestrator = Ok A_mutation <->
  exists r a ops, SessionStore.get st sid = Ok (Some r) /\ agent r = Some a /\ a ∈ readOnly /\
    assoc a HOST_MUTATION_IDENTITY_OPERATIONS = Some ops /\ op ∈ ops.
Proof.
  intros Hop. unfold authorizeHostDispatch, HostToolPolicy_decide.
  rewrite (hostToolAccess_mutation op Hop).
  destruct (SessionStore.get st sid) as [[r|]|e]; cbn [mbind res_bind option_bind].
  2: { split; [by intros [=] | by intros (? & ? & ? & [=] & _)]. }
  2: { split; [by intros [=] | by intros (? & ? & ? & [=] & _)]. }
  split.
  - destruct (agent r) as [a|] eqn:Ha; [|done]. destruct (mem a readOnly) eqn:Hm; [|done].
    unfold identity_allows. destruct (table_get _ a) as [ops|n|] eqn:Ht; [|done|done].
    cbn [mbind res_bind]. destruct (mem op ops) eqn:Ho; [|done]. intros _.
    exists r, a, ops. split_and!; [done | done | by apply mem_true | by apply table_get_Own | by apply mem_true].
  - intros (r' & a & ops & [= <-] & -> & Hm & Ht & Ho).
    rewrite (proj2 (mem_true _ _) Hm). unfold identity_allows.
    rewrite (proj2 (table_get_Own _ _ _) Ht). cbn [mbind res_bind]. by rewrite (proj2 (mem_true _ _) Ho).
Qed.

Definition bound_store (sid a : jsstr) : store :=
  {[ sid := RFRecord (patch_field (P_agent (Some a)) (fresh_record sid (js "t0"))) ]}.

Lemma host_mutation_iff_identity_witness :
  authorizeHostDispatch [js "pm-odd"] (bound_store (js "s") (js "pm-odd")) (js "gitCommit") (js "s") orchestrator
    = Ok A_mutation.
Proof.
  apply host_mutation_iff_identity.
  - apply mem_true. vm_compute. reflexivity.
  - exists (patch_field (P_agent (Some (js "pm-odd"))) (fresh_record (js "s") (js "t0"))), (js "pm-odd"),
      (all_but "registerProject").
    split_and!; [vm_compute; reflexivity | reflexivity | apply list_elem_of_here | vm_compute; reflexivity |].
    apply mem_true. vm_compute. reflexivity.
Defined.

(** A binding is made once.  bindSessionAgent either throws and changes
    nothing, or records a bindable agent (a configured identity or a known
    role) for a session that has not entered the worker lifecycle and was
    unbound or bound to that same agent; nothing else of the record changes but
    its last operation and timestamp. *)
Theorem bindSessionAgent_first_wins readOnly sid payload w out w' t :
  bindSessionAgent readOnly sid payload w = (out, w', t) ->
  t = [] /\
  match out with
  | Throw _ => w' = w
  | Ok r' =>
      exists a, field payload (js "agent") = JStr a /\ agent r' = Some a /\
        (a ∈ readOnly \/ isRole (normalizeRoleKey a) = true) /\
        (forall r, SessionStore.get (w_store w) sid = Ok (Some r) ->
           entered_lifecycle r = false /\ (agent r = None \/ agent r = Some a) /\ state r' = state r)
  end.
Proof.
  unfold bindSessionAgent.
  destruct (assertPayloadKeys _ payload) as [u|e]; [rewrite run_lift_Ok | rewrite run_lift_Throw; by intros [= <- <- <-]].
  destruct (assertBindableAgent readOnly (field payload (js "agent"))) as [a|e] eqn:Hb;
    [rewrite run_lift_Ok | rewrite run_lift_Throw; by intros [= <- <- <-]].
  assert (field payload (js "agent") = JStr a /\ (a ∈ readOnly \/ isRole (normalizeRoleKey a) = true)) as [Hf Hrole].
  { unfold assertBindableAgent in Hb. destruct (field payload (js "agent")) as [| | | |s| |]; try discriminate.
    apply res_seq_Ok in Hb as [_ Hb]. apply res_seq_Ok in Hb as [_ Hb]. apply res_seq_Ok in Hb as [Hg [= ->]].
    split; [done|]. apply throw_if_Ok in Hg. apply andb_false_iff in Hg as [Hg|Hg]; apply negb_false_iff in Hg;
      [left; by apply mem_true | by right]. }
  destruct (SessionStore.get (w_store w) sid) as [existing|e] eqn:Hg.
  2: { rewrite (run_bind_throw _ _ e w w []); [by intros [= <- <- <-] | unfold store_get; by rewrite Hg]. }
  rewrite (run_bind_pure _ _ existing w w); [|unfold store_get; by rewrite Hg].
  destruct (match existing with Some r => entered_lifecycle r | None => false end) eqn:Hl;
    [rewrite run_throw_when_true; by intros [= <- <- <-] | rewrite run_throw_when_false].
  set (guard := match existing ≫= agent with Some b => _ | None => _ end).
  assert ((exists e, guard = throw e) \/
    (guard = mret tt /\ (existing ≫= agent = None \/ existing ≫= agent = Some a))) as [[e ->]|[-> Hag]].
  { subst guard. destruct (existing ≫= agent) as [b|]; [|by right; auto]. unfold throw_when.
    destruct (str_eqb b a) eqn:Hba; cbn [negb]; [right | left; by eexists].
    apply str_eqb_eq in Hba as ->. auto. }
  { rewrite (run_bind_throw _ _ e w w []) by done. by intros [= <- <- <-]. }
  rewrite (run_bind_pure _ _ tt w w) by done. unfold store_touch.
  destruct (SessionStore.touch _ _ _ _ _) as [[r' st']|e] eqn:Ht; intros [= <- <- <-]; (split; [done|]); [|done].
  exists a. apply touch_Ok in Ht as [_ [[Hn ->]|(r0 & Hr0 & x & ->)]]; (split_and!; [done | done | done|]);
    intros r [= ->].
  - apply get_None in Hn. congruence.
  - assert (r0 = r) as -> by (apply (get_Some _ _ _) in Hr0; congruence).
    split_and!; [done | | done]. cbn in Hag. destruct Hag as [-> | ->]; auto.
Qed.

Lemma bindSessionAgent_first_wins_witness :
  exists out w' t, bindSessionAgent [] (js "s") (JObj [(js "agent", JStr (js "judge"))])
      (sample_world (bound_store (js "s") (js "worker"))) = (out, w', t) /\
    t = [] /\ w' = sample_world (bound_store (js "s") (js "worker")).
Proof.
  destruct (bindSessionAgent [] (js "s") (JObj [(js "agent", JStr (js "judge"))])
      (sample_world (bound_store (js "s") (js "worker")))) as [[out w'] t] eqn:Hrun.
  exists out, w', t. split; [reflexivity|].
  assert (is_ok out = false) as Hno.
  { apply (f_equal (fun x => is_ok (fst (fst x)))) in Hrun. cbn [fst] in Hrun.
    rewrite <- Hrun. vm_compute. reflexivity. }
  destruct (bindSessionAgent_first_wins [] (js "s") (JObj [(js "agent", JStr (js "judge"))])
      (sample_world (bound_store (js "s") (js "worker"))) out w' t Hrun) as [Ht Hout].
  split; [exact Ht|]. destruct out; [discriminate Hno | exact Hout].
Defined.

(** ** The identity an ensureWorker writes *)
Definition identity_world : world := sample_world (bound_store (js "s") (js "worker")).

Definition rewriting_req : BrokerRequestEnvelope :=
  sample_req Op.ensureWorker (Some (js "pm")) (JObj [(js "projectDir", JStr (js "/work/p"))]).

(** The first binding does not last.  A session bound to the worker role is
    refused taskMark; after one ensureWorker whose request claims the agent
    "pm" (an identity outside the read-only list), the claim has replaced the
    recorded agent, and taskMark is authorized for the session. *)
Theorem ensureWorker_rewrites_identity :
  let E := sample_ctx quiet_env in
  let after := snd (fst (ensureWorker E rewriting_req identity_world)) in
  is_ok (authorizeHostDispatch (readOnlyAgents (cfg E)) (w_store identity_world) (js "taskMark") (js "s")
           plan_writer) = false /\
  authorizeHostDispatch (readOnlyAgents (cfg E)) (w_store after) (js "taskMark") (js "s") plan_writer
    = Ok A_mutation.
Proof. vm_compute. split; reflexivity. Qed.

(** ** Tool admission *)

(** The capabilities an unbound session is admitted to in state [s]. *)
Definition unbound_class (c : Capability) (s : SessionState) : Prop :=
  c ∈ [READ_PROJECT; RESEARCH_EXTERNAL; CONSULT; DELIBERATE] \/
  (c = HOST_READ_STRUCTURED /\ s = HOST_READ_ONLY).

Lemma toolAdmission_unbound readOnly st sid tool found :
  SessionStore.get st sid = Ok found -> truthy (found ≫= agent) = None ->
  toolAdmission readOnly st sid tool = Ok (admission_unbound (classifyOperation tool)
    (match found with Some r => state r | None => HOST_READ_ONLY end)).
Proof.
  intros Hg Hn. unfold toolAdmission. rewrite Hg.
  destruct (classifyOperation tool); [| |done]; destruct found as [r|]; cbn [mbind res_bind option_bind] in *;
    by rewrite ?Hn.
Qed.

Lemma admitted_unbound_class c s : ta_allow (admission_unbound (Own c) s) = true <-> unbound_class c s.
Proof.
  unfold unbound_class. split.
  - destruct c, s; intros H; try discriminate H; try (by right);
      left; rewrite !elem_of_cons; tauto.
  - intros [H|[-> ->]]; [|done]. rewrite !elem_of_cons, elem_of_nil in H.
    destruct H as [-> | [-> | [-> | [-> | []]]]]; done.
Qed.

(** For a session without a bound agent a tool is admitted exactly when it is
    classified in a read-only class (a structured host read only before
    activation), or when its name is one that every object inherits: those
    names are not in the inventory, yet they are admitted, not refused as
    unclassified. *)
Theorem unbound_admission_iff readOnly st sid tool found :
  SessionStore.get st sid = Ok found -> truthy (found ≫= agent) = None ->
  exists a, toolAdmission readOnly st sid tool = Ok a /\
    (ta_allow a = true <->
       (exists c, assoc tool TOOL_CLASSIFICATION_INVENTORY = Some c /\
          unbound_class c (match found with Some r => state r | None => HOST_READ_ONLY end)) \/
       (assoc tool TOOL_CLASSIFICATION_INVENTORY = None /\ tool ∈ OBJECT_PROTOTYPE_NAMES)).
Proof.
  intros Hg Hn. eexists. split; [by apply toolAdmission_unbound|].
  set (s := match found with Some r => state r | None => HOST_READ_ONLY end). unfold classifyOperation.
  destruct (table_get TOOL_CLASSIFICATION_INVENTORY tool) as [c|n|] eqn:Ht.
  - apply table_get_Own in Ht. rewrite admitted_unbound_class, Ht.
    split; [intros H; left; by exists c | by intros [(c' & [= <-] & H)|[[=] _]]].
  - unfold table_get in Ht. destruct (assoc tool _) eqn:Ha; [done|].
    destruct (mem tool OBJECT_PROTOTYPE_NAMES) eqn:Hm; [|done]. injection Ht as <-.
    split; [intros _; right; split; [done | by apply mem_true] | done].
  - apply table_get_Absent in Ht as [Hk Hm]. apply assoc_None in Hk.
    rewrite Hk. split; [done|]. intros [(c & [=] & _)|[_ ?]]; done.
Qed.

Lemma unbound_admission_iff_witness :
  exists a, toolAdmission [] ∅ (js "s") (js "constructor") = Ok a /\ ta_allow a = true.
Proof.
  destruct (unbound_admission_iff [] ∅ (js "s") (js "constructor") None) as (a & H1 & H2);
    [reflexivity | reflexivity|].
  exists a. split; [exact H1|]. apply H2. right. split; [vm_compute; reflexivity|].
  apply mem_true. vm_compute. reflexivity.
Defined.

(** ** Advisor connections *)

Lemma assoc_with_field fs k v : assoc k (with_field fs k v) = Some v.
Proof.
  unfold with_field. destruct (mem k (map fst fs)) eqn:Hm.
  - apply mem_true in Hm. induction fs as [|[k' v'] fs IH]; cbn [map fst] in *; [by apply not_elem_of_nil in Hm|].
    cbn [assoc]. destruct (str_eqb k' k) eqn:Hk; cbn [assoc].
    + by rewrite (proj2 (str_eqb_eq k k) eq_refl).
    + destruct (str_eqb k k') eqn:Hk'.
      * apply str_eqb_eq in Hk' as ->. by rewrite (proj2 (str_eqb_eq k' k') eq_refl) in Hk.
      * apply IH. apply elem_of_cons in Hm as [->|?]; [|done].
        by rewrite (proj2 (str_eqb_eq k' k') eq_refl) in Hk.
  - apply mem_false in Hm. induction fs as [|[k' v'] fs IH]; cbn [app assoc map fst] in *.
    + by rewrite (proj2 (str_eqb_eq k k) eq_refl).
    + apply not_elem_of_cons in Hm as [Hne Hm]. rewrite (proj2 (str_eqb_neq k k') Hne). by apply IH.
Qed.

Lemma newAdvisorSessionID_recognised projectId hex sid :
  newAdvisorSessionID projectId hex = Ok sid -> isAdvisorSessionID sid = true.
Proof.
  unfold newAdvisorSessionID. intros H. apply res_seq_Ok in H as [_ H].
  assert (sid = (ADVISOR_SESSION_PREFIX ++ js "-") ++ projectId ++ js "-" ++ hex) as ->
    by (rewrite <- app_assoc; congruence).
  unfold isAdvisorSessionID. rewrite startsWith_app. apply orb_true_r.
Qed.

(** C36: advisor connections are isolated.  A request accepted on an advisor
    connection runs one of the allowed worker operations, on that connection's
    own session, as the fixed advisor agent, and an ensureWorker of it names
    the connection's own project; and since such a session's id is the one the
    broker made for the connection, no request accepted on the main socket ever
    addresses it. *)
Theorem advisor_isolated req binding req' projectId hex :
  bindAdvisorRequest req binding = Ok req' ->
  newAdvisorSessionID projectId hex = Ok (ab_sessionID binding) ->
  wr_operation req' = wr_operation req /\ wr_operation req' ∈ ADVISOR_ALLOWED_OPERATIONS /\
  wr_sessionID req' = ab_sessionID binding /\ wr_agent req' = Some ADVISOR_AGENT /\
  (wr_operation req' = js "ensureWorker" ->
     field (wr_payload req') (js "projectDir") = JStr (ab_projectPath binding)) /\
  (forall other other', refuseAdvisorSessionOnMain other = Ok other' ->
     other' = other /\ wr_sessionID other <> wr_sessionID req' /\ wr_operation other ∉ ADVISOR_ONLY_OPERATIONS).
Proof.
  unfold bindAdvisorRequest. intros H Hid.
  apply res_seq_Ok in H as [Hop H]. apply throw_if_Ok, negb_false_iff, mem_true in Hop.
  apply res_seq_Ok in H as [_ H]. apply res_bind_Ok in H as (payload & Hp & [= <-]).
  cbn [wr_operation wr_sessionID wr_agent wr_payload]. split_and!; try done.
  - intros Heq. rewrite (proj2 (str_eqb_eq _ _) Heq) in Hp. cbv zeta in Hp.
    apply res_seq_Ok in Hp as [_ [= <-]]. cbn [field]. by rewrite assoc_with_field.
  - intros other other' Ho. unfold refuseAdvisorSessionOnMain in Ho.
    apply res_seq_Ok in Ho as [H1 Ho]. apply res_seq_Ok in Ho as [H2 [= <-]].
    apply throw_if_Ok, mem_false in H1. apply throw_if_Ok in H2. split_and!; [done | | done].
    intros Heq. apply newAdvisorSessionID_recognised in Hid. congruence.
Qed.

Definition sample_binding : AdvisorBinding := mkBinding (js "p") (js "/work/p") (js "advisor-p-00").

Lemma advisor_isolated_witness :
  exists req', bindAdvisorRequest (mkWire (js "1") (js "ensureWorker") (js "advisor") (Some (js "pm")) (JObj []))
      sample_binding = Ok req' /\
    wr_sessionID req' = js "advisor-p-00" /\ wr_agent req' = Some ADVISOR_AGENT /\
    field (wr_payload req') (js "projectDir") = JStr (js "/work/p").
Proof.
  destruct (bindAdvisorRequest (mkWire (js "1") (js "ensureWorker") (js "advisor") (Some (js "pm")) (JObj []))
    sample_binding) as [req'|e] eqn:H.
  - exists req'. split; [reflexivity|].
    destruct (advisor_isolated _ _ _ (js "p") (js "00") H eq_refl) as (H1 & _ & H2 & H3 & H4 & _).
    split; [exact H2 | split; [exact H3 | apply H4; rewrite H1; reflexivity]].
  - exfalso. apply (f_equal is_ok) in H. vm_compute in H. discriminate H.
Defined.
