(* ===== verification/GitGuard.v ===== *)
(** * Hardening of host git commands (broker/src/gitguard.ts)

    The repository-local configuration is writable by the agent and can name
    commands that git runs.  The guard reads it as text, refuses the
    subcommands that would execute something it cannot neutralize, and splices
    the [-c] flags that neutralize the rest. *)
From S2P Require Import Prelude JsVal Path GitOps.
Open Scope Z_scope.

(** ** Tables *)
Definition GIT_NEUTRALIZE_FLAGS : list jsstr :=
  argv ["-c"; "core.hooksPath=/dev/null"; "-c"; "core.fsmonitor=false"; "-c"; "core.pager=cat"].
Definition GIT_NEUTRALIZED_KEYS : list jsstr := argv ["core.hookspath"; "core.fsmonitor"; "core.pager"].
Definition GIT_UNSETTABLE_KEYS : list jsstr := argv ["core.attributesfile"; "core.excludesfile"].
Definition GIT_REMOTE_SUBCOMMANDS : list jsstr := argv ["push"; "fetch"].
Definition GIT_EXECUTION_SUBCOMMANDS : list jsstr :=
  argv ["add"; "commit"; "push"; "restore"; "checkout"; "diff"; "fetch"; "update-ref"; "apply"; "merge";
        "rebase"; "reset"].
Definition GIT_OPTIONS_WITH_VALUE : list jsstr :=
  argv ["-c"; "-C"; "--git-dir"; "--work-tree"; "--namespace"; "--config-env"; "--exec-path"].

(** A GitGuardError: its code, [git-guard], is not a protocol code. *)
Definition guard_error (parts : list jsstr) : exn := Exn EError (concat parts).

(** ** The command line *)
Definition isGitBinary (binary : jsstr) : bool := str_eqb (basename binary) (js "git").

(** The subcommand and its index; [index] is that of the first token left. *)
Fixpoint find_subcommand (index : nat) (tokens : list jsstr) : option (nat * jsstr) :=
  match tokens with
  | [] => None
  | token :: rest =>
      if str_eqb token (js "--") then None
      else if negb (startsWith token (js "-")) then Some (index, token)
      else if mem token GIT_OPTIONS_WITH_VALUE then
        match rest with
        | [] => None
        | _ :: rest' => find_subcommand (index + 2) rest'
        end
      else find_subcommand (index + 1) rest
  end.
Definition findGitSubcommand (args : list jsstr) : option (nat * jsstr) :=
  match args with [] => None | _ :: tokens => find_subcommand 1 tokens end.
Definition gitSubcommand (args : list jsstr) : option jsstr := snd <$> findGitSubcommand args.

(** [key] of [-c key=value]. *)
Definition override_key (pair : jsstr) : jsstr :=
  toLowerCase (match cut_at 61 pair with Some (key, _) => key | None => pair end).

Definition override_error (subcommand key : jsstr) : exn :=
  guard_error [js "refusing caller-supplied '-c "; key; js "=...' on git subcommand '"; subcommand;
    js "': it would override the broker's neutralization or mask a refused repository-local key"].
Definition chdir_error (subcommand : jsstr) : exn :=
  guard_error [js "refusing caller-supplied '-C' on git subcommand '"; subcommand;
    js "': it can redirect the guard away from the repository git will read"].

(** The tokens after the binary, the first [n] of them before the subcommand. *)
Fixpoint no_override (subcommand : jsstr) (n : nat) (tokens : list jsstr) : res unit :=
  match n, tokens with
  | S n', token :: rest =>
      if str_eqb token (js "-C") then Throw (chdir_error subcommand)
      else if str_eqb token (js "-c") then
        match rest with
        | [] => Ok tt
        | setting :: rest' =>
            let key := override_key setting in
            if mem key GIT_NEUTRALIZED_KEYS || mem key GIT_UNSETTABLE_KEYS
            then Throw (override_error subcommand key)
            else no_override subcommand (n' - 1) rest'
        end
      else no_override subcommand n' rest
  | _, _ => Ok tt
  end.
Definition assertNoCallerConfigOverride (args : list jsstr) (subcommandIndex : nat) (subcommand : jsstr) : res unit :=
  no_override subcommand (subcommandIndex - 1) (tail args).

(** ** The configuration text *)

(** [unescape]: a backslash and a character other than a line terminator. *)
Fixpoint unescape (s : jsstr) : jsstr :=
  match s with
  | c :: ((d :: s'') as s') => if (c =? 92)%N && negb (is_line_term d) then d :: unescape s'' else c :: unescape s'
  | _ => s
  end.

(** The position outside quotes of the first character in [stop]: the text
    before it and from it.  A backslash hides the next character. *)
Fixpoint cut_unquoted (stop : N -> bool) (quoted : bool) (s : jsstr) : option (jsstr * jsstr) :=
  match s with
  | [] => None
  | c :: s' =>
      let later := fun h r => (fun '(a, b) => (h ++ a, b)) <$> r in
      if (c =? 92)%N then
        match s' with
        | d :: s'' => later [c; d] (cut_unquoted stop quoted s'')
        | [] => None
        end
      else if (c =? 34)%N then later [c] (cut_unquoted stop (negb quoted) s')
      else if negb quoted && stop c then Some ([], s)
      else later [c] (cut_unquoted stop quoted s')
  end.

Definition stripComment (line : jsstr) : jsstr :=
  match cut_unquoted (fun c => (c =? 35) || (c =? 59))%N false line with
  | Some (before, _) => before
  | None => line
  end.

(** Comments stripped and continuation lines joined. *)
Fixpoint logical_lines (pending : option jsstr) (lines : list jsstr) : list jsstr :=
  match lines with
  | [] => []
  | l :: rest =>
      let line := match pending with
                  | Some p => take (length p - 1) p ++ [10%N] ++ stripComment l
                  | None => stripComment l
                  end in
      if endsWith line [92%N] && negb (bool_decide (rest = []))
      then logical_lines (Some line) rest
      else line :: logical_lines None rest
  end.

Definition is_section_char (c : N) : bool := is_alnum c || one_of ".-" c.

(** The body of a quoted subsection up to its closing quote. *)
Fixpoint quoted_body (s : jsstr) : option (jsstr * jsstr) :=
  match s with
  | [] => None
  | c :: s' =>
      if (c =? 34)%N then Some ([], s')
      else if (c =? 92)%N then
        match s' with
        | d :: s'' => if is_line_term d then None else (fun '(a, b) => (c :: d :: a, b)) <$> quoted_body s''
        | [] => None
        end
      else (fun '(a, b) => (c :: a, b)) <$> quoted_body s'
  end.

(** [GIT_SECTION_RE]: the name, and the raw text of a quoted subsection. *)
Definition GIT_SECTION_RE (line : jsstr) : option (jsstr * option jsstr) :=
  match line with
  | 91%N :: s =>
      let '(name, r) := span is_section_char s in
      let closes r := match snd (span is_ws r) with 93%N :: _ => true | _ => false end in
      if js_length name =? 0 then None else
      let '(blank, r1) := span is_ws r in
      match r1 with
      | 34%N :: r2 =>
          if js_length blank =? 0 then None else
          match quoted_body r2 with
          | Some (body, r3) => if closes r3 then Some (name, Some body) else None
          | None => None
          end
      | _ => if closes r then Some (name, None) else None
      end
  | _ => None
  end.

Record GitConfigEntry := mkEntry {
  ce_section : jsstr; ce_subsection : option jsstr; ce_key : jsstr; ce_value : jsstr
}.

Definition parseSectionHeader (line : jsstr) : option (jsstr * option jsstr) :=
  match GIT_SECTION_RE line with
  | None => None
  | Some (name, Some body) => Some (toLowerCase name, Some (toLowerCase (unescape body)))
  | Some (name, None) =>
      match cut_at 46 (toLowerCase name) with
      | Some ([], _) => None
      | Some (section, subsection) => Some (section, Some subsection)
      | None => Some (toLowerCase name, None)
      end
  end.

(** [GitConfigKey]: section, subsection and key. *)
Abbreviation GitConfigKey := (jsstr * option jsstr * jsstr)%type.

Definition GIT_KEY_RE (s : jsstr) : bool :=
  match s with
  | c :: s' => (is_lower c || is_upper c) && forallb (fun c => is_alnum c || (c =? 45)%N) s'
  | [] => false
  end.

(** [line] split at its first unquoted [=]. *)
Definition key_and_value (line : jsstr) : jsstr * option jsstr :=
  match cut_unquoted (fun c => (c =? 61)%N) false line with
  | Some (head, rest) => (head, Some (drop 1 rest))
  | None => (line, None)
  end.

Definition parseKeyLine (line : jsstr) : option jsstr :=
  let head := trim (fst (key_and_value line)) in
  if GIT_KEY_RE head then Some (toLowerCase head) else None.

Definition unquote (value : jsstr) : jsstr :=
  if (2 <=? js_length value) && startsWith value [34%N] && endsWith value [34%N]
  then unescape (take (length value - 2) (drop 1 value)) else value.

(** One logical line, in a section. *)
Definition config_step (st : jsstr * option jsstr * list GitConfigEntry) (line : jsstr) :=
  let '(section, subsection, entries) := st in
  let trimmed := trim line in
  if js_length trimmed =? 0 then st
  else if startsWith trimmed (js "[") then
    match parseSectionHeader trimmed with
    | Some (s, sub) => (s, sub, entries)
    | None => st
    end
  else if js_length section =? 0 then st
  else
    match parseKeyLine trimmed with
    | None => st
    | Some key =>
        let raw := trim (default [] (snd (key_and_value trimmed))) in
        (section, subsection, entries ++ [mkEntry section subsection key (unquote raw)])
    end.

Definition parseLocalConfigValues (text : jsstr) : list GitConfigEntry :=
  snd (fold_left config_step (logical_lines None (split_on 10 text)) ([], None, [])).

Definition parseLocalConfigKeys (text : jsstr) : list GitConfigKey :=
  map (fun e => (ce_section e, ce_subsection e, ce_key e)) (parseLocalConfigValues text).

(** ** Dangerous keys *)
Definition isExecutionBearingLocalKey (section : jsstr) (subsection : option jsstr) (key : jsstr) : bool :=
  let sec s := str_eqb section (js s) in
  let k names := mem key (map js names) in
  let named := bool_decide (is_Some subsection) in
  if sec "filter" then named && k ["clean"; "smudge"; "process"; "required"]
  else if sec "diff" then k ["external"] || (named && k ["command"; "textconv"])
  else if sec "include" then negb named && k ["path"]
  else if sec "includeif" then named && k ["path"]
  else if sec "core" then k ["gitproxy"; "sshcommand"; "editor"; "askpass"]
  else if sec "credential" then k ["helper"]
  else if sec "merge" then named && k ["driver"]
  else if sec "gpg" then negb named && k ["program"]
  else if sec "submodule" then named && k ["command"]
  else if sec "sequence" then negb named && k ["editor"]
  else false.

Definition execution_bearing (e : GitConfigEntry) : bool :=
  isExecutionBearingLocalKey (ce_section e) (ce_subsection e) (ce_key e).

Definition entry_name (e : GitConfigEntry) : jsstr :=
  ce_section e ++ (match ce_subsection e with
                   | Some sub => js " " ++ [34%N] ++ sub ++ [34%N]
                   | None => []
                   end) ++ js "." ++ ce_key e.

Definition findExecutionBearingLocalKey (text : jsstr) : option jsstr :=
  entry_name <$> List.find execution_bearing (parseLocalConfigValues text).

(** [/^(?:https?|ssh|git|file):\/\//i] *)
Definition GIT_ALLOWED_TRANSPORT_RE (v : jsstr) : bool :=
  existsb (startsWith (map (fun c => if is_upper c then (c + 32)%N else c) v))
    (map js ["http://"; "https://"; "ssh://"; "git://"; "file://"]).

Definition isAllowedRemoteTransport (value : jsstr) : bool :=
  let v := trim value in
  if js_length v =? 0 then false
  else if GIT_ALLOWED_TRANSPORT_RE v then true
  else if startsWith v (js "!") then false
  else match cut_at 58 v with
       | Some (((_ :: _) as host), rest) =>
           negb ((js_length rest =? 0) || startsWith rest (js ":") || startsWith rest (js "//") || includes v (js "::"))
           && negb (includes host (js "/") || includes host (js " ") || includes host (js "\"))
       | _ => false
       end.

Definition bounded (value : jsstr) : jsstr :=
  let v := trim value in if 60 <? js_length v then take 60 v ++ [8230%N] else v.

(** The name under which an entry is refused by the transport guard. *)
Definition unsafe_remote (e : GitConfigEntry) : option jsstr :=
  match ce_subsection e with
  | None => None
  | Some sub =>
      let k names := mem (ce_key e) (map js names) in
      if str_eqb (ce_section e) (js "url") && k ["insteadof"; "pushinsteadof"]
      then Some (js "url." ++ sub ++ js "." ++ ce_key e)
      else if str_eqb (ce_section e) (js "remote") then
        let name := js "remote." ++ sub ++ js "." ++ ce_key e in
        if k ["receivepack"; "uploadpack"; "vcs"] then Some name
        else if k ["url"; "pushurl"] && negb (isAllowedRemoteTransport (ce_value e))
        then Some (name ++ js " (" ++ bounded (ce_value e) ++ js ")")
        else None
      else None
  end.

Definition findUnsafeRemoteKey (text : jsstr) : option jsstr :=
  head (omap unsafe_remote (parseLocalConfigValues text)).

(** ** The repository on disk *)
Inductive stat_answer := SMissing | SDirectory | SFile | SOther | SFailed (message : jsstr).

Section guard.
  (** [statSync] and [readFileSync(.., "utf8")] on the host, and the process's
      working directory. *)
  Context (stat : jsstr -> stat_answer) (read : jsstr -> res jsstr) (process_cwd : jsstr).

Definition statForGuard (path : jsstr) : res stat_answer :=
  match stat path with
  | SFailed m => Throw (guard_error [js "refusing execution-bearing git command: cannot stat "; path; js ": "; m])
  | a => Ok a
  end.

Definition isDirectory (path : jsstr) : res bool :=
  a ← statForGuard path; Ok (match a with SDirectory => true | _ => false end).

Definition directory_or {A} (path : jsstr) (yes no : A) : res A :=
  d ← isDirectory path; Ok (if d : bool then yes else no).

Definition env_var (env : list (jsstr * jsstr)) (name : string) : option jsstr :=
  match assoc (js name) env with Some ((_ :: _) as v) => Some v | _ => None end.

Definition anchored (base path : jsstr) : jsstr := if isAbsolute path then path else resolve2 base path.

(** [/^gitdir:\s*(.+)$/] on the trimmed first line. *)
Definition gitdir_pointer (text : jsstr) : option jsstr :=
  let line := trim (default [] (head (split_on 10 text))) in
  if negb (startsWith line (js "gitdir:")) then None else
  let '(blank, rest) := span is_ws (drop 7 line) in
  if existsb is_line_term rest then None
  else match rest with
       | _ :: _ => Some (trim rest)
       | [] => None
       end.

Definition resolveGitDir (base : jsstr) (env : list (jsstr * jsstr)) : res (option jsstr) :=
  match env_var env "GIT_DIR" with
  | Some v => let dir := anchored base v in directory_or dir (Some dir) None
  | None =>
      let dotGit := join [base; js ".git"] in
      a ← statForGuard dotGit;
      match a with
      | SDirectory => Ok (Some dotGit)
      | SFile =>
          text ← read dotGit;
          match gitdir_pointer text with
          | None => Ok None
          | Some target => let dir := anchored base target in directory_or dir (Some dir) None
          end
      | _ => Ok None
      end
  end.

Definition resolveCommonDir (gitDir base : jsstr) (env : list (jsstr * jsstr)) : res jsstr :=
  match env_var env "GIT_COMMON_DIR" with
  | Some v => let dir := anchored base v in directory_or dir dir gitDir
  | None =>
      let pointer := join [gitDir; js "commondir"] in
      a ← statForGuard pointer;
      match a with
      | SFile =>
          text ← read pointer;
          match trim text with
          | [] => Ok gitDir
          | raw => let dir := anchored gitDir raw in directory_or dir dir gitDir
          end
      | _ => Ok gitDir
      end
  end.

(** [...new Set(xs)] *)
Fixpoint unique (seen xs : list jsstr) : list jsstr :=
  match xs with
  | [] => []
  | x :: xs' => if mem x seen then unique seen xs' else x :: unique (x :: seen) xs'
  end.

Definition localConfigFiles (commonDir gitDir : jsstr) : list jsstr :=
  unique [] [join [commonDir; js "config"]; join [gitDir; js "config"]; join [gitDir; js "config.worktree"]].

Definition readConfigText (file : jsstr) : res (option jsstr) :=
  a ← statForGuard file;
  match a with
  | SMissing => Ok None
  | SFile =>
      match read file with
      | Ok text => Ok (Some text)
      | Throw e => Throw (guard_error [js "refusing execution-bearing git command: cannot read repository-local config ";
                                       file; js ": "; exn_msg e])
      end
  | _ => Throw (guard_error [js "refusing execution-bearing git command: repository-local config "; file;
                             js " is not a regular file"])
  end.

(** Refuse when [find] finds a key in one of the repository's config files. *)
Definition refuse_config (kind : string) (find : jsstr -> option jsstr) (cwd : option jsstr)
    (env : list (jsstr * jsstr)) : res unit :=
  let base := default process_cwd cwd in
  gitDir ← resolveGitDir base env;
  match gitDir with
  | None => Throw (guard_error [js "refusing "; js kind;
                                js " git command: repository git directory could not be resolved"])
  | Some gitDir =>
      commonDir ← resolveCommonDir gitDir base env;
      for_each (fun file =>
        text ← readConfigText file;
        match text ≫= find with
        | Some key => Throw (guard_error [js "refusing "; js kind; js " git command: repository-local config defines '";
                                          key; js "' in "; file])
        | None => Ok tt
        end) (localConfigFiles commonDir gitDir)
  end.

Definition assertRepositoryLocalConfigSafe := refuse_config "execution-bearing" findExecutionBearingLocalKey.
Definition assertRemoteTransportSafe := refuse_config "remote-transport" findUnsafeRemoteKey.

Definition hardenGitArgv (args : list jsstr) (cwd : option jsstr) (env : list (jsstr * jsstr)) : res (list jsstr) :=
  match args with
  | [] => Ok args
  | binary :: rest =>
      if negb (isGitBinary binary) then Ok args else
      match findGitSubcommand args with
      | None => Ok args
      | Some (index, subcommand) =>
          _ ← assertNoCallerConfigOverride args index subcommand;
          _ ← (if mem subcommand GIT_EXECUTION_SUBCOMMANDS then assertRepositoryLocalConfigSafe cwd env else Ok tt);
          _ ← (if mem subcommand GIT_REMOTE_SUBCOMMANDS then assertRemoteTransportSafe cwd env else Ok tt);
          Ok (binary :: GIT_NEUTRALIZE_FLAGS ++ rest)
      end
  end.
End guard.

(** ** Properties of the git guard

    What git is finally asked to run, what the guard finds in a configuration
    written one key to a line, and the spellings it does not see. *)
(** ** The command line git receives *)

(** Git's reading of its global options: the settings of the [-c] options
    before the subcommand, in order; the last of a key wins. *)
Fixpoint command_settings (tokens : list jsstr) : list jsstr :=
  match tokens with
  | [] => []
  | token :: rest =>
      if str_eqb token (js "--") || negb (startsWith token (js "-")) then []
      else if str_eqb token (js "-c") then
        match rest with
        | setting :: rest' => setting :: command_settings rest'
        | [] => []
        end
      else if mem token GIT_OPTIONS_WITH_VALUE then
        match rest with
        | _ :: rest' => command_settings rest'
        | [] => []
        end
      else command_settings rest
  end.

Definition effective (key : jsstr) (args : list jsstr) : option jsstr :=
  last (List.filter (fun s => str_eqb (override_key s) key) (command_settings (tail args))).

(** Value-taking global options other than [-c] and [-C]. *)
Definition OTHER_VALUE_OPTIONS : list jsstr :=
  argv ["--git-dir"; "--work-tree"; "--namespace"; "--config-env"; "--exec-path"].

Lemma value_option_cases token :
  mem token GIT_OPTIONS_WITH_VALUE = true -> mem token OTHER_VALUE_OPTIONS = false ->
  token = js "-c" \/ token = js "-C".
Proof.
  rewrite mem_true, mem_false. unfold GIT_OPTIONS_WITH_VALUE, OTHER_VALUE_OPTIONS.
  intros Hin Hout. apply list_elem_of_In in Hin. rewrite list_elem_of_In in Hout.
  cbn [argv map In] in *. intuition congruence.
Qed.

(** Settings that touch no guarded key. *)
Definition harmless (setting : jsstr) : Prop :=
  mem (override_key setting) GIT_NEUTRALIZED_KEYS = false /\ mem (override_key setting) GIT_UNSETTABLE_KEYS = false.

Lemma find_subcommand_ge tokens i idx sub : find_subcommand i tokens = Some (idx, sub) -> (i <= idx)%nat.
Proof.
  revert i. induction tokens as [tokens IH] using (induction_ltof1 _ (@length jsstr)); unfold ltof in IH.
  intros i. destruct tokens as [|token rest]; [done|]. cbn [find_subcommand].
  destruct (str_eqb token (js "--")); [done|]. destruct (negb _); [by intros [= <- <-]|].
  destruct (mem token _).
  - destruct rest as [|v rest]; [done|]. intros H. apply IH in H; [lia | cbn; lia].
  - intros H. apply IH in H; [lia | cbn; lia].
Qed.

(** What the override check leaves in the global options. *)
Lemma no_override_settings subcommand tokens i idx sub :
  find_subcommand i tokens = Some (idx, sub) ->
  Forall (fun token => mem token OTHER_VALUE_OPTIONS = false) (take (idx - i) tokens) ->
  no_override subcommand (idx - i) tokens = Ok tt -> Forall harmless (command_settings tokens).
Proof.
  revert i. induction tokens as [tokens IH] using (induction_ltof1 _ (@length jsstr)); unfold ltof in IH.
  intros i. destruct tokens as [|token rest]; [by constructor|]. cbn [find_subcommand command_settings].
  destruct (str_eqb token (js "--")); [done|].
  destruct (startsWith token (js "-")); cbn [negb orb]; [|by constructor].
  destruct (mem token GIT_OPTIONS_WITH_VALUE) eqn:Hv.
  - destruct rest as [|v rest]; [done|]. intros Hf. pose proof (find_subcommand_ge _ _ _ _ Hf) as Hge.
    replace (idx - i)%nat with (S (S (idx - (i + 2)))) by lia. cbn [take no_override].
    intros [Ht Hr]%Forall_cons. destruct (value_option_cases token Hv Ht) as [-> | ->]; [|done].
    change (str_eqb (js "-c") (js "-C")) with false. change (str_eqb (js "-c") (js "-c")) with true. cbv iota zeta.
    destruct (mem (override_key v) GIT_NEUTRALIZED_KEYS || _) eqn:Hk; [done|].
    apply orb_false_elim in Hk as [Hk1 Hk2]. cbn [Nat.sub]. rewrite ?Nat.sub_0_r.
    apply Forall_cons in Hr as [_ Hr]. intros Hn. constructor; [by split|].
    eapply IH; [cbn; lia | exact Hf | exact Hr | exact Hn].
  - intros Hf. pose proof (find_subcommand_ge _ _ _ _ Hf) as Hge.
    replace (idx - i)%nat with (S (idx - (i + 1))) by lia. cbn [take no_override]. intros [_ Hr]%Forall_cons.
    destruct (str_eqb token (js "-C")); [done|]. destruct (str_eqb token (js "-c")) eqn:Hc.
    + apply str_eqb_eq in Hc as ->. discriminate Hv.
    + intros Hn. eapply IH; [cbn; lia | exact Hf | exact Hr | exact Hn].
Qed.

(** ** The configuration files the guard has read *)

(** Every local configuration file is absent or names no dangerous key. *)
Definition config_clean (stat : jsstr -> stat_answer) (read : jsstr -> res jsstr) (danger : GitConfigEntry -> bool)
    (file : jsstr) : Prop :=
  stat file = SMissing \/
  exists text, stat file = SFile /\ read file = Ok text /\
    Forall (fun e => danger e = false) (parseLocalConfigValues text).

Lemma find_none {A} (p : A -> bool) l : List.find p l = None -> Forall (fun x => p x = false) l.
Proof. intros H. apply Forall_forall. intros x Hx. eapply find_none; [exact H | by apply list_elem_of_In]. Qed.

Lemma head_omap_none {A B} (f : A -> option B) l : head (omap f l) = None -> Forall (fun x => f x = None) l.
Proof.
  induction l as [|x l IH]; [by constructor|]. cbn. destruct (f x) eqn:Hx; cbn; [done|]. by constructor; auto.
Qed.

Definition unsafe_remote_entry (e : GitConfigEntry) : bool := bool_decide (is_Some (unsafe_remote e)).

Section files.
  Context (stat : jsstr -> stat_answer) (read : jsstr -> res jsstr) (process_cwd : jsstr).

Lemma refuse_config_Ok kind find danger cwd env :
  (forall text, find text = None -> Forall (fun e => danger e = false) (parseLocalConfigValues text)) ->
  refuse_config stat read process_cwd kind find cwd env = Ok tt ->
  exists gitDir commonDir,
    resolveGitDir stat read (default process_cwd cwd) env = Ok (Some gitDir) /\
    resolveCommonDir stat read gitDir (default process_cwd cwd) env = Ok commonDir /\
    Forall (config_clean stat read danger) (localConfigFiles commonDir gitDir).
Proof.
  intros Hfind. unfold refuse_config. rewrite res_bind_Ok. intros (g & Hg & H). destruct g as [gitDir|]; [|done].
  rewrite res_bind_Ok in H. destruct H as (commonDir & Hc & H). exists gitDir, commonDir. split_and!; [done | done|].
  apply for_each_Ok in H. eapply Forall_impl; [exact H|]. cbv beta. intros file Hf.
  rewrite res_bind_Ok in Hf. destruct Hf as (text & Ht & Hf).
  unfold readConfigText, statForGuard in Ht. destruct (stat file) eqn:Hs; cbn [mbind res_bind] in Ht; try done.
  - left. done.
  - destruct (read file) as [s|e] eqn:Hr; [|done]. injection Ht as <-. cbn [mbind option_bind] in Hf.
    destruct (find s) eqn:Hfs; [done|]. right. exists s. split_and!; [done | done | by apply Hfind].
Qed.

End files.

(** A repository with a plain configuration. *)
Definition plain_stat (p : jsstr) : stat_answer :=
  if str_eqb p (js "/work/p/.git") then SDirectory
  else if str_eqb p (js "/work/p/.git/config") then SFile else SMissing.
Definition plain_read (p : jsstr) : res jsstr :=
  Ok (js "[remote " ++ [34%N] ++ js "origin" ++ [34%N] ++ js "]" ++ [10; 9]%N ++ js "url = git@github.com:o/r.git" ++ [10%N]).



(** ** A configuration written one key to a line *)

(** Git's own layout: a header line, then the key on a line of its own. *)
Definition header_text (section : jsstr) (subsection : option jsstr) : jsstr :=
  js "[" ++ section ++ match subsection with
                       | Some sub => js " " ++ [34%N] ++ sub ++ [34%N]
                       | None => []
                       end ++ js "]".
Definition key_text (key value : jsstr) : jsstr := [9%N] ++ key ++ js " = " ++ value.
Definition entry_lines (e : GitConfigEntry) : list jsstr :=
  [header_text (ce_section e) (ce_subsection e); key_text (ce_key e) (ce_value e)].
Definition config_text (es : list GitConfigEntry) : jsstr :=
  concat (map (fun l => l ++ [10%N]) (concat (map entry_lines es))).

Definition is_name_char (c : N) : bool := is_lower c || is_digit c || (c =? 45)%N.
(** A character that neither quotes, escapes, comments nor ends a line. *)
Definition is_plain_char (c : N) : bool := negb (one_of "\#;" c || (c =? 34) || (c =? 10))%N.

Record plain_entry (e : GitConfigEntry) : Prop := {
  pe_section : ce_section e <> [] /\ forallb is_name_char (ce_section e) = true;
  pe_subsection : match ce_subsection e with
                  | Some sub => forallb is_plain_char sub = true /\ toLowerCase sub = sub
                  | None => True
                  end;
  pe_key : match ce_key e with c :: k => is_lower c = true /\ forallb is_name_char k = true | [] => False end;
  pe_value : forallb is_plain_char (ce_value e) = true /\ trim (ce_value e) = ce_value e
}.

Lemma cut_unquoted_plain stop quoted s t :
  forallb (fun c => negb ((c =? 92) || (c =? 34)) && (quoted || negb (stop c)))%N s = true ->
  cut_unquoted stop quoted (s ++ t) = (fun '(a, b) => (s ++ a, b)) <$> cut_unquoted stop quoted t.
Proof.
  induction s as [|c s IH]; intros H.
  - cbn [app]. by destruct (cut_unquoted stop quoted t) as [[]|].
  - cbn [forallb app cut_unquoted] in *. apply andb_true_iff in H as [[Hc Hq]%andb_true_iff Hs].
    apply negb_true_iff, orb_false_elim in Hc as [H1 H2]. rewrite H1, H2.
    assert (negb quoted && stop c = false) as -> by (destruct quoted, (stop c); done).
    rewrite (IH Hs). by destruct (cut_unquoted stop quoted t) as [[]|].
Qed.

Lemma is_plain_char_true c : is_plain_char c = true -> c <> 92%N /\ c <> 34%N /\ c <> 35%N /\ c <> 59%N /\ c <> 10%N.
Proof.
  intros H. split_and!; intros ->; revert H; vm_compute; discriminate.
Qed.

Lemma is_name_char_range c : is_name_char c = true ->
  (97 <= c <= 122)%N \/ (48 <= c <= 57)%N \/ c = 45%N.
Proof.
  unfold is_name_char, is_lower, is_digit. rewrite !orb_true_iff, !andb_true_iff, !N.leb_le, N.eqb_eq. lia.
Qed.

Lemma lower_name s : forallb is_name_char s = true -> toLowerCase s = s.
Proof.
  induction s as [|c s IH]; [done|]. cbn [forallb]. rewrite andb_true_iff. intros [Hc Hs].
  unfold toLowerCase in *. cbn [map concat]. rewrite (IH Hs). apply is_name_char_range in Hc.
  destruct (N.leb_spec 65 c), (N.leb_spec c 90); cbn [andb]; try lia;
    (destruct (N.eqb_spec c 8490); [lia|]); (destruct (N.eqb_spec c 304); [lia | done]).
Qed.


Lemma cut_unquoted_none stop quoted s :
  forallb (fun c => negb (stop c)) s = true -> cut_unquoted stop quoted s = None.
Proof.
  revert quoted. induction s as [s IH] using (induction_ltof1 _ (@length N)). unfold ltof in IH. intros quoted Hs.
  destruct s as [|c s]; [done|]. cbn [forallb cut_unquoted] in *. apply andb_true_iff in Hs as [Hc%negb_true_iff Hs].
  rewrite Hc, andb_false_r. destruct (c =? 92)%N.
  - destruct s as [|d s]; [done|]. cbn [forallb] in Hs. apply andb_true_iff in Hs as [_ Hs].
    rewrite IH by (done || cbn; lia). done.
  - destruct (c =? 34)%N; rewrite IH by (done || cbn; lia); done.
Qed.

(** A value behind one blank. *)
Lemma trim_spaced_value v : trim v = v -> trim (trim_end (32%N :: v)) = v.
Proof.
  intros Hv. destruct (trim_fixed v Hv) as [Hs He]. destruct v as [|c v]; [done|].
  assert (trim_end (32%N :: c :: v) = 32%N :: c :: v) as ->.
  { change (32%N :: c :: v) with ([32%N] ++ c :: v). rewrite trim_end_app_solid by apply (trim_start_fixed _ Hs).
    change (c :: v) with ([] ++ c :: v) in He. rewrite trim_end_app_solid in He by apply (trim_start_fixed _ Hs).
    cbn [app] in He. injection He as He. by rewrite He. }
  exact Hv.
Qed.

(** ** The two lines of an entry *)
Lemma plain_not (p : N -> bool) s :
  (forall c, is_plain_char c = true -> p c = true) -> forallb is_plain_char s = true -> forallb p s = true.
Proof. apply forallb_impl. Qed.

Lemma name_char_plain c : is_name_char c = true -> is_plain_char c = true.
Proof.
  intros H%is_name_char_range. unfold is_plain_char, one_of. apply negb_true_iff, orb_false_iff.
  split; [apply orb_false_iff; split|].
  - apply bool_decide_eq_false. vm_compute (js _). rewrite !elem_of_cons. intros Hc.
    repeat destruct Hc as [-> | Hc]; try lia. by apply not_elem_of_nil in Hc.
  - apply N.eqb_neq. lia.
  - apply N.eqb_neq. lia.
Qed.

Definition no_break (l : jsstr) : bool := forallb (fun c => negb ((c =? 35) || (c =? 59) || (c =? 10)))%N l.
(** A line as [logical_lines] keeps it. *)
Definition whole_line (l : jsstr) : Prop := no_break l = true /\ endsWith l [92%N] = false.

Lemma plain_char_checks c : is_plain_char c = true ->
  ((c =? 10) = false /\ (c =? 35) = false /\ (c =? 59) = false /\ (c =? 92) = false /\ (c =? 34) = false)%N.
Proof. intros (?&?&?&?&?)%is_plain_char_true. rewrite !N.eqb_neq. done. Qed.

Lemma plain_no_break s : forallb is_plain_char s = true -> no_break s = true.
Proof. apply forallb_impl. intros c (E1&E2&E3&?)%plain_char_checks. by rewrite E1, E2, E3. Qed.

Lemma name_no_break s : forallb is_name_char s = true -> no_break s = true.
Proof. intros H. apply plain_no_break. revert H. apply forallb_impl, name_char_plain. Qed.

Lemma no_break_app a b : no_break (a ++ b) = no_break a && no_break b.
Proof. apply forallb_app. Qed.

Lemma no_break_newline l : no_break l = true -> 10%N ∉ l.
Proof.
  intros H Hin%list_elem_of_In. unfold no_break in H. rewrite forallb_forall in H. by apply H in Hin.
Qed.

Lemma endsWith_last_neq a c d : (c =? d)%N = false -> endsWith (a ++ [c]) [d] = false.
Proof. intros H. unfold endsWith. rewrite rev_app_distr. cbn. rewrite N.eqb_sym in H. by rewrite H. Qed.

Lemma whole_line_header e : plain_entry e -> whole_line (header_text (ce_section e) (ce_subsection e)).
Proof.
  intros [[_ Hs%name_no_break] Hsub _ _]. split.
  - unfold header_text. destruct (ce_subsection e) as [t|].
    + destruct Hsub as [Ht%plain_no_break _]. rewrite !no_break_app, Hs, Ht. reflexivity.
    + rewrite !no_break_app, Hs. reflexivity.
  - unfold header_text. change (js "]") with [93%N]. rewrite !app_assoc. by apply endsWith_last_neq.
Qed.

Lemma key_name_chars e : plain_entry e -> forallb is_name_char (ce_key e) = true.
Proof.
  intros [_ _ Hk _]. destruct (ce_key e) as [|c k]; [done|]. cbn [forallb].
  destruct Hk as [Hc Hk]. rewrite Hk. unfold is_name_char. by rewrite Hc.
Qed.

Lemma whole_line_key e : plain_entry e -> whole_line (key_text (ce_key e) (ce_value e)).
Proof.
  intros He. pose proof (name_no_break _ (key_name_chars e He)) as Hk. destruct He as [_ _ _ [Hv _]]. split.
  - unfold key_text. rewrite !no_break_app, Hk, (plain_no_break _ Hv). reflexivity.
  - unfold key_text. destruct (base.decide (ce_value e = [])) as [->|Hne].
    + rewrite app_nil_r. change (js " = ") with ([32; 61]%N ++ [32%N]). rewrite !app_assoc. by apply endsWith_last_neq.
    + apply exists_last in Hne as (v & c & E). rewrite E in *. rewrite forallb_app in Hv.
      apply andb_true_iff in Hv as [_ Hc]. cbn in Hc. rewrite andb_true_r in Hc.
      rewrite !app_assoc. apply endsWith_last_neq. by apply plain_char_checks.
Qed.

Lemma split_lines ls :
  Forall whole_line ls -> split_on 10 (concat (map (fun l => l ++ [10%N]) ls)) = ls ++ [[]].
Proof.
  induction 1 as [|l ls [Hl _] _ IH]; [done|]. cbn [map concat app]. rewrite <- app_assoc. cbn [app].
  rewrite split_on_cons_sep by (by apply no_break_newline). by rewrite IH.
Qed.

Lemma logical_lines_whole ls : Forall whole_line ls -> logical_lines None (ls ++ [[]]) = ls ++ [[]].
Proof.
  induction 1 as [|l ls [H1 H2] _ IH]; [done|]. cbn [app logical_lines].
  assert (stripComment l = l) as ->.
  { unfold stripComment. rewrite cut_unquoted_none; [done|]. revert H1. apply forallb_impl. intros c.
    rewrite !negb_true_iff, !orb_false_iff. tauto. }
  rewrite H2. cbn [andb]. by rewrite IH.
Qed.

(** ** Reading the two lines back *)
Lemma quoted_body_plain t r : forallb is_plain_char t = true -> quoted_body (t ++ 34%N :: r) = Some (t, r).
Proof.
  induction t as [|c t IH]; [done|]. cbn [forallb app quoted_body]. intros [Hc Ht]%andb_true_iff.
  apply plain_char_checks in Hc as (_&_&_&E1&E2). by rewrite E1, E2, IH.
Qed.

Lemma unescape_plain t : forallb is_plain_char t = true -> unescape t = t.
Proof.
  induction t as [|c t IH]; [done|]. cbn [forallb]. intros [Hc Ht]%andb_true_iff.
  apply plain_char_checks in Hc as (_&_&_&E1&_). destruct t as [|d t]; [done|].
  cbn [unescape]. rewrite E1. cbn [andb]. f_equal. by apply IH.
Qed.

Lemma name_section_chars s : forallb is_name_char s = true -> forallb is_section_char s = true.
Proof.
  apply forallb_impl. unfold is_name_char, is_section_char, is_alnum. intros c.
  rewrite !orb_true_iff, N.eqb_eq. intros [[?| ?] | ->]; auto.
Qed.

Lemma name_not_dot s : forallb is_name_char s = true -> cut_at 46 s = None.
Proof.
  induction s as [|c s IH]; [done|]. cbn [forallb cut_at]. intros [Hc Hs]%andb_true_iff.
  apply is_name_char_range in Hc. destruct (N.eqb_spec 46 c); [lia|]. by rewrite IH.
Qed.

Lemma parseSectionHeader_text e :
  plain_entry e -> parseSectionHeader (header_text (ce_section e) (ce_subsection e)) = Some (ce_section e, ce_subsection e).
Proof.
  intros [[Hne Hs] Hsub _ _]. unfold parseSectionHeader, header_text.
  pose proof (name_section_chars _ Hs) as Hsec.
  assert ((js_length (ce_section e) =? 0) = false) as Hlen by (destruct (ce_section e); [done|reflexivity]).
  destruct (ce_subsection e) as [t|].
  - destruct Hsub as [Ht Hlow].
    assert (js "[" ++ ce_section e ++ (js " " ++ [34%N] ++ t ++ [34%N]) ++ js "]"
            = 91%N :: ce_section e ++ 32%N :: 34%N :: t ++ 34%N :: [93%N]) as ->.
    { cbn. by rewrite <- !app_assoc. }
    unfold GIT_SECTION_RE. rewrite (span_exact is_section_char (ce_section e)) by done. rewrite Hlen.
    assert (forall r, span is_ws (32%N :: 34%N :: r) = ([32%N], 34%N :: r)) as -> by done.
    rewrite quoted_body_plain by done. cbn -[toLowerCase unescape]. change (js_length [32%N] =? 0) with false. cbn iota. by rewrite lower_name, unescape_plain, Hlow.
  - unfold GIT_SECTION_RE. change (js "[") with [91%N]. cbn [app].
    rewrite (span_exact is_section_char (ce_section e)) by done. rewrite Hlen.
    change (span is_ws (js "]")) with (@nil N, [93%N]). cbn -[toLowerCase cut_at]. by rewrite lower_name, name_not_dot.
Qed.

Lemma key_chars e : plain_entry e ->
  starts_solid (ce_key e) /\ GIT_KEY_RE (ce_key e) = true /\ ce_key e <> [] /\ head (ce_key e) <> Some 91%N.
Proof.
  intros [_ _ Hk _]. destruct (ce_key e) as [|c k]; [done|]. destruct Hk as [Hc Hk].
  assert (97 <= c <= 122)%N as Hr by (revert Hc; unfold is_lower; rewrite andb_true_iff, !N.leb_le; lia).
  split_and!.
  - cbn. unfold is_ws. rewrite !orb_false_iff, !andb_false_iff, !N.leb_gt, !N.eqb_neq. lia.
  - cbn [GIT_KEY_RE]. rewrite Hc. cbn [orb andb]. revert Hk. apply forallb_impl. intros d.
    unfold is_name_char, is_alnum. rewrite !orb_true_iff. tauto.
  - done.
  - cbn. intros [= ->]. lia.
Qed.

Lemma trim_key_text k v :
  starts_solid k -> k <> [] -> trim (key_text k v) = k ++ 32%N :: 61%N :: trim_end (32%N :: v).
Proof.
  intros Hs Hne. unfold key_text, trim. change (js " = ") with [32; 61; 32]%N. cbn [app trim_start].
  change (is_ws 9) with true. cbn iota. rewrite (trim_start_solid (k ++ _)) by (by destruct k).
  change (rev (trim_start (rev ?x))) with (trim_end x).
  change (32%N :: 61%N :: 32%N :: v) with ([32%N] ++ 61%N :: 32%N :: v). rewrite app_assoc.
  rewrite trim_end_app_solid by done. by rewrite <- app_assoc.
Qed.

Lemma trim_key_blank k : starts_solid k -> trim_end k = k -> trim (k ++ [32%N]) = k.
Proof.
  intros Hs He. unfold trim. destruct k as [|c k]; [done|].
  rewrite (trim_start_solid ((c :: k) ++ _)) by done. rewrite rev_app_distr. cbn [rev app trim_start].
  change (is_ws 32) with true. cbn iota. exact He.
Qed.

Lemma name_end_solid s : forallb is_name_char s = true -> trim_end s = s.
Proof.
  intros H. unfold trim_end. rewrite trim_start_solid; [apply rev_involutive|].
  destruct (rev s) as [|c r] eqn:E; [done|].
  assert (is_name_char c = true) as Hc%is_name_char_range.
  { rewrite forallb_forall in H. apply H, in_rev. rewrite E. by left. }
  cbn. unfold is_ws. rewrite !orb_false_iff, !andb_false_iff, !N.leb_gt, !N.eqb_neq. lia.
Qed.

Lemma key_and_value_text k r :
  forallb is_name_char k = true -> key_and_value (k ++ 32%N :: 61%N :: r) = (k ++ [32%N], Some r).
Proof.
  intros Hk. unfold key_and_value. change (k ++ 32%N :: 61%N :: r) with (k ++ [32%N] ++ 61%N :: r). rewrite app_assoc.
  rewrite cut_unquoted_plain; [cbn; by rewrite app_nil_r|].
  rewrite forallb_app. cbn. rewrite andb_true_r. revert Hk. apply forallb_impl. intros c Hc%is_name_char_range.
  apply andb_true_iff. split; apply negb_true_iff; [apply orb_false_iff; split|]; apply N.eqb_neq; lia.
Qed.

Lemma plain_unquoted v : forallb is_plain_char v = true -> unquote v = v.
Proof.
  intros Hv. unfold unquote. destruct v as [|c v]; [done|]. cbn [forallb] in Hv.
  apply andb_true_iff in Hv as [(_&_&_&_&E)%plain_char_checks _]. cbn [startsWith].
  rewrite N.eqb_sym in E. rewrite E. by rewrite andb_false_r.
Qed.

Lemma entry_steps st e :
  plain_entry e ->
  fold_left config_step (entry_lines e) st = (ce_section e, ce_subsection e, snd st ++ [e]).
Proof.
  intros He. destruct st as [[s0 sub0] es]. unfold entry_lines. cbn [fold_left snd].
  destruct (key_chars e He) as (Hks & Hre & Hkne & Hbr). pose proof (key_name_chars e He) as Hk.
  destruct (He) as [[Hsne _] _ _ [Hv Htv]].
  assert (config_step (s0, sub0, es) (header_text (ce_section e) (ce_subsection e))
          = (ce_section e, ce_subsection e, es)) as ->.
  { unfold config_step.
    assert (trim (header_text (ce_section e) (ce_subsection e)) = header_text (ce_section e) (ce_subsection e)) as ->.
    { unfold trim. rewrite (trim_start_solid (header_text _ _)) by done. unfold header_text. rewrite !app_assoc.
      change (rev (trim_start (rev ?x))) with (trim_end x). change (js "]") with [93%N].
      by rewrite trim_end_app_solid. }
    rewrite parseSectionHeader_text by done. unfold header_text. change (js "[") with [91%N]. cbn [app].
    assert (forall r, (js_length (91%N :: r) =? 0) = false) as -> by done.
    assert (forall r, startsWith (91%N :: r) [91%N] = true) as -> by (by intros []). reflexivity. }
  unfold config_step. rewrite trim_key_text by done.
  assert ((js_length (ce_section e) =? 0) = false) as -> by (destruct (ce_section e); done).
  unfold parseKeyLine. rewrite key_and_value_text by done. cbn [fst snd from_option id].
  rewrite trim_key_blank by (done || by apply name_end_solid). rewrite Hre.
  rewrite trim_spaced_value by done. rewrite plain_unquoted by done. rewrite lower_name by done.
  destruct (ce_key e) as [|c k] eqn:Ek; [done|]. cbn [app].
  assert ((js_length (c :: k ++ 32%N :: 61%N :: trim_end (32%N :: ce_value e)) =? 0) = false) as -> by done.
  assert (startsWith (c :: k ++ 32%N :: 61%N :: trim_end (32%N :: ce_value e)) (js "[") = false) as ->.
  { destruct (N.eqb_spec 91 c) as [<-|Hc%N.eqb_neq]; [by exfalso; apply Hbr|]. change (js "[") with [91%N]. cbn [startsWith]. by rewrite Hc. }
  rewrite <- Ek. by destruct e.
Qed.

(** The guard reads git's own layout of a configuration exactly: a text
    that gives each entry its header line and its key line parses to those
    entries, in order, whatever the sections, subsections, keys and values are
    (names in lower case, no quoting, comment or escape character). *)
Theorem config_roundtrip es :
  Forall plain_entry es -> parseLocalConfigValues (config_text es) = es.
Proof.
  intros Hes. unfold parseLocalConfigValues, config_text.
  assert (Forall whole_line (concat (map entry_lines es))) as Hw.
  { induction Hes as [|e es He _ IH]; [constructor|]. cbn.
    constructor; [by apply whole_line_header|]. constructor; [by apply whole_line_key | done]. }
  rewrite split_lines, logical_lines_whole by done. rewrite fold_left_app.
  assert (forall st, snd (fold_left config_step (concat (map entry_lines es)) st) = snd st ++ es) as H.
  { clear Hw. induction Hes as [|e es He _ IH]; intros st; [by rewrite app_nil_r|].
    cbn [map concat]. rewrite fold_left_app, IH, entry_steps by done. cbn [snd]. by rewrite <- app_assoc. }
  specialize (H ([], None, [])). destruct (fold_left _ _ _) as [[s sub] out]. cbn in *. done.
Qed.

Lemma config_roundtrip_witness :
  let es := [mkEntry (js "core") None (js "sshcommand") (js "ssh -o A=b"); mkEntry (js "remote") (Some (js "o/r x")) (js "url") (js "git@h:p")] in
  parseLocalConfigValues (config_text es) = es /\ execution_bearing (mkEntry (js "core") None (js "sshcommand") []) = true.
Proof.
  split; [|reflexivity]. apply config_roundtrip.
  repeat constructor; vm_compute; try done; discriminate.
Defined.

(** The guard is a textual reading, and four spellings that git accepts get
    past it: a dangerous key on its section's header line, a dangerous key after
    a value that ends in an escaped backslash, the subsection form of
    [gpg.<format>.program], and, on the command line, an option whose value is
    [-c], after which the guard's scan is one token ahead of git's. *)
Theorem config_guard_gaps :
  findExecutionBearingLocalKey (js "[core] sshCommand = evil" ++ [10%N]) = None /\
  findExecutionBearingLocalKey (js "[core]" ++ [10%N] ++ js " x = a\\" ++ [10%N] ++ js " sshCommand = evil" ++ [10%N]) = None /\
  findExecutionBearingLocalKey (js "[gpg " ++ [34%N] ++ js "ssh" ++ [34%N] ++ js "]" ++ [10%N] ++ js " program = evil") = None /\
  assertNoCallerConfigOverride (argv ["git"; "--namespace"; "-c"; "-c"; "core.hooksPath=evil"; "commit"]) 5 (js "commit") = Ok tt /\
  findExecutionBearingLocalKey (js "[core]" ++ [10%N] ++ js " sshCommand = evil" ++ [10%N]) = Some (js "core.sshcommand").
Proof. split_and!; vm_compute; reflexivity. Qed.
