(* ===== verification/PlanDoc.v ===== *)
(** * The text of a plan document (broker/src/service.ts)

    Plan documents are Markdown files the broker edits by text: its heading
    scanner, the append below a heading, the Revisions, Gates and Ticks sections
    and the front matter.  The operations that write the files are in
    PlanDocOps.v. *)
From S2P Require Import Prelude JsVal GitOps Validation Path.
Open Scope Z_scope.

(** ** Headings *)
Record PlanDocHeading := mkHeading {
  h_index : nat; h_level : nat; h_text : jsstr; h_offset : nat
}.

Definition is_blank (c : N) : bool := ((c =? 32) || (c =? 9))%N.

(** [[ \t]*#*[ \t]*$] *)
Definition closing_hashes (s : jsstr) : bool :=
  let '(_, r) := span is_blank s in
  let '(_, r) := span (N.eqb 35) r in
  bool_decide (snd (span is_blank r) = []).

(** [(.+?)[ \t]*#*[ \t]*$]: the shortest text. *)
Fixpoint heading_text (s : jsstr) : option jsstr :=
  match s with
  | [] => None
  | c :: s' =>
      if is_line_term c then None
      else if closing_hashes s' then Some [c] else cons c <$> heading_text s'
  end.

(** [PLAN_DOC_ATX_HEADING_RE]: the level and the text.  After two blanks or
    more and nothing else, the text is the last blank. *)
Definition PLAN_DOC_ATX_HEADING_RE (line : jsstr) : option (nat * jsstr) :=
  let '(hashes, r) := span (N.eqb 35) line in
  let level := length hashes in
  if negb ((1 <=? level)%nat && (level <=? 6)%nat) then None else
  let '(blanks, text) := span is_blank r in
  match rev blanks, text with
  | [], _ => None
  | c :: before, [] => if bool_decide (before = []) then None else Some (level, [c])
  | _ :: _, _ => pair level <$> heading_text text
  end.

Record fence := mkFence { f_character : N; f_length : nat }.

(** [/^[ \t]{0,3}(`{3,}|~{3,})/] *)
Definition opening_fence (line : jsstr) : option fence :=
  let '(indent, r) := span is_blank line in
  if (3 <? length indent)%nat then None else
  let run c := length (fst (span (N.eqb c) r)) in
  if (3 <=? run 96%N)%nat then Some (mkFence 96 (run 96%N))
  else if (3 <=? run 126%N)%nat then Some (mkFence 126 (run 126%N))
  else None.

Definition closes_fence (f : fence) (line : jsstr) : bool :=
  let '(indent, r) := span is_blank line in
  let '(marks, r) := span (N.eqb (f_character f)) r in
  (length indent <=? 3)%nat && (f_length f <=? length marks)%nat && bool_decide (snd (span is_blank r) = []).

(** The line without one final carriage return. *)
Definition logical_line (line : jsstr) : jsstr :=
  if endsWith line [13%N] then take (length line - 1) line else line.

(** The scanner's loop: the position, the open fence and the lines left. *)
Fixpoint scan_lines (index offset : nat) (f : option fence) (lines : list jsstr) : list PlanDocHeading :=
  match lines with
  | [] => []
  | line :: rest =>
      let logicalLine := logical_line line in
      let next := scan_lines (index + 1) (offset + length line + 1) in
      match f with
      | Some open => next (if closes_fence open logicalLine then None else f) rest
      | None =>
          match opening_fence logicalLine with
          | Some open => next (Some open) rest
          | None =>
              match PLAN_DOC_ATX_HEADING_RE logicalLine with
              | Some (level, text) => mkHeading index level (trim text) offset :: next None rest
              | None => next None rest
              end
          end
      end
  end.

Definition scanPlanDocHeadings (existing : jsstr) : list PlanDocHeading :=
  scan_lines 0 0 None (split_on 10 existing).

(** The first heading after [h] of level [level] or higher. *)
Definition following (hs : list PlanDocHeading) (h : PlanDocHeading) (level : nat) : option PlanDocHeading :=
  List.find (fun e => (h_index h <? h_index e)%nat && (h_level e <=? level)%nat) hs.

(** [heading.level === 2 && heading.text === name] *)
Definition is_section (name : string) (h : PlanDocHeading) : bool :=
  (h_level h =? 2)%nat && str_eqb (h_text h) (js name).

(** ** Appending *)
Definition planDocSectionInsertionIndex (existing heading : jsstr) : res nat :=
  let wanted := trim heading in
  let headings := scanPlanDocHeadings existing in
  match List.filter (fun e => str_eqb (h_text e) wanted) headings with
  | [] => Throw (invalid_ [js "plan document heading not found: "; wanted])
  | [h] => Ok (match following headings h (h_level h) with
               | Some next => h_offset next
               | None => length existing
               end)
  | _ => Throw (invalid_ [js "plan document heading is ambiguous: "; wanted])
  end.

(** What is put between the text before and the text after. *)
Definition inserted (before content after : jsstr) : jsstr :=
  (if negb (bool_decide (before = [])) && negb (endsWith before [10%N]) then [10%N] else [])
  ++ content ++ [10%N]
  ++ (if startsWith after (js "#") then [10%N] else []).

Definition computePlanDocAppend (existing content : jsstr) (heading : option jsstr) : res jsstr :=
  insertionIndex ← match heading with
                   | Some h => planDocSectionInsertionIndex existing h
                   | None => Ok (length existing)
                   end;
  let before := take insertionIndex existing in
  let after := drop insertionIndex existing in
  Ok (before ++ inserted before content after ++ after).

(** ** Revisions *)

(** [/^- r([0-9]+) /]; a number past 2^53 rounds in the code. *)
Definition revision_number (line : jsstr) : option Z :=
  if negb (startsWith line (js "- r")) then None else
  let '(digits, r) := span is_digit (drop 3 line) in
  match digits, r with
  | _ :: _, 32%N :: _ => Some (fold_left (fun n c => n * 10 + (Z.of_N c - 48)) digits 0)
  | _, _ => None
  end.

(** The lines after [h], up to the next heading of level 2 or higher. *)
Definition section_lines (existing : jsstr) (hs : list PlanDocHeading) (h : PlanDocHeading) : list jsstr :=
  let lines := split_on 10 existing in
  let stop := match following hs h 2 with Some next => h_index next | None => length lines end in
  drop (h_index h + 1) (take stop lines).

Definition planDocRevisionSection (existing : jsstr) : Z * list jsstr :=
  let headings := scanPlanDocHeadings existing in
  match List.find (is_section "Revisions") headings with
  | None => (0, [])
  | Some h =>
      let sectionLines := section_lines existing headings h in
      (fold_left Z.max (omap revision_number sectionLines) 0, sectionLines)
  end.

(** An ISO time without its milliseconds. *)
Definition iso_seconds (now : jsstr) : jsstr :=
  match rev now with
  | 90%N :: a :: b :: c :: 46%N :: r => if forallb is_digit [a; b; c] then rev (90%N :: r) else now
  | _ => now
  end.

(** The text of a written document: the body, the Revisions section with one
    line more and the Gates section carried over. *)
Definition drop_last_empty (lines : list jsstr) : list jsstr :=
  match rev lines with
  | [] :: before => rev before
  | _ => lines
  end.

Definition carried_gates (destination existing : jsstr) : res jsstr :=
  let headings := scanPlanDocHeadings existing in
  match List.filter (is_section "Gates") headings with
  | [] => Ok []
  | [h] => Ok (match following headings h 2 with Some _ => [] | None => drop (h_offset h) existing end)
  | _ => Throw (invalid_ [js "PLAN_WRITE_MULTIPLE_GATES_SECTIONS: "; destination])
  end.

Definition next_document (existing body revisionLine gates : jsstr) : jsstr :=
  let priorLines := drop_last_empty (snd (planDocRevisionSection existing)) in
  let revisionsText := body ++ [10; 10]%N ++ js "## Revisions" ++ [10%N]
                       ++ join_with [10%N] (priorLines ++ [revisionLine]) ++ [10%N] in
  if bool_decide (gates = []) then revisionsText else revisionsText ++ [10%N] ++ gates.

(** ** Gates *)
Definition is_task_char (c : N) : bool := is_alnum c || one_of "._-" c.

(** [GATE_TASK_ID_RE] *)
Definition GATE_TASK_ID_RE (s : jsstr) : bool :=
  match s with
  | c :: s' => is_alnum c && re_class is_task_char 0 63 s'
  | [] => false
  end.

Inductive GateVerdict := PASS | REFINE | ESCALATE.

#[export] Instance GateVerdict_eq_dec : EqDecision GateVerdict.
Proof. solve_decision. Defined.

Definition verdict_name (v : GateVerdict) : jsstr :=
  match v with PASS => js "PASS" | REFINE => js "REFINE" | ESCALATE => js "ESCALATE" end.
Definition read_verdict (s : jsstr) : option GateVerdict :=
  List.find (fun v => str_eqb (verdict_name v) s) [PASS; REFINE; ESCALATE].

(** [\d{4}-\d\d-\d\dT\d\d:\d\d:\d\dZ], over its whole length *)
Fixpoint matches_shape (shape s : jsstr) : bool :=
  match shape, s with
  | [], [] => true
  | p :: shape', c :: s' => (if (p =? 48)%N then is_digit c else (p =? c)%N) && matches_shape shape' s'
  | _, _ => false
  end.
Definition is_timestamp : jsstr -> bool := matches_shape (js "0000-00-00T00:00:00Z").

(** The part of a gate line after the agent: an evidence reference, a
    refinement plan, both or neither, and at most one carriage return. *)
Definition gate_tail (s : jsstr) : bool :=
  let s := logical_line s in
  negb (existsb (fun c => (c =? 13) || (c =? 10))%N s) &&
  (bool_decide (s = [])
   || (startsWith s (js " ref=") && (5 <? js_length s))
   || (startsWith s (js " :: ") && (4 <? js_length s))).

(** [GATE_LINE_RE]: the task, the verdict and the time. *)
Definition GATE_LINE_RE (line : jsstr) : option (jsstr * GateVerdict * jsstr) :=
  if negb (startsWith line (js "- ")) then None else
  match cut_at 32 (drop 2 line) with
  | None => None
  | Some (task, r) =>
      match cut_at 32 r with
      | None => None
      | Some (verdict, r) =>
          match cut_at 32 r with
          | None => None
          | Some (at_, r) =>
              let '(agent, tail) := span (fun c => negb (is_ws c)) r in
              match read_verdict verdict with
              | Some v => if GATE_TASK_ID_RE task && is_timestamp at_ && negb (bool_decide (agent = [])) && gate_tail tail
                          then Some (task, v, at_) else None
              | None => None
              end
          end
      end
  end.

Record LatestGateVerdict := mkVerdict { gv_verdict : GateVerdict; gv_at : jsstr }.

Definition readLatestGateVerdict (document taskId : jsstr) : option LatestGateVerdict :=
  let headings := scanPlanDocHeadings document in
  h ← last (List.filter (is_section "Gates") headings);
  last (omap (fun line =>
    '(task, v, at_) ← GATE_LINE_RE line;
    if str_eqb task taskId then Some (mkVerdict v at_) else None) (section_lines document headings h)).

(** [text.slice(text.lastIndexOf(p))]: the last code unit when there is no [p]. *)
Fixpoint last_index_of (p s : jsstr) : option nat :=
  match s with
  | [] => if bool_decide (p = []) then Some 0%nat else None
  | _ :: s' => match last_index_of p s' with
               | Some i => Some (S i)
               | None => if startsWith s p then Some 0%nat else None
               end
  end.
Definition from_last (p s : jsstr) : jsstr :=
  match last_index_of p s with Some i => drop i s | None => drop (length s - 1) s end.

Definition appendGateLine (existing line : jsstr) : res (jsstr * nat) :=
  let headings := scanPlanDocHeadings existing in
  let gatesHeading := List.find (is_section "Gates") headings in
  _ ← match gatesHeading ≫= fun h => following headings h 2 with
      | Some _ => Throw (invalid "GATE_VERDICT_GATES_SECTION_NOT_AT_END: ## Gates must be the final section")
      | None => Ok tt
      end;
  let start := existing ++ (if endsWith existing [10%N] then [] else [10%N]) in
  let text := match gatesHeading with
              | None => start ++ [10%N] ++ js "## Gates" ++ [10%N] ++ line ++ [10%N]
              | Some _ => start ++ line ++ [10%N]
              end in
  let section := from_last (js "## Gates") text in
  Ok (text, length (List.filter (fun entry => bool_decide (is_Some (GATE_LINE_RE entry))) (split_on 10 section))).

(** The line a verdict is recorded as. *)
Definition gate_line (taskId : jsstr) (v : GateVerdict) (timestamp agent : jsstr) (evidenceRef refinementPlan : option jsstr)
    : jsstr :=
  js "- " ++ taskId ++ js " " ++ verdict_name v ++ js " " ++ timestamp ++ js " " ++ agent
  ++ (match evidenceRef with Some r => js " ref=" ++ r | None => [] end)
  ++ (match refinementPlan with Some p => js " :: " ++ trim p | None => [] end).

(** ** Ticks *)
Inductive ReviewTier := T_high | T_medium | T_passive.
Definition tier_name (t : ReviewTier) : jsstr :=
  match t with T_high => js "high" | T_medium => js "medium" | T_passive => js "passive" end.

Definition tick_line (taskId status evidenceCommit : jsstr) (tier : ReviewTier) (timestamp agent note : jsstr) : jsstr :=
  taskId ++ js " " ++ status ++ js " evidence=" ++ evidenceCommit ++ js " tier=" ++ tier_name tier ++ js " "
  ++ timestamp ++ js " " ++ agent ++ (if 0 <? js_length note then js ": " ++ note else []).

(** The document with the tick added, before its revision line. *)
Definition add_tick (existing tickLine : jsstr) : res jsstr :=
  let headings := scanPlanDocHeadings existing in
  match List.filter (is_section "Ticks") headings with
  | [] => Ok (trim_end existing ++ [10; 10]%N ++ js "## Ticks" ++ [10%N] ++ tickLine ++ [10%N])
  | [tick] =>
      match following headings tick 2 with
      | Some _ => Throw (invalid "TASK_MARK_TICKS_NOT_FINAL: Ticks must be the final section")
      | None => Ok (trim_end existing ++ [10%N] ++ tickLine ++ [10%N])
      end
  | _ => Throw (invalid "TASK_MARK_MULTIPLE_TICKS_SECTIONS: plan document has ambiguous Ticks sections")
  end.

Definition appendTaskMarkTick (existing taskId status evidenceCommit : jsstr) (tier : ReviewTier) (agent note timestamp : jsstr)
    : res (jsstr * Z) :=
  text ← add_tick existing (tick_line taskId status evidenceCommit tier timestamp agent note);
  let revision := fst (planDocRevisionSection text) + 1 in
  let revisionLine := js "- r" ++ dec revision ++ js " " ++ timestamp ++ js " " ++ agent ++ js ": task mark " ++ taskId
                      ++ js " " ++ status in
  text' ← match List.filter (is_section "Revisions") (scanPlanDocHeadings text) with
          | [] => computePlanDocAppend text (js "## Revisions" ++ [10%N] ++ revisionLine) (Some (js "Ticks"))
          | [_] => computePlanDocAppend text revisionLine (Some (js "Revisions"))
          | _ => Throw (invalid "TASK_MARK_MULTIPLE_REVISIONS_SECTIONS: plan document has ambiguous Revisions sections")
          end;
  Ok (text', revision).

(** ** Front matter *)

(** [\r?\n] at the front: what follows it. *)
Definition newline (s : jsstr) : option jsstr :=
  match s with
  | 10%N :: r | 13%N :: 10%N :: r => Some r
  | _ => None
  end.

(** [\r?\n---[ \t]*(?:\r?\n|$)] *)
Definition frontmatter_end (s : jsstr) : bool :=
  match newline s with
  | Some r =>
      startsWith r (js "---") &&
      (let after := snd (span is_blank (drop 3 r)) in
       bool_decide (after = []) || bool_decide (is_Some (newline after)))
  | None => false
  end.

Fixpoint frontmatter_body (s : jsstr) : option jsstr :=
  if frontmatter_end s then Some []
  else match s with
       | [] => None
       | c :: s' => cons c <$> frontmatter_body s'
       end.

Definition leadingPlanFrontmatter (content : jsstr) : option jsstr :=
  if negb (startsWith content (js "---")) then None
  else newline (snd (span is_blank (drop 3 content))) ≫= frontmatter_body.

(** [s.split(/\r?\n/)] *)
Fixpoint strip_returns (lines : list jsstr) : list jsstr :=
  match lines with
  | l :: ((_ :: _) as rest) => logical_line l :: strip_returns rest
  | _ => lines
  end.
Definition split_lines_crlf (s : jsstr) : list jsstr := strip_returns (split_on 10 s).

Definition has_key (key : string) (line : jsstr) : bool := startsWith line (js key ++ js ":").

Definition hasFrontmatterKey (frontmatter : jsstr) (key : string) : bool :=
  existsb (has_key key) (split_lines_crlf frontmatter).

(** The first blank run before a [#], and what follows, removed. *)
Fixpoint strip_hash_comment (s : jsstr) : jsstr :=
  match s with
  | [] => []
  | c :: s' =>
      if is_ws c && match snd (span is_ws s) with
                    | 35%N :: r => negb (existsb is_line_term r)
                    | _ => false
                    end
      then [] else c :: strip_hash_comment s'
  end.

(** A pair of quotes around the whole text, removed. *)
Definition strip_quotes (s : jsstr) : jsstr :=
  match s with
  | q :: r =>
      match rev r with
      | q' :: middle => if ((q =? 34) || (q =? 39))%N && (q =? q')%N && negb (existsb is_line_term middle)
                        then rev middle else s
      | [] => s
      end
  | [] => s
  end.

Definition frontmatterValue (frontmatter : jsstr) (key : string) : option jsstr :=
  (fun line => strip_quotes (trim (strip_hash_comment (match cut_at 58 line with Some (_, r) => r | None => line end))))
    <$> List.find (has_key key) (split_lines_crlf frontmatter).

(** ** Other checks *)
Definition PLAN_DOC_WRITE_MAX_BYTES : Z := 256 * 1024.

(** [PLAN_DOC_NAME_RE] *)
Definition PLAN_DOC_NAME_RE (s : jsstr) : bool :=
  match s with
  | c :: s' => (is_lower c || is_digit c) && re_class (fun c => is_lower c || is_digit c || (c =? 45)%N) 0 63 s'
  | [] => false
  end.

Definition assertPlanDocWriteName (v : jsval) : res unit :=
  match v with
  | JStr s => if PLAN_DOC_NAME_RE s then Ok tt
              else Throw (invalid "PLAN_WRITE_NAME_INVALID: name must match ^[a-z0-9][a-z0-9-]{0,63}$")
  | _ => Throw (invalid "PLAN_WRITE_NAME_INVALID: name must match ^[a-z0-9][a-z0-9-]{0,63}$")
  end.

(** The bytes of the file before and now, or its absence. *)
Definition assertPlanDocBytesUnchanged {A} `{EqDecision A} (destination : jsstr) (expected current : option A) : res unit :=
  throw_if (negb (bool_decide (expected = current))) (invalid_ [js "PLAN_WRITE_CONCURRENT_MODIFICATION: "; destination]).

(** ** Facts about plan documents

    Appending keeps the outline of a document; a recorded gate verdict is the
    one read back; and what the section orders do to later operations. *)
(** ** The scanner over concatenated lines *)

(** The fence left open by a line that starts with [f] open. *)
Definition fence_step (f : option fence) (line : jsstr) : option fence :=
  let l := logical_line line in
  match f with
  | Some open => if closes_fence open l then None else f
  | None => opening_fence l
  end.
Definition fence_after (f : option fence) (lines : list jsstr) : option fence := fold_left fence_step lines f.

(** The heading a line is, with [f] open. *)
Definition heading_of (f : option fence) (line : jsstr) : option (nat * jsstr) :=
  let l := logical_line line in
  match f, opening_fence l with
  | None, None => PLAN_DOC_ATX_HEADING_RE l
  | _, _ => None
  end.

Definition lines_length (lines : list jsstr) : nat := list_sum (map (fun l => length l + 1)%nat lines).

Lemma lines_length_cons l ls : lines_length (l :: ls) = (length l + 1 + lines_length ls)%nat.
Proof. reflexivity. Qed.

Lemma scan_cons i o f l ls :
  scan_lines i o f (l :: ls) =
  (match heading_of f l with Some (level, text) => [mkHeading i level (trim text) o] | None => [] end)
  ++ scan_lines (i + 1) (o + length l + 1) (fence_step f l) ls.
Proof.
  cbn [scan_lines]. unfold heading_of, fence_step. destruct f as [open|]; [done|].
  destruct (opening_fence (logical_line l)); [done|].
  by destruct (PLAN_DOC_ATX_HEADING_RE (logical_line l)) as [[]|].
Qed.

Lemma scan_app i o f ls1 ls2 :
  scan_lines i o f (ls1 ++ ls2) =
  scan_lines i o f ls1 ++ scan_lines (i + length ls1) (o + lines_length ls1) (fence_after f ls1) ls2.
Proof.
  revert i o f. induction ls1 as [|l ls1 IH]; intros i o f.
  - cbn. by rewrite !Nat.add_0_r.
  - cbn [app]. rewrite !scan_cons, IH, <- app_assoc. do 2 f_equal.
    rewrite lines_length_cons. cbn [length]. f_equal; lia.
Qed.

Lemma scan_bounds i o f ls :
  Forall (fun h => i <= h_index h < i + length ls)%nat (scan_lines i o f ls).
Proof.
  revert i o f. induction ls as [|l ls IH]; intros i o f; [constructor|].
  rewrite scan_cons. apply Forall_app. split.
  - destruct (heading_of f l) as [[]|]; repeat constructor; cbn; lia.
  - eapply Forall_impl; [apply IH|]. cbn. intros h Hh. lia.
Qed.

(** A line that starts no heading and no fence. *)
Definition plain_line (l : jsstr) : Prop :=
  match l with
  | c :: _ => (one_of " #`~" c || (c =? 9)%N) = false
  | [] => True
  end.

Lemma plain_logical l : plain_line l -> plain_line (logical_line l).
Proof.
  unfold logical_line. destruct (endsWith l [13%N]); [|done]. destruct l as [|c [|d l]]; try done.
Qed.

Lemma plain_line_char c l : plain_line (c :: l) ->
  is_blank c = false /\ (35 =? c)%N = false /\ (96 =? c)%N = false /\ (126 =? c)%N = false.
Proof.
  cbn [plain_line]. intros H. assert (c <> 32 /\ c <> 9 /\ c <> 35 /\ c <> 96 /\ c <> 126)%N as (?&?&?&?&?).
  { split_and!; intros ->; vm_compute in H; discriminate. }
  unfold is_blank. rewrite orb_false_iff, !N.eqb_neq. auto.
Qed.

Lemma plain_opening l : plain_line l -> opening_fence l = None.
Proof.
  destruct l as [|c l]; [done|]. intros (E1&E2&E3&E4)%plain_line_char.
  unfold opening_fence. cbn [span]. rewrite E1. cbn [length]. cbn [span]. rewrite E3, E4. reflexivity.
Qed.

Lemma plain_heading f l : plain_line l -> heading_of f l = None.
Proof.
  intros H%plain_logical. unfold heading_of. rewrite (plain_opening _ H). destruct f; [done|].
  destruct (logical_line l) as [|c r]; [done|]. apply plain_line_char in H as (_&E&_).
  unfold PLAN_DOC_ATX_HEADING_RE. cbn [span]. rewrite E. reflexivity.
Qed.

Lemma plain_step_closed l : plain_line l -> fence_step None l = None.
Proof. intros H%plain_logical. by apply plain_opening. Qed.

(** A closed document: every fence it opens is closed. *)
Definition closed (doc : jsstr) : Prop := fence_after None (split_on 10 doc) = None.

Lemma scan_plain i o f ls : Forall plain_line ls -> scan_lines i o f ls = [].
Proof.
  intros H. revert i o f. induction H as [|l ls Hl _ IH]; intros i o f; [done|].
  by rewrite scan_cons, IH, plain_heading.
Qed.

Lemma fence_after_plain ls : Forall plain_line ls -> fence_after None ls = None.
Proof.
  induction 1 as [|l ls Hl _ IH]; [done|]. unfold fence_after in *. cbn [fold_left].
  by rewrite plain_step_closed.
Qed.

Lemma fence_after_app f a b : fence_after f (a ++ b) = fence_after (fence_after f a) b.
Proof. apply fold_left_app. Qed.

(** ** Documents as lines *)
Lemma scan_text_app a b :
  scanPlanDocHeadings (a ++ 10%N :: b) =
  scanPlanDocHeadings a ++ scan_lines (length (split_on 10 a)) (lines_length (split_on 10 a))
                             (fence_after None (split_on 10 a)) (split_on 10 b).
Proof. unfold scanPlanDocHeadings. by rewrite split_on_app, scan_app. Qed.

(** A final newline adds an empty line. *)
Lemma scan_final_newline a : scanPlanDocHeadings (a ++ [10%N]) = scanPlanDocHeadings a.
Proof. rewrite scan_text_app, scan_plain, app_nil_r; [done|]. repeat constructor. Qed.


Lemma opening_fence_length l f : opening_fence l = Some f -> (3 <= f_length f)%nat.
Proof.
  unfold opening_fence. destruct (span is_blank l) as [indent r].
  destruct (3 <? length indent)%nat; [done|].
  destruct (Nat.leb_spec 3 (length (fst (span (N.eqb 96) r)))); [by intros [= <-]|].
  destruct (Nat.leb_spec 3 (length (fst (span (N.eqb 126) r)))); [by intros [= <-] | done].
Qed.

Lemma fence_length ls f : fence_after None ls = Some f -> (3 <= f_length f)%nat.
Proof.
  assert (forall g, (forall h, g = Some h -> 3 <= f_length h)%nat ->
    forall h, fence_after g ls = Some h -> (3 <= f_length h)%nat) as H; [|by apply H].
  induction ls as [|l ls IH]; intros g Hg h; [apply Hg|]. apply (IH (fence_step g l)).
  intros h' . unfold fence_step. destruct g as [open|]; [|apply opening_fence_length].
  destruct (closes_fence _ _); [done|]. apply Hg.
Qed.

Lemma closed_final_newline a : closed (a ++ [10%N]) -> closed a.
Proof.
  unfold closed. rewrite split_on_app, fence_after_app.
  destruct (fence_after None (split_on 10 a)) as [open|] eqn:E; [|done]. apply fence_length in E.
  unfold fence_after. cbn [fold_left split_on]. unfold fence_step, closes_fence.
  change (logical_line []) with (@nil N). cbn [span length]. destruct (f_length open); [lia | done].
Qed.

(** A text before a line of its own: with one newline at its end, or none. *)
Definition unended (doc : jsstr) : jsstr := if endsWith doc [10%N] then take (length doc - 1) doc else doc.

Lemma unended_spec doc : doc = unended doc ++ [10%N] \/ (doc = unended doc /\ endsWith doc [10%N] = false).
Proof.
  unfold unended. destruct (endsWith doc [10%N]) eqn:E; [|by right]. left.
  apply endsWith_last in E as [d ->]. rewrite length_app. cbn [length]. rewrite Nat.add_sub.
  by rewrite take_app_length.
Qed.

Lemma with_newline doc : doc ++ (if endsWith doc [10%N] then [] else [10%N]) = unended doc ++ [10%N].
Proof.
  destruct (unended_spec doc) as [H|[H E]].
  - assert (endsWith doc [10%N] = true) as -> by (apply endsWith_last; eauto). by rewrite app_nil_r.
  - by rewrite E, <- H.
Qed.

Lemma scan_unended doc : scanPlanDocHeadings (unended doc) = scanPlanDocHeadings doc.
Proof. destruct (unended_spec doc) as [H|[H _]]; [|by rewrite <- H]. rewrite H at 2. by rewrite scan_final_newline. Qed.

Lemma closed_unended doc : closed doc -> closed (unended doc).
Proof. destruct (unended_spec doc) as [H|[H _]]; [|by rewrite <- H]. rewrite H at 1. apply closed_final_newline. Qed.

(** The lines of a document, less the empty one after its final newline. *)
Lemma lines_unended doc : exists extra, Forall (fun l => l = []) extra /\
  split_on 10 doc = split_on 10 (unended doc) ++ extra.
Proof.
  destruct (unended_spec doc) as [H|[H _]].
  - exists [[]]. split; [by repeat constructor|]. rewrite H at 1. by rewrite split_on_app.
  - exists []. split; [constructor|]. by rewrite <- H, app_nil_r.
Qed.

(** ** Sections *)
Lemma following_none hs h level :
  following hs h level = None -> Forall (fun e => (h_index h < h_index e)%nat -> (level < h_level e)%nat) hs.
Proof.
  intros H. apply Forall_forall. intros e He%list_elem_of_In Hi.
  pose proof (find_none _ _ H e He) as Hf. cbv beta in Hf.
  apply andb_false_iff in Hf as [Hf|Hf]; [apply Nat.ltb_ge in Hf | apply Nat.leb_gt in Hf]; lia.
Qed.

Lemma following_none_intro hs h level :
  Forall (fun e => (h_index h < h_index e)%nat -> (level < h_level e)%nat) hs -> following hs h level = None.
Proof.
  intros H. unfold following. destruct (List.find _ hs) as [e|] eqn:E; [|done].
  apply find_some in E as [He Hb]. apply list_elem_of_In in He. rewrite Forall_forall in H. specialize (H e He).
  apply andb_true_iff in Hb as [H1%Nat.ltb_lt H2%Nat.leb_le]. specialize (H H1). lia.
Qed.

(** The scanner lists headings in the order of their lines. *)
Lemma scan_sorted i o f ls : Sorted.StronglySorted (fun a b => h_index a < h_index b)%nat (scan_lines i o f ls).
Proof.
  revert i o f. induction ls as [|l ls IH]; intros i o f; [constructor|].
  rewrite scan_cons. destruct (heading_of f l) as [[level text]|]; [|apply IH]. cbn [app].
  constructor; [apply IH|]. eapply Forall_impl; [apply scan_bounds|]. cbn. intros h Hh. lia.
Qed.

(** The only section of its name, when none of its level follows it. *)
Lemma sole_section name hs h :
  Sorted.StronglySorted (fun a b => h_index a < h_index b)%nat hs ->
  List.find (is_section name) hs = Some h -> following hs h 2 = None ->
  List.filter (is_section name) hs = [h].
Proof.
  intros Hs Hf Hn%following_none. induction hs as [|e hs IH]; [done|].
  cbn [List.find List.filter] in *. apply Forall_cons in Hn as [He Hn].
  apply Sorted.StronglySorted_inv in Hs as [Hs Hall]. destruct (is_section name e) eqn:Ee.
  - injection Hf as <-. f_equal. clear IH He. induction hs as [|e' hs IH]; [done|].
    apply Forall_cons in Hn as [H1 Hn], Hall as [H2 Hall]. apply Sorted.StronglySorted_inv in Hs as [Hs _].
    cbn [List.filter]. specialize (H1 H2). unfold is_section at 1. destruct (Nat.eqb_spec (h_level e') 2); [lia|].
    cbn [andb]. by apply IH.
  - by apply IH.
Qed.

(** ** Gate lines *)

Definition one_line (s : jsstr) : Prop := existsb (fun c => (c =? 13) || (c =? 10))%N s = false.

(** What the operation has checked of a verdict's parts. *)
Record valid_gate (task ts who : jsstr) (ev plan : option jsstr) : Prop := {
  vg_task : GATE_TASK_ID_RE task = true;
  vg_ts : is_timestamp ts = true;
  vg_agent : who <> [] /\ forallb (fun c => negb (is_ws c)) who = true;
  vg_ev : match ev with Some r => r <> [] /\ one_line r | None => True end;
  vg_plan : match plan with Some p => trim p <> [] /\ one_line (trim p) | None => True end
}.

Lemma matches_shape_no c shape s :
  is_digit c = false -> c ∉ shape -> matches_shape shape s = true -> c ∉ s.
Proof.
  intros Hd. revert s. induction shape as [|p shape IH]; intros s Hc.
  - destruct s; [intros _; apply not_elem_of_nil | done].
  - destruct s as [|d s]; [done|]. cbn [matches_shape]. intros [H1 H2]%andb_true_iff.
    apply not_elem_of_cons in Hc as [Hp Hc]. apply not_elem_of_cons.
    split; [|by apply IH]. intros <-. destruct (p =? 48)%N; [congruence|]. by apply N.eqb_eq in H1.
Qed.

Lemma task_chars task c : GATE_TASK_ID_RE task = true -> is_task_char c = false -> c ∉ task.
Proof.
  destruct task as [|d task]; [done|]. cbn [GATE_TASK_ID_RE]. rewrite andb_true_iff, re_class_true.
  intros [Hd [_ Ht]] Hc. apply not_elem_of_cons. split.
  - intros ->. unfold is_task_char in Hc. by rewrite Hd in Hc.
  - intros Hin. rewrite Forall_forall in Ht. specialize (Ht c Hin). congruence.
Qed.

Lemma one_line_app a b : one_line (a ++ b) <-> one_line a /\ one_line b.
Proof. unfold one_line. by rewrite existsb_app, orb_false_iff. Qed.

Lemma one_line_no_newline s : one_line s -> 10%N ∉ s.
Proof.
  unfold one_line. intros H Hin. apply list_elem_of_In in Hin.
  rewrite (proj2 (existsb_exists _ _)) in H; [done|]. by exists 10%N.
Qed.

Lemma one_line_logical s : one_line s -> logical_line s = s.
Proof.
  intros H. unfold logical_line. destruct (endsWith s [13%N]) eqn:E; [|done].
  apply endsWith_last in E as [d ->]. apply one_line_app in H as [_ H]. done.
Qed.

Definition gate_suffix (ev plan : option jsstr) : jsstr :=
  (match ev with Some r => js " ref=" ++ r | None => [] end)
  ++ (match plan with Some p => js " :: " ++ trim p | None => [] end).

Lemma gate_suffix_one_line ev plan :
  (match ev with Some r => r <> [] /\ one_line r | None => True end) ->
  (match plan with Some p => trim p <> [] /\ one_line (trim p) | None => True end) ->
  one_line (gate_suffix ev plan) /\ gate_tail (gate_suffix ev plan) = true.
Proof.
  intros He Hp. assert (one_line (gate_suffix ev plan)) as H1.
  { unfold gate_suffix. apply one_line_app. split.
    - destruct ev; [apply one_line_app; split; [done | apply He] | done].
    - destruct plan; [apply one_line_app; split; [done | apply Hp] | done]. }
  split; [done|]. unfold gate_tail. rewrite one_line_logical by done. unfold one_line in H1. rewrite H1.
  unfold gate_suffix. destruct ev as [r|].
  - destruct He as [He _]. destruct r as [|c r]; [done|]. rewrite <- app_assoc, startsWith_app.
    assert ((5 <? js_length (js " ref=" ++ (c :: r) ++ match plan with Some p => js " :: " ++ trim p | None => [] end)) = true) as ->.
    { apply Z.ltb_lt. unfold js_length. rewrite length_app. change (length (js " ref=")) with 5%nat. cbn [app length]. lia. }
    by rewrite orb_true_r.
  - destruct plan as [p|]; [|done]. destruct Hp as [Hp _]. destruct (trim p) as [|c r]; [done|]. cbn [app].
    rewrite startsWith_app.
    assert ((4 <? js_length (js " :: " ++ c :: r)) = true) as ->.
    { apply Z.ltb_lt. unfold js_length. rewrite length_app. change (length (js " :: ")) with 4%nat. cbn [length]. lia. }
    by rewrite !orb_true_r.
Qed.

Lemma gate_line_parts task v ts who ev plan :
  gate_line task v ts who ev plan =
  js "- " ++ task ++ 32%N :: verdict_name v ++ 32%N :: ts ++ 32%N :: who ++ gate_suffix ev plan.
Proof. unfold gate_line, gate_suffix. change (js " ") with [32%N]. by repeat (rewrite <- ?app_assoc; cbn [app]). Qed.

Lemma gate_line_read task v ts who ev plan :
  valid_gate task ts who ev plan -> GATE_LINE_RE (gate_line task v ts who ev plan) = Some (task, v, ts).
Proof.
  intros [Ht Hts [Hne Hw] Hev Hpl]. rewrite gate_line_parts. unfold GATE_LINE_RE.
  rewrite startsWith_app. change (drop 2 (js "- " ++ ?x)) with x. cbn [negb].
  rewrite cut_at_exact by (by apply (task_chars _ _ Ht)).
  rewrite cut_at_exact by (destruct v; apply (bool_decide_eq_false_1 _); vm_compute; reflexivity).
  rewrite cut_at_exact by (apply (matches_shape_no _ (js "0000-00-00T00:00:00Z")); [done | apply (bool_decide_eq_false_1 _); vm_compute; reflexivity | exact Hts]).
  destruct (gate_suffix_one_line ev plan Hev Hpl) as [_ Htail].
  rewrite span_exact.
  - assert (read_verdict (verdict_name v) = Some v) as -> by (destruct v; vm_compute; reflexivity).
    rewrite Ht, Hts, Htail, bool_decide_eq_false_2 by done. reflexivity.
  - done.
  - unfold gate_suffix. destruct ev; [done|]. by destruct plan.
Qed.

Lemma gate_line_plain task v ts who ev plan :
  valid_gate task ts who ev plan -> plain_line (gate_line task v ts who ev plan) /\ 10%N ∉ gate_line task v ts who ev plan.
Proof.
  intros [Ht Hts [Hne Hw] Hev Hpl]. rewrite gate_line_parts. split; [done|].
  destruct (gate_suffix_one_line ev plan Hev Hpl) as [Hs%one_line_no_newline _].
  assert (10%N ∉ who).
  { intros Hin%list_elem_of_In. rewrite forallb_forall in Hw. by apply Hw in Hin. }
  assert (10%N ∉ task) by (by apply (task_chars _ _ Ht)).
  assert (10%N ∉ ts).
  { apply (matches_shape_no _ (js "0000-00-00T00:00:00Z")); [done | apply (bool_decide_eq_false_1 _); vm_compute; reflexivity | exact Hts]. }
  assert (10%N ∉ verdict_name v) by (destruct v; apply (bool_decide_eq_false_1 _); vm_compute; reflexivity).
  assert (10%N ∉ js "- ") by (apply (bool_decide_eq_false_1 _); vm_compute; reflexivity).
  repeat first [rewrite not_elem_of_app | rewrite not_elem_of_cons]. split_and!; done.
Qed.

Lemma split_line_end l : 10%N ∉ l -> split_on 10 (l ++ [10%N]) = [l; []].
Proof. intros H. by rewrite split_on_cons_sep. Qed.

Lemma split_section doc a b : 10%N ∉ a -> 10%N ∉ b ->
  split_on 10 ((doc ++ [10%N]) ++ [10%N] ++ a ++ [10%N] ++ b ++ [10%N]) = split_on 10 doc ++ [[]; a; b; []].
Proof.
  intros Ha Hb. rewrite <- app_assoc. cbn [app]. rewrite split_on_app. f_equal. cbn [split_on]. rewrite N.eqb_refl.
  f_equal. by rewrite split_on_cons_sep, split_line_end.
Qed.

Lemma heading_gates i o rest :
  scan_lines i o None (js "## Gates" :: rest) =
  mkHeading i 2 (js "Gates") o :: scan_lines (i + 1) (o + 8 + 1) None rest.
Proof. rewrite scan_cons. vm_compute (heading_of _ _). vm_compute (fence_step _ _). reflexivity. Qed.

Lemma filter_none {A} (p : A -> bool) l : List.find p l = None -> List.filter p l = [].
Proof.
  induction l as [|x l IH]; [done|]. cbn. by destruct (p x).
Qed.

Lemma scan_indices doc : Forall (fun h => h_index h < length (split_on 10 doc))%nat (scanPlanDocHeadings doc).
Proof. eapply Forall_impl; [apply (scan_bounds 0 0 None)|]. cbn. intros h Hh. lia. Qed.

(** A section that nothing of its level follows holds the rest of the document. *)
Lemma section_lines_last doc hs h :
  following hs h 2 = None -> section_lines doc hs h = drop (h_index h + 1) (split_on 10 doc).
Proof. intros H. unfold section_lines. rewrite H. by rewrite firstn_all. Qed.

Definition verdict_for (task line : jsstr) : option LatestGateVerdict :=
  '(t, v, at_) ← GATE_LINE_RE line; if str_eqb t task then Some (mkVerdict v at_) else None.

Lemma readLatest_sole doc h task :
  List.find (is_section "Gates") (scanPlanDocHeadings doc) = Some h ->
  following (scanPlanDocHeadings doc) h 2 = None ->
  readLatestGateVerdict doc task = last (omap (verdict_for task) (drop (h_index h + 1) (split_on 10 doc))).
Proof.
  intros Hf Hn. unfold readLatestGateVerdict.
  rewrite (sole_section "Gates" (scanPlanDocHeadings doc) h (scan_sorted 0 0 None _) Hf Hn). cbn [last mbind option_bind].
  by rewrite section_lines_last.
Qed.

Lemma readLatest_none doc task :
  List.find (is_section "Gates") (scanPlanDocHeadings doc) = None -> readLatestGateVerdict doc task = None.
Proof. intros H. unfold readLatestGateVerdict. by rewrite filter_none. Qed.

Lemma omap_blank task extra : Forall (fun l => l = []) extra -> omap (verdict_for task) extra = [].
Proof. induction 1 as [|l extra -> _ IH]; [done|]. exact IH. Qed.

Lemma omap_line task line :
  omap (verdict_for task) [line; []] = match verdict_for task line with Some v => [v] | None => [] end.
Proof. unfold omap, list_omap. change (verdict_for task []) with (@None LatestGateVerdict). by destruct (verdict_for task line). Qed.

(** The document after a verdict line: its lines, and its Gates heading. *)
Lemma appended_gate existing line text n :
  closed existing -> plain_line line -> 10%N ∉ line -> appendGateLine existing line = Ok (text, n) ->
  exists h before,
    List.find (is_section "Gates") (scanPlanDocHeadings text) = Some h /\
    following (scanPlanDocHeadings text) h 2 = None /\
    drop (h_index h + 1) (split_on 10 text) = before ++ [line; []] /\
    (forall task, readLatestGateVerdict existing task = last (omap (verdict_for task) before)) /\
    startsWith text existing = true.
Proof.
  intros Hc%closed_unended Hp Hl H. unfold appendGateLine in H.
  rewrite with_newline in H. apply res_bind_Ok in H as (u & Hno & H).
  apply (f_equal (fun r => match r with Ok p => fst p | Throw _ => [] end)) in H as Ht. cbn [fst] in Ht. clear H.
  set (E0 := unended existing) in *. pose proof (scan_unended existing) as Hscan. fold E0 in Hscan.
  assert (startsWith text existing = true) as Hpre.
  { assert (exists r, text = E0 ++ [10%N] ++ r) as [r ->].
    { destruct (List.find _ _) in Ht; subst text; rewrite <- app_assoc; eauto. }
    apply startsWith_spec. destruct (unended_spec existing) as [He|[He _]]; fold E0 in He; rewrite He.
    - exists r. by rewrite <- app_assoc.
    - by eexists. }
  pose proof (scan_indices E0) as Hbound. rewrite Hscan in Hbound.
  destruct (List.find (is_section "Gates") (scanPlanDocHeadings existing)) as [h|] eqn:Hf.
  - cbn [mbind option_bind] in Hno. destruct (following _ h 2) as [|] eqn:Hn; [done|]. exists h.
    assert (scanPlanDocHeadings text = scanPlanDocHeadings existing) as Hsame.
    { subst text. rewrite <- app_assoc. cbn [app]. rewrite scan_text_app, Hscan.
      rewrite split_line_end by done. rewrite scan_plain; [by rewrite app_nil_r|]. by repeat constructor. }
    assert (h_index h < length (split_on 10 E0))%nat as Hlt.
    { rewrite Forall_forall in Hbound. apply Hbound, list_elem_of_In. by eapply find_some. }
    exists (drop (h_index h + 1) (split_on 10 E0)). rewrite Hsame. do 2 (split; [done|]). split; [|split; [|done]].
    + subst text. rewrite <- app_assoc. cbn [app]. rewrite split_on_app, split_line_end by done.
      rewrite drop_app_le by lia. done.
    + intros task. rewrite (readLatest_sole existing h task Hf Hn).
      destruct (lines_unended existing) as (extra & Hx & ->). fold E0. rewrite drop_app_le by lia.
      by rewrite omap_app, (omap_blank _ _ Hx), app_nil_r.
  - assert (split_on 10 text = split_on 10 E0 ++ [[]; js "## Gates"; line; []]) as Hlines.
    { subst text. apply split_section; [|done]. apply (bool_decide_eq_false_1 _). vm_compute. reflexivity. }
    set (h := mkHeading (length (split_on 10 E0) + 1) 2 (js "Gates") (lines_length (split_on 10 E0) + 0 + 1)).
    assert (scanPlanDocHeadings text = scanPlanDocHeadings existing ++ [h]) as Hnew.
    { unfold scanPlanDocHeadings at 1. rewrite Hlines, scan_app. fold (scanPlanDocHeadings E0). rewrite Hscan. f_equal.
      unfold closed in Hc. rewrite Hc, scan_cons, plain_heading by done. cbn [app].
      rewrite heading_gates, scan_plain by by repeat constructor. reflexivity. }
    exists h, []. rewrite Hnew. split_and!.
    + clear -Hf. induction (scanPlanDocHeadings existing) as [|e hs IH]; [done|]. cbn in *.
      destruct (is_section "Gates" e); [done | by apply IH].
    + apply following_none_intro, Forall_app. split; [|repeat constructor; lia].
      eapply Forall_impl; [exact Hbound|]. cbn. intros e He Hi. lia.
    + rewrite Hlines. subst h. cbn [h_index]. rewrite drop_app_ge by lia.
      replace (length (split_on 10 E0) + 1 + 1 - length (split_on 10 E0))%nat with 2%nat by lia. reflexivity.
    + intros task. by apply readLatest_none.
    + done.
Qed.

(** Recording a gate verdict and reading it back.  In a document whose
    fences are closed, the verdict just recorded is the one read for its task,
    the verdicts of every other task are unchanged, and the document is only
    extended. *)
Theorem gate_verdict_roundtrip existing task v ts who ev plan text n :
  closed existing -> valid_gate task ts who ev plan ->
  appendGateLine existing (gate_line task v ts who ev plan) = Ok (text, n) ->
  readLatestGateVerdict text task = Some (mkVerdict v ts) /\
  (forall other, other <> task -> readLatestGateVerdict text other = readLatestGateVerdict existing other) /\
  startsWith text existing = true.
Proof.
  intros Hc Hv H. destruct (gate_line_plain task v ts who ev plan Hv) as [Hp Hl].
  destruct (appended_gate existing _ text n Hc Hp Hl H) as (h & before & Hf & Hn & Hd & Hold & Hpre).
  assert (forall other, verdict_for other (gate_line task v ts who ev plan)
    = if str_eqb task other then Some (mkVerdict v ts) else None) as Hread.
  { intros other. unfold verdict_for. by rewrite (gate_line_read task v ts who ev plan Hv). }
  split; [|split; [|done]].
  - rewrite (readLatest_sole text h task Hf Hn), Hd, omap_app, omap_line, Hread.
    by rewrite (proj2 (str_eqb_eq task task) eq_refl), last_snoc.
  - intros other Ho. rewrite Hold, (readLatest_sole text h other Hf Hn), Hd, omap_app, omap_line, Hread.
    assert (str_eqb task other = false) as -> by (apply str_eqb_neq; congruence). by rewrite app_nil_r.
Qed.

Definition doc_lines (ls : list string) : jsstr := concat (map (fun l => js l ++ [10%N]) ls).

Lemma gate_verdict_roundtrip_witness :
  exists text n, appendGateLine (doc_lines ["# Plan"; "## Gates"; "- T1 REFINE 2025-01-01T00:00:00Z planner :: more tests"])
      (gate_line (js "T1") PASS (js "2025-01-02T03:04:05Z") (js "planner") (Some (js "abc")) None) = Ok (text, n) /\
    readLatestGateVerdict text (js "T1") = Some (mkVerdict PASS (js "2025-01-02T03:04:05Z")).
Proof.
  destruct (appendGateLine (doc_lines ["# Plan"; "## Gates"; "- T1 REFINE 2025-01-01T00:00:00Z planner :: more tests"])
      (gate_line (js "T1") PASS (js "2025-01-02T03:04:05Z") (js "planner") (Some (js "abc")) None)) as [[text n]|e] eqn:H.
  - exists text, n. split; [reflexivity|].
    refine (proj1 (gate_verdict_roundtrip _ _ _ _ _ _ _ _ _ _ _ H)); [vm_compute; reflexivity|].
    constructor; vm_compute; try done; split; done.
  - vm_compute in H. discriminate.
Defined.

(** ** Appending keeps the outline *)
Definition outline_of (hs : list PlanDocHeading) : list (nat * jsstr) := map (fun h => (h_level h, h_text h)) hs.
Definition outline (doc : jsstr) : list (nat * jsstr) := outline_of (scanPlanDocHeadings doc).

Lemma outline_app hs1 hs2 : outline_of (hs1 ++ hs2) = outline_of hs1 ++ outline_of hs2.
Proof. apply map_app. Qed.

Lemma outline_shift i o i' o' f ls : outline_of (scan_lines i o f ls) = outline_of (scan_lines i' o' f ls).
Proof.
  revert i o i' o' f. induction ls as [|l ls IH]; intros i o i' o' f; [done|].
  rewrite !scan_cons, !outline_app. f_equal; [|apply IH]. by destruct (heading_of f l) as [[]|].
Qed.

(** Where a heading stands: its line, and no open fence before it. *)
Lemma heading_position i o f ls h :
  h ∈ scan_lines i o f ls ->
  exists pre l post, ls = pre ++ l :: post /\ h_offset h = (o + lines_length pre)%nat /\ fence_after f pre = None.
Proof.
  revert i o f. induction ls as [|l ls IH]; intros i o f; [intros H; by apply not_elem_of_nil in H|].
  rewrite scan_cons. intros [H|H]%elem_of_app.
  - destruct (heading_of f l) as [[level text]|] eqn:Hh; [|by apply not_elem_of_nil in H].
    apply list_elem_of_singleton in H as ->. exists [], l, ls. split; [done|]. cbn. rewrite Nat.add_0_r. split; [done|].
    unfold heading_of in Hh. by destruct f.
  - apply IH in H as (pre & l' & post & -> & Ho & Hf). exists (l :: pre), l', post.
    split; [done|]. rewrite lines_length_cons, Ho. split; [lia | exact Hf].
Qed.

Definition text_lines (ls : list jsstr) : jsstr := concat (map (fun l => l ++ [10%N]) ls).

Lemma text_lines_length ls : length (text_lines ls) = lines_length ls.
Proof.
  induction ls as [|l ls IH]; [done|]. unfold text_lines in *. cbn [map concat].
  rewrite lines_length_cons, !length_app, IH. cbn. lia.
Qed.

Lemma join_text_lines pre l post : join_with [10%N] (pre ++ l :: post) = text_lines pre ++ join_with [10%N] (l :: post).
Proof.
  induction pre as [|p pre IH]; [done|]. cbn [app]. unfold text_lines in *. cbn [map concat].
  rewrite <- app_assoc, <- IH, <- app_assoc. by destruct pre.
Qed.

Lemma split_text_lines pre x :
  Forall (fun l => 10%N ∉ l) pre -> split_on 10 (text_lines pre ++ x) = pre ++ split_on 10 x.
Proof.
  induction 1 as [|l pre Hl _ IH]; [done|]. unfold text_lines in *. cbn [map concat].
  rewrite <- !app_assoc. cbn [app]. by rewrite split_on_cons_sep, IH.
Qed.

Lemma split_no_newline doc : Forall (fun l => 10%N ∉ l) (split_on 10 doc).
Proof. apply Forall_forall. intros l Hl. by eapply split_on_no_sep. Qed.

Lemma text_lines_end pre : endsWith (text_lines pre) [10%N] = true \/ pre = [].
Proof.
  destruct (rev pre) as [|l r] eqn:E; apply (f_equal (@rev jsstr)) in E; rewrite rev_involutive in E; [by right|].
  left. subst pre. cbn [rev]. unfold text_lines. rewrite map_app, concat_app. cbn [map concat].
  rewrite app_nil_r, app_assoc. apply endsWith_last. eauto.
Qed.

(** The lines of an insertion before a line of the document. *)
Lemma insert_lines pre l post content :
  Forall (fun l => 10%N ∉ l) pre ->
  exists blank, Forall (fun l => l = []) blank /\
  split_on 10 (text_lines pre ++ inserted (text_lines pre) content (join_with [10%N] (l :: post)) ++ join_with [10%N] (l :: post))
    = pre ++ split_on 10 content ++ blank ++ split_on 10 (join_with [10%N] (l :: post)).
Proof.
  intros Hpre. unfold inserted. set (after := join_with [10%N] (l :: post)).
  assert (negb (bool_decide (text_lines pre = [])) && negb (endsWith (text_lines pre) [10%N]) = false) as ->.
  { destruct (text_lines_end pre) as [->| ->]; [by rewrite andb_false_r | done]. }
  cbn [app]. exists (if startsWith after (js "#") then [[]] else []).
  split; [destruct (startsWith _ _); repeat constructor|].
  rewrite split_text_lines by done. f_equal. rewrite <- !app_assoc. cbn [app]. rewrite split_on_app. f_equal.
  by destruct (startsWith after (js "#")).
Qed.

(** The lines of an insertion at the end. *)
Lemma append_lines existing content :
  split_on 10 (existing ++ inserted existing content []) =
  (if bool_decide (existing = []) then [] else split_on 10 (unended existing)) ++ split_on 10 content ++ [[]].
Proof.
  unfold inserted. cbn [startsWith js map]. change (startsWith [] (js "#")) with false. cbn iota. rewrite app_nil_r.
  case_bool_decide as He; [subst existing; cbn [negb andb app]; by rewrite split_on_app|]. cbn [negb andb].
  pose proof (with_newline existing) as H. destruct (endsWith existing [10%N]); cbn [negb] in *.
  - rewrite app_nil_r in H. rewrite H at 1. cbn [app]. rewrite <- app_assoc. cbn [app]. by rewrite !split_on_app.
  - rewrite app_assoc, H, <- app_assoc. cbn [app]. by rewrite !split_on_app.
Qed.

Lemma blank_plain blank : Forall (fun l => l = []) blank -> Forall plain_line blank.
Proof. intros H. eapply Forall_impl; [exact H|]. by intros ? ->. Qed.

(** Appending to a plan document, at its end or in a section, keeps every
    byte of it in order, and when the new lines start no heading and no fence
    it keeps the outline: the same headings, levels and texts, none turned into
    fenced text. *)
Theorem append_keeps_outline existing content heading text :
  Forall plain_line (split_on 10 content) ->
  computePlanDocAppend existing content heading = Ok text ->
  outline text = outline existing /\
  exists before after, existing = before ++ after /\ text = before ++ inserted before content after ++ after.
Proof.
  intros Hp H. unfold computePlanDocAppend in H. apply res_bind_Ok in H as (ix & Hix & H). injection H as <-.
  split; [|exists (take ix existing), (drop ix existing); by rewrite take_drop].
  assert (ix = length existing \/ exists h, h ∈ scanPlanDocHeadings existing /\ ix = h_offset h) as [->|(h & Hh & ->)].
  { destruct heading as [w|]; [|injection Hix as <-; by left].
    unfold planDocSectionInsertionIndex in Hix. destruct (List.filter _ _) as [|h [|]]; try discriminate.
    injection Hix as <-. destruct (following _ _ _) as [next|] eqn:En; [right | by left].
    exists next. split; [|done]. apply list_elem_of_In. by eapply find_some. }
  - rewrite drop_ge by lia. rewrite firstn_all, app_nil_r. unfold outline, scanPlanDocHeadings at 1.
    rewrite append_lines, scan_app.
    rewrite (scan_plain _ _ _ (split_on 10 content ++ [[]])) by (apply Forall_app; by repeat constructor).
    rewrite app_nil_r. case_bool_decide as He; [by subst existing|].
    fold (scanPlanDocHeadings (unended existing)). by rewrite scan_unended.
  - destruct (heading_position 0 0 None _ h Hh) as (pre & l & post & HL & Ho & Hf). cbn in Ho.
    pose proof (split_no_newline existing) as Hnl. rewrite HL in Hnl. apply Forall_app in Hnl as [Hnl _].
    pose proof (join_split 10 existing) as Hj. rewrite HL, join_text_lines in Hj.
    set (after := join_with [10%N] (l :: post)) in *.
    assert (take (h_offset h) existing = text_lines pre) as ->.
    { rewrite <- Hj, Ho, <- text_lines_length. by rewrite take_app_length. }
    assert (drop (h_offset h) existing = after) as ->.
    { rewrite <- Hj, Ho, <- text_lines_length. by rewrite drop_app_length. }
    destruct (insert_lines pre l post content Hnl) as (blank & Hb & Hlines). fold after in Hlines.
    assert (split_on 10 after = l :: post) as Hafter.
    { rewrite <- Hj in HL. rewrite split_text_lines in HL by done. by apply app_inv_head in HL. }
    unfold outline, scanPlanDocHeadings. rewrite Hlines, HL, Hafter, !(scan_app _ _ _ pre), !outline_app. f_equal.
    rewrite Hf, app_assoc, scan_app, outline_app.
    assert (Forall plain_line (split_on 10 content ++ blank)) as Hall by (apply Forall_app; split; [done | by apply blank_plain]).
    rewrite scan_plain, fence_after_plain by done. apply outline_shift.
Qed.

Lemma append_keeps_outline_witness :
  exists text, computePlanDocAppend (doc_lines ["# Plan"; "## A"; "x"; "## B"]) (js "- item") (Some (js "A")) = Ok text /\
    outline text = [(1%nat, js "Plan"); (2%nat, js "A"); (2%nat, js "B")].
Proof.
  destruct (computePlanDocAppend (doc_lines ["# Plan"; "## A"; "x"; "## B"]) (js "- item") (Some (js "A"))) as [text|e] eqn:H.
  - exists text. split; [reflexivity|].
    assert (Forall plain_line (split_on 10 (js "- item"))) as Hp by repeat constructor.
    rewrite (proj1 (append_keeps_outline _ _ _ _ Hp H)). vm_compute. reflexivity.
  - vm_compute in H. discriminate.
Defined.

(** ** Ticks, Revisions and Gates in one document *)

(** The parts of a mark, as the operation has checked them. *)
Record valid_mark (taskId status evidenceCommit ts who note : jsstr) : Prop := {
  vm_task : taskId <> [] /\ plain_line taskId;
  vm_lines : Forall (fun s => 10%N ∉ s) [taskId; status; evidenceCommit; ts; who; note]
}.

Lemma plain_prefix a b : a <> [] -> plain_line a -> plain_line (a ++ b).
Proof. by destruct a. Qed.

Lemma text_no_newline (s : string) : bool_decide (10%N ∈ js s) = false -> 10%N ∉ js s.
Proof. apply bool_decide_eq_false_1. Qed.

Ltac no_newline :=
  repeat first [rewrite not_elem_of_app | rewrite not_elem_of_cons];
  split_and!; try done; try (apply text_no_newline; vm_compute; reflexivity).

Lemma tick_line_ok taskId status ev tier ts who note :
  valid_mark taskId status ev ts who note ->
  plain_line (tick_line taskId status ev tier ts who note) /\ 10%N ∉ tick_line taskId status ev tier ts who note.
Proof.
  intros [[Hne Hp] Hl]. split; [by apply plain_prefix|].
  repeat (apply Forall_cons in Hl as [? Hl]). unfold tick_line, tier_name.
  destruct tier, (0 <? js_length note); no_newline; apply not_elem_of_nil.
Qed.

Lemma trim_start_all ws : forallb is_ws ws = true -> forall b, trim_start (ws ++ b) = trim_start b.
Proof. induction ws as [|c ws IH]; [done|]. cbn. intros [-> H]%andb_true_iff b. by apply IH. Qed.

Lemma trim_end_blank a ws : forallb is_ws ws = true -> trim_end (a ++ ws) = trim_end a.
Proof.
  intros H. unfold trim_end. rewrite rev_app_distr, trim_start_all; [done|].
  rewrite forallb_forall in *. intros c Hc. apply H. by apply in_rev.
Qed.

(** Text added as whole lines after a closed text. *)
Lemma scan_with_lines body ls :
  closed body -> Forall (fun l => 10%N ∉ l) ls ->
  scanPlanDocHeadings (body ++ [10%N] ++ text_lines ls) =
  scanPlanDocHeadings body ++ scan_lines (length (split_on 10 body)) (lines_length (split_on 10 body)) None ls.
Proof.
  intros Hc Hl. cbn [app]. rewrite scan_text_app. f_equal. unfold closed in Hc. rewrite Hc.
  rewrite <- (app_nil_r (text_lines ls)), split_text_lines, scan_app by done.
  by rewrite (scan_plain _ _ _ (split_on 10 [])), app_nil_r by repeat constructor.
Qed.

Lemma heading_line name i o rest :
  heading_of None (js "## " ++ js name) = Some (2%nat, js name) ->
  fence_step None (js "## " ++ js name) = None -> trim (js name) = js name ->
  scan_lines i o None ((js "## " ++ js name) :: rest) =
  mkHeading i 2 (js name) o :: scan_lines (i + 1) (o + length (js "## " ++ js name) + 1) None rest.
Proof. intros H1 H2 H3. by rewrite scan_cons, H1, H2, H3. Qed.

Lemma filter_app_none {A} (p : A -> bool) l1 l2 :
  Forall (fun x => p x = false) l1 -> List.filter p (l1 ++ l2) = List.filter p l2.
Proof. induction 1 as [|x l1 Hx _ IH]; [done|]. cbn. by rewrite Hx. Qed.

Lemma find_app_none {A} (p : A -> bool) l1 l2 :
  Forall (fun x => p x = false) l1 -> List.find p (l1 ++ l2) = List.find p l2.
Proof. induction 1 as [|x l1 Hx _ IH]; [done|]. cbn. by rewrite Hx. Qed.

Lemma filter_nothing {A} (p : A -> bool) l : Forall (fun x => p x = false) l -> List.filter p l = [].
Proof. intros H. rewrite <- (app_nil_r l), filter_app_none by done. done. Qed.

Lemma scan_newlines body k : scanPlanDocHeadings (body ++ repeat 10%N k) = scanPlanDocHeadings body.
Proof.
  induction k as [|k IH]; [by rewrite app_nil_r|].
  change (S k) with (1 + k)%nat. rewrite Nat.add_comm, repeat_app, app_assoc. cbn [repeat]. by rewrite scan_final_newline.
Qed.

Lemma newlines_blank k : forallb is_ws (repeat 10%N k) = true.
Proof. by induction k. Qed.

Definition TICKS : jsstr := js "## " ++ js "Ticks".
Definition REVISIONS : jsstr := js "## " ++ js "Revisions".

(** The document after its first mark, before and after the revision line. *)
Definition ticked (body tick : jsstr) : jsstr := body ++ [10%N] ++ text_lines [[]; TICKS; tick].
Definition ticked_revised (body tick rl : jsstr) : jsstr := body ++ [10%N] ++ text_lines [[]; TICKS; tick; REVISIONS; rl].

Lemma section_name_no_newline : 10%N ∉ TICKS /\ 10%N ∉ REVISIONS.
Proof. split; apply (bool_decide_eq_false_1 _); vm_compute; reflexivity. Qed.

Section first_mark.
  Context (body tick : jsstr) (Hc : closed body) (Htp : plain_line tick) (Htn : 10%N ∉ tick).
  Context (Hno : Forall (fun h => str_eqb (h_text h) (js "Ticks") = false /\ str_eqb (h_text h) (js "Revisions") = false)
    (scanPlanDocHeadings body)).

Lemma no_ticks : Forall (fun h => is_section "Ticks" h = false) (scanPlanDocHeadings body).
Proof using Hno. eapply Forall_impl; [exact Hno|]. intros h [E _]. unfold is_section. rewrite E. apply andb_false_r. Qed.

Lemma no_revisions : Forall (fun h => is_section "Revisions" h = false) (scanPlanDocHeadings body).
Proof using Hno. eapply Forall_impl; [exact Hno|]. intros h [_ E]. unfold is_section. rewrite E. apply andb_false_r. Qed.

Lemma add_first_tick k : trim_end body = body -> add_tick (body ++ repeat 10%N k) tick = Ok (ticked body tick).
Proof using Hno.
  intros Ht. unfold add_tick. rewrite scan_newlines, filter_nothing by apply no_ticks. f_equal.
  rewrite trim_end_blank, Ht by apply newlines_blank. unfold ticked, text_lines. cbn [map concat].
  change (js "## Ticks") with TICKS. by rewrite app_nil_r, <- !app_assoc.
Qed.

Definition ticks_heading : PlanDocHeading :=
  mkHeading (length (split_on 10 body) + 1) 2 (js "Ticks") (lines_length (split_on 10 body) + 0 + 1).

Lemma ticked_scan : scanPlanDocHeadings (ticked body tick) = scanPlanDocHeadings body ++ [ticks_heading].
Proof using Hc Htp Htn.
  pose proof section_name_no_newline as [HT _]. unfold ticked.
  rewrite scan_with_lines by (done || by repeat constructor; try apply not_elem_of_nil). f_equal.
  rewrite scan_cons, (plain_heading None []) by done. cbn [app].
  unfold TICKS. rewrite heading_line by (vm_compute; reflexivity). by rewrite scan_plain by by repeat constructor.
Qed.

Lemma ticked_revised_scan rl : plain_line rl -> 10%N ∉ rl ->
  exists h, scanPlanDocHeadings (ticked_revised body tick rl) = scanPlanDocHeadings body ++ [ticks_heading; h] /\
    is_section "Ticks" h = false /\ (h_index ticks_heading < h_index h)%nat /\ h_level h = 2%nat.
Proof using Hc Htp Htn.
  intros Hp Hn. pose proof section_name_no_newline as [HT HR]. eexists. unfold ticked_revised.
  rewrite scan_with_lines by (done || by repeat constructor; try apply not_elem_of_nil).
  rewrite scan_cons, (plain_heading None []) by done. cbn [app].
  unfold TICKS. rewrite heading_line by (vm_compute; reflexivity). rewrite scan_cons, (plain_heading None tick) by done.
  cbn [app]. change (fence_step None []) with (@None fence). rewrite plain_step_closed by done.
  unfold REVISIONS. rewrite heading_line by (vm_compute; reflexivity). rewrite scan_plain by by repeat constructor.
  split; [reflexivity|]. split_and!; try reflexivity. cbn. lia.
Qed.

Lemma first_revision rl :
  computePlanDocAppend (ticked body tick) (js "## Revisions" ++ [10%N] ++ rl) (Some (js "Ticks")) = Ok (ticked_revised body tick rl).
Proof using Hc Htp Htn Hno.
  unfold computePlanDocAppend, planDocSectionInsertionIndex. change (trim (js "Ticks")) with (js "Ticks").
  rewrite ticked_scan, filter_app_none by (eapply Forall_impl; [exact Hno|]; by intros h []).
  change (List.filter (fun e => str_eqb (h_text e) (js "Ticks")) [?h]) with [h]. cbn iota.
  rewrite following_none_intro.
  - cbn [mbind res_bind]. f_equal. rewrite drop_ge, firstn_all, app_nil_r by lia. unfold inserted, ticked, ticked_revised.
    assert (endsWith (body ++ [10%N] ++ text_lines [[]; TICKS; tick]) [10%N] = true) as ->.
    { apply endsWith_last. exists (body ++ [10%N] ++ [10%N] ++ TICKS ++ [10%N] ++ tick). unfold text_lines. cbn [map concat].
      by rewrite <- !app_assoc. }
    cbn [negb]. rewrite andb_false_r. change (startsWith [] (js "#")) with false. cbn iota. unfold text_lines. cbn [map concat].
    change (js "## Revisions") with REVISIONS. by rewrite ?app_nil_r, <- !app_assoc.
  - apply Forall_app. split; [|repeat constructor; cbn; lia].
    eapply Forall_impl; [apply (scan_indices body)|]. cbn. intros h Hh Hi. lia.
Qed.

Lemma not_final rl : plain_line rl -> 10%N ∉ rl -> forall tick',
  add_tick (ticked_revised body tick rl) tick' = Throw (invalid "TASK_MARK_TICKS_NOT_FINAL: Ticks must be the final section").
Proof using Hc Htp Htn Hno.
  intros Hp Hn tick'. destruct (ticked_revised_scan rl Hp Hn) as (h & Hs & Hh & Hi & Hl).
  unfold add_tick. rewrite Hs, filter_app_none by apply no_ticks. cbn [List.filter]. rewrite Hh.
  change (is_section "Ticks" ticks_heading) with true. cbn iota.
  destruct (following _ ticks_heading 2) eqn:Ef; [reflexivity|].
  apply following_none, Forall_app in Ef as [_ Ef]. apply Forall_cons in Ef as [_ Ef]. apply Forall_cons in Ef as [Ef _].
  specialize (Ef Hi). lia.
Qed.
End first_mark.

(** The first mark of a document without a Revisions section is its last:
    the tick section is added at the end, the revision section after it, and
    every later mark is refused because the ticks are no longer final. *)
Theorem first_mark_blocks_the_next body k taskId status ev tier who note ts :
  closed body -> trim_end body = body ->
  Forall (fun h => str_eqb (h_text h) (js "Ticks") = false /\ str_eqb (h_text h) (js "Revisions") = false)
    (scanPlanDocHeadings body) ->
  valid_mark taskId status ev ts who note ->
  exists text,
    appendTaskMarkTick (body ++ repeat 10%N k) taskId status ev tier who note ts = Ok (text, 1) /\
    forall taskId' status' ev' tier' who' note' ts',
      appendTaskMarkTick text taskId' status' ev' tier' who' note' ts' =
      Throw (invalid "TASK_MARK_TICKS_NOT_FINAL: Ticks must be the final section").
Proof.
  intros Hc Ht Hno Hv. destruct (tick_line_ok _ _ _ tier _ _ _ Hv) as [Htp Htn].
  unfold appendTaskMarkTick at 1. rewrite (add_first_tick _ _ Hno k Ht). cbn [mbind res_bind].
  set (tick := tick_line taskId status ev tier ts who note) in *.
  assert (planDocRevisionSection (ticked body tick) = (0, [])) as ->.
  { unfold planDocRevisionSection. by rewrite ticked_scan, find_app_none by (done || by apply no_revisions). }
  rewrite ticked_scan, filter_app_none by (done || by apply no_revisions).
  change (List.filter (is_section "Revisions") [_]) with (@nil PlanDocHeading). cbn iota. cbn [fst].
  set (rl := js "- r" ++ dec (0 + 1) ++ js " " ++ ts ++ js " " ++ who ++ js ": task mark " ++ taskId ++ js " " ++ status).
  assert (10%N ∉ rl) as Hrl.
  { destruct Hv as [_ Hl]. repeat (apply Forall_cons in Hl as [? Hl]). unfold rl. no_newline. }
  rewrite (first_revision body tick Hc Htp Htn Hno). exists (ticked_revised body tick rl). split; [reflexivity|].
  intros. unfold appendTaskMarkTick. by rewrite not_final.
Qed.

Lemma first_mark_blocks_the_next_witness :
  exists text, appendTaskMarkTick (js "# Plan" ++ [10%N]) (js "T1") (js "passed") (js "c0ffee") T_high (js "pm") [] (js "t1") = Ok (text, 1) /\
    appendTaskMarkTick text (js "T2") (js "passed") (js "c0ffee") T_high (js "pm") [] (js "t2") =
    Throw (invalid "TASK_MARK_TICKS_NOT_FINAL: Ticks must be the final section").
Proof.
  assert (valid_mark (js "T1") (js "passed") (js "c0ffee") (js "t1") (js "pm") []) as Hv.
  { split; [done|]. repeat constructor; apply (bool_decide_eq_false_1 _); vm_compute; reflexivity. }
  destruct (first_mark_blocks_the_next (js "# Plan") 1 (js "T1") (js "passed") (js "c0ffee") T_high (js "pm") [] (js "t1"))
    as (text & H1 & H2); [vm_compute; reflexivity | vm_compute; reflexivity | by repeat constructor | exact Hv |].
  exists text. split; [exact H1 | apply H2].
Defined.

(** A gated plan loses its gates to a mark.  Where the Gates section is the
    last one, as recorded verdicts require, a mark puts the Ticks section after
    it: the next verdict is refused, and the next rewrite of the document keeps
    its revisions but drops the recorded verdicts and the ticks. *)
Theorem mark_shadows_gates :
  let r0 := doc_lines ["# Plan"; "text"; "## Revisions"; "- r1 2025-01-01T00:00:00Z planner: start"; " "; "## Gates";
                       "- T1 PASS 2025-01-02T00:00:00Z planner"] in
  let verdict := gate_line (js "T2") PASS (js "2025-01-03T00:00:00Z") (js "planner") None None in
  is_ok (appendGateLine r0 verdict) = true /\ is_ok (carried_gates [] r0) = true /\ carried_gates [] r0 <> Ok [] /\
  match appendTaskMarkTick r0 (js "T1") (js "passed") (js "c0ffee") T_high (js "pm") [] (js "2025-01-03T00:00:00Z") with
  | Ok (r1, revision) =>
      revision = 2 /\
      appendGateLine r1 verdict = Throw (invalid "GATE_VERDICT_GATES_SECTION_NOT_AT_END: ## Gates must be the final section") /\
      carried_gates [] r1 = Ok [] /\
      (let r2 := next_document r1 (js "# Plan") (js "- r3 2025-01-04T00:00:00Z planner: edit") [] in
       readLatestGateVerdict r1 (js "T1") = Some (mkVerdict PASS (js "2025-01-02T00:00:00Z")) /\
       readLatestGateVerdict r2 (js "T1") = None /\ includes r2 (js "## Ticks") = false)
  | Throw _ => False
  end.
Proof. vm_compute. split_and!; done. Qed.
