(* ===== verification/Server.v ===== *)
(** * The connection (broker/src/server.ts)

    The request framer of a connection, its write queue, the parsing of a
    request line and the error codes of a response. *)
From S2P Require Import Prelude JsVal Types State Policy Path Validation HostPaths Envelope.
From S2P Require Import RolePolicy GitOps Artifacts Queue Effects Worker Authorization Codec.

Open Scope Z_scope.

(** ** Limits *)
Definition JSON_ESCAPE_WORST_CASE : Z := 6.
Definition REQUEST_ENVELOPE_ALLOWANCE : Z := 64 * 1024.
Definition OVERSIZE_ID_PREFIX_BYTES : nat := 512.
Definition MAX_OPERATION_NAME_LENGTH : Z := 128.

(** [reviewInputMax] is REVIEW_INPUT_MAX_BYTES of sdd-runtime.ts. *)
Definition maxRequestLineBytes (contentMax patchMax reviewInputMax : Z) : Z :=
  Z.max contentMax (Z.max patchMax reviewInputMax) * JSON_ESCAPE_WORST_CASE + REQUEST_ENVELOPE_ALLOWANCE.

(** ** RequestLineFramer *)
Abbreviation bytes := (list N).

Inductive FramedRequest :=
  | FLine (line : jsstr)
  | FOversize (id : option jsstr) (size : nat).

Record Framer := mkFramer {
  pending : bytes; discarding : bool; discardedBytes : nat; discardPrefix : bytes
}.
Definition new_framer : Framer := mkFramer [] false 0 [].

(** ["id"\s*:\s*"([A-Za-z0-9-]{1,128})"] at the start of a text. *)
Definition id_at (s : jsstr) : option jsstr :=
  let quoted := [34; 105; 100; 34]%N in
  if negb (startsWith s quoted) then None else
  match snd (span is_ws (drop 4 s)) with
  | c :: s1 =>
      if negb (c =? 58)%N then None else
      match snd (span is_ws s1) with
      | q :: s2 =>
          let '(value, rest) := span (fun c => is_alnum c || (c =? 45)%N) s2 in
          if (q =? 34)%N && (1 <=? js_length value) && (js_length value <=? 128)
             && match rest with r :: _ => (r =? 34)%N | [] => false end
          then Some value else None
      | [] => None
      end
  | [] => None
  end.

(** [OVERSIZE_ID_RE.exec(text)?.[1]]: the leftmost match. *)
Fixpoint OVERSIZE_ID_RE (s : jsstr) : option jsstr :=
  match id_at s, s with
  | Some v, _ => Some v
  | None, _ :: s' => OVERSIZE_ID_RE s'
  | None, [] => None
  end.

Definition oversize (line : bytes) (size : nat) : FramedRequest :=
  FOversize (OVERSIZE_ID_RE (utf8_lossy (take OVERSIZE_ID_PREFIX_BYTES line))) size.

Definition frame (maxLineBytes : nat) (line : bytes) : FramedRequest :=
  if (maxLineBytes <? length line)%nat then oversize line (length line)
  else FLine (utf8_lossy line).

(** The complete lines of a buffer and what follows the last newline. *)
Fixpoint lines_and_rest (data : bytes) : list bytes * bytes :=
  match data with
  | [] => ([], [])
  | b :: data' =>
      let '(ls, rest) := lines_and_rest data' in
      if (b =? 10)%N then ([] :: ls, rest)
      else match ls with
           | l :: ls' => ((b :: l) :: ls', rest)
           | [] => ([], b :: rest)
           end
  end.

(** The part of [push] after the discarded line, on [data] from its offset. *)
Definition frame_data (maxLineBytes : nat) (data : bytes) : Framer * list FramedRequest :=
  let '(ls, rest) := lines_and_rest data in
  (if (maxLineBytes <? length rest)%nat
   then mkFramer [] true (length rest) (take OVERSIZE_ID_PREFIX_BYTES rest)
   else mkFramer rest false 0 [],
   map (frame maxLineBytes) ls).

Definition push (maxLineBytes : nat) (f : Framer) (chunk : bytes) : Framer * list FramedRequest :=
  if discarding f then
    match cut_at 10 chunk with
    | None => (mkFramer (pending f) true (discardedBytes f + length chunk) (discardPrefix f), [])
    | Some (before, after) =>
        let '(f', events) := frame_data maxLineBytes after in
        (f', oversize (discardPrefix f) (discardedBytes f + length before) :: events)
    end
  else frame_data maxLineBytes (pending f ++ chunk).

(** A connection's data events in order. *)
Fixpoint push_all (maxLineBytes : nat) (f : Framer) (chunks : list bytes) : Framer * list FramedRequest :=
  match chunks with
  | [] => (f, [])
  | c :: chunks' =>
      let '(f1, e1) := push maxLineBytes f c in
      let '(f2, e2) := push_all maxLineBytes f1 chunks' in
      (f2, e1 ++ e2)
  end.

(** ** SocketWriteQueue *)
Record QueuedSocketWrite := mkWrite { wq_data : bytes; wq_offset : nat; wq_id : option jsstr }.

(** [onDrained] is set while a termination waits for the queue. *)
Record SocketWriteQueue := mkQueue {
  sq_writes : list QueuedSocketWrite; sq_onDrained : bool; sq_terminationRequested : bool
}.
Definition new_write_queue : SocketWriteQueue := mkQueue [] false false.

(** What the queue does to its environment: the bytes the socket accepted, the
    call of [onFailure] with the id of the response, the deferred
    termination. *)
Inductive queue_event :=
  | Sent (data : bytes)
  | WriteFailed (id : option jsstr)
  | Drained.

Inductive queue_op :=
  | Enqueue (data : bytes) (id : option jsstr)
  | Drain
  | Terminate.

Definition hasPendingWrites (q : SocketWriteQueue) : bool :=
  match sq_writes q with [] => false | _ :: _ => true end.

Definition notifyDrained (q : SocketWriteQueue) : SocketWriteQueue * list queue_event :=
  if hasPendingWrites q || negb (sq_onDrained q) then (q, [])
  else (mkQueue (sq_writes q) false (sq_terminationRequested q), [Drained]).

Section write_queue.
  (** The socket: a state and [write], which throws ([None]) or answers a
      number; a fraction, which [Number.isInteger] refuses, is [None] too. *)
  Context {S : Type} (write : S -> bytes -> option Z * S).

(** The loop of [flush] on the queued writes; the flags [d] and [r] are those
    of the queue. *)
Fixpoint flush_writes (writes : list QueuedSocketWrite) (d r : bool) (s : S)
    : SocketWriteQueue * S * list queue_event :=
  match writes with
  | [] => (mkQueue [] d r, s, [])
  | w :: ws =>
      let remaining := drop (wq_offset w) (wq_data w) in
      let '(answer, s1) := write s remaining in
      let failed := let '(q, es) := notifyDrained (mkQueue [] d r) in (q, s1, WriteFailed (wq_id w) :: es) in
      match answer with
      | Some n =>
          if (n <? 0) || (Z.of_nat (length remaining) <? n) then failed else
          let offset := (wq_offset w + Z.to_nat n)%nat in
          let accepted := Sent (take (Z.to_nat n) remaining) in
          if (offset <? length (wq_data w))%nat
          then (mkQueue (mkWrite (wq_data w) offset (wq_id w) :: ws) d r, s1, [accepted])
          else
            let '(q, es) := notifyDrained (mkQueue ws d r) in
            let '(q', s2, es') := flush_writes ws (sq_onDrained q) r s1 in
            (q', s2, accepted :: es ++ es')
      | None => failed
      end
  end.

Definition flush (q : SocketWriteQueue) (s : S) : SocketWriteQueue * S * list queue_event :=
  flush_writes (sq_writes q) (sq_onDrained q) (sq_terminationRequested q) s.

Definition terminate (q : SocketWriteQueue) : SocketWriteQueue * list queue_event :=
  if sq_terminationRequested q then (q, [])
  else if hasPendingWrites q then (mkQueue (sq_writes q) true true, [])
  else (mkQueue (sq_writes q) (sq_onDrained q) true, [Drained]).

Definition queue_step (op : queue_op) (q : SocketWriteQueue) (s : S) : SocketWriteQueue * S * list queue_event :=
  match op with
  | Enqueue data id =>
      flush (mkQueue (sq_writes q ++ [mkWrite data 0 id]) (sq_onDrained q) (sq_terminationRequested q)) s
  | Drain => flush q s
  | Terminate => let '(q', es) := terminate q in (q', s, es)
  end.

Fixpoint queue_run (ops : list queue_op) (q : SocketWriteQueue) (s : S)
    : SocketWriteQueue * S * list queue_event :=
  match ops with
  | [] => (q, s, [])
  | op :: ops' =>
      let '(q1, s1, es) := queue_step op q s in
      let '(q2, s2, es') := queue_run ops' q1 s1 in
      (q2, s2, es ++ es')
  end.
End write_queue.

(** ** Requests *)
Record parse_failure := mkFailure { pf_id : option jsstr; pf_error : exn }.

(** [parseRequest], given what JSON.parse made of the line ([None]: it threw). *)
Definition parseRequest (raw : option jsval) : WireRequest + parse_failure :=
  let fail id m := inr (mkFailure id (invalid m)) in
  match raw with
  | None => fail None "malformed JSON request"%string
  | Some ((JObj _ | JArr _) as req) =>
      if negb (match field req (js "version") with JNum (NumInt 1) => true | _ => false end)
      then fail None "unsupported protocol version"%string else
      match field req (js "id") with
      | JStr id =>
          if negb (REQUEST_ID_RE id) then fail None "invalid request id"%string else
          match field req (js "sessionID") with
          | JStr sid =>
              if negb (SESSION_ID_RE sid) then fail (Some id) "invalid sessionID"%string else
              match field req (js "operation") with
              | JStr op =>
                  if MAX_OPERATION_NAME_LENGTH <? js_length op
                  then fail (Some id) "operation name exceeds 128 characters"%string else
                  inl (mkWire id op sid
                    (match field req (js "agent") with
                     | JStr a => if js_length a <=? 128 then Some a else None
                     | _ => None
                     end)
                    (field req (js "payload")))
              | _ => fail (Some id) "missing operation"%string
              end
          | _ => fail (Some id) "invalid sessionID"%string
          end
      | _ => fail None "invalid request id"%string
      end
  | Some _ => fail None "request must be a JSON object"%string
  end.

(** [/^[a-z][a-z0-9_]{0,63}$/] *)
Definition PROTOCOL_CODE_RE (code : jsstr) : bool :=
  match code with
  | c :: r => is_lower c && re_class (fun c => is_lower c || is_digit c || (c =? 95)%N) 0 63 r
  | [] => false
  end.

(** The code of a thrown error. *)
Definition toBrokerError (e : exn) : jsstr * jsstr :=
  (match exn_class e with
   | EValidation => js "validation"
   | EState | ECorruption => js "state"
   | EQueuedTimedOut => js "queued_timed_out"
   | EPolicy => js "policy"
   | EMsb => js "worker"
   | ECoded code => if PROTOCOL_CODE_RE code then code else js "internal"
   | EError => js "internal"
   end, exn_msg e).

(** A request of the main socket or of an advisor connection, as dispatched. *)
Definition admitRequest (advisor : option AdvisorBinding) (req : WireRequest) : res WireRequest :=
  match advisor with
  | Some binding => bindAdvisorRequest req binding
  | None => refuseAdvisorSessionOnMain req
  end.

(** The typed request, once its operation is known to exist. *)
Definition typed_request (req : WireRequest) : res BrokerRequestEnvelope :=
  match operation_of_name (wr_operation req) with
  | Some op => Ok {| req_id := wr_id req; req_operation := op; req_sessionID := wr_sessionID req;
                     req_agent := wr_agent req; req_payload := wr_payload req |}
  | None => Throw (invalid_ [js "unsupported operation '"; wr_operation req; js "'"])
  end.

(** ** Lemmas *)
Lemma lines_and_rest_app a b :
  lines_and_rest (a ++ b) =
    (fst (lines_and_rest a) ++ fst (lines_and_rest (snd (lines_and_rest a) ++ b)),
     snd (lines_and_rest (snd (lines_and_rest a) ++ b))).
Proof.
  induction a as [|c a IH]; cbn [app lines_and_rest fst snd].
  - by destruct (lines_and_rest b).
  - destruct (lines_and_rest a) as [ls r] eqn:Ha. cbn [fst snd] in IH.
    rewrite IH. destruct (N.eqb_spec c 10); cbn [fst snd]; [done|].
    destruct ls as [|l ls]; cbn [fst snd app]; [|done].
    cbn [lines_and_rest]. destruct (lines_and_rest (r ++ b)) as [ls' r'] eqn:Hb. cbn [fst snd].
    destruct (N.eqb_spec c 10); [done|]. by destruct ls'.
Qed.

Lemma lines_rest_cut r data :
  lines_and_rest r = ([], r) ->
  match cut_at 10 data with
  | None => lines_and_rest (r ++ data) = ([], r ++ data)
  | Some (before, after) =>
      lines_and_rest (r ++ data) = ((r ++ before) :: fst (lines_and_rest after), snd (lines_and_rest after))
  end.
Proof.
  intros Hr. assert (forall data, match cut_at 10 data with
    | None => lines_and_rest data = ([], data)
    | Some (before, after) =>
        lines_and_rest data = (before :: fst (lines_and_rest after), snd (lines_and_rest after))
    end) as H0.
  { clear. induction data as [|c data IH]; [done|]. cbn [cut_at lines_and_rest].
    destruct (N.eqb_spec 10 c) as [<-|Hc].
    - cbn. by destruct (lines_and_rest data).
    - destruct (cut_at 10 data) as [[x y]|]; rewrite IH;
        (destruct (N.eqb_spec c 10); [congruence|]); done. }
  assert (forall r x ls y, lines_and_rest r = ([], r) -> lines_and_rest x = (ls, y) ->
    lines_and_rest (r ++ x) = match ls with [] => ([], r ++ y) | l :: ls' => ((r ++ l) :: ls', y) end) as H1.
  { clear. induction r as [|c r IH]; intros x ls y Hr Hx; cbn [app]; [rewrite Hx; by destruct ls|].
    cbn [lines_and_rest] in *. destruct (lines_and_rest r) as [lr rr] eqn:Er.
    destruct (N.eqb_spec c 10); [done|]. destruct lr as [|]; [|done].
    injection Hr as ->. rewrite (IH x ls y) by done. by destruct ls. }
  specialize (H0 data). destruct (cut_at 10 data) as [[x y]|].
  - exact (H1 r data _ _ Hr H0).
  - exact (H1 r data _ _ Hr H0).
Qed.

Lemma rest_is_rest data : lines_and_rest (snd (lines_and_rest data)) = ([], snd (lines_and_rest data)).
Proof.
  induction data as [|c data IH]; [done|]. cbn [lines_and_rest].
  destruct (lines_and_rest data) as [ls r]. cbn [snd] in IH.
  destruct (N.eqb_spec c 10) as [->|Hc]; [done|]. destruct ls; cbn [snd]; [|done].
  cbn [lines_and_rest]. rewrite IH. destruct (N.eqb_spec c 10); [congruence | done].
Qed.

(** The framer after the bytes whose last incomplete line is [rest]. *)
Definition framer_at (maxLineBytes : nat) (rest : bytes) : Framer :=
  if (maxLineBytes <? length rest)%nat
  then mkFramer [] true (length rest) (take OVERSIZE_ID_PREFIX_BYTES rest)
  else mkFramer rest false 0 [].

Lemma push_spec maxLineBytes rest chunk :
  (OVERSIZE_ID_PREFIX_BYTES <= maxLineBytes)%nat -> lines_and_rest rest = ([], rest) ->
  push maxLineBytes (framer_at maxLineBytes rest) chunk =
    (framer_at maxLineBytes (snd (lines_and_rest (rest ++ chunk))),
     map (frame maxLineBytes) (fst (lines_and_rest (rest ++ chunk)))).
Proof.
  intros Hmax Hr. unfold framer_at at 1. destruct (Nat.ltb_spec maxLineBytes (length rest)) as [Hlt|Hle].
  - unfold push. cbn [discarding discardedBytes discardPrefix pending].
    pose proof (lines_rest_cut rest chunk Hr) as Hc.
    assert (forall x : bytes, take OVERSIZE_ID_PREFIX_BYTES (rest ++ x) = take OVERSIZE_ID_PREFIX_BYTES rest) as Htake
      by (intros x; apply take_app_le; lia).
    destruct (cut_at 10 chunk) as [[before after]|]; rewrite Hc; cbn [fst snd map].
    + unfold frame_data. destruct (lines_and_rest after) as [ls r']. cbn [fst snd]. unfold framer_at.
      f_equal. f_equal. unfold frame.
      destruct (Nat.ltb_spec maxLineBytes (length (rest ++ before))) as [_|Hle];
        [|rewrite length_app in Hle; lia].
      unfold oversize. rewrite Htake, take_take, length_app.
      by replace (OVERSIZE_ID_PREFIX_BYTES `min` OVERSIZE_ID_PREFIX_BYTES)%nat with OVERSIZE_ID_PREFIX_BYTES by lia.
    + unfold framer_at. rewrite length_app, Htake.
      destruct (Nat.ltb_spec maxLineBytes (length rest + length chunk)); [done | lia].
  - unfold push. cbn [discarding pending]. unfold frame_data, framer_at.
    by destruct (lines_and_rest (rest ++ chunk)).
Qed.

(** ** Properties *)

(** C28: framing does not depend on how the bytes arrive.  Whatever chunks a
    connection's stream is cut into, the framer reports exactly the complete
    lines of the whole stream, in order: each within the cap decoded, each over
    it refused alone with its length and the id found in its first bytes; and
    nothing of an unfinished line. *)
Theorem framer_chunk_independent maxLineBytes chunks :
  (OVERSIZE_ID_PREFIX_BYTES <= maxLineBytes)%nat ->
  snd (push_all maxLineBytes new_framer chunks) =
    map (frame maxLineBytes) (fst (lines_and_rest (concat chunks))).
Proof.
  intros Hmax.
  assert (forall rest, lines_and_rest rest = ([], rest) ->
    snd (push_all maxLineBytes (framer_at maxLineBytes rest) chunks) =
      map (frame maxLineBytes) (fst (lines_and_rest (rest ++ concat chunks)))) as H.
  { induction chunks as [|c cs IH]; intros rest Hr; cbn [push_all concat snd].
    - by rewrite app_nil_r, Hr.
    - rewrite push_spec by done. specialize (IH _ (rest_is_rest (rest ++ c))).
      destruct (push_all _ _ cs) as [f2 e2]. cbn [snd] in *. rewrite IH.
      rewrite app_assoc, (lines_and_rest_app (rest ++ c)). cbn [fst]. by rewrite map_app. }
  exact (H [] eq_refl).
Qed.

Lemma framer_chunk_independent_witness :
  snd (push_all 512 new_framer [[123]; [125; 10; 91]; [93; 10]]%N) =
    map (frame 512) (fst (lines_and_rest (concat [[123]; [125; 10; 91]; [93; 10]]%N))).
Proof. apply framer_chunk_independent. vm_compute. repeat constructor. Defined.

(** ** The write queue *)

(** The bytes the socket accepted before the first failure, those still
    queued, and those given to the queue. *)
Fixpoint sent_bytes (es : list queue_event) : bytes :=
  match es with
  | Sent data :: es' => data ++ sent_bytes es'
  | WriteFailed _ :: _ => []
  | Drained :: es' => sent_bytes es'
  | [] => []
  end.

Definition unsent_bytes (q : SocketWriteQueue) : bytes :=
  concat (map (fun w => drop (wq_offset w) (wq_data w)) (sq_writes q)).

Fixpoint enqueued_bytes (ops : list queue_op) : bytes :=
  match ops with
  | Enqueue data _ :: ops' => data ++ enqueued_bytes ops'
  | (Drain | Terminate) :: ops' => enqueued_bytes ops'
  | [] => []
  end.

Definition write_failed (es : list queue_event) : bool :=
  existsb (fun e => match e with WriteFailed _ => true | _ => false end) es.

Fixpoint drained_count (es : list queue_event) : nat :=
  match es with
  | Drained :: es' => 1 + drained_count es'
  | _ :: es' => drained_count es'
  | [] => 0
  end.

(** A waiting termination waits for a queued write, and was requested. *)
Definition queue_ok (q : SocketWriteQueue) : Prop :=
  sq_onDrained q = true -> hasPendingWrites q = true /\ sq_terminationRequested q = true.

(** How many deferred terminations a queue still owes. *)
Definition owed (q : SocketWriteQueue) : nat := if sq_onDrained q then 1 else 0.

(** What one flush or one operation does, [given] being the bytes it added. *)
Definition queue_effect (q : SocketWriteQueue) (given : bytes) (q' : SocketWriteQueue) (es : list queue_event) : Prop :=
  sent_bytes es `prefix_of` unsent_bytes q ++ given /\
  (write_failed es = false -> sent_bytes es ++ unsent_bytes q' = unsent_bytes q ++ given) /\
  (drained_count es + owed q' =
     owed q + if sq_terminationRequested q' && negb (sq_terminationRequested q) then 1 else 0)%nat /\
  (sq_terminationRequested q = true -> sq_terminationRequested q' = true).

Lemma write_failed_app es es' : write_failed (es ++ es') = write_failed es || write_failed es'.
Proof. apply existsb_app. Qed.

Lemma sent_bytes_app es es' :
  sent_bytes (es ++ es') = if write_failed es then sent_bytes es else sent_bytes es ++ sent_bytes es'.
Proof.
  induction es as [|[data|id|] es IH]; cbn; [done| |done|exact IH].
  rewrite IH. fold (write_failed es). destruct (write_failed es); [done|]. by rewrite app_assoc.
Qed.

Lemma drained_count_app es es' : drained_count (es ++ es') = (drained_count es + drained_count es')%nat.
Proof. induction es as [|[] es IH]; cbn; lia. Qed.

Lemma queue_effect_trans q given q1 es given' q2 es' :
  queue_effect q given q1 es -> queue_effect q1 given' q2 es' ->
  queue_effect q (given ++ given') q2 (es ++ es').
Proof.
  intros (Hp & He & Hc & Hr) (Hp' & He' & Hc' & Hr').
  unfold queue_effect. rewrite sent_bytes_app, write_failed_app, drained_count_app. split_and!; [| | | auto].
  - destruct (write_failed es) eqn:Hf.
    + rewrite app_assoc. by apply prefix_app_r.
    + rewrite app_assoc, <- He, <- app_assoc by done. by apply prefix_app.
  - intros [H1 H2]%orb_false_elim. rewrite H1, app_assoc, <- He, <- !app_assoc by done. by rewrite He'.
  - destruct (sq_terminationRequested q), (sq_terminationRequested q1) eqn:E1, (sq_terminationRequested q2) eqn:E2;
      cbn [andb negb] in *; try (specialize (Hr eq_refl)); try (specialize (Hr' eq_refl)); try done; lia.
Qed.

Lemma notifyDrained_effect q : queue_effect q [] (fst (notifyDrained q)) (snd (notifyDrained q)).
Proof.
  destruct q as [ws d r]. unfold notifyDrained, queue_effect, owed, hasPendingWrites.
  destruct ws as [|w ws], d, r; cbn; rewrite ?app_nil_r; split_and!; try done; apply prefix_nil.
Qed.

Lemma notifyDrained_ok q :
  (sq_onDrained q = true -> sq_terminationRequested q = true) ->
  queue_ok (fst (notifyDrained q)) /\ sq_writes (fst (notifyDrained q)) = sq_writes q /\
  sq_terminationRequested (fst (notifyDrained q)) = sq_terminationRequested q.
Proof.
  destruct q as [ws d r]. unfold notifyDrained, queue_ok, hasPendingWrites.
  destruct ws as [|w ws], d; cbn; naive_solver.
Qed.

Section queue_facts.
  Context {S : Type} (write : S -> bytes -> option Z * S).

(** The socket's failure: everything queued is dropped. *)
Lemma failed_effect ws d r id :
  (d = true -> r = true) ->
  let '(q, es) := notifyDrained (mkQueue [] d r) in
  queue_effect (mkQueue ws d r) [] q (WriteFailed id :: es) /\ queue_ok q.
Proof.
  intros Hr. unfold notifyDrained, queue_effect, queue_ok, owed, hasPendingWrites.
  destruct d, r; cbn; split_and!; try done; apply prefix_nil.
Qed.

(** One write that the socket accepts, whole or in part. *)
Lemma accepted_effect w ws d r n ws' :
  let remaining := drop (wq_offset w) (wq_data w) in
  let offset := (wq_offset w + n)%nat in
  ws' = (if (offset <? length (wq_data w))%nat then mkWrite (wq_data w) offset (wq_id w) :: ws else ws) ->
  queue_effect (mkQueue (w :: ws) d r) [] (mkQueue ws' d r) [Sent (take n remaining)].
Proof.
  intros remaining offset ->.
  assert (forall x : bytes, take n remaining ++ x = take n remaining ++ x) as _ by done.
  assert (unsent_bytes (mkQueue (w :: ws) d r) = take n remaining ++ unsent_bytes (mkQueue
    (if (offset <? length (wq_data w))%nat then mkWrite (wq_data w) offset (wq_id w) :: ws else ws) d r)) as Hu.
  { unfold unsent_bytes. cbn [sq_writes map concat]. fold remaining.
    rewrite <- (take_drop n remaining) at 1. rewrite <- app_assoc. f_equal.
    unfold remaining. rewrite drop_drop. fold offset.
    destruct (Nat.ltb_spec offset (length (wq_data w))); [done|].
    by rewrite drop_ge by lia. }
  unfold queue_effect. cbn [sent_bytes write_failed existsb drained_count owed sq_onDrained sq_terminationRequested].
  rewrite !app_nil_r, Hu. split_and!; [by apply prefix_app_r | done | by destruct r, d | done].
Qed.

Lemma flush_writes_effect ws d r s q s' es :
  (d = true -> r = true) -> (d = true -> ws <> []) ->
  flush_writes write ws d r s = (q, s', es) -> queue_effect (mkQueue ws d r) [] q es /\ queue_ok q.
Proof.
  revert d s q s' es. induction ws as [|w ws IH]; intros d s q s' es Hr Hd; cbn [flush_writes].
  - intros [= <- <- <-]. unfold queue_effect, queue_ok. cbn. split_and!; try done; [by destruct d, r|].
    intros ->. by destruct Hd.
  - destruct (write s _) as [answer s1].
    pose proof (failed_effect (w :: ws) d r (wq_id w) Hr) as Hf.
    destruct (notifyDrained (mkQueue [] d r)) as [qf ef].
    destruct answer as [n|]; [|by intros [= <- <- <-]].
    destruct (_ || _) eqn:Hn; [by intros [= <- <- <-]|].
    pose proof (accepted_effect w ws d r (Z.to_nat n) _ eq_refl) as Ha.
    destruct (Nat.ltb _ _).
    + intros [= <- <- <-]. split; [done|]. unfold queue_ok. cbn. auto.
    + pose proof (notifyDrained_effect (mkQueue ws d r)) as Hn1.
      pose proof (notifyDrained_ok (mkQueue ws d r) Hr) as (Hok & Hw & Hr1).
      destruct (notifyDrained (mkQueue ws d r)) as [q1 e1]. destruct q1 as [ws1 d1 r1].
      cbn [fst snd sq_onDrained sq_writes sq_terminationRequested] in *. subst ws1 r1.
      destruct (flush_writes write ws d1 r s1) as [[q2 s2] e2] eqn:Hfl. intros [= <- <- <-].
      destruct (IH d1 s1 q2 s2 e2) as [He Hok2]; try done.
      * intros Hd1. by apply Hok.
      * intros Hd1 ->. by apply Hok in Hd1 as [? _].
      * split; [|done]. change (Sent _ :: e1 ++ e2) with ([Sent (take (Z.to_nat n) (drop (wq_offset w) (wq_data w)))] ++ e1 ++ e2).
        apply (queue_effect_trans _ [] _ _ [] _ _ Ha), (queue_effect_trans _ [] _ _ [] _ _ Hn1), He.
Qed.

Definition given_by (op : queue_op) : bytes := match op with Enqueue data _ => data | _ => [] end.

Lemma queue_step_effect op q s q' s' es :
  queue_ok q -> queue_step write op q s = (q', s', es) -> queue_effect q (given_by op) q' es /\ queue_ok q'.
Proof.
  destruct q as [ws d r]. intros Hok. destruct op as [data id| |]; cbn [queue_step given_by].
  - intros Hf. apply flush_writes_effect in Hf; cbn [sq_writes sq_onDrained sq_terminationRequested] in *.
    + destruct Hf as [He Hok']. split; [|done].
      assert (queue_effect (mkQueue ws d r) data (mkQueue (ws ++ [mkWrite data 0 id]) d r) []) as H1.
      { unfold queue_effect, unsent_bytes. cbn. rewrite map_app, concat_app. cbn. rewrite app_nil_r.
        split_and!; try done; [apply prefix_nil | by destruct d, r]. }
      rewrite <- (app_nil_r data). apply (queue_effect_trans _ _ _ [] _ _ _ H1 He).
    + intros Hd. by apply Hok in Hd as [_ Hd].
    + by destruct ws.
  - intros Hf. apply flush_writes_effect in Hf; [done| |].
    + intros Hd. by apply Hok in Hd as [_ Hd].
    + intros Hd. apply Hok in Hd as [Hp _]. by destruct ws.
  - unfold terminate, queue_effect, queue_ok, owed, hasPendingWrites in *. cbn in *.
    destruct r, ws as [|w ws], d; cbn in *; intros [= <- <- <-]; cbn; rewrite ?app_nil_r; split_and!;
      first [done | apply prefix_nil | tauto | intuition discriminate].
Qed.

Lemma queue_run_effect ops q s q' s' es :
  queue_ok q -> queue_run write ops q s = (q', s', es) -> queue_effect q (enqueued_bytes ops) q' es /\ queue_ok q'.
Proof.
  revert q s q' s' es. induction ops as [|op ops IH]; intros q s q' s' es Hok; cbn [queue_run].
  - intros [= <- <- <-]. split; [|done]. unfold queue_effect. cbn. rewrite app_nil_r.
    split_and!; try done; [apply prefix_nil | by destruct (sq_terminationRequested q)].
  - destruct (queue_step write op q s) as [[q1 s1] e1] eqn:H1.
    destruct (queue_run write ops q1 s1) as [[q2 s2] e2] eqn:H2. intros [= <- <- <-].
    apply queue_step_effect in H1 as [H1 Hok1]; [|done]. apply IH in H2 as [H2 Hok2]; [|done]. split; [|done].
    replace (enqueued_bytes (op :: ops)) with (given_by op ++ enqueued_bytes ops) by by destruct op.
    by eapply queue_effect_trans.
Qed.
End queue_facts.

(** C29: responses leave a connection in order, each once.  Whatever the socket
    accepts of each write and in whatever order frames are queued, drained and
    a termination requested: the accepted bytes are a prefix of the queued
    ones, all that is missing is still queued unless a write failed, and a
    requested termination runs exactly once, never while a write is pending. *)
Theorem write_queue_fifo {S} (write : S -> bytes -> option Z * S) ops s q s' es :
  queue_run write ops new_write_queue s = (q, s', es) ->
  sent_bytes es `prefix_of` enqueued_bytes ops /\
  (write_failed es = false -> sent_bytes es ++ unsent_bytes q = enqueued_bytes ops) /\
  drained_count es =
    (if sq_terminationRequested q && negb (sq_onDrained q) then 1 else 0)%nat /\
  (sq_onDrained q = true -> hasPendingWrites q = true).
Proof.
  intros Hrun. apply queue_run_effect in Hrun as [(Hp & He & Hc & _) Hok]; [|done].
  unfold owed in *. cbn in *. split_and!; try done.
  - unfold queue_ok in Hok. destruct (sq_onDrained q), (sq_terminationRequested q); cbn in *; try lia.
  - intros Hd. by destruct (Hok Hd).
Qed.

(** A socket that takes two bytes at a time. *)
Definition two_bytes (s : unit) (data : bytes) : option Z * unit := (Some (Z.min 2 (js_length data)), s).

Lemma write_queue_fifo_witness :
  let '(q, _, es) := queue_run two_bytes [Enqueue [1; 2; 3]%N None; Terminate; Enqueue [4]%N None; Drain]
                       new_write_queue tt in
  sent_bytes es = [1; 2; 3; 4]%N /\ drained_count es = 1%nat /\
  sent_bytes es `prefix_of` enqueued_bytes [Enqueue [1; 2; 3]%N None; Terminate; Enqueue [4]%N None; Drain].
Proof.
  destruct (queue_run two_bytes _ new_write_queue tt) as [[q u] es] eqn:Hrun.
  pose proof (write_queue_fifo two_bytes _ _ _ _ _ Hrun) as (Hp & _).
  vm_compute in Hrun. injection Hrun as <- <- <-. by split_and!.
Defined.
