(* ===== verification/FileOps.v ===== *)
(** * Worker file operations (broker/src/service.ts)

    exec, readFile, writeFile, the copies between worker and host, applyPatch,
    listDir and grep: argv vectors in the worker, each behind its validators. *)
From Stdlib Require Import QArith.
From S2P Require Import Prelude JsVal Types State Policy Path Validation HostPaths Envelope.
From S2P Require Import RolePolicy GitOps Artifacts Queue Effects Worker Results Diff Codec.
Open Scope Z_scope.

(** ** Helpers *)

(** A value that an assertion has shown to be a string. *)
Definition text_of (v : jsval) : jsstr := match v with JStr s => s | _ => [] end.

(** [filePath.slice(0, filePath.lastIndexOf("/"))], when the slash is not the
    first character. *)
Definition workerDirOf (filePath : jsstr) : jsstr :=
  match cut_at SLASH (rev filePath) with
  | Some (_, ((_ :: _) as before)) => rev before
  | _ => js "/work"
  end.

Definition with_final_newline (s : jsstr) : jsstr := if endsWith s [10%N] then s else s ++ [10%N].

Definition is_octal (c : N) : bool := ((48 <=? c) && (c <=? 55))%N.

Definition decimal (s : jsstr) : Z := fold_left (fun n c => n * 10 + (Z.of_N c - 48)) s 0.

(** [/^(<head>):(regular file|regular empty file)\s*$/]: the text before the
    colon. *)
Definition stat_line (good_head : jsstr -> bool) (text : jsstr) : option jsstr :=
  match cut_at 58 text with
  | Some (head, rest) =>
      let ends kind := startsWith rest kind && forallb is_ws (drop (length kind) rest) in
      if good_head head && (ends (js "regular file") || ends (js "regular empty file")) then Some head else None
  | None => None
  end.

(** The size of [stat -c %s:%F] and the mode of [stat -c %a:%F].  A size past
    2^53 rounds in the code; every such size is over the limit either way. *)
Definition stat_size (text : jsstr) : option Z :=
  decimal <$> stat_line (re_class is_digit 1 (js_length text)) text.
Definition stat_mode (text : jsstr) : option jsstr := stat_line (re_class is_octal 3 4) text.

Definition path_json (v : jsval) : jsval := JObj [(js "path", v)].

(** [try { m } finally { f }] on the paths where [m] throws. *)
Definition on_throw {A} (m : M A) (f : M unit) : M A := try_catch m (fun e => _ ← f; throw e).

Section fileops.
  Context (ctx : OpContext).
#[local] Abbreviation E := (env ctx).

Definition refusePlanRootMutation (path : jsstr) : res unit :=
  throw_if (negb (bool_decide (checkProtectedPaths [path] (planRootPatterns (cfg ctx)) = [])))
    (invalid_ [js "PLAN_ROOT_PROTECTED: "; path;
               js " is a plan-root path; workers may not modify it (BROKER_PLAN_ROOT_PROTECTION)"]).

Definition assertPath (v : jsval) : res unit := assertSandboxPath_max (pathMaxBytes (cfg ctx)) v.

(** The session's record and its active worker. *)
Definition active_worker (sid : jsstr) : M jsstr :=
  record ← recordOr404 sid; lift (requireActiveWorker record).

Definition worker_failure (what : jsstr) (r : SpawnResult) : exn :=
  msb_error (what ++ js " failed in worker (status " ++ status_text r ++ js "): " ++ trim (stderr r)).

(** Run a worker command; any non-zero status fails closed with its stderr. *)
Definition execOrThrow (worker : jsstr) (a : list jsstr) (what : jsstr) : M unit :=
  r ← exec ctx worker a (opt_timeout 30000);
  throw_when (negb (ok_status r)) (worker_failure what r).

Definition tmp_path (kind sid uuid ext : jsstr) : jsstr :=
  join [stateDir (cfg ctx); js "tmp"; kind ++ js "-" ++ sid ++ js "-" ++ uuid ++ ext].
Definition tmp_dir : jsstr := join [stateDir (cfg ctx); js "tmp"].
Definition worker_tmp (kind uuid ext : jsstr) : jsstr :=
  js "/work/.broker-tmp/" ++ kind ++ js "-" ++ uuid ++ ext.

(** ** exec *)
Definition exec_cwd (v : jsval) : res (option jsstr) :=
  match v with
  | JUndef => Ok None
  | _ =>
      if match v with JStr s => str_eqb s (js "/work") | _ => false end then Ok (Some (js "/work")) else
      _ ← assertPath v; Ok (Some (resolve2 (js "/work") (text_of v)))
  end.

Definition execOp (req : BrokerRequestEnvelope) : M jsval :=
  payload ← lift (payloadOf req);
  _ ← lift (assertArgv (field payload (js "argv")) (argvLimits (cfg ctx)));
  let timeoutMs := if is_undef (field payload (js "timeoutMs")) then jint (execTimeoutMsDefault (cfg ctx))
                   else field payload (js "timeoutMs") in
  _ ← lift (assertPositiveInt timeoutMs (execTimeoutMsMax (cfg ctx)) (js "timeoutMs"));
  cwd ← lift (exec_cwd (field payload (js "cwd")));
  worker ← active_worker (req_sessionID req);
  let args := match field payload (js "argv") with JArr items => map text_of items | _ => [] end in
  let vars := if is_nullish (field payload (js "env")) then JUndef else field payload (js "env") in
  result ← exec ctx worker args (mkOpts cwd timeoutMs vars None);
  mret (JObj [(js "exitCode", exit_code result); (js "stdout", JStr (stdout result));
              (js "stderr", JStr (stderr result)); (js "timedOut", JBool (timedOut result))]).

(** ** readFile *)
Definition stat_size_argv (path : jsstr) : list jsstr := argv ["stat"; "-L"; "-c"; "%s:%F"; "--"] ++ [path].
Definition base64_argv (path : jsstr) : list jsstr := argv ["base64"; "-w"; "0"; "--"] ++ [path].

(** [Math.ceil(maxBytes / 3) * 4 + 64] *)
Definition base64_limit (maxBytes : Z) : Z := (maxBytes + 2) / 3 * 4 + 64.

(** What the two answers of the worker make of the file. *)
Definition file_size (path : jsstr) (stat : SpawnResult) : res Z :=
  _ ← throw_if (negb (ok_status stat)) (worker_failure (js "readFile") stat);
  match stat_size (stdout stat) with
  | None => Throw (invalid_ [js "readFile target is not a regular file: "; path])
  | Some size =>
      let maxBytes := contentMaxBytes (cfg ctx) in
      _ ← throw_if (maxBytes <? size)
            (invalid_ [js "readFile refused: "; path; js " is "; dec size; js " bytes, over the "; dec maxBytes;
                       js "-byte limit; use sandbox_grep or sandbox_copy_out"]);
      Ok size
  end.

Definition file_content (path : jsstr) (size : Z) (result : SpawnResult) : res jsstr :=
  _ ← throw_if (negb (ok_status result)) (worker_failure (js "readFile") result);
  let bytes := base64_decode (List.filter (fun c => negb (is_ws c)) (stdout result)) in
  let got := Z.of_nat (length bytes) in
  _ ← throw_if (negb (got =? size))
        (msb_error (js "readFile refused: read " ++ dec got ++ js " of " ++ dec size ++ js " bytes from " ++ path
           ++ js " (truncated or changed during the read)"));
  match utf8_decode bytes with
  | Some content => Ok content
  | None => Throw (invalid_ [js "readFile refused: "; path;
                             js " is not valid UTF-8 text; use sandbox_copy_out for binary files"])
  end.

Definition readFile (req : BrokerRequestEnvelope) : M jsval :=
  payload ← lift (payloadOf req);
  let path := text_of (field payload (js "path")) in
  _ ← lift (assertPath (field payload (js "path")));
  worker ← active_worker (req_sessionID req);
  stat ← exec ctx worker (stat_size_argv path) (opt_timeout 30000);
  size ← lift (file_size path stat);
  result ← exec ctx worker (base64_argv path)
             (mkOpts None (jint 30000) JUndef (Some (base64_limit (contentMaxBytes (cfg ctx)))));
  content ← lift (file_content path size result);
  mret (JObj [(js "content", JStr content)]).

(** ** writeFile *)
Definition stat_mode_argv (path : jsstr) : list jsstr := argv ["stat"; "-L"; "-c"; "%a:%F"; "--"] ++ [path].

Definition existingTargetMode (worker path : jsstr) : M (option jsstr) :=
  stat ← exec ctx worker (stat_mode_argv path) (opt_timeout 30000);
  if ok_status stat then
    match stat_mode (stdout stat) with
    | Some m => mret (Some m)
    | None => throw (invalid_ [js "writeFile target is not a regular file: "; path])
    end
  else
    exists_ ← exec ctx worker (argv ["test"; "-e"] ++ [path]) (opt_timeout 30000);
    _ ← throw_when (ok_status exists_)
          (msb_error (js "writeFile could not read the existing mode of " ++ path ++ js ": " ++ trim (stderr stat)));
    mret None.

(** The host copy, the worker's temporary copy and the target's directory. *)
Definition stage_content (worker hostTmp workerTmp targetPath content : jsstr) : M (option jsstr * jsstr) :=
  _ ← call_unit E (CMkdir tmp_dir);
  _ ← call_unit E (CWriteFile hostTmp (with_final_newline content) 420);
  _ ← call_unit E (CChmod hostTmp 420);
  mkdirRes ← exec ctx worker (argv ["mkdir"; "-p"] ++ [workerDirOf workerTmp]) (opt_timeout 30000);
  _ ← throw_when (negb (ok_status mkdirRes)) (worker_failure (js "writeFile mkdir") mkdirRes);
  targetMode ← existingTargetMode worker targetPath;
  _ ← call_unit E (CCopyIn worker hostTmp workerTmp);
  let targetDir := workerDirOf targetPath in
  targetMkdir ← exec ctx worker (argv ["mkdir"; "-p"; "--"] ++ [targetDir]) (opt_timeout 30000);
  _ ← throw_when (negb (ok_status targetMkdir)) (worker_failure (js "writeFile target mkdir") targetMkdir);
  uuid ← call_text E CRandomUUID;
  mret (targetMode, targetDir ++ js "/.broker-write-" ++ uuid ++ js ".tmp").

(** The worker-owned copy, its mode, and the rename over the target. *)
Definition replace_target (worker workerTmp stageTmp targetPath : jsstr) (targetMode : option jsstr) : M unit :=
  _ ← execOrThrow worker (argv ["cp"; "--"] ++ [workerTmp; stageTmp]) (js "writeFile stage");
  _ ← execOrThrow worker (argv ["chmod"] ++ [default (js "644") targetMode; js "--"; stageTmp]) (js "writeFile chmod");
  execOrThrow worker (argv ["mv"; "-f"; "--"] ++ [stageTmp; targetPath]) (js "writeFile").

Definition remove_leftovers (worker hostTmp : jsstr) (leftovers : list jsstr) : M unit :=
  _ ← call_unit E (CRm hostTmp);
  best_effort (_ ← exec ctx worker (argv ["rm"; "-f"; "--"] ++ leftovers) (opt_timeout 30000); mret tt).

Definition writeFile (req : BrokerRequestEnvelope) : M jsval :=
  payload ← lift (payloadOf req);
  let targetPath := text_of (field payload (js "path")) in
  let content := text_of (field payload (js "content")) in
  _ ← lift (assertPath (field payload (js "path")));
  _ ← lift (assertContent (field payload (js "content")) (contentMaxBytes (cfg ctx)));
  _ ← lift (refusePlanRootMutation targetPath);
  worker ← active_worker (req_sessionID req);
  uuid ← call_text E CRandomUUID;
  let hostTmp := tmp_path (js "write") (req_sessionID req) uuid (js ".tmp") in
  uuid' ← call_text E CRandomUUID;
  let workerTmp := worker_tmp (js "write") uuid' (js ".tmp") in
  staged ← on_throw (stage_content worker hostTmp workerTmp targetPath content)
             (remove_leftovers worker hostTmp [workerTmp]);
  let '(targetMode, stageTmp) := staged in
  _ ← on_throw (replace_target worker workerTmp stageTmp targetPath targetMode)
        (remove_leftovers worker hostTmp [workerTmp; stageTmp]);
  _ ← remove_leftovers worker hostTmp [workerTmp];
  mret (path_json (field payload (js "path"))).

(** ** Copies (S15) *)
Definition copy_preview (target text : jsstr) (totalLines : Z) : jsstr :=
  if negb (isSourceCodeTarget target) && (400 <? totalLines)
  then join_with [10%N] (take 400 (split_on 10 text)) ++ [10%N] ++ js "(... truncated: " ++ dec totalLines
         ++ js " total lines)"
  else text.

Definition copyOutInfo (req : BrokerRequestEnvelope) : M jsval :=
  payload ← lift (payloadOf req);
  _ ← lift (assertPath (field payload (js "workerPath")));
  target ← lift (assertExternalCopyTarget (host_realpath ctx) (field payload (js "hostTarget"))
                   (externalCopyTargets (cfg ctx)));
  worker ← active_worker (req_sessionID req);
  result ← exec ctx worker (argv ["cat"; "--"] ++ [text_of (field payload (js "workerPath"))])
             (opt_cwd (js "/work") 30000);
  _ ← throw_when (negb (ok_status result)) (worker_failure (js "copyOutInfo") result);
  let totalLines := countCopyLines (stdout result) in
  _ ← lift (assertCopyOutReviewLimit target totalLines (maxApplyDiffLines (cfg ctx)));
  mret (JObj [(js "target", JStr target); (js "totalLines", jint totalLines);
              (js "preview", JStr (copy_preview target (stdout result) totalLines))]).

(** The backup, the rename over the target and its mode. *)
Definition publish_copy (hostTmp target : jsstr) : M unit :=
  backup ← call_bool E (CExists target);
  _ ← when backup (call_unit E (CCopyFile target (target ++ js ".bak")));
  _ ← call_unit E (CRename hostTmp target);
  call_unit E (CChmod target 420).

Definition copyOut (req : BrokerRequestEnvelope) : M jsval :=
  payload ← lift (payloadOf req);
  _ ← throw_when (negb (confirmed payload "COPY")) (confirm_error "copyOut" "COPY");
  let workerPath := text_of (field payload (js "workerPath")) in
  _ ← lift (assertPath (field payload (js "workerPath")));
  target ← lift (assertExternalCopyTarget (host_realpath ctx) (field payload (js "hostTarget"))
                   (externalCopyTargets (cfg ctx)));
  worker ← active_worker (req_sessionID req);
  uuid ← call_text E CRandomUUID;
  let hostTmp := tmp_path (js "copy") (req_sessionID req) uuid (js ".tmp") in
  try_finally
    (_ ← call_unit E (CMkdir tmp_dir);
     let workerAbs := if startsWith workerPath (js "/") then workerPath else js "/work/" ++ workerPath in
     _ ← call_unit E (CCopyOut worker workerAbs hostTmp);
     copied ← call_text E (CReadFile hostTmp);
     _ ← lift (assertCopyOutReviewLimit target (countCopyLines copied) (maxApplyDiffLines (cfg ctx)));
     _ ← publish_copy hostTmp target;
     mret (JObj [(js "target", JStr target); (js "copied", JBool true)]))
    (call_unit E (CRm hostTmp)).

(** One [statSync] answers both questions; it may throw. *)
Definition stat_source (source : jsstr) : M (bool * Z) :=
  try_catch (regular ← call_bool E (CIsFile source); size ← call_int E (CFileSize source); mret (regular, size))
    (fun _ => throw (invalid "copy source does not exist on the host")).

Definition copyInInfo (req : BrokerRequestEnvelope) : M jsval :=
  payload ← lift (payloadOf req);
  source ← lift (assertExternalCopyTarget (host_realpath ctx) (field payload (js "hostSource"))
                   (externalCopyTargets (cfg ctx)));
  _ ← lift (assertPath (field payload (js "workerPath")));
  st ← stat_source source;
  _ ← throw_when (negb (fst st)) (invalid "copy source must be a regular file");
  mret (JObj [(js "source", JStr source); (js "bytes", jint (snd st))]).

Definition copyIn (req : BrokerRequestEnvelope) : M jsval :=
  payload ← lift (payloadOf req);
  _ ← throw_when (negb (confirmed payload "COPY")) (confirm_error "copyIn" "COPY");
  source ← lift (assertExternalCopyTarget (host_realpath ctx) (field payload (js "hostSource"))
                   (externalCopyTargets (cfg ctx)));
  _ ← lift (assertPath (field payload (js "workerPath")));
  worker ← active_worker (req_sessionID req);
  uuid ← call_text E CRandomUUID;
  let workerTmp := worker_tmp (js "copy") uuid (js ".tmp") in
  mkdirRes ← exec ctx worker (argv ["mkdir"; "-p"] ++ [workerDirOf workerTmp]) (opt_timeout 30000);
  _ ← throw_when (negb (ok_status mkdirRes)) (worker_failure (js "copyIn mkdir") mkdirRes);
  _ ← call_unit E (CCopyIn worker source workerTmp);
  moved ← exec ctx worker (argv ["mv"; "-f"] ++ [workerTmp; text_of (field payload (js "workerPath"))])
            (opt_timeout 30000);
  _ ← throw_when (negb (ok_status moved)) (worker_failure (js "copyIn") moved);
  mret (path_json (field payload (js "workerPath"))).

(** ** applyPatch *)

(** The raw request's path metadata, when it carries any. *)
Definition patch_path_guard (v : jsval) : res unit :=
  _ ← assertPath v; refusePlanRootMutation (text_of v).

Definition patch_guard (raw : jsval) : res unit :=
  _ ← (if is_undef (field raw (js "path")) then Ok tt else patch_path_guard (field raw (js "path")));
  match field raw (js "paths") with
  | JUndef => Ok tt
  | JArr paths => for_each patch_path_guard paths
  | _ => Throw (invalid "paths must be an array")
  end.

Definition patch_help : jsstr :=
  js ". Check unified-diff hunk line counts and include at least one unchanged context line in each changed-line hunk; an end-of-file append-only hunk is valid. Include a final newline.".

Definition apply_in_worker (worker hostTmp workerTmp patch : jsstr) : M unit :=
  _ ← call_unit E (CWriteFile hostTmp (with_final_newline patch) 420);
  _ ← call_unit E (CChmod hostTmp 420);
  mkdirRes ← exec ctx worker (argv ["mkdir"; "-p"] ++ [workerDirOf workerTmp]) (opt_timeout 30000);
  _ ← throw_when (negb (ok_status mkdirRes)) (worker_failure (js "applyPatch mkdir") mkdirRes);
  _ ← call_unit E (CCopyIn worker hostTmp workerTmp);
  check ← exec ctx worker (argv ["git"; "apply"; "--check"] ++ [workerTmp]) (opt_cwd (js "/work") 60000);
  _ ← must_msb check (js "patch does not apply cleanly: " ++ trim (stderr check) ++ patch_help);
  applied ← exec ctx worker (argv ["git"; "apply"] ++ [workerTmp]) (opt_cwd (js "/work") 60000);
  must_msb applied (js "patch apply failed: " ++ trim (stderr applied)).

Definition applyPatch (req : BrokerRequestEnvelope) : M jsval :=
  _ ← lift (patch_guard (req_payload req));
  payload ← lift (payloadOf req);
  _ ← lift (assertContent (field payload (js "patch")) (patchMaxBytes (cfg ctx)));
  worker ← active_worker (req_sessionID req);
  uuid ← call_text E CRandomUUID;
  let hostTmp := tmp_path (js "patch") (req_sessionID req) uuid (js ".patch") in
  uuid' ← call_text E CRandomUUID;
  let workerTmp := worker_tmp (js "apply") uuid' (js ".patch") in
  try_finally
    (_ ← apply_in_worker worker hostTmp workerTmp (text_of (field payload (js "patch")));
     mret (JObj [(js "ok", JBool true)]))
    (call_unit E (CRm hostTmp)).

(** ** listDir and grep *)
Definition listDir (req : BrokerRequestEnvelope) : M jsval :=
  payload ← lift (payloadOf req);
  _ ← lift (assertPath (field payload (js "path")));
  worker ← active_worker (req_sessionID req);
  result ← exec ctx worker (argv ["ls"; "-la"] ++ [text_of (field payload (js "path"))]) (opt_timeout 30000);
  mret (JObj [(js "listing", JStr (stdout result))]).

Definition grep (req : BrokerRequestEnvelope) : M jsval :=
  payload ← lift (payloadOf req);
  _ ← lift (assertGrepQuery (field payload (js "query")) (grepQueryMaxBytes (cfg ctx)));
  _ ← lift (assertPath (field payload (js "path")));
  worker ← active_worker (req_sessionID req);
  result ← exec ctx worker
             (argv ["grep"; "-rn"; "--exclude-dir=.git"; "-e"]
              ++ [text_of (field payload (js "query")); text_of (field payload (js "path"))])
             (opt_timeout 60000);
  mret (JObj [(js "matches", JStr (stdout result)); (js "exitCode", exit_code result)]).
End fileops.
