(* ===== verification/TraceLogic.v ===== *)
(** * A logic of traces

    Safety of a handler, call by call: [traced P pre m Q] says that every call
    [m] makes satisfies [P] of the calls before it, starting from the trace
    [pre], and that [Q] holds of its result and of the whole trace, whatever the
    world and the environment answer. *)
From Stdlib Require Import QArith.
From S2P Require Import Prelude JsVal Types State Policy Path Validation HostPaths Envelope.
From S2P Require Import RolePolicy GitOps Artifacts Queue Effects.
Open Scope Z_scope.

(** Every event satisfies [P] of the events before it. *)
Fixpoint each (P : list event -> event -> Prop) (pre t : list event) : Prop :=
  match t with
  | [] => True
  | e :: t' => P pre e /\ each P (pre ++ [e]) t'
  end.

Lemma each_split P pre t t1 e t2 : each P pre t -> t = t1 ++ (e :: t2) -> P (pre ++ t1) e.
Proof.
  intros H ->. revert pre H. induction t1 as [|x t1 IH]; intros pre; cbn [each app].
  - rewrite app_nil_r. tauto.
  - intros [_ H]. specialize (IH _ H). by rewrite <- app_assoc in IH.
Qed.

Lemma each_app P pre t t' : each P pre t -> each P (pre ++ t) t' -> each P pre (t ++ t').
Proof.
  revert pre. induction t as [|e t IH]; intros pre; cbn [each app]; [by rewrite app_nil_r|].
  intros [He Ht] Ht'. split; [done|]. apply IH; [done|]. by rewrite <- app_assoc.
Qed.


Definition traced {A} (P : list event -> event -> Prop) (pre : list event) (m : M A)
    (Q : res A -> list event -> Prop) : Prop :=
  forall w, wp m (fun r _ t => each P pre t /\ Q r (pre ++ t)) w.

Section rules.
  Context (P : list event -> event -> Prop).

Lemma traced_mono {A} pre (m : M A) (Q R : res A -> list event -> Prop) :
  traced P pre m Q -> (forall r t, Q r t -> R r t) -> traced P pre m R.
Proof. intros H HQ w. eapply wp_mono; [apply H|]. intros r w' t [He Hq]. auto. Qed.

(** A run that makes no call. *)
Lemma traced_pure {A} pre (m : M A) (Q : res A -> list event -> Prop) :
  always m (fun r t => t = [] /\ Q r pre) -> traced P pre m Q.
Proof.
  intros H w. eapply wp_mono; [apply H|]. intros r w' t [-> Hq]. cbn [each]. by rewrite app_nil_r.
Qed.

Lemma traced_ret {A} pre (a : A) (Q : res A -> list event -> Prop) : Q (Ok a) pre -> traced P pre (mret a) Q.
Proof. intros H. by apply traced_pure, always_ret. Qed.
Lemma traced_throw {A} pre e (Q : res A -> list event -> Prop) : Q (Throw e) pre -> traced P pre (throw e) Q.
Proof. intros H. by apply traced_pure, always_throw. Qed.
Lemma traced_lift {A} pre (r : res A) (Q : res A -> list event -> Prop) : Q r pre -> traced P pre (lift r) Q.
Proof. intros H. by apply traced_pure, always_lift. Qed.
Lemma traced_ask {A} pre (f : world -> A) (Q : res A -> list event -> Prop) :
  (forall a, Q (Ok a) pre) -> traced P pre (ask f) Q.
Proof. intros H. by apply traced_pure, always_ask. Qed.
Lemma traced_throw_when pre b e (Q : res unit -> list event -> Prop) :
  (b = true -> Q (Throw e) pre) -> (b = false -> Q (Ok tt) pre) -> traced P pre (throw_when b e) Q.
Proof. intros H1 H2. apply traced_pure, always_throw_when; auto. Qed.
Lemma traced_store_get pre sid Q : (forall r, Q r pre) -> traced P pre (store_get sid) Q.
Proof. intros H. by apply traced_pure, always_store_get. Qed.
Lemma traced_store_touch pre sid ps op Q : (forall r, Q r pre) -> traced P pre (store_touch sid ps op) Q.
Proof. intros H. by apply traced_pure, always_store_touch. Qed.
Lemma traced_store_transition pre sid from to ps Q :
  (forall r, Q r pre) -> traced P pre (store_transition sid from to ps) Q.
Proof. intros H. by apply traced_pure, always_store_transition. Qed.

Lemma traced_bind {A B} pre (m : M A) (f : A -> M B) (Q : res B -> list event -> Prop) :
  traced P pre m (fun r tr => match r with Ok a => traced P tr (f a) Q | Throw e => Q (Throw e) tr end) ->
  traced P pre (mbind f m) Q.
Proof.
  intros H w. apply wp_bind. eapply wp_mono; [apply (H w)|]. intros [a|e] w1 t1 [He H1]; [|done].
  eapply wp_mono; [apply (H1 w1)|]. intros r w2 t2 [He2 H2]. rewrite app_assoc. split; [by apply each_app | done].
Qed.

Lemma traced_try_catch {A} pre (m : M A) h (Q : res A -> list event -> Prop) :
  traced P pre m (fun r tr => match r with Ok a => Q (Ok a) tr | Throw e => traced P tr (h e) Q end) ->
  traced P pre (try_catch m h) Q.
Proof.
  intros H w. apply wp_try_catch. eapply wp_mono; [apply (H w)|]. intros [a|e] w1 t1 [He H1]; [done|].
  eapply wp_mono; [apply (H1 w1)|]. intros r w2 t2 [He2 H2]. rewrite app_assoc. split; [by apply each_app | done].
Qed.

Lemma traced_try_finally {A} pre (m : M A) f (Q : res A -> list event -> Prop) :
  traced P pre m (fun r tr => traced P tr f (fun r2 tr2 => Q (match r2 with Ok _ => r | Throw e => Throw e end) tr2)) ->
  traced P pre (try_finally m f) Q.
Proof.
  intros H w. unfold wp, try_finally. specialize (H w). unfold wp in H. destruct (m w) as [[r w1] t1].
  destruct H as [He H]. specialize (H w1). unfold wp in H. destruct (f w1) as [[r2 w2] t2].
  destruct H as [He2 H]. rewrite app_assoc. split; [by apply each_app | done].
Qed.

Lemma traced_attempt {A} pre (m : M A) (Q : res (res A) -> list event -> Prop) :
  traced P pre m (fun r tr => Q (Ok r) tr) -> traced P pre (attempt m) Q.
Proof.
  intros H. apply traced_try_catch, traced_bind. eapply traced_mono; [exact H|].
  intros [a|e] t Ht; by apply traced_ret.
Qed.

Lemma traced_event {A} pre (m : M A) (ev : res A -> event) (Q : res A -> list event -> Prop) :
  (forall w, wp m (fun r _ t => t = [ev r]) w) ->
  (forall r, P pre (ev r)) -> (forall r, Q r (pre ++ [ev r])) -> traced P pre m Q.
Proof.
  intros Hm HP HQ w. eapply wp_mono; [apply Hm|]. intros r w' t ->. cbn [each]. auto.
Qed.

Lemma traced_call_proc pre E c Q :
  (forall r, P pre (EvProc c r)) -> (forall r, Q r (pre ++ [EvProc c r])) -> traced P pre (call_proc E c) Q.
Proof. apply traced_event. intros w. unfold wp, call_proc. by destruct (on_proc E c w). Qed.
Lemma traced_call_unit pre E c Q :
  (forall r, P pre (EvUnit c r)) -> (forall r, Q r (pre ++ [EvUnit c r])) -> traced P pre (call_unit E c) Q.
Proof. apply traced_event. intros w. unfold wp, call_unit. by destruct (on_unit E c w). Qed.
Lemma traced_call_text pre E c Q :
  (forall r, P pre (EvText c r)) -> (forall r, Q r (pre ++ [EvText c r])) -> traced P pre (call_text E c) Q.
Proof. apply traced_event. intros w. unfold wp, call_text. by destruct (on_text E c w). Qed.
Lemma traced_call_bool pre E c Q :
  (forall r, P pre (EvBool c r)) -> (forall r, Q r (pre ++ [EvBool c r])) -> traced P pre (call_bool E c) Q.
Proof. apply traced_event. intros w. unfold wp, call_bool. by destruct (on_bool E c w). Qed.
Lemma traced_call_int pre E c Q :
  (forall r, P pre (EvInt c r)) -> (forall r, Q r (pre ++ [EvInt c r])) -> traced P pre (call_int E c) Q.
Proof. apply traced_event. intros w. unfold wp, call_int. by destruct (on_int E c w). Qed.
Lemma traced_call_names pre E c Q :
  (forall r, P pre (EvNames c r)) -> (forall r, Q r (pre ++ [EvNames c r])) -> traced P pre (call_names E c) Q.
Proof. apply traced_event. intros w. unfold wp, call_names. by destruct (on_names E c w). Qed.
Lemma traced_call_stats pre E c Q :
  (forall r, P pre (EvStats c r)) -> (forall r, Q r (pre ++ [EvStats c r])) -> traced P pre (call_stats E c) Q.
Proof. apply traced_event. intros w. unfold wp, call_stats. by destruct (on_stats E c w). Qed.

(** A part of a handler whose calls are all harmless: only the trace grows. *)
Lemma traced_only {A} pre (m : M A) (C : call -> Prop) (Q : res A -> list event -> Prop) :
  only_calls C m -> (forall e tr, C (call_of e) -> P tr e) ->
  (forall r t, Forall (fun e => C (call_of e)) t -> Q r (pre ++ t)) -> traced P pre m Q.
Proof.
  intros Hm HC HQ w. eapply wp_mono; [apply Hm|]. intros r w' t Ht. split; [|by apply HQ].
  clear HQ Hm. revert pre. induction Ht as [|e t He _ IH]; intros pre; [exact I|]. split; [by apply HC | apply IH].
Qed.

(** Conditions may be weakened. *)
Lemma traced_weaken {A} (P' : list event -> event -> Prop) pre (m : M A) (Q : res A -> list event -> Prop) :
  (forall tr e, P' tr e -> P tr e) -> traced P' pre m Q -> traced P pre m Q.
Proof.
  intros HP H w. eapply wp_mono; [apply (H w)|]. intros r w' t [He Hq]. split; [|done].
  clear -HP He. revert pre He. induction t as [|e t IH]; intros pre; [done|]. intros [H1 H2]. split; auto.
Qed.

(** What a traced run gives of its trace, event by event. *)
Lemma traced_run {A} (m : M A) Q w r w' t :
  traced P [] m Q -> m w = (r, w', t) ->
  (forall t1 e t2, t = t1 ++ e :: t2 -> P t1 e) /\ Q r t.
Proof.
  intros H Hrun. pose proof (proj1 (wp_run _ _ _ _ _ _ Hrun) (H w)) as [He HQ]. split; [|done].
  intros t1 e t2 Ht. exact (each_split _ _ _ _ _ _ He Ht).
Qed.
End rules.

(** Walks through a handler, one rule at a time; what remains is [P] of each
    call and [Q] at each end. *)
Ltac traced_step :=
  lazymatch goal with
  | |- traced _ _ (mret _) _ => apply traced_ret
  | |- traced _ _ (throw _) _ => apply traced_throw
  | |- traced _ _ (lift _) _ => apply traced_lift
  | |- traced _ _ (ask _) _ => apply traced_ask; intros ?
  | |- traced _ _ (throw_when _ _) _ => apply traced_throw_when; intros ?
  | |- traced _ _ (store_get _) _ => apply traced_store_get; intros ?
  | |- traced _ _ (store_touch _ _ _) _ => apply traced_store_touch; intros ?
  | |- traced _ _ (store_transition _ _ _ _) _ => apply traced_store_transition; intros ?
  | |- traced _ _ (call_proc _ _) _ => apply traced_call_proc; intros ?
  | |- traced _ _ (call_unit _ _) _ => apply traced_call_unit; intros ?
  | |- traced _ _ (call_text _ _) _ => apply traced_call_text; intros ?
  | |- traced _ _ (call_stats _ _) _ => apply traced_call_stats; intros ?
  | |- traced _ _ (catch_as _ _) _ => apply traced_try_catch
  | |- traced _ _ (attempt _) _ => apply traced_attempt
  | |- traced _ _ (mbind _ _) _ => apply traced_bind
  | |- traced _ _ (try_catch _ _) _ => apply traced_try_catch
  | |- traced _ _ (best_effort _) _ => apply traced_try_catch
  | |- traced _ _ (try_finally _ _) _ => apply traced_try_finally
  | |- traced _ _ (when ?b _) _ => destruct b eqn:?; cbn [when]
  | |- traced _ _ (match ?x with _ => _ end) _ => destruct x eqn:?
  | |- match ?x with Ok _ => _ | Throw _ => _ end => destruct x eqn:?
  end.

(** The same, over the remaining calls too. *)
Ltac traced_call :=
  lazymatch goal with
  | |- traced _ _ (call_bool _ _) _ => apply traced_call_bool; intros ?
  | |- traced _ _ (call_int _ _) _ => apply traced_call_int; intros ?
  | |- traced _ _ (call_names _ _) _ => apply traced_call_names; intros ?
  | |- _ => traced_step
  end.

(** ** The whole trace of a run *)
Lemma always_true {A} (m : M A) : always m (fun _ _ => True).
Proof. intros w. unfold wp. by destruct (m w) as [[??]?]. Qed.

Lemma always_attempt {A} (m : M A) (Q : res (res A) -> list event -> Prop) :
  always m (fun r t => Q (Ok r) t) -> always (attempt m) Q.
Proof.
  intros H. apply always_try_catch, always_bind. eapply always_mono; [exact H|]. intros [a|e] t Ht;
    [apply always_ret | apply always_ret]; by rewrite app_nil_r.
Qed.

Lemma always_best_effort_call E c (Q : res unit -> list event -> Prop) :
  (forall a, Q (Ok tt) [EvUnit c a]) -> always (best_effort (call_unit E c)) Q.
Proof.
  intros H. apply always_try_catch, always_call_unit. intros [[]|e]; [apply H|]. apply always_ret. rewrite app_nil_r. apply H.
Qed.

Lemma always_catch_as {A} (m : M A) e (Q : res A -> list event -> Prop) :
  always m (fun r t => match r with Ok a => Q (Ok a) t | Throw _ => Q (Throw e) t end) -> always (catch_as m e) Q.
Proof.
  intros H. apply always_try_catch. eapply always_mono; [exact H|]. intros [a|x] t Ht; [done|].
  apply always_throw. by rewrite app_nil_r.
Qed.

(** Walks through a run whose whole trace matters. *)
Ltac walk_step :=
  lazymatch goal with
  | |- always (mret _) _ => apply always_ret
  | |- always (throw _) _ => apply always_throw
  | |- always (lift _) _ => apply always_lift
  | |- always (throw_when _ _) _ => apply always_throw_when; intros ?
  | |- always (Effects.ask _) _ => apply always_ask; intros ?
  | |- always (call_proc _ _) _ => apply always_call_proc; intros ?
  | |- always (call_unit _ _) _ => apply always_call_unit; intros ?
  | |- always (call_bool _ _) _ => apply always_call_bool; intros ?
  | |- always (call_int _ _) _ => apply always_call_int; intros ?
  | |- always (call_text _ _) _ => apply always_call_text; intros ?
  | |- always (call_stats _ _) _ => apply always_call_stats; intros ?
  | |- always (best_effort (call_unit _ _)) _ => apply always_best_effort_call; intros ?
  | |- always (catch_as _ _) _ => apply always_catch_as
  | |- always (call_names _ _) _ => apply always_call_names; intros ?
  | |- always (attempt _) _ => apply always_attempt
  | |- always (try_catch _ _) _ => apply always_try_catch
  | |- always (try_finally _ _) _ => apply always_try_finally
  | |- always (mbind _ _) _ => apply always_bind
  | |- match ?x with Ok _ => _ | Throw _ => _ end => destruct x eqn:?
  end.
