(* ===== verification/FileOpsFacts.v ===== *)
(** * Properties of the worker file operations

    Theorems about FileOps.v: a read is whole or refused, a write replaces its
    target only when staged, a copy reaches the host only when checked, and
    what the plan-root guard misses. *)
From Stdlib Require Import QArith.
From stdpp Require pretty.
From S2P Require Import Prelude JsVal Types State Policy Path Validation HostPaths Envelope.
From S2P Require Import RolePolicy GitOps Artifacts Queue Effects Worker WorkerFacts Results Diff ResultFacts Codec FileOps TraceLogic.
Open Scope Z_scope.

(** ** Decimal text *)
Definition digits_value (n : Z) (s : jsstr) : Z := fold_left (fun n c => n * 10 + (Z.of_N c - 48)) s n.

Lemma js_cons c s : js (String c s) = Ascii.N_of_ascii c :: js s.
Proof. done. Qed.

Lemma pretty_char_code d : (d < 10)%N -> Ascii.N_of_ascii (pretty.pretty_N_char d) = (48 + d)%N.
Proof. intros H. do 10 (destruct d as [|d] using N.peano_ind; [done | clear IHd]); lia. Qed.

Lemma pretty_go_value x s :
  digits_value 0 (js (pretty.pretty_N_go x s)) = digits_value (Z.of_N x) (js s) /\
  (forallb is_digit (js s) = true -> forallb is_digit (js (pretty.pretty_N_go x s)) = true).
Proof.
  revert s. induction (N.lt_wf_0 x) as [x _ IH]. intros s. destruct (N.eq_dec x 0) as [->|Hx].
  { by rewrite pretty.pretty_N_go_0. }
  rewrite pretty.pretty_N_go_step by lia.
  assert (x mod 10 < 10)%N as Hm by (apply N.mod_lt; lia).
  destruct (IH (x / 10)%N) with (s := String (pretty.pretty_N_char (x mod 10)) s) as [H1 H2]; [apply N.div_lt; lia|].
  rewrite js_cons, (pretty_char_code _ Hm) in H1, H2. split.
  - rewrite H1. unfold digits_value. cbn [fold_left]. f_equal. rewrite N2Z.inj_add, N2Z.inj_div, N2Z.inj_mod.
    change (Z.of_N 10) with 10. change (Z.of_N 48) with 48.
    rewrite (Z.div_mod (Z.of_N x) 10) at 3 by done. ring.
  - intros Hs. apply H2. cbn [forallb]. rewrite Hs, andb_true_r. unfold is_digit.
    revert Hm. generalize (x mod 10)%N. clear. intros d Hd. apply andb_true_iff. split; apply N.leb_le; lia.
Qed.

Lemma dec_digits n : 0 <= n -> decimal (dec n) = n /\ forallb is_digit (dec n) = true /\ dec n <> [].
Proof.
  intros Hn. assert (decimal (dec n) = n /\ forallb is_digit (dec n) = true) as [H1 H2].
  { destruct n as [|p|p]; [done| |lia]. unfold dec. change (pretty.pretty (Z.pos p)) with (pretty.pretty_N_go (N.pos p) String.EmptyString).
    destruct (pretty_go_value (N.pos p) String.EmptyString) as [H1 H2]. split; [exact H1 | by apply H2]. }
  split_and!; [done | done|]. intros He. rewrite He in H1. cbn in H1. subst n. discriminate.
Qed.

(** The size line of [stat] read back. *)
Lemma digits_no_colon s : forallb is_digit s = true -> cut_at 58 s = None.
Proof.
  induction s as [|c s IH]; [done|]. cbn [forallb cut_at]. rewrite andb_true_iff. intros [Hc Hs].
  rewrite (IH Hs). destruct (N.eqb_spec 58 c) as [<-|]; done.
Qed.

Lemma cut_at_app c s t : cut_at c s = None -> cut_at c (s ++ (c :: t)) = Some (s, t).
Proof.
  induction s as [|d s IH]; cbn [cut_at app]; intros H; [by rewrite N.eqb_refl|].
  destruct (N.eqb c d); [done|]. destruct (cut_at c s) as [[]|]; [done|]. by rewrite IH.
Qed.

Lemma stat_size_dec n : 0 <= n -> stat_size (dec n ++ js ":regular file" ++ [10%N]) = Some n.
Proof.
  intros Hn. destruct (dec_digits n Hn) as (H1 & H2 & H3). unfold stat_size, stat_line.
  change (dec n ++ js ":regular file" ++ [10%N]) with (dec n ++ (58%N :: (js "regular file" ++ [10%N]))).
  rewrite cut_at_app by by apply digits_no_colon. unfold re_class. rewrite H2, andb_true_r.
  assert ((1 <=? js_length (dec n)) = true) as ->.
  { apply Z.leb_le. unfold js_length. destruct (dec n); [done|]. cbn. lia. }
  match goal with |- context [js_length (dec n) <=? ?m] => assert ((js_length (dec n) <=? m) = true) as -> end.
  { apply Z.leb_le. unfold js_length. rewrite length_app. lia. }
  cbn [andb]. change (startsWith _ (js "regular file") && _ || _) with true. cbn [fmap option_fmap option_map]. by f_equal.
Qed.

(** ** A read is whole or refused *)

(** The environment's answer to a worker command. *)
Definition answers (E : Environment) (c : call) (r : SpawnResult) : Prop :=
  forall w, fst (on_proc E c w) = Ok r.

Lemma wp_bind_answered {B} (ctx : OpContext) c r (f : SpawnResult -> M B) (Q : res B -> Prop) w :
  answers (env ctx) c r -> (forall w', wp (f r) (fun out _ _ => Q out) w') ->
  wp (mbind f (call_proc (env ctx) c)) (fun out _ _ => Q out) w.
Proof.
  intros Hr Hf. apply wp_bind. unfold wp, call_proc. specialize (Hr w).
  destruct (on_proc (env ctx) c w) as [a w1]. cbn [fst] in Hr. subst a.
  specialize (Hf w1). unfold wp in Hf. destruct (f r w1) as [[out w2] t2]. exact Hf.
Qed.

Lemma active_worker_run sid r worker w :
  holds sid r w -> requireActiveWorker r = Ok worker -> active_worker sid w = (Ok worker, w, []).
Proof.
  intros Hw Hr. unfold active_worker. rewrite (run_bind_pure _ _ r w w).
  - unfold lift. by rewrite Hr.
  - unfold recordOr404, mbind, M_bind. by rewrite (store_get_holds _ _ _ Hw).
Qed.

Section read.
  Context (ctx : OpContext) (path : jsstr) (size : Z).

Lemma file_size_exact (r : SpawnResult) :
  0 <= size -> status r = Some 0 -> stdout r = dec size ++ js ":regular file" ++ [10%N] ->
  (size <= contentMaxBytes (cfg ctx) -> file_size ctx path r = Ok size) /\
  (contentMaxBytes (cfg ctx) < size -> exists e, file_size ctx path r = Throw e /\ exn_class e = EValidation).
Proof.
  intros Hsize Hst Hout. unfold file_size, ok_status. rewrite Hst, Hout, (stat_size_dec size Hsize).
  rewrite bool_decide_eq_true_2 by done. cbn [negb throw_if mbind res_bind].
  split; intros Hlim.
  - by rewrite (proj2 (Z.ltb_ge _ _) Hlim).
  - rewrite (proj2 (Z.ltb_lt _ _) Hlim). by eexists.
Qed.

Lemma file_content_exact (r : SpawnResult) (bs : list N) :
  status r = Some 0 -> size = Z.of_nat (length bs) ->
  let got := base64_decode (List.filter (fun c => negb (is_ws c)) (stdout r)) in
  got `prefix_of` bs ->
  (got = bs -> forall s, utf8_decode bs = Some s -> file_content path size r = Ok s) /\
  (got = bs -> utf8_decode bs = None ->
     exists e, file_content path size r = Throw e /\ exn_class e = EValidation) /\
  (got <> bs -> exists e, file_content path size r = Throw e /\ exn_class e = EMsb).
Proof.
  intros Hst -> got Hpre. unfold file_content, ok_status. rewrite Hst. fold got.
  rewrite bool_decide_eq_true_2 by done. cbn [negb throw_if mbind res_bind].
  split_and!; intros Hgot.
  - intros s Hs. rewrite Hgot, Z.eqb_refl. cbn [negb throw_if mbind res_bind]. by rewrite Hs.
  - intros Hs. rewrite Hgot, Z.eqb_refl. cbn [negb throw_if mbind res_bind]. rewrite Hs. by eexists.
  - assert ((Z.of_nat (length got) =? Z.of_nat (length bs)) = false) as ->; [|by eexists].
    apply Z.eqb_neq. intros Hlen. apply Hgot. destruct Hpre as [k ->]. rewrite length_app in Hlen.
    destruct k; [by rewrite app_nil_r | cbn in Hlen; lia].
Qed.
End read.

Lemma wp_run_eq {A} (m m' : M A) (Q : res A -> world -> list event -> Prop) w w' :
  m w = m' w' -> wp m' Q w' -> wp m Q w.
Proof. unfold wp. by intros ->. Qed.

(** Both commands answered, the reply is a function of the answers. *)
Lemma readFile_run ctx req w record worker payload path st b :
  payloadOf req = Ok payload -> field payload (js "path") = JStr path -> assertPath ctx (JStr path) = Ok tt ->
  holds (req_sessionID req) record w -> requireActiveWorker record = Ok worker ->
  answers (env ctx) (CExec worker (stat_size_argv path) (opt_timeout 30000)) st ->
  answers (env ctx) (CExec worker (base64_argv path)
    (mkOpts None (jint 30000) JUndef (Some (base64_limit (contentMaxBytes (cfg ctx)))))) b ->
  fst (fst (readFile ctx req w)) =
    (n ← file_size ctx path st; content ← file_content path n b; Ok (JObj [(js "content", JStr content)])).
Proof.
  intros Hpay Hpath Hok Hw Hact Hstat Hb64.
  assert (wp (readFile ctx req) (fun o _ _ => o =
    (n ← file_size ctx path st; content ← file_content path n b; Ok (JObj [(js "content", JStr content)]))) w) as H.
  2: { unfold wp in H. by destruct (readFile ctx req w) as [[o w'] t]. }
  unfold readFile. rewrite Hpay. eapply wp_run_eq; [apply run_lift_Ok|]. cbv zeta. rewrite Hpath.
  rewrite Hok. eapply wp_run_eq; [apply run_lift_Ok|].
  eapply wp_run_eq; [apply run_bind_pure, (active_worker_run _ _ _ _ Hw Hact)|].
  apply (wp_bind_answered ctx _ st); [done|]. intros w1. cbv beta. cbn [text_of].
  destruct (file_size ctx path st) as [n|e]; [|done].
  eapply wp_run_eq; [apply run_lift_Ok|].
  apply (wp_bind_answered ctx _ b); [done|]. intros w2. cbv beta.
  cbn [mbind res_bind]. unfold wp, mbind, M_bind, lift. by destruct (file_content path n b).
Qed.

(** A file is read whole or refused.  When the worker's [stat] reports the
    size of the file's bytes and its [base64] output decodes to any prefix of
    them (truncated anywhere or complete), a file over the limit is refused
    before it is read, a short read is refused, bytes that are not UTF-8 are
    refused, and otherwise the content returned is exactly the text whose
    encoding the file holds: no read ever shortens a file. *)
Theorem readFile_whole_or_refused ctx req w record worker payload path bs st b :
  payloadOf req = Ok payload -> field payload (js "path") = JStr path -> assertPath ctx (JStr path) = Ok tt ->
  holds (req_sessionID req) record w -> requireActiveWorker record = Ok worker ->
  answers (env ctx) (CExec worker (stat_size_argv path) (opt_timeout 30000)) st ->
  answers (env ctx) (CExec worker (base64_argv path)
    (mkOpts None (jint 30000) JUndef (Some (base64_limit (contentMaxBytes (cfg ctx)))))) b ->
  status st = Some 0 -> stdout st = dec (Z.of_nat (length bs)) ++ js ":regular file" ++ [10%N] ->
  status b = Some 0 ->
  let got := base64_decode (List.filter (fun c => negb (is_ws c)) (stdout b)) in
  got `prefix_of` bs ->
  let out := fst (fst (readFile ctx req w)) in
  let size := Z.of_nat (length bs) in
  let refused c := exists e, out = Throw e /\ exn_class e = c in
  (contentMaxBytes (cfg ctx) < size -> refused EValidation) /\
  (size <= contentMaxBytes (cfg ctx) -> got <> bs -> refused EMsb) /\
  (size <= contentMaxBytes (cfg ctx) -> got = bs -> utf8_decode bs = None -> refused EValidation) /\
  (size <= contentMaxBytes (cfg ctx) -> got = bs ->
     forall s, isWellFormed s = true -> bs = utf8_encode s -> out = Ok (JObj [(js "content", JStr s)])).
Proof.
  intros Hpay Hpath Hok Hw Hact Hstat Hb64 Hs1 Hs2 Hb got Hpre out size refused.
  destruct (file_size_exact ctx path size st ltac:(lia) Hs1 Hs2) as [Hfit Hover].
  destruct (file_content_exact path size b bs Hb eq_refl Hpre) as (Htext & Hbad & Hshort).
  assert (out = (n ← file_size ctx path st; content ← file_content path n b; Ok (JObj [(js "content", JStr content)])))
    as Hout by (by eapply readFile_run).
  clearbody out. subst out. unfold refused. split_and!.
  - intros Hlim. destruct (Hover Hlim) as (e & -> & He). by exists e.
  - intros Hlim Hne. rewrite (Hfit Hlim). cbn [mbind res_bind]. destruct (Hshort Hne) as (e & -> & He). by exists e.
  - intros Hlim Heq Hd. rewrite (Hfit Hlim). cbn [mbind res_bind]. destruct (Hbad Heq Hd) as (e & -> & He). by exists e.
  - intros Hlim Heq s Hwf ->. rewrite (Hfit Hlim). cbn [mbind res_bind].
    by rewrite (Htext Heq s (proj1 (utf8_roundtrip s Hwf))).
Qed.

(** A worker whose file holds the two bytes of [hi]. *)
Definition hi_env : Environment :=
  mkEnv (fun c w =>
      (Ok (mkSpawn (Some 0)
        (match c with
         | CExec _ (cmd :: _) _ => if str_eqb cmd (js "stat") then js "2:regular file" ++ [10%N] else js "aGk=" ++ [10%N]
         | _ => []
         end) [] false false false), w))
    (on_unit quiet_env) (on_bool quiet_env) (on_text quiet_env) (on_int quiet_env) (on_names quiet_env) (on_stats quiet_env).

Definition file_payload : jsval := JObj [(js "path", JStr (js "a.txt"))].
Definition running_world : world := sample_world {[ js "s" := RFRecord active_record ]}.

Lemma running_world_holds : holds (js "s") active_record running_world.
Proof. apply lookup_singleton_eq. Qed.

Lemma readFile_whole_or_refused_witness :
  fst (fst (readFile (sample_ctx hi_env) (sample_req Op.readFile None file_payload) running_world))
    = Ok (JObj [(js "content", JStr (js "hi"))]).
Proof.
  pose proof (readFile_whole_or_refused (sample_ctx hi_env) (sample_req Op.readFile None file_payload)
    running_world active_record (js "ocw-s") file_payload (js "a.txt") [104; 105]%N
    (mkSpawn (Some 0) (js "2:regular file" ++ [10%N]) [] false false false)
    (mkSpawn (Some 0) (js "aGk=" ++ [10%N]) [] false false false)
    eq_refl eq_refl eq_refl running_world_holds eq_refl (fun _ => eq_refl) (fun _ => eq_refl)
    eq_refl eq_refl eq_refl (ex_intro _ [] eq_refl)) as (_ & _ & _ & H).
  apply H; [cbn; lia | vm_compute; reflexivity | vm_compute; reflexivity | vm_compute; reflexivity].
Defined.

(** ** The plan-root guard *)

(** The plan-root guard of a worker write reads the path as it is spelled:
    [odd/tasks/T1.md] is refused, and the same file written [./odd/tasks/T1.md],
    which the sandbox path check accepts, is not; nor is any path that begins
    with [./]. *)
Theorem plan_root_guard_textual ctx q :
  refusePlanRootMutation ctx (js "./" ++ q) = Ok tt /\
  (planRootProtection (cfg ctx) = true ->
     exists e, refusePlanRootMutation ctx (js "odd/tasks/T1.md") = Throw e) /\
  normalize (js "./odd/tasks/T1.md") = js "odd/tasks/T1.md" /\
  assertSandboxPath (JStr (js "./odd/tasks/T1.md")) = Ok tt.
Proof.
  unfold refusePlanRootMutation, planRootPatterns. destruct (planRootProtection (cfg ctx)); split_and!;
    try (vm_compute; reflexivity); try done; try (intros; eexists; vm_compute; reflexivity).
Qed.

(** ** A copy reaches the host only when checked *)

(** A call that changes a file of the host other than by removing it. *)
Definition changes_host (e : event) : Prop :=
  match call_of e with
  | CWriteFile _ _ _ | CRename _ _ | CCopyFile _ _ | CChmod _ _ => True
  | _ => False
  end.

Section copy.
  Context (ctx : OpContext) (target hostTmp : jsstr).

(** What a copy has shown before it changes the target. *)
Definition copy_checked (t : list event) : Prop :=
  exists worker workerAbs copied,
    EvUnit (CCopyOut worker workerAbs hostTmp) (Ok tt) ∈ t /\
    EvText (CReadFile hostTmp) (Ok copied) ∈ t /\
    assertCopyOutReviewLimit target (countCopyLines copied) (maxApplyDiffLines (cfg ctx)) = Ok tt.

(** The target is absent or has been backed up. *)
Definition backed_up (t : list event) : Prop :=
  EvBool (CExists target) (Ok false) ∈ t \/ EvUnit (CCopyFile target (target ++ js ".bak")) (Ok tt) ∈ t.

Definition copy_step (pre : list event) (e : event) : Prop :=
  changes_host e ->
  copy_checked pre /\
  (call_of e = CCopyFile target (target ++ js ".bak") \/
   (backed_up pre /\ (call_of e = CRename hostTmp target \/ call_of e = CChmod target 420))).
End copy.

Ltac in_list := rewrite ?elem_of_app, ?elem_of_cons; tauto.

Lemma copy_checked_app ctx target hostTmp pre t :
  copy_checked ctx target hostTmp pre -> copy_checked ctx target hostTmp (pre ++ t).
Proof.
  intros (x & y & z & H1 & H2 & H3). exists x, y, z. split_and!; [in_list | in_list | done].
Qed.

(** An event of a list, by unification. *)
Ltac find_event := repeat first [apply list_elem_of_here | apply list_elem_of_further].

Ltac destruct_units := repeat match goal with x : () |- _ => destruct x end.

(** What a publication's event shows of the target's state. *)
Ltac copy_event :=
  intros Hc; first
    [ exfalso; exact Hc
    | split; [repeat apply copy_checked_app; assumption|];
      first [ left; reflexivity
            | right; split; [first [left; in_list | right; in_list]
                            | first [left; reflexivity | right; reflexivity]] ] ].

Lemma each_nothing ctx target hostTmp t :
  Forall (fun e => ~ changes_host e) t -> forall pre, each (copy_step ctx target hostTmp) pre t.
Proof.
  induction 1 as [|e t He _ IH]; intros pre; [exact I|]. split; [|apply IH]. intros Hc. by destruct He.
Qed.

Definition published (target hostTmp : jsstr) (t : list event) : Prop :=
  EvUnit (CRename hostTmp target) (Ok tt) ∈ t /\ EvUnit (CChmod target 420) (Ok tt) ∈ t.

Lemma publish_copy_always ctx target hostTmp pre :
  copy_checked ctx target hostTmp pre ->
  always (publish_copy ctx hostTmp target) (fun out t =>
    (forall post, Forall (fun e => ~ changes_host e) post -> each (copy_step ctx target hostTmp) pre (t ++ post)) /\
    (is_ok out = true -> published target hostTmp t)).
Proof.
  intros Hpre. unfold publish_copy.
  assert (forall post pre', Forall (fun e => ~ changes_host e) post -> each (copy_step ctx target hostTmp) pre' post)
    as Hend by (intros; by apply each_nothing).
  repeat always_step; destruct_units; cbn [app each];
    (split; [intros post Hpost; split_and!; try (by apply Hend); copy_event|]);
    try discriminate; intros Hok;
    (match type of Hok with is_ok ?r = true => destruct r as [[]|]; [split; in_list | discriminate] end).
Qed.

Definition copy_outcome ctx req (out : res jsval) (t : list event) : Prop :=
  t <> [] -> exists payload target hostTmp,
    payloadOf req = Ok payload /\ confirmed payload "COPY" = true /\
    assertExternalCopyTarget (host_realpath ctx) (field payload (js "hostTarget")) (externalCopyTargets (cfg ctx))
      = Ok target /\
    each (copy_step ctx target hostTmp) [] t /\ (is_ok out = true -> published target hostTmp t).

Lemma copy_refused ctx req e : (is_ok (@Throw jsval e) = true -> [] <> @nil event) /\ copy_outcome ctx req (Throw e) [].
Proof. split; [discriminate | by intros ?]. Qed.

(** The calls of a copy, for whatever target it resolved. *)
Lemma copyOut_always ctx req :
  always (copyOut ctx req) (fun out t => (is_ok out = true -> t <> []) /\ copy_outcome ctx req out t).
Proof.
  unfold copyOut. do 2 always_step. destruct (payloadOf req) as [payload|e] eqn:Hpay; [|apply copy_refused].
  do 2 always_step; [apply copy_refused|]. match goal with H : negb _ = false |- _ => apply negb_false_iff in H as Hconf end.
  do 2 always_step. destruct (assertPath _ _) as [[]|e]; [|apply copy_refused].
  do 2 always_step. destruct (assertExternalCopyTarget _ _ _) as [target|e] eqn:Ht; [|apply copy_refused].
  assert (forall hostTmp out t, t <> [] -> each (copy_step ctx target hostTmp) [] t ->
    (is_ok out = true -> published target hostTmp t) ->
    (is_ok out = true -> t <> []) /\ copy_outcome ctx req out t) as Hwrap
    by (intros hostTmp out t; split; [done | intros _; by exists payload, target, hostTmp]).
  assert (forall e t, Forall (fun e => ~ changes_host e) t ->
    (is_ok (@Throw jsval e) = true -> t <> []) /\ copy_outcome ctx req (Throw e) t) as Hquiet.
  { intros e t Hq. split; [discriminate|]. intros Hne. apply (Hwrap []); [done | by apply each_nothing | discriminate | done]. }
  always_step. unfold active_worker, recordOr404.
  repeat always_step; cbn [app];
    try (try match goal with |- context [is_ok match ?r with _ => _ end] => destruct r end;
         apply Hquiet; repeat constructor; exact id).
  destruct_units. eapply always_mono.
  { eapply (publish_copy_always ctx target _ [EvText CRandomUUID _; EvUnit (CMkdir (tmp_dir ctx)) _;
      EvUnit (CCopyOut _ _ _) (Ok tt); EvText (CReadFile _) (Ok _)]).
    do 3 eexists. split_and!; [find_event | find_event | eassumption]. }
  cbv beta. intros [[]|e] t [Heach Hok]; repeat always_step; rewrite ?app_nil_r;
    eapply Hwrap; try discriminate.
  1, 3: cbn [each app]; split_and!; [intros Hc; exfalso; exact Hc .. | apply Heach; repeat constructor; exact id].
  all: try (intros Hsucc; match type of Hsucc with is_ok match ?r with _ => _ end = true => destruct r; discriminate end).
  intros _. destruct (Hok eq_refl) as [H1 H2]. split; rewrite !elem_of_cons, elem_of_app; auto 10.
Qed.

(** A copy touches the host only when the copied bytes have been checked.
    Whatever the worker and the file system answer, a copyOut that makes any
    call was confirmed and its target resolves into the external copy
    allowlist; every call of it that changes a host file is the backup of that
    target, the rename of its own temporary file over the target or the
    target's mode, made only after the copy out of the worker succeeded and the
    bytes actually copied passed the review limit, and the rename only when the
    target was absent or its backup had succeeded.  A reported success means
    the rename and the mode change both succeeded. *)
Theorem copyOut_guarded ctx req w out w' t :
  copyOut ctx req w = (out, w', t) -> t <> [] ->
  exists payload target hostTmp,
    payloadOf req = Ok payload /\ confirmed payload "COPY" = true /\
    assertExternalCopyTarget (host_realpath ctx) (field payload (js "hostTarget")) (externalCopyTargets (cfg ctx))
      = Ok target /\
    (forall t1 e t2, t = t1 ++ (e :: t2) -> changes_host e ->
       copy_checked ctx target hostTmp t1 /\
       (call_of e = CCopyFile target (target ++ js ".bak") \/
        (backed_up target t1 /\ (call_of e = CRename hostTmp target \/ call_of e = CChmod target 420)))) /\
    (is_ok out = true -> published target hostTmp t).
Proof.
  intros Hrun Hne. destruct (proj1 (wp_run _ _ _ _ _ _ Hrun) (copyOut_always ctx req w))
    as [_ H]. destruct (H Hne) as (payload & target & hostTmp & H1 & H2 & H3 & H4 & H5).
  exists payload, target, hostTmp. split_and!; try done.
  intros t1 e t2 Ht. exact (each_split _ _ _ _ _ _ H4 Ht).
Qed.

(** A configuration that allows one target. *)
Definition copy_ctx (E : Environment) : OpContext :=
  let c := sample_config in
  {| cfg := {| stateDir := stateDir c; workerImage := workerImage c; workerNamePrefix := workerNamePrefix c;
               projects := projects c; externalCopyTargets := [js "/out/a.txt"];
               protectedPaths := protectedPaths c; protectedSecurityFiles := protectedSecurityFiles c;
               planRootProtection := true; queueMaxLength := 8; queueTimeoutMs := 600000;
               readOnlyAgents := readOnlyAgents c; argvLimits := argvLimits c;
               execTimeoutMsDefault := 120000; execTimeoutMsMax := 600000; contentMaxBytes := 1048576;
               patchMaxBytes := 1048576; pathMaxBytes := 4096; grepQueryMaxBytes := 1024; maxApplyDiffLines := 200;
  planWriterAgents := [js "planner"]; planMiniWriterAgents := [js "pm-odd"; js "pm-systematic"];
  advisorProjects := [] |};
     budget := budget (sample_ctx E); host_resources := host 16 32; gitReal := true;
     host_realpath := plain_realpath; env := E |}.

Definition copy_req : BrokerRequestEnvelope :=
  sample_req Op.copyOut None
    (JObj [(js "workerPath", JStr (js "a.txt")); (js "hostTarget", JStr (js "/out/a.txt"));
           (js "confirm", JStr (js "COPY"))]).

Lemma copyOut_guarded_witness :
  exists out w' t, copyOut (copy_ctx quiet_env) copy_req running_world = (out, w', t) /\
    exists target hostTmp, target = js "/out/a.txt" /\ published target hostTmp t /\
    (forall t1 e t2, t = t1 ++ (e :: t2) -> changes_host e -> copy_checked (copy_ctx quiet_env) target hostTmp t1).
Proof.
  destruct (copyOut (copy_ctx quiet_env) copy_req running_world) as [[out w'] t] eqn:Hrun.
  exists out, w', t. split; [reflexivity|].
  assert (is_ok out = true /\ bool_decide (length t = 0%nat) = false) as [Hok Hne].
  { pose proof (f_equal (fun x => is_ok (fst (fst x))) Hrun) as H1. pose proof (f_equal (fun x => length (snd x)) Hrun) as H2.
    cbn [fst snd] in H1, H2. rewrite <- H1, <- H2. split; vm_compute; reflexivity. }
  destruct (copyOut_guarded (copy_ctx quiet_env) copy_req running_world out w' t Hrun)
    as (payload & target & hostTmp & H1 & _ & H3 & H4 & H5); [by intros ->|].
  exists target, hostTmp. split; [|split; [exact (H5 Hok)|]].
  - vm_compute in H1. injection H1 as <-. vm_compute in H3. injection H3 as <-. reflexivity.
  - intros t1 e t2 Ht Hc. exact (proj1 (H4 t1 e t2 Ht Hc)).
Defined.

(** ** A write replaces its target only when staged *)

(** A rename inside the worker. *)
Definition is_move (e : event) : bool :=
  match call_of e with CExec _ (cmd :: _) _ => str_eqb cmd (js "mv") | _ => false end.

Definition ran (worker : jsstr) (a : list jsstr) (t : list event) : Prop :=
  exists r, EvProc (CExec worker a (opt_timeout 30000)) (Ok r) ∈ t /\ ok_status r = true.

Section write.
  Context (ctx : OpContext) (worker hostTmp workerTmp targetPath content : jsstr).

(** The mode of the new file: the target's, or 644 when it does not exist. *)
Definition mode_known (m : option jsstr) (t : list event) : Prop :=
  exists st, EvProc (CExec worker (stat_mode_argv targetPath) (opt_timeout 30000)) (Ok st) ∈ t /\
    match m with
    | Some md => ok_status st = true /\ stat_mode (stdout st) = Some md
    | None => ok_status st = false /\ exists r,
        EvProc (CExec worker (argv ["test"; "-e"] ++ [targetPath]) (opt_timeout 30000)) (Ok r) ∈ t /\ ok_status r = false
    end.

(** The content is on the host and in the worker, with its final newline. *)
Definition content_staged (t : list event) : Prop :=
  EvUnit (CWriteFile hostTmp (with_final_newline content) 420) (Ok tt) ∈ t /\
  EvUnit (CCopyIn worker hostTmp workerTmp) (Ok tt) ∈ t.

Definition no_move (t : list event) : Prop := Forall (fun e => is_move e = false) t.

(** Nothing but the one temporary file is written on the host. *)
Definition writes_only_tmp (t : list event) : Prop :=
  Forall (fun e => forall p c m, call_of e = CWriteFile p c m -> p = hostTmp) t.

Ltac event_go :=
  unfold no_move, writes_only_tmp; rewrite ?Forall_app; split_and?; try assumption;
  repeat first [apply Forall_nil; exact I | apply Forall_cons; split];
  first [reflexivity | intros ? ? ? [=]; congruence].

(** A throw before any move. *)
Ltac throws_still :=
  solve [split; [event_go|]; split; [event_go | discriminate]].

Lemma existingTargetMode_always :
  always (existingTargetMode ctx worker targetPath) (fun out t =>
    no_move t /\ writes_only_tmp t /\ (forall m, out = Ok m -> mode_known m t)).
Proof.
  unfold existingTargetMode.
  repeat always_step; (split; [event_go|]); (split; [event_go|]); intros m Hm; try discriminate;
    injection Hm as <-; eexists; (split; [in_list|]); cbv beta iota.
  - done.
  - split; [done|]. exists a0. split; [in_list | done].
Qed.

Lemma stage_content_always :
  always (stage_content ctx worker hostTmp workerTmp targetPath content) (fun out t =>
    no_move t /\ writes_only_tmp t /\ (forall m s, out = Ok (m, s) -> mode_known m t /\ content_staged t)).
Proof.
  unfold stage_content. repeat (always_step; try throws_still).
  eapply always_mono; [apply existingTargetMode_always|]. cbv beta. intros [m|e] t (H1 & H2 & H3); [|throws_still].
  repeat (always_step; try throws_still).
  destruct_units. split; [event_go|]. split; [event_go|]. intros m0 s [= <- _].
  destruct (H3 m eq_refl) as (st & Hst & Hmd). split; [|split; in_list].
  exists st. split; [in_list|]. destruct m as [md|]; [done|]. destruct Hmd as [? (r' & Hr' & ?)].
  split; [done|]. exists r'. split; [in_list | done].
Qed.

(** The rename over the target, and what was known before it. *)
Definition cp_argv (stageTmp : jsstr) : list jsstr := argv ["cp"; "--"] ++ [workerTmp; stageTmp].
Definition chmod_argv (stageTmp : jsstr) (m : option jsstr) : list jsstr :=
  argv ["chmod"] ++ [default (js "644") m; js "--"; stageTmp].
Definition mv_argv (stageTmp : jsstr) : list jsstr := argv ["mv"; "-f"; "--"] ++ [stageTmp; targetPath].

Definition move_ok (pre : list event) (e : event) : Prop :=
  is_move e = true -> content_staged pre /\ exists stageTmp m,
    call_of e = CExec worker (mv_argv stageTmp) (opt_timeout 30000) /\ mode_known m pre /\
    ran worker (cp_argv stageTmp) pre /\ ran worker (chmod_argv stageTmp m) pre.

Lemma each_still t : no_move t -> forall pre, each move_ok pre t.
Proof.
  induction 1 as [|e t He _ IH]; intros pre; [exact I|]. split; [|apply IH]. intros Hm. congruence.
Qed.

Lemma mode_known_app m pre t : mode_known m pre -> mode_known m (pre ++ t).
Proof.
  intros (st & Hst & H). exists st. split; [in_list|]. destruct m; [done|].
  destruct H as [? (r & ? & ?)]. split; [done|]. exists r. split; [in_list | done].
Qed.

Lemma move_ready stageTmp m pre a a' r :
  content_staged pre -> mode_known m pre -> negb (ok_status a) = false -> negb (ok_status a') = false ->
  move_ok ((pre ++ [EvProc (CExec worker (cp_argv stageTmp) (opt_timeout 30000)) (Ok a)])
             ++ [EvProc (CExec worker (chmod_argv stageTmp m) (opt_timeout 30000)) (Ok a')])
          (EvProc (CExec worker (mv_argv stageTmp) (opt_timeout 30000)) r).
Proof.
  intros [Hw Hc] Hm Ha Ha' _. apply negb_false_iff in Ha, Ha'. split; [split; in_list|].
  exists stageTmp, m. split_and!; [done | by do 2 apply mode_known_app | exists a | exists a']; (split; [in_list | done]).
Qed.

Lemma replace_target_always stageTmp m pre :
  content_staged pre -> mode_known m pre ->
  always (replace_target ctx worker workerTmp stageTmp targetPath m) (fun out t =>
    writes_only_tmp t /\ (forall post, no_move post -> each move_ok pre (t ++ post)) /\
    (is_ok out = true -> exists s, ran worker (mv_argv s) t)).
Proof.
  intros [Hw Hc] Hm. unfold replace_target, execOrThrow.
  assert (forall post pre', no_move post -> each move_ok pre' post) as Hend by (intros; by apply each_still).
  repeat always_step; (split; [event_go|]); cbn [app each];
    (split; [intros post Hpost; split_and!; try (by apply Hend); try (intros Hmv; discriminate Hmv)|]);
    try (intros Hok; discriminate Hok).
  - by apply move_ready.
  - by apply move_ready.
  - intros _. exists stageTmp, a1. split; [in_list | by apply negb_false_iff].
  - by apply move_ready.
Qed.

Lemma remove_leftovers_always leftovers :
  always (remove_leftovers ctx worker hostTmp leftovers) (fun _ t =>
    no_move t /\ writes_only_tmp t /\ exists r, EvUnit (CRm hostTmp) r ∈ t).
Proof.
  unfold remove_leftovers.
  repeat always_step; (split; [event_go|]); (split; [event_go|]); eexists; cbn [app]; apply list_elem_of_here.
Qed.

(** The write between the two ids and its reply. *)
Definition write_outcome (out : bool) (t : list event) : Prop :=
  writes_only_tmp t /\ each move_ok [] t /\ (exists r, EvUnit (CRm hostTmp) r ∈ t) /\
  (out = true -> content_staged t /\ exists s, ran worker (mv_argv s) t).

(** The write from its two ids on. *)
Definition write_body (reply : jsval) : M jsval :=
  staged ← on_throw (stage_content ctx worker hostTmp workerTmp targetPath content)
             (remove_leftovers ctx worker hostTmp [workerTmp]);
  let '(targetMode, stageTmp) := staged in
  _ ← on_throw (replace_target ctx worker workerTmp stageTmp targetPath targetMode)
        (remove_leftovers ctx worker hostTmp [workerTmp; stageTmp]);
  _ ← remove_leftovers ctx worker hostTmp [workerTmp];
  mret reply.

Lemma write_cleans leftovers t (Q : res unit -> list event -> Prop) :
  writes_only_tmp t -> (forall post, no_move post -> each move_ok [] (t ++ post)) ->
  (forall out t', write_outcome false (t ++ t') -> Q out t') ->
  always (remove_leftovers ctx worker hostTmp leftovers) Q.
Proof.
  intros Hw Hm HQ. eapply always_mono; [apply remove_leftovers_always|].
  cbv beta. intros out t' (H1 & H2 & r & H3). apply HQ.
  split_and!; [unfold writes_only_tmp; by apply Forall_app | by apply Hm | exists r; in_list | done].
Qed.

Lemma write_body_always reply : always (write_body reply) (fun out t => write_outcome (is_ok out) t).
Proof.
  unfold write_body, on_throw. always_step. always_step.
  eapply always_mono; [apply stage_content_always|]. cbv beta. intros [[m s]|e] t (H1 & H2 & H3).
  2: { always_step. apply (write_cleans _ t); [done | intros; apply each_still; by apply Forall_app|].
       intros out t' H. destruct out; [always_step; by rewrite app_nil_r | done]. }
  destruct (H3 m s eq_refl) as [Hmode Hstaged]. always_step. always_step.
  eapply always_mono; [by apply (replace_target_always s m t)|]. cbv beta. intros out t1 (Hw1 & Hm1 & Hok1).
  assert (writes_only_tmp (t ++ t1)) as Hw by by apply Forall_app.
  assert (forall post, no_move post -> each move_ok [] ((t ++ t1) ++ post)) as Hm.
  { intros post Hpost. rewrite <- app_assoc. apply each_app; [by apply each_still | by apply Hm1]. }
  destruct out as [[]|e].
  - always_step. apply (write_cleans _ (t ++ t1)); [done | done|].
    intros out t' (H4 & H5 & H6 & _). destruct out as [[]|e]; [always_step|]; rewrite ?app_nil_r, app_assoc;
      (split_and!; [done | done | done|]); [|done].
    intros _. destruct Hstaged. destruct (Hok1 eq_refl) as (s' & r & Hr & ?). split; [split; in_list|].
    exists s', r. split; [in_list | done].
  - always_step. apply (write_cleans _ (t ++ t1)); [done | done|].
    intros out t' H. destruct out; [always_step; rewrite app_nil_r|]; by rewrite app_assoc.
Qed.
End write.

(** A write that did anything: it replied, or it wrote or moved a file. *)
Definition write_acted (out : res jsval) (t : list event) : Prop :=
  is_ok out = true \/
  Exists (fun e => is_move e = true \/ exists p c m, call_of e = CWriteFile p c m) t.

(** After the two random ids, the write's shape. *)
Definition write_shape ctx req (out : res jsval) (t : list event) : Prop :=
  exists payload worker hostTmp workerTmp ids t',
    payloadOf req = Ok payload /\
    refusePlanRootMutation ctx (text_of (field payload (js "path"))) = Ok tt /\
    t = ids ++ t' /\ Forall (fun e => call_of e = CRandomUUID) ids /\
    write_outcome worker hostTmp workerTmp (text_of (field payload (js "path")))
      (text_of (field payload (js "content"))) (is_ok out) t'.

Lemma unacted e ids : Forall (fun e => call_of e = CRandomUUID) ids -> ~ write_acted (Throw e) ids.
Proof.
  intros Hids [?|H]; [done|]. apply Exists_exists in H as (x & Hx & H).
  rewrite Forall_forall in Hids. specialize (Hids x Hx). unfold is_move in H. rewrite Hids in H.
  destruct H as [?|(?&?&?&?)]; done.
Qed.

Lemma writeFile_always ctx req :
  always (writeFile ctx req) (fun out t => write_acted out t -> write_shape ctx req out t).
Proof.
  assert (forall e ids (P : Prop), Forall (fun e => call_of e = CRandomUUID) ids -> write_acted (Throw e) ids -> P) as H0
    by (intros e ids P Hids H; by apply (unacted e ids) in Hids).
  unfold writeFile. do 2 always_step. destruct (payloadOf req) as [payload|e] eqn:Hpay; [|by apply H0].
  cbv zeta. do 2 always_step. destruct (assertPath _ _) as [[]|e]; [|by apply H0].
  do 2 always_step. destruct (assertContent _ _) as [[]|e]; [|by apply H0].
  do 2 always_step. destruct (refusePlanRootMutation _ _) as [[]|e] eqn:Hplan; [|by apply H0].
  always_step. eapply always_mono with (Q := fun _ t => t = []).
  { unfold active_worker, recordOr404. by repeat always_step. }
  cbv beta. intros [worker|e] t ->; [|by apply H0].
  do 2 always_step. destruct r as [uuid|e]; [|apply H0; by repeat constructor].
  do 2 always_step. destruct r as [uuid'|e]; [|apply H0; by repeat constructor].
  eapply always_mono; [apply (write_body_always ctx worker
    (tmp_path ctx (js "write") (req_sessionID req) uuid (js ".tmp")) (worker_tmp (js "write") uuid' (js ".tmp"))
    (text_of (field payload (js "path"))) (text_of (field payload (js "content")))
    (path_json (field payload (js "path"))))|].
  cbv beta. intros out t Ht _. do 4 eexists.
  exists [EvText CRandomUUID (Ok uuid); EvText CRandomUUID (Ok uuid')], t.
  split_and!; [exact Hpay | exact Hplan | done | by repeat constructor | exact Ht].
Qed.

(** A file in the worker is replaced whole, with its mode, or not at all.
    Whatever the host and the worker answer, a writeFile that replied, or wrote
    or moved any file, passed the plan-root guard, wrote on the host nothing but
    its own temporary file and removed that file again; and its one rename
    inside the worker is the staged copy over the target, made only after the
    content with its final newline was written and copied in, the copy was
    staged beside the target, and the copy was given the target's own mode (644
    when a test showed that the target did not exist).  It replies only when
    that rename succeeded. *)
Theorem writeFile_staged ctx req w out w' t :
  writeFile ctx req w = (out, w', t) -> write_acted out t ->
  exists payload worker hostTmp workerTmp ids t',
    let path := text_of (field payload (js "path")) in
    let content := text_of (field payload (js "content")) in
    payloadOf req = Ok payload /\ refusePlanRootMutation ctx path = Ok tt /\
    t = ids ++ t' /\ Forall (fun e => call_of e = CRandomUUID) ids /\
    writes_only_tmp hostTmp t' /\ (exists r, EvUnit (CRm hostTmp) r ∈ t') /\
    (forall t1 e t2, t' = t1 ++ (e :: t2) -> is_move e = true ->
       content_staged worker hostTmp workerTmp content t1 /\ exists stageTmp m,
         call_of e = CExec worker (mv_argv path stageTmp) (opt_timeout 30000) /\
         mode_known worker path m t1 /\ ran worker (cp_argv workerTmp stageTmp) t1 /\
         ran worker (chmod_argv stageTmp m) t1) /\
    (is_ok out = true -> exists stageTmp, ran worker (mv_argv path stageTmp) t').
Proof.
  intros Hrun Hact.
  destruct (proj1 (wp_run _ _ _ _ _ _ Hrun) (writeFile_always ctx req w) Hact)
    as (payload & worker & hostTmp & workerTmp & ids & t' & H1 & H2 & H3 & H4 & H5 & H6 & H7 & H8).
  exists payload, worker, hostTmp, workerTmp, ids, t'. cbv zeta. split_and!; try done.
  - intros t1 e t2 Ht Hm. exact (each_split _ _ _ _ _ _ H6 Ht Hm).
  - intros Hok. by destruct (H8 Hok) as [_ ?].
Qed.

(** The worker has an executable [run.sh]. *)
Definition script_env : Environment :=
  mkEnv (fun c w =>
      (Ok (mkSpawn (Some 0)
        (match c with
         | CExec _ (cmd :: _) _ => if str_eqb cmd (js "stat") then js "755:regular file" ++ [10%N] else []
         | _ => []
         end) [] false false false), w))
    (on_unit quiet_env) (on_bool quiet_env) (on_text quiet_env) (on_int quiet_env) (on_names quiet_env) (on_stats quiet_env).

Definition script_req : BrokerRequestEnvelope :=
  sample_req Op.writeFile None (JObj [(js "path", JStr (js "bin/run.sh")); (js "content", JStr (js "true"))]).

Lemma writeFile_staged_witness :
  exists out w' t, writeFile (sample_ctx script_env) script_req running_world = (out, w', t) /\
    existsb is_move t = true /\
    existsb (fun e => match call_of e with
                      | CExec _ [_; m; _; _] _ => str_eqb m (js "755")
                      | _ => false end) t = true /\
    exists worker stageTmp t', ran worker (mv_argv (js "bin/run.sh") stageTmp) t' /\ t' ⊆ t.
Proof.
  destruct (writeFile (sample_ctx script_env) script_req running_world) as [[out w'] t] eqn:Hrun.
  exists out, w', t. split; [reflexivity|].
  assert (is_ok out = true) as Hok.
  { apply (f_equal (fun x => is_ok (fst (fst x)))) in Hrun. cbn [fst] in Hrun. rewrite <- Hrun. vm_compute. reflexivity. }
  pose proof (f_equal snd Hrun) as Ht. cbn [snd] in Ht.
  split; [rewrite <- Ht; vm_compute; reflexivity|]. split; [rewrite <- Ht; vm_compute; reflexivity|].
  destruct (writeFile_staged (sample_ctx script_env) script_req running_world out w' t Hrun (or_introl Hok))
    as (payload & worker & hostTmp & workerTmp & ids & t' & H1 & _ & H3 & _ & _ & _ & _ & H8).
  destruct (H8 Hok) as [stageTmp Hran]. vm_compute in H1. injection H1 as <-.
  exists worker, stageTmp, t'. split; [exact Hran|].
  rewrite H3. intros ev Hev. apply elem_of_app. right. exact Hev.
Defined.
