(* ===== verification/HostSteps.v ===== *)
(** * Host steps and result refs (broker/src/service.ts)

    What the host tools share: the canonical project root, one host git or gh
    step with its capped and redacted output, and the resolution of a session's
    result refs. *)
From Stdlib Require Import QArith.
From S2P Require Import Prelude JsVal Types State Policy Path Validation HostPaths Envelope.
From S2P Require Import RolePolicy GitOps Artifacts Queue Effects Worker Redact Results Authorization Codec FileOps.
Open Scope Z_scope.

Record HostStepResult := mkStep {
  hs_argv : list jsstr; hs_status : option Z; hs_stdout : jsstr; hs_stderr : jsstr;
  hs_stdoutTruncated : bool; hs_stderrTruncated : bool
}.

Definition step_ok (s : HostStepResult) : bool := bool_decide (hs_status s = Some 0).

Definition step_json (s : HostStepResult) : jsval :=
  JObj [(js "argv", JArr (map JStr (hs_argv s)));
        (js "status", match hs_status s with Some z => jint z | None => JNull end);
        (js "stdout", JStr (hs_stdout s)); (js "stderr", JStr (hs_stderr s));
        (js "stdoutTruncated", JBool (hs_stdoutTruncated s));
        (js "stderrTruncated", JBool (hs_stderrTruncated s))].

(** The commit a step printed, when it printed one: [stdout.trim().toLowerCase()]
    tested against forty hexadecimal digits. *)
Definition printed_commit (s : HostStepResult) : option jsstr :=
  let commit := toLowerCase (trim (hs_stdout s)) in
  if step_ok s && SHA1_RE commit then Some commit else None.

(** ** Result refs *)
Definition RESULT_READABLE_STATES : list SessionState := [RESULT_READY; RETAINED; APPLIED].

Record ResultRefPolicy := mkRefPolicy {
  rp_states : list SessionState; rp_prefix : jsstr; rp_applied : bool
}.
Definition RESULT_READ_POLICY : ResultRefPolicy := mkRefPolicy RESULT_READABLE_STATES (js "cannot read result") false.
Definition RESULT_INSTALL_POLICY : ResultRefPolicy :=
  mkRefPolicy RESULT_READABLE_STATES (js "cannot install result") false.
Definition COMMIT_POLICY : ResultRefPolicy := mkRefPolicy [APPLIED] (js "cannot commit") true.

(** Whether a record's result may be used, and the refusal. *)
Definition commit_eligible (policy : ResultRefPolicy) (record : SessionRecord) : bool :=
  rp_applied policy && bool_decide (is_Some (truthy (installedCommit record)))
  && (bool_decide (state record = RESULT_READY) || bool_decide (state record = RETAINED)).

Definition usable_result (policy : ResultRefPolicy) (record : SessionRecord) : option jsstr :=
  if bool_decide (state record ∈ rp_states policy) || commit_eligible policy record
  then truthy (Types.resultRef record) else None.

(** The name of a result in messages. *)
Definition RESULT_TEXT : jsstr := js "B" ++ [8594%N] ++ js "C result".

Definition ref_error (policy : ResultRefPolicy) (parts : list jsstr) : exn :=
  state_error (rp_prefix policy ++ js ": " ++ concat parts).

Record ResultRefs := mkRefs { rr_baseline : jsstr; rr_result : jsstr }.

(** The caller's own result. *)
Definition own_refs (policy : ResultRefPolicy) (projectID_ : jsstr) (record : SessionRecord) : res ResultRefs :=
  match usable_result policy record with
  | None => Throw (ref_error policy [if rp_applied policy then js "no applied " else js "no "; RESULT_TEXT;
                                     js " for this session"])
  | Some result =>
      _ ← throw_if (negb (bool_decide (projectID record = Some projectID_)))
            (ref_error policy [if rp_applied policy
                               then js "this session's applied result is not bound to this project"
                               else js "this session's result is not bound to this project"]);
      baseline ← baseline_ref_of record (sessionID record);
      Ok (mkRefs baseline result)
  end.

(** The result of another session, named by its id. *)
Definition named_refs (policy : ResultRefPolicy) (projectID_ sid : jsstr) (record : SessionRecord) : res ResultRefs :=
  let who := [js "sandbox session "; sid] in
  match usable_result policy record with
  | None => Throw (ref_error policy (who ++ [if rp_applied policy then js " has no applied " else js " has no ";
                                             RESULT_TEXT]))
  | Some result =>
      _ ← throw_if (negb (bool_decide (projectID record = Some projectID_)))
            (ref_error policy (who ++ [js " is not bound to this project"]));
      _ ← throw_if (negb (startsWith result (RESULT_REF_PREFIX ++ js "/")))
            (ref_error policy (who ++ [js " result ref is outside the sandbox result namespace"]));
      baseline ← baseline_ref_of record sid;
      Ok (mkRefs baseline result)
  end.

Definition resolveResultRefs (callerSessionID projectID_ : jsstr) (sandboxSessionID : jsval)
    (policy : ResultRefPolicy) : M ResultRefs :=
  match sandboxSessionID with
  | JUndef => record ← recordOr404 callerSessionID; lift (own_refs policy projectID_ record)
  | JStr sid =>
      _ ← lift (assertRefComponent sid);
      record ← recordOr404 sid;
      lift (named_refs policy projectID_ sid record)
  | _ => throw (invalid "sandboxSessionID must be a string")
  end.

Definition resolveCommitResult (callerSessionID projectID_ : jsstr) (sandboxSessionID : jsval) : M ResultRefs :=
  resolveResultRefs callerSessionID projectID_ sandboxSessionID COMMIT_POLICY.

(** [(payload.sandboxSessionID ?? req.sessionID) as string], after the above. *)
Definition result_session (callerSessionID : jsstr) (sandboxSessionID : jsval) : jsstr :=
  match sandboxSessionID with JStr sid => sid | _ => callerSessionID end.

Section steps.
  Context (ctx : OpContext).

(** The project of an approved directory and its canonical root. *)
Definition resolveCanonicalProjectRoot (projectDir : jsval) : res (jsstr * jsstr) :=
  pid ← resolveProjectID (host_realpath ctx) projectDir (projects (cfg ctx));
  match project_of ctx pid with
  | None => Throw (invalid "project is not in the trusted allowlist")
  | Some project =>
      let unresolved := invalid "project root does not resolve on the host" in
      canonicalRoot ← realpath_or (host_realpath ctx) unresolved (project_path project);
      canonicalRequested ← realpath_or (host_realpath ctx) unresolved (text_of projectDir);
      _ ← throw_if (negb (str_eqb canonicalRequested canonicalRoot))
            (invalid "host tool requires the exact approved project root");
      Ok (pid, canonicalRoot)
  end.

(** The authorization of a host operation, by the session's own record. *)
Definition authorize (operation sid : jsstr) (category : HostDispatchCategory) : M unit :=
  st ← ask w_store;
  _ ← lift (authorizeHostDispatch (readOnlyAgents (cfg ctx)) st operation sid category);
  mret tt.

Definition step_call (argv : list jsstr) (cwd : jsstr) (timeoutMs : Z) : call :=
  CGit argv (mkOpts (Some cwd) (jint timeoutMs) JUndef (Some GIT_OUTPUT_MAX_BYTES)).

Definition step_result (argv : list jsstr) (result : SpawnResult) : HostStepResult :=
  let out := capAndRedactWithFlag (stdout result) GIT_OUTPUT_MAX_BYTES in
  let err := capAndRedactWithFlag (stderr result) GIT_OUTPUT_MAX_BYTES in
  mkStep argv (status result) (cr_text out) (cr_text err)
    (outputTruncated result || cr_truncated out) (stderrTruncated result || cr_truncated err).

Definition runHostStep (argv : list jsstr) (cwd : jsstr) (timeoutMs : Z) : M HostStepResult :=
  result ← call_proc (env ctx) (step_call argv cwd timeoutMs);
  mret (step_result argv result).
End steps.
