(* ===== verification/SandboxResult.v ===== *)
(** * Sandbox results on the host (broker/src/sandbox-result.ts, service.ts)

    Reading a session's durable result without touching the working tree, and
    installing exactly its changed paths. *)
From Stdlib Require Import QArith.
From stdpp Require Import sorting.
From S2P Require Import Prelude JsVal Types State Policy Path Validation HostPaths HostArgs Envelope.
From S2P Require Import RolePolicy GitOps Artifacts Queue Effects Worker Redact Results Diff Authorization Codec FileOps HostSteps.
Open Scope Z_scope.

(** ** Argument vectors *)
Definition buildResultIdentityArgv (ref : jsstr) : list jsstr :=
  argv ["git"; "show"; "-s"; "--format=%H%x00%cI%x00%s"] ++ [ref].
Definition buildNumstatArgv (from to : jsstr) : list jsstr :=
  argv ["git"; "diff"; "--numstat"; "--no-renames"; "-z"] ++ [from; to; js "--"; js "."].
Definition buildResultPatchArgv (from to : jsstr) : list jsstr :=
  argv ["git"; "diff"] ++ [from; to; js "--"; js "."].
Definition buildResultCommitArgv (ref : jsstr) : list jsstr :=
  argv ["git"; "rev-parse"; "--verify"] ++ [ref ++ js "^{commit}"].

Definition assertResultDiffPaths (paths : list jsstr) (what : jsstr) : res unit :=
  _ ← throw_if (bool_decide (paths = [])) (invalid_ [what; js " must not be empty"]);
  for_each (fun path =>
    _ ← throw_if (str_eqb path (js "-")) (invalid_ [what; js " must be a repo-relative path"]);
    assertProjectRelativePath (JStr path) what) paths.

Definition buildResultRestoreArgv (ref : jsstr) (paths : list jsstr) : res (list jsstr) :=
  _ ← assertResultDiffPaths paths (js "result restore path");
  Ok (argv ["git"; "restore"] ++ [js "--source=" ++ ref] ++ argv ["--worktree"; "--"] ++ paths).

Definition buildResultDeleteArgv (paths : list jsstr) : res (list jsstr) :=
  _ ← assertResultDiffPaths paths (js "result deleted path");
  Ok (argv ["rm"; "-f"; "--"] ++ paths).

(** ** The plan of an install *)
Record SandboxResultInstallPlan := mkInstallPlan { restorePaths : list jsstr; deletePaths : list jsstr }.

Definition is_deleted (c : FileChange) : bool := bool_decide (fc_kind c = deleted).

(** [[...new Set(paths)].sort()] *)
Definition sorted_set (paths : list jsstr) : list jsstr := merge_sort str_le (remove_dups paths).

Definition planSandboxResultInstall (changes : list FileChange) : SandboxResultInstallPlan :=
  mkInstallPlan (sorted_set (map fc_path (List.filter (fun c => negb (is_deleted c)) changes)))
                (sorted_set (map fc_path (List.filter is_deleted changes))).

(** ** Parsers *)
Record RefIdentity := mkIdentity { ri_commit : jsstr; ri_committedAt : jsstr; ri_subject : jsstr }.

Definition parseResultIdentity (output : jsstr) : res RefIdentity :=
  let trimmed := if endsWith output [10%N] then take (length output - 1) output else output in
  match split_on 0 trimmed with
  | [((_ :: _) as commit); ((_ :: _) as at_); ((_ :: _) as subject)] => Ok (mkIdentity commit at_ subject)
  | _ => Throw (invalid "cannot parse result identity: malformed git show output")
  end.

Record NumstatEntry := mkNumstat { ns_path : jsstr; ns_added : option Z; ns_removed : option Z }.

(** A count past 2^53 rounds in the code. *)
Definition parseNumstatCount (value : jsstr) : res Z :=
  if bool_decide (value = []) || negb (forallb is_digit value)
  then Throw (invalid "cannot parse result numstat: non-numeric count") else Ok (decimal value).

(** [raw === "-" ? null : parseNumstatCount(raw)] *)
Definition numstat_count (raw : jsstr) : res (option Z) :=
  if str_eqb raw (js "-") then Ok None else n ← parseNumstatCount raw; Ok (Some n).

Definition parse_numstat_record (record : jsstr) : res NumstatEntry :=
  let malformed := Throw (invalid "cannot parse result numstat: malformed record") in
  match cut_at 9 record with
  | Some (((_ :: _) as addedRaw), rest) =>
      match cut_at 9 rest with
      | Some (((_ :: _) as removedRaw), path) =>
          _ ← throw_if (bool_decide (path = [])) (invalid "cannot parse result numstat: empty path");
          a ← numstat_count addedRaw; r ← numstat_count removedRaw;
          Ok (mkNumstat path a r)
      | _ => malformed
      end
  | _ => malformed
  end.

Definition parseNumstat (output : jsstr) : res (list NumstatEntry) :=
  if bool_decide (output = []) then Ok []
  else if negb (endsWith output [0%N]) then Throw (invalid "cannot parse result numstat: incomplete output")
  else map_res parse_numstat_record (split_on 0 (take (length output - 1) output)).

(** Two path lists with the same elements, counted, in any order. *)
Definition same_paths (a b : list jsstr) : bool := bool_decide (merge_sort str_le a = merge_sort str_le b).

(** ** Read steps *)
Section reads.
  Context (ctx : OpContext).
#[local] Abbreviation E := (env ctx).

Definition read_opts (cwd : jsstr) : SpawnOptions :=
  mkOpts (Some cwd) (jint 60000) JUndef (Some GIT_OUTPUT_MAX_BYTES).

Definition runReadStep (a : list jsstr) (cwd what : jsstr) : M jsstr :=
  result ← git ctx a (read_opts cwd);
  _ ← throw_when (timedOut result) (state_error (what ++ js ": git timed out"));
  _ ← throw_when (negb (ok_status result)) (state_error (what ++ js ": " ++ trimErr (stderr result)));
  mret (stdout result).

Definition readRefIdentity (cwd ref : jsstr) : M RefIdentity :=
  out ← runReadStep (buildResultIdentityArgv ref) cwd (js "cannot read result identity");
  lift (parseResultIdentity out).

(** Output at the cap cannot be told from a cut one. *)
Definition under_cap (out message : jsstr) : M unit :=
  throw_when (GIT_OUTPUT_MAX_BYTES <=? byteLength out) (state_error message).

Definition readChangedPaths (cwd from to : jsstr) : M (list NumstatEntry) :=
  numstatOut ← runReadStep (buildNumstatArgv from to) cwd (js "cannot read result numstat");
  _ ← under_cap numstatOut (js "cannot read result numstat: metadata exceeded the output cap");
  entries ← lift (parseNumstat numstatOut);
  pathsOut ← runReadStep (buildChangedPathsArgv from to) cwd (js "cannot read result paths");
  _ ← under_cap pathsOut (js "cannot read result paths: metadata exceeded the output cap");
  let parsed := parseNulDelimitedPaths pathsOut in
  _ ← throw_when (negb (np_complete parsed))
        (state_error (js "cannot read result paths: changed path metadata incomplete"));
  _ ← throw_when (negb (same_paths (map ns_path entries) (np_paths parsed)))
        (state_error (js "cannot read result numstat: path list disagrees with the changed-path list"));
  mret entries.

Definition readPatch (cwd from to : jsstr) : M (jsstr * bool) :=
  out ← runReadStep (buildResultPatchArgv from to) cwd (js "cannot read result patch");
  let text := capAndRedact out in
  mret (text, negb (byteLength text =? byteLength (redact out))).

Record SandboxResultComparison := mkComparison {
  sc_to : jsstr; sc_toCommit : jsstr; sc_changedPaths : list NumstatEntry; sc_patch : jsstr; sc_patchTruncated : bool
}.

Record SandboxResultReadPayload := mkReadPayload {
  sr_sessionID : jsstr; sr_refs : ResultRefs; sr_identity : RefIdentity;
  sr_changedPaths : list NumstatEntry; sr_patch : jsstr; sr_patchTruncated : bool;
  sr_comparison : option SandboxResultComparison
}.

Definition readSandboxResult (projectRoot sid : jsstr) (refs : ResultRefs) (compare : option jsstr)
    : M SandboxResultReadPayload :=
  identity ← readRefIdentity projectRoot (rr_result refs);
  changed ← readChangedPaths projectRoot (rr_baseline refs) (rr_result refs);
  patch ← readPatch projectRoot (rr_baseline refs) (rr_result refs);
  comparison ← match compare with
               | None => mret None
               | Some other =>
                   otherIdentity ← readRefIdentity projectRoot other;
                   otherPaths ← readChangedPaths projectRoot (rr_result refs) other;
                   otherPatch ← readPatch projectRoot (rr_result refs) other;
                   mret (Some (mkComparison other (ri_commit otherIdentity) otherPaths (fst otherPatch) (snd otherPatch)))
               end;
  mret (mkReadPayload sid refs identity changed (fst patch) (snd patch) comparison).
End reads.

(** ** The operations *)
Definition opt_int (n : option Z) : jsval := match n with Some z => jint z | None => JNull end.

Definition numstat_json (e : NumstatEntry) : jsval :=
  JObj [(js "path", JStr (ns_path e)); (js "added", opt_int (ns_added e)); (js "removed", opt_int (ns_removed e))].

Definition ref_json (ref : jsstr) (more : list (jsstr * jsval)) : jsval := JObj ((js "ref", JStr ref) :: more).

Definition comparison_json (refs : ResultRefs) (identity : RefIdentity) (c : SandboxResultComparison) : jsval :=
  JObj [(js "from", ref_json (rr_result refs) [(js "commit", JStr (ri_commit identity))]);
        (js "to", ref_json (sc_to c) [(js "commit", JStr (sc_toCommit c))]);
        (js "changedPaths", JArr (map numstat_json (sc_changedPaths c)));
        (js "patch", JStr (sc_patch c)); (js "patchTruncated", JBool (sc_patchTruncated c))].

Definition read_fields (r : SandboxResultReadPayload) (patchTruncated : bool) : list (jsstr * jsval) :=
  [(js "mode", JStr (match sr_comparison r with None => js "result" | Some _ => js "compare" end));
   (js "sessionID", JStr (sr_sessionID r));
   (js "result", ref_json (rr_result (sr_refs r))
      [(js "commit", JStr (ri_commit (sr_identity r))); (js "committedAt", JStr (ri_committedAt (sr_identity r)));
       (js "subject", JStr (ri_subject (sr_identity r)))]);
   (js "baseline", ref_json (rr_baseline (sr_refs r)) []);
   (js "changedPaths", JArr (map numstat_json (sr_changedPaths r)));
   (js "patch", JStr (sr_patch r)); (js "patchTruncated", JBool patchTruncated);
   (js "comparison", match sr_comparison r with
                     | None => JNull
                     | Some c => comparison_json (sr_refs r) (sr_identity r) c
                     end)].

Definition authored_lines (entries : list NumstatEntry) : Z :=
  fold_left (fun total e => total + default 0 (ns_added e) + default 0 (ns_removed e)) entries 0.

(** Ids of the advisor projects, longest first. *)
Definition longer_first (a b : jsstr) : Prop := (length b <= length a)%nat.
#[export] Instance longer_first_dec : RelDecision longer_first := fun a b => le_dec (length b) (length a).

Definition advisor_project (ids : list jsstr) (sid : jsstr) : option jsstr :=
  let prefix id := js "advisor-" ++ id ++ js "-" in
  List.find (fun id => let nonce := drop (length (prefix id)) sid in
                       (length nonce =? 16)%nat && forallb is_hex_lower nonce)
    (merge_sort longer_first (List.filter (fun id => startsWith sid (prefix id)) ids)).

Section ops.
  Context (ctx : OpContext).
#[local] Abbreviation E := (env ctx).

Definition sandboxResult (req : BrokerRequestEnvelope) : M jsval :=
  payload ← lift (payloadOf req);
  _ ← authorize ctx (js "sandboxResult") (req_sessionID req) orchestrator;
  root ← lift (resolveCanonicalProjectRoot ctx (field payload (js "projectDir")));
  let '(pid, projectRoot) := root in
  refs ← resolveResultRefs (req_sessionID req) pid (field payload (js "sandboxSessionID")) RESULT_READ_POLICY;
  comparison ← (if is_undef (field payload (js "compareSandboxSessionID")) then mret None
                else other ← resolveResultRefs (req_sessionID req) pid
                       (field payload (js "compareSandboxSessionID")) RESULT_READ_POLICY;
                     mret (Some (rr_result other)));
  let sid := result_session (req_sessionID req) (field payload (js "sandboxSessionID")) in
  readResult ← readSandboxResult ctx projectRoot sid refs comparison;
  completePatch ← git ctx (buildResultPatchArgv (rr_baseline refs) (rr_result refs)) (read_opts projectRoot);
  let patchComplete := ok_status completePatch && negb (outputTruncated completePatch) in
  files ← (if patchComplete
           then try_catch (f ← ensureCompleteApplyPreview ctx sid (stdout completePatch); mret (Some f)) (fun _ => mret None)
           else mret None);
  mret (JObj (read_fields readResult (sr_patchTruncated readResult || outputTruncated completePatch)
    ++ (if patchComplete then [(js "patchBytes", jint (byteLength (stdout completePatch)))] else [])
    ++ [(js "rawPatchTruncated", JBool (negb patchComplete));
        (js "authoredChangedLines", jint (authored_lines (sr_changedPaths readResult)))]
    ++ (match files with Some f => [(js "applyPreviewFiles", preview_files_json f)] | None => [] end))).

(** One read of resultDiff. *)
Definition diff_git (cwd : jsstr) (a : list jsstr) (what : string) : M jsstr :=
  result ← git ctx a (read_opts cwd);
  _ ← throw_when (timedOut result || negb (ok_status result))
        (state_error (js what ++ js ": " ++ trimErr (stderr result)));
  mret (stdout result).

Definition diff_commit (cwd ref : jsstr) (what : string) : M jsstr :=
  out ← diff_git cwd (buildResultCommitArgv ref) what;
  _ ← throw_when (negb (SHA1_RE (trim out))) (state_error (js what ++ js ": malformed commit identity"));
  mret (trim out).

Definition resultDiff (req : BrokerRequestEnvelope) : M jsval :=
  payload ← lift (payloadOf req);
  selection ← lift (snapshotFromPayload (JObj [(js "resultRef", field payload (js "ref"))]));
  match selection with
  | SelResultRef ref =>
      match advisor_project (advisorProjects (cfg ctx)) (req_sessionID req) with
      | None => throw (policy_error (js "resultDiff is available only to a registered advisor session"))
      | Some pid =>
          match project_of ctx pid with
          | None => throw (state_error (js "advisor project is not registered"))
          | Some project =>
              let sid := drop (length RESULT_REF_PREFIX + 1) ref in
              record ← recordOr404 sid;
              _ ← throw_when (negb (bool_decide (state record ∈ RESULT_READABLE_STATES))
                              || negb (bool_decide (Types.resultRef record = Some ref)))
                    (state_error (js "cannot read result: sandbox session " ++ sid ++ js " has no resolvable " ++ RESULT_TEXT));
              _ ← throw_when (negb (bool_decide (projectID record = Some pid)))
                    (state_error (js "cannot read result: sandbox session " ++ sid ++ js " is not bound to this project"));
              baseline ← lift (baseline_ref_of record sid);
              let cwd := project_path project in
              commit ← diff_commit cwd ref "cannot resolve result ref";
              _ ← diff_commit cwd baseline "cannot resolve result baseline";
              rawDiff ← diff_git cwd (buildResultPatchArgv baseline ref) "cannot read result diff";
              _ ← under_cap rawDiff (js "cannot read result diff: output reached the git output cap");
              let p := buildApplyPreview rawDiff in
              mret (JObj [(js "ref", JStr ref); (js "baseline", JStr baseline); (js "result", JStr ref);
                          (js "commit", JStr commit); (js "diff", JStr (preview p));
                          (js "truncated", JBool (previewTruncated p)); (js "totalLines", jint (totalLines p));
                          (js "truncation", JObj [(js "helper", JStr (js "buildApplyPreview"));
                                                  (js "maxLines", jint APPLY_PREVIEW_MAX_LINES);
                                                  (js "maxBytes", jint GIT_OUTPUT_MAX_BYTES)])])
          end
      end
  | _ => throw (invalid "ref must be a sandbox result ref")
  end.

(** ** Install *)
Definition install_error (parts : list jsstr) : exn := state_error (js "cannot install result: " ++ concat parts).

(** Node names a missing file in the message of its error. *)
Definition is_enoent (e : exn) : bool := startsWith (exn_msg e) (js "ENOENT").

(** A target of a deletion is a regular file, or absent, in a directory whose
    real path is inside the project. *)
Definition delete_target_contained (projectRoot path : jsstr) : M unit :=
  let target := resolve2 projectRoot path in
  parentRealPath ← try_catch (call_text E (CRealpath (dirname target)))
    (fun _ => throw (install_error [js "result-delete-parent-unavailable: cannot resolve parent for "; path]));
  _ ← throw_when (negb (isWithin projectRoot parentRealPath))
        (install_error [js "result-delete-parent-escape: resolved parent for "; path; js " is outside the project"]);
  st ← try_catch (s ← call_stats E (CLstat target); mret (Some s))
    (fun e => if is_enoent e then mret None
              else throw (install_error [js "result-delete-target-unavailable: cannot inspect "; path]));
  match st with
  | Some s => throw_when (negb (isFile s)) (install_error [js "result-delete-not-regular-file: "; path])
  | None => mret tt
  end.

Definition assertResultDeleteTargetsContained (projectRoot : jsstr) (paths : list jsstr) : M unit :=
  for_eachM (delete_target_contained projectRoot) paths.

(** The raw changes agree with the path list and hold no link or submodule. *)
Definition safe_changes (changed : list jsstr) (rawChanges : list FileChange) : res unit :=
  _ ← throw_if (negb (same_paths (map fc_path rawChanges) changed))
        (install_error [js "raw metadata disagrees with the changed-path list"]);
  throw_if (existsb unsafe_change rawChanges)
    (install_error [js "unsafe symlink/submodule changes: "; list_text (map change_text (List.filter unsafe_change rawChanges))]).

Definition quiet_diff_argv (ref : jsstr) (paths : list jsstr) : list jsstr :=
  argv ["git"; "diff"; "--quiet"] ++ [ref; js "--"] ++ paths.

(** The targets in the working tree are those of the baseline. *)
Definition baseline_unchanged (projectRoot baseline : jsstr) (targetPaths : list jsstr) : M unit :=
  check ← runHostStep ctx (quiet_diff_argv baseline targetPaths) projectRoot 120000;
  if bool_decide (hs_status check = Some 1) then
    divergent ← runHostStep ctx (argv ["git"; "diff"; "--name-only"; "-z"] ++ [baseline; js "--"] ++ targetPaths) projectRoot 120000;
    _ ← throw_when (negb (step_ok divergent))
          (install_error [js "cannot identify baseline divergence ("; trimErr (hs_stderr divergent); js ")"]);
    let parsed := parseNulDelimitedPaths (hs_stdout divergent) in
    _ ← throw_when (negb (np_complete parsed) || bool_decide (np_paths parsed = []))
          (install_error [js "cannot identify baseline divergence"]);
    throw (install_error [js "working tree diverged from baseline at: "; list_text (np_paths parsed)])
  else throw_when (negb (step_ok check)) (install_error [js "baseline check failed ("; trimErr (hs_stderr check); js ")"]).

(** A host step that must succeed, if it has paths to work on. *)
Definition install_step (build : res (list jsstr)) (projectRoot : jsstr) (what : string) : M HostStepResult :=
  a ← lift build;
  step ← runHostStep ctx a projectRoot 120000;
  _ ← throw_when (negb (step_ok step))
        (msb_error (js "cannot install result: " ++ js what ++ js " failed (" ++ trimErr (hs_stderr step) ++ js ")"));
  mret step.

Definition write_result (projectRoot result : jsstr) (plan : SandboxResultInstallPlan) : M (list HostStepResult) :=
  restored ← (if bool_decide (restorePaths plan = []) then mret []
              else s ← install_step (buildResultRestoreArgv result (restorePaths plan)) projectRoot "git restore"; mret [s]);
  deleted_ ← (if bool_decide (deletePaths plan = []) then mret []
              else s ← install_step (buildResultDeleteArgv (deletePaths plan)) projectRoot "deleting removed paths"; mret [s]);
  mret (restored ++ deleted_).

(** The result that is to be installed: its commit and its changed paths. *)
Definition inspect_install (projectRoot pid expected : jsstr) (refs : ResultRefs) : M (jsstr * list jsstr) :=
  resolved ← runHostStep ctx (buildResultCommitArgv (rr_result refs)) projectRoot 60000;
  _ ← throw_when (negb (step_ok resolved))
        (install_error [js "cannot resolve the result ref commit ("; trimErr (hs_stderr resolved); js ")"]);
  let resultCommit := toLowerCase (trim (hs_stdout resolved)) in
  _ ← throw_when (negb (str_eqb resultCommit expected))
        (install_error [js "the result ref moved since the preview (result-commit-mismatch): expectedResultCommit ";
                        expected; js ", resolved "; resultCommit]);
  changed ← changedPathsBetween ctx pid (rr_baseline refs) (rr_result refs);
  _ ← throw_when (bool_decide (changed = [])) (install_error [js "the "; RESULT_TEXT; js " is empty"]);
  let rejected := checkProtectedPaths changed (planRootPatterns (cfg ctx)) in
  _ ← throw_when (negb (bool_decide (rejected = [])))
        (install_error [js "result touches protected paths: "; list_text rejected]);
  mret (resultCommit, changed).

(** The installation proper, checked and recorded. *)
Definition install_changes (projectRoot pid sid expected : jsstr) (refs : ResultRefs) (changed : list jsstr)
    : M (SandboxResultInstallPlan * list HostStepResult) :=
  rawChanges ← rawChangesBetween ctx pid (rr_baseline refs) (rr_result refs);
  _ ← lift (safe_changes changed rawChanges);
  let plan := planSandboxResultInstall rawChanges in
  _ ← assertResultDeleteTargetsContained projectRoot (deletePaths plan);
  let targetPaths := sorted_set (restorePaths plan ++ deletePaths plan) in
  _ ← (if bool_decide (targetPaths = []) then mret tt else baseline_unchanged projectRoot (rr_baseline refs) targetPaths);
  steps ← write_result projectRoot (rr_result refs) plan;
  _ ← store_touch sid [P_installedCommit (Some expected)] None;
  mret (plan, steps).

Definition installed_json (already : bool) (result resultCommit : jsstr) (more : list (jsstr * jsval)) : jsval :=
  JObj ([(js "installed", JBool true); (js "alreadyInstalled", JBool already);
         (js "resultRef", JStr result); (js "resultCommit", JStr resultCommit)] ++ more).

Definition sandboxResultInstall (req : BrokerRequestEnvelope) : M jsval :=
  payload ← lift (payloadOf req);
  _ ← authorize ctx (js "sandboxResultInstall") (req_sessionID req) orchestrator;
  _ ← lift (assertExpectedResultCommit (field payload (js "expectedResultCommit")));
  let expected := text_of (field payload (js "expectedResultCommit")) in
  root ← lift (resolveCanonicalProjectRoot ctx (field payload (js "projectDir")));
  let '(pid, projectRoot) := root in
  refs ← resolveResultRefs (req_sessionID req) pid (field payload (js "sandboxSessionID")) RESULT_INSTALL_POLICY;
  let sid := result_session (req_sessionID req) (field payload (js "sandboxSessionID")) in
  resultRecord ← recordOr404 sid;
  _ ← throw_when (match installedCommit resultRecord with Some c => negb (str_eqb c expected) | None => false end)
        (install_error [js "stored installed commit does not match the requested result commit"]);
  inspected ← inspect_install projectRoot pid expected refs;
  let '(resultCommit, changed) := inspected in
  match installedCommit resultRecord with
  | Some _ =>
      proof ← runHostStep ctx (quiet_diff_argv (rr_result refs) changed) projectRoot 120000;
      _ ← throw_when (negb (step_ok proof))
            (install_error [js "stored installed marker is stale; worktree does not match the result ref"]);
      mret (installed_json true (rr_result refs) resultCommit [])
  | None =>
      done_ ← install_changes projectRoot pid sid expected refs changed;
      let '(plan, steps) := done_ in
      mret (installed_json false (rr_result refs) resultCommit
        [(js "paths", paths_json changed); (js "restoredPaths", paths_json (restorePaths plan));
         (js "deletedPaths", paths_json (deletePaths plan)); (js "steps", JArr (map step_json steps))])
  end.
End ops.
