(* ===== verification/SandboxResultFacts.v ===== *)
(** * Facts about sandbox results

    The numstat round trip, the plan of an install, and the checks that stand
    before every write of an install. *)
From Stdlib Require Import QArith.
From stdpp Require Import sorting.
From S2P Require Import Prelude JsVal Types State Policy Path Validation HostPaths HostArgs Envelope.
From S2P Require Import RolePolicy GitOps Artifacts Queue Effects Worker WorkerFacts Redact Results Diff ResultFacts.
From S2P Require Import Authorization Codec FileOps TraceLogic FileOpsFacts HostSteps SandboxResult.
Open Scope Z_scope.

(** ** Numstat *)

(** What [git diff --numstat -z] prints of a file. *)
Definition count_text (n : option Z) : jsstr := match n with Some z => dec z | None => js "-" end.
Definition numstat_record (e : NumstatEntry) : jsstr :=
  count_text (ns_added e) ++ [9%N] ++ count_text (ns_removed e) ++ [9%N] ++ ns_path e.
Definition numstat_output (es : list NumstatEntry) : jsstr := concat (map (fun e => numstat_record e ++ [0%N]) es).

Definition printable_entry (e : NumstatEntry) : Prop :=
  ns_path e <> [] /\ 0%N ∉ ns_path e /\
  match ns_added e with Some z => 0 <= z | None => True end /\
  match ns_removed e with Some z => 0 <= z | None => True end.

Lemma digits_no c s : is_digit c = false -> forallb is_digit s = true -> c ∉ s.
Proof. intros Hc H Hin%list_elem_of_In. rewrite forallb_forall in H. rewrite (H c Hin) in Hc. discriminate. Qed.

(** A count text holds no tab or NUL and reads back. *)
Lemma count_text_read n :
  match n with Some z => 0 <= z | None => True end ->
  9%N ∉ count_text n /\ 0%N ∉ count_text n /\ (exists c r, count_text n = c :: r) /\ numstat_count (count_text n) = Ok n.
Proof.
  destruct n as [z|]; intros H.
  - destruct (dec_digits z H) as (Hd & Hall & Hne). cbn [count_text].
    split_and!; [by apply digits_no | by apply digits_no | destruct (dec z); [done | eauto] |].
    unfold numstat_count. assert (str_eqb (dec z) (js "-") = false) as ->.
    { apply str_eqb_neq. intros E. rewrite E in Hall. discriminate. }
    unfold parseNumstatCount. rewrite Hall, bool_decide_eq_false_2 by done. cbn [orb negb mbind res_bind]. by rewrite Hd.
  - split_and!; [apply (bool_decide_eq_false_1 _); reflexivity | apply (bool_decide_eq_false_1 _); reflexivity | by eexists _, _ | reflexivity].
Qed.

Lemma numstat_record_read e : printable_entry e -> parse_numstat_record (numstat_record e) = Ok e.
Proof.
  intros (Hne & _ & Ha & Hr). destruct (count_text_read _ Ha) as (Ha1 & _ & (ca & ra & Ea) & Ea').
  destruct (count_text_read _ Hr) as (Hr1 & _ & (cr & rr & Er) & Er').
  unfold parse_numstat_record, numstat_record. cbn [app]. rewrite (cut_at_exact 9 (count_text (ns_added e))) by done.
  rewrite Ea in Ea' |- *. rewrite (cut_at_exact 9 (count_text (ns_removed e))) by done. rewrite Er in Er' |- *.
  rewrite bool_decide_eq_false_2 by done. cbn [throw_if mbind res_bind]. rewrite Ea', Er'. cbn [mbind res_bind].
  by destruct e.
Qed.

Lemma numstat_record_no_nul e : printable_entry e -> 0%N ∉ numstat_record e.
Proof.
  intros (_ & Hp & Ha & Hr). destruct (count_text_read _ Ha) as (_ & Ha1 & _), (count_text_read _ Hr) as (_ & Hr1 & _).
  unfold numstat_record. repeat first [rewrite not_elem_of_app | rewrite not_elem_of_cons].
  split_and!; try done; apply not_elem_of_nil.
Qed.

(** The per-file counts git prints are read back exactly: for files with
    any names (tabs, newlines and leading dashes included, NUL excepted) and any
    counts or binary markers, parsing the NUL-terminated output gives the
    entries in order; an output cut short anywhere inside its last record is
    refused. *)
Theorem numstat_roundtrip es :
  Forall printable_entry es ->
  parseNumstat (numstat_output es) = Ok es /\
  (forall cut rest, numstat_output es = cut ++ rest -> cut <> [] -> endsWith cut [0%N] = false ->
     exists e, parseNumstat cut = Throw e).
Proof.
  intros H. split.
  - unfold parseNumstat. destruct es as [|e es]; [done|].
    assert (Forall (fun r => 0%N ∉ r) (map numstat_record (e :: es))) as Hnul.
    { apply Forall_fmap. eapply Forall_impl; [exact H|]. apply numstat_record_no_nul. }
    assert (numstat_output (e :: es) = join_with [0%N] (map numstat_record (e :: es)) ++ [0%N]) as ->.
    { cbn [map]. rewrite <- nul_output_join. unfold numstat_output, nul_output. cbn [map]. by rewrite map_map. }
    rewrite bool_decide_eq_false_2 by (intros E; apply (f_equal (@length N)) in E; rewrite length_app in E; cbn in E; lia).
    assert (endsWith (join_with [0%N] (map numstat_record (e :: es)) ++ [0%N]) [0%N] = true) as ->.
    { apply endsWith_last. eauto. }
    cbn [negb]. rewrite length_app. cbn [length]. rewrite Nat.add_sub, take_app_length.
    cbn [map] in *. rewrite split_on_join by done. apply map_res_Ok.
    change (numstat_record e :: map numstat_record es) with (map numstat_record (e :: es)).
    clear Hnul. induction H as [|x xs Hx _ IH]; constructor; [by apply numstat_record_read | done].
  - intros cut rest _ Hne Hend. unfold parseNumstat. rewrite bool_decide_eq_false_2, Hend by done. by eexists.
Qed.

Lemma numstat_roundtrip_witness :
  parseNumstat (numstat_output [mkNumstat (js "a b.ts") (Some 12) (Some 0); mkNumstat (js "-x" ++ [9%N]) None None])
  = Ok [mkNumstat (js "a b.ts") (Some 12) (Some 0); mkNumstat (js "-x" ++ [9%N]) None None].
Proof.
  apply numstat_roundtrip. repeat constructor; cbn; try done; apply (bool_decide_eq_false_1 _); vm_compute; reflexivity.
Defined.

(** ** The plan of an install *)
Lemma sorted_set_elem p ps : p ∈ sorted_set ps <-> p ∈ ps.
Proof. unfold sorted_set. by rewrite merge_sort_Permutation, elem_of_remove_dups. Qed.

Lemma sorted_set_spec ps : NoDup (sorted_set ps) /\ Sorted str_le (sorted_set ps).
Proof.
  unfold sorted_set. split; [|apply Sorted_merge_sort, _].
  rewrite merge_sort_Permutation. apply NoDup_remove_dups.
Qed.

(** ** What stands before a write *)

(** A call that writes the project's working tree. *)
Definition writes_tree (e : event) : Prop :=
  exists a opts, call_of e = CGit a opts /\ (take 2 a = argv ["git"; "restore"] \/ take 1 a = argv ["rm"]).

Section install.
  Context (ctx : OpContext) (root pid sid expected : jsstr) (project : Project) (refs : ResultRefs).
  Hypothesis Hproject : project_of ctx pid = Some project.

(** The result ref named the approved commit. *)
Definition commit_checked (t : list event) : Prop :=
  exists r, EvProc (step_call (buildResultCommitArgv (rr_result refs)) root 60000) (Ok r) ∈ t /\ status r = Some 0 /\
    toLowerCase (trim (cr_text (capAndRedactWithFlag (stdout r) GIT_OUTPUT_MAX_BYTES))) = expected.

(** The changed paths were read whole, are some, and none is a plan path. *)
Definition paths_checked (changed : list jsstr) (t : list event) : Prop :=
  changed <> [] /\
  (exists ch, EvProc (changed_paths_call project (rr_baseline refs) (rr_result refs)) (Ok ch) ∈ t /\ ok_status ch = true /\
     np_complete (parseNulDelimitedPaths (stdout ch)) = true /\ np_paths (parseNulDelimitedPaths (stdout ch)) = changed) /\
  forall p pat, p ∈ changed -> pat ∈ planRootPatterns (cfg ctx) -> globMatch pat p = false.

(** Every change was classified, names a changed path, and is neither a symlink
    nor a submodule. *)
Definition changes_checked (changed : list jsstr) (changes : list FileChange) (t : list event) : Prop :=
  (exists rw, EvProc (raw_diff_call project (rr_baseline refs) (rr_result refs)) (Ok rw) ∈ t /\ ok_status rw = true /\
     parse_raw_diff (stdout rw) = Some changes) /\
  (forall p, p ∈ map fc_path changes <-> p ∈ changed) /\ Forall (fun c => unsafe_change c = false) changes.

(** A path to delete is a regular file, or absent, below the real project root. *)
Definition deletion_checked (t : list event) (path : jsstr) : Prop :=
  (exists real, EvText (CRealpath (dirname (resolve2 root path))) (Ok real) ∈ t /\ isWithin root real = true) /\
  ((exists s, EvStats (CLstat (resolve2 root path)) (Ok s) ∈ t /\ isFile s = true) \/
   (exists e, EvStats (CLstat (resolve2 root path)) (Throw e) ∈ t /\ is_enoent e = true)).

(** The paths to be written are those of the baseline. *)
Definition baseline_checked (targets : list jsstr) (t : list event) : Prop :=
  exists r, EvProc (step_call (quiet_diff_argv (rr_baseline refs) targets) root 120000) (Ok r) ∈ t /\ status r = Some 0.

Definition ready (changed : list jsstr) (changes : list FileChange) (t : list event) : Prop :=
  let plan := planSandboxResultInstall changes in
  commit_checked t /\ paths_checked changed t /\ changes_checked changed changes t /\
  Forall (deletion_checked t) (deletePaths plan) /\
  baseline_checked (sorted_set (restorePaths plan ++ deletePaths plan)) t.

(** What a write may be. *)
Definition install_rule (pre : list event) (e : event) : Prop :=
  writes_tree e -> exists changed changes, ready changed changes pre /\
    let plan := planSandboxResultInstall changes in
    (call_of e = step_call (argv ["git"; "restore"] ++ [js "--source=" ++ rr_result refs] ++ argv ["--worktree"; "--"]
                             ++ restorePaths plan) root 120000 \/
     call_of e = step_call (argv ["rm"; "-f"; "--"] ++ deletePaths plan) root 120000).

Lemma still e pre : (forall a opts, call_of e <> CGit a opts) -> install_rule pre e.
Proof. intros H (a & opts & Hc & _). by destruct (H a opts). Qed.

Lemma still_git e pre a opts : call_of e = CGit a opts ->
  take 2 a <> argv ["git"; "restore"] -> take 1 a <> argv ["rm"] -> install_rule pre e.
Proof. intros Hc H1 H2 (a' & opts' & Hc' & Hor). rewrite Hc in Hc'. injection Hc' as <- <-. by destruct Hor. Qed.

Ltac no_write := intros; first [by apply still | eapply still_git; [reflexivity | by vm_compute | by vm_compute]].

Ltac in_trace_list := rewrite ?elem_of_app, ?list_elem_of_singleton; tauto.

(** The facts a longer trace still shows. *)
Lemma commit_checked_app t t' : commit_checked t -> commit_checked (t ++ t').
Proof. intros (r & H & ?). exists r. split; [in_trace_list | done]. Qed.
Lemma paths_checked_app c t t' : paths_checked c t -> paths_checked c (t ++ t').
Proof. intros (H0 & (r & H & ?) & ?). split; [done|]. split; [|done]. exists r. split; [in_trace_list | done]. Qed.
Lemma changes_checked_app c cs t t' : changes_checked c cs t -> changes_checked c cs (t ++ t').
Proof. intros ((r & H & ?) & ?). split; [|done]. exists r. split; [in_trace_list | done]. Qed.
Lemma deletion_checked_app t t' p : deletion_checked t p -> deletion_checked (t ++ t') p.
Proof.
  intros [(x & H1 & H2) [(s & H3 & H4)|(s & H3 & H4)]]; (split; [exists x; split; [in_trace_list | done]|]);
    [left | right]; exists s; (split; [in_trace_list | done]).
Qed.
Lemma baseline_checked_app ts t t' : baseline_checked ts t -> baseline_checked ts (t ++ t').
Proof. intros (r & H & ?). exists r. split; [in_trace_list | done]. Qed.
Lemma ready_app c cs t t' : ready c cs t -> ready c cs (t ++ t').
Proof.
  intros (H1 & H2 & H3 & H4 & H5). split_and!; [by apply commit_checked_app | by apply paths_checked_app
    | by apply changes_checked_app | | by apply baseline_checked_app].
  eapply Forall_impl; [exact H4|]. intros p. apply deletion_checked_app.
Qed.

Lemma same_paths_elem a b : same_paths a b = true -> forall p, p ∈ a <-> p ∈ b.
Proof.
  intros H%bool_decide_eq_true p. rewrite <- (merge_sort_Permutation str_le a), <- (merge_sort_Permutation str_le b).
  by rewrite H.
Qed.

Lemma safe_changes_Ok changed changes u : safe_changes changed changes = Ok u ->
  (forall p, p ∈ map fc_path changes <-> p ∈ changed) /\ Forall (fun c => unsafe_change c = false) changes.
Proof.
  unfold safe_changes. rewrite res_seq_Ok, !throw_if_Ok, negb_false_iff. intros [H1 H2].
  split; [by apply same_paths_elem | by apply existsb_false_Forall].
Qed.

Lemma sorted_set_nil ps : sorted_set ps = [] -> ps = [].
Proof.
  intros H. destruct ps as [|p ps]; [done|]. assert (p ∈ sorted_set (p :: ps)) as Hp by (apply sorted_set_elem; by left).
  rewrite H in Hp. by apply not_elem_of_nil in Hp.
Qed.

(** The traced parts of an install, each with what it adds to the trace. *)
#[local] Abbreviation T := (traced install_rule).

Lemma inspect_install_traced pre (Q : res (jsstr * list jsstr) -> list event -> Prop) :
  (forall e tr, Q (Throw e) tr) ->
  (forall c changed tr, commit_checked tr -> paths_checked changed tr -> Q (Ok (c, changed)) tr) ->
  T pre (inspect_install ctx root pid expected refs) Q.
Proof using Hproject.
  intros HT HO. unfold inspect_install, runHostStep, changedPathsBetween, must. rewrite Hproject.
  repeat (traced_step; try apply HT; try no_write).
  repeat match goal with H : negb _ = false |- _ => apply negb_false_iff in H end.
  apply HO.
  - eexists. split; [in_trace_list|]. split; [by eapply bool_decide_eq_true_1 | by apply str_eqb_eq].
  - split; [by eapply bool_decide_eq_false_1|]. split; [eexists; split; [in_trace_list | done]|].
    apply checkProtectedPaths_nil. by eapply bool_decide_eq_true_1.
Qed.

Lemma delete_target_traced pre path (Q : res unit -> list event -> Prop) :
  (forall e tr, Q (Throw e) tr) ->
  (forall t', deletion_checked (pre ++ t') path -> Q (Ok tt) (pre ++ t')) ->
  T pre (delete_target_contained ctx root path) Q.
Proof using Type.
  intros HT HO. unfold delete_target_contained.
  repeat (traced_step; try apply HT; try no_write);
    repeat match goal with H : negb _ = false |- _ => apply negb_false_iff in H end;
    try match goal with H : _ = Ok _ |- _ => rewrite H end; rewrite <- ?app_assoc; cbn [app]; simplify_eq.
  - apply HO. split; [exists a; split; [in_list | done]|]. left. exists a0. split; [in_list | done].
  - apply HO. split; [exists a; split; [in_list | done]|]. right. exists e. split; [in_list | done].
Qed.

Lemma deletions_traced pre paths (Q : res unit -> list event -> Prop) :
  (forall e tr, Q (Throw e) tr) ->
  (forall t', Forall (deletion_checked (pre ++ t')) paths -> Q (Ok tt) (pre ++ t')) ->
  T pre (assertResultDeleteTargetsContained ctx root paths) Q.
Proof using Type.
  intros HT. unfold assertResultDeleteTargetsContained. revert pre. induction paths as [|p paths IH]; intros pre HO; cbn [for_eachM].
  - apply traced_ret. rewrite <- (app_nil_r pre). by apply HO.
  - apply traced_bind, delete_target_traced; [intros; apply HT|]. intros t' Hp. apply IH. intros t'' Hps.
    rewrite <- app_assoc. apply HO. constructor.
    + rewrite app_assoc. by apply deletion_checked_app.
    + by rewrite app_assoc.
Qed.

Lemma baseline_traced pre targets (Q : res unit -> list event -> Prop) :
  (forall e tr, Q (Throw e) tr) ->
  (forall t', baseline_checked targets (pre ++ t') -> Q (Ok tt) (pre ++ t')) ->
  T pre (baseline_unchanged ctx root (rr_baseline refs) targets) Q.
Proof using Type.
  intros HT HO. unfold baseline_unchanged, runHostStep.
  repeat (traced_step; try apply HT; try no_write). apply HO. eexists. split; [in_list|].
  by eapply bool_decide_eq_true_1, negb_false_iff.
Qed.

Lemma write_traced pre changed changes (Q : res (list HostStepResult) -> list event -> Prop) :
  ready changed changes pre -> (forall r tr, Q r tr) ->
  T pre (write_result ctx root (rr_result refs) (planSandboxResultInstall changes)) Q.
Proof using Type.
  intros Hr HQ. set (plan := planSandboxResultInstall changes). unfold write_result, install_step, runHostStep.
  assert (forall t' e, (call_of e = step_call (argv ["git"; "restore"] ++ [js "--source=" ++ rr_result refs]
                          ++ argv ["--worktree"; "--"] ++ restorePaths plan) root 120000 \/
                        call_of e = step_call (argv ["rm"; "-f"; "--"] ++ deletePaths plan) root 120000) ->
    install_rule (pre ++ t') e) as Hok.
  { intros t' e Hc _. exists changed, changes. split; [by apply ready_app | exact Hc]. }
  assert (forall ps a, buildResultRestoreArgv (rr_result refs) ps = Ok a ->
    a = argv ["git"; "restore"] ++ [js "--source=" ++ rr_result refs] ++ argv ["--worktree"; "--"] ++ ps) as H1.
  { intros ps a. unfold buildResultRestoreArgv. rewrite res_bind_Ok. by intros (? & _ & [= <-]). }
  assert (forall ps a, buildResultDeleteArgv ps = Ok a -> a = argv ["rm"; "-f"; "--"] ++ ps) as H2.
  { intros ps a. unfold buildResultDeleteArgv. rewrite res_bind_Ok. by intros (? & _ & [= <-]). }
  repeat (traced_step; try apply HQ).
  all: repeat match goal with H : buildResultRestoreArgv _ _ = Ok _ |- _ => apply H1 in H
              | H : buildResultDeleteArgv _ = Ok _ |- _ => apply H2 in H end; subst.
  all: try (rewrite <- (app_nil_r pre); apply Hok; by auto).
  all: rewrite <- ?app_assoc; apply Hok; by auto.
Qed.

Lemma install_changes_traced pre changed (Q : res (SandboxResultInstallPlan * list HostStepResult) -> list event -> Prop) :
  commit_checked pre -> paths_checked changed pre -> (forall r tr, Q r tr) ->
  T pre (install_changes ctx root pid sid expected refs changed) Q.
Proof using Hproject.
  intros Hc Hp HQ. unfold install_changes, rawChangesBetween, must. rewrite Hproject.
  repeat (lazymatch goal with |- traced _ _ (assertResultDeleteTargetsContained _ _ _) _ => fail | _ => traced_step end;
    try apply HQ; try no_write).
  apply negb_false_iff in H. destruct a0. apply safe_changes_Ok in Heqr1 as [Hsame Hsafe].
  set (plan := planSandboxResultInstall l). set (ev := EvProc (raw_diff_call _ _ _) (Ok a)).
  assert (forall t', commit_checked ((pre ++ [ev]) ++ t') /\ paths_checked changed ((pre ++ [ev]) ++ t') /\
    changes_checked changed l ((pre ++ [ev]) ++ t')) as Hall.
  { intros t'. rewrite <- app_assoc. split_and!; [by apply commit_checked_app | by apply paths_checked_app |].
    split; [|done]. exists a. split; [|done]. subst ev. rewrite ?elem_of_app, ?list_elem_of_singleton. by auto. }
  apply deletions_traced; [intros; apply HQ|]. intros t' Hdel.
  apply traced_bind. case_bool_decide as Ht.
  - apply traced_ret. apply sorted_set_nil, app_eq_nil in Ht as [Hr Hd]. unfold write_result.
    rewrite !bool_decide_eq_true_2 by done. repeat (traced_step; try apply HQ).
  - apply baseline_traced; [intros; apply HQ|]. intros t'' Hb. apply traced_bind, (write_traced _ changed l).
    + destruct (Hall (t' ++ t'')) as (H1 & H2 & H3). rewrite (app_assoc (pre ++ [ev])) in H1, H2, H3.
      split_and!; try done. eapply Forall_impl; [exact Hdel|]. intros p Hp'. by apply deletion_checked_app.
    + intros [?|?] tr; [|apply HQ]. repeat (traced_step; try apply HQ).
Qed.

(** A host step that writes nothing. *)
Lemma quiet_step_traced pre a timeout (Q : res HostStepResult -> list event -> Prop) :
  take 2 a <> argv ["git"; "restore"] -> take 1 a <> argv ["rm"] -> (forall r tr, Q r tr) ->
  T pre (runHostStep ctx a root timeout) Q.
Proof using Type.
  intros H1 H2 HQ. unfold runHostStep. repeat (traced_step; try apply HQ). by eapply still_git.
Qed.
End install.

Arguments install_rule : clear implicits.

(** The conclusion, as a rule on traces. *)
Definition install_allowed (ctx : OpContext) (req : BrokerRequestEnvelope) (t1 : list event) (e : event) : Prop :=
  writes_tree e ->
  exists payload pid root project refs expected,
    payloadOf req = Ok payload /\
    resolveCanonicalProjectRoot ctx (field payload (js "projectDir")) = Ok (pid, root) /\
    project_of ctx pid = Some project /\ field payload (js "expectedResultCommit") = JStr expected /\
    install_rule ctx root expected project refs t1 e.

Lemma resolveCanonicalProjectRoot_project ctx dir pid root :
  resolveCanonicalProjectRoot ctx dir = Ok (pid, root) -> exists project, project_of ctx pid = Some project.
Proof.
  unfold resolveCanonicalProjectRoot. rewrite res_bind_Ok. intros (p & _ & H).
  destruct (project_of ctx p) as [project|] eqn:Hp; [|done]. cbv zeta in H.
  rewrite !res_bind_Ok in H. destruct H as (? & _ & H). rewrite !res_bind_Ok in H. destruct H as (? & _ & H).
  rewrite res_seq_Ok in H. destruct H as [_ [= <- _]]. by exists project.
Qed.

(** The record lookups and the authorization make no call. *)
Lemma traced_authorize P pre ctx op sid cat (Q : res unit -> list event -> Prop) :
  (forall r, Q r pre) -> traced P pre (authorize ctx op sid cat) Q.
Proof. intros H. unfold authorize. repeat (traced_step; try apply H). Qed.
Lemma traced_recordOr404 P pre sid (Q : res SessionRecord -> list event -> Prop) :
  (forall r, Q r pre) -> traced P pre (recordOr404 sid) Q.
Proof. intros H. unfold recordOr404. repeat (traced_step; try apply H). Qed.
Lemma traced_resolveResultRefs P pre sid pid v policy (Q : res ResultRefs -> list event -> Prop) :
  (forall r, Q r pre) -> traced P pre (resolveResultRefs sid pid v policy) Q.
Proof.
  intros H. unfold resolveResultRefs. destruct v as [| | | |s| |]; repeat first [traced_step; try apply H | apply traced_recordOr404; intros ?].
Qed.

Lemma install_traced ctx req :
  traced (install_allowed ctx req) [] (sandboxResultInstall ctx req) (fun _ _ => True).
Proof.
  unfold sandboxResultInstall. apply traced_bind, traced_lift. destruct (payloadOf req) as [payload|?] eqn:Hp; [|exact I].
  apply traced_bind, traced_authorize. intros [_|?]; [|exact I].
  apply traced_bind, traced_lift.
  destruct (assertExpectedResultCommit _) as [[]|?] eqn:He; [|exact I].
  destruct (field payload (js "expectedResultCommit")) as [| | | |expected| |] eqn:Hexp; try discriminate.
  cbv zeta. cbn [text_of].
  apply traced_bind, traced_lift. destruct (resolveCanonicalProjectRoot _ _) as [[pid root]|?] eqn:Hroot; [|exact I].
  destruct (resolveCanonicalProjectRoot_project _ _ _ _ Hroot) as [project Hproject].
  apply traced_bind, traced_resolveResultRefs. intros [refs|?]; [|exact I].
  apply traced_bind, traced_recordOr404. intros [rec|?]; [|exact I].
  apply traced_bind, traced_throw_when; intros _; [exact I|].
  apply (traced_weaken _ (install_rule ctx root expected project refs)).
  { intros tr e H Hw. exists payload, pid, root, project, refs, expected. by split_and!. }
  apply traced_bind, (inspect_install_traced ctx root pid expected project refs Hproject); [by intros|].
  intros c changed tr Hc Hch. destruct (installedCommit rec).
  - apply traced_bind, quiet_step_traced; [by vm_compute | by vm_compute|]. intros r tr'. repeat (traced_step; try exact I).
  - apply traced_bind, (install_changes_traced ctx root pid _ expected project refs Hproject); [done..|].
    intros [[plan steps]|?] tr'; [by apply traced_ret | exact I].
Qed.


(** ** A concrete install *)
Definition sample_commit : jsstr := repeat 97%N 40.

(** Git names the commit, one changed file and its raw change; the rest succeeds. *)
Definition install_env : Environment :=
  mkEnv (fun c w =>
           let out := match c with
             | CGit a _ =>
                 if existsb (str_eqb (js "rev-parse")) a then sample_commit ++ [10%N]
                 else if existsb (str_eqb (js "--name-only")) a then js "a.txt" ++ [0%N]
                 else if existsb (str_eqb (js "--raw")) a
                      then js ":100644 100644 1111111 2222222 M" ++ [9%N] ++ js "a.txt" ++ [10%N]
                      else []
             | _ => [] end in
           (Ok (mkSpawn (Some 0) out [] false false false), w))
        (on_unit quiet_env) (on_bool quiet_env) (on_text quiet_env) (on_int quiet_env) (on_names quiet_env) (on_stats quiet_env).

Definition install_record : SessionRecord :=
  apply_patch [P_state RESULT_READY; P_projectID (Some (js "p")); P_agent (Some (js "gentle-orchestrator"));
               P_resultRef (Some (RESULT_REF_PREFIX ++ js "/s"))] (fresh_record (js "s") (js "t0")).

Definition install_req : BrokerRequestEnvelope :=
  sample_req Op.sandboxResultInstall None
    (JObj [(js "projectDir", JStr (js "/work/p")); (js "expectedResultCommit", JStr sample_commit)]).

Definition install_world : world := sample_world {[ js "s" := RFRecord install_record ]}.

(** Whether a call of the run restored files. *)
Definition restores (e : event) : bool :=
  match call_of e with CGit a _ => bool_decide (take 2 a = argv ["git"; "restore"]) | _ => false end.

Lemma restores_writes e : restores e = true -> writes_tree e.
Proof.
  unfold restores, writes_tree. destruct (call_of e); try discriminate. intros H%bool_decide_eq_true. eauto.
Qed.

