(* ===== verification/HostRead.v ===== *)
(** * Host reads (broker/src/hostread.ts, and buildHostOp of service.ts)

    The table of enabled host-read operations, the assembly of a command line
    from its checked parameters, its execution with capped output, and the
    handler that exposes it. *)
From Stdlib Require Import QArith.
From S2P Require Import Prelude JsVal Types State Policy Path Validation HostPaths Envelope RolePolicy GitOps Artifacts Queue Effects Worker.
From S2P Require Import FileOps FileOpsFacts.
Open Scope Z_scope.

Record HostReadOp := mkReadOp {
  hr_operation : Operation; hr_binary : jsstr; hr_baseArgv : list jsstr; hr_payloadKeys : list jsstr;
  hr_outputCapBytes : Z
}.

Record HostReadToolConfig := mkTool { tool_enabled : bool; tool_binary : jsstr }.
Record HostReadConfig := mkHostReadConfig {
  hc_systemSummary : HostReadToolConfig; hc_memory : HostReadToolConfig; hc_diskUsage : HostReadToolConfig;
  hc_networkListeners : HostReadToolConfig; hc_processList : HostReadToolConfig; hc_serviceStatus : HostReadToolConfig;
  hc_serviceLogs : HostReadToolConfig; hc_tailscaleStatus : HostReadToolConfig; hc_dockerList : HostReadToolConfig;
  hc_dockerLogs : HostReadToolConfig
}.

(** A HostReadError: of no class the broker maps, it is reported as internal. *)
Definition hostread_error (m : jsstr) : exn := Exn EError m.

Section table.
  Context (existsSync : jsstr -> bool).

(** The entry of an enabled tool whose binary is there. *)
Definition read_op (operation : Operation) (c : HostReadToolConfig) (base keys : list string) (cap : Z) : list HostReadOp :=
  if tool_enabled c && existsSync (tool_binary c)
  then [mkReadOp operation (tool_binary c) (argv base) (argv keys) cap] else [].

Definition buildHostReadOps (c : HostReadConfig) : list HostReadOp :=
  read_op Op.hostSystemSummary (hc_systemSummary c) ["-a"] [] (8 * 1024)
  ++ read_op Op.hostMemory (hc_memory c) ["-h"] [] (16 * 1024)
  ++ read_op Op.hostDiskUsage (hc_diskUsage c) ["-h"] ["path"] (32 * 1024)
  ++ read_op Op.hostNetworkListeners (hc_networkListeners c) ["-lntup"] [] (64 * 1024)
  ++ read_op Op.hostProcessList (hc_processList c) ["-eo"; "pid,ppid,user,comm,args"] ["filter"] (256 * 1024)
  ++ read_op Op.hostServiceStatus (hc_serviceStatus c) ["status"] ["service"] (64 * 1024)
  ++ read_op Op.hostServiceLogs (hc_serviceLogs c) ["-u"] ["service"; "lines"; "since"] (512 * 1024)
  ++ read_op Op.hostTailscaleStatus (hc_tailscaleStatus c) ["status"] [] (64 * 1024)
  ++ read_op Op.hostDockerList (hc_dockerList c) ["ps"; "-a"] [] (128 * 1024)
  ++ read_op Op.hostDockerLogs (hc_dockerLogs c) ["logs"] ["container"; "lines"] (512 * 1024).
End table.

Record HostReadExecutorOptions := mkExecutor {
  ex_ops : list HostReadOp; ex_approvedReadRoots : list jsstr; ex_logLinesMax : Z
}.

Section executor.
  Context (realpath : jsstr -> option jsstr) (opts : HostReadExecutorOptions).

Definition is_op (operation : Operation) (o : HostReadOp) : bool := bool_decide (hr_operation o = operation).
Definition has (operation : Operation) : bool := existsb (is_op operation) (ex_ops opts).

Definition opFor (operation : Operation) : res HostReadOp :=
  match List.find (is_op operation) (ex_ops opts) with
  | Some op => Ok op
  | None => Throw (hostread_error (js "host capability '" ++ Op.name operation
                     ++ js "' is not enabled (binary missing or policy-disabled)"))
  end.

(** What one payload key adds to the command line. *)
Definition key_argv (op : HostReadOp) (payload : jsval) (key : jsstr) : res (list jsstr) :=
  let value := field payload key in
  let named := str_eqb key (js "service") || str_eqb key (js "container") in
  match value with
  | JUndef =>
      if named then Throw (invalid_ [Op.name (hr_operation op); js " requires '"; key; js "'"]) else Ok []
  | _ =>
      if named then
        _ ← assertServiceOrContainerName value key;
        s ← js_String value; Ok [s]
      else if str_eqb key (js "lines") then
        _ ← assertPositiveInt value (ex_logLinesMax opts) (js "lines");
        s ← js_String value; Ok [js "-n"; s]
      else if str_eqb key (js "since") then
        _ ← assertSince value;
        match value with
        | JStr s => Ok (if 0 <? js_length s then [js "--since"; s] else [])
        | _ => Throw (Exn EError (js "null is not an object (evaluating 'since.length')"))
        end
      else if str_eqb key (js "path") then
        canonical ← canonicalizeWithinRoots realpath value (ex_approvedReadRoots opts); Ok [canonical]
      else if str_eqb key (js "filter") then
        _ ← assertProcessFilter value; Ok []
      else Throw (invalid_ [js "unhandled payload key '"; key; js "' in "; Op.name (hr_operation op)])
  end.

Fixpoint keys_argv (op : HostReadOp) (payload : jsval) (keys : list jsstr) : res (list jsstr) :=
  match keys with
  | [] => Ok []
  | k :: keys' => a ← key_argv op payload k; rest ← keys_argv op payload keys'; Ok (a ++ rest)
  end.

Definition buildArgv (op : HostReadOp) (payload : jsval) : res (list jsstr) :=
  rest ← keys_argv op payload (hr_payloadKeys op);
  Ok (hr_binary op :: hr_baseArgv op ++ rest).

Definition truncate (s : jsstr) (max : Z) : jsstr :=
  if js_length s <=? max then s else take (Z.to_nat max) s ++ [10; 8230]%N ++ js "[truncated]".

(** [payload?.filter] is truthy. *)
Definition filter_needle (payload : jsval) : res (option jsstr) :=
  match field payload (js "filter") with
  | JUndef | JNull | JStr [] => Ok None
  | v => s ← js_String v; Ok (Some s)
  end.

Definition filter_lines (needle text : jsstr) : jsstr :=
  join_with [10%N] (List.filter (fun line => includes line needle) (split_on 10 text)).

Definition execute (E : Environment) (operation : Operation) (payload : jsval) : M (jsstr * jsstr * option Z) :=
  op ← lift (opFor operation);
  a ← lift (buildArgv op payload);
  result ← call_proc E (CSpawn a (mkOpts None (jint 60000) JUndef (Some (hr_outputCapBytes op))));
  _ ← throw_when (timedOut result) (hostread_error (js "host read '" ++ Op.name operation ++ js "' timed out"));
  let stdout_ := truncate (stdout result) (hr_outputCapBytes op) in
  shown ← (if bool_decide (operation = Op.hostProcessList) then
             needle ← lift (filter_needle payload);
             mret (match needle with Some n => filter_lines n stdout_ | None => stdout_ end)
           else mret stdout_);
  mret (shown, truncate (stderr result) (16 * 1024), status result).
End executor.

Definition hostOp (ctx : OpContext) (opts : HostReadExecutorOptions) (req : BrokerRequestEnvelope) : M jsval :=
  let op := req_operation req in
  _ ← throw_when (negb (has opts op)) (state_error (js "host read '" ++ Op.name op ++ js "' is not enabled"));
  payload ← lift (payloadOf req);
  result ← execute (host_realpath ctx) opts (env ctx) op payload;
  let '(out, err, st) := result in
  mret (JObj [(js "stdout", JStr out); (js "stderr", JStr err);
              (js "status", match st with Some z => jint z | None => JNull end)]).

(** ** Facts about host reads

    The command line of a host read is its table entry and checked parameters. *)
(** What a payload key may add: nothing, a name that is no option, a bounded
    number after [-n] (or the text of a null), a time after [--since], or a
    real path inside an approved root. *)
Definition checked_params (realpath : jsstr -> option jsstr) (opts : HostReadExecutorOptions) (key : jsstr) (params : list jsstr)
    : Prop :=
  params = [] \/
  (exists s, (key = js "service" \/ key = js "container") /\ params = [s] /\ s <> [] /\ startsWith s (js "-") = false) \/
  (key = js "lines" /\ (params = [js "-n"; js "null"] \/ exists z, 0 < z <= ex_logLinesMax opts /\ params = [js "-n"; dec z])) \/
  (key = js "since" /\ exists s, s <> [] /\ js_length s <= 64 /\ params = [js "--since"; s]) \/
  (key = js "path" /\ exists p root realRoot, params = [p] /\ root ∈ ex_approvedReadRoots opts /\
     realpath root = Some realRoot /\ (p = realRoot \/ exists rest, p = realRoot ++ [SLASH] ++ rest)).

(** The command line: the entry's binary and base arguments, then the keys'
    parameters in the entry's order. *)
Inductive keys_params (realpath : jsstr -> option jsstr) (opts : HostReadExecutorOptions) : list jsstr -> list jsstr -> Prop :=
  | keys_none : keys_params realpath opts [] []
  | keys_some k keys params rest : checked_params realpath opts k params -> keys_params realpath opts keys rest ->
      keys_params realpath opts (k :: keys) (params ++ rest).

Lemma positive_checked v max what : assertPositiveInt v max what = Ok tt ->
  v = JUndef \/ v = JNull \/ exists z, v = JNum (NumInt z) /\ 0 < z <= max.
Proof.
  unfold assertPositiveInt. destruct v as [| |b|n|s|xs|fs]; cbn [is_nullish]; try discriminate; auto.
  destruct n as [z| | |]; try discriminate. destruct (_ || _) eqn:H; [discriminate|].
  apply orb_false_iff in H as [H1%Z.leb_gt H2%Z.ltb_ge]. intros _. right. right. exists z. split; [done | lia].
Qed.

Lemma service_checked v what : assertServiceOrContainerName v what = Ok tt ->
  exists s, v = JStr s /\ s <> [] /\ startsWith s (js "-") = false.
Proof.
  unfold assertServiceOrContainerName. destruct v as [| | | |s| |]; try discriminate.
  destruct (re_class _ 1 128 s) eqn:H; cbn [negb]; [|discriminate]. rewrite res_seq_Ok, throw_if_Ok. intros [Hs _].
  exists s. split; [done|]. split; [|done]. intros ->. by vm_compute in H.
Qed.

Lemma name_params v k params :
  (_ ← assertServiceOrContainerName v k; s ← js_String v; Ok [s]) = Ok params ->
  exists s, params = [s] /\ s <> [] /\ startsWith s (js "-") = false.
Proof.
  rewrite res_seq_Ok. intros [(s & -> & Hs)%service_checked Hp]. cbn in Hp. injection Hp as <-. by exists s.
Qed.

Lemma lines_params v max params : v <> JUndef ->
  (_ ← assertPositiveInt v max (js "lines"); s ← js_String v; Ok [js "-n"; s]) = Ok params ->
  params = [js "-n"; js "null"] \/ exists z, 0 < z <= max /\ params = [js "-n"; dec z].
Proof.
  intros Hv. rewrite res_seq_Ok. intros [[->|[->|(z & -> & Hz)]]%positive_checked H]; [done| |]; cbn [js_String mbind res_bind] in H;
    injection H as <-; eauto.
Qed.

Lemma since_params v params :
  (_ ← assertSince v;
   match v with
   | JStr s => Ok (if 0 <? js_length s then [js "--since"; s] else [])
   | _ => Throw (Exn EError (js "null is not an object (evaluating 'since.length')"))
   end) = Ok params ->
  exists s, s <> [] /\ js_length s <= 64 /\ params = [js "--since"; s].
Proof.
  rewrite res_seq_Ok. intros [Hc H]. destruct v as [| | | |s| |]; try discriminate.
  unfold assertSince in Hc. cbn [is_nullish] in Hc. apply throw_if_Ok, negb_false_iff in Hc. unfold re_class in Hc.
  rewrite !andb_true_iff, !Z.leb_le in Hc. destruct Hc as [[H1 H2] _].
  rewrite (proj2 (Z.ltb_lt 0 (js_length s)) ltac:(lia)) in H. injection H as <-. exists s. split; [by intros ->|done].
Qed.

Lemma path_params realpath roots v params :
  (canonical ← canonicalizeWithinRoots realpath v roots; Ok [canonical]) = Ok params ->
  exists p root realRoot, params = [p] /\ root ∈ roots /\ realpath root = Some realRoot /\
    (p = realRoot \/ exists rest, p = realRoot ++ [SLASH] ++ rest).
Proof.
  rewrite res_bind_Ok. intros (c & (p & root & realRoot & _ & _ & Hc)%canonicalizeWithinRoots_contained & H).
  injection H as <-. by exists c, root, realRoot.
Qed.

Lemma key_argv_checked realpath opts op payload k params :
  key_argv realpath opts op payload k = Ok params -> checked_params realpath opts k params.
Proof.
  unfold key_argv. cbv zeta. set (named := str_eqb k (js "service") || str_eqb k (js "container")).
  assert (named = true -> k = js "service" \/ k = js "container") as Hnamed.
  { unfold named. rewrite orb_true_iff, !str_eqb_eq. tauto. }
  generalize (field payload k). intros v H. assert (v = JUndef \/ v <> JUndef) as [->|Hu] by (destruct v; auto; by right).
  { destruct named; [discriminate|]. injection H as <-. by left. }
  assert ((if named then _ ← assertServiceOrContainerName v k; s ← js_String v; Ok [s]
           else if str_eqb k (js "lines") then
             _ ← assertPositiveInt v (ex_logLinesMax opts) (js "lines"); s ← js_String v; Ok [js "-n"; s]
           else if str_eqb k (js "since") then
             _ ← assertSince v;
             match v with
             | JStr s => Ok (if 0 <? js_length s then [js "--since"; s] else [])
             | _ => Throw (Exn EError (js "null is not an object (evaluating 'since.length')"))
             end
           else if str_eqb k (js "path") then
             canonical ← canonicalizeWithinRoots realpath v (ex_approvedReadRoots opts); Ok [canonical]
           else if str_eqb k (js "filter") then _ ← assertProcessFilter v; Ok []
           else Throw (invalid_ [js "unhandled payload key '"; k; js "' in "; Op.name (hr_operation op)])) = Ok params) as H'
    by (destruct v; [done|exact H..]).
  clear H. unfold checked_params. destruct named.
  { right. left. apply name_params in H' as (s & ?). exists s. by auto. }
  destruct (str_eqb k (js "lines")) eqn:Hl; [apply str_eqb_eq in Hl; right; right; left; split; [done | by apply (lines_params v)]|].
  destruct (str_eqb k (js "since")) eqn:Hs; [apply str_eqb_eq in Hs; do 3 right; left; split; [done | by apply (since_params v)]|].
  destruct (str_eqb k (js "path")) eqn:Hp; [apply str_eqb_eq in Hp; do 4 right; split; [done | by apply (path_params _ _ v)]|].
  destruct (str_eqb k (js "filter")); [|discriminate]. rewrite res_seq_Ok in H'. destruct H' as [_ H']. injection H' as <-. by left.
Qed.

(** A host read runs a fixed command with checked parameters.  The command
    line is the entry's binary and base arguments, followed in the entry's
    order by what each payload key adds: a service or container name that is
    not an option, a bounded line count, a short time, or a real path inside an
    approved root. *)
Theorem host_read_command_fixed realpath opts op payload a :
  buildArgv realpath opts op payload = Ok a ->
  exists params, a = hr_binary op :: hr_baseArgv op ++ params /\ keys_params realpath opts (hr_payloadKeys op) params.
Proof.
  unfold buildArgv. rewrite res_bind_Ok. intros (params & H & [= <-]). exists params. split; [done|].
  revert params H. induction (hr_payloadKeys op) as [|k keys IH]; intros params; cbn [keys_argv].
  - intros [= <-]. constructor.
  - rewrite res_bind_Ok. intros (x & Hx & H). rewrite res_bind_Ok in H. destruct H as (rest & Hrest & [= <-]).
    constructor; [by eapply key_argv_checked | by apply IH].
Qed.

Definition sample_executor : HostReadExecutorOptions :=
  mkExecutor (buildHostReadOps (fun _ => true)
    (let t := mkTool true (js "/usr/bin/journalctl") in mkHostReadConfig t t t t t t t t t t)) [js "/srv"] 500.

(** A null line count reaches the command line as a text. *)
Lemma host_read_command_fixed_witness :
  exists op, opFor sample_executor Op.hostServiceLogs = Ok op /\
    buildArgv plain_realpath sample_executor op (JObj [(js "service", JStr (js "sshd")); (js "lines", JNull)])
    = Ok (argv ["/usr/bin/journalctl"; "-u"; "sshd"; "-n"; "null"]) /\
    exists params, argv ["/usr/bin/journalctl"; "-u"; "sshd"; "-n"; "null"] = hr_binary op :: hr_baseArgv op ++ params /\
      keys_params plain_realpath sample_executor (hr_payloadKeys op) params.
Proof.
  eexists. split; [vm_compute; reflexivity|]. split; [vm_compute; reflexivity|].
  eapply host_read_command_fixed with (payload := JObj [(js "service", JStr (js "sshd")); (js "lines", JNull)]).
  vm_compute. reflexivity.
Defined.
