(* ===== verification/HostGit.v ===== *)
(** * Host git and GitHub mutations (broker/src/service.ts)

    The scoped commit of a result with its recovery of an interrupted one, the
    guarded push, the creation of an issue, and the registration of a project. *)
From Stdlib Require Import QArith.
From S2P Require Import Prelude JsVal Types State Policy Path Validation HostPaths HostArgs Envelope.
From S2P Require Import RolePolicy GitOps Artifacts Queue Effects Worker Redact Results Diff GitGuard Authorization Codec FileOps HostSteps SandboxResult.
Open Scope Z_scope.

Definition commit_error (parts : list jsstr) : exn := state_error (js "cannot commit: " ++ concat parts).

Section ops.
  Context (ctx : OpContext).

(** ** Commit *)

(** A commit a git step printed, or the refusal. *)
Definition commit_of (argv_ : list jsstr) (projectRoot : jsstr) (timeoutMs : Z) (e : exn) : M jsstr :=
  step ← runHostStep ctx argv_ projectRoot timeoutMs;
  match printed_commit step with Some c => mret c | None => throw e end.

Definition HEAD_ARGV : list jsstr := argv ["git"; "rev-parse"; "HEAD"].
Definition PARENT_ARGV : list jsstr := argv ["git"; "rev-parse"; "HEAD^"].

(** The result's commit and its changed paths, checked. *)
Definition inspect_commit (projectRoot pid : jsstr) (refs : ResultRefs) (resultRecord : SessionRecord)
    : M (jsstr * list jsstr) :=
  resultCommit ← commit_of (buildResultCommitArgv (rr_result refs)) projectRoot 60000
                   (commit_error [js "result ref commit could not be resolved"]);
  _ ← throw_when (match truthy (installedCommit resultRecord) with
                  | Some c => negb (str_eqb c resultCommit)
                  | None => false
                  end)
        (commit_error [js "installed result commit no longer matches the result ref"]);
  changed ← changedPathsBetween ctx pid (rr_baseline refs) (rr_result refs);
  _ ← throw_when (bool_decide (changed = []))
        (state_error (js "refusing to commit: the " ++ RESULT_TEXT ++ js " is empty"));
  let rejected := checkProtectedPaths changed (protectedPaths (cfg ctx) ++ protectedSecurityFiles (cfg ctx)) in
  _ ← throw_when (negb (bool_decide (rejected = [])))
        (state_error (js "refusing to commit protected paths (S17): " ++ list_text rejected));
  mret (resultCommit, changed).

Definition commit_json (committed : bool) (commit : jsstr) (paths : list jsstr) (steps : list HostStepResult) : jsval :=
  JObj [(js "committed", JBool committed); (js "alreadyCommitted", JBool (negb committed));
        (js "committedCommit", JStr commit); (js "paths", paths_json paths);
        (js "steps", JArr (map step_json steps))].

(** The commit is on the host: record it, and let the worker go. *)
Definition record_commit (sid : jsstr) (from : SessionState) (resultCommit commit : jsstr) : M unit :=
  _ ← store_transition sid from RETAINED
        [P_installedCommit (Some resultCommit); P_committedCommit (Some commit); P_pendingCommit None];
  releaseRetainedWorker ctx sid.

(** A prior attempt left its intent: either HEAD has not moved since, and the
    commit is to be tried again on it, or the commit has landed and is recorded
    now, or the run stops. *)
Inductive Recovery := Retry (parent : jsstr) | Landed (head : jsstr).

Definition recover_intent (projectRoot resultCommit : jsstr) (changed : list jsstr) (intent : jsstr * jsstr)
    : M Recovery :=
  let '(intendedResult, parentCommit) := intent in
  _ ← throw_when (negb (str_eqb intendedResult resultCommit))
        (commit_error [js "pending commit intent no longer matches the result ref"]);
  head ← commit_of HEAD_ARGV projectRoot 120000
           (commit_error [js "pending commit HEAD could not be determined"]);
  if str_eqb head parentCommit then mret (Retry head) else
  let ambiguous := commit_error [js "pending commit state is ambiguous; stop the broker and follow the exact pendingCommit recovery procedure in docs/TODO.md"] in
  parent ← commit_of PARENT_ARGV projectRoot 120000 ambiguous;
  _ ← throw_when (negb (str_eqb parent parentCommit)) ambiguous;
  tree ← runHostStep ctx (argv ["git"; "diff"; "--quiet"] ++ [resultCommit; js "HEAD"; js "--"] ++ changed) projectRoot 120000;
  _ ← throw_when (negb (step_ok tree))
        (commit_error [js "HEAD does not carry the pending result; stop the broker and follow the pendingCommit recovery procedure in docs/TODO.md"]);
  mret (Landed head).

(** The steps of a commit, each of which must succeed. *)
Definition commit_step (projectRoot : jsstr) (a : list jsstr) : M HostStepResult :=
  step ← runHostStep ctx a projectRoot 120000;
  _ ← throw_when (negb (step_ok step))
        (msb_error (js "git commit failed (" ++ default (nth 1 a []) (gitSubcommand a) ++ js "): " ++ hs_stderr step));
  mret step.

(** [buildGitCommitArgv] of the caller's message, whatever it is. *)
Definition commit_steps (changed : list jsstr) (message : jsval) : res (list (list jsstr)) :=
  _ ← assertGitCommitMessage message;
  buildGitCommitArgv changed (text_of message).

Definition commit_changes (sid projectRoot resultCommit : jsstr) (from : SessionState) (changed : list jsstr)
    (message : jsval) (retryParent : option jsstr) : M jsval :=
  parentCommit ← (match retryParent with
                  | Some p => mret p
                  | None => commit_of HEAD_ARGV projectRoot 120000
                              (commit_error [js "current HEAD could not be recorded before commit"])
                  end);
  _ ← store_touch sid [P_pendingCommit (Some (resultCommit, parentCommit))] None;
  steps ← lift (commit_steps changed message);
  results ← mapM_ (commit_step projectRoot) steps;
  committedCommit ← commit_of HEAD_ARGV projectRoot 120000
                      (state_error (js "git commit succeeded but its committed HEAD could not be recorded"));
  _ ← record_commit sid from resultCommit committedCommit;
  mret (commit_json true committedCommit changed results).

(** The commit of the resolved result, as its record stands. *)
Definition commit_result (sid pid projectRoot : jsstr) (refs : ResultRefs) (resultRecord : SessionRecord)
    (message : jsval) : M jsval :=
  inspected ← inspect_commit projectRoot pid refs resultRecord;
  let '(resultCommit, changed) := inspected in
  match truthy (committedCommit resultRecord) with
  | Some c => mret (commit_json false c changed [])
  | None =>
      match pendingCommit resultRecord with
      | None => commit_changes sid projectRoot resultCommit (state resultRecord) changed message None
      | Some intent =>
          recovery ← recover_intent projectRoot resultCommit changed intent;
          match recovery with
          | Retry parent => commit_changes sid projectRoot resultCommit (state resultRecord) changed message (Some parent)
          | Landed head =>
              _ ← record_commit sid (state resultRecord) resultCommit head;
              mret (commit_json false head changed [])
          end
      end
  end.

Definition gitCommit (req : BrokerRequestEnvelope) : M jsval :=
  payload ← lift (payloadOf req);
  _ ← authorize ctx (js "gitCommit") (req_sessionID req) orchestrator;
  root ← lift (resolveCanonicalProjectRoot ctx (field payload (js "projectDir")));
  let '(pid, projectRoot) := root in
  refs ← resolveCommitResult (req_sessionID req) pid (field payload (js "sandboxSessionID"));
  let sid := result_session (req_sessionID req) (field payload (js "sandboxSessionID")) in
  resultRecord ← recordOr404 sid;
  commit_result sid pid projectRoot refs resultRecord (field payload (js "message")).

Definition gitClearCommitIntent (req : BrokerRequestEnvelope) : M jsval :=
  payload ← lift (payloadOf req);
  _ ← authorize ctx (js "gitClearCommitIntent") (req_sessionID req) orchestrator;
  root ← lift (resolveCanonicalProjectRoot ctx (field payload (js "projectDir")));
  _ ← resolveCommitResult (req_sessionID req) (fst root) (field payload (js "sandboxSessionID"));
  let sid := result_session (req_sessionID req) (field payload (js "sandboxSessionID")) in
  record ← recordOr404 sid;
  match pendingCommit record with
  | None => throw (state_error (js "cannot clear commit intent: session has no pending commit intent"))
  | Some (result, parent) =>
      _ ← store_touch sid [P_pendingCommit None] None;
      mret (JObj [(js "cleared", JBool true); (js "resultCommit", JStr result); (js "parentCommit", JStr parent)])
  end.

(** ** Push *)

(** [Number.parseInt(s, 10) || 0] of trimmed text, exact below 2^53. *)
Fixpoint leading_digits (s : jsstr) : jsstr :=
  match s with
  | c :: s' => if is_digit c then c :: leading_digits s' else []
  | [] => []
  end.
Definition parseInt_or_0 (s : jsstr) : Z :=
  match s with
  | 45%N :: s' => - decimal (leading_digits s')
  | 43%N :: s' => decimal (leading_digits s')
  | _ => decimal (leading_digits s)
  end.

Definition optional_boolean (v : jsval) (what : jsstr) : res unit :=
  match v with
  | JUndef | JBool _ => Ok tt
  | _ => Throw (invalid_ [what; js " must be a boolean"])
  end.
Definition is_true (v : jsval) : bool := match v with JBool b => b | _ => false end.

(** What a git query printed, when it succeeded. *)
Definition query (projectRoot : jsstr) (a : list jsstr) : M (option jsstr) :=
  step ← runHostStep ctx a projectRoot 60000;
  mret (if step_ok step then Some (trim (hs_stdout step)) else None).

Definition push_remote_of (v : jsval) : res jsstr :=
  match v with
  | JUndef => Ok (js "origin")
  | JStr s => Ok s
  | _ => Throw (invalid "remote must be a string")
  end.

Definition opt_json (o : option jsstr) : jsval := match o with Some s => JStr s | None => JNull end.
Definition status_json (s : option Z) : jsval := match s with Some z => jint z | None => JNull end.

Definition gitPush (req : BrokerRequestEnvelope) : M jsval :=
  payload ← lift (payloadOf req);
  _ ← authorize ctx (js "gitPush") (req_sessionID req) orchestrator;
  root ← lift (resolveCanonicalProjectRoot ctx (field payload (js "projectDir")));
  let '(_, projectRoot) := root in
  remote ← lift (push_remote_of (field payload (js "remote")));
  _ ← lift (optional_boolean (field payload (js "setUpstream")) (js "setUpstream"));
  _ ← lift (optional_boolean (field payload (js "allowProtectedBranch")) (js "allowProtectedBranch"));
  branch ← query projectRoot (argv ["git"; "symbolic-ref"; "--short"; "-q"; "HEAD"]);
  upstream ← (match branch with
              | Some _ => query projectRoot (argv ["git"; "rev-parse"; "--abbrev-ref"; "--symbolic-full-name"; "@{upstream}"])
              | None => mret None
              end);
  ahead ← (match branch with
           | Some _ =>
               count ← query projectRoot (argv ["git"; "rev-list"; "--count"]
                 ++ [match upstream with Some u => u ++ js "..HEAD" | None => js "HEAD" end]);
               mret (match count with Some c => parseInt_or_0 c | None => 0 end)
           | None => mret 0
           end);
  a ← lift (buildGitPushArgv {| push_branch := branch; push_upstream := upstream; push_ahead := NumInt ahead;
         push_remote := remote; push_setUpstream := is_true (field payload (js "setUpstream"));
         push_allowProtectedBranch := is_true (field payload (js "allowProtectedBranch")) |});
  pushed ← runHostStep ctx a projectRoot 120000;
  mret (JObj [(js "pushed", JBool (step_ok pushed)); (js "branch", opt_json branch); (js "remote", JStr remote);
              (js "upstream", opt_json upstream); (js "ahead", jint ahead); (js "stdout", JStr (hs_stdout pushed));
              (js "stderr", JStr (hs_stderr pushed)); (js "status", status_json (hs_status pushed))]).

(** ** Issue creation *)
Definition issue_argv (repo title body : jsval) : res (list jsstr) :=
  _ ← assertGhRepo repo;
  _ ← assertGhTitle title;
  _ ← assertGhBody body;
  buildGhIssueCreateArgv (text_of repo) (text_of title) (text_of body).

Definition ghIssueCreate (req : BrokerRequestEnvelope) : M jsval :=
  payload ← lift (payloadOf req);
  _ ← authorize ctx (js "ghIssueCreate") (req_sessionID req) orchestrator;
  root ← lift (resolveCanonicalProjectRoot ctx (field payload (js "projectDir")));
  let '(_, projectRoot) := root in
  a ← lift (issue_argv (field payload (js "repo")) (field payload (js "title")) (field payload (js "body")));
  result ← runHostStep ctx a projectRoot 120000;
  mret (JObj [(js "created", JBool (step_ok result)); (js "stdout", JStr (hs_stdout result));
              (js "stderr", JStr (hs_stderr result)); (js "status", status_json (hs_status result))]).

(** ** Registration of a project *)

(** [isDirectory], [cwd], [home] and [repoRoot] stand for the file system, the
    broker's working directory, the home directory and the repository root. *)
Definition registerProject_argv (cwd : jsstr) (isDirectory : jsstr -> option bool) (home : jsstr) (payload : jsval)
    : res (list jsstr) :=
  target ← assertRegisterableProjectPath cwd (host_realpath ctx) isDirectory (field payload (js "path")) home;
  _ ← optional_boolean (field payload (js "dryRun")) (js "dryRun");
  _ ← optional_boolean (field payload (js "createRemote")) (js "createRemote");
  _ ← optional_boolean (field payload (js "makePublic")) (js "makePublic");
  _ ← throw_if (is_true (field payload (js "makePublic")) && negb (is_true (field payload (js "createRemote"))))
        (invalid "--public requires --create-remote");
  Ok (argv ["bun"; "scripts/register-project.ts"]
      ++ (if is_true (field payload (js "dryRun")) then [js "--dry-run"] else [])
      ++ (if is_true (field payload (js "createRemote")) then [js "--create-remote"] else [])
      ++ (if is_true (field payload (js "makePublic")) then [js "--public"] else [])
      ++ [target]).

(** [String(status)] in the message. *)
Definition status_text (s : option Z) : jsstr := match s with Some z => dec z | None => js "null" end.

Definition registerProject (cwd : jsstr) (isDirectory : jsstr -> option bool) (home repoRoot : jsstr)
    (req : BrokerRequestEnvelope) : M jsval :=
  payload ← lift (payloadOf req);
  _ ← authorize ctx (js "registerProject") (req_sessionID req) orchestrator;
  a ← lift (registerProject_argv cwd isDirectory home payload);
  result ← call_proc (env ctx) (CGit a (opt_cwd repoRoot 60000));
  _ ← throw_when (negb (ok_status result))
        (msb_error (js "registerProject failed (status " ++ status_text (status result) ++ js "): " ++ trim (stderr result)));
  mret (JObj [(js "ok", JBool true); (js "stdout", JStr (stdout result)); (js "stderr", JStr (stderr result));
              (js "status", status_json (status result))]).
End ops.
