(* ===== verification/HostGitFacts.v ===== *)
(** * Facts about host git mutations

    A commit is made only of a checked result and never twice; an interrupted
    one is recorded by the next call; and what a retained result meets. *)
From Stdlib Require Import QArith.
From S2P Require Import Prelude JsVal Types State Policy Path Validation HostPaths HostArgs Envelope.
From S2P Require Import RolePolicy GitOps Artifacts Queue Effects Worker WorkerFacts Redact Results Diff ResultFacts.
From S2P Require Import Authorization Codec FileOps TraceLogic FileOpsFacts HostSteps SandboxResult SandboxResultFacts HostGit.
Open Scope Z_scope.

(** ** Steps that only read the store *)
Definition reads_only {A} (m : M A) : Prop := forall w, exists r, m w = (r, w, []).

Lemma reads_bind {A B} (m : M A) (f : A -> M B) : reads_only m -> (forall a, reads_only (f a)) -> reads_only (mbind f m).
Proof.
  intros Hm Hf w. destruct (Hm w) as ([a|e] & H).
  - destruct (Hf a w) as [r Hr]. exists r. by rewrite (run_bind_pure _ _ _ _ _ H).
  - exists (Throw e). by apply run_bind_throw.
Qed.
Lemma reads_ret {A} (a : A) : reads_only (mret a).
Proof. intros w. by eexists. Qed.
Lemma reads_throw {A} e : reads_only (@throw A e).
Proof. intros w. by eexists. Qed.
Lemma reads_lift {A} (r : res A) : reads_only (lift r).
Proof. intros w. by destruct r; eexists. Qed.
Lemma reads_ask {A} (f : world -> A) : reads_only (ask f).
Proof. intros w. by eexists. Qed.
Lemma reads_store_get sid : reads_only (store_get sid).
Proof. intros w. by eexists. Qed.
Lemma reads_throw_when b e : reads_only (throw_when b e).
Proof. intros w. by destruct b; eexists. Qed.
Lemma lift_run {A} (r : res A) a w : lift r w = (Ok a, w, []) -> r = Ok a.
Proof. by intros [= ->]. Qed.
Lemma throw_when_run b e u w : throw_when b e w = (Ok u, w, []) -> b = false.
Proof. by destruct b. Qed.
Lemma store_get_run sid o w : store_get sid w = (Ok o, w, []) -> SessionStore.get (w_store w) sid = Ok o.
Proof. unfold store_get. by intros [= ->]. Qed.
#[export] Hint Resolve reads_throw_when reads_bind reads_ret reads_throw reads_lift reads_ask reads_store_get : reads.

Lemma reads_recordOr404 sid : reads_only (recordOr404 sid).
Proof. unfold recordOr404. apply reads_bind; [auto with reads|]. intros []; auto with reads. Qed.
#[export] Hint Resolve reads_recordOr404 : reads.
Lemma reads_authorize ctx op sid cat : reads_only (authorize ctx op sid cat).
Proof. unfold authorize. auto 6 with reads. Qed.
Lemma reads_resolveResultRefs sid pid v policy : reads_only (resolveResultRefs sid pid v policy).
Proof. unfold resolveResultRefs. destruct v; auto 6 with reads. Qed.
Lemma reads_resolveCommitResult sid pid v : reads_only (resolveCommitResult sid pid v).
Proof. apply reads_resolveResultRefs. Qed.
#[export] Hint Resolve reads_authorize reads_resolveCommitResult : reads.

(** The first step of a run, when it only reads. *)
Lemma reads_cases {A B} (m : M A) (f : A -> M B) w :
  reads_only m -> (exists e, mbind f m w = (Throw e, w, [])) \/ (exists a, m w = (Ok a, w, []) /\ mbind f m w = f a w).
Proof.
  intros H. destruct (H w) as ([a|e] & Hr); [right; exists a | left; exists e].
  - split; [done|]. by rewrite (run_bind_pure _ _ _ _ _ Hr).
  - by apply run_bind_throw.
Qed.

Ltac read_step a Ha :=
  match goal with
  | |- context [mbind ?f ?m ?w = _] =>
      let He := fresh in destruct (reads_cases m f w) as [He|(a & Ha & ->)]; [auto with reads | left; exact He |]
  end.

(** ** The beginning of a commit *)

(** What is known when the work on a result begins. *)
Definition commit_begun (ctx : OpContext) (req : BrokerRequestEnvelope) (w : world) (sid pid root : jsstr)
    (project : Project) (refs : ResultRefs) (record : SessionRecord) (message : jsval) : Prop :=
  exists payload, payloadOf req = Ok payload /\
    resolveCanonicalProjectRoot ctx (field payload (js "projectDir")) = Ok (pid, root) /\
    project_of ctx pid = Some project /\
    sid = result_session (req_sessionID req) (field payload (js "sandboxSessionID")) /\
    message = field payload (js "message") /\
    resolveCommitResult (req_sessionID req) pid (field payload (js "sandboxSessionID")) w = (Ok refs, w, []) /\
    recordOr404 sid w = (Ok record, w, []).

Lemma gitCommit_begins ctx req w :
  (exists e, gitCommit ctx req w = (Throw e, w, [])) \/
  (exists sid pid root project refs record message,
     commit_begun ctx req w sid pid root project refs record message /\
     gitCommit ctx req w = commit_result ctx sid pid root refs record message w).
Proof.
  unfold gitCommit. destruct (payloadOf req) as [payload|e] eqn:Hp; [rewrite run_lift_Ok | left; exists e; apply run_lift_Throw].
  read_step u Hu.
  destruct (resolveCanonicalProjectRoot _ _) as [[pid root]|e] eqn:Hroot; [rewrite run_lift_Ok | left; exists e; apply run_lift_Throw].
  read_step refs Hrefs. cbv zeta. read_step record Hrec.
  destruct (resolveCanonicalProjectRoot_project _ _ _ _ Hroot) as [project Hproject].
  right. eexists _, pid, root, project, refs, record, _. split; [|reflexivity]. exists payload. by split_and!.
Qed.

(** ** A retained result *)
Lemma traced_illegal P pre sid from to ps (Q : res SessionRecord -> list event -> Prop) :
  legal from to = false -> (forall e, Q (Throw e) pre) -> traced P pre (store_transition sid from to ps) Q.
Proof.
  intros Hl HQ. apply traced_pure. intros w. unfold wp, store_transition, SessionStore.transition, assertLegalTransition.
  destruct (SessionStore.get _ _) as [[r|]|]; cbn [mbind res_bind]; [|by split..].
  rewrite Hl. cbn [negb throw_if]. by case_bool_decide.
Qed.

Lemma traced_mapM {A B} P pre (f : A -> M B) xs (Q : res (list B) -> list event -> Prop) :
  (forall x p (R : res B -> list event -> Prop), (forall r tr, R r tr) -> traced P p (f x) R) ->
  (forall r tr, Q r tr) -> traced P pre (mapM_ f xs) Q.
Proof.
  intros Hf. revert pre Q. induction xs as [|x xs IH]; intros pre Q HQ; cbn [mapM_]; [by apply traced_ret|].
  apply traced_bind, Hf. intros [y|e] tr; [|done]. apply traced_bind, IH. intros [ys|e] tr'; [by apply traced_ret | done].
Qed.

Definition anything : list event -> event -> Prop := fun _ _ => True.
Definition thrown {A} : res A -> list event -> Prop := fun r _ => exists e, r = Throw e.

Lemma record_retained_throws ctx pre sid resultCommit commit :
  traced anything pre (record_commit ctx sid RETAINED resultCommit commit) thrown.
Proof. apply traced_bind, traced_illegal; [reflexivity|]. intros e. by exists e. Qed.

Lemma commit_of_any ctx pre a root ms e (Q : res jsstr -> list event -> Prop) :
  (forall r tr, Q r tr) -> traced anything pre (commit_of ctx a root ms e) Q.
Proof. intros HQ. unfold commit_of, runHostStep. repeat (traced_step; try apply HQ; try exact I). Qed.

Lemma commit_changes_retained ctx pre sid root rc changed message retry :
  traced anything pre (commit_changes ctx sid root rc RETAINED changed message retry) thrown.
Proof.
  unfold commit_changes. apply traced_bind.
  assert (forall p (parent : jsstr), traced anything p
    (_ ← store_touch sid [P_pendingCommit (Some (rc, parent))] None;
     steps ← lift (commit_steps changed message);
     results ← mapM_ (commit_step ctx root) steps;
     committedCommit ← commit_of ctx HEAD_ARGV root 120000
                         (state_error (js "git commit succeeded but its committed HEAD could not be recorded"));
     _ ← record_commit ctx sid RETAINED rc committedCommit;
     mret (commit_json true committedCommit changed results)) thrown) as Hrest.
  { intros p parent. traced_step. traced_step. destruct r; [|by eexists]. traced_step. traced_step.
    destruct (commit_steps changed message); [|by eexists]. traced_step. apply traced_mapM.
    { intros x p' R HR. unfold commit_step, runHostStep. repeat (traced_step; try apply HR; try exact I). }
    intros [results|?] tr; [|by eexists]. traced_step. apply commit_of_any. intros [c|?] tr'; [|by eexists].
    traced_step. eapply traced_mono; [apply record_retained_throws|]. intros r' t [e ->]. by exists e. }
  destruct retry as [parent|]; [apply traced_ret, Hrest|].
  apply commit_of_any. intros [parent|e] tr; [apply Hrest | by exists e].
Qed.

(** What a named step prints or refuses does not matter to the end. *)
Lemma inspect_commit_any ctx pre root pid refs record (Q : res (jsstr * list jsstr) -> list event -> Prop) :
  (forall r tr, Q r tr) -> traced anything pre (inspect_commit ctx root pid refs record) Q.
Proof.
  intros HQ. unfold inspect_commit, changedPathsBetween, must. apply traced_bind, commit_of_any.
  intros [c|e] tr; [|apply HQ]. repeat (traced_step; try apply HQ; try exact I).
Qed.

Lemma recover_intent_any ctx pre root rc changed intent (Q : res Recovery -> list event -> Prop) :
  (forall r tr, Q r tr) -> traced anything pre (recover_intent ctx root rc changed intent) Q.
Proof.
  intros HQ. unfold recover_intent. destruct intent as [x parent]. traced_step. traced_step; [apply HQ|].
  traced_step. apply commit_of_any. intros [h|e] tr; [|apply HQ]. destruct (str_eqb h parent); [by apply traced_ret|].
  traced_step. apply commit_of_any. intros [q|e] tr'; [|apply HQ].
  unfold runHostStep. repeat (traced_step; try apply HQ; try exact I).
Qed.

Lemma commit_result_retained ctx sid pid root refs record message :
  state record = RETAINED -> truthy (committedCommit record) = None ->
  traced anything [] (commit_result ctx sid pid root refs record message) thrown.
Proof.
  intros Hs Hc. unfold commit_result. rewrite Hs, Hc. traced_step. apply inspect_commit_any.
  intros [[rc changed]|e] tr; [|by exists e]. destruct (pendingCommit record) as [intent|]; [|apply commit_changes_retained].
  traced_step. apply recover_intent_any. intros [[parent|head]|e] tr'; [apply commit_changes_retained | | by exists e].
  traced_step. eapply traced_mono; [apply record_retained_throws|]. intros r t [e ->]. by exists e.
Qed.

(** The commit of a retained result can never be recorded.  A result that
    was kept (RETAINED) and then installed is eligible for a commit, but the
    commit is recorded by a transition from the record's own state to RETAINED,
    and RETAINED -> RETAINED is not in the transition graph: whatever git
    answers, and also when the commit itself was made or a prior one landed, the
    operation ends in an error. *)
Theorem retained_commit_never_recorded ctx req w record out w' t :
  gitCommit ctx req w = (out, w', t) ->
  (forall payload, payloadOf req = Ok payload ->
     recordOr404 (result_session (req_sessionID req) (field payload (js "sandboxSessionID"))) w = (Ok record, w, [])) ->
  state record = RETAINED -> truthy (committedCommit record) = None ->
  exists e, out = Throw e.
Proof.
  intros Hrun Hrec Hs Hc. destruct (gitCommit_begins ctx req w)
    as [[e Hb]|(sid & pid & root & project & refs & record' & message & (payload & Hp & _ & _ & -> & _ & _ & Hr) & Hb)];
    rewrite Hb in Hrun; [injection Hrun as <- _ _; by exists e|].
  rewrite (Hrec _ Hp) in Hr. injection Hr as <-.
  exact (proj2 (traced_run _ _ _ _ _ _ _ (commit_result_retained ctx _ pid root refs record message Hs Hc) Hrun)).
Qed.

(** ** What stands before a commit *)

(** A call that stages or commits. *)
Definition commits (e : event) : Prop :=
  exists a opts, call_of e = CGit a opts /\ (take 2 a = argv ["git"; "add"] \/ take 2 a = argv ["git"; "-c"]).

Section commit.
  Context (ctx : OpContext) (root pid : jsstr) (project : Project) (refs : ResultRefs) (record : SessionRecord).
  Context (message : jsval).
  Hypothesis Hproject : project_of ctx pid = Some project.

(** A git query that printed a commit. *)
Definition printed (a : list jsstr) (ms : Z) (c : jsstr) (t : list event) : Prop :=
  exists r, EvProc (step_call a root ms) (Ok r) ∈ t /\ printed_commit (step_result a r) = Some c.

(** The result's commit, the one installed if one was. *)
Definition result_checked (rc : jsstr) (t : list event) : Prop :=
  printed (buildResultCommitArgv (rr_result refs)) 60000 rc t /\
  forall c, truthy (installedCommit record) = Some c -> c = rc.

(** The changed paths were read whole, are some, and none is protected. *)
Definition paths_committable (changed : list jsstr) (t : list event) : Prop :=
  changed <> [] /\
  (exists ch, EvProc (changed_paths_call project (rr_baseline refs) (rr_result refs)) (Ok ch) ∈ t /\ ok_status ch = true /\
     np_complete (parseNulDelimitedPaths (stdout ch)) = true /\ np_paths (parseNulDelimitedPaths (stdout ch)) = changed) /\
  forall p pat, p ∈ changed -> pat ∈ protectedPaths (cfg ctx) ++ protectedSecurityFiles (cfg ctx) -> globMatch pat p = false.

(** HEAD where the commit goes: the recorded parent of an interrupted attempt
    on the same result, if there was one. *)
Definition parent_known (rc : jsstr) (t : list event) : Prop :=
  exists parent, printed HEAD_ARGV 120000 parent t /\
    forall intent, pendingCommit record = Some intent -> intent = (rc, parent).

Definition commit_ready (rc : jsstr) (changed : list jsstr) (t : list event) : Prop :=
  truthy (committedCommit record) = None /\ result_checked rc t /\ paths_committable changed t /\ parent_known rc t.

(** What a staging or a commit may be. *)
Definition commit_rule (pre : list event) (e : event) : Prop :=
  commits e -> exists rc changed add commit, commit_ready rc changed pre /\ commit_steps changed message = Ok [add; commit] /\
    (call_of e = step_call add root 120000 \/
     (call_of e = step_call commit root 120000 /\
      exists r, EvProc (step_call add root 120000) (Ok r) ∈ pre /\ status r = Some 0)).

Lemma calm e pre : (forall a opts, call_of e <> CGit a opts) -> commit_rule pre e.
Proof. intros H (a & opts & Hc & _). by destruct (H a opts). Qed.

Lemma calm_git e pre a opts : call_of e = CGit a opts ->
  take 2 a <> argv ["git"; "add"] -> take 2 a <> argv ["git"; "-c"] -> commit_rule pre e.
Proof. intros Hc H1 H2 (a' & opts' & Hc' & Hor). rewrite Hc in Hc'. injection Hc' as <- <-. by destruct Hor. Qed.

Ltac no_commit := intros; first [by apply calm | eapply calm_git; [reflexivity | by vm_compute | by vm_compute]].

Lemma printed_app a ms c t t' : printed a ms c t -> printed a ms c (t ++ t').
Proof. intros (r & H & ?). exists r. split; [in_list | done]. Qed.
Lemma result_checked_app rc t t' : result_checked rc t -> result_checked rc (t ++ t').
Proof. intros [H ?]. split; [by apply printed_app | done]. Qed.
Lemma paths_committable_app c t t' : paths_committable c t -> paths_committable c (t ++ t').
Proof. intros (H0 & (r & H & ?) & ?). split; [done|]. split; [|done]. exists r. split; [in_list | done]. Qed.
Lemma parent_known_app rc t t' : parent_known rc t -> parent_known rc (t ++ t').
Proof. intros (p & H & ?). exists p. split; [by apply printed_app | done]. Qed.
Lemma commit_ready_app rc c t t' : commit_ready rc c t -> commit_ready rc c (t ++ t').
Proof.
  intros (? & ? & ? & ?). split_and!; [done | by apply result_checked_app | by apply paths_committable_app | by apply parent_known_app].
Qed.

#[local] Abbreviation T := (traced commit_rule).

Lemma commit_of_traced pre a ms e (Q : res jsstr -> list event -> Prop) :
  take 2 a <> argv ["git"; "add"] -> take 2 a <> argv ["git"; "-c"] ->
  (forall e' tr, Q (Throw e') tr) ->
  (forall c t', printed a ms c (pre ++ t') -> Q (Ok c) (pre ++ t')) -> T pre (commit_of ctx a root ms e) Q.
Proof using Type.
  intros H1 H2 HT HO. unfold commit_of, runHostStep. repeat (traced_step; try apply HT).
  - by eapply calm_git.
  - apply HO. exists a0. split; [rewrite !elem_of_app, elem_of_cons; auto | done].
Qed.

Lemma inspect_commit_traced pre (Q : res (jsstr * list jsstr) -> list event -> Prop) :
  (forall e tr, Q (Throw e) tr) ->
  (forall rc changed tr, result_checked rc tr -> paths_committable changed tr -> Q (Ok (rc, changed)) tr) ->
  T pre (inspect_commit ctx root pid refs record) Q.
Proof using Hproject.
  intros HT HO. unfold inspect_commit. apply traced_bind, commit_of_traced; [by vm_compute | by vm_compute | apply HT|].
  intros rc t' Hrc. unfold changedPathsBetween, must. rewrite Hproject.
  repeat (traced_step; try apply HT; try no_commit).
  repeat match goal with H : negb _ = false |- _ => apply negb_false_iff in H end. apply HO.
  - split; [by apply printed_app|]. intros c Hc. rewrite Hc in H. by apply str_eqb_eq, negb_false_iff.
  - split; [by eapply bool_decide_eq_false_1|]. split; [eexists; split; [rewrite !elem_of_app, elem_of_cons; auto | done]|].
    apply checkProtectedPaths_nil. by eapply bool_decide_eq_true_1.
Qed.

Lemma recover_intent_traced pre rc changed intent (Q : res Recovery -> list event -> Prop) :
  (forall e tr, Q (Throw e) tr) ->
  (forall parent t', printed HEAD_ARGV 120000 parent (pre ++ t') -> intent = (rc, parent) ->
     Q (Ok (Retry parent)) (pre ++ t')) ->
  (forall head t', Q (Ok (Landed head)) (pre ++ t')) ->
  T pre (recover_intent ctx root rc changed intent) Q.
Proof using Type.
  intros HT HR HL. unfold recover_intent. destruct intent as [x parent]. traced_step. traced_step; [apply HT|].
  apply negb_false_iff, str_eqb_eq in H as ->.
  apply traced_bind, commit_of_traced; [by vm_compute | by vm_compute | apply HT |]. intros h t' Hh.
  destruct (str_eqb h parent) eqn:He; [apply str_eqb_eq in He as ->; by apply traced_ret, HR|].
  apply traced_bind, commit_of_traced; [by vm_compute | by vm_compute | apply HT |]. intros q t'' Hq.
  unfold runHostStep. repeat (traced_step; try apply HT; try no_commit). rewrite <- !app_assoc. apply HL.
Qed.

Lemma commit_steps_Ok changed steps :
  commit_steps changed message = Ok steps ->
  exists m, steps = [argv ["git"; "add"; "--"] ++ changed;
    argv ["git"] ++ GIT_COMMIT_IDENTITY ++ argv ["commit"; "-m"] ++ [m; js "--"] ++ changed].
Proof.
  unfold commit_steps, buildGitCommitArgv. rewrite !res_seq_Ok. intros (_ & _ & _ & [= <-]). by eexists.
Qed.

(** The two steps of a commit, on a checked result. *)
Lemma steps_traced pre rc changed steps (Q : res (list HostStepResult) -> list event -> Prop) :
  commit_ready rc changed pre -> commit_steps changed message = Ok steps -> (forall r tr, Q r tr) ->
  T pre (mapM_ (commit_step ctx root) steps) Q.
Proof using Type.
  intros Hr Hs HQ. destruct (commit_steps_Ok _ _ Hs) as [m ->]. set (add := _ ++ changed) in Hs |- *.
  set (com := _ ++ _ ++ _) in Hs |- *. cbn [mapM_]. unfold commit_step, runHostStep.
  repeat (traced_step; try apply HQ).
  - intros _. exists rc, changed, add, com. split_and!; [done | done | by left].
  - intros _. exists rc, changed, add, com. split_and!; [by apply commit_ready_app | done |]. right. split; [done|].
    exists a. split; [rewrite !elem_of_app, elem_of_cons; auto|]. apply negb_false_iff in H. by eapply bool_decide_eq_true_1.
Qed.

Lemma head_traced pre e (Q : res jsstr -> list event -> Prop) :
  (forall r tr, Q r tr) -> T pre (commit_of ctx HEAD_ARGV root 120000 e) Q.
Proof using Type. intros HQ. apply commit_of_traced; [by vm_compute | by vm_compute | intros; apply HQ | intros; apply HQ]. Qed.
End commit.

(** Letting a worker go is not git's business. *)
Definition not_git (c : call) : Prop := match c with CGit _ _ => False | _ => True end.

Lemma drain_loop_only P ctx n : only_calls P (drain_loop ctx n).
Proof. induction n as [|n IH]; cbn [drain_loop]; repeat first [exact IH | only_step]. Qed.

Lemma releaseRetainedWorker_not_git ctx sid : only_calls not_git (releaseRetainedWorker ctx sid).
Proof.
  unfold releaseRetainedWorker, releaseWorker, removePoolAllocation, drainQueue, try_remove, log.
  repeat first [exact I | apply drain_loop_only | only_step].
Qed.

Section committed.
  Context (ctx : OpContext) (root pid sid : jsstr) (project : Project) (refs : ResultRefs) (record : SessionRecord).
  Context (message : jsval).
  Hypothesis Hproject : project_of ctx pid = Some project.
#[local] Abbreviation T := (traced (commit_rule ctx root project refs record message)).
#[local] Abbreviation done_ := (fun _ _ => True).

Lemma record_commit_traced {A} pre from rc c (m : M A) :
  (forall tr, T tr m done_) -> T pre (_ ← record_commit ctx sid from rc c; m) done_.
Proof using Type.
  intros Hm. unfold record_commit. do 2 traced_step. traced_step. destruct r; [|exact I].
  apply (traced_only _ _ _ not_git).
  - apply releaseRetainedWorker_not_git.
  - intros e tr He. apply calm. intros x opts Hc. by rewrite Hc in He.
  - intros [u|e] t _; [apply Hm | exact I].
Qed.

Lemma commit_changes_traced pre rc changed retry :
  truthy (committedCommit record) = None ->
  result_checked root refs record rc pre -> paths_committable ctx project refs changed pre ->
  match retry with
  | Some parent => printed root HEAD_ARGV 120000 parent pre /\ pendingCommit record = Some (rc, parent)
  | None => pendingCommit record = None
  end ->
  T pre (commit_changes ctx sid root rc (state record) changed message retry) done_.
Proof using Type.
  intros Hc Hrc Hch Hparent. unfold commit_changes.
  apply traced_bind.
  assert (forall t' (parent : jsstr), parent_known root record rc (pre ++ t') ->
    T (pre ++ t') (_ ← store_touch sid [P_pendingCommit (Some (rc, parent))] None;
       steps ← lift (commit_steps changed message);
       results ← mapM_ (commit_step ctx root) steps;
       committedCommit ← commit_of ctx HEAD_ARGV root 120000
                           (state_error (js "git commit succeeded but its committed HEAD could not be recorded"));
       _ ← record_commit ctx sid (state record) rc committedCommit;
       mret (commit_json true committedCommit changed results)) done_) as Hrest.
  { intros t' parent Hp. traced_step. traced_step. destruct r; [|exact I]. traced_step. traced_step.
    destruct (commit_steps changed message) as [steps|] eqn:Hs; [|exact I].
    traced_step. eapply steps_traced; [|exact Hs|].
    - split_and!; [done | by apply result_checked_app | by apply paths_committable_app | done].
    - intros [results|?] tr; [|exact I]. traced_step. apply head_traced. intros [c|?] tr'; [|exact I].
      apply record_commit_traced. intros tr''. by apply traced_ret. }
  destruct retry as [parent|].
  - destruct Hparent as [Hp Hi]. apply traced_ret. rewrite <- (app_nil_r pre). apply Hrest.
    exists parent. rewrite app_nil_r. split; [done|]. intros intent. rewrite Hi. by intros [= <-].
  - apply commit_of_traced; [by vm_compute | by vm_compute | done |]. intros parent t' Hp. apply Hrest.
    exists parent. split; [done|]. by rewrite Hparent.
Qed.

Lemma commit_result_traced : T [] (commit_result ctx sid pid root refs record message) done_.
Proof using Hproject.
  unfold commit_result. apply traced_bind, (inspect_commit_traced ctx root pid project refs record message Hproject); [done|].
  intros rc changed tr Hrc Hch. destruct (truthy (committedCommit record)) eqn:Hc; [by apply traced_ret|].
  destruct (pendingCommit record) as [intent|] eqn:Hi; [|by apply commit_changes_traced].
  apply traced_bind, recover_intent_traced; [done|..].
  - intros parent t' Hp ->. apply commit_changes_traced; [done | by apply result_checked_app | by apply paths_committable_app | done].
  - intros head t'. apply record_commit_traced. intros tr'. by apply traced_ret.
Qed.
End committed.


(** ** Recovery of an interrupted commit *)

(** The host answers a call this way, whenever it is made. *)
Definition answers (E : Environment) (c : call) (r : SpawnResult) : Prop :=
  forall w, exists w', on_proc E c w = (Ok r, w').

(** A run from worlds in [I] stays in [I], commits nothing, and ends in [Q]. *)
Definition steady {A} (I : world -> Prop) (m : M A) (Q : res A -> Prop) : Prop :=
  forall w, I w -> wp m (fun r w' t => Q r /\ I w' /\ Forall (fun e => ~ commits e) t) w.

Section steady.
  Context (I : world -> Prop).

Lemma steady_ret {A} (a : A) (Q : res A -> Prop) : Q (Ok a) -> steady I (mret a) Q.
Proof. intros HQ w Hw. split_and!; [done | done | constructor]. Qed.
Lemma steady_throw_when b e (Q : res unit -> Prop) : b = false -> Q (Ok tt) -> steady I (throw_when b e) Q.
Proof. intros -> HQ w Hw. split_and!; [done | done | constructor]. Qed.
Lemma steady_bind {A B} (m : M A) (f : A -> M B) (Q : res B -> Prop) a :
  steady I m (fun r => r = Ok a) -> steady I (f a) Q -> steady I (mbind f m) Q.
Proof.
  intros Hm Hf w Hw. apply wp_bind. eapply wp_mono; [by apply Hm|]. intros r w1 t1 (-> & H1 & Ht1).
  eapply wp_mono; [by apply Hf|]. intros r w2 t2 (? & ? & ?). split_and!; [done | done | by apply Forall_app].
Qed.

Lemma commits_not_taken a opts r :
  take 2 a <> argv ["git"; "add"] -> take 2 a <> argv ["git"; "-c"] -> ~ commits (EvProc (CGit a opts) r).
Proof. intros H1 H2 (a' & opts' & [= <- <-] & [H|H]); done. Qed.

Lemma steady_call E a opts r :
  env_keeps I E -> answers E (CGit a opts) r ->
  take 2 a <> argv ["git"; "add"] -> take 2 a <> argv ["git"; "-c"] ->
  steady I (call_proc E (CGit a opts)) (fun x => x = Ok r).
Proof.
  intros HE Ha H1 H2 w Hw. unfold wp, call_proc. destruct (Ha w) as [w' Hw']. pose proof (HE (CGit a opts) w Hw) as [Hk _].
  rewrite Hw' in Hk |- *. split_and!; [done | exact Hk | repeat constructor; by apply commits_not_taken].
Qed.

Lemma steady_step ctx a root ms r (Q : res HostStepResult -> Prop) :
  env_keeps I (env ctx) -> answers (env ctx) (step_call a root ms) r ->
  take 2 a <> argv ["git"; "add"] -> take 2 a <> argv ["git"; "-c"] ->
  Q (Ok (step_result a r)) -> steady I (runHostStep ctx a root ms) Q.
Proof.
  intros HE Ha H1 H2 HQ. unfold runHostStep. eapply steady_bind; [by apply steady_call | by apply steady_ret].
Qed.

Lemma steady_commit_of ctx a root ms e r c :
  env_keeps I (env ctx) -> answers (env ctx) (step_call a root ms) r ->
  take 2 a <> argv ["git"; "add"] -> take 2 a <> argv ["git"; "-c"] ->
  printed_commit (step_result a r) = Some c -> steady I (commit_of ctx a root ms e) (fun x => x = Ok c).
Proof.
  intros HE Ha H1 H2 Hc. unfold commit_of. eapply steady_bind; [by eapply steady_step|]. rewrite Hc. by apply steady_ret.
Qed.
End steady.

(** The record of a commit. *)
Definition committed_record (sid rc head : jsstr) (r : SessionRecord) : Prop :=
  sessionID r = sid /\ state r = RETAINED /\ installedCommit r = Some rc /\ committedCommit r = Some head /\
  pendingCommit r = None.

Lemma keeps_touch_committed sid rc head :
  keeps (holds_some sid (committed_record sid rc head)) (store_touch sid destroyed_patch None).
Proof.
  intros w (r & Hr & Hid & Hst & Hi & Hc & Hp).
  destruct (store_touch_run sid destroyed_patch None r w) as (u & Hrun & Hid' & Hs); try done.
  unfold wp. rewrite Hrun. eexists. split; [apply holds_insert|]. split_and!; done.
Qed.

(** Letting the worker go never fails and leaves the commit's record. *)
Lemma releaseRetainedWorker_wp ctx sid rc head w :
  session_locked sid (env ctx) -> holds_some sid (committed_record sid rc head) w ->
  wp (releaseRetainedWorker ctx sid) (fun r w' t => r = Ok tt /\ holds_some sid (committed_record sid rc head) w' /\
    Forall (fun e => ~ commits e) t) w.
Proof.
  intros Hlock Hw. pose proof (session_locked_some sid (committed_record sid rc head) (env ctx) Hlock) as HE.
  assert (keeps (holds_some sid (committed_record sid rc head)) (releaseRetainedWorker ctx sid)) as Hk.
  { unfold releaseRetainedWorker. keeps_go;
      first [apply keeps_releaseWorker; [apply holds_some_store_only | done] | apply keeps_touch_committed]. }
  specialize (Hk w Hw). pose proof (releaseRetainedWorker_not_git ctx sid w) as Ho.
  assert (wp (releaseRetainedWorker ctx sid) (fun r _ _ => r = Ok tt) w) as Hr.
  { destruct Hw as (r & Hr & _). unfold releaseRetainedWorker. apply wp_bind. unfold wp at 1. rewrite (store_get_holds _ _ _ Hr).
    destruct (live_worker r); [|done]. apply wp_try_catch. unfold wp at 1.
    match goal with |- context [mbind ?f ?m w] => destruct (mbind f m w) as [[[[]|e] w1] t1] end; [done|].
    apply wp_try_catch. unfold wp at 1. by destruct (log _ _ _ _ _ w1) as [[[[]|?] ?] ?]. }
  unfold wp in *. destruct (releaseRetainedWorker ctx sid w) as [[r w'] t]. split_and!; [done | done|].
  eapply Forall_impl; [exact Ho|]. cbv beta. intros e He (a & opts & Hc & _). by rewrite Hc in He.
Qed.

Lemma record_commit_wp ctx sid from rc head r w :
  session_locked sid (env ctx) -> holds sid r w -> sessionID r = sid -> state r = from -> legal from RETAINED = true ->
  wp (record_commit ctx sid from rc head) (fun x w' t => x = Ok tt /\ holds_some sid (committed_record sid rc head) w' /\
    Forall (fun e => ~ commits e) t) w.
Proof.
  intros Hlock Hr Hid Hs Hl. unfold record_commit.
  destruct (store_transition_run sid from RETAINED
    [P_installedCommit (Some rc); P_committedCommit (Some head); P_pendingCommit None] r w)
    as (Hrun & Hid' & Hs'); try done. cbv zeta in *.
  apply wp_bind. unfold wp at 1. rewrite Hrun. apply releaseRetainedWorker_wp; [done|].
  eexists. split; [apply holds_insert|]. by split_and!.
Qed.

(** Where an interrupted commit stands: its intent is recorded, and git finds
    the result's commit, a HEAD one commit after the recorded parent, and no
    difference from the result on its paths. *)
Record landed (ctx : OpContext) (root : jsstr) (project : Project) (refs : ResultRefs) (record : SessionRecord)
    (rc parent head : jsstr) (changed : list jsstr) : Prop := mkLanded {
  la_intent : pendingCommit record = Some (rc, parent);
  la_open : truthy (committedCommit record) = None;
  la_installed : forall c, truthy (installedCommit record) = Some c -> c = rc;
  la_legal : legal (state record) RETAINED = true;
  la_moved : head <> parent;
  la_result : exists r, answers (env ctx) (step_call (buildResultCommitArgv (rr_result refs)) root 60000) r /\
    printed_commit (step_result (buildResultCommitArgv (rr_result refs)) r) = Some rc;
  la_changed : exists r, answers (env ctx) (changed_paths_call project (rr_baseline refs) (rr_result refs)) r /\
    ok_status r = true /\ parseNulDelimitedPaths (stdout r) = mkNulPaths changed true;
  la_some : changed <> [];
  la_open_paths : checkProtectedPaths changed (protectedPaths (cfg ctx) ++ protectedSecurityFiles (cfg ctx)) = [];
  la_head : exists r, answers (env ctx) (step_call HEAD_ARGV root 120000) r /\
    printed_commit (step_result HEAD_ARGV r) = Some head;
  la_parent : exists r, answers (env ctx) (step_call PARENT_ARGV root 120000) r /\
    printed_commit (step_result PARENT_ARGV r) = Some parent;
  la_tree : exists r, answers (env ctx)
      (step_call (argv ["git"; "diff"; "--quiet"] ++ [rc; js "HEAD"; js "--"] ++ changed) root 120000) r /\
    status r = Some 0
}.

Lemma recover_landed ctx root project refs record rc parent head changed I :
  env_keeps I (env ctx) -> landed ctx root project refs record rc parent head changed ->
  steady I (recover_intent ctx root rc changed (rc, parent)) (fun x => x = Ok (Landed head)).
Proof.
  intros HE L. destruct (la_head _ _ _ _ _ _ _ _ _ L) as (rh & Hh & Hh'), (la_parent _ _ _ _ _ _ _ _ _ L) as (rp & Hp & Hp'),
    (la_tree _ _ _ _ _ _ _ _ _ L) as (rt & Ht & Ht').
  unfold recover_intent. eapply steady_bind; [apply steady_throw_when; [by rewrite (proj2 (str_eqb_eq _ _) eq_refl) | reflexivity]|].
  eapply steady_bind; [eapply steady_commit_of; [done | exact Hh | by vm_compute | by vm_compute | exact Hh']|].
  assert (str_eqb head parent = false) as -> by (apply str_eqb_neq, (la_moved _ _ _ _ _ _ _ _ _ L)).
  eapply steady_bind; [eapply steady_commit_of; [done | exact Hp | by vm_compute | by vm_compute | exact Hp']|].
  eapply steady_bind; [apply steady_throw_when; [by rewrite (proj2 (str_eqb_eq _ _) eq_refl) | reflexivity]|].
  eapply steady_bind; [eapply steady_step; [done | exact Ht | by vm_compute | by vm_compute | reflexivity]|].
  eapply steady_bind; [apply steady_throw_when; [unfold step_ok; cbn; by rewrite bool_decide_eq_true_2 | reflexivity]|].
  by apply steady_ret.
Qed.

Lemma inspect_landed ctx pid root project refs record rc parent head changed I :
  project_of ctx pid = Some project ->
  env_keeps I (env ctx) -> landed ctx root project refs record rc parent head changed ->
  steady I (inspect_commit ctx root pid refs record) (fun x => x = Ok (rc, changed)).
Proof.
  intros Hproject HE L. destruct (la_result _ _ _ _ _ _ _ _ _ L) as (rr & Hr & Hr'), (la_changed _ _ _ _ _ _ _ _ _ L) as (rh & Hh & Hs & Hp).
  unfold inspect_commit, changedPathsBetween, must. rewrite Hproject.
  eapply steady_bind; [eapply steady_commit_of; [done | exact Hr | by vm_compute | by vm_compute | exact Hr']|].
  eapply steady_bind; [apply steady_throw_when; [|reflexivity]|].
  { destruct (truthy (installedCommit record)) as [c|] eqn:Hc; [|done].
    rewrite (la_installed _ _ _ _ _ _ _ _ _ L c Hc). by rewrite (proj2 (str_eqb_eq _ _) eq_refl). }
  eapply steady_bind; [eapply steady_bind; [apply steady_call; [done | exact Hh | by vm_compute | by vm_compute]|]|].
  - eapply steady_bind; [apply steady_throw_when; [by rewrite Hs | reflexivity]|]. rewrite Hp.
    eapply steady_bind; [apply steady_throw_when; reflexivity|]. by apply steady_ret.
  - eapply steady_bind; [apply steady_throw_when; [|reflexivity]|].
    { apply bool_decide_eq_false_2, (la_some _ _ _ _ _ _ _ _ _ L). }
    eapply steady_bind; [apply steady_throw_when; [|reflexivity]|]; [|by apply steady_ret].
    apply negb_false_iff, bool_decide_eq_true_2, (la_open_paths _ _ _ _ _ _ _ _ _ L).
Qed.

(** The run of an authorized commit, once its beginning is known. *)
Lemma gitCommit_begun_run ctx req w sid pid root project refs record message :
  commit_begun ctx req w sid pid root project refs record message ->
  authorize ctx (js "gitCommit") (req_sessionID req) orchestrator w = (Ok tt, w, []) ->
  gitCommit ctx req w = commit_result ctx sid pid root refs record message w.
Proof.
  intros (payload & Hp & Hroot & _ & -> & -> & Hrefs & Hrec) Hauth. unfold gitCommit. rewrite Hp, run_lift_Ok.
  rewrite (run_bind_pure _ _ _ _ _ Hauth), Hroot, run_lift_Ok. cbn beta iota.
  by rewrite (run_bind_pure _ _ _ _ _ Hrefs), (run_bind_pure _ _ _ _ _ Hrec).
Qed.

(** An interrupted commit is recorded by the next call.  If a commit of a
    result landed but the broker stopped before recording it (the intent is on
    the record, HEAD is one commit after the recorded parent and equals the
    result on its paths), then gitCommit, in a session nobody else writes,
    always ends well: it answers that the result is already committed at HEAD,
    makes no staging and no commit, and leaves the record RETAINED with HEAD as
    its commit, the installed result and no intent, whatever else the release of
    the worker meets. *)
Theorem interrupted_commit_recorded ctx req w sid pid root project refs record message rc parent head changed :
  commit_begun ctx req w sid pid root project refs record message ->
  session_locked sid (env ctx) -> holds sid record w -> sessionID record = sid ->
  landed ctx root project refs record rc parent head changed ->
  authorize ctx (js "gitCommit") (req_sessionID req) orchestrator w = (Ok tt, w, []) ->
  exists w' t, gitCommit ctx req w = (Ok (commit_json false head changed []), w', t) /\
    Forall (fun e => ~ commits e) t /\
    exists r', holds sid r' w' /\ committed_record sid rc head r'.
Proof.
  intros Hbegun Hlock Hw Hid L Hauth. rewrite (gitCommit_begun_run _ _ _ _ _ _ _ _ _ _ Hbegun Hauth).
  destruct Hbegun as (payload & _ & _ & Hproject & _).
  assert (wp (commit_result ctx sid pid root refs record message) (fun r w' t =>
    r = Ok (commit_json false head changed []) /\ holds_some sid (committed_record sid rc head) w' /\
    Forall (fun e => ~ commits e) t) w) as Hwp.
  { unfold commit_result. apply wp_bind. eapply wp_mono; [eapply inspect_landed; [exact Hproject | apply Hlock | exact L | exact Hw]|].
    intros r w1 t1 (-> & H1 & Ht1). rewrite (la_open _ _ _ _ _ _ _ _ _ L), (la_intent _ _ _ _ _ _ _ _ _ L).
    apply wp_bind. eapply wp_mono; [eapply recover_landed; [apply Hlock | exact L | exact H1]|].
    intros r w2 t2 (-> & H2 & Ht2). apply wp_bind.
    eapply wp_mono; [exact (record_commit_wp ctx sid _ rc head record w2 Hlock H2 Hid eq_refl (la_legal _ _ _ _ _ _ _ _ _ L))|].
    intros r w3 t3 (-> & H3 & Ht3). split_and!; [done | done | repeat (apply Forall_app; split); by try constructor]. }
  unfold wp in Hwp. destruct (commit_result _ _ _ _ _ _ _ w) as [[r w'] t]. destruct Hwp as (-> & Hr & Ht).
  exists w', t. by split_and!.
Qed.

(** ** Concrete commits *)
Definition sample_head : jsstr := repeat 98%N 40.
Definition sample_parent : jsstr := repeat 99%N 40.

(** Git knows the result's commit, HEAD, its parent and one changed file; the
    rest succeeds. *)
Definition commit_output (c : call) : jsstr :=
  match c with
  | CGit a _ =>
      if existsb (str_eqb (js "HEAD^")) a then sample_parent
      else if existsb (str_eqb (js "--verify")) a then sample_commit
      else if existsb (str_eqb (js "rev-parse")) a then sample_head
      else if existsb (str_eqb (js "--name-only")) a then js "a.txt" ++ [0%N]
      else []
  | _ => []
  end.
Definition commit_env : Environment :=
  mkEnv (fun c w => (Ok (mkSpawn (Some 0) (commit_output c) [] false false false), w))
        (on_unit quiet_env) (on_bool quiet_env) (on_text quiet_env) (on_int quiet_env) (on_names quiet_env) (on_stats quiet_env).

Definition commit_record (s : SessionState) (intent : option (jsstr * jsstr)) : SessionRecord :=
  apply_patch [P_state s; P_projectID (Some (js "p")); P_agent (Some (js "gentle-orchestrator"));
               P_resultRef (Some (RESULT_REF_PREFIX ++ js "/s")); P_installedCommit (Some sample_commit);
               P_pendingCommit intent] (fresh_record (js "s") (js "t0")).
Definition commit_world (r : SessionRecord) : world := sample_world {[ js "s" := RFRecord r ]}.
Definition commit_req : BrokerRequestEnvelope :=
  sample_req Op.gitCommit None
    (JObj [(js "projectDir", JStr (js "/work/p")); (js "message", JStr (js "feat: add a"))]).

(** Whether an event of the run is a commit that succeeded. *)
Definition committed_event (e : event) : bool :=
  match e with
  | EvProc (CGit a _) (Ok r) => bool_decide (take 2 a = argv ["git"; "-c"]) && ok_status r
  | _ => false
  end.

Lemma committed_event_commits e : committed_event e = true -> commits e.
Proof.
  unfold committed_event, commits. destruct e as [c r| | | | | |]; try discriminate. destruct c; try discriminate.
  destruct r; [|discriminate]. rewrite andb_true_iff. intros [H%bool_decide_eq_true _]. cbn [call_of]. eauto.
Qed.

Lemma retained_commit_never_recorded_witness :
  exists out w' t, gitCommit (sample_ctx commit_env) commit_req (commit_world (commit_record RETAINED None)) = (out, w', t) /\
    existsb committed_event t = true /\ exists e, out = Throw e.
Proof.
  destruct (gitCommit (sample_ctx commit_env) commit_req (commit_world (commit_record RETAINED None))) as [[out w'] t] eqn:Hrun.
  exists out, w', t. split; [reflexivity|]. split.
  - pose proof (f_equal (fun x => existsb committed_event (snd x)) Hrun) as H. cbn [snd] in H. rewrite <- H.
    vm_compute. reflexivity.
  - apply (retained_commit_never_recorded (sample_ctx commit_env) commit_req (commit_world (commit_record RETAINED None))
      (commit_record RETAINED None) out w' t Hrun); [|reflexivity|reflexivity].
    intros payload Hp. vm_compute in Hp. injection Hp as <-. vm_compute. reflexivity.
Defined.


Lemma commit_env_answers c :
  answers commit_env c (mkSpawn (Some 0) (commit_output c) [] false false false).
Proof. intros w. by eexists. Qed.

Lemma commit_env_locked sid : session_locked sid commit_env.
Proof. intros r c w H. by repeat split. Qed.

Definition interrupted_record : SessionRecord := commit_record RESULT_READY (Some (sample_commit, sample_parent)).

Lemma interrupted_landed :
  landed (sample_ctx commit_env) (js "/work/p") (mkProject (js "p") (js "/work/p"))
    (mkRefs (BASELINE_REF_PREFIX ++ js "/s") (RESULT_REF_PREFIX ++ js "/s")) interrupted_record
    sample_commit sample_parent sample_head [js "a.txt"].
Proof.
  constructor;
    lazymatch goal with
    | |- exists _, _ => eexists; (split; [apply commit_env_answers|]); first [split; vm_compute; reflexivity | vm_compute; reflexivity]
    | |- forall c, _ => intros c H; vm_compute in H; injection H as <-; reflexivity
    | |- _ <> _ => vm_compute; discriminate
    | |- _ => vm_compute; reflexivity
    end.
Qed.

Lemma interrupted_begun :
  commit_begun (sample_ctx commit_env) commit_req (commit_world interrupted_record) (js "s") (js "p") (js "/work/p")
    (mkProject (js "p") (js "/work/p")) (mkRefs (BASELINE_REF_PREFIX ++ js "/s") (RESULT_REF_PREFIX ++ js "/s"))
    interrupted_record (JStr (js "feat: add a")).
Proof.
  exists (JObj [(js "projectDir", JStr (js "/work/p")); (js "message", JStr (js "feat: add a"))]).
  split; [reflexivity|]. split; [vm_compute; reflexivity|]. split; [vm_compute; reflexivity|].
  split; [vm_compute; reflexivity|]. split; [vm_compute; reflexivity|]. split; vm_compute; reflexivity.
Qed.

Lemma interrupted_commit_recorded_witness :
  exists w' t, gitCommit (sample_ctx commit_env) commit_req (commit_world interrupted_record)
      = (Ok (commit_json false sample_head [js "a.txt"] []), w', t) /\
    Forall (fun e => ~ commits e) t /\
    exists r', holds (js "s") r' w' /\ committed_record (js "s") sample_commit sample_head r'.
Proof.
  apply (interrupted_commit_recorded (sample_ctx commit_env) commit_req (commit_world interrupted_record)
    (js "s") (js "p") (js "/work/p") (mkProject (js "p") (js "/work/p"))
    (mkRefs (BASELINE_REF_PREFIX ++ js "/s") (RESULT_REF_PREFIX ++ js "/s")) interrupted_record
    (JStr (js "feat: add a")) sample_commit sample_parent sample_head [js "a.txt"]).
  - exact interrupted_begun.
  - apply commit_env_locked.
  - apply lookup_singleton_eq.
  - reflexivity.
  - exact interrupted_landed.
  - vm_compute. reflexivity.
Defined.
