(* ===== verification/PlanDocOps.v ===== *)
(** * Plan-document operations (broker/src/service.ts)

    The four ways a plan document changes: an append to the project's TODO or
    PLAN, a whole new revision of a task plan, a gate verdict and a task mark.
    Each reads the document, computes the next text (PlanDoc.v), writes it to a
    temporary file beside the document, checks again and renames.  An operation
    holds the lock of its destination (withPlanDocLock, a promise chain per
    path), so the broker itself runs one of them per document at a time; what
    other processes do to the files is the environment's. *)
From Stdlib Require Import QArith.
From S2P Require Import Prelude JsVal Types State Policy Path Validation HostPaths HostArgs Envelope.
From S2P Require Import RolePolicy GitOps Artifacts Queue Effects Worker Redact Results Diff Authorization Codec FileOps HostSteps PlanDoc.
Open Scope Z_scope.

Definition PLAN_DOC_TEMP_PREFIX : jsstr := js ".plan-doc-".

Section ops.
  Context (ctx : OpContext).
#[local] Abbreviation E := (env ctx).

(** ** Checks of the destination *)
Definition lstatIfExists (path : jsstr) : M (option Stats) :=
  try_catch (s ← call_stats E (CLstat path); mret (Some s)) (fun _ => mret None).

Definition assertBeneathProjectRoot (projectRoot target : jsstr) : M unit :=
  canonical ← try_catch (call_text E (CRealpath target))
    (fun _ => throw (invalid "plan document path does not resolve on the host"));
  throw_when (negb (isWithin projectRoot canonical)) (invalid "plan document escapes the approved project root").

(** The paths from the root down to the destination, the root left out. *)
Fixpoint descend (path : jsstr) (segments : list jsstr) : list jsstr :=
  match segments with
  | [] => []
  | s :: rest => let next := join [path; s] in next :: descend next rest
  end.
Definition path_segments (text : jsstr) : list jsstr :=
  List.filter (fun s => 0 <? js_length s) (concat (map (split_on 92) (split_on 47 text))).

Definition assertPlanDocWriteNoSymlinks (projectRoot destination : jsstr) : M unit :=
  for_eachM (fun path =>
      st ← lstatIfExists path;
      throw_when (match st with Some s => isSymbolicLink s | None => false end)
        (invalid_ [js "PLAN_WRITE_SYMLINK_REFUSED: "; path]))
    (descend projectRoot (path_segments (drop (length projectRoot) destination))).

Definition fsyncPlanDocDirectory (directory : jsstr) : M unit :=
  best_effort (
    _ ← call_unit E (COpenRead directory);
    try_finally (call_unit E (CFsyncFd directory)) (best_effort (call_unit E (CCloseFd directory)))).

(** ** Staged writes *)
Definition temp_path (parent : jsstr) : M jsstr :=
  uuid ← call_text E CRandomUUID;
  mret (join [parent; PLAN_DOC_TEMP_PREFIX ++ uuid ++ js ".tmp"]).

(** The whole text in the open temporary file, synced and closed. *)
Definition fill_temp (tempPath text : jsstr) : M unit :=
  try_finally
    (_ ← call_unit E (CWriteFd tempPath text); call_unit E (CFsyncFd tempPath))
    (call_unit E (CCloseFd tempPath)).

(** [try { m } finally { if (tempWritten) unlink }], with the flag cleared at
    the end of [m]. *)
Definition unlinked_on_failure (tempPath : jsstr) (m : M unit) : M unit :=
  try_catch m (fun e => _ ← best_effort (call_unit E (CUnlink tempPath)); throw e).

(** The flag is set once the file is open. *)
Definition publish (tempPath destination text : jsstr) (recheck : M unit) : M unit :=
  _ ← call_unit E (COpenExclusive tempPath 384);
  _ ← unlinked_on_failure tempPath
        (_ ← fill_temp tempPath text;
         _ ← recheck;
         call_unit E (CRename tempPath destination));
  fsyncPlanDocDirectory (dirname destination).

(** ** Append *)
Record PlanDocWriteResult := mkWritten { pw_created : bool; pw_bytes : Z }.

(** Here the flag is set only once the file is complete. *)
Definition publish_append (tempPath destination text : jsstr) (recheck : M unit) : M unit :=
  _ ← call_unit E (COpenExclusive tempPath 384);
  _ ← fill_temp tempPath text;
  _ ← unlinked_on_failure tempPath
        (_ ← recheck;
         call_unit E (CRename tempPath destination));
  fsyncPlanDocDirectory (dirname destination).

Definition appendPlanDocAtomically (projectRoot destination content : jsstr) (heading : option jsstr)
    : M PlanDocWriteResult :=
  let parent := dirname destination in
  existing ← lstatIfExists destination;
  _ ← throw_when (match existing with Some s => negb (isFile s) | None => false end)
        (invalid "plan document destination is not a regular file");
  _ ← when (bool_decide (existing = None)) (call_unit E (CMkdir parent));
  _ ← assertBeneathProjectRoot projectRoot parent;
  _ ← when (negb (bool_decide (existing = None))) (assertBeneathProjectRoot projectRoot destination);
  current ← (match existing with Some _ => call_text E (CReadFile destination) | None => mret [] end);
  nextText ← lift (computePlanDocAppend current content heading);
  tempPath ← temp_path parent;
  _ ← publish_append tempPath destination nextText
        (currentEntry ← lstatIfExists destination;
         _ ← throw_when (match currentEntry with Some s => negb (isFile s) | None => false end)
               (invalid "plan document destination changed to a non-regular file");
         assertBeneathProjectRoot projectRoot parent);
  mret (mkWritten (bool_decide (existing = None)) (byteLength nextText)).

(** The destination of a document, which must be neither outside the project
    nor protected. *)
Definition plan_destination (projectRoot relative : jsstr) (escape protected : string) : res jsstr :=
  let destination := resolve2 projectRoot relative in
  _ ← throw_if (negb (isWithin projectRoot destination)) (invalid escape);
  let rejected := checkProtectedPaths [relative] (protectedPaths (cfg ctx) ++ protectedSecurityFiles (cfg ctx)) in
  _ ← throw_if (negb (bool_decide (rejected = []))) (invalid_ [js protected; list_text rejected]);
  Ok destination.

Definition optional_heading (v : jsval) : res (option jsstr) :=
  match v with
  | JUndef => Ok None
  | _ => _ ← assertPlanDocHeading v; Ok (Some (text_of v))
  end.

Definition planDocAppend (req : BrokerRequestEnvelope) : M jsval :=
  payload ← lift (payloadOf req);
  _ ← authorize ctx (js "planDocAppend") (req_sessionID req) orchestrator;
  root ← lift (resolveCanonicalProjectRoot ctx (field payload (js "projectDir")));
  let '(_, projectRoot) := root in
  _ ← lift (assertPlanDocName (field payload (js "doc")));
  let doc := text_of (field payload (js "doc")) in
  let relative := default [] (assoc doc PLAN_DOC_TARGETS) in
  destination ← lift (plan_destination projectRoot relative "plan document escapes the approved project root"
                        "refusing protected plan document destination (S17): ");
  content ← lift (normalizePlanDocContent (field payload (js "content")));
  heading ← lift (optional_heading (field payload (js "heading")));
  result ← appendPlanDocAtomically projectRoot destination content heading;
  mret (JObj [(js "doc", JStr doc); (js "path", JStr relative); (js "created", JBool (pw_created result));
              (js "bytes", jint (pw_bytes result))]).

(** ** A new revision of a plan *)

(** The destination as it is: absent, or one regular file with one name. *)
Definition writable_entry (destination : jsstr) : M (option Stats) :=
  entry ← lstatIfExists destination;
  match entry with
  | None => mret None
  | Some s =>
      _ ← throw_when (negb (isFile s)) (invalid_ [js "PLAN_WRITE_NOT_REGULAR: "; destination]);
      _ ← throw_when (1 <? nlink s)
            (invalid_ [js "PLAN_WRITE_HARDLINK_REFUSED: "; destination; js " link count="; dec (nlink s)]);
      mret (Some s)
  end.

Definition read_if (entry : option Stats) (destination : jsstr) : M (option (list N)) :=
  match entry with
  | Some _ => b ← call_text E (CReadBytes destination); mret (Some b)
  | None => mret None
  end.

Record PlanDocRevision := mkRevision { pr_revision : Z; pr_created : bool; pr_bytes : Z }.

Definition revision_line (revision : Z) (timestamp agent note : jsstr) : jsstr :=
  js "- r" ++ dec revision ++ js " " ++ timestamp ++ js " " ++ agent ++ js ": " ++ trim note.

Definition writePlanDocAtomically (projectRoot destination body agent note : jsstr) (expectedRevision : Z)
    : M PlanDocRevision :=
  let parent := dirname destination in
  _ ← assertPlanDocWriteNoSymlinks projectRoot destination;
  _ ← call_unit E (CMkdir parent);
  _ ← assertPlanDocWriteNoSymlinks projectRoot destination;
  existingStat ← writable_entry destination;
  existingBytes ← read_if existingStat destination;
  let existing := match existingBytes with Some b => utf8_lossy b | None => [] end in
  let current := fst (planDocRevisionSection existing) in
  carriedGates ← lift (carried_gates destination existing);
  _ ← throw_when (negb (current =? expectedRevision))
        (invalid_ [js "PLAN_WRITE_STALE_REVISION: current="; dec current; js " expected="; dec expectedRevision]);
  let revision := current + 1 in
  now ← ask w_now;
  let nextText := next_document existing body (revision_line revision (iso_seconds now) agent note) carriedGates in
  tempPath ← temp_path parent;
  _ ← publish tempPath destination nextText
        (_ ← assertPlanDocWriteNoSymlinks projectRoot destination;
         currentEntry ← writable_entry destination;
         currentBytes ← read_if currentEntry destination;
         lift (assertPlanDocBytesUnchanged destination existingBytes currentBytes));
  mret (mkRevision revision (bool_decide (existingStat = None)) (byteLength nextText)).

(** The agent of the request is the session's. *)
Definition bound_agent (operation : string) (agent_ : jsval) (bound : option jsstr) : res jsstr :=
  match agent_ with
  | JStr a =>
      match truthy bound with
      | Some b => if str_eqb a b then Ok b
                  else Throw (invalid_ [js operation; js "_AGENT_MISMATCH: agent must match the bound session identity"])
      | None => Throw (invalid_ [js operation; js "_AGENT_MISMATCH: agent must match the bound session identity"])
      end
  | _ => Throw (invalid_ [js operation; js "_AGENT_NOT_BOUND: agent must match the bound session identity"])
  end.

Definition has_newline (s : jsstr) : bool := existsb ((fun c => ((c =? 10) || (c =? 13))%N)) s.

Definition plan_target (operation : string) (v : jsval) : res jsstr :=
  match v with
  | JStr t => if str_eqb t (js "tasks") || str_eqb t (js "mini") then Ok t
              else Throw (invalid_ [js operation; js "_TARGET_INVALID: target must be tasks or mini"])
  | _ => Throw (invalid_ [js operation; js "_TARGET_INVALID: target must be tasks or mini"])
  end.

Definition plan_content (v : jsval) : res jsstr :=
  match v with
  | JStr content =>
      _ ← throw_if (byteLength content <? 1) (invalid "PLAN_WRITE_CONTENT_INVALID: content must be at least 1 byte");
      _ ← throw_if (PLAN_DOC_WRITE_MAX_BYTES <? byteLength content)
            (invalid_ [js "PLAN_WRITE_CONTENT_TOO_LARGE: cap="; dec PLAN_DOC_WRITE_MAX_BYTES; js " observed=";
                       dec (byteLength content)]);
      Ok content
  | _ => Throw (invalid "PLAN_WRITE_CONTENT_INVALID: content must be a string")
  end.

Definition is_sol (route : jsstr) : bool := str_eqb (toLowerCase route) (js "sol").

(** The front matter the caller may give: no tier or gate, and a route only in a
    mini plan, where a PM must give one. *)
Definition plan_frontmatter (target bound content : jsstr) : res unit :=
  let frontmatter := leadingPlanFrontmatter content in
  let route := frontmatter ≫= fun f => frontmatterValue f "route" in
  let mini := str_eqb target (js "mini") in
  _ ← throw_if (mini && negb (str_eqb bound (js "planner"))
                && match truthy route with Some r => is_sol r | None => true end)
        (invalid "PLAN_WRITE_PM_ROUTE_REFUSED: PM mini plans require a frontmatter route other than Sol");
  match frontmatter with
  | None => Ok tt
  | Some f =>
      let brokerKeys := List.filter (hasFrontmatterKey f) ["route"; "tier"; "gate"]%string in
      let permitted := mini && match route with Some r => negb (is_sol r) | None => false end in
      let refused := List.filter (fun k => negb (String.eqb k "route") || negb permitted) brokerKeys in
      throw_if (negb (bool_decide (refused = [])))
        (invalid_ [js "PLAN_WRITE_BROKER_FRONTMATTER_REFUSED: "; list_text (map js refused)])
  end.

Definition no_broker_section (content : jsstr) : res unit :=
  match List.find (fun h => is_section "Revisions" h || is_section "Gates" h) (scanPlanDocHeadings content) with
  | Some h => Throw (invalid_ [js "PLAN_WRITE_CONTENT_SECTION_REFUSED: ## "; h_text h])
  | None => Ok tt
  end.

Definition plan_note (v : jsval) : res jsstr :=
  let bad := invalid "PLAN_WRITE_NOTE_INVALID: note must be non-empty, at most 200 characters, and contain no newline" in
  match v with
  | JStr note =>
      if (js_length (trim note) =? 0) || (200 <? js_length (trim note)) || has_newline note then Throw bad else Ok note
  | _ => Throw bad
  end.

Definition plan_revision (v : jsval) : res Z :=
  match v with
  | JNum (NumInt z) => if z <? 0 then Throw (invalid "PLAN_WRITE_REVISION_INVALID: expectedRevision must be an integer >= 0") else Ok z
  | _ => Throw (invalid "PLAN_WRITE_REVISION_INVALID: expectedRevision must be an integer >= 0")
  end.

(** [[...new Set(xs)]] *)
Fixpoint unique (seen xs : list jsstr) : list jsstr :=
  match xs with
  | [] => []
  | x :: xs' => if bool_decide (x ∈ seen) then unique seen xs' else x :: unique (x :: seen) xs'
  end.

Definition plan_writers (target : jsstr) : list jsstr :=
  if str_eqb target (js "tasks") then planWriterAgents (cfg ctx)
  else unique [] (planWriterAgents (cfg ctx) ++ planMiniWriterAgents (cfg ctx)).

Definition planDocWrite (req : BrokerRequestEnvelope) : M jsval :=
  payload ← lift (payloadOf req);
  _ ← authorize ctx (js "planDocWrite") (req_sessionID req) plan_writer;
  existing ← store_get (req_sessionID req);
  bound ← lift (bound_agent "PLAN_WRITE" (field payload (js "agent")) (existing ≫= agent));
  target ← lift (plan_target "PLAN_WRITE" (field payload (js "target")));
  _ ← lift (assertPlanDocWriteName (field payload (js "name")));
  content ← lift (plan_content (field payload (js "content")));
  _ ← lift (plan_frontmatter target bound content);
  _ ← lift (no_broker_section content);
  note ← lift (plan_note (field payload (js "note")));
  expectedRevision ← lift (plan_revision (field payload (js "expectedRevision")));
  _ ← throw_when (negb (mem bound (plan_writers target)))
        (invalid_ [js "PLAN_WRITE_AGENT_REFUSED: target="; target; js " allowed=["; list_text (plan_writers target); js "]"]);
  root ← lift (resolveCanonicalProjectRoot ctx (field payload (js "projectDir")));
  let '(_, projectRoot) := root in
  let relative := js "odd/" ++ target ++ js "/" ++ text_of (field payload (js "name")) ++ js ".md" in
  destination ← lift (plan_destination projectRoot relative "PLAN_WRITE_PATH_ESCAPE: destination escapes project root"
                        "PLAN_WRITE_PROTECTED_PATH: ");
  result ← writePlanDocAtomically projectRoot destination content bound note expectedRevision;
  mret (JObj [(js "target", JStr target); (js "path", JStr relative); (js "revision", jint (pr_revision result));
              (js "created", JBool (pr_created result)); (js "bytes", jint (pr_bytes result))]).

(** ** A gate verdict *)

(** The document must be there. *)
Definition existing_document (destination : jsstr) (absent : exn) (not_file : exn) (linked : Z -> exn) : M unit :=
  entry ← lstatIfExists destination;
  match entry with
  | None => throw absent
  | Some s =>
      _ ← throw_when (negb (isFile s)) not_file;
      throw_when (1 <? nlink s) (linked (nlink s))
  end.

Definition hardlink_refused (operation : string) (destination : jsstr) (links : Z) : exn :=
  invalid_ [js operation; js "_HARDLINK_REFUSED: "; destination; js " link count="; dec links].

Definition appendGateVerdictAtomically (projectRoot destination line : jsstr) : M nat :=
  let parent := dirname destination in
  let linked := hardlink_refused "GATE_VERDICT" destination in
  _ ← assertPlanDocWriteNoSymlinks projectRoot destination;
  _ ← existing_document destination (invalid "GATE_VERDICT_DOCUMENT_MISSING: plan document must already exist")
        (invalid_ [js "GATE_VERDICT_NOT_REGULAR: "; destination]) linked;
  _ ← assertBeneathProjectRoot projectRoot parent;
  _ ← assertBeneathProjectRoot projectRoot destination;
  current ← call_text E (CReadFile destination);
  next ← lift (appendGateLine current line);
  let '(text, gates) := next in
  tempPath ← temp_path parent;
  let changed := invalid "GATE_VERDICT_DESTINATION_CHANGED: plan document is no longer a regular file" in
  _ ← publish tempPath destination text
        (_ ← assertPlanDocWriteNoSymlinks projectRoot destination;
         _ ← existing_document destination changed changed linked;
         assertBeneathProjectRoot projectRoot parent);
  mret gates.

Definition gate_verdict_of (v : jsval) : res GateVerdict :=
  match v with
  | JStr s => match read_verdict s with
              | Some g => Ok g
              | None => Throw (invalid "GATE_VERDICT_INVALID: verdict must be PASS, REFINE, or ESCALATE")
              end
  | _ => Throw (invalid "GATE_VERDICT_INVALID: verdict must be PASS, REFINE, or ESCALATE")
  end.

Definition gate_task (v : jsval) : res jsstr :=
  match v with
  | JStr s => if GATE_TASK_ID_RE s then Ok s
              else Throw (invalid "GATE_VERDICT_TASK_ID_INVALID: taskId must match ^[A-Za-z0-9][A-Za-z0-9._-]{0,63}$")
  | _ => Throw (invalid "GATE_VERDICT_TASK_ID_INVALID: taskId must match ^[A-Za-z0-9][A-Za-z0-9._-]{0,63}$")
  end.

(** One line of at most [max] characters, trimmed. *)
Definition one_line (max : Z) (s : jsstr) : bool :=
  str_eqb s (trim s) && (js_length s <=? max) && negb (has_newline s).

Definition gate_plan (verdict : GateVerdict) (v : jsval) : res (option jsstr) :=
  match verdict with
  | REFINE =>
      let required := invalid "GATE_VERDICT_REFINEMENT_REQUIRED: refinementPlan is required for REFINE and must be non-empty" in
      match v with
      | JStr s =>
          _ ← throw_if (js_length (trim s) =? 0) required;
          _ ← throw_if (negb (one_line 600 s))
                (invalid "GATE_VERDICT_REFINEMENT_INVALID: refinementPlan must be at most 600 characters and contain no newline");
          Ok (Some s)
      | _ => Throw required
      end
  | _ =>
      match v with
      | JUndef => Ok None
      | _ => Throw (invalid "GATE_VERDICT_REFINEMENT_FORBIDDEN: refinementPlan is only valid for REFINE")
      end
  end.

Definition gate_evidence (v : jsval) : res (option jsstr) :=
  let bad := invalid "GATE_VERDICT_EVIDENCE_INVALID: evidenceRef must be non-empty, at most 200 characters, and contain no newline" in
  match v with
  | JUndef => Ok None
  | JStr s => if (js_length (trim s) =? 0) || negb (one_line 200 s) then Throw bad else Ok (Some s)
  | _ => Throw bad
  end.

Definition gateVerdict (req : BrokerRequestEnvelope) : M jsval :=
  payload ← lift (payloadOf req);
  _ ← authorize ctx (js "gateVerdict") (req_sessionID req) plan_writer;
  existing ← store_get (req_sessionID req);
  bound ← lift (bound_agent "GATE_VERDICT" (field payload (js "agent")) (existing ≫= agent));
  _ ← lift (assertPlanDocWriteName (field payload (js "name")));
  taskId ← lift (gate_task (field payload (js "taskId")));
  verdict ← lift (gate_verdict_of (field payload (js "verdict")));
  plan ← lift (gate_plan verdict (field payload (js "refinementPlan")));
  evidence ← lift (gate_evidence (field payload (js "evidenceRef")));
  _ ← throw_when (negb (mem bound (planWriterAgents (cfg ctx))))
        (invalid_ [js "GATE_VERDICT_AGENT_REFUSED: allowed=["; list_text (planWriterAgents (cfg ctx)); js "]"]);
  root ← lift (resolveCanonicalProjectRoot ctx (field payload (js "projectDir")));
  let '(_, projectRoot) := root in
  let name := text_of (field payload (js "name")) in
  let relative := js "odd/tasks/" ++ name ++ js ".md" in
  destination ← lift (plan_destination projectRoot relative "GATE_VERDICT_PATH_ESCAPE: destination escapes project root"
                        "GATE_VERDICT_PROTECTED_PATH: ");
  now ← ask w_now;
  let line := gate_line taskId verdict (iso_seconds now) bound evidence plan in
  gates ← appendGateVerdictAtomically projectRoot destination line;
  mret (JObj [(js "name", JStr name); (js "taskId", JStr taskId); (js "verdict", JStr (verdict_name verdict));
              (js "path", JStr relative); (js "gates", jint (Z.of_nat gates))]).

(** ** A task mark *)

(** [/^T[0-9]{1,3}$/] *)
Definition TASK_MARK_ID_RE (s : jsstr) : bool :=
  match s with
  | 84%N :: digits => re_class is_digit 1 3 digits
  | _ => false
  end.

(** [v.k] is an object: not null, not a primitive. *)
Definition is_object (v : jsval) : bool := match v with JObj _ | JArr _ => true | _ => false end.
Definition nullish (v : jsval) : bool := match v with JUndef | JNull => true | _ => false end.

Definition tier_of (v : jsval) : ReviewTier :=
  match v with
  | JStr t => if str_eqb t (js "medium") then T_medium else if str_eqb t (js "passive") then T_passive else T_high
  | _ => T_high
  end.

Definition assessmentTier (value : jsval) : ReviewTier :=
  if negb (is_object value) then T_high else
  match field value (js "status") with
  | JNum (NumInt 0) =>
      let json := field value (js "json") in
      if negb (is_object json) then T_high else
      let tier := field json (js "tier") in
      tier_of (if nullish tier then field (field json (js "assessment")) (js "tier") else tier)
  | _ => T_high
  end.

Definition TASK_MARK_ASSESS_TIMEOUT_MS : Z := 120000.

(** [Promise.race] of the assessment and the timer: what the assessor does is
    done either way, and its answer counts unless the timer fires first. *)
Definition assessed_in_time (assessment : M jsval) : M jsval :=
  outcome ← attempt assessment;
  late ← call_bool E (CTimerFirst TASK_MARK_ASSESS_TIMEOUT_MS);
  _ ← throw_when late (Exn EError (js "review assessor timed out"));
  lift outcome.

(** [reviewAssess] is the installed assessor, when there is one. *)
Definition taskMarkTier (reviewAssess : option (jsstr -> jsstr -> M jsval)) (projectRoot evidenceCommit : jsstr)
    : M ReviewTier :=
  match reviewAssess with
  | None => mret T_high
  | Some assess => try_catch (result ← assessed_in_time (assess projectRoot evidenceCommit); mret (assessmentTier result))
                     (fun _ => mret T_high)
  end.

Definition writeTaskMarkAtomically (projectRoot destination taskId status_ evidenceCommit : jsstr) (tier : ReviewTier)
    (agent_ note : jsstr) : M (Z * Z) :=
  let parent := dirname destination in
  let linked := hardlink_refused "PLAN_WRITE" destination in
  let missing := invalid "TASK_MARK_DOCUMENT_MISSING: plan document must already exist as a regular file" in
  let changed := invalid "TASK_MARK_DESTINATION_CHANGED: plan document is no longer a regular file" in
  _ ← assertPlanDocWriteNoSymlinks projectRoot destination;
  _ ← existing_document destination missing missing linked;
  _ ← assertBeneathProjectRoot projectRoot parent;
  _ ← assertBeneathProjectRoot projectRoot destination;
  existingBytes ← call_text E (CReadBytes destination);
  now ← ask w_now;
  next ← lift (appendTaskMarkTick (utf8_lossy existingBytes) taskId status_ evidenceCommit tier agent_ note (iso_seconds now));
  let '(text, revision) := next in
  tempPath ← temp_path parent;
  _ ← publish tempPath destination text
        (_ ← assertPlanDocWriteNoSymlinks projectRoot destination;
         _ ← existing_document destination changed changed linked;
         currentBytes ← call_text E (CReadBytes destination);
         lift (assertPlanDocBytesUnchanged destination (Some existingBytes) (Some currentBytes)));
  mret (revision, byteLength text).

(** A routed plan, or one with gates, takes a mark only behind a PASS. *)
Definition gate_passed (document taskId : jsstr) : bool :=
  let route := leadingPlanFrontmatter document ≫= fun f => frontmatterValue f "route" in
  let gated := existsb (is_section "Gates") (scanPlanDocHeadings document) in
  negb (bool_decide (is_Some (truthy route)) || gated)
  || match readLatestGateVerdict document taskId with
     | Some v => match gv_verdict v with PASS => true | _ => false end
     | None => false
     end.

Definition task_id_of (v : jsval) : res jsstr :=
  match v with
  | JStr s => if TASK_MARK_ID_RE s then Ok s
              else Throw (invalid "TASK_MARK_TASK_ID_INVALID: taskId must match ^T[0-9]{1,3}$")
  | _ => Throw (invalid "TASK_MARK_TASK_ID_INVALID: taskId must match ^T[0-9]{1,3}$")
  end.
Definition mark_status (v : jsval) : res jsstr :=
  match v with
  | JStr s => if str_eqb s (js "passed") || str_eqb s (js "failed") then Ok s
              else Throw (invalid "TASK_MARK_STATUS_INVALID: status must be passed or failed")
  | _ => Throw (invalid "TASK_MARK_STATUS_INVALID: status must be passed or failed")
  end.
Definition mark_commit (v : jsval) : res jsstr :=
  let bad := invalid "TASK_MARK_EVIDENCE_COMMIT_INVALID: evidenceCommit must be a full lowercase 40-hex commit id" in
  match v with
  | JStr s => if SHA1_RE s then Ok s else Throw bad
  | _ => Throw bad
  end.

(** Control characters become spaces; at most 200 characters. *)
Definition mark_note (v : jsval) : res jsstr :=
  match v with
  | JUndef => Ok []
  | JStr s => Ok (take 200 (map (fun c => if (c <=? 31)%N || (c =? 127)%N then 32%N else c) s))
  | _ => Throw (invalid "TASK_MARK_NOTE_INVALID: note must be a string")
  end.

Definition taskMark (reviewAssess : option (jsstr -> jsstr -> M jsval)) (req : BrokerRequestEnvelope) : M jsval :=
  payload ← lift (payloadOf req);
  _ ← authorize ctx (js "taskMark") (req_sessionID req) plan_writer;
  existing ← store_get (req_sessionID req);
  let pm_only := policy_error (js "TASK_MARK_PM_ONLY: only PM identities may mark plan tasks") in
  bound ← lift (match truthy (existing ≫= agent) with Some b => Ok b | None => Throw pm_only end);
  _ ← throw_when (negb (str_eqb (normalizeRoleKey bound) (js "pm"))) pm_only;
  target ← lift (plan_target "TASK_MARK" (field payload (js "target")));
  _ ← lift (assertPlanDocWriteName (field payload (js "name")));
  taskId ← lift (task_id_of (field payload (js "taskId")));
  status_ ← lift (mark_status (field payload (js "status")));
  evidenceCommit ← lift (mark_commit (field payload (js "evidenceCommit")));
  note ← lift (mark_note (field payload (js "note")));
  root ← lift (resolveCanonicalProjectRoot ctx (field payload (js "projectDir")));
  let '(_, projectRoot) := root in
  check ← runHostStep ctx (argv ["git"; "cat-file"; "-e"] ++ [evidenceCommit ++ js "^{commit}"]) projectRoot 120000;
  _ ← throw_when (negb (step_ok check) || hs_stdoutTruncated check || hs_stderrTruncated check)
        (invalid "TASK_MARK_EVIDENCE_COMMIT_UNKNOWN: evidenceCommit does not resolve to a commit in the project");
  let relative := js "odd/" ++ target ++ js "/" ++ text_of (field payload (js "name")) ++ js ".md" in
  destination ← lift (plan_destination projectRoot relative "TASK_MARK_PATH_ESCAPE: destination escapes project root"
                        "TASK_MARK_PROTECTED_PATH: ");
  tier ← taskMarkTier reviewAssess projectRoot evidenceCommit;
  currentStat ← lstatIfExists destination;
  _ ← throw_when (match currentStat with Some s => negb (isFile s) | None => true end)
        (invalid "TASK_MARK_DOCUMENT_MISSING: plan document must already exist as a regular file");
  current ← call_text E (CReadFile destination);
  _ ← throw_when (negb (gate_passed current taskId))
        (invalid "TASK_MARK_GATE_NOT_PASSED: routed plan tasks require a latest PASS gate verdict");
  result ← writeTaskMarkAtomically projectRoot destination taskId status_ evidenceCommit tier bound note;
  mret (JObj [(js "target", JStr target); (js "path", JStr relative); (js "tier", JStr (tier_name tier));
              (js "revision", jint (fst result)); (js "bytes", jint (snd result))]).
End ops.
