(* ===== verification/PlanDocOpsFacts.v ===== *)
(** * Facts about plan-document operations

    A document is replaced only by a complete text built from what it was, a
    revision is never lost, a mark needs its gate, and what a failed append
    leaves behind. *)
From Stdlib Require Import QArith.
From S2P Require Import Prelude JsVal Types State Policy Path Validation HostPaths HostArgs Envelope.
From S2P Require Import RolePolicy GitOps Artifacts Queue Effects Worker WorkerFacts Redact Results Diff ResultFacts.
From S2P Require Import Authorization Codec FileOps TraceLogic FileOpsFacts HostSteps SandboxResult SandboxResultFacts HostGitFacts PlanDoc PlanDocOps.
Open Scope Z_scope.

Definition temp_name (parent uuid : jsstr) : jsstr := join [parent; PLAN_DOC_TEMP_PREFIX ++ uuid ++ js ".tmp"].

(** A temporary file holds the whole text, synced and closed. *)
Definition complete (temp text : jsstr) (t : list event) : Prop :=
  EvUnit (COpenExclusive temp 384) (Ok tt) ∈ t /\ EvUnit (CWriteFd temp text) (Ok tt) ∈ t /\
  EvUnit (CFsyncFd temp) (Ok tt) ∈ t /\ EvUnit (CCloseFd temp) (Ok tt) ∈ t.

(** The only call that changes the document is a rename onto it, under [G];
    the files written, made or removed are temporary ones beside it. *)
Definition doc_rule (destination : jsstr) (G : list event -> jsstr -> Prop) (pre : list event) (e : event) : Prop :=
  match call_of e with
  | CRename src dst => dst = destination /\ G pre src
  | CWriteFd p _ | COpenExclusive p _ | CUnlink p => exists uuid, p = temp_name (dirname destination) uuid
  | CWriteFile _ _ _ | CCopyFile _ _ | CRm _ | CChmod _ _ => False
  | _ => True
  end.

Section publish.
  Context (ctx : OpContext) (destination : jsstr) (G : list event -> jsstr -> Prop).
#[local] Abbreviation T := (traced (doc_rule destination G)).

Lemma lstatIfExists_traced pre path (Q : res (option Stats) -> list event -> Prop) :
  (forall s, Q (Ok (Some s)) (pre ++ [EvStats (CLstat path) (Ok s)])) ->
  (forall e, Q (Ok None) (pre ++ [EvStats (CLstat path) (Throw e)])) ->
  T pre (lstatIfExists ctx path) Q.
Proof.
  intros HS HN. unfold lstatIfExists. repeat (traced_step; try exact I); [apply HS | apply HN].
Qed.

Lemma beneath_traced pre root target (Q : res unit -> list event -> Prop) :
  (forall r t', Q r (pre ++ t')) -> T pre (assertBeneathProjectRoot ctx root target) Q.
Proof.
  intros HQ. unfold assertBeneathProjectRoot. repeat (traced_step; try apply HQ; try exact I).
Qed.

Lemma no_symlinks_traced pre root (Q : res unit -> list event -> Prop) :
  (forall r t', Q r (pre ++ t')) -> T pre (assertPlanDocWriteNoSymlinks ctx root destination) Q.
Proof.
  unfold assertPlanDocWriteNoSymlinks. generalize (descend root (path_segments (drop (length root) destination))).
  intros paths HQ. revert pre HQ. induction paths as [|p paths IH]; intros pre HQ; cbn [for_eachM].
  - apply traced_ret. rewrite <- (app_nil_r pre). apply HQ.
  - apply traced_bind, traced_bind, lstatIfExists_traced; intros x; traced_step; try apply HQ;
      apply IH; intros r t'; rewrite <- app_assoc; apply HQ.
Qed.

Lemma temp_path_traced pre (Q : res jsstr -> list event -> Prop) :
  (forall e t', Q (Throw e) (pre ++ t')) ->
  (forall uuid t', Q (Ok (temp_name (dirname destination) uuid)) (pre ++ t')) ->
  T pre (temp_path ctx (dirname destination)) Q.
Proof. intros HT HO. unfold temp_path. repeat (traced_step; try exact I); [apply HO | apply HT]. Qed.

Lemma fsync_traced pre dir (Q : res unit -> list event -> Prop) :
  (forall r tr, Q r tr) -> T pre (fsyncPlanDocDirectory ctx dir) Q.
Proof. intros HQ. unfold fsyncPlanDocDirectory. repeat (traced_step; try apply HQ; try exact I). Qed.

(** A staged write: the rename comes with the complete text and what the
    recheck saw after it. *)
Lemma publish_traced pre uuid text recheck (R : list event -> Prop) (Q : res unit -> list event -> Prop) :
  let temp := temp_name (dirname destination) uuid in
  (forall t1, T (pre ++ t1) recheck (fun r tr => match r with
      | Ok _ => exists t2, tr = pre ++ t1 ++ t2 /\ R t2
      | Throw _ => True end)) ->
  (forall t1 t2, complete temp text t1 -> R t2 -> G (pre ++ t1 ++ t2) temp) ->
  (forall r tr, Q r tr) ->
  T pre (publish ctx temp destination text recheck) Q.
Proof.
  intros temp Hre HG HQ. unfold publish, unlinked_on_failure, fill_temp.
  assert (exists uuid', temp = temp_name (dirname destination) uuid') as Htemp by by exists uuid.
  apply traced_bind, traced_call_unit; intros r1; [exact Htemp|]. destruct r1 as [[]|e]; [|apply HQ].
  apply traced_bind, traced_try_catch, traced_bind.
  assert (forall e tr, T tr (_ ← best_effort (call_unit (env ctx) (CUnlink temp)); @throw unit e)
    (fun r tr => match r with Ok _ => T tr (fsyncPlanDocDirectory ctx (dirname destination)) Q | Throw e => Q (Throw e) tr end)) as Hfail.
  { intros e tr. repeat (traced_step; try apply HQ; try exact Htemp). }
  apply traced_try_finally, traced_bind, traced_call_unit; intros r2; [exact Htemp|].
  destruct r2 as [[]|e].
  2: { apply traced_call_unit; intros r; [exact I|]. destruct r as [[]|e']; apply Hfail. }
  apply traced_call_unit; intros r3; [exact I|]. apply traced_call_unit; intros r4; [exact I|].
  destruct r4 as [[]|e]; [|apply Hfail]. destruct r3 as [[]|e]; [|apply Hfail].
  rewrite <- !app_assoc. apply traced_bind. eapply traced_mono; [apply Hre|].
  intros [[]|e] tr; [|intros _; apply Hfail]. intros (t2 & -> & HR).
  apply traced_call_unit; intros r5.
  - split; [reflexivity|]. apply HG; [|exact HR]. cbn [app]. repeat split; set_solver.
  - destruct r5 as [[]|e]; [apply fsync_traced, HQ | apply Hfail].
Qed.
End publish.

(** The document was seen with these bytes, or absent. *)
Definition saw (destination : jsstr) (bytes : option (list N)) (t : list event) : Prop :=
  match bytes with
  | Some b => EvText (CReadBytes destination) (Ok b) ∈ t
  | None => exists e, EvStats (CLstat destination) (Throw e) ∈ t
  end.

Lemma read_document_traced ctx destination G {A} pre (k : option Stats -> option (list N) -> M A)
    (Q : res A -> list event -> Prop) :
  (forall e tr, Q (Throw e) tr) ->
  (forall s b t', saw destination b t' -> traced (doc_rule destination G) (pre ++ t') (k s b) Q) ->
  traced (doc_rule destination G) pre
    (s ← writable_entry ctx destination; b ← read_if ctx s destination; k s b) Q.
Proof.
  intros HT HK. unfold writable_entry, read_if. apply traced_bind, traced_bind, lstatIfExists_traced.
  - intros s. repeat (traced_step; try apply HT; try exact I). rewrite <- app_assoc. apply HK. cbn [saw app]. set_solver.
  - intros e. repeat traced_step. apply HK. exists e. set_solver.
Qed.

(** ** A new revision *)
Definition decoded (bytes : option (list N)) : jsstr := match bytes with Some b => utf8_lossy b | None => [] end.

(** What stands before the rename of a new revision: the document as it was
    read, the complete next text, and the document read again, unchanged. *)
Definition revision_replaces (destination body agent note : jsstr) (expected : Z) (pre : list event) (temp : jsstr) : Prop :=
  exists bytes timestamp gates before staged after,
    pre = before ++ staged ++ after /\ saw destination bytes before /\ saw destination bytes after /\
    fst (planDocRevisionSection (decoded bytes)) = expected /\ carried_gates destination (decoded bytes) = Ok gates /\
    complete temp (next_document (decoded bytes) body (revision_line (expected + 1) timestamp agent note) gates) staged.

Lemma write_revision_traced ctx root destination body agent note expected :
  traced (doc_rule destination (revision_replaces destination body agent note expected)) []
    (writePlanDocAtomically ctx root destination body agent note expected)
    (fun r _ => forall o, r = Ok o -> pr_revision o = expected + 1).
Proof.
  unfold writePlanDocAtomically. cbv zeta. apply traced_bind, no_symlinks_traced. intros [[]|e] t0; [|done].
  apply traced_bind, traced_call_unit; intros r; [exact I|]. destruct r; [|done].
  apply traced_bind, no_symlinks_traced. intros [[]|e] t1; [|done].
  apply read_document_traced; [done|]. intros s bytes t2 Hsaw. fold (decoded bytes).
  apply traced_bind, traced_lift. destruct (carried_gates destination (decoded bytes)) as [gates|e] eqn:Hg; [|done].
  apply traced_bind, traced_throw_when; intros Hrev; [done|]. apply negb_false_iff, Z.eqb_eq in Hrev. rewrite Hrev.
  apply traced_bind, traced_ask. intros now. apply traced_bind, temp_path_traced; [done|]. intros uuid t3.
  apply traced_bind, (publish_traced _ _ _ _ _ _ _ (saw destination bytes)).
  - intros t4. apply traced_bind, no_symlinks_traced. intros [[]|e] t5; [|done].
    apply read_document_traced; [done|]. intros s' bytes' t6 Hsaw'. apply traced_lift.
    unfold assertPlanDocBytesUnchanged. destruct (bool_decide (bytes = bytes')) eqn:Hb; [|done].
    apply bool_decide_eq_true in Hb as <-. exists (t5 ++ t6). rewrite <- !app_assoc. split; [done|].
    destruct bytes; cbn [saw] in *; [set_solver|]. destruct Hsaw' as [x ?]. exists x. set_solver.
  - intros staged after Hc Ha. exists bytes, (iso_seconds now), gates, (((([] ++ t0) ++ [EvUnit (CMkdir (dirname destination)) (Ok a)]) ++ t1) ++ t2 ++ t3), staged, after.
    split; [by rewrite <- !app_assoc|]. split_and!; try done.
    destruct bytes; cbn [saw] in *; [set_solver|]. destruct Hsaw as [x ?]. exists x. set_solver.
  - intros [[]|e] tr; [|done]. apply traced_ret. by intros o [= <-].
Qed.

(** What an accepted request to write a plan fixes. *)
Record plan_write_begun (ctx : OpContext) (req : BrokerRequestEnvelope) (w : world)
    (root destination body agent_ note : jsstr) (expected : Z) : Prop := mkPlanWrite {
  pb_payload : exists payload target pid existing, payloadOf req = Ok payload /\
    resolveCanonicalProjectRoot ctx (field payload (js "projectDir")) = Ok (pid, root) /\
    field payload (js "content") = JStr body /\ field payload (js "expectedRevision") = jint expected /\
    SessionStore.get (w_store w) (req_sessionID req) = Ok existing /\ (existing ≫= agent) = Some agent_ /\
    mem agent_ (plan_writers ctx target) = true /\ plan_frontmatter target agent_ body = Ok tt;
  pb_within : isWithin root destination = true;
  pb_sections : no_broker_section body = Ok tt;
  pb_size : 1 <= byteLength body <= PLAN_DOC_WRITE_MAX_BYTES
}.

Lemma plan_content_Ok v body : plan_content v = Ok body ->
  v = JStr body /\ 1 <= byteLength body <= PLAN_DOC_WRITE_MAX_BYTES.
Proof.
  unfold plan_content. destruct v; try discriminate. rewrite !res_seq_Ok, !throw_if_Ok, !Z.ltb_ge.
  intros (? & ? & [= <-]). split; [done | lia].
Qed.
Lemma plan_revision_Ok v z : plan_revision v = Ok z -> v = jint z.
Proof. unfold plan_revision. destruct v as [| | |[]| | |]; try discriminate. destruct (_ <? _); by intros [= <-]. Qed.
Lemma bound_agent_Ok op v bound a : bound_agent op v bound = Ok a -> bound = Some a.
Proof.
  unfold bound_agent. destruct v; try discriminate. destruct bound as [[|c b]|]; try discriminate. cbn [truthy].
  destruct (str_eqb _ _) eqn:?; [|discriminate]. by intros [= <-].
Qed.
Lemma plan_destination_Ok ctx root relative a b d : plan_destination ctx root relative a b = Ok d -> isWithin root d = true.
Proof.
  unfold plan_destination. rewrite !res_seq_Ok, !throw_if_Ok, negb_false_iff. by intros (? & _ & [= <-]).
Qed.

Lemma planDocWrite_begins ctx req w :
  (exists e, planDocWrite ctx req w = (Throw e, w, [])) \/
  (exists root destination body agent_ note expected (k : PlanDocRevision -> jsval),
     plan_write_begun ctx req w root destination body agent_ note expected /\
     (forall o, field (k o) (js "revision") = jint (pr_revision o)) /\
     planDocWrite ctx req w
     = (result ← writePlanDocAtomically ctx root destination body agent_ note expected; mret (k result)) w).
Proof.
  unfold planDocWrite. read_step payload Hp. read_step u Hu. read_step existing Hg. read_step bound Hb.
  read_step target Ht. read_step u1 Hn. read_step content Hc. read_step u2 Hf. read_step u3 Hs.
  read_step note Hnote. read_step expected He. read_step u4 Hm. read_step rt Hroot. destruct rt as [pid root].
  cbv zeta. read_step destination Hd. right.
  apply lift_run in Hp, Hb, Ht, Hc, Hf, Hs, He, Hroot, Hd. apply throw_when_run, negb_false_iff in Hm.
  apply plan_content_Ok in Hc as [Hc Hsz]. apply plan_revision_Ok in He. apply bound_agent_Ok in Hb.
  apply plan_destination_Ok in Hd. apply store_get_run in Hg. destruct u2, u3.
  exists root, destination, content, bound, note, expected. eexists. split; [|split; [|reflexivity]; by intros].
  split; [|done..]. exists payload, target, pid, existing. by split_and!.
Qed.


(** ** A task mark *)

(** The gate of a task is open: the plan has no route and no Gates section, or
    the latest verdict on the task is a pass. *)
Definition gate_open (document taskId : jsstr) : Prop :=
  ((forall f route, leadingPlanFrontmatter document = Some f -> frontmatterValue f "route" = Some route -> route = []) /\
   (forall h, h ∈ scanPlanDocHeadings document -> is_section "Gates" h = false)) \/
  exists at_, readLatestGateVerdict document taskId = Some (mkVerdict PASS at_).

Lemma gate_passed_open document taskId : gate_passed document taskId = true -> gate_open document taskId.
Proof.
  unfold gate_passed, gate_open. intros [Hg|Hv]%orb_true_iff.
  - left. apply negb_true_iff, orb_false_iff in Hg as [Hr Hs]. apply bool_decide_eq_false in Hr. split.
    + intros f route Hf Hv. destruct route as [|c r]; [done|]. destruct Hr. rewrite Hf. cbn [mbind option_bind]. rewrite Hv. by eexists.
    + intros h Hh. destruct (is_section "Gates" h) eqn:He; [|done].
      assert (existsb (is_section "Gates") (scanPlanDocHeadings document) = true) as Hx; [|congruence].
      apply existsb_exists. exists h. by rewrite <- list_elem_of_In.
  - right. destruct (readLatestGateVerdict document taskId) as [[v at_]|]; [|done]. destruct v; try done. by exists at_.
Qed.

(** What stands before the rename of a marked document. *)
Definition mark_replaces (root destination taskId status_ evidenceCommit : jsstr) (tier : ReviewTier) (agent_ note : jsstr)
    (pre : list event) (temp : jsstr) : Prop :=
  exists current bytes timestamp text revision before staged after,
    pre = before ++ staged ++ after /\
    (exists r, EvProc (step_call (argv ["git"; "cat-file"; "-e"] ++ [evidenceCommit ++ js "^{commit}"]) root 120000) (Ok r) ∈ before /\
       status r = Some 0) /\
    EvText (CReadFile destination) (Ok current) ∈ before /\ gate_open current taskId /\
    EvText (CReadBytes destination) (Ok bytes) ∈ before /\ EvText (CReadBytes destination) (Ok bytes) ∈ after /\
    appendTaskMarkTick (utf8_lossy bytes) taskId status_ evidenceCommit tier agent_ note timestamp = Ok (text, revision) /\
    complete temp text staged.

(** What the assessor does leaves the files alone. *)
Definition harmless (c : call) : Prop :=
  match c with
  | CRename _ _ | CWriteFd _ _ | COpenExclusive _ _ | CUnlink _ | CWriteFile _ _ _ | CCopyFile _ _ | CRm _ | CChmod _ _ => False
  | _ => True
  end.
Definition harmless_assessor (assess : option (jsstr -> jsstr -> M jsval)) : Prop :=
  match assess with Some f => forall a b, only_calls harmless (f a b) | None => True end.

Lemma harmless_rule destination G tr e : harmless (call_of e) -> doc_rule destination G tr e.
Proof. unfold harmless, doc_rule. by destruct (call_of e). Qed.

Lemma existing_document_traced ctx destination G pre a b c (Q : res unit -> list event -> Prop) :
  (forall r t', Q r (pre ++ t')) -> traced (doc_rule destination G) pre (existing_document ctx destination a b c) Q.
Proof.
  intros HQ. unfold existing_document. apply traced_bind, lstatIfExists_traced; intros x; repeat (traced_step; try apply HQ).
Qed.

Section mark.
  Context (ctx : OpContext) (root destination taskId status_ evidenceCommit : jsstr) (tier : ReviewTier) (agent_ note : jsstr).
#[local] Abbreviation G := (mark_replaces root destination taskId status_ evidenceCommit tier agent_ note).
#[local] Abbreviation T := (traced (doc_rule destination G)).

Lemma write_mark_traced pre current :
  (exists r, EvProc (step_call (argv ["git"; "cat-file"; "-e"] ++ [evidenceCommit ++ js "^{commit}"]) root 120000) (Ok r) ∈ pre /\
     status r = Some 0) ->
  EvText (CReadFile destination) (Ok current) ∈ pre -> gate_passed current taskId = true ->
  T pre (writeTaskMarkAtomically ctx root destination taskId status_ evidenceCommit tier agent_ note) (fun _ _ => True).
Proof.
  intros (r & Hr & Hr0) Hcur Hgate%gate_passed_open. unfold writeTaskMarkAtomically. cbv zeta.
  apply traced_bind, no_symlinks_traced. intros [[]|e] t1; [|done].
  apply traced_bind, existing_document_traced. intros [[]|e] t2; [|done].
  apply traced_bind, beneath_traced. intros [[]|e] t3; [|done].
  apply traced_bind, beneath_traced. intros [[]|e] t4; [|done].
  apply traced_bind, traced_call_text; intros rb; [exact I|]. destruct rb as [bytes|]; [|done].
  apply traced_bind, traced_ask. intros now. apply traced_bind, traced_lift.
  destruct (appendTaskMarkTick _ _ _ _ _ _ _ _) as [[text revision]|e] eqn:Htext; [|done].
  apply traced_bind, temp_path_traced; [done|]. intros uuid t5.
  apply traced_bind, (publish_traced _ _ _ _ _ _ _ (fun t => EvText (CReadBytes destination) (Ok bytes) ∈ t)).
  - intros t6. apply traced_bind, no_symlinks_traced. intros [[]|e] t7; [|done].
    apply traced_bind, existing_document_traced. intros [[]|e] t8; [|done].
    apply traced_bind, traced_call_text; intros rb; [exact I|]. destruct rb as [bytes'|]; [|done]. apply traced_lift.
    unfold assertPlanDocBytesUnchanged. destruct (bool_decide (Some bytes = Some bytes')) eqn:Hb; [|done].
    apply bool_decide_eq_true in Hb as [= <-]. eexists. rewrite <- !app_assoc. split; [reflexivity | set_solver].
  - intros staged after Hc Ha. do 5 eexists. eexists _, staged, after. split; [reflexivity|]. split_and!; try done; [| |set_solver].
    + exists r. split; [set_solver | done].
    + set_solver.
  - intros [[]|e] tr; [by apply traced_ret | done].
Qed.
End mark.

(** What an accepted request to mark a task fixes. *)
Record mark_begun (ctx : OpContext) (req : BrokerRequestEnvelope) (w : world)
    (root taskId status_ evidenceCommit agent_ : jsstr) : Prop := mkMark {
  mb_root : exists payload pid, payloadOf req = Ok payload /\
    resolveCanonicalProjectRoot ctx (field payload (js "projectDir")) = Ok (pid, root);
  mb_agent : exists existing, SessionStore.get (w_store w) (req_sessionID req) = Ok existing /\
    (existing ≫= agent) = Some agent_ /\ normalizeRoleKey agent_ = js "pm";
  mb_task : TASK_MARK_ID_RE taskId = true;
  mb_status : status_ = js "passed" \/ status_ = js "failed";
  mb_commit : SHA1_RE evidenceCommit = true
}.

(** A call of a mark: harmless, or one of the replacement of a document in the
    project. *)
Definition mark_rule (root taskId status_ evidenceCommit agent_ : jsstr) (pre : list event) (e : event) : Prop :=
  harmless (call_of e) \/
  exists destination tier note, isWithin root destination = true /\
    doc_rule destination (mark_replaces root destination taskId status_ evidenceCommit tier agent_ note) pre e.

Definition mark_rest (ctx : OpContext) (assess : option (jsstr -> jsstr -> M jsval)) (root target name taskId status_ evidenceCommit
    bound note : jsstr) : M jsval :=
  check ← runHostStep ctx (argv ["git"; "cat-file"; "-e"] ++ [evidenceCommit ++ js "^{commit}"]) root 120000;
  _ ← throw_when (negb (step_ok check) || hs_stdoutTruncated check || hs_stderrTruncated check)
        (invalid "TASK_MARK_EVIDENCE_COMMIT_UNKNOWN: evidenceCommit does not resolve to a commit in the project");
  let relative := js "odd/" ++ target ++ js "/" ++ name ++ js ".md" in
  destination ← lift (plan_destination ctx root relative "TASK_MARK_PATH_ESCAPE: destination escapes project root"
                        "TASK_MARK_PROTECTED_PATH: ");
  tier ← taskMarkTier ctx assess root evidenceCommit;
  currentStat ← lstatIfExists ctx destination;
  _ ← throw_when (match currentStat with Some s => negb (isFile s) | None => true end)
        (invalid "TASK_MARK_DOCUMENT_MISSING: plan document must already exist as a regular file");
  current ← call_text (env ctx) (CReadFile destination);
  _ ← throw_when (negb (gate_passed current taskId))
        (invalid "TASK_MARK_GATE_NOT_PASSED: routed plan tasks require a latest PASS gate verdict");
  result ← writeTaskMarkAtomically ctx root destination taskId status_ evidenceCommit tier bound note;
  mret (JObj [(js "target", JStr target); (js "path", JStr relative); (js "tier", JStr (tier_name tier));
              (js "revision", jint (fst result)); (js "bytes", jint (snd result))]).

Lemma taskMark_begins ctx assess req w :
  (exists e, taskMark ctx assess req w = (Throw e, w, [])) \/
  (exists root target name taskId status_ evidenceCommit bound note,
     mark_begun ctx req w root taskId status_ evidenceCommit bound /\
     taskMark ctx assess req w = mark_rest ctx assess root target name taskId status_ evidenceCommit bound note w).
Proof.
  unfold taskMark. read_step payload Hp. read_step u Hu. read_step existing Hg. cbv zeta. read_step bound Hb. read_step u0 Hpm.
  read_step target Ht. read_step u1 Hn. read_step taskId Hid. read_step st Hs. read_step commit Hc.
  read_step note Hnote. read_step rt Hroot. destruct rt as [pid root]. right.
  apply lift_run in Hp, Hb, Hid, Hs, Hc, Hroot. apply throw_when_run, negb_false_iff, str_eqb_eq in Hpm. apply store_get_run in Hg.
  exists root, target, (text_of (field payload (js "name"))), taskId, st, commit, bound, note. split; [|reflexivity]. split.
  - by exists payload, pid.
  - exists existing. split; [done|]. split; [|done]. destruct (existing ≫= agent) as [[|c b]|]; try discriminate.
    cbn [truthy] in Hb. congruence.
  - unfold task_id_of in Hid. destruct (field payload (js "taskId")); try discriminate.
    destruct (TASK_MARK_ID_RE s) eqn:?; [|discriminate]. by injection Hid as <-.
  - unfold mark_status in Hs. destruct (field payload (js "status")); try discriminate.
    destruct (str_eqb s (js "passed")) eqn:H1; cbn [orb] in Hs; [apply str_eqb_eq in H1; injection Hs as <-; auto|].
    destruct (str_eqb s (js "failed")) eqn:H2; [|discriminate]. apply str_eqb_eq in H2. injection Hs as <-. auto.
  - unfold mark_commit in Hc. destruct (field payload (js "evidenceCommit")); try discriminate.
    destruct (SHA1_RE s) eqn:?; [|discriminate]. by injection Hc as <-.
Qed.

Lemma mark_rest_traced ctx assess root target name taskId status_ evidenceCommit bound note :
  harmless_assessor assess ->
  traced (mark_rule root taskId status_ evidenceCommit bound) []
    (mark_rest ctx assess root target name taskId status_ evidenceCommit bound note) (fun _ _ => True).
Proof.
  intros Hassess. unfold mark_rest, runHostStep. cbv zeta.
  apply traced_bind, traced_bind, traced_call_proc; intros r; [by left|]. destruct r as [r|]; [|done].
  apply traced_ret. apply traced_bind, traced_throw_when; intros Hck; [done|].
  apply orb_false_iff in Hck as [[Hck _]%orb_false_iff _]. apply negb_false_iff, bool_decide_eq_true in Hck.
  apply traced_bind, traced_lift. destruct (plan_destination _ _ _ _ _) as [destination|] eqn:Hd; [|done].
  apply plan_destination_Ok in Hd.
  apply traced_bind, (traced_only _ _ _ harmless).
  { unfold taskMarkTier, assessed_in_time. destruct assess as [f|]; cbn [mbind]; repeat first [apply Hassess | only_step]; try done. }
  { intros e tr He. by left. }
  intros [tier|e] t1 _; [|done].
  apply (traced_weaken _ (doc_rule destination (mark_replaces root destination taskId status_ evidenceCommit tier bound note))).
  { intros tr e He. right. by exists destination, tier, note. }
  apply traced_bind. eapply (lstatIfExists_traced ctx destination); intros x; (apply traced_bind, traced_throw_when; intros _; [done|]);
    (apply traced_bind, traced_call_text; intros rc; [exact I|]); (destruct rc as [current|]; [|done]);
    (apply traced_bind, traced_throw_when; intros Hgate; [done|]); apply negb_false_iff in Hgate;
    (apply traced_bind; eapply traced_mono; [apply (write_mark_traced _ _ _ _ _ _ _ _ _ _ current);
       [exists r; split; [set_solver | done] | set_solver | done]|]);
    intros [[]|e'] tr _; first [by apply traced_ret | done].
Qed.

(** A task is marked only by a PM, on a confirmed commit, behind its gate (given
    an assessor that leaves the files alone). *)
Lemma mark_gated ctx assess req w out w' t :
  harmless_assessor assess -> taskMark ctx assess req w = (out, w', t) -> t <> [] ->
  exists root taskId status_ evidenceCommit agent_,
    mark_begun ctx req w root taskId status_ evidenceCommit agent_ /\
    forall t1 e t2, t = t1 ++ e :: t2 -> mark_rule root taskId status_ evidenceCommit agent_ t1 e.
Proof.
  intros Ha Hrun Ht. destruct (taskMark_begins ctx assess req w)
    as [[e Hb]|(root & target & name & taskId & st & commit & bound & note & Hbegun & Hb)]; rewrite Hb in Hrun.
  { by injection Hrun as _ _ <-. }
  exists root, taskId, st, commit, bound. split; [done|].
  exact (proj1 (traced_run _ _ _ _ _ _ _ (mark_rest_traced ctx assess root target name taskId st commit bound note Ha) Hrun)).
Qed.

(** ** Failed writes *)

(** An append removes a temporary file only when it holds the whole text. *)
Definition unlink_rule (pre : list event) (e : event) : Prop :=
  forall p, call_of e = CUnlink p -> exists text, complete p text pre.

Lemma fill_traced ctx pre temp text (Q : res unit -> list event -> Prop) :
  (forall e tr, Q (Throw e) tr) ->
  Q (Ok tt) (pre ++ [EvUnit (CWriteFd temp text) (Ok tt); EvUnit (CFsyncFd temp) (Ok tt); EvUnit (CCloseFd temp) (Ok tt)]) ->
  traced unlink_rule pre (fill_temp ctx temp text) Q.
Proof.
  intros HT HO. unfold fill_temp. apply traced_try_finally, traced_bind, traced_call_unit; intros r; [by intros p|].
  destruct r as [[]|e].
  - apply traced_call_unit; intros r; [by intros p|]. apply traced_call_unit; intros r'; [by intros p|].
    destruct r' as [[]|e]; [|apply HT]. destruct r as [[]|e]; [|apply HT]. by rewrite <- !app_assoc.
  - apply traced_call_unit; intros r'; [by intros p|]. destruct r' as [[]|e']; apply HT.
Qed.

Lemma quiet_unlink e pre : (forall p, call_of e <> CUnlink p) -> unlink_rule pre e.
Proof. intros H p Hp. by destruct (H p). Qed.

(** A staged write that fails after its file was made tries to remove it. *)
Lemma publish_cleans ctx temp destination text recheck w :
  wp (publish ctx temp destination text recheck) (fun r _ t =>
    match r with
    | Ok _ => True
    | Throw _ => (exists e, EvUnit (COpenExclusive temp 384) (Throw e) ∈ t) \/ exists a, EvUnit (CUnlink temp) a ∈ t
    end) w.
Proof.
  unfold publish, unlinked_on_failure. apply wp_bind. unfold wp at 1, call_unit at 1.
  destruct (on_unit _ _ w) as [[[]|e] w1]; [|left; exists e; set_solver].
  apply wp_bind, wp_try_catch. unfold wp at 1. match goal with |- context [mbind ?f ?m w1] => destruct (mbind f m w1) as [[[[]|e] w2] t2] end.
  - unfold fsyncPlanDocDirectory, best_effort. apply wp_try_catch. unfold wp at 1.
    match goal with |- context [mbind ?f ?m w2] => destruct (mbind f m w2) as [[[[]|e] w3] t3] end; done.
  - apply wp_bind. unfold best_effort. apply wp_try_catch. unfold wp at 1, call_unit at 1.
    destruct (on_unit _ (CUnlink temp) w2) as [[[]|e'] w3]; unfold wp, mret, M_ret, throw; right; eexists;
      rewrite !elem_of_app, ?elem_of_cons; eauto 10.
Qed.

(** The parts of an append that remove nothing. *)
Definition removes_nothing (c : call) : Prop := match c with CUnlink _ => False | _ => True end.

Lemma removes_nothing_traced {A} pre (m : M A) (Q : res A -> list event -> Prop) :
  only_calls removes_nothing m -> (forall r t', Q r (pre ++ t')) -> traced unlink_rule pre m Q.
Proof.
  intros Hm HQ. apply (traced_only _ _ _ removes_nothing); [done | | intros; apply HQ].
  intros e tr He. apply quiet_unlink. intros p Hp. by rewrite Hp in He.
Qed.

Ltac removes_go :=
  unfold lstatIfExists, assertBeneathProjectRoot, temp_path, fsyncPlanDocDirectory; repeat first [exact I | only_step].

Lemma publish_append_traced ctx pre temp destination text recheck :
  only_calls removes_nothing recheck ->
  traced unlink_rule pre (publish_append ctx temp destination text recheck) (fun _ _ => True).
Proof.
  intros Hre. unfold publish_append. apply traced_bind, traced_call_unit; intros r; [by intros p|].
  destruct r as [[]|e]; [|done]. apply traced_bind, fill_traced; [done|]. set (t1 := _ ++ _).
  assert (complete temp text t1) as Hc by (unfold complete, t1; split_and!; set_solver).
  apply traced_bind, traced_try_catch, removes_nothing_traced; [removes_go; exact Hre|].
  intros [u|e] t'; [apply removes_nothing_traced; [removes_go | done]|].
  apply traced_bind, traced_try_catch, traced_call_unit; intros r.
  - intros p [= <-]. exists text. unfold complete in *. set_solver.
  - destruct r; (try apply traced_ret); by apply traced_throw.
Qed.

Lemma append_traced ctx root destination content heading :
  traced unlink_rule [] (appendPlanDocAtomically ctx root destination content heading) (fun _ _ => True).
Proof.
  unfold appendPlanDocAtomically. cbv zeta.
  repeat lazymatch goal with
    | |- traced _ _ (mbind _ (publish_append _ _ _ _ _)) _ => fail
    | |- traced _ _ (mbind _ _) _ => apply traced_bind, removes_nothing_traced; [removes_go | intros [?|?] ?; [|exact I]]
    end.
  apply traced_bind. eapply traced_mono; [apply publish_append_traced; removes_go|].
  intros [u|e] t _; [by apply traced_ret | exact I].
Qed.

(** A failed append leaves its temporary file behind.  In a planDocAppend a
    temporary file is removed only when it holds the complete text: if it could
    not be written, synced or closed, no call of the run removes it.  The other
    three operations, given the same file and text, end every failure after the
    file was made with an attempt to remove it. *)
Theorem failed_append_leaves_its_file ctx root destination content heading w out w' t :
  appendPlanDocAtomically ctx root destination content heading w = (out, w', t) ->
  (forall temp a, EvUnit (CUnlink temp) a ∈ t -> exists text, complete temp text t) /\
  (forall temp text recheck w1 e w2 t2, publish ctx temp destination text recheck w1 = (Throw e, w2, t2) ->
     (exists x, EvUnit (COpenExclusive temp 384) (Throw x) ∈ t2) \/ exists a, EvUnit (CUnlink temp) a ∈ t2).
Proof.
  intros Hrun. split.
  - intros temp a Hin. apply list_elem_of_In, in_split in Hin as (t1 & t2 & ->).
    destruct (proj1 (traced_run _ _ _ _ _ _ _ (append_traced ctx root destination content heading) Hrun) t1 _ t2 eq_refl temp eq_refl)
      as (text & H1 & H2 & H3 & H4).
    exists text. unfold complete. set_solver.
  - intros temp text recheck w1 e w2 t2 Hp. exact (proj1 (wp_run _ _ _ _ _ _ Hp) (publish_cleans ctx temp destination text recheck w1)).
Qed.

(** ** Concrete documents *)
Definition is_write (c : call) : bool := match c with CWriteFd _ _ => true | _ => false end.

(** Every path is a regular file of the given text, real paths are the paths
    themselves, git succeeds; a write to an open file may be refused. *)
Definition plan_env (document : jsstr) (full : bool) : Environment :=
  mkEnv (on_proc blank_env)
        (fun c w => (if full && is_write c then Throw (state_error (js "ENOSPC")) else Ok tt, w))
        (on_bool quiet_env)
        (fun c w => (Ok match c with
                        | CReadFile _ => document
                        | CReadBytes _ => utf8_encode document
                        | CRealpath p => p
                        | _ => js "u"
                        end, w))
        (on_int quiet_env) (on_names quiet_env)
        (fun c w => (Ok (mkStats true false 1), w)).

Definition plan_record (a : string) : SessionRecord :=
  apply_patch [P_projectID (Some (js "p")); P_agent (Some (js a))] (fresh_record (js "s") (js "t0")).
Definition plan_world (a : string) : world := sample_world {[ js "s" := RFRecord (plan_record a) ]}.

Definition write_req : BrokerRequestEnvelope :=
  sample_req Op.planDocWrite None
    (JObj [(js "projectDir", JStr (js "/work/p")); (js "target", JStr (js "tasks")); (js "name", JStr (js "login"));
           (js "content", JStr (js "# Login")); (js "note", JStr (js "first")); (js "expectedRevision", jint 0);
           (js "agent", JStr (js "planner"))]).


Definition mark_req : BrokerRequestEnvelope :=
  sample_req Op.taskMark None
    (JObj [(js "projectDir", JStr (js "/work/p")); (js "target", JStr (js "tasks")); (js "name", JStr (js "login"));
           (js "taskId", JStr (js "T1")); (js "status", JStr (js "passed")); (js "evidenceCommit", JStr sample_commit)]).


Definition is_unlink (e : event) : bool := match call_of e with CUnlink _ => true | _ => false end.
Definition is_open (e : event) : bool := match e with EvUnit (COpenExclusive _ _) (Ok _) => true | _ => false end.

(** A full disk: the append makes its file, fails and removes nothing. *)
Lemma failed_append_leaves_its_file_witness :
  exists out w' t, appendPlanDocAtomically (sample_ctx (plan_env (js "# Old") true)) (js "/work/p") (js "/work/p/docs/TODO.md")
      (js "more") None (plan_world "planner") = (out, w', t) /\
    is_ok out = false /\ existsb is_open t = true /\ existsb is_unlink t = false /\
    (forall temp a, EvUnit (CUnlink temp) a ∈ t -> exists text, complete temp text t).
Proof.
  destruct (appendPlanDocAtomically (sample_ctx (plan_env (js "# Old") true)) (js "/work/p") (js "/work/p/docs/TODO.md")
      (js "more") None (plan_world "planner")) as [[out w'] t] eqn:Hrun.
  exists out, w', t. split; [reflexivity|].
  pose proof (f_equal (fun x => (is_ok (fst (fst x)), existsb is_open (snd x), existsb is_unlink (snd x))) Hrun) as H.
  vm_compute in H. injection H as H1 H2 H3. split; [symmetry; exact H1|]. split; [symmetry; exact H2|]. split; [symmetry; exact H3|].
  exact (proj1 (failed_append_leaves_its_file (sample_ctx (plan_env (js "# Old") true)) (js "/work/p") (js "/work/p/docs/TODO.md")
    (js "more") None (plan_world "planner") out w' t Hrun)).
Defined.
