(* ===== verification/Queries.v ===== *)
(** * Status queries (broker/src/service.ts)

    The operations that only read the broker's own state: one worker's status,
    the list of workers and the metrics. *)
From Stdlib Require Import QArith.
From S2P Require Import Prelude JsVal Types State Policy Path Validation HostPaths Envelope.
From S2P Require Import RolePolicy GitOps Artifacts Queue Effects Worker.
Open Scope Z_scope.

(** A rational as a JSON number. *)
Definition num_json (q : Q) : jsval :=
  let r := Qred q in
  if (Qden r =? 1)%positive then jint (Qnum r) else JNum (NumFrac (number_text q)).

Definition or_null_json (o : option jsstr) : jsval := match o with Some s => JStr s | None => JNull end.

Definition workerStatus (req : BrokerRequestEnvelope) : M jsval :=
  _ ← lift (payloadOf req);
  record ← recordOr404 (req_sessionID req);
  mret (JObj [(js "sessionID", JStr (sessionID record)); (js "state", JStr (state_name (state record)));
              (js "worker", or_null_json (workerName record));
              (js "workerState", or_null_json (worker_state_name <$> workerState record))]).

Definition worker_json (r : SessionRecord) (name : jsstr) : jsval :=
  JObj [(js "workerName", JStr name); (js "sessionID", JStr (sessionID r));
        (js "projectID", JStr (default [] (projectID r)));
        (js "state", JStr (worker_state_name (default ACTIVE (workerState r))));
        (js "cpu", match resources r with Some (cpu, _) => num_json cpu | None => jint 0 end);
        (js "memBytes", match resources r with Some (_, mem) => jint mem | None => jint 0 end);
        (js "createdAt", JStr (createdAt r))].

Definition listWorkers : M jsval :=
  records ← store_list;
  mret (JObj [(js "workers", JArr (omap (fun r => worker_json r <$> truthy (workerName r)) records))]).

(** [counts[k] = (counts[k] ?? 0) + 1], keys in the order of their first use. *)
Fixpoint count_in (k : jsstr) (counts : list (jsstr * Z)) : list (jsstr * Z) :=
  match counts with
  | [] => [(k, 1)]
  | (k', n) :: rest => if str_eqb k k' then (k', n + 1) :: rest else (k', n) :: count_in k rest
  end.
Definition sessionsByState (records : list SessionRecord) : list (jsstr * Z) :=
  fold_left (fun counts r => count_in (state_name (state r)) counts) records [].

(** [dropped] and [droppedTelemetry] are the logger's counters. *)
Definition metrics (ctx : OpContext) (dropped droppedTelemetry : Z) : M jsval :=
  records ← store_list;
  pool ← ask w_pool;
  mret (JObj [(js "totalCpu", jint (cpuCount (host_resources ctx)));
              (js "totalMemBytes", jint (totalMemBytes (host_resources ctx)));
              (js "reservedCpu", jint (hostReservedCpu (budget ctx)));
              (js "reservedMemBytes", jint (hostReservedMemBytes (budget ctx)));
              (js "aggregateCpuInUse", num_json (aggregateCpu pool));
              (js "aggregateMemBytesInUse", jint (aggregateMem pool));
              (js "workersActive", jint (Z.of_nat (length pool)));
              (js "workersMax", jint (maxWorkers (budget ctx)));
              (js "sessionsByState", JObj (map (fun '(k, n) => (k, jint n)) (sessionsByState records)));
              (js "droppedLogLines", jint dropped);
              (js "droppedReaperTelemetryEvents", jint droppedTelemetry);
              (js "budgetExhausted", JBool (negb (allowed (checkAdmission pool (budget ctx) None None))))]).
