(* ===== verification/TestRun.v ===== *)
(** * Test runs (broker/src/service.ts, testRun)

    A configured test runner in a project: the capture of its output under a
    combined cap with its time limit, the provenance of the tree it ran on, and
    the handler.  The child process is the environment's: it is given as the
    events it produces, in order, and its end. *)
From Stdlib Require Import QArith.
From stdpp Require Import sorting.
From S2P Require Import Prelude JsVal Types State Policy Path Validation HostPaths Envelope RolePolicy GitOps Artifacts Queue Effects Worker.
From S2P Require Import Redact Results Diff Authorization Codec FileOps HostSteps SandboxResult.
Open Scope Z_scope.

(** ** Capture *)
Inductive stream := Out | Err.

Inductive child_event :=
  | Data (s : stream) (chunk : list N)    (* a chunk of bytes *)
  | Lapsed                                (* the time limit *)
  | Grace (timer : nat).                  (* a grace timer fires: SIGKILL to the group *)

Inductive child_end := Closed (exitCode : option Z) (signal : option jsstr) | Failed (e : exn).

Record Capture := mkCapture {
  cap_stdout : list N; cap_stderr : list N; captured : Z;
  cap_timedOut : bool; cap_truncated : bool;
  grace_timers : list nat;                (* grace timers set and not fired *)
  graceTimer : option nat;                (* the variable: the last one set *)
  kills : nat                             (* SIGKILLs sent *)
}.
Definition no_capture : Capture := mkCapture [] [] 0 false false [] None 0.

(** SIGTERM to the group, and a grace timer of its own. *)
Definition terminateGroup (c : Capture) : Capture :=
  let timer := match graceTimer c with Some n => S n | None => O end in
  mkCapture (cap_stdout c) (cap_stderr c) (captured c) (cap_timedOut c) (cap_truncated c)
    (timer :: grace_timers c) (Some timer) (kills c).

Definition set_truncated (c : Capture) : Capture :=
  mkCapture (cap_stdout c) (cap_stderr c) (captured c) (cap_timedOut c) true (grace_timers c) (graceTimer c) (kills c).
Definition set_timedOut (c : Capture) : Capture :=
  mkCapture (cap_stdout c) (cap_stderr c) (captured c) true (cap_truncated c) (grace_timers c) (graceTimer c) (kills c).

Definition collect (maxOutputBytes : Z) (s : stream) (chunk : list N) (c : Capture) : Capture :=
  let remaining := Z.max 0 (maxOutputBytes - captured c) in
  let kept := take (Z.to_nat remaining) chunk in
  let c' := mkCapture (match s with Out => cap_stdout c ++ kept | Err => cap_stdout c end)
                      (match s with Err => cap_stderr c ++ kept | Out => cap_stderr c end)
                      (captured c + Z.of_nat (length kept)) (cap_timedOut c) (cap_truncated c)
                      (grace_timers c) (graceTimer c) (kills c) in
  if (length kept <? length chunk)%nat && negb (cap_truncated c) then terminateGroup (set_truncated c') else c'.

Definition on_child (maxOutputBytes : Z) (c : Capture) (ev : child_event) : Capture :=
  match ev with
  | Data s chunk => collect maxOutputBytes s chunk c
  | Lapsed => terminateGroup (set_timedOut c)
  | Grace timer =>
      if bool_decide (timer ∈ grace_timers c)
      then mkCapture (cap_stdout c) (cap_stderr c) (captured c) (cap_timedOut c) (cap_truncated c)
             (List.filter (fun t => negb (Nat.eqb t timer)) (grace_timers c)) (graceTimer c) (S (kills c))
      else c
  end.

(** The end of the child clears the time limit and the last grace timer. *)
Definition close_timers (c : Capture) : list nat :=
  match graceTimer c with
  | Some timer => List.filter (fun t => negb (Nat.eqb t timer)) (grace_timers c)
  | None => grace_timers c
  end.

Record TestRunResult := mkRun {
  tr_exitCode : option Z; tr_signal : option jsstr; tr_timedOut : bool; tr_truncated : bool;
  tr_stdout : list N; tr_stderr : list N
}.

Definition runTestCommand (maxOutputBytes : Z) (events : list child_event) (end_ : child_end) : res TestRunResult :=
  let c := fold_left (on_child maxOutputBytes) events no_capture in
  match end_ with
  | Closed exitCode signal => Ok (mkRun exitCode signal (cap_timedOut c) (cap_truncated c) (cap_stdout c) (cap_stderr c))
  | Failed e => Throw e
  end.

(** ** Provenance *)
Definition TEST_RUN_PROVENANCE_MAX_PATHS : Z := 50.
Definition TEST_RUN_PROVENANCE_BUDGET_MS : Z := 5000.

(** The dirty paths of a porcelain status: both names of a rename or copy. *)
Fixpoint status_paths (records : list jsstr) : list jsstr :=
  match records with
  | [] => []
  | record :: rest =>
      if js_length record <? 4 then status_paths rest else
      let renamed := match record with c :: _ => (c =? 82)%N || (c =? 67)%N | [] => false end in
      drop 3 record ::
        match renamed, rest with
        | true, old :: rest' => old :: status_paths rest'
        | _, _ => status_paths rest
        end
  end.
Definition nul_records (text : jsstr) : list jsstr := List.filter (fun r => 0 <? js_length r) (split_on 0 text).

(** [line.split(/\s+/)[1] ?? ""] *)
Fixpoint drop_field (s : jsstr) : jsstr :=
  match s with c :: s' => if is_ws c then s else drop_field s' | [] => [] end.
Fixpoint take_field (s : jsstr) : jsstr :=
  match s with c :: s' => if is_ws c then [] else c :: take_field s' | [] => [] end.
Definition second_field (line : jsstr) : jsstr := take_field (trim_start (drop_field line)).

Record TestRunProvenance := mkProvenance {
  pv_gitHead : option jsstr; pv_dirtyPaths : list jsstr; pv_dirtyPathsTruncated : bool;
  pv_provenanceTruncated : bool; pv_worktreeDigest : option jsstr
}.
Definition empty_provenance (truncated : bool) : TestRunProvenance := mkProvenance None [] false truncated None.

Section provenance.
  Context (E : Environment) (sha256 : list N -> jsstr) (projectRoot : jsstr) (environment : jsval).

(** One git query within the budget; [None] when it threw.  The flag is
    provenanceTruncated. *)
Definition over_budget (startedAt : Z) : M bool :=
  now ← call_int E CNow; mret (TEST_RUN_PROVENANCE_BUDGET_MS <=? now - startedAt).

Definition prov_git (startedAt : Z) (truncated : bool) (args : list jsstr) : M (bool * option (option Z * jsstr)) :=
  try_catch
    (now ← call_int E CNow;
     let remainingMs := TEST_RUN_PROVENANCE_BUDGET_MS - (now - startedAt) in
     if remainingMs <=? 0 then mret (true, Some (None, [])) else
     result ← call_proc E (CSpawn (argv ["git"; "-C"] ++ [projectRoot] ++ args)
                             (mkOpts None (jint (Z.max 1 remainingMs)) environment (Some (2 * 1024 * 1024))));
     over ← (if bool_decide (status result = None) then mret true else over_budget startedAt : M bool);
     mret (truncated || over, Some (status result, stdout result)))
    (fun _ => mret (truncated, None)).

Definition succeeded (r : option Z * jsstr) : bool := bool_decide (fst r = Some 0).

(** The updates of the digest for the paths, in order, until time runs out. *)
Fixpoint hash_paths (startedAt : Z) (truncated : bool) (paths : list jsstr) : M (bool * option (list jsstr)) :=
  match paths with
  | [] => mret (truncated, Some [])
  | path :: rest =>
      stop ← (if truncated then over_budget startedAt else mret false : M bool);
      if (stop : bool) then mret (truncated, Some []) else
      staged ← prov_git startedAt truncated (argv ["ls-files"; "--stage"; "-z"; "--"] ++ [path]);
      match staged with
      | (truncated1, None) => mret (truncated1, None)
      | (truncated1, Some r) =>
          over1 ← (if bool_decide (fst r = None) then mret true else over_budget startedAt : M bool);
          if (over1 : bool) then mret (truncated1, Some []) else
          worktree ← prov_git startedAt truncated1 (argv ["hash-object"; "--"] ++ [path]);
          match worktree with
          | (truncated2, None) => mret (truncated2, None)
          | (truncated2, Some r2) =>
              over2 ← (if bool_decide (fst r2 = None) then mret true else over_budget startedAt : M bool);
              if (over2 : bool) then mret (truncated2, Some []) else
              more ← hash_paths startedAt truncated2 rest;
              let stagedHash := merge_sort str_le (map second_field (nul_records (snd r))) in
              let worktreeHash := if succeeded r2 then trim (snd r2) else [] in
              mret (fst more, (updates ← (snd more : option (list jsstr));
                Some ([[0%N]; path; [0%N]; default [] (json_stringify (JArr (map JStr stagedHash))); [0%N]; worktreeHash] ++ updates)))
          end
      end
  end.

Definition testRunProvenance : M TestRunProvenance :=
  startedAt ← call_int E CNow;
  head ← prov_git startedAt false (argv ["rev-parse"; "--verify"; "HEAD"]);
  match head with
  | (truncated, None) => mret (empty_provenance truncated)
  | (truncated, Some headResult) =>
      let headText := if succeeded headResult then trim (snd headResult) else [] in
      let gitHead := if SHA1_RE headText then Some headText else None in
      status ← prov_git startedAt truncated (argv ["status"; "--porcelain=v1"; "-z"]);
      match status with
      | (truncated, None) => mret (empty_provenance truncated)
      | (truncated, Some st) =>
          if negb (succeeded st) then mret (empty_provenance truncated) else
          let sortedPaths := sorted_set (status_paths (nul_records (snd st))) in
          let head_json := match gitHead with Some h => JStr h | None => JNull end in
          let first := default [] (json_stringify (JArr [head_json; JArr (map JStr sortedPaths)])) in
          let many := TEST_RUN_PROVENANCE_MAX_PATHS <? Z.of_nat (length sortedPaths) in
          hashed ← hash_paths startedAt (truncated || many) (take (Z.to_nat TEST_RUN_PROVENANCE_MAX_PATHS) sortedPaths);
          match hashed with
          | (truncated, None) => mret (empty_provenance truncated)
          | (truncated, Some updates) =>
              mret (mkProvenance gitHead (take 200 sortedPaths) (200 <? Z.of_nat (length sortedPaths)) truncated
                      (Some (js "sha256:" ++ sha256 (concat (map utf8_encode (first :: updates))))))
          end
      end
  end.
End provenance.

(** ** The handler *)
Record TestRunnerConfig := mkRunner {
  rn_id : jsstr; rn_language : jsstr; rn_argv : list jsstr; rn_cwd : jsstr; rn_timeoutMs : Z; rn_maxOutputBytes : Z
}.

Definition testRunRefusal (code detail : jsstr) : exn := validation_error (code ++ js ": " ++ detail).

Section op.
  Context (ctx : OpContext) (testRunners : list TestRunnerConfig).
  (* the hash, [process.env], and the child of a command line in a directory
     with an environment and a time limit *)
  Context (sha256 : list N -> jsstr) (process_env : jsstr -> option jsstr).
  Context (child : list jsstr -> jsstr -> jsval -> Z -> M (list child_event * child_end)).
#[local] Abbreviation E := (env ctx).

Definition known_ids : jsstr := list_text (map rn_id testRunners).

Definition find_runner (v : jsval) : res TestRunnerConfig :=
  _ ← throw_if (bool_decide (length testRunners = O))
        (testRunRefusal (js "TEST_RUNNERS_UNCONFIGURED") (js "no test runners are configured"));
  match v with
  | JStr id =>
      match List.find (fun r => str_eqb (rn_id r) id) testRunners with
      | Some r => Ok r
      | None => Throw (testRunRefusal (js "TEST_RUNNER_UNKNOWN") (js "unknown runner '" ++ id ++ js "'; known ids: " ++ known_ids))
      end
  | _ => Throw (testRunRefusal (js "TEST_RUNNER_UNKNOWN") (js "runner must be an id; known ids: " ++ known_ids))
  end.

(** [statSync], [accessSync] and [isFile], any failure of which is the same. *)
Definition check_executable (executable : jsstr) : M unit :=
  let bad := testRunRefusal (js "TEST_RUNNER_EXECUTABLE_INVALID")
               (js "configured executable is not a regular executable file: " ++ executable) in
  try_catch
    (regular ← call_bool E (CIsFile executable);
     _ ← call_unit E (CAccess executable);
     throw_when (negb regular) bad)
    (fun _ => throw bad).

(** The runner's directory, inside the project by name and by real path. *)
Definition runner_cwd (projectRoot : jsstr) (runner : TestRunnerConfig) : M jsstr :=
  let cwd := resolve2 projectRoot (rn_cwd runner) in
  let escape what := testRunRefusal (js "TEST_RUN_CWD_ESCAPE") (js "runner cwd " ++ js what ++ rn_cwd runner) in
  _ ← throw_when (negb (isWithin projectRoot cwd)) (escape "escapes the project root: ");
  realCwd ← try_catch (call_text E (CRealpath cwd)) (fun _ => mret cwd);
  _ ← throw_when (negb (isWithin projectRoot realCwd)) (escape "resolves outside the project root: ");
  mret cwd.

Definition check_directory (cwd : jsstr) : M unit :=
  let bad := testRunRefusal (js "TEST_RUN_CWD_NOT_DIRECTORY") (js "runner cwd is not a directory: " ++ cwd) in
  try_catch (dir ← call_bool E (CIsDirectory cwd); throw_when (negb dir) bad) (fun _ => throw bad).

Definition inherited : list (jsstr * jsval) :=
  omap (fun k => v ← process_env (js k); Some (js k, JStr v)) ["PATH"; "HOME"; "TMPDIR"; "LANG"]%string.

Definition git_environment : jsval :=
  JObj ([(js "GIT_CONFIG_NOSYSTEM", JStr (js "1")); (js "GIT_CONFIG_GLOBAL", JStr (js "/dev/null"));
         (js "GIT_OPTIONAL_LOCKS", JStr (js "0")); (js "GIT_CONFIG_COUNT", JStr (js "1"));
         (js "GIT_CONFIG_KEY_0", JStr (js "core.fsmonitor")); (js "GIT_CONFIG_VALUE_0", JStr (js "false"))] ++ inherited).
Definition runner_environment : jsval := JObj ([(js "NO_COLOR", JStr (js "1")); (js "CI", JStr (js "1"))] ++ inherited).

Definition bool_text (b : bool) : jsstr := js (if b then "true" else "false").
Definition or_null (o : option jsstr) : jsstr := default (js "null") o.

(** The bytes of the log; the source's templates hold a backslash and an n. *)
Definition log_bytes (runner : TestRunnerConfig) (r : TestRunResult) : list N :=
  let nl := [92; 110]%N in
  utf8_encode (js "runner=" ++ rn_id runner ++ js " exitCode=" ++ or_null (dec <$> tr_exitCode r)
    ++ js " signal=" ++ or_null (tr_signal r) ++ js " timedOut=" ++ bool_text (tr_timedOut r)
    ++ js " truncated=" ++ bool_text (tr_truncated r) ++ nl ++ js "stdout" ++ nl)
  ++ tr_stdout r ++ nl ++ js "stderr" ++ nl ++ tr_stderr r
  ++ (if tr_truncated r then nl ++ js "[output truncated at configured combined cap]" ++ nl else []).

(** The log in the state directory, never inside the project; best effort. *)
Definition write_log (projectRoot : jsstr) (runner : TestRunnerConfig) (r : TestRunResult) : M (option jsstr) :=
  let directory := join [stateDir (cfg ctx); js "test-runs"] in
  try_catch
    (_ ← throw_when (isWithin projectRoot directory)
           (Exn EError (js "test-run artifact directory is inside the project"));
     _ ← call_unit E (CMkdir directory);
     uuid ← call_text E CRandomUUID;
     let path := join [directory; uuid ++ js ".log"] in
     let temporary := path ++ js ".tmp" in
     _ ← call_unit E (CWriteFile temporary (log_bytes runner r) 384);
     _ ← call_unit E (CRename temporary path);
     mret (Some path))
    (fun _ => mret None).

(** The last [n] bytes. *)
Definition tail_bytes (n : nat) (bs : list N) : list N := drop (length bs - n) bs.

Definition provenance_json (p : TestRunProvenance) : list (jsstr * jsval) :=
  [(js "gitHead", match pv_gitHead p with Some h => JStr h | None => JNull end);
   (js "dirtyPaths", JArr (map JStr (pv_dirtyPaths p)))]
  ++ (if pv_dirtyPathsTruncated p then [(js "dirtyPathsTruncated", JBool true)] else [])
  ++ (if pv_provenanceTruncated p then [(js "provenanceTruncated", JBool true)] else [])
  ++ [(js "worktreeDigest", match pv_worktreeDigest p with Some d => JStr d | None => JNull end)].

(** The run of a runner, under the project's lock (withTestRunLock). *)
Definition run_runner (projectRoot : jsstr) (runner : TestRunnerConfig) : M jsval :=
  _ ← check_executable (nth 0 (rn_argv runner) []);
  cwd ← runner_cwd projectRoot runner;
  _ ← check_directory cwd;
  startedAt ← call_int E CNow;
  provenance ← testRunProvenance E sha256 projectRoot git_environment;
  run ← child (rn_argv runner) cwd runner_environment (rn_timeoutMs runner);
  result ← lift (runTestCommand (rn_maxOutputBytes runner) (fst run) (snd run));
  logArtifact ← write_log projectRoot runner result;
  finishedAt ← call_int E CNow;
  mret (JObj ([(js "runner", JStr (rn_id runner));
               (js "exitCode", match tr_exitCode result with Some z => jint z | None => JNull end);
               (js "signal", match tr_signal result with Some s => JStr s | None => JNull end);
               (js "timedOut", JBool (tr_timedOut result)); (js "truncated", JBool (tr_truncated result));
               (js "durationMs", jint (finishedAt - startedAt));
               (js "stdoutTail", JStr (utf8_lossy (tail_bytes 8192 (tr_stdout result))));
               (js "stderrTail", JStr (utf8_lossy (tail_bytes 8192 (tr_stderr result))));
               (js "logArtifact", match logArtifact with Some p => JStr p | None => JNull end)]
              ++ provenance_json provenance)).

Definition testRun (req : BrokerRequestEnvelope) : M jsval :=
  existing ← store_get (req_sessionID req);
  _ ← throw_when (match truthy (existing ≫= agent) with
                  | Some a => negb (mem a (readOnlyAgents (cfg ctx)))
                  | None => true
                  end)
        (policy_error (js "testRun requires a session-bound read-only orchestrator identity (TEST_EXECUTION_DENIED)"));
  payload ← lift (payloadOf req);
  root ← lift (resolveCanonicalProjectRoot ctx (field payload (js "projectDir")));
  let '(_, projectRoot) := root in
  runner ← lift (find_runner (field payload (js "runner")));
  run_runner projectRoot runner.
End op.

(** ** Facts about test runs

    What is captured of a runner's output, under any interleaving of its two
    streams, and the timers its end leaves behind. *)
(** ** The capture is a prefix of the output *)

(** The bytes of a run of chunks, in arrival order, each with its stream. *)
Definition tagged (s : stream) (bs : list N) : list (stream * N) := map (fun b => (s, b)) bs.
Fixpoint produced (events : list child_event) : list (stream * N) :=
  match events with
  | Data s chunk :: rest => tagged s chunk ++ produced rest
  | _ :: rest => produced rest
  | [] => []
  end.
Definition is_out (p : stream * N) : bool := match fst p with Out => true | Err => false end.
Definition of_stream (s : stream) (bs : list (stream * N)) : list N :=
  map snd (List.filter (fun p => match s with Out => is_out p | Err => negb (is_out p) end) bs).

(** The capture so far: a prefix of the produced bytes, within the cap, whole
    unless truncated. *)
Record captures (max : Z) (c : Capture) (bytes : list (stream * N)) : Prop := mkCaptures {
  cp_out : cap_stdout c = of_stream Out (take (Z.to_nat max) bytes);
  cp_err : cap_stderr c = of_stream Err (take (Z.to_nat max) bytes);
  cp_count : captured c = Z.min max (Z.of_nat (length bytes));
  cp_truncated : cap_truncated c = (max <? Z.of_nat (length bytes))
}.

Lemma of_stream_app s a b : of_stream s (a ++ b) = of_stream s a ++ of_stream s b.
Proof. unfold of_stream. by rewrite List.filter_app, map_app. Qed.
Lemma of_stream_tagged s bs : of_stream s (tagged s bs) = bs.
Proof. unfold of_stream, tagged. induction bs as [|b bs IH]; [by destruct s|]. destruct s; cbn in *; by rewrite IH. Qed.
Lemma of_stream_other s s' bs : s <> s' -> of_stream s (tagged s' bs) = [].
Proof. intros H. unfold of_stream, tagged. induction bs as [|b bs IH]; [by destruct s|]. destruct s, s'; cbn in *; done. Qed.
Lemma take_tagged n s bs : take n (tagged s bs) = tagged s (take n bs).
Proof. unfold tagged. by rewrite <- firstn_map. Qed.

Lemma take_more {A} (max : nat) (a b : list A) : take max (a ++ b) = take max a ++ take (max - length a) b.
Proof. apply take_app. Qed.

Lemma captures_event max c bytes ev :
  0 <= max -> captures max c bytes -> captures max (on_child max c ev) (bytes ++ produced [ev]).
Proof.
  intros Hmax [Ho He Hc Ht]. destruct ev as [s chunk| |timer]; cbn [produced on_child]; rewrite ?app_nil_r; cycle 1.
  - by split.
  - by case_bool_decide; split.
  - unfold collect. set (n := Z.to_nat (Z.max 0 (max - captured c))).
    assert (n = (Z.to_nat max - length bytes)%nat) as Hn by (unfold n; rewrite Hc; lia).
    assert (Z.of_nat (length (take n chunk)) = Z.min (Z.of_nat n) (Z.of_nat (length chunk))) as Hl by (rewrite length_take; lia).
    assert (forall t, of_stream t (take (Z.to_nat max) (bytes ++ tagged s chunk))
      = of_stream t (take (Z.to_nat max) bytes) ++ of_stream t (tagged s (take n chunk))) as Htake.
    { intros t. by rewrite take_more, of_stream_app, <- Hn, take_tagged. }
    assert (length (tagged s chunk) = length chunk) as Hlen by apply length_map.
    assert (forall b, captures max (let c' := mkCapture (match s with Out => cap_stdout c ++ take n chunk | Err => cap_stdout c end)
        (match s with Err => cap_stderr c ++ take n chunk | Out => cap_stderr c end)
        (captured c + Z.of_nat (length (take n chunk))) (cap_timedOut c) b (grace_timers c) (graceTimer c) (kills c) in c')
        (bytes ++ tagged s chunk) <-> b = (max <? Z.of_nat (length (bytes ++ tagged s chunk)))) as Hcap.
    { intros b. split; [by intros []|]. intros Hb. split; cbn [cap_stdout cap_stderr captured cap_truncated].
      - rewrite Htake, <- Ho. destruct s; [by rewrite of_stream_tagged | by rewrite of_stream_other, app_nil_r].
      - rewrite Htake, <- He. destruct s; [by rewrite of_stream_other, app_nil_r | by rewrite of_stream_tagged].
      - rewrite length_app, Hlen, Hl, Hc. lia.
      - exact Hb. }
    rewrite length_app, Hlen in Hcap.
    destruct ((length (take n chunk) <? length chunk)%nat && negb (cap_truncated c)) eqn:Hover.
    + apply andb_true_iff in Hover as [Hlt%Nat.ltb_lt Hnt]. rewrite Ht in Hnt. apply negb_true_iff, Z.ltb_ge in Hnt.
      destruct (proj2 (Hcap true)) as [H1 H2 H3 H4]; [symmetry; apply Z.ltb_lt; lia|].
      split; [exact H1 | exact H2 | exact H3 | exact H4].
    + apply Hcap. rewrite Ht. apply andb_false_iff in Hover as [Hge%Nat.ltb_ge | Hnt].
      * destruct (Z.ltb_spec max (Z.of_nat (length bytes))), (Z.ltb_spec max (Z.of_nat (length bytes + length chunk))); lia.
      * rewrite Ht in Hnt. apply negb_false_iff in Hnt. rewrite Hnt. symmetry. apply Z.ltb_lt. apply Z.ltb_lt in Hnt. lia.
Qed.

Lemma produced_app a b : produced (a ++ b) = produced a ++ produced b.
Proof. induction a as [|ev a IH]; [done|]. destruct ev; cbn [produced app]; rewrite IH; [by rewrite app_assoc | done | done]. Qed.

Lemma captures_all max c bytes events :
  0 <= max -> captures max c bytes -> captures max (fold_left (on_child max) events c) (bytes ++ produced events).
Proof.
  intros Hmax. revert c bytes. induction events as [|ev events IH]; intros c bytes H; cbn [fold_left].
  - by rewrite app_nil_r.
  - change (ev :: events) with ([ev] ++ events). rewrite produced_app, app_assoc. by apply IH, captures_event.
Qed.

(** A test run keeps exactly the first bytes of the output.  However the
    two streams interleave, in whatever chunks, the captured output and error
    text are those of the first maxOutputBytes bytes in arrival order, never
    more than the cap together, and the run says it was truncated exactly when
    more was produced. *)
Theorem capture_is_prefix max events exitCode signal r :
  0 <= max -> runTestCommand max events (Closed exitCode signal) = Ok r ->
  tr_stdout r = of_stream Out (take (Z.to_nat max) (produced events)) /\
  tr_stderr r = of_stream Err (take (Z.to_nat max) (produced events)) /\
  Z.of_nat (length (tr_stdout r)) + Z.of_nat (length (tr_stderr r)) <= max /\
  tr_truncated r = (max <? Z.of_nat (length (produced events))).
Proof.
  intros Hmax [= <-]. assert (captures max no_capture []) as H0.
  { split; cbn; [by rewrite take_nil | by rewrite take_nil | lia | symmetry; apply Z.ltb_ge; lia]. }
  destruct (captures_all max no_capture [] events Hmax H0) as [H1 H2 H3 H4]. cbn [app] in *.
  cbn [tr_stdout tr_stderr tr_truncated]. split_and!; [done | done | | done].
  rewrite H1, H2. unfold of_stream. rewrite !length_map.
  assert (forall l : list (stream * N), (length (List.filter is_out l) + length (List.filter (fun p => negb (is_out p)) l) = length l)%nat) as Hsum.
  { intros l. induction l as [|p l IH]; [done|]. cbn [List.filter]. destruct (is_out p); cbn [negb length]; lia. }
  specialize (Hsum (take (Z.to_nat max) (produced events))). rewrite length_take in Hsum.
  cbv beta iota. change (fun p => is_out p) with is_out. lia.
Qed.

Lemma capture_is_prefix_witness :
  0 <= 5 /\
  exists r, runTestCommand 5 [Data Out (js "abc"); Data Err (js "xyz"); Lapsed; Data Out (js "d")] (Closed (Some 0) None) = Ok r /\
    tr_stdout r = js "abc" /\ tr_stderr r = js "xy" /\ tr_truncated r = true.
Proof.
  split; [lia|]. eexists. split; [reflexivity|].
  destruct (capture_is_prefix 5 [Data Out (js "abc"); Data Err (js "xyz"); Lapsed; Data Out (js "d")] (Some 0) None _
    ltac:(lia) eq_refl) as (H1 & H2 & _ & H4).
  rewrite H1, H2, H4. split; [|split]; vm_compute; reflexivity.
Defined.

(** A run ended twice leaves a kill behind.  Exceeding the cap and then the
    time limit each start a grace timer, but only the last is cleared when the
    child closes: the first stays set, and sends SIGKILL to the group of a
    process that has ended. *)
Theorem second_termination_leaks_a_timer max s chunk :
  0 <= max < Z.of_nat (length chunk) ->
  let c := fold_left (on_child max) [Data s chunk; Lapsed] no_capture in
  close_timers c = [0%nat] /\ kills c = 0%nat /\ kills (on_child max c (Grace 0)) = 1%nat.
Proof.
  intros Hmax. cbn [fold_left on_child]. unfold collect. cbn [captured no_capture].
  assert ((length (take (Z.to_nat (Z.max 0 (max - 0))) chunk) <? length chunk)%nat = true) as ->
    by (apply Nat.ltb_lt; rewrite length_take; lia).
  by destruct s.
Qed.

Lemma second_termination_leaks_a_timer_witness :
  0 <= 1 < Z.of_nat (length (js "ab")) /\
  close_timers (fold_left (on_child 1) [Data Out (js "ab"); Lapsed] no_capture) = [0%nat].
Proof.
  split; [cbn; lia|]. apply (second_termination_leaks_a_timer 1 Out (js "ab")). cbn. lia.
Defined.
