(* ===== verification/Locks.v ===== *)
(** * Promise-chain locks (broker/src/server.ts withSessionLock; service.ts
    withPlanDocLock, withTestRunLock)

    Work on one key is chained: [prev.then(fn, fn)] starts a task when the one
    before it has settled, however it ended.  The session lock also counts, per
    session, the tasks it has accepted and not yet given back (activeLocks),
    which the reaper reads.  The tasks run asynchronously, so the lock is a
    step relation: a task is accepted, started, ended, and, in a later turn of
    the event loop, given back. *)
From S2P Require Import Prelude.
From stdpp Require Import relations.
Open Scope Z_scope.

Section locks.
  Context {K : Type} `{Countable K}.

(** The tasks of one key. *)
Record Chain := mkChain {
  waiting : list nat;          (* accepted, in order *)
  running : option nat;        (* started and not ended *)
  ending : nat                 (* ended, their [finally] not yet run *)
}.
Definition idle : Chain := mkChain [] None 0.

Record Locks := mkLocks {
  chains : gmap K Chain;
  activeLocks : gmap K Z;
  accepted : list (K * nat);   (* every task accepted, in order *)
  started : list (K * nat)     (* every task started, in order *)
}.
Definition no_locks : Locks := mkLocks ∅ ∅ [] [].
Definition chain_of (l : Locks) (k : K) : Chain := default idle (chains l !! k).

(** [activeLocks.set(k, (activeLocks.get(k) ?? 0) + 1)] *)
Definition count_up (k : K) (m : gmap K Z) : gmap K Z := <[k := default 0 (m !! k) + 1]> m.
(** The [finally]: one less, the entry dropped at zero. *)
Definition count_down (k : K) (m : gmap K Z) : gmap K Z :=
  let n := default 1 (m !! k) - 1 in
  if n <=? 0 then delete k m else <[k := n]> m.

Definition set_chain (k : K) (c : Chain) (l : Locks) : gmap K Chain := <[k := c]> (chains l).

Definition accept (k : K) (task : nat) (l : Locks) : Locks :=
  let c := chain_of l k in
  mkLocks (set_chain k (mkChain (waiting c ++ [task]) (running c) (ending c)) l)
    (count_up k (activeLocks l)) (accepted l ++ [(k, task)]) (started l).

Inductive lock_step (l : Locks) : Locks -> Prop :=
  | step_start k task rest n :
      chain_of l k = mkChain (task :: rest) None n ->
      lock_step l (mkLocks (set_chain k (mkChain rest (Some task) n) l) (activeLocks l) (accepted l) (started l ++ [(k, task)]))
  | step_end k ws task n :
      chain_of l k = mkChain ws (Some task) n ->
      lock_step l (mkLocks (set_chain k (mkChain ws None (S n)) l) (activeLocks l) (accepted l) (started l))
  | step_give_back k ws r n :
      chain_of l k = mkChain ws r (S n) ->
      lock_step l (mkLocks (set_chain k (mkChain ws r n) l) (count_down k (activeLocks l)) (accepted l) (started l)).

Inductive lock_event (l : Locks) : Locks -> Prop :=
  | ev_accept k task : lock_event l (accept k task l)
  | ev_step l' : lock_step l l' -> lock_event l l'.

Definition reachable (l : Locks) : Prop := rtc lock_event no_locks l.

(** ** The counts *)
Definition load (c : Chain) : nat := length (waiting c) + (if running c then 1 else 0) + ending c.
Definition work (c : Chain) : nat := 3 * length (waiting c) + (if running c then 2 else 0) + ending c.

Definition of_key (k : K) (ts : list (K * nat)) : list nat := omap (fun p => if bool_decide (p.1 = k) then Some p.2 else None) ts.

Record locks_ok (l : Locks) : Prop := mkOk {
  ok_count : forall k, activeLocks l !! k = (if (load (chain_of l k) =? 0)%nat then None else Some (Z.of_nat (load (chain_of l k))));
  ok_order : forall k, of_key k (accepted l) = of_key k (started l) ++ waiting (chain_of l k)
}.

Lemma of_key_app k a b : of_key k (a ++ b) = of_key k a ++ of_key k b.
Proof. apply omap_app. Qed.
Lemma of_key_self k t : of_key k [(k, t)] = [t].
Proof. unfold of_key. cbn. by rewrite bool_decide_eq_true_2. Qed.
Lemma of_key_other k k' t : k <> k' -> of_key k [(k', t)] = [].
Proof. intros Hk. unfold of_key. cbn. by rewrite bool_decide_eq_false_2 by auto. Qed.

Lemma chain_set l k c k' act acc st :
  chain_of (mkLocks (set_chain k c l) act acc st) k' = if bool_decide (k = k') then c else chain_of l k'.
Proof.
  unfold chain_of, set_chain. cbn [chains]. case_bool_decide as Hk; [subst; by rewrite lookup_insert_eq | by rewrite lookup_insert_ne].
Qed.

(** A count read off a load, and its changes. *)
Lemma count_up_ok k m n : m !! k = (if (n =? 0)%nat then None else Some (Z.of_nat n)) ->
  count_up k m !! k = Some (Z.of_nat (S n)).
Proof. intros Hm. unfold count_up. rewrite lookup_insert_eq, Hm. f_equal. destruct n; cbn [Nat.eqb from_option]; unfold id; lia. Qed.
Lemma count_down_ok k m n : m !! k = Some (Z.of_nat (S n)) ->
  count_down k m !! k = (if (n =? 0)%nat then None else Some (Z.of_nat n)).
Proof.
  intros Hm. unfold count_down. rewrite Hm. cbn [from_option]. unfold id. destruct n as [|n]; cbn [Nat.eqb].
  - by rewrite (proj2 (Z.leb_le _ _)), lookup_delete_eq by lia.
  - rewrite (proj2 (Z.leb_gt _ _)), lookup_insert_eq by lia. f_equal. lia.
Qed.
Lemma count_other k k' m : k <> k' -> count_up k m !! k' = m !! k' /\ count_down k m !! k' = m !! k'.
Proof.
  intros Hk. unfold count_up, count_down. split; [by rewrite lookup_insert_ne|].
  destruct (_ <=? _); [by rewrite lookup_delete_ne | by rewrite lookup_insert_ne].
Qed.

Lemma locks_ok_event l l' : locks_ok l -> lock_event l l' -> locks_ok l'.
Proof.
  intros [Hc Ho] Hev. destruct Hev as [k task|l' [k task rest n Hk|k ws task n Hk|k ws r n Hk]]; unfold accept;
    split; intros k'; cbn [activeLocks accepted started]; rewrite ?of_key_app, ?chain_set; specialize (Hc k'); specialize (Ho k');
    (destruct (decide (k = k')) as [<-|Hne];
      [rewrite ?bool_decide_eq_true_2 by done | rewrite ?bool_decide_eq_false_2 by done; try (rewrite ?of_key_other by done; by rewrite ?app_nil_r)]).
  - erewrite count_up_ok by exact Hc. unfold load. cbn [waiting running ending]. rewrite length_app. cbn [length].
    replace (_ =? 0)%nat with false by (symmetry; apply Nat.eqb_neq; lia). f_equal. f_equal. lia.
  - by rewrite (proj1 (count_other _ _ _ Hne)).
  - rewrite of_key_self, Ho. cbn [waiting]. by rewrite app_assoc.
  - rewrite Hk in Hc. rewrite Hc. unfold load. cbn [waiting running ending length]. by rewrite Nat.add_succ_r.
  - rewrite of_key_self, Ho, Hk. cbn [waiting]. by rewrite <- app_assoc.
  - rewrite Hk in Hc. rewrite Hc. unfold load. cbn [waiting running ending]. by replace (length ws + 1 + n)%nat with (length ws + 0 + S n)%nat by lia.
  - by rewrite Ho, Hk.
  - rewrite Hk in Hc. apply count_down_ok. rewrite Hc. unfold load. cbn [waiting running ending].
    replace (_ =? 0)%nat with false by (symmetry; apply Nat.eqb_neq; lia). f_equal. lia.
  - by rewrite (proj2 (count_other _ _ _ Hne)).
  - by rewrite Ho, Hk.
Qed.

Lemma reachable_ok l : reachable l -> locks_ok l.
Proof.
  intros Hr. assert (locks_ok no_locks) as H0.
  { split; intros k; cbn [activeLocks accepted started no_locks]; unfold chain_of; cbn [chains no_locks]; by rewrite !lookup_empty. }
  revert H0. induction Hr as [l|l l1 l2 Hs _ IH]; [done|]. intros Hl. apply IH. by eapply locks_ok_event.
Qed.

(** The work left, over all keys. *)
Definition total (l : Locks) : nat := map_fold (fun _ c n => work c + n)%nat 0%nat (chains l).

Lemma fold_insert (m : gmap K Chain) k c c' : m !! k = Some c ->
  (map_fold (fun _ c n => work c + n) 0 (<[k := c']> m) + work c = map_fold (fun _ c n => work c + n) 0 m + work c')%nat.
Proof.
  intros Hm. rewrite <- (insert_delete_id m k c Hm) at 2. rewrite <- insert_delete_eq.
  rewrite !map_fold_insert_L by first [apply lookup_delete_eq | intros; lia]. lia.
Qed.

Lemma step_works k c c' l act acc st : chain_of l k = c -> c <> idle -> (work c' < work c)%nat ->
  (total (mkLocks (set_chain k c' l) act acc st) < total l)%nat.
Proof.
  intros Hc Hi Hw. unfold total, set_chain. cbn [chains]. unfold chain_of in Hc.
  destruct (chains l !! k) as [c0|] eqn:Hk; [|cbn in Hc; congruence]. cbn in Hc. unfold id in Hc. subst c0.
  pose proof (fold_insert (chains l) k c c' Hk). lia.
Qed.

Lemma lock_step_works l l' : lock_step l l' -> (total l' < total l)%nat.
Proof.
  intros [k task rest n Hk|k ws task n Hk|k ws r n Hk]; apply (step_works _ _ _ _ _ _ _ Hk); unfold idle, work; cbn; try done; try lia.
  all: destruct r; lia.
Qed.

Lemma no_step_idle l : (forall l', ~ lock_step l l') -> forall k, chain_of l k = idle.
Proof.
  intros Hn k. destruct (chain_of l k) as [ws r n] eqn:Hk. destruct r as [task|]; [by edestruct Hn; eapply step_end|].
  destruct n as [|n]; [|by edestruct Hn; eapply step_give_back]. destruct ws; [done|]. by edestruct Hn; eapply step_start.
Qed.

Lemma sn_steps n l : (total l < n)%nat -> sn lock_step l.
Proof.
  revert l. induction n as [|n IH]; intros l Hl; [lia|]. constructor. intros l' Hs. apply IH.
  pose proof (lock_step_works l l' Hs). lia.
Qed.
End locks.

Arguments Locks : clear implicits.
Arguments Locks K {_ _}.

(** C35: the session lock counts exactly and keeps the order.  In every state
    reachable by accepting, starting, ending and giving back tasks, in any
    interleaving over any keys: a key has a count in activeLocks exactly when a
    task of it is waiting, running or not yet given back (so a sweep that finds
    no count runs beside no operation of that session), the count is their
    number, and tasks of a key start in the order they were accepted, one at a
    time, each once. *)
Theorem lock_counts_and_orders {K} `{Countable K} (l : Locks K) k :
  reachable l ->
  (activeLocks l !! k = None <-> chain_of l k = idle) /\
  (forall n, activeLocks l !! k = Some n -> n = Z.of_nat (load (chain_of l k)) /\ 0 < n) /\
  of_key k (accepted l) = of_key k (started l) ++ waiting (chain_of l k).
Proof.
  intros Hr. destruct (reachable_ok l Hr) as [Hc Ho]. specialize (Hc k). rewrite Hc. split_and!; [| |apply Ho].
  - destruct (chain_of l k) as [ws r n]. unfold load. cbn [waiting running ending].
    destruct (Nat.eqb_spec (length ws + (if r then 1 else 0) + n) 0) as [Hz|Hz]; split; try done.
    + intros _. destruct ws; [|cbn in Hz; lia]. destruct r; [lia|]. by replace n with 0%nat by lia.
    + intros [= -> -> ->]. cbn in Hz. lia.
  - intros n. destruct (Nat.eqb_spec (load (chain_of l k)) 0); [done|]. intros [= <-]. lia.
Qed.

Lemma lock_counts_and_orders_witness :
  let l := accept 1%nat 8%nat (accept 1%nat 7%nat no_locks) in
  reachable l /\ activeLocks l !! 1%nat = Some 2 /\ of_key 1%nat (accepted l) = [7%nat; 8%nat].
Proof.
  set (l := accept 1%nat 8%nat (accept 1%nat 7%nat no_locks)).
  assert (reachable l) as Hr by (eapply rtc_l; [apply ev_accept|]; eapply rtc_l; [apply ev_accept | apply rtc_refl]).
  split; [exact Hr|]. split; [reflexivity|].
  destruct (lock_counts_and_orders l 1%nat Hr) as (_ & _ & Ho). rewrite Ho. reflexivity.
Defined.

(** The locks drain.  Once no more tasks are accepted, and every running
    task ends (well or not), no run of the lock is infinite, and where it stops
    every accepted task of every key has been started, in order, and no count
    is left: a task that throws does not block the ones behind it. *)
Theorem locks_drain {K} `{Countable K} (l : Locks K) :
  reachable l ->
  sn lock_step l /\
  forall l', rtc lock_step l l' -> (forall l'', ~ lock_step l' l'') ->
    forall k, activeLocks l' !! k = None /\ of_key k (started l') = of_key k (accepted l').
Proof.
  intros Hr. split; [by apply (sn_steps (S (total l))); lia|].
  intros l' Hs Hn k. assert (reachable l') as Hr'.
  { unfold reachable in *. etrans; [exact Hr|]. clear -Hs. induction Hs; [apply rtc_refl|]. eapply rtc_l; [by apply ev_step | done]. }
  destruct (reachable_ok l' Hr') as [Hc Ho]. rewrite (Hc k), (Ho k), (no_step_idle l' Hn k). cbn. by rewrite app_nil_r.
Qed.

Lemma locks_drain_witness :
  let l := accept 2%nat 9%nat (accept 1%nat 7%nat no_locks) in
  reachable l /\ sn lock_step l.
Proof.
  set (l := accept 2%nat 9%nat (accept 1%nat 7%nat no_locks)).
  assert (reachable l) as Hr by (eapply rtc_l; [apply ev_accept|]; eapply rtc_l; [apply ev_accept | apply rtc_refl]).
  split; [exact Hr|]. exact (proj1 (locks_drain l Hr)).
Defined.
