(* ===== verification/Advisor.v ===== *)
(** * Advisory records (broker/src/advisor-records.ts, advisor-reviewer-result.ts)

    An orchestrator asks, one advisor claims the request and answers it once.
    A record is three files of a project's request directory, each published by
    an exclusive link and never rewritten; they are modelled as finite maps from
    the request id to what was published.  Every operation but a review-lens
    ask and evidenceKeep runs in one synchronous stretch, so it is a function
    from the directory to its answer and the directory it leaves; the clock and
    the random id are arguments.  What gentle-ai answers to a review-lens ask
    (providerReview) and the evidence kept for a request (Evidence.v) are arguments.

    First the check of what an advisor may submit as a review: its fields, the
    inspection, and each finding with its severity, location and proofs. *)
From Stdlib Require Import QArith.
From stdpp Require Import sorting.
From S2P Require Import Prelude JsVal Types State Policy Path Validation HostPaths Envelope.
From S2P Require Import RolePolicy GitOps Artifacts Queue Effects Worker Authorization.
Open Scope Z_scope.

(** ** The check of an external reviewer's result *)
Definition SEVERITIES : list jsstr := map js ["BLOCKER"; "CRITICAL"; "WARNING"; "SUGGESTION"]%string.
Definition EVIDENCE_CLASSES : list jsstr := map js ["deterministic"; "inferential"; "insufficient"]%string.
Definition CAUSAL_DISPOSITIONS : list jsstr :=
  map js ["introduced"; "behavior-activated"; "worsened"; "pre-existing"; "base-only"; "unknown"]%string.
Definition FINDING_KEYS : list jsstr :=
  map js ["id"; "lens"; "severity"; "location"; "claim"; "evidence_class"; "causal_disposition"; "proof_refs"]%string.
Definition PLACEHOLDERS : list jsstr :=
  map js ["n/a"; "na"; "none"; "todo"; "tbd"; "pass"; "passed"; "success"; "placeholder"]%string.

(** [/^\s*(?:n\/a|na|...)\s*$/i] *)
Definition PLACEHOLDER_RE (s : jsstr) : bool := mem (toLowerCase (trim s)) PLACEHOLDERS.

(** [/\S/] *)
Definition has_text (s : jsstr) : bool := existsb (fun c => negb (is_ws c)) s.

(** [.] of a regular expression: any unit but a line terminator. *)
Definition is_dot (c : N) : bool := negb ((c =? 10) || (c =? 13) || (c =? 8232) || (c =? 8233))%N.

(** [/[1-9][0-9]*/], whole. *)
Definition positive_digits (s : jsstr) : bool :=
  match s with c :: r => is_digit c && negb (c =? 48)%N && forallb is_digit r | [] => false end.

(** The last run of digits of a text and what stands before it. *)
Definition cut_digits (s : jsstr) : jsstr * jsstr :=
  let '(d, r) := span is_digit (rev s) in (rev r, rev d).

(** [/^.+:$/] *)
Definition path_colon (s : jsstr) : bool :=
  match rev s with
  | c :: ((_ :: _) as p) => (c =? 58)%N && forallb is_dot p
  | _ => false
  end.
(** [/^.+:N(-N)?$/] with [N] for [/[1-9][0-9]{0,}/] *)
Definition LOCATION_RE (s : jsstr) : bool :=
  let '(before, digits) := cut_digits s in
  positive_digits digits &&
  (path_colon before ||
   match rev before with
   | c :: r => (c =? 45)%N && (let '(before', first) := cut_digits (rev r) in positive_digits first && path_colon before')
   | [] => false
   end).

(** [/^R[1-4]-[A-Za-z0-9][A-Za-z0-9._-]*$/] *)
Definition FINDING_ID_RE (s : jsstr) : bool :=
  match s with
  | r :: n :: d :: c :: rest =>
      (r =? 82)%N && ((49 <=? n) && (n <=? 52))%N && (d =? 45)%N && is_alnum c
      && forallb (fun x => is_alnum x || one_of "._-" x) rest
  | _ => false
  end.

Definition LENS_ID_PREFIX : list (jsstr * jsstr) :=
  [(js "review-risk", js "R1-"); (js "review-readability", js "R2-");
   (js "review-reliability", js "R3-"); (js "review-resilience", js "R4-")].

Definition fail_result (parts : list jsstr) : exn := invalid_ (js "reviewerResult: " :: parts).

(** [object(value, what, allowed, required)] *)
Definition object_with (value : jsval) (what : jsstr) (allowed required : list jsstr) : res jsval :=
  match value with
  | JObj fs =>
      _ ← for_each (fun k => throw_if (negb (mem k allowed)) (fail_result [what; js " has unexpected field '"; k; js "'"]))
            (map fst fs);
      _ ← for_each (fun k => throw_if (is_undef (field value k)) (fail_result [what; js " is missing '"; k; js "'"])) required;
      Ok value
  | _ => Throw (fail_result [what; js " must be an object"])
  end.

Definition concrete (v : jsval) : bool :=
  match v with JStr s => has_text s && negb (PLACEHOLDER_RE s) | _ => false end.

Definition concreteStrings (value : jsval) (what : jsstr) : res unit :=
  match value with
  | JArr ((_ :: _) as items) =>
      for_each (fun item => throw_if (negb (concrete item)) (fail_result [what; js " entries must be concrete, not placeholders"])) items
  | _ => Throw (fail_result [what; js " must be a non-empty array"])
  end.

Definition text_in (v : jsval) (p : jsstr -> bool) : bool := match v with JStr s => p s | _ => false end.
(** [list.includes(v)] *)
Definition one_of_texts (l : list jsstr) (v : jsval) : bool := text_in v (fun s => mem s l).

Definition non_empty_text (v : jsval) : bool := text_in v (fun s => 0 <? js_length s).

Definition check_inspection (value : jsval) : res unit :=
  inspection ← object_with value (js "inspection") (map js ["status"; "paths"; "reason"]%string) [js "status"];
  let paths := field inspection (js "paths") in
  let reason := field inspection (js "reason") in
  if text_in (field inspection (js "status")) (str_eqb (js "completed")) then
    match paths with
    | JArr ((_ :: _) as ps) =>
        _ ← throw_if (existsb (fun p => negb (non_empty_text p)) ps)
              (fail_result [js "inspection paths must be non-empty strings"]);
        _ ← throw_if (negb (bool_decide (NoDup (map (fun p => match p with JStr s => s | _ => [] end) ps))))
              (fail_result [js "inspection paths must be unique"]);
        throw_if (negb (is_undef reason)) (fail_result [js "a completed inspection carries no reason"])
    | _ => Throw (fail_result [js "a completed inspection must list every inspected path"])
    end
  else if text_in (field inspection (js "status")) (str_eqb (js "unavailable")) then
    _ ← throw_if (negb (text_in reason has_text)) (fail_result [js "an unavailable inspection needs a reason"]);
    throw_if (match paths with JUndef | JArr [] => false | _ => true end)
      (fail_result [js "an unavailable inspection lists no paths"])
  else Throw (fail_result [js "inspection.status must be completed or unavailable"]).

(** [lens.replace(/^review-/, empty)] *)
Definition short_lens (lens : jsstr) : jsstr := if startsWith lens (js "review-") then drop 7 lens else lens.

Definition blocking (v : jsval) : bool := one_of_texts [js "BLOCKER"; js "CRITICAL"] v.

Definition check_finding (lens : jsstr) (i : nat) (raw : jsval) : res unit :=
  let at_ := js "findings[" ++ dec (Z.of_nat i) ++ js "]" in
  f ← object_with raw at_ FINDING_KEYS (map js ["location"; "severity"; "claim"; "proof_refs"]%string);
  let get k := field f (js k) in
  _ ← throw_if (negb (one_of_texts SEVERITIES (get "severity"%string)))
        (fail_result [at_; js ".severity must be one of "; join_with (js ", ") SEVERITIES]);
  _ ← throw_if (negb (text_in (get "claim"%string) has_text)) (fail_result [at_; js ".claim must be non-empty"]);
  _ ← throw_if (negb (text_in (get "location"%string) LOCATION_RE))
        (fail_result [at_; js ".location must be path:line or path:start-end"]);
  _ ← concreteStrings (get "proof_refs"%string) (at_ ++ js ".proof_refs");
  _ ← throw_if (negb (is_undef (get "evidence_class"%string)) && negb (one_of_texts EVIDENCE_CLASSES (get "evidence_class"%string)))
        (fail_result [at_; js ".evidence_class is invalid"]);
  _ ← throw_if (negb (is_undef (get "causal_disposition"%string))
                && negb (one_of_texts CAUSAL_DISPOSITIONS (get "causal_disposition"%string)))
        (fail_result [at_; js ".causal_disposition is invalid"]);
  _ ← throw_if (blocking (get "severity"%string)
                && (is_undef (get "evidence_class"%string) || is_undef (get "causal_disposition"%string)))
        (fail_result [at_; js " is "; match get "severity"%string with JStr s => s | _ => [] end;
                      js " and needs evidence_class and causal_disposition"]);
  _ ← throw_if (negb (is_undef (get "lens"%string)) && negb (one_of_texts [lens; short_lens lens] (get "lens"%string)))
        (fail_result [at_; js ".lens must be the requested lens"]);
  if is_undef (get "id"%string) then Ok tt else
  _ ← throw_if (negb (text_in (get "id"%string) FINDING_ID_RE)) (fail_result [at_; js ".id is malformed"]);
  match table_get LENS_ID_PREFIX lens with
  | Own prefix => throw_if (negb (text_in (get "id"%string) (fun s => startsWith s prefix)))
        (fail_result [at_; js ".id must start with "; prefix; js " for "; lens])
  | _ => Ok tt
  end.

Fixpoint check_findings (lens : jsstr) (i : nat) (items : list jsval) : res unit :=
  match items with
  | [] => Ok tt
  | raw :: items' => _ ← check_finding lens i raw; check_findings lens (S i) items'
  end.

Definition validateReviewerResult (value : jsval) (subjectHash lens : jsstr) : res unit :=
  let keys := map js ["subject_hash"; "inspection"; "findings"; "evidence"]%string in
  r ← object_with value (js "result") keys keys;
  _ ← throw_if (negb (text_in (field r (js "subject_hash")) (str_eqb subjectHash)))
        (fail_result [js "subject_hash does not match the requested artifact subject"]);
  _ ← concreteStrings (field r (js "evidence")) (js "evidence");
  _ ← check_inspection (field r (js "inspection"));
  match field r (js "findings") with
  | JArr items => check_findings lens 0 items
  | _ => Throw (fail_result [js "findings must be an array"])
  end.

(** ** Advisory records *)
Definition ADVISOR_REQUEST_TTL_MS : Z := 24 * 60 * 60 * 1000.

Inductive Host := claude | agy.
Inductive RequestedHost := ByName (h : Host) | Rotate.
Inductive Kind := pre_code_advice | review_lens.
Inductive Answer := submitted | declined.
Inductive RequestStatus := pending | claimed | answered (a : Answer) | expired.

#[export] Instance Host_eq_dec : EqDecision Host.
Proof. solve_decision. Defined.
#[export] Instance Kind_eq_dec : EqDecision Kind.
Proof. solve_decision. Defined.
#[export] Instance Answer_eq_dec : EqDecision Answer.
Proof. solve_decision. Defined.
#[export] Instance RequestStatus_eq_dec : EqDecision RequestStatus.
Proof. solve_decision. Defined.

Definition host_name (h : Host) : jsstr := match h with claude => js "claude" | agy => js "agy" end.
Definition requested_name (h : RequestedHost) : jsstr := match h with ByName h => host_name h | Rotate => js "rotate" end.
Definition kind_name (k : Kind) : jsstr :=
  match k with pre_code_advice => js "pre-code-advice" | review_lens => js "review-lens" end.
Definition answer_name (a : Answer) : jsstr := match a with submitted => js "submitted" | declined => js "declined" end.
Definition status_name (s : RequestStatus) : jsstr :=
  match s with pending => js "pending" | claimed => js "claimed" | answered a => answer_name a | expired => js "expired" end.

(** ** Validation *)
Definition prefixed (prefix : string) (p : jsstr -> bool) (s : jsstr) : bool :=
  startsWith s (js prefix) && p (drop (length (js prefix)) s).

(** [/^adv-[0-9a-f]{16}$/] *)
Definition ID_RE : jsstr -> bool := prefixed "adv-" (re_class is_hex_lower 16 16).
Definition is_slug_char (c : N) : bool := is_alnum c || one_of "._-" c.
(** [/^[A-Za-z0-9._-]{1,64}$/] *)
Definition SLUG_RE : jsstr -> bool := re_class is_slug_char 1 64.
(** [/^[a-z0-9-]{1,64}$/] *)
Definition TOKEN_RE : jsstr -> bool := re_class (fun c => is_lower c || is_digit c || (c =? 45)%N) 1 64.
(** [/^odd\/tasks\/[A-Za-z0-9._-]{1,128}\.md#[A-Za-z0-9._-]{1,32}$/]: the classes hold no [#]. *)
Definition TASK_RE (s : jsstr) : bool :=
  match cut_at 35 s with
  | Some (file, step) =>
      prefixed "odd/tasks/" (fun f => endsWith f (js ".md") && re_class is_slug_char 1 128 (take (length f - 3) f)) file
      && re_class is_slug_char 1 32 step
  | None => false
  end.
(** The project of [/^advisor-([A-Za-z0-9_-]{1,32})-[0-9a-f]{16}$/]: the nonce is the last sixteen units. *)
Definition ADVISOR_SESSION_RE (sid : jsstr) : option jsstr :=
  let body := drop 8 sid in
  let project := take (length body - 17) body in
  let nonce := drop (length body - 17) body in
  if startsWith sid (js "advisor-") && (17 <? length body)%nat
     && re_class (fun c => is_alnum c || one_of "_-" c) 1 32 project
     && prefixed "-" (re_class is_hex_lower 16 16) nonce
  then Some project else None.
(** [/[\u0000-\u0008\u000b\u000c\u000e-\u001f\u007f]/] *)
Definition is_control (c : N) : bool :=
  ((c <=? 8) || (c =? 11) || (c =? 12) || ((14 <=? c) && (c <=? 31)) || (c =? 127))%N.
Definition MAX_TEXT_BYTES : Z := 64 * 1024.
Definition MAX_FINDINGS_BYTES : Z := 256 * 1024.
Definition MAX_EVIDENCE_REFS : Z := 32.

Definition text (value : jsval) (what : jsstr) (required : bool) (maxBytes : Z) : res (option jsstr) :=
  if is_undef value && negb required then Ok None else
  match value with
  | JStr ((_ :: _) as s) =>
      _ ← throw_if (maxBytes <? byteLength s) (invalid_ [what; js " exceeds "; dec maxBytes; js " bytes"]);
      _ ← throw_if (existsb is_control s) (invalid_ [what; js " contains control characters"]);
      Ok (Some s)
  | _ => Throw (invalid_ [what; js " must be a non-empty string"])
  end.

(** [text(value, what, true, maxBytes)!] *)
Definition required_text (value : jsval) (what : jsstr) (maxBytes : Z) : res jsstr :=
  t ← text value what true maxBytes; Ok (default [] t).

(** [shown] is the text of the regular expression. *)
Definition matching (value : jsval) (re : jsstr -> bool) (shown : string) (what : jsstr) : res jsstr :=
  match value with
  | JStr s => if re s then Ok s else Throw (invalid_ [what; js " must match "; js shown])
  | _ => Throw (invalid_ [what; js " must match "; js shown])
  end.

Definition id_text : string := "/^adv-[0-9a-f]{16}$/".
Definition slug_text : string := "/^[A-Za-z0-9._-]{1,64}$/".
Definition token_text : string := "/^[a-z0-9-]{1,64}$/".
Definition task_text : string := "/^odd\/tasks\/[A-Za-z0-9._-]{1,128}\.md#[A-Za-z0-9._-]{1,32}$/".

(** [value === undefined ? undefined : f(value)] *)
Definition if_given {A} (value : jsval) (f : jsval -> res A) : res (option A) :=
  if is_undef value then Ok None else a ← f value; Ok (Some a).

Definition exactKeys (value : jsval) (allowed : list string) (what : jsstr) : res jsval :=
  match value with
  | JObj fs =>
      _ ← for_each (fun k => throw_if (negb (mem k (map js allowed))) (invalid_ [what; js " has unexpected field '"; k; js "'"]))
            (map fst fs);
      Ok value
  | _ => Throw (invalid_ [what; js " must be an object"])
  end.

Record Binding := mkBind { bd_task : jsstr; bd_step : jsstr; bd_route : option jsstr; bd_stage : option jsstr }.

Definition validBinding (value : jsval) : res Binding :=
  b ← exactKeys value ["task"; "step"; "route"; "stage"]%string (js "binding");
  task ← matching (field b (js "task")) TASK_RE task_text (js "binding.task");
  step ← required_text (field b (js "step")) (js "binding.step") 128;
  route ← if_given (field b (js "route")) (fun v => matching v SLUG_RE slug_text (js "binding.route"));
  stage ← if_given (field b (js "stage")) (fun v => matching v SLUG_RE slug_text (js "binding.stage"));
  Ok (mkBind task step route stage).

Definition validSnapshot (value : jsval) : res SnapshotSelection :=
  s ← exactKeys value ["resultRef"; "commit"; "worktree"]%string (js "snapshot");
  match object_keys s with
  | [key] =>
      if str_eqb key (js "resultRef") then
        r ← matching (field s (js "resultRef")) RESULT_REF_RE "/^refs\/opencode-sandbox\/result\/[A-Za-z0-9_-]{1,64}$/" (js "snapshot.resultRef");
        Ok (SelResultRef r)
      else if str_eqb key (js "commit") then
        c ← matching (field s (js "commit")) SHA1_RE "/^[0-9a-f]{40}$/" (js "snapshot.commit");
        Ok (SelCommit c)
      else
        match field s (js "worktree") with
        | JBool true => Ok SelWorktree
        | _ => Throw (invalid "snapshot.worktree must be true")
        end
  | _ => Throw (invalid "snapshot must name exactly one of resultRef, commit, worktree")
  end.

Fixpoint evidence_items (i : nat) (items : list jsval) : res (list jsstr) :=
  match items with
  | [] => Ok []
  | v :: items' =>
      t ← required_text v (js "evidenceRefs[" ++ dec (Z.of_nat i) ++ js "]") 4096;
      ts ← evidence_items (S i) items'; Ok (t :: ts)
  end.

Definition validEvidenceRefs (value : jsval) : res (list jsstr) :=
  let bad := Throw (invalid_ [js "evidenceRefs must be an array of at most "; dec MAX_EVIDENCE_REFS; js " strings"]) in
  match value with
  | JUndef => Ok []
  | JArr items => if MAX_EVIDENCE_REFS <? Z.of_nat (length items) then bad else evidence_items 0 items
  | _ => bad
  end.

Definition validFindings (value : jsval) : res (list jsval) :=
  match value with
  | JUndef => Ok []
  | JArr items =>
      _ ← throw_if (MAX_FINDINGS_BYTES <? byteLength (json_text value))
            (invalid_ [js "findings exceed "; dec MAX_FINDINGS_BYTES; js " bytes"]);
      Ok items
  | _ => Throw (invalid "findings must be an array")
  end.

(** ** Records *)
Record StoredReview := mkReview {
  rv_lineage : jsstr; rv_lens : jsstr; rv_target : jsstr; rv_order : Z; rv_subjectHash : jsstr; rv_lensContext : jsstr
}.

Record StoredRequest := mkRequest {
  rq_id : jsstr; rq_projectId : jsstr; rq_kind : Kind; rq_binding : Binding; rq_snapshot : SnapshotSelection;
  rq_rule : jsstr; rq_requestedHost : RequestedHost; rq_resolvedHost : Host;
  rq_group : option jsstr; rq_thread : jsstr; rq_parentId : option jsstr; rq_question : option jsstr;
  rq_evidenceRefs : list jsstr; rq_review : option StoredReview; rq_askedBy : jsstr;
  rq_createdAt : Z; rq_expiresAt : Z
}.

Record StoredClaim := mkClaim { cl_session : jsstr; cl_claimedAt : Z }.

Record StoredEvidence := mkEvidence { ev_dir : jsstr; ev_manifestSha256 : jsstr; ev_files : list (jsstr * jsstr) }.

Record StoredResponse := mkResponse {
  rp_status : Answer; rp_verdict : option jsstr; rp_findings : list jsval; rp_reviewerResult : option jsval;
  rp_evidence : option StoredEvidence; rp_session : jsstr; rp_respondedAt : Z
}.

(** The request directory of a project. *)
Record AdvisorDir := mkDir {
  d_requests : gmap jsstr StoredRequest;
  d_claims : gmap jsstr StoredClaim;
  d_responses : gmap jsstr StoredResponse;
  d_rotation : option Host          (* rotation.json *)
}.
Definition empty_dir : AdvisorDir := mkDir ∅ ∅ ∅ None.

(** [publishExclusive]: [None] when the name exists. *)
Definition publishExclusive {V} (id : jsstr) (v : V) (files : gmap jsstr V) : option (gmap jsstr V) :=
  match files !! id with Some _ => None | None => Some (<[id := v]> files) end.

Definition not_found : exn := invalid "advisory request not found".
Definition loadRequest (d : AdvisorDir) (id : jsstr) : res StoredRequest :=
  match d_requests d !! id with Some r => Ok r | None => Throw not_found end.

Definition statusOf (request : StoredRequest) (claim : option StoredClaim) (response : option StoredResponse) (now : Z)
    : RequestStatus :=
  match response with
  | Some r => answered (rp_status r)
  | None => if rq_expiresAt request <? now then expired else match claim with Some _ => claimed | None => pending end
  end.

Definition status_in (d : AdvisorDir) (now : Z) (request : StoredRequest) : RequestStatus :=
  statusOf request (d_claims d !! rq_id request) (d_responses d !! rq_id request) now.

Definition rotateHost (d : AdvisorDir) : Host * AdvisorDir :=
  let next := match d_rotation d with Some claude => agy | _ => claude end in
  (next, mkDir (d_requests d) (d_claims d) (d_responses d) (Some next)).

Definition advisorProject (sid : jsstr) (operation : string) : res jsstr :=
  match ADVISOR_SESSION_RE sid with
  | Some p => Ok p
  | None => Throw (policy_error (js operation ++ js " is available only to advisor sessions"))
  end.

(** ** Asking *)
Record AskFields := mkAsk {
  af_kind : Kind; af_binding : Binding; af_snapshot : SnapshotSelection; af_host : RequestedHost; af_rule : jsstr;
  af_group : option jsstr; af_question : option jsstr; af_evidenceRefs : list jsstr
}.

Definition ask_kind (v : jsval) : res Kind :=
  if text_in v (str_eqb (js "pre-code-advice")) then Ok pre_code_advice
  else if text_in v (str_eqb (js "review-lens")) then Ok review_lens
  else Throw (invalid "kind must be pre-code-advice or review-lens").

Definition ask_host (v : jsval) : res RequestedHost :=
  if text_in v (str_eqb (js "claude")) then Ok (ByName claude)
  else if text_in v (str_eqb (js "agy")) then Ok (ByName agy)
  else if text_in v (str_eqb (js "rotate")) then Ok Rotate
  else Throw (invalid "host must be claude, agy or rotate").

Definition ask_fields (p : jsval) : res AskFields :=
  kind ← ask_kind (field p (js "kind"));
  _ ← throw_if (bool_decide (kind = pre_code_advice) && negb (is_undef (field p (js "review"))))
        (invalid "review is only valid for review-lens requests");
  binding ← validBinding (field p (js "binding"));
  snapshot ← validSnapshot (field p (js "snapshot"));
  host ← ask_host (field p (js "host"));
  selection ← exactKeys (field p (js "selection")) ["rule"]%string (js "selection");
  rule ← matching (field selection (js "rule")) TOKEN_RE token_text (js "selection.rule");
  group ← if_given (field p (js "group")) (fun v => matching v TOKEN_RE token_text (js "group"));
  question ← text (field p (js "question")) (js "question") (bool_decide (kind = pre_code_advice)) MAX_TEXT_BYTES;
  evidenceRefs ← validEvidenceRefs (field p (js "evidenceRefs"));
  Ok (mkAsk kind binding snapshot host rule group question evidenceRefs).

(** The parent and the thread it gives. *)
Definition ask_parent (d : AdvisorDir) (v : jsval) : res (option (jsstr * jsstr)) :=
  if_given v (fun v =>
    parentId ← matching v ID_RE id_text (js "parentId");
    match d_requests d !! parentId with
    | Some parent => Ok (parentId, rq_thread parent)
    | None => Throw (invalid "parentId names no request in this project (the parent must exist)")
    end).

Definition resolve_host (h : RequestedHost) (d : AdvisorDir) : Host * AdvisorDir :=
  match h with ByName h => (h, d) | Rotate => rotateHost d end.

(** Publication of the record, after providerReview has answered. *)
Definition publish_request (projectId sid id : jsstr) (created : Z) (f : AskFields) (review : option StoredReview)
    (parent : option (jsstr * jsstr)) (d : AdvisorDir) : res jsval * AdvisorDir :=
  let '(host, d1) := resolve_host (af_host f) d in
  let thread := match parent with Some (_, t) => t | None => id end in
  let record := mkRequest id projectId (af_kind f) (af_binding f) (af_snapshot f) (af_rule f) (af_host f) host
                  (af_group f) thread (fst <$> parent) (af_question f) (af_evidenceRefs f) review sid
                  created (created + ADVISOR_REQUEST_TTL_MS) in
  match publishExclusive id record (d_requests d1) with
  | Some requests =>
      (Ok (JObj [(js "id", JStr id); (js "thread", JStr thread); (js "status", JStr (js "pending"))]),
       mkDir requests (d_claims d1) (d_responses d1) (d_rotation d1))
  | None => (Throw (Exn EError (js "advisory request id collision")), d1)
  end.

Definition ask (projectId sid id : jsstr) (created : Z) (p : jsval) (providerReview : res StoredReview) (d : AdvisorDir)
    : res jsval * AdvisorDir :=
  match (f ← ask_fields p;
         review ← match af_kind f with review_lens => r ← providerReview; Ok (Some r) | pre_code_advice => Ok None end;
         parent ← ask_parent d (field p (js "parentId"));
         Ok (f, review, parent)) with
  | Throw e => (Throw e, d)
  | Ok (f, review, parent) => publish_request projectId sid id created f review parent d
  end.

(** ** Reading by the orchestrator *)
Definition opt_json (o : option jsstr) : jsval := match o with Some s => JStr s | None => JNull end.
Definition strs_json (xs : list jsstr) : jsval := JArr (map JStr xs).

Definition binding_json (b : Binding) : jsval :=
  JObj ([(js "task", JStr (bd_task b)); (js "step", JStr (bd_step b))]
        ++ match bd_route b with Some r => [(js "route", JStr r)] | None => [] end
        ++ match bd_stage b with Some r => [(js "stage", JStr r)] | None => [] end).
Definition selection_json (s : SnapshotSelection) : jsval :=
  match s with
  | SelResultRef r => JObj [(js "resultRef", JStr r)]
  | SelCommit c => JObj [(js "commit", JStr c)]
  | SelWorktree => JObj [(js "worktree", JBool true)]
  end.
Definition review_fields (r : StoredReview) : list (jsstr * jsval) :=
  [(js "lineage", JStr (rv_lineage r)); (js "lens", JStr (rv_lens r)); (js "target", JStr (rv_target r));
   (js "order", jint (rv_order r)); (js "subjectHash", JStr (rv_subjectHash r))].

Definition evidence_json (e : StoredEvidence) : jsval :=
  JObj [(js "dir", JStr (ev_dir e)); (js "manifestSha256", JStr (ev_manifestSha256 e));
        (js "files", JArr (map (fun f => JObj [(js "path", JStr (fst f)); (js "sha256", JStr (snd f))]) (ev_files e)))].

Definition view (d : AdvisorDir) (request : StoredRequest) (now : Z) : jsval :=
  let claim := d_claims d !! rq_id request in
  let response := d_responses d !! rq_id request in
  JObj ([(js "id", JStr (rq_id request)); (js "kind", JStr (kind_name (rq_kind request)));
         (js "binding", binding_json (rq_binding request)); (js "thread", JStr (rq_thread request));
         (js "parentId", opt_json (rq_parentId request)); (js "group", opt_json (rq_group request));
         (js "status", JStr (status_name (statusOf request claim response now)));
         (js "snapshot", selection_json (rq_snapshot request));
         (js "selection", JObj [(js "rule", JStr (rq_rule request));
            (js "requestedHost", JStr (requested_name (rq_requestedHost request)));
            (js "resolvedHost", JStr (host_name (rq_resolvedHost request))); (js "override", JNull)]);
         (js "question", opt_json (rq_question request)); (js "evidenceRefs", strs_json (rq_evidenceRefs request))]
    ++ match rq_review request with
       | Some r => [(js "review", JObj (review_fields r ++ [(js "lensContextBytes", jint (byteLength (rv_lensContext r)))]))]
       | None => []
       end
    ++ [(js "createdAt", jint (rq_createdAt request)); (js "expiresAt", jint (rq_expiresAt request))]
    ++ match claim with Some c => [(js "advisor", JObj [(js "session", JStr (cl_session c))])] | None => [] end
    ++ match response with
       | Some r =>
           (js "response", JObj ([(js "verdict", opt_json (rp_verdict r)); (js "findings", JArr (rp_findings r))]
              ++ match rp_reviewerResult r with Some v => [(js "reviewerResult", v)] | None => [] end
              ++ [(js "respondedAt", jint (rp_respondedAt r))]))
           :: match rp_evidence r with Some e => [(js "evidence", evidence_json e)] | None => [] end
       | None => []
       end).

Definition readRelayableLensResponse (d : AdvisorDir) (id : jsval) : res (jsstr * StoredReview * jsval) :=
  requestId ← matching id ID_RE id_text (js "inputFromAdvisorResponse");
  request ← loadRequest d requestId;
  match rq_kind request, rq_review request with
  | review_lens, Some review =>
      match d_responses d !! requestId with
      | Some (mkResponse submitted _ _ (Some result) _ _ _) => Ok (requestId, review, result)
      | _ => Throw (policy_error (js "the advisory request has no submitted reviewer result to relay"))
      end
  | _, _ => Throw (policy_error (js "only a review-lens advisory response can be relayed into a review capture"))
  end.

Definition get_record (d : AdvisorDir) (now : Z) (p : jsval) : res jsval :=
  id ← matching (field p (js "id")) ID_RE id_text (js "id");
  request ← loadRequest d id;
  Ok (view d request now).

(** Order of creation; records created in the same millisecond keep the order
    of the directory listing, for which the map's own order stands. *)
Definition created_before (a b : StoredRequest) : Prop := rq_createdAt a <= rq_createdAt b.
#[export] Instance created_before_dec : RelDecision created_before := fun a b => Z_le_dec (rq_createdAt a) (rq_createdAt b).

Definition STATUS_NAMES : list jsstr := map js ["pending"; "claimed"; "submitted"; "declined"; "expired"]%string.
Definition is_given (wanted : option jsstr) (actual : jsstr) : bool :=
  match wanted with Some w => str_eqb w actual | None => true end.

Definition list_row (d : AdvisorDir) (now : Z) (r : StoredRequest) : jsval :=
  JObj [(js "id", JStr (rq_id r)); (js "kind", JStr (kind_name (rq_kind r))); (js "binding", binding_json (rq_binding r));
        (js "status", JStr (status_name (status_in d now r))); (js "thread", JStr (rq_thread r));
        (js "group", opt_json (rq_group r)); (js "resolvedHost", JStr (host_name (rq_resolvedHost r)));
        (js "createdAt", jint (rq_createdAt r))].

Definition listed (d : AdvisorDir) (now : Z) (task step status_ : option jsstr) : list StoredRequest :=
  merge_sort created_before
    (List.filter (fun r => is_given task (bd_task (rq_binding r)) && is_given step (bd_step (rq_binding r))
                           && is_given status_ (status_name (status_in d now r)))
       (map snd (map_to_list (d_requests d)))).

Definition list_records (d : AdvisorDir) (now : Z) (p : jsval) : res jsval :=
  task ← if_given (field p (js "task")) (fun v => matching v TASK_RE task_text (js "task"));
  step ← if_given (field p (js "step")) (fun v => required_text v (js "step") 128);
  status_ ← if_given (field p (js "status"))
              (fun v => matching v (fun s => mem s STATUS_NAMES) "/^(pending|claimed|submitted|declined|expired)$/" (js "status"));
  Ok (JArr (map (list_row d now) (listed d now task step status_))).

(** ** Reading and answering by the advisor *)
Definition expired_error : exn := policy_error (js "advisory request has expired").
Definition other_claim_error : exn := policy_error (js "advisory request is claimed by another advisor").
Definition answered_error : exn := policy_error (js "advisory request was already answered").

(** The request's claim, made for [sid] if there is none. *)
Definition claim_for (sid id : jsstr) (now : Z) (d : AdvisorDir) : AdvisorDir :=
  match publishExclusive id (mkClaim sid now) (d_claims d) with
  | Some claims => mkDir (d_requests d) claims (d_responses d) (d_rotation d)
  | None => d
  end.

Definition claimed_by (sid id : jsstr) (d : AdvisorDir) : bool :=
  match d_claims d !! id with Some c => str_eqb (cl_session c) sid | None => false end.

Definition read_view (d : AdvisorDir) (request : StoredRequest) (now : Z) : jsval :=
  JObj ([(js "id", JStr (rq_id request)); (js "kind", JStr (kind_name (rq_kind request)));
         (js "binding", binding_json (rq_binding request)); (js "thread", JStr (rq_thread request));
         (js "parentId", opt_json (rq_parentId request)); (js "snapshot", selection_json (rq_snapshot request));
         (js "resolvedHost", JStr (host_name (rq_resolvedHost request))); (js "question", opt_json (rq_question request));
         (js "evidenceRefs", strs_json (rq_evidenceRefs request))]
    ++ match rq_review request with
       | Some r => [(js "review", JObj (review_fields r ++ [(js "lensContext", JStr (rv_lensContext r))]))]
       | None => []
       end
    ++ [(js "status", JStr (status_name (status_in d now request)))]).

Definition read_request (sid : jsstr) (now : Z) (p : jsval) (d : AdvisorDir) : res jsval * AdvisorDir :=
  match (id ← matching (field p (js "id")) ID_RE id_text (js "id");
         request ← loadRequest d id;
         _ ← throw_if (bool_decide (d_responses d !! id = None) && (rq_expiresAt request <? now)) expired_error;
         Ok (id, request)) with
  | Throw e => (Throw e, d)
  | Ok (id, request) =>
      let d' := claim_for sid id now d in
      (if claimed_by sid id d' then Ok (read_view d' request now) else Throw other_claim_error, d')
  end.

(** The answer's own fields. *)
Definition answer_fields (request : StoredRequest) (p : jsval) : res (Answer * option jsstr * option jsval) :=
  let result := field p (js "reviewerResult") in
  let verdict := field p (js "verdict") in
  status_ ← (if text_in (field p (js "status")) (str_eqb (js "submitted")) then Ok submitted
             else if text_in (field p (js "status")) (str_eqb (js "declined")) then Ok declined
             else Throw (invalid "status must be submitted or declined"));
  match rq_kind request, status_ with
  | review_lens, submitted =>
      _ ← throw_if (is_undef result) (invalid "a submitted review-lens response needs reviewerResult");
      _ ← match rq_review request with
          | Some review => validateReviewerResult result (rv_subjectHash review) (rv_lens review)
          | None => Throw (Exn EError (js "null is not an object (evaluating 'request.review.subjectHash')"))
          end;
      v ← text verdict (js "verdict") false MAX_TEXT_BYTES;
      Ok (status_, v, Some result)
  | review_lens, declined =>
      _ ← throw_if (negb (is_undef result)) (invalid "a declined response carries no reviewerResult");
      v ← required_text verdict (js "verdict") MAX_TEXT_BYTES;
      Ok (status_, Some v, None)
  | pre_code_advice, _ =>
      _ ← throw_if (negb (is_undef result)) (invalid "reviewerResult is only valid for review-lens requests");
      v ← required_text verdict (js "verdict") MAX_TEXT_BYTES;
      Ok (status_, Some v, None)
  end.

Definition answer_guards (sid id : jsstr) (now : Z) (request : StoredRequest) (d : AdvisorDir) : res unit :=
  _ ← throw_if (negb (bool_decide (d_responses d !! id = None))) answered_error;
  _ ← throw_if (rq_expiresAt request <? now) expired_error;
  match d_claims d !! id with
  | None => Throw (policy_error (js "advisory request is not claimed; read it first"))
  | Some c => throw_if (negb (str_eqb (cl_session c) sid)) other_claim_error
  end.

(** [kept]: what the manifest of the request's kept evidence says, if there is
    one; a malformed manifest throws. *)
Definition respond (sid : jsstr) (now : Z) (p : jsval) (kept : jsstr -> res (option StoredEvidence)) (d : AdvisorDir)
    : res jsval * AdvisorDir :=
  match (id ← matching (field p (js "id")) ID_RE id_text (js "id");
         request ← loadRequest d id;
         fields ← answer_fields request p;
         findings ← validFindings (field p (js "findings"));
         _ ← answer_guards sid id now request d;
         evidence ← kept id;
         let '(status_, verdict, result) := fields in
         Ok (id, mkResponse status_ verdict findings result evidence sid now)) with
  | Throw e => (Throw e, d)
  | Ok (id, stored) =>
      match publishExclusive id stored (d_responses d) with
      | Some responses =>
          (Ok (JObj [(js "id", JStr id); (js "status", JStr (answer_name (rp_status stored)))]),
           mkDir (d_requests d) (d_claims d) responses (d_rotation d))
      | None => (Throw answered_error, d)
      end
  end.

(** ** The operations *)
Abbreviation AdvisorStore := (gmap jsstr AdvisorDir).
Definition dir_of (s : AdvisorStore) (projectId : jsstr) : AdvisorDir := default empty_dir (s !! projectId).
Definition in_dir {A} (projectId : jsstr) (f : AdvisorDir -> res A * AdvisorDir) (s : AdvisorStore) : res A * AdvisorStore :=
  let '(r, d) := f (dir_of s projectId) in (r, <[projectId := d]> s).

Section operations.
  Context (ctx : OpContext) (st : store) (now : Z).

(** The project of a request on the main socket, once it is authorized. *)
Definition main_project (operation : string) (req : BrokerRequestEnvelope) : res (jsstr * jsval) :=
  p ← payloadOf req;
  _ ← authorizeHostDispatch (readOnlyAgents (cfg ctx)) st (js operation) (req_sessionID req) orchestrator;
  projectId ← resolveProjectID (host_realpath ctx) (field p (js "projectDir")) (projects (cfg ctx));
  Ok (projectId, p).

Definition advisor_project_of (operation : string) (req : BrokerRequestEnvelope) : res (jsstr * jsval) :=
  p ← payloadOf req;
  projectId ← advisorProject (req_sessionID req) operation;
  Ok (projectId, p).

Definition advisorAsk (id : jsstr) (providerReview : jsstr -> jsval -> res StoredReview) (req : BrokerRequestEnvelope)
    (s : AdvisorStore) : res jsval * AdvisorStore :=
  match main_project "advisorAsk" req with
  | Throw e => (Throw e, s)
  | Ok (projectId, p) =>
      in_dir projectId (ask projectId (req_sessionID req) id now p (providerReview projectId (field p (js "review")))) s
  end.

Definition advisorGet (req : BrokerRequestEnvelope) (s : AdvisorStore) : res jsval :=
  '(projectId, p) ← main_project "advisorGet" req; get_record (dir_of s projectId) now p.

Definition advisorList (req : BrokerRequestEnvelope) (s : AdvisorStore) : res jsval :=
  '(projectId, p) ← main_project "advisorList" req; list_records (dir_of s projectId) now p.

Definition advisorRead (req : BrokerRequestEnvelope) (s : AdvisorStore) : res jsval * AdvisorStore :=
  match advisor_project_of "advisorRead" req with
  | Throw e => (Throw e, s)
  | Ok (projectId, p) => in_dir projectId (read_request (req_sessionID req) now p) s
  end.

Definition advisorRespond (kept : jsstr -> jsstr -> res (option StoredEvidence)) (req : BrokerRequestEnvelope)
    (s : AdvisorStore) : res jsval * AdvisorStore :=
  match advisor_project_of "advisorRespond" req with
  | Throw e => (Throw e, s)
  | Ok (projectId, p) => in_dir projectId (respond (req_sessionID req) now p (kept projectId)) s
  end.
End operations.

(** A change of the records: any operation, of any session, at any time,
    whatever it answers. *)
Inductive advisor_step (ctx : OpContext) (s : AdvisorStore) : AdvisorStore -> Prop :=
  | step_ask st now id review req : advisor_step ctx s (snd (advisorAsk ctx st now id review req s))
  | step_read now req : advisor_step ctx s (snd (advisorRead now req s))
  | step_respond now kept req : advisor_step ctx s (snd (advisorRespond now kept req s)).
