(* ===== verification/AdvisorFacts.v ===== *)
(** * Facts about advisory records

    Records are written once, a request has one advisor and one answer, and
    every record stays well formed, over any sequence of operations. *)
From Stdlib Require Import QArith.
From stdpp Require Import relations.
From S2P Require Import Prelude JsVal Types State Policy Path Validation HostPaths Envelope.
From S2P Require Import RolePolicy GitOps Artifacts Queue Effects Worker WorkerFacts Authorization Advisor.
Open Scope Z_scope.

Lemma publishExclusive_Some {V} id (v : V) files files' :
  publishExclusive id v files = Some files' -> files !! id = None /\ files' = <[id := v]> files.
Proof. unfold publishExclusive. by destruct (files !! id) eqn:Hf; intros [= <-]. Qed.

(** Nothing is rewritten or removed. *)
Record extends (d d' : AdvisorDir) : Prop := mkExtends {
  ext_requests : d_requests d ⊆ d_requests d';
  ext_claims : d_claims d ⊆ d_claims d';
  ext_responses : d_responses d ⊆ d_responses d'
}.

#[export] Instance extends_po : PreOrder extends.
Proof.
  split; [by intros d; split|]. intros a b c [H1 H2 H3] [H4 H5 H6]. split; by etrans.
Qed.

(** A stored request. *)
Record request_ok (projectId : jsstr) (d : AdvisorDir) (id : jsstr) (r : StoredRequest) : Prop := mkRequestOk {
  ro_id : rq_id r = id;
  ro_project : rq_projectId r = projectId;
  ro_expires : rq_expiresAt r = rq_createdAt r + ADVISOR_REQUEST_TTL_MS;
  ro_review : rq_kind r = review_lens <-> is_Some (rq_review r);
  ro_thread : exists root, d_requests d !! rq_thread r = Some root /\ rq_thread root = rq_thread r /\ rq_parentId root = None;
  ro_parent : forall p, rq_parentId r = Some p -> exists parent, d_requests d !! p = Some parent /\ rq_thread parent = rq_thread r
}.

(** A stored answer: the claimant's, in time, of the right shape. *)
Record response_ok (d : AdvisorDir) (id : jsstr) (a : StoredResponse) : Prop := mkResponseOk {
  po_claim : exists c, d_claims d !! id = Some c /\ cl_session c = rp_session a;
  po_request : exists r, d_requests d !! id = Some r /\ rp_respondedAt a <= rq_expiresAt r /\
    match rq_review r, rp_status a with
    | Some review, submitted => exists v, rp_reviewerResult a = Some v /\
        validateReviewerResult v (rv_subjectHash review) (rv_lens review) = Ok tt
    | _, _ => rp_reviewerResult a = None
    end
}.

Record dir_ok (projectId : jsstr) (d : AdvisorDir) : Prop := mkDirOk {
  do_requests : forall id r, d_requests d !! id = Some r -> request_ok projectId d id r;
  do_claims : forall id c, d_claims d !! id = Some c ->
    exists r, d_requests d !! id = Some r /\ cl_claimedAt c <= rq_expiresAt r;
  do_responses : forall id a, d_responses d !! id = Some a -> response_ok d id a
}.

Lemma request_ok_extends p d d' id r : d_requests d ⊆ d_requests d' -> request_ok p d id r -> request_ok p d' id r.
Proof.
  intros Hs [Hi Hp He Hr (root & Ht & Ht') Hq]. split; try done.
  - exists root. split; [by eapply lookup_weaken | done].
  - intros q Hq'. destruct (Hq q Hq') as (parent & Hl & ?). exists parent. split; [by eapply lookup_weaken | done].
Qed.

Lemma response_ok_extends d d' id a : extends d d' -> response_ok d id a -> response_ok d' id a.
Proof.
  intros [H1 H2 _] [(c & Hc & Hs) (r & Hr & Ht)]. split; [exists c | exists r]; (split; [by eapply lookup_weaken | done]).
Qed.

(** ** Asking *)
Lemma if_given_Some {A} v (f : jsval -> res A) a : if_given v f = Ok (Some a) -> f v = Ok a.
Proof. unfold if_given. destruct (is_undef v); [done|]. intros (x & Hx & Ho)%res_bind_Ok. injection Ho as <-. done. Qed.

Lemma ask_parent_known d v p t : ask_parent d v = Ok (Some (p, t)) -> exists parent, d_requests d !! p = Some parent /\ rq_thread parent = t.
Proof.
  intros Hp%if_given_Some. apply res_bind_Ok in Hp as (q & _ & Hp).
  destruct (d_requests d !! q) as [parent|] eqn:Hq; [|done]. injection Hp as <- <-. by exists parent.
Qed.

Lemma resolve_host_keeps h d : let d' := snd (resolve_host h d) in
  d_requests d' = d_requests d /\ d_claims d' = d_claims d /\ d_responses d' = d_responses d.
Proof. by destruct h. Qed.

Lemma ask_step p sid id created payload review d :
  dir_ok p d -> let d' := snd (ask p sid id created payload review d) in extends d d' /\ dir_ok p d'.
Proof.
  intros Hok. unfold ask. cbv zeta.
  destruct (_ ← ask_fields payload; _) as [[[f rv] parent]|e] eqn:Hf; [|by split].
  apply res_bind_Ok in Hf as (f' & _ & Hf). apply res_bind_Ok in Hf as (rv' & Hrv & Hf).
  apply res_bind_Ok in Hf as (par' & Hpar & Hf). injection Hf as -> -> ->.
  assert (af_kind f = review_lens <-> is_Some rv) as Hkind.
  { destruct (af_kind f); [injection Hrv as <-; split; [done | by intros []]|].
    apply res_bind_Ok in Hrv as (x & _ & Hx). injection Hx as <-. by split. }
  clear Hrv. unfold publish_request.
  pose proof (resolve_host_keeps (af_host f) d) as (Hq & Hc & Hp). destruct (resolve_host (af_host f) d) as [host d1].
  cbn [snd] in Hq, Hc, Hp. destruct (publishExclusive id _ _) as [requests|] eqn:Hpub; cbn [snd].
  - apply publishExclusive_Some in Hpub as [Hnew ->]. set (r := mkRequest _ _ _ _ _ _ _ _ _ _ _ _ _ _ _ _ _).
    rewrite Hq in *. assert (d_requests d ⊆ <[id := r]> (d_requests d)) as Hsub by (by apply insert_subseteq).
    assert (extends d (mkDir (<[id := r]> (d_requests d)) (d_claims d1) (d_responses d1) (d_rotation d1))) as Hext.
    { split; cbn; [done | by rewrite Hc | by rewrite Hp]. }
    split; [exact Hext|]. destruct Hok as [Hrs Hcs Hps]. split; cbn [d_requests d_claims d_responses].
    + intros id' r' Hl. apply lookup_insert_Some in Hl as [[<- <-]|[_ Hl]].
      * subst r. split; cbn; try done.
        -- destruct parent as [[q t]|]; cbn.
           ++ apply ask_parent_known in Hpar as (pr & Hl & <-). destruct (Hrs q pr Hl) as [_ _ _ _ (root & Hr & Ht) _].
              exists root. split; [by eapply lookup_weaken | done].
           ++ eexists. rewrite lookup_insert_eq. by split_and!.
        -- intros q Hq'. destruct parent as [[q' t]|]; [|done]. injection Hq' as ->.
           apply ask_parent_known in Hpar as (pr & Hl & <-). exists pr. split; [by eapply lookup_weaken | done].
      * eapply request_ok_extends; [|by apply Hrs]. done.
    + intros id' c Hl. rewrite Hc in Hl. destruct (Hcs id' c Hl) as (r' & Hr & Ht). exists r'. split; [by eapply lookup_weaken | done].
    + intros id' a Hl. rewrite Hp in Hl. eapply response_ok_extends; [exact Hext | by apply Hps].
  - split; [split; cbn; by rewrite ?Hq, ?Hc, ?Hp|]. destruct Hok as [Hrs Hcs Hps]. rewrite <- Hq in Hrs, Hcs.
    split; [|by rewrite Hc |].
    + intros id' r' Hl. eapply request_ok_extends; [|by apply Hrs]. by rewrite Hq.
    + intros id' a Hl. rewrite Hp in Hl. eapply response_ok_extends; [|by apply Hps]. split; by rewrite ?Hq, ?Hc, ?Hp.
Qed.

(** ** Claiming *)
Lemma claim_step p sid id now d r :
  dir_ok p d -> d_requests d !! id = Some r -> (d_claims d !! id = None -> now <= rq_expiresAt r) ->
  extends d (claim_for sid id now d) /\ dir_ok p (claim_for sid id now d).
Proof.
  intros Hok Hr Ht. unfold claim_for. destruct (publishExclusive id _ _) as [claims|] eqn:Hpub; [|by split].
  apply publishExclusive_Some in Hpub as [Hnew ->].
  set (d' := mkDir _ _ _ _). assert (extends d d') as Hext by (split; cbn; [done | by apply insert_subseteq | done]).
  split; [done|]. destruct Hok as [Hrs Hcs Hps]. split.
  - intros id' r' Hl. eapply request_ok_extends; [|by apply Hrs]. done.
  - cbn. intros id' c Hl. apply lookup_insert_Some in Hl as [[<- <-]|[_ Hl]]; [exists r; auto | by apply Hcs].
  - intros id' a Hl. eapply response_ok_extends; [done | by apply Hps].
Qed.

Lemma loadRequest_Ok d id r : loadRequest d id = Ok r -> d_requests d !! id = Some r.
Proof. unfold loadRequest. destruct (d_requests d !! id); [by intros [= ->] | done]. Qed.

Lemma read_step p sid now payload d :
  dir_ok p d -> let d' := snd (read_request sid now payload d) in extends d d' /\ dir_ok p d'.
Proof.
  intros Hok. unfold read_request. cbv zeta.
  destruct (_ ← matching _ _ _ _; _) as [[id r]|e] eqn:Hf; [|by split].
  apply res_bind_Ok in Hf as (id' & _ & Hf). apply res_bind_Ok in Hf as (r' & Hr & Hf).
  apply res_seq_Ok in Hf as [Hexp Hf]. injection Hf as -> ->. cbn [snd].
  apply loadRequest_Ok in Hr. apply throw_if_Ok in Hexp. apply (claim_step p sid id now d r Hok Hr).
  intros Hnc. destruct (d_responses d !! id) as [a|] eqn:Ha.
  - destruct (do_responses _ _ Hok id a Ha) as [(c & Hc & _) _]. congruence.
  - cbn in Hexp. by apply Z.ltb_ge in Hexp.
Qed.

(** ** Answering *)
Lemma answer_fields_shape request p status_ verdict result :
  (rq_kind request = review_lens <-> is_Some (rq_review request)) ->
  answer_fields request p = Ok (status_, verdict, result) ->
  match rq_review request, status_ with
  | Some review, submitted => exists v, result = Some v /\ validateReviewerResult v (rv_subjectHash review) (rv_lens review) = Ok tt
  | _, _ => result = None
  end.
Proof.
  intros Hk. unfold answer_fields. intros (s & _ & H)%res_bind_Ok.
  destruct (rq_kind request) eqn:Hkind, (rq_review request) as [review|].
  1: { discriminate (proj2 Hk (mk_is_Some _ _ eq_refl)). }
  3: { destruct (proj1 Hk eq_refl). done. }
  - apply res_seq_Ok in H as [_ H]. apply res_bind_Ok in H as (v & _ & H). by injection H as _ _ <-.
  - destruct s.
    + apply res_seq_Ok in H as [_ H]. apply res_bind_Ok in H as ([] & Hv & H). apply res_bind_Ok in H as (v & _ & H).
      injection H as <- _ <-. by eexists.
    + apply res_seq_Ok in H as [_ H]. apply res_bind_Ok in H as (v & _ & H). by injection H as <- _ <-.
Qed.

Lemma respond_step p sid now payload kept d :
  dir_ok p d -> let d' := snd (respond sid now payload kept d) in extends d d' /\ dir_ok p d'.
Proof.
  intros Hok. unfold respond. cbv zeta.
  destruct (_ ← matching _ _ _ _; _) as [[id stored]|e] eqn:Hf; [|by split].
  apply res_bind_Ok in Hf as (id' & _ & Hf). apply res_bind_Ok in Hf as (r & Hr & Hf).
  apply res_bind_Ok in Hf as ([[st v] rr] & Hfields & Hf). apply res_bind_Ok in Hf as (fs & _ & Hf).
  apply res_seq_Ok in Hf as [Hg Hf]. apply res_bind_Ok in Hf as (ev & _ & Hf). injection Hf as -> <-.
  apply loadRequest_Ok in Hr. destruct (publishExclusive id _ _) as [responses|] eqn:Hpub; [|by split].
  apply publishExclusive_Some in Hpub as [Hnew ->]. cbn [snd].
  set (a := mkResponse _ _ _ _ _ _ _). set (d' := mkDir _ _ _ _).
  assert (extends d d') as Hext by (split; cbn; [done | done | by apply insert_subseteq]).
  split; [done|]. destruct Hok as [Hrs Hcs Hps]. split.
  - intros id1 r1 Hl. eapply request_ok_extends; [|by apply Hrs]. done.
  - exact Hcs.
  - cbn. intros id1 a1 Hl. apply lookup_insert_Some in Hl as [[<- <-]|[_ Hl]]; [|eapply response_ok_extends; [done | by apply Hps]].
    apply res_seq_Ok in Hg as [_ Hg]. apply res_seq_Ok in Hg as [Hexp Hg]. apply throw_if_Ok, Z.ltb_ge in Hexp.
    destruct (d_claims d !! id) as [c|] eqn:Hc; [|done]. apply throw_if_Ok, negb_false_iff, str_eqb_eq in Hg. split.
    + by exists c.
    + exists r. split_and!; [done | done |]. cbn. apply (answer_fields_shape r payload st v rr); [apply (ro_review _ _ _ _ (Hrs id r Hr)) | done].
Qed.

(** ** The stores *)
Definition store_ok (s : AdvisorStore) : Prop := forall p, dir_ok p (dir_of s p).
Definition store_extends (s s' : AdvisorStore) : Prop := forall p, extends (dir_of s p) (dir_of s' p).

Lemma in_dir_step {A} p (f : AdvisorDir -> res A * AdvisorDir) s :
  (forall d, dir_ok p d -> extends d (snd (f d)) /\ dir_ok p (snd (f d))) -> store_ok s ->
  store_extends s (snd (in_dir p f s)) /\ store_ok (snd (in_dir p f s)).
Proof.
  intros Hf Hok. unfold in_dir. destruct (Hf _ (Hok p)) as [He Hd]. destruct (f (dir_of s p)) as [r d]. cbn [snd] in *.
  assert (forall q, dir_of (<[p := d]> s) q = if bool_decide (p = q) then d else dir_of s q) as Hq.
  { intros q. unfold dir_of. case_bool_decide as Hpq; [subst; by rewrite lookup_insert_eq | by rewrite lookup_insert_ne]. }
  split; intros q; rewrite Hq; case_bool_decide as Hpq; subst; auto. reflexivity.
Qed.

Lemma advisor_step_ok ctx s s' : advisor_step ctx s s' -> store_ok s -> store_extends s s' /\ store_ok s'.
Proof.
  intros Hs Hok. assert (store_extends s s /\ store_ok s) as H0 by (split; [intros p; reflexivity | done]).
  destruct Hs.
  - unfold advisorAsk. destruct (main_project _ _ _ _) as [[p v]|e]; [|done].
    apply in_dir_step; [|done]. intros d Hd. by apply ask_step.
  - unfold advisorRead. destruct (advisor_project_of _ _) as [[p v]|e]; [|done].
    apply in_dir_step; [|done]. intros d Hd. by apply read_step.
  - unfold advisorRespond. destruct (advisor_project_of _ _) as [[p v]|e]; [|done].
    apply in_dir_step; [|done]. intros d Hd. by apply respond_step.
Qed.

Lemma advisor_run_ok ctx s s' : rtc (advisor_step ctx) s s' -> store_ok s -> store_extends s s' /\ store_ok s'.
Proof.
  induction 1 as [s|s s1 s2 H1 _ IH]; [intros Hok; split; [intros p; reflexivity | done]|].
  intros Hok. apply advisor_step_ok in H1 as [He Hok1]; [|done]. destruct (IH Hok1) as [He2 Hok2].
  split; [|done]. intros p. etrans; [apply He | apply He2].
Qed.

Lemma empty_store_ok : store_ok ∅.
Proof. intros p. unfold dir_of. rewrite lookup_empty. split; cbn; intros ? ?; by rewrite lookup_empty. Qed.

(** C37: advisory records are evidence: written once, by one advisor, in time.
    In every state the advisory operations reach, in any order, by any sessions
    and at any clock: a request's identity, lifetime and thread are right (its
    thread is a root request of its project, its parent exists and shares it);
    a claim is of an existing request and was made before it expired; an answer
    was given before it expired by the session that holds the claim, and
    carries a reviewer result exactly when it is a submitted review, one that
    the reviewer-result check accepts for that request.  And whatever follows,
    no request, claim or answer is ever changed or removed. *)
Theorem advisor_records_written_once ctx s s' p :
  rtc (advisor_step ctx) ∅ s -> rtc (advisor_step ctx) s s' ->
  dir_ok p (dir_of s p) /\ extends (dir_of s p) (dir_of s' p).
Proof.
  intros H1 H2. destruct (advisor_run_ok ctx _ _ H1 empty_store_ok) as [_ Hok].
  split; [apply Hok|]. by apply (advisor_run_ok ctx _ _ H2 Hok).
Qed.

Definition sample_ask : jsval := JObj
  [(js "projectDir", JStr (js "/work/p")); (js "kind", JStr (js "pre-code-advice"));
   (js "binding", JObj [(js "task", JStr (js "odd/tasks/a.md#T1")); (js "step", JStr (js "design"))]);
   (js "snapshot", JObj [(js "worktree", JBool true)]); (js "host", JStr (js "rotate"));
   (js "selection", JObj [(js "rule", JStr (js "least-used"))]); (js "question", JStr (js "which way?"))].
Definition sample_advisory (op : Operation) (sid : string) (payload : jsval) : BrokerRequestEnvelope :=
  {| req_id := js "r-1"; req_operation := op; req_sessionID := js sid; req_agent := None; req_payload := payload |}.
Definition asker_store : store :=
  {[ js "s" := RFRecord (apply_patch [P_agent (Some (js "gentle-orchestrator"))] (fresh_record (js "s") (js "t0"))) ]}.
Definition sample_id : jsstr := js "adv-0123456789abcdef".
Definition after_ask : AdvisorStore :=
  snd (advisorAsk (sample_ctx quiet_env) asker_store 1000 sample_id (fun _ _ => Throw not_found) (sample_advisory Op.advisorAsk "s" sample_ask) ∅).
Definition after_read : AdvisorStore :=
  snd (advisorRead 2000 (sample_advisory Op.advisorRead "advisor-p-0011223344556677" (JObj [(js "id", JStr sample_id)])) after_ask).
Definition sample_answer : BrokerRequestEnvelope :=
  sample_advisory Op.advisorRespond "advisor-p-0011223344556677"
    (JObj [(js "id", JStr sample_id); (js "status", JStr (js "submitted")); (js "verdict", JStr (js "go"))]).
Definition after_answer : AdvisorStore := snd (advisorRespond 3000 (fun _ _ => Ok None) sample_answer after_read).

Lemma advisor_records_written_once_witness :
  is_Some (d_responses (dir_of after_answer (js "p")) !! sample_id) /\
  dir_ok (js "p") (dir_of after_read (js "p")) /\ extends (dir_of after_read (js "p")) (dir_of after_answer (js "p")).
Proof.
  split; [vm_compute; by eexists|].
  apply (advisor_records_written_once (sample_ctx quiet_env)).
  - eapply rtc_l; [apply (step_ask (sample_ctx quiet_env) _ asker_store 1000 sample_id (fun _ _ => Throw not_found) (sample_advisory Op.advisorAsk "s" sample_ask))|].
    eapply rtc_l; [|apply rtc_refl]. apply (step_read (sample_ctx quiet_env)).
  - eapply rtc_l; [|apply rtc_refl]. apply (step_respond (sample_ctx quiet_env)).
Defined.
