(* ===== verification/Relay.v ===== *)
(** * The relay of stored reviews (broker/src/advisor-relay.ts, advisor-lineages.ts)

    On an external-lens lineage a reviewer result reaches gentle-ai only as a
    stored advisory response, relayed at most once per lineage and lens.  An
    exclusive marker file is the lock: it is taken in the synchronous stretch
    that follows gentle-ai's status, kept when the capture succeeds and removed
    when it does not.  Attempts run concurrently, so the relay is a step
    relation between the awaits of its calls; what gentle-ai does at each call
    is the label of the step. *)
From Stdlib Require Import QArith.
From stdpp Require Import relations.
From S2P Require Import Prelude JsVal Types State Policy Path Validation HostPaths Envelope.
From S2P Require Import RolePolicy GitOps Artifacts Queue Effects Worker Advisor.
Open Scope Z_scope.

(** ** The registry of external-lens lineages *)

(** [/^review-[A-Za-z0-9]{1,64}$/] *)
Definition LINEAGE_RE : jsstr -> bool := prefixed "review-" (re_class is_alnum 1 64).

Definition assertLineage (lineage : jsval) : res jsstr :=
  match lineage with
  | JStr l => if LINEAGE_RE l then Ok l else Throw (invalid "review lineage must match /^review-[A-Za-z0-9]{1,64}$/")
  | _ => Throw (invalid "review lineage must match /^review-[A-Za-z0-9]{1,64}$/")
  end.

(** The marker files of a project. *)
Definition markExternalLensLineage (lineage : jsval) (lineages : gset jsstr) : res unit * gset jsstr :=
  match assertLineage lineage with
  | Ok l => (Ok tt, {[ l ]} ∪ lineages)
  | Throw e => (Throw e, lineages)
  end.

Definition isExternalLensLineage (lineage : jsval) (lineages : gset jsstr) : res bool :=
  l ← assertLineage lineage; Ok (bool_decide (l ∈ lineages)).

(** ** Free-form captures *)

(** [lineages] is [None] when the project does not resolve. *)
Definition guardExternalLensCapture (lineages : option (gset jsstr)) (payload : jsval) : res unit :=
  match field payload (js "lineage"), lineages with
  | JStr l, Some ls =>
      if negb (LINEAGE_RE l) then Ok tt else
      external ← isExternalLensLineage (JStr l) ls;
      throw_if (external && existsb (fun k => negb (is_undef (field payload (js k)))) ["input"; "inputJson"; "agent"]%string)
        (policy_error (js "an external-lens lineage accepts reviewer results only through inputFromAdvisorResponse (no free-form input, no agent)"))
  | _, _ => Ok tt
  end.

(** ** One relay *)
Definition BROKER_SUPPLIED : list jsstr :=
  map js ["agent"; "input"; "inputJson"; "lens"; "order"; "target"; "lineage"; "expectedRevision"; "repositoryContext";
          "subjectHash"; "materialize"; "preflight"]%string.

Definition exclusive_payload (payload : jsval) : res unit :=
  for_each (fun key => throw_if (negb (is_undef (field payload key)))
    (policy_error (js "inputFromAdvisorResponse is exclusive: the broker supplies '" ++ key ++ js "' itself"))) BROKER_SUPPLIED.

(** What the relay has before it asks gentle-ai. *)
Definition relay_begin (payload : jsval) (d : AdvisorDir) (lineages : gset jsstr) : res (jsstr * StoredReview * jsval) :=
  _ ← exclusive_payload payload;
  stored ← readRelayableLensResponse d (field payload (js "inputFromAdvisorResponse"));
  let '(id, review, result) := stored in
  external ← isExternalLensLineage (JStr (rv_lineage review)) lineages;
  _ ← throw_if (negb external) (policy_error (js "lineage " ++ rv_lineage review ++ js " is not an external-lens lineage"));
  Ok stored.

(** The current collect input of the lens. *)
Record CollectInput := mkCollect {
  ci_target : jsstr; ci_order : Z; ci_subjectHash : jsstr; ci_expectedRevision : jsstr; ci_repositoryContext : jsstr
}.

Definition fresh_matches (fresh : CollectInput) (review : StoredReview) : bool :=
  str_eqb (ci_target fresh) (rv_target review) && (ci_order fresh =? rv_order review)
  && str_eqb (ci_subjectHash fresh) (rv_subjectHash review).

Definition check_fresh (fresh : option CollectInput) (review : StoredReview) : res CollectInput :=
  match fresh with
  | None => Throw (policy_error (js "lineage " ++ rv_lineage review ++ js " is not collecting a result for " ++ rv_lens review))
  | Some f =>
      if fresh_matches f review then Ok f
      else Throw (policy_error (js "the advisory response is stale: the candidate or lens slot changed since it was requested"))
  end.

Definition marker_of (review : StoredReview) : jsstr := rv_lineage review ++ js "." ++ rv_lens review.

(** The marker, written exclusively. *)
Definition take_marker (review : StoredReview) (id : jsstr) (markers : gmap jsstr jsstr) : res (gmap jsstr jsstr) :=
  match publishExclusive (marker_of review) id markers with
  | Some m => Ok m
  | None => Throw (policy_error (rv_lens review ++ js " of " ++ rv_lineage review ++ js " was already relayed"))
  end.

Definition capture_payload (projectDir : jsstr) (review : StoredReview) (fresh : CollectInput) (result : jsval)
    : list (jsstr * jsval) :=
  [(js "projectDir", JStr projectDir); (js "lineage", JStr (rv_lineage review)); (js "lens", JStr (rv_lens review));
   (js "order", jint (rv_order review)); (js "target", JStr (rv_target review)); (js "subjectHash", JStr (rv_subjectHash review));
   (js "expectedRevision", JStr (ci_expectedRevision fresh)); (js "repositoryContext", JStr (ci_repositoryContext fresh));
   (js "inputJson", JStr (json_text result))].

(** ** Concurrent relays *)

(** An attempt whose marker is taken waits for the preflight, then for the
    capture; a finished one is done or refused. *)
Inductive Phase := Preflighting (marker : jsstr) | Capturing (marker : jsstr) | Done (marker : jsstr) | Refused.

(** [Succeeded], [Failed] (a nonzero exit) or [Thrown] (a timeout, say), in
    which case the call may have taken effect. *)
Inductive outcome := Succeeded | Failed | Thrown (effect : bool).

#[export] Instance Phase_eq_dec : EqDecision Phase.
Proof. solve_decision. Defined.

#[export] Instance outcome_eq_dec : EqDecision outcome.
Proof. solve_decision. Defined.

Record RelayState := mkRelay {
  markers : gmap jsstr jsstr;       (* the files under relayed/: the response id *)
  attempts : gmap nat Phase;
  accepted : list jsstr             (* the markers of the captures gentle-ai took *)
}.
Definition no_relays : RelayState := mkRelay ∅ ∅ [].

Definition finish (a : nat) (ph : Phase) (ms : gmap jsstr jsstr) (acc : list jsstr) (s : RelayState) : RelayState :=
  mkRelay ms (<[a := ph]> (attempts s)) acc.

Definition effective (o : outcome) : bool := match o with Succeeded => true | Failed => false | Thrown e => e end.

(** The flag of a step: a capture threw after it had taken effect. *)
Inductive relay_step (s : RelayState) : bool -> RelayState -> Prop :=
  | relay_start a id review fresh f :
      attempts s !! a = None -> check_fresh fresh review = Ok f ->
      relay_step s false
        (match take_marker review id (markers s) with
         | Ok ms => finish a (Preflighting (marker_of review)) ms (accepted s) s
         | Throw _ => finish a Refused (markers s) (accepted s) s
         end)
  | relay_preflight a m o :
      attempts s !! a = Some (Preflighting m) ->
      relay_step s false
        (match o with
         | Succeeded => finish a (Capturing m) (markers s) (accepted s) s
         | _ => finish a Refused (delete m (markers s)) (accepted s) s
         end)
  | relay_capture a m o :
      attempts s !! a = Some (Capturing m) ->
      relay_step s (bool_decide (o = Thrown true))
        (finish a (match o with Succeeded => Done m | _ => Refused end)
           (match o with Succeeded => markers s | _ => delete m (markers s) end)
           (if effective o then m :: accepted s else accepted s) s).

Definition any_step (s s' : RelayState) : Prop := exists lost, relay_step s lost s'.
Definition clean_step (s s' : RelayState) : Prop := relay_step s false s'.

(** ** One holder per marker *)
Definition held (ph : Phase) : option jsstr :=
  match ph with Preflighting m | Capturing m | Done m => Some m | Refused => None end.

Record relay_ok (s : RelayState) : Prop := mkRelayOk {
  rk_marked : forall a ph m, attempts s !! a = Some ph -> held ph = Some m -> is_Some (markers s !! m);
  rk_single : forall a b pa pb m, attempts s !! a = Some pa -> attempts s !! b = Some pb ->
    held pa = Some m -> held pb = Some m -> a = b
}.

(** An attempt that keeps its marker or gives it up. *)
Lemma relay_ok_update s a ph0 ph m acc (keep : bool) :
  relay_ok s -> attempts s !! a = Some ph0 -> held ph0 = Some m ->
  held ph = (if keep then Some m else None) ->
  relay_ok (finish a ph (if keep then markers s else delete m (markers s)) acc s).
Proof.
  intros [Hm Hs] Ha Hh Hph. split; cbn [attempts markers finish].
  - intros b pb m' Hb Hhb. apply lookup_insert_Some in Hb as [[<- <-]|[Hne Hb]].
    + destruct keep; rewrite Hph in Hhb; [|done]. injection Hhb as <-. by eapply Hm.
    + destruct keep; [by eapply Hm|]. rewrite lookup_delete_ne; [by eapply Hm|]. intros <-. destruct Hne. by eapply Hs.
  - assert (forall b pb m', attempts s !! b = Some pb -> held pb = Some m' -> held ph = Some m' -> a = b) as Hab.
    { intros b pb m' Hb Hhb Hp. destruct keep; rewrite Hph in Hp; [|done]. injection Hp as <-. by eapply Hs. }
    intros b c pb pc m' Hb Hc Hhb Hhc.
    apply lookup_insert_Some in Hb as [[<- <-]|[_ Hb]], Hc as [[<- <-]|[_ Hc]]; [done | by eapply Hab | symmetry; by eapply Hab | by eapply Hs].
Qed.

Lemma relay_ok_new s a ph ms m :
  relay_ok s -> attempts s !! a = None ->
  (held ph = None /\ ms = markers s) \/ (held ph = Some m /\ markers s !! m = None /\ exists v, ms = <[m := v]> (markers s)) ->
  relay_ok (finish a ph ms (accepted s) s).
Proof.
  intros [Hm Hs] Ha Hcase. split; cbn [attempts markers finish].
  - intros b pb m' Hb Hhb. apply lookup_insert_Some in Hb as [[<- <-]|[Hne Hb]].
    + destruct Hcase as [[Hn _]|(Hh & _ & v & ->)]; [congruence|]. rewrite Hh in Hhb. injection Hhb as <-. rewrite lookup_insert_eq. by eexists.
    + destruct Hcase as [[_ ->]|(_ & _ & v & ->)]; [by eapply Hm|]. apply lookup_insert_is_Some'. right. by eapply Hm.
  - assert (forall b pb m', attempts s !! b = Some pb -> held pb = Some m' -> held ph = Some m' -> a = b) as Hab.
    { intros b pb m' Hb Hhb Hp. destruct Hcase as [[Hn _]|(Hh & Hf & _)]; [congruence|].
      destruct (Hm b pb m' Hb Hhb). congruence. }
    intros b c pb pc m' Hb Hc Hhb Hhc.
    apply lookup_insert_Some in Hb as [[<- <-]|[_ Hb]], Hc as [[<- <-]|[_ Hc]]; [done | by eapply Hab | symmetry; by eapply Hab | by eapply Hs].
Qed.

Lemma take_marker_Ok review id ms ms' :
  take_marker review id ms = Ok ms' -> ms !! marker_of review = None /\ ms' = <[marker_of review := id]> ms.
Proof.
  unfold take_marker, publishExclusive. destruct (ms !! marker_of review) eqn:Hm; [done|]. by intros [= <-].
Qed.

Lemma relay_step_ok s lost s' : relay_step s lost s' -> relay_ok s -> relay_ok s'.
Proof.
  intros Hst Hok. destruct Hst as [a id review fresh f Ha Hf|a m o Ha|a m o Ha].
  - destruct (take_marker review id (markers s)) as [ms|e] eqn:Ht.
    + apply take_marker_Ok in Ht as [Hn ->]. apply (relay_ok_new _ _ _ _ (marker_of review)); [done | done |]. right. eauto.
    + apply (relay_ok_new _ _ _ _ []); [done | done | by left].
  - destruct o; [apply (relay_ok_update s a (Preflighting m) (Capturing m) m _ true) | apply (relay_ok_update s a (Preflighting m) Refused m _ false)..]; done.
  - destruct o; [apply (relay_ok_update s a (Capturing m) (Done m) m _ true) | apply (relay_ok_update s a (Capturing m) Refused m _ false)..]; done.
Qed.

(** ** One capture per marker *)
Definition captures_ok (s : RelayState) : Prop :=
  relay_ok s /\ NoDup (accepted s) /\ forall m, m ∈ accepted s -> exists a, attempts s !! a = Some (Done m).

Lemma done_stays (s : RelayState) a ph0 ph m : attempts s !! a = Some ph0 -> ph0 <> Done m ->
  (exists b, attempts s !! b = Some (Done m)) -> exists b, <[a := ph]> (attempts s) !! b = Some (Done m).
Proof. intros Ha Hn [b Hb]. exists b. rewrite lookup_insert_ne; [done|]. intros <-. congruence. Qed.

Lemma clean_step_ok s s' : clean_step s s' -> captures_ok s -> captures_ok s'.
Proof.
  intros Hst (Hok & Hnd & Hdone). split; [by eapply relay_step_ok|]. unfold clean_step in Hst.
  inversion Hst as [a id review fresh f Ha Hf|a m o Ha|a m o Ha Hlost Hs']; subst.
  - destruct (take_marker _ _ _); cbn; (split; [done|]); intros m Hm; destruct (Hdone m Hm) as [b Hb];
      exists b; (rewrite lookup_insert_ne; [done | congruence]).
  - destruct o; cbn; (split; [done|]); intros m' Hm; (eapply done_stays; [exact Ha | done | auto]).
  - destruct o as [| |[]]; cbn; [|split; [done|]; intros m' Hm; eapply done_stays; [exact Ha | done | auto]..].
    + split.
      * constructor; [|done]. intros Hm. destruct (Hdone m Hm) as [b Hb].
        assert (a = b) as -> by (by eapply (rk_single _ Hok)). congruence.
      * intros m' [->|Hm]%elem_of_cons; [exists a; apply lookup_insert_eq|]. eapply done_stays; [exact Ha | done | auto].
    + rewrite bool_decide_eq_true_2 in Hlost by done. done.
Qed.

Lemma no_relays_ok : captures_ok no_relays.
Proof. split_and!; [split; cbn; intros *; by rewrite lookup_empty | constructor | intros m Hm; by apply elem_of_nil in Hm]. Qed.

(** A stored review is relayed at most once.  However the attempts of any
    responses interleave at the calls to gentle-ai, and however each call ends:
    two attempts never hold the marker of one lineage and lens at the same time,
    and at most one attempt of it is ever done; and as long as no capture that
    throws had already taken effect, gentle-ai takes at most one capture per
    lineage and lens. *)
Theorem relay_at_most_once s :
  rtc any_step no_relays s ->
  (forall a b pa pb m, attempts s !! a = Some pa -> attempts s !! b = Some pb ->
     held pa = Some m -> held pb = Some m -> a = b /\ is_Some (markers s !! m)) /\
  (rtc clean_step no_relays s -> NoDup (accepted s)).
Proof.
  intros Hr. split.
  - assert (relay_ok s) as [Hm Hs].
    { destruct no_relays_ok as [H0 _]. revert H0. induction Hr as [s|s s1 s2 [lost Hst] _ IH]; [done|].
      intros H0. apply IH. by eapply relay_step_ok. }
    intros a b pa pb m Ha Hb Hpa Hpb. split; [by eapply Hs | by eapply Hm].
  - intros Hc. assert (captures_ok s) as (_ & Hnd & _); [|done].
    clear Hr. pose proof no_relays_ok as H0. revert H0. induction Hc as [s|s s1 s2 Hst _ IH]; [done|].
    intros H0. apply IH. by eapply clean_step_ok.
Qed.

Definition sample_review : StoredReview :=
  mkReview (js "review-a") (js "review-risk") (js "t") 0 (js "h") (js "context").
Definition sample_collect : CollectInput := mkCollect (js "t") 0 (js "h") (js "r1") (js "c1").
Definition relay_state (ph : Phase) (ms : gmap jsstr jsstr) (acc : list jsstr) : RelayState := mkRelay ms {[ 0%nat := ph ]} acc.

(** One attempt that runs to its end. *)
Definition done_relay : RelayState :=
  relay_state (Done (marker_of sample_review)) {[ marker_of sample_review := js "adv-1" ]} [marker_of sample_review].

Lemma done_relay_clean : rtc clean_step no_relays done_relay.
Proof.
  eapply rtc_l; [apply (relay_start no_relays 0 (js "adv-1") sample_review (Some sample_collect) sample_collect); reflexivity|].
  eapply rtc_l; [eapply (relay_preflight _ 0 (marker_of sample_review) Succeeded); reflexivity|].
  eapply rtc_l; [eapply (relay_capture _ 0 (marker_of sample_review) Succeeded); reflexivity|].
  match goal with |- rtc _ ?a ?b => replace a with b; [apply rtc_refl|] end. vm_compute. reflexivity.
Qed.

Lemma relay_at_most_once_witness :
  rtc any_step no_relays done_relay /\ accepted done_relay = [marker_of sample_review] /\ NoDup (accepted done_relay).
Proof.
  assert (rtc any_step no_relays done_relay) as Hr.
  { eapply rtc_subrel; [|apply done_relay_clean]. intros a b Hst. by exists false. }
  split; [exact Hr|]. split; [reflexivity|]. exact (proj2 (relay_at_most_once done_relay Hr) done_relay_clean).
Defined.

(** A capture that times out after gentle-ai has taken it gives the marker back:
    the same response is relayed, and taken, again. *)
Lemma timeout_relays_twice :
  exists s, rtc any_step no_relays s /\ accepted s = [marker_of sample_review; marker_of sample_review].
Proof.
  eexists. split.
  - eapply rtc_l; [exists false; apply (relay_start no_relays 0 (js "adv-1") sample_review (Some sample_collect) sample_collect); reflexivity|].
    eapply rtc_l; [exists false; eapply (relay_preflight _ 0 (marker_of sample_review) Succeeded); reflexivity|].
    eapply rtc_l; [eexists; eapply (relay_capture _ 0 (marker_of sample_review) (Thrown true)); reflexivity|].
    eapply rtc_l; [exists false; eapply (relay_start _ 1 (js "adv-1") sample_review (Some sample_collect) sample_collect); reflexivity|].
    eapply rtc_l; [exists false; eapply (relay_preflight _ 1 (marker_of sample_review) Succeeded); reflexivity|].
    eapply rtc_l; [eexists; eapply (relay_capture _ 1 (marker_of sample_review) Succeeded); reflexivity|].
    apply rtc_refl.
  - reflexivity.
Qed.
