(* ===== verification/JsOps.v ===== *)
(** * JavaScript operators on any value, and indented JSON

    [typeof], reading a property of a value that may be nullish, [+] and [>] on
    values of any type, and [JSON.stringify(v, null, 2)].  Definitions here
    model the language and its standard library, not the repository. *)
From S2P Require Import Prelude JsVal Json Envelope.
Open Scope Z_scope.

Definition js_typeof (v : jsval) : jsstr :=
  match v with
  | JUndef => js "undefined"
  | JNull | JArr _ | JObj _ => js "object"
  | JBool _ => js "boolean"
  | JNum _ => js "number"
  | JStr _ => js "string"
  end.

Definition type_error (m : string) : exn := Exn EError (js m).

(** [v.k]: a nullish value has no properties. *)
Definition member (v : jsval) (k : string) : res jsval :=
  if is_nullish v then Throw (type_error "Cannot read properties of undefined") else Ok (field v (js k)).

(** [Object.hasOwn(v, k)] of an object. *)
Definition has_own (v : jsval) (k : string) : bool := match v with JObj fs => mem (js k) (map fst fs) | _ => false end.

(** A plain object: neither null nor an array. *)
Definition plain_object (v : jsval) : option (list (jsstr * jsval)) := match v with JObj fs => Some fs | _ => None end.

(** [!v] *)
Definition is_falsy (v : jsval) : bool :=
  match v with JUndef | JNull | JBool false | JStr [] | JNum (NumInt 0) | JNum NumNaN => true | _ => false end.

(** [v === z] for an integer. *)
Definition is_int_of (v : jsval) (z : Z) : bool := match v with JNum (NumInt x) => x =? z | _ => false end.

(** ** Numbers *)

(** The double a shortest decimal text denotes, as a quotient. *)
Definition frac_quotient (t : jsstr) : option (Z * Z) :=
  let '(neg, s) := match t with c :: r => if (c =? 45)%N then (true, r) else (false, t) | [] => (false, t) end in
  '(int, s) ← integer_part s;
  '(frac, s) ← fraction_part s;
  '(e, _) ← exponent_part s;
  let '(n, d) := decimal (digits_value (int ++ frac)) (e - Z.of_nat (length frac)) in
  let '(q, k) := nearest_double n d in
  Some (if 0 <=? k then (signed neg (q * 2 ^ k), 1) else (signed neg q, 2 ^ (- k))).

Definition quotient (n : jsnum) : option (Z * Z) :=
  match n with NumInt z => Some (z, 1) | NumFrac t => frac_quotient t | NumNaN | NumInf _ => None end.

(** The double nearest to [n/d], [d] positive. *)
Definition rounded (n d : Z) : jsnum :=
  if n =? 0 then NumInt 0 else let '(q, k) := nearest_double (Z.abs n) d in double_number (n <? 0) q k.

Definition add_num (a b : jsnum) : jsnum :=
  match a, b with
  | NumNaN, _ | _, NumNaN => NumNaN
  | NumInf s, NumInf t => if Bool.eqb s t then NumInf s else NumNaN
  | NumInf s, _ | _, NumInf s => NumInf s
  | _, _ =>
      match a, b with
      | NumInt x, NumInt y => if Z.abs (x + y) <=? 2 ^ 53 then NumInt (x + y) else rounded (x + y) 1
      | _, _ =>
          match quotient a, quotient b with
          | Some (n, d), Some (m, e) => rounded (n * e + m * d) (d * e)
          | _, _ => NumNaN
          end
      end
  end.

(** [Number(v)] of a primitive. *)
Definition to_number (v : jsval) : jsnum :=
  match v with
  | JUndef => NumNaN
  | JNull => NumInt 0
  | JBool b => NumInt (if b then 1 else 0)
  | JNum n => n
  | JStr s => number_of_text s
  | JArr _ | JObj _ => NumNaN
  end.

(** Objects become texts. *)
Definition to_primitive (v : jsval) : res jsval :=
  match v with JArr _ | JObj _ => s ← js_String v; Ok (JStr s) | _ => Ok v end.

Definition js_plus (a b : jsval) : res jsval :=
  a ← to_primitive a;
  b ← to_primitive b;
  match a, b with
  | JStr _, _ | _, JStr _ => s ← js_String a; t ← js_String b; Ok (JStr (s ++ t))
  | _, _ => Ok (JNum (add_num (to_number a) (to_number b)))
  end.

(** [n > z] *)
Definition num_above (n : jsnum) (z : Z) : bool :=
  match n with
  | NumInf neg => negb neg
  | _ => match quotient n with Some (a, d) => z * d <? a | None => false end
  end.

Definition js_greater (v : jsval) (z : Z) : res bool := v ← to_primitive v; Ok (num_above (to_number v) z).

(** ** [JSON.stringify(v, null, 2)] *)
Definition newline (indent : jsstr) : jsstr := 10%N :: indent.
Definition bracketed (l r indent inner : jsstr) (items : list jsstr) : jsstr :=
  match items with
  | [] => l ++ r
  | _ => l ++ newline inner ++ join_with (js "," ++ newline inner) items ++ newline indent ++ r
  end.

Fixpoint stringify_indented (indent : jsstr) (v : jsval) : option jsstr :=
  let inner := indent ++ js "  " in
  match v with
  | JUndef => None
  | JNull => Some (js "null")
  | JBool b => Some (js (if b then "true" else "false"))
  | JNum n => Some (json_number n)
  | JStr s => Some (json_string s)
  | JArr xs => Some (bracketed (js "[") (js "]") indent inner (map (fun x => default (js "null") (stringify_indented inner x)) xs))
  | JObj fs => Some (bracketed (js "{") (js "}") indent inner
      (omap (fun kv => match stringify_indented inner (snd kv) with
                       | Some t => Some (json_string (fst kv) ++ js ": " ++ t)
                       | None => None
                       end) fs))
  end.
Definition json_indented (v : jsval) : jsstr := default (js "undefined") (stringify_indented [] v).

(** ** Lemmas *)
Lemma add_num_int x y : Z.abs (x + y) <= 2 ^ 53 -> add_num (NumInt x) (NumInt y) = NumInt (x + y).
Proof. intros H. unfold add_num. by rewrite (proj2 (Z.leb_le _ _) H). Qed.

Lemma js_plus_int x y : Z.abs (x + y) <= 2 ^ 53 -> js_plus (JNum (NumInt x)) (JNum (NumInt y)) = Ok (JNum (NumInt (x + y))).
Proof.
  intros H. change (js_plus (JNum (NumInt x)) (JNum (NumInt y))) with (Ok (JNum (add_num (NumInt x) (NumInt y)))).
  by rewrite add_num_int.
Qed.

Lemma js_greater_int x z : js_greater (JNum (NumInt x)) z = Ok (z <? x).
Proof. unfold js_greater, num_above, quotient. cbn. by rewrite Z.mul_1_r. Qed.
