(* ===== verification/ReviewArgv.v ===== *)
(** * Command lines of the gentle-ai runtime (broker/src/sdd-runtime.ts)

    Every operation has one fixed command: a builder checks its input record
    key by key and writes the words of the command line.  The review lifecycle
    commands are entries of one table, read by [buildReviewArgv]. *)
From S2P Require Import Prelude JsVal Json Path Validation HostArgs HostPaths Envelope.
Open Scope Z_scope.

Definition DEFAULT_REVIEW_AGENT : jsstr := js "opencode".

(** [v.k] *)
Definition at_key (v : jsval) (k : string) : jsval := field v (js k).

Definition assertRecord (value : jsval) (what : jsstr) : res unit :=
  throw_if (negb (is_plain_object value)) (invalid_ [what; js " must be an object"]).

Definition assertProjectRootInput (projectRoot : jsval) : res unit :=
  match projectRoot with
  | JStr p =>
      _ ← throw_if ((js_length p =? 0) || negb (isAbsolute p)) (invalid "project root must be a non-empty absolute path");
      _ ← assertMaxBytes p 4096 (js "project root");
      assertNoControlChars p (js "project root")
  | _ => Throw (invalid "project root must be a non-empty absolute path")
  end.

Definition assertBinary (binary : jsval) : res unit :=
  match binary with
  | JStr b =>
      _ ← throw_if (js_length b =? 0) (invalid "SDD runtime binary must be a non-empty string");
      _ ← assertMaxBytes b 4096 (js "SDD runtime binary");
      assertNoControlChars b (js "SDD runtime binary")
  | _ => Throw (invalid "SDD runtime binary must be a non-empty string")
  end.

Definition assertExactKeys (value : jsval) (expected : list jsstr) : res unit :=
  for_each (fun key => throw_if (negb (mem key expected)) (invalid_ [js "unexpected SDD runtime field '"; key; js "'"]))
    (object_keys value).

(** The checks every builder opens with. *)
Definition assertInput (input : jsval) (what : string) (expected : list string) : res unit :=
  _ ← assertRecord input (js what);
  _ ← assertExactKeys input (map js expected);
  assertBinary (field input (js "binary")).

Definition assertRooted (input : jsval) (what : string) (expected : list string) : res unit :=
  _ ← assertInput input what expected;
  assertProjectRootInput (field input (js "projectRoot")).

(** [if (v !== undefined) { check; argv.push(...words) }] *)
Definition given (v : jsval) (check : res unit) (words : list jsstr) : res (list jsstr) :=
  if is_undef v then Ok [] else _ ← check; Ok words.

Definition is_true (v : jsval) : bool := match v with JBool true => true | _ => false end.

(** The elements of an array of strings, once it is checked. *)
Definition strings_of (v : jsval) : list jsstr := match v with JArr xs => map as_string xs | _ => [] end.

(** ** Checks of values that carry JSON (broker/src/validation.ts) *)
Definition REVIEW_INTENDED_UNTRACKED_SELECTION_MAX_BYTES : Z := 65536.
Definition MAINTAINER_AUTHORIZATION_MAX_BYTES : Z := 65536.

Definition is_json (s : jsstr) : bool := match json_parse s with Some _ => true | None => false end.

Definition assertIntendedUntrackedSelection (value : jsval) : res unit :=
  match value with
  | JStr ((_ :: _) as s) =>
      _ ← throw_if (startsWith s (js "-")) (invalid "intendedUntrackedSelection must not start with '-'");
      _ ← assertMaxBytes s REVIEW_INTENDED_UNTRACKED_SELECTION_MAX_BYTES (js "intendedUntrackedSelection");
      _ ← assertNoControlChars s (js "intendedUntrackedSelection");
      throw_if (negb (is_json s)) (invalid "intendedUntrackedSelection must be valid JSON")
  | _ => Throw (invalid "intendedUntrackedSelection must be a non-empty string")
  end.

Definition assertMaintainerAuthorization (value : jsval) : res unit :=
  match value with
  | JStr ((_ :: _) as s) =>
      _ ← assertMaxBytes s MAINTAINER_AUTHORIZATION_MAX_BYTES (js "maintainerAuthorization");
      _ ← throw_if (existsb (fun c => (c =? 13) || (c =? 0))%N s) (invalid "maintainerAuthorization must not contain CR or NUL");
      throw_if (negb (is_json s)) (invalid "maintainerAuthorization must be valid JSON")
  | _ => Throw (invalid "maintainerAuthorization must be a non-empty JSON string")
  end.

Definition assertReviewInputJson (value : jsval) (maxBytes : Z) : res unit :=
  match value with
  | JStr ((_ :: _) as s) =>
      _ ← assertMaxBytes s maxBytes (js "inputJson");
      _ ← throw_if (existsb (N.eqb 0) s) (invalid "inputJson must not contain NUL");
      throw_if (negb (is_json s)) (invalid "inputJson must be valid JSON")
  | _ => Throw (invalid "inputJson must be a non-empty string")
  end.

Section builders.
  Context (cwd : jsstr) (realpath : jsstr -> option jsstr).

Definition rooted_path (input : jsval) (k : string) : res jsstr :=
  resolveProjectRelativePath realpath (as_string (field input (js "projectRoot"))) (as_string (field input (js k))) (js k).

Definition buildSddStatusArgv (input : jsval) : res (list jsstr) :=
  _ ← assertRooted input "status input" ["binary"; "projectRoot"; "change"; "contract"]%string;
  change ← given (at_key input "change") (assertSddIdentifier (at_key input "change") (js "change")) [as_string (at_key input "change")];
  contract ← given (at_key input "contract") (assertSddContract (at_key input "contract"))
               [js "--contract"; as_string (at_key input "contract")];
  Ok ([as_string (at_key input "binary"); js "sdd-status"] ++ change
      ++ [js "--cwd"; as_string (at_key input "projectRoot"); js "--json"; js "--instructions"] ++ contract).

Definition buildSddContinueArgv (input : jsval) : res (list jsstr) :=
  _ ← assertRooted input "continue input" ["binary"; "projectRoot"; "change"]%string;
  change ← given (at_key input "change") (assertSddIdentifier (at_key input "change") (js "change")) [as_string (at_key input "change")];
  Ok ([as_string (at_key input "binary"); js "sdd-continue"] ++ change ++ [js "--cwd"; as_string (at_key input "projectRoot")]).

Definition buildSddArchiveComposeArgv (input : jsval) : res (list jsstr) :=
  _ ← assertRooted input "archive compose input" ["binary"; "projectRoot"; "canonical"; "delta"; "output"]%string;
  _ ← assertProjectRelativePath (at_key input "canonical") (js "canonical");
  _ ← assertProjectRelativePath (at_key input "delta") (js "delta");
  _ ← assertProjectRelativePath (at_key input "output") (js "output");
  canonical ← rooted_path input "canonical";
  delta ← rooted_path input "delta";
  output ← rooted_path input "output";
  Ok [as_string (at_key input "binary"); js "sdd-archive-compose"; js "--canonical"; canonical; js "--delta"; delta; js "--output"; output].

Definition buildSddTaskResultArgv (input : jsval) : res (list jsstr) :=
  _ ← assertRooted input "task result input" ["binary"; "projectRoot"; "phase"; "input"]%string;
  _ ← assertSddIdentifier (at_key input "phase") (js "phase");
  _ ← assertProjectRelativePath (at_key input "input") (js "input");
  resolved ← rooted_path input "input";
  Ok [as_string (at_key input "binary"); js "sdd-task-result"; js "--phase"; as_string (at_key input "phase");
      js "--cwd"; as_string (at_key input "projectRoot"); js "--input"; resolved].

(** [--committed-only] of a value that passed [assertOptionalBoolean]. *)
Definition committed_only (v : jsval) : res (list jsstr) :=
  given v (assertOptionalBoolean v (js "committedOnly")) (if is_true v then [js "--committed-only"] else []).

Definition base_ref (v : jsval) : res (list jsstr) := given v (assertReviewBaseRef v) [js "--base-ref"; as_string v].

Definition buildReviewAssessArgv (input : jsval) : res (list jsstr) :=
  _ ← assertRooted input "review assess input" ["binary"; "projectRoot"; "baseRef"; "committedOnly"; "untrackedScope";
        "expectedUntrackedInventory"; "intendedUntracked"]%string;
  base ← base_ref (at_key input "baseRef");
  committed ← committed_only (at_key input "committedOnly");
  scope ← given (at_key input "untrackedScope") (assertUntrackedScope (at_key input "untrackedScope"))
            [js "--untracked-scope=" ++ as_string (at_key input "untrackedScope")];
  inventory ← given (at_key input "expectedUntrackedInventory") (assertExpectedUntrackedInventory (at_key input "expectedUntrackedInventory"))
                [js "--expected-untracked-inventory=" ++ as_string (at_key input "expectedUntrackedInventory")];
  intended ← given (at_key input "intendedUntracked") (assertIntendedUntracked (at_key input "intendedUntracked"))
               (map (fun path => js "--intended-untracked=" ++ path) (strings_of (at_key input "intendedUntracked")));
  Ok ([as_string (at_key input "binary"); js "review"; js "assess"; js "--cwd"; as_string (at_key input "projectRoot")]
      ++ base ++ committed ++ scope ++ inventory ++ intended ++ [js "--json"]).

Definition buildReviewModeStatusArgv (input : jsval) : res (list jsstr) :=
  _ ← assertInput input "review mode status input" ["binary"]%string;
  Ok [as_string (field input (js "binary")); js "review"; js "mode"; js "status"].

Definition token_flag (input : jsval) (flag key : string) : res (list jsstr) :=
  let v := field input (js key) in given v (assertReviewToken v (js key)) [js flag; as_string v].

Definition buildReviewStatusArgv (input : jsval) : res (list jsstr) :=
  _ ← assertRooted input "review status input" ["binary"; "projectRoot"; "agent"; "lineage"; "repositoryContext";
        "projection"; "baseRef"; "committedOnly"; "intendedUntrackedSelection"]%string;
  let agent := if is_nullish (at_key input "agent") then JStr DEFAULT_REVIEW_AGENT else at_key input "agent" in
  _ ← assertReviewRuntimeAgent agent;
  lineage ← token_flag input "--lineage" "lineage";
  context ← token_flag input "--repository-context" "repositoryContext";
  projection ← given (at_key input "projection") (assertReviewProjection (at_key input "projection"))
                 [js "--projection"; as_string (at_key input "projection")];
  base ← base_ref (at_key input "baseRef");
  committed ← committed_only (at_key input "committedOnly");
  selection ← given (at_key input "intendedUntrackedSelection")
                (assertIntendedUntrackedSelection (at_key input "intendedUntrackedSelection"))
                [js "--intended-untracked-selection"; as_string (at_key input "intendedUntrackedSelection")];
  Ok ([as_string (at_key input "binary"); js "review"; js "status"; js "--cwd"; as_string (at_key input "projectRoot");
       js "--contract"; js "gentle-ai.review-integration/v2"; js "--agent"; as_string agent]
      ++ lineage ++ context ++ projection ++ base ++ committed ++ selection ++ [js "--next-transition"]).

Definition buildReviewLensContextArgv (input : jsval) : res (list jsstr) :=
  _ ← assertRooted input "review lens context input" ["binary"; "projectRoot"; "repositoryContext"; "lineage"; "target";
        "expectedRevision"; "lens"]%string;
  _ ← assertReviewToken (at_key input "repositoryContext") (js "repositoryContext");
  _ ← assertReviewToken (at_key input "lineage") (js "lineage");
  _ ← assertReviewToken (at_key input "target") (js "target");
  _ ← assertReviewSha256 (at_key input "expectedRevision") (js "expectedRevision");
  _ ← assertReviewLens (at_key input "lens");
  Ok ([as_string (at_key input "binary"); js "review"; js "lens-context"; js "--cwd"; as_string (at_key input "projectRoot");
       js "--repository-context"; as_string (at_key input "repositoryContext"); js "--lineage"; as_string (at_key input "lineage");
       js "--target"; as_string (at_key input "target"); js "--expected-revision"; as_string (at_key input "expectedRevision");
       js "--lens"; as_string (at_key input "lens")]).

Definition RESET_REASON_MAX_BYTES : Z := 500.
Definition LEDGER_ACTOR_MAX_BYTES : Z := 128.

Definition buildSddAttemptGrantArgv (input : jsval) : res (list jsstr) :=
  _ ← assertRooted input "attempt grant input" ["binary"; "projectRoot"; "change"; "expectedRevision"; "roots";
        "changeInstance"; "requestId"; "actor"; "reason"]%string;
  _ ← assertSddIdentifier (at_key input "change") (js "change");
  revision ← given (at_key input "expectedRevision") (assertExpectedRevision (at_key input "expectedRevision"))
               [js "--expected-revision"; as_string (at_key input "expectedRevision")];
  _ ← assertCanonicalRoots cwd (at_key input "roots");
  _ ← assertEvidenceText_max LEDGER_ACTOR_MAX_BYTES (at_key input "changeInstance") (js "changeInstance");
  _ ← assertLowercaseRequestId (at_key input "requestId");
  _ ← assertEvidenceText_max LEDGER_ACTOR_MAX_BYTES (at_key input "actor") (js "actor");
  _ ← assertEvidenceText_max RESET_REASON_MAX_BYTES (at_key input "reason") (js "reason");
  Ok ([as_string (at_key input "binary"); js "sdd-attempt"; js "grant"; js "--cwd"; as_string (at_key input "projectRoot");
       js "--change"; as_string (at_key input "change")]
      ++ revision ++ flat_map (fun root => [js "--root"; root]) (strings_of (at_key input "roots"))
      ++ [js "--change-instance"; as_string (at_key input "changeInstance"); js "--request-id"; as_string (at_key input "requestId");
          js "--actor"; as_string (at_key input "actor"); js "--reason"; as_string (at_key input "reason")]).

(** ** The review lifecycle commands *)
Inductive ReviewFieldKind :=
  | K_agent | K_token | K_focus | K_baseRef | K_sha256 | K_order | K_correctionLines | K_boolean
  | K_enum (values : list string) | K_reason | K_detail | K_actor | K_maintainerAuth | K_stagedInput | K_untracked.

Record ReviewFlagSpec := mkFlag { fl_key : string; fl_flag : string; fl_kind : ReviewFieldKind; fl_required : bool }.

Record ReviewCommandSpec := mkCommand {
  cs_command : list string; cs_needsRoot : bool; cs_emitCwd : bool; cs_untracked : bool; cs_fields : list ReviewFlagSpec
}.

Definition REVIEW_UNTRACKED_KEY : string := "__untracked".
Definition field_of (k f : string) (kind : ReviewFieldKind) : ReviewFlagSpec := mkFlag k f kind false.
Definition required_field (k f : string) (kind : ReviewFieldKind) : ReviewFlagSpec := mkFlag k f kind true.
Definition enum_field (k f : string) (values : list string) : ReviewFlagSpec := mkFlag k f (K_enum values) false.

Definition REVIEW_COMMANDS : list (jsstr * ReviewCommandSpec) :=
  [   (js "reviewStart", mkCommand ["review"; "start"] true true true
      [field_of "agent" "--agent" K_agent;
       field_of "contract" "--contract" K_token;
       field_of "target" "--target" K_token;
       enum_field "projection" "--projection" ["workspace"; "staged"];
       enum_field "focus" "--focus" ["risk"; "resilience"; "readability"; "reliability"];
       field_of REVIEW_UNTRACKED_KEY "" K_untracked;
       field_of "baseRef" "--base-ref" K_baseRef;
       field_of "committedOnly" "--committed-only" K_boolean;
       field_of "workspaceOverlay" "--workspace-overlay" K_boolean;
       field_of "lineage" "--lineage" K_token;
       enum_field "consent" "--consent" ["relay"; "granted"; "declined"];
       enum_field "locale" "--locale" ["en"; "es"];
       field_of "policy" "--policy" K_token;
       field_of "trace" "--trace" K_token]);
   (js "reviewCaptureResult", mkCommand ["review"; "capture-result"] true true false
      [field_of "agent" "--agent" K_agent;
       field_of "input" "--input" K_stagedInput;
       field_of "lens" "--lens" K_token;
       field_of "order" "--order" K_order;
       field_of "target" "--target" K_token;
       field_of "lineage" "--lineage" K_token;
       field_of "expectedRevision" "--expected-revision" K_sha256;
       field_of "repositoryContext" "--repository-context" K_token;
       field_of "subjectHash" "--subject-hash" K_sha256;
       field_of "materialize" "--materialize" K_boolean;
       field_of "preflight" "--preflight" K_boolean]);
   (js "reviewCaptureUnachievable", mkCommand ["review"; "capture-unachievable"] true true false
      [field_of "target" "--target" K_token;
       field_of "lineage" "--lineage" K_token;
       field_of "expectedRevision" "--expected-revision" K_sha256;
       field_of "repositoryContext" "--repository-context" K_token;
       field_of "requestHash" "--request-hash" K_sha256;
       field_of "reason" "--reason" K_reason;
       field_of "detail" "--detail" K_detail;
       field_of "withdraw" "--withdraw" K_boolean]);
   (js "reviewAcknowledgeApproved", mkCommand ["review"; "acknowledge-approved"] false false false
      [required_field "lineage" "--lineage" K_token;
       required_field "target" "--target" K_token;
       required_field "expectedRevision" "--expected-revision" K_sha256;
       required_field "token" "--token" K_token]);
   (js "reviewCaptureCorrectionPlan", mkCommand ["review"; "capture-correction-plan"] true true false
      [field_of "target" "--target" K_token;
       field_of "lineage" "--lineage" K_token;
       field_of "expectedRevision" "--expected-revision" K_sha256;
       field_of "repositoryContext" "--repository-context" K_token;
       field_of "requestHash" "--request-hash" K_sha256;
       field_of "correctionLines" "--correction-lines" K_correctionLines]);
   (js "reviewCaptureRefuter", mkCommand ["review"; "capture-refuter"] true true false
      [field_of "agent" "--agent" K_agent;
       field_of "target" "--target" K_token;
       field_of "lineage" "--lineage" K_token;
       field_of "expectedRevision" "--expected-revision" K_sha256;
       field_of "repositoryContext" "--repository-context" K_token;
       field_of "materialize" "--materialize" K_boolean;
       field_of "execute" "--execute" K_boolean]);
   (js "reviewCaptureValidation", mkCommand ["review"; "capture-validation"] true true false
      [field_of "agent" "--agent" K_agent;
       field_of "target" "--target" K_token;
       field_of "lineage" "--lineage" K_token;
       field_of "expectedRevision" "--expected-revision" K_sha256;
       field_of "repositoryContext" "--repository-context" K_token;
       field_of "requestHash" "--request-hash" K_sha256;
       field_of "materialize" "--materialize" K_boolean;
       field_of "execute" "--execute" K_boolean]);
   (js "reviewValidate", mkCommand ["review"; "validate"] true true false
      [field_of "contract" "--contract" K_token;
       enum_field "gate" "--gate" ["post-apply"; "pre-commit"; "pre-push"; "pre-pr"; "release"];
       field_of "baseRef" "--base-ref" K_baseRef;
       field_of "lineage" "--lineage" K_token;
       field_of "policy" "--policy" K_token;
       field_of "prePrCiAttestation" "--pre-pr-ci-attestation" K_token;
       field_of "releaseConfiguration" "--release-configuration" K_token;
       field_of "releaseEvidenceFreshness" "--release-evidence-freshness" K_token;
       field_of "releaseGenerated" "--release-generated" K_token;
       field_of "releaseProvenance" "--release-provenance" K_token;
       field_of "releasePublicationBoundary" "--release-publication-boundary" K_token]);
   (js "reviewRecover", mkCommand ["review"; "recover"] true true true
      [field_of "actor" "--actor" K_actor;
       enum_field "disposition" "--disposition" ["scope_changed"; "invalidated"; "escalated"];
       field_of "expectedPredecessorRevision" "--expected-predecessor-revision" K_sha256;
       field_of "predecessorLineage" "--predecessor-lineage" K_token;
       field_of "successorLineage" "--successor-lineage" K_token;
       field_of "reason" "--reason" K_reason;
       field_of "maintainerAuthorization" "--maintainer-authorization" K_maintainerAuth;
       field_of "baseRef" "--base-ref" K_baseRef;
       field_of "committedOnly" "--committed-only" K_boolean;
       field_of "workspaceOverlay" "--workspace-overlay" K_boolean;
       field_of "releaseScope" "--release-scope" K_boolean;
       enum_field "projection" "--projection" ["workspace"; "staged"];
       field_of REVIEW_UNTRACKED_KEY "" K_untracked;
       field_of "focus" "--focus" K_focus;
       field_of "policy" "--policy" K_token])]%string.

(** The staged argv value: [-] or an absolute path. *)
Definition assertStagedReviewInput (value : jsval) : res unit :=
  match value with
  | JStr p =>
      if str_eqb p (js "-") then Ok tt else
      _ ← throw_if ((js_length p =? 0) || negb (isAbsolute p)) (invalid "input must be '-' or a broker-staged absolute path");
      _ ← assertMaxBytes p 4096 (js "input");
      _ ← assertNoControlChars p (js "input");
      throw_if (startsWith p (js "-")) (invalid "input must not start with '-'")
  | _ => Throw (invalid "input must be '-' or a broker-staged absolute path")
  end.

(** The words one present field adds. *)
Definition applyReviewField (fl : ReviewFlagSpec) (value : jsval) : res (list jsstr) :=
  let key := js (fl_key fl) in
  let flag := js (fl_flag fl) in
  let checked (check : res unit) := _ ← check; Ok [flag; as_string value] in
  match fl_kind fl with
  | K_agent => checked (assertReviewRuntimeAgent value)
  | K_token => checked (assertReviewToken value key)
  | K_focus => checked (assertReviewToken_max REVIEW_FOCUS_MAX_BYTES value key)
  | K_baseRef => checked (assertReviewBaseRef value)
  | K_sha256 => checked (assertReviewSha256 value key)
  | K_order => _ ← assertReviewOrder value; s ← js_String value; Ok [flag; s]
  | K_correctionLines => _ ← assertReviewCorrectionLines value; s ← js_String value; Ok [flag; s]
  | K_boolean => _ ← assertOptionalBoolean value key; Ok (if is_true value then [flag] else [])
  | K_enum values => checked (throw_if (negb (is_one_of values value))
                       (invalid_ [key; js " must be one of: "; join_with (js ", ") (map js values)]))
  | K_reason => checked (assertEvidenceText_max 4096 value key)
  | K_detail => checked (assertEvidenceText_max 16384 value key)
  | K_actor => checked (assertEvidenceText_max 128 value key)
  | K_maintainerAuth => checked (assertMaintainerAuthorization value)
  | K_stagedInput => checked (assertStagedReviewInput value)
  | K_untracked => Throw (invalid "unknown review field kind")
  end.

(** The untracked declaration: scope and inventory come together, [select]
    with its paths, [exclude] without. *)
Definition appendUntrackedDeclaration (input : jsval) (unique : bool) : res (list jsstr) :=
  let scope := at_key input "untrackedScope" in
  let inventory := at_key input "expectedUntrackedInventory" in
  let intended := at_key input "intendedUntracked" in
  if is_undef scope then
    _ ← throw_if (negb (is_undef inventory)) (invalid "expectedUntrackedInventory requires untrackedScope");
    _ ← throw_if (negb (is_undef intended)) (invalid "intendedUntracked requires untrackedScope 'select'");
    Ok []
  else
    _ ← assertUntrackedScope scope;
    _ ← assertExpectedUntrackedInventory inventory;
    let declared := [js "--untracked-scope"; as_string scope; js "--expected-untracked-inventory"; as_string inventory] in
    if str_eqb (as_string scope) (js "exclude") then
      _ ← throw_if (negb (is_undef intended)) (invalid "untrackedScope 'exclude' must not carry intendedUntracked");
      Ok declared
    else
      _ ← (if unique then assertReviewIntendedUntracked intended else assertIntendedUntracked intended);
      _ ← throw_if (Z.of_nat (length (strings_of intended)) =? 0)
            (invalid "untrackedScope 'select' requires at least one intendedUntracked path");
      _ ← for_each (fun path =>
            _ ← resolveProjectRelativePath realpath (as_string (at_key input "projectRoot")) path (js "intendedUntracked path");
            Ok tt) (strings_of intended);
      Ok (declared ++ flat_map (fun path => [js "--intended-untracked"; path]) (strings_of intended)).

(** The words of one field of the table. *)
Definition review_field (input : jsval) (fl : ReviewFlagSpec) : res (list jsstr) :=
  if String.eqb (fl_key fl) REVIEW_UNTRACKED_KEY then appendUntrackedDeclaration input true else
  let value := at_key input (fl_key fl) in
  let missing := invalid_ [js (fl_flag fl); js " is required"] in
  if is_undef value then _ ← throw_if (fl_required fl) missing; Ok [] else
  _ ← throw_if (fl_required fl && match value with JStr [] => true | _ => false end) missing;
  applyReviewField fl value.

Definition review_keys (spec : ReviewCommandSpec) : list string :=
  ["binary"%string]
  ++ List.filter (fun k => negb (String.eqb k REVIEW_UNTRACKED_KEY)) (map fl_key (cs_fields spec))
  ++ (if cs_needsRoot spec then ["projectRoot"%string] else [])
  ++ (if cs_untracked spec then ["untrackedScope"; "expectedUntrackedInventory"; "intendedUntracked"]%string else []).

Definition buildReviewArgv (operation : jsstr) (input : jsval) : res (list jsstr) :=
  match table_get REVIEW_COMMANDS operation with
  | Own spec =>
      _ ← assertRecord input (operation ++ js " input");
      _ ← assertExactKeys input (map js (review_keys spec));
      _ ← assertBinary (at_key input "binary");
      cwd_words ← (if cs_needsRoot spec then
                     _ ← assertProjectRootInput (at_key input "projectRoot");
                     Ok (if cs_emitCwd spec then [js "--cwd"; as_string (at_key input "projectRoot")] else [])
                   else Ok []);
      groups ← map_res (review_field input) (cs_fields spec);
      Ok (as_string (at_key input "binary") :: map js (cs_command spec) ++ cwd_words ++ concat groups)
  | _ => Throw (invalid_ [js "unknown review operation: "; operation])
  end.
End builders.

(** Drop the caller-facing [projectDir], which the executor resolves. *)
Definition withoutProjectDir (payload : list (jsstr * jsval)) : list (jsstr * jsval) :=
  List.filter (fun kv => negb (str_eqb (fst kv) (js "projectDir"))) payload.

(** ** Facts about the command lines of the review lifecycle

    A command line reads back as exactly the fields it was built from. *)
(** A flag parser: each word is a flag of the command, and a flag that takes a
    value takes the word after it, whatever it is. *)
Fixpoint read_flags (takes : jsstr -> option bool) (words : list jsstr) : option (list (jsstr * option jsstr)) :=
  match words with
  | [] => Some []
  | f :: rest =>
      match takes f with
      | Some false => fs ← read_flags takes rest; Some ((f, None) :: fs)
      | Some true => match rest with v :: rest' => fs ← read_flags takes rest'; Some ((f, Some v) :: fs) | [] => None end
      | None => None
      end
  end.

(** The flags of a command: whether each takes a value. *)
Definition SHARED_FLAGS : list jsstr := map js ["--cwd"; "--untracked-scope"; "--expected-untracked-inventory"; "--intended-untracked"]%string.
Definition is_boolean (fl : ReviewFlagSpec) : bool := match fl_kind fl with K_boolean => true | _ => false end.
Definition is_untracked (fl : ReviewFlagSpec) : bool := String.eqb (fl_key fl) REVIEW_UNTRACKED_KEY.
Definition flag_takes (spec : ReviewCommandSpec) (f : jsstr) : option bool :=
  if mem f SHARED_FLAGS then Some true
  else match List.find (fun fl => str_eqb f (js (fl_flag fl))) (cs_fields spec) with
       | Some fl => Some (negb (is_boolean fl))
       | None => None
       end.

(** What the caller supplied, in the order of the table. *)
Definition untracked_supplied (input : jsval) : list (jsstr * option jsstr) :=
  let scope := at_key input "untrackedScope" in
  if is_undef scope then [] else
  [(js "--untracked-scope", Some (as_string scope));
   (js "--expected-untracked-inventory", Some (as_string (at_key input "expectedUntrackedInventory")))]
  ++ (if str_eqb (as_string scope) (js "exclude") then []
      else map (fun p => (js "--intended-untracked", Some p)) (strings_of (at_key input "intendedUntracked"))).

Definition value_text (v : jsval) : jsstr := match v with JNum (NumInt z) => dec z | _ => as_string v end.

Definition field_supplied (input : jsval) (fl : ReviewFlagSpec) : list (jsstr * option jsstr) :=
  if is_untracked fl then untracked_supplied input else
  let v := at_key input (fl_key fl) in
  if is_undef v then []
  else if is_boolean fl then (if is_true v then [(js (fl_flag fl), None)] else [])
  else [(js (fl_flag fl), Some (value_text v))].

Definition supplied (spec : ReviewCommandSpec) (input : jsval) : list (jsstr * option jsstr) :=
  (if cs_needsRoot spec && cs_emitCwd spec then [(js "--cwd", Some (as_string (at_key input "projectRoot")))] else [])
  ++ flat_map (field_supplied input) (cs_fields spec).

(** ** Reading a group of words *)
Definition reads (takes : jsstr -> option bool) (ws : list jsstr) (fs : list (jsstr * option jsstr)) : Prop :=
  forall rest, read_flags takes (ws ++ rest) = option_map (app fs) (read_flags takes rest).

Lemma reads_nil takes : reads takes [] [].
Proof. intros rest. cbn [app]. by destruct (read_flags takes rest). Qed.

Lemma reads_app takes ws1 fs1 ws2 fs2 : reads takes ws1 fs1 -> reads takes ws2 fs2 -> reads takes (ws1 ++ ws2) (fs1 ++ fs2).
Proof.
  intros H1 H2 rest. rewrite <- app_assoc, H1, H2. destruct (read_flags takes rest); cbn; [|done]. by rewrite app_assoc.
Qed.

Lemma reads_value takes f v : takes f = Some true -> reads takes [f; v] [(f, Some v)].
Proof. intros H rest. cbn [app read_flags]. rewrite H. by destruct (read_flags takes rest). Qed.

Lemma reads_bare takes f : takes f = Some false -> reads takes [f] [(f, None)].
Proof. intros H rest. cbn [app read_flags]. rewrite H. by destruct (read_flags takes rest). Qed.

Lemma reads_flat_map {A} takes (g : A -> list jsstr) (h : A -> list (jsstr * option jsstr)) xs :
  (forall x, x ∈ xs -> reads takes (g x) (h x)) -> reads takes (flat_map g xs) (flat_map h xs).
Proof.
  induction xs as [|x xs IH]; intros H; cbn [flat_map]; [apply reads_nil|].
  apply reads_app; [apply H, list_elem_of_here | apply IH; intros y Hy; apply H; by apply list_elem_of_further].
Qed.

Lemma reads_groups {A} takes (f : A -> res (list jsstr)) (h : A -> list (jsstr * option jsstr)) xs groups :
  map_res f xs = Ok groups -> (forall x ws, x ∈ xs -> f x = Ok ws -> reads takes ws (h x)) ->
  reads takes (concat groups) (flat_map h xs).
Proof.
  revert groups. induction xs as [|x xs IH]; intros groups; cbn [map_res].
  - intros [= <-] _. apply reads_nil.
  - rewrite res_bind_Ok. intros (ws & Hw & H) Hf. rewrite res_bind_Ok in H. destruct H as (gs & Hg & [= <-]).
    cbn [concat flat_map]. apply reads_app; [by apply Hf, Hw; apply list_elem_of_here|].
    apply IH; [done|]. intros y ws' Hy. apply Hf. by apply list_elem_of_further.
Qed.

(** ** The table *)
Definition flags_known (spec : ReviewCommandSpec) : bool :=
  forallb (fun fl => is_untracked fl || bool_decide (flag_takes spec (js (fl_flag fl)) = Some (negb (is_boolean fl)))) (cs_fields spec).

Lemma commands_known : forallb (fun e => flags_known (snd e)) REVIEW_COMMANDS = true.
Proof. vm_compute. reflexivity. Qed.

Lemma command_flag op spec fl : (op, spec) ∈ REVIEW_COMMANDS -> fl ∈ cs_fields spec -> is_untracked fl = false ->
  flag_takes spec (js (fl_flag fl)) = Some (negb (is_boolean fl)).
Proof.
  intros Hs Hf Hu. pose proof commands_known as H. rewrite forallb_forall in H.
  specialize (H (op, spec)). cbn [snd] in H. apply list_elem_of_In in Hs, Hf. specialize (H Hs).
  unfold flags_known in H. rewrite forallb_forall in H. specialize (H fl Hf). rewrite Hu in H.
  by apply bool_decide_eq_true in H.
Qed.

Lemma shared_takes spec f : f ∈ SHARED_FLAGS -> flag_takes spec f = Some true.
Proof. intros H. unfold flag_takes. by rewrite (proj2 (mem_true _ _) H). Qed.

(** ** The words of a field *)
Lemma field_words fl v ws : applyReviewField fl v = Ok ws -> is_undef v = false ->
  ws = if is_boolean fl then (if is_true v then [js (fl_flag fl)] else []) else [js (fl_flag fl); value_text v].
Proof.
  intros H Hv. unfold applyReviewField, is_boolean in *.
  assert (forall (u : res unit) s, (_ ← u; Ok [js (fl_flag fl); s]) = Ok ws -> ws = [js (fl_flag fl); s]) as Hc.
  { intros u s. rewrite res_seq_Ok. intros [_ [= <-]]. done. }
  assert (forall u : res unit, (_ ← u; Ok [js (fl_flag fl); as_string v]) = Ok ws ->
            (forall n, v = JNum n -> u <> Ok tt) -> ws = [js (fl_flag fl); value_text v]) as Hs.
  { intros u Hu Hn. rewrite (Hc _ _ Hu). apply res_seq_Ok in Hu as [Hu _]. destruct v; try done. by destruct (Hn n). }
  destruct (fl_kind fl) eqn:K;
    try (apply (Hs _ H); intros n ->;
         first [discriminate | intros E; vm_compute in E; discriminate
               | unfold is_one_of; cbn; discriminate]).
  - apply res_seq_Ok in H as [Ha H]. destruct v as [| | |n| | |]; try discriminate. destruct n; try discriminate.
    cbn in H. by injection H as <-.
  - apply res_seq_Ok in H as [Ha H]. destruct v as [| | |n| | |]; try discriminate. destruct n; try discriminate.
    cbn in H. by injection H as <-.
  - apply res_seq_Ok in H as [_ H]. by injection H as <-.
  - discriminate.
Qed.

Section built.
  Context (realpath : jsstr -> option jsstr).

Lemma untracked_reads spec input ws :
  appendUntrackedDeclaration realpath input true = Ok ws -> reads (flag_takes spec) ws (untracked_supplied input).
Proof.
  unfold appendUntrackedDeclaration, untracked_supplied. cbv zeta.
  assert (forall f v, f ∈ SHARED_FLAGS -> reads (flag_takes spec) [f; v] [(f, Some v)]) as Hv
    by (intros f v Hf; apply reads_value, shared_takes, Hf).
  assert (forall f, mem f SHARED_FLAGS = true -> f ∈ SHARED_FLAGS) as Hm by (intros f; apply mem_true).
  assert (forall a b, reads (flag_takes spec)
    [js "--untracked-scope"; a; js "--expected-untracked-inventory"; b]
    [(js "--untracked-scope", Some a); (js "--expected-untracked-inventory", Some b)]) as Hd.
  { intros a b. apply (reads_app _ [_; _] [_] [_; _] [_]); apply Hv, Hm; vm_compute; reflexivity. }
  destruct (is_undef _).
  { rewrite !res_seq_Ok. intros (_ & _ & [= <-]). apply reads_nil. }
  rewrite !res_seq_Ok. intros (_ & _ & H). destruct (str_eqb _ (js "exclude")).
  - rewrite res_seq_Ok in H. destruct H as [_ [= <-]]. rewrite app_nil_r. apply Hd.
  - rewrite !res_seq_Ok in H. destruct H as (_ & _ & _ & [= <-]).
    refine (reads_app _ [_; _; _; _] [_; _] _ _ (Hd _ _) _).
    generalize (strings_of (at_key input "intendedUntracked")). intros ps. induction ps as [|p ps IH]; [apply reads_nil|].
    refine (reads_app _ [_; _] [_] _ _ _ IH). apply Hv, Hm. vm_compute. reflexivity.
Qed.

Lemma field_reads op spec input fl ws :
  (op, spec) ∈ REVIEW_COMMANDS -> fl ∈ cs_fields spec -> review_field realpath input fl = Ok ws ->
  reads (flag_takes spec) ws (field_supplied input fl).
Proof.
  intros Hs Hf. unfold review_field, field_supplied, is_untracked. cbv zeta.
  destruct (String.eqb _ _) eqn:Hu; [apply untracked_reads|].
  pose proof (command_flag op spec fl Hs Hf Hu) as Ht.
  destruct (is_undef (at_key input (fl_key fl))) eqn:Hv.
  { rewrite res_seq_Ok. intros [_ [= <-]]. apply reads_nil. }
  rewrite res_seq_Ok. intros [_ H]. rewrite (field_words _ _ _ H Hv).
  destruct (is_boolean fl); [destruct (is_true _); [by apply reads_bare | apply reads_nil] | by apply reads_value].
Qed.

(** C26: A review command line reads back as the fields it was built from.
    Whatever the record a caller gives a review operation, if a command line is
    built, every key of the record is one of the command's; the line is the
    binary and the command's fixed words, followed by words that a flag parser
    reads as exactly the fields supplied - each under its own flag, in the
    command's order, byte for byte - so no value is taken for a flag, no field
    is dropped and none is added. *)
Theorem review_argv_roundtrip op spec input argv :
  (op, spec) ∈ REVIEW_COMMANDS -> buildReviewArgv realpath op input = Ok argv ->
  (forall k, k ∈ object_keys input -> k ∈ map js (review_keys spec)) /\
  exists words, argv = as_string (at_key input "binary") :: map js (cs_command spec) ++ words /\
    read_flags (flag_takes spec) words = Some (supplied spec input).
Proof.
  intros Hs. unfold buildReviewArgv.
  assert (assoc op REVIEW_COMMANDS = Some spec) as Ha.
  { clear -Hs. revert Hs. unfold REVIEW_COMMANDS. rewrite !elem_of_cons, elem_of_nil.
    intros H. repeat (destruct H as [[= -> ->]|H]; [vm_compute; reflexivity|]). done. }
  rewrite (proj2 (table_get_Own _ _ _) Ha), !res_seq_Ok. intros (_ & Hk & _ & H).
  rewrite res_bind_Ok in H. destruct H as (cwd_words & Hc & H). rewrite res_bind_Ok in H. destruct H as (groups & Hg & [= <-]).
  split.
  - unfold assertExactKeys in Hk. rewrite for_each_Ok, Forall_forall in Hk. intros k Hin.
    specialize (Hk k Hin). apply throw_if_Ok, negb_false_iff in Hk. by apply mem_true.
  - exists (cwd_words ++ concat groups). split; [done|].
    assert (reads (flag_takes spec) (cwd_words ++ concat groups) (supplied spec input)) as Hr.
    { unfold supplied. apply reads_app.
      - destruct (cs_needsRoot spec); [|injection Hc as <-; apply reads_nil]. rewrite res_seq_Ok in Hc. destruct Hc as [_ [= <-]].
        destruct (cs_emitCwd spec); [|apply reads_nil]. apply reads_value, shared_takes, mem_true. vm_compute. reflexivity.
      - eapply reads_groups; [exact Hg|]. intros fl ws Hf Hw. by eapply field_reads. }
    specialize (Hr []). rewrite app_nil_r in Hr. rewrite Hr. cbn. by rewrite app_nil_r.
Qed.
End built.

(** An authorization that looks like a flag stays a value. *)
Definition sample_recover : jsval :=
  JObj [(js "binary", JStr (js "gentle-ai")); (js "projectRoot", JStr (js "/srv/p")); (js "maintainerAuthorization", JStr (js "-1"));
        (js "releaseScope", JBool true); (js "untrackedScope", JStr (js "exclude"));
        (js "expectedUntrackedInventory", JStr (js "sha256:" ++ repeat 97%N 64)); (js "actor", JStr (js "maintainer"))].

Lemma review_argv_roundtrip_witness :
  exists spec argv, (js "reviewRecover", spec) ∈ REVIEW_COMMANDS /\
    buildReviewArgv plain_realpath (js "reviewRecover") sample_recover = Ok argv /\
    argv = (map js ["gentle-ai"; "review"; "recover"; "--cwd"; "/srv/p"; "--actor"; "maintainer"; "--maintainer-authorization"; "-1";
                   "--release-scope"; "--untracked-scope"; "exclude"; "--expected-untracked-inventory"]%string
           ++ [js "sha256:" ++ repeat 97%N 64])%list /\
    exists words, argv = as_string (at_key sample_recover "binary") :: map js (cs_command spec) ++ words /\
      read_flags (flag_takes spec) words = Some (supplied spec sample_recover).
Proof.
  assert ((js "reviewRecover", snd (nth 8 REVIEW_COMMANDS ([], mkCommand [] false false false []))) ∈ REVIEW_COMMANDS) as Hin
    by (apply list_elem_of_In; do 8 right; left; reflexivity).
  eexists. eexists. split; [exact Hin|]. split; [vm_compute; reflexivity|]. split; [vm_compute; reflexivity|].
  eapply (review_argv_roundtrip plain_realpath (js "reviewRecover")); [exact Hin | vm_compute; reflexivity].
Defined.
