(* ===== verification/SddRuntime.v ===== *)
(** * The gentle-ai runtime (broker/src/sdd-runtime.ts, legacy-sdd.ts, review-guidance.ts)

    The executor resolves the approved project, builds the fixed command, runs
    it with a timeout and an output bound, and reads its output.  A capture's
    input is staged first as a private file that is removed whatever happens. *)
From Stdlib Require Import QArith.
From S2P Require Import Prelude JsVal Json Types State Policy Path Validation HostArgs HostPaths Codec Redact Envelope.
From S2P Require Import Queue Effects Worker ReviewArgv.
Open Scope Z_scope.

(** ** Dormant operations of gentle-ai 4 (legacy-sdd.ts) *)
Inductive LegacySddMode := mode_auto | mode_on | mode_off.

Definition SDD_RETIRED_MAJOR : Z := 4.

Definition LEGACY_SDD_DORMANT_MESSAGE : jsstr :=
  js "SDD retired in gentle-ai 4; this operation is dormant. Enable it only after rolling back to gentle-ai 3.x (BROKER_LEGACY_SDD=on or auto with a 3.x binary).".

Definition parseLegacySddMode (raw : option jsstr) : res LegacySddMode :=
  match raw with
  | None | Some [] => Ok mode_auto
  | Some r =>
      if str_eqb r (js "auto") then Ok mode_auto
      else if str_eqb r (js "on") then Ok mode_on
      else if str_eqb r (js "off") then Ok mode_off
      else Throw (invalid_ [js "BROKER_LEGACY_SDD must be auto, on or off, got "; json_string r])
  end.

(** [\d+] then a dot: the digits and what follows the dot. *)
Definition digits_dot (s : jsstr) : option (jsstr * jsstr) :=
  match span is_digit s with
  | ((_ :: _) as ds, c :: r) => if (c =? 46)%N then Some (ds, r) else None
  | _ => None
  end.

(** [/^gentle-ai\s+v?(\d+)\.\d+\.\d+/]: the first group. *)
Definition version_at (s : jsstr) : option jsstr :=
  if startsWith s (js "gentle-ai") then
    let '(spaces, r) := span is_ws (drop 9 s) in
    if (0 <? length spaces)%nat then
      let r := match r with c :: r' => if (c =? 118)%N then r' else r | [] => r end in
      match digits_dot r with
      | Some (major, r1) =>
          match digits_dot r1 with
          | Some (_, d :: _) => if is_digit d then Some major else None
          | _ => None
          end
      | None => None
      end
    else None
  else None.

(** The first match of the expression, from the left. *)
Fixpoint first_version (s : jsstr) : option jsstr :=
  match version_at s with
  | Some m => Some m
  | None => match s with _ :: r => first_version r | [] => None end
  end.

Definition parseGentleAiMajor (output : jsstr) : option jsnum :=
  match first_version output with Some ds => Some (decimal_number false ds 0) | None => None end.

Record LegacySddResolution := mkLegacy { lg_enabled : bool; lg_warning : option jsstr }.

Definition num_below (n : jsnum) (k : Z) : bool :=
  match n with NumInt z => z <? k | NumInf neg => neg | _ => false end.
Definition num_text (n : jsnum) : jsstr :=
  match n with NumInt z => dec z | NumFrac t => t | NumNaN => js "NaN" | NumInf neg => js (if neg then "-Infinity" else "Infinity") end.

Definition resolveLegacySdd (mode : LegacySddMode) (major : option jsnum) : LegacySddResolution :=
  match mode, major with
  | mode_on, Some m =>
      if negb (num_below m SDD_RETIRED_MAJOR)
      then mkLegacy true (Some (js "BROKER_LEGACY_SDD=on but gentle-ai " ++ num_text m ++ js " has no sdd-* subcommands; SDD calls will fail"))
      else mkLegacy true None
  | mode_on, None => mkLegacy true None
  | mode_off, Some m =>
      if num_below m SDD_RETIRED_MAJOR
      then mkLegacy false (Some (js "BROKER_LEGACY_SDD=off with gentle-ai " ++ num_text m ++ js "; SDD operations are dormant although the binary supports them"))
      else mkLegacy false None
  | mode_off, None => mkLegacy false None
  | mode_auto, None =>
      mkLegacy false (Some (js "gentle-ai version could not be determined; legacy SDD stays dormant (fail closed)"))
  | mode_auto, Some m => mkLegacy (num_below m SDD_RETIRED_MAJOR) None
  end.

Definition detectGentleAiMajor (E : Environment) (binary : jsstr) : M (option jsnum) :=
  try_catch
    (r ← call_proc E (CSpawn [binary; js "--version"] (mkOpts None (jint 10000) JUndef (Some 4096)));
     mret (if negb (bool_decide (status r = Some 0)) || timedOut r then None else parseGentleAiMajor (stdout r)))
    (fun _ => mret None).

Definition assertLegacySddEnabled (enabled : bool) : res unit :=
  throw_if (negb enabled) (policy_error LEGACY_SDD_DORMANT_MESSAGE).

(** ** Guidance (review-guidance.ts) *)
Definition REVIEW_GUIDANCE_OBSERVED_BUILD : jsstr := js "gentle-ai 4.2.0".

Definition UPSTREAM : jsstr := js "https://github.com/Gentleman-Programming/gentle-ai/issues/4571".

Definition REVIEW_OPERATOR_GUIDANCE : jsval :=
  JObj [(js "condition", JStr (js "correction_required_unreachable")); (js "upstream", JStr UPSTREAM);
        (js "observed_on", JStr REVIEW_GUIDANCE_OBSERVED_BUILD);
        (js "workaround", JStr (js "Do not run review recover without a maintainer authorization value issued by gentle-ai. If the corroborated finding is real, fix it, commit, and start a new lineage on the new target. If the finding is false, this lineage has no sanctioned exit; leave it as history."));
        (js "why", JStr (js "The state records fix_delta_hash as the SHA-256 of empty input at capture_phase_epoch 1, and no operation offered in this state can supply a correction delta."))].

Definition REVIEW_CLOSURE_GUIDANCE : jsval :=
  JObj [(js "condition", JStr (js "correction_required_reached")); (js "upstream", JStr UPSTREAM);
        (js "observed_on", JStr REVIEW_GUIDANCE_OBSERVED_BUILD);
        (js "next_step", JStr (js "Run the returned status_continuation verbatim, with its tokens unchanged. If that status reports reason_code corrupted_or_unverifiable_authority, this lineage is unreachable: do not run review recover without a maintainer authorization value; fix the corroborated finding if it is real, commit, and start a new lineage on the new target."))].

(** [v === t] *)
Definition is_text_of (v : jsval) (t : jsstr) : bool := match v with JStr s => str_eqb s t | _ => false end.
Definition is_text (v : jsval) (t : string) : bool := match v with JStr s => str_eqb s (js t) | _ => false end.
Definition starts_with (v : jsval) (p : string) : bool := match v with JStr s => startsWith s (js p) | _ => false end.

Definition unreachable_status (json : jsval) : bool :=
  let nextTransition := at_key json "next_transition" in
  let authority := at_key json "authority" in
  starts_with (at_key json "schema") "gentle-ai.review-integration.status/"
  && is_text (at_key nextTransition "kind") "stop"
  && is_text (at_key nextTransition "reason_code") "corrupted_or_unverifiable_authority"
  && is_text (at_key authority "state") "correction_required".

Definition addOperatorGuidance (json : jsval) : jsval :=
  match json with
  | JObj fs => if unreachable_status json then JObj (set_key (js "operator_guidance") REVIEW_OPERATOR_GUIDANCE fs) else json
  | _ => json
  end.

Definition addClosureGuidance (json : jsval) : jsval :=
  match json with
  | JObj fs =>
      if starts_with (at_key json "schema") "gentle-ai.review-last-event-closure/" && is_text (at_key json "state") "correction_required"
      then JObj (set_key (js "operator_guidance") REVIEW_CLOSURE_GUIDANCE fs) else json
  | _ => json
  end.

(** ** Results *)
Record SddRuntimeResult := mkSddResult { sd_status : option Z; sd_json : jsval; sd_stderr : jsstr }.
Record SddRawResult := mkRawResult { rw_status : option Z; rw_text : jsstr; rw_stderr : jsstr; rw_json : jsval }.

Definition status_json (s : option Z) : jsval := match s with Some z => jint z | None => JNull end.
Definition sdd_json (r : SddRuntimeResult) : jsval :=
  JObj [(js "status", status_json (sd_status r)); (js "json", sd_json r); (js "stderr", JStr (sd_stderr r))].
Definition raw_json (r : SddRawResult) : jsval :=
  JObj [(js "status", status_json (rw_status r)); (js "text", JStr (rw_text r)); (js "stderr", JStr (rw_stderr r)); (js "json", rw_json r)].
Definition with_json (f : jsval -> jsval) (r : SddRuntimeResult) : SddRuntimeResult :=
  mkSddResult (sd_status r) (f (sd_json r)) (sd_stderr r).

(** An [SddRuntimeError]: its own code is [internal]. *)
Definition sdd_error (m : jsstr) : exn := Exn (ECoded (js "internal")) m.

Definition DEFAULT_OUTPUT_MAX_BYTES : Z := 512 * 1024.
Definition STATUS_TIMEOUT_MS : Z := 120000.
Definition MAX_ERROR_STDERR_BYTES : Z := 4096.
Definition REVIEW_INPUT_DIR_NAME : jsstr := js "review-input".
Definition REVIEW_INPUT_MAX_BYTES : Z := 512 * 1024.

(** The tail of stderr that an error message carries. *)
Definition boundedStderrSuffix (err : jsstr) : jsstr :=
  match trim err with
  | [] => []
  | trimmed => js "; stderr: " ++ utf8_lossy (take (Z.to_nat MAX_ERROR_STDERR_BYTES) (utf8_encode trimmed))
  end.

(** What [run] makes of a finished command. *)
Definition run_result (redactOutput : bool) (r : SpawnResult) : res SddRuntimeResult :=
  _ ← throw_if (timedOut r) (sdd_error (js "SDD runtime command timed out"));
  let err := if redactOutput then capAndRedact (stderr r) else stderr r in
  match trim (stdout r) with
  | [] => Throw (sdd_error (js "SDD runtime returned empty stdout; expected JSON" ++ boundedStderrSuffix err))
  | _ =>
      match json_parse (stdout r) with
      | Some json => Ok (mkSddResult (status r) json err)
      | None => Throw (sdd_error (js "SDD runtime returned non-JSON stdout" ++ boundedStderrSuffix err))
      end
  end.

Definition raw_result (r : SpawnResult) : res SddRawResult :=
  _ ← throw_if (timedOut r) (sdd_error (js "SDD runtime command timed out"));
  Ok (mkRawResult (status r) (stdout r) (stderr r) (default JUndef (json_parse (trim (stdout r))))).

(** ** The executor *)
Record SddRuntimeExecutorOptions := mkSddOptions {
  sx_binary : jsval;
  sx_outputMaxBytes : jsval;
  sx_reviewInputDir : option jsstr;
  sx_retries : nat            (* random names tried for a staged input *)
}.

(** The constructor's checks; the bound on output is the one it keeps. *)
Definition output_bound (o : SddRuntimeExecutorOptions) : res Z :=
  _ ← assertBinary (sx_binary o);
  match (if is_nullish (sx_outputMaxBytes o) then jint DEFAULT_OUTPUT_MAX_BYTES else sx_outputMaxBytes o) with
  | JNum (NumInt z) => _ ← throw_if (z <=? 0) (invalid "SDD runtime output cap must be a positive integer"); Ok z
  | _ => Throw (invalid "SDD runtime output cap must be a positive integer")
  end.

(** [err.code === code] *)
Definition has_code (e : exn) (code : string) : bool := bool_decide (exn_class e = ECoded (js code)).

Section executor.
  Context (ctx : OpContext) (options : SddRuntimeExecutorOptions) (cwd : jsstr).

(** Every file left in the private directory is removed; the count of those
    removed. *)
Fixpoint remove_entries (dir : jsstr) (entries : list jsstr) : M Z :=
  match entries with
  | [] => mret 0
  | entry :: entries' =>
      removed ← try_catch (_ ← call_unit (env ctx) (CUnlink (join [dir; entry])); mret 1) (fun _ => mret 0);
      rest ← remove_entries dir entries';
      mret (removed + rest)
  end.

Definition cleanupStaleReviewInputs (dir : jsstr) : M Z :=
  try_catch (entries ← call_names (env ctx) (CListDir dir); remove_entries dir entries) (fun _ => mret 0).

(** [new SddRuntimeExecutor(options)] *)
Definition newSddRuntimeExecutor : M Z :=
  bound ← lift (output_bound options);
  _ ← match sx_reviewInputDir options with Some dir => cleanupStaleReviewInputs dir | None => mret 0 end;
  mret bound.

Definition resolveProjectRoot (projectDir : jsval) : res jsstr :=
  projectID ← resolveProjectID (host_realpath ctx) projectDir (projects (cfg ctx));
  match project_of ctx projectID with
  | None => Throw (invalid "project is not in the trusted allowlist")
  | Some project =>
      let unresolved := invalid "project root does not resolve on the host" in
      canonicalRoot ← realpath_or (host_realpath ctx) unresolved (project_path project);
      canonicalRequested ← realpath_or (host_realpath ctx) unresolved (as_string projectDir);
      _ ← throw_if (negb (str_eqb canonicalRequested canonicalRoot))
            (invalid "SDD runtime requires the exact approved project root");
      Ok canonicalRoot
  end.

(** The bound kept by the constructor. *)
Definition outputMaxBytes : Z := match output_bound options with Ok z => z | Throw _ => DEFAULT_OUTPUT_MAX_BYTES end.

Definition runtime_call (argv : list jsstr) (projectRoot : jsstr) : call :=
  CSpawn argv (mkOpts (Some projectRoot) (jint STATUS_TIMEOUT_MS) (JObj [(js "NO_COLOR", JStr (js "1"))]) (Some outputMaxBytes)).

Definition run (argv : res (list jsstr)) (projectRoot : jsstr) (redactOutput : bool) : M SddRuntimeResult :=
  argv ← lift argv;
  r ← call_proc (env ctx) (runtime_call argv projectRoot);
  lift (run_result redactOutput r).

Definition runRaw (argv : res (list jsstr)) (projectRoot : jsstr) : M SddRawResult :=
  argv ← lift argv;
  r ← call_proc (env ctx) (runtime_call argv projectRoot);
  lift (raw_result r).

(** The builder's record: the binary, the root, the required keys (one that is
    [undefined] is there, and refused by the builder's own check) and the optional
    keys that are present. *)
Definition rooted_input (projectRoot : jsstr) (payload : jsval) (required optional : list string) : jsval :=
  JObj ([(js "binary", sx_binary options); (js "projectRoot", JStr projectRoot)]
        ++ map (fun k => (js k, at_key payload k)) required
        ++ flat_map (fun k => if is_undef (at_key payload k) then [] else [(js k, at_key payload k)]) optional).

Definition sddStatus_ (payload : jsval) : M SddRuntimeResult :=
  projectRoot ← lift (resolveProjectRoot (at_key payload "projectDir"));
  run (buildSddStatusArgv (rooted_input projectRoot payload [] ["change"; "contract"]%string)) projectRoot false.

Definition sddContinue_ (payload : jsval) : M SddRuntimeResult :=
  projectRoot ← lift (resolveProjectRoot (at_key payload "projectDir"));
  run (buildSddContinueArgv (rooted_input projectRoot payload [] ["change"]%string)) projectRoot false.

Definition archiveCompose (payload : jsval) : M SddRuntimeResult :=
  projectRoot ← lift (resolveProjectRoot (at_key payload "projectDir"));
  run (buildSddArchiveComposeArgv (host_realpath ctx)
         (rooted_input projectRoot payload ["canonical"; "delta"; "output"]%string [])) projectRoot false.

Definition taskResult (payload : jsval) : M SddRuntimeResult :=
  projectRoot ← lift (resolveProjectRoot (at_key payload "projectDir"));
  run (buildSddTaskResultArgv (host_realpath ctx) (rooted_input projectRoot payload ["phase"; "input"]%string [])) projectRoot false.

Definition reviewAssess (payload : jsval) : M SddRuntimeResult :=
  projectRoot ← lift (resolveProjectRoot (at_key payload "projectDir"));
  run (buildReviewAssessArgv (rooted_input projectRoot payload [] ["baseRef"; "committedOnly"; "untrackedScope";
         "expectedUntrackedInventory"; "intendedUntracked"]%string)) projectRoot false.

Definition reviewModeStatus (payload : jsval) : M SddRawResult :=
  projectRoot ← lift (resolveProjectRoot (at_key payload "projectDir"));
  runRaw (buildReviewModeStatusArgv (JObj [(js "binary", sx_binary options)])) projectRoot.

Definition reviewStatus (payload : jsval) : M SddRuntimeResult :=
  projectRoot ← lift (resolveProjectRoot (at_key payload "projectDir"));
  result ← run (buildReviewStatusArgv (rooted_input projectRoot payload [] ["agent"; "lineage"; "repositoryContext"; "projection";
                  "baseRef"; "committedOnly"; "intendedUntrackedSelection"]%string)) projectRoot false;
  mret (with_json addOperatorGuidance result).

Definition reviewLensContext (payload : jsval) : M SddRawResult :=
  projectRoot ← lift (resolveProjectRoot (at_key payload "projectDir"));
  runRaw (buildReviewLensContextArgv (rooted_input projectRoot payload
           ["repositoryContext"; "lineage"; "target"; "expectedRevision"; "lens"]%string [])) projectRoot.

Definition attemptGrant (payload : jsval) : M SddRuntimeResult :=
  projectRoot ← lift (resolveProjectRoot (at_key payload "projectDir"));
  run (buildSddAttemptGrantArgv cwd (rooted_input projectRoot payload
         ["change"; "roots"; "changeInstance"; "requestId"; "actor"; "reason"]%string ["expectedRevision"]%string)) projectRoot true.

(** ** Staged inputs *)
Definition requireReviewInputDir : res jsstr :=
  match sx_reviewInputDir options with
  | Some ((_ :: _) as dir) => Ok dir
  | _ => Throw (sdd_error (js "review input staging is not configured"))
  end.

(** The loop over random names: a name that exists is tried again.  The loop
    has no bound in the code; [sx_retries] names are tried here. *)
Fixpoint open_staged (tries : nat) (inputDir : jsstr) : M (option jsstr) :=
  name ← call_text (env ctx) (CRandomHex 16);
  let candidate := join [inputDir; name ++ js ".input"] in
  opened ← try_catch (_ ← call_unit (env ctx) (COpenExclusive candidate 384); mret true)
             (fun e => if has_code e "EEXIST" then mret false else throw e);
  if (opened : bool) then mret (Some candidate)
  else match tries with S tries => open_staged tries inputDir | O => mret None end.

Definition writeStagedReviewInput (inputDir : jsstr) (bytes : list N) : M jsstr :=
  _ ← call_unit (env ctx) (CMkdir inputDir);
  opened ← open_staged (sx_retries options) inputDir;
  match opened with
  | Some candidate =>
      _ ← try_finally
            (_ ← call_unit (env ctx) (CWriteBytes candidate bytes); call_unit (env ctx) (CFsyncFd candidate))
            (call_unit (env ctx) (CCloseFd candidate));
      mret candidate
  | None => throw (Exn EError (js "still looking for a free name"))
  end.


(** The file the caller names, inside the project and regular. *)
Definition staged_source (projectRoot : jsstr) (relative : jsval) : res jsstr :=
  match relative with
  | JStr path =>
      resolved ← resolveProjectRelativePath (host_realpath ctx) projectRoot path (js "input");
      let unresolved := invalid "review input does not resolve to a file on the host" in
      realRoot ← realpath_or (host_realpath ctx) unresolved projectRoot;
      real ← realpath_or (host_realpath ctx) unresolved resolved;
      _ ← throw_if (negb (isWithin realRoot real)) (invalid "review input escapes the approved project root");
      Ok real
  | _ => Throw (Exn (ECoded (js "ERR_INVALID_ARG_TYPE")) (js "The paths[1] argument must be of type string"))
  end.

Definition stageReviewInputFile (inputDir projectRoot : jsstr) (relative : jsval) : M jsstr :=
  real ← lift (staged_source projectRoot relative);
  let unresolved := invalid "review input does not resolve to a file on the host" in
  regular ← catch_as (call_bool (env ctx) (CIsFile real)) unresolved;
  size ← catch_as (call_int (env ctx) (CFileSize real)) unresolved;
  _ ← throw_when (negb regular) (invalid "review input must be a regular file");
  _ ← throw_when (REVIEW_INPUT_MAX_BYTES <? size)
        (invalid_ [js "review input exceeds "; dec REVIEW_INPUT_MAX_BYTES; js " bytes"]);
  bytes ← call_text (env ctx) (CReadBytes real);
  writeStagedReviewInput inputDir bytes.

Definition stageReviewInputJson (inputDir body : jsstr) : M jsstr :=
  writeStagedReviewInput inputDir (utf8_encode body).

(** ** The review lifecycle *)

(** [{ binary, projectRoot, ...withoutProjectDir(payload) }] *)
Definition review_input (projectRoot : option jsstr) (payload : list (jsstr * jsval)) : jsval :=
  JObj (merge_fields ((js "binary", sx_binary options) :: match projectRoot with Some r => [(js "projectRoot", JStr r)] | None => [] end)
               payload).

Definition fields_of (v : jsval) : list (jsstr * jsval) := match v with JObj fs => fs | _ => [] end.

Definition runReview (operation : string) (payload : jsval) : M SddRuntimeResult :=
  projectRoot ← lift (resolveProjectRoot (at_key payload "projectDir"));
  run (buildReviewArgv (host_realpath ctx) (js operation) (review_input (Some projectRoot) (withoutProjectDir (fields_of payload))))
    projectRoot true.

(** The staged input of a capture, if it carries one. *)
Definition stage_input (projectRoot : jsstr) (payload : jsval) : M (option jsstr) :=
  let rawInput := at_key payload "input" in
  let rawInputJson := at_key payload "inputJson" in
  if negb (is_undef rawInput) then
    if is_text rawInput "-" then mret (Some (js "-"))
    else dir ← lift requireReviewInputDir; p ← stageReviewInputFile dir projectRoot rawInput; mret (Some p)
  else if negb (is_undef rawInputJson) then
    _ ← lift (assertReviewInputJson rawInputJson REVIEW_INPUT_MAX_BYTES);
    dir ← lift requireReviewInputDir;
    p ← stageReviewInputJson dir (as_string rawInputJson); mret (Some p)
  else mret None.

Definition drop_key (k : string) (fs : list (jsstr * jsval)) : list (jsstr * jsval) :=
  List.filter (fun kv => negb (str_eqb (fst kv) (js k))) fs.

Definition reviewCaptureResult (payload : jsval) : M SddRuntimeResult :=
  projectRoot ← lift (resolveProjectRoot (at_key payload "projectDir"));
  _ ← throw_when (negb (is_undef (at_key payload "input")) && negb (is_undef (at_key payload "inputJson")))
        (invalid "input and inputJson are mutually exclusive");
  let rest := drop_key "inputJson" (withoutProjectDir (fields_of payload)) in
  stagedInput ← stage_input projectRoot payload;
  try_finally
    (result ← run (buildReviewArgv (host_realpath ctx) (js "reviewCaptureResult")
                     (review_input (Some projectRoot)
                        (merge_fields rest (match stagedInput with Some p => [(js "input", JStr p)] | None => [] end))))
                projectRoot true;
     mret (with_json addClosureGuidance result))
    (match stagedInput with
     | Some p => when (negb (str_eqb p (js "-"))) (best_effort (call_unit (env ctx) (CUnlink p)))
     | None => mret tt
     end).

Definition reviewAcknowledgeApproved (payload : jsval) : M SddRuntimeResult :=
  projectRoot ← lift (resolveProjectRoot (at_key payload "projectDir"));
  run (buildReviewArgv (host_realpath ctx) (js "reviewAcknowledgeApproved")
         (review_input None (withoutProjectDir (fields_of payload)))) projectRoot true.

Definition reviewStart : jsval -> M SddRuntimeResult := runReview "reviewStart".
Definition reviewCaptureUnachievable : jsval -> M SddRuntimeResult := runReview "reviewCaptureUnachievable".
Definition reviewCaptureCorrectionPlan : jsval -> M SddRuntimeResult := runReview "reviewCaptureCorrectionPlan".
Definition reviewCaptureRefuter (payload : jsval) : M SddRuntimeResult :=
  result ← runReview "reviewCaptureRefuter" payload; mret (with_json addClosureGuidance result).
Definition reviewCaptureValidation : jsval -> M SddRuntimeResult := runReview "reviewCaptureValidation".
Definition reviewValidate : jsval -> M SddRuntimeResult := runReview "reviewValidate".
Definition reviewRecover : jsval -> M SddRuntimeResult := runReview "reviewRecover".
End executor.
