(* ===== verification/SddService.v ===== *)
(** * The SDD and review operations (broker/src/sdd-service.ts, advisor-lineages.ts,
      advisor-relay.ts and providerReview of advisor-records.ts)

    Each operation reads its payload, authorizes the session's own identity, and
    asks the gentle-ai runtime.  Reviews with external lenses are marked in
    files; on them a reviewer result is captured only by relaying a stored
    advisory response. *)
From Stdlib Require Import QArith.
From S2P Require Import Prelude JsVal Json Types State Policy Path Validation HostArgs HostPaths Codec Redact Envelope.
From S2P Require Import RolePolicy GitOps Artifacts Queue Effects Worker Results Diff Authorization Server FileOps HostSteps Advisor.
From S2P Require Import ReviewArgv SddRuntime JsOps.
Open Scope Z_scope.

(** ** Payload fields *)
Definition non_empty (key : string) (v : jsval) : res jsstr :=
  match v with
  | JStr ((_ :: _) as s) => Ok s
  | _ => Throw (invalid_ [js key; js " must be a non-empty string"])
  end.

Definition requireProjectDir (payload : jsval) : res jsstr := non_empty "projectDir" (at_key payload "projectDir").
Definition requireString (payload : jsval) (key : string) : res jsstr := non_empty key (at_key payload key).
Definition optionalString (payload : jsval) (key : string) : res jsval :=
  let v := at_key payload key in
  if is_undef v then Ok JUndef else s ← non_empty key v; Ok (JStr s).
Definition requireStringArray (payload : jsval) (key : string) : res jsval :=
  match at_key payload key with
  | JArr xs => Ok (JArr xs)
  | _ => Throw (invalid_ [js key; js " must be an array"])
  end.

(** Only the declared keys that are present. *)
Definition reviewOptional (payload : jsval) (keys : list string) : list (jsstr * jsval) :=
  flat_map (fun k => if is_undef (at_key payload k) then [] else [(js k, at_key payload k)]) keys.

Section service.
  Context (ctx : OpContext) (options : SddRuntimeExecutorOptions) (legacySddEnabled : bool) (cwd : jsstr).
  Context (advisorStore : world -> AdvisorStore).

(** ** External-lens lineages, as files (advisor-lineages.ts) *)
Definition advisorDir : jsstr := join [stateDir (cfg ctx); js "advisor"].

(** [/^[A-Za-z0-9_-]{1,32}$/] *)
Definition ADVISOR_PROJECT_ID_RE : jsstr -> bool := re_class (fun c => is_alnum c || one_of "_-" c) 1 32.

Definition lineagesDir (projectId : jsstr) : M jsstr :=
  _ ← throw_when (negb (ADVISOR_PROJECT_ID_RE projectId)) (invalid "invalid project id");
  let dir := join [stateDir (cfg ctx); js "advisor"; projectId; js "external-lineages"] in
  _ ← call_unit (env ctx) (CMkdir dir);
  _ ← for_eachM (fun p => call_unit (env ctx) (CChmod p 448))
        [advisorDir; join [stateDir (cfg ctx); js "advisor"; projectId]; dir];
  mret dir.

Definition LINEAGE_RE : jsstr -> bool := prefixed "review-" (re_class is_alnum 1 64).

Definition assertLineage (lineage : jsval) : res jsstr :=
  match lineage with
  | JStr l => if LINEAGE_RE l then Ok l else Throw (invalid "review lineage must match /^review-[A-Za-z0-9]{1,64}$/")
  | _ => Throw (invalid "review lineage must match /^review-[A-Za-z0-9]{1,64}$/")
  end.

(** Created exclusively; an existing marker is left. *)
Definition markExternalLensLineage (projectId : jsstr) (lineage : jsval) : M unit :=
  dir ← lineagesDir projectId;
  l ← lift (assertLineage lineage);
  try_catch (call_unit (env ctx) (COpenExclusive (join [dir; l]) 384))
    (fun e => if has_code e "EEXIST" then mret tt else throw e).

Definition isExternalLensLineage (projectId : jsstr) (lineage : jsval) : M bool :=
  dir ← lineagesDir projectId;
  l ← lift (assertLineage lineage);
  call_bool (env ctx) (CExists (join [dir; l])).

Definition resolve_project (projectDir : jsstr) : res jsstr :=
  resolveProjectID (host_realpath ctx) (JStr projectDir) (projects (cfg ctx)).

(** A project that does not resolve is left to the runtime to refuse. *)
Definition guardExternalLensCapture (projectDir : jsstr) (payload : jsval) : M unit :=
  match at_key payload "lineage", resolve_project projectDir with
  | JStr l, Ok projectId =>
      if negb (LINEAGE_RE l) then mret tt else
      external ← isExternalLensLineage projectId (JStr l);
      throw_when (external && existsb (fun k => negb (is_undef (at_key payload k))) ["input"; "inputJson"; "agent"]%string)
        (policy_error (js "an external-lens lineage accepts reviewer results only through inputFromAdvisorResponse (no free-form input, no agent)"))
  | _, _ => mret tt
  end.

(** ** What gentle-ai is collecting *)

(** One [{ name, value }] argument; the properties of a value that has none
    read as [undefined], those of [null] and [undefined] throw. *)
Definition argument (v : jsval) : res (jsstr * jsval) :=
  _ ← throw_if (is_nullish v) (Exn EError (js "null is not an object (evaluating 'a.name')"));
  name ← js_String (at_key v "name");
  Ok (name, at_key v "value").

(** [Object.fromEntries(list.map((a) => [a.name, a.value]))] *)
Definition arguments_of (input : jsval) : res (list (jsstr * jsval)) :=
  _ ← throw_if (is_nullish input) (Exn EError (js "null is not an object (evaluating 'input.arguments')"));
  match at_key input "arguments" with
  | JUndef | JNull => Ok []
  | JArr args => pairs ← map_res argument args; Ok (merge_fields [] pairs)
  | _ => Throw (Exn EError (js "list.map is not a function"))
  end.

(** The inputs of a status that is collecting. *)
Definition collect_inputs (status : jsval) : res (list jsval) :=
  let transition := at_key status "next_transition" in
  if is_text (at_key transition "kind") "collect" then
    match at_key (at_key transition "collect") "inputs" with
    | JUndef | JNull => Ok []
    | JArr xs => Ok xs
    | _ => Throw (Exn EError (js "inputs.map is not a function"))
    end
  else Ok [].

(** The arguments of the first input for a lens. *)
Definition collecting (status : jsval) (lens : jsstr) : res (option jsval) :=
  inputs ← collect_inputs status;
  args ← map_res arguments_of inputs;
  Ok (head (List.filter (fun a => is_text_of (at_key a "lens") lens) (map JObj args))).

(** [String(status)] of an exit status. *)
Definition exit_text (s : option Z) : jsstr := match s with Some z => dec z | None => js "null" end.

Definition is_object (v : jsval) : bool := match v with JObj _ | JArr _ => true | _ => false end.

(** The status of a lineage, which has to succeed. *)
Definition lineage_status (projectDir lineage : jsstr) : M jsval :=
  status ← reviewStatus ctx options (JObj [(js "projectDir", JStr projectDir); (js "lineage", JStr lineage)]);
  _ ← throw_when (negb (bool_decide (sd_status status = Some 0)) || negb (is_object (sd_json status)))
        (policy_error (js "gentle-ai review status failed (exit " ++ exit_text (sd_status status) ++ js "): " ++ take 300 (sd_stderr status)));
  mret (sd_json status).

Definition argument_number (v : jsval) : res jsnum :=
  match v with
  | JUndef => Ok NumNaN
  | JNull => Ok (NumInt 0)
  | JBool b => Ok (NumInt (if b then 1 else 0))
  | JNum n => Ok n
  | _ => s ← js_String v; Ok (number_of_text s)
  end.

Definition MAX_LENS_CONTEXT_BYTES : Z := 1024 * 1024.
Definition REVIEW_LENSES : list jsstr := map js ["review-risk"; "review-resilience"; "review-readability"; "review-reliability"]%string.
Definition BINDING_PREFIX : jsstr := js "GENTLE_AI_REVIEW_BINDING ".

(** The subject hash the reviewer's task is bound to. *)
Definition bound_subject (text : jsstr) : jsval :=
  match List.find (fun line => startsWith line BINDING_PREFIX) (split_on 10 text) with
  | Some line => match json_parse (drop (length BINDING_PREFIX) line) with Some v => at_key v "subject_hash" | None => JUndef end
  | None => JUndef
  end.

Definition provider_order (args : jsval) : res (option Z) :=
  n ← argument_number (at_key args "order");
  Ok (match n with NumInt z => Some z | _ => None end).

Definition providerReview (projectId projectDir : jsstr) (value : jsval) : M StoredReview :=
  r ← lift (exactKeys value ["lineage"; "lens"]%string (js "review"));
  lens ← lift (if one_of_texts REVIEW_LENSES (at_key r "lens") then Ok (as_string (at_key r "lens"))
               else Throw (invalid_ [js "review.lens must be one of "; join_with (js ", ") REVIEW_LENSES]));
  external ← isExternalLensLineage projectId (at_key r "lineage");
  let lineage := as_string (at_key r "lineage") in
  _ ← throw_when (negb external)
        (policy_error (js "lineage " ++ lineage ++ js " is not an external-lens lineage (start it with externalLenses)"));
  status ← lineage_status projectDir lineage;
  found ← lift (collecting status lens);
  match found with
  | None => throw (policy_error (js "lineage " ++ lineage ++ js " is not collecting a result for " ++ lens))
  | Some args =>
      order ← lift (provider_order args);
      _ ← throw_when (existsb (fun k => is_falsy (at_key args k)) ["target"; "subject-hash"; "expected-revision"; "repository-context"]%string
                      || bool_decide (order = None))
            (policy_error (js "gentle-ai collect input is missing provider values"));
      context ← reviewLensContext ctx options (JObj [(js "projectDir", JStr projectDir);
                  (js "repositoryContext", at_key args "repository-context"); (js "lineage", JStr lineage);
                  (js "target", at_key args "target"); (js "expectedRevision", at_key args "expected-revision"); (js "lens", JStr lens)]);
      _ ← throw_when (negb (bool_decide (rw_status context = Some 0)) || (js_length (rw_text context) =? 0))
            (policy_error (js "gentle-ai review lens-context failed (exit " ++ exit_text (rw_status context) ++ js ")"));
      _ ← throw_when (MAX_LENS_CONTEXT_BYTES <? byteLength (rw_text context)) (policy_error (js "lens-context exceeds 1 MiB"));
      _ ← throw_when (negb (is_text_of (bound_subject (rw_text context)) (as_string (at_key args "subject-hash"))))
            (policy_error (js "lens-context binding disagrees with the provider's subject hash"));
      mret (mkReview lineage lens (as_string (at_key args "target")) (default 0 order) (as_string (at_key args "subject-hash")) (rw_text context))
  end.

(** ** The relay of a stored response (advisor-relay.ts) *)
Definition BROKER_SUPPLIED : list string :=
  ["agent"; "input"; "inputJson"; "lens"; "order"; "target"; "lineage"; "expectedRevision"; "repositoryContext";
   "subjectHash"; "materialize"; "preflight"]%string.

Definition relayMarkersDir (projectId : jsstr) : M jsstr :=
  let dir := join [stateDir (cfg ctx); js "advisor"; projectId; js "relayed"] in
  _ ← call_unit (env ctx) (CMkdir dir);
  _ ← call_unit (env ctx) (CChmod dir 448);
  mret dir.

Definition succeeded (r : SddRuntimeResult) : bool := bool_decide (sd_status r = Some 0).

(** [(json?.cause ?? json?.message ?? result.stderr ?? empty).slice(0, 400)] *)
Definition cause (r : SddRuntimeResult) : res jsstr :=
  let json := sd_json r in
  match (if is_nullish (at_key json "cause") then
           if is_nullish (at_key json "message") then JStr (sd_stderr r) else at_key json "message"
         else at_key json "cause") with
  | JStr s => Ok (take 400 s)
  | JArr xs => js_String (JArr (take 400 xs))
  | _ => Throw (Exn EError (js "slice is not a function"))
  end.

Definition refused (r : SddRuntimeResult) (message : string) : M unit :=
  if succeeded r then mret tt else c ← lift (cause r); throw (policy_error (js message ++ c)).

(** The fresh values agree with those the response was asked for. *)
Definition fresh_matches (fresh : jsval) (review : StoredReview) : res bool :=
  order ← argument_number (at_key fresh "order");
  Ok (is_text_of (at_key fresh "target") (rv_target review) && match order with NumInt z => z =? rv_order review | _ => false end
      && is_text_of (at_key fresh "subject-hash") (rv_subjectHash review)).

Definition capture_payload (projectDir : jsstr) (review : StoredReview) (fresh result : jsval) : list (jsstr * jsval) :=
  [(js "projectDir", JStr projectDir); (js "lineage", JStr (rv_lineage review)); (js "lens", JStr (rv_lens review));
   (js "order", jint (rv_order review)); (js "target", JStr (rv_target review)); (js "subjectHash", JStr (rv_subjectHash review));
   (js "expectedRevision", at_key fresh "expected-revision"); (js "repositoryContext", at_key fresh "repository-context");
   (js "inputJson", JStr (json_text result))].

(** The exclusive marker of one lineage and lens. *)
Definition take_relay_marker (projectId id : jsstr) (review : StoredReview) : M jsstr :=
  dir ← relayMarkersDir projectId;
  let marker := join [dir; rv_lineage review ++ js "." ++ rv_lens review] in
  _ ← try_catch (call_unit (env ctx) (COpenExclusive marker 384))
        (fun e => if has_code e "EEXIST"
                  then throw (policy_error (rv_lens review ++ js " of " ++ rv_lineage review ++ js " was already relayed"))
                  else throw e);
  _ ← call_unit (env ctx) (CWriteFd marker (id ++ [10%N]));
  mret marker.

Definition release_marker (marker : jsstr) : M unit := best_effort (call_unit (env ctx) (CUnlink marker)).

(** Preflight, then the capture; any failure gives the marker back. *)
Definition relay_capture (marker id : jsstr) (capture : list (jsstr * jsval)) : M jsval :=
  try_catch
    (preflight ← reviewCaptureResult ctx options (JObj (capture ++ [(js "preflight", JBool true)]));
     _ ← refused preflight "gentle-ai preflight refused the advisory response: ";
     captured ← reviewCaptureResult ctx options (JObj capture);
     _ ← refused captured "gentle-ai capture refused the advisory response: ";
     mret (JObj (merge_fields (fields_of (sdd_json captured)) [(js "relayedAdvisoryResponse", JStr id)])))
    (fun e => _ ← release_marker marker; throw e).

Definition relayAdvisorResponse (projectDir : jsstr) (payload : jsval) : M jsval :=
  _ ← lift (for_each (fun key => throw_if (negb (is_undef (at_key payload key)))
        (policy_error (js "inputFromAdvisorResponse is exclusive: the broker supplies '" ++ js key ++ js "' itself"))) BROKER_SUPPLIED);
  projectId ← lift (resolve_project projectDir);
  store ← Effects.ask advisorStore;
  stored ← lift (readRelayableLensResponse (dir_of store projectId) (at_key payload "inputFromAdvisorResponse"));
  let '(id, review, result) := stored in
  external ← isExternalLensLineage projectId (JStr (rv_lineage review));
  _ ← throw_when (negb external) (policy_error (js "lineage " ++ rv_lineage review ++ js " is not an external-lens lineage"));
  status ← lineage_status projectDir (rv_lineage review);
  found ← lift (collecting status (rv_lens review));
  match found with
  | None => throw (policy_error (js "lineage " ++ rv_lineage review ++ js " is not collecting a result for " ++ rv_lens review))
  | Some fresh =>
      same ← lift (fresh_matches fresh review);
      _ ← throw_when (negb same)
            (policy_error (js "the advisory response is stale: the candidate or lens slot changed since it was requested"));
      marker ← take_relay_marker projectId id review;
      relay_capture marker id (capture_payload projectDir review fresh result)
  end.

(** ** The operations (sdd-service.ts) *)

(** The payload of a request, once its keys are checked and the session may call
    the operation. *)
Definition opened (operation : string) (req : BrokerRequestEnvelope) : M jsval :=
  payload ← lift (payloadOf req);
  _ ← authorize ctx (js operation) (req_sessionID req) orchestrator;
  mret payload.

Definition legacy (operation : string) (req : BrokerRequestEnvelope) : M jsval :=
  _ ← lift (assertLegacySddEnabled legacySddEnabled);
  opened operation req.

Definition as_sdd (m : M SddRuntimeResult) : M jsval := r ← m; mret (sdd_json r).
Definition as_raw (m : M SddRawResult) : M jsval := r ← m; mret (raw_json r).

(** [{ projectDir, ...fields }] *)
Definition with_dir (dir : jsstr) (fields : list (jsstr * jsval)) : jsval := JObj ((js "projectDir", JStr dir) :: fields).

Definition required_fields (payload : jsval) (keys : list string) : res (list (jsstr * jsval)) :=
  map_res (fun k => s ← requireString payload k; Ok (js k, JStr s)) keys.
Definition optional_fields (payload : jsval) (keys : list string) : res (list (jsstr * jsval)) :=
  map_res (fun k => v ← optionalString payload k; Ok (js k, v)) keys.

Definition buildSddStatusOp (req : BrokerRequestEnvelope) : M jsval :=
  payload ← legacy "sddStatus" req;
  dir ← lift (requireProjectDir payload);
  fields ← lift (optional_fields payload ["change"; "contract"]%string);
  as_sdd (sddStatus_ ctx options (with_dir dir fields)).

Definition buildSddContinueOp (req : BrokerRequestEnvelope) : M jsval :=
  payload ← legacy "sddContinue" req;
  dir ← lift (requireProjectDir payload);
  fields ← lift (optional_fields payload ["change"]%string);
  as_sdd (sddContinue_ ctx options (with_dir dir fields)).

Definition buildSddTaskResultOp (req : BrokerRequestEnvelope) : M jsval :=
  payload ← legacy "sddTaskResult" req;
  dir ← lift (requireProjectDir payload);
  fields ← lift (required_fields payload ["phase"; "input"]%string);
  as_sdd (taskResult ctx options (with_dir dir fields)).

Definition buildReviewAssessOp (req : BrokerRequestEnvelope) : M jsval :=
  payload ← opened "reviewAssess" req;
  dir ← lift (requireProjectDir payload);
  as_sdd (reviewAssess ctx options (with_dir dir (reviewOptional payload
    ["baseRef"; "committedOnly"; "untrackedScope"; "expectedUntrackedInventory"; "intendedUntracked"]%string))).

Definition buildReviewModeStatusOp (req : BrokerRequestEnvelope) : M jsval :=
  payload ← opened "reviewModeStatus" req;
  dir ← lift (requireProjectDir payload);
  as_raw (reviewModeStatus ctx options (with_dir dir [])).

Definition buildReviewStatusOp (req : BrokerRequestEnvelope) : M jsval :=
  payload ← opened "reviewStatus" req;
  dir ← lift (requireProjectDir payload);
  fields ← lift (optional_fields payload ["agent"; "lineage"; "repositoryContext"; "intendedUntrackedSelection"]%string);
  as_sdd (reviewStatus ctx options (with_dir dir (fields ++ reviewOptional payload ["baseRef"; "committedOnly"; "projection"]%string))).

Definition buildReviewLensContextOp (req : BrokerRequestEnvelope) : M jsval :=
  payload ← opened "reviewLensContext" req;
  dir ← lift (requireProjectDir payload);
  fields ← lift (required_fields payload ["repositoryContext"; "lineage"; "target"; "expectedRevision"; "lens"]%string);
  as_raw (reviewLensContext ctx options (with_dir dir fields)).

Definition buildSddAttemptGrantOp (req : BrokerRequestEnvelope) : M jsval :=
  payload ← legacy "sddAttemptGrant" req;
  dir ← lift (requireProjectDir payload);
  change ← lift (required_fields payload ["change"]%string);
  roots ← lift (requireStringArray payload "roots");
  rest ← lift (required_fields payload ["changeInstance"; "requestId"; "actor"; "reason"]%string);
  as_sdd (attemptGrant ctx options cwd
    (with_dir dir (change ++ reviewOptional payload ["expectedRevision"]%string ++ [(js "roots", roots)] ++ rest))).

Definition buildSddArchiveComposeOp (req : BrokerRequestEnvelope) : M jsval :=
  payload ← legacy "sddArchiveCompose" req;
  dir ← lift (requireProjectDir payload);
  fields ← lift (required_fields payload ["canonical"; "delta"; "output"]%string);
  as_sdd (archiveCompose ctx options (with_dir dir fields)).

(** ** The trace file of a review *)
Definition REVIEW_TRACE_REFUSAL : exn := invalid "reviewStart trace must resolve unambiguously outside the project root".

(** The nearest existing ancestor, resolved, with the missing parts put back;
    a part that exists but does not resolve is refused. *)
Fixpoint resolve_trace (fuel : nat) (candidate : jsstr) (missing : list jsstr) : M jsstr :=
  match fuel with
  | O => throw REVIEW_TRACE_REFUSAL
  | S fuel =>
      real ← try_catch (r ← call_text (env ctx) (CRealpath candidate); mret (Some r))
               (fun e => if has_code e "ENOENT" then mret None else throw REVIEW_TRACE_REFUSAL);
      match real with
      | Some r => mret (foldl resolve2 (resolve1 cwd r) missing)
      | None =>
          present ← try_catch (_ ← call_stats (env ctx) (CLstat candidate); mret true)
                      (fun e => if has_code e "ENOENT" then mret false else throw REVIEW_TRACE_REFUSAL);
          _ ← throw_when present REVIEW_TRACE_REFUSAL;
          let parent := dirname candidate in
          _ ← throw_when (str_eqb parent candidate) REVIEW_TRACE_REFUSAL;
          resolve_trace fuel parent (basename candidate :: missing)
      end
  end.

(** [relative] leads out of the root. *)
Definition leads_out (fromRoot : jsstr) : bool :=
  negb (str_eqb fromRoot []) && (isAbsolute fromRoot || str_eqb fromRoot DOTDOT || startsWith fromRoot (js "../")).

Definition assertTraceOutsideProject (projectDir : jsstr) (trace : jsval) : M unit :=
  match trace with
  | JStr t =>
      projectRoot ← catch_as (call_text (env ctx) (CRealpath projectDir)) REVIEW_TRACE_REFUSAL;
      let candidate := resolve2 projectRoot t in
      resolved ← resolve_trace (S (length candidate)) candidate [];
      throw_when (negb (leads_out (relative projectRoot resolved))) REVIEW_TRACE_REFUSAL
  | _ => throw REVIEW_TRACE_REFUSAL
  end.

Definition START_KEYS : list string :=
  ["agent"; "contract"; "target"; "projection"; "focus"; "untrackedScope"; "expectedUntrackedInventory"; "intendedUntracked";
   "baseRef"; "committedOnly"; "workspaceOverlay"; "lineage"; "consent"; "locale"; "policy"; "trace"]%string.

(** The lineage gentle-ai started with external lenses is recorded. *)
Definition mark_started (projectDir : jsstr) (started : SddRuntimeResult) : M unit :=
  match at_key (sd_json started) "lineage_id" with
  | JStr lineage =>
      projectId ← lift (resolve_project projectDir);
      markExternalLensLineage projectId (JStr lineage)
  | _ => mret tt
  end.

Definition buildReviewStartOp (req : BrokerRequestEnvelope) : M jsval :=
  payload ← opened "reviewStart" req;
  projectDir ← lift (requireProjectDir payload);
  let trace := at_key payload "trace" in
  _ ← (if is_undef trace then mret tt else assertTraceOutsideProject projectDir trace);
  let externalLenses := at_key payload "externalLenses" in
  _ ← throw_when (negb (is_undef externalLenses) && negb (is_true externalLenses))
        (invalid "externalLenses must be true when present");
  _ ← throw_when (is_true externalLenses && negb (is_undef (at_key payload "agent")))
        (policy_error (js "externalLenses starts a review without a runtime agent; do not pass agent"));
  started ← reviewStart ctx options (with_dir projectDir (reviewOptional payload START_KEYS));
  _ ← when (is_true externalLenses && succeeded started) (mark_started projectDir started);
  mret (sdd_json started).

Definition CAPTURE_KEYS : list string :=
  ["agent"; "input"; "inputJson"; "lens"; "order"; "target"; "lineage"; "expectedRevision"; "repositoryContext"; "subjectHash";
   "materialize"; "preflight"]%string.

Definition buildReviewCaptureResultOp (req : BrokerRequestEnvelope) : M jsval :=
  payload ← opened "reviewCaptureResult" req;
  projectDir ← lift (requireProjectDir payload);
  if negb (is_undef (at_key payload "inputFromAdvisorResponse")) then relayAdvisorResponse projectDir payload
  else
    _ ← guardExternalLensCapture projectDir payload;
    as_sdd (reviewCaptureResult ctx options (with_dir projectDir (reviewOptional payload CAPTURE_KEYS))).

(** The operations that only pass declared keys on. *)
Definition passthrough (operation : string) (keys : list string) (command : jsval -> M SddRuntimeResult)
    (req : BrokerRequestEnvelope) : M jsval :=
  payload ← opened operation req;
  dir ← lift (requireProjectDir payload);
  as_sdd (command (with_dir dir (reviewOptional payload keys))).

Definition buildReviewCaptureUnachievableOp : BrokerRequestEnvelope -> M jsval :=
  passthrough "reviewCaptureUnachievable"
    ["target"; "lineage"; "expectedRevision"; "repositoryContext"; "requestHash"; "reason"; "detail"; "withdraw"]%string
    (reviewCaptureUnachievable ctx options).

Definition buildReviewAcknowledgeApprovedOp : BrokerRequestEnvelope -> M jsval :=
  passthrough "reviewAcknowledgeApproved" ["lineage"; "target"; "expectedRevision"; "token"]%string
    (reviewAcknowledgeApproved ctx options).

Definition buildReviewCaptureCorrectionPlanOp : BrokerRequestEnvelope -> M jsval :=
  passthrough "reviewCaptureCorrectionPlan"
    ["target"; "lineage"; "expectedRevision"; "repositoryContext"; "requestHash"; "correctionLines"]%string
    (reviewCaptureCorrectionPlan ctx options).

Definition buildReviewCaptureRefuterOp : BrokerRequestEnvelope -> M jsval :=
  passthrough "reviewCaptureRefuter"
    ["agent"; "target"; "lineage"; "expectedRevision"; "repositoryContext"; "materialize"; "execute"]%string
    (reviewCaptureRefuter ctx options).

Definition buildReviewCaptureValidationOp : BrokerRequestEnvelope -> M jsval :=
  passthrough "reviewCaptureValidation"
    ["agent"; "target"; "lineage"; "expectedRevision"; "repositoryContext"; "requestHash"; "materialize"; "execute"]%string
    (reviewCaptureValidation ctx options).

Definition buildReviewValidateOp : BrokerRequestEnvelope -> M jsval :=
  passthrough "reviewValidate"
    ["contract"; "gate"; "baseRef"; "lineage"; "policy"; "prePrCiAttestation"; "releaseConfiguration"; "releaseEvidenceFreshness";
     "releaseGenerated"; "releaseProvenance"; "releasePublicationBoundary"]%string
    (reviewValidate ctx options).

Definition buildReviewRecoverOp : BrokerRequestEnvelope -> M jsval :=
  passthrough "reviewRecover"
    ["actor"; "disposition"; "expectedPredecessorRevision"; "predecessorLineage"; "successorLineage"; "reason";
     "maintainerAuthorization"; "baseRef"; "committedOnly"; "workspaceOverlay"; "releaseScope"; "projection"; "untrackedScope";
     "expectedUntrackedInventory"; "intendedUntracked"; "focus"; "policy"]%string
    (reviewRecover ctx options).

(** The handler of each operation of this part. *)
Definition sdd_operations : list (Operation * (BrokerRequestEnvelope -> M jsval)) :=
  [(Op.sddStatus, buildSddStatusOp); (Op.sddContinue, buildSddContinueOp); (Op.sddArchiveCompose, buildSddArchiveComposeOp);
   (Op.sddTaskResult, buildSddTaskResultOp); (Op.sddAttemptGrant, buildSddAttemptGrantOp); (Op.reviewAssess, buildReviewAssessOp);
   (Op.reviewModeStatus, buildReviewModeStatusOp); (Op.reviewStatus, buildReviewStatusOp);
   (Op.reviewLensContext, buildReviewLensContextOp); (Op.reviewStart, buildReviewStartOp);
   (Op.reviewCaptureResult, buildReviewCaptureResultOp); (Op.reviewCaptureUnachievable, buildReviewCaptureUnachievableOp);
   (Op.reviewAcknowledgeApproved, buildReviewAcknowledgeApprovedOp);
   (Op.reviewCaptureCorrectionPlan, buildReviewCaptureCorrectionPlanOp); (Op.reviewCaptureRefuter, buildReviewCaptureRefuterOp);
   (Op.reviewCaptureValidation, buildReviewCaptureValidationOp); (Op.reviewValidate, buildReviewValidateOp);
   (Op.reviewRecover, buildReviewRecoverOp)].
End service.
