(* ===== verification/ReviewRun.v ===== *)
(** * The store of review runs (broker/src/review-run.ts)

    A run is a private directory of artifacts with a record, [metadata.json].
    Every file is published through a private temporary file and a rename; both
    byte caps and the session's quota are checked before anything is written;
    an artifact is read through one descriptor opened without following links.

    A record is the JSON object of the file: the code reads it back unvalidated
    but for its owner, so it is kept as its fields.  [sha256_hex] is the digest
    of node:crypto; [tmpdir] and [cwd] are the process's. *)
From Stdlib Require Import QArith.
From stdpp Require Import sorting.
From S2P Require Import Prelude JsVal Json Types State Policy Path Validation HostArgs HostPaths Codec Envelope.
From S2P Require Import Queue Effects Worker ReviewArgv SddRuntime JsOps.
Open Scope Z_scope.

(** ** Names *)

(** [/^[0-9a-f]{32}$/], [/^(?:[0-9a-f]{40}|[0-9a-f]{64})$/] and
    [/^[A-Za-z0-9][A-Za-z0-9._-]{0,127}$/] *)
Definition REVIEW_RUN_ID_RE : jsstr -> bool := re_class is_hex_lower 32 32.
Definition REVIEW_RUN_OBJECT_ID_RE (s : jsstr) : bool := re_class is_hex_lower 40 40 s || re_class is_hex_lower 64 64 s.
Definition REVIEW_RUN_ARTIFACT_NAME_RE (s : jsstr) : bool :=
  match s with c :: s' => is_alnum c && re_class (fun c => is_alnum c || one_of "._-" c) 0 127 s' | [] => false end.
Definition REVIEW_RUN_METADATA_NAME : jsstr := js "metadata.json".
Definition REVIEW_RUN_RESERVED_NAMES : list jsstr := [REVIEW_RUN_METADATA_NAME].

Definition isReservedReviewRunName (name : jsstr) : bool :=
  existsb (fun reserved => str_eqb (toLowerCase reserved) (toLowerCase name)) REVIEW_RUN_RESERVED_NAMES.

Record ReviewRunCaps := mkCaps { cap_maxBytes : Z; cap_maxFileBytes : Z; cap_maxPerSession : Z }.
Definition DEFAULT_REVIEW_RUN_CAPS : ReviewRunCaps := mkCaps (8 * 1024 * 1024) (4 * 1024 * 1024) 8.

Record ReviewRunArtifact := mkArtifact { ra_name : jsstr; ra_bytes : Z; ra_sha256 : jsstr }.
Definition artifact_json (a : ReviewRunArtifact) : jsval :=
  JObj [(js "name", JStr (ra_name a)); (js "bytes", jint (ra_bytes a)); (js "sha256", JStr (ra_sha256 a))].

(** The record: its fields. *)
Definition ReviewRunRecord : Type := list (jsstr * jsval).
Definition rec (r : ReviewRunRecord) (k : string) : jsval := field (JObj r) (js k).

Record ReviewRunStoreOptions := mkStoreOptions {
  so_root : jsval; so_projectRoot : jsstr; so_deniedPrefixes : list jsstr; so_caps : ReviewRunCaps; so_readOnly : bool
}.

(** The fields of BrokerConfig that concern review runs. *)
Record ReviewConfig := mkReviewConfig {
  reviewRunRoot : jsval; reviewRunDeniedPrefixes : list jsstr;
  reviewRunMaxBytes : Z; reviewRunMaxFileBytes : Z; reviewRunMaxPerSession : Z;
  reviewHelperPath : option jsstr; reviewHelperSha256 : option jsstr; reviewHelperInterpreter : option jsstr
}.

Definition reviewRunStoreOptions (c : ReviewConfig) (projectRoot : jsstr) (readOnly : bool) : ReviewRunStoreOptions :=
  mkStoreOptions (reviewRunRoot c) projectRoot (reviewRunDeniedPrefixes c)
    (mkCaps (reviewRunMaxBytes c) (reviewRunMaxFileBytes c) (reviewRunMaxPerSession c)) readOnly.

(** ** Errors *)
Definition ReviewRunError (code : string) (parts : list jsstr) : exn := Exn (ECoded (js code)) (concat parts).
Definition ReviewRunIdError := ReviewRunError "review_run_id".
Definition ReviewRunStoreReadOnlyError : exn := ReviewRunError "review_run_store_read_only" [js "review run store is read-only"].
Definition ReviewRunSessionError := ReviewRunError "review_run_session".
Definition ReviewRunEvidenceError := ReviewRunError "review_run_evidence".
Definition ReviewRunStoreInProjectError := ReviewRunError "review_run_store_in_project".
Definition ReviewRunStoreInTmpError := ReviewRunError "review_run_store_in_tmp".
Definition ReviewRunStoreDeniedPrefixError := ReviewRunError "review_run_store_denied_prefix".
Definition ReviewRunFileCapError := ReviewRunError "review_run_file_cap".
Definition ReviewRunCapError := ReviewRunError "review_run_byte_cap".
Definition ReviewRunQuotaError := ReviewRunError "review_run_quota".

(** Hostile input in a message: its type, or at most 64 characters quoted. *)
Definition show (value : jsval) : jsstr :=
  match value with
  | JStr s => json_string (take 64 s) ++ (if 64 <? js_length s then js "..." else [])
  | JNull => js "null"
  | v => js_typeof v
  end.

(** Containment of canonical paths. *)
Definition contains (parent child : jsstr) : bool :=
  str_eqb child parent || startsWith child (if endsWith parent [SLASH] then parent else parent ++ [SLASH]).

Definition assertReviewRunId (runId : jsval) : res jsstr :=
  match runId with
  | JStr s => if REVIEW_RUN_ID_RE s then Ok s
              else Throw (ReviewRunIdError [js "review run id must be exactly 32 lowercase hex characters (got "; show runId; js ")"])
  | _ => Throw (ReviewRunIdError [js "review run id must be exactly 32 lowercase hex characters (got "; show runId; js ")"])
  end.

Definition name_refused (name : jsval) : exn :=
  ReviewRunError "review_run_artifact_name" [js "review run artifact name must be one bounded [A-Za-z0-9._-] segment (got "; show name; js ")"].

Definition assertReviewRunArtifactNameGrammar (name : jsval) : res jsstr :=
  match name with
  | JStr s => if REVIEW_RUN_ARTIFACT_NAME_RE s then Ok s else Throw (name_refused name)
  | _ => Throw (name_refused name)
  end.

Definition assertReviewRunArtifactName (name : jsstr) : res unit :=
  s ← assertReviewRunArtifactNameGrammar (JStr name);
  throw_if (isReservedReviewRunName s)
    (ReviewRunError "review_run_artifact_name_reserved"
       [js "review run artifact name "; show (JStr name); js " is reserved for the run record (reserved name: ";
        show (JStr REVIEW_RUN_METADATA_NAME); js ")"]).

Definition normalizeObjectId (value : option jsstr) (name : string) : res jsval :=
  match value with
  | None => Ok JNull
  | Some v => if REVIEW_RUN_OBJECT_ID_RE v then Ok (JStr v)
              else Throw (ReviewRunEvidenceError [js "review run "; js name;
                            js " must be a full 40- or 64-character lowercase hex object id (got "; show (JStr v); js ")"])
  end.

(** [artifacts.reduce((total, artifact) => total + artifact.bytes, 0)] *)
Fixpoint sum_bytes (total : jsval) (xs : list jsval) : res jsval :=
  match xs with
  | [] => Ok total
  | x :: xs' => b ← member x "bytes"; t ← js_plus total b; sum_bytes t xs'
  end.

Definition artifacts_of (r : ReviewRunRecord) : res (list jsval) :=
  match rec r "artifacts" with
  | JArr xs => Ok xs
  | v => if is_nullish v then Throw (type_error "Cannot read properties of undefined") else Throw (type_error "not a function")
  end.

Definition record_bytes (r : ReviewRunRecord) : res jsval := xs ← artifacts_of r; sum_bytes (jint 0) xs.

(** [record.artifacts.push(artifact)] *)
Definition push_artifact (r : ReviewRunRecord) (a : ReviewRunArtifact) : ReviewRunRecord :=
  match rec r "artifacts" with JArr xs => set_key (js "artifacts") (JArr (xs ++ [artifact_json a])) r | _ => r end.

(** Both byte caps, and the total that an artifact would bring the run to. *)
Definition assertArtifactCaps (caps : ReviewRunCaps) (before : jsval) (name : jsstr) (bytes : Z) : res jsval :=
  _ ← throw_if (cap_maxFileBytes caps <? bytes)
        (ReviewRunFileCapError [js "review run artifact '"; name; js "' is "; dec bytes; js " bytes, over the per-file cap of "; dec (cap_maxFileBytes caps)]);
  total ← js_plus before (jint bytes);
  over ← js_greater total (cap_maxBytes caps);
  shown ← js_String total;
  _ ← throw_if over
        (ReviewRunCapError [js "review run total "; shown; js " bytes (artifact '"; name; js "' is "; dec bytes;
                            js ") is over the per-run cap of "; dec (cap_maxBytes caps)]);
  Ok total.

Definition record_text (r : ReviewRunRecord) : list N := utf8_encode (json_indented (JObj r) ++ [10%N]).

Section store.
Context (ctx : OpContext) (cwd tmpdir : jsstr) (sha256_hex : list N -> jsstr).

(** ** Paths *)

(** [canonicalForContainment]: the nearest existing ancestor, resolved, and the
    rest of the path; every step up shortens the path. *)
Fixpoint canonical_from (fuel : nat) (path current : jsstr) (tail : list jsstr) : M jsstr :=
  match fuel with
  | O => mret (resolve1 cwd path)
  | S fuel =>
      real ← try_catch (r ← call_text (env ctx) (CRealpath current); mret (Some r)) (fun _ => mret None);
      match real with
      | Some r => mret (match tail with [] => r | _ => join (r :: tail) end)
      | None =>
          let parent := dirname current in
          if str_eqb parent current then mret (resolve1 cwd path)
          else canonical_from fuel path parent (basename current :: tail)
      end
  end.

Definition canonicalForContainment (path : jsstr) : M jsstr :=
  let current := resolve1 cwd path in canonical_from (S (length current)) path current [].

Definition ensureOwnedDir (path : jsstr) (mode : Z) : M unit :=
  _ ← call_unit (env ctx) (CMkdir path);
  call_unit (env ctx) (CChmod path mode).

Definition fsyncDirectory (dir : jsstr) : M unit :=
  _ ← call_unit (env ctx) (COpenRead dir);
  try_finally (call_unit (env ctx) (CFsyncFd dir)) (call_unit (env ctx) (CCloseFd dir)).

(** ** Publication *)

(** A temporary file of the same directory, created exclusively with mode 0600,
    written, synced and renamed over the name; the file is removed when the
    rename fails, and only then. *)
Definition publishValidatedArtifactAtomic (dir name : jsstr) (buf : list N) : M ReviewRunArtifact :=
  random ← call_text (env ctx) (CRandomHex 8);
  let tempPath := join [dir; js "." ++ name ++ js "." ++ random ++ js ".tmp"] in
  _ ← call_unit (env ctx) (COpenExclusive tempPath 384);
  _ ← try_finally
        (_ ← call_unit (env ctx) (CFchmod tempPath 384);
         _ ← call_unit (env ctx) (CWriteBytes tempPath buf);
         call_unit (env ctx) (CFsyncFd tempPath))
        (call_unit (env ctx) (CCloseFd tempPath));
  _ ← try_catch (call_unit (env ctx) (CRename tempPath (join [dir; name])))
        (fun e => _ ← best_effort (call_unit (env ctx) (CUnlink tempPath)); throw e);
  _ ← fsyncDirectory dir;
  mret (mkArtifact name (Z.of_nat (length buf)) (sha256_hex buf)).

Definition publishArtifactAtomic (dir name : jsstr) (buf : list N) : M ReviewRunArtifact :=
  _ ← lift (assertReviewRunArtifactName name);
  publishValidatedArtifactAtomic dir name buf.

Definition publish_record (runDir : jsstr) (record : ReviewRunRecord) : M unit :=
  _ ← publishValidatedArtifactAtomic runDir REVIEW_RUN_METADATA_NAME (record_text record);
  mret tt.

(** ** ReviewRunWriter

    A method returns the writer as it leaves it, also when it throws: the caller
    keeps the object. *)
Record ReviewRunWriter := mkWriter {
  rw_runDir : jsstr; rw_record : ReviewRunRecord; rw_caps : ReviewRunCaps; rw_totalBytes : jsval
}.

Definition Writer A : Type := M (res A * ReviewRunWriter).
Definition with_record (w : ReviewRunWriter) (r : ReviewRunRecord) : ReviewRunWriter :=
  mkWriter (rw_runDir w) r (rw_caps w) (rw_totalBytes w).

Definition persist (w : ReviewRunWriter) (state : string) : Writer unit :=
  let w := with_record w (set_key (js "state") (JStr (js state)) (rw_record w)) in
  r ← attempt (publish_record (rw_runDir w) (rw_record w));
  mret (r, w).

(** [new ReviewRunWriter(runDir, record, caps)] *)
Definition newReviewRunWriter (runDir : jsstr) (record : ReviewRunRecord) (caps : ReviewRunCaps) : M ReviewRunWriter :=
  total ← lift (record_bytes record);
  _ ← ensureOwnedDir runDir 448;
  p ← persist (mkWriter runDir record caps total) "publishing";
  _ ← lift (fst p);
  mret (snd p).

Definition run_state_refused (runId state : jsval) : res unit :=
  i ← js_String runId;
  s ← js_String state;
  Throw (ReviewRunError "review_run_state" [js "review run "; i; js " is "; s; js "; refusing a new artifact"]).

Definition writer_addArtifact (w : ReviewRunWriter) (name : jsstr) (buf : list N) : Writer ReviewRunArtifact :=
  let bytes := Z.of_nat (length buf) in
  let checked :=
    _ ← assertReviewRunArtifactName name;
    _ ← (if is_text (rec (rw_record w) "state") "publishing" then Ok tt
         else run_state_refused (rec (rw_record w) "runId") (rec (rw_record w) "state"));
    assertArtifactCaps (rw_caps w) (rw_totalBytes w) name bytes in
  match checked with
  | Throw e => mret (Throw e, w)
  | Ok total =>
      published ← attempt (publishArtifactAtomic (rw_runDir w) name buf);
      match published with
      | Throw e => mret (Throw e, w)
      | Ok artifact =>
          p ← persist (mkWriter (rw_runDir w) (push_artifact (rw_record w) artifact) (rw_caps w) total) "publishing";
          mret (match fst p with Ok _ => Ok artifact | Throw e => Throw e end, snd p)
      end
  end.

Definition writer_publish (w : ReviewRunWriter) : Writer unit := persist w "published".
Definition writer_fail (w : ReviewRunWriter) : Writer unit := persist w "failed".

(** ** Reading an artifact *)
Record ReadReviewRunArtifact := mkRead { rd_name : jsstr; rd_bytes : Z; rd_sha256 : jsstr; rd_data : list N }.

Definition artifact_open_error (name : jsstr) (e : exn) : exn :=
  let shown := show (JStr name) in
  if has_code e "EINVAL" then
    ReviewRunError "review_run_artifact_no_follow_unavailable" [js "review run artifact "; shown; js " cannot be opened safely: no-follow capability is unusable"]
  else if has_code e "ELOOP" then
    ReviewRunError "review_run_artifact_symlink" [js "review run artifact "; shown; js " is a symlink; refusing to follow it"]
  else if has_code e "ENOENT" then
    ReviewRunError "review_run_artifact_not_found" [js "review run artifact "; shown; js " does not exist in the run directory"]
  else ReviewRunError "review_run_artifact_read" [js "review run artifact "; shown; js " could not be opened"].

Definition artifact_over_cap (name : jsstr) (verb : string) (bytes max : Z) : exn :=
  ReviewRunError "review_run_artifact_cap"
    [js "review run artifact "; show (JStr name); js " "; js verb; js " "; dec bytes; js " bytes, over the read cap of "; dec max].

Definition readRunArtifact (runDir : jsstr) (name : jsval) (maxFileBytes : Z) (allowRecord : bool) : M ReadReviewRunArtifact :=
  n ← lift (assertReviewRunArtifactNameGrammar name);
  _ ← throw_when (isReservedReviewRunName n && negb (allowRecord && str_eqb n REVIEW_RUN_METADATA_NAME))
        (ReviewRunError "review_run_artifact_name_reserved"
           [js "review run artifact name "; show name; js " is reserved for the run record; pass allowRecord to read the record explicitly"]);
  runDirCanonical ← canonicalForContainment runDir;
  let target := join [runDir; n] in
  targetCanonical ← canonicalForContainment target;
  _ ← throw_when (negb (contains runDirCanonical targetCanonical))
        (ReviewRunError "review_run_artifact_escape" [js "review run artifact "; show name; js " resolves outside its run directory"]);
  _ ← try_catch (call_unit (env ctx) (COpenNoFollow target)) (fun e => throw (artifact_open_error n e));
  try_finally
    (stat ← call_stats (env ctx) (CFdStats target);
     _ ← throw_when (negb (isFile stat))
           (ReviewRunError "review_run_artifact_not_regular" [js "review run artifact "; show name; js " is not a regular file"]);
     size ← call_int (env ctx) (CFdSize target);
     _ ← throw_when (maxFileBytes <? size) (artifact_over_cap n "is" size maxFileBytes);
     data ← call_text (env ctx) (CReadFd target None);
     let bytes := Z.of_nat (length data) in
     _ ← throw_when (maxFileBytes <? bytes) (artifact_over_cap n "returned" bytes maxFileBytes);
     mret (mkRead n bytes (sha256_hex data) data))
    (call_unit (env ctx) (CCloseFd target)).

(** ** ReviewRunStore *)
Definition resolveReviewRunRoot (opts : ReviewRunStoreOptions) : M jsstr :=
  let refused := ReviewRunError "review_run_root" [js "review run store root must be a non-empty absolute path (got "; show (so_root opts); js ")"] in
  given ← lift (match so_root opts with JStr s => if isAbsolute s then Ok s else Throw refused | _ => Throw refused end);
  root ← canonicalForContainment given;
  project ← canonicalForContainment (so_projectRoot opts);
  tmp ← canonicalForContainment tmpdir;
  _ ← throw_when (contains project root)
        (ReviewRunStoreInProjectError [js "review run store root is inside the project root: "; root; js " (project "; project; js ")"]);
  _ ← throw_when (contains tmp root)
        (ReviewRunStoreInTmpError [js "review run store root is inside $TMPDIR: "; root; js " (tmp "; tmp; js ")"]);
  _ ← for_eachM (fun prefix =>
        denied ← canonicalForContainment prefix;
        throw_when (contains denied root)
          (ReviewRunStoreDeniedPrefixError [js "review run store root is under a denied prefix: "; root; js " (prefix "; denied; js ")"]))
        (so_deniedPrefixes opts);
  mret root.

Record ReviewRunStore := mkStore { rs_root : jsstr; rs_projectRoot : jsstr; rs_caps : ReviewRunCaps; rs_isReadOnly : bool }.

Definition newReviewRunStore (opts : ReviewRunStoreOptions) : M ReviewRunStore :=
  projectRoot ← canonicalForContainment (so_projectRoot opts);
  root ← resolveReviewRunRoot opts;
  _ ← when (negb (so_readOnly opts)) (ensureOwnedDir root 448);
  mret (mkStore root projectRoot (so_caps opts) (so_readOnly opts)).

Definition sessionDir (s : ReviewRunStore) (sessionID : jsstr) : res jsstr :=
  if SESSION_ID_RE sessionID then Ok (join [rs_root s; sessionID])
  else Throw (ReviewRunSessionError [js "invalid review run session id (got "; show (JStr sessionID); js ")"]).

Definition runDir_ (s : ReviewRunStore) (sessionID : jsstr) (runId : jsval) : res jsstr :=
  session ← sessionDir s sessionID;
  id ← assertReviewRunId runId;
  Ok (join [session; id]).

Definition assertWritable (s : ReviewRunStore) : res unit := throw_if (rs_isReadOnly s) ReviewRunStoreReadOnlyError.

Definition record_invalid (m : string) : exn := ReviewRunError "review_run_record_invalid" [js m].

Definition readRecord (s : ReviewRunStore) (sessionID : jsstr) (runId : jsval) : M ReviewRunRecord :=
  dir ← lift (runDir_ s sessionID runId);
  raw ← readRunArtifact dir (JStr REVIEW_RUN_METADATA_NAME) (cap_maxFileBytes (rs_caps s)) true;
  lift (match json_parse (utf8_lossy (rd_data raw)) with
        | None => Throw (record_invalid "review run record is not valid JSON")
        | Some (JObj fs) =>
            if is_text_of (rec fs "runId") (as_string runId) && is_text_of (rec fs "sessionID") sessionID
               && match rec fs "projectRoot" with JStr _ => true | _ => false end
            then Ok fs
            else Throw (record_invalid "review run record is missing its owner or canonical project identity")
        | Some _ => Throw (record_invalid "review run record is missing its owner or canonical project identity")
        end).

Definition addArtifact (s : ReviewRunStore) (sessionID : jsstr) (runId : jsval) (name : jsstr) (buf : list N) : M ReviewRunArtifact :=
  _ ← lift (assertWritable s);
  record ← readRecord s sessionID runId;
  dir ← lift (runDir_ s sessionID runId);
  if is_text (rec record "state") "publishing" then
    w ← newReviewRunWriter dir record (rs_caps s);
    p ← writer_addArtifact w name buf;
    lift (fst p)
  else
    _ ← lift (if is_text (rec record "state") "published" then Ok tt else run_state_refused runId (rec record "state"));
    _ ← lift (assertReviewRunArtifactName name);
    before ← lift (throw_if (cap_maxFileBytes (rs_caps s) <? Z.of_nat (length buf))
                (ReviewRunFileCapError [js "review run artifact '"; name; js "' is "; dec (Z.of_nat (length buf)); js " bytes, over the per-file cap of "; dec (cap_maxFileBytes (rs_caps s))]);;
              record_bytes record);
    _ ← lift (assertArtifactCaps (rs_caps s) before name (Z.of_nat (length buf)));
    artifact ← publishArtifactAtomic dir name buf;
    _ ← publish_record dir (push_artifact record artifact);
    mret artifact.

Definition recordFinalizeProvenance (s : ReviewRunStore) (sessionID : jsstr) (runId : jsval) (provenance : jsval) : M unit :=
  _ ← lift (assertWritable s);
  record ← readRecord s sessionID runId;
  dir ← lift (runDir_ s sessionID runId);
  publish_record dir (set_key (js "finalizeProvenance") provenance record).

Definition countRunsForSession (s : ReviewRunStore) (sessionID : jsstr) : M Z :=
  dir ← lift (sessionDir s sessionID);
  present ← call_bool (env ctx) (CExists dir);
  if negb present then mret 0 else
  entries ← call_names (env ctx) (CListDirs dir);
  mret (Z.of_nat (length (List.filter REVIEW_RUN_ID_RE entries))).

Definition assertRunAdmission (s : ReviewRunStore) (sessionID : jsstr) : M unit :=
  existing ← countRunsForSession s sessionID;
  throw_when (cap_maxPerSession (rs_caps s) <=? existing)
    (ReviewRunQuotaError [js "session "; sessionID; js " already has "; dec existing; js " review runs, at the per-session quota of ";
                          dec (cap_maxPerSession (rs_caps s))]).

Definition new_record (runId sessionID createdAt : jsstr) (base head : jsval) (projectRoot : jsstr) : ReviewRunRecord :=
  [(js "runId", JStr runId); (js "sessionID", JStr sessionID); (js "createdAt", JStr createdAt); (js "state", JStr (js "publishing"));
   (js "baseObjectId", base); (js "headObjectId", head); (js "artifacts", JArr []); (js "projectRoot", JStr projectRoot)].

Definition createRun (s : ReviewRunStore) (sessionID : jsstr) (baseObjectId headObjectId : option jsstr) : M ReviewRunWriter :=
  _ ← lift (assertWritable s);
  _ ← assertRunAdmission s sessionID;
  base ← lift (normalizeObjectId baseObjectId "baseObjectId");
  head ← lift (normalizeObjectId headObjectId "headObjectId");
  runId ← call_text (env ctx) (CRandomHex 16);
  _ ← lift (assertReviewRunId (JStr runId));
  session ← lift (sessionDir s sessionID);
  _ ← ensureOwnedDir session 448;
  dir ← lift (runDir_ s sessionID (JStr runId));
  createdAt ← ask w_now;
  newReviewRunWriter dir (new_record runId sessionID createdAt base head (rs_projectRoot s)) (rs_caps s).

Definition assertRunOwnership (record : ReviewRunRecord) (sessionID : jsstr) : res unit :=
  shown ← js_String (rec record "runId");
  throw_if (negb (is_text_of (rec record "sessionID") sessionID))
    (ReviewRunError "review_run_ownership" [js "review run "; shown; js " is not owned by the requesting session"]).

(** ** The pinned helper *)
Record PinnedReviewHelper := mkPinned { ph_path : jsstr; ph_sha256 : jsstr; ph_bytes : Z }.

(** What [lstat] says the path is; asked again as far as the type of a
    directory is concerned. *)
Definition describeFileType (path : jsstr) (stat : Stats) : M jsstr :=
  if isSymbolicLink stat then mret (js "symlink") else
  directory ← call_bool (env ctx) (CIsDirectory path);
  mret (js (if negb directory then "non-regular file" else "directory")).

Definition errno_of (e : exn) : option jsstr := match exn_class e with ECoded code => Some code | _ => None end.

Definition resolveReviewHelperInterpreter (configured : option jsstr) : M jsstr :=
  given ← lift (match configured with
                | None => Throw (ReviewRunError "review_helper_interpreter_unconfigured" [js "review helper interpreter is not configured"])
                | Some c => if isAbsolute c then Ok c
                            else Throw (ReviewRunError "review_helper_interpreter_unconfigured" [js "review helper interpreter must be a non-empty absolute path"])
                end);
  let path := resolve1 cwd given in
  stat ← try_catch (call_stats (env ctx) (CLstat path)) (fun e =>
           throw (if has_code e "ENOENT"
                  then ReviewRunError "review_helper_interpreter_missing" [js "review helper interpreter does not exist: "; path]
                  else ReviewRunError "review_helper_interpreter_unavailable" [js "review helper interpreter could not be inspected: "; path]));
  if negb (isFile stat) then
    kind ← describeFileType path stat;
    throw (ReviewRunError "review_helper_interpreter_not_regular" [js "review helper interpreter is not a regular file: "; path; js " ("; kind; js ")"])
  else
    mode ← call_int (env ctx) (CFileMode path);
    _ ← throw_when (Z.land mode 73 =? 0)
          (ReviewRunError "review_helper_interpreter_not_executable" [js "review helper interpreter is not executable: "; path]);
    mret path.

Definition helper_lstat_error (path : jsstr) (e : exn) : exn :=
  if has_code e "ENOENT" then ReviewRunError "review_helper_missing" [js "review helper does not exist: "; path]
  else if has_code e "EACCES" || has_code e "EPERM" then
    ReviewRunError "review_helper_unreadable"
      [js "review helper exists but is not readable: "; path; js " ("; default [] (errno_of e); js ")"]
  else if has_code e "ENOTDIR" then
    ReviewRunError "review_helper_path_component_not_directory"
      [js "review helper path has a component that is not a directory: "; path]
  else ReviewRunError "review_helper_lstat_unexpected"
         [js "review helper lstat failed unexpectedly for "; path; js " (code: "; default (js "missing") (errno_of e); js ")"].

Definition assertPinnedReviewHelper (helperPath helperSha256 : option jsstr) : M PinnedReviewHelper :=
  pin ← lift (match helperPath, helperSha256 with
              | Some p, Some h => Ok (p, h)
              | _, _ => Throw (ReviewRunError "review_helper_unconfigured"
                                 [js "review helper is not configured: both reviewHelperPath and reviewHelperSha256 must be set"])
              end);
  let resolved := resolve1 cwd (fst pin) in
  stat ← try_catch (call_stats (env ctx) (CLstat resolved)) (fun e => throw (helper_lstat_error resolved e));
  if negb (isFile stat) then
    kind ← describeFileType resolved stat;
    throw (ReviewRunError "review_helper_not_regular" [js "review helper is not a regular file: "; resolved; js " ("; kind; js ")"])
  else
    bytes ← call_text (env ctx) (CReadBytes resolved);
    let observed := sha256_hex bytes in
    _ ← throw_when (negb (str_eqb observed (snd pin)))
          (ReviewRunError "review_helper_digest_mismatch"
             [js "review helper digest mismatch for "; resolved; js ": expected "; snd pin; js ", observed "; observed]);
    mret (mkPinned resolved observed (Z.of_nat (length bytes))).

(** ** Retention *)
Record DiscoveredRun := mkRun {
  dr_sessionID : jsstr; dr_runId : jsstr; dr_runDir : jsstr; dr_mtimeMs : Z; dr_record : option ReviewRunRecord
}.

Definition readRunRecord (runDir : jsstr) : M (option ReviewRunRecord) :=
  try_catch
    (raw ← call_text (env ctx) (CReadFile (join [runDir; REVIEW_RUN_METADATA_NAME]));
     match json_parse raw with
     | Some (JObj fs) => mret (match rec fs "state" with JStr _ => Some fs | _ => None end)
     | Some _ => mret None
     | None => throw (Exn EError (js "Unexpected token in JSON"))
     end)
    (fun _ => mret None).

(** The run of one directory entry, unless it is gone. *)
Definition discover_run (session sessionDir name : jsstr) : M (list DiscoveredRun) :=
  let runDir := join [sessionDir; name] in
  mtime ← try_catch (t ← call_int (env ctx) (CModifiedAt runDir); mret (Some t)) (fun _ => mret None);
  match mtime with
  | None => mret []
  | Some mtimeMs =>
      record ← readRunRecord runDir;
      mret [mkRun session name runDir mtimeMs record]
  end.

Definition discoverRuns (root : jsstr) : M (list DiscoveredRun) :=
  present ← call_bool (env ctx) (CExists root);
  if negb present then mret [] else
  sessions ← call_names (env ctx) (CListDirs root);
  runs ← mapM_ (fun session =>
           let sessionDir := join [root; session] in
           names ← call_names (env ctx) (CListDirs sessionDir);
           found ← mapM_ (discover_run session sessionDir) (List.filter REVIEW_RUN_ID_RE names);
           mret (concat found)) sessions;
  mret (concat runs).

Definition isOpenRun (run : DiscoveredRun) : bool :=
  match dr_record run with Some r => is_text (rec r "state") "publishing" | None => false end.

Inductive prune_reason := expired | over_bound.
Record PrunedReviewRun := mkPrunedRun { pr_sessionID : jsstr; pr_runId : jsstr; pr_reason : prune_reason; pr_state : jsval }.
Record PruneReviewRunsSummary := mkPruned { ps_pruned : list PrunedReviewRun; ps_keptOpen : list (jsstr * jsstr); ps_totalBefore : Z }.

(** The variables of pruneReviewRuns. *)
Record Pruning := mkPruning {
  pn_pruned : list PrunedReviewRun; pn_keptOpen : list (jsstr * jsstr); pn_keptOpenDirs : list jsstr; pn_removed : list jsstr
}.

Definition noteOpen (run : DiscoveredRun) (p : Pruning) : Pruning :=
  if mem (dr_runDir run) (pn_keptOpenDirs p) then p
  else mkPruning (pn_pruned p) (pn_keptOpen p ++ [(dr_sessionID run, dr_runId run)]) (pn_keptOpenDirs p ++ [dr_runDir run]) (pn_removed p).

Definition remove_run (reason : prune_reason) (run : DiscoveredRun) (p : Pruning) : M Pruning :=
  _ ← call_unit (env ctx) (CRm (dr_runDir run));
  let state := match dr_record run with Some r => rec r "state" | None => JNull end in
  mret (mkPruning (pn_pruned p ++ [mkPrunedRun (dr_sessionID run) (dr_runId run) reason state])
                  (pn_keptOpen p) (pn_keptOpenDirs p) (pn_removed p ++ [dr_runDir run])).

(** Pass 1: expiry. *)
Fixpoint prune_expired (now ttlMs : Z) (runs : list DiscoveredRun) (p : Pruning) : M Pruning :=
  match runs with
  | [] => mret p
  | run :: rest =>
      if now - dr_mtimeMs run <=? ttlMs then prune_expired now ttlMs rest p
      else if isOpenRun run then prune_expired now ttlMs rest (noteOpen run p)
      else p ← remove_run expired run p; prune_expired now ttlMs rest p
  end.

(** Pass 2: the oldest runs over the bound. *)
Fixpoint prune_excess (excess : Z) (runs : list DiscoveredRun) (p : Pruning) : M Pruning :=
  match runs with
  | [] => mret p
  | run :: rest =>
      if excess <=? 0 then mret p
      else if isOpenRun run then prune_excess excess rest (noteOpen run p)
      else p ← remove_run over_bound run p; prune_excess (excess - 1) rest p
  end.

Definition older (a b : DiscoveredRun) : Prop := dr_mtimeMs a <= dr_mtimeMs b.
#[export] Instance older_dec : RelDecision older := fun a b => base.decide (dr_mtimeMs a <= dr_mtimeMs b).

Definition pruneReviewRuns (root : jsstr) (ttlMs maxRuns : Z) (now : option Z) : M PruneReviewRunsSummary :=
  now ← match now with Some t => mret t | None => call_int (env ctx) CNow end;
  runs ← discoverRuns root;
  p ← prune_expired now ttlMs runs (mkPruning [] [] [] []);
  let remaining := merge_sort older (List.filter (fun run => negb (mem (dr_runDir run) (pn_removed p))) runs) in
  p ← prune_excess (Z.of_nat (length remaining) - maxRuns) remaining p;
  mret (mkPruned (pn_pruned p) (pn_keptOpen p) (Z.of_nat (length runs))).

(** A run interrupted while it was written. *)
Definition interrupted (now ttlMs : Z) (run : DiscoveredRun) : bool := isOpenRun run && negb (now - dr_mtimeMs run <=? ttlMs).

Definition recover_run (run : DiscoveredRun) : M (jsstr * jsstr) :=
  let record := set_key (js "failureReason") (JStr (js "interrupted")) (default [] (dr_record run)) in
  w ← newReviewRunWriter (dr_runDir run) record DEFAULT_REVIEW_RUN_CAPS;
  p ← writer_fail w;
  _ ← lift (fst p);
  mret (dr_sessionID run, dr_runId run).

Definition recoverInterruptedRuns (root : jsstr) (ttlMs : Z) (now : option Z) : M (list (jsstr * jsstr)) :=
  now ← match now with Some t => mret t | None => call_int (env ctx) CNow end;
  runs ← discoverRuns root;
  mapM_ recover_run (List.filter (interrupted now ttlMs) runs).
End store.
