(* ===== verification/ReviewMaterialize.v ===== *)
(** * Materialised review ranges (broker/src/review-materialize.ts)

    A range of two commits becomes a run: the whole diff, and slices of whole
    files within a line and a byte budget.  A range with a changed path that a
    session may not read is refused; a slice is served only to the session of
    its run, and only when its bytes are those recorded. *)
From Stdlib Require Import QArith.
From S2P Require Import Prelude JsVal Json Types State Policy Path Validation HostArgs HostPaths Codec Envelope.
From S2P Require Import Queue Effects Worker ReviewArgv SddRuntime JsOps ReviewRun.
Open Scope Z_scope.

Definition REVIEW_SLICE_MAX_LINES : Z := 1500.
Definition REVIEW_SLICE_MAX_BYTES : Z := 45 * 1024.
Definition REVIEW_SLICE_READ_MAX_BYTES : Z := 64 * 1024.
Definition REVIEW_DIFF_READ_MAX_BYTES : Z := 256 * 1024.
Definition OBJECT_ID_RE : jsstr -> bool := REVIEW_RUN_OBJECT_ID_RE.
Definition ReviewMaterializeError (code : string) (parts : list jsstr) : exn := ReviewRunError code parts.

(** ** Protected paths *)
Definition last_segment (path : jsstr) : jsstr := List.last (split_on SLASH path) [].

(** The seven expressions, on the segments and the end of a path. *)
Definition REVIEW_RANGE_PROTECTED_PATH_PATTERNS : list (jsstr -> bool) :=
  [(fun path => existsb (fun s => mem s (map js [".ssh"; ".gnupg"; ".aws"; ".kube"]%string)) (split_on SLASH path));
   (fun path => endsWith path (js ".local/share/opencode/auth.json"));
   (fun path => str_eqb path (js ".config/gh/hosts.yml") || endsWith path (js "/.config/gh/hosts.yml"));
   (fun path => startsWith path (js ".config/gcloud/") || includes path (js "/.config/gcloud/"));
   (fun path => startsWith (last_segment path) (js ".env"));
   (fun path => mem (last_segment path) (map js [".git-credentials"; ".netrc"]%string));
   (fun path => endsWith path (js ".key") || endsWith path (js ".pem"))].

Definition is_protected (path : jsstr) : bool := existsb (fun p => p path) REVIEW_RANGE_PROTECTED_PATH_PATTERNS.

Definition ReviewRangeProtectedContentError (firstPath : jsstr) (additionalCount : Z) : exn :=
  let suffix := if 0 <? additionalCount
    then js " and " ++ dec additionalCount ++ js " more protected path" ++ js (if additionalCount =? 1 then "" else "s") else [] in
  Exn (ECoded (js "review_range_protected_content")) (take 256 (js "review range contains protected path '" ++ firstPath ++ js "'" ++ suffix)).

Definition assertReviewRangeHasNoProtectedContent (changedPaths : list jsstr) : res unit :=
  match List.filter is_protected changedPaths with
  | [] => Ok tt
  | first :: more => Throw (ReviewRangeProtectedContentError first (Z.of_nat (length more)))
  end.

(** ** Slices *)
Record FileSection := mkSection { fs_path : jsstr; fs_data : list N; fs_lines : Z }.

Definition DIFF_MARKER : list N := js "diff --git ".

(** The matches of [/^diff --git /gm]: a line starts after a line feed or a
    carriage return. *)
Fixpoint section_starts (i : nat) (line_start : bool) (bs : list N) : list nat :=
  match bs with
  | [] => []
  | b :: bs' =>
      (if line_start && startsWith bs DIFF_MARKER then [i] else [])
      ++ section_starts (S i) ((b =? 10)%N || (b =? 13)%N) bs'
  end.

Definition count_lines (data : list N) : Z :=
  Z.of_nat (length (split_on 10 (utf8_lossy data))) - (if (List.last data 0 =? 10)%N then 1 else 0).

(** Each start with the end of its section. *)
Fixpoint sections_at (diff : list N) (starts : list nat) (paths : list jsstr) : list FileSection :=
  match starts, paths with
  | s :: rest, p :: paths' =>
      let stop := match rest with t :: _ => t | [] => length diff end in
      let data := take (stop - s) (drop s diff) in
      mkSection p data (count_lines data) :: sections_at diff rest paths'
  | _, _ => []
  end.

Definition splitFileSections (diff : list N) (paths : list jsstr) : res (list FileSection) :=
  match diff with
  | [] => Ok []
  | _ =>
      let starts := section_starts 0 true diff in
      _ ← throw_if (negb (Nat.eqb (length starts) (length paths)) || match starts with O :: _ => false | _ => true end)
            (ReviewMaterializeError "review_range_diff_parse" [js "git diff file sections did not match the changed-path manifest"]);
      Ok (sections_at diff starts paths)
  end.

Definition ReviewFileSliceCapError (path : jsstr) (lines bytes : Z) : exn :=
  ReviewMaterializeError "review_range_file_slice_cap"
    [js "file '"; path; js "' requires "; dec lines; js " lines and "; dec bytes; js " bytes, over a slice budget of ";
     dec REVIEW_SLICE_MAX_LINES; js " lines or "; dec REVIEW_SLICE_MAX_BYTES; js " bytes"].

Definition byte_count (bs : list N) : Z := Z.of_nat (length bs).

(** The slices so far, and the one being filled with its bytes and lines. *)
Record Packing := mkPacking { pk_slices : list (list N); pk_current : list (list N); pk_bytes : Z; pk_lines : Z }.

Definition pack_section (p : Packing) (section : FileSection) : res Packing :=
  let size := byte_count (fs_data section) in
  _ ← throw_if ((REVIEW_SLICE_MAX_BYTES <? size) || (REVIEW_SLICE_MAX_LINES <? fs_lines section))
        (ReviewFileSliceCapError (fs_path section) (fs_lines section) size);
  let p := if (0 <? Z.of_nat (length (pk_current p)))
              && ((REVIEW_SLICE_MAX_BYTES <? pk_bytes p + size) || (REVIEW_SLICE_MAX_LINES <? pk_lines p + fs_lines section))
           then mkPacking (pk_slices p ++ [concat (pk_current p)]) [] 0 0 else p in
  Ok (mkPacking (pk_slices p) (pk_current p ++ [fs_data section]) (pk_bytes p + size) (pk_lines p + fs_lines section)).

Fixpoint pack_sections (p : Packing) (sections : list FileSection) : res Packing :=
  match sections with
  | [] => Ok p
  | s :: rest => p' ← pack_section p s; pack_sections p' rest
  end.

Definition packSlices (sections : list FileSection) : res (list (list N)) :=
  p ← pack_sections (mkPacking [] [] 0 0) sections;
  Ok (match pk_current p with [] => pk_slices p | _ => pk_slices p ++ [concat (pk_current p)] end).

(** [String(i).padStart(4, 0)] *)
Definition slice_name (i : nat) : jsstr :=
  let d := dec (Z.of_nat i) in js "slice-" ++ repeat 48%N (4 - length d) ++ d ++ js ".diff".

(** [/^slice-[0-9]{4}\.diff$/] *)
Definition SLICE_NAME_RE (s : jsstr) : bool :=
  startsWith s (js "slice-") && endsWith s (js ".diff") && (js_length s =? 15) && forallb is_digit (take 4 (drop 6 s)).

Record MaterializeReviewPayload := mkMaterialize {
  mp_baseRef : jsstr; mp_headRef : option jsstr; mp_contextLines : option Z; mp_paths : option (list jsstr); mp_workspace : bool
}.

Section materialize.
Context (ctx : OpContext) (cwd tmpdir : jsstr) (sha256_hex : list N -> jsstr) (process_PATH : jsstr).

Definition path_env : jsval := JObj [(js "PATH", JStr process_PATH)].

Definition invokeGit (args : list jsstr) (dir : jsstr) : M SpawnResult :=
  call_proc (env ctx) (CSpawnReplace (js "git" :: args) (mkOpts (Some dir) (jint 30000) path_env (Some (9 * 1024 * 1024))) None).

Definition git_refused (r : SpawnResult) : bool := negb (bool_decide (status r = Some 0)) || timedOut r || outputTruncated r.

Definition ReviewRangeRefError (ref : jsstr) : exn :=
  ReviewMaterializeError "review_range_ref_unresolvable" [js "review range ref '"; ref; js "' did not resolve to a commit"].

Definition resolveCommit (ref projectRoot : jsstr) : M jsstr :=
  result ← catch_as (invokeGit [js "rev-parse"; js "--verify"; js "--end-of-options"; ref ++ js "^{commit}"] projectRoot) (ReviewRangeRefError ref);
  _ ← throw_when (git_refused result) (ReviewRangeRefError ref);
  let oid := trim (stdout result) in
  _ ← throw_when (negb (OBJECT_ID_RE oid))
        (ReviewMaterializeError "review_range_object_id_invalid" [js "git returned an invalid object id while resolving ref '"; ref; js "'"]);
  mret oid.

Fixpoint add_slices (w : ReviewRunWriter) (i : nat) (slices : list (list N)) : Writer (list ReviewRunArtifact) :=
  match slices with
  | [] => mret (Ok [], w)
  | s :: rest =>
      p ← writer_addArtifact ctx sha256_hex w (slice_name i) s;
      match fst p with
      | Throw e => mret (Throw e, snd p)
      | Ok a =>
          q ← add_slices (snd p) (S i) rest;
          mret (match fst q with Ok more => Ok (a :: more) | Throw e => Throw e end, snd q)
      end
  end.

(** The writes of a run: the diff, its slices, the published record. *)
Definition fill_run (w : ReviewRunWriter) (diff : list N) (slices : list (list N)) : Writer (list ReviewRunArtifact) :=
  p ← writer_addArtifact ctx sha256_hex w (js "scope.diff") diff;
  match fst p with
  | Throw e => mret (Throw e, snd p)
  | Ok _ =>
      q ← add_slices (snd p) 0 slices;
      match fst q with
      | Throw e => mret (Throw e, snd q)
      | Ok index =>
          r ← writer_publish ctx sha256_hex (snd q);
          mret (match fst r with Ok _ => Ok index | Throw e => Throw e end, snd r)
      end
  end.

Definition diff_flags : list jsstr := map js ["diff"; "--no-ext-diff"; "--no-color"; "--no-textconv"]%string.

Definition materializeReviewRange (payload : MaterializeReviewPayload) (sessionID projectRoot : jsstr) (store : ReviewRunStore) : M jsval :=
  _ ← throw_when (mp_workspace payload)
        (ReviewMaterializeError "review_workspace_not_supported"
           [js "workspace mode is not supported in this slice: safe index/tree diffing without hooks or filters is not available"]);
  _ ← assertRunAdmission ctx store sessionID;
  baseObjectId ← resolveCommit (mp_baseRef payload) projectRoot;
  headObjectId ← resolveCommit (default (js "HEAD") (mp_headRef payload)) projectRoot;
  let contextLines := default 3 (mp_contextLines payload) in
  _ ← throw_when ((contextLines <? 0) || (100 <? contextLines))
        (ReviewMaterializeError "review_range_context_invalid" [js "contextLines must be an integer from 0 through 100"]);
  let paths := default [] (mp_paths payload) in
  _ ← throw_when (existsb (fun p => existsb (N.eqb 0) p) paths)
        (ReviewMaterializeError "review_range_paths_invalid" [js "paths must be an array of strings without NUL bytes"]);
  diffResult ← invokeGit (diff_flags ++ [js "-U" ++ dec contextLines; baseObjectId; headObjectId; js "--"] ++ paths) projectRoot;
  _ ← throw_when (git_refused diffResult)
        (ReviewMaterializeError "review_range_diff_failed" [js "git diff failed or exceeded its output bound"]);
  let diff := default (utf8_encode (stdout diffResult)) (stdoutBytes diffResult) in
  let cap := cap_maxBytes (rs_caps store) in
  _ ← throw_when (cap <? byte_count diff)
        (ReviewMaterializeError "review_range_byte_cap"
           [js "review range is "; dec (byte_count diff); js " bytes, over the per-run byte cap of "; dec cap]);
  namesResult ← invokeGit (diff_flags ++ [js "--name-only"; js "-z"; baseObjectId; headObjectId; js "--"] ++ paths) projectRoot;
  _ ← throw_when (git_refused namesResult)
        (ReviewMaterializeError "review_range_manifest_failed" [js "git changed-path manifest failed"]);
  let changedPaths := List.filter (fun p => negb (str_eqb p [])) (split_on 0 (stdout namesResult)) in
  _ ← lift (assertReviewRangeHasNoProtectedContent changedPaths);
  sections ← lift (splitFileSections diff changedPaths);
  slices ← lift (packSlices sections);
  writer ← createRun ctx sha256_hex store sessionID (Some baseObjectId) (Some headObjectId);
  let total := jint (byte_count diff) in
  let w := with_record writer (set_key (js "totalBytes") total
                                (set_key (js "changedPaths") (JArr (map JStr changedPaths)) (rw_record writer))) in
  p ← fill_run w diff slices;
  match fst p with
  | Throw e => q ← writer_fail ctx sha256_hex (snd p); _ ← lift (fst q); throw e
  | Ok index =>
      mret (JObj [(js "runId", rec (rw_record (snd p)) "runId"); (js "baseObjectId", JStr baseObjectId); (js "headObjectId", JStr headObjectId);
                  (js "changedPaths", JArr (map JStr changedPaths)); (js "sliceCount", jint (Z.of_nat (length index)));
                  (js "slices", JArr (map artifact_json index)); (js "totalBytes", total)])
  end.

(** ** Reading a diff back *)
Definition createReviewDiffStore (options : ReviewRunStoreOptions) : M ReviewRunStore := newReviewRunStore ctx cwd tmpdir options.

(** The first session directory of the store whose run has the id; a directory
    that holds no such run is passed over. *)
Fixpoint find_run (read : jsstr -> jsstr -> M ReviewRunRecord) (store : ReviewRunStore) (runId : jsstr) (sessions : list jsstr)
    : M (option (jsstr * ReviewRunRecord)) :=
  match sessions with
  | [] => mret None
  | session :: rest =>
      match runDir_ store session (JStr runId) with
      | Throw _ => find_run read store runId rest
      | Ok dir =>
          candidate ← attempt (read session dir);
          match candidate with
          | Ok record => if is_text_of (rec record "runId") runId then mret (Some (dir, record)) else find_run read store runId rest
          | Throw _ => find_run read store runId rest
          end
      end
  end.

(** [artifacts.find((artifact) => artifact.name === name)] *)
Fixpoint find_artifact (name : jsstr) (xs : list jsval) : res (option jsval) :=
  match xs with
  | [] => Ok None
  | x :: rest =>
      n ← member x "name";
      if is_text_of n name then Ok (Some x) else find_artifact name rest
  end.

(** [/(?:is|returned) (\d+) bytes, over the read cap/]: the count. *)
Definition count_at (s : jsstr) : option Z :=
  let after p := if startsWith s (js p) then
      let '(ds, r) := span is_digit (drop (length (js p)) s) in
      match ds with [] => None | _ => if startsWith r (js " bytes, over the read cap") then Some (digits_value ds) else None end
    else None in
  match after "is "%string with Some z => Some z | None => after "returned "%string end.

Fixpoint observed_bytes (s : jsstr) : option Z :=
  match count_at s with
  | Some z => Some z
  | None => match s with _ :: s' => observed_bytes s' | [] => None end
  end.

Definition diff_byte_cap (bytes : Z) : exn :=
  ReviewMaterializeError "review_diff_byte_cap"
    [js "review diff is "; dec bytes; js " bytes, over the "; dec REVIEW_DIFF_READ_MAX_BYTES; js "-byte cap; read one slice instead"].

Definition read_cap_error (e : exn) : exn :=
  if has_code e "review_run_artifact_cap" then
    match observed_bytes (exn_msg e) with
    | Some n => if REVIEW_DIFF_READ_MAX_BYTES <? n then diff_byte_cap n else e
    | None => e
    end
  else e.

Definition readReviewDiff (runId : jsstr) (slice : option jsstr) (sessionID : jsstr) (store : ReviewRunStore) : M jsval :=
  _ ← lift (assertReviewRunId (JStr runId));
  let name := default (js "scope.diff") slice in
  _ ← throw_when (match slice with Some s => negb (SLICE_NAME_RE s) | None => false end)
        (ReviewMaterializeError "review_diff_slice_not_found" [js "requested review diff slice does not exist"]);
  sessions ← call_names (env ctx) (CListDir (rs_root store));
  found ← find_run (fun session _ => readRecord ctx cwd sha256_hex store session (JStr runId)) store runId sessions;
  run ← lift (match found with
              | Some r => Ok r
              | None => Throw (ReviewMaterializeError "review_diff_run_not_found" [js "review diff run does not exist"])
              end);
  let record := snd run in
  _ ← lift (match assertRunOwnership record sessionID with
            | Ok _ => Ok tt
            | Throw _ => Throw (ReviewMaterializeError "review_diff_foreign_session" [js "review diff run is not owned by the requesting session"])
            end);
  _ ← throw_when (negb (is_text (rec record "state") "published"))
        (ReviewMaterializeError "review_diff_run_not_found" [js "review diff run is not published"]);
  artifacts ← lift (artifacts_of record);
  entry ← lift (find_artifact name artifacts);
  expected ← lift (match entry with
                   | Some a => Ok a
                   | None => Throw (ReviewMaterializeError (match slice with None => "review_diff_run_not_found" | Some _ => "review_diff_slice_not_found" end)
                                      [js "requested review diff artifact does not exist"])
                   end);
  actual ← try_catch (readRunArtifact ctx cwd sha256_hex (fst run) (JStr name)
                        (Z.min (cap_maxFileBytes (rs_caps store)) REVIEW_DIFF_READ_MAX_BYTES) false)
             (fun e => throw (read_cap_error e));
  _ ← throw_when (REVIEW_DIFF_READ_MAX_BYTES <? rd_bytes actual) (diff_byte_cap (rd_bytes actual));
  _ ← throw_when (negb (is_int_of (at_key expected "bytes") (rd_bytes actual)) || negb (is_text_of (at_key expected "sha256") (rd_sha256 actual)))
        (ReviewMaterializeError "review_diff_integrity_mismatch" [js "review diff bytes do not match the recorded length and SHA-256"]);
  let text := utf8_lossy (rd_data actual) in
  let head := [(js "bytes", jint (rd_bytes actual)); (js "sha256", JStr (rd_sha256 actual))] in
  mret (JObj (if bool_decide (utf8_encode text = rd_data actual) then head ++ [(js "text", JStr text)]
              else head ++ [(js "binary", JBool true); (js "data", JArr (map (fun b => jint (Z.of_N b)) (rd_data actual)))])).

Definition ReviewSliceNotFoundError (name : jsstr) : exn :=
  ReviewMaterializeError "review_slice_not_found" [js "review slice '"; name; js "' does not exist"].

(** [JSON.parse] of a run's record, whatever its shape. *)
Definition read_slice_record (dir : jsstr) : M ReviewRunRecord :=
  raw ← readRunArtifact ctx cwd sha256_hex dir (JStr (js "metadata.json")) (1024 * 1024) true;
  lift (match json_parse (utf8_lossy (rd_data raw)) with
        | Some (JObj fs) => Ok fs
        | Some JNull => Throw (type_error "Cannot read properties of null")
        | Some _ => Ok []
        | None => Throw (Exn EError (js "Unexpected token in JSON"))
        end).

Definition readReviewSlice (runId name sessionID : jsstr) (store : ReviewRunStore) : M jsstr :=
  _ ← lift (assertReviewRunId (JStr runId));
  _ ← throw_when (negb (SLICE_NAME_RE name)) (ReviewSliceNotFoundError name);
  sessions ← call_names (env ctx) (CListDir (rs_root store));
  found ← find_run (fun _ dir => read_slice_record dir) store runId sessions;
  run ← lift (match found with Some r => Ok r | None => Throw (ReviewSliceNotFoundError name) end);
  _ ← lift (assertRunOwnership (snd run) sessionID);
  _ ← throw_when (negb (is_text (rec (snd run) "state") "published"))
        (ReviewMaterializeError "review_run_not_published" [js "review run is not published"]);
  artifacts ← lift (artifacts_of (snd run));
  entry ← lift (find_artifact name artifacts);
  _ ← throw_when (match entry with None => true | Some _ => false end) (ReviewSliceNotFoundError name);
  actual ← readRunArtifact ctx cwd sha256_hex (fst run) (JStr name) REVIEW_SLICE_READ_MAX_BYTES false;
  mret (utf8_lossy (rd_data actual)).
End materialize.
