(* ===== verification/ReviewPipeline.v ===== *)
(** * The review pipeline (broker/src/review-pipeline.ts)

    A phase (screen, prepare, merge, finalize) gives the pinned helper one input
    - the caller's, an artifact of an earlier phase, or a document composed of
    artifacts of the run and of the caller's envelopes - and publishes what it
    prints as an artifact of the run.  The store context, optional in the code,
    is there: both callers pass it. *)
From Stdlib Require Import QArith.
From S2P Require Import Prelude JsVal Json Types State Policy Path Validation HostArgs HostPaths Codec Envelope.
From S2P Require Import Queue Effects Worker ReviewArgv SddRuntime JsOps ReviewRun.
Open Scope Z_scope.

Definition REVIEW_PIPELINE_MAX_STDIN_BYTES : Z := 256 * 1024.
Definition REVIEW_PIPELINE_MAX_INPUT_REFS : Z := 16.
Definition REVIEW_PIPELINE_MAX_ENVELOPE_BYTES : Z := 32 * 1024.
Definition REVIEW_PIPELINE_MAX_CALLER_BYTES : Z := 64 * 1024.
Definition REVIEW_PIPELINE_MAX_VALIDATOR_REQUESTS : nat := 32.
Definition REVIEW_PIPELINE_MAX_VALIDATOR_FINDING_ID_LENGTH : nat := 128.
Definition REVIEW_PIPELINE_MAX_VALIDATOR_FILE_LENGTH : nat := 512.
Definition STDERR_MAX_BYTES : nat := 4096.

Definition REVIEW_PIPELINE_REVIEWERS : list jsstr :=
  map js ["correctness"; "testing"; "project-standards"; "maintainability"; "security"; "performance"; "api-contract";
          "data-migrations"; "reliability"; "adversarial"; "cli-readiness"; "previous-comments"; "kieran-typescript"]%string.

Inductive ReviewPipelinePhase := screen | prepare | merge_phase | finalize.
#[export] Instance ReviewPipelinePhase_eq_dec : EqDecision ReviewPipelinePhase.
Proof. solve_decision. Defined.

Definition phase_name (p : ReviewPipelinePhase) : jsstr :=
  js match p with screen => "screen" | prepare => "prepare" | merge_phase => "merge" | finalize => "finalize" end.
Definition PHASES : list ReviewPipelinePhase := [screen; prepare; merge_phase; finalize].
(** [PHASES.indexOf] *)
Definition phase_index (p : ReviewPipelinePhase) : Z := match p with screen => 0 | prepare => 1 | merge_phase => 2 | finalize => 3 end.

Inductive ReviewPipelineInputSource := from_stdin | from_inputRef | from_inputRefs.
Definition source_name (s : ReviewPipelineInputSource) : jsstr :=
  js match s with from_stdin => "stdin" | from_inputRef => "inputRef" | from_inputRefs => "inputRefs" end.

Definition ReviewPipelineError (code : string) (parts : list jsstr) : exn := ReviewRunError code parts.
Definition field_error (field suffix : string) (parts : list jsstr) : exn :=
  Exn (ECoded (js "review_pipeline_" ++ js field ++ js suffix)) (concat parts).

Inductive ReviewPipelineResult :=
  | accepted_output (artifact : ReviewRunArtifact) (summary : list (jsstr * jsval))
  | invalid_output (diagnostic : jsstr) (artifact : ReviewRunArtifact) (source : ReviewPipelineInputSource)
  | structurally_rejected (diagnostic : jsstr)
  | validation_unavailable (diagnostic : jsstr).

Definition pipeline_json (r : ReviewPipelineResult) : jsval :=
  let text k v := (js k, JStr v) in
  match r with
  | accepted_output a s => JObj [text "outcome"%string (js "accepted"); (js "artifact", artifact_json a); (js "summary", JObj s)]
  | invalid_output d a s =>
      JObj [text "outcome"%string (js "invalid_output"); text "code"%string (js "review_pipeline_validator_requests_invalid");
            text "diagnostic"%string d; (js "artifact", artifact_json a); text "inputSource"%string (source_name s)]
  | structurally_rejected d =>
      JObj [text "outcome"%string (js "structurally_rejected"); text "code"%string (js "review_pipeline_structurally_rejected"); text "diagnostic"%string d]
  | validation_unavailable d =>
      JObj [text "outcome"%string (js "validation_unavailable"); text "code"%string (js "review_pipeline_validation_unavailable"); text "diagnostic"%string d]
  end.

(** ** Artifacts of phases *)

Definition artifact_of_phase (p : ReviewPipelinePhase) (reviewer : option jsstr) : jsstr :=
  js "phase-" ++ phase_name p ++ match reviewer with Some r => js "-" ++ r | None => [] end ++ js ".json".

(** The names the expression accepts, with its two groups. *)
Definition phase_artifacts : list (ReviewPipelinePhase * option jsstr) :=
  flat_map (fun p => (p, None) :: map (fun r => (p, Some r)) REVIEW_PIPELINE_REVIEWERS) PHASES.

Definition matchPhaseArtifact (ref : jsstr) : option (ReviewPipelinePhase * option jsstr) :=
  find (fun pr => str_eqb ref (artifact_of_phase (fst pr) (snd pr))) phase_artifacts.

(** [{ ...v }] *)
Definition spread_fields (v : jsval) : list (jsstr * jsval) :=
  match v with
  | JObj fs => fs
  | JArr xs => imap (fun i x => (dec (Z.of_nat i), x)) xs
  | _ => []
  end.

(** [a === b]; two objects read from different texts are never the same. *)
Definition strict_eq (a b : jsval) : bool :=
  match a, b with
  | JUndef, JUndef | JNull, JNull => true
  | JBool x, JBool y => Bool.eqb x y
  | JNum (NumInt x), JNum (NumInt y) => x =? y
  | JNum (NumFrac x), JNum (NumFrac y) => str_eqb x y
  | JNum (NumInf x), JNum (NumInf y) => Bool.eqb x y
  | JStr x, JStr y => str_eqb x y
  | _, _ => false
  end.

(** ** The caller's envelopes *)

(** One envelope, its bytes, and the running total. *)
Definition caller_entry (total : Z) (field : string) (value : jsval) : res (list N * Z) :=
  let invalid_field := field_error field "_invalid" [js field; js " must be a JSON object or array"] in
  _ ← throw_if (match value with JArr _ | JObj _ => false | _ => true end) invalid_field;
  let bytes := utf8_encode (json_text value) in
  let size := Z.of_nat (length bytes) in
  _ ← throw_if (REVIEW_PIPELINE_MAX_ENVELOPE_BYTES <? size)
        (field_error field "_too_large" [js field; js " exceeds envelope cap "; dec REVIEW_PIPELINE_MAX_ENVELOPE_BYTES; js " bytes (observed "; dec size; js " bytes)"]);
  _ ← throw_if (REVIEW_PIPELINE_MAX_CALLER_BYTES <? total + size)
        (ReviewPipelineError "review_pipeline_caller_envelopes_too_large"
           [js "caller-supplied envelopes exceed total cap "; dec REVIEW_PIPELINE_MAX_CALLER_BYTES; js " bytes (observed "; dec (total + size); js " bytes)"]);
  Ok (bytes, total + size).

Fixpoint caller_entries (total : Z) (entries : list (string * jsval)) : res (list (list N)) :=
  match entries with
  | [] => Ok []
  | (field, value) :: rest =>
      one ← caller_entry total field value;
      more ← caller_entries (snd one) rest;
      Ok (fst one :: more)
  end.

Definition callerBytes (entries : list (string * jsval)) : res (list (list N)) := caller_entries 0 entries.

Definition parse_text (bytes : list N) : res jsval :=
  match json_parse (utf8_lossy bytes) with Some v => Ok v | None => Throw (Exn EError (js "Unexpected token in JSON")) end.

Definition composed_too_large (total : jsstr) : exn :=
  ReviewPipelineError "review_pipeline_composed_input_too_large"
    [js "review pipeline stdin exceeds cap "; dec REVIEW_PIPELINE_MAX_STDIN_BYTES; js " bytes (observed "; total; js " bytes)"].

(** The recorded bytes of the artifacts of some names. *)
Fixpoint named_bytes (total : jsval) (names : list jsstr) (xs : list jsval) : res jsval :=
  match xs with
  | [] => Ok total
  | x :: rest =>
      n ← member x "name";
      if existsb (is_text_of n) names
      then b ← member x "bytes"; t ← js_plus total b; named_bytes t names rest
      else named_bytes total names rest
  end.

Definition assertRecordedComposedSize (record : ReviewRunRecord) (refs : list jsstr) : res unit :=
  xs ← artifacts_of record;
  total ← named_bytes (jint 0) refs xs;
  over ← js_greater total REVIEW_PIPELINE_MAX_STDIN_BYTES;
  shown ← js_String total;
  throw_if over (composed_too_large shown).

(** The names of a record that are screen artifacts, each once. *)
Definition is_screen (name : jsstr) : bool := match matchPhaseArtifact name with Some (screen, Some _) => true | _ => false end.
Fixpoint screen_names (seen : list jsstr) (xs : list jsval) : res (list jsstr) :=
  match xs with
  | [] => Ok []
  | x :: rest =>
      n ← member x "name";
      match n with
      | JStr s => if is_screen s && negb (mem s seen) then more ← screen_names (s :: seen) rest; Ok (s :: more)
                  else screen_names seen rest
      | _ => screen_names seen rest
      end
  end.

(** ** The summary of a phase *)
Definition requests_error (parts : list jsstr) : exn := ReviewPipelineError "review_pipeline_validator_requests_invalid" parts.

Definition project_request (index : nat) (request : jsval) : res jsval :=
  match request with
  | JObj _ =>
      match at_key request "finding_id" with
      | JStr ((_ :: _) as id) =>
          Ok (JObj ([(js "finding_id", JStr (take REVIEW_PIPELINE_MAX_VALIDATOR_FINDING_ID_LENGTH id))]
            ++ match at_key request "file" with JStr f => [(js "file", JStr (take REVIEW_PIPELINE_MAX_VALIDATOR_FILE_LENGTH f))] | _ => [] end
            ++ match at_key request "line" with JNum (NumInt z) => if 0 <=? z then [(js "line", jint z)] else [] | _ => [] end))
      | _ => Throw (requests_error [js "validator_requests entry at index "; dec (Z.of_nat index); js " must have a non-empty string finding_id"])
      end
  | _ => Throw (requests_error [js "validator_requests entry at index "; dec (Z.of_nat index); js " must be an object"])
  end.

Fixpoint project_requests (index : nat) (requests : list jsval) : res (list jsval) :=
  match requests with
  | [] => Ok []
  | r :: rest => x ← project_request index r; xs ← project_requests (S index) rest; Ok (x :: xs)
  end.

Definition createSummary (phase : ReviewPipelinePhase) (output : jsval) : res (list (jsstr * jsval)) :=
  let keys := match plain_object output with Some fs => map (fun k => JStr (take 128 k)) (take 32 (map fst fs)) | None => [] end in
  let summary := [(js "phase", JStr (phase_name phase)); (js "topLevelKeys", JArr keys)] in
  match phase with
  | screen | prepare => Ok summary
  | merge_phase | finalize =>
      let present := has_own output "validator_requests" in
      let raw := at_key output "validator_requests" in
      requests ← match raw with
                 | JArr xs => if present then Ok xs else Ok []
                 | _ => if present then Throw (requests_error [js "validator_requests must be an array (observed ";
                                                 match raw with JNull => js "null" | v => js_typeof v end; js ")"])
                        else Ok []
                 end;
      all ← project_requests 0 requests;
      let projected := take REVIEW_PIPELINE_MAX_VALIDATOR_REQUESTS all in
      Ok (summary ++ [(js "validator_requests", JArr projected); (js "validator_request_count", jint (Z.of_nat (length requests)));
                      (js "validator_requests_truncated", JBool (Z.of_nat (length projected) <? Z.of_nat (length requests)));
                      (js "validator_requests_present", JBool present)])
  end.

(** ** The payload's fields that a phase refuses *)
Definition refuse_field (payload : jsval) (suffix : string) (message : string -> list jsstr) (field : string) : res unit :=
  throw_if (has_own payload field) (field_error field suffix (message field)).

Definition present (payload : jsval) (k : string) : bool := negb (is_undef (at_key payload k)).

(** What a phase may be asked: its name, its reviewer and its run. *)
Definition phase_of_name (v : jsval) : option ReviewPipelinePhase := find (fun p => is_text_of v (phase_name p)) PHASES.

Definition check_phase (payload : jsval) : res (ReviewPipelinePhase * jsstr) :=
  phase ← match phase_of_name (at_key payload "phase") with
          | Some p => Ok p
          | None => Throw (ReviewPipelineError "review_pipeline_phase_invalid" [js "phase must be screen, prepare, merge, or finalize"])
          end;
  _ ← throw_if (negb (bool_decide (phase = prepare)) && has_own payload "selected_dispatches")
        (ReviewPipelineError "review_pipeline_selected_dispatches_phase_forbidden"
           [js "selected_dispatches is only valid for prepare (received "; phase_name phase; js ")"]);
  _ ← (if bool_decide (phase = screen)
       then throw_if (negb (existsb (is_text_of (at_key payload "reviewer")) REVIEW_PIPELINE_REVIEWERS))
              (ReviewPipelineError "review_pipeline_reviewer_invalid" [js "screen requires an enumerated reviewer persona"])
       else throw_if (present payload "reviewer")
              (ReviewPipelineError "review_pipeline_reviewer_forbidden" [js "reviewer is only valid for screen"]));
  runId ← assertReviewRunId (at_key payload "runId");
  _ ← for_each (refuse_field payload "_override_forbidden" (fun f => [js "caller may not supply helper-produced field "; js f]))
        ["prepared"; "merge"; "screen_results"]%string;
  Ok (phase, runId).

Definition conflict (m : string) : exn := ReviewPipelineError "review_pipeline_stdin_source_conflict" [js m].
Definition FINALIZE_FIELDS : list string := ["dispatch_records"; "validator_lifecycle_results"; "plan_assessment"; "parent_run_metadata"]%string.

(** The single artifact a phase may name. *)
Definition names_only (p : ReviewPipelinePhase) (ref : jsstr) : bool := bool_decide (matchPhaseArtifact ref = Some (p, None)).

Section pipeline.
Context (ctx : OpContext) (cwd : jsstr) (sha256_hex : list N -> jsstr) (process_PATH : jsstr).
Context (store : ReviewRunStore) (sessionID : jsstr).

Definition read_phase_artifact (runId ref : jsstr) : M (list N) :=
  dir ← lift (runDir_ store sessionID (JStr runId));
  artifact ← readRunArtifact ctx cwd sha256_hex dir (JStr ref) (cap_maxFileBytes (rs_caps store)) false;
  mret (rd_data artifact).

(** A JSON object of the run. *)
Definition json_object (kind ref : jsstr) (bytes : list N) : res jsval :=
  match json_parse (utf8_lossy bytes) with
  | None => Throw (ReviewPipelineError "review_pipeline_input_ref_unparseable" [kind; js " artifact is not parseable JSON: "; ref])
  | Some (JObj fs) => Ok (JObj fs)
  | Some _ => Throw (ReviewPipelineError "review_pipeline_input_ref_not_object" [kind; js " artifact must contain a JSON object: "; ref])
  end.

Definition phaseObject (runId ref : jsstr) : M jsval :=
  bytes ← read_phase_artifact runId ref;
  lift (json_object (js "phase") ref bytes).

Definition not_screen (ref : jsstr) : exn :=
  ReviewPipelineError "review_pipeline_input_ref_not_screen" [js "inputRefs artifact is not a screen artifact: "; ref].

Definition screen_reviewer (ref : jsstr) : res jsstr :=
  match matchPhaseArtifact ref with Some (screen, Some reviewer) => Ok reviewer | _ => Throw (not_screen ref) end.

Definition wrapScreenResult (runId ref : jsstr) : M jsval :=
  reviewer ← lift (screen_reviewer ref);
  bytes ← read_phase_artifact runId ref;
  result ← lift (json_object (js "screen") ref bytes);
  mret (JObj [(js "reviewer", JStr reviewer); (js "result", result)]).

Definition composeMerge (payload : jsval) (runId : jsstr) : M (list N) :=
  _ ← lift (for_each (refuse_field payload "_phase_forbidden" (fun f => [js f; js " is only valid for finalize"])) FINALIZE_FIELDS);
  _ ← throw_when (existsb (present payload) ["stdin"; "inputRefs"; "preparedRef"; "mergeRef"]%string)
        (conflict "merge accepts only inputRef naming its prepared artifact");
  ref ← lift (match at_key payload "inputRef" with
              | JStr s => Ok s
              | _ => Throw (ReviewPipelineError "review_pipeline_input_ref_invalid" [js "merge requires inputRef naming a prepared artifact in this review run"])
              end);
  _ ← throw_when (bool_decide (matchPhaseArtifact ref = None))
        (ReviewPipelineError "review_pipeline_input_ref_unknown" [js "merge inputRef does not name a recognized phase artifact"]);
  _ ← throw_when (negb (names_only prepare ref))
        (ReviewPipelineError "review_pipeline_merge_ref_phase_invalid" [js "merge inputRef must name phase-prepare.json (received "; ref; js ")"]);
  _ ← throw_when (negb (present payload "adjudication"))
        (ReviewPipelineError "review_pipeline_adjudication_missing" [js "merge requires adjudication"]);
  decisions ← lift (callerBytes [("adjudication"%string, at_key payload "adjudication")]);
  record ← readRecord ctx cwd sha256_hex store sessionID (JStr runId);
  _ ← lift (assertRecordedComposedSize record [ref]);
  prepared ← phaseObject runId ref;
  adjudication ← lift (parse_text (default [] (head decisions)));
  mret (utf8_encode (json_text (JObj [(js "prepared", prepared); (js "adjudication", adjudication)]))).

(** The caller's four envelopes, the last with the head of the run. *)
Definition composed_fields (encoded : list (list N)) (metadata head : jsval) : res (list (jsstr * jsval)) :=
  values ← map_res parse_text (take 3 encoded);
  Ok (zip (map js FINALIZE_FIELDS) (values ++ [JObj (set_key (js "head_sha") head (spread_fields metadata))])).

Definition composeFinalize (payload : jsval) (runId : jsstr) : M (list N) :=
  _ ← throw_when (existsb (present payload) ["stdin"; "inputRef"; "inputRefs"]%string)
        (conflict "finalize accepts only preparedRef and mergeRef artifact references");
  _ ← throw_when (present payload "adjudication")
        (ReviewPipelineError "review_pipeline_adjudication_forbidden" [js "adjudication is only valid for merge"]);
  refs ← lift (match at_key payload "preparedRef", at_key payload "mergeRef" with
               | JStr p, JStr m => Ok (p, m)
               | _, _ => Throw (ReviewPipelineError "review_pipeline_finalize_refs_missing" [js "finalize requires preparedRef and mergeRef from this review run"])
               end);
  let '(preparedRef, mergeRef) := refs in
  _ ← throw_when (str_eqb preparedRef mergeRef)
        (ReviewPipelineError "review_pipeline_input_ref_duplicate" [js "finalize preparedRef and mergeRef must be distinct"]);
  _ ← throw_when (negb (names_only prepare preparedRef))
        (ReviewPipelineError "review_pipeline_finalize_prepared_ref_phase_invalid" [js "preparedRef must name phase-prepare.json (received "; preparedRef; js ")"]);
  _ ← throw_when (negb (names_only merge_phase mergeRef))
        (ReviewPipelineError "review_pipeline_finalize_merge_ref_phase_invalid" [js "mergeRef must name phase-merge.json (received "; mergeRef; js ")"]);
  encoded ← lift (callerBytes (map (fun f => (f, at_key payload f)) FINALIZE_FIELDS));
  record ← readRecord ctx cwd sha256_hex store sessionID (JStr runId);
  artifacts ← lift (artifacts_of record);
  screens ← lift (screen_names [] artifacts);
  _ ← throw_when (Nat.eqb (length screens) 0)
        (ReviewPipelineError "review_pipeline_finalize_screen_results_missing" [js "finalize requires at least one screened artifact in this review run"]);
  _ ← throw_when (negb (bool_decide (NoDup (preparedRef :: mergeRef :: screens))))
        (ReviewPipelineError "review_pipeline_input_ref_duplicate" [js "finalize phase references must be unique"]);
  _ ← lift (assertRecordedComposedSize record (preparedRef :: mergeRef :: screens));
  metadata ← lift (parse_text (nth 3 encoded []));
  let head := rec record "headObjectId" in
  _ ← throw_when (has_own metadata "head_sha" && negb (strict_eq (at_key metadata "head_sha") head))
        (ReviewPipelineError "review_pipeline_parent_head_sha_mismatch"
           [js "parent_run_metadata.head_sha does not match the resolved review run head object id"]);
  merged ← phaseObject runId mergeRef;
  prepared ← phaseObject runId preparedRef;
  screen_results ← mapM_ (wrapScreenResult runId) screens;
  fields ← lift (composed_fields encoded metadata head);
  mret (utf8_encode (json_text (JObj ([(js "merge", merged); (js "prepared", prepared); (js "screen_results", JArr screen_results)] ++ fields)))).

(** ** The inputs of screen and prepare *)

(** The first dispatch of each persona, and the personas in order. *)
Fixpoint unique_dispatches (seen : list jsstr) (dispatches : list jsval) : res (list jsval * list jsstr) :=
  match dispatches with
  | [] => Ok ([], seen)
  | d :: rest =>
      persona ← match d with
                | JObj _ => match at_key d "persona" with
                            | JStr p => Ok p
                            | _ => Throw (ReviewPipelineError "review_pipeline_selected_dispatches_invalid" [js "each selected_dispatches entry must be an object with a persona string"])
                            end
                | _ => Throw (ReviewPipelineError "review_pipeline_selected_dispatches_invalid" [js "each selected_dispatches entry must be an object with a persona string"])
                end;
      if mem persona seen then unique_dispatches seen rest
      else more ← unique_dispatches (seen ++ [persona]) rest; Ok (d :: fst more, snd more)
  end.

Fixpoint screen_results_of (runId : jsstr) (personas seen : list jsstr) (refs : list jsval) : M (list jsval * list jsstr) :=
  match refs with
  | [] => mret ([], seen)
  | v :: rest =>
      ref ← lift (match v with
                  | JStr s => if 255 <? js_length s
                              then Throw (ReviewPipelineError "review_pipeline_input_refs_invalid" [js "each inputRefs entry must be a bounded artifact name"])
                              else Ok s
                  | _ => Throw (ReviewPipelineError "review_pipeline_input_refs_invalid" [js "each inputRefs entry must be a bounded artifact name"])
                  end);
      persona ← lift (screen_reviewer ref);
      _ ← throw_when (mem ref seen)
            (ReviewPipelineError "review_pipeline_input_ref_duplicate" [js "inputRefs contains a duplicate screen artifact: "; ref]);
      _ ← throw_when (negb (mem persona personas))
            (ReviewPipelineError "review_pipeline_input_refs_persona_unselected" [js "screen artifact persona is not selected: "; persona]);
      result ← wrapScreenResult runId ref;
      more ← screen_results_of runId personas (ref :: seen) rest;
      mret (result :: fst more, snd more)
  end.

Definition persona_screened (seen : list jsstr) (persona : jsstr) : res unit :=
  throw_if (negb (mem (js "phase-screen-" ++ persona ++ js ".json") seen))
    (ReviewPipelineError "review_pipeline_selected_dispatches_screen_missing" [js "selected dispatch has no matching screen artifact: "; persona]).

Definition input_of_refs (payload : jsval) (phase : ReviewPipelinePhase) (runId : jsstr) : M (list N) :=
  _ ← throw_when (negb (bool_decide (phase = prepare)))
        (ReviewPipelineError "review_pipeline_input_refs_phase_forbidden" [js "inputRefs is only valid for prepare (received "; phase_name phase; js ")"]);
  refs ← lift (match at_key payload "inputRefs" with
               | JArr xs => Ok xs
               | _ => Throw (ReviewPipelineError "review_pipeline_input_refs_invalid" [js "inputRefs must be an array of published screen artifacts in this review run"])
               end);
  let count := Z.of_nat (length refs) in
  _ ← throw_when (REVIEW_PIPELINE_MAX_INPUT_REFS <? count)
        (ReviewPipelineError "review_pipeline_input_refs_too_many" [js "inputRefs exceeds limit "; dec REVIEW_PIPELINE_MAX_INPUT_REFS; js " (observed "; dec count; js ")"]);
  _ ← throw_when (count =? 0) (ReviewPipelineError "review_pipeline_input_refs_empty" [js "inputRefs must contain at least one screen artifact"]);
  _ ← throw_when (match at_key payload "selected_dispatches" with JArr (_ :: _) => false | _ => true end)
        (ReviewPipelineError "review_pipeline_selected_dispatches_missing" [js "prepare with inputRefs requires a non-empty selected_dispatches array"]);
  bytes ← lift (callerBytes [("selected_dispatches"%string, at_key payload "selected_dispatches")]);
  dispatches ← lift (parse_text (default [] (head bytes)));
  unique ← lift (unique_dispatches [] (match dispatches with JArr xs => xs | _ => [] end));
  let '(selected, personas) := unique in
  screened ← screen_results_of runId personas [] refs;
  _ ← lift (for_each (persona_screened (snd screened)) personas);
  mret (utf8_encode (json_text (JObj [(js "screen_results", JArr (fst screened)); (js "selected_dispatches", JArr selected)]))).

Definition input_of_ref (payload : jsval) (phase : ReviewPipelinePhase) (runId : jsstr) : M (list N) :=
  ref ← lift (match at_key payload "inputRef" with
              | JStr s => Ok s
              | _ => Throw (ReviewPipelineError "review_pipeline_input_ref_invalid" [js "inputRef must name a published artifact in this review run"])
              end);
  source ← lift (match matchPhaseArtifact ref with
                 | Some (p, _) => Ok p
                 | None => Throw (ReviewPipelineError "review_pipeline_input_ref_unknown" [js "inputRef does not name a recognized phase artifact"])
                 end);
  _ ← throw_when (phase_index phase <=? phase_index source)
        (ReviewPipelineError "review_pipeline_input_ref_not_prior" [js "inputRef must name an artifact from a strictly prior phase"]);
  read_phase_artifact runId ref.

(** A byte of an array. *)
Definition byte_of (v : jsval) : res N :=
  match v with
  | JNum (NumInt z) => if (0 <=? z) && (z <=? 255) then Ok (Z.to_N z)
                       else Throw (ReviewPipelineError "review_pipeline_stdin_invalid" [js "stdin must be a string or an array of bytes"])
  | _ => Throw (ReviewPipelineError "review_pipeline_stdin_invalid" [js "stdin must be a string or an array of bytes"])
  end.

Definition input_of_stdin (v : jsval) : res (list N) :=
  match v with
  | JStr s => Ok (utf8_encode s)
  | JArr xs => map_res byte_of xs
  | _ => Throw (ReviewPipelineError "review_pipeline_stdin_invalid" [js "stdin must be a string or an array of bytes"])
  end.

(** The one source of an input, for screen and prepare. *)
Definition input_source_of (payload : jsval) (phase : ReviewPipelinePhase) : res ReviewPipelineInputSource :=
  _ ← for_each (refuse_field payload "_phase_forbidden" (fun f => [js f; js " is not valid for "; phase_name phase]))
        (["adjudication"; "preparedRef"; "mergeRef"]%string ++ FINALIZE_FIELDS);
  let given := List.filter (fun s => present payload (fst s))
                 [("stdin", from_stdin); ("inputRef", from_inputRef); ("inputRefs", from_inputRefs)]%string in
  match given with
  | [] => Throw (ReviewPipelineError "review_pipeline_stdin_source_missing" [js "exactly one of stdin, inputRef, or inputRefs must be supplied; none was provided"])
  | [(_, source)] =>
      _ ← throw_if (bool_decide (phase = prepare) && has_own payload "selected_dispatches" && negb (present payload "inputRefs"))
            (ReviewPipelineError "review_pipeline_selected_dispatches_requires_input_refs" [js "selected_dispatches is only valid when inputRefs is supplied"]);
      Ok source
  | _ => Throw (conflict "exactly one of stdin, inputRef, or inputRefs must be supplied; multiple sources were provided")
  end.

Definition over_stdin_cap (code : string) (input : list N) : exn :=
  ReviewPipelineError code [js "review pipeline stdin exceeds cap "; dec REVIEW_PIPELINE_MAX_STDIN_BYTES; js " bytes (observed ";
                            dec (Z.of_nat (length input)); js " bytes)"].

Definition capped (code : string) (input : list N) : M (list N) :=
  _ ← throw_when (REVIEW_PIPELINE_MAX_STDIN_BYTES <? Z.of_nat (length input)) (over_stdin_cap code input);
  mret input.

(** The helper's input, and where it came from. *)
Definition phase_input (payload : jsval) (phase : ReviewPipelinePhase) (runId : jsstr) : M (list N * ReviewPipelineInputSource) :=
  match phase with
  | merge_phase =>
      input ← composeMerge payload runId;
      input ← capped "review_pipeline_composed_input_too_large" input;
      mret (input, from_inputRef)
  | finalize =>
      input ← composeFinalize payload runId;
      input ← capped "review_pipeline_composed_input_too_large" input;
      mret (input, from_inputRefs)
  | screen | prepare =>
      source ← lift (input_source_of payload phase);
      match source with
      | from_inputRefs =>
          input ← input_of_refs payload phase runId;
          input ← capped "review_pipeline_input_refs_too_large" input;
          mret (input, source)
      | from_inputRef => input ← input_of_ref payload phase runId; mret (input, source)
      | from_stdin =>
          input ← lift (input_of_stdin (at_key payload "stdin"));
          input ← capped "review_pipeline_stdin_too_large" input;
          mret (input, source)
      end
  end.

(** ** The phase itself *)
Definition diagnostic (result : SpawnResult) : jsstr :=
  utf8_lossy (take STDERR_MAX_BYTES (default (utf8_encode (stderr result)) (stderrBytes result))).

Definition artifact_name (payload : jsval) (phase : ReviewPipelinePhase) : jsstr :=
  match phase with
  | screen => js "phase-screen-" ++ as_string (at_key payload "reviewer") ++ js ".json"
  | _ => js "phase-" ++ phase_name phase ++ js ".json"
  end.

Definition phase_args (payload : jsval) (phase : ReviewPipelinePhase) : list jsstr :=
  match phase with
  | screen => [js "screen"; js "--reviewer"; as_string (at_key payload "reviewer"); js "--harness"; js "opencode"]
  | _ => [phase_name phase]
  end.

Definition helper_call (payload : jsval) (phase : ReviewPipelinePhase) (interpreter helper : jsstr) (input : list N) : call :=
  CSpawnReplace ([interpreter; helper] ++ phase_args payload phase)
    (mkOpts None (jint 30000) (JObj [(js "PATH", JStr process_PATH)]) (Some (cap_maxFileBytes (rs_caps store) + 1))) (Some input).

Definition provenance_json (phase : ReviewPipelinePhase) (result : jsstr) (artifact : option ReviewRunArtifact) (source : ReviewPipelineInputSource) : jsval :=
  JObj ([(js "phase", JStr (phase_name phase)); (js "outcome", JStr result)]
    ++ match artifact with Some a => [(js "artifact", artifact_json a)] | None => [] end
    ++ [(js "inputSource", JStr (source_name source))]).

(** What a helper that ended well printed is published. *)
Definition publish_output (payload : jsval) (phase : ReviewPipelinePhase) (runId : jsstr) (source : ReviewPipelineInputSource)
    (result : SpawnResult) : M ReviewPipelineResult :=
  let outputBytes := default (utf8_encode (stdout result)) (stdoutBytes result) in
  let cap := cap_maxFileBytes (rs_caps store) in
  _ ← throw_when (cap <? Z.of_nat (length outputBytes))
        (ReviewPipelineError "review_pipeline_output_too_large"
           [js "review pipeline output exceeds per-file cap "; dec cap; js " bytes (observed "; dec (Z.of_nat (length outputBytes)); js " bytes)"]);
  output ← lift (match json_parse (utf8_lossy outputBytes) with
                 | Some v => Ok v
                 | None => Throw (ReviewPipelineError "review_pipeline_output_invalid" [js "helper returned invalid JSON"])
                 end);
  artifact ← addArtifact ctx cwd sha256_hex store sessionID (JStr runId) (artifact_name payload phase) outputBytes;
  match createSummary phase output with
  | Throw e =>
      if has_code e "review_pipeline_validator_requests_invalid"
      then mret (invalid_output (take STDERR_MAX_BYTES (exn_msg e)) artifact source) else throw e
  | Ok summary =>
      _ ← when (bool_decide (phase = finalize))
            (recordFinalizeProvenance ctx cwd sha256_hex store sessionID (JStr runId) (provenance_json phase (js "accepted") (Some artifact) source));
      mret (accepted_output artifact (summary ++ [(js "inputSource", JStr (source_name source))]))
  end.

Definition reject_output (phase : ReviewPipelinePhase) (runId : jsstr) (source : ReviewPipelineInputSource) (result : SpawnResult) : M ReviewPipelineResult :=
  let shown := diagnostic result in
  let rejected := bool_decide (status result = Some 1) && negb (startsWith shown (js "ce-review-validator: internal error in ")) in
  _ ← when (bool_decide (phase = finalize))
        (recordFinalizeProvenance ctx cwd sha256_hex store sessionID (JStr runId)
           (provenance_json phase (js (if rejected then "structurally_rejected" else "validation_unavailable")) None source));
  mret (if rejected then structurally_rejected shown else validation_unavailable shown).

Definition runReviewPipeline (payload : jsval) (config : ReviewConfig) : M ReviewPipelineResult :=
  checked ← lift (check_phase payload);
  let '(phase, runId) := checked in
  composed ← phase_input payload phase runId;
  let '(input, source) := composed in
  pinned ← attempt (assertPinnedReviewHelper ctx cwd sha256_hex (reviewHelperPath config) (reviewHelperSha256 config));
  match pinned with
  | Throw e => if has_code e "review_helper_missing" then mret (validation_unavailable (take STDERR_MAX_BYTES (exn_msg e))) else throw e
  | Ok helper =>
      interpreter ← resolveReviewHelperInterpreter ctx cwd (reviewHelperInterpreter config);
      spawned ← attempt (call_proc (env ctx) (helper_call payload phase interpreter (ph_path helper) input));
      match spawned with
      | Throw e => mret (validation_unavailable (take STDERR_MAX_BYTES (exn_msg e)))
      | Ok result =>
          if bool_decide (status result = Some 0) && negb (timedOut result)
          then publish_output payload phase runId source result
          else reject_output phase runId source result
      end
  end.
End pipeline.
