(* ===== verification/ReviewPersist.v ===== *)
(** * Persisting a reviewed artifact into the project (broker/src/review-persist.ts)

    The accepted output of a finalize phase is staged in the run's directory,
    validated by the pinned helper, and then published in the project through
    descriptors of its directories, which are opened without following links;
    the project's ignore file gets an entry first when git does not ignore the
    place.  A preflight reports what a persist would refuse. *)
From Stdlib Require Import QArith.
From S2P Require Import Prelude JsVal Json Types State Policy Path Validation HostArgs HostPaths Codec Envelope.
From S2P Require Import Queue PlanDoc Effects Worker ReviewArgv SddRuntime JsOps ReviewRun.
Open Scope Z_scope.

Inductive ReviewArtifactValidation :=
  | validation_passed
  | validation_failed (reason : jsstr)
  | validator_unavailable (reason : jsstr)
  | not_attempted.

Definition validation_json (v : ReviewArtifactValidation) : jsval :=
  let entry status code reason := JObj ([(js "status", JStr (js status)); (js "code", JStr (js code))]
    ++ match reason with Some r => [(js "reason", JStr r)] | None => [] end) in
  match v with
  | validation_passed => entry "passed" "review_artifact_validation_passed" None
  | validation_failed r => entry "failed" "review_artifact_validation_failed" (Some r)
  | validator_unavailable r => entry "unavailable" "review_artifact_validator_unavailable" (Some r)
  | not_attempted => entry "not_attempted" "review_artifact_not_attempted" None
  end%string.

Inductive ignore_status := ignore_unchanged | ignore_created | ignore_changed.
Definition ignore_name (s : ignore_status) : jsstr :=
  js match s with ignore_unchanged => "unchanged" | ignore_created => "created" | ignore_changed => "changed" end.

Inductive ReviewPersistResult :=
  | persisted (path : jsstr) (validation : ReviewArtifactValidation) (ignore : ignore_status)
  | incomplete (stagingPath : jsstr) (validation : ReviewArtifactValidation) (ignore : ignore_status)
  | report_only.

Definition persist_json (r : ReviewPersistResult) : jsval :=
  let tail v i := [(js "validation", validation_json v); (js "ignoreFile", JObj [(js "status", JStr (ignore_name i))])] in
  match r with
  | persisted p v i => JObj ([(js "outcome", JStr (js "persisted")); (js "path", JStr p)] ++ tail v i)
  | incomplete p v i => JObj ([(js "outcome", JStr (js "incomplete")); (js "stagingPath", JStr p)] ++ tail v i)
  | report_only => JObj ((js "outcome", JStr (js "report_only")) :: tail not_attempted ignore_unchanged)
  end.

Definition ReviewPersistError (code : string) (parts : list jsstr) : exn := Exn (ECoded (js code)) (concat parts).

(** ReviewPersistError among the errors of this module: the codes of the others
    are those of the system. *)
Definition persist_code (e : exn) : option jsstr :=
  match exn_class e with ECoded c => if startsWith c (js "review_") then Some c else None | _ => None end.

(** ** The preflight *)
Definition blocker (code message : string) : jsval :=
  JObj [(js "code", JStr (js code)); (js "message", JStr (take 128 (js message)))].

(** What the recorded provenance lacks. *)
Definition provenance_blockers (provenance : jsval) : list jsval :=
  if is_falsy provenance
  then [blocker "review_persist_finalize_provenance_missing" "review run has no finalize phase provenance"]
  else (if is_text (at_key provenance "phase") "finalize" then []
        else [blocker "review_persist_finalize_phase_invalid" "recorded artifact was not published by the finalize phase"])
    ++ (if is_text (at_key provenance "outcome") "accepted" then []
        else [blocker "review_persist_finalize_outcome_invalid" "recorded finalize phase did not have an accepted outcome"])
    ++ (if is_falsy (at_key provenance "artifact")
        then [blocker "review_persist_finalize_provenance_missing" "accepted finalize phase has no published artifact"] else []).

(** [v?.slice(0, 128) ?? null] *)
Definition slice_or_null (v : jsval) : res jsval :=
  match v with
  | JStr s => Ok (JStr (take 128 s))
  | JArr xs => Ok (JArr (take 128 xs))
  | _ => Throw (type_error "slice is not a function")
  end.

(** The counts of a document: integers of fields named so, and lengths of
    arrays, of at most sixteen fields. *)
Definition count_of (key : jsstr) (v : jsval) : option Z :=
  match v with
  | JArr xs => Some (Z.of_nat (length xs))
  | JNum (NumInt z) => if endsWith key (js "_count") then Some z else None
  | _ => None
  end.

Fixpoint document_counts (counts fields : list (jsstr * jsval)) : list (jsstr * jsval) :=
  match fields with
  | [] => counts
  | (k, v) :: rest =>
      if (16 <=? length counts)%nat then counts
      else match count_of k v with
           | Some z => document_counts (if str_eqb (take 128 k) (js "__proto__") then counts else set_key (take 128 k) (jint z) counts) rest
           | None => document_counts counts rest
           end
  end.

Definition optional_text (v : jsval) : jsval := match v with JStr s => JStr (take 128 s) | _ => JNull end.

(** The verdict of a document, and where it was found. *)
Definition verdict_of (document : jsval) : option (jsstr * string) :=
  match at_key document "verdict" with
  | JStr v => Some (v, "verdict"%string)
  | _ => match at_key document "plan_assessment" with
         | JObj fs => match at_key (JObj fs) "verdict" with JStr v => Some (v, "plan_assessment.verdict"%string) | _ => None end
         | _ => None
         end
  end.

(** What is in a finalize artifact: its kind, its document, and the blockers. *)
Definition wrapper_of (bytes : list N) : jsval * list jsval :=
  match json_parse (utf8_lossy bytes) with
  | None => (JUndef, [blocker "review_persist_preflight_json_invalid" "finalize artifact is not a JSON object"])
  | Some (JObj fs) => (JObj fs, [])
  | Some _ => (JObj [], [])
  end.

Definition wrapper_blockers (wrapper : jsval) : list jsval :=
  if is_undef wrapper then []
  else if is_text (optional_text (at_key wrapper "kind")) "writing" then
    match at_key wrapper "artifact" with
    | JObj _ => []
    | _ => [blocker "review_persist_artifact" "finalize writing wrapper must contain a JSON artifact object"]
    end
  else [blocker "review_persist_kind" "finalize output is not a writing artifact"].

Definition input_source_name (v : jsval) : jsstr :=
  match v with
  | JStr s => if mem s (map js ["stdin"; "inputRef"; "inputRefs"]%string) then s else js "unknown"
  | _ => js "unknown"
  end.

Definition preflight_json (runId projectDir : jsstr) (record : ReviewRunRecord) (recorded provenance wrapper : jsval) (blockers : list jsval) : res jsval :=
  let document := at_key wrapper "artifact" in
  let verdict := match document with JObj _ => verdict_of document | _ => None end in
  name ← (if is_nullish recorded then Ok JNull else slice_or_null (at_key recorded "name"));
  sha ← (if is_nullish recorded then Ok JNull else slice_or_null (at_key recorded "sha256"));
  Ok (JObj [(js "runId", JStr (take 128 runId)); (js "projectDir", JStr (take 128 projectDir));
    (js "baseObjectId", optional_text (rec record "baseObjectId")); (js "headObjectId", optional_text (rec record "headObjectId"));
    (js "changedPaths", jint (match rec record "changedPaths" with JArr xs => Z.of_nat (length xs) | _ => 0 end));
    (js "totalBytes", match rec record "totalBytes" with JNum (NumInt z) => jint z | _ => jint 0 end);
    (js "finalize", JObj [(js "name", name);
                          (js "bytes", if is_nullish (at_key recorded "bytes") then JNull else at_key recorded "bytes");
                          (js "sha256", sha)]);
    (js "finalizeInput", JStr (input_source_name (at_key provenance "inputSource")));
    (js "kind", optional_text (at_key wrapper "kind"));
    (js "verdict", match verdict with Some (v, _) => JStr (take 128 v) | None => JNull end);
    (js "verdictSource", match verdict with Some (_, s) => JStr (js s) | None => JNull end);
    (js "counts", match document with JObj fs => JObj (key_order (document_counts [] fs)) | _ => JObj [] end);
    (js "blockers", JArr (take 16 blockers))]).

(** ** Contents *)
Definition REVIEW_IGNORE_MAX_BYTES : Z := 64 * 1024.
Definition document_bytes (fields : list (jsstr * jsval)) : list N :=
  let document := if has_own (JObj fields) "schema_version" then fields else fields ++ [(js "schema_version", jint 1)] in
  utf8_encode (json_indented (JObj document) ++ [10%N]).

(** [/proc/self/fd/<fd>[/name]] *)
Definition procFdPath (fd : Z) (name : option jsstr) : jsstr :=
  js "/proc/self/fd/" ++ dec fd ++ match name with Some ((_ :: _) as n) => [SLASH] ++ n | _ => [] end.

Definition ignore_entry (runDir : jsstr) : jsstr := js "systematic/ce-review/" ++ basename runDir ++ [SLASH].
Definition ignore_bytes (existing : list N) (entry : jsstr) : list N :=
  existing ++ utf8_encode ((if (0 <? length existing)%nat && negb (List.last existing 10 =? 10)%N then [10%N] else []) ++ entry ++ [10%N]).

Record PersistReviewArtifactOptions := mkPersist {
  pa_root : jsstr; pa_runId : jsstr; pa_runDir : jsstr; pa_storeRunDir : jsstr; pa_reportOnly : bool;
  pa_outcome : jsval; pa_output : jsval;                  (* finalize *)
  pa_config : ReviewConfig
}.

Section persist.
Context (ctx : OpContext) (cwd tmpdir : jsstr) (sha256_hex : list N -> jsstr) (process_PATH homedir : jsstr).

Definition close_fd (fd : Z) : M unit := call_unit (env ctx) (CCloseDirectory fd).

Definition preflight_artifact (projectDir runId : jsstr) (recorded : jsval) (store : ReviewRunStore) (sessionID : jsstr) (maxFileBytes : Z)
    : M (option (list N) * list jsval) :=
  if is_falsy recorded then mret (None, []) else
  read ← attempt (dir ← lift (runDir_ store sessionID (JStr runId));
                  readRunArtifact ctx cwd sha256_hex dir (at_key recorded "name") maxFileBytes false);
  mret (match read with
        | Ok a =>
            (Some (rd_data a),
             if is_int_of (at_key recorded "bytes") (rd_bytes a) && is_text_of (at_key recorded "sha256") (rd_sha256 a) then []
             else [blocker "review_persist_finalize_digest_mismatch" "finalize artifact bytes no longer match the recorded length and sha256"])
        | Throw _ => (None, [blocker "review_persist_preflight_artifact_unreadable" "finalize artifact cannot be read safely"])
        end).

Definition preflightReviewPersist (projectDir runId finalizeRef : jsstr) (store : ReviewRunStore) (sessionID : jsstr) (maxFileBytes : Z) : M jsval :=
  projectDir ← call_text (env ctx) (CRealpath (resolve1 cwd projectDir));
  record ← readRecord ctx cwd sha256_hex store sessionID (JStr runId);
  let provenance := rec record "finalizeProvenance" in
  let recorded := at_key provenance "artifact" in
  read ← preflight_artifact projectDir runId recorded store sessionID maxFileBytes;
  let '(bytes, unread) := read in
  let '(wrapper, unparsed) := match bytes with Some b => wrapper_of b | None => (JUndef, []) end in
  lift (preflight_json runId projectDir record recorded provenance wrapper
    ((if is_text_of (rec record "projectRoot") projectDir then []
      else [blocker "review_persist_project_mismatch" "review run is bound to a different canonical project root"])
     ++ provenance_blockers provenance
     ++ (if negb (is_falsy recorded) && negb (is_text_of (at_key recorded "name") finalizeRef)
         then [blocker "review_persist_finalize_ref_mismatch" "finalizeRef does not name the recorded finalize artifact"] else [])
     ++ unread ++ unparsed ++ wrapper_blockers wrapper)).

(** ** Directories by descriptor *)
Definition assertRunDirectoryAnchor (anchorFd : Z) (expectedRunDir : jsstr) : M unit :=
  anchored ← catch_as (call_text (env ctx) (CRealpath (procFdPath anchorFd None)))
               (ReviewPersistError "review_persist_anchor_changed" [js "repository review directory anchor cannot be resolved; refusing publication"]);
  throw_when (negb (str_eqb anchored expectedRunDir))
    (ReviewPersistError "review_persist_anchor_changed" [js "repository review directory moved from its canonical location; refusing publication"]).

Definition assertProcFdAvailable : M unit :=
  let refused := ReviewPersistError "review_persist_fd_path_unavailable" [js "/proc/self/fd is unavailable; refusing pathname-based persistence"] in
  probe ← catch_as (call_int (env ctx) (COpenDirectory (js "/proc/self/fd"))) refused;
  try_catch (close_fd probe) (fun _ => _ ← close_fd probe; throw refused).

Definition unsafe_component (component : jsstr) : exn :=
  ReviewPersistError "review_persist_unsafe_directory" [js "unsafe review directory component: "; component].

(** One component, opened, or made and then opened. *)
Definition open_child (anchor : Z) (component : jsstr) : M Z :=
  let childPath := procFdPath anchor (Some component) in
  try_catch (call_int (env ctx) (COpenDirectory childPath)) (fun e =>
    if negb (has_code e "ENOENT") then throw (unsafe_component component) else
    _ ← try_catch (call_unit (env ctx) (CMkdirOne childPath 448)) (fun e' => if has_code e' "EEXIST" then mret tt else throw e');
    catch_as (call_int (env ctx) (COpenDirectory childPath)) (unsafe_component component)).

(** The distinct descriptors, in the order of first occurrence. *)
Fixpoint distinct_fds (seen : list Z) (fds : list (option Z)) : list Z :=
  match fds with
  | [] => []
  | Some fd :: rest => if bool_decide (fd ∈ seen) then distinct_fds seen rest else fd :: distinct_fds (fd :: seen) rest
  | None :: rest => distinct_fds seen rest
  end.

Definition close_all (pending anchor context : option Z) : M unit :=
  for_eachM (fun fd => best_effort (close_fd fd)) (distinct_fds [] [pending; anchor; context]).

Fixpoint open_components (anchor : Z) (contextFd : option Z) (components : list jsstr) : M (Z * Z) :=
  match components with
  | [] =>
      match contextFd with
      | Some c => mret (c, anchor)
      | None => _ ← close_all None (Some anchor) contextFd;
                throw (ReviewPersistError "review_persist_unsafe_directory" [js "review context directory was not resolved"])
      end
  | component :: rest =>
      child ← try_catch (open_child anchor component) (fun e => _ ← close_all None (Some anchor) contextFd; throw e);
      let contextFd := if str_eqb component (js ".context") then Some child else contextFd in
      _ ← when (negb (bool_decide (Some anchor = contextFd)))
            (try_catch (close_fd anchor) (fun e => _ ← close_all (Some child) (Some anchor) contextFd; throw e));
      open_components child contextFd rest
  end.

(** [split(/[\\/]/).filter(Boolean)] *)
Definition path_components (p : jsstr) : list jsstr :=
  List.filter (fun s => negb (str_eqb s [])) (split_on SLASH (map (fun c => if (c =? 92)%N then SLASH else c) p)).

Definition openContainedRunDirectories (root runDir : jsstr) : M (Z * Z) :=
  anchor ← call_int (env ctx) (COpenDirectory root);
  open_components anchor None (path_components (drop (length root) runDir)).

(** ** Writing through a temporary file

    The file is created exclusively with mode 0600 after [before], written and
    closed, and [after] publishes it; whatever fails, the descriptor is closed
    and the file removed. *)
Definition write_temp (tmp : jsstr) (before writes after : M unit) : M unit :=
  let discard e := _ ← best_effort (call_unit (env ctx) (CUnlink tmp)); throw e in
  let discard_open e := _ ← call_unit (env ctx) (CCloseFd tmp); discard e in
  _ ← try_catch (_ ← before; call_unit (env ctx) (COpenExclusive tmp 384)) discard;
  _ ← try_catch (_ ← writes; call_unit (env ctx) (CCloseFd tmp)) discard_open;
  try_catch after discard.

Definition synced_write (tmp : jsstr) (bytes : list N) : M unit :=
  _ ← call_unit (env ctx) (CFchmod tmp 384);
  _ ← call_unit (env ctx) (CWriteBytes tmp bytes);
  call_unit (env ctx) (CFsyncFd tmp).

(** ** The ignore file *)
Definition check_ignored (root runDir : jsstr) : M SpawnResult :=
  call_proc (env ctx) (CSpawnReplace [js "git"; js "check-ignore"; js "-q"; js "--"; join [runDir; js "review-summary.json"]]
    (mkOpts (Some root) (jint 10000)
       (JObj [(js "PATH", JStr process_PATH); (js "HOME", JStr homedir); (js "GIT_CONFIG_NOSYSTEM", JStr (js "1")); (js "GIT_TERMINAL_PROMPT", JStr (js "0"))])
       (Some 4096)) None).

Definition status_text (r : SpawnResult) : jsstr := match status r with Some z => dec z | None => js "null" end.

Definition unsafe_ignore : exn := ReviewPersistError "review_ignore_unsafe_target" [js ".context/.gitignore must be a regular file"].
Definition ignore_too_large (observed : string) (bytes : Z) : exn :=
  ReviewPersistError "review_ignore_file_too_large"
    [js ".context/.gitignore exceeds "; dec REVIEW_IGNORE_MAX_BYTES; js "-byte cap (observed "; js observed; dec bytes; js " bytes)"].

(** The bytes of an existing ignore file: a regular file, within the cap. *)
Definition read_ignore (ignore : jsstr) (stat : Stats) : M (list N) :=
  _ ← throw_when (isSymbolicLink stat) (ReviewPersistError "review_ignore_symlink" [js ".context/.gitignore must not be a symlink"]);
  _ ← throw_when (negb (isFile stat)) unsafe_ignore;
  size ← call_int (env ctx) (CFileSize ignore);
  _ ← throw_when (REVIEW_IGNORE_MAX_BYTES <? size) (ignore_too_large "" size);
  _ ← call_unit (env ctx) (COpenNoFollow ignore);
  try_finally
    (opened ← call_stats (env ctx) (CFdStats ignore);
     _ ← throw_when (negb (isFile opened)) unsafe_ignore;
     fdSize ← call_int (env ctx) (CFdSize ignore);
     _ ← throw_when (REVIEW_IGNORE_MAX_BYTES <? fdSize) (ignore_too_large "" fdSize);
     bytes ← call_text (env ctx) (CReadFd ignore (Some (REVIEW_IGNORE_MAX_BYTES + 1)));
     let count := Z.of_nat (length bytes) in
     _ ← throw_when (REVIEW_IGNORE_MAX_BYTES <? count) (ignore_too_large "at least " count);
     mret bytes)
    (call_unit (env ctx) (CCloseFd ignore)).

(** Whether the file existed, and its bytes; a file that is not there is empty. *)
Definition existing_ignore (ignore : jsstr) : M (bool * list N) :=
  found ← attempt (call_stats (env ctx) (CLstat ignore));
  match found with
  | Throw e => if has_code e "ENOENT" then mret (false, []) else throw e
  | Ok stat =>
      try_catch (bytes ← read_ignore ignore stat; mret (true, bytes))
        (fun e => if has_code e "ENOENT" then mret (true, []) else throw e)
  end.

Definition ensureReviewIgnored (root runDir : jsstr) (contextFd : Z) : M ignore_status :=
  initial ← check_ignored root runDir;
  if bool_decide (status initial = Some 0) then mret ignore_unchanged else
  _ ← throw_when (negb (bool_decide (status initial = Some 1)))
        (ReviewPersistError "review_ignore_check_failed" [js "git check-ignore failed with status "; status_text initial]);
  let ignore := procFdPath contextFd (Some (js ".gitignore")) in
  found ← existing_ignore ignore;
  let '(existed, existing) := found in
  let entry := ignore_entry runDir in
  _ ← throw_when (mem entry (split_lines_crlf (utf8_lossy existing)))
        (ReviewPersistError "review_ignore_ineffective" [js ".context/.gitignore already contains the review entry but git does not ignore the run artifact"]);
  uuid ← call_text (env ctx) CRandomUUID;
  let tmp := procFdPath contextFd (Some (js ".gitignore." ++ uuid ++ js ".tmp")) in
  _ ← write_temp tmp (mret tt) (call_unit (env ctx) (CWriteBytes tmp (ignore_bytes existing entry)))
        (_ ← call_unit (env ctx) (CRename tmp ignore); call_unit (env ctx) (CFsyncDirectory contextFd));
  verified ← check_ignored root runDir;
  let changed := if negb existed then ignore_created else ignore_changed in
  _ ← throw_when (negb (bool_decide (status verified = Some 0)))
        (ReviewPersistError "review_ignore_ineffective"
           [js "git check-ignore did not ignore the review artifact (status "; status_text verified; js "); .context/.gitignore was ";
            ignore_name changed; js " and remains modified"]);
  mret changed.

(** ** Validation *)
Definition validator_call (interpreter helper target dir : jsstr) : call :=
  CSpawnReplace [interpreter; helper; js "artifact"; target]
    (mkOpts (Some dir) (jint 30000) (JObj [(js "PATH", JStr process_PATH)]) (Some (64 * 1024))) None.

Definition judge (r : SpawnResult) : ReviewArtifactValidation :=
  let clean := negb (timedOut r) && negb (outputTruncated r) in
  let excerpt := take 4096 (stderr r) in
  if bool_decide (status r = Some 0) && clean then validation_passed
  else if bool_decide (status r = Some 1) && clean then validation_failed excerpt
  else if bool_decide (status r = Some 3) && negb (timedOut r)
  then validator_unavailable (js "legacy artifact: validator returned exit status 3 despite schema_version insertion")
  else validator_unavailable (match excerpt with [] => js "validator exited with status " ++ status_text r | s => s end).

Definition validateArtifact (config : ReviewConfig) (target dir : jsstr) : M ReviewArtifactValidation :=
  pinned ← attempt
    (helper ← assertPinnedReviewHelper ctx cwd sha256_hex (reviewHelperPath config) (reviewHelperSha256 config);
     interpreter ← resolveReviewHelperInterpreter ctx cwd (reviewHelperInterpreter config);
     mret (interpreter, ph_path helper));
  match pinned with
  | Throw e => mret (validator_unavailable (exn_msg e))
  | Ok tools =>
      result ← attempt (call_proc (env ctx) (validator_call (fst tools) (snd tools) target dir));
      mret (match result with Ok r => judge r | Throw e => validator_unavailable (exn_msg e) end)
  end.

(** ** persistReviewArtifact *)
Definition REVIEW_SUMMARY : jsstr := js "review-summary.json".
Definition stagedRelativePath (runId : jsstr) : jsstr := js ".context/systematic/ce-review/" ++ runId ++ js "/review-summary.json".

(** What is refused before anything is touched, and the output's document. *)
Definition finalize_document (options : PersistReviewArtifactOptions) : res (option (list (jsstr * jsval))) :=
  _ ← throw_if (is_text (pa_outcome options) "structurally_rejected")
        (ReviewPersistError "review_persist_rejected" [js "cannot persist structurally rejected finalize output"]);
  _ ← throw_if (is_text (pa_outcome options) "validation_unavailable")
        (ReviewPersistError "review_persist_unavailable" [js "cannot persist unavailable finalize output"]);
  _ ← throw_if (negb (is_text (at_key (pa_output options) "kind") "writing"))
        (ReviewPersistError "review_persist_kind" [js "finalize output is not a writing artifact"]);
  Ok (plain_object (at_key (pa_output options) "artifact")).

(** The store's directory of the run, outside the project. *)
Definition staging_root (root runId storeRunDir : jsstr) : M jsstr :=
  real ← catch_as (call_text (env ctx) (CRealpath (resolve1 cwd storeRunDir)))
           (ReviewPersistError "review_persist_staging_path" [js "broker review run directory cannot be resolved; refusing staging"]);
  let from_root := relative root real in
  _ ← throw_when (negb (str_eqb (basename real) runId) || str_eqb from_root []
                  || (negb (str_eqb from_root DOTDOT) && negb (startsWith from_root (js "../"))))
        (ReviewPersistError "review_persist_staging_path"
           [js "broker review staging directory must be a run-store directory outside the project; refusing staging"]);
  mret (join [real; js "staging"]).

Definition stage_document (stagingRoot runId : jsstr) (bytes : list N) : M unit :=
  let dir := join [stagingRoot; js ".context"; js "systematic"; js "ce-review"; runId] in
  let stagedTarget := join [stagingRoot; stagedRelativePath runId] in
  _ ← call_unit (env ctx) (CMkdir dir);
  _ ← call_unit (env ctx) (CChmod dir 448);
  uuid ← call_text (env ctx) CRandomUUID;
  let tmp := stagedTarget ++ js "." ++ uuid ++ js ".tmp" in
  write_temp tmp (mret tt) (synced_write tmp bytes) (call_unit (env ctx) (CRename tmp stagedTarget)).

Definition publish_document (anchorFd : Z) (runDir : jsstr) (bytes : list N) : M unit :=
  uuid ← call_text (env ctx) CRandomUUID;
  let tmp := procFdPath anchorFd (Some (js ".review-summary." ++ uuid ++ js ".tmp")) in
  write_temp tmp (assertRunDirectoryAnchor anchorFd runDir) (synced_write tmp bytes)
    (_ ← assertRunDirectoryAnchor anchorFd runDir;
     _ ← call_unit (env ctx) (CRename tmp (procFdPath anchorFd (Some REVIEW_SUMMARY)));
     call_unit (env ctx) (CFsyncDirectory anchorFd)).

(** Staged, validated, and only then published. *)
Definition stage_and_publish (options : PersistReviewArtifactOptions) (runDir stagingRoot : jsstr) (anchorFd : Z) (bytes : list N)
    (ignore : ignore_status) : M ReviewPersistResult :=
  let runId := pa_runId options in
  _ ← stage_document stagingRoot runId bytes;
  validation ← validateArtifact (pa_config options) (stagedRelativePath runId) stagingRoot;
  match validation with
  | validation_passed =>
      _ ← publish_document anchorFd runDir bytes;
      mret (persisted (join [runDir; REVIEW_SUMMARY]) validation ignore)
  | _ => mret (incomplete (js "staging/" ++ stagedRelativePath runId) validation ignore)
  end.

(** A failure after the ignore file changed says so. *)
Definition remains_modified (ignore : ignore_status) (e : exn) : exn :=
  match ignore with
  | ignore_unchanged => e
  | _ => Exn (ECoded (default (js "review_persist_partial_project_change") (persist_code e)))
             (exn_msg e ++ js "; .context/.gitignore was " ++ ignore_name ignore ++ js " and remains modified")
  end.

Definition persistReviewArtifact (options : PersistReviewArtifactOptions) : M ReviewPersistResult :=
  artifact ← lift (finalize_document options);
  if pa_reportOnly options then mret report_only else
  root ← call_text (env ctx) (CRealpath (resolve1 cwd (pa_root options)));
  let runId := pa_runId options in
  _ ← throw_when (negb (REVIEW_RUN_ID_RE runId)) (ReviewPersistError "review_persist_run_id" [js "invalid review run id"]);
  let runDir := join [root; js ".context"; js "systematic"; js "ce-review"; runId] in
  _ ← throw_when (negb (str_eqb (resolve1 cwd (pa_runDir options)) runDir))
        (ReviewPersistError "review_persist_path" [js "run directory does not match the repository review path"]);
  fields ← lift (match artifact with
                 | Some fs => Ok fs
                 | None => Throw (ReviewPersistError "review_persist_artifact" [js "finalize artifact must be a JSON object"])
                 end);
  stagingRoot ← staging_root root runId (pa_storeRunDir options);
  let bytes := document_bytes fields in
  _ ← assertProcFdAvailable;
  fds ← openContainedRunDirectories root runDir;
  let '(contextFd, anchorFd) := fds in
  try_finally
    (ignore ← ensureReviewIgnored root runDir contextFd;
     try_catch (stage_and_publish options runDir stagingRoot anchorFd bytes ignore) (fun e => throw (remains_modified ignore e)))
    (try_finally (close_fd anchorFd) (close_fd contextFd)).
End persist.
