(* ===== verification/ReviewService.v ===== *)
(** * The operations of the review store (broker/src/service.ts 3742-3850)

    Reading a diff, running a phase, preflighting and persisting an artifact,
    and materialising a range: each opens the store of the session's project. *)
From Stdlib Require Import QArith.
From S2P Require Import Prelude JsVal Json Types State Policy Path Validation HostArgs HostPaths Codec Redact Envelope.
From S2P Require Import RolePolicy GitOps Artifacts Queue Effects Worker Results Diff Authorization Server FileOps HostSteps.
From S2P Require Import ReviewArgv SddRuntime JsOps ReviewRun ReviewMaterialize ReviewPipeline ReviewPersist.
Open Scope Z_scope.

Section service.
Context (ctx : OpContext) (config : ReviewConfig) (cwd tmpdir : jsstr) (sha256_hex : list N -> jsstr) (process_PATH homedir : jsstr).

(** The payload of a request whose session may call the operation. *)
Definition review_payload (operation : string) (req : BrokerRequestEnvelope) : M jsval :=
  payload ← lift (payloadOf req);
  _ ← authorize ctx (js operation) (req_sessionID req) orchestrator;
  mret payload.

Definition project_root (payload : jsval) : M jsstr :=
  root ← lift (resolveCanonicalProjectRoot ctx (at_key payload "projectDir"));
  mret (snd root).

Definition open_store (projectRoot : jsstr) (readOnly : bool) : M ReviewRunStore :=
  newReviewRunStore ctx cwd tmpdir (reviewRunStoreOptions config projectRoot readOnly).

Definition text_or_none (v : jsval) (e : exn) : res (option jsstr) :=
  match v with JUndef => Ok None | JStr s => Ok (Some s) | _ => Throw e end.

Definition buildReviewDiffReadOp (req : BrokerRequestEnvelope) : M jsval :=
  payload ← review_payload "reviewDiffRead" req;
  let refused := invalid "reviewDiffRead requires a runId and optional slice string" in
  runId ← lift (match at_key payload "runId" with JStr s => Ok s | _ => Throw refused end);
  slice ← lift (text_or_none (at_key payload "slice") refused);
  projectRoot ← project_root payload;
  store ← createReviewDiffStore ctx cwd tmpdir (reviewRunStoreOptions config projectRoot false);
  readReviewDiff ctx cwd sha256_hex runId slice (req_sessionID req) store.

Definition buildReviewPipelineRunOp (req : BrokerRequestEnvelope) : M jsval :=
  payload ← review_payload "reviewPipelineRun" req;
  projectRoot ← project_root payload;
  store ← open_store projectRoot false;
  result ← runReviewPipeline ctx cwd sha256_hex process_PATH store (req_sessionID req) payload config;
  mret (pipeline_json result).

(** The run and the reference a persist names, and its mode. *)
Definition persist_payload (payload : jsval) : res (jsstr * jsstr * bool) :=
  refs ← match at_key payload "runId", at_key payload "finalizeRef" with
         | JStr r, JStr f => Ok (r, f)
         | _, _ => Throw (invalid "runId and finalizeRef must be strings")
         end;
  let mode := at_key payload "mode" in
  _ ← throw_if (negb (is_undef mode) && negb (is_text mode "write") && negb (is_text mode "report_only"))
        (invalid "mode must be write or report_only");
  Ok (refs, is_text mode "report_only").

Definition buildReviewPersistPreflightOp (req : BrokerRequestEnvelope) : M jsval :=
  payload ← review_payload "reviewPersistPreflight" req;
  named ← lift (persist_payload payload);
  let '(runId, finalizeRef, _) := named in
  projectRoot ← project_root payload;
  store ← open_store projectRoot true;
  preflightReviewPersist ctx cwd sha256_hex projectRoot runId finalizeRef store (req_sessionID req) (reviewRunMaxFileBytes config).

(** The record's provenance: an accepted finalize phase with its artifact. *)
Definition accepted_provenance (record : ReviewRunRecord) (projectRoot finalizeRef : jsstr) : res jsval :=
  _ ← throw_if (negb (is_text_of (rec record "projectRoot") projectRoot))
        (ReviewPersistError "review_persist_project_mismatch" [js "review run is bound to a different canonical project root"]);
  let provenance := rec record "finalizeProvenance" in
  _ ← throw_if (is_falsy provenance)
        (ReviewPersistError "review_persist_finalize_provenance_missing" [js "review run has no finalize phase provenance"]);
  _ ← throw_if (negb (is_text (at_key provenance "phase") "finalize"))
        (ReviewPersistError "review_persist_finalize_phase_invalid" [js "recorded artifact was not published by the finalize phase"]);
  _ ← throw_if (negb (is_text (at_key provenance "outcome") "accepted"))
        (ReviewPersistError "review_persist_finalize_outcome_invalid" [js "recorded finalize phase did not have an accepted outcome"]);
  let artifact := at_key provenance "artifact" in
  _ ← throw_if (is_falsy artifact)
        (ReviewPersistError "review_persist_finalize_provenance_missing" [js "accepted finalize phase has no published artifact"]);
  _ ← throw_if (negb (is_text_of (at_key artifact "name") finalizeRef))
        (ReviewPersistError "review_persist_finalize_ref_mismatch" [js "finalizeRef does not name the recorded finalize artifact"]);
  Ok provenance.

Definition buildReviewPersistOp (req : BrokerRequestEnvelope) : M jsval :=
  payload ← review_payload "reviewPersist" req;
  named ← lift (persist_payload payload);
  let '(runId, finalizeRef, reportOnly) := named in
  projectRoot ← project_root payload;
  store ← open_store projectRoot false;
  runDir ← lift (runDir_ store (req_sessionID req) (JStr runId));
  record ← readRecord ctx cwd sha256_hex store (req_sessionID req) (JStr runId);
  provenance ← lift (accepted_provenance record projectRoot finalizeRef);
  let recorded := at_key provenance "artifact" in
  artifact ← readRunArtifact ctx cwd sha256_hex runDir (JStr finalizeRef) (reviewRunMaxFileBytes config) false;
  _ ← throw_when (negb (is_int_of (at_key recorded "bytes") (rd_bytes artifact)) || negb (is_text_of (at_key recorded "sha256") (rd_sha256 artifact)))
        (ReviewPersistError "review_persist_finalize_digest_mismatch" [js "finalize artifact bytes no longer match the recorded length and sha256"]);
  output ← lift (match json_parse (utf8_lossy (rd_data artifact)) with
                 | Some v => Ok v
                 | None => Throw (invalid "finalize reference is not valid JSON")
                 end);
  result ← persistReviewArtifact ctx cwd sha256_hex process_PATH homedir
             (mkPersist projectRoot runId (join [projectRoot; js ".context"; js "systematic"; js "ce-review"; runId]) runDir reportOnly
                (at_key provenance "outcome") output config);
  mret (persist_json result).

Definition text_paths (v : jsval) : res (option (list jsstr)) :=
  let refused := invalid "paths must be an array of strings" in
  match v with
  | JUndef => Ok None
  | JArr xs => ps ← map_res (fun x => match x with JStr s => Ok s | _ => Throw refused end) xs; Ok (Some ps)
  | _ => Throw refused
  end.

Definition context_lines (v : jsval) : res (option Z) :=
  let refused := invalid "contextLines must be an integer from 0 through 100" in
  match v with
  | JUndef => Ok None
  | JNum (NumInt z) => if (z <? 0) || (100 <? z) then Throw refused else Ok (Some z)
  | _ => Throw refused
  end.

Definition buildReviewMaterializeOp (req : BrokerRequestEnvelope) : M jsval :=
  payload ← review_payload "reviewMaterialize" req;
  baseRef ← lift (match at_key payload "baseRef" with
                  | JStr ((_ :: _) as s) => Ok s
                  | _ => Throw (invalid "baseRef must be a non-empty string")
                  end);
  headRef ← lift (text_or_none (at_key payload "headRef") (invalid "headRef must be a string"));
  contextLines ← lift (context_lines (at_key payload "contextLines"));
  paths ← lift (text_paths (at_key payload "paths"));
  projectRoot ← project_root payload;
  store ← open_store projectRoot false;
  materializeReviewRange ctx sha256_hex process_PATH (mkMaterialize baseRef headRef contextLines paths false) (req_sessionID req) projectRoot store.

(** The handler of each operation of this part. *)
Definition review_operations : list (Operation * (BrokerRequestEnvelope -> M jsval)) :=
  [(Op.reviewDiffRead, buildReviewDiffReadOp); (Op.reviewPipelineRun, buildReviewPipelineRunOp);
   (Op.reviewPersistPreflight, buildReviewPersistPreflightOp); (Op.reviewPersist, buildReviewPersistOp);
   (Op.reviewMaterialize, buildReviewMaterializeOp)].
End service.
