(* ===== verification/Config.v ===== *)
(** * Configuration and startup (broker/src/config.ts, main.ts)

    The environment variables and the command line as functions to a
    configuration or a refusal: the knobs of config.ts, the table of test
    runners, the merge of the overrides over the defaults with its checks, and
    the startup of main.ts up to the server.  Objects are the lists of their
    fields, so that what an override hides is what it hides in the source.  The
    environment, the home, temporary and working directories and the text of
    a syntax error of JSON.parse are arguments. *)
From Stdlib Require Import QArith.
From S2P Require Import Prelude JsVal Json Types State Policy Path Validation HostPaths Envelope RolePolicy GitOps Queue Effects Worker.
From S2P Require Import Authorization Codec TestRun ReviewRun SddRuntime.
Open Scope Z_scope.

Definition ConfigError (m : jsstr) : exn := Exn EError m.

Definition or_fail {A} (o : option A) (e : exn) : res A := match o with Some a => Ok a | None => Throw e end.

(** ** The table of test runners *)
Definition runner_char (c : N) : bool := is_lower c || is_digit c.
(** [/^[a-z0-9][a-z0-9-]{0,31}$/] *)
Definition RUNNER_ID_RE (s : jsstr) : bool :=
  match s with c :: r => runner_char c && re_class (fun c => runner_char c || (c =? 45)%N) 0 31 r | [] => false end.

(** [cwd.split(/[\\/]/)] *)
Definition cwd_parts (cwd : jsstr) : list jsstr := concat (map (split_on 92) (split_on SLASH cwd)).

Definition text_id (v : jsval) : option jsstr := match v with JStr s => if RUNNER_ID_RE s then Some s else None | _ => None end.
Definition text_nonempty (v : jsval) : option jsstr := match v with JStr (c :: s) => Some (c :: s) | _ => None end.
Definition text_arg (v : jsval) : option jsstr := match v with JStr s => if 4096 <? byteLength s then None else Some s | _ => None end.
Definition text_argv (v : jsval) : option (list jsstr) := match v with JArr (x :: xs) => mapM text_arg (x :: xs) | _ => None end.
Definition text_cwd (v : jsval) : option jsstr :=
  cwd ← text_nonempty v;
  if negb (str_eqb cwd DOT) && (startsWith cwd [SLASH] || mem DOTDOT (cwd_parts cwd)) then None else Some cwd.
Definition int_between (lo hi : Z) (v : jsval) : option Z :=
  match v with JNum (NumInt z) => if (z <? lo) || (hi <? z) then None else Some z | _ => None end.

Definition runner_invalid (index : nat) (what : string) : exn :=
  ConfigError (js "invalid BROKER_TEST_RUNNERS[" ++ dec (Z.of_nat index) ++ js "]." ++ js what).

(** One entry, given the ids of the entries before it. *)
Definition parse_runner (ids : list jsstr) (index : nat) (entry : jsval) : res TestRunnerConfig :=
  let get k := field entry (js k) in
  let fail := runner_invalid index in
  _ ← throw_if (match entry with JObj _ => false | _ => true end) (fail "entry");
  id ← or_fail (text_id (get "id"%string)) (fail "id");
  _ ← throw_if (mem id ids) (ConfigError (js "invalid BROKER_TEST_RUNNERS: duplicate id '" ++ id ++ js "'"));
  language ← or_fail (text_nonempty (get "language"%string)) (fail "language");
  argv ← or_fail (text_argv (get "argv"%string)) (fail "argv");
  _ ← throw_if (negb (isAbsolute (nth 0 argv []))) (fail "argv[0] must be absolute");
  cwd ← or_fail (text_cwd (get "cwd"%string)) (fail "cwd");
  timeoutMs ← or_fail (int_between 1000 600000 (get "timeoutMs"%string)) (fail "timeoutMs");
  maxOutputBytes ← or_fail (int_between 1024 4194304 (get "maxOutputBytes"%string)) (fail "maxOutputBytes");
  Ok (mkRunner id language argv cwd timeoutMs maxOutputBytes).

Fixpoint parse_runners (ids : list jsstr) (index : nat) (entries : list jsval) : res (list TestRunnerConfig) :=
  match entries with
  | [] => Ok []
  | entry :: entries =>
      r ← parse_runner ids index entry;
      rs ← parse_runners (rn_id r :: ids) (S index) entries;
      Ok (r :: rs)
  end.

Definition runners_not_array : exn := ConfigError (js "invalid BROKER_TEST_RUNNERS: expected a JSON array").

Definition parseTestRunners (raw : option jsstr) : res (list TestRunnerConfig) :=
  match raw with
  | None | Some [] => Ok []
  | Some raw => match json_parse raw with Some (JArr entries) => parse_runners [] 0 entries | _ => Throw runners_not_array end
  end.

Definition runner_json (r : TestRunnerConfig) : jsval :=
  JObj [(js "id", JStr (rn_id r)); (js "language", JStr (rn_language r)); (js "argv", JArr (map JStr (rn_argv r)));
    (js "cwd", JStr (rn_cwd r)); (js "timeoutMs", jint (rn_timeoutMs r)); (js "maxOutputBytes", jint (rn_maxOutputBytes r))].

(** ** The defaults *)
Definition DEFAULT_PROTECTED_PATHS : list jsstr := map js
  ["**/.ssh/**"; "**/.gnupg/**"; "**/.aws/**"; "**/.kube/**"; "**/.config/gcloud/**"; "**/.docker/**";
   "**/.local/share/opencode/auth.json"; "**/.local/share/opencode/auth.json.*"; "**/.config/gh/hosts.yml";
   "**/.git-credentials"; "**/.netrc"; "**/.env*"; "**/.secret*/**"; "**/.credential*/**";
   "**/*.key"; "**/*.pem"; "**/*.p12"; "**/*.pfx"]%string.

Definition DEFAULT_PROTECTED_SECURITY_FILES : list jsstr := map js
  ["broker/src/**"; "broker/package.json"; "broker/tsconfig.json"; "nono/profile/**"; "opencode/plugins/**";
   "opencode/config-fragments/**"; "systemd-user/**"; "scripts/**"; "tests/security/**"; "tests/acceptance/**";
   "docs/threat-model.md"]%string.

Definition DEFAULT_READ_ONLY_AGENTS : list jsstr := map js
  ["gentle-orchestrator"; "pm-odd"; "pm-systematic"; "pm-sdd"; "pm-odd-astra"; "pm-systematic-astra"]%string.

Definition obj (fields : list (string * jsval)) : jsval := JObj (map (fun kv => (js (fst kv), snd kv)) fields).
Definition jtext (s : string) : jsval := JStr (js s).
Definition texts (xs : list jsstr) : jsval := JArr (map JStr xs).

Definition role_entry (model level : string) : jsval := JArr [jtext model; jtext level].
Definition DEFAULT_ROLE_MODELS : jsval := obj
  [("general", JArr []); ("researcher", role_entry "openai/gpt-5.6-luna" "low"); ("worker", role_entry "kinver/professional" "");
   ("advisor", role_entry "openai/gpt-5.6-sol" "high"); ("solver", role_entry "opencode-go/deepseek-v4-flash" "");
   ("challenger", role_entry "opencode-go/glm-5.2" "high"); ("judge", role_entry "opencode-go/qwen3.7-plus" "high");
   ("fresh_eyes", role_entry "opencode-go/kimi-k2.7-code" "")]%string.

Definition DEFAULT_PROJECTS : list jsval := [].
Definition DEFAULT_APPROVED_EXTERNAL_READ_ROOTS : list jsstr := [].
Definition DEFAULT_EXTERNAL_COPY_TARGETS : list jsstr := [].

Definition host_read (enabled : bool) (binary : string) : jsval := obj [("enabled", JBool enabled); ("binary", jtext binary)]%string.
Definition DEFAULT_HOST_READ_CONFIG : jsval := obj
  [("systemSummary", host_read true "/usr/bin/uname"); ("memory", host_read true "/usr/bin/free");
   ("diskUsage", host_read true "/usr/bin/df"); ("networkListeners", host_read true "/usr/bin/ss");
   ("processList", host_read true "/usr/bin/ps"); ("serviceStatus", host_read true "/usr/bin/systemctl");
   ("serviceLogs", host_read true "/usr/bin/journalctl"); ("tailscaleStatus", host_read true "/usr/bin/tailscale");
   ("dockerList", host_read false "/usr/bin/docker"); ("dockerLogs", host_read false "/usr/bin/docker");
   ("applyPreview", host_read true "/bin/cat")]%string.

Definition DEFAULT_REVIEW_RUN_TTL_MS : Z := 7 * 24 * 60 * 60 * 1000.
Definition DEFAULT_REVIEW_RUN_MAX_RUNS : Z := 64.

Definition default_resource : jsval := obj
  [("reserveCpuFraction", JNum (NumFrac (js "0.25"))); ("reserveMemFraction", JNum (NumFrac (js "0.25")));
   ("reserveMemBytes", jint (4 * GiB)); ("perWorkerCpu", jint 2); ("perWorkerMemBytes", jint (2 * GiB));
   ("maxPerWorkerCpu", jint 4); ("maxPerWorkerMemBytes", jint (4 * GiB)); ("maxWorkers", jint 4);
   ("maxAggregateCpu", jint 8); ("maxAggregateMemBytes", jint (8 * GiB)); ("maxApplyDiffLines", jint 200);
   ("execTimeoutMsDefault", jint 120000); ("execTimeoutMsMax", jint 600000); ("contentMaxBytes", jint (1024 * 1024));
   ("patchMaxBytes", jint (4 * 1024 * 1024)); ("outputMaxBytes", jint (512 * 1024)); ("argvItemMaxBytes", jint (4 * 1024));
   ("argvMaxItems", jint 128); ("argvTotalMaxBytes", jint (64 * 1024)); ("pathMaxBytes", jint (4 * 1024));
   ("grepQueryMaxBytes", jint 1024); ("logLinesMax", jint 500);
   ("envAllowedKeys", texts (map js ["PATH"; "HOME"; "TERM"; "LANG"; "LC_ALL"; "TMPDIR"; "CI"; "NO_COLOR"; "GIT_INDEX_FILE";
      "GIT_CONFIG_COUNT"; "GIT_CONFIG_KEY_0"; "GIT_CONFIG_VALUE_0"; "GIT_CONFIG_KEY_1"; "GIT_CONFIG_VALUE_1"]));
   ("workerUser", jtext "nobody")]%string.

Section startup.
  (* process.env, os.homedir, os.tmpdir, process.cwd, and the message of the
     error of JSON.parse *)
  Context (environ : jsstr -> option jsstr) (homedir tmpdir cwd : jsstr) (syntax_message : jsstr -> jsstr).

Definition getenv (name : string) : option jsstr := environ (js name).

Definition positiveIntEnv (name : string) (fallback : Z) : res Z :=
  match getenv name with
  | None | Some [] => Ok fallback
  | Some raw =>
      let e := Exn EError (js "invalid " ++ js name ++ js ": " ++ raw ++ js " (must be a positive integer)") in
      match number_of_text raw with NumInt z => if z <=? 0 then Throw e else Ok z | _ => Throw e end
  end.

Definition optionalStringEnv (name : string) : option jsstr :=
  match getenv name with None | Some [] => None | Some raw => Some raw end.

Definition or_undefined (o : option jsstr) : jsval := match o with Some s => JStr s | None => JUndef end.
Definition text_or_null (o : option jsstr) : jsval := match o with Some s => JStr s | None => JNull end.

(** [(raw ?? fallback).split(",").map(trim).filter(Boolean)] *)
Definition agent_list (name fallback : string) : jsval :=
  texts (List.filter (fun s => negb (str_eqb s [])) (map trim (split_on 44 (default (js fallback) (getenv name))))).

Definition runtimeDir : jsstr := match getenv "XDG_RUNTIME_DIR" with Some (c :: s) => c :: s | _ => tmpdir end.
Definition stateDir_of_env : jsstr :=
  resolve1 cwd (default (join [homedir; js ".local"; js "state"; js "opencode-sandbox"]) (getenv "BROKER_STATE_DIR")).

Definition default_config : res (list (jsstr * jsval)) :=
  maxBytes ← positiveIntEnv "BROKER_REVIEW_RUN_MAX_BYTES" (cap_maxBytes DEFAULT_REVIEW_RUN_CAPS);
  maxFileBytes ← positiveIntEnv "BROKER_REVIEW_RUN_MAX_FILE_BYTES" (cap_maxFileBytes DEFAULT_REVIEW_RUN_CAPS);
  maxPerSession ← positiveIntEnv "BROKER_REVIEW_RUN_MAX_PER_SESSION" (cap_maxPerSession DEFAULT_REVIEW_RUN_CAPS);
  maxRuns ← positiveIntEnv "BROKER_REVIEW_RUN_MAX_RUNS" DEFAULT_REVIEW_RUN_MAX_RUNS;
  ttlMs ← positiveIntEnv "BROKER_REVIEW_RUN_TTL_MS" DEFAULT_REVIEW_RUN_TTL_MS;
  runners ← parseTestRunners (getenv "BROKER_TEST_RUNNERS");
  reapIntervalMs ← positiveIntEnv "BROKER_REAP_INTERVAL_MS" 60000;
  reapIdleMs ← positiveIntEnv "BROKER_REAP_IDLE_MS" 3600000;
  artifactGraceMs ← positiveIntEnv "BROKER_ARTIFACT_GRACE_MS" 3600000;
  disconnectReapMs ← positiveIntEnv "BROKER_DISCONNECT_REAP_MS" 30000;
  queueTimeoutMs ← positiveIntEnv "BROKER_QUEUE_TIMEOUT_MS" 600000;
  queueMaxLength ← positiveIntEnv "BROKER_QUEUE_MAX_LENGTH" 32;
  Ok (map (fun kv => (js (fst kv), snd kv))
  [("socketPath", JStr (join [runtimeDir; js "opencode-sandbox-broker.sock"]));
   ("stateDir", JStr stateDir_of_env);
   ("reviewRunRoot", JStr (resolve1 cwd (default (join [stateDir_of_env; js "review-runs"]) (getenv "BROKER_REVIEW_RUN_ROOT"))));
   ("reviewRunDeniedPrefixes", JArr []);
   ("reviewRunMaxBytes", jint maxBytes); ("reviewRunMaxFileBytes", jint maxFileBytes);
   ("reviewRunMaxPerSession", jint maxPerSession); ("reviewRunMaxRuns", jint maxRuns); ("reviewRunTtlMs", jint ttlMs);
   ("reviewHelperPath", text_or_null (optionalStringEnv "BROKER_REVIEW_HELPER_PATH"));
   ("reviewHelperSha256", text_or_null (optionalStringEnv "BROKER_REVIEW_HELPER_SHA256"));
   ("reviewHelperInterpreter", text_or_null (optionalStringEnv "BROKER_REVIEW_HELPER_INTERPRETER"));
   ("logPath", or_undefined (getenv "BROKER_LOG_FILE"));
   ("msbBinary", JStr (default (js "/home/james/.local/bin/msb") (getenv "MSB_BINARY")));
   ("workerImage", JStr (default (js "debian") (getenv "MSB_WORKER_IMAGE")));
   ("workerRootDisk", or_undefined (optionalStringEnv "BROKER_WORKER_ROOT_DISK"));
   ("workerNamePrefix", jtext "oc-sandbox");
   ("projects", JArr DEFAULT_PROJECTS);
   ("testRunners", JArr (map runner_json runners));
   ("approvedExternalReadRoots", texts DEFAULT_APPROVED_EXTERNAL_READ_ROOTS);
   ("externalCopyTargets", texts DEFAULT_EXTERNAL_COPY_TARGETS);
   ("protectedPaths", texts DEFAULT_PROTECTED_PATHS);
   ("protectedSecurityFiles", texts DEFAULT_PROTECTED_SECURITY_FILES);
   ("planRootProtection", JBool (mem (toLowerCase (default [] (getenv "BROKER_PLAN_ROOT_PROTECTION"))) [js "1"; js "true"]));
   ("planWriterAgents", agent_list "BROKER_PLAN_WRITER_AGENTS" "planner");
   ("planMiniWriterAgents", agent_list "BROKER_PLAN_MINI_WRITER_AGENTS" "pm-odd,pm-systematic");
   ("advisorProjects", JArr []);
   ("reapIntervalMs", jint reapIntervalMs); ("reapIdleMs", jint reapIdleMs); ("artifactGraceMs", jint artifactGraceMs);
   ("disconnectReapMs", jint disconnectReapMs); ("queueTimeoutMs", jint queueTimeoutMs); ("queueMaxLength", jint queueMaxLength);
   ("readOnlyAgents", texts DEFAULT_READ_ONLY_AGENTS);
   ("failLoudUnexpectedErrors", JBool (bool_decide (getenv "NODE_ENV" = Some (js "test"))));
   ("roleModels", DEFAULT_ROLE_MODELS);
   ("resource", default_resource);
   ("hostRead", DEFAULT_HOST_READ_CONFIG);
   ("sddRuntime", obj [("binary", JStr (default (js "gentle-ai") (getenv "BROKER_GENTLE_AI_BINARY")));
      ("outputMaxBytes", jint (512 * 1024)); ("legacySddEnabled", JBool false)]);
   ("network", obj [("mode", jtext "deny-by-default");
      ("note", jtext "Placeholder: final worker net config (S12) is generated at Gate 3 with allowlist domains only.")])]%string).

(** ** The overrides *)
Definition dropUndefined (fs : list (jsstr * jsval)) : list (jsstr * jsval) := List.filter (fun kv => negb (is_undef (snd kv))) fs.
Definition fields_at (fs : list (jsstr * jsval)) (k : string) : list (jsstr * jsval) :=
  match field (JObj fs) (js k) with JObj inner => inner | _ => [] end.

(** [fresh-eyes] is another name of [fresh_eyes], used where that is empty. *)
Definition no_entry (v : jsval) : bool :=
  match v with
  | JUndef | JNull | JBool false | JStr [] | JArr [] | JNum (NumInt 0) | JNum NumNaN => true
  | _ => false
  end.
Definition normalize_roles (roles : list (jsstr * jsval)) : list (jsstr * jsval) :=
  let hyphen := field (JObj roles) (js "fresh-eyes") in
  if is_undef hyphen then roles else
  List.filter (fun kv => negb (str_eqb (fst kv) (js "fresh-eyes")))
    (if no_entry (field (JObj roles) (js "fresh_eyes")) then set_key (js "fresh_eyes") hyphen roles else roles).

Definition merge_config (config overrides : list (jsstr * jsval)) : list (jsstr * jsval) :=
  let inner k := merge_fields (fields_at config k) (dropUndefined (fields_at overrides k)) in
  let agents := field (JObj overrides) (js "readOnlyAgents") in
  merge_fields (merge_fields config (dropUndefined overrides))
    [(js "resource", JObj (inner "resource"%string)); (js "sddRuntime", JObj (inner "sddRuntime"%string));
     (js "roleModels", JObj (normalize_roles (inner "roleModels"%string)));
     (js "readOnlyAgents", if is_nullish agents then field (JObj config) (js "readOnlyAgents") else agents)].

Definition valid_digest (v : jsval) : bool := match v with JNull => true | JStr s => re_class is_hex_lower 64 64 s | _ => false end.
Definition valid_interpreter (v : jsval) : bool := match v with JNull => true | JStr s => isAbsolute s | _ => false end.

Definition defaultConfig (overrides : list (jsstr * jsval)) : res (list (jsstr * jsval)) :=
  config ← default_config;
  let merged := merge_config config overrides in
  let got k := field (JObj merged) (js k) in
  _ ← throw_if (negb (valid_digest (got "reviewHelperSha256"%string)))
        (ConfigError (js "invalid reviewHelperSha256: expected 64 lowercase hex characters (got "
           ++ json_text (got "reviewHelperSha256"%string) ++ js ")"));
  _ ← throw_if (negb (valid_interpreter (got "reviewHelperInterpreter"%string)))
        (ConfigError (js "invalid reviewHelperInterpreter: expected a non-empty absolute path (got "
           ++ json_text (got "reviewHelperInterpreter"%string) ++ js ")"));
  Ok merged.

(** ** Startup *)
(** What is said before the process goes on, exits or throws. *)
Inductive startup (A : Type) :=
  | Going (a : A)
  | Exited (code : Z) (said : jsstr)
  | Crashed (e : exn).
#[global] Arguments Going {A}. #[global] Arguments Exited {A}. #[global] Arguments Crashed {A}.

Definition and_then {A B} (m : startup A) (f : A -> startup B) : startup B :=
  match m with Going a => f a | Exited c s => Exited c s | Crashed e => Crashed e end.
Definition of_thrown {A} (r : res A) : startup A := match r with Ok a => Going a | Throw e => Crashed e end.

Record CliArgs := mkCli { cli_socket : option jsstr; cli_stateDir : option jsstr; cli_logFile : option jsstr; cli_help : bool }.

Fixpoint parseArgs (out : CliArgs) (argv : list jsstr) : res CliArgs :=
  match argv with
  | [] => Ok out
  | arg :: rest =>
      let value := head rest in
      let next o := match rest with [] => Ok o | _ :: rest => parseArgs o rest end in
      if mem arg [js "--help"; js "-h"] then parseArgs (mkCli (cli_socket out) (cli_stateDir out) (cli_logFile out) true) rest
      else if str_eqb arg (js "--socket") then next (mkCli value (cli_stateDir out) (cli_logFile out) (cli_help out))
      else if str_eqb arg (js "--state-dir") then next (mkCli (cli_socket out) value (cli_logFile out) (cli_help out))
      else if str_eqb arg (js "--log-file") then next (mkCli (cli_socket out) (cli_stateDir out) value (cli_help out))
      else Throw (Exn EError (js "unknown argument: " ++ arg))
  end.

Definition usage : jsstr := join_with [10%N] ((js "sandbox-broker " ++ [8212%N] ++ js " trusted OpenCode sandbox broker") :: map js
  [""; "Usage: bun src/main.ts [options]";
   "  --socket PATH     Unix socket path (default: $XDG_RUNTIME_DIR/opencode-sandbox-broker.sock)";
   "  --state-dir PATH  State directory (default: ~/.local/state/opencode-sandbox)";
   "  --log-file PATH   JSONL log file (default: stdout)"; "  -h, --help        Show this help"; "";
   "NOT installed at Gate 1. See docs/manual-verification.md for the gates."]%string).

Definition invalid_env {A} (name : string) (why : jsstr) : startup A := Exited 1 (js "invalid " ++ js name ++ js ": " ++ why).

(** A variable that holds JSON: absent or empty is no override. *)
Definition json_env (name : string) (k : string) (read : jsval -> res jsval) : startup (list (jsstr * jsval)) :=
  match getenv name with
  | None | Some [] => Going []
  | Some raw =>
      match json_parse raw with
      | None => invalid_env name (syntax_message raw)
      | Some v => match read v with Ok x => Going [(js k, x)] | Throw e => invalid_env name (exn_msg e) end
      end
  end.

Definition is_js_text (v : jsval) : bool := match v with JStr _ => true | _ => false end.
Definition read_texts (name what : string) (v : jsval) : res jsval :=
  match v with
  | JArr xs => if forallb is_js_text xs then Ok v else Throw (Exn EError (js name ++ js " must be a JSON array of " ++ js what))
  | _ => Throw (Exn EError (js name ++ js " must be a JSON array of " ++ js what))
  end.

Fixpoint read_projects_from (i : nat) (xs : list jsval) : res (list jsval) :=
  match xs with
  | [] => Ok []
  | p :: xs =>
      match field p (js "id"), field p (js "path") with
      | JStr id, JStr path => ps ← read_projects_from (S i) xs; Ok (obj [("id", JStr id); ("path", JStr path)]%string :: ps)
      | _, _ => Throw (Exn EError (js "BROKER_PROJECTS[" ++ dec (Z.of_nat i) ++ js "] must have string id and path"))
      end
  end.
Definition read_projects (v : jsval) : res jsval :=
  match v with
  | JArr xs => ps ← read_projects_from 0 xs; Ok (JArr ps)
  | _ => Throw (Exn EError (js "BROKER_PROJECTS must be a JSON array"))
  end.

Definition gentle_env : startup (list (jsstr * jsval)) :=
  match getenv "BROKER_GENTLE_AI_BINARY" with
  | None => Going []
  | Some raw =>
      if str_eqb raw [] || existsb (N.eqb 0) raw
      then invalid_env "BROKER_GENTLE_AI_BINARY" (js "must be a non-empty executable name or path")
      else Going [(js "sddRuntime", obj [("binary", JStr raw)]%string)]
  end.

Definition diff_lines_env : startup (list (jsstr * jsval)) :=
  match getenv "BROKER_MAX_APPLY_DIFF_LINES" with
  | None | Some [] => Going []
  | Some raw =>
      match number_of_text raw with
      | NumInt z => if z <=? 0 then invalid_env "BROKER_MAX_APPLY_DIFF_LINES" raw
                    else Going [(js "resource", obj [("maxApplyDiffLines", jint z)]%string)]
      | _ => invalid_env "BROKER_MAX_APPLY_DIFF_LINES" raw
      end
  end.

(** The overrides of each variable, read in this order. *)
Fixpoint all_of (xs : list (startup (list (jsstr * jsval)))) : startup (list (jsstr * jsval)) :=
  match xs with
  | [] => Going []
  | x :: xs => and_then x (fun a => and_then (all_of xs) (fun b => Going (a ++ b)))
  end.

Definition parseBrokerEnv : startup (list (jsstr * jsval)) :=
  let texts_env name k := json_env name k (read_texts name "strings") in
  all_of
    [gentle_env;
     json_env "BROKER_PROJECTS" "projects" read_projects;
     texts_env "BROKER_EXTERNAL_ROOTS" "approvedExternalReadRoots";
     texts_env "BROKER_PROTECTED_SECURITY_FILES" "protectedSecurityFiles";
     diff_lines_env;
     texts_env "BROKER_EXTERNAL_COPY_TARGETS" "externalCopyTargets";
     json_env "BROKER_ADVISOR_PROJECTS" "advisorProjects" (read_texts "BROKER_ADVISOR_PROJECTS" "project ids")]%string.

Definition first_of (a b : option jsstr) : jsval := or_undefined (match a with Some _ => a | None => b end).

(** [main] up to the configuration and the legacy mode. *)
Definition main_config (argv : list jsstr) : startup (list (jsstr * jsval) * LegacySddMode) :=
  and_then (of_thrown (parseArgs (mkCli None None None false) argv)) (fun args =>
  if cli_help args then Exited 0 usage else
  and_then parseBrokerEnv (fun overrides =>
  and_then (of_thrown (defaultConfig
    ([(js "socketPath", first_of (cli_socket args) (getenv "BROKER_SOCKET"));
      (js "stateDir", first_of (cli_stateDir args) (getenv "BROKER_STATE_DIR"));
      (js "logPath", first_of (cli_logFile args) (getenv "BROKER_LOG_FILE"))] ++ overrides))) (fun config =>
  match parseLegacySddMode (getenv "BROKER_LEGACY_SDD") with
  | Ok legacy_mode => Going (config, legacy_mode)
  | Throw e => invalid_env "BROKER_LEGACY_SDD" (exn_msg e)
  end))).

Definition mode_text (m : LegacySddMode) : jsstr := js (match m with mode_auto => "auto" | mode_on => "on" | mode_off => "off" end).

(** [config.sddRuntime.legacySddEnabled = ...] *)
Definition set_legacy (config : list (jsstr * jsval)) (enabled : bool) : list (jsstr * jsval) :=
  set_key (js "sddRuntime") (JObj (set_key (js "legacySddEnabled") (JBool enabled) (fields_at config "sddRuntime"))) config.

(** The configuration the server is built with, and what is said of it. *)
Definition resolve_legacy (E : Environment) (config : list (jsstr * jsval)) (mode : LegacySddMode) : M (list (jsstr * jsval) * list jsstr) :=
  let binary := match field (JObj (fields_at config "sddRuntime")) (js "binary") with JStr b => b | _ => [] end in
  major ← detectGentleAiMajor E binary;
  let legacy := resolveLegacySdd mode major in
  mret (set_legacy config (lg_enabled legacy),
    [js "legacy SDD " ++ js (if lg_enabled legacy then "enabled" else "dormant") ++ js " (BROKER_LEGACY_SDD=" ++ mode_text mode
       ++ js ", gentle-ai major " ++ default (js "unknown") (num_text <$> major) ++ js ")"]
    ++ match lg_warning legacy with Some w => [js "warning: " ++ w] | None => [] end).
End startup.

(** ** Facts of the runner table *)
Record runner_ok (r : TestRunnerConfig) : Prop := mkRunnerOk {
  ok_id : RUNNER_ID_RE (rn_id r) = true;
  ok_language : rn_language r <> [];
  ok_argv : rn_argv r <> [] /\ Forall (fun a => byteLength a <= 4096) (rn_argv r);
  ok_executable : isAbsolute (nth 0 (rn_argv r) []) = true;
  ok_cwd : rn_cwd r <> [] /\ (rn_cwd r = DOT \/ isAbsolute (rn_cwd r) = false /\ DOTDOT ∉ cwd_parts (rn_cwd r));
  ok_timeout : 1000 <= rn_timeoutMs r <= 600000;
  ok_output : 1024 <= rn_maxOutputBytes r <= 4194304
}.

Lemma or_fail_Ok {A} (o : option A) e a : or_fail o e = Ok a <-> o = Some a.
Proof. destruct o; cbn; naive_solver. Qed.

Lemma text_id_Some v s : text_id v = Some s -> v = JStr s /\ RUNNER_ID_RE s = true.
Proof. destruct v; cbn; try done. destruct (RUNNER_ID_RE s0) eqn:E; [|done]. by intros [= ->]. Qed.
Lemma text_nonempty_Some v s : text_nonempty v = Some s -> v = JStr s /\ s <> [].
Proof. destruct v as [| | | |[|c t]| |]; cbn; try done. by intros [= <-]. Qed.
Lemma text_arg_Some v s : text_arg v = Some s -> v = JStr s /\ byteLength s <= 4096.
Proof. destruct v; cbn; try done. destruct (Z.ltb_spec 4096 (byteLength s0)); [done|]. intros [= ->]. done. Qed.
Lemma text_argv_Some v l : text_argv v = Some l -> v = JArr (map JStr l) /\ l <> [] /\ Forall (fun a => byteLength a <= 4096) l.
Proof.
  destruct v as [| | | | |[|x xs]|]; try done. intros H. change (mapM text_arg (x :: xs) = Some l) in H. apply mapM_Some in H.
  assert (x :: xs = map JStr l /\ Forall (fun a => byteLength a <= 4096) l) as [Hx Hl].
  { induction H as [|y a ys l' Ha _ IH]; [done|]. apply text_arg_Some in Ha as [-> Ha]. destruct IH as [-> IH]. by split; [|constructor]. }
  rewrite Hx. split_and!; [done | by intros -> | done].
Qed.
Lemma text_cwd_Some v s :
  text_cwd v = Some s -> v = JStr s /\ s <> [] /\ (s = DOT \/ isAbsolute s = false /\ DOTDOT ∉ cwd_parts s).
Proof.
  unfold text_cwd. intros (w & Hw & H)%bind_Some. apply text_nonempty_Some in Hw as [-> Hw].
  destruct (negb (str_eqb w DOT) && _) eqn:E; [done|]. injection H as <-. split_and!; [done..|].
  apply andb_false_iff in E as [E%negb_false_iff%str_eqb_eq | [E1 E2%mem_false]%orb_false_iff]; [by left | by right].
Qed.
Lemma int_between_Some lo hi v z : int_between lo hi v = Some z -> v = jint z /\ lo <= z <= hi.
Proof.
  destruct v as [| | |[n| | |]| | |]; cbn; try done. destruct (_ || _) eqn:E; [done|]. intros [= ->].
  apply orb_false_iff in E as [?%Z.ltb_ge ?%Z.ltb_ge]. done.
Qed.

(** What an accepted entry says is what the runner holds. *)
Definition says (entry : jsval) (r : TestRunnerConfig) : Prop :=
  Forall (fun kv => field entry (fst kv) = snd kv) (fields_of (runner_json r)).

Lemma parse_runner_Ok ids i entry r :
  parse_runner ids i entry = Ok r -> runner_ok r /\ rn_id r ∉ ids /\ says entry r.
Proof.
  unfold parse_runner. intros H.
  repeat match type of H with mbind _ _ = Ok _ => apply res_bind_Ok in H as (? & ?Hs & H) end.
  injection H as <-. rewrite ?or_fail_Ok, ?throw_if_Ok in *.
  repeat match goal with
  | H : text_id _ = Some _ |- _ => apply text_id_Some in H as [? ?]
  | H : text_nonempty _ = Some _ |- _ => apply text_nonempty_Some in H as [? ?]
  | H : text_argv _ = Some _ |- _ => apply text_argv_Some in H as (? & ? & ?)
  | H : text_cwd _ = Some _ |- _ => apply text_cwd_Some in H as (? & ? & ?)
  | H : int_between _ _ _ = Some _ |- _ => apply int_between_Some in H as [? ?]
  | H : negb _ = false |- _ => apply negb_false_iff in H
  | H : mem _ _ = false |- _ => apply mem_false in H
  end.
  split_and!; [by constructor | done | by repeat constructor].
Qed.

Lemma parse_runners_Ok ids i entries rs :
  parse_runners ids i entries = Ok rs ->
  Forall runner_ok rs /\ NoDup (map rn_id rs) /\ (forall r, r ∈ rs -> rn_id r ∉ ids) /\ Forall2 says entries rs.
Proof.
  revert ids i rs. induction entries as [|entry entries IH]; intros ids i rs; cbn [parse_runners].
  - intros [= <-]. split_and!; [done | constructor | set_solver | constructor].
  - intros (r & Hr & (rs' & Hrs & [= <-])%res_bind_Ok)%res_bind_Ok.
    apply parse_runner_Ok in Hr as (Hok & Hid & Hsays). apply IH in Hrs as (Hoks & Hnd & Hids & Hall).
    split_and!; [by constructor | | | by constructor].
    + cbn [map]. apply NoDup_cons. split; [|done]. intros (r' & Hr' & Hin)%list_elem_of_fmap. apply (Hids _ Hin). set_solver.
    + intros r' [->|Hin]%elem_of_cons; [done|]. specialize (Hids _ Hin). set_solver.
Qed.

Lemma split_on_concat c d s w : w ∈ split_on c s -> d ∉ w -> w ∈ concat (map (split_on d) (split_on c s)).
Proof.
  intros Hw Hd. apply list_elem_of_In, in_concat. exists [w]. split; [|by left].
  rewrite <- (split_on_none d w) by done. by apply in_map, list_elem_of_In.
Qed.

Lemma runner_cwd_within root r :
  canonical_abs root -> runner_ok r -> isWithin root (resolve2 root (rn_cwd r)) = true.
Proof.
  intros Hroot Hr. destruct (ok_cwd r Hr) as [Hne Hcwd]. apply resolve_within_walk; [done..| |].
  - destruct Hcwd as [-> | [? _]]; done.
  - assert (DOTDOT ∉ split_on SLASH (rn_cwd r)) as Hd.
    { destruct Hcwd as [-> | [_ H]]; [apply (bool_decide_unpack _); vm_compute; exact I|]. intros Hin. apply H.
      apply split_on_concat; [done | apply (bool_decide_unpack _); vm_compute; exact I]. }
    intros Hl. pose proof (norm_fold_no_dotdot true _ [] Hd (not_elem_of_nil _)) as Hno. apply Hno.
    apply last_Some_elem_of in Hl. done.
Qed.

(** C30: The table of test runners the broker starts with, or it does not start.  An
    accepted table has as many runners as entries, each saying what its entry
    says; every runner has an id of its own, an absolute executable, arguments of
    bounded size, a time limit and an output cap within bounds, is the one the
    handler finds by its id, and runs inside whatever project it is run in. *)
Theorem runners_checked raw rs :
  parseTestRunners raw = Ok rs ->
  Forall runner_ok rs /\ NoDup (map rn_id rs) /\
  (forall r, r ∈ rs -> find_runner rs (JStr (rn_id r)) = Ok r /\
    forall root, canonical_abs root -> isWithin root (resolve2 root (rn_cwd r)) = true) /\
  (forall text, raw = Some text -> text <> [] -> exists entries, json_parse text = Some (JArr entries) /\ Forall2 says entries rs).
Proof.
  intros H. assert (Forall runner_ok rs /\ NoDup (map rn_id rs) /\
    (forall text, raw = Some text -> text <> [] -> exists entries, json_parse text = Some (JArr entries) /\ Forall2 says entries rs))
    as (Hok & Hnd & Hsays).
  { destruct raw as [[|c t]|]; cbn [parseTestRunners] in H; [| |]; try (injection H as <-; split_and!; [done | constructor | naive_solver]).
    destruct (json_parse (c :: t)) as [[| | | | |entries|]|] eqn:Hj; try done.
    apply parse_runners_Ok in H as (? & ? & _ & ?). split_and!; [done..|]. intros text [= <-] _. eauto. }
  split_and!; [done..| | done]. intros r Hr. split.
  - assert (List.find (fun r0 => str_eqb (rn_id r0) (rn_id r)) rs = Some r) as Hfind; cycle 1.
    { unfold find_runner. rewrite Hfind. by destruct rs. }
    clear -Hnd Hr. induction rs as [|r0 rs IH]; [by apply not_elem_of_nil in Hr|]. cbn [map] in Hnd. apply NoDup_cons in Hnd as [Hid Hnd].
    apply elem_of_cons in Hr as [-> | Hr]; cbn [List.find]; [by rewrite (proj2 (str_eqb_eq _ _) eq_refl)|].
    rewrite (proj2 (str_eqb_neq (rn_id r0) (rn_id r))); [by apply IH|].
    intros E. apply Hid. rewrite E. by apply (list_elem_of_fmap_2 rn_id).
  - intros root Hroot. apply runner_cwd_within; [done|]. rewrite Forall_forall in Hok. by apply Hok.
Qed.

Definition sample_runner : TestRunnerConfig :=
  mkRunner (js "bun-test") (js "ts") [js "/usr/bin/bun"; js "test"] (js "packages/core") 120000 65536.

Lemma runners_checked_witness :
  let raw := Some (json_text (JArr [runner_json sample_runner])) in
  parseTestRunners raw = Ok [sample_runner] /\
  isWithin (js "/work/p") (resolve2 (js "/work/p") (rn_cwd sample_runner)) = true.
Proof.
  assert (parseTestRunners (Some (json_text (JArr [runner_json sample_runner]))) = Ok [sample_runner]) as H by (vm_compute; reflexivity).
  split; [exact H|]. destruct (runners_checked _ _ H) as (_ & _ & Hr & _).
  apply (Hr sample_runner (list_elem_of_here _ _)). split; vm_compute; reflexivity.
Defined.

(** Two entries of one id, and a directory above the project, are refused. *)
Example runners_refused :
  parseTestRunners (Some (json_text (JArr [runner_json sample_runner; runner_json sample_runner]))) =
    Throw (ConfigError (js "invalid BROKER_TEST_RUNNERS: duplicate id 'bun-test'")) /\
  parseTestRunners (Some (json_text (JArr [runner_json (mkRunner (js "a") (js "ts") [js "/bin/a"] (js "x/../../y") 1000 1024)]))) =
    Throw (ConfigError (js "invalid BROKER_TEST_RUNNERS[0].cwd")).
Proof. split; vm_compute; reflexivity. Qed.

(** ** Facts of the merge *)
Lemma assoc_dropUndefined fs k :
  NoDup (map fst fs) -> assoc k (dropUndefined fs) = if is_undef (field (JObj fs) k) then None else assoc k fs.
Proof.
  unfold dropUndefined. cbn [field]. induction fs as [|[a v] fs IH]; cbn [map fst List.filter assoc snd]; [done|].
  rewrite NoDup_cons. intros [Ha Hn]. specialize (IH Hn). destruct (str_eqb k a) eqn:E.
  - apply str_eqb_eq in E as ->. change (default JUndef (Some v)) with v. destruct (is_undef v) eqn:Hv; cbn [negb].
    + apply assoc_None. intros Hin%filtered_keys. done.
    + cbn [assoc]. by rewrite (proj2 (str_eqb_eq a a) eq_refl).
  - destruct (is_undef v); cbn [negb assoc]; [done|]. by rewrite E.
Qed.

Definition merged_apart : list jsstr := map js ["resource"; "sddRuntime"; "roleModels"; "readOnlyAgents"]%string.

(** Every other field is the override's, unless that is undefined. *)
Lemma merge_config_field config overrides k :
  NoDup (map fst overrides) -> k ∉ merged_apart ->
  field (JObj (merge_config config overrides)) k =
    if is_undef (field (JObj overrides) k) then field (JObj config) k else field (JObj overrides) k.
Proof.
  intros Hn Hk. unfold merge_config. rewrite field_merge by exact Hk. pose proof (assoc_dropUndefined overrides k Hn) as Ha.
  destruct (is_undef (field (JObj overrides) k)) eqn:Hu.
  - apply field_merge, assoc_None. exact Ha.
  - apply field_merge_in; [by apply filter_NoDup|]. rewrite Ha. cbn [field] in *. by destruct (assoc k overrides).
Qed.

Section facts.
  Context (environ : jsstr -> option jsstr) (homedir tmpdir cwd : jsstr) (syntax_message : jsstr -> jsstr).
#[local] Abbreviation getenv := (getenv environ).
#[local] Abbreviation default_config := (default_config environ homedir tmpdir cwd).
#[local] Abbreviation defaultConfig := (defaultConfig environ homedir tmpdir cwd).
#[local] Abbreviation parseBrokerEnv := (parseBrokerEnv environ syntax_message).
#[local] Abbreviation main_config := (main_config environ homedir tmpdir cwd syntax_message).

Lemma positiveIntEnv_pos name fallback z : 0 < fallback -> positiveIntEnv environ name fallback = Ok z -> 0 < z.
Proof.
  intros Hf. unfold positiveIntEnv. destruct (getenv name) as [[|c s]|]; [by intros [= <-] | | by intros [= <-]].
  destruct (number_of_text (c :: s)) as [n| | |]; [|done..]. destruct (Z.leb_spec n 0); [done|]. by intros [= <-].
Qed.

Definition int_knobs : list jsstr := map js
  ["reviewRunMaxBytes"; "reviewRunMaxFileBytes"; "reviewRunMaxPerSession"; "reviewRunMaxRuns"; "reviewRunTtlMs";
   "reapIntervalMs"; "reapIdleMs"; "artifactGraceMs"; "disconnectReapMs"; "queueTimeoutMs"; "queueMaxLength"]%string.

Lemma knobs_apart k : k ∈ int_knobs -> k ∉ merged_apart.
Proof.
  assert (forallb (fun k => negb (mem k merged_apart)) int_knobs = true) as H by (vm_compute; reflexivity).
  rewrite forallb_forall in H. intros Hk%list_elem_of_In%H. by apply mem_false, negb_true_iff.
Qed.

(** Fields of the defaults that the command line or a variable overrides. *)
Definition plain_defaults : list (jsstr * jsval) :=
  [(js "socketPath", JStr (join [runtimeDir environ tmpdir; js "opencode-sandbox-broker.sock"]));
   (js "stateDir", JStr (stateDir_of_env environ homedir cwd));
   (js "reviewRunRoot", JStr (resolve1 cwd (default (join [stateDir_of_env environ homedir cwd; js "review-runs"]) (getenv "BROKER_REVIEW_RUN_ROOT"))));
   (js "projects", JArr []);
   (js "approvedExternalReadRoots", texts []); (js "protectedSecurityFiles", texts DEFAULT_PROTECTED_SECURITY_FILES);
   (js "externalCopyTargets", texts []); (js "advisorProjects", texts [])].

Lemma default_config_Ok d :
  default_config = Ok d ->
  (forall k, k ∈ int_knobs -> exists z, field (JObj d) k = jint z /\ 0 < z) /\
  (exists rs, parseTestRunners (getenv "BROKER_TEST_RUNNERS") = Ok rs /\ field (JObj d) (js "testRunners") = JArr (map runner_json rs)) /\
  Forall (fun kv => field (JObj d) (fst kv) = snd kv) plain_defaults.
Proof.
  unfold Config.default_config. intros H.
  repeat match type of H with mbind _ _ = Ok _ => apply res_bind_Ok in H as (? & ?Hz & H) end.
  injection H as <-.
  repeat match goal with H : positiveIntEnv _ _ _ = Ok _ |- _ => apply positiveIntEnv_pos in H; [|done] end.
  split_and!; [| eexists; split; [eassumption | reflexivity] | repeat constructor].
  intros k Hk. repeat (apply elem_of_cons in Hk as [-> | Hk]; [eexists; split; [reflexivity | assumption]|]).
  by apply not_elem_of_nil in Hk.
Qed.

Record config_ok (c : list (jsstr * jsval)) : Prop := {
  ck_digest : field (JObj c) (js "reviewHelperSha256") = JNull \/
    exists s, field (JObj c) (js "reviewHelperSha256") = JStr s /\ re_class is_hex_lower 64 64 s = true;
  ck_interpreter : field (JObj c) (js "reviewHelperInterpreter") = JNull \/
    exists s, field (JObj c) (js "reviewHelperInterpreter") = JStr s /\ isAbsolute s = true
}.

Lemma defaultConfig_Ok overrides c :
  NoDup (map fst overrides) -> defaultConfig overrides = Ok c ->
  config_ok c /\ exists d, default_config = Ok d /\
    forall k, k ∉ merged_apart ->
      field (JObj c) k = if is_undef (field (JObj overrides) k) then field (JObj d) k else field (JObj overrides) k.
Proof.
  intros Hn (d & Hd & H)%res_bind_Ok. apply res_seq_Ok in H as [H1 H]. apply res_seq_Ok in H as [H2 [= <-]].
  apply throw_if_Ok, negb_false_iff in H1, H2. split.
  - split.
    + destruct (field _ (js "reviewHelperSha256")); try done; [by left | right; eauto].
    + destruct (field _ (js "reviewHelperInterpreter")); try done; [by left | right; eauto].
  - exists d. split; [done|]. intros k Hk. by apply merge_config_field.
Qed.

(** The configuration is checked whatever overrides it.  When [defaultConfig]
    returns, the pinned digest and the interpreter of the review helper are
    absent or well formed, an override that is given holds, one that is undefined
    changes nothing, and every knob left to the environment is a positive
    integer and the runner table an accepted one. *)
Theorem config_checked overrides c :
  NoDup (map fst overrides) -> defaultConfig overrides = Ok c ->
  config_ok c /\
  (forall k, k ∉ merged_apart -> field (JObj overrides) k <> JUndef -> field (JObj c) k = field (JObj overrides) k) /\
  (forall k, k ∈ int_knobs -> field (JObj overrides) k = JUndef -> exists z, field (JObj c) k = jint z /\ 0 < z) /\
  (field (JObj overrides) (js "testRunners") = JUndef ->
   exists rs, parseTestRunners (getenv "BROKER_TEST_RUNNERS") = Ok rs /\ field (JObj c) (js "testRunners") = JArr (map runner_json rs)).
Proof.
  intros Hn (Hck & d & (Hints & Hrunners & _)%default_config_Ok & Hget)%defaultConfig_Ok; [|done]. split_and!; [done| | |].
  - intros k Hk Hu. rewrite Hget by done. by destruct (field (JObj overrides) k).
  - intros k Hk Hu. rewrite Hget, Hu by by apply knobs_apart. by apply Hints.
  - intros Hu. rewrite Hget, Hu by (apply mem_false; vm_compute; reflexivity). exact Hrunners.
Qed.

(** ** Facts of the startup *)
(** What one variable of [parseBrokerEnv] may set. *)
Definition sets (k : jsstr) (P : jsval -> Prop) (o : list (jsstr * jsval)) : Prop := o = [] \/ exists x, o = [(k, x)] /\ P x.

Lemma sets_all (specs : list (jsstr * (jsval -> Prop))) (os : list (list (jsstr * jsval))) :
  Forall2 (fun s o => sets (fst s) (snd s) o) specs os -> NoDup (map fst specs) ->
  NoDup (map fst (concat os)) /\ (forall k, k ∈ map fst (concat os) -> k ∈ map fst specs) /\
  (forall k P, (k, P) ∈ specs -> field (JObj (concat os)) k = JUndef \/ P (field (JObj (concat os)) k)).
Proof.
  intros H. induction H as [|[k P] o specs os Ho _ IH]; cbn [map fst concat]; intros Hn.
  - split_and!; [constructor | done | set_solver].
  - apply NoDup_cons in Hn as [Hk Hn]. destruct (IH Hn) as (Hnd & Hkeys & Hget). cbn [fst snd] in Ho.
    destruct Ho as [-> | (x & -> & Hx)]; cbn [app map fst].
    + split_and!; [done | intros k' Hk'; right; by apply Hkeys |].
      intros k' P' [[= -> ->] | Hin]%elem_of_cons; [|by apply Hget]. left. cbn [field].
      by rewrite (proj2 (assoc_None k (concat os))) by (intros Hin%Hkeys; done).
    + split_and!.
      * apply NoDup_cons. split; [|done]. intros Hin%Hkeys. done.
      * intros k' [-> | Hk']%elem_of_cons; [left | right; by apply Hkeys].
      * intros k' P' [[= -> ->] | Hin]%elem_of_cons; cbn [field assoc].
        { right. by rewrite (proj2 (str_eqb_eq k k) eq_refl). }
        rewrite (proj2 (str_eqb_neq k' k)); [by apply Hget|]. intros ->. apply Hk. by apply (list_elem_of_fmap_2 fst _ (k, P')).
Qed.

Lemma all_of_Going xs ov : all_of xs = Going ov -> exists os, Forall2 (fun x o => x = Going o) xs os /\ ov = concat os.
Proof.
  revert ov. induction xs as [|x xs IH]; intros ov; cbn [all_of]; [intros [= <-]; by exists []|].
  destruct x as [a| |]; [|done..]. cbn [and_then]. destruct (all_of xs) as [b| |]; [|done..]. cbn [and_then]. intros [= <-].
  destruct (IH b eq_refl) as (os & Hos & ->). exists (a :: os). by split; [constructor|].
Qed.

Definition is_texts (v : jsval) : Prop := exists xs, v = texts xs.
Definition is_projects (v : jsval) : Prop :=
  exists ps, v = JArr (map (fun p => obj [("id", JStr (fst p)); ("path", JStr (snd p))]%string) ps).
Definition holds_field (k : string) (P : jsval -> Prop) (v : jsval) : Prop := exists x, v = obj [(k, x)] /\ P x.

Lemma read_texts_Ok name what v x : read_texts name what v = Ok x -> is_texts x.
Proof.
  destruct v as [| | | | |xs|]; try done. cbn [read_texts]. destruct (forallb is_js_text xs) eqn:E; [|done]. intros [= <-].
  rewrite forallb_forall in E. clear -E. induction xs as [|y xs IH]; [by exists []|].
  destruct IH as [ts Hts]; [intros z Hz; apply E; by right|]. unfold texts in *. injection Hts as ->.
  specialize (E y (or_introl eq_refl)). destruct y as [| | | |s| |]; try done. by exists (s :: ts).
Qed.

Lemma read_projects_Ok v x : read_projects v = Ok x -> is_projects x.
Proof.
  destruct v as [| | | | |xs|]; try done. cbn [read_projects]. intros (ps & H & [= <-])%res_bind_Ok. revert ps H. generalize 0%nat.
  induction xs as [|p xs IH]; intros i ps; cbn [read_projects_from]; [intros [= <-]; by exists []|].
  destruct (field p (js "id")) as [| | | |id| |]; try done. destruct (field p (js "path")) as [| | | |path| |]; try done.
  intros (qs & H & [= <-])%res_bind_Ok. apply IH in H as [qs' H]. injection H as ->. by exists ((id, path) :: qs').
Qed.

Lemma json_env_sets name k read (P : jsval -> Prop) o :
  (forall v x, read v = Ok x -> P x) -> json_env environ syntax_message name k read = Going o -> sets (js k) P o.
Proof.
  intros HP. unfold json_env. destruct (getenv name) as [[|c s]|]; [intros [= <-]; by left | | intros [= <-]; by left].
  destruct (json_parse (c :: s)) as [v|]; [|done]. destruct (read v) as [x|] eqn:E; [|done]. intros [= <-]. right. eauto.
Qed.

Definition gentle_override : jsval -> Prop := holds_field "binary" (fun v => exists s, v = JStr s /\ s <> [] /\ 0%N ∉ s).
Lemma gentle_env_sets o : gentle_env environ = Going o -> sets (js "sddRuntime") gentle_override o.
Proof.
  unfold gentle_env. destruct (getenv _) as [raw|]; [|intros [= <-]; by left].
  destruct (_ || _) eqn:E; [done|]. intros [= <-]. right. eexists. split; [done|]. eexists. split; [done|]. exists raw.
  apply orb_false_iff in E as [E1%str_eqb_neq E2]. split_and!; [done..|]. intros H0%list_elem_of_In.
  assert (existsb (N.eqb 0) raw = true) as E3 by (apply existsb_exists; by exists 0%N). congruence.
Qed.

Definition diff_lines_override : jsval -> Prop := holds_field "maxApplyDiffLines" (fun v => exists z, v = jint z /\ 0 < z).
Lemma diff_lines_env_sets o : diff_lines_env environ = Going o -> sets (js "resource") diff_lines_override o.
Proof.
  unfold diff_lines_env. destruct (getenv _) as [[|c s]|]; [intros [= <-]; by left | | intros [= <-]; by left].
  destruct (number_of_text _) as [n| | |]; [|done..]. destruct (Z.leb_spec n 0); [done|]. intros [= <-].
  right. eexists. split; [done|]. eexists. split; [done|]. eauto.
Qed.

Definition env_overrides : list (jsstr * (jsval -> Prop)) :=
  [(js "sddRuntime", gentle_override); (js "projects", is_projects);
   (js "approvedExternalReadRoots", is_texts); (js "protectedSecurityFiles", is_texts);
   (js "resource", diff_lines_override);
   (js "externalCopyTargets", is_texts); (js "advisorProjects", is_texts)]%string.

Lemma parseBrokerEnv_Going ov :
  parseBrokerEnv = Going ov ->
  NoDup (map fst ov) /\ (forall k, k ∈ map fst ov -> k ∈ map fst env_overrides) /\
  (forall k P, (k, P) ∈ env_overrides -> field (JObj ov) k = JUndef \/ P (field (JObj ov) k)).
Proof.
  unfold Config.parseBrokerEnv. intros (os & Hos & ->)%all_of_Going. apply sets_all; [|apply (bool_decide_unpack _); vm_compute; exact I].
  repeat match goal with H : Forall2 _ (_ :: _) _ |- _ => apply Forall2_cons_inv_l in H as (? & ? & ?Hx & H & ->) end.
  apply Forall2_nil_inv_l in Hos as ->.
  repeat (apply Forall2_cons; split); [by apply gentle_env_sets | .. | by apply diff_lines_env_sets | | | apply Forall2_nil; exact I].
  all: cbn [fst snd]; eapply json_env_sets; [|eassumption]; intros ? ?.
  all: by apply read_texts_Ok || by apply read_projects_Ok.
Qed.

Lemma assoc_app_none {A} k (a b : list (jsstr * A)) : k ∉ map fst a -> assoc k (a ++ b) = assoc k b.
Proof.
  induction a as [|[k' v] a IH]; cbn [map fst app assoc]; [done|]. rewrite not_elem_of_cons. intros [Hne Hk].
  rewrite (proj2 (str_eqb_neq k k')) by done. by apply IH.
Qed.

(** What the command line and two variables override. *)
Definition cli_overrides (args : CliArgs) : list (jsstr * jsval) :=
  [(js "socketPath", first_of (cli_socket args) (getenv "BROKER_SOCKET"));
   (js "stateDir", first_of (cli_stateDir args) (getenv "BROKER_STATE_DIR"));
   (js "logPath", first_of (cli_logFile args) (getenv "BROKER_LOG_FILE"))].
Definition cli_keys : list jsstr := map js ["socketPath"; "stateDir"; "logPath"]%string.

Lemma first_of_field a b v :
  (if is_undef (first_of a b) then JStr v else first_of a b) = JStr (default (default v b) a).
Proof. by destruct a, b. Qed.

Lemma main_config_Going argv c legacy :
  main_config argv = Going (c, legacy) ->
  exists args ov, parseArgs (mkCli None None None false) argv = Ok args /\ cli_help args = false /\
    parseBrokerEnv = Going ov /\ defaultConfig (cli_overrides args ++ ov) = Ok c.
Proof.
  unfold Config.main_config. destruct (parseArgs _ argv) as [args|]; [|done]. cbn [of_thrown and_then].
  destruct (cli_help args) eqn:Hhelp; [done|]. destruct parseBrokerEnv as [ov| |] eqn:Hov; [|done..]. cbn [and_then].
  destruct (defaultConfig _) as [c'|] eqn:Hc; [|done]. cbn [of_thrown and_then]. destruct (parseLegacySddMode _); [|done].
  intros [= <- <-]. by exists args, ov.
Qed.

(** The fields of a configuration that started: those of the command line, those
    of a variable, and the defaults. *)
Lemma started_fields args ov c :
  parseBrokerEnv = Going ov -> defaultConfig (cli_overrides args ++ ov) = Ok c ->
  config_ok c /\ exists d, default_config = Ok d /\
    (forall k, k ∉ merged_apart -> k ∈ cli_keys ->
       field (JObj c) k = if is_undef (field (JObj (cli_overrides args)) k) then field (JObj d) k else field (JObj (cli_overrides args)) k) /\
    (forall k, k ∉ merged_apart ++ cli_keys ->
       field (JObj c) k = if is_undef (field (JObj ov) k) then field (JObj d) k else field (JObj ov) k) /\
    (forall k, k ∉ merged_apart ++ cli_keys ++ map fst env_overrides -> field (JObj c) k = field (JObj d) k).
Proof.
  intros (Hnd & Hkeys & _)%parseBrokerEnv_Going Hc.
  assert (Forall (fun k => k ∉ cli_keys) (map fst env_overrides)) as Hapart by (apply (bool_decide_unpack _); vm_compute; exact I).
  rewrite Forall_forall in Hapart.
  apply defaultConfig_Ok in Hc as (Hck & d & Hd & Hget); cycle 1.
  { rewrite map_app. apply NoDup_app. split_and!; [apply (bool_decide_unpack _); vm_compute; exact I | | done].
    intros k Hk Hin%Hkeys. by apply (Hapart k Hin). }
  assert (forall k, k ∉ cli_keys -> field (JObj (cli_overrides args ++ ov)) k = field (JObj ov) k) as Hlate
    by (intros k Hk; cbn [field]; by rewrite assoc_app_none).
  split; [done|]. exists d. split; [done|]. split_and!.
  - intros k Hk Hcli. rewrite Hget by done.
    repeat (apply elem_of_cons in Hcli as [-> | Hcli]; [reflexivity|]). by apply not_elem_of_nil in Hcli.
  - intros k [Hk Hcli]%not_elem_of_app. by rewrite Hget, Hlate.
  - intros k [Hk [Hcli He]%not_elem_of_app]%not_elem_of_app. rewrite Hget, Hlate by done. cbn [field].
    by rewrite (proj2 (assoc_None k ov)) by (intros Hin%Hkeys; done).
Qed.

(** The broker starts only with a checked configuration.  When startup reaches
    the server, every JSON variable held what it must (texts, projects of a text
    id and path), every knob is a positive integer, the runner table and the
    helper's pins are accepted, and the socket and the state directory are those
    of the command line, else of the environment, else the defaults; the store of
    review runs follows the environment only, never the command line. *)
Theorem main_config_checked argv c legacy :
  main_config argv = Going (c, legacy) ->
  config_ok c /\
  (forall k, k ∈ int_knobs -> exists z, field (JObj c) k = jint z /\ 0 < z) /\
  (exists rs, parseTestRunners (getenv "BROKER_TEST_RUNNERS") = Ok rs /\ field (JObj c) (js "testRunners") = JArr (map runner_json rs)) /\
  is_projects (field (JObj c) (js "projects")) /\
  (forall k, k ∈ map js ["approvedExternalReadRoots"; "protectedSecurityFiles"; "externalCopyTargets"; "advisorProjects"]%string ->
    is_texts (field (JObj c) k)) /\
  exists args, parseArgs (mkCli None None None false) argv = Ok args /\ cli_help args = false /\
    field (JObj c) (js "socketPath") =
      JStr (default (default (join [runtimeDir environ tmpdir; js "opencode-sandbox-broker.sock"]) (getenv "BROKER_SOCKET")) (cli_socket args)) /\
    field (JObj c) (js "stateDir") =
      JStr (default (default (stateDir_of_env environ homedir cwd) (getenv "BROKER_STATE_DIR")) (cli_stateDir args)) /\
    field (JObj c) (js "reviewRunRoot") =
      JStr (resolve1 cwd (default (join [stateDir_of_env environ homedir cwd; js "review-runs"]) (getenv "BROKER_REVIEW_RUN_ROOT"))).
Proof.
  intros (args & ov & Hargs & Hhelp & Hov & Hc)%main_config_Going.
  destruct (started_fields _ _ _ Hov Hc) as (Hck & d & (Hints & Hrunners & Hall)%default_config_Ok & Hcli & Hvar & Hdef).
  apply parseBrokerEnv_Going in Hov as (_ & _ & Hvals). rewrite Forall_forall in Hall.
  assert (forall k v, (k, v) ∈ plain_defaults -> field (JObj d) k = v) as Hplain by (intros k v Hkv; exact (Hall _ Hkv)).
  assert (Forall (fun k => k ∉ merged_apart ++ cli_keys ++ map fst env_overrides) (js "testRunners" :: js "reviewRunRoot" :: int_knobs))
    as Hunset by (apply (bool_decide_unpack _); vm_compute; exact I).
  apply Forall_cons in Hunset as [Htr [Hroot Hknobs]%Forall_cons]. rewrite Forall_forall in Hknobs.
  split_and!; [done | | | | |].
  - intros k Hk. rewrite Hdef by by apply Hknobs. by apply Hints.
  - by rewrite Hdef.
  - rewrite Hvar by (apply (bool_decide_unpack _); vm_compute; exact I).
    destruct (Hvals (js "projects") is_projects) as [-> | H]; [by right; left | | ].
    + rewrite (Hplain _ (JArr [])) by (unfold plain_defaults; rewrite !elem_of_cons; auto). by exists [].
    + by destruct H as [ps ->]; exists ps.
  - intros k Hk.
    assert (k ∉ merged_apart ++ cli_keys /\ (k, is_texts) ∈ env_overrides /\ exists xs, (k, texts xs) ∈ plain_defaults) as (Hk1 & Hk2 & xs & Hk3).
    { repeat (apply elem_of_cons in Hk as [-> | Hk];
        [split_and!; [apply (bool_decide_unpack _); vm_compute; exact I | unfold env_overrides; repeat (apply list_elem_of_here || apply list_elem_of_further)
                     | eexists; unfold plain_defaults; repeat (apply list_elem_of_here || apply list_elem_of_further)]|]). by apply not_elem_of_nil in Hk. }
    rewrite Hvar by done. destruct (Hvals k is_texts Hk2) as [-> | [ys ->]]; [|by exists ys].
    rewrite (Hplain _ _ Hk3). by exists xs.
  - exists args. split_and!; [done | done | | |].
    + rewrite Hcli by (apply (bool_decide_unpack _); vm_compute; exact I).
      rewrite (Hplain (js "socketPath") _ (list_elem_of_here _ _)). apply first_of_field.
    + rewrite Hcli by (apply (bool_decide_unpack _); vm_compute; exact I).
      rewrite (Hplain (js "stateDir") _ (list_elem_of_further _ _ _ (list_elem_of_here _ _))). apply first_of_field.
    + rewrite Hdef by done. apply Hplain. unfold plain_defaults. rewrite !elem_of_cons. auto.
Qed.
End facts.

(** A field of the configuration of a startup on a given environment. *)
Definition started_with (vars : list (jsstr * jsstr)) (argv : list jsstr) (k : string) : option jsval :=
  match main_config (fun name => assoc name vars) (js "/home/u") (js "/tmp") (js "/srv") (fun _ => []) argv with
  | Going (c, _) => Some (field (JObj c) (js k))
  | _ => None
  end.

(** The store of review runs does not follow the state directory: moved by the
    command line it stays under the home, and a relative BROKER_STATE_DIR is
    resolved for the one and not for the other. *)
Example state_dir_leaves_runs :
  let flag := [js "--state-dir"; js "/var/broker"] in
  started_with [] flag "stateDir" = Some (jtext "/var/broker") /\
  started_with [] flag "reviewRunRoot" = Some (jtext "/home/u/.local/state/opencode-sandbox/review-runs") /\
  let relative := [(js "BROKER_STATE_DIR", js "state")] in
  started_with relative [] "stateDir" = Some (jtext "state") /\
  started_with relative [] "reviewRunRoot" = Some (jtext "/srv/state/review-runs").
Proof. cbv zeta. split_and!; vm_compute; reflexivity. Qed.
