(* ===== verification/Dispatch.v ===== *)
(** * The dispatch of a request (broker/src/server.ts; service.ts policy and
    toolAdmission operations)

    A request line is parsed, bound to its connection, run under its session's
    lock by the handler of its operation, and answered once.  The handlers of
    the SDD runtime and of the reviews are those of SddService and ReviewService,
    found by operation as the source's switch finds them.  The six handlers of the
    advisor records (Advisor, Relay) act on a store of their own and stay an
    argument, with that store as the lens relay reads it. *)
From Stdlib Require Import QArith.
From S2P Require Import Prelude JsVal Types State Policy Path Validation HostPaths Envelope.
From S2P Require Import RolePolicy GitOps Artifacts Queue Effects Worker Results Diff Authorization.
From S2P Require Import Server FileOps HostSteps SandboxResult HostRead HostGit PlanDocOps Queries TestRun Locks.
From S2P Require Import Advisor SddRuntime SddService ReviewRun ReviewService.
Open Scope Z_scope.

(** What the handlers use besides the broker's context. *)
Record Collaborators := mkCollaborators {
  hostReadExecutor : HostReadExecutorOptions;
  runners : list TestRunnerConfig;
  sha256_hex : list N -> jsstr;
  process_env : jsstr -> option jsstr;
  child_process : list jsstr -> jsstr -> jsval -> Z -> M (list child_event * child_end);
  sddRuntime : SddRuntimeExecutorOptions;
  legacySddEnabled : bool;                    (* config.sddRuntime.legacySddEnabled *)
  advisorRecords : world -> AdvisorStore;     (* the records the lens relay reads *)
  reviewConfig : ReviewConfig;
  os_tmpdir : jsstr;
  process_PATH : jsstr;
  broker_cwd : jsstr; broker_isDirectory : jsstr -> option bool; broker_home : jsstr; repoRoot : jsstr;
  socketPath : jsstr; readRoots : list jsstr; network : jsval; roleModels : jsval;
  droppedLines : Z; droppedEvents : Z;
  advisor_handler : Operation -> BrokerRequestEnvelope -> M jsval
}.

Definition strings_json (xs : list jsstr) : jsval := JArr (map JStr xs).

(** A session record as JSON; undefined properties are not written. *)
Definition opt_field {A} (name : string) (f : A -> jsval) (o : option A) : list (jsstr * jsval) :=
  match o with Some a => [(js name, f a)] | None => [] end.

Definition record_json (r : SessionRecord) : jsval :=
  JObj ([(js "sessionID", JStr (sessionID r)); (js "state", JStr (state_name (state r)))]
    ++ opt_field "projectID" JStr (projectID r) ++ opt_field "workerName" JStr (workerName r)
    ++ opt_field "workerState" (fun s => JStr (worker_state_name s)) (workerState r)
    ++ opt_field "workerLifecycleEntered" JBool (workerLifecycleEntered r)
    ++ opt_field "agent" JStr (agent r) ++ opt_field "baselineRef" JStr (Types.baselineRef r)
    ++ opt_field "resultRef" JStr (Types.resultRef r) ++ opt_field "installedCommit" JStr (installedCommit r)
    ++ opt_field "pendingCommit" (fun p => JObj [(js "resultCommit", JStr (fst p)); (js "parentCommit", JStr (snd p))]) (pendingCommit r)
    ++ opt_field "committedCommit" JStr (committedCommit r) ++ opt_field "error" JStr (Types.error r)
    ++ opt_field "reapedAt" JStr (reapedAt r) ++ opt_field "lastOperation" JStr (lastOperation r)
    ++ opt_field "resources" (fun p => JObj [(js "cpu", num_json (fst p)); (js "memBytes", jint (snd p))]) (resources r)
    ++ opt_field "snapshotIdentity" snapshot_json (snapshotIdentity r)
    ++ [(js "createdAt", JStr (createdAt r)); (js "updatedAt", JStr (updatedAt r))]).

Section dispatch.
  Context (ctx : OpContext) (x : Collaborators).

Definition toolAdmissionOp (req : BrokerRequestEnvelope) : M jsval :=
  payload ← lift (payloadOf req);
  let tool := field payload (js "tool") in
  st ← Effects.ask w_store;
  key ← lift (js_String tool);
  answer ← lift (toolAdmission (readOnlyAgents (cfg ctx)) st (req_sessionID req) key);
  mret (JObj [(js "schema", JStr (js "opencode-sandbox.tool-admission/v1")); (js "tool", tool);
              (js "classification", JStr (ta_classification answer));
              (js "decision", JStr (js (if ta_allow answer then "allow" else "deny")));
              (js "reason", JStr (ta_reason answer))]).

Definition bindSessionAgentOp (req : BrokerRequestEnvelope) : M jsval :=
  record ← bindSessionAgent (readOnlyAgents (cfg ctx)) (req_sessionID req) (req_payload req);
  mret (record_json record).

Definition policyOp : M jsval :=
  let c := cfg ctx in let b := budget ctx in
  mret (JObj [(js "socketPath", JStr (socketPath x));
    (js "projects", JArr (map (fun p => JObj [(js "id", JStr (project_id p)); (js "path", JStr (project_path p))]) (projects c)));
    (js "approvedExternalReadRoots", strings_json (readRoots x));
    (js "protectedPaths", strings_json (protectedPaths c ++ protectedSecurityFiles c));
    (js "workerImage", JStr (workerImage c));
    (js "resourceCaps", JObj [(js "perWorkerCpu", num_json (perWorkerCpu b)); (js "perWorkerMemBytes", jint (perWorkerMemBytes b));
       (js "maxWorkers", jint (maxWorkers b)); (js "maxAggregateCpu", num_json (maxAggregateCpu b));
       (js "maxAggregateMemBytes", jint (maxAggregateMemBytes b)); (js "maxApplyDiffLines", jint (maxApplyDiffLines c))]);
    (js "network", network x);
    (js "readOnlyAgents", strings_json (readOnlyAgents c));
    (js "roleModels", roleModels x)]).

(** [ctx.reviewAssess], as [taskMark] calls it. *)
Definition assess_for_mark (projectRoot evidenceCommit : jsstr) : M jsval :=
  result ← SddRuntime.reviewAssess ctx (sddRuntime x)
             (JObj [(js "projectDir", JStr projectRoot); (js "baseRef", JStr evidenceCommit); (js "committedOnly", JBool true)]);
  mret (sdd_json result).

Definition replied (m : M jsval) : M ensure_reply := v ← m; mret (Replied v).

(** The SDD and review handlers, by operation. *)
Definition runtime_operations : list (Operation * (BrokerRequestEnvelope -> M jsval)) :=
  sdd_operations ctx (sddRuntime x) (legacySddEnabled x) (broker_cwd x) (advisorRecords x)
  ++ review_operations ctx (reviewConfig x) (broker_cwd x) (os_tmpdir x) (sha256_hex x) (process_PATH x) (broker_home x).

Definition runtime_handler (op : Operation) : option (BrokerRequestEnvelope -> M jsval) :=
  snd <$> List.find (fun entry => bool_decide (fst entry = op)) runtime_operations.

Definition handler (req : BrokerRequestEnvelope) : M ensure_reply :=
  match req_operation req with
  | Op.ensureWorker => ensureWorker ctx req
  | Op.workerStatus => replied (workerStatus req)
  | Op.exec => replied (execOp ctx req)
  | Op.readFile => replied (readFile ctx req)
  | Op.writeFile => replied (writeFile ctx req)
  | Op.applyPatch => replied (applyPatch ctx req)
  | Op.listDir => replied (listDir ctx req)
  | Op.grep => replied (grep ctx req)
  | Op.diff => replied (diff ctx req)
  | Op.prepareResult => replied (prepareResult ctx req)
  | Op.applyResult => replied (applyResult ctx req)
  | Op.discardResult => replied (discardResult ctx req)
  | Op.keepResult => replied (keepResult ctx req)
  | Op.destroyWorker => replied (destroyWorker ctx req)
  | Op.listWorkers => replied listWorkers
  | Op.hostSystemSummary | Op.hostMemory | Op.hostDiskUsage | Op.hostNetworkListeners | Op.hostProcessList
  | Op.hostServiceStatus | Op.hostServiceLogs | Op.hostTailscaleStatus | Op.hostDockerList | Op.hostDockerLogs =>
      replied (hostOp ctx (hostReadExecutor x) req)
  | Op.metrics => replied (metrics ctx (droppedLines x) (droppedEvents x))
  | Op.gitCommit => replied (gitCommit ctx req)
  | Op.gitClearCommitIntent => replied (gitClearCommitIntent ctx req)
  | Op.gitPush => replied (gitPush ctx req)
  | Op.ghIssueCreate => replied (ghIssueCreate ctx req)
  | Op.resultDiff => replied (resultDiff ctx req)
  | Op.sandboxResult => replied (sandboxResult ctx req)
  | Op.sandboxResultInstall => replied (sandboxResultInstall ctx req)
  | Op.policy => replied policyOp
  | Op.toolAdmission => replied (toolAdmissionOp req)
  | Op.planDocAppend => replied (planDocAppend ctx req)
  | Op.planDocWrite => replied (planDocWrite ctx req)
  | Op.taskMark => replied (taskMark ctx (Some assess_for_mark) req)
  | Op.testRun => replied (testRun ctx (runners x) (sha256_hex x) (process_env x) (child_process x) req)
  | Op.gateVerdict => replied (gateVerdict ctx req)
  | Op.bindSessionAgent => replied (bindSessionAgentOp req)
  | Op.copyOutInfo => replied (copyOutInfo ctx req)
  | Op.copyOut => replied (copyOut ctx req)
  | Op.copyInInfo => replied (copyInInfo ctx req)
  | Op.copyIn => replied (copyIn ctx req)
  | Op.registerProject =>
      replied (registerProject ctx (broker_cwd x) (broker_isDirectory x) (broker_home x) (repoRoot x) req)
  | op => replied (default (advisor_handler x op) (runtime_handler op) req)
  end.

(** [dispatch]; a name that is no operation reaches the default branch. *)
Definition dispatch (wire : WireRequest) : M ensure_reply :=
  req ← lift (typed_request wire);
  st ← Effects.ask w_store;
  _ ← lift (sandbox_guard (readOnlyAgents (cfg ctx)) st (req_operation req) (req_sessionID req));
  handler req.

(** The [finally] of withSessionLock. *)
Definition give_back (sid : jsstr) : M unit := modify (fun w => set_locks (count_down sid (w_locks w)) w).

(** [withSessionLock]: counted, run after the session's earlier operations, and
    given back when it settles; a parked request keeps the lock until its
    entry's promise does. *)
Definition withSessionLock (sid : jsstr) (m : M ensure_reply) : M ensure_reply :=
  _ ← modify (fun w => set_locks (count_up sid (w_locks w)) w);
  outcome ← attempt (_ ← best_effort (call_unit (env ctx) (CTurn sid)); m);
  match outcome with
  | Ok (Parked entry) => mret (Parked entry)
  | Ok (Replied v) => _ ← give_back sid; mret (Replied v)
  | Throw e => _ ← give_back sid; throw e
  end.

(** The one final response of a request. *)
Record Response := mkResponse { rs_id : jsstr; rs_body : jsval + (jsstr * jsstr) }.

Definition error_response (id : jsstr) (e : exn) : Response := mkResponse id (inr (toBrokerError e)).

Definition STRICT_READS : list jsstr := argv ["resultDiff"; "reviewPersistPreflight"; "toolAdmission"].

Definition touch_session (wire : WireRequest) : M unit :=
  when (negb (mem (wr_operation wire) STRICT_READS))
    (best_effort (_ ← store_touch (wr_sessionID wire) [P_lastOperation (Some (wr_operation wire))]
                        (Some (wr_operation wire)); mret tt)).

Definition log_request (wire : WireRequest) (ok : bool) (detail : jsstr) : M unit :=
  best_effort (call_unit (env ctx) (CLog (wr_sessionID wire) (wr_operation wire) ok detail)).

(** A request answered, or parked: its answer then comes when the entry's
    promise settles. *)
Inductive Served :=
  | Answered (r : Response)
  | Waiting (entry : QueuedEntry).

(** The end of [dispatchLine], once the handler is done. *)
Definition conclude (wire : WireRequest) (outcome : res jsval) : M Response :=
  match outcome with
  | Ok v =>
      _ ← touch_session wire;
      _ ← log_request wire true [];
      mret (mkResponse (wr_id wire) (inl v))
  | Throw e =>
      _ ← log_request wire false (snd (toBrokerError e));
      mret (error_response (wr_id wire) e)
  end.

(** The end of a parked request, when its entry's promise settles. *)
Definition settled_line (wire : WireRequest) (outcome : res jsval) : M Response :=
  _ ← give_back (wr_sessionID wire); conclude wire outcome.

Definition dispatchLine (advisor : option AdvisorBinding) (raw : option jsval) : M Served :=
  match parseRequest raw with
  | inr failure => mret (Answered (error_response (default (js "0") (pf_id failure)) (pf_error failure)))
  | inl wire =>
      match admitRequest advisor wire with
      | Throw e =>
          _ ← log_request wire false (exn_msg e);
          mret (Answered (error_response (wr_id wire) e))
      | Ok bound =>
          outcome ← attempt (withSessionLock (wr_sessionID bound) (dispatch bound));
          match outcome with
          | Ok (Parked entry) => mret (Waiting entry)
          | Ok (Replied v) => r ← conclude bound (Ok v); mret (Answered r)
          | Throw e => r ← conclude bound (Throw e); mret (Answered r)
          end
      end
  end.

End dispatch.
