(* ===== verification/ReviewRunFacts.v ===== *)
(** * Facts about the store of review runs

    Publication is all or nothing, the caps hold of every run, an artifact is
    read from its run only, and an open run is never pruned. *)
From Stdlib Require Import QArith.
From stdpp Require Import sorting.
From S2P Require Import Prelude JsVal Json Types State Policy Path Validation HostArgs HostPaths Codec Envelope.
From S2P Require Import Queue Effects Worker WorkerFacts TraceLogic ReviewArgv SddRuntime JsOps ReviewRun.
Open Scope Z_scope.

(** ** Publication *)

(** The call was answered without an error. *)
Definition answered (e : event) : Prop :=
  match e with
  | EvProc _ r => is_ok r = true | EvUnit _ r => is_ok r = true | EvBool _ r => is_ok r = true | EvText _ r => is_ok r = true
  | EvInt _ r => is_ok r = true | EvNames _ r => is_ok r = true | EvStats _ r => is_ok r = true
  end.

(** Exactly these calls, in this order, all answered. *)
Definition completed (cs : list call) (t : list event) : Prop := map call_of t = cs /\ Forall answered t.

Definition temp_of (dir name random : jsstr) : jsstr := join [dir; js "." ++ name ++ js "." ++ random ++ js ".tmp"].
Definition write_steps (temp : jsstr) (buf : list N) : list call :=
  [COpenExclusive temp 384; CFchmod temp 384; CWriteBytes temp buf; CFsyncFd temp; CCloseFd temp].
Definition sync_steps (dir : jsstr) : list call := [COpenRead dir; CFsyncFd dir; CCloseFd dir].

(** How a publication of [buf] as [dir/name] ends. *)
Inductive publication (dir name : jsstr) (buf : list N) (random : jsstr) : bool -> list event -> Prop :=
  | published_whole t1 rename t2 :
      completed (write_steps (temp_of dir name random) buf) t1 ->
      completed [CRename (temp_of dir name random) (join [dir; name])] [rename] ->
      completed (sync_steps dir) t2 -> publication dir name buf random true (t1 ++ rename :: t2)
  | published_unsynced t1 rename t2 :
      completed (write_steps (temp_of dir name random) buf) t1 ->
      completed [CRename (temp_of dir name random) (join [dir; name])] [rename] ->
      Forall (fun e => call_of e ∈ sync_steps dir) t2 -> ~ Forall answered t2 -> publication dir name buf random false (t1 ++ rename :: t2)
  | rename_failed t1 e a :
      completed (write_steps (temp_of dir name random) buf) t1 ->
      publication dir name buf random false
        (t1 ++ [EvUnit (CRename (temp_of dir name random) (join [dir; name])) (Throw e); EvUnit (CUnlink (temp_of dir name random)) a])
  | write_failed t1 :
      Forall (fun e => call_of e ∈ write_steps (temp_of dir name random) buf) t1 -> ~ Forall answered t1 ->
      publication dir name buf random false t1.

Ltac calls_done := repeat (constructor; [|try (constructor; fail)]); try (split; [reflexivity|]); repeat constructor.

Section publication.
Context (ctx : OpContext).

Ltac among := repeat (apply Forall_cons; split; [cbn [call_of]; set_solver|]); apply Forall_nil; exact I.
Ltac failing := rewrite ?Forall_app, ?Forall_cons; cbn [answered is_ok]; intuition discriminate.

Lemma write_always temp buf (Q : res unit -> list event -> Prop) :
  (forall t, completed (write_steps temp buf) t -> Q (Ok tt) t) ->
  (forall e t, Forall (fun e => call_of e ∈ write_steps temp buf) t -> ~ Forall answered t -> Q (Throw e) t) ->
  always (_ ← call_unit (env ctx) (COpenExclusive temp 384);
          try_finally (_ ← call_unit (env ctx) (CFchmod temp 384); _ ← call_unit (env ctx) (CWriteBytes temp buf); call_unit (env ctx) (CFsyncFd temp))
            (call_unit (env ctx) (CCloseFd temp))) Q.
Proof.
  intros Hok Hbad. unfold write_steps in *. apply always_bind, always_call_unit. intros [[]|e]; [|apply Hbad; [among | failing]].
  apply always_try_finally, always_bind, always_call_unit. intros [[]|e1].
  - apply always_bind, always_call_unit. intros [[]|e2].
    + apply always_call_unit. intros [[]|e3]; apply always_call_unit; intros [[]|e4]; cbn [app];
        solve [apply Hok; calls_done | apply Hbad; [among | failing]].
    + apply always_call_unit. intros [[]|e4]; cbn [app]; apply Hbad; solve [among | failing].
  - apply always_call_unit. intros [[]|e4]; cbn [app]; apply Hbad; solve [among | failing].
Qed.

Lemma sync_always dir (Q : res unit -> list event -> Prop) :
  (forall t, completed (sync_steps dir) t -> Q (Ok tt) t) ->
  (forall e t, Forall (fun e => call_of e ∈ sync_steps dir) t -> ~ Forall answered t -> Q (Throw e) t) ->
  always (fsyncDirectory ctx dir) Q.
Proof.
  intros Hok Hbad. unfold fsyncDirectory, sync_steps in *. apply always_bind, always_call_unit. intros [[]|e]; [|apply Hbad; [among | failing]].
  apply always_try_finally, always_call_unit. intros [[]|e1]; apply always_call_unit; intros [[]|e2]; cbn [app];
    solve [apply Hok; calls_done | apply Hbad; [among | failing]].
Qed.

Lemma bind_assoc {A B C} (m : M A) (f : A -> M B) (g : B -> M C) Q :
  always (b ← (a ← m; f a); g b) Q -> always (a ← m; b ← f a; g b) Q.
Proof.
  intros H w. specialize (H w). unfold wp, mbind, M_bind in *. destruct (m w) as [[[a|e] w1] t1]; [|done].
  destruct (f a w1) as [[[b|e] w2] t2]; [|done]. destruct (g b w2) as [[r w3] t3]. by rewrite app_assoc.
Qed.

Lemma publish_steps_always dir name random buf {A} (k : M A) (Q : res A -> list event -> Prop) :
  (forall t, publication dir name buf random true t -> always k (fun r t' => Q r (t ++ t'))) ->
  (forall e t, publication dir name buf random false t -> Q (Throw e) t) ->
  always
    (_ ← call_unit (env ctx) (COpenExclusive (temp_of dir name random) 384);
     _ ← try_finally
           (_ ← call_unit (env ctx) (CFchmod (temp_of dir name random) 384);
            _ ← call_unit (env ctx) (CWriteBytes (temp_of dir name random) buf);
            call_unit (env ctx) (CFsyncFd (temp_of dir name random)))
           (call_unit (env ctx) (CCloseFd (temp_of dir name random)));
     _ ← try_catch (call_unit (env ctx) (CRename (temp_of dir name random) (join [dir; name])))
           (fun e => _ ← best_effort (call_unit (env ctx) (CUnlink (temp_of dir name random))); throw e);
     _ ← fsyncDirectory ctx dir; k) Q.
Proof.
  intros Hok Hbad. apply bind_assoc, always_bind, write_always; [|intros e t H1 H2; by apply Hbad, write_failed].
  intros t1 H1. apply always_bind, always_try_catch, always_call_unit. intros [[]|e].
  - apply always_bind, sync_always.
    + intros t2 H2. eapply always_mono; [apply Hok, (published_whole _ _ _ _ t1 (EvUnit (CRename (temp_of dir name random) (join [dir; name])) (Ok tt)) t2 H1); [calls_done | exact H2]|].
      intros r t Ht. cbv beta in Ht. by rewrite <- app_assoc in Ht.
    + intros e t2 H2 Hn. apply Hbad, published_unsynced; try done. calls_done.
  - apply always_bind, always_best_effort_call. intros a. apply always_throw. rewrite app_nil_r. by apply Hbad, rename_failed.
Qed.

(** A file of a run is published whole or not at all.
    Whatever the environment answers, publishing bytes under a name draws a
    random temporary name of the same directory, and then either succeeds, having
    created it exclusively with mode 0600, written exactly those bytes, synced and
    closed it, renamed it over the name and synced the directory, each step
    answered without an error, in this order; or fails in one of three ways: a
    step before the rename failed and the name was never touched; the rename
    failed and the removal of the temporary file was tried; or the rename
    succeeded and only the sync of the directory failed, so the whole file is
    there.  The digest and the length reported are those of the bytes. *)
Theorem publication_atomic sha256_hex dir name buf :
  always (publishValidatedArtifactAtomic ctx sha256_hex dir name buf) (fun r t =>
    (exists e, r = Throw e /\ t = [EvText (CRandomHex 8) (Throw e)]) \/
    exists random t', t = EvText (CRandomHex 8) (Ok random) :: t' /\ publication dir name buf random (is_ok r) t' /\
      (forall a, r = Ok a -> a = mkArtifact name (Z.of_nat (length buf)) (sha256_hex buf))).
Proof.
  unfold publishValidatedArtifactAtomic. apply always_bind, always_call_text. intros [random|e]; [|left; by exists e]. cbv zeta.
  fold (temp_of dir name random). apply (always_mono _ (fun r t => publication dir name buf random (is_ok r) t /\
    (forall a, r = Ok a -> a = mkArtifact name (Z.of_nat (length buf)) (sha256_hex buf)))).
  2: { intros r t [H1 H2]. right. by exists random, t. }
  apply publish_steps_always.
  - intros t Ht. apply always_ret. rewrite app_nil_r. split; [done|]. by intros a [= <-].
  - intros e t Ht. by split.
Qed.
End publication.

(** ** The byte caps *)

Lemma record_bytes_other k v r : js k <> js "artifacts" -> record_bytes (set_key (js k) v r) = record_bytes r.
Proof. intros H. unfold record_bytes, artifacts_of, rec. by rewrite field_set_key_other. Qed.

Lemma sum_bytes_app t xs ys : sum_bytes t (xs ++ ys) = (t' ← sum_bytes t xs; sum_bytes t' ys).
Proof.
  revert t. induction xs as [|x xs IH]; intros t; cbn [app sum_bytes]; [done|]. destruct (member x "bytes") as [b|e]; [|done]. cbn.
  destruct (js_plus t b) as [t'|e]; [cbn; apply IH | done].
Qed.

Lemma record_bytes_push r n a :
  record_bytes r = Ok (jint n) -> Z.abs (n + ra_bytes a) <= 2 ^ 53 -> record_bytes (push_artifact r a) = Ok (jint (n + ra_bytes a)).
Proof.
  intros Hr Hn. unfold record_bytes, artifacts_of, push_artifact, rec in *.
  destruct (field (JObj r) (js "artifacts")) as [| | | | |xs|] eqn:Hx; try discriminate.
  rewrite field_set_key_same. cbn [mbind res_bind] in *. rewrite sum_bytes_app, Hr. cbn [mbind res_bind sum_bytes].
  change (member (artifact_json a) "bytes") with (Ok (A := jsval) (jint (ra_bytes a))). cbn [mbind res_bind].
  unfold jint. by rewrite js_plus_int.
Qed.

(** The caps a broker is configured with leave room for exact sums. *)
Definition caps_sane (caps : ReviewRunCaps) : Prop := 0 <= cap_maxBytes caps /\ cap_maxBytes caps + cap_maxFileBytes caps <= 2 ^ 53.

(** The writer's total is that of its record, within the cap of a run. *)
Definition run_within (w : ReviewRunWriter) (n : Z) : Prop :=
  rw_totalBytes w = jint n /\ record_bytes (rw_record w) = Ok (jint n) /\ 0 <= n <= cap_maxBytes (rw_caps w).

Section caps.
Context (ctx : OpContext) (sha256_hex : list N -> jsstr).

Lemma persist_always w state :
  always (persist ctx sha256_hex w state) (fun r _ => exists out, r = Ok (out, with_record w (set_key (js "state") (JStr (js state)) (rw_record w)))).
Proof.
  unfold persist. apply always_bind, always_attempt. eapply always_mono; [apply always_true|]. intros r t _.
  apply always_ret. by exists r.
Qed.

Lemma caps_Ok caps n name bytes total :
  caps_sane caps -> 0 <= n <= cap_maxBytes caps -> 0 <= bytes ->
  assertArtifactCaps caps (jint n) name bytes = Ok total <->
  bytes <= cap_maxFileBytes caps /\ n + bytes <= cap_maxBytes caps /\ total = jint (n + bytes).
Proof.
  intros [Hm Hs] Hn Hb. unfold assertArtifactCaps.
  destruct (cap_maxFileBytes caps <? bytes) eqn:Hf; [apply Z.ltb_lt in Hf; split; [discriminate | lia]|]. apply Z.ltb_ge in Hf.
  cbn [throw_if mbind res_bind]. unfold jint. rewrite js_plus_int by lia. cbn [mbind res_bind]. rewrite js_greater_int. cbn [mbind res_bind].
  change (js_String (JNum (NumInt (n + bytes)))) with (Ok (A := jsstr) (dec (n + bytes))). cbn [mbind res_bind].
  destruct (cap_maxBytes caps <? n + bytes) eqn:Ht; cbn [throw_if mbind res_bind].
  - apply Z.ltb_lt in Ht. split; [discriminate | lia].
  - apply Z.ltb_ge in Ht. split; [intros [= <-]; auto with lia | by intros (_ & _ & ->)].
Qed.

(** What an artifact appended to the record of a writer leaves. *)
Definition appended (w w' : ReviewRunWriter) (a : ReviewRunArtifact) : Prop :=
  exists xs, rec (rw_record w) "artifacts" = JArr xs /\ rec (rw_record w') "artifacts" = JArr (xs ++ [artifact_json a]).

(** How adding [bytes] as [name] ends, for a writer whose run holds [n] bytes. *)
Inductive addition (w : ReviewRunWriter) (n : Z) (a : ReviewRunArtifact) : res ReviewRunArtifact -> ReviewRunWriter -> list event -> Prop :=
  | add_refused e : addition w n a (Throw e) w []
  | add_unpublished e t :
      ra_bytes a <= cap_maxFileBytes (rw_caps w) -> n + ra_bytes a <= cap_maxBytes (rw_caps w) -> addition w n a (Throw e) w t
  | add_published r w' t :
      ra_bytes a <= cap_maxFileBytes (rw_caps w) -> n + ra_bytes a <= cap_maxBytes (rw_caps w) ->
      appended w w' a -> run_within w' (n + ra_bytes a) -> rw_caps w' = rw_caps w ->
      (r = Ok a \/ exists e, r = Throw e) -> addition w n a r w' t.

Lemma appended_run w a total state n :
  caps_sane (rw_caps w) -> run_within w n -> 0 <= ra_bytes a -> ra_bytes a <= cap_maxFileBytes (rw_caps w) ->
  n + ra_bytes a <= cap_maxBytes (rw_caps w) -> total = jint (n + ra_bytes a) -> js state <> js "artifacts" ->
  let w1 := mkWriter (rw_runDir w) (push_artifact (rw_record w) a) (rw_caps w) total in
  let w' := with_record w1 (set_key (js state) (JStr (js "publishing")) (rw_record w1)) in
  appended w w' a /\ run_within w' (n + ra_bytes a).
Proof.
  intros [Hm Hs] (Ht & Hr & Hn) H0 Hf Hc -> Hst w1 w'. split.
  - unfold appended, w', w1, rec. cbn [rw_record with_record]. pose proof Hr as Hr'. unfold record_bytes, artifacts_of, rec in Hr'.
    rewrite field_set_key_other by done. unfold push_artifact, rec. destruct (field (JObj (rw_record w)) (js "artifacts")) as [| | | | |xs|]; try discriminate.
    exists xs. split; [done | by rewrite field_set_key_same].
  - split; [done|]. cbn [rw_record w' with_record w1]. rewrite record_bytes_other by done. split; [|cbn; lia].
    apply record_bytes_push; [done | lia].
Qed.

Lemma publish_named_always dir name buf :
  always (publishArtifactAtomic ctx sha256_hex dir name buf) (fun r _ => forall a, r = Ok a -> a = mkArtifact name (Z.of_nat (length buf)) (sha256_hex buf)).
Proof.
  unfold publishArtifactAtomic. apply always_bind, always_lift. destruct (assertReviewRunArtifactName name); [|done].
  unfold publishValidatedArtifactAtomic. apply always_bind, always_call_text. intros [random|e]; [|done]. cbv zeta.
  apply (publish_steps_always ctx); [|done]. intros t _. apply always_ret. by intros b [= <-].
Qed.

End caps.

(** A new run: no bytes yet, the caps of the configuration's default. *)
Definition sample_writer : ReviewRunWriter :=
  mkWriter (js "/runs/s/r") (new_record (js "r") (js "s") (js "t0") JNull JNull (js "/work/p")) DEFAULT_REVIEW_RUN_CAPS (jint 0).


(** ** Retention *)

Lemma always_and {A} (m : M A) (P Q : res A -> list event -> Prop) : always m P -> always m Q -> always m (fun r t => P r t /\ Q r t).
Proof. intros HP HQ w. specialize (HP w). specialize (HQ w). unfold wp in *. by destruct (m w) as [[r w'] t]. Qed.

(** A statement about a trace that longer traces keep. *)
Definition persistent {B} (P : list event -> B -> Prop) : Prop := forall t1 t2 t3 b, P t2 b -> P (t1 ++ t2 ++ t3) b.

Lemma always_mapM {A B} (f : A -> M B) (P : list event -> B -> Prop) xs :
  persistent P -> (forall x, always (f x) (fun r t => forall b, r = Ok b -> P t b)) ->
  always (mapM_ f xs) (fun r t => forall bs, r = Ok bs -> Forall (P t) bs).
Proof.
  intros HP Hf. induction xs as [|x xs IH]; cbn [mapM_].
  - apply always_ret. intros bs [= <-]. constructor.
  - apply always_bind. eapply always_mono; [apply Hf|]. intros [y|e] t1 H1; [|by intros bs [=]].
    apply always_bind. eapply always_mono; [exact IH|]. intros [ys|e] t2 H2; [|by intros bs [=]].
    apply always_ret. intros bs [= <-]. rewrite app_nil_r. constructor.
    + exact (HP [] t1 t2 y (H1 y eq_refl)).
    + eapply Forall_impl; [exact (H2 ys eq_refl)|]. intros b Hb. specialize (HP t1 t2 [] b Hb). by rewrite app_nil_r in HP.
Qed.

(** The record of a run, from the answer to the reading of its file. *)
Definition record_read (a : res jsstr) : option ReviewRunRecord :=
  match a with
  | Ok raw => match json_parse raw with
              | Some (JObj fs) => match rec fs "state" with JStr _ => Some fs | _ => None end
              | _ => None
              end
  | Throw _ => None
  end.

(** A run as the trace shows it: its age and its record were read. *)
Definition seen_run (t : list event) (run : DiscoveredRun) : Prop :=
  EvInt (CModifiedAt (dr_runDir run)) (Ok (dr_mtimeMs run)) ∈ t /\
  exists a, EvText (CReadFile (join [dr_runDir run; REVIEW_RUN_METADATA_NAME])) a ∈ t /\ dr_record run = record_read a.

Lemma seen_persistent : persistent seen_run.
Proof. intros t1 t2 t3 run [H (a & Ha & Hr)]. split; [set_solver|]. exists a. split; [set_solver | done]. Qed.

Lemma all_seen_persistent : persistent (fun t => Forall (seen_run t)).
Proof. intros t1 t2 t3 runs H. eapply Forall_impl; [exact H|]. intros run. apply seen_persistent. Qed.

Section retention.
Context (ctx : OpContext).

Lemma readRunRecord_always dir :
  always (readRunRecord ctx dir) (fun r t => exists a, t = [EvText (CReadFile (join [dir; REVIEW_RUN_METADATA_NAME])) a] /\ r = Ok (record_read a)).
Proof.
  unfold readRunRecord. apply always_try_catch, always_bind, always_call_text. intros [raw|e].
  - destruct (json_parse raw) as [[| | | | | |fs]|] eqn:Hj; repeat walk_step; eexists; (split; [reflexivity | by cbn [record_read]; rewrite Hj]).
  - apply always_ret. by eexists.
Qed.

Lemma discover_always session dir name :
  always (discover_run ctx session dir name) (fun r t => forall runs, r = Ok runs -> Forall (seen_run t) runs).
Proof.
  unfold discover_run. cbv zeta. apply always_bind, always_try_catch, always_bind, always_call_int. intros [mtime|e].
  - apply always_ret, always_bind. eapply always_mono; [apply readRunRecord_always|]. intros r t (a & -> & ->).
    apply always_ret. intros runs [= <-]. apply Forall_singleton. split; cbn; [set_solver|]. exists a. split; [set_solver | done].
  - apply always_ret, always_ret. by intros runs [= <-].
Qed.

Lemma concat_seen t1 t runs : Forall (Forall (seen_run t)) runs -> Forall (seen_run (t1 ++ t)) (concat runs).
Proof.
  induction 1 as [|x xs Hx _ IH]; cbn [concat]; [constructor|]. apply Forall_app. split; [|done].
  pose proof (all_seen_persistent t1 t [] x Hx) as H. by rewrite app_nil_r in H.
Qed.

Lemma discoverRuns_always root : always (discoverRuns ctx root) (fun r t => forall runs, r = Ok runs -> Forall (seen_run t) runs).
Proof.
  unfold discoverRuns. apply always_bind, always_call_bool. intros [[|]|e]; [| |by intros runs [=]]; cbn [negb].
  2: { apply always_ret. by intros runs [= <-]. }
  apply always_bind, always_call_names. intros [sessions|e]; [|by intros runs [=]].
  apply always_bind. eapply always_mono.
  - apply (always_mapM _ (fun t => Forall (seen_run t))); [exact all_seen_persistent|]. intros session. cbv zeta.
    apply always_bind, always_call_names. intros [names|e]; [|by intros runs [=]]. apply always_bind.
    eapply always_mono; [apply (always_mapM _ (fun t => Forall (seen_run t))); [exact all_seen_persistent | intros x; apply discover_always]|].
    intros [found|e] t H; [|by intros runs [=]]. apply always_ret. intros runs [= <-]. rewrite app_nil_r.
    by apply (concat_seen [_]), H.
  - intros [runs|e] t H; [|by intros rs [=]]. apply always_ret. intros rs [= <-]. rewrite app_nil_r.
    by apply (concat_seen [_; _]), H.
Qed.

Definition removals (runs : list DiscoveredRun) : list call := map (fun run => CRm (dr_runDir run)) runs.

(** What a removal of some runs in order does: all of them, or some first ones
    before an error. *)
Definition removed_in_order (runs : list DiscoveredRun) (ok : bool) (t : list event) : Prop :=
  map call_of t `prefix_of` removals runs /\ (ok = true -> map call_of t = removals runs).

Definition state_of (run : DiscoveredRun) : jsval := match dr_record run with Some r => rec r "state" | None => JNull end.
Definition pruned_entry (reason : prune_reason) (run : DiscoveredRun) : PrunedReviewRun :=
  mkPrunedRun (dr_sessionID run) (dr_runId run) reason (state_of run).

(** The reference: which runs go, and in which order. *)
Definition is_expired (now ttlMs : Z) (run : DiscoveredRun) : bool := negb (now - dr_mtimeMs run <=? ttlMs).
Definition expired_runs (now ttlMs : Z) (runs : list DiscoveredRun) : list DiscoveredRun :=
  List.filter (fun run => is_expired now ttlMs run && negb (isOpenRun run)) runs.
Definition left_after (gone : list jsstr) (runs : list DiscoveredRun) : list DiscoveredRun :=
  merge_sort older (List.filter (fun run => negb (mem (dr_runDir run) gone)) runs).
Definition excess_runs (maxRuns : Z) (remaining : list DiscoveredRun) : list DiscoveredRun :=
  take (Z.to_nat (Z.of_nat (length remaining) - maxRuns)) (List.filter (fun run => negb (isOpenRun run)) remaining).

(** A pass: the runs removed, and the variables it leaves. *)
Definition pass (reason : prune_reason) (gone : list DiscoveredRun) (p : Pruning) (r : res Pruning) (t : list event) : Prop :=
  removed_in_order gone (is_ok r) t /\
  forall p', r = Ok p' -> pn_pruned p' = pn_pruned p ++ map (pruned_entry reason) gone /\
                          pn_removed p' = pn_removed p ++ map dr_runDir gone.

Lemma pass_nothing reason p q : pn_pruned q = pn_pruned p -> pn_removed q = pn_removed p -> pass reason [] p (Ok q) [].
Proof. intros H1 H2. split; [split; [by apply prefix_nil | done]|]. intros p' [= <-]. cbn [map]. by rewrite !app_nil_r. Qed.

Lemma noteOpen_same run p : pn_pruned (noteOpen run p) = pn_pruned p /\ pn_removed (noteOpen run p) = pn_removed p.
Proof. unfold noteOpen. by destruct (mem _ _). Qed.

Lemma pass_same reason gone p q r t : pn_pruned q = pn_pruned p -> pn_removed q = pn_removed p -> pass reason gone q r t -> pass reason gone p r t.
Proof. intros H1 H2 [Ho Hp]. split; [done|]. intros p' Hr. specialize (Hp p' Hr). by rewrite H1, H2 in Hp. Qed.

Lemma pass_one reason run gone p (k : Pruning -> M Pruning) :
  (forall p', always (k p') (pass reason gone p')) ->
  always (p' ← remove_run ctx reason run p; k p') (pass reason (run :: gone) p).
Proof.
  intros Hk. unfold remove_run. cbv zeta. apply always_bind, always_bind, always_call_unit. intros [[]|e].
  - apply always_ret. rewrite app_nil_r. eapply always_mono; [apply Hk|]. intros r t [[Hpre Hall] Hp]. split; [split|].
    + cbn [app map removals call_of]. by apply prefix_cons.
    + intros Hok. cbn [app map removals call_of]. f_equal. by apply Hall.
    + intros p' Hr. specialize (Hp p' Hr). cbn [pn_pruned pn_removed] in Hp. cbn [map]. rewrite <- !app_assoc in Hp. exact Hp.
  - split; [|done]. split; [|done]. cbn [app map removals call_of]. apply prefix_cons, prefix_nil.
Qed.

Lemma prune_expired_always now ttlMs runs p : always (prune_expired ctx now ttlMs runs p) (pass expired (expired_runs now ttlMs runs) p).
Proof.
  revert p. induction runs as [|run runs IH]; intros p; cbn [prune_expired expired_runs List.filter].
  - apply always_ret. by apply pass_nothing.
  - unfold is_expired at 1. destruct (now - dr_mtimeMs run <=? ttlMs); cbn [negb andb]; [apply IH|].
    destruct (isOpenRun run); cbn [negb]; [|by apply pass_one].
    eapply always_mono; [apply IH|]. intros r t. apply pass_same; apply noteOpen_same.
Qed.

Lemma prune_excess_always excess runs p :
  always (prune_excess ctx excess runs p) (pass over_bound (take (Z.to_nat excess) (List.filter (fun run => negb (isOpenRun run)) runs)) p).
Proof.
  revert excess p. induction runs as [|run runs IH]; intros excess p; cbn [prune_excess List.filter].
  - rewrite take_nil. apply always_ret. by apply pass_nothing.
  - destruct (excess <=? 0) eqn:He.
    + apply Z.leb_le in He. replace (Z.to_nat excess) with 0%nat by lia. rewrite take_0. apply always_ret. by apply pass_nothing.
    + apply Z.leb_gt in He. destruct (isOpenRun run); cbn [negb].
      * eapply always_mono; [apply IH|]. intros r t. apply pass_same; apply noteOpen_same.
      * replace (Z.to_nat excess) with (S (Z.to_nat (excess - 1))) by lia. cbn [take]. by apply pass_one.
Qed.

Lemma filter_closed runs : Forall (fun run => isOpenRun run = false) (List.filter (fun run => negb (isOpenRun run)) runs).
Proof. apply List.Forall_forall. intros run H. apply filter_In in H as [_ H]. by apply negb_true_iff in H. Qed.
Lemma expired_closed now ttlMs runs : Forall (fun run => isOpenRun run = false) (expired_runs now ttlMs runs).
Proof.
  apply List.Forall_forall. intros run H. apply filter_In in H as [_ H]. apply andb_true_iff in H as [_ H]. by apply negb_true_iff in H.
Qed.
Lemma excess_closed maxRuns runs : Forall (fun run => isOpenRun run = false) (excess_runs maxRuns runs).
Proof. unfold excess_runs. by apply Forall_take, filter_closed. Qed.

Definition not_removal (c : call) : Prop := match c with CRm _ => False | _ => True end.
Ltac spared := lazymatch goal with |- not_removal _ => exact I end.

Lemma discover_only session dir name : only_calls not_removal (discover_run ctx session dir name).
Proof. unfold discover_run, readRunRecord. cbv zeta. repeat (only_step || spared). Qed.
Lemma discoverRuns_only root : only_calls not_removal (discoverRuns ctx root).
Proof.
  unfold discoverRuns. cbv zeta. repeat (only_step || spared). apply discover_only.
Qed.

(** Retention removes exactly the runs it should, and never an open one.
    Pruning first reads the age and the record of every run, removing nothing;
    then it removes, in this order, the runs older than the time to live whose
    record does not read publishing, and of the rest, oldest first, as many whose
    record does not read publishing as exceed the bound.  It stops at a removal
    that fails; when it returns it has made all of these removals, and its summary
    names each of them with its reason, and the number of runs there were. *)
Theorem prune_exact root ttlMs maxRuns now :
  always (pruneReviewRuns ctx root ttlMs maxRuns (Some now)) (fun r t =>
    (Forall (fun e => not_removal (call_of e)) t /\ is_ok r = false) \/
    exists runs t1 t2, t = t1 ++ t2 /\ Forall (fun e => not_removal (call_of e)) t1 /\ Forall (seen_run t1) runs /\
      let gone := expired_runs now ttlMs runs in
      let excess := excess_runs maxRuns (left_after (map dr_runDir gone) runs) in
      removed_in_order (gone ++ excess) (is_ok r) t2 /\
      Forall (fun run => isOpenRun run = false) (gone ++ excess) /\
      forall s, r = Ok s -> ps_pruned s = map (pruned_entry expired) gone ++ map (pruned_entry over_bound) excess /\
                            ps_totalBefore s = Z.of_nat (length runs)).
Proof.
  unfold pruneReviewRuns. apply always_bind, always_ret, always_bind.
  eapply always_mono; [apply (always_and _ _ _ (discoverRuns_always root) (discoverRuns_only root))|].
  intros [runs|e] t1 [Hseen Hno]; cbn [app]; [|by left].
  set (gone := expired_runs now ttlMs runs). set (excess := excess_runs maxRuns (left_after (map dr_runDir gone) runs)).
  assert (Forall (fun run => isOpenRun run = false) (gone ++ excess)) as Hopen.
  { apply Forall_app. split; [apply expired_closed | apply excess_closed]. }
  specialize (Hseen runs eq_refl). apply always_bind. eapply always_mono; [apply prune_expired_always|].
  intros r t2 [[Hpre Hall] Hp]. destruct r as [p|e].
  - destruct (Hp p eq_refl) as [Hp1 Hp2]. cbn [pn_pruned pn_removed app] in Hp1, Hp2. rewrite Hp2. cbv zeta. apply always_bind.
    eapply always_mono; [apply prune_excess_always|]. intros r t3 [[Hpre' Hall'] Hp'].
    assert (removed_in_order (gone ++ excess) (is_ok r) (t2 ++ t3)) as Hrem.
    { unfold removed_in_order, removals. rewrite !map_app, (Hall eq_refl). split; [by apply prefix_app|]. intros Hok. by rewrite (Hall' Hok). }
    destruct r as [q|e].
    + destruct (Hp' q eq_refl) as [Hq1 _]. apply always_ret. right. exists runs, t1, (t2 ++ t3). rewrite app_nil_r.
      split_and!; try done. intros s [= <-]. cbn [ps_pruned ps_totalBefore]. by rewrite Hq1, Hp1.
    + right. exists runs, t1, (t2 ++ t3). by split_and!.
  - right. exists runs, t1, t2. split_and!; try done. split; [|done]. unfold removals. rewrite map_app. by apply prefix_app_r.
Qed.
End retention.

(** ** Going up a path *)
Lemma split_on_snoc c s d : d <> c -> exists init l, split_on c s = init ++ [l] /\ split_on c (s ++ [d]) = init ++ [l ++ [d]].
Proof.
  intros Hd. induction s as [|x s (init & l & H1 & H2)]; cbn [app split_on].
  - exists [], []. cbn. assert (c <> d) as Hd' by congruence. apply N.eqb_neq in Hd'. by rewrite Hd'.
  - destruct (N.eqb c x) eqn:Hx.
    + exists ([] :: init), l. by rewrite H1, H2.
    + rewrite H1, H2. destruct init as [|i init]; cbn [app]; [by exists [], (x :: l) | by exists ((x :: i) :: init), l].
Qed.

Lemma split_on_shorter c s : Forall (fun w => (length w <= length s)%nat) (split_on c s).
Proof.
  induction s as [|x s IH]; cbn [split_on]; [by repeat constructor|].
  assert (forall ws : list jsstr, Forall (fun w => (length w <= length s)%nat) ws -> Forall (fun w => (length w <= length (x :: s))%nat) ws) as Hmono.
  { intros ws H. eapply Forall_impl; [exact H|]. cbn [length]. lia. }
  destruct (N.eqb c x); [constructor; [cbn; lia | by apply Hmono]|].
  destruct (split_on c s) as [|w ws]; [constructor; [cbn; lia | constructor]|]. apply Forall_cons in IH as [Hw Hws].
  constructor; [cbn [length]; lia | by apply Hmono].
Qed.

Lemma strip_trailing_spec p : strip_trailing p = [] \/ exists q d, strip_trailing p = q ++ [d] /\ d <> SLASH.
Proof.
  unfold strip_trailing. assert (forall r, drop_slashes r = [] \/ exists d q, drop_slashes r = d :: q /\ d <> SLASH) as H.
  { induction r as [|c r IH]; cbn [drop_slashes]; [by left|]. destruct (N.eqb c SLASH) eqn:Hc; [done|].
    right. exists c, r. split; [done|]. by apply N.eqb_neq. }
  destruct (H (rev p)) as [->|(d & q & -> & Hd)]; [by left|]. right. exists (rev q), d. by split.
Qed.

Lemma strip_trailing_fix q d : d <> SLASH -> strip_trailing (q ++ [d]) = q ++ [d].
Proof.
  intros Hd. unfold strip_trailing. rewrite rev_unit. cbn [drop_slashes]. apply N.eqb_neq in Hd. rewrite Hd.
  cbn [rev]. by rewrite rev_involutive.
Qed.

Lemma strip_trailing_prefix p : strip_trailing p `prefix_of` p.
Proof.
  unfold strip_trailing. assert (forall r, exists s, r = s ++ drop_slashes r) as H.
  { induction r as [|c r [s IH]]; cbn [drop_slashes]; [by exists []|]. destruct (N.eqb c SLASH); [|by exists []].
    exists (c :: s). cbn [app]. by f_equal. }
  destruct (H (rev p)) as [s Hs]. exists (rev s). rewrite <- rev_app_distr, <- Hs. by rewrite rev_involutive.
Qed.

Lemma basename_length q d : d <> SLASH -> (0 < length (basename (SLASH :: q ++ [d])) <= length (q ++ [d]))%nat.
Proof.
  intros Hd. unfold basename. change (SLASH :: q ++ [d]) with ((SLASH :: q) ++ [d]).
  rewrite (strip_trailing_fix (SLASH :: q)) by done. cbn [split_on app]. rewrite N.eqb_refl.
  destruct (split_on_snoc SLASH q d Hd) as (init & l & H1 & H2). rewrite H2.
  change ([] :: init ++ [l ++ [d]]) with (([] :: init) ++ [l ++ [d]]). rewrite last_snoc. cbv [from_option id].
  split; [rewrite length_app; cbn; lia|].
  pose proof (split_on_shorter SLASH (q ++ [d])) as Hs. rewrite H2 in Hs. apply Forall_app in Hs as [_ Hs]. by apply Forall_cons in Hs as [Hs _].
Qed.

(** One step up shortens an absolute path, until the root. *)
Lemma dirname_up p : isAbsolute p = true ->
  isAbsolute (dirname p) = true /\ (dirname p = p \/ (length (dirname p) < length p)%nat).
Proof.
  destruct p as [|c p]; [done|]. intros Ha.
  assert (c = SLASH) as -> by (unfold isAbsolute in Ha; cbn [startsWith] in Ha; apply andb_true_iff in Ha as [Ha%N.eqb_eq _]; congruence).
  unfold dirname. cbv zeta. pose proof (strip_trailing_prefix (SLASH :: p)) as [post Hpost].
  destruct (strip_trailing_spec (SLASH :: p)) as [Hq|(q & d & Hq & Hd)]; rewrite Hq.
  { split; [done|]. destruct p as [|x p]; [by left | right; cbn; lia]. }
  rewrite Hq in Hpost. destruct q as [|c q]; cbn [app] in Hpost; injection Hpost as Hc Hp; [congruence|]. subst c.
  pose proof (basename_length q d Hd) as Hb. cbn [app]. set (n := length (basename (SLASH :: q ++ [d]))) in *. clearbody n.
  assert (exists k, length (SLASH :: q ++ [d]) - n = S k /\ k < length (q ++ [d]))%nat as (k & Hk & Hlt).
  { exists (length (q ++ [d]) - n)%nat. cbn [length]. lia. }
  rewrite Hk. cbn [take]. assert (length (q ++ [d]) <= length p)%nat as Hlen by (rewrite Hp, !length_app; lia).
  assert (length (take k (q ++ [d])) <= k)%nat as Htk by (rewrite length_take; lia).
  destruct (take k (q ++ [d])) as [|x [|y f]]; cbn [length] in *.
  - split; [done | right; lia].
  - rewrite Ha. split; [done | right; cbn [length]; lia].
  - split; [done|]. right. change (SLASH :: x :: y :: f) with ([SLASH] ++ x :: y :: f). rewrite length_take. cbn [length app]. lia.
Qed.

Lemma resolve1_absolute cwd p : isAbsolute (resolve1 cwd p) = true.
Proof. unfold isAbsolute, resolve1, resolve2. cbv zeta. cbn [startsWith]. by destruct (normalizeString _ _). Qed.

(** The walk of [canonicalForContainment]: the nearest ancestor that resolves,
    with the rest of the path; the path itself when not even the root does. *)
Inductive canonical_walk (cwd path : jsstr) : jsstr -> list jsstr -> list event -> jsstr -> Prop :=
  | walk_found current tail r :
      canonical_walk cwd path current tail [EvText (CRealpath current) (Ok r)] (match tail with [] => r | _ => join (r :: tail) end)
  | walk_up current tail e t v :
      dirname current <> current -> canonical_walk cwd path (dirname current) (basename current :: tail) t v ->
      canonical_walk cwd path current tail (EvText (CRealpath current) (Throw e) :: t) v
  | walk_root current tail e :
      dirname current = current -> canonical_walk cwd path current tail [EvText (CRealpath current) (Throw e)] (resolve1 cwd path).

Definition canonical_path (cwd path : jsstr) : list event -> jsstr -> Prop := canonical_walk cwd path (resolve1 cwd path) [].

Section paths.
Context (ctx : OpContext) (cwd : jsstr).

Lemma canonical_from_always fuel path current tail :
  isAbsolute current = true -> (length current < fuel)%nat ->
  always (canonical_from ctx cwd fuel path current tail) (fun r t => exists v, r = Ok v /\ canonical_walk cwd path current tail t v).
Proof.
  revert current tail. induction fuel as [|fuel IH]; intros current tail Ha Hf; [lia|]. cbn [canonical_from].
  apply always_bind, always_try_catch, always_bind, always_call_text. intros [r|e].
  - apply always_ret, always_ret. eexists. split; [done|]. apply walk_found.
  - apply always_ret. destruct (dirname_up current Ha) as [Ha' Hup]. destruct (str_eqb (dirname current) current) eqn:Hd.
    + apply str_eqb_eq in Hd. apply always_ret. eexists. split; [done | by apply walk_root].
    + apply str_eqb_neq in Hd. destruct Hup as [Hup|Hup]; [done|].
      eapply always_mono; [apply IH; [done | lia]|]. intros r t (v & -> & Hv). exists v. split; [done|]. by apply walk_up.
Qed.

Lemma canonical_always path : always (canonicalForContainment ctx cwd path) (fun r t => exists v, r = Ok v /\ canonical_path cwd path t v).
Proof. unfold canonicalForContainment. cbv zeta. apply canonical_from_always; [apply resolve1_absolute | lia]. Qed.

Lemma walk_only path current tail t v : canonical_walk cwd path current tail t v -> Forall (fun e => exists p, call_of e = CRealpath p) t.
Proof. induction 1; repeat constructor; eauto. Qed.

(** The reading of an open file: the descriptor's type and size, the bytes, and
    its closing, whatever happens. *)
Inductive descriptor_read (target : jsstr) (max : Z) : option (list N) -> list event -> Prop :=
  | read_whole stat size data a : isFile stat = true -> size <= max -> Z.of_nat (length data) <= max ->
      descriptor_read target max (match a with Ok _ => Some data | Throw _ => None end)
        [EvStats (CFdStats target) (Ok stat); EvInt (CFdSize target) (Ok size); EvText (CReadFd target None) (Ok data); EvUnit (CCloseFd target) a]
  | read_refused t a : Forall (fun e => call_of e ∈ [CFdStats target; CFdSize target; CReadFd target None]) t ->
      descriptor_read target max None (t ++ [EvUnit (CCloseFd target) a]).

(** How the reading of the artifact [name] of [runDir] goes. *)
Inductive artifact_read (runDir : jsstr) (name : jsval) (max : Z) (allowRecord : bool) : option (jsstr * list N) -> list event -> Prop :=
  | artifact_refused t : Forall (fun e => exists p, call_of e = CRealpath p) t -> artifact_read runDir name max allowRecord None t
  | artifact_opened n t1 t2 v1 v2 opened result t3 :
      name = JStr n -> REVIEW_RUN_ARTIFACT_NAME_RE n = true ->
      (isReservedReviewRunName n = true -> allowRecord = true /\ n = REVIEW_RUN_METADATA_NAME) ->
      let target := join [runDir; n] in
      canonical_path cwd runDir t1 v1 -> canonical_path cwd target t2 v2 -> contains v1 v2 = true ->
      match opened with
      | Ok _ => descriptor_read target max result t3
      | Throw _ => result = None /\ t3 = []
      end ->
      artifact_read runDir name max allowRecord (option_map (pair n) result) (t1 ++ t2 ++ EvUnit (COpenNoFollow target) opened :: t3).

Lemma refused_read runDir name max allowRecord t :
  Forall (fun e => exists p, call_of e = CRealpath p) t ->
  exists result, artifact_read runDir name max allowRecord result t /\ result = None.
Proof. intros H. exists None. split; [by constructor | done]. Qed.

(** The descriptor is closed, then [tac] ends the branch. *)
Ltac closed tac := apply always_call_unit; intros [[]|?]; cbn [app]; tac;
  repeat (apply Forall_cons; split; [cbn [call_of]; set_solver|]); by apply Forall_nil.

Lemma descriptor_always sha256_hex (n : jsstr) target name max :
  always
    (try_finally
      (stat ← call_stats (env ctx) (CFdStats target);
       _ ← throw_when (negb (isFile stat))
             (ReviewRunError "review_run_artifact_not_regular" [js "review run artifact "; show name; js " is not a regular file"]);
       size ← call_int (env ctx) (CFdSize target);
       _ ← throw_when (max <? size) (artifact_over_cap n "is" size max);
       data ← call_text (env ctx) (CReadFd target None);
       let bytes := Z.of_nat (length data) in
       _ ← throw_when (max <? bytes) (artifact_over_cap n "returned" bytes max);
       mret (mkRead n bytes (sha256_hex data) data))
      (call_unit (env ctx) (CCloseFd target)))
    (fun r t => exists result, descriptor_read target max result t /\
       match r with
       | Ok a => result = Some (rd_data a) /\ rd_name a = n /\ rd_bytes a = Z.of_nat (length (rd_data a)) /\ rd_sha256 a = sha256_hex (rd_data a)
       | Throw _ => result = None
       end).
Proof.
  assert (forall a t, Forall (fun e => call_of e ∈ [CFdStats target; CFdSize target; CReadFd target None]) t ->
    exists result, descriptor_read target max result (t ++ [EvUnit (CCloseFd target) a]) /\ result = None) as Hno.
  { intros a t H. exists None. split; [by apply read_refused | done]. }
  apply always_try_finally, always_bind, always_call_stats. intros [stat|e]; [|closed ltac:(eapply (Hno _ [_]))].
  apply always_bind, always_throw_when; intros Hf; [closed ltac:(eapply (Hno _ [_]))|]. apply negb_false_iff in Hf.
  apply always_bind, always_call_int. intros [size|e]; [|closed ltac:(eapply (Hno _ [_; _]))].
  apply always_bind, always_throw_when; intros Hs; [closed ltac:(eapply (Hno _ [_; _]))|]. apply Z.ltb_ge in Hs.
  apply always_bind, always_call_text. intros [data|e]; [|closed ltac:(eapply (Hno _ [_; _; _]))].
  apply always_bind, always_throw_when; intros Hb; [closed ltac:(eapply (Hno _ [_; _; _]))|]. apply Z.ltb_ge in Hb.
  apply always_ret, always_call_unit. intros a. cbn [app]. eexists. split; [apply (read_whole target max stat size data a Hf Hs Hb)|].
  by destruct a as [[]|e].
Qed.

Lemma readRunArtifact_always sha256_hex runDir name max allowRecord :
  always (readRunArtifact ctx cwd sha256_hex runDir name max allowRecord) (fun r t => exists result,
    artifact_read runDir name max allowRecord result t /\
    match r with
    | Ok a => result = Some (rd_name a, rd_data a) /\ rd_bytes a = Z.of_nat (length (rd_data a)) /\ rd_sha256 a = sha256_hex (rd_data a)
    | Throw _ => result = None
    end).
Proof.
  unfold readRunArtifact. apply always_bind, always_lift.
  destruct (assertReviewRunArtifactNameGrammar name) as [n|e] eqn:Hname; [|by apply refused_read].
  apply always_bind, always_throw_when; intros Hres; [by apply refused_read|]. cbn [app].
  apply always_bind. eapply always_mono; [apply canonical_always|]. intros r1 t1 (v1 & -> & H1).
  apply always_bind. eapply always_mono; [apply canonical_always|]. intros r2 t2 (v2 & -> & H2).
  pose proof (walk_only _ _ _ _ _ H1) as W1. pose proof (walk_only _ _ _ _ _ H2) as W2.
  apply always_bind, always_throw_when; intros Hc; cbn [app]; rewrite ?app_nil_r; [apply refused_read; by apply Forall_app|].
  assert (name = JStr n /\ REVIEW_RUN_ARTIFACT_NAME_RE n = true) as [Hn Hre].
  { unfold assertReviewRunArtifactNameGrammar in Hname. destruct name as [| | | |s| |]; try discriminate.
    destruct (REVIEW_RUN_ARTIFACT_NAME_RE s) eqn:Hs; [|discriminate]. by injection Hname as <-. }
  assert (isReservedReviewRunName n = true -> allowRecord = true /\ n = REVIEW_RUN_METADATA_NAME) as Hallow.
  { intros Hr. rewrite Hr in Hres. cbn [andb] in Hres. apply negb_false_iff, andb_true_iff in Hres as [-> Hm]. split; [done|]. by apply str_eqb_eq in Hm. }
  apply negb_false_iff in Hc. pose proof (artifact_opened runDir name max allowRecord n t1 t2 v1 v2) as Hopen.
  apply always_bind, always_try_catch, always_call_unit. intros [[]|e].
  - eapply always_mono; [apply descriptor_always|]. intros r t3 (result & Hread & Hr).
    exists (option_map (pair n) result). split.
    + specialize (Hopen (Ok tt) result t3). cbn [app]. by apply Hopen.
    + destruct r as [a|e]; [|by subst result]. destruct Hr as (-> & <- & ? & ?). by split_and!.
  - apply always_throw. exists None. split; [|done]. cbn [app]. specialize (Hopen (Throw e) None []). by apply Hopen.
Qed.

Lemma artifact_read_event runDir name max allowRecord n data t :
  artifact_read runDir name max allowRecord (Some (n, data)) t ->
  name = JStr n /\ EvText (CReadFd (join [runDir; n]) None) (Ok data) ∈ t /\ Z.of_nat (length data) <= max.
Proof.
  intros H. remember (Some (n, data)) as result eqn:Hres. destruct H as [|n' t1 t2 v1 v2 opened result t3 -> _ _ target _ _ _ Hread]; [done|].
  destruct opened as [u|e]; [|destruct Hread as [-> _]; discriminate]. destruct result as [data'|]; [|discriminate].
  cbn [option_map] in Hres. injection Hres as <- <-. split; [done|]. remember (Some data') as out eqn:Hout.
  destruct Hread as [stat size data a _ _ Hl|]; [|discriminate]. destruct a; [|discriminate]. injection Hout as <-. split; [|done].
  apply list_elem_of_In. rewrite !in_app_iff. right. right. cbn [In]. tauto.
Qed.

(** An artifact is read from its run, once, and within its cap.
    Whatever the environment answers, reading a name from a run's directory
    either opens nothing, or has checked that the name is one bounded segment
    (the run record only where the caller asked for it) and that its canonical
    path lies under the canonical directory of the run, and then opens it once
    without following a link; the type and the size that admit the bytes are
    those of that same descriptor, the bytes returned are those read from it, no
    more than the cap, with their length and digest, and the descriptor is closed
    on every path. *)
Theorem artifact_read_contained sha256_hex runDir name max allowRecord :
  always (readRunArtifact ctx cwd sha256_hex runDir name max allowRecord) (fun r t => exists result,
    artifact_read runDir name max allowRecord result t /\
    match r with
    | Ok a => result = Some (rd_name a, rd_data a) /\ rd_bytes a = Z.of_nat (length (rd_data a)) /\ rd_sha256 a = sha256_hex (rd_data a)
    | Throw _ => result = None
    end).
Proof. apply readRunArtifact_always. Qed.
End paths.
