(* ===== verification/ReviewMaterializeFacts.v ===== *)
(** * Facts about materialised ranges

    The slices of a range are its diff, cut between files, within the budgets. *)
From Stdlib Require Import QArith.
From S2P Require Import Prelude JsVal Json Types State Policy Path Validation HostArgs HostPaths Codec Envelope.
From S2P Require Import Queue Effects Worker TraceLogic ReviewArgv SddRuntime JsOps ReviewRun ReviewMaterialize ReviewRunFacts.
Open Scope Z_scope.

(** ** Where sections start *)

(** Starts in increasing order from [i] on, each at a marker of [bs]. *)
Fixpoint starts_ok (bs : list N) (i : nat) (starts : list nat) : Prop :=
  match starts with
  | [] => True
  | s :: rest => (i <= s < i + length bs)%nat /\ startsWith (drop (s - i) bs) DIFF_MARKER = true /\
                 match rest with [] => True | t :: _ => (s < t)%nat end /\ starts_ok bs i rest
  end.

Lemma starts_ok_shift b bs i starts : starts_ok bs (S i) starts -> starts_ok (b :: bs) i starts.
Proof.
  induction starts as [|s rest IH]; cbn [starts_ok length]; [done|]. intros (Hs & Hm & Ht & Hr). split_and!; [lia|lia| |done|by apply IH].
  replace (s - i)%nat with (S (s - S i)) by lia. done.
Qed.

Lemma starts_lower bs i starts : starts_ok bs i starts -> match starts with [] => True | s :: _ => (i <= s)%nat end.
Proof. destruct starts; cbn; [done | lia]. Qed.

Lemma section_starts_ok bs i b : starts_ok bs i (section_starts i b bs).
Proof.
  revert i b. induction bs as [|c bs IH]; intros i b; [done|]. cbn [section_starts].
  specialize (IH (S i) ((c =? 10)%N || (c =? 13)%N)). pose proof (starts_lower _ _ _ IH) as Hlow.
  apply (starts_ok_shift c) in IH. destruct (b && startsWith (c :: bs) DIFF_MARKER) eqn:Hm; [|done].
  apply andb_true_iff in Hm as [_ Hm]. cbn [app starts_ok length]. rewrite Nat.sub_diag. split_and!; [lia|lia|done| |done].
  destruct (section_starts _ _ bs); [done | lia].
Qed.

Lemma sections_cover diff starts paths :
  starts_ok diff 0 starts -> length starts = length paths ->
  concat (map fs_data (sections_at diff starts paths)) = match starts with s :: _ => drop s diff | [] => [] end.
Proof.
  revert paths. induction starts as [|s rest IH]; intros [|p paths]; cbn [sections_at map concat length]; try done.
  intros (Hs & _ & Ht & Hr) [= Hl]. cbn [fs_data]. rewrite (IH paths Hr Hl). destruct rest as [|t rest].
  - rewrite app_nil_r. apply take_ge. rewrite length_drop. lia.
  - replace t with (s + (t - s))%nat at 2 by lia. rewrite <- drop_drop. apply take_drop.
Qed.

Lemma sections_paths diff starts paths : length starts = length paths -> map fs_path (sections_at diff starts paths) = paths.
Proof.
  revert paths. induction starts as [|s rest IH]; intros [|p paths]; cbn [sections_at map length]; try done.
  intros [= Hl]. cbn [fs_path]. f_equal. by apply IH.
Qed.

(** ** Packing *)
Definition group_bytes (g : list FileSection) : list N := concat (map fs_data g).
Definition group_size (g : list FileSection) : Z := byte_count (group_bytes g).
Definition group_lines (g : list FileSection) : Z := foldr (fun s n => fs_lines s + n) 0 g.

(** Whole sections, at least one, within both budgets. *)
Definition within_budget (g : list FileSection) : Prop :=
  g <> [] /\ group_size g <= REVIEW_SLICE_MAX_BYTES /\ group_lines g <= REVIEW_SLICE_MAX_LINES.

(** The packing of some groups and of the sections not yet closed. *)
Definition packs (groups : list (list FileSection)) (current : list FileSection) (p : Packing) : Prop :=
  pk_slices p = map group_bytes groups /\ Forall within_budget groups /\
  pk_current p = map fs_data current /\ pk_bytes p = group_size current /\ pk_lines p = group_lines current /\
  (current = [] \/ within_budget current).

Lemma group_size_snoc g s : group_size (g ++ [s]) = group_size g + byte_count (fs_data s).
Proof.
  unfold group_size, group_bytes, byte_count. rewrite map_app, concat_app, length_app. cbn [map concat]. rewrite app_nil_r. lia.
Qed.
Lemma group_lines_snoc g s : group_lines (g ++ [s]) = group_lines g + fs_lines s.
Proof. unfold group_lines. induction g as [|x g IH]; cbn [app foldr]; [lia | rewrite IH; lia]. Qed.

Lemma pack_section_packs groups current p s p' :
  packs groups current p -> pack_section p s = Ok p' ->
  exists groups' current', packs groups' current' p' /\ concat groups' ++ current' = concat groups ++ current ++ [s].
Proof.
  intros (Hs & Hg & Hc & Hb & Hl & Hcur) H. unfold pack_section in H. cbv zeta in H.
  rewrite res_seq_Ok in H. destruct H as [Hcap%throw_if_Ok H]. apply orb_false_iff in Hcap as [Hb1%Z.ltb_ge Hl1%Z.ltb_ge].
  injection H as <-. rewrite Hc, length_map.
  destruct ((0 <? Z.of_nat (length current)) && _) eqn:Hclose.
  - apply andb_true_iff in Hclose as [Hlen%Z.ltb_lt _]. destruct current as [|x current]; [cbn in Hlen; lia|].
    destruct Hcur as [Hcur|Hcur]; [done|]. exists (groups ++ [x :: current]), [s]. split.
    + unfold packs. cbn [pk_slices pk_current pk_bytes pk_lines]. rewrite Hs, map_app. split_and!; try done.
      * apply Forall_app. split; [done | by constructor].
      * unfold group_size, group_bytes. cbn [map concat]. by rewrite app_nil_r.
      * unfold group_lines. cbn [foldr]. lia.
      * right. split; [done|]. unfold group_size, group_bytes, group_lines. cbn [map concat foldr]. rewrite app_nil_r. lia.
    + rewrite concat_app. cbn [concat]. by rewrite app_nil_r, <- app_assoc.
  - exists groups, (current ++ [s]). split; [|done]. unfold packs. cbn [pk_slices pk_current pk_bytes pk_lines].
    rewrite group_size_snoc, group_lines_snoc, map_app, Hc, Hb, Hl. split_and!; try done. right.
    split; [by destruct current|]. rewrite group_size_snoc, group_lines_snoc. destruct current as [|x current].
    + change (group_size []) with 0. change (group_lines []) with 0. lia.
    + apply andb_false_iff in Hclose as [Hclose|Hclose]; [apply Z.ltb_ge in Hclose; cbn in Hclose; lia|].
      apply orb_false_iff in Hclose as [H1%Z.ltb_ge H2%Z.ltb_ge]. lia.
Qed.

Lemma pack_sections_packs groups current p sections p' :
  packs groups current p -> pack_sections p sections = Ok p' ->
  exists groups' current', packs groups' current' p' /\ concat groups' ++ current' = concat groups ++ current ++ sections.
Proof.
  revert groups current p. induction sections as [|s sections IH]; intros groups current p Hp; cbn [pack_sections].
  - intros [= <-]. exists groups, current. by rewrite app_nil_r.
  - rewrite res_bind_Ok. intros (p1 & H1 & H2). destruct (pack_section_packs _ _ _ _ _ Hp H1) as (g1 & c1 & Hp1 & He).
    destruct (IH _ _ _ Hp1 H2) as (g2 & c2 & Hp2 & He2). exists g2, c2. split; [done|].
    rewrite He2, (app_assoc (concat g1)), He, <- !app_assoc. done.
Qed.

Lemma packSlices_groups sections slices :
  packSlices sections = Ok slices ->
  exists groups, concat groups = sections /\ slices = map group_bytes groups /\ Forall within_budget groups.
Proof.
  unfold packSlices. rewrite res_bind_Ok. intros (p & Hp & [= <-]).
  destruct (pack_sections_packs [] [] _ _ _ (ltac:(split_and!; try done; by left) : packs [] [] (mkPacking [] [] 0 0)) Hp)
    as (groups & current & (Hs & Hg & Hc & _ & _ & Hcur) & He).
  cbn [concat app] in He. destruct current as [|x current].
  - exists groups. rewrite app_nil_r in He. by rewrite Hc, Hs.
  - exists (groups ++ [x :: current]). rewrite concat_app, Hc, Hs, map_app. cbn [concat map]. rewrite app_nil_r. split_and!; try done.
    apply Forall_app. split; [done|]. constructor; [by destruct Hcur | constructor].
Qed.

(** C25: The slices of a range are the range.
    When the diff of a range splits into the files of its manifest and packs into
    slices, the slices in order are exactly the bytes of the diff; there is one
    section for each changed path, in the order of the manifest; and each slice is
    made of whole sections, at least one, together no more than 1500 lines and 45
    KiB. *)
Theorem slices_are_the_diff diff paths sections slices :
  splitFileSections diff paths = Ok sections -> packSlices sections = Ok slices ->
  concat slices = diff /\ (diff <> [] -> map fs_path sections = paths) /\
  exists groups, concat groups = sections /\ slices = map (fun g => concat (map fs_data g)) groups /\ Forall within_budget groups.
Proof.
  intros Hsplit (groups & Hg & -> & Hb)%packSlices_groups. assert (concat (map fs_data sections) = diff /\ (diff <> [] -> map fs_path sections = paths)) as [Hd Hp].
  { unfold splitFileSections in Hsplit. pose proof (section_starts_ok diff 0 true) as Hs.
    remember (section_starts 0 true diff) as starts eqn:Hst. clear Hst.
    destruct diff as [|b diff']; [by injection Hsplit as <-|]. remember (b :: diff') as diff eqn:Hdiff. clear Hdiff. cbv zeta in Hsplit.
    rewrite res_seq_Ok in Hsplit. destruct Hsplit as [Hok%throw_if_Ok Hsec]. injection Hsec as <-. apply orb_false_iff in Hok as [Hl Hz].
    apply negb_false_iff, Nat.eqb_eq in Hl. split; [|intros _; by apply sections_paths].
    rewrite sections_cover by done. by destruct starts as [|[|s] rest]. }
  split_and!; [|done|by exists groups]. rewrite <- Hd, <- Hg. clear. induction groups as [|g groups IH]; [done|].
  cbn [map concat]. rewrite map_app, concat_app. f_equal. exact IH.
Qed.

Definition sample_diff : list N :=
  js "diff --git a/x b/x" ++ [10%N] ++ js "+one" ++ [10%N] ++ js "diff --git a/y b/y" ++ [10%N] ++ js "+two" ++ [10%N].

Lemma slices_are_the_diff_witness :
  exists sections slices, splitFileSections sample_diff [js "x"; js "y"] = Ok sections /\ packSlices sections = Ok slices /\
    concat slices = sample_diff /\ (sample_diff <> [] -> map fs_path sections = [js "x"; js "y"]) /\
    exists groups, concat groups = sections /\ slices = map (fun g => concat (map fs_data g)) groups /\ Forall within_budget groups.
Proof.
  eexists _, _. split; [vm_compute; reflexivity|]. split; [vm_compute; reflexivity|].
  eapply slices_are_the_diff; vm_compute; reflexivity.
Defined.

(** ** Reading a diff back *)
Lemma is_text_of_eq v s : is_text_of v s = true <-> v = JStr s.
Proof. destruct v; cbn; try (split; [discriminate | by intros [=]]). rewrite str_eqb_eq. split; [by intros -> | by intros [= ->]]. Qed.
Lemma is_text_eq v s : is_text v s = true <-> v = JStr (js s).
Proof. destruct v; cbn; try (split; [discriminate | by intros [=]]). rewrite str_eqb_eq. split; [by intros -> | by intros [= ->]]. Qed.
Lemma is_int_of_eq v z : is_int_of v z = true <-> v = jint z.
Proof.
  destruct v as [| | |n| | |]; cbn; try (split; [discriminate | by intros [=]]). destruct n; cbn; try (split; [discriminate | by intros [=]]).
  rewrite Z.eqb_eq. split; [by intros -> | by intros [= ->]].
Qed.

(** The record of a run of a session, read from its directory. *)
Definition recorded_run (store : ReviewRunStore) (runId session : jsstr) (t : list event) (run : jsstr * ReviewRunRecord) : Prop :=
  runDir_ store session (JStr runId) = Ok (fst run) /\ rec (snd run) "runId" = JStr runId /\ rec (snd run) "sessionID" = JStr session /\
  exists raw, EvText (CReadFd (join [fst run; REVIEW_RUN_METADATA_NAME]) None) (Ok raw) ∈ t /\ json_parse (utf8_lossy raw) = Some (JObj (snd run)).

Lemma recorded_persistent store runId session : persistent (recorded_run store runId session).
Proof. intros t1 t2 t3 run (H1 & H2 & H3 & raw & Hr & Hp). split_and!; try done. exists raw. split; [set_solver | done]. Qed.

Section reading.
Context (ctx : OpContext) (cwd : jsstr) (sha256_hex : list N -> jsstr).

Lemma readRecord_always store session runId :
  always (readRecord ctx cwd sha256_hex store session (JStr runId)) (fun r t =>
    forall fs, r = Ok fs -> exists dir, recorded_run store runId session t (dir, fs)).
Proof.
  unfold readRecord. apply always_bind, always_lift. destruct (runDir_ store session (JStr runId)) as [dir|e] eqn:Hdir; [|by intros fs [=]].
  apply always_bind. eapply always_mono; [apply readRunArtifact_always|]. intros [a|e] t (result & Hread & Hr); [|by intros fs [=]].
  destruct Hr as (-> & _ & _). apply artifact_read_event in Hread as (Hname & Hev & _). injection Hname as Hname.
  apply always_lift. intros fs Hfs. rewrite app_nil_l, app_nil_r. destruct (json_parse _) as [v|] eqn:Hparse; [|discriminate].
  destruct v as [| | | | | |fields]; try discriminate. destruct (_ && _) eqn:Hok; [|discriminate]. injection Hfs as ->.
  apply andb_true_iff in Hok as [Hok _]. apply andb_true_iff in Hok as [H1%is_text_of_eq H2%is_text_of_eq].
  exists dir. split_and!; try done. exists (rd_data a). split; [|done]. cbn [fst]. by rewrite Hname.
Qed.

Lemma find_run_always store runId sessions :
  always (find_run (fun session _ => readRecord ctx cwd sha256_hex store session (JStr runId)) store runId sessions) (fun r t =>
    forall run, r = Ok (Some run) -> exists session, recorded_run store runId session t run).
Proof.
  induction sessions as [|session rest IH]; cbn [find_run]; [by apply always_ret; intros run [=]|].
  destruct (runDir_ store session (JStr runId)) as [dir|e] eqn:Hdir; [|done].
  apply always_bind, always_attempt. eapply always_mono; [apply readRecord_always|]. intros [fs|e] t1 H1.
  - destruct (H1 fs eq_refl) as [dir' Hrun]. assert (dir' = dir) as -> by (destruct Hrun as (Hd & _); rewrite Hdir in Hd; by injection Hd).
    destruct Hrun as (Hd & Hid & Hrest). cbn [snd] in Hid. rewrite Hid. cbn [is_text_of]. rewrite (proj2 (str_eqb_eq runId runId) eq_refl).
    apply always_ret. intros run [= <-]. rewrite app_nil_r. by exists session.
  - eapply always_mono; [exact IH|]. intros r t2 H2 run Hr. destruct (H2 run Hr) as [s Hs]. exists s.
    pose proof (recorded_persistent store runId s t1 t2 [] run Hs) as Hp. by rewrite app_nil_r in Hp.
Qed.

(** What is served: the bytes of the artifact, as recorded. *)
Definition served (name : jsstr) (record : ReviewRunRecord) (data : list N) (v : jsval) : Prop :=
  (exists xs entry, rec record "artifacts" = JArr xs /\ find_artifact name xs = Ok (Some entry) /\
     at_key entry "bytes" = jint (byte_count data) /\ at_key entry "sha256" = JStr (sha256_hex data)) /\
  byte_count data <= REVIEW_DIFF_READ_MAX_BYTES /\
  at_key v "bytes" = jint (byte_count data) /\ at_key v "sha256" = JStr (sha256_hex data) /\
  ((at_key v "text" = JStr (utf8_lossy data) /\ utf8_encode (utf8_lossy data) = data) \/
   at_key v "data" = JArr (map (fun b => jint (Z.of_N b)) data)).

(** A review diff is served to its session only, and as it was recorded.
    Whatever the environment answers, when reading a diff succeeds, the run was
    found in the directory of the requesting session itself, with a record read
    from there that names this run and this session and is published; the bytes
    served were read from the artifact of that directory, are no more than 256
    KiB, and have the length and the digest the record gives for that name; and
    they are served as text only when the text encodes back to them, as the list
    of the bytes otherwise. *)
Theorem diff_served_to_owner runId slice sessionID store :
  always (readReviewDiff ctx cwd sha256_hex runId slice sessionID store) (fun r t => forall v, r = Ok v ->
    exists dir record data, recorded_run store runId sessionID t (dir, record) /\ rec record "state" = JStr (js "published") /\
      let name := default (js "scope.diff") slice in
      EvText (CReadFd (join [dir; name]) None) (Ok data) ∈ t /\ served name record data v).
Proof.
  unfold readReviewDiff. cbv zeta. set (name := default (js "scope.diff") slice).
  apply always_bind, always_lift. destruct (assertReviewRunId (JStr runId)) as [i|e]; [|done]. cbn [app].
  apply always_bind, always_throw_when; intros _; [done|]. cbn [app].
  apply always_bind, always_call_names. intros [sessions|e]; [|done].
  apply always_bind. eapply always_mono; [apply find_run_always|]. intros [found|e] t1 Hfound; [|done].
  apply always_bind, always_lift. destruct found as [[dir record]|]; [|done]. destruct (Hfound _ eq_refl) as [session Hrun]. clear Hfound.
  cbn [snd fst]. apply always_bind, always_lift. destruct (assertRunOwnership record sessionID) as [[]|e] eqn:Hown; [|done].
  assert (session = sessionID) as ->.
  { destruct Hrun as (_ & _ & Hs & _). cbn [snd] in Hs. unfold assertRunOwnership in Hown. rewrite res_bind_Ok in Hown.
    destruct Hown as (shown & _ & Hn%throw_if_Ok). rewrite Hs in Hn. cbn [is_text_of] in Hn. apply negb_false_iff in Hn. by apply str_eqb_eq in Hn. }
  apply always_bind, always_throw_when; intros Hst; [done|]. apply negb_false_iff, is_text_eq in Hst.
  apply always_bind, always_lift. destruct (artifacts_of record) as [xs|e] eqn:Hxs; [|done].
  apply always_bind, always_lift. destruct (find_artifact name xs) as [[entry|]|e] eqn:Hentry; [| |done].
  2: { by apply always_bind, always_lift. }
  apply always_bind, always_lift, always_bind, always_try_catch.
  eapply always_mono; [apply readRunArtifact_always|]. intros [a|e] t2 (result & Hread & Hr).
  2: { by apply always_throw. }
  destruct Hr as (-> & Hlen & Hsha). apply artifact_read_event in Hread as (Hname & Hev & Hcap). injection Hname as Hname.
  apply always_bind, always_throw_when; intros Hmax; [done|]. apply Z.ltb_ge in Hmax.
  apply always_bind, always_throw_when; intros Hmatch; [done|]. apply orb_false_iff in Hmatch as [Hb Hh].
  apply negb_false_iff, is_int_of_eq in Hb. apply negb_false_iff, is_text_of_eq in Hh. rewrite Hlen in Hb, Hmax. rewrite Hsha in Hh.
  apply always_ret. intros v [= <-]. exists dir, record, (rd_data a). cbn [app]. rewrite ?app_nil_r.
  split; [|split; [done|split; [|split; [|split; [done|split; [|split]]]]]].
  - pose proof (recorded_persistent store runId sessionID [EvNames (CListDir (rs_root store)) (Ok sessions)] t1 t2 _ Hrun) as Hp. exact Hp.
  - rewrite <- Hname in Hev. apply list_elem_of_further, elem_of_app. by right.
  - exists xs, entry. split; [|done]. unfold artifacts_of in Hxs. destruct (rec record "artifacts"); try discriminate. by injection Hxs as ->.
  - rewrite Hlen. by destruct (bool_decide _).
  - rewrite Hsha. by destruct (bool_decide _).
  - destruct (bool_decide _) eqn:Hu; [left | by right]. split; [done|]. by apply bool_decide_eq_true in Hu.
Qed.
End reading.
