(* ===== verification/ReviewPersistFacts.v ===== *)
(** * Facts about persisting a reviewed artifact

    The project gets an artifact only after the pinned helper validated the very
    bytes it gets. *)
From Stdlib Require Import QArith.
From S2P Require Import Prelude JsVal Json Types State Policy Path Validation HostArgs HostPaths Codec Envelope.
From S2P Require Import Queue PlanDoc Effects Worker TraceLogic ReviewArgv SddRuntime JsOps ReviewRun ReviewRunFacts ReviewPersist.
Open Scope Z_scope.

(** ** Successful runs

    What holds of the trace when a run returns; an error ends the run. *)
Definition oks {A} (m : M A) (Q : A -> list event -> Prop) : Prop := always m (fun r t => forall a, r = Ok a -> Q a t).

Lemma oks_ret {A} (a : A) (Q : A -> list event -> Prop) : Q a [] -> oks (mret a) Q.
Proof. intros H. apply always_ret. by intros b [= <-]. Qed.
Lemma oks_lift {A} (r : res A) (Q : A -> list event -> Prop) : (forall a, r = Ok a -> Q a []) -> oks (lift r) Q.
Proof. intros H. by apply always_lift. Qed.
Lemma oks_throw {A} e (Q : A -> list event -> Prop) : oks (throw e) Q.
Proof. apply always_throw. by intros a [=]. Qed.
Lemma oks_throw_when b e (Q : unit -> list event -> Prop) : (b = false -> Q tt []) -> oks (throw_when b e) Q.
Proof. intros H. apply always_throw_when; [by intros _ a [=]|]. by intros Hb [] _; apply H. Qed.
Lemma oks_bind {A B} (m : M A) (f : A -> M B) (Q : B -> list event -> Prop) :
  oks m (fun a t1 => oks (f a) (fun b t2 => Q b (t1 ++ t2))) -> oks (mbind f m) Q.
Proof. intros H. apply always_bind. eapply always_mono; [exact H|]. intros [a|e] t Ht; [exact (Ht a eq_refl) | by intros b [=]]. Qed.
Lemma oks_rethrow {A} (m : M A) h (Q : A -> list event -> Prop) :
  oks m Q -> (forall e, oks (h e) (fun _ _ => False)) -> oks (try_catch m h) Q.
Proof.
  intros Hm Hh. apply always_try_catch. eapply always_mono; [exact Hm|]. intros [a|e] t Ht; [done|].
  eapply always_mono; [apply Hh|]. intros r t' H a Hr. destruct (H a Hr).
Qed.
Lemma oks_unit E c (Q : unit -> list event -> Prop) : Q tt [EvUnit c (Ok tt)] -> oks (call_unit E c) Q.
Proof. intros H. apply always_call_unit. by intros [[]|e] [] [=]. Qed.
Lemma oks_text E c (Q : jsstr -> list event -> Prop) : (forall s, Q s [EvText c (Ok s)]) -> oks (call_text E c) Q.
Proof. intros H. apply always_call_text. intros [s|e] a [=]; subst; apply H. Qed.
Lemma oks_proc E c (Q : SpawnResult -> list event -> Prop) : (forall s, Q s [EvProc c (Ok s)]) -> oks (call_proc E c) Q.
Proof. intros H. apply always_call_proc. intros [s|e] a [=]; subst; apply H. Qed.
Lemma oks_int E c (Q : Z -> list event -> Prop) : (forall s, Q s [EvInt c (Ok s)]) -> oks (call_int E c) Q.
Proof. intros H. apply always_call_int. intros [s|e] a [=]; subst; apply H. Qed.
Lemma oks_stats E c (Q : Stats -> list event -> Prop) : (forall s, Q s [EvStats c (Ok s)]) -> oks (call_stats E c) Q.
Proof. intros H. apply always_call_stats. intros [s|e] a [=]; subst; apply H. Qed.

Lemma discards ctx tmp (e : exn) : oks (_ ← best_effort (call_unit (env ctx) (CUnlink tmp)); throw (A := unit) e) (fun _ _ => False).
Proof. apply always_bind, always_best_effort_call. intros a. apply always_throw. by intros b [=]. Qed.
Lemma discards_open ctx tmp (e : exn) :
  oks (_ ← call_unit (env ctx) (CCloseFd tmp); _ ← best_effort (call_unit (env ctx) (CUnlink tmp)); throw (A := unit) e) (fun _ _ => False).
Proof. apply oks_bind, oks_unit. eapply always_mono; [apply (discards ctx tmp e)|]. intros r t H a Hr. destruct (H a Hr). Qed.

Ltac ok_step :=
  lazymatch goal with
  | |- oks (mret _) _ => apply oks_ret
  | |- oks (throw _) _ => apply oks_throw
  | |- oks (throw_when _ _) _ => apply oks_throw_when; intros ?
  | |- oks (lift _) _ => apply oks_lift; intros ? ?
  | |- oks (call_unit _ _) _ => apply oks_unit
  | |- oks (call_text _ _) _ => apply oks_text; intros ?
  | |- oks (call_proc _ _) _ => apply oks_proc; intros ?
  | |- oks (call_int _ _) _ => apply oks_int; intros ?
  | |- oks (call_stats _ _) _ => apply oks_stats; intros ?
  | |- oks (try_catch _ _) _ => apply oks_rethrow; [|first [apply discards | apply discards_open]]
  | |- oks (catch_as _ _) _ => apply oks_rethrow; [|intros ?; apply oks_throw]
  | |- oks (mbind _ _) _ => apply oks_bind
  end.

Section persist.
Context (ctx : OpContext) (cwd : jsstr) (sha256_hex : list N -> jsstr) (process_PATH homedir : jsstr).

(** ** The parts of a persist, as traces *)

(** Staging, whole: a private file of the run's directory, written, synced and
    renamed. *)
Definition staged_steps (stagingRoot runId uuid : jsstr) (bytes : list N) : list call :=
  let dir := join [stagingRoot; js ".context"; js "systematic"; js "ce-review"; runId] in
  let target := join [stagingRoot; stagedRelativePath runId] in
  let tmp := target ++ js "." ++ uuid ++ js ".tmp" in
  [CMkdir dir; CChmod dir 448; CRandomUUID] ++ write_steps tmp bytes ++ [CRename tmp target].

(** No call that could reach the project: the staging directory only. *)
Definition staging_call (stagingRoot runId : jsstr) (c : call) : Prop :=
  let dir := join [stagingRoot; js ".context"; js "systematic"; js "ce-review"; runId] in
  let target := join [stagingRoot; stagedRelativePath runId] in
  match c with
  | CRandomUUID => True
  | CMkdir d => d = dir
  | CChmod d m => d = dir /\ m = 448
  | COpenExclusive p m => (exists u, p = target ++ js "." ++ u ++ js ".tmp") /\ m = 384
  | CFchmod p m => (exists u, p = target ++ js "." ++ u ++ js ".tmp") /\ m = 384
  | CWriteBytes p _ | CFsyncFd p | CCloseFd p | CUnlink p => exists u, p = target ++ js "." ++ u ++ js ".tmp"
  | CRename p q => (exists u, p = target ++ js "." ++ u ++ js ".tmp") /\ q = target
  | _ => False
  end.

(** The validator, pinned by its digest, accepted the staged file. *)
Definition validated (config : ReviewConfig) (stagingRoot runId : jsstr) (t : list event) : Prop :=
  exists path bytes interpreter result,
    reviewHelperPath config = Some path /\ reviewHelperSha256 config = Some (sha256_hex bytes) /\
    EvText (CReadBytes (resolve1 cwd path)) (Ok bytes) ∈ t /\
    EvProc (validator_call process_PATH interpreter (resolve1 cwd path) (stagedRelativePath runId) stagingRoot) (Ok result) ∈ t /\
    status result = Some 0 /\ timedOut result = false /\ outputTruncated result = false.

(** Calls that change no file. *)
Definition looks (c : call) : Prop :=
  match c with
  | CLstat _ | CReadBytes _ | CFileMode _ | CIsDirectory _ | CSpawnReplace _ _ _ => True
  | _ => False
  end.

Definition publish_steps (anchorFd : Z) (uuid : jsstr) (bytes : list N) : list call :=
  let tmp := procFdPath anchorFd (Some (js ".review-summary." ++ uuid ++ js ".tmp")) in
  [CRandomUUID; CRealpath (procFdPath anchorFd None)] ++ write_steps tmp bytes ++ [CRealpath (procFdPath anchorFd None)].

(** Before the artifact is renamed into the project: its bytes are written and
    synced under a temporary name of the anchored directory, which was found in
    its place twice, before the file was made and just before the rename. *)
Definition publish_guard (anchorFd : Z) (runDir : jsstr) (bytes : list N) (pre : list event) (e : event) : Prop :=
  match call_of e with
  | CRename src dst => exists uuid,
      src = procFdPath anchorFd (Some (js ".review-summary." ++ uuid ++ js ".tmp")) /\ dst = procFdPath anchorFd (Some REVIEW_SUMMARY) /\
      completed (publish_steps anchorFd uuid bytes) pre /\
      Forall (fun e => forall p s, e = EvText (CRealpath p) (Ok s) -> s = runDir) pre
  | CMkdir _ | CMkdirOne _ _ | CWriteFile _ _ _ | CCopyFile _ _ | CRm _ | CSpawn _ _ | CSpawnReplace _ _ _ | CGit _ _ => False
  | _ => True
  end.

(** Staged, validated, published: what a persist does once the project ignores
    the place. *)
Inductive persist_run (config : ReviewConfig) (runId runDir stagingRoot : jsstr) (anchorFd : Z) (bytes : list N) (ignore : ignore_status)
    : res ReviewPersistResult -> list event -> Prop :=
  | staging_failed e t :
      Forall (fun e => staging_call stagingRoot runId (call_of e)) t ->
      persist_run config runId runDir stagingRoot anchorFd bytes ignore (Throw e) t
  | not_validated uuid v t1 t2 :
      completed (staged_steps stagingRoot runId uuid bytes) t1 -> Forall (fun e => looks (call_of e)) t2 -> v <> validation_passed ->
      persist_run config runId runDir stagingRoot anchorFd bytes ignore (Ok (incomplete (js "staging/" ++ stagedRelativePath runId) v ignore)) (t1 ++ t2)
  | validated_published uuid r t1 t2 t3 :
      completed (staged_steps stagingRoot runId uuid bytes) t1 -> Forall (fun e => looks (call_of e)) t2 ->
      validated config stagingRoot runId t2 -> each (publish_guard anchorFd runDir bytes) [] t3 ->
      (forall out, r = Ok out -> out = persisted (join [runDir; REVIEW_SUMMARY]) validation_passed ignore /\ Forall answered t3) ->
      persist_run config runId runDir stagingRoot anchorFd bytes ignore r (t1 ++ t2 ++ t3).

Ltac in_staging := lazymatch goal with
  | |- staging_call _ _ _ => first [exact I | reflexivity | split; [first [reflexivity | eexists; reflexivity] | reflexivity] | eexists; reflexivity]
  end.

Lemma stage_only stagingRoot runId bytes : only_calls (staging_call stagingRoot runId) (stage_document ctx stagingRoot runId bytes).
Proof. unfold stage_document, write_temp, synced_write. cbv zeta. repeat (only_step || in_staging). Qed.

Lemma stage_whole stagingRoot runId bytes :
  oks (stage_document ctx stagingRoot runId bytes) (fun _ t => exists uuid, completed (staged_steps stagingRoot runId uuid bytes) t).
Proof.
  unfold stage_document, write_temp, synced_write. cbv zeta. repeat ok_step.
  eexists. split; [reflexivity|]. repeat constructor.
Qed.

(** ** The validator *)
Lemma pinned_oks helperPath helperSha256 :
  oks (assertPinnedReviewHelper ctx cwd sha256_hex helperPath helperSha256) (fun h t => exists path bytes,
    helperPath = Some path /\ helperSha256 = Some (sha256_hex bytes) /\ ph_path h = resolve1 cwd path /\
    EvText (CReadBytes (resolve1 cwd path)) (Ok bytes) ∈ t).
Proof.
  unfold assertPinnedReviewHelper. apply oks_bind, oks_lift. intros [path sha] Hpin. cbv zeta. cbn [fst snd].
  assert (helperPath = Some path /\ helperSha256 = Some sha) as [-> ->].
  { destruct helperPath, helperSha256; try discriminate. by injection Hpin as -> ->. }
  apply oks_bind, oks_rethrow; [|intros e; apply oks_throw]. apply oks_stats. intros stat.
  destruct (negb (isFile stat)); [apply oks_bind; eapply always_mono; [apply always_true|]; intros r t _ a _; apply oks_throw|].
  apply oks_bind, oks_text. intros bytes. apply oks_bind, oks_throw_when. intros Heq. apply negb_false_iff, str_eqb_eq in Heq as <-.
  apply oks_ret. exists path, bytes. split_and!; try done. cbn [app]. set_solver.
Qed.

Ltac looking := lazymatch goal with |- looks _ => exact I end.

Lemma validate_only config target dir : only_calls looks (validateArtifact ctx cwd sha256_hex process_PATH config target dir).
Proof.
  unfold validateArtifact, assertPinnedReviewHelper, resolveReviewHelperInterpreter, describeFileType. cbv zeta.
  repeat (only_step || looking).
Qed.

Lemma judge_passed r : judge r = validation_passed <-> status r = Some 0 /\ timedOut r = false /\ outputTruncated r = false.
Proof.
  unfold judge. cbv zeta. destruct (bool_decide (status r = Some 0)) eqn:H0; [apply bool_decide_eq_true in H0 | apply bool_decide_eq_false in H0].
  - rewrite H0. destruct (timedOut r), (outputTruncated r); cbn; try (split; [by intros [=] | by intros (_ & [=] & [=])]); try by split.
    all: split; [|by intros (_ & [=] & _)]; repeat case_match; discriminate.
  - cbn [andb]. split; [|by intros (? & _)]. repeat case_match; discriminate.
Qed.

Lemma validate_passed config stagingRoot runId :
  always (validateArtifact ctx cwd sha256_hex process_PATH config (stagedRelativePath runId) stagingRoot) (fun r t =>
    exists v, r = Ok v /\ (v = validation_passed -> validated config stagingRoot runId t)).
Proof.
  unfold validateArtifact. apply always_bind, always_attempt.
  apply (always_mono _ (fun r t => forall a, r = Ok a -> exists path bytes, reviewHelperPath config = Some path /\
    reviewHelperSha256 config = Some (sha256_hex bytes) /\ snd a = resolve1 cwd path /\ EvText (CReadBytes (resolve1 cwd path)) (Ok bytes) ∈ t)).
  - apply oks_bind. eapply always_mono; [apply pinned_oks|]. intros r t H h Hr. destruct (H h Hr) as (path & bytes & H1 & H2 & H3 & H4).
    apply oks_bind. eapply always_mono; [apply always_true|]. intros r' t' _ i _. apply oks_ret. exists path, bytes. split_and!; try done. set_solver.
  - intros [tools|e] t1 H1.
    + destruct (H1 tools eq_refl) as (path & bytes & Hp & Hh & Ht & Hev). apply always_bind, always_attempt, always_call_proc. intros r.
      apply always_ret. eexists. split; [done|]. destruct r as [r|e]; [|discriminate]. intros Hj%judge_passed.
      exists path, bytes, (fst tools), r. destruct Hj as (? & ? & ?).
      rewrite <- Ht in *. split_and!; try done; apply elem_of_app; [by left|]. right. apply list_elem_of_here.
    + apply always_ret. eexists. by split.
Qed.

(** ** The publication *)
Definition anchored (runDir : jsstr) (t : list event) : Prop := Forall (fun e => forall p s, e = EvText (CRealpath p) (Ok s) -> s = runDir) t.

Lemma anchor_guarded anchorFd runDir bytes pre (Q : res unit -> list event -> Prop) :
  (forall e t, Q (Throw e) t) -> Q (Ok tt) (pre ++ [EvText (CRealpath (procFdPath anchorFd None)) (Ok runDir)]) ->
  traced (publish_guard anchorFd runDir bytes) pre (assertRunDirectoryAnchor ctx anchorFd runDir) Q.
Proof.
  intros Hbad Hok. unfold assertRunDirectoryAnchor. apply traced_bind, traced_try_catch, traced_call_text; [by intros r|].
  intros [s|e]; [|by apply traced_throw]. apply traced_throw_when; intros Hs; [done|]. by apply negb_false_iff, str_eqb_eq in Hs as ->.
Qed.

(** What is left of a branch that fails. *)
Ltac discarded := repeat (traced_step; try exact I; try done).

Lemma publish_guarded anchorFd runDir bytes :
  traced (publish_guard anchorFd runDir bytes) [] (publish_document ctx anchorFd runDir bytes) (fun r t => forall u, r = Ok u -> Forall answered t).
Proof.
  unfold publish_document, write_temp, synced_write. cbv zeta.
  apply traced_bind, traced_call_text; [by intros r|]. intros [uuid|e]; [|done]. cbn [app].
  apply traced_bind, traced_try_catch, traced_bind, anchor_guarded; [intros e t; discarded|].
  apply traced_call_unit; [by intros r|]. intros [[]|e]; [|discarded]. cbn [app].
  apply traced_bind, traced_try_catch, traced_bind, traced_bind, traced_call_unit; [by intros r|]. intros [[]|e]; [|discarded]. cbn [app].
  apply traced_bind, traced_call_unit; [by intros r|]. intros [[]|e]; [|discarded]. cbn [app].
  apply traced_call_unit; [by intros r|]. intros [[]|e]; [|discarded]. cbn [app].
  apply traced_call_unit; [by intros r|]. intros [[]|e]; [|discarded]. cbn [app].
  apply traced_try_catch, traced_bind, anchor_guarded; [intros e t; discarded|]. cbn [app].
  apply traced_bind, traced_call_unit.
  { intros r. exists uuid. split_and!; try done; [split; [reflexivity | by repeat constructor]|].
    repeat (apply Forall_cons; split; [intros p s [=]; congruence|]). by apply Forall_nil. }
  intros [[]|e]; [|discarded]. cbn [app]. apply traced_call_unit; [by intros r|]. intros [[]|e]; [|discarded].
  intros [] _. by repeat constructor.
Qed.

Lemma traced_always {A} P (m : M A) (Q : res A -> list event -> Prop) : traced P [] m Q -> always m (fun r t => each P [] t /\ Q r t).
Proof. intros H w. exact (H w). Qed.

Lemma stage_and_publish_always options runDir stagingRoot anchorFd bytes ignore :
  always (stage_and_publish ctx cwd sha256_hex process_PATH options runDir stagingRoot anchorFd bytes ignore)
    (persist_run (pa_config options) (pa_runId options) runDir stagingRoot anchorFd bytes ignore).
Proof.
  unfold stage_and_publish. cbv zeta. apply always_bind.
  eapply always_mono; [apply (always_and _ _ _ (stage_only stagingRoot (pa_runId options) bytes) (stage_whole stagingRoot (pa_runId options) bytes))|].
  intros [[]|e] t1 [Honly Hwhole]; [|by apply staging_failed]. destruct (Hwhole tt eq_refl) as [uuid H1].
  apply always_bind. eapply always_mono;
    [apply (always_and _ _ _ (validate_only (pa_config options) (stagedRelativePath (pa_runId options)) stagingRoot)
                             (validate_passed (pa_config options) stagingRoot (pa_runId options)))|].
  intros r t2 [Hlooks (v & -> & Hv)]. destruct v as [|m|m|]; try (apply always_ret; rewrite app_nil_r; by eapply not_validated).
  apply always_bind. eapply always_mono; [apply traced_always, publish_guarded|]. intros [[]|e] t3 [Hguard Hans].
  - apply always_ret. rewrite app_nil_r. eapply validated_published; try done; [by apply Hv|]. intros out [= <-]. split; [done | by apply (Hans tt)].
  - eapply validated_published; try done. by apply Hv.
Qed.

(** ** The whole operation *)

(** Calls around a persist: they look, open and close directories, make the
    directories of the artifact, ask git, and write at most the ignore file. *)
Definition prepares (c : call) : Prop :=
  match c with
  | CRealpath _ | COpenDirectory _ | CCloseDirectory _ | CFsyncDirectory _ | CLstat _ | CFileSize _ | COpenNoFollow _
  | CFdStats _ | CFdSize _ | CReadFd _ _ | CCloseFd _ | CRandomUUID => True
  | CMkdirOne p _ => exists fd name, p = procFdPath fd (Some name)
  | CSpawnReplace args _ _ => exists path, args = [js "git"; js "check-ignore"; js "-q"; js "--"; path]
  | COpenExclusive p _ | CWriteBytes p _ | CUnlink p => exists fd u, p = procFdPath fd (Some (js ".gitignore." ++ u ++ js ".tmp"))
  | CRename p q => (exists fd u, p = procFdPath fd (Some (js ".gitignore." ++ u ++ js ".tmp"))) /\ exists fd, q = procFdPath fd (Some (js ".gitignore"))
  | _ => False
  end.

Ltac preparing := lazymatch goal with
  | |- prepares _ => first [exact I | split; [by eexists _, _ | by eexists] | eexists _, _; reflexivity | eexists; reflexivity]
  end.

Lemma open_child_only anchor component : only_calls prepares (open_child ctx anchor component).
Proof. unfold open_child. cbv zeta. repeat (only_step || preparing). Qed.

Lemma close_all_only a b c : only_calls prepares (close_all ctx a b c).
Proof. unfold close_all, close_fd. repeat (only_step || preparing). Qed.

Lemma open_components_only anchor contextFd components : only_calls prepares (open_components ctx anchor contextFd components).
Proof.
  revert anchor contextFd. induction components as [|c rest IH]; intros anchor contextFd; cbn [open_components].
  - destruct contextFd; [apply only_ret|]. apply only_bind; [apply close_all_only | intros _; apply only_throw].
  - apply only_bind.
    + apply only_try_catch; [apply open_child_only|]. intros e. apply only_bind; [apply close_all_only | intros _; apply only_throw].
    + intros child. cbv zeta. apply only_bind; [|intros _; apply IH]. destruct (negb _); cbn [when]; [|apply only_ret].
      apply only_try_catch; [unfold close_fd; only_step; preparing|]. intros e. apply only_bind; [apply close_all_only | intros _; apply only_throw].
Qed.

Lemma ignored_only root runDir contextFd : only_calls prepares (ensureReviewIgnored ctx process_PATH homedir root runDir contextFd).
Proof.
  unfold ensureReviewIgnored, check_ignored, existing_ignore, read_ignore, write_temp. cbv zeta. repeat (only_step || preparing).
Qed.

Lemma prepare_only {A} (m : M A) (Q : res A -> list event -> Prop) :
  only_calls prepares m -> (forall r t, Forall (fun e => prepares (call_of e)) t -> Q r t) -> always m Q.
Proof. intros H HQ. eapply always_mono; [exact H|]. intros r t Ht. by apply HQ. Qed.

(** A persist that published nothing, or its three parts around a run. *)
Inductive persist_trace (options : PersistReviewArtifactOptions) : res ReviewPersistResult -> list event -> Prop :=
  | not_run r t : Forall (fun e => prepares (call_of e)) t -> (r = Ok report_only \/ exists e, r = Throw e) -> persist_trace options r t
  | run fields root stagingRoot anchorFd ignore out r pre body post :
      finalize_document options = Ok (Some fields) -> pa_reportOnly options = false ->
      let runDir := join [root; js ".context"; js "systematic"; js "ce-review"; pa_runId options] in
      Forall (fun e => prepares (call_of e)) pre ->
      persist_run (pa_config options) (pa_runId options) runDir stagingRoot anchorFd (document_bytes fields) ignore out body ->
      Forall (fun e => prepares (call_of e)) post -> (forall v, r = Ok v -> out = Ok v) ->
      persist_trace options r (pre ++ body ++ post).

Lemma prep_bind {A} options pre (m : M A) (f : A -> M ReviewPersistResult) :
  Forall (fun e => prepares (call_of e)) pre -> only_calls prepares m ->
  (forall a pre', Forall (fun e => prepares (call_of e)) pre' -> always (f a) (fun r t => persist_trace options r (pre' ++ t))) ->
  always (a ← m; f a) (fun r t => persist_trace options r (pre ++ t)).
Proof.
  intros Hpre Hm Hf. apply always_bind. eapply prepare_only; [exact Hm|]. intros [a|e] t Ht.
  - eapply always_mono; [apply (Hf a (pre ++ t)); by apply Forall_app|]. intros r t' H. cbv beta in H. by rewrite <- app_assoc in H.
  - apply not_run; [by apply Forall_app | by right; eexists].
Qed.

Lemma closes_only a b : only_calls prepares (try_finally (close_fd ctx a) (close_fd ctx b)).
Proof. unfold close_fd. repeat (only_step || preparing). Qed.

End persist.
