(* ===== verification/ReviewPipelineFacts.v ===== *)
(** * Facts about the review pipeline

    A phase runs the pinned helper at most once, and publishes what it printed. *)
From Stdlib Require Import QArith.
From S2P Require Import Prelude JsVal Json Types State Policy Path Validation HostArgs HostPaths Codec Envelope.
From S2P Require Import Queue PlanDoc Effects Worker TraceLogic ReviewArgv SddRuntime JsOps ReviewRun ReviewRunFacts ReviewPersist ReviewPersistFacts ReviewPipeline.
Open Scope Z_scope.

(** A call that starts no process. *)
Definition runs_nothing (c : call) : Prop :=
  match c with CSpawn _ _ | CSpawnReplace _ _ _ | CGit _ _ | CExec _ _ _ | CCreateWorker _ => False | _ => True end.

Ltac nothing := lazymatch goal with |- runs_nothing _ => exact I end.
Ltac inert := repeat (only_step || nothing).

Section store.
Context (ctx : OpContext) (cwd : jsstr) (sha256_hex : list N -> jsstr).

Lemma canonical_inert path : only_calls runs_nothing (canonicalForContainment ctx cwd path).
Proof.
  unfold canonicalForContainment. cbv zeta. generalize (S (length (resolve1 cwd path))) at 1. intros fuel.
  generalize (resolve1 cwd path) at 1. generalize (@nil jsstr). induction fuel as [|fuel IH]; intros tail current; cbn [canonical_from]; [apply only_ret|].
  apply only_bind; [inert|]. intros [r|]; [apply only_ret|]. cbv zeta. destruct (str_eqb _ _); [apply only_ret | apply IH].
Qed.

Lemma read_inert dir name max allow : only_calls runs_nothing (readRunArtifact ctx cwd sha256_hex dir name max allow).
Proof.
  unfold readRunArtifact. cbv zeta. repeat (lazymatch goal with |- only_calls _ (canonicalForContainment _ _ _) => apply canonical_inert | _ => only_step || nothing end).
Qed.

Lemma readRecord_inert s session runId : only_calls runs_nothing (readRecord ctx cwd sha256_hex s session runId).
Proof. unfold readRecord. apply only_bind; [only_step|]. intros dir. apply only_bind; [apply read_inert | intros; only_step]. Qed.

Lemma publish_inert dir name buf : only_calls runs_nothing (publishValidatedArtifactAtomic ctx sha256_hex dir name buf).
Proof. unfold publishValidatedArtifactAtomic, fsyncDirectory. cbv zeta. inert. Qed.

Lemma record_inert dir record : only_calls runs_nothing (publish_record ctx sha256_hex dir record).
Proof. unfold publish_record. apply only_bind; [apply publish_inert | intros; only_step]. Qed.

Lemma persist_inert w state : only_calls runs_nothing (persist ctx sha256_hex w state).
Proof.
  unfold persist. cbv zeta. apply only_bind; [|intros; only_step]. unfold attempt. apply only_try_catch; [|intros; only_step].
  apply only_bind; [apply record_inert | intros; only_step].
Qed.

Lemma named_inert dir name buf : only_calls runs_nothing (publishArtifactAtomic ctx sha256_hex dir name buf).
Proof. unfold publishArtifactAtomic. apply only_bind; [only_step | intros; apply publish_inert]. Qed.

Lemma writer_inert w name buf : only_calls runs_nothing (writer_addArtifact ctx sha256_hex w name buf).
Proof.
  unfold writer_addArtifact. cbv zeta. destruct (mbind _ _) as [total|e]; [|only_step]. apply only_bind.
  - unfold attempt. apply only_try_catch; [|intros; only_step]. apply only_bind; [apply named_inert | intros; only_step].
  - intros [a|e]; [|only_step]. apply only_bind; [apply persist_inert | intros; only_step].
Qed.

Lemma addArtifact_inert s session runId name buf : only_calls runs_nothing (addArtifact ctx cwd sha256_hex s session runId name buf).
Proof.
  unfold addArtifact. apply only_bind; [only_step|]. intros _. apply only_bind; [apply readRecord_inert|]. intros record.
  apply only_bind; [only_step|]. intros dir. destruct (is_text _ _).
  - apply only_bind; [|intros w; apply only_bind; [apply writer_inert | intros; only_step]].
    unfold newReviewRunWriter, ensureOwnedDir. apply only_bind; [only_step|]. intros total. apply only_bind; [inert|]. intros _.
    apply only_bind; [apply persist_inert | intros; inert].
  - do 4 (apply only_bind; [only_step|]; intros ?). apply only_bind; [apply named_inert|]. intros ?.
    apply only_bind; [apply record_inert | intros; only_step].
Qed.

Lemma provenance_inert s session runId p : only_calls runs_nothing (recordFinalizeProvenance ctx cwd sha256_hex s session runId p).
Proof.
  unfold recordFinalizeProvenance. apply only_bind; [only_step|]. intros _. apply only_bind; [apply readRecord_inert|]. intros record.
  apply only_bind; [only_step|]. intros dir. apply record_inert.
Qed.

Lemma pinned_inert p h : only_calls runs_nothing (assertPinnedReviewHelper ctx cwd sha256_hex p h).
Proof. unfold assertPinnedReviewHelper, describeFileType. cbv zeta. inert. Qed.
Lemma interpreter_inert i : only_calls runs_nothing (resolveReviewHelperInterpreter ctx cwd i).
Proof. unfold resolveReviewHelperInterpreter, describeFileType. cbv zeta. inert. Qed.

(** ** What an addition returns *)
Definition artifact_for (name : jsstr) (buf : list N) : ReviewRunArtifact := mkArtifact name (Z.of_nat (length buf)) (sha256_hex buf).

Lemma writer_added w name buf :
  always (writer_addArtifact ctx sha256_hex w name buf) (fun r _ => forall p, r = Ok p -> forall a, fst p = Ok a -> a = artifact_for name buf).
Proof.
  unfold writer_addArtifact. cbv zeta. destruct (mbind _ _) as [total|e]; [|apply always_ret; by intros p [= <-] a [=]].
  apply always_bind, always_attempt. eapply always_mono; [apply publish_named_always|]. intros [a|e] t H.
  - apply always_bind. eapply always_mono; [apply persist_always|]. intros r t' [out ->]. apply always_ret. intros p [= <-] b. cbn [fst].
    destruct out; [intros [= <-]; by apply H | done].
  - apply always_ret. by intros p [= <-] a [=].
Qed.

Lemma addArtifact_added s session runId name buf :
  oks (addArtifact ctx cwd sha256_hex s session runId name buf) (fun a _ => a = artifact_for name buf).
Proof.
  unfold addArtifact. do 3 (apply oks_bind; eapply always_mono; [apply always_true|]; intros ? ? _ ? _). destruct (is_text _ _).
  - apply oks_bind; eapply always_mono; [apply always_true|]; intros ? ? _ w _. apply oks_bind.
    eapply always_mono; [apply writer_added|]. intros out tr H p Hp. apply oks_lift. intros art Ha. by apply (H p Hp).
  - do 4 (apply oks_bind; eapply always_mono; [apply always_true|]; intros ? ? _ ? _). apply oks_bind.
    eapply always_mono; [apply publish_named_always|]. intros out tr H art Ha. apply oks_bind. eapply always_mono; [apply always_true|]. intros ? ? _ ? _.
    apply oks_ret. by apply H.
Qed.
End store.

(** ** A phase *)
Section phase.
Context (ctx : OpContext) (cwd : jsstr) (sha256_hex : list N -> jsstr) (process_PATH : jsstr) (store : ReviewRunStore) (sessionID : jsstr).

Ltac inert_read := lazymatch goal with
  | |- only_calls _ (readRunArtifact _ _ _ _ _ _ _) => apply read_inert
  | |- only_calls _ (readRecord _ _ _ _ _ _) => apply readRecord_inert
  | _ => only_step || nothing
  end.

Lemma phase_object_inert runId ref : only_calls runs_nothing (phaseObject ctx cwd sha256_hex store sessionID runId ref).
Proof. unfold phaseObject, read_phase_artifact. repeat inert_read. Qed.
Lemma wrap_inert runId ref : only_calls runs_nothing (wrapScreenResult ctx cwd sha256_hex store sessionID runId ref).
Proof. unfold wrapScreenResult, read_phase_artifact. repeat inert_read. Qed.

Ltac inert_part := lazymatch goal with
  | |- only_calls _ (phaseObject _ _ _ _ _ _ _) => apply phase_object_inert
  | |- only_calls _ (wrapScreenResult _ _ _ _ _ _ _) => apply wrap_inert
  | _ => inert_read
  end.

Lemma merge_inert payload runId : only_calls runs_nothing (composeMerge ctx cwd sha256_hex store sessionID payload runId).
Proof. unfold composeMerge. repeat inert_part. Qed.
Lemma finalize_inert payload runId : only_calls runs_nothing (composeFinalize ctx cwd sha256_hex store sessionID payload runId).
Proof. unfold composeFinalize. cbv zeta. repeat inert_part. Qed.
Lemma screens_inert runId personas seen refs : only_calls runs_nothing (screen_results_of ctx cwd sha256_hex store sessionID runId personas seen refs).
Proof.
  revert seen. induction refs as [|v refs IH]; intros seen; cbn [screen_results_of]; [only_step|].
  do 4 (apply only_bind; [only_step | intros ?]). apply only_bind; [apply wrap_inert|]. intros result.
  apply only_bind; [apply IH | intros; only_step].
Qed.

Lemma input_inert payload phase runId : only_calls runs_nothing (phase_input ctx cwd sha256_hex store sessionID payload phase runId).
Proof.
  assert (forall code input, only_calls runs_nothing (capped code input)) as Hcap by (intros; unfold capped; inert).
  unfold phase_input. destruct phase.
  1,2: apply only_bind; [only_step|]; intros [| |].
  1,4: apply only_bind; [only_step|]; intros i; apply only_bind; [apply Hcap | intros; only_step].
  1,3: unfold input_of_ref, read_phase_artifact; repeat inert_read.
  1,2: apply only_bind; [|intros i; apply only_bind; [apply Hcap | intros; only_step]]; unfold input_of_refs; cbv zeta;
       repeat (lazymatch goal with |- only_calls _ (screen_results_of _ _ _ _ _ _ _ _ _) => apply screens_inert | _ => only_step end).
  - apply only_bind; [apply merge_inert|]. intros i. apply only_bind; [apply Hcap | intros; only_step].
  - apply only_bind; [apply finalize_inert|]. intros i. apply only_bind; [apply Hcap | intros; only_step].
Qed.

(** The bytes a helper printed. *)
Definition printed (result : SpawnResult) : list N := default (utf8_encode (stdout result)) (stdoutBytes result).

(** What a phase reports of the end of its helper. *)
Definition reported (payload : jsval) (phase : ReviewPipelinePhase) (ended : res SpawnResult) (out : ReviewPipelineResult) : Prop :=
  match out with
  | accepted_output a _ | invalid_output _ a _ =>
      exists result, ended = Ok result /\ status result = Some 0 /\ timedOut result = false /\
        Z.of_nat (length (printed result)) <= cap_maxFileBytes (rs_caps store) /\ json_parse (utf8_lossy (printed result)) <> None /\
        a = artifact_for sha256_hex (artifact_name payload phase) (printed result)
  | structurally_rejected d => exists result, ended = Ok result /\ status result = Some 1 /\ d = diagnostic result
  | validation_unavailable d =>
      match ended with
      | Ok result => d = diagnostic result /\ ~ (status result = Some 0 /\ timedOut result = false)
      | Throw e => d = take STDERR_MAX_BYTES (exn_msg e)
      end
  end.

Inductive phase_trace (payload : jsval) (config : ReviewConfig) : res ReviewPipelineResult -> list event -> Prop :=
  | phase_not_run r t :
      Forall (fun e => runs_nothing (call_of e)) t -> (forall out, r = Ok out -> exists d, out = validation_unavailable d) -> phase_trace payload config r t
  | phase_run phase runId path bytes interpreter input r ended pre post :
      check_phase payload = Ok (phase, runId) ->
      reviewHelperPath config = Some path -> reviewHelperSha256 config = Some (sha256_hex bytes) ->
      EvText (CReadBytes (resolve1 cwd path)) (Ok bytes) ∈ pre ->
      Forall (fun e => runs_nothing (call_of e)) pre -> Forall (fun e => runs_nothing (call_of e)) post ->
      (forall out, r = Ok out -> reported payload phase ended out) ->
      phase_trace payload config r
        (pre ++ EvProc (helper_call process_PATH store payload phase interpreter (resolve1 cwd path) input) ended :: post).

Lemma publish_reported payload phase runId source result :
  always (publish_output ctx cwd sha256_hex store sessionID payload phase runId source result) (fun r t =>
    Forall (fun e => runs_nothing (call_of e)) t /\
    forall out, r = Ok out -> status result = Some 0 -> timedOut result = false -> reported payload phase (Ok result) out).
Proof.
  unfold publish_output. cbv zeta. fold (printed result).
  apply always_bind, always_throw_when; intros Hcap; [by split|]. apply Z.ltb_ge in Hcap.
  apply always_bind, always_lift. destruct (json_parse (utf8_lossy (printed result))) as [v|] eqn:Hparse; [|by split]. cbn [app].
  apply always_bind. eapply always_mono; [apply (always_and _ _ _ (addArtifact_inert ctx cwd sha256_hex _ _ _ _ _) (addArtifact_added ctx cwd sha256_hex _ _ _ _ _))|].
  intros [a|e] t [Ht Ha]; [|by split]. specialize (Ha a eq_refl) as ->.
  assert (status result = Some 0 -> timedOut result = false -> exists result0, Ok (A := SpawnResult) result = Ok result0 /\ status result0 = Some 0 /\ timedOut result0 = false /\
    Z.of_nat (length (printed result0)) <= cap_maxFileBytes (rs_caps store) /\ json_parse (utf8_lossy (printed result0)) <> None /\
    artifact_for sha256_hex (artifact_name payload phase) (printed result) = artifact_for sha256_hex (artifact_name payload phase) (printed result0)) as Hrep.
  { intros H0 Hto. exists result. split_and!; try done. by rewrite Hparse. }
  destruct (createSummary phase v) as [summary|e].
  - apply always_bind. apply (always_mono _ (fun _ t => Forall (fun e => runs_nothing (call_of e)) t)).
    + destruct (bool_decide _); cbn [when]; [apply provenance_inert | by apply always_ret].
    + intros [[]|e] t' Ht'; [apply always_ret; rewrite app_nil_r | ]; (split; [by apply Forall_app | by intros out [= <-]]).
  - destruct (has_code e _); [apply always_ret | apply always_throw]; rewrite app_nil_r; (split; [done | by intros out [= <-]]).
Qed.

Lemma reject_reported phase runId source result payload :
  ~ (status result = Some 0 /\ timedOut result = false) ->
  always (reject_output ctx cwd sha256_hex store sessionID phase runId source result) (fun r t =>
    Forall (fun e => runs_nothing (call_of e)) t /\ forall out, r = Ok out -> reported payload phase (Ok result) out).
Proof.
  intros Hno. unfold reject_output. cbv zeta. destruct (bool_decide (status result = Some 1) && _) eqn:Hr; (apply always_bind;
    apply (always_mono _ (fun _ t => Forall (fun e => runs_nothing (call_of e)) t));
    [destruct (bool_decide (phase = finalize)); cbn [when]; [apply provenance_inert | by apply always_ret] |
     intros [[]|e] t Ht; [apply always_ret; rewrite app_nil_r | ]; (split; [done | intros out [= <-]])]).
  - apply andb_true_iff in Hr as [H1%bool_decide_eq_true _]. by exists result.
  - by split.
Qed.

End phase.
