(* ===== verification/SddFacts.v ===== *)
(** * Facts about the SDD and review operations

    What the runtime may run, where, and behind which gate; the life of a staged
    input; the order of a relay; where a trace may point. *)
From Stdlib Require Import QArith.
From S2P Require Import Prelude JsVal Json Types State Policy Path Validation HostArgs HostPaths Codec Redact Envelope RolePolicy GitOps.
From S2P Require Import Artifacts Queue Effects Worker WorkerFacts Results Diff Authorization Server FileOps HostSteps Advisor.
From S2P Require Import ReviewArgv SddRuntime SddService TraceLogic.
Open Scope Z_scope.

(** ** Command lines *)
Definition SUBCOMMANDS : list jsstr :=
  map js ["sdd-status"; "sdd-continue"; "sdd-archive-compose"; "sdd-task-result"; "sdd-attempt"; "review"]%string.

(** The binary given, then one of the runtime's subcommands. *)
Definition fixed_command (binary : jsstr) (argv : list jsstr) : Prop :=
  exists sub rest, argv = binary :: sub :: rest /\ sub ∈ SUBCOMMANDS.

Lemma fixed_cons binary sub rest : mem (js sub) SUBCOMMANDS = true -> fixed_command binary (binary :: js sub :: rest).
Proof. intros H. exists (js sub), rest. split; [done|]. by apply mem_true. Qed.

(** Inverts a builder's sequence of checks. *)
Ltac built H :=
  repeat first
    [ rewrite res_seq_Ok in H; destruct H as [_ H]
    | rewrite res_bind_Ok in H; let x := fresh "x" in destruct H as (x & _ & H) ];
  injection H as <-; cbn [app]; apply fixed_cons; vm_compute; reflexivity.

Section builders.
  Context (cwd : jsstr) (realpath : jsstr -> option jsstr) (input : jsval).
#[local] Abbreviation binary := (as_string (at_key input "binary")).

Lemma sddStatus_fixed argv : buildSddStatusArgv input = Ok argv -> fixed_command binary argv.
Proof. unfold buildSddStatusArgv. intros H. built H. Qed.
Lemma sddContinue_fixed argv : buildSddContinueArgv input = Ok argv -> fixed_command binary argv.
Proof. unfold buildSddContinueArgv. intros H. built H. Qed.
Lemma archiveCompose_fixed argv : buildSddArchiveComposeArgv realpath input = Ok argv -> fixed_command binary argv.
Proof. unfold buildSddArchiveComposeArgv. intros H. built H. Qed.
Lemma taskResult_fixed argv : buildSddTaskResultArgv realpath input = Ok argv -> fixed_command binary argv.
Proof. unfold buildSddTaskResultArgv. intros H. built H. Qed.
Lemma assess_fixed argv : buildReviewAssessArgv input = Ok argv -> fixed_command binary argv.
Proof. unfold buildReviewAssessArgv. intros H. built H. Qed.
Lemma modeStatus_fixed argv : buildReviewModeStatusArgv input = Ok argv -> fixed_command binary argv.
Proof. unfold buildReviewModeStatusArgv. intros H. built H. Qed.
Lemma status_fixed argv : buildReviewStatusArgv input = Ok argv -> fixed_command binary argv.
Proof. unfold buildReviewStatusArgv. intros H. built H. Qed.
Lemma lensContext_fixed argv : buildReviewLensContextArgv input = Ok argv -> fixed_command binary argv.
Proof. unfold buildReviewLensContextArgv. intros H. built H. Qed.
Lemma grant_fixed argv : buildSddAttemptGrantArgv cwd input = Ok argv -> fixed_command binary argv.
Proof. unfold buildSddAttemptGrantArgv. intros H. built H. Qed.

Lemma review_fixed op argv : buildReviewArgv realpath op input = Ok argv -> fixed_command binary argv.
Proof.
  unfold buildReviewArgv. destruct (table_get REVIEW_COMMANDS op) as [spec| |] eqn:Hs; [|discriminate..].
  rewrite !res_seq_Ok. intros (_ & _ & _ & H). rewrite res_bind_Ok in H. destruct H as (ws & _ & H).
  rewrite res_bind_Ok in H. destruct H as (gs & _ & [= <-]).
  assert (forallb (fun e => bool_decide (head (cs_command (snd e)) = Some "review"%string)) REVIEW_COMMANDS = true) as Hall
    by (vm_compute; reflexivity).
  rewrite forallb_forall in Hall. apply table_get_Own, assoc_Some_In, list_elem_of_In in Hs. specialize (Hall _ Hs).
  apply bool_decide_eq_true in Hall. cbn [snd] in Hall. destruct (cs_command spec) as [|w ws']; [done|]. injection Hall as ->.
  cbn [map app]. apply fixed_cons. vm_compute. reflexivity.
Qed.
End builders.

(** ** Records *)
Lemma optional_keys payload keys k : k ∈ map fst (reviewOptional payload keys) -> k ∈ map js keys.
Proof.
  unfold reviewOptional. rewrite !list_elem_of_In. rewrite !in_map_iff. intros ([k' v] & <- & H%in_flat_map). destruct H as (x & Hx & H).
  destruct (is_undef _); cbn in H; [done|]. destruct H as [[= <- <-]|[]]. by exists x.
Qed.

(** ** The calls of the runtime *)
Section runtime.
  Context (ctx : OpContext) (options : SddRuntimeExecutorOptions).

(** The canonical root of an approved project. *)
Definition approved_root (root : jsstr) : Prop :=
  exists p, p ∈ projects (cfg ctx) /\ host_realpath ctx (project_path p) = Some root.

(** A host process is the runtime's binary with a fixed subcommand, in the root
    of an approved project, with the runtime's time and output bounds and
    environment; no git and no worker command. *)
Definition gentle_call (c : call) : Prop :=
  match c with
  | CSpawn argv opts =>
      fixed_command (as_string (sx_binary options)) argv /\
      exists root, approved_root root /\
        opts = mkOpts (Some root) (jint STATUS_TIMEOUT_MS) (JObj [(js "NO_COLOR", JStr (js "1"))]) (Some (outputMaxBytes options))
  | CSpawnReplace _ _ _ | CGit _ _ | CExec _ _ _ | CCreateWorker _ | CCopyIn _ _ _ | CCopyOut _ _ _ | CStop _ | CRemove _ => False
  | _ => True
  end.

Lemma project_of_in pid p : project_of ctx pid = Some p -> p ∈ projects (cfg ctx).
Proof. unfold project_of. intros H. apply find_some in H as [H _]. by apply list_elem_of_In. Qed.

Lemma resolved_approved dir root : resolveProjectRoot ctx dir = Ok root -> approved_root root.
Proof.
  unfold resolveProjectRoot. rewrite res_bind_Ok. intros (pid & _ & H). destruct (project_of ctx pid) as [p|] eqn:Hp; [|discriminate].
  rewrite res_bind_Ok in H. destruct H as (r & Hr & H). rewrite res_bind_Ok in H. destruct H as (r' & _ & H).
  rewrite res_seq_Ok in H. destruct H as [_ [= <-]]. apply realpath_or_Ok in Hr. exists p. split; [by eapply project_of_in | done].
Qed.

Lemma only_bind_lift {A B} P (r : res A) (f : A -> M B) :
  (forall a, r = Ok a -> only_calls P (f a)) -> only_calls P (mbind f (lift r)).
Proof.
  intros H. apply always_bind, always_lift. destruct r as [a|e]; [|constructor]. cbn [app]. by apply H.
Qed.

Lemma run_only argv root redact :
  approved_root root -> (forall a, argv = Ok a -> fixed_command (as_string (sx_binary options)) a) ->
  only_calls gentle_call (run ctx options argv root redact).
Proof.
  intros Hr Ha. unfold run. apply only_bind_lift. intros a Hok. apply only_bind; [|intros; apply only_lift].
  apply only_call_proc. split; [by apply Ha | by exists root].
Qed.

Lemma runRaw_only argv root :
  approved_root root -> (forall a, argv = Ok a -> fixed_command (as_string (sx_binary options)) a) ->
  only_calls gentle_call (runRaw ctx options argv root).
Proof.
  intros Hr Ha. unfold runRaw. apply only_bind_lift. intros a Hok. apply only_bind; [|intros; apply only_lift].
  apply only_call_proc. split; [by apply Ha | by exists root].
Qed.

Lemma rooted_binary root payload required optional :
  at_key (rooted_input options root payload required optional) "binary" = sx_binary options.
Proof. reflexivity. Qed.

Lemma review_binary root extra : js "binary" ∉ map fst extra ->
  at_key (review_input options root extra) "binary" = sx_binary options.
Proof. intros H. unfold at_key, review_input. rewrite field_merge by done. by destruct root. Qed.

(** A command of the executor, on a record that resolves to an approved root. *)
Ltac command fixed :=
  apply only_bind_lift; let root := fresh "root" in let Hroot := fresh in intros root Hroot; apply resolved_approved in Hroot;
  repeat (apply only_bind; [|intros ?; apply only_ret]);
  first [apply run_only | apply runRaw_only]; [exact Hroot|];
  let a := fresh in let Ha := fresh in intros a Ha; apply fixed in Ha; exact Ha.

Lemma sddStatus_only p : only_calls gentle_call (sddStatus_ ctx options p).
Proof. unfold sddStatus_. command sddStatus_fixed. Qed.
Lemma sddContinue_only p : only_calls gentle_call (sddContinue_ ctx options p).
Proof. unfold sddContinue_. command sddContinue_fixed. Qed.
Lemma archiveCompose_only p : only_calls gentle_call (archiveCompose ctx options p).
Proof. unfold archiveCompose. command archiveCompose_fixed. Qed.
Lemma taskResult_only p : only_calls gentle_call (taskResult ctx options p).
Proof. unfold taskResult. command taskResult_fixed. Qed.
Lemma reviewAssess_only p : only_calls gentle_call (reviewAssess ctx options p).
Proof. unfold reviewAssess. command assess_fixed. Qed.
Lemma reviewModeStatus_only p : only_calls gentle_call (reviewModeStatus ctx options p).
Proof. unfold reviewModeStatus. command modeStatus_fixed. Qed.
Lemma reviewStatus_only p : only_calls gentle_call (reviewStatus ctx options p).
Proof. unfold reviewStatus. command status_fixed. Qed.
Lemma reviewLensContext_only p : only_calls gentle_call (reviewLensContext ctx options p).
Proof. unfold reviewLensContext. command lensContext_fixed. Qed.
Lemma attemptGrant_only cwd p : only_calls gentle_call (attemptGrant ctx options cwd p).
Proof. unfold attemptGrant. command grant_fixed. Qed.

(** A payload that does not name the binary. *)
Definition no_binary (payload : jsval) : Prop := js "binary" ∉ map fst (fields_of payload).

Lemma runReview_only op p : no_binary p -> only_calls gentle_call (runReview ctx options op p).
Proof.
  intros Hb. unfold runReview. apply only_bind_lift. intros root Hr%resolved_approved.
  apply run_only; [exact Hr|]. intros a Ha. apply review_fixed in Ha. rewrite review_binary in Ha; [done|].
  unfold withoutProjectDir. intros H%filtered_keys. done.
Qed.

Lemma acknowledge_only p : no_binary p -> only_calls gentle_call (reviewAcknowledgeApproved ctx options p).
Proof.
  intros Hb. unfold reviewAcknowledgeApproved. apply only_bind_lift. intros root Hr%resolved_approved.
  apply run_only; [exact Hr|]. intros a Ha. apply review_fixed in Ha. rewrite review_binary in Ha; [done|].
  unfold withoutProjectDir. intros H%filtered_keys. done.
Qed.

Lemma captureRefuter_only p : no_binary p -> only_calls gentle_call (reviewCaptureRefuter ctx options p).
Proof. intros Hb. unfold reviewCaptureRefuter. apply only_bind; [by apply runReview_only | intros; apply only_ret]. Qed.

Lemma open_staged_only tries dir : only_calls gentle_call (open_staged ctx tries dir).
Proof.
  induction tries as [|n IH]; cbn [open_staged]; repeat (only_step || done || exact I); exact IH.
Qed.

Lemma stage_input_only root p : only_calls gentle_call (stage_input ctx options root p).
Proof.
  unfold stage_input, stageReviewInputFile, stageReviewInputJson, writeStagedReviewInput, catch_as.
  repeat (only_step || apply open_staged_only || done || exact I).
Qed.

Lemma merged_keys base extra k : k ∈ map fst (merge_fields base extra) -> k ∈ map fst base \/ k ∈ map fst extra.
Proof.
  unfold merge_fields. revert base. induction extra as [|[a b] extra IH]; intros base; cbn [foldl map fst]; [auto|].
  intros [H|H]%IH; [|right; by apply list_elem_of_further].
  assert (k ∈ map fst base \/ k = a) as [H'| ->]; [|auto | right; apply list_elem_of_here].
  clear -H. induction base as [|[x y] base IH]; cbn [set_key] in H.
  - cbn [map fst] in H. rewrite elem_of_cons, elem_of_nil in H. naive_solver.
  - destruct (str_eqb a x); cbn [map fst] in *; rewrite elem_of_cons in *; [auto|]. destruct H as [->|H]; [auto|]. naive_solver.
Qed.

Lemma captureResult_only p : no_binary p -> only_calls gentle_call (reviewCaptureResult ctx options p).
Proof.
  intros Hb. unfold reviewCaptureResult. apply only_bind_lift. intros root Hr%resolved_approved.
  apply only_bind; [apply only_throw_when|]. intros _. apply only_bind; [apply stage_input_only|]. intros staged.
  apply only_try_finally.
  - apply only_bind; [|intros; apply only_ret]. apply run_only; [exact Hr|]. intros a Ha. apply review_fixed in Ha.
    rewrite review_binary in Ha; [done|]. intros [H|H]%merged_keys.
    + unfold drop_key, withoutProjectDir in H. apply filtered_keys, filtered_keys in H. done.
    + destruct staged; cbn in H; [|by apply elem_of_nil in H]. apply list_elem_of_singleton in H. discriminate.
  - destruct staged as [q|]; repeat (only_step || exact I).
Qed.
End runtime.

(** ** The operations *)
Section service.
  Context (ctx : OpContext) (options : SddRuntimeExecutorOptions) (legacySddEnabled : bool) (cwd : jsstr).
  Context (advisorStore : world -> AdvisorStore).
#[local] Abbreviation only := (only_calls (gentle_call ctx options)).

Lemma opened_run operation req w :
  opened ctx operation req w =
    match payloadOf req with
    | Throw e => (Throw e, w, [])
    | Ok p => match authorizeHostDispatch (readOnlyAgents (cfg ctx)) (w_store w) (js operation) (req_sessionID req) orchestrator with
              | Ok _ => (Ok p, w, [])
              | Throw e => (Throw e, w, [])
              end
    end.
Proof.
  unfold opened. destruct (payloadOf req) as [p|e]; [|done]. unfold authorize, mbind, M_bind, lift, Effects.ask.
  by destruct (authorizeHostDispatch _ _ _ _ _).
Qed.

Lemma opened_only operation req : only (opened ctx operation req).
Proof. unfold opened, authorize. repeat only_step. Qed.

Lemma legacy_only operation req : only (legacy ctx legacySddEnabled operation req).
Proof. unfold legacy. apply only_bind; [apply only_lift | intros; apply opened_only]. Qed.

Lemma as_sdd_only m : only m -> only (as_sdd m).
Proof. intros H. unfold as_sdd. apply only_bind; [exact H | intros; apply only_ret]. Qed.
Lemma as_raw_only m : only m -> only (as_raw m).
Proof. intros H. unfold as_raw. apply only_bind; [exact H | intros; apply only_ret]. Qed.

(** The keys a handler passes on do not name the binary. *)
Lemma passed_no_binary dir payload keys :
  mem (js "binary") (js "projectDir" :: map js keys) = false -> no_binary (with_dir dir (reviewOptional payload keys)).
Proof.
  intros H%mem_false. unfold no_binary, with_dir. cbn [fields_of map fst]. rewrite not_elem_of_cons in *.
  destruct H as [H1 H2]. split; [done|]. intros H%optional_keys. done.
Qed.

Lemma passthrough_only operation keys command req :
  (forall dir payload, only (command (with_dir dir (reviewOptional payload keys)))) ->
  only (passthrough ctx operation keys command req).
Proof.
  intros H. unfold passthrough. apply only_bind; [apply opened_only|]. intros p. apply only_bind; [apply only_lift|].
  intros dir. apply as_sdd_only, H.
Qed.

Ltac gentle := lazymatch goal with |- gentle_call _ _ _ => exact I end.

Lemma lineagesDir_only pid : only (lineagesDir ctx pid).
Proof. unfold lineagesDir. repeat (only_step || gentle). Qed.
Lemma external_only pid l : only (isExternalLensLineage ctx pid l).
Proof.
  unfold isExternalLensLineage. apply only_bind; [apply lineagesDir_only|]. intros d.
  apply only_bind; [apply only_lift|]. intros x. by apply only_call_bool.
Qed.
Lemma mark_only pid l : only (markExternalLensLineage ctx pid l).
Proof.
  unfold markExternalLensLineage. apply only_bind; [apply lineagesDir_only|]. intros d. repeat (only_step || gentle).
Qed.

Lemma relay_payload_no_binary dir review fresh result extra :
  js "binary" ∉ map fst extra -> no_binary (JObj (capture_payload dir review fresh result ++ extra)).
Proof.
  intros H. unfold no_binary, capture_payload. cbn [fields_of]. rewrite map_app, elem_of_app. intros [Hin|Hin]; [|done].
  cbn [map fst] in Hin. rewrite !elem_of_cons, elem_of_nil in Hin. repeat destruct Hin as [Hin|Hin]; try done.
Qed.

Lemma capture_run_only dir review fresh result extra :
  mem (js "binary") (map fst extra) = false ->
  only (reviewCaptureResult ctx options (JObj (capture_payload dir review fresh result ++ extra))).
Proof. intros H%mem_false. by apply captureResult_only, relay_payload_no_binary. Qed.

Lemma refused_only r m : only (refused r m).
Proof. unfold refused. destruct (succeeded r); repeat only_step. Qed.

Lemma lineage_status_only dir l : only (lineage_status ctx options dir l).
Proof.
  unfold lineage_status. apply only_bind; [apply reviewStatus_only|]. intros r. repeat only_step.
Qed.

Lemma take_marker_only pid id review : only (take_relay_marker ctx pid id review).
Proof. unfold take_relay_marker, relayMarkersDir. repeat (only_step || gentle). Qed.

Lemma relay_capture_only marker id dir review fresh result :
  only (relay_capture ctx options marker id (capture_payload dir review fresh result)).
Proof.
  assert (only (reviewCaptureResult ctx options (JObj (capture_payload dir review fresh result)))) as Hplain.
  { rewrite <- (app_nil_r (capture_payload dir review fresh result)). apply capture_run_only. reflexivity. }
  unfold relay_capture, release_marker.
  repeat lazymatch goal with
  | |- _ (reviewCaptureResult _ _ (JObj (_ ++ _))) => apply capture_run_only; vm_compute; reflexivity
  | |- _ (reviewCaptureResult _ _ _) => apply Hplain
  | |- _ (refused _ _) => apply refused_only
  | |- _ => only_step || gentle
  end.
Qed.

Lemma relay_only dir payload : only (relayAdvisorResponse ctx options advisorStore dir payload).
Proof.
  unfold relayAdvisorResponse.
  repeat first
    [ only_step
    | lazymatch goal with
      | |- only_calls _ (isExternalLensLineage _ _ _) => apply external_only
      | |- only_calls _ (lineage_status _ _ _ _) => apply lineage_status_only
      | |- only_calls _ (take_relay_marker _ _ _ _) => apply take_marker_only
      | |- only_calls _ (relay_capture _ _ _ _ _) => apply relay_capture_only
      end ].
Qed.

Lemma guard_only dir payload : only (guardExternalLensCapture ctx dir payload).
Proof. unfold guardExternalLensCapture. repeat (only_step || gentle || apply external_only). Qed.

Lemma resolve_trace_only fuel c missing : only (resolve_trace ctx cwd fuel c missing).
Proof.
  revert c missing. induction fuel as [|n IH]; intros c missing; cbn [resolve_trace]; [apply only_throw|].
  repeat (only_step || gentle); apply IH.
Qed.

Lemma trace_only dir t : only (assertTraceOutsideProject ctx cwd dir t).
Proof.
  unfold assertTraceOutsideProject, catch_as. repeat (only_step || gentle || apply resolve_trace_only).
Qed.

Lemma start_only req : only (buildReviewStartOp ctx options cwd req).
Proof.
  unfold buildReviewStartOp. apply only_bind; [apply opened_only|]. intros p.
  apply only_bind; [apply only_lift|]. intros dir. cbv zeta.
  apply only_bind; [destruct (is_undef _); [apply only_ret | apply trace_only]|]. intros _.
  apply only_bind; [apply only_throw_when|]. intros _. apply only_bind; [apply only_throw_when|]. intros _.
  apply only_bind; [unfold reviewStart; apply runReview_only, passed_no_binary; vm_compute; reflexivity|]. intros started.
  apply only_bind; [|intros; apply only_ret]. destruct (_ && _); cbn [when]; [|apply only_ret].
  unfold mark_started. repeat (only_step || gentle || apply mark_only).
Qed.

Lemma capture_only req : only (buildReviewCaptureResultOp ctx options advisorStore req).
Proof.
  unfold buildReviewCaptureResultOp. apply only_bind; [apply opened_only|]. intros p.
  apply only_bind; [apply only_lift|]. intros dir. destruct (negb _); [apply relay_only|].
  apply only_bind; [apply guard_only|]. intros _. apply as_sdd_only, captureResult_only, passed_no_binary. vm_compute. reflexivity.
Qed.

(** Every handler opens with the gate of its own operation. *)
Definition gated (op : Operation) (h : BrokerRequestEnvelope -> M jsval) : Prop :=
  exists name k, js name = Op.name op /\ forall req,
    h req = mbind (k req) (opened ctx name req) \/
    h req = mbind (k req) (legacy ctx legacySddEnabled name req).

#[local] Abbreviation operations := (sdd_operations ctx options legacySddEnabled cwd advisorStore).

Lemma all_gated : Forall (fun e => gated (fst e) (snd e)) operations.
Proof.
  unfold sdd_operations. repeat apply Forall_cons_2; [..|apply Forall_nil_2]; cbn [fst snd]; unfold gated.
  all: eexists; eexists; split; [reflexivity|]; intros req; first [left; reflexivity | right; reflexivity].
Qed.

Ltac sdd_handler := apply only_bind; [apply legacy_only || apply opened_only|]; intros ?;
  repeat (apply only_bind; [apply only_lift|]; intros ?); first [apply as_sdd_only | apply as_raw_only].

Lemma all_only : Forall (fun e => forall req, only (snd e req)) operations.
Proof.
  unfold sdd_operations. repeat apply Forall_cons_2; [..|apply Forall_nil_2]; cbn [snd]; intros req.
  - sdd_handler. apply sddStatus_only.
  - sdd_handler. apply sddContinue_only.
  - sdd_handler. apply archiveCompose_only.
  - sdd_handler. apply taskResult_only.
  - sdd_handler. apply attemptGrant_only.
  - sdd_handler. apply reviewAssess_only.
  - sdd_handler. apply reviewModeStatus_only.
  - sdd_handler. apply reviewStatus_only.
  - sdd_handler. apply reviewLensContext_only.
  - apply start_only.
  - apply capture_only.
  - unfold buildReviewCaptureUnachievableOp. apply passthrough_only. intros dir payload. unfold reviewCaptureUnachievable. apply runReview_only, passed_no_binary. vm_compute. reflexivity.
  - unfold buildReviewAcknowledgeApprovedOp. apply passthrough_only. intros dir payload. apply acknowledge_only, passed_no_binary. vm_compute. reflexivity.
  - unfold buildReviewCaptureCorrectionPlanOp. apply passthrough_only. intros dir payload. unfold reviewCaptureCorrectionPlan. apply runReview_only, passed_no_binary. vm_compute. reflexivity.
  - unfold buildReviewCaptureRefuterOp. apply passthrough_only. intros dir payload. apply captureRefuter_only, passed_no_binary. vm_compute. reflexivity.
  - unfold buildReviewCaptureValidationOp. apply passthrough_only. intros dir payload. unfold reviewCaptureValidation. apply runReview_only, passed_no_binary. vm_compute. reflexivity.
  - unfold buildReviewValidateOp. apply passthrough_only. intros dir payload. unfold reviewValidate. apply runReview_only, passed_no_binary. vm_compute. reflexivity.
  - unfold buildReviewRecoverOp. apply passthrough_only. intros dir payload. unfold reviewRecover. apply runReview_only, passed_no_binary. vm_compute. reflexivity.
Qed.

Lemma refused_at_the_gate op h req w e : gated op h ->
  authorizeHostDispatch (readOnlyAgents (cfg ctx)) (w_store w) (Op.name op) (req_sessionID req) orchestrator = Throw e ->
  exists e', h req w = (Throw e', w, []).
Proof.
  intros (name & k & Hn & Hh) Ha. rewrite <- Hn in Ha.
  assert (exists e', opened ctx name req w = (Throw e', w, [])) as (e1 & H1).
  { rewrite opened_run, Ha. destruct (payloadOf req) as [p|e']; by eexists. }
  destruct (Hh req) as [Hr|Hr]; rewrite Hr.
  - exists e1. by apply run_bind_throw.
  - unfold legacy. destruct (assertLegacySddEnabled legacySddEnabled) as [[]|e2] eqn:Hl.
    + exists e1. apply run_bind_throw. by rewrite run_lift_Ok.
    + exists e2. apply run_bind_throw. by rewrite run_lift_Throw.
Qed.

(** C18: An SDD or review operation runs gentle-ai, and only gentle-ai, behind its
    gate.  Whatever the operation, the payload, the environment and the session:
    every host process it starts is the configured binary with a fixed
    subcommand, in the canonical root of an approved project, with the runtime's
    time limit, output bound and environment - never git, never a command in a
    worker; and a session that is not authorized for the operation gets an
    error before any call and any change. *)
Theorem gentle_runs_gated op h req w :
  (op, h) ∈ operations ->
  wp (h req) (fun r w' t =>
    Forall (fun e => gentle_call ctx options (call_of e)) t /\
    (forall e, authorizeHostDispatch (readOnlyAgents (cfg ctx)) (w_store w) (Op.name op) (req_sessionID req) orchestrator = Throw e ->
       w' = w /\ t = [] /\ exists e', r = Throw e')) w.
Proof.
  intros Hin. pose proof all_only as Ho. pose proof all_gated as Hg. rewrite Forall_forall in Ho, Hg.
  specialize (Ho _ Hin req w). specialize (Hg _ Hin). cbn [fst snd] in Ho, Hg. unfold wp in *.
  destruct (h req w) as [[r w'] t] eqn:Hrun. split; [exact Ho|]. intros e Ha.
  destruct (refused_at_the_gate op h req w e Hg Ha) as (e' & He). rewrite He in Hrun. injection Hrun as <- <- <-. eauto.
Qed.
End service.

Definition sample_options : SddRuntimeExecutorOptions :=
  mkSddOptions (JStr (js "gentle-ai")) JUndef (Some (js "/state/review-input")) 3.

Lemma sample_refused : exists e,
  authorizeHostDispatch (readOnlyAgents (cfg (sample_ctx quiet_env))) (w_store (sample_world ∅)) (Op.name Op.reviewStart)
    (req_sessionID (sample_req Op.reviewStart None (JObj []))) orchestrator = Throw e.
Proof. eexists. vm_compute. reflexivity. Qed.

(** A session without a recorded agent may not start a review. *)
Lemma gentle_runs_gated_witness :
  exists h e', (Op.reviewStart, h) ∈ sdd_operations (sample_ctx quiet_env) sample_options false (js "/") (fun _ => ∅) /\
    fst (fst (h (sample_req Op.reviewStart None (JObj [])) (sample_world ∅))) = Throw e'.
Proof.
  set (h := buildReviewStartOp (sample_ctx quiet_env) sample_options (js "/")).
  assert ((Op.reviewStart, h) ∈ sdd_operations (sample_ctx quiet_env) sample_options false (js "/") (fun _ => ∅)) as Hin.
  { apply list_elem_of_In. do 9 right. left. reflexivity. }
  pose proof (gentle_runs_gated (sample_ctx quiet_env) sample_options false (js "/") (fun _ => ∅) Op.reviewStart h
    (sample_req Op.reviewStart None (JObj [])) (sample_world ∅) Hin) as H.
  destruct sample_refused as (e & He).
  exists h. unfold wp in H. destruct (h _ _) as [[r w'] t].
  destruct H as [_ H]. destruct (H e He) as (_ & _ & e' & ->). exists e'.
  split; [exact Hin | reflexivity].
Defined.

(** ** Facts about captures, relays and traces

    A capture's input is a private copy, read by the command and removed; a
    relay submits a stored response once, under its marker; the trace of a review
    points outside the project. *)
(** The files a run created. *)
Definition made (t : list event) : list jsstr :=
  omap (fun e => match e with EvUnit (COpenExclusive p _) (Ok _) => Some p | _ => None end) t.

Lemma made_app t1 t2 : made (t1 ++ t2) = made t1 ++ made t2.
Proof. apply omap_app. Qed.

Definition staged_name (dir p : jsstr) : Prop := exists name, p = join [dir; name ++ js ".input"].

(** A step of the writing of [bytes] into a fresh private file of [dir]. *)
Definition stage_event (dir : jsstr) (bytes : list N) (e : event) : Prop :=
  match call_of e with
  | CMkdir d => d = dir
  | CRandomHex n => n = 16
  | COpenExclusive p perm => perm = 384 /\ staged_name dir p
  | CWriteBytes p b => staged_name dir p /\ b = bytes
  | CFsyncFd p | CCloseFd p => staged_name dir p
  | _ => False
  end.

Section staging.
  Context (ctx : OpContext) (options : SddRuntimeExecutorOptions).

Lemma open_staged_always tries dir bytes :
  always (open_staged ctx tries dir) (fun r t => Forall (stage_event dir bytes) t /\
    match r with Ok (Some p) => made t = [p] /\ staged_name dir p | _ => made t = [] end).
Proof.
  induction tries as [|n IH]; cbn [open_staged]; apply always_bind, always_call_text; intros [name|e];
    (* no name *)
    [|by split; [repeat constructor|] | |by split; [repeat constructor|]].
  all: apply always_bind, always_try_catch, always_bind, always_call_unit; intros [[]|e].
  all: assert (staged_name dir (join [dir; name ++ js ".input"])) as Hn by (by exists name).
  - repeat walk_step. cbn [app]. split; [repeat constructor; done | done].
  - destruct (has_code e "EEXIST"); repeat walk_step; cbn [app]; split; try done; repeat constructor; done.
  - repeat walk_step. cbn [app]. split; [repeat constructor; done | done].
  - destruct (has_code e "EEXIST"); repeat walk_step; cbn [app].
    + eapply always_mono; [exact IH|]. intros r t [Hf Hc]. split; [repeat (constructor; try done)|].
      by destruct r as [[p|]|].
    + split; [repeat constructor; done | done].
Qed.

Lemma writeStaged_always dir bytes :
  always (writeStagedReviewInput ctx options dir bytes) (fun r t =>
    match r with
    | Ok p => Forall (stage_event dir bytes) t /\ made t = [p] /\ staged_name dir p
    | Throw _ => Forall (stage_event dir bytes) t
    end).
Proof.
  unfold writeStagedReviewInput. apply always_bind, always_call_unit. intros [[]|e]; [|repeat constructor].
  apply always_bind. eapply always_mono; [apply (open_staged_always _ dir bytes)|]. intros [[p|]|e] t [Hf Hc].
  - destruct Hc as [Hc Hn]. repeat walk_step; cbn [app]; rewrite ?app_nil_r;
      repeat match goal with |- _ /\ _ => split end;
      try (constructor; [done|]); rewrite ?Forall_app; try (split; [exact Hf | repeat constructor; done]);
      rewrite ?made_app; cbn; rewrite ?made_app, ?Hc; done.
  - apply always_throw. cbn [app]. rewrite app_nil_r. constructor; done.
  - cbn [app]. constructor; done.
Qed.

(** Where the staged bytes come from: the caller's inline text, or a regular
    file inside the project, within the size limit. *)
Inductive input_source (payload : jsval) (root : jsstr) : list N -> list event -> Prop :=
  | src_inline body : at_key payload "inputJson" = JStr body -> input_source payload root (utf8_encode body) []
  | src_file real realRoot size bytes :
      staged_source ctx root (at_key payload "input") = Ok real ->
      host_realpath ctx root = Some realRoot -> isWithin realRoot real = true -> size <= REVIEW_INPUT_MAX_BYTES ->
      input_source payload root bytes
        [EvBool (CIsFile real) (Ok true); EvInt (CFileSize real) (Ok size); EvText (CReadBytes real) (Ok bytes)].

(** A staged input: none, the literal [-], or a fresh private file. *)
Inductive staged_input (payload : jsval) (root : jsstr) : option jsstr -> list event -> Prop :=
  | staged_none : at_key payload "input" = JUndef -> at_key payload "inputJson" = JUndef -> staged_input payload root None []
  | staged_dash : at_key payload "input" = JStr (js "-") -> staged_input payload root (Some (js "-")) []
  | staged_file dir bytes t1 t2 p :
      sx_reviewInputDir options = Some dir -> input_source payload root bytes t1 ->
      Forall (stage_event dir bytes) t2 -> made t2 = [p] -> staged_name dir p ->
      staged_input payload root (Some p) (t1 ++ t2).

Definition is_process (c : call) : bool :=
  match c with CSpawn _ _ | CSpawnReplace _ _ _ | CGit _ _ | CExec _ _ _ => true | _ => false end.
Definition no_process (t : list event) : Prop := Forall (fun e => is_process (call_of e) = false) t.

Lemma stage_no_process dir bytes t : Forall (stage_event dir bytes) t -> no_process t.
Proof. intros H. eapply Forall_impl; [exact H|]. intros e. unfold stage_event. by destruct (call_of e). Qed.

Lemma staged_source_within root v real : staged_source ctx root v = Ok real ->
  exists realRoot, host_realpath ctx root = Some realRoot /\ isWithin realRoot real = true.
Proof.
  unfold staged_source. destruct v as [| | | |path| |]; try discriminate. rewrite res_bind_Ok. intros (resolved & _ & H).
  rewrite res_bind_Ok in H. destruct H as (rr & Hr & H). rewrite res_bind_Ok in H. destruct H as (q & _ & H).
  rewrite res_seq_Ok in H. destruct H as [Hw [= <-]]. exists rr. split; [by apply realpath_or_Ok in Hr|].
  by apply throw_if_Ok, negb_false_iff in Hw.
Qed.

Lemma stage_input_always payload root :
  always (stage_input ctx options root payload) (fun r t =>
    match r with Ok staged => staged_input payload root staged t | Throw _ => no_process t end).
Proof.
  assert (forall dir, requireReviewInputDir options = Ok dir -> sx_reviewInputDir options = Some dir) as Hdir.
  { intros dir. unfold requireReviewInputDir. destruct (sx_reviewInputDir options) as [[|]|]; try discriminate. by intros [= <-]. }
  unfold stage_input. cbv zeta. destruct (negb (is_undef (at_key payload "input"))) eqn:Hi.
  - destruct (is_text _ "-") eqn:Hd.
    { apply always_ret. destruct (at_key payload "input") as [| | | |s| |] eqn:Hs; try discriminate. apply str_eqb_eq in Hd as ->.
      by apply staged_dash. }
    apply always_bind, always_lift. destruct (requireReviewInputDir options) as [dir|e] eqn:Hq; [|constructor].
    apply always_bind. unfold stageReviewInputFile. apply always_bind, always_lift.
    destruct (staged_source ctx root _) as [real|e] eqn:Hs; [|constructor].
    apply always_bind, always_catch_as, always_call_bool. intros [regular|e]; [|repeat constructor].
    apply always_bind, always_catch_as, always_call_int. intros [size|e]; [|repeat constructor].
    apply always_bind, always_throw_when; intros Hreg; [repeat constructor|].
    apply always_bind, always_throw_when; intros Hsize; [repeat constructor|].
    apply always_bind, always_call_text. intros [bytes|e]; [|repeat constructor].
    eapply always_mono; [apply writeStaged_always|]. intros [p|e] t Ht; cbn [app].
    + destruct Ht as (Hf & Hc & Hn). apply always_ret. rewrite app_nil_r.
      destruct (staged_source_within _ _ _ Hs) as (rr & Hr & Hw). apply negb_false_iff in Hreg as ->. apply Z.ltb_ge in Hsize.
      apply (staged_file payload root dir bytes [_; _; _] t p); try done; [by apply Hdir | by econstructor].
    + apply stage_no_process in Ht. repeat (constructor; [done|]). exact Ht.
  - apply negb_false_iff in Hi. assert (at_key payload "input" = JUndef) as Hu by (by destruct (at_key payload "input")).
    destruct (negb (is_undef (at_key payload "inputJson"))) eqn:Hj.
    + apply always_bind, always_lift. destruct (assertReviewInputJson _ _) as [[]|e] eqn:Ha; [|constructor].
      apply always_bind, always_lift. destruct (requireReviewInputDir options) as [dir|e] eqn:Hq; [|constructor].
      apply always_bind. unfold stageReviewInputJson. eapply always_mono; [apply writeStaged_always|]. intros [p|e] t Ht; cbn [app].
      * destruct Ht as (Hf & Hc & Hn). apply always_ret. rewrite app_nil_r.
        destruct (at_key payload "inputJson") as [| | | |body| |] eqn:Hb; try discriminate.
        apply (staged_file payload root dir (utf8_encode body) [] t p); try done; [by apply Hdir | by constructor].
      * by eapply stage_no_process.
    + apply always_ret. apply negb_false_iff in Hj. apply staged_none; [done|]. by destruct (at_key payload "inputJson").
Qed.
End staging.

(** ** Records with distinct keys *)
Lemma set_key_keys k v fs : map fst (set_key k v fs) = map fst fs \/ (k ∉ map fst fs /\ map fst (set_key k v fs) = map fst fs ++ [k]).
Proof.
  induction fs as [|[a b] fs IH]; cbn [set_key map fst]; [right; split; [apply not_elem_of_nil | done]|].
  destruct (str_eqb k a) eqn:E; cbn [map fst]; [by left|]. apply str_eqb_neq in E.
  destruct IH as [->|[Hn ->]]; [by left|]. right. split; [|done]. by apply not_elem_of_cons.
Qed.

Lemma set_key_NoDup k v fs : NoDup (map fst fs) -> NoDup (map fst (set_key k v fs)).
Proof.
  intros H. destruct (set_key_keys k v fs) as [->|[Hn ->]]; [done|]. apply NoDup_app. split; [done|]. split; [|apply NoDup_singleton].
  intros x Hx ->%list_elem_of_singleton. done.
Qed.

Section captures.
  Context (ctx : OpContext) (options : SddRuntimeExecutorOptions).

(** The record a capture's command line is built from. *)
Definition capture_input (root : jsstr) (payload : jsval) (staged : option jsstr) : jsval :=
  review_input options (Some root)
    (merge_fields (drop_key "inputJson" (withoutProjectDir (fields_of payload)))
       (match staged with Some p => [(js "input", JStr p)] | None => [] end)).

Lemma capture_reads_staged root payload p :
  NoDup (map fst (fields_of payload)) -> at_key (capture_input root payload (Some p)) "input" = JStr p.
Proof.
  intros Hn. unfold at_key, capture_input, review_input. apply field_merge_in.
  - apply set_key_NoDup. unfold drop_key, withoutProjectDir. by apply filter_NoDup, filter_NoDup.
  - apply assoc_set_key.
Qed.

(** What the caller gets of a command's end. *)
Definition capture_outcome (a : res SpawnResult) : res SddRuntimeResult :=
  match a with
  | Ok s => match run_result true s with Ok x => Ok (with_json addClosureGuidance x) | Throw e => Throw e end
  | Throw e => Throw e
  end.

(** The command of a capture: refused by the builder, or run once. *)
Inductive capture_run (root : jsstr) (payload : jsval) (staged : option jsstr) : list event -> res SddRuntimeResult -> Prop :=
  | run_refused e : buildReviewArgv (host_realpath ctx) (js "reviewCaptureResult") (capture_input root payload staged) = Throw e ->
      capture_run root payload staged [] (Throw e)
  | run_once argv a : buildReviewArgv (host_realpath ctx) (js "reviewCaptureResult") (capture_input root payload staged) = Ok argv ->
      capture_run root payload staged [EvProc (runtime_call options argv root) a] (capture_outcome a).

Definition cleanup_of (staged : option jsstr) : list call :=
  match staged with Some p => if str_eqb p (js "-") then [] else [CUnlink p] | None => [] end.

(** A capture: an error before any command, or the input staged, the command,
    and the removal of the staged file. *)
Inductive capture_trace (payload : jsval) : res SddRuntimeResult -> list event -> Prop :=
  | capture_early t e : no_process t -> capture_trace payload (Throw e) t
  | capture_done root staged t1 run cleanup r :
      resolveProjectRoot ctx (at_key payload "projectDir") = Ok root ->
      staged_input ctx options payload root staged t1 -> capture_run root payload staged run r ->
      map call_of cleanup = cleanup_of staged ->
      capture_trace payload r (t1 ++ run ++ cleanup).

Lemma run_always argv root redact (Q : res SddRuntimeResult -> list event -> Prop) :
  (forall e, argv = Throw e -> Q (Throw e) []) ->
  (forall a r, argv = Ok a -> Q (match r with Ok s => run_result redact s | Throw e => Throw e end) [EvProc (runtime_call options a root) r]) ->
  always (run ctx options argv root redact) Q.
Proof.
  intros H1 H2. unfold run. apply always_bind, always_lift. destruct argv as [a|e]; [|by apply H1].
  apply always_bind, always_call_proc. intros [s|e]; [apply always_lift | exact (H2 a (Throw e) eq_refl)].
  exact (H2 a (Ok s) eq_refl).
Qed.

Lemma cleanup_always staged (Q : res unit -> list event -> Prop) :
  (forall t, map call_of t = cleanup_of staged -> Q (Ok tt) t) ->
  always (match staged with
          | Some p => when (negb (str_eqb p (js "-"))) (best_effort (call_unit (env ctx) (CUnlink p)))
          | None => mret tt
          end) Q.
Proof.
  intros H. unfold cleanup_of in H. destruct staged as [p|]; [|by apply always_ret, H].
  destruct (str_eqb p (js "-")); cbn [negb when]; [by apply always_ret, H|]. apply always_best_effort_call. intros a. by apply H.
Qed.

Lemma capture_always payload : always (reviewCaptureResult ctx options payload) (capture_trace payload).
Proof.
  unfold reviewCaptureResult. apply always_bind, always_lift. destruct (resolveProjectRoot _ _) as [root|e] eqn:Hroot; [|by apply capture_early; constructor].
  apply always_bind, always_throw_when; intros _; [by apply capture_early; constructor|]. cbv zeta.
  apply always_bind. eapply always_mono; [apply stage_input_always|]. intros [staged|e] t1 Hs; cbn [app]; [|by apply capture_early].
  apply always_try_finally, always_bind, run_always.
  - intros e He. apply cleanup_always. intros t Ht. cbn [app].
    apply (capture_done payload root staged t1 [] t); [done | done | by apply run_refused | done].
  - intros a r Ha. pose proof (run_once root payload staged a r Ha) as Hr. revert Hr. unfold capture_outcome.
    destruct r as [s|e]; [destruct (run_result true s) as [x|e]|]; intros Hr; repeat walk_step; rewrite ?app_nil_r;
      apply cleanup_always; intros t Ht; apply (capture_done payload root staged t1 _ t); done.
Qed.

(** A review capture reads a private copy of its input and leaves none.
    Whatever the payload, the environment and the way the command ends (success,
    failure, timeout, output that is not JSON), a capture is either an error
    before any command runs, or three stages in order: the input is staged -
    nothing, the literal dash, or the caller's own bytes (the inline text, or a
    regular file inside the approved project, at most 512 KiB) written to a file
    of the broker's private directory that is created exclusively with mode 0600;
    the command runs at most once, on that very file; and the file is removed,
    which is the last thing the capture does. *)
Theorem capture_input_private payload :
  NoDup (map fst (fields_of payload)) ->
  always (reviewCaptureResult ctx options payload) (fun r t =>
    (no_process t /\ exists e, r = Throw e) \/
    exists root staged t1 run cleanup,
      resolveProjectRoot ctx (at_key payload "projectDir") = Ok root /\ t = t1 ++ run ++ cleanup /\
      staged_input ctx options payload root staged t1 /\
      (run = [] \/ exists argv input a, run = [EvProc (runtime_call options argv root) a] /\
         buildReviewArgv (host_realpath ctx) (js "reviewCaptureResult") input = Ok argv /\
         (forall p, staged = Some p -> at_key input "input" = JStr p)) /\
      map call_of cleanup = cleanup_of staged).
Proof.
  intros Hn. eapply always_mono; [apply capture_always|]. intros r t H. destruct H as [t e Ht|root staged t1 run cleanup r Hroot Hs Hr Hc].
  - left. eauto.
  - right. exists root, staged, t1, run, cleanup. split_and!; try done.
    destruct Hr as [e He|argv a Ha]; [by left|]. right. exists argv, (capture_input root payload staged), a.
    split_and!; [done | done|]. intros p ->. by apply capture_reads_staged.
Qed.
End captures.

Definition sample_capture : jsval :=
  JObj [(js "projectDir", JStr (js "/srv/p")); (js "lens", JStr (js "review-risk")); (js "inputJson", JStr (js "{}"))].

Lemma capture_input_private_witness :
  NoDup (map fst (fields_of sample_capture)) /\
  always (reviewCaptureResult (sample_ctx quiet_env) sample_options sample_capture) (fun r t =>
    (no_process t /\ exists e, r = Throw e) \/
    exists root staged t1 run cleanup,
      resolveProjectRoot (sample_ctx quiet_env) (at_key sample_capture "projectDir") = Ok root /\ t = t1 ++ run ++ cleanup /\
      staged_input (sample_ctx quiet_env) sample_options sample_capture root staged t1 /\
      (run = [] \/ exists argv input a, run = [EvProc (runtime_call sample_options argv root) a] /\
         buildReviewArgv (host_realpath (sample_ctx quiet_env)) (js "reviewCaptureResult") input = Ok argv /\
         (forall p, staged = Some p -> at_key input "input" = JStr p)) /\
      map call_of cleanup = cleanup_of staged).
Proof.
  assert (NoDup (map fst (fields_of sample_capture))) as Hn by (repeat (apply NoDup_cons; split; [rewrite ?elem_of_cons; intuition (try discriminate); by eapply not_elem_of_nil|]); apply NoDup_nil; exact I).
  split; [exact Hn | exact (capture_input_private (sample_ctx quiet_env) sample_options sample_capture Hn)].
Defined.

(** ** The relay of an advisory response *)

(** What a relay may do before its marker is taken: no file created, and no
    command but the status of the lineage. *)
Definition before_marker (e : event) : Prop :=
  match e with
  | EvUnit (COpenExclusive _ _) (Ok _) => False
  | _ => match call_of e with
         | CSpawn argv _ => exists input, buildReviewStatusArgv input = Ok argv
         | c => is_process c = false
         end
  end.

Definition accepted (r : res SddRuntimeResult) : Prop := exists s, r = Ok s /\ succeeded s = true.

Section relays.
  Context (ctx : OpContext) (options : SddRuntimeExecutorOptions) (advisorStore : world -> AdvisorStore).

(** What follows the taking of the marker. *)
Inductive marked_trace (marker id : jsstr) (capture : list (jsstr * jsval)) : res jsval -> list event -> Prop :=
  | note_failed e : marked_trace marker id capture (Throw e) [EvUnit (CWriteFd marker (id ++ [10%N])) (Throw e)]
  | preflight_refused r1 t1 a e :
      capture_trace ctx options (JObj (capture ++ [(js "preflight", JBool true)])) r1 t1 -> ~ accepted r1 ->
      marked_trace marker id capture (Throw e)
        (EvUnit (CWriteFd marker (id ++ [10%N])) (Ok tt) :: t1 ++ [EvUnit (CUnlink marker) a])
  | capture_refused r1 t1 r2 t2 a e :
      capture_trace ctx options (JObj (capture ++ [(js "preflight", JBool true)])) r1 t1 -> accepted r1 ->
      capture_trace ctx options (JObj capture) r2 t2 -> ~ accepted r2 ->
      marked_trace marker id capture (Throw e)
        (EvUnit (CWriteFd marker (id ++ [10%N])) (Ok tt) :: t1 ++ t2 ++ [EvUnit (CUnlink marker) a])
  | response_relayed r1 t1 r2 t2 v :
      capture_trace ctx options (JObj (capture ++ [(js "preflight", JBool true)])) r1 t1 -> accepted r1 ->
      capture_trace ctx options (JObj capture) r2 t2 -> accepted r2 ->
      marked_trace marker id capture (Ok v) (EvUnit (CWriteFd marker (id ++ [10%N])) (Ok tt) :: t1 ++ t2).

Inductive relay_trace (projectDir : jsstr) (payload : jsval) : res jsval -> list event -> Prop :=
  | relay_unmarked e t : Forall before_marker t -> relay_trace projectDir payload (Throw e) t
  | relay_marked projectId store id review result fresh pre post r :
      resolve_project ctx projectDir = Ok projectId ->
      readRelayableLensResponse (dir_of store projectId) (at_key payload "inputFromAdvisorResponse") = Ok (id, review, result) ->
      fresh_matches fresh review = Ok true ->
      let marker := join [stateDir (cfg ctx); js "advisor"; projectId; js "relayed"] in
      let file := join [marker; rv_lineage review ++ js "." ++ rv_lens review] in
      Forall before_marker pre ->
      marked_trace file id (capture_payload projectDir review fresh result) r post ->
      relay_trace projectDir payload r (pre ++ EvUnit (COpenExclusive file 384) (Ok tt) :: post).

Lemma refused_always r message (Q : res unit -> list event -> Prop) :
  (succeeded r = true -> Q (Ok tt) []) -> (succeeded r = false -> forall e, Q (Throw e) []) -> always (refused r message) Q.
Proof.
  intros H1 H2. unfold refused. destruct (succeeded r); [by apply always_ret, H1|].
  apply always_bind, always_lift. destruct (cause r) as [c|e]; [apply always_throw|]; by apply H2.
Qed.

Lemma release_always marker (Q : res unit -> list event -> Prop) :
  (forall a, Q (Ok tt) [EvUnit (CUnlink marker) a]) -> always (release_marker ctx marker) Q.
Proof. apply always_best_effort_call. Qed.

Lemma not_accepted_throw e : ~ accepted (Throw e).
Proof. by intros (s & [=] & _). Qed.
Lemma not_accepted_failed s : succeeded s = false -> ~ accepted (Ok s).
Proof. intros H (s' & [= <-] & Hs). congruence. Qed.

Lemma relay_capture_always marker id capture :
  always (relay_capture ctx options marker id capture) (fun r t =>
    marked_trace marker id capture r (EvUnit (CWriteFd marker (id ++ [10%N])) (Ok tt) :: t)).
Proof.
  unfold relay_capture. apply always_try_catch, always_bind. eapply always_mono; [apply capture_always|]. intros [s1|e] t1 H1.
  - apply always_bind, refused_always.
    + intros S1. apply always_bind. eapply always_mono; [apply capture_always|]. intros [s2|e] t2 H2.
      * apply always_bind, refused_always.
        -- intros S2. apply always_ret. cbn [app]. rewrite ?app_nil_r.
           eapply response_relayed; [exact H1 | by exists s1 | exact H2 | by exists s2].
        -- intros S2 e. apply always_bind, release_always. intros a. apply always_throw. cbn [app]. rewrite ?app_nil_r, <- ?app_assoc.
           eapply capture_refused; [exact H1 | by exists s1 | exact H2 | by apply not_accepted_failed].
      * apply always_bind, release_always. intros a. apply always_throw. cbn [app]. rewrite ?app_nil_r, <- ?app_assoc.
        eapply capture_refused; [exact H1 | by exists s1 | exact H2 | apply not_accepted_throw].
    + intros S1 e. apply always_bind, release_always. intros a. apply always_throw. cbn [app]. rewrite ?app_nil_r, <- ?app_assoc.
      eapply preflight_refused; [exact H1 | by apply not_accepted_failed].
  - apply always_bind, release_always. intros a. apply always_throw. cbn [app]. rewrite ?app_nil_r, <- ?app_assoc.
    eapply preflight_refused; [exact H1 | apply not_accepted_throw].
Qed.

Definition quiet_call (c : call) : Prop := is_process c = false /\ match c with COpenExclusive _ _ => False | _ => True end.

Lemma quiet_before t : Forall (fun e => quiet_call (call_of e)) t -> Forall before_marker t.
Proof.
  intros H. eapply Forall_impl; [exact H|]. intros e [Hp Hq]. unfold before_marker.
  destruct e as [c r|c r|c r|c r|c r|c r|c r]; cbn [call_of] in *; destruct c; try done; by destruct r.
Qed.

Lemma quiet_only {A} (m : M A) : only_calls quiet_call m -> always m (fun _ t => Forall before_marker t).
Proof. intros H. eapply always_mono; [exact H|]. intros r t Ht. by apply quiet_before. Qed.

Ltac quiet_leaf := lazymatch goal with |- quiet_call _ => exact (conj eq_refl I) end.

Lemma external_before pid l : always (isExternalLensLineage ctx pid l) (fun _ t => Forall before_marker t).
Proof.
  apply quiet_only. unfold isExternalLensLineage, lineagesDir. repeat (only_step || quiet_leaf).
Qed.

Lemma status_before dir l : always (lineage_status ctx options dir l) (fun _ t => Forall before_marker t).
Proof.
  unfold lineage_status, reviewStatus. apply always_bind, always_bind, always_lift. destruct (resolveProjectRoot _ _) as [root|e]; [|constructor].
  apply always_bind, run_always; [constructor|]. intros a r Ha.
  assert (before_marker (EvProc (runtime_call options a root) r)) as Hb by (by eexists).
  destruct r as [s|e]; [destruct (run_result false s) as [x|e]|]; repeat walk_step; by repeat constructor.
Qed.

Lemma take_marker_always pid id review :
  let dir := join [stateDir (cfg ctx); js "advisor"; pid; js "relayed"] in
  let file := join [dir; rv_lineage review ++ js "." ++ rv_lens review] in
  always (take_relay_marker ctx pid id review) (fun r t =>
    (exists e, r = Throw e /\ Forall before_marker t) \/
    (exists pre a, Forall before_marker pre /\ t = pre ++ [EvUnit (COpenExclusive file 384) (Ok tt); EvUnit (CWriteFd file (id ++ [10%N])) a] /\
       r = match a with Ok _ => Ok file | Throw e => Throw e end)).
Proof.
  intros dir file. unfold take_relay_marker. apply always_bind. unfold relayMarkersDir. cbv zeta.
  apply always_bind, always_call_unit. intros [[]|e1]; [|left; eexists; split; [done | by repeat constructor]].
  apply always_bind, always_call_unit. intros [[]|e2]; [|left; eexists; split; [done | by repeat constructor]].
  apply always_ret, always_bind, always_try_catch, always_call_unit. intros [[]|e3].
  - apply always_bind, always_call_unit. intros a.
    assert (Forall before_marker [EvUnit (CMkdir dir) (Ok tt); EvUnit (CChmod dir 448) (Ok tt)]) as Hb by (by repeat constructor).
    destruct a as [[]|e]; [apply always_ret|]; right; eexists _, _; (split; [exact Hb | split; [reflexivity | reflexivity]]).
  - destruct (has_code e3 "EEXIST"); apply always_throw; left; eexists; (split; [done | by repeat constructor]).
Qed.

End relays.
