(* ===== verification/Evidence.v ===== *)
(** * The evidence of an advisor (broker/src/advisor-records.ts, evidenceKeep)

    An advisor that claimed a request keeps files of its worker as the evidence
    of its answer: each path is checked in the worker, read as base64 and written
    into a private staging directory, which a rename publishes together with a
    manifest of the digests.  A handler of the monad of Effects, over the records
    as they are when it reads them ([advisorStore]); the lock of the session and
    the clock belong to the environment. *)
From Stdlib Require Import QArith.
From S2P Require Import Prelude JsVal Json JsOps Types State Policy Path Validation HostPaths Codec Envelope RolePolicy GitOps.
From S2P Require Import Artifacts Queue Effects Worker Authorization Advisor ReviewArgv SddRuntime TraceLogic WorkerFacts AdvisorFacts.
Open Scope Z_scope.

Definition MAX_KEPT_PATHS : Z := 32.
Definition MAX_KEPT_FILE_BYTES : Z := 1024 * 1024.
Definition MAX_KEPT_TOTAL_BYTES : Z := 8 * 1024 * 1024.
Definition MAX_EVIDENCE_KEEP_DURATION_MS : Z := 120000.

(** [Math.ceil(MAX_KEPT_FILE_BYTES / 3) * 4 + 1] *)
Definition encodedCap : Z := (MAX_KEPT_FILE_BYTES + 2) / 3 * 4 + 1.

Definition is_string (v : jsval) : bool := match v with JStr _ => true | _ => false end.
Definition kept_paths (v : jsval) : res (list jsstr) :=
  match v with
  | JArr xs =>
      _ ← throw_if (existsb (fun x => negb (is_string x)) xs) (invalid "paths must be an array of strings");
      _ ← throw_if (MAX_KEPT_PATHS <? Z.of_nat (length xs)) (invalid_ [js "evidenceKeep accepts at most "; dec MAX_KEPT_PATHS; js " paths"]);
      Ok (omap (fun x => match x with JStr s => Some s | _ => None end) xs)
  | _ => Throw (invalid "paths must be an array of strings")
  end.

(** A path under [.advisor/], relative to the work directory and normalized. *)
Definition ADVISOR_DIR : jsstr := js ".advisor/".
Definition outside_advisor : exn := invalid "evidence paths must be under .advisor/".
Definition evidence_path (path : jsstr) : res jsstr :=
  _ ← throw_if (negb (startsWith path ADVISOR_DIR) || includes path [0%N]) outside_advisor;
  _ ← throw_if (mem (js "..") (split_on SLASH path)) (invalid "evidence paths must not contain '..'");
  let relative := normalize path in
  _ ← throw_if (negb (startsWith relative ADVISOR_DIR) || str_eqb relative ADVISOR_DIR || startsWith relative (js "../")) outside_advisor;
  _ ← throw_if (str_eqb relative (js ".advisor/manifest.json")) (invalid "evidence path 'manifest.json' is reserved");
  Ok relative.

(** What one file leaves behind: its path in the evidence and its digest. *)
Abbreviation kept_file := (jsstr * jsstr)%type.

(** The loop's state: the worker paths seen, the bytes kept and the files. *)
Record Kept := mkKept { kp_seen : list jsstr; kp_total : Z; kp_files : list kept_file }.

Section keep.
  Context (ctx : OpContext) (sha256_hex : list N -> jsstr) (advisorStore : world -> AdvisorStore).
#[local] Abbreviation E := (env ctx).

Definition digest_of (bytes : list N) : jsstr := js "sha256:" ++ sha256_hex bytes.

Definition privateDir (path : jsstr) : M unit := _ ← call_unit E (CMkdir path); call_unit E (CChmod path 448).

Definition requests_path (projectId : jsstr) : jsstr := join [join [join [stateDir (cfg ctx); js "advisor"]; projectId]; js "requests"].
Definition requestsDir (projectId : jsstr) : M jsstr :=
  let advisorRoot := join [stateDir (cfg ctx); js "advisor"] in
  _ ← privateDir advisorRoot;
  _ ← privateDir (join [advisorRoot; projectId]);
  _ ← privateDir (requests_path projectId);
  mret (requests_path projectId).

Definition records (projectId : jsstr) : M AdvisorDir := Effects.ask (fun w => dir_of (advisorStore w) projectId).

Section timed.
  Context (startedAt : Z).

Definition checkDeadline : M unit :=
  now ← call_int E CNow;
  throw_when (MAX_EVIDENCE_KEEP_DURATION_MS <? now - startedAt) (policy_error (js "evidenceKeep operation deadline exceeded")).

(** A call and the look at the deadline after it. *)
Definition watched {A} (m : M A) : M A := a ← m; _ ← checkDeadline; mret a.

Definition evidence_opts (cap : Z) : SpawnOptions := mkOpts None (JNum (NumInt 30000)) JUndef (Some cap).
Definition in_worker (worker : jsstr) (cap : Z) (argv : list jsstr) : M SpawnResult :=
  watched (call_proc E (CExec worker argv (evidence_opts cap))).

(** ** The snapshot the evidence is about *)
Definition no_identity : exn := policy_error (js "broker-pinned snapshot identity is unavailable").

Definition rev_parse (root rev : jsstr) : M jsstr :=
  _ ← checkDeadline;
  resolved ← watched (call_proc E (CGit (map js ["git"; "rev-parse"; "--verify"]%string ++ [rev])
    (mkOpts (Some root) JUndef (JObj [(js "GIT_DIR", JStr (join [root; js ".git"]))]) None)));
  if ok_status resolved && SHA1_RE (trim (stdout resolved)) then mret (trim (stdout resolved)) else throw no_identity.

Definition recorded_identity (session : SessionRecord) : option (jsstr * jsstr) :=
  match snapshotIdentity session with
  | Some s => match si_commit s, si_tree s with (_ :: _) as commit, (_ :: _) as tree => Some (commit, tree) | _, _ => None end
  | None => None
  end.

Definition pinned_snapshot (session : SessionRecord) (projectId : jsstr) : M (jsstr * jsstr) :=
  pinned ← match recorded_identity session with
    | Some pinned => mret pinned
    | None =>
        match truthy (Types.baselineRef session) with
        | None => throw no_identity
        | Some ref =>
            match List.find (fun p => str_eqb (project_id p) projectId) (projects (cfg ctx)) with
            | None => throw (policy_error (js "broker-pinned snapshot project is unavailable"))
            | Some project =>
                commit ← rev_parse (project_path project) (ref ++ js "^{commit}");
                tree ← rev_parse (project_path project) (commit ++ js "^{tree}");
                mret (commit, tree)
            end
        end
    end;
  if SHA1_RE (fst pinned) && SHA1_RE (snd pinned) then mret pinned else throw no_identity.

Definition worker_rev (worker : jsstr) (rev : string) : M SpawnResult :=
  in_worker worker 4096 (map js ["git"; "-C"; "/work"; "rev-parse"; "--verify"; rev]%string).

Definition observed_head (worker : jsstr) : M jsval :=
  _ ← checkDeadline;
  head ← worker_rev worker "HEAD";
  tree ← worker_rev worker "HEAD^{tree}";
  let commit := trim (stdout head) in
  let treeSha := trim (stdout tree) in
  mret (if ok_status head && ok_status tree && SHA1_RE commit && SHA1_RE treeSha
        then JObj [(js "commit", JStr commit); (js "tree", JStr treeSha)] else JNull).

(** ** One file *)
Definition writeExclusive (path : jsstr) (bytes : list N) : M unit :=
  _ ← call_unit E (COpenExclusive path 384);
  _ ← try_finally (call_unit E (CWriteBytes path bytes)) (call_unit E (CCloseFd path));
  call_unit E (CChmod path 384).

Definition worker_path (relative : jsstr) : jsstr := js "/work/" ++ relative.

(** The path, as the worker resolves it, is the path itself. *)
Definition check_canonical (worker path relative : jsstr) : M unit :=
  _ ← checkDeadline;
  canonical ← in_worker worker 4096 (map js ["realpath"; "-e"; "--"]%string ++ [worker_path relative]);
  _ ← throw_when (negb (ok_status canonical)) (policy_error (js "evidence path cannot be canonicalized: " ++ path));
  throw_when (negb (str_eqb (trim (stdout canonical)) (worker_path relative)))
    (invalid "evidence path contains a symlink or escapes /work/.advisor/").

Definition check_regular (worker path relative : jsstr) : M unit :=
  stat ← in_worker worker 4096 (map js ["stat"; "-c"; "%F"; "--"]%string ++ [worker_path relative]);
  throw_when (negb (ok_status stat)
              || negb (mem (trim (stdout stat)) (map js ["regular file"; "regular empty file"]%string)))
    (invalid_ [js "evidence path must be a regular file: "; path]).

Definition read_evidence (worker path relative : jsstr) : M (list N) :=
  encoded ← in_worker worker encodedCap (map js ["base64"; "-w"; "0"; "--"]%string ++ [worker_path relative]);
  _ ← throw_when (negb (ok_status encoded)) (policy_error (js "evidence read failed: " ++ path));
  _ ← throw_when (encodedCap <=? byteLength (stdout encoded))
        (invalid_ [js "evidence output reached the "; dec encodedCap; js "-byte cap and may be truncated: "; path]);
  let bytes := base64_decode (List.filter (fun c => negb (is_ws c)) (stdout encoded)) in
  _ ← throw_when (MAX_KEPT_FILE_BYTES <? Z.of_nat (length bytes))
        (invalid_ [js "evidence file exceeds "; dec MAX_KEPT_FILE_BYTES; js " bytes: "; path]);
  mret bytes.

Definition keep_file (worker stageDir path : jsstr) (k : Kept) : M Kept :=
  relative ← lift (evidence_path path);
  _ ← check_canonical worker path relative;
  _ ← throw_when (mem (worker_path relative) (kp_seen k)) (invalid "evidence paths must be unique");
  _ ← check_regular worker path relative;
  bytes ← read_evidence worker path relative;
  let total := kp_total k + Z.of_nat (length bytes) in
  _ ← throw_when (MAX_KEPT_TOTAL_BYTES <? total) (invalid_ [js "evidence set exceeds "; dec MAX_KEPT_TOTAL_BYTES; js " bytes"]);
  let evidenceRelative := drop (length ADVISOR_DIR) relative in
  let destination := join [stageDir; evidenceRelative] in
  _ ← privateDir (join [destination; js ".."]);
  _ ← writeExclusive destination bytes;
  mret (mkKept (worker_path relative :: kp_seen k) total (kp_files k ++ [(evidenceRelative, digest_of bytes)])).

Fixpoint keep_files (worker stageDir : jsstr) (paths : list jsstr) (k : Kept) : M Kept :=
  match paths with
  | [] => mret k
  | path :: paths => k ← keep_file worker stageDir path k; keep_files worker stageDir paths k
  end.
End timed.

(** ** The publication *)
Definition files_json (files : list kept_file) : jsval :=
  JArr (map (fun f => JObj [(js "path", JStr (fst f)); (js "sha256", JStr (snd f))]) files).
Definition manifest_bytes (id : jsstr) (snapshot : jsstr * jsstr) (observed : jsval) (files : list kept_file) : list N :=
  utf8_encode (json_indented (JObj [(js "schema", JStr (js "advisor-evidence/v1")); (js "requestId", JStr id);
    (js "snapshot", JObj [(js "commit", JStr (fst snapshot)); (js "tree", JStr (snd snapshot))]);
    (js "observedWorkerHead", observed); (js "evidenceTiming", JStr (js "post-snapshot")); (js "files", files_json files)]) ++ [10%N]).

Definition already_kept : exn := policy_error (js "evidence was already kept for this request").
Definition answered_before : exn := policy_error (js "evidence cannot be kept after the request was answered").
Definition taken_as_kept {A} (m : M A) : M A := try_catch m (fun e => if has_code e "EEXIST" then throw already_kept else throw e).

Definition rmrf (path : jsstr) : M unit := call_unit E (CRm path).

(** The staged files and their manifest, up to the reservation of the name. *)
Definition stage_evidence (startedAt : Z) (worker id stageDir finalDir reservationDir : jsstr) (paths : list jsstr)
    (snapshot : jsstr * jsstr) (observed : jsval) : M (list kept_file * list N) :=
  kept ← keep_files startedAt worker stageDir paths (mkKept [] 0 []);
  let manifest := manifest_bytes id snapshot observed (kp_files kept) in
  _ ← writeExclusive (join [stageDir; js "manifest.json"]) manifest;
  exists_ ← call_bool E (CExists finalDir);
  _ ← throw_when exists_ already_kept;
  _ ← taken_as_kept (call_unit E (CMkdirOne reservationDir 448));
  mret (kp_files kept, manifest).

Definition publish_evidence (projectId id stageDir finalDir reservationDir : jsstr) : M unit :=
  _ ← taken_as_kept (call_unit E (CChmod reservationDir 448));
  _ ← call_unit E (CRename stageDir finalDir);
  d ← records projectId;
  if bool_decide (is_Some (d_responses d !! id)) then _ ← rmrf finalDir; throw answered_before else mret tt.

(** [try { ... } catch { rm stage; throw } finally { if (reserved) rm reservation }] *)
Definition staged_and_published (startedAt : Z) (projectId worker id stageDir finalDir reservationDir : jsstr) (paths : list jsstr)
    (snapshot : jsstr * jsstr) (observed : jsval) : M (list kept_file * list N) :=
  staged ← try_catch (stage_evidence startedAt worker id stageDir finalDir reservationDir paths snapshot observed)
             (fun e => _ ← rmrf stageDir; throw e);
  _ ← try_finally
        (try_catch (publish_evidence projectId id stageDir finalDir reservationDir) (fun e => _ ← rmrf stageDir; throw e))
        (rmrf reservationDir);
  mret staged.

(** ** The operation *)

(** The session and its worker, for a request it claimed that is not over. *)
Definition keeping_session (req : BrokerRequestEnvelope) (projectId : jsstr) : M (SessionRecord * jsstr) :=
  found ← store_get (req_sessionID req);
  let refused := policy_error (js "evidenceKeep requires the calling advisor's active worker") in
  match found with
  | Some session =>
      match truthy (workerName session) with
      | Some worker =>
          if bool_decide (projectID session = Some projectId) && bool_decide (state session = SANDBOX_ACTIVE)
          then mret (session, worker) else throw refused
      | None => throw refused
      end
  | None => throw refused
  end.

Definition check_claim (sid id : jsstr) (request : StoredRequest) (projectId : jsstr) : M unit :=
  now ← call_int E CNow;
  _ ← throw_when (rq_expiresAt request <? now) expired_error;
  d ← records projectId;
  _ ← throw_when (bool_decide (is_Some (d_responses d !! id))) answered_before;
  match d_claims d !! id with
  | None => throw (policy_error (js "advisory request is not claimed; read it first"))
  | Some claim => throw_when (negb (str_eqb (cl_session claim) sid)) other_claim_error
  end.

Definition evidenceKeep (req : BrokerRequestEnvelope) : M jsval :=
  p ← lift (payloadOf req);
  projectId ← lift (advisorProject (req_sessionID req) "evidenceKeep");
  id ← lift (matching (field p (js "requestId")) ID_RE id_text (js "requestId"));
  paths ← lift (kept_paths (field p (js "paths")));
  startedAt ← call_int E CNow;
  requestDir ← requestsDir projectId;
  d ← records projectId;
  request ← lift (loadRequest d id);
  session ← keeping_session req projectId;
  let '(session, worker) := session in
  _ ← check_claim (req_sessionID req) id request projectId;
  snapshot ← pinned_snapshot startedAt session projectId;
  observed ← observed_head startedAt worker;
  let evidenceRoot := join [requestDir; js "evidence"] in
  _ ← privateDir evidenceRoot;
  let finalDir := join [evidenceRoot; id] in
  exists_ ← call_bool E (CExists finalDir);
  _ ← throw_when exists_ already_kept;
  random ← call_text E (CRandomHex 6);
  let stageDir := join [evidenceRoot; js ".tmp-" ++ id ++ js "-" ++ random] in
  _ ← privateDir stageDir;
  staged ← staged_and_published startedAt projectId worker id stageDir finalDir (join [evidenceRoot; js ".reserve-" ++ id]) paths
             snapshot observed;
  let '(files, manifest) := staged in
  mret (JObj [(js "requestId", JStr id);
              (js "evidence", JObj [(js "dir", JStr finalDir); (js "manifestSha256", JStr (digest_of manifest));
                                    (js "files", files_json files)])]).
End keep.

(** ** Paths *)
Lemma norm_fold_subset b segs out x : x ∈ fold_left (norm_step b) segs out -> x ∈ out \/ x ∈ segs.
Proof.
  revert out. induction segs as [|seg segs IH]; cbn [fold_left]; intros out H; [by left|].
  destruct (IH _ H) as [H1|H1]; [|right; by right]. rewrite norm_step_eqs in H1.
  case_decide; [by left|]. case_decide as Hd.
  - subst seg. destruct out as [|top out].
    + destruct b; [|by left]. apply list_elem_of_singleton in H1 as ->. right. left.
    + case_decide; [destruct b; [|by left]|left; by right].
      apply elem_of_cons in H1 as [->|H1]; [right; left | by left].
  - apply elem_of_cons in H1 as [->|H1]; [right; left | by left].
Qed.

Lemma normalize_no_dotdot p :
  isAbsolute p = false -> DOTDOT ∉ split_on SLASH p -> DOTDOT ∉ split_on SLASH (normalize p).
Proof.
  intros Ha Hp. destruct p as [|c p]; [by apply (bool_decide_unpack _); vm_compute|].
  unfold normalize. rewrite Ha. cbn [negb]. unfold normalizeString, norm_segs. set (segs := rev (fold_left _ _ _)).
  assert (forall x, x ∈ segs -> x ∈ split_on SLASH (c :: p)) as Hsub.
  { intros x Hx%list_elem_of_In%in_rev%list_elem_of_In. apply norm_fold_subset in Hx as [Hx|Hx]; [|done].
    by apply not_elem_of_nil in Hx. }
  assert (Forall (fun w => SLASH ∉ w) segs) as Hslash.
  { apply Forall_forall. intros x Hx. by eapply split_on_no_sep, Hsub. }
  destruct segs as [|w ws] eqn:Es; cbn [join_with].
  { destruct (endsWith _ _); by apply (bool_decide_unpack _); vm_compute. }
  assert (DOTDOT ∉ split_on SLASH (join_with [SLASH] (w :: ws))) as Hj.
  { rewrite split_on_join by done. intros H. by apply Hp, Hsub. }
  change (match ws with [] => w | _ :: _ => w ++ [SLASH] ++ join_with [SLASH] ws end) with (join_with [SLASH] (w :: ws)).
  destruct (join_with [SLASH] (w :: ws)) as [|d body] eqn:Ej.
  { destruct (endsWith _ _); by apply (bool_decide_unpack _); vm_compute. }
  destruct (endsWith _ _); [|done]. rewrite (split_on_app SLASH (d :: body) []). intros [H|H]%elem_of_app; [done|].
  by apply list_elem_of_singleton in H.
Qed.

Lemma evidence_path_Ok path relative :
  evidence_path path = Ok relative -> startsWith relative ADVISOR_DIR = true /\ DOTDOT ∉ split_on SLASH relative.
Proof.
  unfold evidence_path, throw_if. destruct (negb (startsWith path ADVISOR_DIR) || _) eqn:H1; [done|]. cbn [mbind res_bind].
  destruct (mem (js "..") (split_on SLASH path)) eqn:H2; [done|]. cbn [mbind res_bind].
  destruct (_ || _ || _) eqn:H3; [done|]. cbn [mbind res_bind]. destruct (str_eqb (normalize path) (js ".advisor/manifest.json")); cbn [mbind res_bind]; [done|]. intros [= <-].
  apply orb_false_iff in H3 as [H3 _]. apply orb_false_iff in H3 as [H3 _]. apply negb_false_iff in H3. split; [done|].
  apply normalize_no_dotdot; [|by apply mem_false in H2].
  apply orb_false_iff in H1 as [H1 _]. apply negb_false_iff, startsWith_spec in H1 as [r ->]. reflexivity.
Qed.

(** ** Safety *)

(** What [evidenceKeep] runs in the worker: it only reads. *)
Definition realpath_argv (relative : jsstr) : list jsstr := map js ["realpath"; "-e"; "--"]%string ++ [worker_path relative].
Definition stat_argv (relative : jsstr) : list jsstr := map js ["stat"; "-c"; "%F"; "--"]%string ++ [worker_path relative].
Definition print_argv (relative : jsstr) : list jsstr := map js ["base64"; "-w"; "0"; "--"]%string ++ [worker_path relative].
Definition advisory_file (relative : jsstr) : Prop := startsWith relative ADVISOR_DIR = true /\ DOTDOT ∉ split_on SLASH relative.
Definition worker_read (argv : list jsstr) : Prop :=
  (exists rev, argv = map js ["git"; "-C"; "/work"; "rev-parse"; "--verify"; rev]%string) \/
  (exists relative, advisory_file relative /\ argv ∈ [realpath_argv relative; stat_argv relative; print_argv relative]).

Definition written (t : list event) : Z :=
  foldr (fun e n => match call_of e with CWriteBytes _ bytes => Z.of_nat (length bytes) + n | _ => n end) 0 t.

Definition manifest_path (stageDir : jsstr) : jsstr := join [stageDir; js "manifest.json"].
Definition staged_path (stageDir relative : jsstr) : jsstr := join [stageDir; drop (length ADVISOR_DIR) relative].
Definition decoded_output (p : SpawnResult) : list N := base64_decode (List.filter (fun c => negb (is_ws c)) (stdout p)).

(** A file staged is one the worker resolved to itself, found regular and
    printed whole, within the limits. *)
Definition answered_by (worker : jsstr) (argv : list jsstr) (p : SpawnResult) (t : list event) : Prop :=
  exists opts, EvProc (CExec worker argv opts) (Ok p) ∈ t /\ status p = Some 0.
Definition checked_file (pre : list event) (path : jsstr) (bytes : list N) : Prop :=
  exists stageDir worker relative canonical stat encoded,
    path = staged_path stageDir relative /\ advisory_file relative /\
    answered_by worker (realpath_argv relative) canonical pre /\ trim (stdout canonical) = worker_path relative /\
    answered_by worker (stat_argv relative) stat pre /\
    trim (stdout stat) ∈ map js ["regular file"; "regular empty file"]%string /\
    answered_by worker (print_argv relative) encoded pre /\ byteLength (stdout encoded) < encodedCap /\
    bytes = decoded_output encoded /\ Z.of_nat (length bytes) <= MAX_KEPT_FILE_BYTES /\
    written pre + Z.of_nat (length bytes) <= MAX_KEPT_TOTAL_BYTES.

Definition evidence_safe (pre : list event) (e : event) : Prop :=
  match call_of e with
  | CExec worker argv opts => worker_read argv
  | CGit argv opts => exists rev, argv = map js ["git"; "rev-parse"; "--verify"]%string ++ [rev]
  | CWriteBytes path bytes => (exists stageDir, path = manifest_path stageDir) \/ checked_file pre path bytes
  | CRename source target =>
      EvBool (CExists target) (Ok false) ∈ pre /\
      (exists manifest, EvUnit (CWriteBytes (manifest_path source) manifest) (Ok tt) ∈ pre) /\
      (exists reservation, EvUnit (CMkdirOne reservation 448) (Ok tt) ∈ pre)
  | CRm path =>
      EvUnit (CMkdir path) (Ok tt) ∈ pre \/ EvUnit (CMkdirOne path 448) (Ok tt) ∈ pre \/
      exists source, EvUnit (CRename source path) (Ok tt) ∈ pre
  | CMkdir _ | CMkdirOne _ _ | CChmod _ _ | CExists _ | CRandomHex _ | CNow | COpenExclusive _ _ | CCloseFd _ => True
  | _ => False
  end.

(** A call that is safe whatever came before, and writes nothing. *)
Definition harmless_call (c : call) : Prop :=
  match c with
  | CExec worker argv opts => worker_read argv
  | CGit argv opts => exists rev, argv = map js ["git"; "rev-parse"; "--verify"]%string ++ [rev]
  | CMkdir _ | CMkdirOne _ _ | CChmod _ _ | CExists _ | CRandomHex _ | CNow | COpenExclusive _ _ | CCloseFd _ => True
  | _ => False
  end.

Lemma calm_safe pre e : harmless_call (call_of e) -> evidence_safe pre e.
Proof. unfold harmless_call, evidence_safe. by destruct (call_of e). Qed.

Lemma calm_each pre t : Forall (fun e => harmless_call (call_of e)) t -> each evidence_safe pre t.
Proof. intros H. revert pre. induction H as [|e t He Ht IH]; intros pre; cbn [each]; [done|]. split; [by apply calm_safe | apply IH]. Qed.

Lemma written_app t u : written (t ++ u) = written t + written u.
Proof. unfold written. induction t as [|e t IH]; cbn; [done|]. rewrite IH. destruct (call_of e); lia. Qed.

Lemma calm_written t : Forall (fun e => harmless_call (call_of e)) t -> written t = 0.
Proof. unfold written. induction 1 as [|e t He Ht IH]; cbn; [done|]. rewrite IH. by destruct (call_of e). Qed.

(** The trace only grows, and a harmless run writes nothing. *)
Definition extended (pre : list event) (tr : list event) : Prop := exists t, tr = pre ++ t.

Lemma traced_grown {A} P pre (m : M A) Q : traced P pre m Q -> traced P pre m (fun r tr => extended pre tr /\ Q r tr).
Proof. intros H w. eapply wp_mono; [apply H|]. intros r w' t [He Hq]. split; [done|]. split; [by exists t | done]. Qed.

Lemma traced_calm {A} pre (m : M A) (Q : res A -> list event -> Prop) :
  only_calls harmless_call m -> always m Q ->
  traced evidence_safe pre m (fun r tr => exists t, tr = pre ++ t /\ written tr = written pre /\ Q r t).
Proof.
  intros Hc Hq w. specialize (Hc w). specialize (Hq w). unfold wp in *. destruct (m w) as [[r w'] t].
  split; [by apply calm_each|]. exists t. split; [done|]. split; [|done]. assert (written (pre ++ t) = written pre + written t) as -> by apply written_app. rewrite (calm_written t) by done. lia.
Qed.

Lemma traced_calm_only {A} pre (m : M A) :
  only_calls harmless_call m -> traced evidence_safe pre m (fun r tr => extended pre tr /\ written tr = written pre).
Proof.
  intros H. eapply traced_mono; [apply (traced_calm _ _ (fun _ _ => True) H)|].
  - intros w. unfold wp. by destruct (m w) as [[r w'] t].
  - intros r tr (t & -> & Hw & _). split; [by exists t | done].
Qed.

Section facts.
  Context (ctx : OpContext) (sha256_hex : list N -> jsstr) (advisorStore : world -> AdvisorStore).
  Context (startedAt : Z).

(** ** One file *)
Lemma always_in_worker worker cap argv :
  always (in_worker ctx startedAt worker cap argv) (fun r t => forall p, r = Ok p -> EvProc (CExec worker argv (evidence_opts cap)) (Ok p) ∈ t).
Proof.
  unfold in_worker, watched. apply always_bind, always_call_proc. intros [a|e]; [|done].
  apply always_bind. eapply always_mono; [apply always_true|]. intros [[]|e] t _; [|done].
  apply always_ret. intros p [= <-]. left.
Qed.

Lemma only_in_worker (P : call -> Prop) worker cap argv :
  P CNow -> P (CExec worker argv (evidence_opts cap)) -> only_calls P (in_worker ctx startedAt worker cap argv).
Proof. intros Hn Hp. unfold in_worker, watched, checkDeadline. by repeat only_step. Qed.

Lemma answered_app worker argv p t u : answered_by worker argv p t -> answered_by worker argv p (t ++ u).
Proof. intros (opts & H & Hs). exists opts. split; [apply elem_of_app; by left | done]. Qed.
Lemma answered_tail worker argv p t u : answered_by worker argv p u -> answered_by worker argv p (t ++ u).
Proof. intros (opts & H & Hs). exists opts. split; [apply elem_of_app; by right | done]. Qed.

Lemma ok_status_zero p : ok_status p = true -> status p = Some 0.
Proof. apply bool_decide_eq_true. Qed.

Lemma always_canonical worker path relative :
  always (check_canonical ctx startedAt worker path relative) (fun r t => r = Ok tt ->
    exists p, answered_by worker (realpath_argv relative) p t /\ trim (stdout p) = worker_path relative).
Proof.
  unfold check_canonical. apply always_bind. eapply always_mono; [apply always_true|]. intros [[]|e] t0 _; [|done].
  apply always_bind. eapply always_mono; [apply always_in_worker|]. intros [p|e] t1 Hp; [|done].
  apply always_bind, always_throw_when; [done|]. intros Hok%negb_false_iff. apply always_throw_when; [done|].
  intros Heq%negb_false_iff%str_eqb_eq _. exists p. split; [|done]. rewrite app_nil_l, app_nil_r.
  apply answered_tail. eexists. split; [by apply Hp | by apply ok_status_zero].
Qed.

Lemma always_regular worker path relative :
  always (check_regular ctx startedAt worker path relative) (fun r t => r = Ok tt ->
    exists p, answered_by worker (stat_argv relative) p t /\ trim (stdout p) ∈ map js ["regular file"; "regular empty file"]%string).
Proof.
  unfold check_regular. apply always_bind. eapply always_mono; [apply always_in_worker|]. intros [p|e] t1 Hp; [|done].
  apply always_throw_when; [done|]. intros [Hok%negb_false_iff Hm%negb_false_iff]%orb_false_iff _. exists p.
  split; [|by apply mem_true]. rewrite app_nil_r. eexists. split; [by apply Hp | by apply ok_status_zero].
Qed.

Lemma always_read worker path relative :
  always (read_evidence ctx startedAt worker path relative) (fun r t => forall bytes, r = Ok bytes ->
    exists p, answered_by worker (print_argv relative) p t /\ byteLength (stdout p) < encodedCap /\
      bytes = decoded_output p /\ Z.of_nat (length bytes) <= MAX_KEPT_FILE_BYTES).
Proof.
  unfold read_evidence. apply always_bind. eapply always_mono; [apply always_in_worker|]. intros [p|e] t1 Hp; [|done].
  apply always_bind, always_throw_when; [done|]. intros Hok%negb_false_iff.
  apply always_bind, always_throw_when; [done|]. intros Hcap%Z.leb_gt. cbv zeta. fold (decoded_output p).
  apply always_bind, always_throw_when; [done|]. intros Hsize%Z.ltb_ge. apply always_ret. intros bytes [= <-].
  exists p. split_and!; [|done|done|done]. rewrite !app_nil_r. eexists. split; [by apply Hp | by apply ok_status_zero].
Qed.

Lemma only_canonical worker path relative : advisory_file relative -> only_calls harmless_call (check_canonical ctx startedAt worker path relative).
Proof.
  intros Ha. unfold check_canonical, checkDeadline. apply only_bind; [by repeat only_step|intros _].
  apply only_bind; [|intros p; by repeat only_step]. apply only_in_worker; [done|]. right. exists relative. split; [done|left].
Qed.
Lemma only_regular worker path relative : advisory_file relative -> only_calls harmless_call (check_regular ctx startedAt worker path relative).
Proof.
  intros Ha. unfold check_regular. apply only_bind; [|intros p; by repeat only_step].
  apply only_in_worker; [done|]. right. exists relative. split; [done|right; left].
Qed.
Lemma only_read worker path relative : advisory_file relative -> only_calls harmless_call (read_evidence ctx startedAt worker path relative).
Proof.
  intros Ha. unfold read_evidence. apply only_bind; [|intros p; by repeat only_step].
  apply only_in_worker; [done|]. right. exists relative. split; [done|right; right; left].
Qed.

Lemma only_privateDir path : only_calls harmless_call (privateDir ctx path).
Proof. unfold privateDir. by repeat only_step. Qed.

Lemma checked_file_mono pre tr path bytes :
  checked_file pre path bytes -> extended pre tr -> written tr = written pre -> checked_file tr path bytes.
Proof.
  intros (s & w & rel & c & st & en & Hp & Ha & Hc & Hct & Hst & Hstt & Hen & Henc & Hb & Hl & Hw) [t ->] Heq.
  exists s, w, rel, c, st, en. rewrite Heq. split_and!; try done; by apply answered_app.
Qed.

Lemma grown_refl pre : extended pre pre.
Proof. exists []. by rewrite app_nil_r. Qed.
Lemma grown_trans a b c : extended a b -> extended b c -> extended a c.
Proof. intros [t ->] [u ->]. exists (t ++ u). by rewrite app_assoc. Qed.
Lemma grown_in e pre tr : extended pre tr -> e ∈ pre -> e ∈ tr.
Proof. intros [t ->] H. apply elem_of_app. by left. Qed.
Lemma grown_snoc pre e : extended pre (pre ++ [e]).
Proof. by exists [e]. Qed.

Lemma written_snoc pre e : harmless_call (call_of e) -> written (pre ++ [e]) = written pre.
Proof. intros H. rewrite written_app, (calm_written [e]) by (by constructor). lia. Qed.

(** What an exclusive write needs and leaves. *)
Definition wrote (pre : list event) (path : jsstr) (bytes : list N) (tr : list event) : Prop :=
  written tr = written pre + Z.of_nat (length bytes) /\ EvUnit (CWriteBytes path bytes) (Ok tt) ∈ tr.

Lemma traced_writeExclusive pre path bytes :
  (forall tr, extended pre tr -> written tr = written pre ->
     (exists stageDir, path = manifest_path stageDir) \/ checked_file tr path bytes) ->
  traced evidence_safe pre (writeExclusive ctx path bytes) (fun r tr => extended pre tr /\ (r = Ok tt -> wrote pre path bytes tr)).
Proof.
  intros Hsafe. unfold writeExclusive. apply traced_bind, traced_call_unit; [done|]. intros [[]|e]; [|split; [apply grown_snoc | done]].
  apply traced_bind, traced_try_finally, traced_call_unit.
  { intros r. unfold evidence_safe. cbn. apply Hsafe; [apply grown_snoc | by apply written_snoc]. }
  intros r. apply traced_call_unit; [done|]. intros r2.
  assert (forall t, extended pre (((pre ++ [EvUnit (COpenExclusive path 384) (Ok tt)]) ++ t))) as Hg.
  { intros t. eapply grown_trans; [apply grown_snoc | by exists t]. }
  destruct r2 as [[]|e]; [destruct r as [[]|e]|]; try (split; [rewrite <- app_assoc; apply Hg | done]).
  apply traced_call_unit; [done|]. intros r3. split; [rewrite <- !app_assoc; rewrite app_assoc; apply Hg|]. intros _. split.
  - rewrite !written_app. unfold written at 2 3 4 5. cbn. lia.
  - do 2 (apply elem_of_app; left). apply elem_of_app. right. left.
Qed.

Definition new_file (stageDir : jsstr) (tr : list event) (f : kept_file) : Prop :=
  exists bytes, EvUnit (CWriteBytes (join [stageDir; fst f]) bytes) (Ok tt) ∈ tr /\ snd f = digest_of sha256_hex bytes.

Lemma traced_keep_file pre worker stageDir path k :
  written pre = kp_total k ->
  traced evidence_safe pre (keep_file ctx sha256_hex startedAt worker stageDir path k) (fun r tr => extended pre tr /\
    forall k', r = Ok k' -> written tr = kp_total k' /\ exists f, kp_files k' = kp_files k ++ [f] /\ new_file stageDir tr f).
Proof.
  intros Hk. unfold keep_file. apply traced_bind, traced_lift.
  destruct (evidence_path path) as [relative|e] eqn:Hrel; [|split; [apply grown_refl | done]].
  apply evidence_path_Ok in Hrel. fold (advisory_file relative) in Hrel.
  apply traced_bind. eapply traced_mono; [apply (traced_calm _ _ _ (only_canonical _ _ _ Hrel) (always_canonical _ _ _))|].
  intros [[]|e] tr1 (t1 & -> & Hw1 & H1); [|split; [by exists t1 | done]]. destruct (H1 eq_refl) as (canonical & Hc1 & Hc2). clear H1.
  apply traced_bind, traced_throw_when; [split; [by exists t1 | done]|]. intros _.
  apply traced_bind. eapply traced_mono; [apply (traced_calm _ _ _ (only_regular _ _ _ Hrel) (always_regular _ _ _))|].
  intros [[]|e] tr2 (t2 & -> & Hw2 & H2); [|split; [exists (t1 ++ t2); by rewrite app_assoc | done]].
  destruct (H2 eq_refl) as (stat & Hs1 & Hs2). clear H2.
  apply traced_bind. eapply traced_mono; [apply (traced_calm _ _ _ (only_read _ _ _ Hrel) (always_read _ _ _))|].
  assert (extended pre ((pre ++ t1) ++ t2)) as Hg2 by (exists (t1 ++ t2); by rewrite app_assoc).
  intros [bytes|e] tr3 (t3 & -> & Hw3 & H3); [|split; [eapply grown_trans; [exact Hg2 | by exists t3] | done]].
  destruct (H3 _ eq_refl) as (encoded & He1 & He2 & He3 & He4). clear H3.
  assert (extended pre (((pre ++ t1) ++ t2) ++ t3)) as Hg3 by (eapply grown_trans; [exact Hg2 | by exists t3]).
  set (tr := ((pre ++ t1) ++ t2) ++ t3) in *. assert (written tr = written pre) as Hw by lia.
  apply traced_bind, traced_throw_when; [done|]. intros Htotal%Z.ltb_ge.
  assert (checked_file tr (staged_path stageDir relative) bytes) as Hchecked.
  { exists stageDir, worker, relative, canonical, stat, encoded. subst tr.
    split_and!; try done; [by apply answered_app, answered_app, answered_tail | by apply answered_app, answered_tail | by apply answered_tail | lia]. }
  clearbody tr. clear Hc1 Hc2 Hs1 Hs2 He1 Hw1 Hw2 Hw3.
  apply traced_bind. eapply traced_mono; [apply traced_calm_only, only_privateDir|].
  intros [[]|e] tr4 [Hg4 Hw4]; [|split; [by eapply grown_trans | done]].
  apply traced_bind. eapply traced_mono; [apply traced_writeExclusive|].
  { intros tr5 Hg5 Hw5. right. eapply checked_file_mono; [exact Hchecked | by eapply grown_trans | lia]. }
  intros [[]|e] tr6 [Hg6 Hwrote]; [|split; [by eapply grown_trans; [|eapply grown_trans] | done]].
  destruct (Hwrote eq_refl) as [Hw6 Hin]. apply traced_ret.
  split; [by eapply grown_trans; [|eapply grown_trans]|]. intros k' [= <-]. cbn.
  split; [lia|]. eexists. split; [done|]. by exists bytes.
Qed.

Lemma traced_keep_files worker stageDir paths : forall pre k,
  written pre = kp_total k -> Forall (new_file stageDir pre) (kp_files k) ->
  traced evidence_safe pre (keep_files ctx sha256_hex startedAt worker stageDir paths k) (fun r tr => extended pre tr /\
    forall k', r = Ok k' -> Forall (new_file stageDir tr) (kp_files k') /\ length (kp_files k') = (length (kp_files k) + length paths)%nat).
Proof.
  induction paths as [|path paths IH]; intros pre k Hk Hf; cbn [keep_files].
  { apply traced_ret. split; [apply grown_refl|]. intros k' [= <-]. cbn. by rewrite Nat.add_0_r. }
  apply traced_bind. eapply traced_mono; [by apply traced_keep_file|].
  intros [k1|e] tr [Hg H]; [|done]. destruct (H _ eq_refl) as (Hw & f & Hfs & Hnew). clear H.
  eapply traced_mono; [apply IH; [done|]|].
  - rewrite Hfs. apply Forall_app. split; [|by constructor].
    eapply Forall_impl; [exact Hf|]. intros g (bytes & Hin & Hd). exists bytes. split; [by eapply grown_in | done].
  - intros r tr' [Hg' H]. split; [by eapply grown_trans|]. intros k' Hr. destruct (H _ Hr) as [Hfiles Hlen]. split; [done|].
    rewrite Hlen, Hfs, length_app. cbn. lia.
Qed.

(** ** Staging and publication *)
Definition staged_files (stageDir : jsstr) (n : nat) (staged : list kept_file * list N) (tr : list event) : Prop :=
  Forall (new_file stageDir tr) (fst staged) /\ length (fst staged) = n /\
  EvUnit (CWriteBytes (manifest_path stageDir) (snd staged)) (Ok tt) ∈ tr.

Definition name_free (finalDir reservationDir : jsstr) (tr : list event) : Prop :=
  EvBool (CExists finalDir) (Ok false) ∈ tr /\ EvUnit (CMkdirOne reservationDir 448) (Ok tt) ∈ tr.

Lemma traced_stage pre worker id stageDir finalDir reservationDir paths snapshot observed :
  written pre = 0 ->
  traced evidence_safe pre (stage_evidence ctx sha256_hex startedAt worker id stageDir finalDir reservationDir paths snapshot observed)
    (fun r tr => extended pre tr /\ forall staged, r = Ok staged ->
       staged_files stageDir (length paths) staged tr /\ name_free finalDir reservationDir tr).
Proof.
  intros Hw. unfold stage_evidence. apply traced_bind. eapply traced_mono; [apply traced_keep_files; [done | constructor]|].
  intros [k|e] tr1 [Hg1 H1]; [|done]. destruct (H1 _ eq_refl) as [Hfiles Hlen]. clear H1. cbv zeta.
  set (manifest := manifest_bytes _ _ _ _).
  apply traced_bind. eapply traced_mono; [apply traced_writeExclusive; intros; left; by exists stageDir|].
  intros [[]|e] tr2 [Hg2 H2]; [|split; [by eapply grown_trans | done]]. destruct (H2 eq_refl) as [_ Hman]. clear H2.
  assert (extended pre tr2) as Hg by (by eapply grown_trans).
  apply traced_bind, traced_call_bool; [done|]. intros [b|e]; [|split; [by eapply grown_trans, grown_snoc | done]].
  apply traced_bind, traced_throw_when; [split; [by eapply grown_trans, grown_snoc | done]|]. intros ->.
  unfold taken_as_kept. apply traced_bind, traced_try_catch, traced_call_unit; [done|].
  set (tr3 := tr2 ++ [EvBool (CExists finalDir) (Ok false)]) in *.
  assert (extended pre tr3) as Hg3 by (by eapply grown_trans, grown_snoc).
  intros [[]|e].
  - apply traced_ret. split; [by eapply grown_trans, grown_snoc|]. intros staged [= <-]. cbn [fst snd]. split; [split_and!|split].
    + eapply Forall_impl; [exact Hfiles|]. intros f (bytes & Hin & Hd). exists bytes. split; [|done].
      do 2 (apply elem_of_app; left). by eapply (grown_in _ tr1).
    + done.
    + by do 2 (apply elem_of_app; left).
    + apply elem_of_app. left. apply elem_of_app. right. left.
    + apply elem_of_app. right. left.
  - destruct (has_code e "EEXIST"); apply traced_throw; (split; [by eapply grown_trans, grown_snoc | done]).
Qed.

Lemma traced_rmrf {A} pre path e (Q : res A -> list event -> Prop) :
  evidence_safe pre (EvUnit (CRm path) (Ok tt)) -> (forall e' tr, extended pre tr -> Q (Throw e') tr) ->
  traced evidence_safe pre (_ ← rmrf ctx path; throw e) Q.
Proof.
  intros Hs Hq. unfold rmrf. apply traced_bind, traced_call_unit; [done|]. intros [[]|e1]; [apply traced_throw|]; apply Hq, grown_snoc.
Qed.

Lemma traced_publish pre projectId id stageDir finalDir reservationDir manifest :
  name_free finalDir reservationDir pre -> EvUnit (CWriteBytes (manifest_path stageDir) manifest) (Ok tt) ∈ pre ->
  traced evidence_safe pre (publish_evidence ctx advisorStore projectId id stageDir finalDir reservationDir)
    (fun r tr => extended pre tr /\ (r = Ok tt -> EvUnit (CRename stageDir finalDir) (Ok tt) ∈ tr)).
Proof.
  intros [Hfree Hres] Hman. unfold publish_evidence, taken_as_kept. apply traced_bind, traced_try_catch, traced_call_unit; [done|].
  intros [[]|e]; [|destruct (has_code e "EEXIST"); apply traced_throw; (split; [apply grown_snoc | done])].
  set (tr1 := pre ++ [_]). assert (extended pre tr1) as Hg1 by apply grown_snoc.
  apply traced_bind, traced_call_unit.
  { intros r. unfold evidence_safe. cbn. split_and!; [by eapply grown_in| |]; eexists; by eapply grown_in. }
  intros [[]|e]; [|split; [by eapply grown_trans, grown_snoc | done]].
  set (tr2 := tr1 ++ [_]). assert (extended pre tr2) as Hg2 by (by eapply grown_trans, grown_snoc).
  assert (EvUnit (CRename stageDir finalDir) (Ok tt) ∈ tr2) as Hin by (apply elem_of_app; right; left).
  unfold records. apply traced_bind, traced_ask. intros d. destruct (bool_decide _).
  - apply traced_rmrf; [right; right; by exists stageDir|]. intros e' tr Hg. split; [by eapply grown_trans | done].
  - by apply traced_ret.
Qed.

Lemma traced_staged_and_published pre projectId worker id stageDir finalDir reservationDir paths snapshot observed :
  written pre = 0 -> EvUnit (CMkdir stageDir) (Ok tt) ∈ pre ->
  traced evidence_safe pre (staged_and_published ctx sha256_hex advisorStore startedAt projectId worker id stageDir finalDir reservationDir
      paths snapshot observed)
    (fun r tr => extended pre tr /\ forall staged, r = Ok staged ->
       staged_files stageDir (length paths) staged tr /\ EvUnit (CRename stageDir finalDir) (Ok tt) ∈ tr).
Proof.
  intros Hw Hdir. unfold staged_and_published. apply traced_bind, traced_try_catch. eapply traced_mono; [by apply traced_stage|].
  intros [staged|e] tr [Hg H].
  2: { apply traced_rmrf; [left; by eapply grown_in|]. intros e' tr' Hg'. split; [by eapply grown_trans | done]. }
  destruct (H _ eq_refl) as [(Hf & Hl & Hm) Hfree]. clear H.
  apply traced_bind, traced_try_finally, traced_try_catch. eapply traced_mono; [by eapply traced_publish|].
  assert (forall tr' r, extended tr tr' -> (r = Ok tt -> EvUnit (CRename stageDir finalDir) (Ok tt) ∈ tr') ->
    traced evidence_safe tr' (rmrf ctx reservationDir) (fun r2 tr2 =>
      match (match r2 with Ok _ => r | Throw e => Throw e end) with
      | Ok _ => traced evidence_safe tr2 (mret staged) (fun r tr => extended pre tr /\ forall staged0, r = Ok staged0 ->
          staged_files stageDir (length paths) staged0 tr /\ EvUnit (CRename stageDir finalDir) (Ok tt) ∈ tr)
      | Throw e => extended pre tr2 /\ forall staged0, @Throw (list kept_file * list N) e = Ok staged0 ->
          staged_files stageDir (length paths) staged0 tr2 /\ EvUnit (CRename stageDir finalDir) (Ok tt) ∈ tr2
      end)) as Hlast.
  { intros tr' r Hg' Hr. apply traced_call_unit; [intros r2; right; left; destruct Hfree as [_ Hres]; by eapply grown_in|].
    assert (forall ev, extended tr (tr' ++ [ev])) as Hgs by (intros ev; by eapply grown_trans, grown_snoc).
    assert (forall ev, extended pre (tr' ++ [ev])) as Hgp by (intros ev; by eapply grown_trans).
    intros [[]|e]; [|done]. destruct r as [[]|e]; [|done]. apply traced_ret. split; [done|]. intros staged0 [= <-].
    split; [|apply elem_of_app; left; by apply Hr]. split_and!; [|done|by eapply (grown_in _ tr)].
    eapply Forall_impl; [exact Hf|]. intros f (bytes & Hin & Hd). exists bytes. split; [by eapply (grown_in _ tr) | done]. }
  intros [[]|e] tr' [Hg' Hr]; [by apply Hlast|].
  apply traced_rmrf; [left; do 2 (eapply grown_in; [done|]); done|]. intros e' tr'' Hg''. apply Hlast; [by eapply grown_trans | done].
Qed.
End facts.

(** ** The operation *)
Lemma kept_paths_Ok v paths : kept_paths v = Ok paths -> Z.of_nat (length paths) <= MAX_KEPT_PATHS.
Proof.
  destruct v as [| | | | |items|]; try done. cbn. unfold throw_if. destruct (existsb _ _); [done|]. cbn [mbind res_bind].
  destruct (Z.ltb_spec MAX_KEPT_PATHS (Z.of_nat (length items))) as [|Hle]; cbn [mbind res_bind]; [done|]. intros [= <-].
  etransitivity; [|exact Hle]. apply inj_le. clear. induction items as [|[] items IH]; cbn; lia.
Qed.

Section operation.
  Context (ctx : OpContext) (sha256_hex : list N -> jsstr) (advisorStore : world -> AdvisorStore).

Lemma only_requestsDir projectId : only_calls harmless_call (requestsDir ctx projectId).
Proof. unfold requestsDir, privateDir. by repeat only_step. Qed.
Lemma only_keeping_session req projectId : only_calls harmless_call (keeping_session req projectId).
Proof. unfold keeping_session. by repeat only_step. Qed.
Lemma only_check_claim sid id request projectId : only_calls harmless_call (check_claim ctx advisorStore sid id request projectId).
Proof. unfold check_claim, records. by repeat only_step. Qed.
Lemma only_rev_parse startedAt root rev : only_calls harmless_call (rev_parse ctx startedAt root rev).
Proof. unfold rev_parse, watched, checkDeadline. repeat only_step; try done. by exists rev. Qed.
Lemma only_pinned_snapshot startedAt session projectId : only_calls harmless_call (pinned_snapshot ctx startedAt session projectId).
Proof. unfold pinned_snapshot. repeat only_step; apply only_rev_parse. Qed.
Lemma only_observed_head startedAt worker : only_calls harmless_call (observed_head ctx startedAt worker).
Proof.
  unfold observed_head, worker_rev. apply only_bind; [unfold checkDeadline; by repeat only_step|intros _].
  apply only_bind; [apply only_in_worker; [done|]; left; by eexists|intros head].
  apply only_bind; [apply only_in_worker; [done|]; left; by eexists|intros tree]. repeat only_step.
Qed.

(** An answer names what was written and published. *)
Definition kept_answer (v : jsval) (t : list event) : Prop :=
  exists id stageDir finalDir files manifest,
    v = JObj [(js "requestId", JStr id);
              (js "evidence", JObj [(js "dir", JStr finalDir); (js "manifestSha256", JStr (digest_of sha256_hex manifest));
                                    (js "files", files_json files)])] /\
    Z.of_nat (length files) <= MAX_KEPT_PATHS /\
    Forall (new_file sha256_hex stageDir t) files /\
    EvUnit (CWriteBytes (manifest_path stageDir) manifest) (Ok tt) ∈ t /\
    EvUnit (CRename stageDir finalDir) (Ok tt) ∈ t.

End operation.

(** A worker with one file, [.advisor/note.txt], and a link to it. *)
Definition advisor_name : jsstr := js "advisor-p-0011223344556677".
Definition last_of (argv : list jsstr) : jsstr := default [] (last argv).
Definition prints (s : jsstr) : SpawnResult := mkSpawn (Some 0) s [] false false false.
Definition noting_env : Environment :=
  mkEnv (fun c w => (match c with
           | CExec _ (cmd :: argv) _ =>
               Ok (if str_eqb cmd (js "realpath") then
                     prints (if str_eqb (last_of argv) (js "/work/.advisor/link") then js "/work/.advisor/note.txt" else last_of argv)
                   else if str_eqb cmd (js "stat") then prints (js "regular file")
                   else if str_eqb cmd (js "base64") then prints (js "aGk=") else prints [])
           | _ => Ok (prints [])
           end, w))
        (fun _ w => (Ok tt, w)) (fun _ w => (Ok false, w)) (fun _ w => (Ok (js "0a"), w))
        (fun _ w => (Ok 3000, w)) (fun _ w => (Ok [], w)) (fun _ w => (Ok (mkStats true false 1), w)).
Definition advisor_session : SessionRecord :=
  apply_patch [P_state SANDBOX_ACTIVE; P_projectID (Some (js "p")); P_workerName (Some (js "w"));
               P_snapshotIdentity (Some {| si_commit := sample_sha; si_tree := sample_sha; si_source := js "commit"; si_resultRef := None; si_headSha := sample_sha |})]
    (fresh_record advisor_name (js "t0")).
Definition kept_by (path : string) : res jsval * list event :=
  let '(r, _, t) := evidenceKeep (sample_ctx noting_env) (fun _ => js "d") (fun _ => after_read)
    (sample_advisory Op.evidenceKeep "advisor-p-0011223344556677" (JObj [(js "requestId", JStr sample_id); (js "paths", JArr [JStr (js path)])]))
    (sample_world {[ advisor_name := RFRecord advisor_session ]}) in (r, t).

Example keeps_a_file :
  exists v, fst (kept_by ".advisor/note.txt") = Ok v /\
    field (field v (js "evidence")) (js "files") = files_json [(js "note.txt", js "sha256:d")] /\
    existsb (fun e => match call_of e with CWriteBytes _ bytes => bool_decide (bytes = [104; 105]%N) | _ => false end) (snd (kept_by ".advisor/note.txt")) = true.
Proof. vm_compute. by eexists. Qed.

Example link_is_refused :
  fst (kept_by ".advisor/link") = Throw (invalid "evidence path contains a symlink or escapes /work/.advisor/").
Proof. by vm_compute. Qed.
