(* ===== verification/DispatchFacts.v ===== *)
(** * Theorems of the dispatch: one answer to a request, and the guard of the
    sandbox operations. *)
From Stdlib Require Import QArith.
From S2P Require Import Prelude JsVal Types State Policy Path Validation HostPaths Envelope.
From S2P Require Import RolePolicy GitOps Artifacts Queue Effects Worker WorkerFacts Results Diff Authorization.
From S2P Require Import Server FileOps TraceLogic HostSteps SandboxResult HostRead HostGit PlanDoc PlanDocOps PlanDocOpsFacts Queries TestRun Locks.
From S2P Require Import Advisor SddRuntime SddService SddFacts ReviewRun ReviewRunFacts ReviewService Dispatch.
Open Scope Z_scope.

Definition not_parked (r : res ensure_reply) : Prop := match r with Ok (Parked _) => False | _ => True end.

Lemma always_seq {A B} (m : M A) (f : A -> M B) (Q : res B -> Prop) :
  (forall e, Q (Throw e)) -> (forall a, always (f a) (fun r _ => Q r)) -> always (mbind f m) (fun r _ => Q r).
Proof.
  intros Ht Hf. apply always_bind. apply (always_mono _ (fun _ _ => True)); [apply always_true|].
  intros [a|e] t _; [apply Hf | apply Ht].
Qed.

Lemma always_best_effort m (Q : res unit -> Prop) : Q (Ok tt) -> always (best_effort m) (fun r _ => Q r).
Proof.
  intros HQ. apply always_try_catch. apply (always_mono _ (fun _ _ => True)); [apply always_true|].
  intros [[]|e] t _; [done | by apply always_ret].
Qed.

Lemma always_after {A B} (m : M A) (f : A -> M B) (P : res A -> Prop) (Q : res B -> Prop) :
  always m (fun r _ => P r) -> (forall e, P (Throw e) -> Q (Throw e)) ->
  (forall a, P (Ok a) -> always (f a) (fun r _ => Q r)) -> always (mbind f m) (fun r _ => Q r).
Proof.
  intros Hm Ht Hf. apply always_bind. eapply always_mono; [exact Hm|]. intros [a|e] t Hp; [by apply Hf | by apply Ht].
Qed.

Section facts.
  Context (ctx : OpContext) (x : Collaborators).

Lemma replied_not_parked m : always (replied m) (fun r _ => not_parked r).
Proof. unfold replied. apply always_seq; [done|]. intros v. by apply always_ret. Qed.

Lemma handler_parks req :
  req_operation req <> Op.ensureWorker -> always (handler ctx x req) (fun r _ => not_parked r).
Proof. intros Ho. unfold handler. destruct (req_operation req); try done; apply replied_not_parked. Qed.

Lemma typed_request_operation wire req :
  typed_request wire = Ok req -> Op.name (req_operation req) = wr_operation wire.
Proof.
  unfold typed_request. destruct (operation_of_name _) as [op|] eqn:Ho; [|done]. intros [= <-].
  by apply operation_of_name_Some in Ho.
Qed.

(** The reply of a dispatch: a pending entry only for ensureWorker. *)
Definition parks_only_ensure (wire : WireRequest) (r : res ensure_reply) : Prop :=
  match r with Ok (Parked _) => wr_operation wire = js "ensureWorker" | _ => True end.

Lemma dispatch_parks wire : always (dispatch ctx x wire) (fun r _ => parks_only_ensure wire r).
Proof.
  unfold dispatch. apply (always_after _ _ (fun r => r = typed_request wire)); [by apply always_lift | done |].
  intros req Hr. apply always_seq; [done|]. intros st. apply always_seq; [done|]. intros _.
  destruct (base.decide (req_operation req = Op.ensureWorker)) as [He|He].
  - apply (always_mono _ (fun _ _ => True)); [apply always_true|]. intros [[|]|] t _; try done.
    cbn. rewrite <- (typed_request_operation wire req) by done. by rewrite He.
  - eapply always_mono; [by apply handler_parks|]. by intros [[|]|].
Qed.

Lemma attempt_always {A} (m : M A) (Q : res A -> Prop) :
  always m (fun r _ => Q r) -> always (attempt m) (fun r _ => exists out, r = Ok out /\ Q out).
Proof.
  intros Hm. unfold attempt. apply always_try_catch. apply always_bind.
  eapply always_mono; [exact Hm|]. intros [a|e] t Hq; [apply always_ret | apply always_ret]; by eexists.
Qed.

Lemma lock_parks wire :
  always (withSessionLock ctx (wr_sessionID wire) (dispatch ctx x wire)) (fun r _ => parks_only_ensure wire r).
Proof.
  unfold withSessionLock. apply always_seq; [done|]. intros _.
  eapply always_after with (P := fun r => exists out, r = Ok out /\ parks_only_ensure wire out).
  - apply attempt_always. apply always_seq; [done|]. intros _. apply dispatch_parks.
  - done.
  - intros out [? [[= <-] Hout]]. destruct out as [[v|entry]|e].
    + apply always_seq; [done|]. intros _. by apply always_ret.
    + by apply always_ret.
    + apply always_seq; [done|]. intros _. by apply always_throw.
Qed.

Lemma conclude_answers wire outcome :
  always (conclude ctx wire outcome) (fun r _ => exists resp, r = Ok resp /\ rs_id resp = wr_id wire /\
    rs_body resp = match outcome with Ok v => inl v | Throw e => inr (toBrokerError e) end).
Proof.
  unfold conclude, touch_session, log_request. destruct outcome as [v|e].
  - eapply always_after with (P := fun r => r = Ok tt).
    + unfold when. destruct (negb _); [by apply always_best_effort | by apply always_ret].
    + done.
    + intros _ _. eapply always_after with (P := fun r => r = Ok tt); [by apply always_best_effort | done |].
      intros _ _. apply always_ret. by eexists.
  - eapply always_after with (P := fun r => r = Ok tt); [by apply always_best_effort | done |].
    intros _ _. apply always_ret. by eexists.
Qed.

Lemma admitRequest_id advisor wire bound :
  admitRequest advisor wire = Ok bound -> wr_id bound = wr_id wire /\ wr_operation bound = wr_operation wire.
Proof.
  unfold admitRequest. destruct advisor as [b|].
  - unfold bindAdvisorRequest. intros Hb.
    apply res_bind_Ok in Hb as (_ & _ & Hb). apply res_bind_Ok in Hb as (_ & _ & Hb).
    apply res_bind_Ok in Hb as (p & _ & Hb). by injection Hb as <-.
  - unfold refuseAdvisorSessionOnMain. intros Hb.
    apply res_bind_Ok in Hb as (_ & _ & Hb). apply res_bind_Ok in Hb as (_ & _ & Hb). by injection Hb as <-.
Qed.

(** The id an answer must carry. *)
Definition answer_id (raw : option jsval) : jsstr :=
  match parseRequest raw with
  | inl wire => wr_id wire
  | inr failure => default (js "0") (pf_id failure)
  end.

Definition well_served (raw : option jsval) (r : res Served) : Prop :=
  exists s, r = Ok s /\
    match s with
    | Answered resp => rs_id resp = answer_id raw
    | Waiting _ => exists wire, parseRequest raw = inl wire /\ wr_operation wire = js "ensureWorker"
    end.

Lemma concluded raw wire outcome :
  answer_id raw = wr_id wire ->
  always (resp ← conclude ctx wire outcome; mret (Answered resp)) (fun r _ => well_served raw r).
Proof.
  intros Hid. eapply always_after; [apply conclude_answers | |].
  - by intros e (resp & [=] & _).
  - intros resp (? & [= <-] & Hr & _). apply always_ret. eexists. split; [done|]. by rewrite Hid.
Qed.

Lemma line_served advisor raw : always (dispatchLine ctx x advisor raw) (fun r _ => well_served raw r).
Proof.
  unfold dispatchLine. pose proof (eq_refl : answer_id raw = match parseRequest raw with inl w => wr_id w | inr f => default (js "0") (pf_id f) end) as Hid.
  destruct (parseRequest raw) as [wire|failure] eqn:Hp.
  - destruct (admitRequest advisor wire) as [bound|e] eqn:Ha.
    + apply admitRequest_id in Ha as [Hbid Hbop].
      eapply always_after with (P := fun r => exists out, r = Ok out /\ parks_only_ensure bound out);
        [apply attempt_always, lock_parks | by intros e (? & [=] & _) |].
      intros outcome (? & [= <-] & Ho). destruct outcome as [[v|entry]|e].
      * apply concluded. by rewrite Hid, Hbid.
      * apply always_ret. eexists. split; [done|]. exists wire. split; [done|]. by rewrite <- Hbop.
      * apply concluded. by rewrite Hid, Hbid.
    + eapply always_after with (P := fun r => r = Ok tt); [by apply always_best_effort | done |].
      intros _ _. apply always_ret. eexists. split; [done|]. cbn. by rewrite Hid.
  - apply always_ret. eexists. split; [done|]. by rewrite Hid.
Qed.
End facts.

(** C27: every request line is answered.  Whatever the line (JSON or not), the
    connection, the handlers (those not modelled included), the environment and
    the state of the broker: no exception leaves the processing of a line; it
    ends with one response, which carries the request's id (the default id
    where the line has none), or, for ensureWorker alone, with the request
    parked; and the settlement of a parked entry, whichever way, gives that
    request's response. *)
Theorem every_request_answered ctx x advisor raw w :
  (exists s w' t, dispatchLine ctx x advisor raw w = (Ok s, w', t) /\
    match s with
    | Answered resp => rs_id resp = answer_id raw
    | Waiting _ => exists wire, parseRequest raw = inl wire /\ wr_operation wire = js "ensureWorker"
    end) /\
  forall wire outcome w1, exists resp w2 t, settled_line ctx wire outcome w1 = (Ok resp, w2, t) /\
    rs_id resp = wr_id wire /\ rs_body resp = match outcome with Ok v => inl v | Throw e => inr (toBrokerError e) end.
Proof.
  split.
  - pose proof (line_served ctx x advisor raw w) as Hs. unfold wp in Hs.
    destruct (dispatchLine ctx x advisor raw w) as [[r w'] t]. destruct Hs as (s & -> & Hs). by exists s, w', t.
  - intros wire outcome w1.
    assert (always (settled_line ctx wire outcome) (fun r _ => exists resp, r = Ok resp /\ rs_id resp = wr_id wire /\
      rs_body resp = match outcome with Ok v => inl v | Throw e => inr (toBrokerError e) end)) as Hc.
    { unfold settled_line. eapply always_after with (P := fun r => r = Ok tt);
        [by apply always_modify | done |]. intros _ _. apply conclude_answers. }
    specialize (Hc w1). unfold wp in Hc. destruct (settled_line ctx wire outcome w1) as [[r w2] t].
    destruct Hc as (resp & -> & Hr). by exists resp, w2, t.
Qed.

Lemma guard_refuses readOnly st op sid existing a :
  SessionStore.get st sid = Ok existing -> existing ≫= agent = Some a -> a <> [] -> a ∈ readOnly ->
  op <> Op.ensureWorker -> op ∈ SANDBOX_OPERATIONS ->
  exists e, sandbox_guard readOnly st op sid = Throw e /\ exn_class e = EPolicy.
Proof.
  intros Hg Ha Hne Hin Ho Hop. unfold sandbox_guard. rewrite (bool_decide_eq_false_2 _ Ho), (bool_decide_eq_true_2 _ Hop).
  cbn [negb andb]. rewrite Hg. destruct a as [|c a]; [done|]. cbn [mbind res_bind]. rewrite Ha. cbn [truthy].
  rewrite (proj2 (mem_true _ _) Hin). by eexists.
Qed.

Lemma dispatch_run ctx x wire req w :
  typed_request wire = Ok req ->
  dispatch ctx x wire w =
    match sandbox_guard (readOnlyAgents (cfg ctx)) (w_store w) (req_operation req) (req_sessionID req) with
    | Ok _ => handler ctx x req w
    | Throw e => (Throw e, w, [])
    end.
Proof.
  intros Ht. unfold dispatch. rewrite Ht. generalize (handler ctx x) as h. intros h.
  unfold mbind, M_bind, lift, Effects.ask. destruct (sandbox_guard _ _ _ _); [|done]. by destruct (h req w) as [[??]?].
Qed.

Lemma handler_ensure ctx x req : req_operation req = Op.ensureWorker -> handler ctx x req = ensureWorker ctx req.
Proof. intros Ho. unfold handler. by rewrite Ho. Qed.

Lemma typed_request_name wire op :
  wr_operation wire = Op.name op ->
  exists req, typed_request wire = Ok req /\ req_operation req = op /\ req_sessionID req = wr_sessionID wire.
Proof.
  intros Hop. assert (operation_of_name (wr_operation wire) = Some op) as Hn by (rewrite Hop; by destruct op).
  unfold typed_request. rewrite Hn. by eexists.
Qed.

(** C7: an orchestrator reaches no sandbox.  When a session's recorded agent is
    in the read-only list, every sandbox operation of it - the creation of a
    worker, commands, file reads and writes, diffs, exports, applying and
    discarding a result, copies in and out - ends in a policy error before any
    state change and before any external call, whatever the payload, the agent
    the request claims and the environment. *)
Theorem orchestrator_reaches_no_sandbox ctx x wire w existing a op :
  SessionStore.get (w_store w) (wr_sessionID wire) = Ok existing ->
  existing ≫= agent = Some a -> a <> [] -> a ∈ readOnlyAgents (cfg ctx) ->
  wr_operation wire = Op.name op -> op ∈ Op.ensureWorker :: SANDBOX_OPERATIONS ->
  exists e, dispatch ctx x wire w = (Throw e, w, []) /\ exn_class e = EPolicy.
Proof.
  intros Hg Ha Hne Hin Hop Hmem.
  destruct (typed_request_name wire op Hop) as (req & Ht & Ho & Hs).
  rewrite (dispatch_run ctx x wire req w Ht), Ho, Hs.
  destruct (base.decide (op = Op.ensureWorker)) as [->|Hn].
  - destruct (ensureWorker_refuses_readonly ctx req w existing a) as (e & He & Hc);
      [by rewrite Hs | assumption | assumption | left; by rewrite Ha |].
    exists e. split; [|exact Hc]. change (sandbox_guard _ _ _ _) with (@Ok unit tt). cbv iota.
    rewrite handler_ensure by exact Ho. exact He.
  - destruct (guard_refuses (readOnlyAgents (cfg ctx)) (w_store w) op (wr_sessionID wire) existing a) as (e & He & Hc);
      [assumption.. | |].
    { rewrite elem_of_cons in Hmem. by destruct Hmem. }
    exists e. split; [|exact Hc]. by rewrite He.
Qed.

Definition orchestrator_store : store :=
  {[ js "s" := RFRecord (apply_patch [P_agent (Some (js "gentle-orchestrator"))] (fresh_record (js "s") (js "t0"))) ]}.

(** Collaborators that answer nothing. *)
Definition quiet_collaborators : Collaborators := {|
  hostReadExecutor := mkExecutor [] [] 100; runners := []; sha256_hex := fun _ => []; process_env := fun _ => None;
  child_process := fun _ _ _ _ => mret ([], Closed (Some 0) None); sddRuntime := sample_options; legacySddEnabled := false;
  advisorRecords := fun _ => ∅; reviewConfig := mkReviewConfig JUndef [] 1000 1000 8 None None None; os_tmpdir := js "/tmp"; process_PATH := [];
  broker_cwd := js "/"; broker_isDirectory := fun _ => None; broker_home := js "/home/u"; repoRoot := js "/repo";
  socketPath := js "/run/s"; readRoots := []; network := JNull; roleModels := JObj [];
  droppedLines := 0; droppedEvents := 0; advisor_handler := fun _ _ => mret JNull |}.

Lemma orchestrator_reaches_no_sandbox_witness :
  exists e, dispatch (sample_ctx quiet_env) quiet_collaborators
    (mkWire (js "r-1") (js "exec") (js "s") (Some (js "worker")) (JObj [(js "argv", JArr [JStr (js "id")])]))
    (sample_world orchestrator_store) = (Throw e, sample_world orchestrator_store, []) /\ exn_class e = EPolicy.
Proof.
  apply (orchestrator_reaches_no_sandbox _ _ _ _ (Some (apply_patch [P_agent (Some (js "gentle-orchestrator"))] (fresh_record (js "s") (js "t0"))))
    (js "gentle-orchestrator") Op.exec).
  - vm_compute. reflexivity.
  - vm_compute. reflexivity.
  - discriminate.
  - apply list_elem_of_here.
  - reflexivity.
  - apply (bool_decide_eq_true_1 _). vm_compute. reflexivity.
Defined.

(** ** A mark, from the request line to the document *)
Lemma assess_harmless ctx x : harmless_assessor (Some (assess_for_mark ctx x)).
Proof. intros root commit. unfold assess_for_mark, SddRuntime.reviewAssess, run. by repeat only_step. Qed.

Lemma handler_mark ctx x req w out w' t :
  req_operation req = Op.taskMark -> handler ctx x req w = (out, w', t) ->
  exists r, taskMark ctx (Some (assess_for_mark ctx x)) req w = (r, w', t).
Proof.
  intros Ho. unfold handler. rewrite Ho. unfold replied, mbind, M_bind.
  destruct (taskMark _ _ _ _) as [[[v|e] w1] t1].
  - cbn. rewrite app_nil_r. intros [= _ <- <-]. by eexists.
  - intros [= _ <- <-]. by eexists.
Qed.

(** C6: a task is marked only by a PM, on real evidence, behind its gate.
    Whatever the request line, every call of a dispatched taskMark, those of the
    assessor it asks for the review tier included, leaves the files alone, or
    belongs to the replacement of one document inside the project: a rename comes
    only after git confirmed the evidence commit, the document was read as a
    regular file whose gate is passed for the task (no route and no Gates section,
    or a latest PASS), and the complete next text, the document's own bytes with
    the tick and its revision, was written, synced and closed, with the bytes read
    again unchanged; and the session's recorded agent is a PM. *)
Theorem mark_behind_its_gate ctx x wire w out w' t :
  wr_operation wire = Op.name Op.taskMark -> dispatch ctx x wire w = (out, w', t) -> t <> [] ->
  exists req root taskId status_ evidenceCommit agent_,
    typed_request wire = Ok req /\ mark_begun ctx req w root taskId status_ evidenceCommit agent_ /\
    forall t1 e t2, t = t1 ++ e :: t2 -> mark_rule root taskId status_ evidenceCommit agent_ t1 e.
Proof.
  intros Hop Hrun Ht. destruct (typed_request_name wire _ Hop) as (req & Hty & Ho & _).
  rewrite (dispatch_run ctx x wire req w Hty) in Hrun.
  destruct (sandbox_guard _ _ _ _); [|by injection Hrun as _ _ <-].
  destruct (handler_mark ctx x req w out w' t Ho Hrun) as [r Hmark].
  destruct (mark_gated ctx _ req w r w' t (assess_harmless ctx x) Hmark Ht)
    as (root & taskId & st & commit & agent_ & Hb & Hr).
  by exists req, root, taskId, st, commit, agent_.
Qed.

Definition mark_wire : WireRequest := mkWire (js "r-1") (js "taskMark") (js "s") None (req_payload mark_req).

Lemma mark_behind_its_gate_witness :
  exists out w' t, dispatch (sample_ctx (plan_env (js "# Old") false)) quiet_collaborators mark_wire (plan_world "pm") = (out, w', t) /\
    is_ok out = true /\
    exists req root taskId status_ evidenceCommit agent_,
      typed_request mark_wire = Ok req /\
      mark_begun (sample_ctx (plan_env (js "# Old") false)) req (plan_world "pm") root taskId status_ evidenceCommit agent_ /\
      forall t1 e t2, t = t1 ++ e :: t2 -> mark_rule root taskId status_ evidenceCommit agent_ t1 e.
Proof.
  destruct (dispatch (sample_ctx (plan_env (js "# Old") false)) quiet_collaborators mark_wire (plan_world "pm")) as [[out w'] t] eqn:Hrun.
  exists out, w', t. split; [reflexivity|].
  assert (is_ok out = true /\ (length t =? 0)%nat = false) as [Hok Hne].
  { pose proof (f_equal (fun x => is_ok (fst (fst x))) Hrun) as H1. pose proof (f_equal (fun x => (length (snd x) =? 0)%nat) Hrun) as H2.
    cbn [fst snd] in H1, H2. rewrite <- H1, <- H2. split; vm_compute; reflexivity. }
  split; [exact Hok|].
  apply (mark_behind_its_gate (sample_ctx (plan_env (js "# Old") false)) quiet_collaborators mark_wire (plan_world "pm") out w' t eq_refl Hrun).
  intros ->. discriminate.
Defined.
