(* ===== verification/PluginValues.v ===== *)
(** * Values of the plugins (opencode/plugins)

    What the plugins of the editor share: [??], templates, optional fields of an
    object literal, and the 32-bit operators.  Definitions here model the
    language, not the repository. *)
From stdpp Require Import sorting.
From S2P Require Import Prelude JsVal Json JsOps GitOps Envelope Worker ReviewArgv.
Open Scope Z_scope.

(** [a ?? b] *)
Definition nullish_or (a b : jsval) : jsval := if is_nullish a then b else a.

Definition string_of (v : jsval) : option jsstr := match v with JStr s => Some s | _ => None end.

(** A template literal. *)
Definition template (parts : list jsval) : res jsstr := texts ← map_res js_String parts; Ok (concat texts).

(** A part of a template that is there when its value is truthy. *)
Definition when_truthy (v : jsval) (parts : list jsval) : res jsstr := if is_falsy v then Ok [] else template parts.

Definition text (s : string) : jsval := JStr (js s).
Definition yes_no (v : jsval) : jsval := text (if is_falsy v then "no" else "yes").

(** [v.length] of a string or an array. *)
Definition length_of (v : jsval) : jsval :=
  match v with JStr s => jint (js_length s) | JArr xs => jint (Z.of_nat (length xs)) | _ => JUndef end.

(** [...(v !== undefined ? { k: v } : {})] *)
Definition if_defined (k : string) (v : jsval) : list (jsstr * jsval) := if is_undef v then [] else [(js k, v)].

(** [...(v ? { k: v } : {})] *)
Definition if_truthy (k : string) (v : jsval) : list (jsstr * jsval) := if is_falsy v then [] else [(js k, v)].

(** The strings of an array, read as far as they are strings. *)
Definition string_entries (v : jsval) : list jsstr := match v with JArr xs => omap string_of xs | _ => [] end.

(** ** 32-bit integers *)
Definition uint32 (z : Z) : Z := z mod 2 ^ 32.
Definition int32 (z : Z) : Z := let u := uint32 z in if 2 ^ 31 <=? u then u - 2 ^ 32 else u.
(** [a ^ b] and [Math.imul(a, b)] *)
Definition xor32 (a b : Z) : Z := int32 (Z.lxor (int32 a) (int32 b)).
Definition imul (a b : Z) : Z := int32 (int32 a * int32 b).

(** [z.toString(16)] of a number below 16 to the [fuel]. *)
Definition hex_char (d : Z) : N := Z.to_N (if d <? 10 then 48 + d else 87 + d).
Fixpoint hex_text (fuel : nat) (z : Z) : jsstr :=
  match fuel with
  | O => []
  | S fuel => if z <? 16 then [hex_char z] else hex_text fuel (z / 16) ++ [hex_char (z mod 16)]
  end.
(** [s.padStart(n, c)] *)
Definition padStart (n : Z) (c : N) (s : jsstr) : jsstr := repeat c (Z.to_nat (n - js_length s)) ++ s.

(** The entries of an object in the order of their keys. *)
Definition key_before {A} (a b : jsstr * A) : Prop := str_le (fst a) (fst b).
#[export] Instance key_before_dec {A} : RelDecision (@key_before A) := fun a b => str_le_dec (fst a) (fst b).
Definition sorted_entries {A} (fs : list (jsstr * A)) : list (jsstr * A) := merge_sort key_before fs.

(** ** Maps with the insertion order of a JS Map *)
Fixpoint map_set {A} (k : jsstr) (v : A) (m : list (jsstr * A)) : list (jsstr * A) :=
  match m with
  | [] => [(k, v)]
  | (k', v') :: m => if str_eqb k k' then (k, v) :: m else (k', v') :: map_set k v m
  end.
Definition map_delete {A} (k : jsstr) (m : list (jsstr * A)) : list (jsstr * A) := List.filter (fun kv => negb (str_eqb k (fst kv))) m.

Lemma assoc_map_set {A} k (v : A) m k' : assoc k' (map_set k v m) = if str_eqb k' k then Some v else assoc k' m.
Proof.
  induction m as [|[a b] m IH]; cbn [map_set assoc]; [done|].
  destruct (str_eqb k a) eqn:Ha; cbn [assoc].
  - apply str_eqb_eq in Ha as <-. by destruct (str_eqb k' k).
  - rewrite IH. destruct (str_eqb k' a) eqn:Hb; [|done]. apply str_eqb_eq in Hb as ->.
    destruct (str_eqb a k) eqn:Hc; [|done]. apply str_eqb_eq in Hc as ->. by rewrite (proj2 (str_eqb_eq k k)) in Ha.
Qed.

Lemma assoc_filter {A} (p : jsstr -> bool) k (m : list (jsstr * A)) v :
  assoc k (List.filter (fun kv => p (fst kv)) m) = Some v -> assoc k m = Some v /\ p k = true.
Proof.
  induction m as [|[a b] m IH]; cbn [List.filter assoc fst]; [done|]. destruct (p a) eqn:Hp; cbn [assoc].
  - destruct (str_eqb k a) eqn:Ha; [|done]. apply str_eqb_eq in Ha as ->. by intros [= ->].
  - intros H. apply IH in H as [H1 H2]. destruct (str_eqb k a) eqn:Ha; [|done]. apply str_eqb_eq in Ha as ->. congruence.
Qed.

Lemma assoc_map_delete {A} k (m : list (jsstr * A)) k' v : assoc k' (map_delete k m) = Some v -> assoc k' m = Some v.
Proof. intros H. by apply (assoc_filter (fun x => negb (str_eqb k x))) in H as [H _]. Qed.

Lemma assoc_map_delete_other {A} k (m : list (jsstr * A)) k' : k' <> k -> assoc k' (map_delete k m) = assoc k' m.
Proof.
  intros Hne. unfold map_delete. induction m as [|[a b] m IH]; cbn [List.filter assoc fst]; [done|].
  destruct (str_eqb k a) eqn:Ha; cbn [negb assoc].
  - apply str_eqb_eq in Ha as <-. by rewrite (proj2 (str_eqb_neq k' k)).
  - by rewrite IH.
Qed.

Lemma assoc_map_delete_same {A} k (m : list (jsstr * A)) : assoc k (map_delete k m) = None.
Proof.
  unfold map_delete. induction m as [|[a b] m IH]; cbn [List.filter assoc fst]; [done|].
  destruct (str_eqb k a) eqn:Ha; cbn [negb assoc]; [done | by rewrite Ha].
Qed.

Lemma map_set_keys {A} k (v : A) m : map fst (map_set k v m) = map fst m \/ (k ∉ map fst m /\ map fst (map_set k v m) = map fst m ++ [k]).
Proof.
  induction m as [|[a b] m IH]; cbn [map_set map fst]; [right; split; [apply not_elem_of_nil | done]|].
  destruct (str_eqb k a) eqn:E; cbn [map fst]; [left; apply str_eqb_eq in E as ->; done|]. apply str_eqb_neq in E.
  destruct IH as [->|[Hn ->]]; [by left|]. right. split; [|done]. rewrite not_elem_of_cons. by split.
Qed.

Lemma map_set_NoDup {A} k (v : A) m : NoDup (map fst m) -> NoDup (map fst (map_set k v m)).
Proof.
  intros H. destruct (map_set_keys k v m) as [->|[Hn ->]]; [done|]. apply NoDup_app. split; [done|].
  split; [|apply NoDup_singleton]. intros x Hx Hk. apply list_elem_of_singleton in Hk as ->. done.
Qed.

Lemma map_delete_NoDup {A} k (m : list (jsstr * A)) : NoDup (map fst m) -> NoDup (map fst (map_delete k m)).
Proof.
  induction m as [|[a b] m IH]; [done|]. unfold map_delete in *. cbn [List.filter map fst]. rewrite NoDup_cons. intros [Hn H].
  destruct (str_eqb k a); cbn [negb map fst]; [by apply IH|]. apply NoDup_cons. split; [|by apply IH].
  intros Hin. apply Hn. apply list_elem_of_In, in_map_iff in Hin as (kv & Hkv & Hin). apply filter_In in Hin as [Hin _].
  apply list_elem_of_In, in_map_iff. by exists kv.
Qed.
