(* ===== verification/RelayFrames.v ===== *)
(** * The frames, roots and environment of the reviewer relay
    (opencode/plugins/lib/reviewer-relay-core.ts)

    The plugin relays a review Task of the editor to a child process of the
    provider.  Here: the refusals, the canonical root a Task may run in, the
    environment of the child, and the frames the two exchange.  Logging is not
    modelled. *)
From S2P Require Import Prelude JsVal Json JsOps Path Validation Codec Envelope ReviewArgv SddRuntime.
Open Scope Z_scope.

(** ** Constants *)
Definition TRANSPORT_SCHEMA : jsstr := js "gentle-ai.provider-transport/v1".
Definition TRANSPORT_BINARY : jsstr := js "/home/linuxbrew/.linuxbrew/bin/gentle-ai".
Definition TRANSPORT_ARGV : list jsstr := map js ["review"; "opencode-transport"]%string.

Definition OP_START : jsstr := js "start".
Definition OP_PROMPT : jsstr := js "prompt".
Definition OP_COMPLETE : jsstr := js "complete".
Definition OP_RESULT : jsstr := js "result".

Definition RELAY_AGENTS : list jsstr :=
  map js ["asi-review-risk"; "asi-review-resilience"; "asi-review-readability"; "asi-review-reliability";
          "asi-review-refuter"; "asi-review-validator"]%string.
Definition INSTALLED_REVIEW_AGENTS : list jsstr :=
  map js ["review-risk"; "review-resilience"; "review-readability"; "review-reliability"; "review-refuter"; "review-validator"]%string.

Definition CONTEXT_START : jsstr := js "GENTLE_AI_REVIEW_CONTEXT".
Definition CONTEXT_END : jsstr := js "GENTLE_AI_REVIEW_CONTEXT_END".
Definition LENS_BINDING_HEADER : jsstr := js "GENTLE_AI_REVIEW_BINDING".
Definition PROVIDER_ROLE_TASK_HEADER : jsstr := js "GENTLE_AI_REVIEW_PROVIDER_TASK".
Definition PROVIDER_MATERIALIZATION_HEADER : jsstr := js "GENTLE_AI_REVIEW_PROVIDER_MATERIALIZATION".
Definition MATERIALIZATION_TASK_PROMPT_FIELD : jsstr := js "task_prompt".

Inductive RelayTaskClass := lens_task | provider_role.

#[export] Instance RelayTaskClass_eq_dec : EqDecision RelayTaskClass.
Proof. solve_decision. Defined.

Definition TRANSPORT_ISOLATION_SYSTEM : jsstr := js "Transport isolation: follow only the Go-materialized user prompt.".
Definition STDOUT_FRAME_LIMIT_BYTES : Z := 4 * 1024 * 1024.
Definition STDERR_LIMIT_BYTES : Z := 64 * 1024.
Definition RELAY_DEADLINE_MS : Z := 2700000.
Definition MAX_CONCURRENT_RELAYS : Z := 4.
Definition CANONICAL_PATH_MAX_BYTES : Z := 4096.
Definition TRANSPORT_ENV_KEYS : list jsstr :=
  map js ["HOME"; "XDG_CONFIG_HOME"; "XDG_DATA_HOME"; "XDG_STATE_HOME"; "XDG_CACHE_HOME"; "XDG_RUNTIME_DIR"; "LANG"; "LC_ALL"; "PATH"]%string.
Definition REFUSAL_ENVELOPE_CODE : jsstr := js "opencode_reviewer_relay_refused".
Definition TRANSPORT_FRAME_KEYS : list jsstr := map js ["schema"; "operation"; "nonce"; "prompt"; "output"; "error"]%string.

(** [/[\u0000-\u001f\u007f]/] *)
Definition CONTROL_CHARS (s : jsstr) : bool := existsb (fun c => (c <? 32) || (c =? 127))%N s.

(** ** Refusals *)
Definition RelayRefusal (code : string) (reason : list jsstr) : exn :=
  Exn (ECoded (js code)) (js code ++ js ": " ++ concat reason).

(** The codes of the refusals, which no other error of the plugin carries. *)
Definition REFUSAL_CODES : list jsstr :=
  map js ["reviewer_relay_root_refused"; "reviewer_relay_policy_refused"; "reviewer_relay_session_lookup_failed";
          "reviewer_relay_environment_refused"; "reviewer_relay_frame_malformed"; "reviewer_relay_frame_oversized";
          "reviewer_relay_frame_refused"; "reviewer_relay_stderr_oversized"; "reviewer_relay_deadline_expired";
          "reviewer_relay_child_exited"; "reviewer_relay_spawn_failed"; "reviewer_relay_aborted"; "reviewer_relay_disposed";
          "reviewer_relay_completion_duplicate"; "reviewer_relay_concurrency_refused"; "reviewer_relay_task_refused"]%string.

(** [cause instanceof RelayRefusal] *)
Definition is_refusal (cause : exn) : bool :=
  match exn_class cause with ECoded code => mem code REFUSAL_CODES | _ => false end.

Definition refusalOr (cause : exn) (make : list jsstr -> exn) : exn :=
  if is_refusal cause then cause else make [exn_msg cause].

Definition rootRefused := RelayRefusal "reviewer_relay_root_refused".
Definition policyRefused := RelayRefusal "reviewer_relay_policy_refused".
Definition sessionLookupFailed := RelayRefusal "reviewer_relay_session_lookup_failed".
Definition environmentRefused := RelayRefusal "reviewer_relay_environment_refused".
Definition frameMalformed := RelayRefusal "reviewer_relay_frame_malformed".
Definition frameOversized := RelayRefusal "reviewer_relay_frame_oversized".
Definition frameRefused := RelayRefusal "reviewer_relay_frame_refused".
Definition stderrOversized := RelayRefusal "reviewer_relay_stderr_oversized".
Definition deadlineExpired := RelayRefusal "reviewer_relay_deadline_expired".
Definition childExited := RelayRefusal "reviewer_relay_child_exited".
Definition spawnFailed := RelayRefusal "reviewer_relay_spawn_failed".
Definition abortedRefusal := RelayRefusal "reviewer_relay_aborted".
Definition disposedRefusal := RelayRefusal "reviewer_relay_disposed".
Definition duplicateCompletion := RelayRefusal "reviewer_relay_completion_duplicate".
Definition concurrencyRefused := RelayRefusal "reviewer_relay_concurrency_refused".
Definition taskRefused := RelayRefusal "reviewer_relay_task_refused".

(** ** Roots *)
Section roots.
  (** realpathSync; [None]: it throws. *)
  Context (realpath : jsstr -> option jsstr).

Definition requireCanonicalAbsoluteRoot (value : jsval) : res jsstr :=
  match value with
  | JStr v =>
      _ ← throw_if (js_length v =? 0) (rootRefused [js "root must be a non-empty absolute path"]);
      _ ← throw_if (CANONICAL_PATH_MAX_BYTES <? byteLength v)
            (rootRefused [js "root exceeds "; dec CANONICAL_PATH_MAX_BYTES; js " bytes"]);
      _ ← throw_if (CONTROL_CHARS v) (rootRefused [js "root contains control characters or NUL"]);
      _ ← throw_if (negb (isAbsolute v)) (rootRefused [js "root must be an absolute path"]);
      match realpath v with
      | None => Throw (rootRefused [js "root does not resolve on the host"])
      | Some canonical =>
          _ ← throw_if (negb (str_eqb canonical v)) (rootRefused [js "root is not the canonical path"]);
          Ok canonical
      end
  | _ => Throw (rootRefused [js "root must be a non-empty absolute path"])
  end.

(** [entry.path] of an object, and the entry itself otherwise. *)
Definition entry_path (entry : jsval) : jsval :=
  match entry with JObj _ => at_key entry "path" | _ => entry end.

Definition selectCanonicalSessionRoot (sessionDirectory serverRoot : jsval) (entries : list jsval) : res jsstr :=
  sessionRoot ← requireCanonicalAbsoluteRoot sessionDirectory;
  _ ← throw_if (bool_decide (entries = [])) (rootRefused [js "broker policy carries no allowlisted project roots"]);
  allowlist ← map_res (fun entry => requireCanonicalAbsoluteRoot (entry_path entry)) entries;
  _ ← throw_if (negb (mem sessionRoot allowlist))
        (rootRefused [js "session repository is not an exact allowlisted project root"]);
  _ ← requireCanonicalAbsoluteRoot serverRoot;
  Ok sessionRoot.
End roots.

(** The directory in the answer of [client.session.get]. *)
Definition session_directory (response : res jsval) : res jsval :=
  match response with
  | Throw cause => Throw (sessionLookupFailed [exn_msg cause])
  | Ok r => match at_key r "data" with
            | JObj fs => Ok (at_key (JObj fs) "directory")
            | _ => Throw (sessionLookupFailed [js "session.get returned no session record"])
            end
  end.

(** The allowlisted roots in the broker's answer to [policy]. *)
Definition allowlisted_roots (response : res jsval) : res (list jsval) :=
  match response with
  | Throw cause => Throw (policyRefused [exn_msg cause])
  | Ok (JObj fs) => match at_key (JObj fs) "projects" with
                    | JArr projects => Ok (map entry_path projects)
                    | _ => Throw (policyRefused [js "broker policy carries no projects list"])
                    end
  | Ok _ => Throw (policyRefused [js "broker policy is not an object"])
  end.

(** ** The environment of the child *)
Definition GIT_PROBE_DIRECTORIES : list jsstr :=
  map js ["/home/linuxbrew/.linuxbrew/bin"; "/usr/local/bin"; "/usr/bin"; "/bin"]%string.

Section environment.
  Context (existsSync : jsstr -> bool) (execPath : jsstr).

Definition hostGitDirectory : option jsstr :=
  List.find (fun directory => existsSync (directory ++ js "/git")) GIT_PROBE_DIRECTORIES.
Definition hostRuntimeDirectory : jsstr := dirname execPath.

(** The allowlisted variables that are set to a non-empty text. *)
Definition inherited_env (source : jsstr -> option jsstr) : list (jsstr * jsstr) :=
  omap (fun key => match source key with Some (c :: v) => Some (key, c :: v) | _ => None end) TRANSPORT_ENV_KEYS.

Definition prepended : list jsstr :=
  match hostGitDirectory with
  | Some git => if str_eqb git hostRuntimeDirectory then [hostRuntimeDirectory] else [hostRuntimeDirectory; git]
  | None => [hostRuntimeDirectory]
  end.

(** PATH is the last of the keys, so setting it keeps or makes it the last
    variable. *)
Definition buildTransportEnv (source : jsstr -> option jsstr) : res (list (jsstr * jsstr)) :=
  let env := inherited_env source in
  _ ← throw_if (negb (mem (js "HOME") (map fst env)))
        (environmentRefused [js "the constructed transport environment requires HOME"]);
  let segments := match assoc (js "PATH") env with Some path => split_on 58 path | None => [] end in
  let path := join_with (js ":") (prepended ++ List.filter (fun s => negb (mem s prepended)) segments) in
  Ok (List.filter (fun kv => negb (str_eqb (fst kv) (js "PATH"))) env ++ [(js "PATH", path)]).
End environment.

(** ** Frames *)
Record TransportFrame := mkFrame {
  tf_operation : jsstr; tf_nonce : jsval; tf_prompt : jsval; tf_output : jsval; tf_error : jsval
}.

(** A string, or absent. *)
Definition optional_string (v : jsval) : bool := match v with JUndef | JStr _ => true | _ => false end.

Definition decodeTransportFrame (line : jsstr) : res TransportFrame :=
  match json_parse line with
  | None => Throw (frameMalformed [js "transport frame is not JSON"])
  | Some (JObj fs) =>
      let frame := JObj fs in
      _ ← for_each (fun key => throw_if (negb (mem key TRANSPORT_FRAME_KEYS))
            (frameMalformed [js "transport frame has an unexpected key: "; key])) (object_keys frame);
      _ ← throw_if (negb (is_text_of (at_key frame "schema") TRANSPORT_SCHEMA))
            (frameMalformed [js "transport frame schema is not "; TRANSPORT_SCHEMA]);
      operation ← match at_key frame "operation" with
                  | JStr (c :: o) => Ok (c :: o)
                  | _ => Throw (frameMalformed [js "transport frame has no operation"])
                  end;
      _ ← for_each (fun key => throw_if (negb (optional_string (at_key frame key)))
            (frameMalformed [js "transport frame field '"; js key; js "' is not a string"])) ["nonce"; "prompt"; "output"; "error"]%string;
      Ok (mkFrame operation (at_key frame "nonce") (at_key frame "prompt") (at_key frame "output") (at_key frame "error"))
  | Some _ => Throw (frameMalformed [js "transport frame is not a JSON object"])
  end.

(** A start marker at the head of [s], which follows the unit [before]. *)
Definition starts_block (before : option N) (s : jsstr) : bool :=
  startsWith s CONTEXT_START
  && match before with None => true | Some c => (c =? 10)%N end
  && negb (startsWith s CONTEXT_END)
  && match drop (length CONTEXT_START) s with c :: _ => is_ws c | [] => false end.

Fixpoint context_start (before : option N) (index : Z) (s : jsstr) : Z :=
  match s with
  | [] => -1
  | c :: s' => if starts_block before s then index else context_start (Some c) (index + 1) s'
  end.

Definition materializedContextStart (prompt : jsstr) : Z := context_start None 0 prompt.

Definition first_line (s : jsstr) : jsstr := match cut_at 10 s with Some (line, _) => line | None => s end.

Definition classifyRelayTaskPrompt (prompt : jsval) : res RelayTaskClass :=
  match prompt with
  | JStr (c :: p) =>
      let line := first_line (c :: p) in
      if startsWith line (LENS_BINDING_HEADER ++ js " ") then Ok lens_task
      else if startsWith line (PROVIDER_ROLE_TASK_HEADER ++ js " ") then Ok provider_role
      else Throw (frameRefused [js "relay Task prompt has no provider-issued review binding"])
  | _ => Throw (frameRefused [js "relay Task prompt is unavailable for classification"])
  end.

Definition requireMaterializationEnvelope (prompt : jsstr) : res unit :=
  let missing := frameRefused [js "materialized prompt has no "; PROVIDER_MATERIALIZATION_HEADER; js " envelope"] in
  match cut_at 10 prompt with
  | None => Throw missing
  | Some (header, content) =>
      _ ← throw_if (negb (startsWith header (PROVIDER_MATERIALIZATION_HEADER ++ js " "))) missing;
      match json_parse (drop (S (length PROVIDER_MATERIALIZATION_HEADER)) header) with
      | None => Throw (frameRefused [js "materialized prompt envelope is not provider-issued JSON"])
      | Some (JObj fs) =>
          _ ← throw_if (negb (bool_decide (map fst fs = [MATERIALIZATION_TASK_PROMPT_FIELD])))
                (frameRefused [js "materialized prompt envelope has an unexpected shape"]);
          _ ← match field (JObj fs) MATERIALIZATION_TASK_PROMPT_FIELD with
              | JStr (_ :: _) => Ok tt
              | _ => Throw (frameRefused [js "materialized prompt envelope carries no task prompt"])
              end;
          throw_if (js_length content =? 0) (frameRefused [js "materialized prompt envelope carries no provider content"])
      | Some _ => Throw (frameRefused [js "materialized prompt envelope is not a JSON object"])
      end
  end.

(** What follows the last occurrence of [p] in [s]. *)
Fixpoint after_last (p s : jsstr) : option jsstr :=
  match s with
  | [] => None
  | _ :: s' =>
      match after_last p s' with
      | Some rest => Some rest
      | None => if startsWith s p then Some (drop (length p) s) else None
      end
  end.

Definition validateMaterializedPrompt (prompt : jsval) (taskClass : RelayTaskClass) : res jsstr :=
  match prompt with
  | JStr (c :: p) =>
      let prompt := c :: p in
      _ ← requireMaterializationEnvelope prompt;
      if bool_decide (taskClass = provider_role) then Ok prompt else
      _ ← throw_if (materializedContextStart prompt <? 0)
            (frameRefused [js "materialized prompt has no "; CONTEXT_START; js " block"]);
      if endsWith prompt CONTEXT_END then Ok prompt else
      let unended := frameRefused [js "materialized prompt does not end with "; CONTEXT_END] in
      match after_last CONTEXT_END prompt with
      | None => Throw unended
      | Some tail => _ ← throw_if (negb (forallb is_ws tail)) unended; Ok prompt
      end
  | _ => Throw (frameRefused [js "prompt frame carries no materialized prompt"])
  end.

Definition buildStartFrame (prompt : jsstr) : jsstr :=
  json_text (JObj [(js "schema", JStr TRANSPORT_SCHEMA); (js "operation", JStr OP_START); (js "prompt", JStr prompt)]) ++ [10%N].

Definition buildCompleteFrame (nonce : jsstr) (output : jsval) : jsstr :=
  json_text (JObj ([(js "schema", JStr TRANSPORT_SCHEMA); (js "operation", JStr OP_COMPLETE); (js "nonce", JStr nonce)]
    ++ match output with
       | JStr o => [(js "output", JStr o)]
       | _ => [(js "error", JStr (js "opencode_task_host_output_unavailable"))]
       end)) ++ [10%N].

(** The text of a Task's output, on the value or one field down; [undefined]
    where there is none. *)
Definition reviewerOutputText (output : jsval) : jsval :=
  match output with
  | JStr _ => output
  | JObj _ =>
      match List.find (fun key => match at_key output key with JStr _ => true | _ => false end) ["output"; "text"; "content"]%string with
      | Some key => at_key output key
      | None => JUndef
      end
  | _ => JUndef
  end.
