(* ===== verification/RelayChild.v ===== *)
(** * One relay child (opencode/plugins/lib/reviewer-relay-core.ts, startRelay)

    [startRelay] spawns the provider's transport and drives it by the events of
    its pipes, its timer, its abort signal and its user.  Here: the state those
    handlers share, one function for each handler, and [child_step], which runs
    the handler of an event.  A promise is its settlement; what the relay does to
    the child is recorded in order. *)
From S2P Require Import Prelude JsVal Json JsOps Path Validation Codec Envelope Server ReviewArgv SddRuntime RelayFrames.
Open Scope Z_scope.

(** ** Promises *)
Inductive settlement (A : Type) :=
  | Unsettled
  | Resolved (a : A)
  | Rejected (cause : exn).
Arguments Unsettled {A}.
Arguments Resolved {A} a.
Arguments Rejected {A} cause.

(** A settled promise ignores a later resolution or rejection. *)
Definition settle {A} (p s : settlement A) : settlement A := match p with Unsettled => s | _ => p end.

(** ** The state *)

(** What the relay does to the child process. *)
Inductive child_act :=
  | Spawned (command : jsstr) (arguments : list jsstr) (cwd : jsstr) (env : list (jsstr * jsstr))
  | Wrote (data : jsstr)
  | Ended (data : jsstr)
  | Killed.

Record RelayChild := mkChild {
  rc_class : RelayTaskClass;
  rc_buffered : bytes;
  rc_stderr : bytes;
  rc_closed : bool;
  rc_admitted : option jsstr;        (* the output of the result frame, once one was seen *)
  rc_promptSeen : bool;
  rc_disposed : bool;
  rc_claimed : bool;
  rc_prompt : settlement (jsstr * jsstr);
  rc_result : settlement jsstr;
  rc_acts : list child_act
}.

Definition with_buffered (b : bytes) (c : RelayChild) : RelayChild :=
  mkChild (rc_class c) b (rc_stderr c) (rc_closed c) (rc_admitted c) (rc_promptSeen c) (rc_disposed c) (rc_claimed c)
          (rc_prompt c) (rc_result c) (rc_acts c).
Definition with_stderr (b : bytes) (c : RelayChild) : RelayChild :=
  mkChild (rc_class c) (rc_buffered c) b (rc_closed c) (rc_admitted c) (rc_promptSeen c) (rc_disposed c) (rc_claimed c)
          (rc_prompt c) (rc_result c) (rc_acts c).
Definition with_admitted (output : jsstr) (c : RelayChild) : RelayChild :=
  mkChild (rc_class c) (rc_buffered c) (rc_stderr c) (rc_closed c) (Some output) (rc_promptSeen c) (rc_disposed c) (rc_claimed c)
          (rc_prompt c) (rc_result c) (rc_acts c).
Definition with_prompt (nonce prompt : jsstr) (c : RelayChild) : RelayChild :=
  mkChild (rc_class c) (rc_buffered c) (rc_stderr c) (rc_closed c) (rc_admitted c) true (rc_disposed c) (rc_claimed c)
          (settle (rc_prompt c) (Resolved (nonce, prompt))) (rc_result c) (rc_acts c).
Definition with_claimed (c : RelayChild) : RelayChild :=
  mkChild (rc_class c) (rc_buffered c) (rc_stderr c) (rc_closed c) (rc_admitted c) (rc_promptSeen c) (rc_disposed c) true
          (rc_prompt c) (rc_result c) (rc_acts c).
Definition did (act : child_act) (c : RelayChild) : RelayChild :=
  mkChild (rc_class c) (rc_buffered c) (rc_stderr c) (rc_closed c) (rc_admitted c) (rc_promptSeen c) (rc_disposed c) (rc_claimed c)
          (rc_prompt c) (rc_result c) (rc_acts c ++ [act]).

(** [closed] set, and both promises rejected where they are not settled. *)
Definition reject_both (cause : exn) (c : RelayChild) : RelayChild :=
  mkChild (rc_class c) (rc_buffered c) (rc_stderr c) true (rc_admitted c) (rc_promptSeen c) (rc_disposed c) (rc_claimed c)
          (settle (rc_prompt c) (Rejected cause)) (settle (rc_result c) (Rejected cause)) (rc_acts c).

Definition fail (cause : exn) (c : RelayChild) : RelayChild :=
  if rc_closed c then c else did Killed (reject_both cause c).

(** ** The pipes *)
Section child.
  Context (stdoutLimit stderrLimit deadlineMs : Z).

(** One frame of the child, once its line is complete. *)
Definition on_frame (frame : TransportFrame) (c : RelayChild) : RelayChild :=
  match rc_admitted c with
  | Some _ => fail (frameRefused [js "extra frame after the result frame"]) c
  | None =>
      if str_eqb (tf_operation frame) OP_PROMPT then
        if rc_promptSeen c then fail (frameRefused [js "duplicate prompt frame"]) c else
        match tf_nonce frame with
        | JStr (n :: nonce) =>
            match validateMaterializedPrompt (tf_prompt frame) (rc_class c) with
            | Ok materialized => with_prompt (n :: nonce) materialized c
            | Throw cause => fail cause c
            end
        | _ => fail (frameMalformed [js "prompt frame carries no nonce"]) c
        end
      else if str_eqb (tf_operation frame) OP_RESULT then
        if negb (rc_promptSeen c) then fail (frameRefused [js "result frame before the prompt frame"]) c else
        match tf_output frame with
        | JStr (o :: output) => with_admitted (o :: output) c
        | _ => fail (frameRefused [js "result frame carries no output"]) c
        end
      else fail (frameRefused [js "unexpected transport operation '"; tf_operation frame; js "'"]) c
  end.

Definition on_line (line : bytes) (c : RelayChild) : RelayChild :=
  match decodeTransportFrame (utf8_lossy line) with
  | Ok frame => on_frame frame c
  | Throw cause => fail cause c
  end.

(** The bytes that follow a line: the later lines with their newlines, and the
    partial one. *)
Definition unread (lines : list bytes) (rest : bytes) : bytes := concat (map (fun l => l ++ [10%N]) lines) ++ rest.

(** The loop of [onStdout], which stops at the first line that closes the
    relay. *)
Fixpoint read_lines (lines : list bytes) (rest : bytes) (c : RelayChild) : RelayChild :=
  match lines with
  | [] => with_buffered rest c
  | line :: lines =>
      let c := on_line line (with_buffered (unread lines rest) c) in
      if rc_closed c then c else read_lines lines rest c
  end.

Definition byte_length (b : bytes) : Z := Z.of_nat (length b).

Definition onStdout (chunk : bytes) (c : RelayChild) : RelayChild :=
  if rc_closed c then c else
  let buffered := rc_buffered c ++ chunk in
  if stdoutLimit <? byte_length buffered
  then fail (frameOversized [js "stdout frame exceeds "; dec stdoutLimit; js " bytes"]) (with_buffered buffered c)
  else let '(lines, rest) := lines_and_rest buffered in read_lines lines rest c.

(** [closed || resultSeen] *)
Definition over (c : RelayChild) : bool := rc_closed c || bool_decide (is_Some (rc_admitted c)).

Definition onStderr (chunk : bytes) (c : RelayChild) : RelayChild :=
  if over c then c
  else if stderrLimit <? byte_length (rc_stderr c) + byte_length chunk
  then fail (stderrOversized [js "stderr exceeds "; dec stderrLimit; js " bytes"]) c
  else with_stderr (rc_stderr c ++ chunk) c.

Definition onError (cause : exn) (c : RelayChild) : RelayChild :=
  if over c then c else fail (spawnFailed [exn_msg cause]) c.

(** [code ?? signal ?? signal] *)
Definition exit_name (code : option Z) (signal : option jsstr) : jsstr :=
  match code with Some z => dec z | None => default (js "signal") signal end.

Definition onClose (code : option Z) (signal : option jsstr) (c : RelayChild) : RelayChild :=
  if rc_closed c then c else
  match rc_admitted c with
  | Some admitted =>
      if bool_decide (rc_buffered c = [])
      then mkChild (rc_class c) (rc_buffered c) (rc_stderr c) true (rc_admitted c) (rc_promptSeen c) (rc_disposed c) (rc_claimed c)
                   (rc_prompt c) (settle (rc_result c) (Resolved admitted)) (rc_acts c)
      else fail (frameRefused [js "partial frame after the result frame"]) c
  | None =>
      let stderrText := trim (utf8_lossy (rc_stderr c)) in
      fail (childExited [if bool_decide (rc_buffered c = []) then [] else js "partial frame at transport EOF; ";
                         js "transport exited before completion ("; exit_name code signal; js ")";
                         if js_length stderrText =? 0 then [] else js ": " ++ stderrText]) c
  end.

(** ** The timer and the abort signal: the child is killed, then the relay fails *)
Definition onDeadline (c : RelayChild) : RelayChild :=
  if rc_closed c then c
  else fail (deadlineExpired [js "review relay deadline of "; dec deadlineMs; js " ms expired"]) (did Killed c).

Definition onAbort (c : RelayChild) : RelayChild :=
  if over c || rc_disposed c then c
  else fail (abortedRefusal [js "review relay was aborted"]) (did Killed c).

(** The error of the write of the start frame. *)
Definition onWriteError (cause : exn) (c : RelayChild) : RelayChild := fail (spawnFailed [exn_msg cause]) c.

(** ** Its user *)

(** [complete] up to its first await. *)
Definition complete_claim (c : RelayChild) : res unit * RelayChild :=
  if rc_disposed c then (Throw (disposedRefusal [js "review relay was disposed before completion"]), c)
  else if rc_claimed c
  then (Throw (duplicateCompletion [js "review relay completion was already requested for this Task"]), c)
  else (Ok tt, with_claimed c).

(** The rest of [complete], once the prompt frame is there. *)
Definition complete_send (output : jsval) (c : RelayChild) : RelayChild :=
  match rc_prompt c with
  | Resolved (nonce, _) => did (Ended (buildCompleteFrame nonce output)) c
  | _ => c
  end.

Definition close_relay (c : RelayChild) : RelayChild :=
  if rc_disposed c then c else
  let c := mkChild (rc_class c) (rc_buffered c) (rc_stderr c) (rc_closed c) (rc_admitted c) (rc_promptSeen c) true (rc_claimed c)
                   (rc_prompt c) (rc_result c) (rc_acts c) in
  let c := if rc_closed c then c else reject_both (disposedRefusal [js "review relay was disposed"]) c in
  did Killed c.

(** ** The start *)
Definition startRelay (realpath : jsstr -> option jsstr) (existsSync : jsstr -> bool) (execPath : jsstr)
    (env : jsstr -> option jsstr) (cwd : jsval) (prompt : jsstr) (taskClass : option RelayTaskClass) (aborted : bool) : res RelayChild :=
  class ← match taskClass with Some class => Ok class | None => classifyRelayTaskPrompt (JStr prompt) end;
  root ← requireCanonicalAbsoluteRoot realpath cwd;
  _ ← throw_if aborted (abortedRefusal [js "review relay was aborted before it started"]);
  environment ← buildTransportEnv existsSync execPath env;
  Ok (mkChild class [] [] false None false false false Unsettled Unsettled
        [Spawned TRANSPORT_BINARY TRANSPORT_ARGV root environment; Wrote (buildStartFrame prompt)]).

(** ** Events *)
Inductive child_event :=
  | Stdout (chunk : bytes)
  | Stderr (chunk : bytes)
  | Errored (cause : exn)
  | ChildClosed (code : option Z) (signal : option jsstr)
  | Deadline
  | Abort
  | WriteError (cause : exn)
  | Claim
  | Send (output : jsval)
  | CloseRelay.

Definition child_step (c : RelayChild) (e : child_event) : RelayChild :=
  match e with
  | Stdout chunk => onStdout chunk c
  | Stderr chunk => onStderr chunk c
  | Errored cause => onError cause c
  | ChildClosed code signal => onClose code signal c
  | Deadline => onDeadline c
  | Abort => onAbort c
  | WriteError cause => onWriteError cause c
  | Claim => snd (complete_claim c)
  | Send output => complete_send output c
  | CloseRelay => close_relay c
  end.

Definition child_run (c : RelayChild) (events : list child_event) : RelayChild := foldl child_step c events.
End child.
