(* ===== verification/RelayChildFacts.v ===== *)
(** * Theorems of one relay child: what it delivers is what the provider said

    A stream of bytes is a conversation: the reading of its lines as a prompt
    frame, then a result frame.  The handlers follow it however the bytes are
    chunked and whatever else happens between. *)
From S2P Require Import Prelude JsVal Json JsOps Path Validation Codec Envelope Server ReviewArgv SddRuntime RelayFrames RelayChild.
Open Scope Z_scope.

(** ** Conversations *)
Inductive conversation :=
  | Awaiting
  | Prompted (nonce prompt : jsstr)
  | Answered (nonce prompt output : jsstr)
  | Broken.

Section conversations.
  Context (class : RelayTaskClass).

(** A line read as a prompt frame, and as a result frame. *)
Definition prompt_line (line : bytes) (nonce prompt : jsstr) : Prop :=
  exists frame, decodeTransportFrame (utf8_lossy line) = Ok frame /\ tf_operation frame = OP_PROMPT /\
    tf_nonce frame = JStr nonce /\ nonce <> [] /\ validateMaterializedPrompt (tf_prompt frame) class = Ok prompt.
Definition result_line (line : bytes) (output : jsstr) : Prop :=
  exists frame, decodeTransportFrame (utf8_lossy line) = Ok frame /\ tf_operation frame = OP_RESULT /\
    tf_output frame = JStr output /\ output <> [].

Definition hear_prompt (frame : TransportFrame) : conversation :=
  match tf_nonce frame, validateMaterializedPrompt (tf_prompt frame) class with
  | JStr (n :: nonce), Ok prompt => Prompted (n :: nonce) prompt
  | _, _ => Broken
  end.

Definition hear (s : conversation) (line : bytes) : conversation :=
  match decodeTransportFrame (utf8_lossy line), s with
  | Ok frame, Awaiting => if str_eqb (tf_operation frame) OP_PROMPT then hear_prompt frame else Broken
  | Ok frame, Prompted nonce prompt =>
      if str_eqb (tf_operation frame) OP_PROMPT then Broken
      else if str_eqb (tf_operation frame) OP_RESULT
      then match tf_output frame with JStr (o :: output) => Answered nonce prompt (o :: output) | _ => Broken end
      else Broken
  | _, _ => Broken
  end.

Definition heard (lines : list bytes) : conversation := foldl hear Awaiting lines.

Lemma hear_Broken lines : foldl hear Broken lines = Broken.
Proof. induction lines as [|l lines IH]; [done|]. cbn [foldl]. unfold hear at 2. by destruct (decodeTransportFrame _). Qed.

Lemma hear_Answered n p v lines : lines <> [] -> foldl hear (Answered n p v) lines = Broken.
Proof. destruct lines as [|l lines]; [done|]. intros _. cbn [foldl]. unfold hear at 2. destruct (decodeTransportFrame _); apply hear_Broken. Qed.

Lemma hear_prompt_line line n p : hear Awaiting line = Prompted n p -> prompt_line line n p.
Proof.
  unfold hear, prompt_line. destruct (decodeTransportFrame _) as [frame|]; [|done]. destruct (str_eqb _ _) eqn:Ho; [|done].
  apply str_eqb_eq in Ho. unfold hear_prompt. destruct (tf_nonce frame) as [| | | |[|c nonce]| |] eqn:Hn; try done.
  destruct (validateMaterializedPrompt _ _) eqn:Hv; [|done]. intros [= <- <-]. by exists frame.
Qed.

Lemma hear_result_line n p line n' p' v :
  hear (Prompted n p) line = Answered n' p' v -> n' = n /\ p' = p /\ result_line line v.
Proof.
  unfold hear, result_line. destruct (decodeTransportFrame _) as [frame|]; [|done]. destruct (str_eqb _ OP_PROMPT); [done|].
  destruct (str_eqb _ OP_RESULT) eqn:Ho; [|done]. apply str_eqb_eq in Ho.
  destruct (tf_output frame) as [| | | |[|c o]| |] eqn:Hv; try done. intros [= <- <- <-]. split_and!; try done. by exists frame.
Qed.

Lemma hear_not_answered line n p v : hear Awaiting line <> Answered n p v.
Proof.
  unfold hear. destruct (decodeTransportFrame _) as [frame|]; [|done]. destruct (str_eqb _ _); [|done].
  unfold hear_prompt. destruct (tf_nonce frame) as [| | | |[|c nonce]| |]; try done. by destruct (validateMaterializedPrompt _ _).
Qed.

Lemma hear_not_prompted n p line n' p' : hear (Prompted n p) line <> Prompted n' p'.
Proof.
  unfold hear. destruct (decodeTransportFrame _) as [frame|]; [|done]. destruct (str_eqb _ OP_PROMPT); [done|].
  destruct (str_eqb _ OP_RESULT); [|done]. by destruct (tf_output frame) as [| | | |[|c o]| |].
Qed.

(** An answered conversation has exactly its two lines. *)
Lemma heard_Answered lines n p v :
  heard lines = Answered n p v -> exists l1 l2, lines = [l1; l2] /\ prompt_line l1 n p /\ result_line l2 v.
Proof.
  unfold heard. destruct lines as [|l1 lines]; [done|]. cbn [foldl]. destruct (hear Awaiting l1) as [|n1 p1|n1 p1 v1|] eqn:H1.
  - revert H1. unfold hear. destruct (decodeTransportFrame _) as [frame|]; [|done]. destruct (str_eqb _ _); [|done].
    unfold hear_prompt. destruct (tf_nonce frame) as [| | | |[|c nonce]| |]; try done. by destruct (validateMaterializedPrompt _ _).
  - destruct lines as [|l2 lines]; [done|]. cbn [foldl]. destruct (hear (Prompted n1 p1) l2) as [|n2 p2|n2 p2 v2|] eqn:H2.
    + revert H2. unfold hear. destruct (decodeTransportFrame _) as [frame|]; [|done]. repeat destruct (str_eqb _ _); try done.
      by destruct (tf_output frame) as [| | | |[|c o]| |].
    + by apply hear_not_prompted in H2.
    + destruct lines as [|l3 lines]; [|by rewrite hear_Answered]. cbn [foldl]. intros [= <- <- <-].
      apply hear_result_line in H2 as (-> & -> & H2). exists l1, l2. split; [done|]. split; [by apply hear_prompt_line | done].
    + by rewrite hear_Broken.
  - by apply hear_not_answered in H1.
  - by rewrite hear_Broken.
Qed.

Lemma prompt_line_heard line n p : prompt_line line n p -> hear Awaiting line = Prompted n p.
Proof.
  intros (frame & Hd & Ho & Hn & Hne & Hv). unfold hear. rewrite Hd, Ho. change (str_eqb OP_PROMPT OP_PROMPT) with true. cbv iota.
  unfold hear_prompt. rewrite Hn, Hv. by destruct n.
Qed.

Lemma result_line_heard n p line v : result_line line v -> hear (Prompted n p) line = Answered n p v.
Proof.
  intros (frame & Hd & Ho & Hv & Hne). unfold hear. rewrite Hd, Ho. change (str_eqb OP_RESULT OP_PROMPT) with false.
  change (str_eqb OP_RESULT OP_RESULT) with true. cbv iota. rewrite Hv. by destruct v.
Qed.
End conversations.

(** ** Lines *)
Lemma lines_unread data : unread (fst (lines_and_rest data)) (snd (lines_and_rest data)) = data.
Proof.
  induction data as [|b data IH]; [done|]. cbn [lines_and_rest]. destruct (lines_and_rest data) as [ls rest]. cbn [fst snd] in *.
  destruct (N.eqb_spec b 10) as [->|Hb]; cbn [fst snd].
  - unfold unread in *. cbn [map concat app]. by rewrite IH.
  - destruct ls as [|l ls]; cbn [fst snd]; unfold unread in *; cbn [map concat app] in *; by rewrite <- IH.
Qed.

Lemma lines_of_unread lines rest :
  Forall (fun l => 10%N ∉ l) lines -> 10%N ∉ rest -> lines_and_rest (unread lines rest) = (lines, rest).
Proof.
  intros Hl Hr. assert (lines_and_rest rest = ([], rest)) as Hrest.
  { clear Hl. induction rest as [|b rest IH]; [done|]. rewrite not_elem_of_cons in Hr. destruct Hr as [Hb Hr].
    cbn [lines_and_rest]. rewrite (IH Hr). destruct (N.eqb_spec b 10); [congruence | done]. }
  induction Hl as [|l lines Hl _ IH]; [done|]. unfold unread in *. cbn [map concat]. rewrite <- !app_assoc. cbn [app].
  induction l as [|b l IHl]; cbn [app lines_and_rest].
  - by rewrite IH.
  - rewrite not_elem_of_cons in Hl. destruct Hl as [Hb Hl]. rewrite IHl by done. destruct (N.eqb_spec b 10); [congruence | done].
Qed.

(** The lines of a stream hold no newline. *)
Lemma lines_no_newline data : Forall (fun l => 10%N ∉ l) (fst (lines_and_rest data)).
Proof.
  induction data as [|b data IH]; [constructor|]. cbn [lines_and_rest]. destruct (lines_and_rest data) as [ls rest]. cbn [fst] in *.
  destruct (N.eqb_spec b 10) as [->|Hb]; cbn [fst]; [constructor; [set_solver | done]|].
  destruct ls as [|l ls]; cbn [fst]; [constructor|]. apply Forall_cons in IH as [Hl IH]. constructor; [set_solver | done].
Qed.

(** ** The handlers follow the conversation *)
Section follows.
  Context (stdoutLimit stderrLimit deadlineMs : Z) (class : RelayTaskClass).
#[local] Abbreviation step := (child_step stdoutLimit stderrLimit deadlineMs).
#[local] Abbreviation run := (child_run stdoutLimit stderrLimit deadlineMs).

Definition stdout_of (es : list child_event) : bytes := concat (map (fun e => match e with Stdout chunk => chunk | _ => [] end) es).
Definition stderr_of (es : list child_event) : bytes := concat (map (fun e => match e with Stderr chunk => chunk | _ => [] end) es).

Lemma stdout_of_snoc es e : stdout_of (es ++ [e]) = stdout_of es ++ match e with Stdout chunk => chunk | _ => [] end.
Proof. unfold stdout_of. rewrite map_app, concat_app. cbn [map concat]. by rewrite app_nil_r. Qed.
Lemma stderr_of_snoc es e : stderr_of (es ++ [e]) = stderr_of es ++ match e with Stderr chunk => chunk | _ => [] end.
Proof. unfold stderr_of. rewrite map_app, concat_app. cbn [map concat]. by rewrite app_nil_r. Qed.

(** An open relay that has heard [s] and buffers [rest]. *)
Definition hears (c : RelayChild) (s : conversation) (rest : bytes) : Prop :=
  rc_class c = class /\ rc_closed c = false /\ rc_disposed c = false /\ rc_buffered c = rest /\ rc_result c = Unsettled /\
  match s with
  | Awaiting => rc_promptSeen c = false /\ rc_prompt c = Unsettled /\ rc_admitted c = None
  | Prompted n p => rc_promptSeen c = true /\ rc_prompt c = Resolved (n, p) /\ rc_admitted c = None
  | Answered n p v => rc_promptSeen c = true /\ rc_prompt c = Resolved (n, p) /\ rc_admitted c = Some v
  | Broken => False
  end.

(** A relay that failed: closed, its result rejected and its child killed. *)
Definition failed (c : RelayChild) : Prop :=
  rc_closed c = true /\ (exists cause, rc_result c = Rejected cause) /\ Killed ∈ rc_acts c.

Lemma fail_failed cause c : rc_closed c = false -> rc_result c = Unsettled -> failed (fail cause c).
Proof.
  intros Hc Hr. unfold fail, failed. rewrite Hc. cbn [did reject_both rc_closed rc_result rc_acts]. rewrite Hr.
  split; [done|]. split; [by exists cause|]. apply elem_of_app. right. apply list_elem_of_here.
Qed.

Lemma hears_fail cause c s rest : hears c s rest -> failed (fail cause c).
Proof. intros (_ & Hc & _ & _ & Hr & _). by apply fail_failed. Qed.

Definition after (c : RelayChild) (s : conversation) (rest : bytes) : Prop :=
  match s with Broken => failed c | _ => hears c s rest end.

Lemma hear_line c s line rest : hears c s rest -> after (on_line line c) (hear class s line) rest.
Proof.
  intros H. pose proof (fun cause => hears_fail cause c s rest H) as Hfail. unfold on_line, hear.
  destruct (decodeTransportFrame _) as [frame|e]; [|destruct s; by apply Hfail]. unfold on_frame.
  destruct H as (Hcl & Hc & Hd & Hb & Hr & Hs). destruct s as [|n p|n p v|]; [| | |done]; destruct Hs as (Hps & Hp & Ha); rewrite Ha.
  - rewrite Hps. cbn [negb]. destruct (str_eqb _ OP_PROMPT); [|destruct (str_eqb _ OP_RESULT); by apply Hfail].
    unfold hear_prompt. rewrite Hcl. destruct (tf_nonce frame) as [| | | |[|c' nonce]| |]; try by apply Hfail.
    destruct (validateMaterializedPrompt _ _); [|by apply Hfail]. unfold after, hears, with_prompt. cbn. by rewrite Hp.
  - rewrite Hps. cbn [negb]. destruct (str_eqb _ OP_PROMPT); [by apply Hfail|]. destruct (str_eqb _ OP_RESULT); [|by apply Hfail].
    destruct (tf_output frame) as [| | | |[|c' o]| |]; try by apply Hfail. by unfold after, hears, with_admitted; cbn.
  - by apply Hfail.
Qed.

Lemma hears_buffered c s rest b : hears c s rest -> hears (with_buffered b c) s b.
Proof. intros (? & ? & ? & ? & ? & ?). by unfold hears, with_buffered; cbn. Qed.

Lemma hears_open c s rest : hears c s rest -> rc_closed c = false.
Proof. by intros (_ & ? & _). Qed.

Lemma failed_closed c : failed c -> rc_closed c = true.
Proof. by intros [? _]. Qed.

Lemma hear_lines lines rest c s b :
  hears c s b -> after (read_lines lines rest c) (foldl (hear class) s lines) rest.
Proof.
  revert c s b. induction lines as [|line lines IH]; intros c s b H; cbn [read_lines foldl].
  - apply (hears_buffered _ _ _ rest) in H. by destruct s; [| | |destruct H as (_ & _ & _ & _ & _ & [])].
  - pose proof (hear_line _ _ line _ (hears_buffered c s b (unread lines rest) H)) as Hl. cbv zeta.
    destruct (hear class s line) eqn:Hs; cbn [after] in Hl;
      [rewrite (hears_open _ _ _ Hl); exact (IH _ _ _ Hl) .. | rewrite (failed_closed _ Hl), hear_Broken; exact Hl].
Qed.

(** What has been heard of a stream, and what is left of it. *)
Definition heard_of (data : bytes) : conversation := heard class (fst (lines_and_rest data)).
Definition rest_of (data : bytes) : bytes := snd (lines_and_rest data).

Lemma hear_chunk c data chunk :
  hears c (heard_of data) (rest_of data) ->
  (byte_length (rest_of data ++ chunk) <= stdoutLimit -> after (onStdout stdoutLimit chunk c) (heard_of (data ++ chunk)) (rest_of (data ++ chunk))) /\
  (failed (onStdout stdoutLimit chunk c) \/ after (onStdout stdoutLimit chunk c) (heard_of (data ++ chunk)) (rest_of (data ++ chunk))).
Proof.
  intros H. pose proof H as (_ & Hc & _ & Hb & Hr & _). unfold onStdout. rewrite Hc, Hb. cbv zeta.
  destruct (Z.ltb_spec stdoutLimit (byte_length (rest_of data ++ chunk))) as [Hlt|Hge].
  - split; [lia|]. left. by apply fail_failed.
  - assert (after (let '(lines, rest) := lines_and_rest (rest_of data ++ chunk) in read_lines lines rest c)
              (heard_of (data ++ chunk)) (rest_of (data ++ chunk))) as Hok; [|by split; [|right]].
    unfold heard_of, rest_of, heard. rewrite (lines_and_rest_app data). cbn [fst snd]. fold (rest_of data).
    destruct (lines_and_rest (rest_of data ++ chunk)) as [lines rest]. cbn [fst snd]. rewrite foldl_app.
    by apply (hear_lines _ _ _ _ (rest_of data)).
Qed.

(** *** Runs *)

(** A relay whose result was delivered: the child closed its stdout after
    exactly the conversation's two lines. *)
Definition delivered (c : RelayChild) (data : bytes) : Prop :=
  rc_closed c = true /\ exists n p v, rc_result c = Resolved v /\ heard_of data = Answered n p v /\ rest_of data = [].

(** Failed or disposed: the result is rejected for good. *)
Definition refused (c : RelayChild) : Prop := rc_closed c = true /\ exists cause, rc_result c = Rejected cause.

(** What the events of a run up to the close of the child's pipes say. *)
Definition is_close (e : child_event) : bool := match e with ChildClosed _ _ => true | _ => false end.
Fixpoint before_close (es : list child_event) : list child_event :=
  match es with [] => [] | e :: es => if is_close e then [] else e :: before_close es end.

Lemma failed_refused c : failed c -> refused c.
Proof. by intros (? & ? & _). Qed.

(** A closed relay keeps its result, whatever follows. *)
Lemma step_closed c e : rc_closed c = true -> rc_closed (step c e) = true /\ rc_result (step c e) = rc_result c.
Proof.
  intros Hc. destruct e; cbn [child_step];
    unfold onStdout, onStderr, onError, onClose, onDeadline, onAbort, onWriteError, complete_claim, complete_send, close_relay, over, fail;
    rewrite ?Hc; cbn [orb]; try done.
  - repeat case_match; done.
  - by destruct (rc_prompt c) as [|[]|].
  - destruct (rc_disposed c); [done|]. by cbn.
Qed.

Lemma run_closed es c : rc_closed c = true -> rc_closed (run c es) = true /\ rc_result (run c es) = rc_result c.
Proof.
  unfold child_run. revert c. induction es as [|e es IH]; intros c Hc; [done|]. cbn [foldl].
  destruct (step_closed c e Hc) as [H1 H2]. destruct (IH _ H1) as [H3 H4]. by rewrite H3, H4.
Qed.

(** One event other than output, on an open relay. *)
Lemma step_open c e s rest :
  hears c s rest -> (match e with Stdout _ | ChildClosed _ _ => False | _ => True end) ->
  hears (step c e) s rest \/ refused (step c e).
Proof.
  intros H He. pose proof (fun cause => failed_refused _ (hears_fail cause c s rest H)) as Hfail.
  pose proof H as (Hcl & Hc & Hd & Hb & Hr & Hs). destruct e; try done; cbn [child_step];
    unfold onStderr, onError, onDeadline, onAbort, onWriteError, complete_claim, complete_send, close_relay, over.
  - rewrite Hc. cbn [orb]. case_bool_decide; [by left|]. destruct (_ <? _); [right; apply Hfail|]. left. exact H.
  - rewrite Hc. cbn [orb]. case_bool_decide; [by left|]. right; apply Hfail.
  - rewrite Hc. right. apply failed_refused, fail_failed; done.
  - rewrite Hc, Hd. cbn [orb]. case_bool_decide; cbn [orb]; [by left|]. right. apply failed_refused, fail_failed; done.
  - right; apply Hfail.
  - rewrite Hd. left. destruct (rc_claimed c); exact H.
  - left. destruct (rc_prompt c) as [|[n' p']|]; exact H.
  - right. rewrite Hd. cbn. rewrite Hc. unfold refused. cbn. rewrite Hr. split; [done|]. by eexists.
Qed.

(** The close of the pipes settles an open relay. *)
Lemma step_close c code signal data :
  hears c (heard_of data) (rest_of data) ->
  delivered (onClose code signal c) data \/
  (failed (onClose code signal c) /\ ~ exists n p v, heard_of data = Answered n p v /\ rest_of data = []).
Proof.
  intros H. pose proof (fun cause => hears_fail cause c _ _ H) as Hfail. pose proof H as (_ & Hc & _ & Hb & Hr & Hs).
  unfold onClose. rewrite Hc. destruct (heard_of data) as [|n p|n p v|] eqn:Hh.
  - destruct Hs as (_ & _ & ->). right. split; [apply Hfail | by intros (?&?&?&?&?)].
  - destruct Hs as (_ & _ & ->). right. split; [apply Hfail | by intros (?&?&?&?&?)].
  - destruct Hs as (_ & _ & ->). rewrite Hb. case_bool_decide as Hrest.
    + left. split; [done|]. exists n, p, v. cbn. by rewrite Hr.
    + right. split; [apply Hfail | by intros (?&?&?&?&?)].
  - done.
Qed.

(** The relay after any run, by what its child wrote before it closed. *)
Definition settled_by (c : RelayChild) (es : list child_event) : Prop :=
  let data := stdout_of (before_close es) in
  if existsb is_close es then delivered c data \/ refused c
  else hears c (heard_of data) (rest_of data) \/ refused c.

Lemma before_close_snoc es e :
  before_close (es ++ [e]) =
    if existsb is_close es then before_close es else if is_close e then before_close es else before_close es ++ [e].
Proof.
  induction es as [|e' es IH]; cbn [app before_close existsb]; [by destruct (is_close e)|]. destruct (is_close e'); [done|].
  cbn [orb]. rewrite IH. destruct (existsb _ es), (is_close e); done.
Qed.

Lemma before_close_all es : existsb is_close es = false -> before_close es = es.
Proof. induction es as [|e es IH]; [done|]. cbn. destruct (is_close e); [done|]. cbn [orb]. intros H. by rewrite IH. Qed.

Lemma settled_step c es e : settled_by c es -> settled_by (step c e) (es ++ [e]).
Proof.
  unfold settled_by. cbv zeta. rewrite existsb_app, before_close_snoc. cbn [existsb]. rewrite orb_false_r.
  assert (refused c -> refused (step c e)) as Hkeep.
  { intros [Hc [cause Hr]]. destruct (step_closed c e Hc) as [H1 H2]. split; [done|]. exists cause. congruence. }
  destruct (existsb is_close es) eqn:Hes; cbn [orb].
  - intros [(Hc & n & p & v & Hr & H)|H]; [left | right; auto]. destruct (step_closed c e Hc) as [H1 H2].
    split; [done|]. exists n, p, v. by rewrite H2.
  - intros H. destruct (is_close e) eqn:He.
    + destruct e; try done. destruct H as [H|H]; [|right; auto]. cbn [child_step].
      destruct (step_close c code signal _ H) as [|[]]; [by left | right; by apply failed_refused].
    + destruct H as [H|H]; [|right; auto]. destruct e; try done; rewrite stdout_of_snoc, ?app_nil_r;
        try (by apply step_open). cbn [child_step]. apply (hear_chunk c _ chunk) in H as [_ [H|H]]; [right; by apply failed_refused|].
      unfold after in H. destruct (heard_of _); [by left..|right; by apply failed_refused].
Qed.

(** A run from a fresh relay. *)
Definition fresh (c : RelayChild) : Prop := hears c Awaiting [] /\ rc_stderr c = [].

Lemma settled_run es c : fresh c -> settled_by (run c es) es.
Proof.
  intros [H _]. induction es as [|e es IH] using rev_ind; [by left|].
  unfold child_run. rewrite foldl_app. by apply settled_step.
Qed.

(** *** Calm runs: output within the limits, and the user's completion *)
Definition calm_event (e : child_event) : Prop := match e with Stdout _ | Stderr _ | Claim | Send _ => True | _ => False end.
Definition calm (es : list child_event) : Prop :=
  Forall calm_event es /\ byte_length (stdout_of es) <= stdoutLimit /\ byte_length (stderr_of es) <= stderrLimit.

Lemma rest_shorter data : byte_length (rest_of data) <= byte_length data.
Proof.
  unfold byte_length, rest_of. pose proof (lines_unread data) as H. unfold unread in H. rewrite <- H at 2. rewrite length_app. lia.
Qed.

Lemma onStderr_calm c s rest chunk :
  hears c s rest -> byte_length (rc_stderr c) + byte_length chunk <= stderrLimit ->
  hears (onStderr stderrLimit chunk c) s rest /\
  byte_length (rc_stderr (onStderr stderrLimit chunk c)) <= byte_length (rc_stderr c) + byte_length chunk.
Proof.
  intros H Hl. unfold onStderr. destruct (over c); [split; [exact H | unfold byte_length; lia]|].
  destruct (Z.ltb_spec stderrLimit (byte_length (rc_stderr c) + byte_length chunk)); [lia|]. split; [exact H|].
  unfold byte_length. cbn [with_stderr rc_stderr]. rewrite length_app. lia.
Qed.

Lemma read_line_stderr c line : rc_stderr (on_line line c) = rc_stderr c.
Proof.
  assert (forall cause, rc_stderr (fail cause c) = rc_stderr c) as Hf by (intros; unfold fail; by destruct (rc_closed c)).
  unfold on_line. destruct (decodeTransportFrame _); [|apply Hf]. unfold on_frame. repeat case_match; done.
Qed.

Lemma read_lines_stderr lines rest c : rc_stderr (read_lines lines rest c) = rc_stderr c.
Proof.
  revert c. induction lines as [|l lines IH]; intros c; cbn [read_lines]; [done|]. cbv zeta.
  destruct (rc_closed _); [|rewrite IH]; by rewrite read_line_stderr.
Qed.

Lemma onStdout_stderr chunk c : rc_stderr (onStdout stdoutLimit chunk c) = rc_stderr c.
Proof.
  unfold onStdout. destruct (rc_closed c) eqn:Hc; [done|]. cbv zeta. destruct (_ <? _).
  - unfold fail. cbn. by rewrite Hc.
  - destruct (lines_and_rest _) as [lines rest]. apply read_lines_stderr.
Qed.

Lemma calm_run es c s :
  fresh c -> calm es -> heard_of (stdout_of es) = s -> (forall data, data `prefix_of` stdout_of es -> heard_of data <> Broken) ->
  hears (run c es) s (rest_of (stdout_of es)) /\ byte_length (rc_stderr (run c es)) <= byte_length (stderr_of es).
Proof.
  intros [Hf Hs0] Hcalm <-. revert Hcalm. induction es as [|e es IH] using rev_ind; intros (Hev & Hout & Herr) Hp.
  { split; [exact Hf|]. cbn [child_run foldl]. by rewrite Hs0. }
  apply Forall_app in Hev as [Hev He]. rewrite Forall_singleton in He. rewrite stdout_of_snoc in *. rewrite stderr_of_snoc in *.
  unfold byte_length in Hout, Herr. rewrite length_app in Hout, Herr.
  destruct IH as [H Hst]. { split; [done|]. unfold byte_length. lia. } { intros data Hd. apply Hp. by apply prefix_app_r. }
  unfold child_run in *. rewrite foldl_app. cbn [foldl]. set (c' := foldl step c es) in *.
  destruct e; try done; cbn [child_step]; rewrite ?app_nil_r in *.
  - rewrite onStdout_stderr. split; [|done]. pose proof (hear_chunk c' _ chunk H) as [Hk _]. specialize (Hp (stdout_of es ++ chunk)).
    specialize (Hp ltac:(done)).
    assert (after (onStdout stdoutLimit chunk c') (heard_of (stdout_of es ++ chunk)) (rest_of (stdout_of es ++ chunk))) as Ha.
    { apply Hk. pose proof (rest_shorter (stdout_of es)). unfold byte_length in *. rewrite length_app. lia. }
    unfold after in Ha. by destruct (heard_of (stdout_of es ++ chunk)).
  - destruct (onStderr_calm c' _ _ chunk H) as [H1 H2]; [unfold byte_length in *; lia|]. split; [done|].
    unfold byte_length in *. rewrite length_app. lia.
  - split; unfold complete_claim; destruct (rc_disposed c'), (rc_claimed c'); first [exact H | exact Hst].
  - split; unfold complete_send; destruct (rc_prompt c') as [|[n p]|]; first [exact H | exact Hst].
Qed.

(** *** What the relay does to its child *)

(** The prompt of a relay is read once, from a prompt line. *)
Lemma on_line_prompt line c np :
  rc_prompt (on_line line c) = Resolved np -> rc_prompt c = Resolved np \/ prompt_line (rc_class c) line (fst np) (snd np).
Proof.
  assert (forall cause, rc_prompt (fail cause c) = Resolved np -> rc_prompt c = Resolved np) as Hf.
  { intros cause. unfold fail. destruct (rc_closed c); [done|]. cbn. by destruct (rc_prompt c). }
  unfold on_line. destruct (decodeTransportFrame _) as [frame|] eqn:Hd; [|intros H; left; by eapply Hf]. unfold on_frame.
  destruct (rc_admitted c); [intros H; left; by eapply Hf|].
  destruct (str_eqb _ OP_PROMPT) eqn:Ho; [|repeat case_match; try done; intros; left; try done; by eapply Hf].
  destruct (rc_promptSeen c); [intros H; left; by eapply Hf|].
  destruct (tf_nonce frame) as [| | | |[|b nonce]| |] eqn:Hn; try (intros H; left; by eapply Hf).
  destruct (validateMaterializedPrompt _ _) eqn:Hv; [|intros H; left; by eapply Hf]. cbn.
  destruct (rc_prompt c); cbn [settle]; [|by left..]. intros [= <-]. right. apply str_eqb_eq in Ho. by exists frame.
Qed.

Lemma on_line_class line c : rc_class (on_line line c) = rc_class c.
Proof.
  assert (forall cause, rc_class (fail cause c) = rc_class c) as Hf by (intros; unfold fail; by destruct (rc_closed c)).
  unfold on_line. destruct (decodeTransportFrame _); [|apply Hf]. unfold on_frame. repeat case_match; done.
Qed.

Lemma read_lines_prompt lines rest c np :
  rc_prompt (read_lines lines rest c) = Resolved np ->
  rc_prompt c = Resolved np \/ exists line, line ∈ lines /\ prompt_line (rc_class c) line (fst np) (snd np).
Proof.
  revert c. induction lines as [|line lines IH]; intros c; cbn [read_lines]; [by left|]. cbv zeta.
  set (c1 := on_line line _). assert (rc_prompt c1 = Resolved np -> rc_prompt c = Resolved np \/
    exists l, l ∈ line :: lines /\ prompt_line (rc_class c) l (fst np) (snd np)) as H1.
  { intros [H|H]%on_line_prompt; [by left|]. right. exists line. split; [apply list_elem_of_here | done]. }
  destruct (rc_closed c1); [exact H1|]. intros [H|(l & Hl & H)]%IH; [by apply H1|]. right. exists l. split; [by right|].
  unfold c1 in H. by rewrite on_line_class in H.
Qed.

(** The acts of the relay in a run: what its prompt is, and what it did. *)
Definition answer_of (c : RelayChild) (es : list child_event) (act : child_act) : Prop :=
  act = Killed \/ exists n p output, act = Ended (buildCompleteFrame n output) /\ rc_prompt c = Resolved (n, p) /\ Send output ∈ es.

Definition did_only (c c' : RelayChild) (es : list child_event) : Prop :=
  exists tail, rc_acts c' = rc_acts c ++ tail /\ Forall (answer_of c' es) tail.

Lemma did_only_refl c es : did_only c c es.
Proof. exists []. by rewrite app_nil_r. Qed.

Lemma did_only_trans c1 c2 c3 es e :
  (forall np, rc_prompt c2 = Resolved np -> rc_prompt c3 = Resolved np) ->
  did_only c1 c2 es -> did_only c2 c3 [e] -> did_only c1 c3 (es ++ [e]).
Proof.
  intros Hp (t1 & H1 & F1) (t2 & H2 & F2). exists (t1 ++ t2). rewrite H2, H1, app_assoc. split; [done|]. apply Forall_app. split.
  - eapply Forall_impl; [exact F1|]. intros a [->|(n & p & o & -> & Hn & Ho)]; [by left|]. right. exists n, p, o. rewrite elem_of_app. auto.
  - eapply Forall_impl; [exact F2|]. intros a [->|(n & p & o & -> & Hn & Ho)]; [by left|]. right. exists n, p, o. rewrite elem_of_app. auto.
Qed.

Lemma killed_only c c' es : (rc_acts c' = rc_acts c \/ rc_acts c' = rc_acts c ++ [Killed] \/ rc_acts c' = rc_acts c ++ [Killed; Killed]) -> did_only c c' es.
Proof.
  unfold did_only. intros [->|[->| ->]]; [exists []; by rewrite app_nil_r | exists [Killed] | exists [Killed; Killed]]; (split; [done|]);
    repeat constructor.
Qed.

Lemma fail_acts cause c : rc_acts (fail cause c) = rc_acts c \/ rc_acts (fail cause c) = rc_acts c ++ [Killed].
Proof. unfold fail. destruct (rc_closed c); [by left | by right]. Qed.

Lemma on_line_acts line c : rc_acts (on_line line c) = rc_acts c \/ (rc_acts (on_line line c) = rc_acts c ++ [Killed] /\ rc_closed (on_line line c) = true).
Proof.
  assert (forall cause, rc_acts (fail cause c) = rc_acts c \/ (rc_acts (fail cause c) = rc_acts c ++ [Killed] /\ rc_closed (fail cause c) = true)) as Hf.
  { intros. unfold fail. destruct (rc_closed c); [by left | by right]. }
  unfold on_line. destruct (decodeTransportFrame _); [|apply Hf]. unfold on_frame. repeat case_match; auto.
Qed.

Lemma read_lines_acts lines rest c : rc_acts (read_lines lines rest c) = rc_acts c \/ rc_acts (read_lines lines rest c) = rc_acts c ++ [Killed].
Proof.
  revert c. induction lines as [|line lines IH]; intros c; cbn [read_lines]; [by left|]. cbv zeta.
  destruct (on_line_acts line (with_buffered (unread lines rest) c)) as [H|[H Hc]].
  - destruct (rc_closed _); [by left|]. destruct (IH (on_line line (with_buffered (unread lines rest) c))) as [->| ->]; rewrite H; auto.
  - rewrite Hc. by right.
Qed.

(** One step keeps the prompt once it is there. *)
Lemma fail_prompt cause c np : rc_prompt c = Resolved np -> rc_prompt (fail cause c) = Resolved np.
Proof. intros H. unfold fail. destruct (rc_closed c); [done|]. cbn. by rewrite H. Qed.

Lemma on_line_keeps line c np : rc_prompt c = Resolved np -> rc_prompt (on_line line c) = Resolved np.
Proof.
  intros H. unfold on_line. destruct (decodeTransportFrame _); [|by apply fail_prompt]. unfold on_frame.
  repeat case_match; try done; try (by apply fail_prompt). cbn. by rewrite H.
Qed.

Lemma read_lines_keeps lines rest c np : rc_prompt c = Resolved np -> rc_prompt (read_lines lines rest c) = Resolved np.
Proof.
  revert c. induction lines as [|line lines IH]; intros c H; cbn [read_lines]; [done|]. cbv zeta.
  destruct (rc_closed _); [|apply IH]; by apply on_line_keeps.
Qed.

Lemma step_keeps_prompt c e np : rc_prompt c = Resolved np -> rc_prompt (step c e) = Resolved np.
Proof.
  intros H. destruct e; cbn [child_step].
  - unfold onStdout. destruct (rc_closed c); [done|]. cbv zeta. destruct (_ <? _); [by apply fail_prompt|].
    destruct (lines_and_rest _). by apply read_lines_keeps.
  - unfold onStderr. destruct (over c); [done|]. destruct (_ <? _); [by apply fail_prompt | done].
  - unfold onError. destruct (over c); [done | by apply fail_prompt].
  - unfold onClose. destruct (rc_closed c); [done|]. destruct (rc_admitted c); [|by apply fail_prompt].
    case_bool_decide; [done | by apply fail_prompt].
  - unfold onDeadline. destruct (rc_closed c); [done | by apply fail_prompt].
  - unfold onAbort. destruct (_ || _); [done | by apply fail_prompt].
  - by apply fail_prompt.
  - unfold complete_claim. destruct (rc_disposed c), (rc_claimed c); done.
  - unfold complete_send. rewrite H. by destruct np.
  - unfold close_relay. destruct (rc_disposed c); [done|]. cbn. destruct (rc_closed c); cbn; by rewrite H.
Qed.

Lemma step_acts c e : did_only c (step c e) [e].
Proof.
  assert (forall cause c', rc_acts c' = rc_acts c -> did_only c (fail cause c') [e]) as Hf.
  { intros cause c' H. apply killed_only. destruct (fail_acts cause c') as [->| ->]; rewrite H; auto. }
  destruct e; cbn [child_step]; cbv [onError onWriteError onDeadline onAbort onClose onStderr onStdout].
  - destruct (rc_closed c); [apply did_only_refl|]. cbv zeta. destruct (_ <? _); [by apply Hf|]. destruct (lines_and_rest _) as [lines rest].
    apply killed_only. destruct (read_lines_acts lines rest c) as [->| ->]; auto.
  - destruct (over c); [apply did_only_refl|]. destruct (_ <? _); [by apply Hf | by apply killed_only; left].
  - destruct (over c); [apply did_only_refl | by apply Hf].
  - destruct (rc_closed c); [apply did_only_refl|]. destruct (rc_admitted c); [|by apply Hf].
    case_bool_decide; [by apply killed_only; left | by apply Hf].
  - destruct (rc_closed c) eqn:Hc; [apply did_only_refl|]. apply killed_only. right; right. unfold fail. cbn. rewrite Hc. cbn. by rewrite <- app_assoc.
  - destruct (_ || _) eqn:Hc; [apply did_only_refl|]. apply killed_only. right; right. unfold fail, over in *. cbn.
    destruct (rc_closed c); [done|]. cbn. by rewrite <- app_assoc.
  - by apply Hf.
  - apply killed_only. left. unfold complete_claim. destruct (rc_disposed c), (rc_claimed c); done.
  - unfold complete_send. destruct (rc_prompt c) as [|[n p]|] eqn:Hp; [apply did_only_refl | | apply did_only_refl].
    exists [Ended (buildCompleteFrame n output)]. split; [done|]. rewrite Forall_singleton. right. exists n, p, output.
    split; [done|]. split; [done | apply list_elem_of_here].
  - unfold close_relay. destruct (rc_disposed c); [apply did_only_refl|]. apply killed_only. right; left. cbn. by destruct (rc_closed c).
Qed.

Lemma run_acts es c : did_only c (run c es) es.
Proof.
  induction es as [|e es IH] using rev_ind; [apply did_only_refl|]. unfold child_run. rewrite foldl_app. cbn [foldl].
  apply (did_only_trans c (run c es)); [intros np; apply step_keeps_prompt | exact IH | apply step_acts].
Qed.

(** The prompt of a run is one of the child's lines. *)
Lemma run_prompt es c np :
  fresh c -> rc_prompt (run c es) = Resolved np ->
  exists line, line ∈ fst (lines_and_rest (stdout_of es)) /\ prompt_line class line (fst np) (snd np).
Proof.
  intros Hf. induction es as [|e es IH] using rev_ind.
  { destruct Hf as [(_ & _ & _ & _ & _ & _ & Hp & _) _]. cbn. by rewrite Hp. }
  rewrite stdout_of_snoc. assert (rc_prompt (run c es) = Resolved np -> exists line,
    line ∈ fst (lines_and_rest (stdout_of es ++ match e with Stdout chunk => chunk | _ => [] end)) /\ prompt_line class line np.1 np.2) as Hold.
  { intros (l & Hl & H)%IH. exists l. rewrite lines_and_rest_app. cbn [fst]. rewrite elem_of_app. auto. }
  unfold child_run in *. rewrite foldl_app. cbn [foldl]. set (c' := foldl step c es) in *. intros H.
  assert ((rc_prompt c' = Resolved np) \/ exists chunk, e = Stdout chunk /\ rc_closed c' = false) as [?|(chunk & -> & Hc)]; [|by auto|].
  { assert (forall cause d, rc_prompt d = rc_prompt c' -> rc_prompt (fail cause d) = Resolved np -> rc_prompt c' = Resolved np) as Hk.
    { intros cause d <-. unfold fail. destruct (rc_closed d); [done|]. cbn. by destruct (rc_prompt d). }
    destruct e; cbn [child_step] in H; try (left; by eapply Hk).
    - unfold onStdout in H. destruct (rc_closed c') eqn:Hc; [by left|]. right. by exists chunk.
    - unfold onStderr in H. destruct (over c'); [by left|]. destruct (_ <? _); left; [by eapply Hk | done].
    - unfold onError in H. destruct (over c'); left; [done | by eapply Hk].
    - unfold onClose in H. destruct (rc_closed c'); [by left|]. destruct (rc_admitted c'); [case_bool_decide|]; left; try done; by eapply Hk.
    - unfold onDeadline in H. destruct (rc_closed c'); left; [done | by eapply (Hk _ (did Killed c'))].
    - unfold onAbort in H. destruct (_ || _); left; [done | by eapply (Hk _ (did Killed c'))].
    - left. revert H. unfold complete_claim. destruct (rc_disposed c'), (rc_claimed c'); done.
    - left. revert H. unfold complete_send. destruct (rc_prompt c') as [|[n p]|] eqn:Hp; cbn; rewrite ?Hp; done.
    - left. revert H. unfold close_relay. destruct (rc_disposed c'); [done|]. cbn. destruct (rc_closed c'); cbn; [done|]. by destruct (rc_prompt c'). }
  pose proof (settled_run es c Hf) as Hs. unfold settled_by, child_run in Hs. cbv zeta in Hs. fold c' in Hs.
  destruct (existsb is_close es) eqn:Hes; [by destruct Hs as [[? _]|[? _]]; congruence|]. destruct Hs as [Hs|[? _]]; [|congruence].
  rewrite (before_close_all _ Hes) in Hs. destruct Hs as (Hcl & _ & _ & Hb & _). cbn [child_step] in H. unfold onStdout in H.
  rewrite Hc, Hb in H. cbv zeta in H. destruct (_ <? _).
  { apply Hold. revert H. unfold fail. cbn. rewrite Hc. cbn. by destruct (rc_prompt c'). }
  destruct (lines_and_rest (rest_of (stdout_of es) ++ chunk)) as [lines rest] eqn:Hl.
  apply read_lines_prompt in H as [H|(l & Hin & H)]; [by apply Hold|]. exists l. rewrite Hcl in H. split; [|done].
  rewrite lines_and_rest_app. fold (rest_of (stdout_of es)). rewrite Hl. cbn [fst]. rewrite elem_of_app. by right.
Qed.

(** A relay that is closed delivered, or killed its child. *)
Definition closed_kills (c : RelayChild) : Prop := rc_closed c = true -> (exists v, rc_result c = Resolved v) \/ Killed ∈ rc_acts c.

Lemma fail_kills cause c : closed_kills c -> closed_kills (fail cause c).
Proof.
  intros H. unfold fail. destruct (rc_closed c) eqn:Hc; [done|]. intros _. right. cbn. apply elem_of_app. right. apply list_elem_of_here.
Qed.

Lemma on_line_kills line c : closed_kills c -> closed_kills (on_line line c).
Proof.
  intros H. unfold on_line. destruct (decodeTransportFrame _); [|by apply fail_kills]. unfold on_frame.
  repeat case_match; try (by apply fail_kills); exact H.
Qed.

Lemma read_lines_kills lines rest c : closed_kills c -> closed_kills (read_lines lines rest c).
Proof.
  revert c. induction lines as [|line lines IH]; intros c H; cbn [read_lines]; [exact H|]. cbv zeta.
  destruct (rc_closed _); [|apply IH]; by apply on_line_kills.
Qed.

Lemma did_kills a c : closed_kills c -> closed_kills (did a c).
Proof. intros H Hc. destruct (H Hc) as [?|?]; [by left | right; cbn; apply elem_of_app; by left]. Qed.

Lemma step_kills c e : closed_kills c -> rc_result c = Unsettled \/ rc_closed c = true -> closed_kills (step c e).
Proof.
  intros H Hr. destruct e; cbn [child_step].
  - unfold onStdout. destruct (rc_closed c); [done|]. cbv zeta. destruct (_ <? _); [by apply fail_kills|].
    destruct (lines_and_rest _). by apply read_lines_kills.
  - unfold onStderr. destruct (over c); [done|]. destruct (_ <? _); [by apply fail_kills | exact H].
  - unfold onError. destruct (over c); [done | by apply fail_kills].
  - unfold onClose. destruct (rc_closed c); [done|]. destruct (rc_admitted c); [|by apply fail_kills].
    case_bool_decide; [|by apply fail_kills]. intros _. left. cbn. destruct Hr as [->|]; [by eexists | done].
  - unfold onDeadline. destruct (rc_closed c); [done | by apply fail_kills, did_kills].
  - unfold onAbort. destruct (_ || _); [done | by apply fail_kills, did_kills].
  - by apply fail_kills.
  - unfold complete_claim. destruct (rc_disposed c), (rc_claimed c); exact H.
  - unfold complete_send. destruct (rc_prompt c) as [|[n p]|]; [done | by apply did_kills | done].
  - unfold close_relay. destruct (rc_disposed c); [done|]. intros _. right. cbn. apply elem_of_app. right. apply list_elem_of_here.
Qed.

Lemma run_kills es c : fresh c -> closed_kills (run c es).
Proof.
  intros Hf. induction es as [|e es IH] using rev_ind.
  { destruct Hf as [(_ & Hc & _) _]. intros H. cbn in H. congruence. }
  pose proof (settled_run es c Hf) as Hs. unfold child_run in *. rewrite foldl_app. cbn [foldl]. apply step_kills; [exact IH|].
  unfold settled_by in Hs. cbv zeta in Hs. destruct (existsb _ _); destruct Hs as [Hs|Hs];
    [right; apply Hs | right; apply Hs | left; apply Hs | right; apply Hs].
Qed.
End follows.

(** ** What a relay delivers *)

(** The variables of the child are allowlisted ones. *)
Lemma transport_env_keys existsSync execPath source environment :
  buildTransportEnv existsSync execPath source = Ok environment -> Forall (fun kv => kv.1 ∈ TRANSPORT_ENV_KEYS) environment.
Proof.
  unfold buildTransportEnv. cbv zeta. rewrite res_bind_Ok. intros (u & _ & [= <-]). apply Forall_app. split.
  - apply Forall_forall. intros kv [H _]%list_elem_of_In%filter_In. apply list_elem_of_In in H. revert H. unfold inherited_env.
    rewrite list_elem_of_omap. intros (key & Hk & H). destruct (source key) as [[|ch v]|]; [done| |done]. by injection H as <-.
  - rewrite Forall_singleton. cbn [fst]. apply list_elem_of_In. unfold TRANSPORT_ENV_KEYS. cbn [map]. do 8 right. by left.
Qed.
Section relays.
  Context (realpath : jsstr -> option jsstr) (existsSync : jsstr -> bool) (execPath : jsstr) (env : jsstr -> option jsstr).
  Context (cwd : jsval) (prompt : jsstr) (taskClass : option RelayTaskClass) (aborted : bool).
  Context (stdoutLimit stderrLimit deadlineMs : Z).
#[local] Abbreviation start := (startRelay realpath existsSync execPath env cwd prompt taskClass aborted).
#[local] Abbreviation run := (child_run stdoutLimit stderrLimit deadlineMs).

(** The relay a start leaves. *)
Lemma startRelay_Ok c :
  start = Ok c ->
  exists class root environment,
    requireCanonicalAbsoluteRoot realpath cwd = Ok root /\ buildTransportEnv existsSync execPath env = Ok environment /\
    c = mkChild class [] [] false None false false false Unsettled Unsettled
          [Spawned TRANSPORT_BINARY TRANSPORT_ARGV root environment; Wrote (buildStartFrame prompt)].
Proof.
  unfold startRelay. rewrite res_bind_Ok. intros (class & _ & H). rewrite res_bind_Ok in H. destruct H as (root & Hroot & H).
  rewrite res_bind_Ok in H. destruct H as (u & _ & H). rewrite res_bind_Ok in H. destruct H as (environment & Henv & [= <-]).
  by exists class, root, environment.
Qed.

Lemma start_fresh c : start = Ok c -> fresh (rc_class c) c.
Proof. intros (class & root & environment & _ & _ & ->)%startRelay_Ok. by repeat split. Qed.

(** A result is what the child said on its two lines. *)
Lemma run_result_heard c es v :
  start = Ok c -> rc_result (run c es) = Resolved v ->
  existsb is_close es = true /\
  exists l1 l2 nonce p, stdout_of (before_close es) = l1 ++ [10%N] ++ l2 ++ [10%N] /\
    prompt_line (rc_class c) l1 nonce p /\ result_line l2 v.
Proof.
  intros Hstart Hv. pose proof (settled_run stdoutLimit stderrLimit deadlineMs _ es c (start_fresh c Hstart)) as Hs.
  unfold settled_by in Hs. cbv zeta in Hs. destruct (existsb is_close es).
  - destruct Hs as [(_ & n & p & v' & Hr & Hh & Hrest)|[_ [cause Hr]]]; [|congruence]. rewrite Hv in Hr. injection Hr as <-.
    apply heard_Answered in Hh as (l1 & l2 & Hl & H1 & H2). split; [done|]. exists l1, l2, n, p. split; [|done].
    rewrite <- (lines_unread (stdout_of (before_close es))). unfold rest_of in Hrest. rewrite Hl, Hrest. unfold unread. cbn.
    by rewrite !app_nil_r, <- app_assoc.
  - destruct Hs as [(_ & _ & _ & _ & Hr & _)|[_ [cause Hr]]]; congruence.
Qed.

(** C12: the reviewer's answer a relay delivers is what the provider's child
    said.  Whatever the chunks its stdout came in and whatever else happened,
    a result means that the child closed its pipes after exactly two lines, a
    prompt frame with its nonce and a result frame, and the result is the
    output of the second; a child that says those two lines within the limits
    gets its output delivered at the close; and once the relay is closed no
    event changes the outcome. *)
Theorem relay_delivers_the_stream c :
  start = Ok c ->
  (forall es v, rc_result (run c es) = Resolved v ->
     existsb is_close es = true /\
     exists l1 l2 nonce p, stdout_of (before_close es) = l1 ++ [10%N] ++ l2 ++ [10%N] /\
       prompt_line (rc_class c) l1 nonce p /\ result_line l2 v) /\
  (forall es l1 l2 nonce p v code signal,
     calm stdoutLimit stderrLimit es -> 10%N ∉ l1 -> 10%N ∉ l2 -> stdout_of es = l1 ++ [10%N] ++ l2 ++ [10%N] ->
     prompt_line (rc_class c) l1 nonce p -> result_line l2 v ->
     rc_prompt (run c es) = Resolved (nonce, p) /\ rc_result (run c (es ++ [ChildClosed code signal])) = Resolved v) /\
  (forall es e, rc_closed (run c es) = true ->
     rc_closed (run c (es ++ [e])) = true /\ rc_result (run c (es ++ [e])) = rc_result (run c es)).
Proof.
  intros Hstart. pose proof (start_fresh c Hstart) as Hf. split_and!.
  - intros es v. by apply run_result_heard.
  - intros es l1 l2 nonce p v code signal Hcalm Hn1 Hn2 Hout H1 H2.
    assert (lines_and_rest (stdout_of es) = ([l1; l2], [])) as Hl.
    { rewrite Hout. rewrite <- (lines_of_unread [l1; l2] []); [|by repeat constructor | set_solver]. f_equal. unfold unread. cbn.
      by rewrite !app_nil_r, <- app_assoc. }
    assert (heard_of (rc_class c) (stdout_of es) = Answered nonce p v) as Hh.
    { unfold heard_of, heard. rewrite Hl. cbn [fst foldl]. rewrite (prompt_line_heard _ _ nonce p) by done. by apply result_line_heard. }
    destruct (calm_run stdoutLimit stderrLimit deadlineMs _ es c _ Hf Hcalm Hh) as [Hhear _].
    { intros data [k Hk] Hb. unfold heard_of, heard in Hh, Hb. rewrite Hk, lines_and_rest_app in Hh. cbn [fst] in Hh.
      rewrite foldl_app, Hb, hear_Broken in Hh. done. }
    pose proof Hhear as (_ & _ & _ & _ & _ & _ & Hp & _). split; [exact Hp|]. unfold child_run. rewrite foldl_app. cbn [foldl child_step].
    rewrite <- Hh in Hhear. apply (step_close _ _ code signal) in Hhear as [(_ & n & p' & v' & Hr & Hh' & _)|[_ []]].
    + rewrite Hh in Hh'. injection Hh' as _ _ <-. exact Hr.
    + exists nonce, p, v. split; [done|]. unfold rest_of. by rewrite Hl.
  - intros es e Hc. unfold child_run in *. rewrite foldl_app. cbn [foldl]. by apply step_closed.
Qed.

(** C15: what a relay does to its child.  The child is the fixed binary with
    the fixed arguments, in the canonical root, under only the allowlisted
    variables; it is first written the start frame with the Task's prompt, and
    after that the relay only ends its input with a completion that carries the
    nonce of a prompt line of the child, or kills it; and a relay that closed
    without a result has killed it. *)
Theorem relay_child_protocol c es :
  start = Ok c ->
  exists root environment tail,
    requireCanonicalAbsoluteRoot realpath cwd = Ok root /\ Forall (fun kv => kv.1 ∈ TRANSPORT_ENV_KEYS) environment /\
    rc_acts (run c es) =
      [Spawned TRANSPORT_BINARY TRANSPORT_ARGV root environment; Wrote (buildStartFrame prompt)] ++ tail /\
    Forall (fun act => act = Killed \/
      exists nonce p output line, act = Ended (buildCompleteFrame nonce output) /\ Send output ∈ es /\
        line ∈ fst (lines_and_rest (stdout_of es)) /\ prompt_line (rc_class c) line nonce p) tail /\
    (rc_closed (run c es) = true -> (exists v, rc_result (run c es) = Resolved v) \/ Killed ∈ tail).
Proof.
  intros Hstart. pose proof (start_fresh c Hstart) as Hf.
  destruct (startRelay_Ok c Hstart) as (class & root & environment & Hroot & Henv & Hc).
  destruct (run_acts stdoutLimit stderrLimit deadlineMs es c) as (tail & Hacts & Hall).
  exists root, environment, tail. split_and!; [done | by apply (transport_env_keys _ _ _ _ Henv) | by rewrite Hacts, Hc | |].
  - eapply Forall_impl; [exact Hall|]. intros act [->|(n & p & o & -> & Hp & Ho)]; [by left|]. right.
    destruct (run_prompt _ _ _ _ es c _ Hf Hp) as (line & Hin & Hline). by exists n, p, o, line.
  - intros H. destruct (run_kills stdoutLimit stderrLimit deadlineMs _ es c Hf H) as [?|Hk]; [by left|]. right.
    rewrite Hacts, Hc, elem_of_app in Hk. destruct Hk as [Hk|Hk]; [|done].
    cbn [rc_acts] in Hk. rewrite !elem_of_cons in Hk. destruct Hk as [Hk|[Hk|Hk]]; [discriminate Hk .. | by apply not_elem_of_nil in Hk].
Qed.
End relays.

(** ** A conversation in chunks that cut its lines *)
Definition sample_start : res RelayChild :=
  startRelay (fun p => Some p) (fun _ => true) (js "/usr/bin/node") (fun key => if str_eqb key (js "HOME") then Some (js "/h") else None)
    (JStr (js "/work/p")) (js "GENTLE_AI_REVIEW_PROVIDER_TASK {}") None false.
Definition sample_relay : RelayChild := match sample_start with Ok c => c | Throw _ => mkChild lens_task [] [] true None true true true Unsettled Unsettled [] end.

Definition sample_materialized : jsstr :=
  PROVIDER_MATERIALIZATION_HEADER ++ js " " ++ json_text (JObj [(MATERIALIZATION_TASK_PROMPT_FIELD, JStr (js "t"))]) ++ [10%N] ++ js "review".
Definition sample_prompt_line : bytes :=
  json_text (JObj [(js "schema", JStr TRANSPORT_SCHEMA); (js "operation", JStr OP_PROMPT); (js "nonce", JStr (js "n1"));
                   (js "prompt", JStr sample_materialized)]).
Definition sample_result_line : bytes :=
  json_text (JObj [(js "schema", JStr TRANSPORT_SCHEMA); (js "operation", JStr OP_RESULT); (js "output", JStr (js "pass"))]).
Definition sample_stream : bytes := sample_prompt_line ++ [10%N] ++ sample_result_line ++ [10%N].
Definition sample_events : list child_event :=
  [Stdout (firstn 7 sample_stream); Claim; Stderr (js "warm"); Stdout (firstn 200 (skipn 7 sample_stream));
   Send (JStr (js "done")); Stdout (skipn 207 sample_stream)].

Lemma sample_prompt : prompt_line provider_role sample_prompt_line (js "n1") sample_materialized.
Proof. eexists. split_and!; [vm_compute; reflexivity | reflexivity | reflexivity | done | vm_compute; reflexivity]. Qed.
Lemma sample_result : result_line sample_result_line (js "pass").
Proof. eexists. split_and!; [vm_compute; reflexivity | reflexivity | reflexivity | done]. Qed.

Lemma relay_delivers_the_stream_witness :
  sample_start = Ok sample_relay /\
  rc_result (child_run 4096 64 1000 sample_relay (sample_events ++ [ChildClosed (Some 0) None])) = Resolved (js "pass").
Proof.
  assert (sample_start = Ok sample_relay) as H by (vm_compute; reflexivity). split; [exact H|]. unfold sample_start in H.
  destruct (relay_delivers_the_stream _ _ _ _ _ _ _ _ 4096 64 1000 sample_relay H) as (_ & Hc & _).
  refine (proj2 (Hc sample_events sample_prompt_line sample_result_line (js "n1") sample_materialized (js "pass") (Some 0) None _ _ _ _ _ _)).
  - split; [repeat constructor|]. split; vm_compute; discriminate.
  - apply (bool_decide_unpack (10%N ∉ sample_prompt_line)). vm_compute. exact I.
  - apply (bool_decide_unpack (10%N ∉ sample_result_line)). vm_compute. exact I.
  - vm_compute. reflexivity.
  - exact sample_prompt.
  - exact sample_result.
Defined.

Lemma relay_child_protocol_witness :
  sample_start = Ok sample_relay /\
  exists tail, rc_acts (child_run 4096 64 1000 sample_relay (sample_events ++ [Deadline])) =
    [Spawned TRANSPORT_BINARY TRANSPORT_ARGV (js "/work/p") [(js "HOME", js "/h"); (js "PATH", js "/usr/bin:/home/linuxbrew/.linuxbrew/bin")];
     Wrote (buildStartFrame (js "GENTLE_AI_REVIEW_PROVIDER_TASK {}"))] ++ tail /\
    Killed ∈ tail.
Proof.
  assert (sample_start = Ok sample_relay) as H by (vm_compute; reflexivity). split; [exact H|]. unfold sample_start in H.
  destruct (relay_child_protocol _ _ _ _ _ _ _ _ 4096 64 1000 sample_relay (sample_events ++ [Deadline]) H)
    as (root & environment & tail & Hroot & _ & Hacts & _ & Hkill).
  exists tail. split.
  - rewrite Hacts. f_equal. apply (f_equal (firstn 2)) in Hacts.
    assert (firstn 2 (rc_acts (child_run 4096 64 1000 sample_relay (sample_events ++ [Deadline]))) =
      [Spawned TRANSPORT_BINARY TRANSPORT_ARGV (js "/work/p") [(js "HOME", js "/h"); (js "PATH", js "/usr/bin:/home/linuxbrew/.linuxbrew/bin")];
       Wrote (buildStartFrame (js "GENTLE_AI_REVIEW_PROVIDER_TASK {}"))]) as Hc by (vm_compute; reflexivity).
    rewrite Hc in Hacts. cbn [app firstn] in Hacts. symmetry. exact Hacts.
  - destruct Hkill as [[v Hv]|Hkill]; [vm_compute; reflexivity | vm_compute in Hv; discriminate Hv | exact Hkill].
Defined.
