(* ===== verification/RelayHooks.v ===== *)
(** * The hooks of the reviewer relay (opencode/plugins/lib/reviewer-relay-core.ts,
    createReviewerRelayHooks)

    Several instances of the plugin share one registry of live relays.  A hook
    runs in the steps between its awaits: [step] starts a hook, resumes one whose
    answer came, or lets a child act; [steps] is any interleaving of them.
    Logging is not modelled. *)
From S2P Require Import Prelude JsVal Json JsOps Path Validation Codec Envelope Server ReviewArgv SddRuntime PluginValues RelayFrames RelayChild.
Open Scope Z_scope.

(** ** Sets with the insertion order of a JS Set *)
Definition set_add (k : jsstr) (s : list jsstr) : list jsstr := if mem k s then s else s ++ [k].
Definition set_delete (k : jsstr) (s : list jsstr) : list jsstr := List.filter (fun k' => negb (str_eqb k k')) s.

(** ** Names *)
Definition taskKey (sessionID callID subagentType : jsstr) : jsstr := sessionID ++ js ":" ++ callID ++ js ":" ++ subagentType.

Definition isRelayAgent (v : jsval) : option jsstr := match v with JStr s => if mem s RELAY_AGENTS then Some s else None | _ => None end.

Definition refusalPrompt (reason : jsstr) : jsstr :=
  REFUSAL_ENVELOPE_CODE ++ js ": the reviewer relay refused this Task before launch: " ++ reason ++ [10%N]
  ++ js "You have no review binding and no frozen candidate evidence. Do not inspect anything, "
  ++ js "do not fabricate findings, and do not return a review result. "
  ++ js "Reply with exactly: " ++ REFUSAL_ENVELOPE_CODE.
Definition refusalOutput (reason : jsstr) : jsstr := REFUSAL_ENVELOPE_CODE ++ js ": " ++ reason.

(** A relay agent named by the title of a session. *)
Definition titled_agent (title : jsstr) : option jsstr :=
  List.find (fun agent => let suffix := js " (@" ++ agent ++ js " subagent)" in
                          endsWith title suffix && (js_length suffix <? js_length title)) RELAY_AGENTS.

(** The child session and the agent of a session.created event. *)
Definition decodeReviewSession (info : jsval) : option (jsstr * jsstr) :=
  match info with
  | JObj _ =>
      match at_key info "id" with
      | JStr id =>
          match at_key info "agent" with
          | JUndef => match at_key info "title" with
                      | JStr title => option_map (pair id) (titled_agent title)
                      | _ => None
                      end
          | agent => option_map (pair id) (isRelayAgent agent)
          end
      | _ => None
      end
  | _ => None
  end.

(** ** The state *)
Record Registration := mkRegistration {
  rg_owner : nat;
  rg_relay : RelayChild;
  rg_completing : bool;
  rg_parentSessionID : jsstr;
  rg_subagentType : jsstr;
  rg_materialized : option jsstr;
  rg_childSessionID : option jsstr
}.

(** One instance of the plugin. *)
Record Instance := mkInstance {
  in_reviewSessions : list jsstr;
  in_materializedBySession : list (jsstr * jsstr);
  in_deferred : list (jsstr * nat);
  in_refused : list (jsstr * jsstr)
}.

(** What a hook returned. *)
Inductive hook_result :=
  | Returned                      (* undefined: the host goes on *)
  | ToolRefusal (error : jsstr)
  | Raised (cause : exn).

(** Where a hook is: at one of its awaits, or done. *)
Inductive hook_phase :=
  | AwaitCachedPolicy (cached : jsstr)
  | AwaitSession
  | AwaitPolicy (directory : jsval)
  | AwaitMaterialized (r : nat)
  | AwaitCompletePrompt (r : nat) (extracted : jsval)
  | AwaitComplete (r : nat)
  | Finished (result : hook_result).

(** A call of a hook on a relay Task: [hc_value] is what the hook may rewrite,
    [output.args] before the Task and [output.output] after it. *)
Record HookCall := mkCall {
  hc_instance : nat;
  hc_after : bool;
  hc_sessionID : jsstr;
  hc_key : jsstr;
  hc_agent : jsstr;
  hc_prompt : jsstr;
  hc_class : RelayTaskClass;
  hc_value : jsval;
  hc_phase : hook_phase
}.

Record Hooks := mkHooks {
  hk_relays : list (jsstr * nat);          (* the registry: keys and registrations *)
  hk_registrations : list Registration;
  hk_rootCache : list (jsstr * jsstr);
  hk_instances : list Instance;
  hk_calls : list HookCall
}.

Definition with_relays f (s : Hooks) := mkHooks (f (hk_relays s)) (hk_registrations s) (hk_rootCache s) (hk_instances s) (hk_calls s).
Definition with_registrations f (s : Hooks) := mkHooks (hk_relays s) (f (hk_registrations s)) (hk_rootCache s) (hk_instances s) (hk_calls s).
Definition with_rootCache f (s : Hooks) := mkHooks (hk_relays s) (hk_registrations s) (f (hk_rootCache s)) (hk_instances s) (hk_calls s).
Definition with_instances f (s : Hooks) := mkHooks (hk_relays s) (hk_registrations s) (hk_rootCache s) (f (hk_instances s)) (hk_calls s).
Definition with_calls f (s : Hooks) := mkHooks (hk_relays s) (hk_registrations s) (hk_rootCache s) (hk_instances s) (f (hk_calls s)).

Definition with_relay f (g : Registration) : Registration :=
  mkRegistration (rg_owner g) (f (rg_relay g)) (rg_completing g) (rg_parentSessionID g) (rg_subagentType g) (rg_materialized g) (rg_childSessionID g).
Definition with_completing (g : Registration) : Registration :=
  mkRegistration (rg_owner g) (rg_relay g) true (rg_parentSessionID g) (rg_subagentType g) (rg_materialized g) (rg_childSessionID g).
Definition with_materialized (m : jsstr) (g : Registration) : Registration :=
  mkRegistration (rg_owner g) (rg_relay g) (rg_completing g) (rg_parentSessionID g) (rg_subagentType g) (Some m) (rg_childSessionID g).
Definition with_childSessionID (c : jsstr) (g : Registration) : Registration :=
  mkRegistration (rg_owner g) (rg_relay g) (rg_completing g) (rg_parentSessionID g) (rg_subagentType g) (rg_materialized g) (Some c).

Definition with_deferred f (i : Instance) : Instance := mkInstance (in_reviewSessions i) (in_materializedBySession i) (f (in_deferred i)) (in_refused i).
Definition with_refused f (i : Instance) : Instance := mkInstance (in_reviewSessions i) (in_materializedBySession i) (in_deferred i) (f (in_refused i)).
Definition with_sessions f g (i : Instance) : Instance := mkInstance (f (in_reviewSessions i)) (g (in_materializedBySession i)) (in_deferred i) (in_refused i).

Definition no_instance : Instance := mkInstance [] [] [] [].
Definition instance (i : nat) (s : Hooks) : Instance := default no_instance (hk_instances s !! i).
Definition on_instance (i : nat) (f : Instance -> Instance) : Hooks -> Hooks := with_instances (alter f i).
Definition on_registration (r : nat) (f : Registration -> Registration) : Hooks -> Hooks := with_registrations (alter f r).

(** The registration under a key. *)
Definition registered (key : jsstr) (s : Hooks) : option (nat * Registration) :=
  match assoc key (hk_relays s) with
  | Some r => option_map (pair r) (hk_registrations s !! r)
  | None => None
  end.

Definition close_registration (r : nat) : Hooks -> Hooks := on_registration r (with_relay close_relay).

(** [clearOwned] *)
Definition clearOwned (i : nat) (key : jsstr) (s : Hooks) : Hooks :=
  match registered key s with
  | Some (r, g) => if (rg_owner g =? i)%nat then close_registration r (with_relays (map_delete key) s) else s
  | None => s
  end.

(** ** Calls *)
Definition with_phase (p : hook_phase) (v : jsval) (c : HookCall) : HookCall :=
  mkCall (hc_instance c) (hc_after c) (hc_sessionID c) (hc_key c) (hc_agent c) (hc_prompt c) (hc_class c) v p.
Definition phase_of (n : nat) (p : hook_phase) (v : jsval) : Hooks -> Hooks := with_calls (alter (with_phase p v) n).

(** [output.args.prompt = text] *)
Definition with_prompt_arg (text : jsstr) (args : jsval) : jsval :=
  match args with JObj fs => JObj (set_key (js "prompt") (JStr text) fs) | _ => args end.

(** [refuseTaskBoundary], and the return of the refusal. *)
Definition refuse_before (n : nat) (c : HookCall) (refusal : exn) (s : Hooks) : Hooks :=
  phase_of n (Finished (ToolRefusal (exn_msg refusal))) (with_prompt_arg (refusalPrompt (exn_msg refusal)) (hc_value c))
    (on_instance (hc_instance c) (with_refused (map_set (hc_key c) (exn_msg refusal))) s).

(** [refuseCompletion] *)
Definition refuse_after (n : nat) (refusal : exn) (s : Hooks) : Hooks :=
  phase_of n (Finished (ToolRefusal (exn_msg refusal))) (JStr (refusalOutput (exn_msg refusal))) s.

Section hooks.
  Context (realpath : jsstr -> option jsstr) (existsSync : jsstr -> bool) (execPath : jsstr) (env : jsstr -> option jsstr).
  Context (serverRoot : jsval) (has_client has_broker : bool).
  Context (stdoutLimit stderrLimit deadlineMs : Z).

(** ** tool.execute.before *)

Definition lookupSessionDirectory (response : res jsval) : res jsval :=
  if has_client then session_directory response else Throw (sessionLookupFailed [js "the plugin has no OpenCode session client"]).
Definition loadAllowlistedPaths (response : res jsval) : res (list jsval) :=
  match (if has_broker then allowlisted_roots response else Throw (policyRefused [js "the plugin has no broker policy client"])) with
  | Ok paths => Ok paths
  | Throw cause => Throw (refusalOr cause policyRefused)
  end.

(** The directory of the session, once its lookup answered. *)
Definition usable_directory (response : res jsval) : res jsval :=
  match lookupSessionDirectory response with
  | Throw cause => Throw (refusalOr cause sessionLookupFailed)
  | Ok (JStr (c :: d)) => Ok (JStr (c :: d))
  | Ok _ => Throw (sessionLookupFailed [js "session lookup returned no usable repository directory"])
  end.

(** The rest of the hook once the root is there: the child starts, its
    registration is entered, and its prompt is awaited. *)
Definition root_resolved (n : nat) (c : HookCall) (root : res jsstr) (s : Hooks) : Hooks :=
  match root with
  | Throw cause => refuse_before n c (refusalOr cause rootRefused) s
  | Ok root =>
      match startRelay realpath existsSync execPath env (JStr root) (hc_prompt c) (Some (hc_class c)) false with
      | Throw cause => refuse_before n c (refusalOr cause spawnFailed) s
      | Ok relay =>
          let r := length (hk_registrations s) in
          let registration := mkRegistration (hc_instance c) relay false (hc_sessionID c) (hc_agent c) None None in
          phase_of n (AwaitMaterialized r) (hc_value c)
            (with_relays (map_set (hc_key c) r) (with_registrations (fun gs => gs ++ [registration]) s))
      end
  end.

(** The first part of the hook; [n] is its number. *)
Definition before_hook (i : nat) (tool sessionID callID : jsstr) (args : jsval) (s : Hooks) : Hooks :=
  let n := length (hk_calls s) in
  let enter (agent prompt : jsstr) class phase s :=
    with_calls (fun cs => cs ++ [mkCall i false sessionID (taskKey sessionID callID agent) agent prompt class args phase]) s in
  let ignored := enter [] [] lens_task (Finished Returned) s in
  if negb (str_eqb tool (js "task")) then ignored else
  match isRelayAgent (at_key args "subagent_type") with
  | None => ignored
  | Some agent =>
      match at_key args "prompt" with
      | JStr prompt =>
          let key := taskKey sessionID callID agent in
          match registered key s with
          | Some (r, g) =>
              enter agent prompt lens_task (Finished Returned)
                (if (rg_owner g =? i)%nat then s else on_instance i (with_deferred (map_set key r)) s)
          | None =>
              let refuse refusal := refuse_before n (mkCall i false sessionID key agent prompt lens_task args (Finished Returned)) refusal
                                      (enter agent prompt lens_task (Finished Returned) s) in
              if MAX_CONCURRENT_RELAYS <=? Z.of_nat (length (hk_relays s))
              then refuse (concurrencyRefused [js "the concurrent review relay cap ("; dec MAX_CONCURRENT_RELAYS; js ") is already reached"])
              else match classifyRelayTaskPrompt (JStr prompt) with
                   | Throw cause => refuse (refusalOr cause frameRefused)
                   | Ok class =>
                       if js_length sessionID =? 0 then refuse (rootRefused [js "session id is unavailable"])
                       else enter agent prompt class
                              (match assoc sessionID (hk_rootCache s) with
                               | Some cached => AwaitCachedPolicy cached
                               | None => AwaitSession
                               end) s
                   end
          end
      | _ => enter agent [] lens_task
               (Finished (ToolRefusal (exn_msg (taskRefused [js "review task prompt is unavailable for provider materialization"])))) s
      end
  end.

(** The answer of [client.session.get]. *)
Definition session_answered (n : nat) (response : res jsval) (s : Hooks) : Hooks :=
  match hk_calls s !! n with
  | Some c =>
      match hc_phase c with
      | AwaitSession =>
          match usable_directory response with
          | Throw cause => root_resolved n c (Throw cause) s
          | Ok directory => phase_of n (AwaitPolicy directory) (hc_value c) s
          end
      | _ => s
      end
  | None => s
  end.

(** The answer of the broker to [policy]. *)
Definition policy_answered (n : nat) (response : res jsval) (s : Hooks) : Hooks :=
  match hk_calls s !! n with
  | Some c =>
      match hc_phase c with
      | AwaitCachedPolicy cached =>
          root_resolved n c
            (projectPaths ← loadAllowlistedPaths response;
             _ ← selectCanonicalSessionRoot realpath (JStr cached) serverRoot projectPaths;
             Ok cached) s
      | AwaitPolicy directory =>
          match (projectPaths ← loadAllowlistedPaths response;
                 selectCanonicalSessionRoot realpath directory serverRoot projectPaths) with
          | Throw cause => root_resolved n c (Throw cause) s
          | Ok root => root_resolved n c (Ok root) (with_rootCache (map_set (hc_sessionID c) root) s)
          end
      | _ => s
      end
  | None => s
  end.

(** The prompt of the relay settled. *)
Definition prompt_settled (n : nat) (s : Hooks) : Hooks :=
  match hk_calls s !! n with
  | Some c =>
      match hc_phase c with
      | AwaitMaterialized r =>
          match rc_prompt ∘ rg_relay <$> hk_registrations s !! r with
          | Some (Resolved (_, materialized)) =>
              phase_of n (Finished Returned) (with_prompt_arg materialized (hc_value c))
                (on_registration r (with_materialized materialized) s)
          | Some (Rejected cause) =>
              refuse_before n c (refusalOr cause frameRefused) (clearOwned (hc_instance c) (hc_key c) s)
          | _ => s
          end
      | _ => s
      end
  | None => s
  end.

(** ** tool.execute.after *)

(** The [finally] of the completion. *)
Definition complete_finally (key : jsstr) (r : nat) (s : Hooks) : Hooks :=
  close_registration r (if bool_decide (assoc key (hk_relays s) = Some r) then with_relays (map_delete key) s else s).

Definition after_hook (i : nat) (tool sessionID callID : jsstr) (input_args args output : jsval) (s : Hooks) : Hooks :=
  let n := length (hk_calls s) in
  let enter agent phase s :=
    with_calls (fun cs => cs ++ [mkCall i true sessionID (taskKey sessionID callID agent) agent [] lens_task output phase]) s in
  let ignored := enter [] (Finished Returned) s in
  if negb (str_eqb tool (js "task")) then ignored else
  match isRelayAgent (nullish_or (at_key input_args "subagent_type") (at_key args "subagent_type")) with
  | None => ignored
  | Some agent =>
      let key := taskKey sessionID callID agent in
      match assoc key (in_refused (instance i s)) with
      | Some refusal =>
          phase_of n (Finished (ToolRefusal (exn_msg (taskRefused [refusalOutput refusal])))) (JStr (refusalOutput refusal))
            (enter agent (Finished Returned) (on_instance i (with_refused (map_delete key)) s))
      | None =>
          let deferredTo := assoc key (in_deferred (instance i s)) in
          let s := match deferredTo with Some _ => on_instance i (with_deferred (map_delete key)) s | None => s end in
          let delivered_elsewhere := match deferredTo with
            | Some r => bool_decide (assoc key (hk_relays s) = Some r) || default false (rg_completing <$> hk_registrations s !! r)
            | None => false
            end in
          if delivered_elsewhere then enter agent (Finished Returned) s else
          let refuse refusal := refuse_after n refusal (enter agent (Finished Returned) s) in
          match registered key s with
          | None => refuse (taskRefused [js "review Task relay completion has no matching live before hook"])
          | Some (r, g) =>
              if negb (rg_owner g =? i)%nat
              then refuse (taskRefused [js "review Task relay completion is owned by another plugin instance"])
              else if rg_completing g
              then refuse (duplicateCompletion [js "review Task relay completion is already in flight for this task"])
              else let s := on_registration r with_completing s in
                   match complete_claim (rg_relay g) with
                   | (Throw cause, _) => complete_finally key r (enter agent (Finished (Raised cause)) s)
                   | (Ok _, relay) =>
                       enter agent (AwaitCompletePrompt r (reviewerOutputText output)) (on_registration r (with_relay (fun _ => relay)) s)
                   end
          end
      end
  end.

(** The prompt that [complete] awaits: the completion is sent. *)
Definition complete_prompt (n : nat) (s : Hooks) : Hooks :=
  match hk_calls s !! n with
  | Some c =>
      match hc_phase c with
      | AwaitCompletePrompt r extracted =>
          match rc_prompt ∘ rg_relay <$> hk_registrations s !! r with
          | Some (Resolved _) => phase_of n (AwaitComplete r) (hc_value c) (on_registration r (with_relay (complete_send extracted)) s)
          | Some (Rejected cause) => complete_finally (hc_key c) r (phase_of n (Finished (Raised cause)) (hc_value c) s)
          | _ => s
          end
      | _ => s
      end
  | None => s
  end.

(** The result that [complete] awaits. *)
Definition complete_result (n : nat) (s : Hooks) : Hooks :=
  match hk_calls s !! n with
  | Some c =>
      match hc_phase c with
      | AwaitComplete r =>
          match rc_result ∘ rg_relay <$> hk_registrations s !! r with
          | Some (Resolved v) => complete_finally (hc_key c) r (phase_of n (Finished Returned) (JStr v) s)
          | Some (Rejected cause) => complete_finally (hc_key c) r (phase_of n (Finished (Raised cause)) (hc_value c) s)
          | _ => s
          end
      | _ => s
      end
  | None => s
  end.

(** ** event *)

(** The registrations of the registry, in its order. *)
Definition live_registrations (s : Hooks) : list (nat * Registration) :=
  omap (fun kr => option_map (pair (snd kr)) (hk_registrations s !! snd kr)) (hk_relays s).

Definition bound_to (child : jsstr) (g : Registration) : bool := bool_decide (rg_childSessionID g = Some child).
Definition bindable (parentSessionID : option jsstr) (agent : jsstr) (g : Registration) : bool :=
  str_eqb (rg_subagentType g) agent
  && bool_decide (rg_childSessionID g = None)
  && bool_decide (is_Some (rg_materialized g))
  && match parentSessionID with Some p => str_eqb (rg_parentSessionID g) p | None => true end.

Definition bindMaterializedToChild (child : jsstr) (parentSessionID : option jsstr) (agent : jsstr) (s : Hooks) : option jsstr * Hooks :=
  match List.find (fun rg => bound_to child (snd rg)) (live_registrations s) with
  | Some (_, g) => (rg_materialized g, s)
  | None =>
      match List.find (fun rg => bindable parentSessionID agent (snd rg)) (live_registrations s) with
      | Some (r, g) => (rg_materialized g, on_registration r (with_childSessionID child) s)
      | None => (None, s)
      end
  end.

Definition session_created (i : nat) (info : jsval) (s : Hooks) : Hooks :=
  match decodeReviewSession info with
  | None => s
  | Some (child, agent) =>
      let parentSessionID := match info with JObj _ => string_of (at_key info "parentID") | _ => None end in
      let s := on_instance i (with_sessions (set_add child) (fun m => m)) s in
      let '(materialized, s) := bindMaterializedToChild child parentSessionID agent s in
      match materialized with
      | Some m => on_instance i (with_sessions (fun x => x) (map_set child m)) s
      | None => s
      end
  end.

(** Closes the registrations of an instance whose key satisfies [p], and takes
    them out of the registry. *)
Definition close_owned (i : nat) (p : jsstr -> bool) (s : Hooks) : Hooks :=
  foldl (fun s kr =>
    match hk_registrations s !! snd kr with
    | Some g => if p (fst kr) && (rg_owner g =? i)%nat then close_registration (snd kr) (with_relays (map_delete (fst kr)) s) else s
    | None => s
    end) s (hk_relays s).

Definition keys_without {A} (prefix : jsstr) (m : list (jsstr * A)) : list (jsstr * A) :=
  List.filter (fun kv => negb (startsWith (fst kv) prefix)) m.

Definition clearSession (i : nat) (prefix : jsstr) (s : Hooks) : Hooks :=
  on_instance i (fun x => with_refused (keys_without prefix) (with_deferred (keys_without prefix) x))
    (close_owned i (fun key => startsWith key prefix) s).

Definition session_deleted (i : nat) (deleted : jsval) (s : Hooks) : Hooks :=
  match deleted with
  | JStr deleted => clearSession i (deleted ++ js ":") (on_instance i (with_sessions (set_delete deleted) (map_delete deleted)) s)
  | _ => s
  end.

Definition on_event (i : nat) (event : jsval) (s : Hooks) : Hooks :=
  let info := at_key (at_key event "properties") "info" in
  if is_text_of (at_key event "type") (js "session.created") then session_created i info s
  else if is_text_of (at_key event "type") (js "session.deleted") then session_deleted i (at_key info "id") s
  else s.

Definition dispose (i : nat) (s : Hooks) : Hooks :=
  close_owned i (fun _ => true) (on_instance i (fun _ => no_instance) s).

(** ** Interleavings *)

(** The events of a child that its relay's hooks do not cause; they pass no
    abort signal. *)
Definition child_only (e : child_event) : bool := match e with Claim | Send _ | CloseRelay | Abort => false | _ => true end.

Inductive hook_event :=
  | Before (i : nat) (tool sessionID callID : jsstr) (args : jsval)
  | SessionAnswered (n : nat) (response : res jsval)
  | PolicyAnswered (n : nat) (response : res jsval)
  | PromptSettled (n : nat)
  | After (i : nat) (tool sessionID callID : jsstr) (input_args args output : jsval)
  | CompletePrompt (n : nat)
  | CompleteResult (n : nat)
  | ChildActs (r : nat) (e : child_event)
  | HostEvent (i : nat) (event : jsval)
  | Dispose (i : nat).

Definition step (s : Hooks) (e : hook_event) : Hooks :=
  match e with
  | Before i tool sessionID callID args => before_hook i tool sessionID callID args s
  | SessionAnswered n response => session_answered n response s
  | PolicyAnswered n response => policy_answered n response s
  | PromptSettled n => prompt_settled n s
  | After i tool sessionID callID input_args args output => after_hook i tool sessionID callID input_args args output s
  | CompletePrompt n => complete_prompt n s
  | CompleteResult n => complete_result n s
  | ChildActs r e =>
      if child_only e
      then on_registration r (with_relay (fun c => child_step stdoutLimit stderrLimit deadlineMs c e)) s
      else s
  | HostEvent i event => on_event i event s
  | Dispose i => dispose i s
  end.
Definition steps (s : Hooks) (es : list hook_event) : Hooks := foldl step s es.
End hooks.

(** Fresh instances over an empty registry. *)
Definition new_hooks (instances : nat) : Hooks := mkHooks [] [] [] (repeat no_instance instances) [].

(** ** The transforms of a child session *)
Definition system_transform (x : Instance) (sessionID : jsval) (system : list jsstr) : list jsstr :=
  match sessionID with
  | JStr s => if mem s (in_reviewSessions x) then [TRANSPORT_ISOLATION_SYSTEM] else system
  | _ => system
  end.

Definition is_user_message (entry : jsval) : bool :=
  match at_key entry "info" with JObj fs => is_text_of (at_key (JObj fs) "role") (js "user") | _ => false end.

(** The first text part carries the prompt, the later ones are blanked. *)
Fixpoint rewrite_parts (text : jsstr) (parts : list jsval) : list jsval :=
  match parts with
  | [] => []
  | JObj fs :: parts =>
      if is_text_of (at_key (JObj fs) "type") (js "text")
      then JObj (set_key (js "text") (JStr text) fs) :: rewrite_parts [] parts
      else JObj fs :: rewrite_parts text parts
  | part :: parts => part :: rewrite_parts text parts
  end.

Definition rewrite_message (text : jsstr) (entry : jsval) : jsval :=
  match entry, at_key entry "parts" with
  | JObj fs, JArr parts => JObj (set_key (js "parts") (JArr (rewrite_parts text parts)) fs)
  | _, _ => entry
  end.

(** The messages up to the last user message, it, and the later ones. *)
Fixpoint last_user (messages : list jsval) : option (list jsval * jsval * list jsval) :=
  match messages with
  | [] => None
  | m :: messages =>
      match last_user messages with
      | Some (before, target, later) => Some (m :: before, target, later)
      | None => if is_user_message m then Some ([], m, messages) else None
      end
  end.

Definition messages_transform (x : Instance) (sessionID : jsval) (messages : list jsval) : list jsval :=
  match last_user messages with
  | None => messages
  | Some (before, target, later) =>
      let sessionID := match string_of sessionID with
                       | Some s => Some s
                       | None => string_of (at_key (at_key target "info") "sessionID")
                       end in
      match (s ← sessionID; assoc s (in_materializedBySession x)) with
      | Some materialized => before ++ [rewrite_message materialized target] ++ later
      | None => messages
      end
  end.
