(* ===== verification/RelayHooksFacts.v ===== *)
(** * Theorems of the relay's hooks: whose prompt and whose result a Task gets

    Every interleaving of hooks, answers and children keeps each registration
    with its owner and its Task, and finishes every hook on a relay Task with the
    provider's own text or a refusal. *)
From S2P Require Import Prelude JsVal Json JsOps Path Validation Codec Envelope Server ReviewArgv SddRuntime PluginValues RelayFrames RelayChild RelayChildFacts RelayHooks.
Open Scope Z_scope.

(** ** Maps *)
Lemma assoc_keys_without {A} prefix (m : list (jsstr * A)) k v : assoc k (keys_without prefix m) = Some v -> assoc k m = Some v.
Proof. intros H. by apply (assoc_filter (fun x => negb (startsWith x prefix))) in H as [H _]. Qed.

Lemma assoc_NoDup {A} k (v : A) m : NoDup (map fst m) -> (k, v) ∈ m -> assoc k m = Some v.
Proof.
  induction m as [|[a b] m IH]; cbn [map fst assoc]; [by intros _ ?%not_elem_of_nil|]. rewrite NoDup_cons, elem_of_cons.
  intros [Hn H] [[= -> ->]|Hin]; [by rewrite (proj2 (str_eqb_eq a a))|]. rewrite (proj2 (str_eqb_neq k a)); [by apply IH|].
  intros ->. apply Hn. apply list_elem_of_In, in_map_iff. exists (a, v). split; [done | by apply list_elem_of_In].
Qed.

(** ** Registrations only grow *)

(** A settlement once made is kept. *)
Definition kept {A} (p q : settlement A) : Prop := forall v, p = Resolved v -> q = Resolved v.

(** A later state of a registration. *)
Record later (g g' : Registration) : Prop := {
  later_owner : rg_owner g' = rg_owner g;
  later_parent : rg_parentSessionID g' = rg_parentSessionID g;
  later_agent : rg_subagentType g' = rg_subagentType g;
  later_completing : rg_completing g = true -> rg_completing g' = true;
  later_prompt : kept (rc_prompt (rg_relay g)) (rc_prompt (rg_relay g'));
  later_result : kept (rc_result (rg_relay g)) (rc_result (rg_relay g'));
  later_child : forall c, rg_childSessionID g = Some c -> rg_childSessionID g' = Some c
}.

#[export] Instance later_preorder : PreOrder later.
Proof.
  split; [intros g; split; unfold kept; auto|]. intros g1 g2 g3 [] []. split; try congruence; unfold kept in *; auto.
Qed.

Definition grown (gs gs' : list Registration) : Prop := forall r g, gs !! r = Some g -> exists g', gs' !! r = Some g' /\ later g g'.

#[export] Instance grown_preorder : PreOrder grown.
Proof.
  split.
  - intros gs r g H. exists g. split; [done | reflexivity].
  - intros g1 g2 g3 H12 H23 r g H. destruct (H12 _ _ H) as (g' & H' & L1). destruct (H23 _ _ H') as (g'' & H'' & L2).
    exists g''. split; [done | by transitivity g'].
Qed.

Lemma grown_app gs g : grown gs (gs ++ [g]).
Proof. intros r g' H. exists g'. split; [by apply lookup_app_l_Some | reflexivity]. Qed.

Lemma grown_alter gs r f : (forall g, gs !! r = Some g -> later g (f g)) -> grown gs (alter f r gs).
Proof.
  intros Hf r' g H. destruct (base.decide (r = r')) as [<-|Hne].
  - exists (f g). rewrite list_lookup_alter_eq, H. split; [done | by apply Hf].
  - exists g. rewrite list_lookup_alter_ne by done. split; [done | reflexivity].
Qed.

(** ** A step of a child keeps what settled *)
Section children.
  Context (stdoutLimit stderrLimit deadlineMs : Z).

Lemma fail_result cause c v : rc_result c = Resolved v -> rc_result (fail cause c) = Resolved v.
Proof. intros H. unfold fail. destruct (rc_closed c); [done|]. cbn. by rewrite H. Qed.

Lemma on_line_result line c v : rc_result c = Resolved v -> rc_result (on_line line c) = Resolved v.
Proof.
  intros H. unfold on_line. destruct (decodeTransportFrame _); [|by apply fail_result]. unfold on_frame.
  repeat case_match; try done; by apply fail_result.
Qed.

Lemma read_lines_result lines rest c v : rc_result c = Resolved v -> rc_result (read_lines lines rest c) = Resolved v.
Proof.
  revert c. induction lines as [|line lines IH]; intros c H; cbn [read_lines]; [done|]. cbv zeta.
  destruct (rc_closed _); [|apply IH]; by apply on_line_result.
Qed.

Lemma step_keeps_result c e v : rc_result c = Resolved v -> rc_result (child_step stdoutLimit stderrLimit deadlineMs c e) = Resolved v.
Proof.
  intros H. destruct e; cbn [child_step].
  - unfold onStdout. destruct (rc_closed c); [done|]. cbv zeta. destruct (_ <? _); [by apply fail_result|].
    destruct (lines_and_rest _). by apply read_lines_result.
  - unfold onStderr. destruct (over c); [done|]. destruct (_ <? _); [by apply fail_result | done].
  - unfold onError. destruct (over c); [done | by apply fail_result].
  - unfold onClose. destruct (rc_closed c); [done|]. destruct (rc_admitted c); [|by apply fail_result].
    case_bool_decide; [|by apply fail_result]. cbn. by rewrite H.
  - unfold onDeadline. destruct (rc_closed c); [done | by apply fail_result].
  - unfold onAbort. destruct (_ || _); [done | by apply fail_result].
  - by apply fail_result.
  - unfold complete_claim. destruct (rc_disposed c), (rc_claimed c); done.
  - unfold complete_send. by destruct (rc_prompt c) as [|[n p]|].
  - unfold close_relay. destruct (rc_disposed c); [done|]. cbn. destruct (rc_closed c); cbn; by rewrite H.
Qed.

Lemma later_step g e : later g (with_relay (fun c => child_step stdoutLimit stderrLimit deadlineMs c e) g).
Proof.
  split; try done; intros v Hv; cbn [with_relay rg_relay]; [by apply step_keeps_prompt | by apply step_keeps_result].
Qed.
End children.

Section hooks.
  Context (realpath : jsstr -> option jsstr) (existsSync : jsstr -> bool) (execPath : jsstr) (env : jsstr -> option jsstr).
  Context (serverRoot : jsval) (has_client has_broker : bool).
  Context (stdoutLimit stderrLimit deadlineMs : Z).
#[local] Abbreviation run := (child_run stdoutLimit stderrLimit deadlineMs).
#[local] Abbreviation step := (RelayHooks.step realpath existsSync execPath env serverRoot has_client has_broker stdoutLimit stderrLimit deadlineMs).
#[local] Abbreviation steps := (RelayHooks.steps realpath existsSync execPath env serverRoot has_client has_broker stdoutLimit stderrLimit deadlineMs).

(** ** The invariant *)

(** The relay of a registration is a run of a child that was started. *)
Definition run_of (relay : RelayChild) (c0 : RelayChild) (es : list child_event) : Prop :=
  exists root prompt class, startRelay realpath existsSync execPath env (JStr root) prompt (Some class) false = Ok c0 /\
    rc_class c0 = class /\ relay = run c0 es.

Definition registration_ok (g : Registration) : Prop :=
  (exists c0 es, run_of (rg_relay g) c0 es) /\
  (forall m, rg_materialized g = Some m -> exists nonce, rc_prompt (rg_relay g) = Resolved (nonce, m)).

(** The registration [r], which was started under the key of the call. *)
Definition serves (origins : list jsstr) (gs : list Registration) (c : HookCall) (r : nat) (g : Registration) : Prop :=
  origins !! r = Some (hc_key c) /\ gs !! r = Some g.

Definition own (origins : list jsstr) (gs : list Registration) (c : HookCall) (r : nat) (g : Registration) : Prop :=
  serves origins gs c r g /\ rg_owner g = hc_instance c.

(** How a hook on a relay Task may end, before the Task and after it. *)
Definition before_ok (origins : list jsstr) (gs : list Registration) (c : HookCall) (result : hook_result) : Prop :=
  match result with
  | Returned =>
      (exists r g nonce m, own origins gs c r g /\ rc_prompt (rg_relay g) = Resolved (nonce, m) /\
         at_key (hc_value c) "prompt" = JStr m) \/
      ((exists r g, serves origins gs c r g) /\ at_key (hc_value c) "prompt" = JStr (hc_prompt c))
  | ToolRefusal m => at_key (hc_value c) "prompt" = JStr (refusalPrompt m) \/ string_of (at_key (hc_value c) "prompt") = None
  | Raised _ => False
  end.

Definition after_ok (origins : list jsstr) (gs : list Registration) (c : HookCall) (result : hook_result) : Prop :=
  match result with
  | Returned =>
      (exists r g v, own origins gs c r g /\ rc_result (rg_relay g) = Resolved v /\ hc_value c = JStr v) \/
      (exists r g, serves origins gs c r g /\ rg_owner g <> hc_instance c)
  | ToolRefusal _ => exists reason, hc_value c = JStr (refusalOutput reason)
  | Raised _ => exists r g, own origins gs c r g /\ rg_completing g = true
  end.

(** The two kinds of calls: those on relay Tasks, which name their agent. *)
Definition call_ok (origins : list jsstr) (gs : list Registration) (c : HookCall) : Prop :=
  (hc_agent c = [] /\ exists result, hc_phase c = Finished result) \/
  match hc_phase c with
  | AwaitCachedPolicy _ | AwaitSession | AwaitPolicy _ => hc_after c = false /\ (exists fs, hc_value c = JObj fs)
  | AwaitMaterialized r => hc_after c = false /\ (exists fs, hc_value c = JObj fs) /\ exists g, own origins gs c r g
  | AwaitCompletePrompt r _ | AwaitComplete r => hc_after c = true /\ exists g, own origins gs c r g /\ rg_completing g = true
  | Finished result => if hc_after c then after_ok origins gs c result else before_ok origins gs c result
  end.

Record consistent (origins : list jsstr) (s : Hooks) : Prop := {
  c_origins : length origins = length (hk_registrations s);
  c_registrations : forall r g, hk_registrations s !! r = Some g -> registration_ok g;
  c_keys : NoDup (map fst (hk_relays s));
  c_relays : forall key r, assoc key (hk_relays s) = Some r -> origins !! r = Some key /\ is_Some (hk_registrations s !! r);
  c_deferred : forall i x key r, hk_instances s !! i = Some x -> assoc key (in_deferred x) = Some r ->
    origins !! r = Some key /\ exists g, hk_registrations s !! r = Some g /\ rg_owner g <> i;
  c_calls : forall n c, hk_calls s !! n = Some c -> call_ok origins (hk_registrations s) c
}.

(** *** What the growth of registrations keeps *)
Lemma serves_grown origins origins' gs gs' c r g :
  origins `prefix_of` origins' -> grown gs gs' -> serves origins gs c r g -> exists g', serves origins' gs' c r g' /\ later g g'.
Proof.
  intros [k ->] Hg [Ho H]. destruct (Hg _ _ H) as (g' & H' & L). exists g'. split; [|done]. split; [by apply lookup_app_l_Some | done].
Qed.

Lemma own_grown origins origins' gs gs' c r g :
  origins `prefix_of` origins' -> grown gs gs' -> own origins gs c r g -> exists g', own origins' gs' c r g' /\ later g g'.
Proof.
  intros Hp Hg [H Ho]. destruct (serves_grown _ _ _ _ _ _ _ Hp Hg H) as (g' & H' & L). exists g'. split; [|done]. split; [done|].
  by rewrite (later_owner _ _ L).
Qed.

Lemma call_grown origins origins' gs gs' c :
  origins `prefix_of` origins' -> grown gs gs' -> call_ok origins gs c -> call_ok origins' gs' c.
Proof.
  intros Hp Hg [H|H]; [by left|]. right.
  pose proof (fun r g => own_grown _ _ _ _ c r g Hp Hg) as Hown. pose proof (fun r g => serves_grown _ _ _ _ c r g Hp Hg) as Hserve.
  destruct (hc_phase c) as [| | |r|r x|r|result]; try done.
  - destruct H as (H1 & H2 & g & H). destruct (Hown _ _ H) as (g' & H' & _). eauto.
  - destruct H as (H1 & g & H & Hc). destruct (Hown _ _ H) as (g' & H' & L). split; [done|]. exists g'. split; [done|]. by apply (later_completing _ _ L).
  - destruct H as (H1 & g & H & Hc). destruct (Hown _ _ H) as (g' & H' & L). split; [done|]. exists g'. split; [done|]. by apply (later_completing _ _ L).
  - destruct (hc_after c), result as [|m|cause]; cbn [after_ok before_ok] in *; try done.
    + destruct H as [(r & g & v & H & Hr & Hv)|(r & g & H & Hn)].
      * destruct (Hown _ _ H) as (g' & H' & L). left. exists r, g', v. split; [done|]. split; [|done]. by apply (later_result _ _ L).
      * destruct (Hserve _ _ H) as (g' & H' & L). right. exists r, g'. by rewrite (later_owner _ _ L).
    + destruct H as (r & g & H & Hc). destruct (Hown _ _ H) as (g' & H' & L). exists r, g'. split; [done|]. by apply (later_completing _ _ L).
    + destruct H as [(r & g & nonce & m & H & Hm & Hv)|[(r & g & H) Hv]].
      * destruct (Hown _ _ H) as (g' & H' & L). left. exists r, g', nonce, m. split; [done|]. split; [|done]. by apply (later_prompt _ _ L).
      * destruct (Hserve _ _ H) as (g' & H' & L). right. eauto.
Qed.

(** *** The operations of the state keep the invariant *)
Lemma keep_registration origins s r f :
  consistent origins s ->
  (forall g, hk_registrations s !! r = Some g -> registration_ok g -> registration_ok (f g) /\ later g (f g)) ->
  consistent origins (on_registration r f s).
Proof.
  intros [] Hf. assert (grown (hk_registrations s) (alter f r (hk_registrations s))) as Hg.
  { apply grown_alter. intros g H. by apply Hf; [|eauto]. }
  unfold on_registration, with_registrations. split; cbn.
  - by rewrite length_alter.
  - intros r' g. destruct (base.decide (r = r')) as [<-|Hne].
    + rewrite list_lookup_alter_eq. destruct (hk_registrations s !! r) as [g0|] eqn:H; [|done]. cbn. intros [= <-]. by apply Hf; [|eauto].
    + rewrite list_lookup_alter_ne by done. eauto.
  - done.
  - intros key r' H. destruct (c_relays0 _ _ H) as [H1 [g H2]]. split; [done|]. destruct (Hg _ _ H2) as (g' & H' & _). by exists g'.
  - intros i x key r' Hx H. destruct (c_deferred0 _ _ _ _ Hx H) as (H1 & g & H2 & H3). split; [done|].
    destruct (Hg _ _ H2) as (g' & H' & L). exists g'. split; [done|]. by rewrite (later_owner _ _ L).
  - intros n c Hc. by apply (call_grown origins _ (hk_registrations s)), (c_calls0 n).
Qed.

Lemma keep_delete origins s key : consistent origins s -> consistent origins (with_relays (map_delete key) s).
Proof.
  intros []. split; cbn; eauto; [by apply map_delete_NoDup|]. intros key' r H. by apply assoc_map_delete, c_relays0 in H.
Qed.

Lemma keep_cache origins s f : consistent origins s -> consistent origins (with_rootCache f s).
Proof. intros []. by split. Qed.

Lemma keep_instance origins s i f :
  consistent origins s ->
  (forall x key r, hk_instances s !! i = Some x -> assoc key (in_deferred (f x)) = Some r ->
     assoc key (in_deferred x) = Some r \/
     (origins !! r = Some key /\ exists g, hk_registrations s !! r = Some g /\ rg_owner g <> i)) ->
  consistent origins (on_instance i f s).
Proof.
  intros [] Hf. split; cbn; eauto. intros i' x key r. destruct (base.decide (i = i')) as [<-|Hne].
  - rewrite list_lookup_alter_eq. destruct (hk_instances s !! i) as [x0|] eqn:Hx; [|done]. cbn. intros [= <-] H.
    destruct (Hf _ _ _ eq_refl H) as [H'|H']; eauto.
  - rewrite list_lookup_alter_ne by done. eauto.
Qed.

Lemma keep_call origins s c : consistent origins s -> call_ok origins (hk_registrations s) c -> consistent origins (with_calls (fun cs => cs ++ [c]) s).
Proof.
  intros [] Hc. split; cbn; eauto. intros n c'. rewrite lookup_app_Some. intros [H|[_ H]]; [eauto|].
  apply list_lookup_singleton_Some in H as [_ <-]. done.
Qed.

Lemma keep_phase origins s n p v :
  consistent origins s -> (forall c, hk_calls s !! n = Some c -> call_ok origins (hk_registrations s) (with_phase p v c)) ->
  consistent origins (phase_of n p v s).
Proof.
  intros [] Hc. split; cbn; eauto. intros n' c. destruct (base.decide (n = n')) as [<-|Hne].
  - rewrite list_lookup_alter_eq. destruct (hk_calls s !! n) as [c0|] eqn:H; [|done]. cbn. intros [= <-]. eauto.
  - rewrite list_lookup_alter_ne by done. eauto.
Qed.

(** A child's step on a registration. *)
Lemma registration_step g e : registration_ok g -> registration_ok (with_relay (fun c => child_step stdoutLimit stderrLimit deadlineMs c e) g).
Proof.
  intros [(c0 & es & root & prompt & class & Hs & Hc & Hr) Hm]. split.
  - exists c0, (es ++ [e]), root, prompt, class. split; [done|]. split; [done|]. cbn. rewrite Hr. unfold child_run. by rewrite foldl_app.
  - intros m H. destruct (Hm m H) as [nonce Hn]. exists nonce. cbn. by apply step_keeps_prompt.
Qed.

Lemma keep_child origins s r e :
  consistent origins s -> consistent origins (on_registration r (with_relay (fun c => child_step stdoutLimit stderrLimit deadlineMs c e)) s).
Proof. intros H. apply keep_registration; [done|]. intros g _ Hg. split; [by apply registration_step | apply later_step]. Qed.

Lemma keep_close origins s r : consistent origins s -> consistent origins (close_registration r s).
Proof. apply (fun H => keep_child origins s r CloseRelay H). Qed.

Lemma keep_clearOwned origins s i key : consistent origins s -> consistent origins (clearOwned i key s).
Proof.
  intros H. unfold clearOwned. destruct (registered key s) as [[r g]|]; [|done]. destruct (_ =? _)%nat; [|done].
  by apply keep_close, keep_delete.
Qed.

Lemma keep_finally origins s key r : consistent origins s -> consistent origins (complete_finally key r s).
Proof.
  intros H. unfold complete_finally. apply keep_close. case_bool_decide; [by apply keep_delete | done].
Qed.

(** *** The hooks keep the invariant *)
Lemma at_prompt_arg text fs : at_key (with_prompt_arg text (JObj fs)) "prompt" = JStr text.
Proof. apply field_set_key_same. Qed.

Lemma keep_refuse_before origins s n c fs refusal :
  consistent origins s -> hc_value c = JObj fs -> (forall c', hk_calls s !! n = Some c' -> hc_after c' = false) ->
  consistent origins (refuse_before n c refusal s).
Proof.
  intros H Hv Ha. unfold refuse_before. apply keep_phase.
  - apply keep_instance; [done|]. intros x key r _ Hk. by left.
  - intros c' Hc. right. cbn. rewrite (Ha c' Hc), Hv. left. apply at_prompt_arg.
Qed.

Lemma keep_refuse_after origins s n refusal :
  consistent origins s -> (forall c, hk_calls s !! n = Some c -> hc_after c = true) -> consistent origins (refuse_after n refusal s).
Proof.
  intros H Ha. apply keep_phase; [done|]. intros c Hc. right. cbn. rewrite (Ha c Hc). by exists (exn_msg refusal).
Qed.

(** A call that waits for the root or the prompt: before the Task, with its
    arguments. *)
Definition waits_before (c : HookCall) : Prop := hc_after c = false /\ exists fs, hc_value c = JObj fs.

Lemma keep_start origins s n c relay root :
  consistent origins s -> hk_calls s !! n = Some c -> waits_before c ->
  startRelay realpath existsSync execPath env (JStr root) (hc_prompt c) (Some (hc_class c)) false = Ok relay ->
  let r := length (hk_registrations s) in
  let registration := mkRegistration (hc_instance c) relay false (hc_sessionID c) (hc_agent c) None None in
  consistent (origins ++ [hc_key c])
    (phase_of n (AwaitMaterialized r) (hc_value c)
       (with_relays (map_set (hc_key c) r) (with_registrations (fun gs => gs ++ [registration]) s))).
Proof.
  intros [] Hc [Ha Hv] Hstart r registration.
  assert (grown (hk_registrations s) (hk_registrations s ++ [registration])) as Hg by apply grown_app.
  assert (registration_ok registration) as Hok.
  { split; [|done]. exists relay, [], root, (hc_prompt c), (hc_class c). split; [done|]. split; [|done].
    destruct (startRelay_Ok _ _ _ _ _ _ _ _ _ Hstart) as (class & ? & ? & _ & _ & ->).
    unfold startRelay in Hstart. cbn [mbind res_bind] in Hstart.
    rewrite res_bind_Ok in Hstart. destruct Hstart as (? & _ & Hstart). rewrite res_bind_Ok in Hstart. destruct Hstart as (? & _ & Hstart).
    rewrite res_bind_Ok in Hstart. by destruct Hstart as (? & _ & [= <- _ _]). }
  assert (origins !! r = None) as Hnone by (apply lookup_ge_None; unfold r; lia).
  assert (own (origins ++ [hc_key c]) (hk_registrations s ++ [registration]) c r registration) as Hown.
  { split; [|done]. split; [rewrite lookup_app_r by (unfold r; lia); unfold r; by rewrite c_origins0, Nat.sub_diag |].
    rewrite lookup_app_r by (unfold r; lia). unfold r. by rewrite Nat.sub_diag. }
  apply keep_phase.
  - split; cbn.
    + rewrite !length_app. cbn. lia.
    + intros r' g. rewrite lookup_app_Some. intros [H|[_ H]]; [eauto|]. apply list_lookup_singleton_Some in H as [_ <-]. done.
    + by apply map_set_NoDup.
    + intros key r'. rewrite assoc_map_set. destruct (str_eqb key (hc_key c)) eqn:Hk.
      * apply str_eqb_eq in Hk as ->. intros [= <-]. destruct Hown as [[H1 H2] _]. split; [done | by eexists].
      * intros H. destruct (c_relays0 _ _ H) as [H1 [g H2]]. split; [by apply lookup_app_l_Some|]. exists g. by apply lookup_app_l_Some.
    + intros i x key r' Hx H. destruct (c_deferred0 _ _ _ _ Hx H) as (H1 & g & H2 & H3). split; [by apply lookup_app_l_Some|].
      exists g. split; [by apply lookup_app_l_Some | done].
    + intros n' c' H. apply (call_grown origins _ (hk_registrations s)); [by exists [hc_key c] | done | eauto].
  - cbn. intros c' Hc'. assert (c' = c) as -> by congruence. right. cbn. split; [done|]. split; [done|]. exists registration. exact Hown.
Qed.

Lemma keep_root origins s n c root :
  consistent origins s -> hk_calls s !! n = Some c -> waits_before c ->
  exists origins', origins `prefix_of` origins' /\
    consistent origins' (root_resolved realpath existsSync execPath env n c root s).
Proof.
  intros H Hc Hw. pose proof Hw as [Ha [fs Hv]]. assert (forall refusal, consistent origins (refuse_before n c refusal s)) as Hrefuse.
  { intros. eapply keep_refuse_before; [done | exact Hv |]. intros c' Hc'. congruence. }
  unfold root_resolved. destruct root as [root|cause]; [|exists origins; by split].
  destruct (startRelay _ _ _ _ _ _ _ _) as [relay|cause] eqn:Hstart; [|exists origins; by split].
  exists (origins ++ [hc_key c]). split; [by exists [hc_key c]|]. by eapply keep_start.
Qed.

Definition stays (origins : list jsstr) (s : Hooks) : Prop := exists origins', origins `prefix_of` origins' /\ consistent origins' s.

Lemma stays_consistent origins s : consistent origins s -> stays origins s.
Proof. by exists origins. Qed.
#[local] Hint Resolve stays_consistent : core.

(** A call that waits is on a relay Task. *)
Lemma waiting origins s n c :
  consistent origins s -> hk_calls s !! n = Some c ->
  (match hc_phase c with AwaitCachedPolicy _ | AwaitSession | AwaitPolicy _ => True | _ => False end) -> waits_before c.
Proof.
  intros H Hc Hp. destruct (c_calls _ _ H n c Hc) as [[_ [result Hf]]|Hok]; [by rewrite Hf in Hp|]. by destruct (hc_phase c).
Qed.

Lemma waiting_relay origins s n c :
  consistent origins s -> hk_calls s !! n = Some c ->
  match hc_phase c with
  | AwaitMaterialized r => waits_before c /\ exists g, own origins (hk_registrations s) c r g
  | AwaitCompletePrompt r _ | AwaitComplete r =>
      hc_after c = true /\ exists g, own origins (hk_registrations s) c r g /\ rg_completing g = true
  | _ => True
  end.
Proof.
  intros H Hc. destruct (c_calls _ _ H n c Hc) as [[_ [result Hf]]|Hok]; [by rewrite Hf|].
  destruct (hc_phase c); try done. destruct Hok as (H1 & H2 & H3). by repeat split.
Qed.

Lemma keep_session_answered origins s n response :
  consistent origins s -> stays origins (session_answered realpath existsSync execPath env has_client n response s).
Proof.
  intros H. unfold session_answered. destruct (hk_calls s !! n) as [c|] eqn:Hc; [|auto]. destruct (hc_phase c) eqn:Hp; auto.
  pose proof (waiting _ _ _ _ H Hc) as Hw. rewrite Hp in Hw. specialize (Hw I).
  destruct (usable_directory _ _) as [directory|cause]; [|by apply keep_root]. apply stays_consistent, keep_phase; [done|].
  intros c' Hc'. assert (c' = c) as -> by congruence. by right.
Qed.

Lemma keep_policy_answered origins s n response :
  consistent origins s -> stays origins (policy_answered realpath existsSync execPath env serverRoot has_broker n response s).
Proof.
  intros H. unfold policy_answered. destruct (hk_calls s !! n) as [c|] eqn:Hc; [|auto].
  pose proof (waiting _ _ _ _ H Hc) as Hw. destruct (hc_phase c) as [cached| |directory| | | |] eqn:Hp; auto; specialize (Hw I).
  - by apply keep_root.
  - destruct (_ ≫= _); [|by apply keep_root]. apply keep_root; [by apply keep_cache | done | done].
Qed.

Lemma keep_prompt_settled origins s n : consistent origins s -> stays origins (prompt_settled n s).
Proof.
  intros H. unfold prompt_settled. destruct (hk_calls s !! n) as [c|] eqn:Hc; [|auto].
  pose proof (waiting_relay _ _ _ _ H Hc) as Hw. destruct (hc_phase c) as [| | |r| | |] eqn:Hp; auto.
  destruct Hw as [[Ha [fs Hv]] (g & Hown)]. pose proof Hown as [[Ho Hg] Howner]. rewrite Hg. cbn [fmap option_fmap option_map compose].
  destruct (rc_prompt (rg_relay g)) as [|[nonce m]|cause] eqn:Hprompt; auto; apply stays_consistent.
  - assert (forall g0, hk_registrations s !! r = Some g0 -> registration_ok g0 ->
      registration_ok (with_materialized m g0) /\ later g0 (with_materialized m g0)) as Hkeep.
    { intros g0 Hg0 [Hrun Hm]. assert (g0 = g) as -> by congruence. split; [|split; unfold kept; auto].
      split; [done|]. cbn. intros m' [= <-]. by exists nonce. }
    apply keep_phase; [by apply keep_registration|]. intros c' Hc'. assert (c' = c) as -> by (cbn in Hc'; congruence). right. cbn. rewrite Ha.
    left. exists r, (with_materialized m g), nonce, m. rewrite Hv. split; [|split; [done | apply at_prompt_arg]].
    split; [|done]. split; [done|]. cbn. by rewrite list_lookup_alter_eq, Hg.
  - eapply keep_refuse_before; [by apply keep_clearOwned | exact Hv |]. intros c' Hc'. 
    assert (hk_calls (clearOwned (hc_instance c) (hc_key c) s) = hk_calls s) as Hcalls.
    { unfold clearOwned. destruct (registered _ _) as [[]|]; [|done]. by destruct (_ =? _)%nat. }
    rewrite Hcalls in Hc'. congruence.
Qed.

Lemma keep_complete_prompt origins s n : consistent origins s -> stays origins (complete_prompt n s).
Proof.
  intros H. unfold complete_prompt. destruct (hk_calls s !! n) as [c|] eqn:Hc; [|auto].
  pose proof (waiting_relay _ _ _ _ H Hc) as Hw. destruct (hc_phase c) as [| | | |r extracted| |] eqn:Hp; auto.
  destruct Hw as [Ha (g & Hown & Hcom)]. pose proof Hown as [[Ho Hg] Howner]. rewrite Hg. cbn [fmap option_fmap option_map compose].
  destruct (rc_prompt (rg_relay g)) as [|np|cause] eqn:Hprompt; auto; apply stays_consistent.
  - apply keep_phase; [apply (keep_child _ _ r (Send extracted)); done|]. intros c' Hc'. assert (c' = c) as -> by (cbn in Hc'; congruence).
    right. cbn. split; [done|]. exists (with_relay (complete_send extracted) g). split; [|done].
    split; [|done]. split; [done|]. by rewrite list_lookup_alter_eq, Hg.
  - apply keep_finally, keep_phase; [done|]. intros c' Hc'. assert (c' = c) as -> by congruence. right. cbn. rewrite Ha. by exists r, g.
Qed.

Lemma keep_complete_result origins s n : consistent origins s -> stays origins (complete_result n s).
Proof.
  intros H. unfold complete_result. destruct (hk_calls s !! n) as [c|] eqn:Hc; [|auto].
  pose proof (waiting_relay _ _ _ _ H Hc) as Hw. destruct (hc_phase c) as [| | | | |r|] eqn:Hp; auto.
  destruct Hw as [Ha (g & Hown & Hcom)]. pose proof Hown as [[Ho Hg] Howner]. rewrite Hg. cbn [fmap option_fmap option_map compose].
  destruct (rc_result (rg_relay g)) as [|v|cause] eqn:Hres; auto; apply stays_consistent;
    (apply keep_finally, keep_phase; [done|]; intros c' Hc'; assert (c' = c) as -> by congruence; right; cbn; rewrite Ha).
  - left. by exists r, g, v.
  - by exists r, g.
Qed.

(** The agent of a relay Task is named, by an object. *)
Lemma agent_named v agent : isRelayAgent v = Some agent -> agent <> [].
Proof. destruct v; try done. cbn [isRelayAgent]. destruct (mem s RELAY_AGENTS) eqn:Hm; [|done]. intros [= <-] ->. by vm_compute in Hm. Qed.

Lemma agent_object v k agent : isRelayAgent (at_key v k) = Some agent -> exists fs, v = JObj fs.
Proof. destruct v; try done. by eexists. Qed.

Lemma registered_ok origins s key r g :
  consistent origins s -> registered key s = Some (r, g) ->
  assoc key (hk_relays s) = Some r /\ origins !! r = Some key /\ hk_registrations s !! r = Some g.
Proof.
  intros H. unfold registered. destruct (assoc key (hk_relays s)) as [r'|] eqn:Hr; [|done].
  destruct (c_relays _ _ H _ _ Hr) as [Ho [g' Hg]]. rewrite Hg. cbn. by intros [= <- <-].
Qed.

Lemma last_call cs (c : HookCall) c' : (cs ++ [c]) !! length cs = Some c' -> c' = c.
Proof. rewrite lookup_app_r, Nat.sub_diag by lia. by intros [= <-]. Qed.

Lemma keep_before_hook origins s i tool sessionID callID args :
  consistent origins s -> stays origins (before_hook i tool sessionID callID args s).
Proof.
  intros H. unfold before_hook. cbv zeta. apply stays_consistent. destruct (negb _); [apply keep_call; [done|]; left; split; [done | by eexists]|].
  destruct (isRelayAgent _) as [agent|] eqn:Hagent; [|apply keep_call; [done|]; left; split; [done | by eexists]].
  destruct (agent_object _ _ _ Hagent) as [fs ->]. set (key := taskKey sessionID callID agent).
  destruct (at_key (JObj fs) "prompt") as [| | | |prompt| |] eqn:Hprompt;
    try (apply keep_call; [done|]; right; cbn; right; cbn in Hprompt; by rewrite Hprompt).
  destruct (registered key s) as [[r g]|] eqn:Hreg.
  { destruct (registered_ok _ _ _ _ _ H Hreg) as (Hr & Ho & Hg). destruct (Nat.eqb_spec (rg_owner g) i) as [|Hne].
    - apply keep_call; [done|]. right. cbn. right. split; [by exists r, g | exact Hprompt].
    - apply keep_call; [|right; cbn; right; split; [by exists r, g | exact Hprompt]]. apply keep_instance; [done|].
      intros x key' r' _. cbn. rewrite assoc_map_set. destruct (str_eqb key' key) eqn:Hk; [|by left]. apply str_eqb_eq in Hk as ->.
      intros [= <-]. right. split; [done|]. by exists g. }
  assert (forall refusal, consistent origins
    (refuse_before (length (hk_calls s)) (mkCall i false sessionID key agent prompt lens_task (JObj fs) (Finished Returned)) refusal
       (with_calls (fun cs => cs ++ [mkCall i false sessionID key agent prompt lens_task (JObj fs) (Finished Returned)]) s))) as Hrefuse.
  { intros refusal. destruct H. unfold refuse_before, phase_of, with_calls, on_instance, with_instances. split; cbn; eauto.
    - intros i' x key' r'. destruct (base.decide (i = i')) as [<-|]; [|rewrite list_lookup_alter_ne by done; eauto].
      rewrite list_lookup_alter_eq. destruct (hk_instances s !! i) as [x0|] eqn:Hx; [|done]. cbn. intros [= <-]. cbn. eauto.
    - intros n c. destruct (base.decide (n = length (hk_calls s))) as [->|Hne].
      + rewrite list_lookup_alter_eq, lookup_app_r, Nat.sub_diag by lia. cbn. intros [= <-]. right. cbn. left. apply at_prompt_arg.
      + rewrite list_lookup_alter_ne by done. rewrite lookup_app_Some. intros [Hn|[Hn Hc]]; [eauto|].
        apply list_lookup_singleton_Some in Hc as [Hz _]. lia. }
  destruct (_ <=? _); [apply Hrefuse|]. destruct (classifyRelayTaskPrompt _) as [class|cause]; [|apply Hrefuse].
  destruct (_ =? 0); [apply Hrefuse|]. apply keep_call; [done|]. right. cbn. destruct (assoc sessionID _); cbn; split; eauto.
Qed.

Lemma keep_after_hook origins s i tool sessionID callID input_args args output :
  consistent origins s -> stays origins (after_hook i tool sessionID callID input_args args output s).
Proof.
  intros H. unfold after_hook. cbv zeta. apply stays_consistent. destruct (negb _); [apply keep_call; [done|]; left; split; [done | by eexists]|].
  destruct (isRelayAgent _) as [agent|] eqn:Hagent; [|apply keep_call; [done|]; left; split; [done | by eexists]].
  set (key := taskKey sessionID callID agent).
  set (enter := fun phase s => with_calls (fun cs => cs ++ [mkCall i true sessionID key agent [] lens_task output phase]) s).
  assert (forall s' p v, consistent origins s' -> hk_calls s' = hk_calls s ->
    call_ok origins (hk_registrations s') (mkCall i true sessionID key agent [] lens_task v p) ->
    consistent origins (phase_of (length (hk_calls s)) p v (enter (Finished Returned) s'))) as Hend.
  { intros s' p v [] Hcalls Hok. unfold phase_of, enter, with_calls. split; cbn; eauto. intros n c. rewrite Hcalls.
    destruct (base.decide (n = length (hk_calls s))) as [->|Hne].
    - rewrite list_lookup_alter_eq, lookup_app_r, Nat.sub_diag by lia. cbn. by intros [= <-].
    - rewrite list_lookup_alter_ne by done. rewrite lookup_app_Some, <- Hcalls. intros [Hn|[Hn Hc]]; [eauto|].
      apply list_lookup_singleton_Some in Hc as [Hz _]. rewrite Hcalls in Hn, Hz. lia. }
  destruct (assoc key (in_refused (instance i s))) as [refusal|] eqn:Hrefused.
  { apply Hend; [|done|right; cbn; by eexists]. apply keep_instance; [done|]. intros x key' r' _. by left. }
  set (s1 := match assoc key (in_deferred (instance i s)) with Some _ => _ | None => s end).
  assert (consistent origins s1 /\ hk_calls s1 = hk_calls s /\ hk_relays s1 = hk_relays s /\ hk_registrations s1 = hk_registrations s)
    as (H1 & Hcalls & Hrelays & Hregs).
  { subst s1. destruct (assoc key (in_deferred _)); [|done]. split; [|done]. apply keep_instance; [done|]. intros x key' r' _ Hd. left.
    by apply assoc_map_delete in Hd. }
  clearbody s1. assert (forall refusal, consistent origins (refuse_after (length (hk_calls s)) refusal (enter (Finished Returned) s1))) as Hrefuse.
  { intros refusal. apply Hend; [done..|]. right. cbn. by eexists. }
  destruct (match assoc key (in_deferred (instance i s)) with Some _ => _ | None => false end) eqn:Hdeferred.
  { destruct (assoc key (in_deferred (instance i s))) as [r|] eqn:Hd; [|done]. unfold instance in Hd.
    destruct (hk_instances s !! i) as [x|] eqn:Hx; [|done]. cbn in Hd. destruct (c_deferred _ _ H _ _ _ _ Hx Hd) as (Ho & g & Hg & Hne).
    apply keep_call; [done|]. right. cbn. right. exists r, g. rewrite Hregs. by repeat split. }
  destruct (registered key s1) as [[r g]|] eqn:Hreg; [|apply Hrefuse].
  destruct (registered_ok _ _ _ _ _ H1 Hreg) as (Hr & Ho & Hg).
  destruct (Nat.eqb_spec (rg_owner g) i) as [Howner|]; [|apply Hrefuse]. cbn [negb]. destruct (rg_completing g); [apply Hrefuse|].
  assert (consistent origins (on_registration r with_completing s1)) as H2.
  { apply keep_registration; [done|]. intros g0 _ Hok. split; [exact Hok|]. split; unfold kept; auto. }
  destruct (complete_claim (rg_relay g)) as [[[]|cause] relay] eqn:Hclaim.
  - apply keep_call.
    + assert (relay = child_step stdoutLimit stderrLimit deadlineMs (rg_relay g) Claim) as -> by (cbn; by rewrite Hclaim).
      apply keep_registration; [done|]. intros g0 Hg0 Hok. cbn in Hg0. rewrite list_lookup_alter_eq, Hg in Hg0. cbn in Hg0. injection Hg0 as <-.
      split; [exact (registration_step (with_completing g) Claim Hok) | exact (later_step stdoutLimit stderrLimit deadlineMs (with_completing g) Claim)].
    + right. cbn. split; [done|]. exists (with_relay (fun _ => relay) (with_completing g)). split; [|done]. split; [|done].
      split; [done|]. rewrite list_lookup_alter_eq, list_lookup_alter_eq, Hg. done.
  - apply keep_finally, keep_call; [done|]. right. cbn. exists r, (with_completing g). split; [|done]. split; [|done].
    split; [done|]. by rewrite list_lookup_alter_eq, Hg.
Qed.

Lemma keep_close_owned origins s i p : consistent origins s -> consistent origins (close_owned i p s).
Proof.
  unfold close_owned. generalize (hk_relays s). intros relays. revert s. induction relays as [|[key r] relays IH]; intros s H; [done|].
  cbn [foldl fst snd]. apply IH. destruct (hk_registrations s !! r); [|done]. destruct (_ && _); [|done].
  by apply keep_close, keep_delete.
Qed.

Lemma keep_session_created origins s i info : consistent origins s -> consistent origins (session_created i info s).
Proof.
  intros H. unfold session_created. destruct (decodeReviewSession info) as [[child agent]|]; [|done]. cbv zeta.
  set (s1 := on_instance i _ s). assert (consistent origins s1) as H1 by (apply keep_instance; [done | intros; by left]).
  clearbody s1.
  assert (consistent origins (snd (bindMaterializedToChild child
    (match info with JObj _ => string_of (at_key info "parentID") | _ => None end) agent s1))) as H2.
  { unfold bindMaterializedToChild. destruct (List.find _ _) as [[]|]; [done|]. destruct (List.find _ _) as [[r g]|] eqn:Hf; [|done].
    cbn [snd]. apply keep_registration; [done|]. intros g0 Hg0 Hok. split; [exact Hok|]. split; unfold kept; auto. intros c Hc. exfalso.
    apply find_some in Hf as [Hin Hb]. unfold live_registrations in Hin. apply list_elem_of_In in Hin.
    rewrite list_elem_of_omap in Hin. destruct Hin as ([k r'] & _ & Hr). cbn in Hr. destruct (hk_registrations s1 !! r') as [g1|] eqn:Hg1; [|done].
    cbn in Hr. injection Hr as <- <-. unfold bindable in Hb. assert (g0 = g1) as -> by congruence. cbn [snd] in Hb.
    rewrite Hc, (bool_decide_eq_false_2 (Some c = None)), andb_false_r in Hb by done. done. }
  destruct (bindMaterializedToChild _ _ _ _) as [[m|] s2]; [|exact H2]. apply keep_instance; [exact H2 | intros; by left].
Qed.

Lemma keep_event origins s i event : consistent origins s -> consistent origins (on_event i event s).
Proof.
  intros H. unfold on_event. cbv zeta. destruct (is_text_of _ _); [by apply keep_session_created|]. destruct (is_text_of _ _); [|done].
  unfold session_deleted. destruct (at_key _ _); try done. unfold clearSession. apply keep_instance.
  - apply keep_close_owned, keep_instance; [done | intros; by left].
  - intros x key r _ Hd. left. cbn in Hd. by apply assoc_keys_without in Hd.
Qed.

Lemma keep_dispose origins s i : consistent origins s -> consistent origins (dispose i s).
Proof. intros H. apply keep_close_owned, keep_instance; [done|]. intros x key r _ Hd. done. Qed.

Lemma keep_step origins s e : consistent origins s -> stays origins (step s e).
Proof.
  intros H. destruct e; cbn [RelayHooks.step].
  - by apply keep_before_hook.
  - by apply keep_session_answered.
  - by apply keep_policy_answered.
  - by apply keep_prompt_settled.
  - by apply keep_after_hook.
  - by apply keep_complete_prompt.
  - by apply keep_complete_result.
  - destruct (child_only e); apply stays_consistent; [by apply keep_child | done].
  - by apply stays_consistent, keep_event.
  - by apply stays_consistent, keep_dispose.
Qed.

Lemma new_consistent instances : consistent [] (new_hooks instances).
Proof.
  split; cbn; try done; [by constructor|]. intros i x key r H. apply list_elem_of_lookup_2, list_elem_of_In, repeat_spec in H as ->. done.
Qed.

(** Every reachable state is consistent. *)
Lemma steps_consistent instances es : exists origins, consistent origins (steps (new_hooks instances) es).
Proof.
  induction es as [|e es IH] using rev_ind; [exists []; apply new_consistent|]. destruct IH as [origins H].
  unfold RelayHooks.steps. rewrite foldl_app. cbn [foldl]. destruct (keep_step origins _ e H) as (origins' & _ & H'). by exists origins'.
Qed.

(** ** What a step of one instance leaves alone *)
Record acted (b : bool) (i : nat) (s s' : Hooks) : Prop := {
  a_length : (length (hk_registrations s) <= length (hk_registrations s'))%nat;
  a_registrations : forall r g, hk_registrations s !! r = Some g ->
    exists g', hk_registrations s' !! r = Some g' /\ rg_owner g' = rg_owner g /\
      (rg_owner g <> i -> rg_relay g' = rg_relay g /\ rg_completing g' = rg_completing g);
  a_child : b = false -> forall r g', hk_registrations s' !! r = Some g' ->
    (exists g, hk_registrations s !! r = Some g /\ rg_childSessionID g' = rg_childSessionID g) \/
    (hk_registrations s !! r = None /\ rg_childSessionID g' = None);
  a_relays : forall k r, (k, r) ∈ hk_relays s' -> (k, r) ∈ hk_relays s \/ hk_registrations s !! r = None;
  a_kept : forall k r g, assoc k (hk_relays s) = Some r -> hk_registrations s !! r = Some g -> rg_owner g <> i ->
    assoc k (hk_relays s') = Some r \/ (length (hk_registrations s) < length (hk_registrations s'))%nat
}.

Lemma acted_same b i s s' : hk_registrations s' = hk_registrations s -> hk_relays s' = hk_relays s -> acted b i s s'.
Proof.
  intros Hg Hr. split; rewrite ?Hg, ?Hr; try done.
  - intros r g H. exists g. by repeat split.
  - intros _ r g H. left. by exists g.
  - by left.
  - by left.
Qed.

#[export] Instance acted_preorder b i : PreOrder (acted b i).
Proof.
  split; [intros s; by apply acted_same|]. intros s1 s2 s3 [] []. split.
  - lia.
  - intros r g H. destruct (a_registrations0 r g H) as (g2 & H2 & O2 & R2). destruct (a_registrations1 r g2 H2) as (g3 & H3 & O3 & R3).
    exists g3. split; [done|]. split; [congruence|]. intros Hne. destruct (R2 Hne) as [R C]. rewrite O2 in R3. destruct (R3 Hne). split; congruence.
  - intros Hb r g3 H3. destruct (a_child1 Hb r g3 H3) as [(g2 & H2 & C2)|[H2 C2]].
    + destruct (a_child0 Hb r g2 H2) as [(g1 & H1 & C1)|[H1 C1]]; [left; exists g1; split; [done|congruence] | right; split; [done|congruence]].
    + right. split; [|done]. destruct (hk_registrations s1 !! r) as [g1|] eqn:H1; [|done].
      destruct (a_registrations0 r g1 H1) as (g2 & H2' & _). congruence.
  - intros k r H. destruct (a_relays1 k r H) as [H'|H']; [by apply a_relays0|]. right.
    destruct (hk_registrations s1 !! r) as [g1|] eqn:H1; [|done]. destruct (a_registrations0 r g1 H1) as (g2 & H2' & _). congruence.
  - intros k r g Hk Hr Hne. destruct (a_kept0 k r g Hk Hr Hne) as [H|H]; [|right; lia].
    destruct (a_registrations0 r g Hr) as (g2 & H2 & O2 & _). destruct (a_kept1 k r g2 H H2) as [?|?]; [congruence | by left | right; lia].
Qed.

(** An update of a registration of the instance, or one that keeps the relay. *)
Lemma acted_registration b i r f s :
  (forall g, hk_registrations s !! r = Some g ->
     rg_owner (f g) = rg_owner g /\ (b = false -> rg_childSessionID (f g) = rg_childSessionID g) /\
     (rg_owner g <> i -> rg_relay (f g) = rg_relay g /\ rg_completing (f g) = rg_completing g)) ->
  acted b i s (on_registration r f s).
Proof.
  intros Hf. split; cbn; try (by left).
  - by rewrite length_alter.
  - intros r' g H. destruct (base.decide (r = r')) as [<-|Hne].
    + rewrite list_lookup_alter_eq, H. exists (f g). destruct (Hf g H) as (H1 & _ & H2). by repeat split; try apply H2.
    + rewrite list_lookup_alter_ne by done. exists g. by repeat split.
  - intros Hb r' g'. destruct (base.decide (r = r')) as [<-|Hne].
    + rewrite list_lookup_alter_eq. destruct (hk_registrations s !! r) as [g|] eqn:H; [|done]. intros [= <-]. left. exists g.
      split; [done|]. by apply Hf.
    + rewrite list_lookup_alter_ne by done. intros H. left. by exists g'.
Qed.

Lemma acted_close b i r s : (forall g, hk_registrations s !! r = Some g -> rg_owner g = i) -> acted b i s (close_registration r s).
Proof. intros H. apply acted_registration. intros g Hg. split; [done|]. split; [done|]. intros Hne. by destruct (Hne (H g Hg)). Qed.

(** An entry of the instance leaves the registry. *)
Lemma acted_delete b i key s :
  (forall r g, assoc key (hk_relays s) = Some r -> hk_registrations s !! r = Some g -> rg_owner g = i) ->
  acted b i s (with_relays (map_delete key) s).
Proof.
  intros H. split; cbn; try done.
  - intros r g Hg. exists g. by repeat split.
  - intros _ r g Hg. left. by exists g.
  - intros k r Hk. left. apply list_elem_of_In, filter_In in Hk as [Hk _]. by apply list_elem_of_In.
  - intros k r g Hk Hg Hne. left. destruct (base.decide (k = key)) as [->|Hk']; [by destruct (Hne (H r g Hk Hg))|].
    by rewrite assoc_map_delete_other.
Qed.

Lemma acted_clearOwned b i key s : acted b i s (clearOwned i key s).
Proof.
  unfold clearOwned, registered. destruct (assoc key (hk_relays s)) as [r|] eqn:Hr; [|reflexivity].
  destruct (hk_registrations s !! r) as [g|] eqn:Hg; [|reflexivity]. cbn [option_map]. destruct (Nat.eqb_spec (rg_owner g) i) as [Ho|]; [|reflexivity].
  transitivity (with_relays (map_delete key) s); [apply acted_delete | apply acted_close; cbn]; intros; congruence.
Qed.

Lemma acted_finally b i key r g s :
  hk_registrations s !! r = Some g -> rg_owner g = i -> acted b i s (complete_finally key r s).
Proof.
  intros Hg Ho. unfold complete_finally. case_bool_decide as Hk.
  - transitivity (with_relays (map_delete key) s); [apply acted_delete | apply acted_close; cbn]; intros; congruence.
  - apply acted_close. intros; congruence.
Qed.

Lemma acted_close_owned b i p s : NoDup (map fst (hk_relays s)) -> acted b i s (close_owned i p s).
Proof.
  intros Hd. unfold close_owned. assert (forall k r r', (k, r) ∈ hk_relays s -> assoc k (hk_relays s) = Some r' -> r' = r) as Hone.
  { intros k r r' Hin H. rewrite (assoc_NoDup k r) in H by done. congruence. }
  revert Hone. generalize (hk_relays s) at 1 3. intros relays. clear Hd. revert s.
  induction relays as [|[k r] relays IH]; intros s Hone; [reflexivity|]. cbn [foldl fst snd].
  assert (forall s', (forall k' r', assoc k' (hk_relays s') = Some r' -> assoc k' (hk_relays s) = Some r') ->
    forall k' r1 r2, (k', r1) ∈ relays -> assoc k' (hk_relays s') = Some r2 -> r2 = r1) as Hnext.
  { intros s' Hs k' r1 r2 Hin H. apply (Hone k' r1 r2); [by right | by apply Hs]. }
  etransitivity; [|apply IH, Hnext].
  - destruct (hk_registrations s !! r) as [g|] eqn:Hg; [|reflexivity]. destruct (p k); [|reflexivity]. cbn [andb].
    destruct (Nat.eqb_spec (rg_owner g) i); [|reflexivity].
    transitivity (with_relays (map_delete k) s); [apply acted_delete; intros r' g' H1 H2 | apply acted_close; cbn; intros; congruence].
    rewrite (Hone k r r') in H2; [congruence | by left | done].
  - intros k' r'. destruct (hk_registrations s !! r) as [g|]; [|done]. destruct (_ && _); [|done]. cbn. apply assoc_map_delete.
Qed.

Lemma acted_refuse_before b i n c refusal s : acted b i s (refuse_before n c refusal s).
Proof. by apply acted_same. Qed.

Lemma acted_root b n c root s :
  acted b (hc_instance c) s (root_resolved realpath existsSync execPath env n c root s).
Proof.
  unfold root_resolved. destruct root as [root|cause]; [|apply acted_refuse_before].
  destruct (startRelay _ _ _ _ _ _ _ _) as [relay|cause]; [|apply acted_refuse_before]. split; cbn.
  - rewrite length_app. lia.
  - intros r g H. exists g. split; [by apply lookup_app_l_Some | done].
  - intros _ r g. rewrite lookup_app_Some. intros [H|[Hl H]]; [left; by exists g|]. right.
    apply list_lookup_singleton_Some in H as [_ <-]. split; [by apply lookup_ge_None | done].
  - intros k r. rewrite list_elem_of_In. intros Hin.
    assert (In (k, r) (hk_relays s) \/ r = length (hk_registrations s)) as [H| ->].
    { revert Hin. induction (hk_relays s) as [|[a x] m IH]; cbn [map_set In].
      - intros [[= _ <-]|[]]. by right.
      - destruct (str_eqb _ _); cbn [In]; [intros [[= _ <-]|H]; auto | intros [H|H]; [auto|]]. destruct (IH H); auto. }
    + left. by apply list_elem_of_In.
    + right. by apply lookup_ge_None.
  - intros k r g _ _ _. right. rewrite length_app. cbn. lia.
Qed.

(** The instance whose hook an event starts or resumes. *)
Definition actor (s : Hooks) (e : hook_event) : option nat :=
  match e with
  | Before i _ _ _ _ | After i _ _ _ _ _ _ | HostEvent i _ | Dispose i => Some i
  | SessionAnswered n _ | PolicyAnswered n _ | PromptSettled n | CompletePrompt n | CompleteResult n => hc_instance <$> hk_calls s !! n
  | ChildActs _ _ => None
  end.

Definition may_bind (e : hook_event) : bool := match e with HostEvent _ _ => true | _ => false end.

Lemma acted_own b i r f s g :
  hk_registrations s !! r = Some g -> rg_owner g = i ->
  (forall g, rg_owner (f g) = rg_owner g /\ rg_childSessionID (f g) = rg_childSessionID g) -> acted b i s (on_registration r f s).
Proof.
  intros Hg Ho Hf. apply acted_registration. intros g' Hg'. assert (g' = g) as -> by congruence. destruct (Hf g) as [H1 H2].
  split; [done|]. split; [done|]. intros Hne. by destruct (Hne Ho).
Qed.

Lemma acted_before_hook b i tool sessionID callID args s : acted b i s (before_hook i tool sessionID callID args s).
Proof.
  unfold before_hook. cbv zeta. repeat (first [apply acted_same; reflexivity | case_match]).
Qed.

Lemma acted_after_hook b origins i tool sessionID callID input_args args output s :
  consistent origins s -> acted b i s (after_hook i tool sessionID callID input_args args output s).
Proof.
  intros H. unfold after_hook. cbv zeta. destruct (negb _); [by apply acted_same|].
  destruct (isRelayAgent _) as [agent|]; [|by apply acted_same]. set (key := taskKey sessionID callID agent).
  destruct (assoc key (in_refused _)); [by apply acted_same|].
  set (s1 := match assoc key (in_deferred (instance i s)) with Some _ => _ | None => s end).
  assert (acted b i s s1 /\ hk_registrations s1 = hk_registrations s /\ hk_relays s1 = hk_relays s) as (Ha & Hg1 & Hr1).
  { subst s1. destruct (assoc key (in_deferred _)); [|done]. split; [by apply acted_same | done]. }
  clearbody s1. transitivity s1; [exact Ha|]. destruct (match assoc key (in_deferred _) with Some _ => _ | None => false end); [by apply acted_same|].
  unfold registered. rewrite Hr1. destruct (assoc key (hk_relays s)) as [r|] eqn:Hr; [|by apply acted_same].
  rewrite Hg1. destruct (hk_registrations s !! r) as [g|] eqn:Hg; [|by apply acted_same]. cbn [option_map].
  destruct (Nat.eqb_spec (rg_owner g) i) as [Ho|]; [|by apply acted_same]. cbn [negb]. destruct (rg_completing g); [by apply acted_same|].
  assert (acted b i s1 (on_registration r with_completing s1)) as Hc by (eapply acted_own; [by rewrite Hg1 | done | done]).
  transitivity (on_registration r with_completing s1); [exact Hc|].
  assert (hk_registrations (on_registration r with_completing s1) !! r = Some (with_completing g)) as Hg2.
  { cbn. by rewrite list_lookup_alter_eq, Hg1, Hg. }
  destruct (complete_claim (rg_relay g)) as [[[]|cause] relay].
  - set (s2 := on_registration r with_completing s1) in *. transitivity (on_registration r (with_relay (fun _ => relay)) s2); [|by apply acted_same].
    eapply acted_own; done.
  - set (s2 := on_registration r with_completing s1) in *.
    etransitivity; [|eapply (acted_finally b i key r (with_completing g)); done]. by apply acted_same.
Qed.

Lemma acted_session_created i info s : acted true i s (session_created i info s).
Proof.
  unfold session_created. destruct (decodeReviewSession info) as [[child agent]|]; [|reflexivity]. cbv zeta.
  set (s1 := on_instance i _ s). transitivity s1; [by apply acted_same|].
  set (parent := match info with JObj _ => _ | _ => None end).
  transitivity (snd (bindMaterializedToChild child parent agent s1)).
  - unfold bindMaterializedToChild. destruct (List.find _ _) as [[]|]; [reflexivity|]. destruct (List.find _ _) as [[r g]|]; [|reflexivity].
    cbn [snd]. apply acted_registration. intros g0 _. by repeat split.
  - destruct (bindMaterializedToChild _ _ _ _) as [[m|] s2]; [by apply acted_same | reflexivity].
Qed.

Lemma acted_step origins i s e :
  consistent origins s -> actor s e = Some i -> acted (may_bind e) i s (step s e).
Proof.
  intros H Ha. destruct e; cbn [actor may_bind RelayHooks.step] in *; try (injection Ha as ->).
  - apply acted_before_hook.
  - unfold session_answered. destruct (hk_calls s !! n) as [c|]; [|done]. injection Ha as <-. destruct (hc_phase c); try reflexivity.
    destruct (usable_directory _ _); [by apply acted_same | apply acted_root].
  - unfold policy_answered. destruct (hk_calls s !! n) as [c|]; [|done]. injection Ha as <-. destruct (hc_phase c); try reflexivity; [apply acted_root|].
    destruct (_ ≫= _) as [root|]; [|apply acted_root].
    transitivity (with_rootCache (map_set (hc_sessionID c) root) s); [by apply acted_same | apply acted_root].
  - unfold prompt_settled. destruct (hk_calls s !! n) as [c|] eqn:Hc; [|done]. injection Ha as <-.
    pose proof (waiting_relay _ _ _ _ H Hc) as Hw. destruct (hc_phase c) as [| | |r| | |]; try reflexivity.
    destruct Hw as [_ (g & [_ Hg] & Ho)]. rewrite Hg. cbn [fmap option_fmap option_map compose].
    destruct (rc_prompt _) as [|[nonce m]|cause]; [reflexivity | |].
    + transitivity (on_registration r (with_materialized m) s); [by eapply acted_own | by apply acted_same].
    + transitivity (clearOwned (hc_instance c) (hc_key c) s); [apply acted_clearOwned | by apply acted_same].
  - by eapply acted_after_hook.
  - unfold complete_prompt. destruct (hk_calls s !! n) as [c|] eqn:Hc; [|done]. injection Ha as <-.
    pose proof (waiting_relay _ _ _ _ H Hc) as Hw. destruct (hc_phase c) as [| | | |r extracted| |]; try reflexivity.
    destruct Hw as [_ (g & [[_ Hg] Ho] & _)]. rewrite Hg. cbn [fmap option_fmap option_map compose].
    destruct (rc_prompt _) as [|np|cause]; [reflexivity | |].
    + transitivity (on_registration r (with_relay (complete_send extracted)) s); [by eapply acted_own | by apply acted_same].
    + etransitivity; [|by eapply (acted_finally _ _ _ r g)]. by apply acted_same.
  - unfold complete_result. destruct (hk_calls s !! n) as [c|] eqn:Hc; [|done]. injection Ha as <-.
    pose proof (waiting_relay _ _ _ _ H Hc) as Hw. destruct (hc_phase c) as [| | | | |r|]; try reflexivity.
    destruct Hw as [_ (g & [[_ Hg] Ho] & _)]. rewrite Hg. cbn [fmap option_fmap option_map compose].
    destruct (rc_result _) as [|v|cause]; [reflexivity | |]; (etransitivity; [|by eapply (acted_finally _ _ _ r g)]; by apply acted_same).
  - done.
  - unfold on_event. cbv zeta. destruct (is_text_of _ _); [apply acted_session_created|]. destruct (is_text_of _ _); [|reflexivity].
    unfold session_deleted. destruct (at_key _ _) as [| | | |deleted| |]; try reflexivity. unfold clearSession.
    set (s1 := on_instance i (with_sessions _ _) s). transitivity s1; [by apply acted_same|].
    transitivity (close_owned i (fun key => startsWith key (deleted ++ js ":")) s1); [apply acted_close_owned; exact (c_keys _ _ H) | by apply acted_same].
  - unfold dispose. etransitivity; [|apply acted_close_owned; exact (c_keys _ _ H)]. by apply acted_same.
Qed.

(** ** One live relay for a child session *)
Definition live_bound (s : Hooks) (child : jsstr) (r : nat) : Prop :=
  exists k g, (k, r) ∈ hk_relays s /\ hk_registrations s !! r = Some g /\ rg_childSessionID g = Some child.
Definition one_binding (s : Hooks) : Prop := forall child r1 r2, live_bound s child r1 -> live_bound s child r2 -> r1 = r2.

Lemma acted_binding i s s' : acted false i s s' -> one_binding s -> one_binding s'.
Proof.
  intros [_ _ Hc Hr _] H. assert (forall child r, live_bound s' child r -> live_bound s child r) as Hback.
  { intros child r (k & g' & Hk & Hg & Hb). destruct (Hc eq_refl r g' Hg) as [(g & Hg0 & Heq)|[Hn Heq]]; [|congruence].
    destruct (Hr k r Hk) as [Hk'|Hn]; [|congruence]. exists k, g. split; [done|]. split; [done | congruence]. }
  intros child r1 r2 H1 H2. apply (H child); by apply Hback.
Qed.

Lemma live_registrations_in s r g : (r, g) ∈ live_registrations s <-> exists k, (k, r) ∈ hk_relays s /\ hk_registrations s !! r = Some g.
Proof.
  unfold live_registrations. rewrite list_elem_of_omap. split.
  - intros ([k r'] & Hk & H). cbn in H. destruct (hk_registrations s !! r') as [g'|] eqn:Hg; [|done]. cbn in H. injection H as -> ->. by exists k.
  - intros (k & Hk & Hg). exists (k, r). split; [done|]. cbn. by rewrite Hg.
Qed.

Lemma bind_binding s child parent agent : one_binding s -> one_binding (snd (bindMaterializedToChild child parent agent s)).
Proof.
  intros H. unfold bindMaterializedToChild. destruct (List.find _ _) as [[r0 g0]|] eqn:Hbound; [done|].
  destruct (List.find (fun rg => bindable _ _ _) _) as [[r g]|] eqn:Hb; [|done]. cbn [snd].
  set (s' := on_registration r (with_childSessionID child) s).
  assert (forall c r', live_bound s' c r' -> (r' = r /\ c = child) \/ (r' <> r /\ live_bound s c r')) as Hback.
  { intros c r' (k & g' & Hk & Hg & Hc). cbn in Hk, Hg. destruct (base.decide (r = r')) as [<-|Hne].
    - left. rewrite list_lookup_alter_eq in Hg. destruct (hk_registrations s !! r); [|done]. injection Hg as <-. cbn in Hc. by injection Hc as <-.
    - right. rewrite list_lookup_alter_ne in Hg by done. split; [done|]. by exists k, g'. }
  assert (forall r', ~ live_bound s child r') as Hnone.
  { intros r' (k & g' & Hk & Hg & Hc). pose proof (find_none _ _ Hbound (r', g')) as Hn. cbn [snd] in Hn.
    unfold bound_to in Hn. rewrite bool_decide_eq_true_2 in Hn by done. discriminate Hn. apply list_elem_of_In, live_registrations_in. by exists k. }
  intros c r1 r2 [[-> ->]|[Hn1 H1]]%Hback [[-> Hc]|[Hn2 H2]]%Hback; [done | by apply Hnone in H2 | subst c; by apply Hnone in H1 | by apply (H c)].
Qed.

Lemma step_binding origins s e : consistent origins s -> one_binding s -> one_binding (step s e).
Proof.
  intros Hcon H. destruct (actor s e) as [i|] eqn:Ha.
  - pose proof (acted_step _ _ _ _ Hcon Ha) as Hact. destruct e; cbn [may_bind] in Hact; try (by eapply acted_binding).
    cbn [RelayHooks.step]. unfold on_event. cbv zeta. destruct (is_text_of (at_key event "type") (js "session.created")).
    + unfold session_created. destruct (decodeReviewSession _) as [[child agent]|]; [|done]. cbv zeta.
      set (s1 := on_instance i0 _ s). assert (one_binding s1) as H1 by exact H.
      set (parent := match at_key (at_key event "properties") "info" with JObj _ => _ | _ => None end).
      pose proof (bind_binding s1 child parent agent H1) as H2. destruct (bindMaterializedToChild _ _ _ _) as [[m|] s2]; exact H2.
    + destruct (is_text_of (at_key event "type") (js "session.deleted")); [|done]. eapply (acted_binding i0); [|exact H].
      unfold session_deleted. destruct (at_key _ _) as [| | | |deleted| |]; try reflexivity. unfold clearSession.
      set (s1 := on_instance i0 (with_sessions _ _) s). transitivity s1; [by apply acted_same|].
      transitivity (close_owned i0 (fun key => startsWith key (deleted ++ js ":")) s1);
        [apply acted_close_owned; exact (c_keys _ _ Hcon) | by apply acted_same].
  - destruct e; try done; cbn [actor RelayHooks.step] in *.
    + unfold session_answered. revert Ha. by destruct (hk_calls s !! n).
    + unfold policy_answered. revert Ha. by destruct (hk_calls s !! n).
    + unfold prompt_settled. revert Ha. by destruct (hk_calls s !! n).
    + unfold complete_prompt. revert Ha. by destruct (hk_calls s !! n).
    + unfold complete_result. revert Ha. by destruct (hk_calls s !! n).
    + destruct (child_only e); [|done]. destruct (hk_registrations s !! r) as [g|] eqn:Hg.
      * eapply (acted_binding (rg_owner g)); [|exact H]. by eapply acted_own.
      * eapply (acted_binding 0); [|exact H]. apply acted_registration. intros g Hg'. congruence.
Qed.

Lemma steps_binding instances es : one_binding (steps (new_hooks instances) es).
Proof.
  induction es as [|e es IH] using rev_ind.
  - intros child r1 r2 (k & g & Hk & _). by apply not_elem_of_nil in Hk.
  - destruct (steps_consistent instances es) as [origins Hcon]. unfold RelayHooks.steps in *. rewrite foldl_app. cbn [foldl]. by eapply step_binding.
Qed.

(** C14: the owner invariant of the relay registry, in every interleaving of
    any number of plugin instances.  A hook of one instance leaves every relay
    another instance started as it is: it does not claim it, complete it, write
    to it or close it, and takes its key out of the registry only when it
    started a new relay under it.  And at most one live relay is bound to a
    reviewer's child session. *)
Theorem relays_stay_with_their_owner instances es :
  let s := steps (new_hooks instances) es in
  (forall e i r g, actor s e = Some i -> hk_registrations s !! r = Some g -> rg_owner g <> i ->
     exists g', hk_registrations (step s e) !! r = Some g' /\ rg_owner g' = rg_owner g /\
       rg_relay g' = rg_relay g /\ rg_completing g' = rg_completing g /\
       (forall k, assoc k (hk_relays s) = Some r ->
          assoc k (hk_relays (step s e)) = Some r \/ (length (hk_registrations s) < length (hk_registrations (step s e)))%nat)) /\
  (forall child r1 r2, live_bound s child r1 -> live_bound s child r2 -> r1 = r2).
Proof.
  intros s. split; [|apply steps_binding]. intros e i r g Ha Hg Hne. destruct (steps_consistent instances es) as [origins Hcon].
  destruct (acted_step _ _ _ _ Hcon Ha) as [_ Hr _ _ Hk]. destruct (Hr r g Hg) as (g' & Hg' & Ho & Hsame). destruct (Hsame Hne) as [H1 H2].
  exists g'. repeat split; auto. intros k Hk'. by apply (Hk k r g).
Qed.

End hooks.

(** ** Runs *)
Definition sample_step : Hooks -> hook_event -> Hooks :=
  step (fun p => Some p) (fun _ => true) (js "/usr/bin/node") (fun key => if str_eqb key (js "HOME") then Some (js "/h") else None)
    (JStr (js "/srv")) true true 4096 64 1000.
Definition sample_steps (instances : nat) (es : list hook_event) : Hooks :=
  steps (fun p => Some p) (fun _ => true) (js "/usr/bin/node") (fun key => if str_eqb key (js "HOME") then Some (js "/h") else None)
    (JStr (js "/srv")) true true 4096 64 1000 (new_hooks instances) es.

Definition sample_args : jsval :=
  JObj [(js "subagent_type", JStr (js "asi-review-refuter")); (js "prompt", JStr (js "GENTLE_AI_REVIEW_PROVIDER_TASK {}"))].
Definition sample_before (i : nat) (call : string) : hook_event := Before i (js "task") (js "s1") (js call) sample_args.
Definition sample_after (i : nat) (call : string) (output : jsval) : hook_event := After i (js "task") (js "s1") (js call) sample_args JUndef output.
Definition sample_session (n : nat) : hook_event :=
  SessionAnswered n (Ok (JObj [(js "data", JObj [(js "directory", JStr (js "/work/p"))])])).
Definition sample_policy (n : nat) : hook_event := PolicyAnswered n (Ok (JObj [(js "projects", JArr [JStr (js "/work/p")])])).

(** One Task from its first hook to the provider's answer. *)
Definition sample_task : list hook_event :=
  [sample_before 0 "c1"; sample_session 0; sample_policy 0; ChildActs 0 (Stdout (sample_prompt_line ++ [10%N])); PromptSettled 0;
   sample_after 0 "c1" (JStr (js "raw prose")); CompletePrompt 1; ChildActs 0 (Stdout (sample_result_line ++ [10%N]));
   ChildActs 0 (ChildClosed (Some 0) None); CompleteResult 1].


(** Two instances: the second defers, and its hooks leave the first's relay. *)
Definition sample_deferral : list hook_event :=
  [sample_before 0 "c1"; sample_session 0; sample_policy 0; sample_before 1 "c1"].

Lemma relays_stay_with_their_owner_witness :
  exists g, hk_registrations (sample_steps 2 sample_deferral) !! 0%nat = Some g /\
    exists g', hk_registrations (sample_step (sample_steps 2 sample_deferral) (Dispose 1)) !! 0%nat = Some g' /\ rg_relay g' = rg_relay g.
Proof.
  destruct (hk_registrations (sample_steps 2 sample_deferral) !! 0%nat) as [g|] eqn:Hg; [|vm_compute in Hg; discriminate Hg].
  exists g. split; [reflexivity|].
  destruct (relays_stay_with_their_owner (fun p => Some p) (fun _ => true) (js "/usr/bin/node")
    (fun key => if str_eqb key (js "HOME") then Some (js "/h") else None) (JStr (js "/srv")) true true 4096 64 1000 2 sample_deferral)
    as [H _].
  unfold sample_steps in Hg. unfold sample_step, sample_steps. destruct (H (Dispose 1) 1%nat 0%nat g eq_refl Hg) as (g' & Hg' & _ & Hr & _).
  - assert (option_map rg_owner (Some g) = Some 0%nat) as Ho by (rewrite <- Hg; vm_compute; reflexivity). injection Ho as ->. discriminate.
  - exists g'. split; [exact Hg' | exact Hr].
Defined.

(** *** What the hooks do not do *)

(** The cap is checked before the root of the session is awaited, so Tasks that
    start together pass it together. *)
Definition sample_burst : list hook_event :=
  let calls := ["c1"; "c2"; "c3"; "c4"; "c5"]%string in
  map (sample_before 0) calls ++ concat (map (fun n => [sample_session n; sample_policy n]) (seq 0 5)).

Theorem relay_cap_exceeded : MAX_CONCURRENT_RELAYS < Z.of_nat (length (hk_relays (sample_steps 1 sample_burst))).
Proof. vm_compute. reflexivity. Qed.

(** Two instances that see the same Task before either has its root start a
    child each; the first child is in no map any more and is not killed. *)
Definition sample_race : list hook_event :=
  [sample_before 0 "c1"; sample_before 1 "c1"; sample_session 0; sample_policy 0; sample_session 1; sample_policy 1].

Theorem relay_started_twice :
  let s := sample_steps 2 sample_race in
  length (hk_registrations s) = 2%nat /\ map snd (hk_relays s) = [1%nat] /\
  option_map (fun g => rc_closed (rg_relay g)) (hk_registrations s !! 0%nat) = Some false.
Proof. vm_compute. repeat split. Qed.

(** A completion that fails raises and leaves the child's prose in the output. *)
Definition sample_broken : list hook_event :=
  [sample_before 0 "c1"; sample_session 0; sample_policy 0; ChildActs 0 (Stdout (sample_prompt_line ++ [10%N])); PromptSettled 0;
   sample_after 0 "c1" (JStr (js "raw prose")); CompletePrompt 1; ChildActs 0 (ChildClosed (Some 1) None); CompleteResult 1].

Theorem failed_completion_leaves_prose :
  option_map (fun c => (hc_value c, match hc_phase c with Finished (Raised cause) => is_refusal cause | _ => false end))
    (hk_calls (sample_steps 1 sample_broken) !! 1%nat) = Some (JStr (js "raw prose"), true).
Proof. vm_compute. reflexivity. Qed.

(** An instance disposed of while it waits for a root starts a child all the
    same. *)
Theorem disposed_instance_starts :
  let s := sample_steps 1 [sample_before 0 "c1"; sample_session 0; Dispose 0; sample_policy 0] in
  length (hk_relays s) = 1%nat /\ option_map (fun g => rc_closed (rg_relay g)) (hk_registrations s !! 0%nat) = Some false.
Proof. vm_compute. repeat split. Qed.
