(* ===== verification/Approval.v ===== *)
(** * What an approval shows (opencode/plugins/lib/host-tool-approval.ts,
    apply-preview-guard.ts)

    Before a tool changes the host, the plugin asks the user.  Here: the builder
    of every such question, from the arguments of the tool, with the errors it
    throws, and the guard that refuses a blind approval. *)
From S2P Require Import Prelude JsVal Json JsOps GitOps Envelope Worker ReviewArgv SddRuntime PluginValues.
Open Scope Z_scope.

(** HostMutationOperation *)
Definition HostMutationOperation : list string :=
  ["sddAttemptGrant"; "gitCommit"; "gitPush"; "ghIssueCreate"; "planDocAppend"; "reviewPersist"; "reviewStart"; "reviewCaptureResult";
   "reviewCaptureUnachievable"; "reviewAcknowledgeApproved"; "reviewCaptureCorrectionPlan"; "reviewCaptureRefuter";
   "reviewCaptureValidation"; "reviewValidate"; "reviewRecover"; "sddArchiveCompose"; "registerProject"; "sandboxResultInstall"]%string.

Record HostToolAsk := mkAsk {
  ask_permission : jsval;
  ask_patterns : list jsstr;
  ask_always : list jsstr;
  ask_metadata : list (jsstr * jsval)
}.

Definition HostToolAskError (message : list jsstr) : exn := Exn (ECoded (js "validation")) (concat message).

(** ** Checks *)
Definition assertNonEmpty (value : jsval) (what : string) : res unit :=
  match value with
  | JStr (_ :: _) => Ok tt
  | _ => Throw (HostToolAskError [js what; js " must be a non-empty string"])
  end.

Definition assertRepoRelativePaths (value : jsval) (what : string) : res unit :=
  match value with
  | JArr entries =>
      for_each (fun entry => match entry with
        | JStr (_ :: _) => Ok tt
        | _ => Throw (HostToolAskError [js what; js " entries must be non-empty strings"])
        end) entries
  | _ => Throw (HostToolAskError [js what; js " must be an array of paths"])
  end.

Definition assertReviewEnum (value : jsval) (values : list string) (what : string) : res unit :=
  throw_if (match value with JStr s => negb (mem s (map js values)) | _ => true end)
    (HostToolAskError [js what; js " must be one of: "; join_with (js ", ") (map js values)]).

(** [if (v !== undefined) check(v)] *)
Definition checked (v : jsval) (check : jsval -> res unit) : res unit := if is_undef v then Ok tt else check v.

(** ** The base builder *)
Definition buildHostToolAsk (permission operation summary details : jsval) : res HostToolAsk :=
  _ ← assertNonEmpty permission "permission";
  _ ← assertNonEmpty operation "operation";
  _ ← assertNonEmpty summary "summary";
  match details with
  | JObj fields =>
      Ok (mkAsk permission [js "*"] []
            (merge_fields (merge_fields [] fields) [(js "hostOperation", operation); (js "summary", summary)]))
  | _ => Throw (HostToolAskError [js "details must be an object"])
  end.

Definition host_ask (permission operation : string) (summary : res jsstr) (details : list (jsstr * jsval)) : res HostToolAsk :=
  summary ← summary; buildHostToolAsk (text permission) (text operation) (JStr summary) (JObj details).

(** The first 20 entries, joined. *)
Definition path_preview (paths : jsval) : jsval := JStr (join_with (js ", ") (firstn 20 (string_entries paths))).
Definition joined_paths (paths : jsval) : jsval := JStr (join_with (js ", ") (string_entries paths)).

(** ** SDD *)
Definition buildSddAttemptGrantAsk (args : jsval) : res HostToolAsk :=
  _ ← assertNonEmpty (at_key args "change") "change";
  _ ← assertRepoRelativePaths (at_key args "roots") "roots";
  _ ← assertNonEmpty (at_key args "changeInstance") "changeInstance";
  _ ← assertNonEmpty (at_key args "requestId") "requestId";
  _ ← assertNonEmpty (at_key args "actor") "actor";
  _ ← assertNonEmpty (at_key args "reason") "reason";
  host_ask "host_sdd_attempt_grant" "sddAttemptGrant"
    (template [text "Grant "; length_of (at_key args "roots"); text " canonical host root(s) for change "; at_key args "change"])
    [(js "change", at_key args "change"); (js "rootCount", length_of (at_key args "roots"));
     (js "roots", joined_paths (at_key args "roots")); (js "changeInstance", at_key args "changeInstance");
     (js "requestId", at_key args "requestId"); (js "actor", at_key args "actor"); (js "reason", at_key args "reason")].

Definition buildSddArchiveComposeAsk (args : jsval) : res HostToolAsk :=
  _ ← assertNonEmpty (at_key args "canonical") "canonical";
  _ ← assertNonEmpty (at_key args "delta") "delta";
  _ ← assertNonEmpty (at_key args "output") "output";
  host_ask "host_sdd_archive_compose" "sddArchiveCompose"
    (template [text "Compose archive delta "; at_key args "delta"; text " into "; at_key args "canonical"; text " -> "; at_key args "output"])
    [(js "canonical", at_key args "canonical"); (js "delta", at_key args "delta"); (js "output", at_key args "output")].

(** ** Git and GitHub *)
Definition buildGitCommitAsk (args : jsval) : res HostToolAsk :=
  let session := at_key args "sandboxSessionID" in
  let branch := at_key args "branch" in
  let subject := at_key args "subject" in
  let paths := at_key args "paths" in
  let protected := at_key args "protectedPaths" in
  _ ← assertNonEmpty (at_key args "message") "message";
  _ ← checked session (fun v => assertNonEmpty v "sandboxSessionID");
  _ ← checked branch (fun v => assertNonEmpty v "branch");
  _ ← checked subject (fun v => assertNonEmpty v "subject");
  _ ← checked paths (fun v => assertRepoRelativePaths v "paths");
  _ ← checked protected (fun v => assertRepoRelativePaths v "protectedPaths");
  host_ask "host_git_commit" "gitCommit"
    (template [text "Commit "; nullish_or (length_of paths) (jint 0); text " result path(s) on ";
               nullish_or branch (text "the current branch")])
    ([(js "message", at_key args "message")] ++ if_defined "sandboxSessionID" session ++ if_defined "branch" branch
     ++ if_defined "subject" subject
     ++ (if is_undef paths then [] else [(js "pathCount", length_of paths); (js "pathPreview", path_preview paths)])
     ++ (if is_undef protected then []
         else [(js "protectedRejected", if bool_decide (string_entries protected = []) then text "none" else joined_paths protected)])).

Definition buildGitPushAsk (args : jsval) : res HostToolAsk :=
  let warning := at_key args "warning" in
  _ ← assertNonEmpty (at_key args "remote") "remote";
  _ ← assertNonEmpty (at_key args "branch") "branch";
  _ ← throw_if (match at_key args "ahead" with JNum (NumInt z) => z <? 0 | _ => true end)
        (HostToolAskError [js "ahead must be a non-negative integer"]);
  _ ← checked warning (fun v => assertNonEmpty v "warning");
  host_ask "host_git_push" "gitPush"
    (template [text "Push "; at_key args "branch"; text " to "; at_key args "remote"; text " (+"; at_key args "ahead"; text ")"])
    ([(js "remote", at_key args "remote"); (js "branch", at_key args "branch"); (js "ahead", at_key args "ahead");
      (js "upstream", nullish_or (at_key args "upstream") (text "none")); (js "setUpstream", yes_no (at_key args "setUpstream"))]
     ++ if_defined "warning" warning).

(** The ellipsis. *)
Definition ELLIPSIS : jsstr := [8230%N].

Definition buildGhIssueCreateAsk (args : jsval) : res HostToolAsk :=
  _ ← assertNonEmpty (at_key args "repo") "repo";
  _ ← assertNonEmpty (at_key args "title") "title";
  match at_key args "body" with
  | JStr body =>
      host_ask "host_gh_issue_create" "ghIssueCreate"
        (template [text "Create issue in "; at_key args "repo"; text ": "; at_key args "title"])
        [(js "repo", at_key args "repo"); (js "title", at_key args "title");
         (js "bodyPreview", JStr (if 280 <? js_length body then firstn 280 body ++ ELLIPSIS else body));
         (js "bodyBytes", jint (byteLength body))]
  | _ => Throw (HostToolAskError [js "body must be a string"])
  end.

(** ** Plan documents and projects *)
Definition buildPlanDocAppendAsk (args : jsval) : res HostToolAsk :=
  let doc := at_key args "doc" in
  let heading := at_key args "heading" in
  _ ← throw_if (negb (is_text_of doc (js "todo")) && negb (is_text_of doc (js "plan")))
        (HostToolAskError [js "doc must be one of: todo, plan"]);
  _ ← assertNonEmpty (at_key args "content") "content";
  _ ← checked heading (fun v => assertNonEmpty v "heading");
  let contentBytes := jint (byteLength (as_string (at_key args "content"))) in
  note ← (if is_undef heading then Ok [] else template [text " under heading "; JStr [34%N]; heading; JStr [34%N]]);
  host_ask "host_plan_append" "planDocAppend"
    (template [text "Append "; contentBytes; text " byte(s) to the "; doc; text " plan document"; JStr note])
    ([(js "doc", doc); (js "contentBytes", contentBytes)] ++ if_defined "heading" heading).

Definition buildRegisterProjectAsk (args : jsval) : res HostToolAsk :=
  let dryRun := yes_no (at_key args "dryRun") in
  let createRemote := yes_no (at_key args "createRemote") in
  let makePublic := yes_no (at_key args "makePublic") in
  _ ← assertNonEmpty (at_key args "path") "path";
  host_ask "host_register_project" "registerProject"
    (template [text "Register project "; at_key args "path"; text " (dryRun="; dryRun; text ", createRemote="; createRemote;
               text ", makePublic="; makePublic; text ")"])
    [(js "path", at_key args "path"); (js "dryRun", dryRun); (js "createRemote", createRemote); (js "makePublic", makePublic)].

(** ** Review artifacts *)

(** The entries that fit in 512 characters. *)
Fixpoint render_counts (output : jsstr) (entries : list (jsstr * jsval)) : res jsstr :=
  match entries with
  | [] => Ok output
  | (key, value) :: entries =>
      entry ← template [JStr key; text "="; value];
      let next := match output with [] => entry | _ => output ++ js "; " ++ entry end in
      if 512 <? js_length next then Ok (match output with [] => firstn 512 entry | _ => output end)
      else render_counts next entries
  end.

Definition renderReviewPersistCounts (counts : jsval) : res jsstr :=
  match sorted_entries (default [] (plain_object counts)) with
  | [] => Ok (js "none")
  | entries => render_counts [] entries
  end.

(** A blocker of the preflight, as the refusal shows it. *)
Definition blocker_text (blocker : jsval) : res jsstr := template [at_key blocker "code"; text ": "; at_key blocker "message"].

Definition assertReviewPersistPreflightClear (blockers : list jsval) : res unit :=
  match blockers with
  | [] => Ok tt
  | _ => shown ← map_res blocker_text blockers;
         Throw (Exn (ECoded (js "review_persist_preflight_blocked"))
                  (js "host_review_persist preflight refused: " ++ join_with (js "; ") shown))
  end.

Definition buildReviewPersistAsk (args : jsval) : res HostToolAsk :=
  let projectDir := at_key args "projectDir" in
  let runId := at_key args "runId" in
  let finalizeRef := at_key args "finalizeRef" in
  let preflight := at_key args "preflight" in
  let finalize := at_key preflight "finalize" in
  let finalizeInput := at_key preflight "finalizeInput" in
  _ ← assertNonEmpty projectDir "projectDir";
  _ ← assertNonEmpty runId "runId";
  _ ← assertNonEmpty finalizeRef "finalizeRef";
  let mode := nullish_or (at_key args "mode") (text "write") in
  let reportOnly := is_text_of mode (js "report_only") in
  let artifactName := nullish_or (at_key finalize "name") (text "unknown") in
  let sha := nullish_or (at_key finalize "sha256") (text "unknown") in
  inputForm ← (if is_text_of finalizeInput (js "stdin") then Ok (js "inline stdin")
               else if is_text_of finalizeInput (js "unknown") then Ok (js "unknown input source")
               else template [text "artifact reference "; artifactName]);
  verdict ← (match at_key preflight "verdict" with
             | JNull => Ok (js "no verdict")
             | v => template [v; text " ("; nullish_or (at_key preflight "verdictSource") (text "unknown source"); text ")"]
             end);
  counts ← renderReviewPersistCounts (at_key preflight "counts");
  let facts := [text "; artifact "; artifactName; text " sha256 "; sha; text "; verdict "; JStr verdict; text "; counts "; JStr counts;
                text "; finalize input "; JStr inputForm] in
  host_ask "host_review_persist" "reviewPersist"
    (template (if reportOnly
       then [text "Report-only for "; finalizeRef; text " from review run "; runId; text " in "; projectDir] ++ facts
            ++ [text "; NO project file will be written and validation is not attempted."]
       else [text "Publish "; finalizeRef; text " from review run "; runId; text " into "; projectDir;
             text "/.context/systematic/ce-review/"; runId; text "/review-summary.json"] ++ facts
            ++ [text ("; validation happens after publication, this may replace an existing summary, "
                      ++ "and .context/.gitignore may be created or changed.")%string]))
    [(js "projectDir", projectDir); (js "runId", runId); (js "artifact", text "review-summary.json"); (js "finalizeRef", finalizeRef);
     (js "mode", mode); (js "artifactName", artifactName); (js "artifactBytes", nullish_or (at_key finalize "bytes") (jint 0));
     (js "artifactSha256", sha); (js "baseObjectId", nullish_or (at_key preflight "baseObjectId") (text "unknown"));
     (js "headObjectId", nullish_or (at_key preflight "headObjectId") (text "unknown"));
     (js "changedPaths", at_key preflight "changedPaths"); (js "verdict", nullish_or (at_key preflight "verdict") (text "none"));
     (js "verdictSource", nullish_or (at_key preflight "verdictSource") (text "none")); (js "counts", JStr counts);
     (js "finalizeInput", JStr inputForm); (js "validation", text (if reportOnly then "not attempted" else "after publication"));
     (js "replacement", text (if reportOnly then "none" else "may replace an existing summary"));
     (js "ignoreFile", text (if reportOnly then "not written" else ".context/.gitignore may be created or changed"))].

(** ** Reviews *)

(** FNV-1a over the UTF-16 units, 32 bits wide. *)
Definition digest_step (hash : Z) (c : N) : Z := uint32 (imul (xor32 hash (Z.of_N c)) 16777619).
Definition FNV_OFFSET : Z := 2166136261.

(** Opaque tokens are shown only through their digest; [None] without any. *)
Definition digest_input (values : list jsval) : jsstr :=
  join_with [0%N] (List.filter (fun s => negb (js_length s =? 0)) (omap string_of values)).
Definition reviewTokenDigest (values : list jsval) : jsstr :=
  match digest_input values with
  | [] => []
  | input => padStart 8 48 (hex_text 8 (foldl digest_step FNV_OFFSET input))
  end.

(** [reviewTokenDigest(...) || undefined] *)
Definition token_digest (values : list jsval) : jsval := match reviewTokenDigest values with [] => JUndef | d => JStr d end.

(** The fields that are there, flags as yes or no. *)
Definition reviewAskDetails (fields : list (jsstr * jsval)) : list (jsstr * jsval) :=
  omap (fun kv => match snd kv with
    | JUndef => None
    | JBool b => Some (fst kv, text (if b then "yes" else "no"))
    | v => Some (fst kv, v)
    end) fields.

Definition review_ask (permission operation : string) (summary : res jsstr) (fields : list (jsstr * jsval)) : res HostToolAsk :=
  host_ask permission operation summary (reviewAskDetails fields).

Definition arg_field (args : jsval) (k : string) : jsstr * jsval := (js k, at_key args k).
Definition tokens_of (args : jsval) (ks : list string) : list jsval := map (at_key args) ks.
Definition digest_field (args : jsval) (ks : list string) : jsstr * jsval := (js "tokenDigest", token_digest (tokens_of args ks)).

(** Fixed text, then the parts that are there. *)
Definition summary_of (fixed : string) (parts : list (res jsstr)) : res jsstr :=
  parts ← map_res (fun p => p) parts; Ok (js fixed ++ concat parts).

Definition buildReviewStartAsk (args : jsval) : res HostToolAsk :=
  let a := at_key args in
  _ ← checked (a "projection") (fun v => assertReviewEnum v ["workspace"; "staged"]%string "projection");
  _ ← checked (a "focus") (fun v => assertReviewEnum v ["risk"; "resilience"; "readability"; "reliability"]%string "focus");
  _ ← checked (a "consent") (fun v => assertReviewEnum v ["relay"; "granted"; "declined"]%string "consent");
  _ ← checked (a "locale") (fun v => assertReviewEnum v ["en"; "es"]%string "locale");
  _ ← checked (a "untrackedScope") (fun v => assertReviewEnum v ["exclude"; "select"]%string "untrackedScope");
  review_ask "host_review_start" "reviewStart"
    (summary_of "Start a review lifecycle"
       [when_truthy (a "focus") [text " (focus "; a "focus"; text ")"]; when_truthy (a "projection") [text " ["; a "projection"; text "]"]])
    (map (arg_field args) ["projection"; "focus"; "consent"; "locale"; "untrackedScope"]%string
     ++ [(js "untrackedCount", length_of (a "intendedUntracked"))]
     ++ map (arg_field args) ["committedOnly"; "workspaceOverlay"]%string
     ++ [digest_field args ["agent"; "contract"; "target"; "baseRef"; "lineage"; "policy"; "trace"]%string]).

Definition buildReviewCaptureResultAsk (args : jsval) : res HostToolAsk :=
  let a := at_key args in
  _ ← throw_if (match a "order" with JUndef => false | JNum (NumInt z) => (z <? 0) || (32 <? z) | _ => true end)
        (HostToolAskError [js "order must be an integer in [0, 32]"]);
  review_ask "host_review_capture_result" "reviewCaptureResult"
    (summary_of "Capture a review result"
       [when_truthy (a "lens") [text " (lens "; a "lens"; text ")"];
        if is_undef (a "order") then Ok [] else template [text " #"; a "order"]])
    (map (arg_field args) ["lens"; "order"; "input"; "inputBytes"; "inputDigest"; "inputJsonBytes"; "inputJsonDigest"; "materialize"; "preflight"]%string
     ++ [digest_field args ["agent"; "target"; "lineage"; "repositoryContext"]%string]).

Definition buildReviewCaptureUnachievableAsk (args : jsval) : res HostToolAsk :=
  review_ask "host_review_capture_unachievable" "reviewCaptureUnachievable"
    (summary_of "Record an unachievable review outcome" [when_truthy (at_key args "withdraw") [text " (withdraw)"]])
    (map (arg_field args) ["reason"; "withdraw"]%string ++ [digest_field args ["target"; "lineage"; "repositoryContext"]%string]).

Definition buildReviewAcknowledgeApprovedAsk (args : jsval) : res HostToolAsk :=
  review_ask "host_review_acknowledge_approved" "reviewAcknowledgeApproved" (Ok (js "Acknowledge the approved review authority"))
    [digest_field args ["target"; "lineage"; "expectedRevision"; "token"]%string].

Definition buildReviewCaptureCorrectionPlanAsk (args : jsval) : res HostToolAsk :=
  let lines := at_key args "correctionLines" in
  _ ← throw_if (match lines with JUndef => false | JNum (NumInt z) => z <? 1 | _ => true end)
        (HostToolAskError [js "correctionLines must be a positive integer"]);
  review_ask "host_review_capture_correction_plan" "reviewCaptureCorrectionPlan"
    (summary_of "Capture a review correction plan" [if is_undef lines then Ok [] else template [text " ("; lines; text " lines)"]])
    [(js "correctionLines", lines); digest_field args ["target"; "lineage"; "repositoryContext"]%string].

(** execute before materialize before capture. *)
Definition capture_mode (args : jsval) : jsval :=
  text (if is_falsy (at_key args "execute") then if is_falsy (at_key args "materialize") then "capture" else "materialize" else "execute").

Definition buildReviewCaptureRefuterAsk (args : jsval) : res HostToolAsk :=
  let mode := capture_mode args in
  review_ask "host_review_capture_refuter" "reviewCaptureRefuter" (template [text "Capture a refuter result ("; mode; text ")"])
    [(js "mode", mode); digest_field args ["agent"; "target"; "lineage"; "repositoryContext"]%string].

Definition buildReviewCaptureValidationAsk (args : jsval) : res HostToolAsk :=
  let mode := capture_mode args in
  review_ask "host_review_capture_validation" "reviewCaptureValidation" (template [text "Capture a validation result ("; mode; text ")"])
    [(js "mode", mode); digest_field args ["agent"; "target"; "lineage"; "repositoryContext"; "requestHash"]%string].

Definition buildReviewValidateAsk (args : jsval) : res HostToolAsk :=
  let gate := at_key args "gate" in
  _ ← checked gate (fun v => assertReviewEnum v ["post-apply"; "pre-commit"; "pre-push"; "pre-pr"; "release"]%string "gate");
  review_ask "host_review_validate" "reviewValidate"
    (summary_of "Validate the review lifecycle" [when_truthy gate [text " (gate "; gate; text ")"]])
    [(js "gate", gate); digest_field args ["contract"; "baseRef"; "lineage"; "policy"]%string].

Definition buildReviewRecoverAsk (args : jsval) : res HostToolAsk :=
  let disposition := at_key args "disposition" in
  _ ← checked disposition (fun v => assertReviewEnum v ["scope_changed"; "invalidated"; "escalated"]%string "disposition");
  review_ask "host_review_recover" "reviewRecover"
    (summary_of "Recover the review lifecycle" [when_truthy disposition [text " ("; disposition; text ")"]])
    (map (arg_field args) ["actor"; "disposition"; "reason"]%string
     ++ [(js "maintainerAuthorization", if is_undef (at_key args "maintainerAuthorization") then JUndef else text "present (redacted)")]).

(** ** Sandbox results *)
Definition TRUNCATION_NOTE : jsstr := [10%N] ++ js "(... approval preview truncated; inspect previewFile)".

Definition bounded_preview (preview : jsstr) : jsstr :=
  if 12000 <? js_length preview
  then firstn (Z.to_nat (12000 - js_length TRUNCATION_NOTE)) preview ++ TRUNCATION_NOTE
  else preview.

Definition buildSandboxResultInstallAsk (args : jsval) : res HostToolAsk :=
  let a := at_key args in
  _ ← assertNonEmpty (a "resultRef") "resultRef";
  _ ← assertNonEmpty (a "resultCommit") "resultCommit";
  _ ← checked (a "sandboxSessionID") (fun v => assertNonEmpty v "sandboxSessionID");
  _ ← checked (a "changedPaths") (fun v => assertRepoRelativePaths v "changedPaths");
  _ ← checked (a "deletionPaths") (fun v => assertRepoRelativePaths v "deletionPaths");
  _ ← throw_if (negb (is_falsy (a "previewTruncated")) && is_falsy (a "previewFile"))
        (HostToolAskError [js "truncated install preview requires a complete previewFile artifact"]);
  _ ← checked (a "previewFile") (fun v => assertNonEmpty v "previewFile");
  host_ask "host_sandbox_result_install" "sandboxResultInstall"
    (template [text "Install "; nullish_or (length_of (a "changedPaths")) (jint 0); text " result path(s) from "; a "resultRef";
               text " at commit "; JStr (firstn 12 (as_string (a "resultCommit")))])
    ([(js "resultRef", a "resultRef"); (js "resultCommit", a "resultCommit")] ++ if_defined "sandboxSessionID" (a "sandboxSessionID")
     ++ (if is_undef (a "changedPaths") then []
         else [(js "pathCount", length_of (a "changedPaths")); (js "pathPreview", path_preview (a "changedPaths"))])
     ++ (if is_undef (a "deletionPaths") then []
         else [(js "deletionCount", length_of (a "deletionPaths")); (js "deletionPreview", path_preview (a "deletionPaths"))])
     ++ (match a "preview" with
         | JUndef => []
         | preview => [(js "preview", JStr (bounded_preview (as_string preview)))]
         end)
     ++ if_defined "previewTruncated" (a "previewTruncated") ++ if_defined "previewFile" (a "previewFile")).

(** ** No blind approval (apply-preview-guard.ts) *)
Definition BLIND_APPROVAL_REASON : jsstr :=
  js "sandbox_apply refused before requesting approval: the broker returned a truncated diff preview "
  ++ js "without a complete apply-preview artifact (applyPreviewFiles.plain is missing). Approval must never "
  ++ js "be blind, and the broker may be older than this plugin. No approval was requested and nothing was applied.".

(** The paths of the preview files, or the refusal. *)
Definition decideApplyPreviewApproval (previewTruncated : bool) (applyPreviewFiles : jsval) : res (jsval * jsval) :=
  let previewFile := at_key applyPreviewFiles "plain" in
  let previewAnsiFile := at_key applyPreviewFiles "ansi" in
  if previewTruncated && is_falsy previewFile
  then Throw (Exn (ECoded (js "apply_preview_blind_approval")) BLIND_APPROVAL_REASON)
  else Ok (previewFile, previewAnsiFile).
