(* ===== verification/EditCore.v ===== *)
(** * Text the plugins work on: targeted edits, commands, bindings
    (opencode/plugins/lib/sandbox-edit-core.ts, session-agent-binding.ts and the
    tokenizer of sandbox-tools.ts) *)
From S2P Require Import Prelude JsVal Json JsOps GitOps Envelope Validation Worker ReviewArgv SddRuntime PluginValues Path Approval.
Open Scope Z_scope.

(** ** Occurrences *)

(** The text before and after the first occurrence of [p] in [s]. *)
Fixpoint cut_on (p s : jsstr) : option (jsstr * jsstr) :=
  if startsWith s p then Some ([], drop (length p) s) else
  match s with
  | [] => None
  | c :: s' => match cut_on p s' with Some (before, after) => Some (c :: before, after) | None => None end
  end.

(** [s.split(p)] for a non-empty [p]; the fuel bounds the parts. *)
Fixpoint split_str (fuel : nat) (p s : jsstr) : list jsstr :=
  match fuel with
  | O => [s]
  | S fuel => match cut_on p s with Some (before, after) => before :: split_str fuel p after | None => [s] end
  end.
Definition split_text (p s : jsstr) : list jsstr := split_str (length s) p s.

Definition edit_error (m : string) : exn := Exn EError (js "sandbox_edit: " ++ js m).

Definition applyTargetedEdit (content oldString newString : jsstr) (replaceAll : bool) : res jsstr :=
  _ ← throw_if (bool_decide (oldString = [])) (edit_error "oldString must not be empty");
  match cut_on oldString content with
  | None => Throw (edit_error "oldString was not found")
  | Some (before, after) =>
      _ ← throw_if (bool_decide (is_Some (cut_on oldString after)) && negb replaceAll)
            (edit_error "oldString matched multiple times; set replaceAll to true to replace all");
      let result := if replaceAll then join_with newString (split_text oldString content) else before ++ newString ++ after in
      _ ← throw_if (bool_decide (result = [])) (edit_error "edit would leave the file empty");
      Ok result
  end.

(** ** Commands *)
Record tokenizer := mkTokenizer { tk_tokens : list jsstr; tk_current : jsstr; tk_quote : option N }.

Definition end_token (t : tokenizer) : tokenizer :=
  match tk_current t with [] => t | current => mkTokenizer (tk_tokens t ++ [current]) [] (tk_quote t) end.
Definition add_char (c : N) (t : tokenizer) : tokenizer := mkTokenizer (tk_tokens t) (tk_current t ++ [c]) (tk_quote t).
Definition with_quote (q : option N) (t : tokenizer) : tokenizer := mkTokenizer (tk_tokens t) (tk_current t) q.

Definition tokenize_step (t : tokenizer) (c : N) : tokenizer :=
  match tk_quote t with
  | Some q => if (c =? q)%N then with_quote None t else add_char c t
  | None =>
      if ((c =? 39) || (c =? 34))%N then with_quote (Some c) t
      else if ((c =? 32) || (c =? 9))%N then end_token t
      else add_char c t
  end.

Definition tokenizeCommand (command : jsstr) : res (list jsstr) :=
  let t := foldl tokenize_step (mkTokenizer [] [] None) command in
  _ ← throw_if (bool_decide (is_Some (tk_quote t))) (Exn EError (js "unterminated quote in command"));
  let tokens := tk_tokens (end_token t) in
  _ ← throw_if (bool_decide (tokens = [])) (Exn EError (js "empty command"));
  Ok tokens.

(** ** The identity of a session *)
Definition BIND_SESSION_AGENT_OPERATION : string := "bindSessionAgent".

Definition hostSessionBinding (input : jsval) (orchestratorAgents : list jsstr) : option (jsstr * jsstr) :=
  match at_key input "sessionID", at_key input "agent" with
  | JStr sessionID, JStr agent =>
      if SESSION_ID_RE sessionID && negb (js_length agent =? 0) && (js_length agent <=? 128) && mem agent orchestratorAgents
      then Some (sessionID, agent) else None
  | _, _ => None
  end.

(** ** Theorems of the plugins' text functions

    A targeted edit replaces the leftmost occurrences and nothing else, on
    every branch; quoted words are read back; a token digest is bounded. *)
(** ** Occurrences *)

(** [pieces] are what [s] leaves around the occurrences of [p], each the
    leftmost of the rest. *)
Inductive leftmost (p : jsstr) : jsstr -> list jsstr -> Prop :=
  | leftmost_none s : includes s p = false -> leftmost p s [s]
  | leftmost_cut before after pieces :
      (forall a b, before ++ p ++ after = a ++ p ++ b -> (length before <= length a)%nat) ->
      leftmost p after pieces -> leftmost p (before ++ p ++ after) (before :: pieces).

Lemma cut_on_Some p s before after :
  cut_on p s = Some (before, after) ->
  s = before ++ p ++ after /\ forall a b, s = a ++ p ++ b -> (length before <= length a)%nat.
Proof.
  revert before. induction s as [|c s IH]; intros before; cbn [cut_on].
  - destruct (startsWith [] p) eqn:Hs; [|done]. intros [= <- <-]. apply startsWith_spec in Hs as [t Ht].
    destruct p; [|done]. split; [done|]. intros. cbn. lia.
  - destruct (startsWith (c :: s) p) eqn:Hs.
    + intros [= <- <-]. apply startsWith_spec in Hs as [t ->]. rewrite drop_app_length. split; [done|]. intros. cbn. lia.
    + destruct (cut_on p s) as [[before' after']|] eqn:Hc; [|done]. intros [= <- <-]. destruct (IH before' eq_refl) as [-> Hmin].
      split; [done|]. intros [|d a] b; cbn [app length].
      * intros Heq. rewrite Heq, startsWith_app in Hs. done.
      * intros [= <- Heq]. apply le_n_S, (Hmin _ _ Heq).
Qed.

Lemma cut_on_None p s : cut_on p s = None <-> includes s p = false.
Proof.
  induction s as [|c s IH]; cbn [cut_on includes].
  - by destruct (startsWith [] p).
  - destruct (startsWith (c :: s) p); [done|]. cbn [orb]. rewrite <- IH. by destruct (cut_on p s) as [[??]|].
Qed.

Lemma split_str_leftmost fuel p s : p <> [] -> (length s <= fuel)%nat -> leftmost p s (split_str fuel p s).
Proof.
  intros Hp. revert s. induction fuel as [|fuel IH]; intros s Hf; cbn [split_str].
  - destruct s; [|cbn in Hf; lia]. apply leftmost_none. apply cut_on_None. cbn. by destruct p.
  - destruct (cut_on p s) as [[before after]|] eqn:Hc; [|by apply leftmost_none, cut_on_None].
    apply cut_on_Some in Hc as [-> Hmin]. apply leftmost_cut; [done|]. apply IH.
    rewrite !length_app in Hf. destruct p; [done|]. cbn in Hf. lia.
Qed.

Lemma leftmost_nonempty p s pieces : leftmost p s pieces -> pieces <> [].
Proof. by destruct 1. Qed.

Lemma leftmost_join p s pieces : leftmost p s pieces -> join_with p pieces = s.
Proof.
  induction 1 as [|before after pieces _ Hl IH]; [done|]. rewrite join_with_cons by exact (leftmost_nonempty _ _ _ Hl). by rewrite IH.
Qed.

(** The occurrences are determined. *)
Lemma leftmost_cut_on p s pieces :
  leftmost p s pieces ->
  match cut_on p s with
  | None => pieces = [s]
  | Some (before, after) => exists rest, pieces = before :: rest /\ leftmost p after rest
  end.
Proof.
  intros Hl. destruct (cut_on p s) as [[before after]|] eqn:Hc.
  - apply cut_on_Some in Hc as [Hs Hmin]. destruct Hl as [s Hn|b a pieces Hmin' Hl].
    + exfalso. assert (includes s p = true) as Hi by (apply includes_spec; eauto). by rewrite Hn in Hi.
    + assert (length b = length before) as Hlen by (apply Nat.le_antisymm; [by eapply Hmin' | by eapply Hmin]).
      apply app_inj_1 in Hs as [-> Hs]; [|done]. apply app_inv_head in Hs as ->. by exists pieces.
  - destruct Hl as [|b a pieces _ Hl]; [done|]. apply cut_on_None in Hc.
    assert (includes (b ++ p ++ a) p = true) as Hi by (apply includes_spec; eauto). by rewrite Hc in Hi.
Qed.

(** C33: a targeted edit puts the new text where the old one occurs, leftmost
    first and without overlap, and leaves the rest of the file as it is; it
    refuses an old text that does not occur, one that occurs again unless every
    occurrence is to be replaced, and a result that is empty. *)
Theorem edit_replaces_occurrences content oldString newString replaceAll :
  oldString <> [] ->
  exists pieces, leftmost oldString content pieces /\ join_with oldString pieces = content /\
    applyTargetedEdit content oldString newString replaceAll =
      match pieces with
      | [_] => Throw (edit_error "oldString was not found")
      | _ =>
          if (2 <? Z.of_nat (length pieces)) && negb replaceAll
          then Throw (edit_error "oldString matched multiple times; set replaceAll to true to replace all")
          else if bool_decide (join_with newString pieces = []) then Throw (edit_error "edit would leave the file empty")
          else Ok (join_with newString pieces)
      end.
Proof.
  intros Hp. pose proof (split_str_leftmost (length content) oldString content Hp (Nat.le_refl _)) as Hl.
  exists (split_text oldString content). split; [done|]. split; [by apply leftmost_join|].
  unfold applyTargetedEdit. rewrite (bool_decide_eq_false_2 _ Hp). cbn [throw_if mbind res_bind].
  pose proof (leftmost_cut_on _ _ _ Hl) as Hc. fold (split_text oldString content) in *.
  destruct (cut_on oldString content) as [[before after]|]; [|by rewrite Hc].
  destruct Hc as (rest & Hrest & Hl'). rewrite Hrest. pose proof (leftmost_cut_on _ _ _ Hl') as Hc.
  destruct (cut_on oldString after) as [[before' after']|].
  - destruct Hc as (rest' & -> & Hl2). pose proof (leftmost_nonempty _ _ _ Hl2) as Hne. destruct rest' as [|piece rest']; [done|].
    rewrite (bool_decide_eq_true_2 (is_Some _)) by eauto. rewrite (proj2 (Z.ltb_lt 2 _)) by (cbn [length]; lia).
    destruct replaceAll; cbn [negb andb]; [|done]. cbn [throw_if mbind res_bind]. by case_bool_decide.
  - subst rest. rewrite (bool_decide_eq_false_2 (is_Some _)) by (by intros [? ?]). cbn [andb length Z.of_nat Z.ltb Z.compare].
    cbn [throw_if mbind res_bind]. replace (if replaceAll then join_with newString [before; after] else before ++ newString ++ after)
      with (join_with newString [before; after]) by (by destruct replaceAll). by case_bool_decide.
Qed.

Lemma edit_replaces_occurrences_witness :
  exists pieces, leftmost (js "aa") (js "xaaaay") pieces /\ join_with (js "aa") pieces = js "xaaaay" /\
    applyTargetedEdit (js "xaaaay") (js "aa") (js "b") true =
      match pieces with
      | [_] => Throw (edit_error "oldString was not found")
      | _ =>
          if (2 <? Z.of_nat (length pieces)) && negb true
          then Throw (edit_error "oldString matched multiple times; set replaceAll to true to replace all")
          else if bool_decide (join_with (js "b") pieces = []) then Throw (edit_error "edit would leave the file empty")
          else Ok (join_with (js "b") pieces)
      end.
Proof. apply (edit_replaces_occurrences (js "xaaaay") (js "aa") (js "b") true). discriminate. Defined.

(** The text of an overlapping occurrence counts once. *)
Example overlap_counts_once : applyTargetedEdit (js "aaa") (js "aa") (js "b") false = Ok (js "ba").
Proof. reflexivity. Qed.

(** ** Commands *)

(** How a word may be written: as it is, or between quotes it does not hold. *)
Definition quote_mark (c : N) : bool := ((c =? 39) || (c =? 34))%N.
Definition blank_char (c : N) : bool := ((c =? 32) || (c =? 9))%N.
Inductive spells : jsstr -> jsstr -> Prop :=
  | spells_plain w : w <> [] -> forallb (fun c => negb (quote_mark c) && negb (blank_char c)) w = true -> spells w w
  | spells_quoted q w : w <> [] -> quote_mark q = true -> q ∉ w -> spells (q :: w ++ [q]) w.

Lemma tokenize_plain tokens current w :
  forallb (fun c => negb (quote_mark c) && negb (blank_char c)) w = true ->
  foldl tokenize_step (mkTokenizer tokens current None) w = mkTokenizer tokens (current ++ w) None.
Proof.
  revert current. induction w as [|c w IH]; intros current; cbn [forallb foldl]; [by rewrite app_nil_r|].
  rewrite !andb_true_iff, !negb_true_iff. intros [[Hq Hb] Hw]. unfold quote_mark, blank_char in *. unfold tokenize_step at 2. cbn [tk_quote]. rewrite Hq, Hb.
  unfold add_char. cbn. rewrite IH by done. by rewrite <- app_assoc.
Qed.

Lemma tokenize_quoted tokens current q w :
  q ∉ w -> foldl tokenize_step (mkTokenizer tokens current (Some q)) w = mkTokenizer tokens (current ++ w) (Some q).
Proof.
  revert current. induction w as [|c w IH]; intros current; cbn [foldl]; [by rewrite app_nil_r|].
  rewrite not_elem_of_cons. intros [Hc Hw]. unfold tokenize_step at 2. cbn [tk_quote]. rewrite (proj2 (N.eqb_neq c q)) by congruence.
  unfold add_char. cbn. rewrite IH by done. by rewrite <- app_assoc.
Qed.

Lemma tokenize_word tokens text w :
  spells text w -> foldl tokenize_step (mkTokenizer tokens [] None) text = mkTokenizer tokens w None /\ w <> [].
Proof.
  destruct 1 as [w Hw Hc|q w Hw Hq Hc]; (split; [|done]); [by apply tokenize_plain|].
  cbn [foldl]. rewrite foldl_app. unfold tokenize_step at 3. cbn [tk_quote]. unfold quote_mark in Hq. rewrite Hq. unfold with_quote. cbn [tk_tokens tk_current].
  rewrite tokenize_quoted by done. cbn [app foldl]. unfold tokenize_step. cbn [tk_quote]. by rewrite N.eqb_refl.
Qed.

Lemma tokenize_words tokens texts words :
  Forall2 spells texts words -> words <> [] ->
  end_token (foldl tokenize_step (mkTokenizer tokens [] None) (join_with [32%N] texts)) = mkTokenizer (tokens ++ words) [] None.
Proof.
  intros H. revert tokens. induction H as [|text w texts words Hw H IH]; intros tokens Hne; [done|].
  destruct (tokenize_word tokens text w Hw) as [Ht Hwn]. destruct texts as [|text' texts].
  - apply Forall2_nil_inv_l in H as ->. cbn [join_with]. rewrite Ht. unfold end_token. cbn. by destruct w.
  - rewrite join_with_cons by done. rewrite foldl_app, Ht. cbn [app foldl]. unfold tokenize_step at 2. cbn.
    unfold end_token at 2. cbn [tk_current tk_tokens tk_quote]. destruct w as [|c w]; [done|].
    rewrite IH by (by intros ->; inversion H). by rewrite <- app_assoc.
Qed.

(** A command of words, each written as it is or between quotes it does not
    hold, is read back as those words. *)
Theorem command_roundtrip texts words :
  Forall2 spells texts words -> words <> [] -> tokenizeCommand (join_with [32%N] texts) = Ok words.
Proof.
  intros H Hne. unfold tokenizeCommand. pose proof (tokenize_words [] texts words H Hne) as He.
  assert (tk_quote (foldl tokenize_step (mkTokenizer [] [] None) (join_with [32%N] texts)) = None) as Hq.
  { apply (f_equal tk_quote) in He. unfold end_token in He. by destruct (tk_current _). }
  rewrite Hq, He. cbn [is_Some]. rewrite (bool_decide_eq_false_2 (is_Some _)) by (by intros [? ?]).
  cbn [throw_if mbind res_bind tk_tokens app]. by rewrite (bool_decide_eq_false_2 _ Hne).
Qed.

Lemma command_roundtrip_witness :
  tokenizeCommand (join_with [32%N] [js "git"; js "commit"; js "-m"; js "'it is ok'"]) = Ok [js "git"; js "commit"; js "-m"; js "it is ok"].
Proof.
  apply (command_roundtrip [js "git"; js "commit"; js "-m"; js "'it is ok'"]); [|discriminate].
  repeat constructor; try discriminate; try reflexivity.
  apply (spells_quoted 39%N (js "it is ok")); [discriminate | reflexivity | apply (bool_decide_unpack _); vm_compute; exact I].
Defined.

(** A word that is empty cannot be written. *)
Example quoted_empty_is_dropped : tokenizeCommand (js "git commit -m ''") = Ok [js "git"; js "commit"; js "-m"].
Proof. reflexivity. Qed.

(** ** Token digests *)
Lemma hex_char_lower d : 0 <= d < 16 -> is_hex_lower (hex_char d) = true.
Proof.
  intros H. unfold is_hex_lower, is_digit, hex_char. destruct (Z.ltb_spec d 10);
    [apply orb_true_intro; left | apply orb_true_intro; right]; apply andb_true_iff; rewrite !N.leb_le; lia.
Qed.

(** A number below [16^fuel] has at most [fuel] digits. *)
Lemma hex_text_bound fuel z :
  0 <= z < 16 ^ Z.of_nat fuel -> (length (hex_text fuel z) <= fuel)%nat /\ forallb is_hex_lower (hex_text fuel z) = true.
Proof.
  revert z. induction fuel as [|fuel IH]; intros z Hz; cbn [hex_text]; [by cbn|].
  destruct (Z.ltb_spec z 16); cbn [length forallb]; [rewrite hex_char_lower by lia; split; [lia|done]|].
  destruct (IH (z / 16)) as [Hl Hf].
  { rewrite Nat2Z.inj_succ, Z.pow_succ_r in Hz by lia. split; [apply Z.div_pos; lia|]. apply Z.div_lt_upper_bound; lia. }
  rewrite length_app, forallb_app, Hf. cbn [length forallb andb]. rewrite hex_char_lower by (apply Z.mod_pos_bound; lia). split; [lia|done].
Qed.

Lemma digest_range cs hash : 0 <= hash < 2 ^ 32 -> 0 <= foldl digest_step hash cs < 2 ^ 32.
Proof.
  revert hash. induction cs as [|c cs IH]; intros hash H; cbn [foldl]; [done|]. apply IH. unfold digest_step, uint32. apply Z.mod_pos_bound. lia.
Qed.

(** A digest is absent or eight lower-case hexadecimal digits, whatever the
    tokens are: nothing of their length is shown. *)
Theorem token_digest_bounded values :
  reviewTokenDigest values = [] \/ js_length (reviewTokenDigest values) = 8 /\ forallb is_hex_lower (reviewTokenDigest values) = true.
Proof.
  unfold reviewTokenDigest. destruct (digest_input values) as [|c cs]; [by left|right].
  destruct (hex_text_bound 8 (foldl digest_step FNV_OFFSET (c :: cs))) as [Hl Hf]; [by apply digest_range|].
  unfold padStart, js_length in *. rewrite length_app, repeat_length, forallb_app, Hf. split; [lia|].
  rewrite andb_true_r. apply forallb_forall. intros x Hx. by apply repeat_spec in Hx as ->.
Qed.

(** A token shown under another field has the same digest. *)
Example digest_ignores_the_field :
  let lineage := JObj [(js "lineage", text "t")] in
  let target := JObj [(js "target", text "t")] in
  digest_field lineage ["target"; "lineage"; "repositoryContext"]%string = digest_field target ["target"; "lineage"; "repositoryContext"]%string.
Proof. reflexivity. Qed.
