(* ===== verification/PluginTools.v ===== *)
(** * The tools of the sandbox plugin (opencode/plugins/sandbox-tools.ts,
    legacy-sdd-tools.ts)

    A tool is a program over two calls: a request to the broker and a question
    to the user.  Here: the program of every tool, as the plugin composes it,
    and the runs it has against any broker and any user.  A client that cannot
    be had answers the next request with its error.  The schemas of the
    arguments and the descriptions are not modelled. *)
From S2P Require Import Prelude JsVal Json JsOps Path GitOps Envelope Validation Codec Worker ReviewArgv SddRuntime PluginValues Approval EditCore.
Open Scope Z_scope.

(** ** Programs *)
Inductive tool (A : Type) :=
  | Return (a : A)
  | Raise (e : exn)
  | Request (operation : string) (sessionID : jsstr) (payload agent : jsval) (k : res jsval -> tool A)
  | Ask (question : HostToolAsk) (k : res unit -> tool A).
Arguments Return {A} a.
Arguments Raise {A} e.
Arguments Request {A} operation sessionID payload agent k.
Arguments Ask {A} question k.

#[export] Instance tool_bind : MBind tool := fun A B f =>
  fix go (m : tool A) : tool B :=
    match m with
    | Return a => f a
    | Raise e => Raise e
    | Request operation sessionID payload agent k => Request operation sessionID payload agent (fun r => go (k r))
    | Ask question k => Ask question (fun r => go (k r))
    end.

(** [try { m } catch (error) { throw handler(error) }] *)
Fixpoint rethrow {A} (handler : exn -> exn) (m : tool A) : tool A :=
  match m with
  | Return a => Return a
  | Raise e => Raise (handler e)
  | Request operation sessionID payload agent k => Request operation sessionID payload agent (fun r => rethrow handler (k r))
  | Ask question k => Ask question (fun r => rethrow handler (k r))
  end.

Definition pure_of {A} (r : res A) : tool A := match r with Ok a => Return a | Throw e => Raise e end.

(** What a tool did, with the answers it got. *)
Inductive tool_event :=
  | Requested (operation : string) (sessionID : jsstr) (payload agent : jsval) (answer : res jsval)
  | Asked (question : HostToolAsk) (answer : res unit).

Inductive runs {A} : tool A -> list tool_event -> res A -> Prop :=
  | runs_return a : runs (Return a) [] (Ok a)
  | runs_raise e : runs (Raise e) [] (Throw e)
  | runs_request operation sessionID payload agent k r trace out :
      runs (k r) trace out -> runs (Request operation sessionID payload agent k) (Requested operation sessionID payload agent r :: trace) out
  | runs_ask question k r trace out : runs (k r) trace out -> runs (Ask question k) (Asked question r :: trace) out.

(** ** The context of a call *)
Record ToolContext := mkContext { tc_sessionID : jsstr; tc_agent : jsval; tc_directory : jsval }.

Definition READ_ONLY_AGENTS : list jsstr :=
  map js ["gentle-orchestrator"; "pm-odd"; "pm-systematic"; "pm-sdd"; "pm-odd-astra"; "pm-systematic-astra"]%string.

Definition assertNotOrchestrator (agent : jsval) (toolName : string) : res unit :=
  match agent with
  | JStr a => throw_if (mem a READ_ONLY_AGENTS)
      (Exn EError (js "orchestrator agent " ++ [34%N] ++ a ++ [34%N] ++ js " is not allowed to use sandbox operation " ++ [34%N]
                   ++ js toolName ++ [34%N] ++ js " (orchestrator-readonly)"))
  | _ => Ok tt
  end.

Definition currentProjectDirectory (directory : jsval) : res jsval :=
  if is_falsy directory then Throw (Exn EError (js "host-side SDD runtime requires the current project directory")) else Ok directory.

Definition answered {A} (r : res A) : tool A := pure_of r.
Definition request_as (ctx : ToolContext) (agent : jsval) (operation : string) (payload : jsval) : tool jsval :=
  Request operation (tc_sessionID ctx) payload agent answered.
Definition request (ctx : ToolContext) : string -> jsval -> tool jsval := request_as ctx (tc_agent ctx).
Definition ask (question : res HostToolAsk) : tool unit :=
  question ← pure_of question; Ask question answered.

(** ** Results *)

(** [String(r.k ?? other)] *)
Definition shown (r : jsval) (k other : string) : res jsstr := js_String (nullish_or (at_key r k) (text other)).
Definition nonempty_string (v : jsval) : option jsstr := match v with JStr (c :: s) => Some (c :: s) | _ => None end.

Definition format_exec (r : jsval) : res jsstr :=
  stdout ← shown r "stdout" EmptyString;
  stderr ← shown r "stderr" EmptyString;
  let status := to_number (nullish_or (at_key r "status") (jint 0)) in
  let body := match stderr with [] => stdout | _ => trim (stdout ++ [10%N] ++ stderr) end in
  if is_int_of (JNum status) 0 then Ok body
  else code ← js_String (JNum status); Ok (trim (js "exit " ++ code ++ [10%N] ++ body)).

Definition format_grep (r : jsval) : res jsstr :=
  match at_key r "matches" with JStr m => Ok m | m => Ok (json_indented (nullish_or m (JArr []))) end.
Definition format_diff (r : jsval) : res jsstr :=
  match nonempty_string (at_key r "diff"), nonempty_string (at_key r "stat") with
  | Some diff, _ => Ok diff
  | None, Some stat => Ok stat
  | None, None => Ok (json_indented r)
  end.
Definition format_patch (r : jsval) : res jsstr :=
  note ← (if is_undef (at_key r "changedLines") then Ok [] else template [text " ("; at_key r "changedLines"; text " lines changed)"]);
  Ok (js "patch applied" ++ note).
Definition format_worker (r : jsval) : res jsstr :=
  worker ← shown r "worker" "?";
  state ← shown r "state" "?";
  Ok (js "worker " ++ worker ++ js (if is_falsy (at_key r "reused") then " created" else " reused") ++ js " (state " ++ state ++ js ")").
Definition labelled (prefix : string) (k : string) (r : jsval) : res jsstr := v ← shown r k "?"; Ok (js prefix ++ v).

Definition FORMATS : list (string * (jsval -> res jsstr)) :=
  [("readFile", fun r => shown r "content" EmptyString); ("exec", format_exec); ("listDir", fun r => shown r "listing" EmptyString);
   ("grep", format_grep); ("diff", format_diff); ("writeFile", labelled "wrote " "path"); ("applyPatch", format_patch);
   ("ensureWorker", format_worker); ("workerStatus", labelled "state: " "state"); ("prepareResult", labelled "result ready: " "resultRef");
   ("applyResult", labelled "applied to host: " "resultRef"); ("discardResult", labelled "discarded; worker " "state");
   ("copyOut", labelled "copied to host: " "target"); ("copyIn", labelled "copied to worker: " "path")]%string.

Definition formatResult (operation : string) (result : jsval) : res jsstr :=
  let r := nullish_or result (JObj []) in
  match List.find (fun f => String.eqb (fst f) operation) FORMATS with
  | Some (_, format) => format r
  | None => Ok (json_indented r)
  end.

(** The text of a request's answer. *)
Definition formatted (ctx : ToolContext) (operation : string) (payload : jsval) : tool jsstr :=
  result ← request ctx operation payload; pure_of (formatResult operation result).
Definition in_json (ctx : ToolContext) (operation : string) (payload : jsval) : tool jsstr :=
  result ← request ctx operation payload; Return (json_indented result).

(** [{ projectDir, ... }] *)
Definition in_project (ctx : ToolContext) (fields : list (jsstr * jsval)) : tool jsval :=
  directory ← pure_of (currentProjectDirectory (tc_directory ctx));
  Return (JObj ((js "projectDir", directory) :: fields)).

(** [{ projectDir, ...args, ...extra }] *)
Definition with_args (ctx : ToolContext) (args : jsval) (extra : list (jsstr * jsval)) : tool jsval :=
  directory ← pure_of (currentProjectDirectory (tc_directory ctx));
  Return (JObj (merge_fields (merge_fields [(js "projectDir", directory)] (default [] (plain_object args))) extra)).

Definition project_json (ctx : ToolContext) (operation : string) (payload : tool jsval) : tool jsstr :=
  payload ← payload; in_json ctx operation payload.

(** The fields of an argument object that are there, and those that are truthy. *)
Definition given_fields (args : jsval) (ks : list string) : list (jsstr * jsval) :=
  concat (map (fun k => if_defined k (at_key args k)) ks).
Definition truthy_fields (args : jsval) (ks : list string) : list (jsstr * jsval) :=
  concat (map (fun k => if_truthy k (at_key args k)) ks).
Definition plain_fields (args : jsval) (ks : list string) : list (jsstr * jsval) := map (arg_field args) ks.

Section tools.
  (** process.cwd(), the canonical path, kind and size of a file, its content, and the digest. *)
  Context (cwd : jsstr) (realpath : jsstr -> option jsstr) (stat : jsstr -> option (bool * Z)) (readFile : jsstr -> option (list N)).
  Context (sha256_hex : list N -> jsstr).

Definition ensureWorker (ctx : ToolContext) : tool jsval :=
  request_as ctx JUndef "ensureWorker" (JObj [(js "projectDir", nullish_or (tc_directory ctx) (JStr cwd))]).

(** ** Tools of the sandbox *)
Definition guarded (ctx : ToolContext) (name : string) : tool unit := pure_of (assertNotOrchestrator (tc_agent ctx) name).

Definition sandbox_read (ctx : ToolContext) (args : jsval) : tool jsstr :=
  _ ← guarded ctx "sandbox_read"; formatted ctx "readFile" (JObj (plain_fields args ["path"]%string)).
Definition sandbox_list (ctx : ToolContext) (args : jsval) : tool jsstr :=
  _ ← guarded ctx "sandbox_list"; formatted ctx "listDir" (JObj (plain_fields args ["path"]%string)).
Definition sandbox_grep (ctx : ToolContext) (args : jsval) : tool jsstr :=
  _ ← guarded ctx "sandbox_grep"; formatted ctx "grep" (JObj (plain_fields args ["query"; "path"]%string)).

Definition sandbox_write (ctx : ToolContext) (args : jsval) : tool jsstr :=
  _ ← guarded ctx "sandbox_write"; _ ← ensureWorker ctx;
  formatted ctx "writeFile" (JObj (plain_fields args ["path"; "content"]%string)).

Definition sandbox_edit (ctx : ToolContext) (args : jsval) : tool jsstr :=
  _ ← guarded ctx "sandbox_edit";
  _ ← ensureWorker ctx;
  file ← request ctx "readFile" (JObj (plain_fields args ["path"]%string));
  match at_key file "content" with
  | JStr content =>
      content ← pure_of (applyTargetedEdit content (as_string (at_key args "oldString")) (as_string (at_key args "newString"))
                           (negb (is_falsy (at_key args "replaceAll"))));
      formatted ctx "writeFile" (JObj (plain_fields args ["path"]%string ++ [(js "content", JStr content)]))
  | _ => Raise (Exn EError (js "sandbox_edit: broker read returned no file content"))
  end.

Definition patch_failed (e : exn) : exn :=
  Exn EError (js "sandbox_apply_patch failed: " ++ exn_msg e
    ++ js ". Provide a complete Git unified diff; check hunk line counts and include unchanged context for changed lines. Append-only EOF hunks may end on additions. Include a final newline.").
Definition sandbox_apply_patch (ctx : ToolContext) (args : jsval) : tool jsstr :=
  _ ← guarded ctx "sandbox_apply_patch";
  rethrow patch_failed (_ ← ensureWorker ctx; formatted ctx "applyPatch" (JObj (plain_fields args ["patch"]%string))).

Definition sandbox_bash (ctx : ToolContext) (args : jsval) : tool jsstr :=
  _ ← guarded ctx "sandbox_bash";
  _ ← ensureWorker ctx;
  argv ← pure_of (tokenizeCommand (as_string (at_key args "command")));
  formatted ctx "exec" (JObj ((js "argv", JArr (map JStr argv)) :: truthy_fields args ["cwd"; "timeoutMs"]%string)).

Definition sandbox_diff (ctx : ToolContext) (args : jsval) : tool jsstr :=
  _ ← guarded ctx "sandbox_diff"; formatted ctx "diff" (JObj []).
Definition sandbox_finish (ctx : ToolContext) (args : jsval) : tool jsstr :=
  _ ← guarded ctx "sandbox_finish"; formatted ctx "prepareResult" (JObj []).
Definition sandbox_discard (ctx : ToolContext) (args : jsval) : tool jsstr :=
  _ ← guarded ctx "sandbox_discard"; formatted ctx "discardResult" (JObj [(js "confirm", text "REJECT")]).

(** A question with the metadata given. *)
Definition plain_ask (permission : string) (metadata : list (jsstr * jsval)) : res HostToolAsk :=
  Ok (mkAsk (text permission) [js "*"] [] metadata).

(** The diff to count when the broker sent no bounded preview. *)
Definition raw_preview (diff : jsval) : res jsval :=
  match nullish_or (at_key diff "compare") (text EmptyString) with
  | JStr compare => Ok (match trim compare with [] => nullish_or (at_key diff "diff") (text EmptyString) | _ => JStr compare end)
  | _ => Throw (type_error "compare.trim is not a function")
  end.
Definition preview_lines (raw : jsval) : res jsval :=
  match raw with
  | JStr raw => Ok (jint (Z.of_nat (length (split_on 10 raw))))
  | _ => Throw (type_error "rawPreview.split is not a function")
  end.

(** The metadata of an apply: the broker's bounded preview, or only the counts. *)
Definition apply_metadata (diff raw previewFile previewAnsiFile : jsval) : res (list (jsstr * jsval)) :=
  let bounded := at_key diff "applyPreview" in
  let summary := (js "summary", nullish_or (at_key diff "stat") (text EmptyString)) in
  let files := [(js "previewFile", previewFile); (js "previewAnsiFile", previewAnsiFile)] in
  if is_falsy bounded
  then lines ← preview_lines raw; Ok ([summary; (js "totalLines", lines); (js "previewTruncated", JBool true)] ++ files)
  else Ok ([summary] ++ plain_fields bounded ["files"; "addedLines"; "removedLines"; "totalLines"; "previewTruncated"; "preview"]%string ++ files).

Definition sandbox_apply (ctx : ToolContext) (args : jsval) : tool jsstr :=
  _ ← guarded ctx "sandbox_apply";
  status ← request ctx "workerStatus" (JObj []);
  _ ← (if is_text_of (at_key status "state") (js "RESULT_READY") then Return JUndef else request ctx "prepareResult" (JObj []));
  diff ← request ctx "diff" (JObj [(js "mode", text "active")]);
  raw ← pure_of (raw_preview diff);
  let bounded := at_key diff "applyPreview" in
  let truncated := if is_falsy bounded then true else negb (is_falsy (at_key bounded "previewTruncated")) in
  paths ← pure_of (decideApplyPreviewApproval truncated (at_key diff "applyPreviewFiles"));
  metadata ← pure_of (apply_metadata diff raw (fst paths) (snd paths));
  _ ← ask (plain_ask "sandbox_apply" metadata);
  formatted ctx "applyResult" (JObj [(js "confirm", text "APPLY")]).

Definition sandbox_copy_out (ctx : ToolContext) (args : jsval) : tool jsstr :=
  _ ← guarded ctx "sandbox_copy_out";
  let fields := plain_fields args ["workerPath"; "hostTarget"]%string in
  info ← request ctx "copyOutInfo" (JObj fields);
  _ ← ask (plain_ask "sandbox_copy_out"
        [(js "target", nullish_or (at_key info "target") (at_key args "hostTarget"));
         (js "totalLines", nullish_or (at_key info "totalLines") (jint 0)); (js "preview", nullish_or (at_key info "preview") (text EmptyString))]);
  formatted ctx "copyOut" (JObj (fields ++ [(js "confirm", text "COPY")])).

Definition sandbox_copy_in (ctx : ToolContext) (args : jsval) : tool jsstr :=
  _ ← guarded ctx "sandbox_copy_in";
  _ ← ensureWorker ctx;
  let fields := plain_fields args ["hostSource"; "workerPath"]%string in
  info ← request ctx "copyInInfo" (JObj fields);
  _ ← ask (plain_ask "sandbox_copy_in"
        [(js "source", nullish_or (at_key info "source") (at_key args "hostSource")); (js "bytes", nullish_or (at_key info "bytes") (jint 0))]);
  formatted ctx "copyIn" (JObj (fields ++ [(js "confirm", text "COPY")])).

(** ** Tools of the host *)
Definition host_sandbox_result (ctx : ToolContext) (args : jsval) : tool jsstr :=
  project_json ctx "sandboxResult" (in_project ctx (truthy_fields args ["sandboxSessionID"; "compareSandboxSessionID"]%string)).

(** A preview with its note, and whether it is cut. *)
Definition tool_preview (preview : jsval) : res (jsstr * bool) :=
  match at_key preview "patch" with
  | JStr patch =>
      Ok (if 12000 <? js_length patch then firstn 12000 patch ++ TRUNCATION_NOTE else patch,
          negb (is_falsy (at_key preview "patchTruncated")) || (12000 <? js_length patch))
  | _ => Throw (type_error "preview.patch is not a string")
  end.

Definition changed_path_list (preview : jsval) : res jsval :=
  match at_key preview "changedPaths" with
  | JArr entries => paths ← map_res (fun entry => member entry "path") entries; Ok (JArr paths)
  | _ => Throw (type_error "preview.changedPaths.map is not a function")
  end.

Definition host_sandbox_result_install (ctx : ToolContext) (args : jsval) : tool jsstr :=
  payload ← in_project ctx (truthy_fields args ["sandboxSessionID"]%string);
  preview ← request ctx "sandboxResult" payload;
  bounded ← pure_of (tool_preview preview);
  let result := at_key preview "result" in
  paths ← pure_of (decideApplyPreviewApproval (snd bounded) (at_key preview "applyPreviewFiles"));
  _ ← pure_of (member result "ref");
  changed ← pure_of (changed_path_list preview);
  _ ← ask (buildSandboxResultInstallAsk (JObj
        ([(js "resultRef", at_key result "ref"); (js "resultCommit", at_key result "commit"); (js "changedPaths", changed);
          (js "preview", JStr (fst bounded)); (js "previewTruncated", JBool (snd bounded))]
         ++ if_truthy "previewFile" (fst paths) ++ given_fields args ["sandboxSessionID"]%string)));
  project_json ctx "sandboxResultInstall"
    (in_project ctx ((js "expectedResultCommit", at_key result "commit") :: given_fields args ["sandboxSessionID"]%string)).

Definition host_review_assess (ctx : ToolContext) (args : jsval) : tool jsstr :=
  project_json ctx "reviewAssess"
    (in_project ctx (given_fields args ["baseRef"; "committedOnly"; "untrackedScope"; "expectedUntrackedInventory"; "intendedUntracked"]%string)).
Definition host_review_mode_status (ctx : ToolContext) (args : jsval) : tool jsstr := project_json ctx "reviewModeStatus" (in_project ctx []).
Definition host_review_status (ctx : ToolContext) (args : jsval) : tool jsstr :=
  project_json ctx "reviewStatus"
    (in_project ctx (truthy_fields args ["agent"]%string
       ++ given_fields args ["lineage"; "repositoryContext"; "projection"; "baseRef"; "committedOnly"; "intendedUntrackedSelection"]%string)).
Definition host_review_lens_context (ctx : ToolContext) (args : jsval) : tool jsstr :=
  project_json ctx "reviewLensContext"
    (in_project ctx (plain_fields args ["repositoryContext"; "lineage"; "target"; "expectedRevision"; "lens"]%string)).

(** The error of a tool, with the code of its cause. *)
Definition code_of (e : exn) : option jsstr := match exn_class e with ECoded code => Some code | _ => None end.
Definition failed_as (name : string) (e : exn) : exn :=
  Exn EError (js name ++ js " failed" ++ match code_of e with Some code => js " [" ++ code ++ js "]" | None => [] end ++ js ": " ++ exn_msg e).

(** [/^[a-z][a-z0-9_]{0,63}$/] *)
Definition ERROR_CODE_RE (s : jsstr) : bool :=
  match s with c :: s' => is_lower c && re_class (fun c => is_lower c || is_digit c || (c =? 95)%N) 0 63 s' | [] => false end.
Definition diff_read_failed (e : exn) : exn :=
  match code_of e with
  | Some code => if ERROR_CODE_RE code
                 then Exn (ECoded code) (js "host_review_diff_read failed [" ++ code ++ js "]: " ++ exn_msg e)
                 else Exn EError (js "host_review_diff_read failed: " ++ exn_msg e)
  | None => Exn EError (js "host_review_diff_read failed: " ++ exn_msg e)
  end.

Definition host_review_pipeline_run (ctx : ToolContext) (args : jsval) : tool jsstr :=
  rethrow (failed_as "host_review_pipeline_run") (project_json ctx "reviewPipelineRun" (with_args ctx args [])).
Definition host_review_materialize (ctx : ToolContext) (args : jsval) : tool jsstr :=
  rethrow (failed_as "host_review_materialize") (project_json ctx "reviewMaterialize" (with_args ctx args [])).
Definition host_review_diff_read (ctx : ToolContext) (args : jsval) : tool jsstr :=
  rethrow diff_read_failed
    (project_json ctx "reviewDiffRead" (in_project ctx (plain_fields args ["runId"]%string ++ given_fields args ["slice"]%string))).

Definition host_review_persist (ctx : ToolContext) (args : jsval) : tool jsstr :=
  directory ← pure_of (currentProjectDirectory (tc_directory ctx));
  rethrow (failed_as "host_review_persist")
    (payload ← with_args ctx args [];
     preflight ← request ctx "reviewPersistPreflight" payload;
     blockers ← pure_of (match at_key preflight "blockers" with JArr xs => Ok xs | _ => Throw (type_error "blockers is not an array") end);
     _ ← pure_of (assertReviewPersistPreflightClear blockers);
     _ ← ask (buildReviewPersistAsk (JObj ((js "projectDir", directory) :: plain_fields args ["runId"; "finalizeRef"; "mode"]%string
                                           ++ [(js "preflight", preflight)])));
     in_json ctx "reviewPersist" payload).

(** A question, then the request with all the arguments. *)
Definition asked_with_args (ctx : ToolContext) (args : jsval) (question : res HostToolAsk) (operation : string) : tool jsstr :=
  _ ← ask question; project_json ctx operation (with_args ctx args []).

Definition host_git_commit (ctx : ToolContext) (args : jsval) : tool jsstr :=
  let fields := plain_fields args ["message"]%string ++ given_fields args ["sandboxSessionID"]%string in
  _ ← ask (buildGitCommitAsk (JObj fields)); project_json ctx "gitCommit" (in_project ctx fields).

Definition host_git_clear_commit_intent (ctx : ToolContext) (args : jsval) : tool jsstr :=
  let session := nullish_or (at_key args "sandboxSessionID") (JStr (tc_sessionID ctx)) in
  _ ← ask (summary ← template [text "Clear the pending host-commit intent for session "; session];
           plain_ask "host_git_clear_commit_intent" [(js "summary", JStr summary); (js "sessionID", session)]);
  project_json ctx "gitClearCommitIntent" (in_project ctx (given_fields args ["sandboxSessionID"]%string)).

Definition host_git_push (ctx : ToolContext) (args : jsval) : tool jsstr :=
  let remote := nullish_or (at_key args "remote") (text "origin") in
  _ ← ask (buildGitPushAsk (JObj [(js "remote", remote); (js "branch", text "(broker-resolved)"); (js "ahead", jint 0);
        (js "upstream", JNull); (js "setUpstream", JBool (match at_key args "setUpstream" with JBool b => b | _ => false end))]));
  project_json ctx "gitPush"
    (in_project ctx ((js "remote", remote) :: given_fields args ["setUpstream"; "allowProtectedBranch"]%string)).

Definition host_gh_issue_create (ctx : ToolContext) (args : jsval) : tool jsstr :=
  let fields := plain_fields args ["repo"; "title"; "body"]%string in
  _ ← ask (buildGhIssueCreateAsk (JObj fields)); project_json ctx "ghIssueCreate" (in_project ctx fields).

Definition host_test_run (ctx : ToolContext) (args : jsval) : tool jsstr :=
  project_json ctx "testRun" (in_project ctx (plain_fields args ["runner"]%string)).
Definition host_plan_write (ctx : ToolContext) (args : jsval) : tool jsstr :=
  project_json ctx "planDocWrite" (with_args ctx args [(js "agent", tc_agent ctx)]).
Definition host_task_mark (ctx : ToolContext) (args : jsval) : tool jsstr := project_json ctx "taskMark" (with_args ctx args []).
Definition host_gate_verdict (ctx : ToolContext) (args : jsval) : tool jsstr :=
  project_json ctx "gateVerdict" (with_args ctx args [(js "agent", tc_agent ctx)]).

Definition host_plan_append (ctx : ToolContext) (args : jsval) : tool jsstr :=
  let fields := plain_fields args ["doc"; "content"]%string ++ given_fields args ["heading"]%string in
  _ ← ask (buildPlanDocAppendAsk (JObj fields)); project_json ctx "planDocAppend" (in_project ctx fields).

Definition host_register_project (ctx : ToolContext) (args : jsval) : tool jsstr :=
  let flag k := (js k, JBool (negb (is_falsy (at_key args k)))) in
  let payload := JObj (plain_fields args ["path"]%string ++ map flag ["dryRun"; "createRemote"; "makePublic"]%string) in
  _ ← ask (buildRegisterProjectAsk payload); in_json ctx "registerProject" payload.

(** ** Review tools *)
Definition host_review_start (ctx : ToolContext) (args : jsval) : tool jsstr :=
  asked_with_args ctx args (buildReviewStartAsk args) "reviewStart".

(** The size and digest of an input file inside the project; nothing when it
    cannot be described. *)
Definition describeReviewInput (projectDir input : jsval) : list (jsstr * jsval) :=
  match input with
  | JStr input =>
      if str_eqb input (js "-") then [] else
      default [] (root ← realpath (as_string projectDir);
        let candidate := resolve2 root input in
        if negb (isWithin root candidate) then None else
        real ← realpath candidate;
        if negb (isWithin root real) then None else
        kind ← stat real;
        if negb (fst kind) then None else
        content ← readFile real;
        Some [(js "inputBytes", jint (snd kind)); (js "inputDigest", JStr (firstn 16 (sha256_hex content)))])
  | _ => []
  end.
Definition describeInlineReviewInput (inputJson : jsval) : list (jsstr * jsval) :=
  match inputJson with
  | JStr body => [(js "inputJsonBytes", jint (byteLength body)); (js "inputJsonDigest", JStr (firstn 16 (sha256_hex (utf8_encode body))))]
  | _ => []
  end.

Definition host_review_capture_result (ctx : ToolContext) (args : jsval) : tool jsstr :=
  projectDir ← pure_of (currentProjectDirectory (tc_directory ctx));
  let askArgs := List.filter (fun kv => negb (str_eqb (fst kv) (js "inputJson"))) (default [] (plain_object args)) in
  _ ← ask (buildReviewCaptureResultAsk (JObj (merge_fields (merge_fields askArgs (describeReviewInput projectDir (at_key args "input")))
             (describeInlineReviewInput (at_key args "inputJson")))));
  in_json ctx "reviewCaptureResult" (JObj (merge_fields [(js "projectDir", projectDir)] (default [] (plain_object args)))).

Definition host_review_capture_unachievable (ctx : ToolContext) (args : jsval) : tool jsstr :=
  asked_with_args ctx args (buildReviewCaptureUnachievableAsk args) "reviewCaptureUnachievable".
Definition host_review_acknowledge_approved (ctx : ToolContext) (args : jsval) : tool jsstr :=
  asked_with_args ctx args (buildReviewAcknowledgeApprovedAsk args) "reviewAcknowledgeApproved".
Definition host_review_capture_correction_plan (ctx : ToolContext) (args : jsval) : tool jsstr :=
  asked_with_args ctx args (buildReviewCaptureCorrectionPlanAsk args) "reviewCaptureCorrectionPlan".
Definition host_review_capture_refuter (ctx : ToolContext) (args : jsval) : tool jsstr :=
  asked_with_args ctx args (buildReviewCaptureRefuterAsk args) "reviewCaptureRefuter".
Definition host_review_capture_validation (ctx : ToolContext) (args : jsval) : tool jsstr :=
  asked_with_args ctx args (buildReviewCaptureValidationAsk args) "reviewCaptureValidation".
Definition host_review_validate (ctx : ToolContext) (args : jsval) : tool jsstr :=
  asked_with_args ctx args (buildReviewValidateAsk args) "reviewValidate".
Definition host_review_recover (ctx : ToolContext) (args : jsval) : tool jsstr :=
  asked_with_args ctx args (buildReviewRecoverAsk args) "reviewRecover".

(** ** The retired SDD tools (legacy-sdd-tools.ts) *)
Definition LEGACY_SDD_ENV : jsstr := js "OPENCODE_SANDBOX_LEGACY_SDD".
Definition legacySddToolsEnabled (env : jsstr -> option jsstr) : bool :=
  match env LEGACY_SDD_ENV with Some v => str_eqb v (js "1") | None => false end.

Definition host_sdd_status (ctx : ToolContext) (args : jsval) : tool jsstr :=
  project_json ctx "sddStatus" (in_project ctx (truthy_fields args ["change"; "contract"]%string)).
Definition host_sdd_continue (ctx : ToolContext) (args : jsval) : tool jsstr :=
  project_json ctx "sddContinue" (in_project ctx (truthy_fields args ["change"]%string)).
Definition host_sdd_task_result (ctx : ToolContext) (args : jsval) : tool jsstr :=
  project_json ctx "sddTaskResult" (in_project ctx (plain_fields args ["phase"; "input"]%string)).
Definition host_sdd_attempt_grant (ctx : ToolContext) (args : jsval) : tool jsstr :=
  _ ← ask (buildSddAttemptGrantAsk args);
  project_json ctx "sddAttemptGrant"
    (in_project ctx (plain_fields args ["change"; "roots"; "changeInstance"; "requestId"; "actor"; "reason"]%string
                     ++ truthy_fields args ["expectedRevision"]%string)).
Definition host_sdd_archive_compose (ctx : ToolContext) (args : jsval) : tool jsstr :=
  _ ← ask (buildSddArchiveComposeAsk args);
  project_json ctx "sddArchiveCompose" (in_project ctx (plain_fields args ["canonical"; "delta"; "output"]%string)).

(** ** The plugin *)
Definition LEGACY_TOOLS : list (string * (ToolContext -> jsval -> tool jsstr)) :=
  [("host_sdd_status", host_sdd_status); ("host_sdd_continue", host_sdd_continue); ("host_sdd_task_result", host_sdd_task_result);
   ("host_sdd_attempt_grant", host_sdd_attempt_grant); ("host_sdd_archive_compose", host_sdd_archive_compose)]%string.

Definition TOOLS : list (string * (ToolContext -> jsval -> tool jsstr)) :=
  [("sandbox_read", sandbox_read); ("sandbox_list", sandbox_list); ("sandbox_grep", sandbox_grep); ("sandbox_write", sandbox_write);
   ("sandbox_edit", sandbox_edit); ("sandbox_apply_patch", sandbox_apply_patch); ("sandbox_bash", sandbox_bash);
   ("sandbox_diff", sandbox_diff); ("sandbox_finish", sandbox_finish); ("sandbox_apply", sandbox_apply);
   ("sandbox_copy_out", sandbox_copy_out); ("sandbox_copy_in", sandbox_copy_in); ("sandbox_discard", sandbox_discard);
   ("host_sandbox_result", host_sandbox_result); ("host_sandbox_result_install", host_sandbox_result_install);
   ("host_review_assess", host_review_assess); ("host_review_mode_status", host_review_mode_status);
   ("host_review_status", host_review_status); ("host_review_lens_context", host_review_lens_context);
   ("host_review_pipeline_run", host_review_pipeline_run); ("host_review_persist", host_review_persist);
   ("host_review_diff_read", host_review_diff_read); ("host_review_materialize", host_review_materialize);
   ("host_git_commit", host_git_commit); ("host_git_clear_commit_intent", host_git_clear_commit_intent);
   ("host_git_push", host_git_push); ("host_gh_issue_create", host_gh_issue_create); ("host_test_run", host_test_run);
   ("host_plan_write", host_plan_write); ("host_task_mark", host_task_mark); ("host_gate_verdict", host_gate_verdict);
   ("host_plan_append", host_plan_append); ("host_review_start", host_review_start);
   ("host_review_capture_result", host_review_capture_result);
   ("host_review_capture_unachievable", host_review_capture_unachievable);
   ("host_review_acknowledge_approved", host_review_acknowledge_approved);
   ("host_review_capture_correction_plan", host_review_capture_correction_plan);
   ("host_review_capture_refuter", host_review_capture_refuter);
   ("host_review_capture_validation", host_review_capture_validation); ("host_review_validate", host_review_validate);
   ("host_review_recover", host_review_recover); ("host_register_project", host_register_project)]%string.

Definition plugin_tools (env : jsstr -> option jsstr) : list (string * (ToolContext -> jsval -> tool jsstr)) :=
  TOOLS ++ if legacySddToolsEnabled env then LEGACY_TOOLS else [].

(** The chat.params hook: a failed binding is swallowed. *)
Definition chat_params (input : jsval) : tool unit :=
  let agent := match at_key input "agent" with JStr a => a | _ => [] end in
  match hostSessionBinding input [agent] with
  | None => Return tt
  | Some (sessionID, agent) => Request BIND_SESSION_AGENT_OPERATION sessionID (JObj [(js "agent", JStr agent)]) JUndef (fun _ => Return tt)
  end.
End tools.
