(* ===== verification/PluginToolsFacts.v ===== *)
(** * Theorems of the plugin's tools: nothing changes the host unasked

    Every operation that needs an approval is requested right after the user
    approved a question about it, under the tool's own permission, that shows
    the fields of the payload; nothing is approved ahead.  And the targeted
    edits, the commands and the token digest. *)
From S2P Require Import Prelude JsVal Json JsOps Path GitOps Envelope Validation Codec Worker ReviewArgv SddRuntime PluginValues Approval EditCore PluginTools.
Open Scope Z_scope.

(** ** Fields of merged objects *)
Lemma field_merge_last base extra k :
  field (JObj (merge_fields base extra)) k = match assoc k (rev extra) with Some v => v | None => field (JObj base) k end.
Proof.
  unfold merge_fields. induction extra as [|[a b] extra IH] using rev_ind; [done|].
  rewrite foldl_app, rev_app_distr. cbn [foldl fst snd rev app assoc]. destruct (str_eqb k a) eqn:E.
  - apply str_eqb_eq in E as ->. by rewrite field_set_key_same.
  - apply str_eqb_neq in E. rewrite field_set_key_other by congruence. exact IH.
Qed.

Lemma assoc_app {A} k (l1 l2 : list (jsstr * A)) : assoc k (l1 ++ l2) = match assoc k l1 with Some v => Some v | None => assoc k l2 end.
Proof. induction l1 as [|[a b] l1 IH]; cbn [app assoc]; [done|]. by destruct (str_eqb k a). Qed.

Lemma assoc_rev {A} k (l : list (jsstr * A)) : NoDup (map fst l) -> assoc k (rev l) = assoc k l.
Proof.
  induction l as [|[a b] l IH]; cbn [map fst rev assoc]; [done|]. rewrite NoDup_cons. intros [Hn H].
  rewrite assoc_app, IH by done. cbn [assoc]. destruct (str_eqb k a) eqn:E; [|by destruct (assoc k l)].
  apply str_eqb_eq in E as ->. by rewrite (proj2 (assoc_None _ _)).
Qed.

(** ** What a question shows of a request *)

(** A flag is shown as yes or no. *)
Definition shows (shown sent : jsval) : Prop := shown = match sent with JBool b => text (if b then "yes" else "no") | v => v end \/ shown = sent.

(** The fields of the metadata and the fields of the payload they show. *)
Definition SHOWN : list (string * list (string * string)) :=
  let same := map (fun k : string => (k, k)) in
  [("gitCommit", same ["message"; "sandboxSessionID"]); ("gitPush", same ["remote"]); ("ghIssueCreate", same ["repo"; "title"]);
   ("planDocAppend", same ["doc"; "heading"]); ("registerProject", same ["path"]); ("reviewPersist", same ["runId"; "finalizeRef"]);
   ("sandboxResultInstall", [("resultCommit", "expectedResultCommit"); ("sandboxSessionID", "sandboxSessionID")]);
   ("sddAttemptGrant", same ["change"; "changeInstance"; "requestId"; "actor"; "reason"]); ("sddArchiveCompose", same ["canonical"; "delta"; "output"]);
   ("reviewStart", same ["projection"; "focus"; "consent"; "locale"; "untrackedScope"; "committedOnly"; "workspaceOverlay"]);
   ("reviewCaptureUnachievable", same ["reason"; "withdraw"]); ("reviewCaptureCorrectionPlan", same ["correctionLines"]);
   ("reviewValidate", same ["gate"]); ("reviewRecover", same ["actor"; "disposition"; "reason"])]%string.

(** The operations that change the host, and so need the user. *)
Definition APPROVAL_OPERATIONS : list string :=
  HostMutationOperation ++ ["applyResult"; "copyOut"; "copyIn"; "gitClearCommitIntent"]%string.
Definition needs_approval (operation : string) : bool := existsb (String.eqb operation) APPROVAL_OPERATIONS.

(** The question [q] authorizes the request: it was asked under the tool's
    permission, cannot be answered for good, and shows the payload. *)
Definition authorizes (name : string) (q : HostToolAsk) (operation : string) (payload : jsval) : Prop :=
  ask_permission q = text name /\ ask_patterns q = [js "*"] /\ ask_always q = [] /\
  forall fields shown_key sent_key, In (operation, fields) SHOWN -> In (shown_key, sent_key) fields ->
    shows (field (JObj (ask_metadata q)) (js shown_key)) (at_key payload sent_key).

Section logic.
  Context (name : string) (ctx : ToolContext).

(** From a state with the question just approved, every request that needs an
    approval has it, and a refused question ends the tool. *)
Fixpoint safe {A} (approved : option HostToolAsk) (m : tool A) : Prop :=
  match m with
  | Return _ | Raise _ => True
  | Request operation sessionID payload agent k =>
      (needs_approval operation = true ->
         sessionID = tc_sessionID ctx /\ agent = tc_agent ctx /\ exists q, approved = Some q /\ authorizes name q operation payload) /\
      forall r, safe None (k r)
  | Ask question k => safe (Some question) (k (Ok tt)) /\ forall e, exists e', k (Throw e) = Raise e'
  end.

Lemma safe_runs {A} (m : tool A) approved trace out :
  safe approved m -> runs m trace out ->
  forall before operation sessionID payload agent r after,
    trace = before ++ Requested operation sessionID payload agent r :: after -> needs_approval operation = true ->
    sessionID = tc_sessionID ctx /\ agent = tc_agent ctx /\
    exists q, authorizes name q operation payload /\
      ((before = [] /\ approved = Some q) \/ exists before', before = before' ++ [Asked q (Ok tt)]).
Proof.
  intros Hs Hr. revert approved Hs.
  induction Hr as [a|e|op sid pl ag k r trace out Hr IH|q k r trace out Hr IH]; intros approved Hs before operation sessionID payload agent r' after;
    [by destruct before.. | |].
  - destruct Hs as [Hreq Hk]. destruct before as [|ev before]; cbn [app].
    + intros [= -> -> -> -> -> _] Hn. destruct (Hreq Hn) as (-> & -> & q & -> & Ha). split; [done|]. split; [done|]. exists q. auto.
    + intros [= <- ->] Hn. destruct (IH None (Hk r) before _ _ _ _ _ _ eq_refl Hn) as (H1 & H2 & q & Ha & [[_ ?]|[b' ->]]); [done|].
      split; [done|]. split; [done|]. exists q. split; [done|]. right. by eexists (_ :: b').
  - destruct Hs as [Hok Hno]. destruct before as [|ev before]; cbn [app]; [done|]. intros [= <- ->] Hn. destruct r as [[]|e].
    + destruct (IH (Some q) Hok before _ _ _ _ _ _ eq_refl Hn) as (H1 & H2 & q' & Ha & [[-> [= ->]]|[b' ->]]);
        (split; [done|]; split; [done|]; exists q'; split; [done|]; right); [by exists [] | by eexists (_ :: b')].
    + destruct (Hno e) as [e' He]. rewrite He in Hr. inversion Hr; subst. by destruct before.
Qed.

Lemma safe_refused {A} (m : tool A) approved trace out :
  safe approved m -> runs m trace out ->
  forall before q e after, trace = before ++ Asked q (Throw e) :: after -> after = [] /\ exists e', out = Throw e'.
Proof.
  intros Hs Hr. revert approved Hs.
  induction Hr as [a|e|op sid pl ag k r trace out Hr IH|q k r trace out Hr IH]; intros approved Hs before q' e' after; [by destruct before.. | |].
  - destruct Hs as [_ Hk]. destruct before as [|ev before]; [done|]. intros [= <- ->]. exact (IH None (Hk r) _ _ _ _ eq_refl).
  - destruct Hs as [Hok Hno]. destruct r as [[]|e].
    + destruct before as [|ev before]; [done|]. intros [= <- ->]. exact (IH (Some q) Hok _ _ _ _ eq_refl).
    + destruct (Hno e) as [e2 He]. rewrite He in Hr. inversion Hr; subst. destruct before as [|ev before]; [|by destruct before].
      intros [= -> -> <-]. by split; [|eexists].
Qed.

(** *** The shapes of the tools *)
Lemma safe_pure {A B} approved (r : res A) (f : A -> tool B) :
  (forall a, r = Ok a -> safe approved (f a)) -> safe approved (pure_of r ≫= f).
Proof. destruct r; cbn; auto. Qed.

Lemma safe_end {A} approved (r : res A) : safe approved (pure_of r).
Proof. by destruct r. Qed.

Lemma safe_return {A B} approved (a : A) (f : A -> tool B) : safe approved (f a) -> safe approved (Return a ≫= f).
Proof. done. Qed.

Lemma safe_request {B} approved agent operation payload (f : jsval -> tool B) :
  (needs_approval operation = true ->
     agent = tc_agent ctx /\ exists q, approved = Some q /\ authorizes name q operation payload) ->
  (forall v, safe None (f v)) -> safe approved (request_as ctx agent operation payload ≫= f).
Proof.
  intros Hn Hf. split; [intros H; destruct (Hn H) as [? ?]; auto|]. intros [v|e]; [apply Hf | done].
Qed.

Lemma safe_ask {B} approved question (f : unit -> tool B) :
  (forall q, question = Ok q -> safe (Some q) (f tt)) -> safe approved (ask question ≫= f).
Proof. intros H. unfold ask. destruct question as [q|e]; [|done]. cbn. split; [auto|]. intros e. by exists e. Qed.

Lemma safe_rethrow {A} approved h (m : tool A) : safe approved m -> safe approved (rethrow h m).
Proof.
  revert approved. induction m as [a|e|op sid pl ag k IH|q k IH]; intros approved; cbn; [done..| |].
  - intros [Hn Hk]. auto.
  - intros [Hok Hno]. split; [auto|]. intros e. destruct (Hno e) as [e' ->]. by exists (h e').
Qed.

Lemma safe_formatted approved operation payload :
  (needs_approval operation = true -> exists q, approved = Some q /\ authorizes name q operation payload) ->
  safe approved (formatted ctx operation payload).
Proof. intros H. apply safe_request; [auto|]. intros v. apply safe_end. Qed.

Lemma safe_in_json approved operation payload :
  (needs_approval operation = true -> exists q, approved = Some q /\ authorizes name q operation payload) ->
  safe approved (in_json ctx operation payload).
Proof. intros H. apply safe_request; [auto|]. done. Qed.

Lemma safe_in_project approved operation fields :
  (forall directory, needs_approval operation = true ->
     exists q, approved = Some q /\ authorizes name q operation (JObj ((js "projectDir", directory) :: fields))) ->
  safe approved (project_json ctx operation (in_project ctx fields)).
Proof. intros H. unfold project_json, in_project. destruct (currentProjectDirectory _); [|done]. apply safe_in_json, H. Qed.

Lemma safe_payload {B} approved fields (f : jsval -> tool B) :
  (forall v, safe approved (f v)) -> safe approved (in_project ctx fields ≫= f).
Proof. intros H. unfold in_project. destruct (currentProjectDirectory _); cbn; [apply H | done]. Qed.

Lemma safe_with_args approved operation args extra :
  (forall directory, needs_approval operation = true ->
     exists q, approved = Some q /\ authorizes name q operation
       (JObj (merge_fields (merge_fields [(js "projectDir", directory)] (default [] (plain_object args))) extra))) ->
  safe approved (project_json ctx operation (with_args ctx args extra)).
Proof. intros H. unfold project_json, with_args. destruct (currentProjectDirectory _); [|done]. apply safe_in_json, H. Qed.
End logic.

(** ** What the builders show *)

(** The metadata of a built question: its details, under the summary. *)
Lemma host_ask_shows permission operation summary details q :
  host_ask permission operation summary details = Ok q ->
  ask_permission q = text permission /\ ask_patterns q = [js "*"] /\ ask_always q = [] /\
  forall k, js k <> js "hostOperation" -> js k <> js "summary" ->
    field (JObj (ask_metadata q)) (js k) = default JUndef (assoc (js k) (rev details)).
Proof.
  unfold host_ask. rewrite res_bind_Ok. intros (s & _ & H). unfold buildHostToolAsk in H. repeat (rewrite res_bind_Ok in H; destruct H as (? & _ & H)).
  injection H as <-. split_and!; [done..|]. intros k H1 H2. cbn [ask_metadata]. rewrite !field_set_key_other by congruence.
  rewrite field_merge_last. by destruct (assoc _ (rev details)).
Qed.

(** The details of a review question, by key. *)
Definition detail_of (v : jsval) : jsval := match v with JBool b => text (if b then "yes" else "no") | _ => v end.

Lemma review_details_keys fields k : k ∈ map fst (reviewAskDetails fields) -> k ∈ map fst fields.
Proof.
  induction fields as [|[a v] fields IH]; [done|]. cbn [map fst]. rewrite elem_of_cons.
  destruct v; cbn [reviewAskDetails omap list_omap snd fst map]; rewrite ?elem_of_cons; unfold reviewAskDetails in IH; tauto.
Qed.

Lemma review_details_NoDup fields : NoDup (map fst fields) -> NoDup (map fst (reviewAskDetails fields)).
Proof.
  induction fields as [|[a v] fields IH]; [constructor|]. cbn [map fst]. rewrite NoDup_cons. intros [Ha Hn].
  destruct v; cbn [reviewAskDetails omap list_omap snd fst map]; rewrite ?NoDup_cons; [by apply IH|..];
    (split; [intros Hin; by apply Ha, review_details_keys | by apply IH]).
Qed.

Lemma review_details_assoc fields k : NoDup (map fst fields) ->
  default JUndef (assoc k (reviewAskDetails fields)) = detail_of (default JUndef (assoc k fields)).
Proof.
  induction fields as [|[a v] fields IH]; [done|]. cbn [map fst]. rewrite NoDup_cons. intros [Ha Hn]. specialize (IH Hn).
  cbn [assoc]. destruct (str_eqb k a) eqn:E.
  - destruct v; cbn [reviewAskDetails omap list_omap snd fst assoc]; rewrite ?E; try done.
    apply str_eqb_eq in E as ->. rewrite (proj2 (assoc_None _ _)); [done|]. intros Hin. by apply Ha, review_details_keys.
  - destruct v; cbn [reviewAskDetails omap list_omap snd fst assoc]; rewrite ?E; exact IH.
Qed.

Lemma review_ask_shows permission operation summary fields q :
  NoDup (map fst fields) -> review_ask permission operation summary fields = Ok q ->
  ask_permission q = text permission /\ ask_patterns q = [js "*"] /\ ask_always q = [] /\
  forall k, js k <> js "hostOperation" -> js k <> js "summary" ->
    field (JObj (ask_metadata q)) (js k) = detail_of (default JUndef (assoc (js k) fields)).
Proof.
  intros Hn (H1 & H2 & H3 & H)%host_ask_shows. split_and!; [done..|]. intros k Hk1 Hk2.
  rewrite H, assoc_rev by (done || by apply review_details_NoDup). by apply review_details_assoc.
Qed.

Lemma payload_arg args directory extra k :
  NoDup (object_keys args) -> js k <> js "projectDir" -> assoc (js k) (rev extra) = None ->
  at_key (JObj (merge_fields (merge_fields [(js "projectDir", directory)] (default [] (plain_object args))) extra)) k = at_key args k.
Proof.
  intros Hn Hk He. unfold at_key. rewrite field_merge_last, He, field_merge_last. cbn [field assoc]. rewrite (proj2 (str_eqb_neq _ _) Hk).
  destruct args; try done. cbn [object_keys plain_object default] in *. rewrite assoc_rev by done. unfold id. cbn [field]. by destruct (assoc _ fields).
Qed.

Lemma detail_shows v : shows (detail_of v) v.
Proof. by left. Qed.

Lemma undefined v : is_undef v = true -> v = JUndef.
Proof. by destruct v. Qed.

(** The fields of an operation that must be shown. *)
Definition shown_fields (operation : string) : list (string * string) :=
  match List.find (fun e => String.eqb (fst e) operation) SHOWN with Some (_, fields) => fields | None => [] end.

Lemma SHOWN_fields operation fields : In (operation, fields) SHOWN -> fields = shown_fields operation.
Proof.
  unfold SHOWN. cbn [In]. intros H. repeat destruct H as [H|H]; try done; by injection H as <- <-.
Qed.

Lemma authorizes_intro name q operation payload :
  ask_permission q = text name -> ask_patterns q = [js "*"] -> ask_always q = [] ->
  Forall (fun kk => shows (field (JObj (ask_metadata q)) (js (fst kk))) (at_key payload (snd kk))) (shown_fields operation) ->
  authorizes name q operation payload.
Proof.
  intros H1 H2 H3 H. split_and!; [done..|]. intros fields a b Hin Hk. rewrite (SHOWN_fields _ _ Hin) in Hk.
  rewrite List.Forall_forall in H. exact (H (a, b) Hk).
Qed.

(** [a <> b] of two constant names. *)
Ltac distinct := let E := fresh in intros E; vm_compute in E; discriminate E.

(** Decides the comparisons of constant keys. *)
Ltac eq_keys := repeat match goal with
  | |- context [str_eqb (js ?a) (js ?b)] =>
      let v := eval vm_compute in (str_eqb (js a) (js b)) in change (str_eqb (js a) (js b)) with v; cbn iota beta
  end.

(** Looks a constant key up in fields that are partly optional. *)
Ltac look_up :=
  unfold at_key, plain_fields, given_fields, if_defined, if_truthy, arg_field; cbn [field map concat app rev assoc fst snd];
  repeat (first [progress eq_keys | progress cbn [field map concat app rev assoc fst snd default id]
    | match goal with
      | |- context [is_falsy ?v] => destruct (is_falsy v)
      | |- context [is_undef ?v] => let E := fresh in destruct (is_undef v) eqn:E; [apply undefined in E; rewrite ?E | clear E]
      end]).

Ltac each_key := lazymatch goal with
  | |- Forall _ (shown_fields ?op) => let l := eval vm_compute in (shown_fields op) in change (shown_fields op) with l;
      repeat (apply List.Forall_cons; cbn [fst snd]); [..|apply List.Forall_nil]
  end.

(** A built question, taken apart. *)
Ltac built H := cbv zeta in H; repeat (rewrite res_bind_Ok in H; destruct H as (? & _ & H)).

(** Steps of a tool that ask nothing and need no approval. *)
Ltac no_approval := let H := fresh in intros H; vm_compute in H; discriminate H.
Ltac walk := repeat first
  [ apply safe_end
  | apply safe_pure; intros ? _
  | apply safe_formatted; no_approval
  | apply safe_in_json; no_approval
  | apply safe_in_project; intros ?; no_approval
  | apply safe_with_args; intros ?; no_approval
  | apply safe_request; [no_approval | intros ?] ].

(** The fields of the request, each as the question shows it. *)
Ltac from_args H := each_key; (rewrite H by distinct); right; look_up; done.

Section tools.
  Context (cwd : jsstr) (realpath : jsstr -> option jsstr) (stat : jsstr -> option (bool * Z)) (readFile : jsstr -> option (list N)).
  Context (sha256_hex : list N -> jsstr).
  Context (ctx : ToolContext) (args : jsval).

Lemma commit_safe : safe "host_git_commit" ctx None (host_git_commit ctx args).
Proof.
  apply safe_ask. intros q Hq. apply safe_in_project. intros directory _. exists q. split; [done|].
  unfold buildGitCommitAsk in Hq. built Hq. apply host_ask_shows in Hq as (H1 & H2 & H3 & H). apply authorizes_intro; [done..|]. from_args H.
Qed.

Lemma push_safe : safe "host_git_push" ctx None (host_git_push ctx args).
Proof.
  apply safe_ask. intros q Hq. apply safe_in_project. intros directory _. exists q. split; [done|].
  unfold buildGitPushAsk in Hq. built Hq. apply host_ask_shows in Hq as (H1 & H2 & H3 & H). apply authorizes_intro; [done..|]. from_args H.
Qed.

Lemma issue_safe : safe "host_gh_issue_create" ctx None (host_gh_issue_create ctx args).
Proof.
  apply safe_ask. intros q Hq. apply safe_in_project. intros directory _. exists q. split; [done|].
  unfold buildGhIssueCreateAsk in Hq. built Hq. destruct (at_key (JObj _) "body"); try done.
  apply host_ask_shows in Hq as (H1 & H2 & H3 & H). apply authorizes_intro; [done..|]. from_args H.
Qed.

Lemma append_safe : safe "host_plan_append" ctx None (host_plan_append ctx args).
Proof.
  apply safe_ask. intros q Hq. apply safe_in_project. intros directory _. exists q. split; [done|].
  unfold buildPlanDocAppendAsk in Hq. built Hq. apply host_ask_shows in Hq as (H1 & H2 & H3 & H). apply authorizes_intro; [done..|]. from_args H.
Qed.

Lemma register_safe : safe "host_register_project" ctx None (host_register_project ctx args).
Proof.
  apply safe_ask. intros q Hq. apply safe_in_json. intros _. exists q. split; [done|].
  unfold buildRegisterProjectAsk in Hq. built Hq. apply host_ask_shows in Hq as (H1 & H2 & H3 & H). apply authorizes_intro; [done..|]. from_args H.
Qed.
Lemma grant_safe : safe "host_sdd_attempt_grant" ctx None (host_sdd_attempt_grant ctx args).
Proof.
  apply safe_ask. intros q Hq. apply safe_in_project. intros directory _. exists q. split; [done|].
  unfold buildSddAttemptGrantAsk in Hq. built Hq. apply host_ask_shows in Hq as (H1 & H2 & H3 & H). apply authorizes_intro; [done..|]. from_args H.
Qed.

Lemma compose_safe : safe "host_sdd_archive_compose" ctx None (host_sdd_archive_compose ctx args).
Proof.
  apply safe_ask. intros q Hq. apply safe_in_project. intros directory _. exists q. split; [done|].
  unfold buildSddArchiveComposeAsk in Hq. built Hq. apply host_ask_shows in Hq as (H1 & H2 & H3 & H). apply authorizes_intro; [done..|]. from_args H.
Qed.

(** A question built in place. *)
Lemma plain_ask_authorizes permission metadata q operation payload :
  plain_ask permission metadata = Ok q -> shown_fields operation = [] -> authorizes permission q operation payload.
Proof. intros [= <-] Hs. apply authorizes_intro; [done..|]. rewrite Hs. apply List.Forall_nil. Qed.

Lemma clear_intent_safe : safe "host_git_clear_commit_intent" ctx None (host_git_clear_commit_intent ctx args).
Proof.
  apply safe_ask. intros q Hq. apply safe_in_project. intros directory _. exists q. split; [done|].
  cbv zeta in Hq. apply res_bind_Ok in Hq as (summary & _ & Hq). by eapply plain_ask_authorizes.
Qed.

Lemma apply_safe : safe "sandbox_apply" ctx None (sandbox_apply ctx args).
Proof.
  unfold sandbox_apply, guarded. walk. destruct (is_text_of _ _); [apply safe_return | ]; walk; (apply safe_ask; intros q Hq; apply safe_formatted; intros _; exists q; split; [done|];
    by eapply plain_ask_authorizes).
Qed.

Lemma copy_out_safe : safe "sandbox_copy_out" ctx None (sandbox_copy_out ctx args).
Proof.
  unfold sandbox_copy_out, guarded. walk. apply safe_ask. intros q Hq. apply safe_formatted. intros _. exists q. split; [done|].
  by eapply plain_ask_authorizes.
Qed.

Lemma copy_in_safe : safe "sandbox_copy_in" ctx None (sandbox_copy_in cwd ctx args).
Proof.
  unfold sandbox_copy_in, guarded, ensureWorker. walk. apply safe_ask. intros q Hq. apply safe_formatted. intros _. exists q. split; [done|].
  by eapply plain_ask_authorizes.
Qed.

Lemma install_safe : safe "host_sandbox_result_install" ctx None (host_sandbox_result_install ctx args).
Proof.
  apply safe_payload. intros payload. walk.
  apply safe_ask. intros q Hq. apply safe_in_project. intros ? _. exists q. split; [done|].
  unfold buildSandboxResultInstallAsk in Hq. built Hq. apply host_ask_shows in Hq as (H1 & H2 & H3 & H). apply authorizes_intro; [done..|]. from_args H.
Qed.
Lemma persist_safe : NoDup (object_keys args) -> safe "host_review_persist" ctx None (host_review_persist ctx args).
Proof.
  intros Hn. apply safe_pure. intros directory Hd. apply safe_rethrow. unfold with_args. rewrite Hd. walk.
  apply safe_ask. intros q Hq. apply safe_in_json. intros _. exists q. split; [done|].
  unfold buildReviewPersistAsk in Hq. built Hq. apply host_ask_shows in Hq as (H1 & H2 & H3 & H). apply authorizes_intro; [done..|].
  each_key; (rewrite H by distinct); right; (rewrite payload_arg by (done || distinct)); look_up; done.
Qed.

(** A question about all the arguments. *)
Lemma asked_safe permission question operation :
  (forall q directory, question = Ok q ->
     authorizes permission q operation (JObj (merge_fields (merge_fields [(js "projectDir", directory)] (default [] (plain_object args))) []))) ->
  safe permission ctx None (asked_with_args ctx args question operation).
Proof. intros H. apply safe_ask. intros q Hq. apply safe_with_args. intros directory _. exists q. auto. Qed.

(** A review question: each field is shown as it is, or as yes or no. *)
Ltac review_question H := let H1 := fresh in let H2 := fresh in let H3 := fresh in
  apply review_ask_shows in H as (H1 & H2 & H3 & H); [|apply (bool_decide_unpack _); vm_compute; exact I];
  apply authorizes_intro; [done..|]; each_key; (rewrite H by distinct); (rewrite payload_arg by (done || distinct)); look_up; apply detail_shows.

Lemma start_safe : NoDup (object_keys args) -> safe "host_review_start" ctx None (host_review_start ctx args).
Proof. intros Hn. apply asked_safe. intros q directory Hq. unfold buildReviewStartAsk in Hq. built Hq. review_question Hq. Qed.

Lemma unachievable_safe : NoDup (object_keys args) -> safe "host_review_capture_unachievable" ctx None (host_review_capture_unachievable ctx args).
Proof. intros Hn. apply asked_safe. intros q directory Hq. unfold buildReviewCaptureUnachievableAsk in Hq. review_question Hq. Qed.

Lemma acknowledge_safe : NoDup (object_keys args) -> safe "host_review_acknowledge_approved" ctx None (host_review_acknowledge_approved ctx args).
Proof. intros Hn. apply asked_safe. intros q directory Hq. unfold buildReviewAcknowledgeApprovedAsk in Hq. review_question Hq. Qed.
Lemma plan_safe : NoDup (object_keys args) -> safe "host_review_capture_correction_plan" ctx None (host_review_capture_correction_plan ctx args).
Proof. intros Hn. apply asked_safe. intros q directory Hq. unfold buildReviewCaptureCorrectionPlanAsk in Hq. built Hq. review_question Hq. Qed.

Lemma refuter_safe : NoDup (object_keys args) -> safe "host_review_capture_refuter" ctx None (host_review_capture_refuter ctx args).
Proof. intros Hn. apply asked_safe. intros q directory Hq. unfold buildReviewCaptureRefuterAsk in Hq. cbv zeta in Hq. review_question Hq. Qed.

Lemma validation_safe : NoDup (object_keys args) -> safe "host_review_capture_validation" ctx None (host_review_capture_validation ctx args).
Proof. intros Hn. apply asked_safe. intros q directory Hq. unfold buildReviewCaptureValidationAsk in Hq. cbv zeta in Hq. review_question Hq. Qed.

Lemma validate_safe : NoDup (object_keys args) -> safe "host_review_validate" ctx None (host_review_validate ctx args).
Proof. intros Hn. apply asked_safe. intros q directory Hq. unfold buildReviewValidateAsk in Hq. built Hq. review_question Hq. Qed.

Lemma recover_safe : NoDup (object_keys args) -> safe "host_review_recover" ctx None (host_review_recover ctx args).
Proof. intros Hn. apply asked_safe. intros q directory Hq. unfold buildReviewRecoverAsk in Hq. built Hq. review_question Hq. Qed.

Lemma capture_safe : safe "host_review_capture_result" ctx None (host_review_capture_result realpath stat readFile sha256_hex ctx args).
Proof.
  apply safe_pure. intros directory _. apply safe_ask. intros q Hq. apply safe_in_json. intros _. exists q. split; [done|].
  unfold buildReviewCaptureResultAsk in Hq. built Hq. unfold review_ask in Hq. apply host_ask_shows in Hq as (H1 & H2 & H3 & _).
  apply authorizes_intro; [done..|]. apply List.Forall_nil.
Qed.

Lemma edit_safe : safe "sandbox_edit" ctx None (sandbox_edit cwd ctx args).
Proof. unfold sandbox_edit, guarded, ensureWorker. walk. destruct (at_key _ "content"); walk; exact I. Qed.

(** Every tool, under its own name. *)
Ltac head_of m := lazymatch m with ?f _ => head_of f | ?f => f end.
Ltac safe_tool := lazymatch goal with
  | |- safe "host_git_commit" _ _ _ => exact commit_safe
  | |- safe "host_git_push" _ _ _ => exact push_safe
  | |- safe "host_gh_issue_create" _ _ _ => exact issue_safe
  | |- safe "host_plan_append" _ _ _ => exact append_safe
  | |- safe "host_register_project" _ _ _ => exact register_safe
  | |- safe "host_git_clear_commit_intent" _ _ _ => exact clear_intent_safe
  | |- safe "sandbox_apply" _ _ _ => exact apply_safe
  | |- safe "sandbox_copy_out" _ _ _ => exact copy_out_safe
  | |- safe "sandbox_copy_in" _ _ _ => exact copy_in_safe
  | |- safe "sandbox_edit" _ _ _ => exact edit_safe
  | |- safe "host_sandbox_result_install" _ _ _ => exact install_safe
  | |- safe "host_review_persist" _ _ _ => apply persist_safe
  | |- safe "host_review_start" _ _ _ => apply start_safe
  | |- safe "host_review_capture_unachievable" _ _ _ => apply unachievable_safe
  | |- safe "host_review_acknowledge_approved" _ _ _ => apply acknowledge_safe
  | |- safe "host_review_capture_correction_plan" _ _ _ => apply plan_safe
  | |- safe "host_review_capture_refuter" _ _ _ => apply refuter_safe
  | |- safe "host_review_capture_validation" _ _ _ => apply validation_safe
  | |- safe "host_review_validate" _ _ _ => apply validate_safe
  | |- safe "host_review_recover" _ _ _ => apply recover_safe
  | |- safe "host_review_capture_result" _ _ _ => exact capture_safe
  | |- safe "host_sdd_attempt_grant" _ _ _ => exact grant_safe
  | |- safe "host_sdd_archive_compose" _ _ _ => exact compose_safe
  | |- safe _ _ _ ?m => let h := head_of m in unfold h; unfold guarded, ensureWorker; solve [walk; apply safe_rethrow; walk | walk]
  end.

Lemma tool_safe env name program :
  NoDup (object_keys args) -> In (name, program) (plugin_tools cwd realpath stat readFile sha256_hex env) -> safe name ctx None (program ctx args).
Proof.
  intros Hn Hin. unfold plugin_tools in Hin. apply in_app_or in Hin. destruct Hin as [Hin|Hin].
  - cbn [TOOLS In] in Hin. repeat (destruct Hin as [[= <- <-]|Hin]; [safe_tool; try exact Hn|]). done.
  - destruct (legacySddToolsEnabled env); [|done]. cbn [LEGACY_TOOLS In] in Hin.
    repeat (destruct Hin as [[= <- <-]|Hin]; [safe_tool|]). done.
Qed.
End tools.


(** A commit of the own result, approved and refused. *)
Definition sample_context : ToolContext := mkContext (js "s1") (text "worker") (text "/p").
Definition sample_commit_args : jsval := JObj [(js "message", text "feat: x")].
Definition sample_tools := plugin_tools (js "/") (fun _ => None) (fun _ => None) (fun _ => None) (fun _ => []) (fun _ => None).
Definition sample_question : HostToolAsk :=
  mkAsk (text "host_git_commit") [js "*"] []
    [(js "message", text "feat: x"); (js "hostOperation", text "gitCommit"); (js "summary", text "Commit 0 result path(s) on the current branch")].
Definition sample_payload : jsval := JObj [(js "projectDir", text "/p"); (js "message", text "feat: x")].

Lemma sample_run : runs (host_git_commit sample_context sample_commit_args)
  [Asked sample_question (Ok tt); Requested "gitCommit" (js "s1") sample_payload (text "worker") (Ok (JBool true))] (Ok (js "true")).
Proof.
  change (host_git_commit sample_context sample_commit_args) with
    (Ask sample_question (fun r => _ ← pure_of r; project_json sample_context "gitCommit" (in_project sample_context [(js "message", text "feat: x")]))).
  apply runs_ask. apply runs_request. apply runs_return.
Qed.

