(* ===== verification/BrokerClient.v ===== *)
(** * The client of the broker's socket (opencode/plugins/lib/broker-client.ts)

    One client serves every tool of a plugin: it connects on demand, writes one
    line per request as the socket takes it, and gives each response line to the
    request with its id.  Here: the client as a function of its events (requests,
    the handlers of the sockets, timers), with what each did to the requests.
    [write] answers the k-th call of a socket's [write].  Logging and the
    test-only override are not modelled; the operations are names the plugins
    use. *)
From S2P Require Import Prelude JsVal Json JsOps Path Validation Codec Envelope Server Worker ReviewArgv SddRuntime RelayChild PluginValues.
Open Scope Z_scope.

Definition BrokerClientError (message : jsstr) (code : string) : exn := Exn (ECoded (js code)) message.

(** [path.join] *)
Definition brokerSocketPath (env : jsstr -> option jsstr) (homedir : jsstr) : jsstr :=
  match env (js "BROKER_SOCKET") with
  | Some (c :: s) => c :: s
  | _ =>
      match env (js "XDG_RUNTIME_DIR") with
      | Some (c :: s) => join [c :: s; js "opencode-sandbox-broker.sock"]
      | _ => join [homedir; js ".local"; js "state"; js "opencode-sandbox"; js "broker.sock"]
      end
  end.

(** ** State *)
Record Pending := mkPending { p_operation : string; p_timer : option nat; p_opTimeout : Z; p_queued : bool }.
Record PendingWrite := mkPendingWrite { w_id : jsstr; w_data : bytes; w_offset : nat }.

Record request_args := mkRequest {
  rq_id : jsstr; rq_operation : string; rq_sessionID : jsstr; rq_payload : jsval; rq_agent : jsval }.

(** How the promise of a request ended. *)
Inductive Settlement := Resolved (resp : jsval) | Rejected (err : exn).

Record Client := mkClient {
  cl_pending : list (jsstr * Pending);
  cl_socket : option nat;
  cl_closed : bool;
  cl_connecting : bool;
  cl_rx : bytes;
  cl_outgoing : list PendingWrite;
  cl_waiting : list request_args;            (* suspended in [await connect()] *)
  cl_timers : list (nat * jsstr);            (* the armed timers and their requests *)
  cl_next_timer : nat;
  cl_settled : list (jsstr * Settlement);    (* what happened: settled requests, *)
  cl_armed : list (jsstr * Z);               (* deadlines set, *)
  cl_frames : list (nat * bytes);            (* frames queued for a socket, *)
  cl_writes : list (nat * bytes)             (* bytes a socket took, one entry per call *)
}.

Definition with_pending f c := mkClient (f (cl_pending c)) (cl_socket c) (cl_closed c) (cl_connecting c) (cl_rx c) (cl_outgoing c) (cl_waiting c)
  (cl_timers c) (cl_next_timer c) (cl_settled c) (cl_armed c) (cl_frames c) (cl_writes c).
Definition with_connection socket closed connecting c := mkClient (cl_pending c) socket closed connecting (cl_rx c) (cl_outgoing c) (cl_waiting c)
  (cl_timers c) (cl_next_timer c) (cl_settled c) (cl_armed c) (cl_frames c) (cl_writes c).
Definition with_rx rx c := mkClient (cl_pending c) (cl_socket c) (cl_closed c) (cl_connecting c) rx (cl_outgoing c) (cl_waiting c)
  (cl_timers c) (cl_next_timer c) (cl_settled c) (cl_armed c) (cl_frames c) (cl_writes c).
Definition with_outgoing out c := mkClient (cl_pending c) (cl_socket c) (cl_closed c) (cl_connecting c) (cl_rx c) out (cl_waiting c)
  (cl_timers c) (cl_next_timer c) (cl_settled c) (cl_armed c) (cl_frames c) (cl_writes c).
Definition with_waiting waiting c := mkClient (cl_pending c) (cl_socket c) (cl_closed c) (cl_connecting c) (cl_rx c) (cl_outgoing c) waiting
  (cl_timers c) (cl_next_timer c) (cl_settled c) (cl_armed c) (cl_frames c) (cl_writes c).
Definition with_timers timers c := mkClient (cl_pending c) (cl_socket c) (cl_closed c) (cl_connecting c) (cl_rx c) (cl_outgoing c) (cl_waiting c)
  timers (cl_next_timer c) (cl_settled c) (cl_armed c) (cl_frames c) (cl_writes c).
Definition log_settled s c := mkClient (cl_pending c) (cl_socket c) (cl_closed c) (cl_connecting c) (cl_rx c) (cl_outgoing c) (cl_waiting c)
  (cl_timers c) (cl_next_timer c) (cl_settled c ++ s) (cl_armed c) (cl_frames c) (cl_writes c).
Definition log_frame f c := mkClient (cl_pending c) (cl_socket c) (cl_closed c) (cl_connecting c) (cl_rx c) (cl_outgoing c) (cl_waiting c)
  (cl_timers c) (cl_next_timer c) (cl_settled c) (cl_armed c) (cl_frames c ++ [f]) (cl_writes c).
Definition log_write w c := mkClient (cl_pending c) (cl_socket c) (cl_closed c) (cl_connecting c) (cl_rx c) (cl_outgoing c) (cl_waiting c)
  (cl_timers c) (cl_next_timer c) (cl_settled c) (cl_armed c) (cl_frames c) (cl_writes c ++ [w]).
(** A new timer for the request. *)
Definition log_timer id ms c := mkClient (cl_pending c) (cl_socket c) (cl_closed c) (cl_connecting c) (cl_rx c) (cl_outgoing c) (cl_waiting c)
  (cl_timers c ++ [(cl_next_timer c, id)]) (S (cl_next_timer c)) (cl_settled c) (cl_armed c ++ [(id, ms)]) (cl_frames c) (cl_writes c).

(** ** Timers *)
Definition clearTimeout (timer : option nat) (c : Client) : Client :=
  match timer with
  | Some t => with_timers (List.filter (fun e => negb (t =? fst e)%nat) (cl_timers c)) c
  | None => c
  end.

(** [p.timer = setTimeout(p.onTimeout, ms)] *)
Definition arm (id : jsstr) (p : Pending) (ms : Z) (c : Client) : Client :=
  log_timer id ms (with_pending (map_set id (mkPending (p_operation p) (Some (cl_next_timer c)) (p_opTimeout p) (p_queued p))) c).

(** ** Settling *)
Definition settle (id : jsstr) (p : Pending) (s : Settlement) (c : Client) : Client :=
  log_settled [(id, s)] (clearTimeout (p_timer p) (with_pending (map_delete id) c)).

Definition failPending (err : exn) (c : Client) : Client :=
  let cleared := foldl (fun c kv => clearTimeout (p_timer (snd kv)) c) c (cl_pending c) in
  with_pending (fun _ => []) (log_settled (map (fun kv => (fst kv, Rejected err)) (cl_pending c)) cleared).

Section client.
  Context (write : nat -> bytes -> res jsval).
  Context (timeoutMs queuedHoldTimeoutMs : Z).

(** ** Requests *)
Definition OPERATION_TIMEOUT_MS : list (string * Z) :=
  [("exec", 130000); ("testRun", 620000); ("bindSessionAgent", 10000); ("ensureWorker", 120000); ("gitCommit", 130000);
   ("sandboxResultInstall", 130000); ("gitPush", 130000); ("ghIssueCreate", 130000); ("planDocAppend", 30000);
   ("sddAttemptGrant", 130000); ("reviewLensContext", 130000); ("reviewStart", 130000); ("reviewCaptureResult", 130000);
   ("reviewCaptureUnachievable", 130000); ("reviewAcknowledgeApproved", 130000); ("reviewCaptureCorrectionPlan", 130000);
   ("reviewCaptureRefuter", 130000); ("reviewCaptureValidation", 130000); ("reviewValidate", 130000); ("reviewRecover", 130000);
   ("reviewMaterialize", 60000); ("reviewDiffRead", 10000); ("reviewPipelineRun", 60000); ("reviewPersist", 60000);
   ("reviewPersistPreflight", 10000)]%string.
Definition operation_timeout (operation : string) : Z :=
  match List.find (fun e => String.eqb (fst e) operation) OPERATION_TIMEOUT_MS with Some (_, ms) => ms | None => timeoutMs end.

Definition request_line (r : request_args) : jsstr :=
  json_text (JObj ([(js "version", jint 1); (js "id", JStr (rq_id r)); (js "operation", JStr (js (rq_operation r)));
                    (js "sessionID", JStr (rq_sessionID r))]
                   ++ if_truthy "agent" (rq_agent r) ++ if_defined "payload" (rq_payload r))) ++ [10%N].

(** The response deadline starts when the whole frame is sent, unless the
    request was queued meanwhile or is over. *)
Definition startTimeout (id : jsstr) (c : Client) : Client :=
  match assoc id (cl_pending c) with
  | Some p => if p_queued p then c else arm id p (p_opTimeout p) c
  | None => c
  end.

(** The bytes a write took, when its result is one. *)
Definition taken (remaining : bytes) (result : res jsval) : res nat :=
  match result with
  | Ok (JNum (NumInt n)) =>
      if (n <? 0) || (byte_length remaining <? n)
      then Throw (Exn EError (js "invalid socket write result: " ++ dec n)) else Ok (Z.to_nat n)
  | Ok v => shown ← js_String v; Throw (Exn EError (js "invalid socket write result: " ++ shown))
  | Throw e => Throw e
  end.

Definition fail_write (err : exn) (c : Client) : Client :=
  failPending (BrokerClientError (js "failed to write request: Error: " ++ exn_msg err) "unavailable")
    (with_connection None true (cl_connecting c) (with_outgoing [] c)).

(** The loop of [flushWrites]. *)
Fixpoint write_queue (sock : nat) (queue : list PendingWrite) (c : Client) : Client :=
  match queue with
  | [] => with_outgoing [] c
  | w :: queue =>
      let remaining := drop (w_offset w) (w_data w) in
      match taken remaining (write (length (cl_writes c)) remaining) with
      | Throw err => fail_write err (log_write (sock, []) (with_outgoing (w :: queue) c))
      | Ok n =>
          let c := log_write (sock, take n remaining) c in
          let offset := (w_offset w + n)%nat in
          if (offset <? length (w_data w))%nat then with_outgoing (mkPendingWrite (w_id w) (w_data w) offset :: queue) c
          else write_queue sock queue (startTimeout (w_id w) (with_outgoing queue c))
      end
  end.

Definition flushWrites (sock : nat) (c : Client) : Client :=
  if bool_decide (cl_socket c = Some sock) then write_queue sock (cl_outgoing c) c else c.

(** The part of [request] after the connection. *)
Definition send_request (r : request_args) (c : Client) : Client :=
  let id := rq_id r in
  let p := mkPending (rq_operation r) None (operation_timeout (rq_operation r)) false in
  let c := with_pending (map_set id p) c in
  match cl_socket c with
  | None => settle id p (Rejected (BrokerClientError (js "broker socket is unavailable") "unavailable")) c
  | Some sock =>
      let data := utf8_encode (request_line r) in
      flushWrites sock (log_frame (sock, data) (with_outgoing (cl_outgoing c ++ [mkPendingWrite id data 0]) c))
  end.

(** [connect()] returns at once on a live socket, and joins an attempt. *)
Definition client_request (r : request_args) (c : Client) : Client :=
  if negb (cl_closed c) then send_request r c
  else with_waiting (cl_waiting c ++ [r]) (with_connection (cl_socket c) (cl_closed c) true c).

(** ** Responses *)

(** The id at the start of a frame: FRAME_ID_AT_START_RE and JSON.parse read the
    string that follows the version. *)
Definition FRAME_START : jsstr := js "{" ++ [34%N] ++ js "version" ++ [34%N] ++ js ":1," ++ [34%N] ++ js "id" ++ [34%N] ++ js ":" ++ [34%N].
Definition frameIdAtStart (line : bytes) : option jsstr :=
  let text := utf8_lossy (take 512 line) in
  if startsWith text FRAME_START then fst <$> json_chars (drop (length FRAME_START) text) else None.

(** The first queued notice replaces the deadline; later ones do nothing. *)
Definition on_queued (id : jsval) (c : Client) : Client :=
  match id with
  | JStr id =>
      match assoc id (cl_pending c) with
      | Some p =>
          if p_queued p then c
          else arm id (mkPending (p_operation p) (p_timer p) (p_opTimeout p) true) (queuedHoldTimeoutMs + p_opTimeout p) (clearTimeout (p_timer p) c)
      | None => c
      end
  | _ => c
  end.

(** A line of the socket; [true] when the handler raised. *)
Definition on_response_line (line : bytes) (c : Client) : Client * bool :=
  let text := utf8_lossy line in
  match trim text with
  | [] => (c, false)
  | _ =>
      match json_parse text with
      | None =>
          (match frameIdAtStart line with
           | Some id =>
               match assoc id (cl_pending c) with
               | Some p => settle id p (Rejected (BrokerClientError (js "broker returned an unparseable response frame") "malformed_response")) c
               | None => c
               end
           | None => c
           end, false)
      | Some JNull => (c, true)
      | Some resp =>
          if negb (is_falsy (at_key (at_key resp "progress") "queued")) then (on_queued (at_key resp "id") c, false)
          else match at_key resp "id" with
               | JStr id => match assoc id (cl_pending c) with Some p => (settle id p (Resolved resp) c, false) | None => (c, false) end
               | _ => (c, false)
               end
      end
  end.

Fixpoint read_responses (lines : list bytes) (rest : bytes) (c : Client) : Client :=
  match lines with
  | [] => with_rx rest c
  | line :: lines =>
      let '(c, raised) := on_response_line line (with_rx (unread lines rest) c) in
      if raised then c else read_responses lines rest c
  end.

Definition on_data (data : bytes) (c : Client) : Client :=
  let '(lines, rest) := lines_and_rest (cl_rx c ++ data) in read_responses lines rest c.

(** ** The handlers *)
Definition on_open (c : Client) : Client := with_outgoing [] (with_rx [] c).

(** [close] and [error]; neither looks at the socket it is for. *)
Definition on_down (err : exn) (c : Client) : Client :=
  failPending err (with_outgoing [] (with_rx [] (with_connection None true (cl_connecting c) c))).
Definition on_close (c : Client) : Client := on_down (BrokerClientError (js "broker socket closed") "unavailable") c.
Definition on_error (message : jsstr) (c : Client) : Client :=
  on_down (BrokerClientError (js "broker connection error: " ++ message) "unavailable") c.

(** [await connect()] went well, or failed: those who waited go on. *)
Definition connected (sock : nat) (c : Client) : Client :=
  foldl (fun c r => send_request r c) (with_waiting [] (with_connection (Some sock) false false c)) (cl_waiting c).
Definition connect_failed (c : Client) : Client :=
  let err := BrokerClientError (js "broker connection is closed (fail closed)") "unavailable" in
  log_settled (map (fun r => (rq_id r, Rejected err)) (cl_waiting c)) (with_waiting [] (with_connection (cl_socket c) (cl_closed c) false c)).

Definition onTimeout (id : jsstr) (c : Client) : Client :=
  let c := if bool_decide (frameIdAtStart (cl_rx c) = Some id) then with_rx [] c else c in
  match assoc id (cl_pending c) with
  | Some p =>
      log_settled [(id, Rejected (BrokerClientError (js "broker request '" ++ js (p_operation p) ++ js "' timed out") "timeout"))]
        (with_pending (map_delete id) c)
  | None => c
  end.

Definition close (c : Client) : Client := with_connection None true (cl_connecting c) c.

(** ** Runs *)
Inductive client_event :=
  | EvRequest (r : request_args)
  | EvOpen (sock : nat)
  | EvConnected (sock : nat)
  | EvConnectFailed
  | EvData (sock : nat) (data : bytes)
  | EvDrain (sock : nat)
  | EvClose (sock : nat)
  | EvError (sock : nat) (message : jsstr)
  | EvTimer (timer : nat)
  | EvClientClose.

(** A timer fires once, when it is armed. *)
Definition fire (timer : nat) (c : Client) : Client :=
  match List.find (fun e => (timer =? fst e)%nat) (cl_timers c) with
  | Some (_, id) => onTimeout id (clearTimeout (Some timer) c)
  | None => c
  end.

Definition client_step (c : Client) (ev : client_event) : Client :=
  match ev with
  | EvRequest r => client_request r c
  | EvOpen _ => on_open c
  | EvConnected sock => connected sock c
  | EvConnectFailed => connect_failed c
  | EvData _ data => on_data data c
  | EvDrain sock => flushWrites sock c
  | EvClose _ => on_close c
  | EvError _ message => on_error message c
  | EvTimer timer => fire timer c
  | EvClientClose => close c
  end.

(** The client before its first connection. *)
Definition createBrokerClient : Client := mkClient [] None false true [] [] [] [] 0 [] [] [] [].
Definition client_run (events : list client_event) : Client := foldl client_step createBrokerClient events.

(** What the caller of [request] gets. *)
Definition answer (operation : string) (s : Settlement) : res jsval :=
  match s with
  | Rejected err => Throw err
  | Resolved resp =>
      if is_falsy (at_key resp "ok") then
        let error := at_key resp "error" in
        message ← js_String (nullish_or (at_key error "message") (JStr (js "broker operation '" ++ js operation ++ js "' failed")));
        Throw (Exn (match nullish_or (at_key error "code") (text "internal") with JStr code => ECoded code | _ => EError end) message)
      else Ok (at_key resp "result")
  end.
End client.
