(* ===== verification/BrokerClientFacts.v ===== *)
(** * Theorems of the broker client

    Whatever the sockets, the timers and the broker do, every request is in one
    place and settles at most once, with a response of its own id; deadlines are
    bounded; and on sockets that report their end before the next one opens, a
    socket gets whole frames in order and no sent request is left without a
    deadline. *)
From S2P Require Import Prelude JsVal Json JsOps Path Validation Codec Envelope Server Worker ReviewArgv SddRuntime RelayChild PluginValues BrokerClient.
Open Scope Z_scope.

(** ** Maps *)
Lemma map_set_same_keys {A} k (v v' : A) m : assoc k m = Some v' -> map fst (map_set k v m) = map fst m.
Proof.
  induction m as [|[a b] m IH]; cbn [assoc map_set map fst]; [done|]. destruct (str_eqb k a) eqn:E; cbn [map fst].
  - by apply str_eqb_eq in E as ->.
  - intros H. by rewrite IH.
Qed.

Lemma map_delete_keys {A} k (v : A) m : NoDup (map fst m) -> assoc k m = Some v -> map fst m ≡ₚ k :: map fst (map_delete k m).
Proof.
  unfold map_delete. induction m as [|[a b] m IH]; cbn [assoc List.filter map fst]; [done|]. rewrite NoDup_cons. intros [Hn Hd].
  destruct (str_eqb k a) eqn:E; cbn [negb map fst].
  - apply str_eqb_eq in E as ->. intros _. f_equiv. enough (List.filter (fun kv => negb (str_eqb a (fst kv))) m = m) as -> by done.
    clear IH Hd. induction m as [|[c d] m IH]; [done|]. cbn [List.filter fst map] in *. rewrite not_elem_of_cons in Hn. destruct Hn as [Hac Hn].
    rewrite (proj2 (str_eqb_neq a c)) by done. cbn [negb]. by rewrite IH.
  - intros H. rewrite (IH Hd H). by constructor.
Qed.

Lemma NoDup_map_inj {A B} (f : A -> B) l x y : NoDup (map f l) -> In x l -> In y l -> f x = f y -> x = y.
Proof.
  induction l as [|a l IH]; [done|]. cbn [map In]. rewrite NoDup_cons. intros [Hn Hd] [->|Hx] [->|Hy] Hf; [done| | |by apply IH];
    exfalso; apply Hn, list_elem_of_In, in_map_iff; eauto.
Qed.

(** Reads a field of an updated client. *)
Ltac fields := cbn [cl_pending cl_socket cl_closed cl_connecting cl_rx cl_outgoing cl_waiting cl_timers cl_next_timer cl_settled cl_armed cl_frames cl_writes
  with_pending with_connection with_rx with_outgoing with_waiting with_timers log_settled log_frame log_write log_timer] in *.

(** ** The places of a request *)
Definition places (c : Client) : list jsstr := map fst (cl_pending c) ++ map rq_id (cl_waiting c) ++ map fst (cl_settled c).

(** The deadlines set for a request, in order. *)
Definition deadlines (id : jsstr) (c : Client) : list Z := omap (fun e => if str_eqb id (fst e) then Some (snd e) else None) (cl_armed c).

Section facts.
  Context (timeoutMs queuedHoldTimeoutMs : Z).
  Local Abbreviation op_timeout := (operation_timeout timeoutMs).

(** A pending request and what was set for it. *)
Definition clock_of (p : Pending) (ds : list Z) : Prop :=
  match p_queued p, p_timer p with
  | false, None => ds = []
  | false, Some _ => ds = [p_opTimeout p]
  | true, Some _ => ds = [queuedHoldTimeoutMs + p_opTimeout p] \/ ds = [p_opTimeout p; queuedHoldTimeoutMs + p_opTimeout p]
  | true, None => False
  end.

(** At most one deadline for the answer, then at most one for the hold. *)
Definition deadline_shape (op : Z) (ds : list Z) : Prop :=
  ds = [] \/ ds = [op] \/ ds = [queuedHoldTimeoutMs + op] \/ ds = [op; queuedHoldTimeoutMs + op].

(** The requests made are in one place each; [extra] are about to be sent. *)
Record sound (issued extra : list request_args) (c : Client) : Prop := {
  s_places : map rq_id issued ≡ₚ map rq_id extra ++ places c;
  s_unique : NoDup (map rq_id issued);
  s_own id resp : In (id, Resolved resp) (cl_settled c) -> at_key resp "id" = JStr id;
  s_timers t id : In (t, id) (cl_timers c) <-> exists p, assoc id (cl_pending c) = Some p /\ p_timer p = Some t;
  s_one t id id' : In (t, id) (cl_timers c) -> In (t, id') (cl_timers c) -> id = id';
  s_fresh t id : In (t, id) (cl_timers c) -> (t < cl_next_timer c)%nat;
  s_pending id p : assoc id (cl_pending c) = Some p -> clock_of p (deadlines id c) /\
    exists r, In r issued /\ rq_id r = id /\ p_operation p = rq_operation r /\ p_opTimeout p = op_timeout (rq_operation r);
  s_waiting r : In r (extra ++ cl_waiting c) -> In r issued /\ deadlines (rq_id r) c = [] /\ rq_id r ∉ map w_id (cl_outgoing c);
  s_deadlines r : In r issued -> deadline_shape (op_timeout (rq_operation r)) (deadlines (rq_id r) c);
  s_armed id ms : In (id, ms) (cl_armed c) -> id ∈ map rq_id issued;
  s_outgoing : NoDup (map w_id (cl_outgoing c));
  s_sending id : id ∈ map w_id (cl_outgoing c) -> id ∈ map rq_id issued;
  s_unsent id p : id ∈ map w_id (cl_outgoing c) -> assoc id (cl_pending c) = Some p -> p_queued p = false -> p_timer p = None
}.

(** What the invariant reads. *)
Definition core (c : Client) := (cl_pending c, cl_waiting c, cl_timers c, cl_next_timer c, cl_settled c, cl_armed c).

(** It keeps when writes are dropped. *)
Lemma sound_core issued extra c c' :
  core c = core c' -> sublist (map w_id (cl_outgoing c')) (map w_id (cl_outgoing c)) -> sound issued extra c -> sound issued extra c'.
Proof.
  unfold core. intros [= H1 H2 H3 H4 H5 H6] Hsub [].
  assert (forall id, id ∈ map w_id (cl_outgoing c') -> id ∈ map w_id (cl_outgoing c)) as Hin by (intros id; by apply sublist_subseteq).
  split; unfold places, deadlines in *; rewrite <- ?H1, <- ?H2, <- ?H3, <- ?H4, <- ?H5, <- ?H6; try assumption.
  - intros r Hr. destruct (s_waiting0 r Hr) as (? & ? & Hn). split_and!; [done..|]. intros Hc. by apply Hn, Hin.
  - by eapply sublist_NoDup.
  - intros id Hid. by apply s_sending0, Hin.
  - intros id p Hid. by apply s_unsent0, Hin.
Qed.

Lemma sound_same issued extra c c' : core c = core c' -> cl_outgoing c' = cl_outgoing c -> sound issued extra c -> sound issued extra c'.
Proof. intros Hc Ho. apply sound_core; [done|]. by rewrite Ho. Qed.

Lemma pending_keys_NoDup issued extra c : sound issued extra c -> NoDup (map fst (cl_pending c)).
Proof. intros []. rewrite s_places0 in s_unique0. unfold places in s_unique0. apply NoDup_app in s_unique0 as (_ & _ & H). by apply NoDup_app in H as [? _]. Qed.

Lemma clear_other timer c :
  cl_pending (clearTimeout timer c) = cl_pending c /\ cl_waiting (clearTimeout timer c) = cl_waiting c /\
  cl_settled (clearTimeout timer c) = cl_settled c /\ cl_armed (clearTimeout timer c) = cl_armed c /\
  cl_next_timer (clearTimeout timer c) = cl_next_timer c /\ cl_outgoing (clearTimeout timer c) = cl_outgoing c.
Proof. by destruct timer. Qed.

(** The timers left when the one of a request is cleared. *)
Lemma cleared_timers issued extra c id p t x :
  sound issued extra c -> assoc id (cl_pending c) = Some p ->
  In (t, x) (cl_timers (clearTimeout (p_timer p) c)) <-> In (t, x) (cl_timers c) /\ x <> id.
Proof.
  intros [] Hp. destruct (p_timer p) as [t0|] eqn:Ht; cbn [clearTimeout].
  - assert (In (t0, id) (cl_timers c)) as Hid by (apply s_timers0; eauto).
    cbn [cl_timers with_timers]. rewrite filter_In, negb_true_iff. cbn [fst]. rewrite Nat.eqb_neq. split.
    + intros [Hin Hne]. split; [done|]. intros ->. apply s_timers0 in Hin as (p' & Hp' & Ht'). congruence.
    + intros [Hin Hne]. split; [done|]. intros <-. by apply Hne, (s_one0 t0).
  - split; [|tauto]. intros Hin. split; [done|]. intros ->. apply s_timers0 in Hin as (p' & Hp' & Ht'). congruence.
Qed.

(** *** Settling *)
Lemma settle_sound issued extra c id p s :
  assoc id (cl_pending c) = Some p -> (forall resp, s = Resolved resp -> at_key resp "id" = JStr id) ->
  sound issued extra c -> sound issued extra (settle id p s c).
Proof.
  intros Hp Hs H. pose proof (pending_keys_NoDup _ _ _ H) as Hn. pose proof (map_delete_keys id p _ Hn Hp) as Hk.
  pose proof (fun t x => cleared_timers issued extra c id p t x H Hp) as Ht. destruct (clear_other (p_timer p) c) as (H1 & H2 & H3 & H4 & H5 & H6).
  destruct H. unfold settle.
  assert (forall x, assoc x (map_delete id (cl_pending c)) = if str_eqb x id then None else assoc x (cl_pending c)) as Ha.
  { intros x. destruct (str_eqb x id) eqn:E; [apply str_eqb_eq in E as ->; apply assoc_map_delete_same|].
    apply assoc_map_delete_other. by apply str_eqb_neq. }
  assert (forall f, clearTimeout (p_timer p) (with_pending f c) = with_pending f (clearTimeout (p_timer p) c)) as Hc by (by destruct (p_timer p)).
  rewrite Hc. split; unfold places, deadlines in *; cbn -[clearTimeout]; rewrite ?H1, ?H2, ?H3, ?H4, ?H5, ?H6; try assumption.
  - rewrite s_places0, Hk, map_app, !app_assoc. cbn [map fst]. rewrite <- Permutation_cons_append, <- !app_assoc. cbn [app]. by rewrite <- Permutation_middle.
  - intros x resp [Hin|[[= -> Hr]|[]]]%in_app_or; [by apply s_own0 | by apply Hs].
  - intros t x. rewrite Ht, s_timers0, Ha. destruct (str_eqb x id) eqn:E; [apply str_eqb_eq in E as -> | apply str_eqb_neq in E]; naive_solver.
  - intros t x y [Hx _]%Ht [Hy _]%Ht. by eapply s_one0.
  - intros t x [Hx _]%Ht. by eapply s_fresh0.
  - intros x q. rewrite Ha. destruct (str_eqb x id); [done|]. apply s_pending0.
  - intros x q Hx. rewrite Ha. destruct (str_eqb x id); [done|]. by apply s_unsent0.
Qed.

Lemma clear_all_timers (l : list (jsstr * Pending)) c t x :
  In (t, x) (cl_timers (foldl (fun c kv => clearTimeout (p_timer (snd kv)) c) c l)) ->
  In (t, x) (cl_timers c) /\ forall kv, In kv l -> p_timer (snd kv) <> Some t.
Proof.
  revert c. induction l as [|kv l IH]; intros c; cbn [foldl In]; [done|]. intros H. apply IH in H as [H Hl].
  destruct (p_timer (snd kv)) as [t0|] eqn:Ht; cbn [clearTimeout] in H.
  - cbn [cl_timers with_timers] in H. apply filter_In in H as [H Hne]. cbn [fst] in Hne. apply negb_true_iff, Nat.eqb_neq in Hne.
    split; [done|]. intros kv' [<-|Hin]; [congruence | by apply Hl].
  - split; [done|]. intros kv' [<-|Hin]; [congruence | by apply Hl].
Qed.

Lemma clear_all_other (l : list (jsstr * Pending)) c :
  let c' := foldl (fun c kv => clearTimeout (p_timer (snd kv)) c) c l in
  cl_pending c' = cl_pending c /\ cl_waiting c' = cl_waiting c /\ cl_settled c' = cl_settled c /\ cl_armed c' = cl_armed c /\
  cl_next_timer c' = cl_next_timer c /\ cl_outgoing c' = cl_outgoing c.
Proof.
  revert c. induction l as [|kv l IH]; intros c; cbn [foldl]; [done|]. destruct (IH (clearTimeout (p_timer (snd kv)) c)) as (-> & -> & -> & -> & -> & ->).
  apply clear_other.
Qed.

Lemma failPending_sound issued extra c err : sound issued extra c -> sound issued extra (failPending err c).
Proof.
  intros H. destruct (clear_all_other (cl_pending c) c) as (H1 & H2 & H3 & H4 & H5 & H6). unfold failPending.
  assert (forall t x, ~ In (t, x) (cl_timers (foldl (fun c kv => clearTimeout (p_timer (snd kv)) c) c (cl_pending c)))) as Ht.
  { intros t x [Hin Hall]%clear_all_timers. apply (s_timers _ _ _ H) in Hin as (p & Hp & Hpt). apply assoc_Some_In in Hp.
    apply list_elem_of_In in Hp. by apply (Hall _ Hp). }
  set (c1 := foldl _ _ _) in *. destruct H. split; unfold places, deadlines in *; cbn; rewrite ?H1, ?H2, ?H3, ?H4, ?H5, ?H6; try assumption; try done.
  - rewrite s_places0, map_app, map_map. cbn. f_equiv. rewrite Permutation_app_comm. by rewrite <- app_assoc.
  - intros x resp [Hin|Hin]%in_app_or; [by apply s_own0|]. by apply in_map_iff in Hin as (? & [=] & _).
  - intros t x. split; [intros Hin; by apply Ht in Hin | by intros (? & [=] & _)].
  - intros t x y Hin. by apply Ht in Hin.
  - intros t x Hin. by apply Ht in Hin.
Qed.
(** *** Timers *)
Lemma deadlines_log x id ms c : deadlines x (log_timer id ms c) = deadlines x c ++ (if str_eqb x id then [ms] else []).
Proof. unfold deadlines. cbn [cl_armed log_timer]. rewrite omap_app. cbn. by destruct (str_eqb x id). Qed.

Lemma arm_sound issued extra c id p0 p ms :
  assoc id (cl_pending c) = Some p0 -> p_operation p = p_operation p0 -> p_opTimeout p = p_opTimeout p0 ->
  clock_of (mkPending (p_operation p) (Some (cl_next_timer c)) (p_opTimeout p) (p_queued p)) (deadlines id c ++ [ms]) ->
  p_queued p = true \/ id ∉ map w_id (cl_outgoing c) ->
  sound issued extra c -> sound issued extra (arm id p ms (clearTimeout (p_timer p0) c)).
Proof.
  intros Hp Ho Hop Hclock Hq H. pose proof (fun t x => cleared_timers issued extra c id p0 t x H Hp) as Ht.
  destruct (clear_other (p_timer p0) c) as (H1 & H2 & H3 & H4 & H5 & H6). destruct H. unfold arm.
  assert (forall x, deadlines x (clearTimeout (p_timer p0) c) = deadlines x c) as Hd by (intros x; unfold deadlines; by rewrite H4).
  destruct (s_pending0 id p0 Hp) as (_ & r0 & Hr0 & Hid0 & Hop0 & Hopt0).
  assert (deadline_shape (p_opTimeout p) (deadlines id c ++ [ms])) as Hshape.
  { revert Hclock. unfold clock_of, deadline_shape. cbn. destruct (p_queued p); tauto. }
  split; rewrite ?deadlines_log; unfold places; cbn -[clearTimeout deadlines]; rewrite ?H1, ?H2, ?H3, ?H4, ?H5, ?H6; try assumption.
  - by rewrite (map_set_same_keys _ _ p0).
  - intros t x. rewrite in_app_iff, Ht, assoc_map_set, s_timers0. cbn [In]. destruct (str_eqb x id) eqn:E; [apply str_eqb_eq in E as -> | apply str_eqb_neq in E].
    + split; [intros [[_ ?]|[[= <-]|[]]]; [done|by eexists] | intros (q & [= <-] & [= <-]); auto].
    + split; [intros [[? _]|[[= <- <-]|[]]]; done | intros Hx; left; split; done].
  - intros t x y Hx Hy. apply in_app_or in Hx, Hy. rewrite Ht in Hx, Hy. cbn [In] in Hx, Hy.
    destruct Hx as [[Hx _]|[Hx|[]]], Hy as [[Hy _]|[Hy|[]]].
    + by eapply s_one0.
    + injection Hy as <- _. apply s_fresh0 in Hx. lia.
    + injection Hx as <- _. apply s_fresh0 in Hy. lia.
    + congruence.
  - intros t x Hx. apply in_app_or in Hx. rewrite Ht in Hx. cbn [In] in Hx. destruct Hx as [[Hx _]|[[= <- <-]|[]]]; [|lia]. apply s_fresh0 in Hx. lia.
  - intros x q. rewrite assoc_map_set, deadlines_log. unfold with_pending at 1, deadlines at 1. cbn -[clearTimeout]. rewrite H4.
    fold (deadlines x c). destruct (str_eqb x id) eqn:E.
    + apply str_eqb_eq in E as ->. intros [= <-]. split; [done|]. exists r0. cbn. by rewrite Ho, Hop.
    + intros Hx. rewrite app_nil_r. by apply s_pending0.
  - intros r Hr. destruct (s_waiting0 r Hr) as (Hin & Hnil & Hnot). split; [done|]. split; [|done]. rewrite deadlines_log.
    unfold with_pending, deadlines at 1. cbn -[clearTimeout]. rewrite H4. fold (deadlines (rq_id r) c). rewrite Hnil. destruct (str_eqb (rq_id r) id) eqn:E; [|done].
    apply str_eqb_eq in E. exfalso. assert (id ∈ map fst (cl_pending c)) as Hk.
    { apply assoc_Some_In in Hp. apply list_elem_of_In in Hp. apply list_elem_of_In, in_map_iff. by exists (id, p0). }
    rewrite s_places0 in s_unique0. unfold places in s_unique0. apply in_app_or in Hr. destruct Hr as [Hr|Hr].
    * apply NoDup_app in s_unique0 as (_ & Hdis & _). apply (Hdis id); [|by apply elem_of_app; left]. apply list_elem_of_In, in_map_iff. by exists r.
    * apply NoDup_app in s_unique0 as (_ & _ & Hn). apply NoDup_app in Hn as (_ & Hdis & _). apply (Hdis id Hk).
      apply elem_of_app. left. apply list_elem_of_In, in_map_iff. by exists r.
  - intros r Hr. rewrite deadlines_log. unfold with_pending, deadlines at 1. cbn -[clearTimeout]. rewrite H4. fold (deadlines (rq_id r) c).
    destruct (str_eqb (rq_id r) id) eqn:E; [|rewrite app_nil_r; by apply s_deadlines0]. apply str_eqb_eq in E. rewrite E.
    assert (r = r0) as -> by (apply (NoDup_map_inj rq_id issued); congruence || done). by rewrite <- Hopt0, <- Hop.
  - intros x t [Hx|[[= <- <-]|[]]]%in_app_or; [by eapply s_armed0|]. rewrite <- Hid0. apply list_elem_of_In, in_map_iff. by exists r0.
  - intros x q Hx. rewrite assoc_map_set. destruct (str_eqb x id) eqn:E; [|by apply s_unsent0]. apply str_eqb_eq in E as ->. intros [= <-] Hqq. cbn in Hqq.
    destruct Hq as [Hq|Hq]; [congruence | done].
Qed.
(** The deadline of a frame that is sent whole. *)
Lemma startTimeout_sound issued extra c id :
  id ∉ map w_id (cl_outgoing c) -> (forall p, assoc id (cl_pending c) = Some p -> p_queued p = false -> p_timer p = None) ->
  sound issued extra c -> sound issued extra (startTimeout id c).
Proof.
  intros Hn Hu H. unfold startTimeout. destruct (assoc id (cl_pending c)) as [p|] eqn:Hp; [|done]. destruct (p_queued p) eqn:Hq; [done|].
  specialize (Hu p eq_refl Hq). destruct (s_pending _ _ _ H id p Hp) as [Hc _]. unfold clock_of in Hc. rewrite Hq, Hu in Hc.
  enough (sound issued extra (arm id p (p_opTimeout p) (clearTimeout (p_timer p) c))) as Ha by (by rewrite Hu in Ha).
  apply (arm_sound _ _ _ _ p); try done; [|by right]. rewrite Hc. unfold clock_of. cbn. by rewrite Hq.
Qed.

Lemma on_queued_sound issued extra c id : sound issued extra c -> sound issued extra (on_queued queuedHoldTimeoutMs id c).
Proof.
  intros H. destruct id as [| | | |id| |]; try done. cbn. destruct (assoc id (cl_pending c)) as [p|] eqn:Hp; [|done]. destruct (p_queued p) eqn:Hq; [done|].
  apply (arm_sound _ _ _ _ p); try done; [|by left]. destruct (s_pending _ _ _ H id p Hp) as [Hc _]. revert Hc.
  unfold clock_of. cbn. rewrite Hq. destruct (p_timer p); intros ->; [by right | by left].
Qed.

Lemma fail_write_sound issued extra c err : sound issued extra c -> sound issued extra (fail_write err c).
Proof. intros H. apply failPending_sound. revert H. apply sound_core; [done | apply sublist_nil_l]. Qed.

Section writes.
  Context (write : nat -> bytes -> res jsval).

Lemma flush_sound issued extra sock queue c :
  map w_id queue = map w_id (cl_outgoing c) -> sound issued extra c -> sound issued extra (write_queue write sock queue c).
Proof.
  revert c. induction queue as [|w queue IH]; intros c Hq H; cbn [write_queue].
  - revert H. apply sound_core; [done | apply sublist_nil_l].
  - cbn [map] in Hq. destruct (taken _ _) as [n|err].
    + destruct (_ <? _)%nat; [revert H; apply sound_core; [done | by rewrite <- Hq]|].
      pose proof (s_outgoing _ _ _ H) as Hn. rewrite <- Hq in Hn. apply NoDup_cons in Hn as [Hn _].
      assert (sound issued extra (with_outgoing queue (log_write (sock, take n (drop (w_offset w) (w_data w))) c))) as H'.
      { revert H. apply sound_core; [done|]. cbn. rewrite <- Hq. by constructor. }
      apply IH; [unfold startTimeout; destruct (assoc _ _) as [p|]; [destruct (p_queued p)|]; done|].
      apply startTimeout_sound; [done | | done]. intros p Hp.
      apply (s_unsent _ _ _ H (w_id w)); [|done]. rewrite <- Hq. apply list_elem_of_here.
    + apply fail_write_sound. revert H. apply sound_core; [done|]. cbn. by rewrite <- Hq.
Qed.

Lemma flushWrites_sound issued extra sock c : sound issued extra c -> sound issued extra (flushWrites write sock c).
Proof. intros H. unfold flushWrites. case_bool_decide; [by apply flush_sound | done]. Qed.

(** A request about to be sent becomes pending. *)
Lemma pending_sound issued extra r c :
  sound issued (r :: extra) c ->
  sound issued extra (with_pending (map_set (rq_id r) (mkPending (rq_operation r) None (op_timeout (rq_operation r)) false)) c) /\
  assoc (rq_id r) (cl_pending c) = None /\ rq_id r ∉ map w_id (cl_outgoing c) /\
  forall r', In r' (extra ++ cl_waiting c) -> rq_id r' <> rq_id r.
Proof.
  intros H. destruct (s_waiting _ _ _ H r) as (Hin & Hnil & Hout); [by left|].
  pose proof (s_unique _ _ _ H) as Hu. rewrite (s_places _ _ _ H) in Hu. cbn [map app] in Hu. apply NoDup_cons in Hu as [Hu _].
  unfold places in Hu. rewrite !not_elem_of_app in Hu. destruct Hu as (Hx & Hnew & Hw & _).
  pose proof (proj2 (assoc_None _ _) Hnew) as Hnone. split; [|split; [done|split; [done|]]].
  2: { intros r' Hr' He. rewrite <- He in Hx, Hw. apply in_app_or in Hr'. destruct Hr'; [apply Hx | apply Hw]; apply list_elem_of_In, in_map_iff; eauto. }
  destruct H.
  assert (map fst (map_set (rq_id r) (mkPending (rq_operation r) None (op_timeout (rq_operation r)) false) (cl_pending c)) = map fst (cl_pending c) ++ [rq_id r]) as Hkeys.
  { clear -Hnone. induction (cl_pending c) as [|[a b] m IH]; [done|]. cbn [assoc map_set] in *. destruct (str_eqb (rq_id r) a); [done|]. cbn [map fst app]. by rewrite IH. }
  split; unfold places, deadlines in *; cbn; try assumption.
  - rewrite s_places0, Hkeys. cbn. rewrite <- !app_assoc. cbn. rewrite <- !Permutation_middle. done.
  - intros t id. rewrite s_timers0, assoc_map_set. destruct (str_eqb id (rq_id r)) eqn:E; [|done]. apply str_eqb_eq in E as ->.
    rewrite Hnone. split; [by intros (? & [=] & _) | by intros (? & [= <-] & [=])].
  - intros id p. rewrite assoc_map_set. destruct (str_eqb id (rq_id r)) eqn:E; [|apply s_pending0]. apply str_eqb_eq in E as ->.
    intros [= <-]. split; [done | by exists r].
  - intros r' Hr'. apply s_waiting0. by right.
  - intros id p Hid. rewrite assoc_map_set. destruct (str_eqb id (rq_id r)) eqn:E; [|by apply s_unsent0]. apply str_eqb_eq in E as ->. done.
Qed.

Lemma send_request_sound issued extra r c : sound issued (r :: extra) c -> sound issued extra (send_request write timeoutMs r c).
Proof.
  intros H0. destruct (pending_sound _ _ _ _ H0) as (H & Hnone & Hout & Hne). unfold send_request. cbn [cl_socket with_pending].
  destruct (cl_socket c) as [sock|].
  - apply flushWrites_sound. destruct (s_waiting _ _ _ H0 r) as (Hin & _); [by left|]. generalize (utf8_encode (request_line r)) as data. intros data.
    set (p0 := mkPending _ _ _ _) in *. destruct H. split; unfold places, deadlines in *; fields; rewrite ?map_app; try assumption.
    + intros r' Hr'. destruct (s_waiting0 r' Hr') as (H1 & H2 & H3). split_and!; [done..|]. rewrite not_elem_of_app. split; [done|].
      intros Hx. apply list_elem_of_singleton in Hx. by apply (Hne r').
    + apply NoDup_app. split; [done|]. split; [|apply NoDup_singleton]. intros x Hx. cbn. intros Hy. apply list_elem_of_singleton in Hy as ->. done.
    + intros id. rewrite elem_of_app. intros [Hid|Hid]; [by apply s_sending0|]. apply list_elem_of_singleton in Hid as ->. apply list_elem_of_In, in_map_iff. by exists r.
    + intros id p. rewrite elem_of_app. intros [Hid|Hid]; [by apply s_unsent0|]. apply list_elem_of_singleton in Hid as ->.
      rewrite assoc_map_set, (proj2 (str_eqb_eq _ _) eq_refl). by intros [= <-].
  - apply settle_sound; [|done|done]. fields. by rewrite assoc_map_set, (proj2 (str_eqb_eq _ _) eq_refl).
Qed.
Lemma issue_sound issued extra r c : rq_id r ∉ map rq_id issued -> sound issued extra c -> sound (r :: issued) (r :: extra) c.
Proof.
  intros Hn H. assert (deadlines (rq_id r) c = []) as Hnil.
  { unfold deadlines. destruct H. clear -s_armed0 Hn. induction (cl_armed c) as [|[id ms] l IH]; [done|]. cbn [omap list_omap fst].
    destruct (str_eqb (rq_id r) id) eqn:E; [|apply IH; intros id' ms' Hin; apply (s_armed0 id' ms'); by right].
    apply str_eqb_eq in E. exfalso. apply Hn. rewrite E. apply (s_armed0 id ms). by left. }
  destruct H. split; cbn [map]; try assumption.
  - cbn. by f_equiv.
  - by apply NoDup_cons.
  - intros id p Hp. destruct (s_pending0 id p Hp) as (Hc & r0 & ? & ?). split; [done|]. exists r0. split; [by right | done].
  - intros r' [<-|Hr']; [|destruct (s_waiting0 r' Hr') as (? & ?); split; [by right | done]].
    split; [by left|]. split; [done|]. intros Hs. by apply Hn, s_sending0.
  - intros r' [<-|Hr']; [rewrite Hnil; by left | by apply s_deadlines0].
  - intros id ms Hin. apply elem_of_cons. right. by eapply s_armed0.
  - intros id Hid. apply elem_of_cons. right. by apply s_sending0.
Qed.

(** Requests that wait for the connection are sent when it is there, in order. *)
Lemma waiting_sound issued extra waiting connection c :
  core (connection c) = core c -> cl_outgoing (connection c) = cl_outgoing c ->
  (map rq_id waiting ++ map rq_id extra) ≡ₚ map rq_id (cl_waiting c) -> (forall r, In r (extra ++ waiting) -> In r (cl_waiting c)) ->
  sound issued [] c -> sound issued extra (with_waiting waiting (connection c)).
Proof.
  unfold core. intros [= H1 H2 H3 H4 H5 H6] Ho Hp Hin [].
  split; unfold places, deadlines in *; fields; rewrite ?H1, ?H2, ?H3, ?H4, ?H5, ?H6, ?Ho; try assumption.
  - rewrite s_places0. cbn. rewrite <- Hp. rewrite (Permutation_app_comm (map rq_id waiting)), !app_assoc. f_equiv.
    rewrite <- app_assoc, Permutation_app_comm. rewrite <- app_assoc. rewrite (Permutation_app_comm _ (map fst (cl_pending c))). by rewrite app_assoc.
  - intros r Hr. by apply s_waiting0, Hin.
Qed.

Lemma connected_sound issued sock c : sound issued [] c -> sound issued [] (connected write timeoutMs sock c).
Proof.
  intros H. unfold connected. assert (sound issued (cl_waiting c) (with_waiting [] (with_connection (Some sock) false false c))) as H'.
  { apply (waiting_sound _ _ [] (with_connection (Some sock) false false)); [done|done|done| |done]. intros r. by rewrite app_nil_r. }
  clear H. revert H'. generalize (with_waiting [] (with_connection (Some sock) false false c)). induction (cl_waiting c) as [|r l IH]; intros c0 H; cbn [foldl]; [done|].
  by apply IH, send_request_sound.
Qed.

Lemma request_sound issued r c : rq_id r ∉ map rq_id issued -> sound issued [] c -> sound (r :: issued) [] (client_request write timeoutMs r c).
Proof.
  intros Hn H. apply (issue_sound _ _ r) in H; [|done]. unfold client_request. destruct (cl_closed c); cbn [negb]; [|by apply send_request_sound].
  destruct H. split; unfold places, deadlines in *; fields; rewrite ?map_app; try assumption.
  - rewrite s_places0, <- app_assoc. cbn [map app]. by rewrite <- !Permutation_middle.
  - intros r' Hr'. apply s_waiting0. cbn in *. apply in_app_or in Hr'. cbn in Hr'. tauto.
Qed.

Lemma connect_failed_sound issued c : sound issued [] c -> sound issued [] (connect_failed c).
Proof.
  intros []. unfold connect_failed. cbv zeta. generalize (BrokerClientError (js "broker connection is closed (fail closed)") "unavailable"). intros err.
  split; unfold places, deadlines in *; fields; try assumption; try done.
  - rewrite s_places0, map_app, map_map. cbn. apply Permutation_app_head, Permutation_app_comm.
  - intros id resp [Hin|Hin]%in_app_or; [by apply s_own0|]. by apply in_map_iff in Hin as (? & [=] & _).
Qed.

(** *** Responses *)
Lemma on_line_sound issued line c c' raised :
  on_response_line queuedHoldTimeoutMs line c = (c', raised) -> sound issued [] c -> sound issued [] c'.
Proof.
  intros Hl H. unfold on_response_line in Hl. destruct (trim _); [by injection Hl as <- _|]. destruct (json_parse _) as [resp|].
  - assert ((if negb (is_falsy (at_key (at_key resp "progress") "queued")) then (on_queued queuedHoldTimeoutMs (at_key resp "id") c, false)
             else match at_key resp "id" with
                  | JStr id => match assoc id (cl_pending c) with Some p => (settle id p (Resolved resp) c, false) | None => (c, false) end
                  | _ => (c, false)
                  end) = (c', raised) \/ c' = c) as Hc by (destruct resp; auto; right; by injection Hl).
    destruct Hc as [Hc| ->]; [|done]. destruct (negb _); [injection Hc as <- _; by apply on_queued_sound|].
    destruct (at_key resp "id") as [| | | |id| |] eqn:Hid; try (by injection Hc as <- _).
    destruct (assoc id (cl_pending c)) eqn:Hp; injection Hc as <- _; [|done]. apply settle_sound; [done| |done]. intros ? [= <-]. done.
  - injection Hl as <- _. destruct (frameIdAtStart line) as [id|]; [|done]. destruct (assoc id (cl_pending c)) eqn:Hp; [|done].
    by apply settle_sound.
Qed.

Lemma read_lines_sound issued lines rest c : sound issued [] c -> sound issued [] (read_responses queuedHoldTimeoutMs lines rest c).
Proof.
  revert c. induction lines as [|line lines IH]; intros c H; cbn [read_responses]; [by revert H; apply sound_same|].
  destruct (on_response_line _ _ _) as [c' raised] eqn:Hl. assert (sound issued [] c') as H'.
  { apply (on_line_sound _ _ _ _ _ Hl). by revert H; apply sound_same. }
  destruct raised; [done | by apply IH].
Qed.

Lemma on_data_sound issued data c : sound issued [] c -> sound issued [] (on_data queuedHoldTimeoutMs data c).
Proof. intros H. unfold on_data. destruct (lines_and_rest _). by apply read_lines_sound. Qed.

Lemma on_down_sound issued err c : sound issued [] c -> sound issued [] (on_down err c).
Proof. intros H. apply failPending_sound. revert H. apply sound_core; [done | apply sublist_nil_l]. Qed.

(** A timer that fires is the one of a pending request, which it settles. *)
Lemma fire_settles issued timer c : sound issued [] c ->
  core (fire timer c) = core c /\ cl_outgoing (fire timer c) = cl_outgoing c \/
  exists id p err, assoc id (cl_pending c) = Some p /\ core (fire timer c) = core (settle id p (Rejected err) c) /\
    cl_outgoing (fire timer c) = cl_outgoing c.
Proof.
  intros H. unfold fire. destruct (List.find _ _) as [[t id]|] eqn:Hf; [|by left]. right. apply find_some in Hf as [Hin Ht].
  cbn in Ht. apply Nat.eqb_eq in Ht as <-. apply (s_timers _ _ _ H) in Hin as (p & Hp & Hpt). unfold onTimeout.
  exists id, p, (BrokerClientError (js "broker request '" ++ js (p_operation p) ++ js "' timed out") "timeout"). split; [done|].
  unfold settle. rewrite Hpt. case_bool_decide; fields; cbn [clearTimeout]; fields; by rewrite Hp.
Qed.

Lemma fire_sound issued timer c : sound issued [] c -> sound issued [] (fire timer c).
Proof.
  intros H. destruct (fire_settles issued timer c H) as [[Hc Ho]|(id & p & err & Hp & Hc & Ho)]; [by revert H; apply sound_same|].
  apply (sound_same _ _ (settle id p (Rejected err) c)); [done| |by apply settle_sound]. rewrite Ho. unfold settle. fields. by destruct (clear_other (p_timer p) (with_pending (map_delete id) c)) as (_ & _ & _ & _ & _ & ->).
Qed.

(** ** Runs *)

(** The requests made, the last first. *)
Definition requests (events : list client_event) : list request_args :=
  rev (omap (fun ev => match ev with EvRequest r => Some r | _ => None end) events).

Lemma step_sound issued c ev :
  (forall r, ev = EvRequest r -> rq_id r ∉ map rq_id issued) -> sound issued [] c ->
  sound (match ev with EvRequest r => r :: issued | _ => issued end) [] (client_step write timeoutMs queuedHoldTimeoutMs c ev).
Proof.
  intros Hn H. destruct ev; cbn [client_step].
  - by apply request_sound; [apply Hn|].
  - revert H. apply sound_core; [done | apply sublist_nil_l].
  - by apply connected_sound.
  - by apply connect_failed_sound.
  - by apply on_data_sound.
  - by apply flushWrites_sound.
  - by apply on_down_sound.
  - by apply on_down_sound.
  - by apply fire_sound.
  - by revert H; apply sound_same.
Qed.

Lemma requests_snoc events ev : requests (events ++ [ev]) = match ev with EvRequest r => r :: requests events | _ => requests events end.
Proof. unfold requests. rewrite omap_app, rev_app_distr. by destruct ev. Qed.

Lemma run_sound events :
  NoDup (map rq_id (requests events)) -> sound (requests events) [] (client_run write timeoutMs queuedHoldTimeoutMs events).
Proof.
  unfold client_run. induction events as [|ev events IH] using rev_ind.
  - intros _. split; cbn; try done; try (by constructor). intros t id. split; [done | by intros (? & [=] & _)].
  - intros Hn. rewrite foldl_app. cbn [foldl]. rewrite requests_snoc in *.
    apply step_sound; [intros r ->; by apply NoDup_cons in Hn as [? _] | apply IH]. destruct ev; try done. by apply NoDup_cons in Hn as [_ ?].
Qed.
End writes.
End facts.

(** ** Sockets that end before the next opens *)

(** The connection of the client, as the sockets report it. *)
Inductive link := Idle | Opening (sock : nat) | Live (sock : nat).

#[local] Instance link_eq_dec : EqDecision link.
Proof. solve_decision. Defined.

(** The events of one socket come between its open and its close, no socket
    opens twice, and none opens before the one before it closed. *)
Definition link_step (c : Client) (l : link * list nat) (ev : client_event) : option (link * list nat) :=
  let on sock k := match fst l with Opening s | Live s => if (s =? sock)%nat then Some k else None | Idle => None end in
  match ev with
  | EvOpen sock => if cl_connecting c && negb (bool_decide (sock ∈ snd l)) && bool_decide (fst l = Idle) then Some (Opening sock, sock :: snd l) else None
  | EvConnected sock => if bool_decide (fst l = Opening sock) then Some (Live sock, snd l) else None
  | EvConnectFailed => if bool_decide (fst l = Idle) then Some l else None
  | EvData sock _ | EvDrain sock | EvError sock _ => on sock l
  | EvClose sock => on sock (Idle, snd l)
  | EvRequest _ | EvTimer _ | EvClientClose => Some l
  end.

(** The bytes queued for a socket, and those it took. *)
Definition of_socket (sock : nat) (log : list (nat * bytes)) : bytes := concat (map snd (List.filter (fun e => (fst e =? sock)%nat) log)).
Definition framed (sock : nat) (c : Client) : bytes := of_socket sock (cl_frames c).
Definition taken_by (sock : nat) (c : Client) : bytes := of_socket sock (cl_writes c).
Definition unsent (queue : list PendingWrite) : bytes := concat (map (fun w => drop (w_offset w) (w_data w)) queue).

(** A pending request has a deadline, or its frame is not sent yet. *)
Definition covered (c : Client) : Prop := forall id p, assoc id (cl_pending c) = Some p ->
  p_timer p <> None \/ p_queued p = false /\ id ∈ map w_id (cl_outgoing c).

Definition at_rest (c : Client) : Prop := cl_socket c = None /\ cl_pending c = [] /\ cl_outgoing c = [].

Record linked (issued : list request_args) (l : link * list nat) (c : Client) : Prop := {
  l_covered : covered c;
  l_prefix sock : exists rest, framed sock c = taken_by sock c ++ rest;
  l_used sock : sock ∉ snd l -> framed sock c = [] /\ taken_by sock c = [];
  l_frames sock data : In (sock, data) (cl_frames c) -> exists r, In r issued /\ data = utf8_encode (request_line r);
  l_waiting r : In r (cl_waiting c) -> In r issued;
  l_link : match fst l with
           | Idle => at_rest c
           | Opening sock => at_rest c /\ framed sock c = [] /\ taken_by sock c = [] /\ sock ∈ snd l
           | Live sock => sock ∈ snd l /\ (cl_socket c = None \/ cl_socket c = Some sock /\ framed sock c = taken_by sock c ++ unsent (cl_outgoing c))
           end
}.

(** *** What leaves the connection alone *)
Definition undisturbed (c c' : Client) : Prop :=
  cl_socket c' = cl_socket c /\ cl_outgoing c' = cl_outgoing c /\ cl_frames c' = cl_frames c /\ cl_writes c' = cl_writes c /\
  cl_waiting c' = cl_waiting c /\ (cl_pending c = [] -> cl_pending c' = []) /\
  (forall id p, assoc id (cl_pending c') = Some p -> p_timer p <> None \/ assoc id (cl_pending c) = Some p).

#[local] Instance quiet_refl : Reflexive undisturbed.
Proof. intros c. unfold undisturbed. split_and!; auto. Qed.

#[local] Instance quiet_trans : Transitive undisturbed.
Proof.
  intros a b c (A1 & A2 & A3 & A4 & A5 & A6 & A7) (B1 & B2 & B3 & B4 & B5 & B6 & B7). unfold undisturbed. split_and!; try congruence; [auto|].
  intros id p H. destruct (B7 id p H) as [?|H']; [by left | by apply A7].
Qed.

Lemma quiet_linked issued l c c' : undisturbed c c' -> linked issued l c -> linked issued l c'.
Proof.
  intros (H1 & H2 & H3 & H4 & H5 & H6 & H7) []. unfold framed, taken_by in *.
  split; unfold covered, framed, taken_by, at_rest in *; rewrite ?H1, ?H2, ?H3, ?H4, ?H5; try done.
  - intros id p H. destruct (H7 id p H) as [?|H']; [by left | by apply l_covered0].
  - destruct (fst l); naive_solver.
Qed.

Lemma quiet_same c c' :
  cl_socket c' = cl_socket c -> cl_outgoing c' = cl_outgoing c -> cl_frames c' = cl_frames c -> cl_writes c' = cl_writes c ->
  cl_waiting c' = cl_waiting c -> cl_pending c' = cl_pending c -> undisturbed c c'.
Proof. intros H1 H2 H3 H4 H5 Hp. unfold undisturbed. rewrite H1, H2, H3, H4, H5, Hp. auto 10. Qed.

Lemma quiet_clear timer c : undisturbed c (clearTimeout timer c).
Proof. destruct timer; [by apply quiet_same | reflexivity]. Qed.

(** Only [f] changes the requests, by leaving some out. *)
Lemma quiet_pending f c :
  (cl_pending c = [] -> f (cl_pending c) = []) -> (forall id p, assoc id (f (cl_pending c)) = Some p -> assoc id (cl_pending c) = Some p) ->
  undisturbed c (with_pending f c).
Proof. intros Hn Hf. unfold undisturbed. split_and!; try done. intros id p H. right. by apply Hf. Qed.

Lemma quiet_delete id c : undisturbed c (with_pending (map_delete id) c).
Proof. apply quiet_pending; [by intros -> | intros x p; apply assoc_map_delete]. Qed.

Lemma quiet_settle id p s c : undisturbed c (settle id p s c).
Proof.
  unfold settle. transitivity (with_pending (map_delete id) c); [apply quiet_delete|].
  transitivity (clearTimeout (p_timer p) (with_pending (map_delete id) c)); [apply quiet_clear | by apply quiet_same].
Qed.

Lemma quiet_queued hold id c : undisturbed c (on_queued hold id c).
Proof.
  destruct id as [| | | |id| |]; try reflexivity. cbn. destruct (assoc id (cl_pending c)) as [p|] eqn:Hp; [|reflexivity].
  destruct (p_queued p); [reflexivity|]. transitivity (clearTimeout (p_timer p) c); [apply quiet_clear|].
  destruct (clear_other (p_timer p) c) as (H1 & _). unfold undisturbed. split_and!; try done.
  - rewrite H1. intros Hc. by rewrite Hc in Hp.
  - intros x q. unfold arm. fields. rewrite assoc_map_set. destruct (str_eqb x id); [|by right]. intros [= <-]. by left.
Qed.

Lemma quiet_line hold line c : undisturbed c (fst (on_response_line hold line c)).
Proof.
  unfold on_response_line. destruct (trim _); [reflexivity|]. destruct (json_parse _) as [resp|].
  - destruct resp; try reflexivity; (destruct (negb _); [apply quiet_queued|]); (destruct (at_key _ "id"); try reflexivity);
      (destruct (assoc _ _); [apply quiet_settle | reflexivity]).
  - destruct (frameIdAtStart line); [|reflexivity]. destruct (assoc _ _); [apply quiet_settle | reflexivity].
Qed.

Lemma quiet_data hold data c : undisturbed c (on_data hold data c).
Proof.
  unfold on_data. destruct (lines_and_rest _) as [lines rest]. revert c. induction lines as [|line lines IH]; intros c; cbn [read_responses]; [by apply quiet_same|].
  pose proof (quiet_line hold line (with_rx (unread lines rest) c)) as Hl. destruct (on_response_line _ _ _) as [c' raised]. cbn [fst] in Hl.
  assert (undisturbed c c') as Hc by (transitivity (with_rx (unread lines rest) c); [by apply quiet_same | done]).
  destruct raised; [done | by transitivity c'].
Qed.

Lemma quiet_fire timer c : undisturbed c (fire timer c).
Proof.
  unfold fire. destruct (List.find _ _) as [[t id]|]; [|reflexivity]. unfold onTimeout.
  transitivity (clearTimeout (Some timer) c); [apply quiet_clear|]. set (c1 := clearTimeout (Some timer) c).
  assert (undisturbed c1 (if bool_decide (frameIdAtStart (cl_rx c1) = Some id) then with_rx [] c1 else c1)) as Hq
    by (case_bool_decide; [by apply quiet_same | reflexivity]).
  set (c2 := if bool_decide _ then _ else _) in *. destruct (assoc id (cl_pending c2)); [|done].
  transitivity c2; [done|]. transitivity (with_pending (map_delete id) c2); [apply quiet_delete | by apply quiet_same].
Qed.

(** *** Writing *)
Lemma of_socket_snoc sock log s b : of_socket sock (log ++ [(s, b)]) = of_socket sock log ++ (if (s =? sock)%nat then b else []).
Proof.
  unfold of_socket. rewrite List.filter_app, map_app, concat_app. f_equal. cbn. destruct (s =? sock)%nat; [apply app_nil_r | done].
Qed.

Lemma unsent_snoc queue w : unsent (queue ++ [w]) = unsent queue ++ drop (w_offset w) (w_data w).
Proof. unfold unsent. rewrite map_app, concat_app. cbn. by rewrite app_nil_r. Qed.

Lemma taken_bound remaining result n : taken remaining result = Ok n -> (n <= length remaining)%nat.
Proof.
  unfold taken. destruct result as [v|]; [|done]. assert (forall (r : res jsstr) f, (s ← r; Throw (f s)) = Ok n -> False) as Hno by (by intros [?|?] f).
  destruct v as [| | |[z| | |]| | |]; try (intros H; by destruct (Hno _ _ H)). destruct (_ || _) eqn:E; [done|]. apply orb_false_iff in E as [H1 H2].
  apply Z.ltb_ge in H1, H2. intros [= <-]. unfold byte_length in H2. lia.
Qed.

(** Bytes go from the queue to the socket. *)
Lemma sent_linked issued used sock b c c' :
  linked issued (Live sock, used) c -> cl_socket c = Some sock -> cl_socket c' = Some sock ->
  cl_frames c' = cl_frames c -> cl_writes c' = cl_writes c ++ [(sock, b)] -> cl_waiting c' = cl_waiting c -> unsent (cl_outgoing c) = b ++ unsent (cl_outgoing c') ->
  covered c' -> linked issued (Live sock, used) c'.
Proof.
  intros [] Hs Hs' Hf Hw Hwait Hu Hc. cbn [fst snd] in *. destruct l_link0 as [Hin [Hnone|[_ Heq]]]; [congruence|].
  assert (framed sock c' = taken_by sock c' ++ unsent (cl_outgoing c')) as Heq'.
  { unfold framed, taken_by in *. rewrite Hf, Hw, of_socket_snoc, Nat.eqb_refl, Heq, Hu. by rewrite app_assoc. }
  split; cbn [fst snd]; try done.
  - intros s. destruct (Nat.eqb_spec sock s) as [->|Hne]; [by eexists|]. destruct (l_prefix0 s) as [rest Hrest]. exists rest.
    unfold framed, taken_by in *. rewrite Hf, Hw, of_socket_snoc. rewrite (proj2 (Nat.eqb_neq _ _)) by done. by rewrite app_nil_r.
  - intros s Hsu. destruct (l_used0 s Hsu) as [H1 H2]. unfold framed, taken_by in *. rewrite Hf, Hw, of_socket_snoc.
    rewrite (proj2 (Nat.eqb_neq _ _)) by (intros ->; done). by rewrite H1, H2.
  - intros s data. rewrite Hf. apply l_frames0.
  - intros r. rewrite Hwait. apply l_waiting0.
  - split; [done|]. by right.
Qed.

Lemma clear_all_link (l : list (jsstr * Pending)) c :
  let c' := foldl (fun c kv => clearTimeout (p_timer (snd kv)) c) c l in
  cl_socket c' = cl_socket c /\ cl_outgoing c' = cl_outgoing c /\ cl_frames c' = cl_frames c /\ cl_writes c' = cl_writes c.
Proof.
  revert c. induction l as [|kv l IH]; intros c; cbn [foldl]; [done|]. destruct (IH (clearTimeout (p_timer (snd kv)) c)) as (-> & -> & -> & ->).
  by destruct (p_timer (snd kv)).
Qed.

(** A client whose requests are all over and whose socket is gone. *)
Lemma down_linked issued l err c c' :
  linked issued l c -> cl_frames c' = cl_frames c -> (forall sock, of_socket sock (cl_writes c') = of_socket sock (cl_writes c)) ->
  cl_socket c' = None -> cl_outgoing c' = [] -> cl_waiting c' = cl_waiting c -> linked issued l (failPending err c') /\ at_rest (failPending err c').
Proof.
  intros [] Hf Hw Hs Ho Hwait.
  assert (cl_socket (failPending err c') = None /\ cl_outgoing (failPending err c') = [] /\ cl_pending (failPending err c') = [] /\
          cl_frames (failPending err c') = cl_frames c /\ cl_writes (failPending err c') = cl_writes c' /\
          cl_waiting (failPending err c') = cl_waiting c) as (E1 & E2 & E3 & E4 & E5 & E6).
  { destruct (clear_all_link (cl_pending c') c') as (H1 & H2 & H3 & H4). destruct (clear_all_other (cl_pending c') c') as (_ & H5 & _).
    unfold failPending. fields. by rewrite H1, H2, H3, H4, H5. }
  assert (at_rest (failPending err c')) as Hr by done. split; [|done]. unfold framed, taken_by in *.
  split; unfold covered, framed, taken_by in *; rewrite ?E1, ?E2, ?E3, ?E4, ?E5, ?E6; try done.
  - intros s. destruct (l_prefix0 s) as [rest Hrest]. exists rest. by rewrite Hw.
  - intros s Hsu. rewrite Hw. by apply l_used0.
  - destruct (fst l); [done | | split; [apply l_link0 | by left]]. rewrite Hw. tauto.
Qed.

Lemma startTimeout_pending x c id p :
  assoc id (cl_pending (startTimeout x c)) = Some p -> p_timer p <> None \/ assoc id (cl_pending c) = Some p /\ (id = x -> p_queued p = true).
Proof.
  unfold startTimeout. destruct (assoc x (cl_pending c)) as [p0|] eqn:Hp0; [|intros H; right; split; [done | congruence]].
  destruct (p_queued p0) eqn:Hq; [intros H; right; split; [done | congruence]|]. unfold arm. fields. rewrite assoc_map_set.
  destruct (str_eqb id x) eqn:E; [intros [= <-]; by left|]. apply str_eqb_neq in E. by right.
Qed.

Lemma requests_In events r : In r (requests events) <-> In (EvRequest r) events.
Proof.
  unfold requests. rewrite <- in_rev. induction events as [|ev events IH]; cbn [omap list_omap In]; [done|].
  destruct ev; cbn [In]; rewrite IH; naive_solver.
Qed.

Section writing.
  Context (write : nat -> bytes -> res jsval) (timeoutMs hold : Z).

Lemma flush_linked issued used sock queue c :
  linked issued (Live sock, used) (with_outgoing queue c) -> cl_socket c = Some sock ->
  linked issued (Live sock, used) (write_queue write sock queue c).
Proof.
  revert c. induction queue as [|w queue IH]; intros c H Hs; cbn [write_queue]; [done|].
  set (remaining := drop (w_offset w) (w_data w)). destruct (taken remaining _) as [n|err] eqn:Ht.
  - apply taken_bound in Ht. assert (length remaining = length (w_data w) - w_offset w)%nat as Hlen by apply length_drop.
    destruct (Nat.ltb_spec (w_offset w + n) (length (w_data w))) as [Hlt|Hge].
    + apply (sent_linked _ _ _ (take n remaining) _ _ H); try done; [|by destruct H].
      fields. unfold unsent. cbn [map concat w_offset w_data]. rewrite app_assoc. f_equal. rewrite <- drop_drop. fold remaining. by rewrite take_drop.
    + assert (take n remaining = remaining) as Hall by (apply take_ge; lia).
      set (c1 := with_outgoing queue (log_write (sock, take n remaining) c)).
      assert (forall c0 id, cl_socket (startTimeout id c0) = cl_socket c0 /\ cl_outgoing (startTimeout id c0) = cl_outgoing c0 /\
                cl_frames (startTimeout id c0) = cl_frames c0 /\ cl_writes (startTimeout id c0) = cl_writes c0 /\ cl_waiting (startTimeout id c0) = cl_waiting c0 /\
                with_outgoing (cl_outgoing c0) (startTimeout id c0) = startTimeout id c0) as Hst.
      { intros c0 id. unfold startTimeout. destruct (assoc id (cl_pending c0)) as [p|]; [destruct (p_queued p)|]; by destruct c0. }
      destruct (Hst c1 (w_id w)) as (E1 & E2 & E3 & E4 & Ew & E5). apply IH; [|by rewrite E1].
      change queue with (cl_outgoing c1). rewrite E5. apply (sent_linked _ _ _ (take n remaining) _ _ H); try (rewrite ?E1, ?E2, ?E3, ?E4, ?Ew; done).
      * rewrite E2, Hall. done.
      * destruct H as [Hcov _ _ _ _]. intros id p. rewrite E2. intros [?|[Hp Hq]]%startTimeout_pending; [by left|].
        destruct (Hcov id p Hp) as [?|[Hq' Hin]]; [by left|]. right. split; [done|]. cbn [cl_outgoing with_outgoing map] in Hin.
        apply elem_of_cons in Hin as [->|Hin]; [|done]. by rewrite Hq in Hq'.
  - apply (down_linked _ _ _ _ _ H); try done. intros s. fields. rewrite of_socket_snoc. destruct (sock =? s)%nat; by rewrite app_nil_r.
Qed.
Lemma flushWrites_linked issued used sock c : linked issued (Live sock, used) c -> linked issued (Live sock, used) (flushWrites write sock c).
Proof.
  intros H. unfold flushWrites. case_bool_decide; [|done]. apply flush_linked; [|done]. by destruct c.
Qed.

(** A request without a socket is refused at once. *)
Lemma quiet_refused r c : cl_socket c = None -> undisturbed c (send_request write timeoutMs r c).
Proof.
  intros Hs. unfold send_request. generalize (operation_timeout timeoutMs (rq_operation r)) as op. intros op.
  generalize (BrokerClientError (js "broker socket is unavailable") "unavailable") as err. intros err. set (p := mkPending _ _ _ _). fields. rewrite Hs.
  unfold settle, undisturbed. cbn [p p_timer clearTimeout]. fields. split_and!; try done.
  - intros ->. unfold map_delete. cbn [map_set List.filter fst]. by rewrite (proj2 (str_eqb_eq _ _) eq_refl).
  - intros id q H. right. destruct (decide (id = rq_id r)) as [->|Hne]; [by rewrite assoc_map_delete_same in H|].
    apply assoc_map_delete in H. rewrite assoc_map_set, (proj2 (str_eqb_neq _ _)) in H by done. done.
Qed.

Lemma send_linked issued used sock r c :
  In r issued -> linked issued (Live sock, used) c -> linked issued (Live sock, used) (send_request write timeoutMs r c).
Proof.
  intros Hr H. destruct (cl_socket c) as [sock'|] eqn:Hs; [|revert H; apply quiet_linked; by apply quiet_refused].
  assert (sock' = sock) as ->. { destruct H. destruct l_link0 as [_ [?|[? _]]]; congruence. }
  unfold send_request. fields. rewrite Hs. apply flushWrites_linked.
  assert (exists data, data = utf8_encode (request_line r)) as [data Hdata] by eauto. rewrite <- Hdata.
  generalize (operation_timeout timeoutMs (rq_operation r)) as op. intros op. destruct H. cbn [fst snd] in *.
  destruct l_link0 as [Hin [?|[_ Heq]]]; [congruence|]. unfold framed, taken_by in *.
  assert (of_socket sock (cl_frames c ++ [(sock, data)]) = of_socket sock (cl_writes c) ++ unsent (cl_outgoing c ++ [mkPendingWrite (rq_id r) data 0])) as Heq'.
  { rewrite of_socket_snoc, Nat.eqb_refl, unsent_snoc, Heq. cbn. by rewrite <- app_assoc. }
  split; unfold covered, framed, taken_by; cbn [fst snd]; fields; try done.
  - intros id p. rewrite assoc_map_set, map_app. cbn [map w_id]. destruct (str_eqb id (rq_id r)) eqn:E.
    + apply str_eqb_eq in E as ->. intros [= <-]. right. split; [done|]. apply elem_of_app. right. apply list_elem_of_here.
    + intros Hp. destruct (l_covered0 id p Hp) as [?|[? ?]]; [by left|]. right. split; [done|]. apply elem_of_app. by left.
  - intros s. destruct (Nat.eqb_spec sock s) as [->|Hne]; [by eexists|]. destruct (l_prefix0 s) as [rest Hrest]. exists rest.
    rewrite of_socket_snoc, (proj2 (Nat.eqb_neq _ _)) by done. by rewrite app_nil_r.
  - intros s Hsu. rewrite of_socket_snoc, (proj2 (Nat.eqb_neq _ _)) by (intros ->; done). rewrite app_nil_r. by apply l_used0.
  - intros s f [Hf|[[= <- <-]|[]]]%in_app_or; [by eapply l_frames0 | by exists r].
  - split; [done|]. by right.
Qed.

Lemma connected_linked issued used sock c :
  linked issued (Opening sock, used) c -> linked issued (Live sock, used) (connected write timeoutMs sock c).
Proof.
  intros H. unfold connected. assert (linked issued (Live sock, used) (with_waiting [] (with_connection (Some sock) false false c))) as H'.
  { destruct H. cbn [fst snd] in *. destruct l_link0 as ((Hs & Hp & Ho) & Hf & Hw & Hin). split; cbn [fst snd]; try done.
    split; [done|]. right. split; [done|]. unfold framed, taken_by in *. fields. by rewrite Hf, Hw, Ho. }
  pose proof (l_waiting _ _ _ H) as Hwait. clear H. revert H'. generalize (with_waiting [] (with_connection (Some sock) false false c)).
  induction (cl_waiting c) as [|r l IH]; intros c0 H; cbn [foldl]; [done|].
  apply IH; [intros r' Hr'; apply Hwait; by right|]. apply send_linked; [apply Hwait; by left | done].
Qed.

Lemma step_linked issued c l l' ev :
  (forall r, ev = EvRequest r -> In r issued) -> link_step c l ev = Some l' -> linked issued l c ->
  linked issued l' (client_step write timeoutMs hold c ev).
Proof.
  intros Hreq Hl H. destruct l as [k used]. destruct ev as [r|sock|sock| |sock data|sock|sock|sock message|timer|]; cbn [client_step link_step fst snd] in *.
  - injection Hl as <-. unfold client_request. destruct (cl_closed c) eqn:Hc; cbn [negb].
    + destruct H. split; unfold covered, framed, taken_by, at_rest in *; fields; try done.
      intros r' [Hr'|[<-|[]]]%in_app_or; [by apply l_waiting0 | by apply Hreq].
    + destruct (cl_socket c) eqn:Hs; [|revert H; apply quiet_linked; by apply quiet_refused].
      destruct k as [|sock|sock]; [| |apply send_linked; auto]; destruct H; cbn in l_link0; unfold at_rest in l_link0; naive_solver.
  - destruct (_ && _) eqn:E; [|done]. injection Hl as <-. apply andb_true_iff in E as [E Hk%bool_decide_eq_true]. apply andb_true_iff in E as [_ Hu].
    apply negb_true_iff, bool_decide_eq_false in Hu. subst k. destruct H. cbn [fst snd] in *. unfold at_rest in l_link0.
    destruct l_link0 as (H1 & H2 & H3), (l_used0 sock Hu) as [H4 H5].
    split; unfold covered, framed, taken_by, at_rest in *; cbn [fst snd]; unfold on_open; fields; try done.
    + intros id p. by rewrite H2.
    + intros s. rewrite not_elem_of_cons. intros [_ Hs]. by apply l_used0.
    + split_and!; try done. apply list_elem_of_here.
  - case_bool_decide; [|done]. injection Hl as <-. subst k. by apply connected_linked.
  - case_bool_decide; [|done]. injection Hl as <-. subst k. unfold connect_failed. cbv zeta. generalize (BrokerClientError (js "broker connection is closed (fail closed)") "unavailable").
    intros err. destruct H. split; unfold covered, framed, taken_by, at_rest in *; cbn [fst snd] in *; fields; done.
  - assert (l' = (k, used)) as -> by (destruct k; [done|..]; destruct (_ =? _)%nat; congruence). revert H. apply quiet_linked, quiet_data.
  - destruct k as [|s|s]; [done|..]; destruct (Nat.eqb_spec s sock) as [->|]; try done; injection Hl as <-; [|by apply flushWrites_linked].
    unfold flushWrites. rewrite bool_decide_eq_false_2; [done|]. destruct H. cbn in l_link0. unfold at_rest in l_link0. naive_solver.
  - assert (l' = (Idle, used)) as -> by (destruct k; [done|..]; destruct (_ =? _)%nat; congruence).
    destruct (down_linked issued (k, used) (BrokerClientError (js "broker socket closed") "unavailable") c
                (with_outgoing [] (with_rx [] (with_connection None true (cl_connecting c) c))) H) as [[] Hr]; try done.
  - assert (l' = (k, used)) as -> by (destruct k; [done|..]; destruct (_ =? _)%nat; congruence). by apply (down_linked _ _ _ _ _ H).
  - injection Hl as <-. revert H. apply quiet_linked, quiet_fire.
  - injection Hl as <-. destruct H. unfold close. split; unfold covered, framed, taken_by, at_rest in *; fields; try done.
    cbn [fst snd] in *. destruct k; naive_solver.
Qed.

(** The events of the sockets come as [link_step] says. *)
Fixpoint timely (c : Client) (l : link * list nat) (events : list client_event) : bool :=
  match events with
  | [] => true
  | ev :: events =>
      match link_step c l ev with Some l' => timely (client_step write timeoutMs hold c ev) l' events | None => false end
  end.

Lemma run_linked issued events c l :
  (forall r, In (EvRequest r) events -> In r issued) -> timely c l events = true -> linked issued l c ->
  exists l', linked issued l' (foldl (client_step write timeoutMs hold) c events).
Proof.
  revert c l. induction events as [|ev events IH]; intros c l Hreq Ht H; cbn [foldl timely] in *; [by exists l|].
  destruct (link_step c l ev) as [l'|] eqn:Hl; [|done].
  apply (IH _ l'); [intros r Hr; apply Hreq; by right | done|]. apply (step_linked _ _ l); [intros r ->; apply Hreq; by left | done | done].
Qed.

Lemma client_linked events :
  timely createBrokerClient (Idle, []) events = true -> exists l, linked (requests events) l (client_run write timeoutMs hold events).
Proof.
  intros Ht. apply (run_linked _ _ _ (Idle, [])); [intros r; apply requests_In | done|].
  split; unfold covered, framed, taken_by, at_rest, createBrokerClient; fields; cbn [fst snd assoc In].
  - done.
  - intros s. by exists [].
  - done.
  - intros s data [].
  - intros r [].
  - done.
Qed.
End writing.

(** ** The properties *)

(** C17: whatever the sockets, the timers and the broker do, each request is
    pending, waiting for the connection or settled, never two of them; it
    settles once; and a response settles it only if it carries its id. *)
Theorem client_settles_once write timeoutMs hold events :
  NoDup (map rq_id (requests events)) ->
  let c := client_run write timeoutMs hold events in
  map rq_id (requests events) ≡ₚ map fst (cl_pending c) ++ map rq_id (cl_waiting c) ++ map fst (cl_settled c) /\
  NoDup (map fst (cl_settled c)) /\
  forall id resp, In (id, Resolved resp) (cl_settled c) -> at_key resp "id" = JStr id.
Proof.
  intros Hn c. destruct (run_sound timeoutMs hold write events Hn) as [Hp Hu Hown _ _ _ _ _ _ _ _ _ _]. split; [exact Hp|]. split; [|exact Hown].
  rewrite Hp in Hu. cbn in Hu. unfold places in Hu. apply NoDup_app in Hu as (_ & _ & Hu). by apply NoDup_app in Hu as (_ & _ & ?).
Qed.

(** A request has at most two deadlines, the one of its operation and, once
    the broker queued it, the one of the hold; exactly the pending requests own
    the armed timers; and when sockets end before the next opens, every pending
    request whose frame is sent has a deadline running. *)
Theorem client_deadlines write timeoutMs hold events :
  NoDup (map rq_id (requests events)) -> timely write timeoutMs hold createBrokerClient (Idle, []) events = true ->
  let c := client_run write timeoutMs hold events in
  (forall r, In r (requests events) ->
     let op := operation_timeout timeoutMs (rq_operation r) in
     deadlines (rq_id r) c ∈ [[]; [op]; [hold + op]; [op; hold + op]]) /\
  (forall t id, In (t, id) (cl_timers c) <-> exists p, assoc id (cl_pending c) = Some p /\ p_timer p = Some t) /\
  (forall id p, assoc id (cl_pending c) = Some p -> id ∉ map w_id (cl_outgoing c) -> exists t, p_timer p = Some t /\ In (t, id) (cl_timers c)).
Proof.
  intros Hn Ht c. pose proof (run_sound timeoutMs hold write events Hn) as Hs. destruct (client_linked write timeoutMs hold events Ht) as [l Hl].
  split; [|split; [apply (s_timers _ _ _ _ _ Hs)|]].
  - intros r Hr op. unfold c. destruct (s_deadlines _ _ _ _ _ Hs r Hr) as [->|[->|[->| ->]]]; unfold op; rewrite !elem_of_cons; auto.
  - intros id p Hp Hout. destruct (l_covered _ _ _ Hl id p Hp) as [Hc|[_ ?]]; [|done]. destruct (p_timer p) as [t|] eqn:Hpt; [|done].
    exists t. split; [done|]. apply (s_timers _ _ _ _ _ Hs). by exists p.
Qed.

(** When sockets end before the next opens, the bytes a socket took are the
    beginning of whole request lines, in the order of the requests, each of a
    request that was made: no frame is torn or taken up on another socket. *)
Theorem client_writes_frames write timeoutMs hold events :
  timely write timeoutMs hold createBrokerClient (Idle, []) events = true ->
  let c := client_run write timeoutMs hold events in
  forall sock, (exists rest, framed sock c = taken_by sock c ++ rest) /\
    forall data, In (sock, data) (cl_frames c) -> exists r, In r (requests events) /\ data = utf8_encode (request_line r).
Proof.
  intros Ht c sock. destruct (client_linked write timeoutMs hold events Ht) as [l Hl]. split; [apply (l_prefix _ _ _ Hl)|].
  intros data. apply (l_frames _ _ _ Hl).
Qed.

(** *** A run *)

(** Every write takes at most 20 bytes. *)
Definition slow_write (k : nat) (remaining : bytes) : res jsval := Ok (jint (Z.min 20 (Z.of_nat (length remaining)))).
Definition sample_request (id : string) (operation : string) : request_args := mkRequest (js id) operation (js "s1") JUndef JUndef.
Definition response (id : string) : bytes :=
  utf8_encode (json_text (JObj [(js "version", jint 1); (js "id", text id); (js "ok", JBool true); (js "result", text "done")]) ++ [10%N]).
Definition queued_notice (id : string) : bytes :=
  utf8_encode (json_text (JObj [(js "version", jint 1); (js "id", text id); (js "progress", JObj [(js "queued", JBool true)])]) ++ [10%N]).

(** Two requests; the second is queued, and times out on hold. *)
Definition sample_client_events : list client_event :=
  [EvOpen 7; EvConnected 7; EvRequest (sample_request "a" "diff"); EvRequest (sample_request "b" "exec"); EvDrain 7; EvDrain 7; EvDrain 7; EvDrain 7;
   EvDrain 7; EvDrain 7; EvDrain 7; EvDrain 7; EvDrain 7; EvDrain 7; EvData 7 (queued_notice "b"); EvData 7 (take 9 (response "a"));
   EvData 7 (drop 9 (response "a")); EvData 7 (queued_notice "b"); EvTimer 2].

Lemma client_settles_once_witness :
  let c := client_run slow_write 30000 600000 sample_client_events in
  cl_settled c = [(js "a", Resolved (JObj [(js "version", jint 1); (js "id", text "a"); (js "ok", JBool true); (js "result", text "done")]));
                  (js "b", Rejected (BrokerClientError (js "broker request 'exec' timed out") "timeout"))] /\
  NoDup (map fst (cl_settled c)).
Proof.
  split; [vm_compute; reflexivity|]. apply (client_settles_once slow_write 30000 600000 sample_client_events).
  apply (bool_decide_unpack _). vm_compute. exact I.
Defined.

Lemma client_deadlines_witness :
  let c := client_run slow_write 30000 600000 (removelast sample_client_events) in
  deadlines (js "a") c = [30000] /\ deadlines (js "b") c = [130000; 730000] /\
  exists t, p_timer (mkPending "exec" (Some 2%nat) 130000 true) = Some t /\ In (t, js "b") (cl_timers c).
Proof.
  split; [vm_compute; reflexivity|]. split; [vm_compute; reflexivity|].
  refine (proj2 (proj2 (client_deadlines slow_write 30000 600000 (removelast sample_client_events) _ _)) (js "b") (mkPending "exec" (Some 2%nat) 130000 true) _ _).
  - apply (bool_decide_unpack _). vm_compute. exact I.
  - vm_compute. reflexivity.
  - vm_compute. reflexivity.
  - vm_compute. apply not_elem_of_nil.
Defined.

Lemma client_writes_frames_witness :
  let c := client_run slow_write 30000 600000 (take 7 sample_client_events) in
  length (taken_by 7 c) = 118%nat /\
  exists rest, framed 7 c = taken_by 7 c ++ rest.
Proof.
  split; [vm_compute; reflexivity|].
  exact (proj1 (client_writes_frames slow_write 30000 600000 (take 7 sample_client_events) ltac:(vm_compute; reflexivity) 7%nat)).
Defined.

(** *** A close that comes late *)

(** The first socket is closed by the client and reports it only when the next
    is in use: the request on the live socket fails, its frame is torn, and the
    response the broker sends is dropped. *)
Definition late_close_events : list client_event :=
  [EvOpen 1; EvConnected 1; EvClientClose; EvRequest (sample_request "b" "gitCommit"); EvOpen 2; EvConnected 2; EvDrain 2; EvClose 1].

Example late_close_fails_live_request :
  let c := client_run slow_write 30000 600000 late_close_events in
  cl_settled c = [(js "b", Rejected (BrokerClientError (js "broker socket closed") "unavailable"))] /\ cl_socket c = None /\
  length (taken_by 2 c) = 40%nat /\ timely slow_write 30000 600000 createBrokerClient (Idle, []) late_close_events = false.
Proof. vm_compute. done. Qed.
