(* ===== verification/RoutingGuard.v ===== *)
(** * The routing guard (opencode/plugins/routing-guard.ts)

    Before every tool of the editor runs, the guard asks the broker: ordinary
    reads go to the sandbox once the session has one, and every other tool needs
    an admission, cached per session.  A hook runs in the steps between its
    awaits; [guard_step] starts a hook or gives one the answer it waits for, so
    that hooks of all sessions interleave.  Ghost: what the broker answered, and
    how the hooks ended. *)
From S2P Require Import Prelude JsVal Json JsOps Path Validation Envelope Worker ReviewArgv SddRuntime PluginValues.
Open Scope Z_scope.

Definition REDIRECT_MSG : jsstr :=
  js "This session has an active isolated workspace. Use sandbox_read/sandbox_grep/sandbox_list so you see the modified sandbox state.".

Definition APPLY_PREVIEW_TOOLS : list jsstr := map js ["applyPreview"; "sandbox_apply_preview"; "hostApplyPreview"]%string.
Definition READ_TOOLS : list jsstr := map js ["read"; "grep"; "glob"; "list"]%string.
Definition STATE_CHANGING_TOOLS : list jsstr :=
  map js ["sandbox_write"; "sandbox_edit"; "sandbox_apply_patch"; "sandbox_bash"; "sandbox_finish"; "sandbox_apply"; "sandbox_discard";
          "sandbox_copy_in"; "sandbox_copy_out"]%string.
Definition READ_PATH_ARGS : list (jsstr * list string) :=
  [(js "read", ["filePath"]%string); (js "grep", ["path"; "pattern"]%string); (js "glob", ["pattern"]%string); (js "list", ["path"]%string)].

(** ** State *)
Record AdmissionReply := mkAdmission { ad_classification : jsstr; ad_decision : jsstr; ad_reason : jsstr }.

Record GuardState := mkGuard { gs_admissionCache : list (jsstr * AdmissionReply); gs_policyCache : option jsval }.

(** A hook between its awaits: it connects, asks the broker, reads or changes
    the caches, or ends. *)
Inductive hook :=
  | Allow
  | Refuse (e : exn)
  | Connect (k : res unit -> hook)
  | Call (operation : string) (sessionID : jsstr) (payload : jsval) (k : res jsval -> hook)
  | Access (update : GuardState -> GuardState) (k : GuardState -> hook).

Definition or_refuse {A} (r : res A) (k : A -> hook) : hook := match r with Ok a => k a | Throw e => Refuse e end.

(** ** Paths *)
(** Is the path, as text, under one of the roots? *)
Fixpoint under_some_root (argPath : jsstr) (roots : list jsval) : res bool :=
  match roots with
  | [] => Ok false
  | JStr root :: roots =>
      let prefix := if endsWith root [SLASH] then root else root ++ [SLASH] in
      if str_eqb argPath root || startsWith argPath prefix then Ok true else under_some_root argPath roots
  | _ :: _ => Throw (type_error "root.endsWith is not a function")
  end.
Definition isExternalApproved (argPath : jsstr) (roots : jsval) : res bool :=
  if negb (isAbsolute argPath) then Ok false
  else match roots with JArr roots => under_some_root argPath roots | _ => Throw (type_error "roots is not iterable") end.

Definition pathArgsFor (toolName : jsstr) (args : jsval) : list jsstr :=
  match assoc toolName READ_PATH_ARGS with Some keys => omap (fun k => string_of (at_key args k)) keys | None => [] end.

(** [targets.every(t => isExternalApproved(t, roots))] *)
Fixpoint every_approved (targets : list jsstr) (roots : jsval) : res bool :=
  match targets with
  | [] => Ok true
  | t :: targets => match isExternalApproved t roots with Ok true => every_approved targets roots | r => r end
  end.

(** ** Admissions *)
Definition cacheKey (sessionID toolName : jsstr) : jsstr := sessionID ++ [0%N] ++ toolName.
Definition clearAdmissionCache (sessionID : jsstr) (g : GuardState) : GuardState :=
  mkGuard (List.filter (fun kv => negb (startsWith (fst kv) (sessionID ++ [0%N]))) (gs_admissionCache g)) (gs_policyCache g).
Definition with_admission (key : jsstr) (a : AdmissionReply) (g : GuardState) : GuardState :=
  mkGuard (map_set key a (gs_admissionCache g)) (gs_policyCache g).

Definition TOOL_ADMISSION_SCHEMA : jsstr := js "opencode-sandbox.tool-admission/v1".
Definition ALLOW : jsstr := js "allow".
Definition DENY : jsstr := js "deny".

(** The admission in a reply of the broker about the tool. *)
Definition read_admission (toolName : jsstr) (reply : jsval) : option AdmissionReply :=
  match reply with
  | JObj _ =>
      if negb (is_text_of (at_key reply "schema") TOOL_ADMISSION_SCHEMA) || negb (is_text_of (at_key reply "tool") toolName) then None else
      match at_key reply "classification", at_key reply "decision", at_key reply "reason" with
      | JStr classification, JStr decision, JStr reason =>
          if str_eqb decision ALLOW || str_eqb decision DENY then Some (mkAdmission classification decision reason) else None
      | _, _, _ => None
      end
  | _ => None
  end.

(** [reason.replace(/[\\r\\n]+/g, " ")]: a run of backslashes, [r]s and [n]s
    becomes a space. *)
Definition replaced_char (c : N) : bool := one_of "\rn" c.
Fixpoint replace_runs (inside : bool) (s : jsstr) : jsstr :=
  match s with
  | [] => []
  | c :: s => if replaced_char c then (if inside then [] else [32%N]) ++ replace_runs true s else c :: replace_runs false s
  end.

Definition denied (a : AdmissionReply) : bool := str_eqb (ad_decision a) DENY || str_eqb (ad_classification a) (js "unclassified").
Definition quoted_tool (toolName : jsstr) : jsstr := js "Tool " ++ [34%N] ++ toolName ++ [34%N].
Definition denial (toolName : jsstr) (a : AdmissionReply) : exn :=
  Exn EError (quoted_tool toolName ++ js " is denied by broker admission (" ++ replace_runs false (ad_reason a)
    ++ js "). Legitimate tools are classified in TOOL_CLASSIFICATION_INVENTORY (broker/src/role-policy.ts); sandbox tools are not affected.").

(** ** The hook *)
Definition keep (g : GuardState) : GuardState := g.

(** [approvedRoots()]: asked once, then cached. *)
Definition approvedRoots (k : jsval -> hook) : hook :=
  Access keep (fun g => match gs_policyCache g with
    | Some roots => k roots
    | None =>
        Connect (fun c => or_refuse c (fun _ => Call "policy" (js "guard") JUndef (fun r => or_refuse (policy ← r; member policy "approvedExternalReadRoots")
          (fun roots => let roots := nullish_or roots (JArr []) in
                        Access (fun g => mkGuard (gs_admissionCache g) (Some roots)) (fun _ => k roots)))))
    end).

Definition is_active (state : jsval) : bool := is_text_of state (js "SANDBOX_ACTIVE") || is_text_of state (js "RESULT_READY").

Definition read_hook (toolName sessionID : jsstr) (args : jsval) : hook :=
  Connect (fun c => or_refuse c (fun _ =>
    Call "workerStatus" sessionID JUndef (fun r =>
      match r with
      | Throw _ => Allow
      | Ok status =>
          or_refuse (member status "state") (fun state =>
            if negb (is_active state) then Allow else
            approvedRoots (fun roots =>
              let targets := pathArgsFor toolName args in
              match targets with
              | [] => Refuse (Exn EError REDIRECT_MSG)
              | _ => or_refuse (every_approved targets roots) (fun approved => if approved then Allow else Refuse (Exn EError REDIRECT_MSG))
              end))
      end))).

Definition decide_admission (toolName : jsstr) (a : AdmissionReply) : hook := if denied a then Refuse (denial toolName a) else Allow.

Definition admission_hook (toolName sessionID : jsstr) : hook :=
  Access keep (fun g => match assoc (cacheKey sessionID toolName) (gs_admissionCache g) with
    | Some a => decide_admission toolName a
    | None =>
        Connect (fun c => or_refuse c (fun _ => Call "toolAdmission" sessionID (JObj [(js "tool", JStr toolName)]) (fun r => or_refuse r (fun reply =>
          match read_admission toolName reply with
          | None => Refuse (Exn EError (quoted_tool toolName ++ js " broker admission returned a malformed reply."))
          | Some a => Access (with_admission (cacheKey sessionID toolName) a) (fun _ => decide_admission toolName a)
          end))))
    end).

(** [tool.execute.before] *)
Definition before_tool (toolName sessionID : jsstr) (args : jsval) : hook :=
  if mem toolName APPLY_PREVIEW_TOOLS then Allow
  else if mem toolName READ_TOOLS then read_hook toolName sessionID args
  else if startsWith toolName (js "sandbox_") then
    if mem toolName STATE_CHANGING_TOOLS then Access (clearAdmissionCache sessionID) (fun _ => Allow) else Allow
  else admission_hook toolName sessionID.

(** ** Interleavings *)
Record guard_call := mkCall { gc_tool : jsstr; gc_session : jsstr; gc_args : jsval }.

(** A question of the broker and its answer. *)
Record broker_answer := mkAnswer { ba_operation : string; ba_session : jsstr; ba_payload : jsval; ba_answer : res jsval }.

Record Guard := mkWorld {
  gw_state : GuardState;
  gw_running : list (guard_call * hook);
  gw_answers : list (guard_call * broker_answer);
  gw_ended : list (guard_call * res unit)
}.

(** A hook up to its next await. *)
Fixpoint advance (g : GuardState) (h : hook) : GuardState * hook :=
  match h with
  | Access update k => let g := update g in advance g (k g)
  | _ => (g, h)
  end.

Inductive guard_event :=
  | Begin (call : guard_call)
  | Connected (i : nat) (r : res unit)
  | Answered (i : nat) (r : res jsval).

(** A hook goes on: it waits again or ends. *)
Definition resume (call : guard_call) (h : hook) (w : Guard) : Guard :=
  let '(g, h) := advance (gw_state w) h in
  match h with
  | Allow => mkWorld g (gw_running w) (gw_answers w) (gw_ended w ++ [(call, Ok tt)])
  | Refuse e => mkWorld g (gw_running w) (gw_answers w) (gw_ended w ++ [(call, Throw e)])
  | _ => mkWorld g (gw_running w ++ [(call, h)]) (gw_answers w) (gw_ended w)
  end.
Definition without (i : nat) (w : Guard) : Guard := mkWorld (gw_state w) (list_delete i (gw_running w)) (gw_answers w) (gw_ended w).
Definition hear (call : guard_call) (a : broker_answer) (w : Guard) : Guard :=
  mkWorld (gw_state w) (gw_running w) (gw_answers w ++ [(call, a)]) (gw_ended w).

Definition guard_step (w : Guard) (ev : guard_event) : Guard :=
  match ev with
  | Begin call => resume call (before_tool (gc_tool call) (gc_session call) (gc_args call)) w
  | Connected i r => match gw_running w !! i with Some (call, Connect k) => resume call (k r) (without i w) | _ => w end
  | Answered i r =>
      match gw_running w !! i with
      | Some (call, Call operation sessionID payload k) =>
          resume call (k r) (hear call (mkAnswer operation sessionID payload r) (without i w))
      | _ => w
      end
  end.

Definition new_guard : Guard := mkWorld (mkGuard [] None) [] [] [].
Definition guard_run (events : list guard_event) : Guard := foldl guard_step new_guard events.

(** ** The rule in the system prompt *)
Definition ROUTING_RULE : list string :=
  [EmptyString;
   "## Sandbox routing rule (enforced by the routing guard plugin)";
   "- Before any project modification or execution, you may READ the host project freely (HOST_READ_ONLY).";
   "- The FIRST sandbox tool use (read, write, edit, patch, or command) activates this session's isolated sandbox worker.";
   "- After activation, ALL project reads must use sandbox_read / sandbox_list / sandbox_grep. Ordinary read/grep/glob/list on project paths are blocked.";
   "- All project edits and arbitrary commands run inside the sandbox worker. The host working tree remains unchanged.";
   "- You may still read approved external reference roots on the host (S6).";
   "- NEVER attempt host mutation (bash/edit/write outside the sandbox). Host changes require explicit user action.";
   "- To finish: sandbox_finish, then sandbox_apply (requires user approval). sandbox_discard abandons the result.";
   EmptyString;
   "## Sandbox tool contract";
   "- Reads: use the PLAIN host read/grep tools BEFORE activation (HOST_READ_ONLY). sandbox_read / sandbox_list / sandbox_grep need an ACTIVE worker and fail pre-activation - never call them first.";
   "- All sandbox_* file paths are RELATIVE to the project root (e.g. broker/src/service.ts) - never absolute (/work/...).";
   "- The FIRST mutation or execution (sandbox_write / sandbox_edit / sandbox_apply_patch / sandbox_bash) activates the worker. After activation, ALL project reads, writes and execution use the sandbox tools.";
   "- sandbox_bash is NOT a shell: argv only - no pipes, redirects, globs, &&, ;, or $(). Use it ONLY for read-only commands; never for file modification or git apply/reset/checkout.";
   "- sandbox_finish exports the result; sandbox_apply presents the diff, REQUIRES human approval, blocks until the user responds (expected), then applies. One apply per session.";
   "- sandbox_discard abandons the result. Host bash/edit/write are guard-blocked (S1/S10) - never attempt them.";
   EmptyString]%string.
Definition guard_system (system : list jsstr) : list jsstr := system ++ [join_with [10%N] (map js ROUTING_RULE)].

(** ** Theorems of the routing guard

    In every interleaving of hooks a tool runs only for a reason the broker
    gave; and what the reasons do not promise. *)
Local Abbreviation answers := (list (guard_call * broker_answer)).

(** ** The reasons *)

(** The roots the broker's policy names. *)
Definition policy_roots (heard : answers) (roots : jsval) : Prop :=
  exists c policy, In (c, mkAnswer "policy" (js "guard") JUndef (Ok policy)) heard /\
    roots = nullish_or (at_key policy "approvedExternalReadRoots") (JArr []).

(** What the broker said of the tool in the session. *)
Definition admitted (heard : answers) (sessionID toolName : jsstr) (a : AdmissionReply) : Prop :=
  exists c reply, In (c, mkAnswer "toolAdmission" sessionID (JObj [(js "tool", JStr toolName)]) (Ok reply)) heard /\
    read_admission toolName reply = Some a.

(** A host read: the broker could not tell the state of the session, or the
    session has no sandbox yet, or every path is under an approved root. *)
Definition read_allowed (heard : answers) (call : guard_call) : Prop :=
  exists r, In (call, mkAnswer "workerStatus" (gc_session call) JUndef r) heard /\
    match r with
    | Throw _ => True
    | Ok status => is_active (at_key status "state") = false \/
        exists roots, policy_roots heard roots /\ pathArgsFor (gc_tool call) (gc_args call) <> [] /\
          Forall (fun t => isExternalApproved t roots = Ok true) (pathArgsFor (gc_tool call) (gc_args call))
    end.

Definition reason_for (heard : answers) (call : guard_call) : Prop :=
  let tool := gc_tool call in
  if mem tool APPLY_PREVIEW_TOOLS then True
  else if mem tool READ_TOOLS then read_allowed heard call
  else if startsWith tool (js "sandbox_") then True
  else exists a, admitted heard (gc_session call) tool a /\ denied a = false.

(** The caches hold what the broker said. *)
Definition caches_ok (heard : answers) (g : GuardState) : Prop :=
  (forall key a, In (key, a) (gs_admissionCache g) -> exists sessionID toolName, key = cacheKey sessionID toolName /\ 0%N ∉ sessionID /\
     admitted heard sessionID toolName a) /\
  (forall roots, gs_policyCache g = Some roots -> policy_roots heard roots).

(** Wherever the hook goes on, it ends with a reason or refuses. *)
Fixpoint good (call : guard_call) (heard : answers) (h : hook) : Prop :=
  match h with
  | Allow => reason_for heard call
  | Refuse _ => True
  | Connect k => forall r heard', heard ⊆ heard' -> good call heard' (k r)
  | Call operation sessionID payload k =>
      forall r heard', heard ⊆ heard' -> In (call, mkAnswer operation sessionID payload r) heard' -> good call heard' (k r)
  | Access update k =>
      forall g heard', heard ⊆ heard' -> caches_ok heard' g -> caches_ok heard' (update g) /\ good call heard' (k (update g))
  end.

(** ** More answers keep the reasons *)
Lemma In_mono (heard heard' : answers) e : heard ⊆ heard' -> In e heard -> In e heard'.
Proof. intros Hs Hi. apply list_elem_of_In, Hs, list_elem_of_In, Hi. Qed.

Lemma reason_mono heard heard' call : heard ⊆ heard' -> reason_for heard call -> reason_for heard' call.
Proof.
  intros Hs. unfold reason_for. cbv zeta. destruct (mem _ APPLY_PREVIEW_TOOLS); [done|]. destruct (mem _ READ_TOOLS).
  - intros (r & Hr & H). exists r. split; [by eapply In_mono|]. destruct r as [status|e]; [|done].
    destruct H as [H|(roots & (c & policy & Hp & Hroots) & H1 & H2)]; [by left|]. right. exists roots. split; [|done]. exists c, policy.
    split; [by eapply In_mono | done].
  - destruct (startsWith _ _); [done|]. intros (a & (c & reply & Hin & Ha) & Hd). exists a. split; [|done]. exists c, reply. split; [by eapply In_mono | done].
Qed.

Lemma good_mono call heard heard' h : heard ⊆ heard' -> good call heard h -> good call heard' h.
Proof.
  intros Hs. destruct h; cbn; [by apply reason_mono | done | | |]; intros H; intros; apply H; try done; by transitivity heard'.
Qed.

Lemma caches_mono heard heard' g : heard ⊆ heard' -> caches_ok heard g -> caches_ok heard' g.
Proof.
  intros Hs [Ha Hp]. split.
  - intros key a Hin. destruct (Ha key a Hin) as (s & t & -> & Hs0 & c & reply & Hc & Hr). exists s, t. split; [done|]. split; [done|].
    exists c, reply. split; [by eapply In_mono | done].
  - intros roots Hr. destruct (Hp roots Hr) as (c & policy & Hc & ->). exists c, policy. split; [by eapply In_mono | done].
Qed.

(** ** The hooks *)
Lemma or_refuse_good {A} call heard (r : res A) k : (forall a, r = Ok a -> good call heard (k a)) -> good call heard (or_refuse r k).
Proof. destruct r; cbn; auto. Qed.

Lemma member_Ok v k x : member v k = Ok x -> x = at_key v k.
Proof. unfold member. destruct (is_nullish v); [done | by intros [= <-]]. Qed.

Lemma approvedRoots_good call heard k :
  (forall roots heard', heard ⊆ heard' -> policy_roots heard' roots -> good call heard' (k roots)) -> good call heard (approvedRoots k).
Proof.
  intros Hk g heard1 H1 [Ha Hp]. split; [done|]. unfold keep. destruct (gs_policyCache g) as [roots|] eqn:Hg; [by apply Hk; [|apply Hp]|].
  intros r heard2 H2. apply or_refuse_good. intros _ _ r' heard3 H3 Hin. apply or_refuse_good. intros roots Hr.
  apply res_bind_Ok in Hr as (policy & -> & Hr). apply member_Ok in Hr as ->. intros g' heard4 H4 [Ha' Hp'].
  assert (policy_roots heard4 (nullish_or (at_key policy "approvedExternalReadRoots") (JArr []))) as Hroots.
  { exists call, policy. split; [by eapply In_mono | done]. }
  split; [split; [done | by intros roots [= <-]]|]. apply Hk; [|done]. by transitivity heard1; [|transitivity heard2; [|transitivity heard3]].
Qed.

Lemma every_approved_true targets roots :
  every_approved targets roots = Ok true -> Forall (fun t => isExternalApproved t roots = Ok true) targets.
Proof.
  induction targets as [|t targets IH]; cbn [every_approved]; [constructor|]. destruct (isExternalApproved t roots) as [[]|] eqn:E; try done.
  intros H. constructor; [done | by apply IH].
Qed.

Lemma read_hook_good call :
  mem (gc_tool call) APPLY_PREVIEW_TOOLS = false -> mem (gc_tool call) READ_TOOLS = true ->
  good call [] (read_hook (gc_tool call) (gc_session call) (gc_args call)).
Proof.
  intros Hp Hr r heard1 _. apply or_refuse_good. intros _ _ r2 heard2 H2 Hin.
  assert (forall heard, heard2 ⊆ heard -> read_allowed heard call -> good call heard Allow) as Hallow.
  { intros heard _ H. cbn. unfold reason_for. by rewrite Hp, Hr. }
  destruct r2 as [status|e]; [|apply Hallow; [done|]; by exists (Throw e)].
  apply or_refuse_good. intros state ->%member_Ok. destruct (is_active _) eqn:Hact; cbn [negb]; [|apply Hallow; [done|]; exists (Ok status); auto].
  apply approvedRoots_good. intros roots heard3 H3 Hroots. destruct (pathArgsFor _ _) as [|t targets] eqn:Ht; [done|].
  apply or_refuse_good. intros [] Ha; [|done]. apply every_approved_true in Ha. apply Hallow; [done|].
  exists (Ok status). split; [by eapply In_mono|]. right. exists roots. rewrite Ht. done.
Qed.

Lemma cacheKey_inj s t s' t' : 0%N ∉ s -> 0%N ∉ s' -> cacheKey s t = cacheKey s' t' -> s = s' /\ t = t'.
Proof.
  unfold cacheKey. revert s'. induction s as [|c s IH]; intros [|c' s']; cbn; rewrite ?not_elem_of_cons.
  - by intros _ _ [= ->].
  - intros _ [Hc _] [= <- _]. done.
  - intros [Hc _] _ [= -> _]. done.
  - intros [_ Hs] [_ Hs'] [= -> H]. by destruct (IH s' Hs Hs' H) as [-> ->].
Qed.

Lemma map_set_In {A} k (v : A) m k' v' : In (k', v') (map_set k v m) -> (k', v') = (k, v) \/ In (k', v') m.
Proof.
  induction m as [|[a b] m IH]; cbn [map_set In]; [intros [<-|[]]; by left|]. destruct (str_eqb k a); cbn [In].
  - intros [<-|H]; auto.
  - intros [<-|H]; [auto|]. destruct (IH H) as [->|?]; auto.
Qed.

Lemma admission_hook_good call :
  0%N ∉ gc_session call -> mem (gc_tool call) APPLY_PREVIEW_TOOLS = false -> mem (gc_tool call) READ_TOOLS = false ->
  startsWith (gc_tool call) (js "sandbox_") = false -> good call [] (admission_hook (gc_tool call) (gc_session call)).
Proof.
  intros H0 Hp Hr Hsb.
  assert (forall heard a, admitted heard (gc_session call) (gc_tool call) a -> good call heard (decide_admission (gc_tool call) a)) as Hd.
  { intros heard a Ha. unfold decide_admission. destruct (denied a) eqn:E; [done|]. cbn. unfold reason_for. rewrite Hp, Hr, Hsb. by exists a. }
  intros g heard1 _ Hg. split; [done|]. unfold keep. destruct (assoc _ _) as [a|] eqn:Ha.
  - apply Hd. apply assoc_Some_In, list_elem_of_In in Ha. destruct (proj1 Hg _ _ Ha) as (s & t & Hk & Hs & Hadm).
    by apply cacheKey_inj in Hk as [-> ->].
  - intros r heard2 H2. apply or_refuse_good. intros _ _ r' heard3 H3 Hin. apply or_refuse_good. intros reply ->.
    destruct (read_admission _ reply) as [a|] eqn:Hread; [|done]. intros g' heard4 H4 [Hca Hcp].
    assert (admitted heard4 (gc_session call) (gc_tool call) a) as Hadm by (exists call, reply; split; [by eapply In_mono | done]).
    split; [|by apply Hd]. split; [|done]. intros key x [[= -> ->]|Hin']%map_set_In; [by exists (gc_session call), (gc_tool call) | by apply Hca].
Qed.

Lemma before_tool_good call : 0%N ∉ gc_session call -> good call [] (before_tool (gc_tool call) (gc_session call) (gc_args call)).
Proof.
  intros H0. unfold before_tool. destruct (mem _ APPLY_PREVIEW_TOOLS) eqn:Hp; [cbn; unfold reason_for; by rewrite Hp|].
  destruct (mem _ READ_TOOLS) eqn:Hr; [by apply read_hook_good|]. destruct (startsWith _ _) eqn:Hs; [|by apply admission_hook_good].
  assert (forall heard, good call heard Allow) as Hallow by (intros heard; cbn; unfold reason_for; by rewrite Hp, Hr, Hs).
  destruct (mem _ STATE_CHANGING_TOOLS); [|done]. intros g heard1 _ [Ha Hpol]. split; [|done]. split; [|done].
  intros key a Hin. unfold clearAdmissionCache in Hin. cbn in Hin. apply filter_In in Hin as [Hin _]. by apply Ha.
Qed.

(** ** Runs *)
Record world_ok (w : Guard) : Prop := {
  g_caches : caches_ok (gw_answers w) (gw_state w);
  g_running call h : In (call, h) (gw_running w) -> good call (gw_answers w) h;
  g_ended call : In (call, Ok tt) (gw_ended w) -> reason_for (gw_answers w) call
}.

Lemma advance_good call heard g h :
  caches_ok heard g -> good call heard h -> caches_ok heard (fst (advance g h)) /\ good call heard (snd (advance g h)).
Proof.
  revert g. induction h as [| | | |update k IH]; intros g Hg Hh; cbn; try done.
  destruct (Hh g heard (fun _ H => H) Hg) as [Hg' Hk]. by apply IH.
Qed.

Lemma resume_guarded call h w : world_ok w -> good call (gw_answers w) h -> world_ok (resume call h w).
Proof.
  intros [] Hh. unfold resume. destruct (advance_good call (gw_answers w) (gw_state w) h g_caches0 Hh) as [Hg Hk].
  destruct (advance (gw_state w) h) as [g h']. cbn [fst snd] in *.
  destruct h'; (split; cbn; [exact Hg | intros c0 h0 Hin | intros c0 Hin]);
    repeat (match type of Hin with In _ (_ ++ _) => apply in_app_or in Hin; destruct Hin as [Hin|[Hin|[]]] end);
    solve [by apply g_running0 | by apply g_ended0 | injection Hin as <- <-; exact Hk | injection Hin as <-; exact Hk | congruence].
Qed.

Lemma without_guarded i w : world_ok w -> world_ok (without i w).
Proof.
  intros []. split; cbn; try done. intros call h Hin. apply g_running0. apply list_elem_of_In. apply list_elem_of_In in Hin.
  by apply (sublist_subseteq _ _ (sublist_delete _ _)) in Hin.
Qed.

Lemma step_guarded w ev : (forall call, ev = Begin call -> 0%N ∉ gc_session call) -> world_ok w -> world_ok (guard_step w ev).
Proof.
  intros Hs H. destruct ev as [call|i r|i r]; cbn [guard_step].
  - apply resume_guarded; [done|]. apply (good_mono _ []); [apply list_subseteq_nil | by apply before_tool_good, Hs].
  - destruct (gw_running w !! i) as [[call []]|] eqn:Hi; try done. apply resume_guarded; [by apply without_guarded|].
    apply list_elem_of_lookup_2, list_elem_of_In in Hi. by apply (g_running w H _ _ Hi).
  - destruct (gw_running w !! i) as [[call []]|] eqn:Hi; try done. set (a := mkAnswer _ _ _ _).
    apply list_elem_of_lookup_2, list_elem_of_In in Hi. pose proof (g_running w H _ _ Hi) as Hk.
    assert (gw_answers w ⊆ gw_answers w ++ [(call, a)]) as Hsub by (apply list_subseteq_app_l, list_subseteq_refl || (intros x Hx; apply elem_of_app; by left)).
    apply resume_guarded; [|apply Hk; [done | apply in_or_app; right; by left]].
    destruct (without_guarded i w H). split; cbn in *; [by eapply caches_mono | |]; intros; eapply good_mono || eapply reason_mono; eauto.
Qed.

Lemma run_guarded events : (forall call, In (Begin call) events -> 0%N ∉ gc_session call) -> world_ok (guard_run events).
Proof.
  unfold guard_run. induction events as [|ev events IH] using rev_ind; intros Hs.
  - split; cbn; try done.
  - rewrite foldl_app. cbn [foldl]. apply step_guarded; [|apply IH; intros call Hin; apply Hs, in_or_app; by left].
    intros call ->. apply Hs, in_or_app. right. by left.
Qed.


(** *** Runs *)
Definition read_call (tool path : string) (k : string) : guard_call := mkCall (js tool) (js "s1") (JObj [(js k, text path)]).
Definition active_session : list guard_event :=
  [Connected 0 (Ok tt); Answered 0 (Ok (JObj [(js "state", text "SANDBOX_ACTIVE")])); Connected 0 (Ok tt);
   Answered 0 (Ok (JObj [(js "approvedExternalReadRoots", JArr [text "/ref"])]))].

(** A read of an approved root, and a tool admitted for the session that runs
    again without asking. *)
Definition sample_hooks : list guard_event :=
  Begin (read_call "read" "/ref/a.md" "filePath") :: active_session ++
  [Begin (mkCall (js "task") (js "s1") (JObj [])); Connected 0 (Ok tt);
   Answered 0 (Ok (JObj [(js "schema", JStr TOOL_ADMISSION_SCHEMA); (js "tool", text "task"); (js "classification", text "delegation");
                         (js "decision", JStr ALLOW); (js "reason", text "ok")]));
   Begin (mkCall (js "task") (js "s1") (JObj []))].


(** ** What the reasons do not promise *)

(** An answer that does not come in time lets the read of an active session
    through. *)
Example status_timeout_allows :
  map snd (gw_ended (guard_run [Begin (read_call "read" "/work/p/a.ts" "filePath"); Connected 0 (Ok tt);
    Answered 0 (Throw (Exn (ECoded (js "timeout")) (js "broker request 'workerStatus' timed out")))])) = [Ok tt].
Proof. vm_compute. reflexivity. Qed.

(** An approved root is left through dot-dot. *)
Example approved_root_escaped :
  map snd (gw_ended (guard_run (Begin (read_call "read" "/ref/../work/p/a.ts" "filePath") :: active_session))) = [Ok tt].
Proof. vm_compute. reflexivity. Qed.

(** The pattern of a grep counts as a path, so a grep of an approved root is
    refused. *)
Example external_grep_refused :
  gw_ended (guard_run (Begin (mkCall (js "grep") (js "s1") (JObj [(js "path", text "/ref"); (js "pattern", text "TODO")])) :: active_session))
  = [(mkCall (js "grep") (js "s1") (JObj [(js "path", text "/ref"); (js "pattern", text "TODO")]), Throw (Exn EError REDIRECT_MSG))].
Proof. vm_compute. reflexivity. Qed.

(** The reason of a denial loses letters instead of line breaks. *)
Example reason_loses_letters : replace_runs false (js "not in role" ++ [10%N] ++ js "matrix") = js " ot i   ole" ++ [10%N] ++ js "mat ix".
Proof. reflexivity. Qed.
