(* ===== verification/RegisterProject.v ===== *)
(** * Registering a project (scripts/register-project.ts)

    The operator's script: it checks the paths, sets up git and GitHub, and adds
    the project to the nono profile, the broker's environment and the launcher.
    The state is the files and what the script did so far; a step of the file
    system may fail ([denied]), and the programs it runs ([git], [gh]) answer
    what they like and may change the files ([execFile]).  Paths name files by
    their normalized text: symbolic links are not modelled. *)
From S2P Require Import Prelude JsVal Json JsOps Path GitOps Envelope Validation Worker ReviewArgv SddRuntime PluginValues FileOps FileOpsFacts.
Open Scope Z_scope.

(** ** Files and actions *)
Record Files := mkFiles { fl_files : gmap jsstr (jsstr * Z); fl_dirs : gset jsstr }.

Inductive action :=
  | WriteFile (file content : jsstr) (mode : option Z)
  | Chmod (file : jsstr) (mode : Z)
  | Rename (source target : jsstr)
  | MakeDir (dir : jsstr)
  | Exec (cmd : string) (args : list jsstr) (cwd : jsstr).

Record state := mkState { st_files : Files; st_done : list action }.

Definition M (A : Type) : Type := state -> res A * state.
#[export] Instance script_ret : MRet M := fun A a s => (Ok a, s).
#[export] Instance script_bind : MBind M := fun A B f m s =>
  match m s with (Ok a, s) => f a s | (Throw e, s) => (Throw e, s) end.
Definition of_res {A} (r : res A) : M A := fun s => (r, s).

(** The options of a run. *)
Record options := mkOptions { DRY_RUN : bool; CREATE_REMOTE : bool; PUBLIC_REPO : bool }.

Section script.
  Context (HOME cwd PROFILE_PATH LAUNCHER_PATH pid : jsstr).
  Context (denied : list action -> action -> option exn).
  Context (execFile : list action -> Files -> string -> list jsstr -> jsstr -> option jsstr * Files).

Definition BROKER_ENV_PATH : jsstr := join [HOME; js ".config"; js "opencode-sandbox"; js "broker.env"].

Definition at_path (p : jsstr) : jsstr := resolve1 cwd p.
Definition file_of (p : jsstr) (fs : Files) : option (jsstr * Z) := fl_files fs !! at_path p.
Definition is_dir (p : jsstr) (fs : Files) : bool := bool_decide (at_path p ∈ fl_dirs fs).
Definition exists_in (p : jsstr) (fs : Files) : bool := bool_decide (is_Some (file_of p fs)) || is_dir p fs.

Definition existsSync (p : jsstr) : M bool := fun s => (Ok (exists_in p (st_files s)), s).
Definition isDirectory (p : jsstr) : M bool := fun s => (Ok (is_dir p (st_files s)), s).
Definition not_found (p : jsstr) : exn := Exn (ECoded (js "ENOENT")) (js "ENOENT: no such file or directory, open '" ++ p ++ js "'").
Definition readFileSync (p : jsstr) : M jsstr := fun s =>
  (match file_of p (st_files s) with Some (content, _) => Ok content | None => Throw (not_found p) end, s).
Definition file_mode (p : jsstr) : M Z := fun s =>
  (match file_of p (st_files s) with Some (_, bits) => Ok (Z.land bits 511) | None => Throw (not_found p) end, s).

(** A step of the file system, which may be refused. *)
Definition change (a : action) (effect : Files -> Files) : M unit := fun s =>
  match denied (st_done s) a with
  | Some e => (Throw e, mkState (st_files s) (st_done s ++ [a]))
  | None => (Ok tt, mkState (effect (st_files s)) (st_done s ++ [a]))
  end.
Definition put_file (p : jsstr) (content : jsstr) (mode : Z) (fs : Files) : Files :=
  mkFiles (<[at_path p := (content, mode)]> (fl_files fs)) (fl_dirs fs).
Definition writeFileSync (p content : jsstr) (mode : option Z) : M unit :=
  change (WriteFile p content mode) (fun fs =>
    put_file p content (match file_of p fs with Some (_, old) => old | None => default 420 mode end) fs).
Definition chmodSync (p : jsstr) (mode : Z) : M unit :=
  change (Chmod p mode) (fun fs => match file_of p fs with Some (content, _) => put_file p content mode fs | None => fs end).
Definition renameSync (a b : jsstr) : M unit :=
  change (Rename a b) (fun fs => match fl_files fs !! at_path a with
    | Some node => mkFiles (<[at_path b := node]> (delete (at_path a) (fl_files fs))) (fl_dirs fs)
    | None => fs
    end).
Definition mkdirSync (p : jsstr) : M unit := change (MakeDir p) (fun fs => mkFiles (fl_files fs) ({[at_path p]} ∪ fl_dirs fs)).

Definition atomicWrite (file content : jsstr) (mode : option Z) : M unit :=
  let tmp := file ++ js ".tmp-" ++ pid in
  _ ← writeFileSync tmp content mode;
  _ ← match mode with Some bits => chmodSync tmp bits | None => mret tt end;
  renameSync tmp file.

(** ** Projects *)
Definition FLAGS : list jsstr := map js ["--dry-run"; "--create-remote"; "--public"]%string.

Definition isUnder (path root : jsstr) : bool := str_eqb path root || startsWith path (root ++ [SLASH]).

Definition banned : list jsstr :=
  map (fun d => join [HOME; js d]) [".ssh"; ".config"; ".local"; ".cache"; ".gnupg"; ".aws"; ".kube"]%string
  ++ map js ["/etc"; "/usr"; "/var"; "/tmp"]%string.

(** The reason a path is refused. *)
Definition validateProject (path : jsstr) : M (option jsstr) :=
  if negb (isAbsolute path) then mret (Some (js "not an absolute path: " ++ path)) else
  found ← existsSync path;
  if negb found then mret (Some (js "does not exist: " ++ path)) else
  directory ← isDirectory path;
  if negb directory then mret (Some (js "not a directory: " ++ path)) else
  if str_eqb path [SLASH] || str_eqb path HOME
  then mret (Some (js "refusing to register the filesystem root or $HOME itself: " ++ path)) else
  mret (match List.find (isUnder path) banned with
        | Some root => Some (js "refusing to register a path under " ++ root ++ js ": " ++ path)
        | None => None
        end).

(** [/^[a-z][a-z0-9._-]{0,63}$/] *)
Definition id_char (c : N) : bool := is_lower c || is_digit c || one_of "._-" c.
Definition PROJECT_ID_RE (s : jsstr) : bool := match s with c :: s' => is_lower c && re_class id_char 0 63 s' | [] => false end.

Definition numbered (n : nat) : jsstr := js "project-" ++ dec (Z.of_nat n).
(** The first free number from [n]. *)
Fixpoint free_number (fuel n : nat) (used : list jsstr) : nat :=
  match fuel with
  | O => n
  | S fuel => if mem (numbered n) used then free_number fuel (S n) used else n
  end.
Definition deriveProjectId (path : jsstr) (used : list jsstr) : jsstr :=
  let base := List.filter id_char (toLowerCase (basename path)) in
  if PROJECT_ID_RE base && negb (mem base used) then base else numbered (free_number (length used) 1 used).

(** ** The profile *)
Definition SKIPPED_JSON : jsstr := js "skipped (profile is not valid JSON)".
Definition ADDED : jsstr := js "added".
Definition REGISTERED : jsstr := js "already registered".

(** [v.k = x] of a value that JSON.parse made. *)
Definition set_field (v : jsval) (k : string) (x : jsval) : res jsval :=
  match v with
  | JObj fields => Ok (JObj (set_key (js k) x fields))
  | JArr _ => Ok v
  | _ => Throw (type_error ("Cannot set property " ++ k))
  end.
Definition holds_text (xs : list jsval) (s : jsstr) : bool := existsb (fun v => is_text_of v s) xs.
Definition write_profile (profilePath : jsstr) (profile : jsval) : M unit :=
  atomicWrite profilePath (json_indented profile ++ [10%N]) None.

Definition updateProfile (o : options) (path : jsstr) : M jsstr := fun s =>
  match file_of PROFILE_PATH (st_files s) ≫= fun node => json_parse (fst node) with
  | None => (Ok SKIPPED_JSON, s)
  | Some profile =>
      (filesystem ← of_res (member profile "filesystem");
       match at_key filesystem "read" with
       | JArr read =>
           if holds_text read path then mret REGISTERED else
           _ ← (if DRY_RUN o then mret tt else
                filesystem ← of_res (set_field filesystem "read" (JArr (read ++ [JStr path])));
                profile ← of_res (set_field profile "filesystem" filesystem);
                write_profile PROFILE_PATH profile);
           mret ADDED
       | _ => mret (js "skipped (profile has no filesystem.read)")
       end : M jsstr) s
  end.

(** An entry of a list of [filesystem], which is made when it is not there. *)
Definition grant_entry (o : options) (profilePath : jsstr) (profile : jsval) (k : string) (entry present : jsstr) : M jsstr :=
  found ← of_res (member profile "filesystem");
  let filesystem := if is_undef found then JObj [] else found in
  profile ← of_res (if is_undef found then set_field profile "filesystem" filesystem else Ok profile);
  list ← of_res (member filesystem k);
  let add entries :=
    if DRY_RUN o then mret (js "would add " ++ entry) else
    filesystem ← of_res (set_field filesystem k (JArr entries));
    profile ← of_res (set_field profile "filesystem" filesystem);
    _ ← write_profile profilePath profile;
    mret ADDED in
  match list with
  | JArr entries => if holds_text entries entry then mret present else add (entries ++ [JStr entry])
  | _ => add [JStr entry]
  end.

(** [appendAllowGrant] and the grant of the history file; [None] when the
    profile cannot be read. *)
Definition append_grant (o : options) (profilePath : jsstr) (k : string) (entry present : jsstr) : M (option jsstr) := fun s =>
  match file_of profilePath (st_files s) ≫= fun node => json_parse (fst node) with
  | None => (Ok None, s)
  | Some profile => (status ← grant_entry o profilePath profile k entry present; mret (Some status) : M (option jsstr)) s
  end.

Definition toProfilePath (path : jsstr) : jsstr :=
  if startsWith path (HOME ++ [SLASH]) then js "$HOME" ++ drop (length HOME) path else path.
Definition appendAllowGrant (o : options) (dirAllow : jsstr) : M (option jsstr) := append_grant o PROFILE_PATH "allow" dirAllow REGISTERED.

Definition HISTORY_SEED : jsstr := js "{" ++ [34%N] ++ js "entries" ++ [34%N] ++ js ":[]}" ++ [10%N].
Definition updateAutoUpdateGrant (o : options) (path : jsstr) : M jsstr :=
  let historyFile := join [dirname path; js ".auto-update-history.json"] in
  grant ← append_grant o PROFILE_PATH "allow_file" historyFile (js "skipped");
  match grant with
  | None => mret SKIPPED_JSON
  | Some status =>
      found ← existsSync historyFile;
      if found : bool then mret (status ++ js "; exists")
      else if DRY_RUN o then mret (status ++ js "; would create " ++ historyFile)
      else _ ← mkdirSync (dirname historyFile);
           _ ← writeFileSync historyFile HISTORY_SEED (Some 420);
           mret (status ++ js "; created")
  end.

(** A directory of the project, granted and created. *)
Definition granted_dir (o : options) (dir : jsstr) : M jsstr :=
  grant ← appendAllowGrant o (toProfilePath dir);
  match grant with
  | None => mret SKIPPED_JSON
  | Some status =>
      found ← existsSync dir;
      if found : bool then mret status
      else if DRY_RUN o then mret (status ++ js "; would create " ++ dir)
      else _ ← mkdirSync dir; mret (status ++ js "; created")
  end.
Definition updateSkillRegistryGrant (o : options) (path : jsstr) : M jsstr := granted_dir o (join [path; js ".atl"]).
Definition updateCodegraphGrant (o : options) (path : jsstr) : M jsstr := granted_dir o (join [path; js ".codegraph"]).

(** The grant of [.git], never created here. *)
Definition updateProjectGitGrant (o : options) (path : jsstr) : M (jsstr * option jsstr) :=
  let gitDir := join [path; js ".git"] in
  found ← existsSync gitDir;
  if negb found then
    mret (js "skipped (no .git directory)",
          Some (js "no .git directory at " ++ gitDir ++ js "; the .git grant was skipped (nono binds grants to paths that exist at sandbox start)"))
  else grant ← appendAllowGrant o (toProfilePath gitDir); mret (default SKIPPED_JSON grant, None).

(** ** The environment of the broker *)
Definition BROKER_PROJECTS : jsstr := js "BROKER_PROJECTS=".

(** The first line that starts with [key]: what is before it, its rest, what
    follows it. *)
Definition rest_of_line (s : jsstr) : jsstr * jsstr :=
  (fix go s := match s with
     | [] => ([], [])
     | c :: s' => if is_line_term c then ([], s) else let '(line, rest) := go s' in (c :: line, rest)
     end) s.
Fixpoint find_line (at_start : bool) (key s : jsstr) : option (jsstr * jsstr * jsstr) :=
  if at_start && startsWith s key
  then let '(line, rest) := rest_of_line (drop (length key) s) in Some ([], line, rest)
  else match s with
       | [] => None
       | c :: s => match find_line (is_line_term c) key s with Some (before, line, rest) => Some (c :: before, line, rest) | None => None end
       end.

(** A value between quotes of one kind, and the quote. *)
Definition unquoted (body : jsstr) : jsstr * jsstr :=
  let between q := (2 <=? js_length body) && startsWith body [q] && endsWith body [q] in
  if between 39%N then ([39%N], removelast (drop 1 body))
  else if between 34%N then ([34%N], removelast (drop 1 body))
  else ([], body).

Definition existingBrokerEnvEntries : M (list (jsstr * jsval)) := fun s =>
  (Ok (match HOME, file_of BROKER_ENV_PATH (st_files s) with
       | _ :: _, Some (content, _) =>
           match find_line true BROKER_PROJECTS content with
           | Some (_, line, _) =>
               match json_parse (snd (unquoted (trim line))) with
               | Some (JArr entries) => omap (fun e => match at_key e "id" with JStr id => Some (id, at_key e "path") | _ => None end) entries
               | _ => []
               end
           | None => []
           end
       | _, _ => []
       end), s).

(** The special patterns of a replacement text: two dollars are one, a dollar
    with an ampersand, a grave accent or an apostrophe is the match, what is before
    it, or what follows it. *)
Fixpoint substitute (before matched after text : jsstr) : jsstr :=
  match text with
  | [] => []
  | c :: text' =>
      if (c =? 36)%N then
        match text' with
        | d :: text'' =>
            if (d =? 36)%N then 36%N :: substitute before matched after text''
            else if (d =? 38)%N then matched ++ substitute before matched after text''
            else if (d =? 96)%N then before ++ substitute before matched after text''
            else if (d =? 39)%N then after ++ substitute before matched after text''
            else c :: substitute before matched after text'
        | [] => [c]
        end
      else c :: substitute before matched after text'
  end.

(** [projects.some((p) => p.path === path)] *)
Fixpoint some_path (path : jsstr) (projects : list jsval) : res bool :=
  match projects with
  | [] => Ok false
  | p :: projects => found ← member p "path"; if is_text_of found path then Ok true else some_path path projects
  end.

Definition updateBrokerEnv (o : options) (path id : jsstr) : M jsstr :=
  match HOME with
  | [] => mret (js "skipped (HOME unset)")
  | _ =>
      found ← existsSync BROKER_ENV_PATH;
      if negb found then mret (js "skipped (broker.env missing; not created)") else
      raw ← readFileSync BROKER_ENV_PATH;
      match find_line true BROKER_PROJECTS raw with
      | None => mret (js "skipped (no BROKER_PROJECTS line found)")
      | Some (before, line, after) =>
          let '(quote, body) := unquoted (trim line) in
          match json_parse body with
          | None => mret (js "skipped (BROKER_PROJECTS is not valid JSON)")
          | Some (JArr projects) =>
              registered ← of_res (some_path path projects);
              if registered : bool then mret REGISTERED else
              _ ← (if DRY_RUN o then mret tt else
                   let json := json_text (JArr (projects ++ [JObj [(js "id", JStr id); (js "path", JStr path)]])) in
                   let next := before ++ substitute before (BROKER_PROJECTS ++ line) after (BROKER_PROJECTS ++ quote ++ json ++ quote) ++ after in
                   mode ← file_mode BROKER_ENV_PATH;
                   atomicWrite BROKER_ENV_PATH next (Some mode));
              mret ADDED
          | Some _ => mret (js "skipped (BROKER_PROJECTS is not a JSON array)")
          end
      end
  end.

(** ** The launcher *)
Definition quote_char (c : N) : bool := ((c =? 39) || (c =? 34))%N.
(** [l.replace(/^['"]|['"]$/g, "")] *)
Definition strip_quotes (l : jsstr) : jsstr :=
  let l := match l with c :: l' => if quote_char c then l' else l | [] => [] end in
  match rev l with c :: l' => if quote_char c then rev l' else l | [] => [] end.

Definition ARRAY_START : jsstr := js "PROJECT_ROOTS=(".
Definition is_array_start (l : jsstr) : bool := startsWith (trim l) ARRAY_START.
Definition is_array_end (l : jsstr) : bool := str_eqb (trim l) (js ")").

(** The lines up to the first that passes, and from it on. *)
Fixpoint span_until (p : jsstr -> bool) (ls : list jsstr) : option (list jsstr * list jsstr) :=
  match ls with
  | [] => None
  | l :: ls' => if p l then Some ([], ls) else match span_until p ls' with Some (a, b) => Some (l :: a, b) | None => None end
  end.

Definition tokens_of_lines (ls : list jsstr) : list jsstr :=
  map strip_quotes (List.filter (fun l => negb (js_length l =? 0) && negb (startsWith l (js "#"))) (map trim ls)).

(** The launcher with the path, or why it is left as it is. *)
Definition launcher_with (content path : jsstr) : jsstr + jsstr :=
  match span_until is_array_start (split_on 10 content) with
  | Some (before, start :: rest) =>
      match span_until is_array_end rest with
      | Some (entries, tail) =>
          if mem path (tokens_of_lines entries) then inr REGISTERED
          else inl (join_with [10%N] (before ++ start :: entries ++ [js "  " ++ [34%N] ++ path ++ [34%N]] ++ tail))
      | None => inr (js "skipped (unterminated PROJECT_ROOTS array)")
      end
  | _ => inr (js "skipped (no PROJECT_ROOTS=( array found)")
  end.

Definition updateLauncher (o : options) (path : jsstr) : M jsstr :=
  content ← readFileSync LAUNCHER_PATH;
  match launcher_with content path with
  | inr status => mret status
  | inl next => _ ← (if DRY_RUN o then mret tt else atomicWrite LAUNCHER_PATH next None); mret ADDED
  end.
(** ** git and gh *)

(** The output of a command, when it succeeds. *)
Definition execOk (cmd : string) (args : list jsstr) (dir : jsstr) : M (option jsstr) := fun s =>
  let '(out, fs) := execFile (st_done s) (st_files s) cmd args dir in (Ok out, mkState fs (st_done s ++ [Exec cmd args dir])).
Definition ran (out : option jsstr) : bool := bool_decide (is_Some out).

Definition ghUser (project : jsstr) : M (option (jsstr * jsstr)) :=
  login ← execOk "gh" (map js ["api"; "user"; "--jq"; ".login"]%string) project;
  match login with
  | None => mret None
  | Some login =>
      id ← execOk "gh" (map js ["api"; "user"; "--jq"; ".id"]%string) project;
      mret (match id with
            | Some id => match trim login, trim id with
                         | [], _ | _, [] => None
                         | l, i => Some (l, i)
                         end
            | None => None
            end)
  end.

Record GitPlan := mkPlan {
  gp_git : jsstr; gp_identity : jsstr; gp_origin : jsstr; gp_ghRemote : jsstr; gp_warnings : list jsstr; gp_ghError : option jsstr }.

(** 1. A repository, when the directory is not one. *)
Definition init_step (o : options) (project : jsstr) : M (jsstr * list jsstr) :=
  found ← existsSync (join [project; js ".git"]);
  if found : bool then mret (js "ok", [])
  else if DRY_RUN o then mret (js "would init", [])
  else init ← execOk "git" (map js ["init"; "-b"; "main"]%string) project;
       mret (if ran init then (js "init", []) else (js "failed", [js "git init failed for " ++ basename project])).

(** 2. A local identity from gh, when none is configured. *)
Definition identity_step (o : options) (project : jsstr) (user : option (jsstr * jsstr)) : M (jsstr * list jsstr) :=
  hasName ← execOk "git" (map js ["config"; "--get"; "user.name"]%string) project;
  if ran hasName then mret (js "existing", []) else
  match user with
  | None => mret (js "skipped", [js "skipped identity (gh not authed)"])
  | Some (login, id) =>
      if DRY_RUN o then mret (js "would set " ++ login, []) else
      setName ← execOk "git" (map js ["config"; "--local"; "user.name"]%string ++ [login]) project;
      setEmail ← execOk "git" (map js ["config"; "--local"; "user.email"]%string ++ [id ++ js "+" ++ login ++ js "@users.noreply.github.com"]) project;
      mret (if ran setName && ran setEmail then (js "set " ++ login, [])
            else (js "skipped", [js "failed to set git identity for " ++ basename project]))
  end.

(** Whether the repository is on GitHub. *)
Definition repo_view (project login : jsstr) : M (option jsstr) :=
  execOk "gh" [js "repo"; js "view"; login ++ js "/" ++ basename project; js "--json"; js "urlWithOwner"] project.

(** 3. The origin, when the repository is on GitHub. *)
Definition origin_step (o : options) (project : jsstr) (user : option (jsstr * jsstr)) : M (jsstr * list jsstr) :=
  hasOrigin ← execOk "git" (map js ["remote"; "get-url"; "origin"]%string) project;
  if ran hasOrigin then mret (js "exists", []) else
  match user with
  | None => mret (js "none", [js "skipped origin check (gh not authed)"])
  | Some (login, _) =>
      repoExists ← repo_view project login;
      if negb (ran repoExists) then mret (js "none", [])
      else if DRY_RUN o then mret (js "would add", [])
      else added ← execOk "git" (map js ["remote"; "add"; "origin"]%string
                     ++ [js "git@github.com:" ++ login ++ js "/" ++ basename project ++ js ".git"]) project;
           mret (if ran added then (js "added", []) else (js "none", [js "failed to add origin for " ++ basename project]))
  end.

(** 4. The repository on GitHub, when asked for: its status, warnings and error. *)
Definition remote_step (o : options) (project : jsstr) (user : option (jsstr * jsstr)) : M (jsstr * list jsstr * option jsstr) :=
  let base := basename project in
  if negb (CREATE_REMOTE o) then mret (js "skipped", [], None) else
  authed ← execOk "gh" (map js ["auth"; "status"]%string) project;
  if negb (ran authed) then mret (js "skipped", [], Some (js "--create-remote requires gh authentication (run gh auth login)")) else
  match user with
  | None => mret (js "skipped", [], Some (js "could not determine gh login for " ++ base ++ js "; --create-remote skipped"))
  | Some (login, _) =>
      repoExists ← repo_view project login;
      if ran repoExists then mret (js "exists", [], None)
      else if DRY_RUN o then mret (js "would create", [], None)
      else created ← execOk "gh" [js "repo"; js "create"; base; js (if PUBLIC_REPO o then "--public" else "--private");
                                  js "--source=" ++ project; js "--remote=origin"] project;
           if negb (ran created) then mret (js "skipped", [js "gh repo create failed for " ++ base], None) else
           hasHead ← execOk "git" (map js ["rev-parse"; "--verify"; "HEAD"]%string) project;
           if negb (ran hasHead) then mret (js "created", [], None) else
           pushed ← execOk "git" (map js ["push"; "-u"; "origin"; "main"]%string) project;
           mret (js "created", if ran pushed then [] else [js "git push -u origin main failed for " ++ base ++ js " (remote was created)"], None)
  end.

Definition setupGit (o : options) (project : jsstr) : M GitPlan :=
  user ← ghUser project;
  git ← init_step o project;
  identity ← identity_step o project user;
  origin ← origin_step o project user;
  remote ← remote_step o project user;
  mret (mkPlan (fst git) (fst identity) (fst origin) (fst (fst remote))
          (snd git ++ snd identity ++ snd origin ++ snd (fst remote)) (snd remote)).

(** ** The script *)
Record Report := mkReport {
  r_path : jsstr; r_id : jsstr; r_git : GitPlan; r_profile : jsstr; r_autoUpdate : jsstr; r_skillRegistry : jsstr;
  r_projectGit : jsstr; r_codegraph : jsstr; r_brokerEnv : jsstr; r_launcher : jsstr; r_warnings : list jsstr }.

(** One project, once it is valid and has its id. *)
Definition registerOne (o : options) (path id : jsstr) : M Report :=
  gitPlan ← setupGit o path;
  projectGit ← updateProjectGitGrant o path;
  profile ← updateProfile o path;
  autoUpdate ← updateAutoUpdateGrant o path;
  skillRegistry ← updateSkillRegistryGrant o path;
  codegraph ← updateCodegraphGrant o path;
  brokerEnv ← updateBrokerEnv o path id;
  launcher ← updateLauncher o path;
  mret (mkReport path id gitPlan profile autoUpdate skillRegistry (fst projectGit) codegraph brokerEnv launcher
          (gp_warnings gitPlan ++ match snd projectGit with Some w => [w] | None => [] end)).

(** The reports, the errors shown, and the ids taken so far. *)
Record Progress := mkProgress { pr_reports : list Report; pr_errors : list jsstr; pr_used : list jsstr }.

Definition add_error (e : jsstr) (p : Progress) : Progress := mkProgress (pr_reports p) (pr_errors p ++ [e]) (pr_used p).

Fixpoint registerAll (o : options) (entries : list (jsstr * jsval)) (targets : list jsstr) (p : Progress) : M Progress :=
  match targets with
  | [] => mret p
  | path :: targets =>
      invalid ← validateProject path;
      match invalid with
      | Some reason => registerAll o entries targets (add_error (js "error: " ++ reason) p)
      | None =>
          let existing := List.find (fun e => is_text_of (snd e) path) entries in
          let id := match existing with Some e => fst e | None => deriveProjectId path (pr_used p) end in
          let used := match existing with Some _ => pr_used p | None => pr_used p ++ [id] end in
          report ← registerOne o path id;
          let p := mkProgress (pr_reports p ++ [report]) (pr_errors p) used in
          registerAll o entries targets
            (match gp_ghError (r_git report) with Some e => add_error (js "error: " ++ path ++ js ": " ++ e) p | None => p end)
      end
  end.

(** The options and the targets of a command line; the first two words are the
    program and the script. *)
Definition parse_options (argv : list jsstr) : options :=
  mkOptions (mem (js "--dry-run") argv) (mem (js "--create-remote") argv) (mem (js "--public") argv).
Definition dedupe (xs : list jsstr) : list jsstr := foldl (fun seen x => if mem x seen then seen else seen ++ [x]) [] xs.
Definition targets_of (argv : list jsstr) : list jsstr := dedupe (List.filter (fun a => negb (mem a FLAGS)) (drop 2 argv)).

(** The reports and the errors, or the usage; the exit code is 2 for the usage, 1
    when there are errors. *)
Definition run_script (argv : list jsstr) : M (option Progress) :=
  match targets_of argv with
  | [] => mret None
  | targets =>
      entries ← existingBrokerEnvEntries;
      progress ← registerAll (parse_options argv) entries targets (mkProgress [] [] (dedupe (map fst entries)));
      mret (Some progress)
  end.
Definition exit_code (p : option Progress) : Z :=
  match p with None => 2 | Some p => match pr_errors p with [] => 0 | _ => 1 end end.

(** The summary of a project. *)
Definition report_lines (r : Report) : list jsstr :=
  let g := r_git r in
  [[10%N] ++ r_path r; js "  id: " ++ r_id r; js "  git:           " ++ gp_git g; js "  identity:      " ++ gp_identity g;
   js "  origin:        " ++ gp_origin g; js "  gh remote:     " ++ gp_ghRemote g; js "  profile read:  " ++ r_profile r;
   js "  auto-update grant: " ++ r_autoUpdate r; js "  skill registry:    " ++ r_skillRegistry r;
   js "  .git grant:        " ++ r_projectGit r; js "  .codegraph:        " ++ r_codegraph r; js "  broker env:    " ++ r_brokerEnv r;
   js "  launcher root: " ++ r_launcher r] ++ map (fun w => js "  warning: " ++ w) (r_warnings r).
End script.

(** ** Theorems of the registration script

    Whatever git and gh answer and whichever step fails, the script does only
    what its options allow, for paths it accepted; ids are free; the launcher
    takes a path once. *)
(** ** What the options allow *)
Definition begins (args : list jsstr) (words : list string) : bool := bool_decide (take (length words) args = map js words).

(** Commands that change nothing, that change the repository, and that change
    what is on GitHub. *)
Definition reads_only (cmd : string) (args : list jsstr) : bool :=
  (String.eqb cmd "gh" && (begins args ["api"; "user"] || begins args ["auth"; "status"] || begins args ["repo"; "view"]))
  || (String.eqb cmd "git" && (begins args ["config"; "--get"] || begins args ["remote"; "get-url"] || begins args ["rev-parse"; "--verify"])).
Definition changes_repository (cmd : string) (args : list jsstr) : bool :=
  String.eqb cmd "git" && (begins args ["init"] || begins args ["config"; "--local"] || begins args ["remote"; "add"]).
Definition changes_github (cmd : string) (args : list jsstr) : bool :=
  (String.eqb cmd "gh" && begins args ["repo"; "create"]) || (String.eqb cmd "git" && begins args ["push"]).

Section facts.
  Context (HOME cwd PROFILE_PATH LAUNCHER_PATH pid : jsstr).
  Context (denied : list action -> action -> option exn).
  Context (execFile : list action -> Files -> string -> list jsstr -> jsstr -> option jsstr * Files).

(** The files the script replaces, through a file beside each. *)
Definition configured : list jsstr := [PROFILE_PATH; BROKER_ENV_PATH HOME; LAUNCHER_PATH].
Definition beside (file : jsstr) : jsstr := file ++ js ".tmp-" ++ pid.
Definition history_of (path : jsstr) : jsstr := join [dirname path; js ".auto-update-history.json"].

Definition permitted (o : options) (path : jsstr) (a : action) : Prop :=
  match a with
  | Exec cmd args dir => dir = path /\
      (reads_only cmd args = true \/ DRY_RUN o = false /\ (changes_repository cmd args = true \/ CREATE_REMOTE o = true /\ changes_github cmd args = true))
  | WriteFile file _ _ => DRY_RUN o = false /\ file ∈ history_of path :: map beside configured
  | Chmod file _ => DRY_RUN o = false /\ file = beside (BROKER_ENV_PATH HOME)
  | Rename source target => DRY_RUN o = false /\ target ∈ configured /\ source = beside target
  | MakeDir dir => DRY_RUN o = false /\ dir ∈ [join [path; js ".atl"]; join [path; js ".codegraph"]; dirname (history_of path)]
  end.

(** A path the script accepts, as text. *)
Definition acceptable (path : jsstr) : Prop :=
  isAbsolute path = true /\ path <> [SLASH] /\ path <> HOME /\ Forall (fun root => isUnder path root = false) (banned HOME).

(** ** What a step does *)
Definition acts {A} (P : action -> Prop) (m : M A) : Prop :=
  forall s, exists new, st_done (snd (m s)) = st_done s ++ new /\ Forall P new.

Lemma acts_ret {A} P (a : A) : acts P (mret a).
Proof. intros s. exists []. by rewrite app_nil_r. Qed.

Lemma acts_silent {A} P (m : M A) : (forall s, snd (m s) = s) -> acts P m.
Proof. intros H s. exists []. by rewrite H, app_nil_r. Qed.

Lemma acts_bind {A B} P (m : M A) (f : A -> M B) : acts P m -> (forall a, acts P (f a)) -> acts P (m ≫= f).
Proof.
  intros Hm Hf s. destruct (Hm s) as (new & Hd & Hn). unfold mbind, script_bind. destruct (m s) as [[a|e] s'] eqn:E; cbn in *; [|by exists new].
  destruct (Hf a s') as (new' & Hd' & Hn'). exists (new ++ new'). rewrite Hd', Hd, app_assoc. split; [done | by apply Forall_app].
Qed.

Lemma acts_change P a effect : P a -> acts P (change denied a effect).
Proof.
  intros H s. exists [a]. unfold change. rewrite List.Forall_forall. destruct (denied _ _); cbn; (split; [done|]); by intros x [<-|[]].
Qed.

Lemma acts_exec P cmd args dir : P (Exec cmd args dir) -> acts P (execOk execFile cmd args dir).
Proof.
  intros H s. exists [Exec cmd args dir]. unfold execOk. rewrite List.Forall_forall. destruct (execFile _ _ _ _ _); cbn; split; [done|]. by intros x [<-|[]].
Qed.

Lemma acts_mono {A} (P Q : action -> Prop) (m : M A) : (forall a, P a -> Q a) -> acts P m -> acts Q m.
Proof. intros H Hm s. destruct (Hm s) as (new & Hd & Hn). exists new. split; [done|]. by eapply Forall_impl. Qed.

(** Takes a step apart into its actions. *)
Ltac steps := repeat first
  [ apply acts_ret
  | apply acts_bind; [|intros ?]
  | apply acts_silent; intros ?; reflexivity
  | progress cbv zeta
  | match goal with
    | |- acts _ (match ?x with _ => _ end) => destruct x eqn:?
    end ].

Section permitted.
  Context (o : options) (path : jsstr).
  Local Abbreviation allowed := (permitted o path).

Lemma atomicWrite_permitted file content mode :
  DRY_RUN o = false -> file ∈ configured -> (is_Some mode -> file = BROKER_ENV_PATH HOME) -> acts allowed (atomicWrite cwd pid denied file content mode).
Proof.
  intros Hd Hf Hm. unfold atomicWrite, writeFileSync, chmodSync, renameSync. fold (beside file). steps; apply acts_change; unfold permitted; (split; [done|]); try done.
  - apply elem_of_cons. right. apply list_elem_of_In, in_map, list_elem_of_In, Hf.
  - by rewrite Hm by eauto.
Qed.

#[local] Opaque atomicWrite.

Lemma grant_permitted profile k entry present : acts allowed (grant_entry cwd pid denied o PROFILE_PATH profile k entry present).
Proof.
  unfold grant_entry, write_profile. steps; apply atomicWrite_permitted; try done; try (by intros [? ?]); apply list_elem_of_here.
Qed.

Lemma append_permitted k entry present : acts allowed (append_grant cwd pid denied o PROFILE_PATH k entry present).
Proof.
  intros s. unfold append_grant. destruct (_ ≫= _) as [profile|]; [|exists []; by rewrite app_nil_r].
  revert s. change (acts allowed (status ← grant_entry cwd pid denied o PROFILE_PATH profile k entry present; mret (Some status))).
  apply acts_bind; [apply grant_permitted | intros; apply acts_ret].
Qed.

Lemma updateProfile_permitted : acts allowed (updateProfile cwd PROFILE_PATH pid denied o path).
Proof.
  intros s. unfold updateProfile. destruct (_ ≫= _) as [profile|]; [|exists []; by rewrite app_nil_r].
  revert s. match goal with |- forall s, exists new, st_done (snd (?m s)) = _ /\ _ => change (acts allowed m) end.
  unfold write_profile. steps; apply atomicWrite_permitted; try done; try (by intros [? ?]); apply list_elem_of_here.
Qed.

Lemma autoUpdate_permitted : acts allowed (updateAutoUpdateGrant cwd PROFILE_PATH pid denied o path).
Proof.
  unfold updateAutoUpdateGrant, mkdirSync, writeFileSync. steps; [apply append_permitted | ..]; apply acts_change; unfold permitted; (split; [done|]).
  - by do 2 (apply elem_of_cons; right); apply list_elem_of_here.
  - apply list_elem_of_here.
Qed.

Lemma granted_dir_permitted dir :
  dir ∈ [join [path; js ".atl"]; join [path; js ".codegraph"]] -> acts allowed (granted_dir HOME cwd PROFILE_PATH pid denied o dir).
Proof.
  intros Hd. unfold granted_dir, mkdirSync, appendAllowGrant. steps; [apply append_permitted|]. apply acts_change. unfold permitted. split; [done|].
  rewrite !elem_of_cons in *. tauto.
Qed.

Lemma projectGit_permitted : acts allowed (updateProjectGitGrant HOME cwd PROFILE_PATH pid denied o path).
Proof. unfold updateProjectGitGrant, appendAllowGrant. steps. apply append_permitted. Qed.

Lemma brokerEnv_permitted id : acts allowed (updateBrokerEnv HOME cwd pid denied o path id).
Proof.
  assert (forall (h : jsstr) (m m' : M jsstr), acts allowed m -> acts allowed m' -> acts allowed (match h with [] => m | _ => m' end)) as Hcase
    by (by intros []).
  unfold updateBrokerEnv. apply Hcase; [apply acts_ret|].
  steps; apply atomicWrite_permitted; try done; by do 1 (apply elem_of_cons; right); apply list_elem_of_here.
Qed.

Lemma launcher_permitted : acts allowed (updateLauncher cwd LAUNCHER_PATH pid denied o path).
Proof.
  unfold updateLauncher. steps; apply atomicWrite_permitted; try done; try (by intros [? ?]); by do 2 (apply elem_of_cons; right); apply list_elem_of_here.
Qed.

Lemma setupGit_permitted : acts allowed (setupGit cwd execFile o path).
Proof.
  unfold setupGit, ghUser, init_step, identity_step, origin_step, remote_step, repo_view. steps; apply acts_exec; cbn [permitted]; (split; [done|]);
    first [left; vm_compute; reflexivity | right; split; [done|]; left; vm_compute; reflexivity
      | right; split; [done|]; right; split; [by destruct (CREATE_REMOTE o) | vm_compute; reflexivity]].
Qed.

Lemma registerOne_permitted id : acts allowed (registerOne HOME cwd PROFILE_PATH LAUNCHER_PATH pid denied execFile o path id).
Proof.
  unfold registerOne. apply acts_bind; [apply setupGit_permitted|intros ?]. apply acts_bind; [apply projectGit_permitted|intros ?].
  apply acts_bind; [apply updateProfile_permitted|intros ?]. apply acts_bind; [apply autoUpdate_permitted|intros ?].
  apply acts_bind; [apply granted_dir_permitted, list_elem_of_here|intros ?].
  apply acts_bind; [apply granted_dir_permitted; apply elem_of_cons; right; apply list_elem_of_here|intros ?].
  apply acts_bind; [apply brokerEnv_permitted|intros ?]. apply acts_bind; [apply launcher_permitted|intros ?]. apply acts_ret.
Qed.
End permitted.
(** ** Every project *)
Lemma validate_acceptable path s s' : validateProject HOME cwd path s = (Ok None, s') -> s' = s /\ acceptable path.
Proof.
  unfold validateProject, acceptable. destruct (isAbsolute path); cbn [negb]; [|done]. unfold mbind, script_bind, existsSync, isDirectory, mret, script_ret.
  destruct (exists_in cwd path _); cbn [negb]; [|done]. destruct (is_dir cwd path _); cbn [negb]; [|done].
  destruct (str_eqb path [SLASH]) eqn:H1; [done|]. destruct (str_eqb path HOME) eqn:H2; [done|]. cbn [orb].
  destruct (List.find _ _) eqn:Hf; [done|]. intros [= <-]. apply str_eqb_neq in H1, H2. split_and!; try done.
  rewrite List.Forall_forall. intros root Hr. by apply (find_none _ _ Hf).
Qed.

Lemma validate_silent P path : acts P (validateProject HOME cwd path).
Proof. unfold validateProject. steps. Qed.

(** Something some target of the script permits. *)
Definition for_targets (o : options) (targets : list jsstr) (a : action) : Prop :=
  exists path, In path targets /\ acceptable path /\ permitted o path a.

Lemma registerAll_permitted o all entries targets p :
  (forall path, In path targets -> In path all) ->
  acts (for_targets o all) (registerAll HOME cwd PROFILE_PATH LAUNCHER_PATH pid denied execFile o entries targets p).
Proof.
  revert p. induction targets as [|path targets IH]; intros p Hin; cbn [registerAll]; [apply acts_ret|].
  assert (forall p, acts (for_targets o all) (registerAll HOME cwd PROFILE_PATH LAUNCHER_PATH pid denied execFile o entries targets p)) as Hrest
    by (intros p'; apply IH; intros x Hx; apply Hin; by right).
  intros s. destruct (validateProject HOME cwd path s) as [[[reason|]|e] s1] eqn:Hv.
  - destruct (acts_bind (for_targets o all) _ _ (validate_silent _ path) (fun _ => Hrest (add_error (js "error: " ++ reason) p)) s) as (new & Hd & Hn).
    unfold mbind, script_bind in *. rewrite Hv in *. by exists new.
  - apply validate_acceptable in Hv as Ha. destruct Ha as [-> Ha]. unfold mbind, script_bind at 1. rewrite Hv. cbv zeta.
    apply acts_bind; [|intros report; destruct (gp_ghError _); apply Hrest].
    eapply acts_mono; [|apply registerOne_permitted]. intros a Hp. exists path. split; [apply Hin; by left | done].
  - destruct (acts_bind (for_targets o all) _ (fun _ => registerAll HOME cwd PROFILE_PATH LAUNCHER_PATH pid denied execFile o entries targets p)
      (validate_silent _ path) (fun _ => Hrest p) s) as (new & Hd & Hn). unfold mbind, script_bind in *. rewrite Hv in *. by exists new.
Qed.
End facts.

(** C34: whatever git and gh answer and whichever step fails, everything the
    script does is for a target it was given and accepts: a dry run only asks git
    and gh; otherwise it replaces its three configuration files, each through a
    file beside it, makes the granted directories and the history file, and
    changes the repository; GitHub is changed only when asked for. *)
Theorem register_acts_as_asked HOME cwd PROFILE_PATH LAUNCHER_PATH pid denied execFile argv files :
  Forall (fun a => exists path, In path (targets_of argv) /\ acceptable HOME path /\
            permitted HOME PROFILE_PATH LAUNCHER_PATH pid (parse_options argv) path a)
    (st_done (snd (run_script HOME cwd PROFILE_PATH LAUNCHER_PATH pid denied execFile argv (mkState files [])))).
Proof.
  unfold run_script. destruct (targets_of argv) as [|t targets] eqn:Ht; [constructor|].
  destruct (registerAll_permitted HOME cwd PROFILE_PATH LAUNCHER_PATH pid denied execFile (parse_options argv) (t :: targets)
    (match existingBrokerEnvEntries HOME cwd (mkState files []) with (Ok entries, _) => entries | _ => [] end) (t :: targets)
    (mkProgress [] [] (dedupe (map fst (match existingBrokerEnvEntries HOME cwd (mkState files []) with (Ok entries, _) => entries | _ => [] end)))) (fun _ H => H)
    (mkState files [])) as (new & Hd & Hn).
  unfold mbind, script_bind. change (existingBrokerEnvEntries HOME cwd (mkState files [])) with
    (Ok (match existingBrokerEnvEntries HOME cwd (mkState files []) with (Ok entries, _) => entries | _ => [] end), mkState files []).
  cbn [fst snd]. destruct (registerAll _ _ _ _ _ _ _ _ _ _ _ _) as [[p|e] s']; unfold mret, script_ret; cbn [snd] in *; rewrite Hd; exact Hn.
Qed.

(** ** The launcher *)
Lemma span_until_app p ls a b : span_until p ls = Some (a, b) -> ls = a ++ b /\ Forall (fun l => p l = false) a /\ exists l b', b = l :: b' /\ p l = true.
Proof.
  revert a b. induction ls as [|l ls IH]; intros a b; cbn [span_until]; [done|]. destruct (p l) eqn:Hp.
  - intros [= <- <-]. split; [done|]. split; [constructor|]. by exists l, ls.
  - destruct (span_until p ls) as [[a' b']|]; [|done]. intros [= <- <-]. destruct (IH a' b' eq_refl) as (-> & Hf & Hb). split; [done|]. split; [by constructor | done].
Qed.

Lemma span_until_here p a l b : Forall (fun l => p l = false) a -> p l = true -> span_until p (a ++ l :: b) = Some (a, l :: b).
Proof. induction 1 as [|x a Hx _ IH]; intros Hl; cbn [app span_until]; [by rewrite Hl|]. by rewrite Hx, IH. Qed.

Definition launcher_line (path : jsstr) : jsstr := js "  " ++ [34%N] ++ path ++ [34%N].

Lemma launcher_line_trim path : trim (launcher_line path) = [34%N] ++ path ++ [34%N].
Proof.
  unfold trim, launcher_line. change (trim_start (js "  " ++ [34%N] ++ path ++ [34%N])) with ([34%N] ++ path ++ [34%N]).
  rewrite !app_assoc, rev_app_distr. change (trim_start (rev [34%N] ++ rev ([34%N] ++ path))) with (rev [34%N] ++ rev ([34%N] ++ path)).
  by rewrite <- rev_app_distr, rev_involutive.
Qed.

Lemma launcher_line_token path : strip_quotes ([34%N] ++ path ++ [34%N]) = path.
Proof.
  unfold strip_quotes. cbn [app]. change (quote_char 34) with true. cbv beta iota. rewrite rev_app_distr. cbn [rev app].
  change (quote_char 34) with true. cbv beta iota. apply rev_involutive.
Qed.

Lemma launcher_line_entry path entries : path ∈ tokens_of_lines (entries ++ [launcher_line path]).
Proof.
  unfold tokens_of_lines. rewrite map_app, List.filter_app, map_app. apply elem_of_app. right. cbn [map]. rewrite launcher_line_trim.
  cbn [List.filter]. assert (negb (js_length ([34%N] ++ path ++ [34%N]) =? 0) && negb (startsWith ([34%N] ++ path ++ [34%N]) (js "#")) = true) as ->.
  { apply andb_true_iff. split; [|done]. apply negb_true_iff, Z.eqb_neq. unfold js_length. cbn [app length]. lia. }
  cbn [map]. rewrite launcher_line_token. apply list_elem_of_here.
Qed.

(** The launcher takes one new line with the path, at the end of its array,
    and a launcher that has the path is left as it is: a second registration finds
    it. *)
Theorem launcher_registers_once content path next :
  10%N ∉ path -> launcher_with content path = inl next ->
  launcher_with next path = inr REGISTERED /\
  exists before after, split_on 10 content = before ++ after /\ split_on 10 next = before ++ launcher_line path :: after.
Proof.
  intros Hp. unfold launcher_with at 1. destruct (span_until is_array_start _) as [[before [|start rest]]|] eqn:Hs; try done.
  destruct (span_until is_array_end rest) as [[entries tail]|] eqn:He; [|done]. destruct (mem path _) eqn:Hm; [done|]. intros [= Hnext].
  apply span_until_app in Hs as (Hsplit & Hb & l & b' & [= <- <-] & Hstart). apply span_until_app in He as (-> & Hent & l & b' & -> & Hend).
  assert (split_on 10 next = before ++ start :: entries ++ [launcher_line path] ++ l :: b') as Hlines.
  { rewrite <- Hnext. assert (Forall (fun w => 10%N ∉ w) (before ++ start :: entries ++ [launcher_line path] ++ l :: b')) as Hnl.
    { assert (Forall (fun w => 10%N ∉ w) (split_on 10 content)) as Hc by (apply Forall_forall; intros w Hw; by eapply split_on_no_sep).
      rewrite Hsplit in Hc. apply Forall_app in Hc as [H1 Hc]. apply Forall_cons in Hc as [H2 Hc]. apply Forall_app in Hc as [H3 H4].
      apply Forall_app. split; [done|]. constructor; [done|]. apply Forall_app. split; [done|]. constructor; [|done].
      unfold launcher_line. rewrite !not_elem_of_app. split_and!; try done; apply (bool_decide_unpack _); vm_compute; exact I. }
    destruct before; apply split_on_join; exact Hnl. }
  split.
  - unfold launcher_with. rewrite Hlines, (span_until_here _ _ _ _ Hb Hstart).
    rewrite (app_assoc entries [launcher_line path]), span_until_here; [|apply Forall_app; split; [done|]|done].
    + rewrite (proj2 (mem_true _ _)); [done | apply launcher_line_entry].
    + constructor; [|constructor]. unfold is_array_end. rewrite launcher_line_trim. apply str_eqb_neq. cbn. discriminate.
  - exists (before ++ start :: entries), (l :: b'). rewrite Hlines, Hsplit, <- !app_assoc. done.
Qed.

Lemma launcher_registers_once_witness :
  let content := js "X=1" ++ [10%N] ++ js "PROJECT_ROOTS=(" ++ [10%N] ++ js "  '/a'" ++ [10%N] ++ js ")" ++ [10%N] in
  let next := js "X=1" ++ [10%N] ++ js "PROJECT_ROOTS=(" ++ [10%N] ++ js "  '/a'" ++ [10%N] ++ launcher_line (js "/b") ++ [10%N] ++ js ")" ++ [10%N] in
  launcher_with content (js "/b") = inl next /\ launcher_with next (js "/b") = inr REGISTERED.
Proof.
  intros content next. assert (launcher_with content (js "/b") = inl next) as H by (vm_compute; reflexivity). split; [exact H|].
  apply (fun Hp => proj1 (launcher_registers_once content (js "/b") next Hp H)). apply (bool_decide_unpack _). vm_compute. exact I.
Defined.

(** ** Ids *)
#[local] Instance numbered_inj : Inj (=) (=) numbered.
Proof.
  intros m n. unfold numbered. intros H. apply app_inv_head in H. pose proof (proj1 (dec_digits (Z.of_nat m) ltac:(lia))) as Hm.
  rewrite H in Hm. rewrite (proj1 (dec_digits (Z.of_nat n) ltac:(lia))) in Hm. lia.
Qed.

(** The search stops at a free number, or all it tried are taken. *)
Lemma free_number_spec fuel n used :
  numbered (free_number fuel n used) ∉ used \/
  free_number fuel n used = (n + fuel)%nat /\ forall k, (n <= k < n + fuel)%nat -> numbered k ∈ used.
Proof.
  revert n. induction fuel as [|fuel IH]; intros n; cbn [free_number].
  - right. split; [lia|]. intros k Hk. lia.
  - destruct (mem (numbered n) used) eqn:Hm; [|left; by apply mem_false]. apply mem_true in Hm.
    destruct (IH (S n)) as [H|[-> H]]; [by left|]. right. split; [lia|]. intros k Hk. destruct (decide (k = n)) as [->|]; [done|]. apply H. lia.
Qed.

(** The id derived for a project is one no project has, however many numbers
    are taken: the search ends within as many tries as there are ids. *)
Theorem derived_id_free path used : deriveProjectId path used ∉ used.
Proof.
  unfold deriveProjectId. cbv zeta. destruct (PROJECT_ID_RE _ && negb (mem _ used)) eqn:E; [by apply andb_true_iff in E as [_ H%negb_true_iff%mem_false]|].
  destruct (free_number_spec (length used) 1 used) as [H|[-> H]]; [done|]. intros Hin.
  assert (NoDup (map numbered (seq 1 (S (length used))))) as Hn.
  { apply (NoDup_fmap_2 numbered), NoDup_seq. }
  assert (map numbered (seq 1 (S (length used))) ⊆ used) as Hsub.
  { intros x Hx. apply list_elem_of_In, in_map_iff in Hx as (k & <- & Hk). apply in_seq in Hk.
    destruct (decide (k = 1 + length used)%nat) as [->|]; [exact Hin|]. apply H. lia. }
  pose proof (NoDup_submseteq _ _ Hn Hsub) as Hlen. apply submseteq_length in Hlen. rewrite length_map, length_seq in Hlen. lia.
Qed.

(** ** The environment of the broker *)
Lemma substitute_plain before matched after text : 36%N ∉ text -> substitute before matched after text = text.
Proof.
  induction text as [|c text IH]; [done|]. rewrite not_elem_of_cons. intros [Hc Ht]. cbn [substitute].
  rewrite (proj2 (N.eqb_neq c 36)) by congruence. by rewrite IH.
Qed.

(** *** Runs *)
Definition sample_files (home path env : jsstr) : Files :=
  mkFiles {[BROKER_ENV_PATH home := (env, 384)]} {[path]}.
Definition never : list action -> action -> option exn := fun _ _ => None.
Definition sample_env (projects : jsstr) : jsstr := js "A=1" ++ [10%N] ++ BROKER_PROJECTS ++ [39%N] ++ projects ++ [39%N] ++ [10%N].

(** A dollar in a path is read as a pattern of the replacement: the line that is
    replaced is put into the new one. *)
Example dollar_in_path_corrupts :
  let s := mkState (sample_files (js "/h") (js "/w") (sample_env (js "[]"))) [] in
  fl_files (st_files (snd (updateBrokerEnv (js "/h") (js "/") (js "1") never (mkOptions false false false) (js "/w/a$&b") (js "ab") s)))
    !! BROKER_ENV_PATH (js "/h")
  = Some (sample_env (json_text (JArr [JObj [(js "id", text "ab"); (js "path", JStr (js "/w/aBROKER_PROJECTS='[]'b"))]])), 384).
Proof. vm_compute. reflexivity. Qed.

(** The home directory is refused only under its own spelling, and the banned
    directories only where the path is written through them. *)
Example spelled_home_accepted :
  let s := mkState (mkFiles ∅ {[js "/h"; js "/etc/x"]}) [] in
  fst (validateProject (js "/h") (js "/") (js "/h") s) = Ok (Some (js "refusing to register the filesystem root or $HOME itself: /h")) /\
  fst (validateProject (js "/h") (js "/") (js "/h/") s) = Ok None /\ fst (validateProject (js "/h") (js "/") (js "/h/../etc/x") s) = Ok None.
Proof. vm_compute. done. Qed.
