(* ===== verification/Msb.v ===== *)
(** * The worker adapter (broker/src/msb.ts)

    Each call the handlers make of a worker ([CExec], [CCreateWorker], ...) is a
    few host processes and files: [run] starts the worker program with an
    argument vector, [createWorker] writes the configuration of the worker from
    trusted policy, creates it and polls it, [exec] runs a command in it.
    [adapter_env] answers the handlers' calls with the adapter, over an
    environment that answers the adapter's own.  [Child] is one spawned process:
    the bytes kept of its two streams, its timer and its settlement. *)
From Stdlib Require Import QArith.
From S2P Require Import Redact Prelude JsVal Json JsOps Types State Policy Path Validation HostPaths Codec Envelope GitGuard PluginValues Queue Effects Worker.
Open Scope Z_scope.

(** [s.replace(/\r\n/g, '\n')] *)
Fixpoint normalizeLineEndings (s : jsstr) : jsstr :=
  match s with
  | [] => []
  | c :: s' =>
      match s' with
      | d :: s'' => if ((c =? 13) && (d =? 10))%N then 10%N :: normalizeLineEndings s'' else c :: normalizeLineEndings s'
      | [] => [c]
      end
  end.

(** Whole mebibytes, rounded half up, at least one. *)
Definition memSizeString (bytes : Z) : jsstr := dec (Z.max 1 ((bytes + 524288) / 1048576)) ++ js "M".

(** ** The environment of a worker command *)
Definition CREDENTIAL_WORDS : list jsstr :=
  map js ["token"; "secret"; "password"; "credential"; "auth"; "apikey"; "api_key"; "api-key";
          "privatekey"; "private_key"; "private-key"]%string.
Definition CREDENTIAL_KEY_RE (key : jsstr) : bool := existsb (includes (map ascii_lower key)) CREDENTIAL_WORDS.

Definition env_entry (allowed : list jsstr) (kv : jsstr * jsval) : res (jsstr * jsstr) :=
  let '(key, value) := kv in
  _ ← throw_if (CREDENTIAL_KEY_RE key)
    (validation_error (js "env key '" ++ key ++ js "' looks like a credential and is always rejected (S8/S9)"));
  _ ← throw_if (negb (mem key allowed)) (validation_error (js "env key '" ++ key ++ js "' is not on the worker env allowlist"));
  match value with
  | JStr s =>
      _ ← throw_if ((js_length s =? 0) || (4096 <? js_length s))
        (validation_error (js "env value for '" ++ key ++ js "' out of size bounds"));
      Ok (key, s)
  | _ => Throw (validation_error (js "env value for '" ++ key ++ js "' must be a string"))
  end.
Definition assertWorkerEnv (env : jsval) (allowedKeys : list jsstr) : res (option (list (jsstr * jsstr))) :=
  match env with
  | JUndef | JNull => Ok None
  | JObj fs => entries ← map_res (env_entry allowedKeys) fs; Ok (Some entries)
  | _ => Throw (validation_error (js "env must be an object"))
  end.

(** ** Timeouts *)

(** [n < z] *)
Definition below_number (n : jsnum) (z : Z) : bool :=
  match n with NumInf neg => neg | _ => match quotient n with Some (a, d) => a <? z * d | None => false end end.

(** [Math.max(1000, Math.min(requested, max))]; NaN stays NaN. *)
Definition cappedTimeoutMs (requested : jsnum) (max : Z) : jsnum :=
  let least := if num_above requested max then NumInt max else requested in
  if below_number least 1000 then NumInt 1000 else least.

(** Arithmetic on a value that need not be a number. *)
Definition numeric (v : jsval) : res jsnum := p ← to_primitive v; Ok (to_number p).

(** [trim(s)]: at most 2000 units and an ellipsis. *)
Definition trim_message (s : jsstr) : jsstr :=
  let t := trim s in if 2000 <? js_length t then take 2000 t ++ [8230%N] else t.

(** The fields of the configuration only the adapter reads. *)
Record MsbConfig := mkMsb {
  msbBinary : jsstr;
  workerRootDisk : option jsstr;
  workerUser : jsstr;
  envAllowedKeys : list jsstr;
  outputMaxBytes : Z
}.

Section adapter.
  Context (cfg : BrokerConfig) (msb : MsbConfig) (E : Environment).

Definition normalized (r : SpawnResult) : SpawnResult :=
  mkSpawnBytes (status r) (normalizeLineEndings (stdout r)) (normalizeLineEndings (stderr r)) (timedOut r)
    (outputTruncated r) (stderrTruncated r) (stdoutBytes r) (stderrBytes r).

Definition run_options (opts : SpawnOptions) : SpawnOptions :=
  mkOpts (o_cwd opts) (if is_nullish (o_timeoutMs opts) then JNum (NumInt (execTimeoutMsDefault cfg)) else o_timeoutMs opts)
    (o_env opts) (Some (default (outputMaxBytes msb) (o_maxOutputBytes opts))).

Definition run_msb (args : list jsstr) (opts : SpawnOptions) : M SpawnResult :=
  result ← call_proc E (CSpawn (msbBinary msb :: args) (run_options opts));
  if timedOut result then throw (msb_error (js "msb " ++ default (js "?") (head args) ++ js " timed out"))
  else mret (normalized result).

(** [res.status !== 0 && !res.timedOut] *)
Definition failed_run (r : SpawnResult) : bool := negb (ok_status r) && negb (timedOut r).
Definition status_failure (what : string) (r : SpawnResult) : jsstr :=
  js what ++ js " failed (status " ++ status_text r ++ js ")".
Definition output_failure (what : string) (r : SpawnResult) : jsstr :=
  status_failure what r ++ js ": " ++ trim_message (str_or (stderr r) (stdout r)).

(** ** Running a command in a worker *)
Definition env_args (env : option (list (jsstr * jsstr))) : list jsstr :=
  concat (map (fun kv => [js "-e"; fst kv ++ js "=" ++ snd kv]) (default [] env)).

Definition exec_timeout (opts : SpawnOptions) : res (list jsstr) :=
  if is_falsy (o_timeoutMs opts) then Ok [] else
  n ← numeric (o_timeoutMs opts);
  s ← js_String (JNum (cappedTimeoutMs n (execTimeoutMsMax cfg)));
  Ok [js "--timeout"; s].

Definition exec_limit (opts : SpawnOptions) : res jsnum :=
  n ← numeric (if is_nullish (o_timeoutMs opts) then JNum (NumInt (execTimeoutMsDefault cfg)) else o_timeoutMs opts);
  Ok (add_num (cappedTimeoutMs n (execTimeoutMsMax cfg)) (NumInt 10000)).

Definition adapter_exec (workerName : jsstr) (argv : list jsstr) (opts : SpawnOptions) : M SpawnResult :=
  env ← lift (assertWorkerEnv (o_env opts) (envAllowedKeys msb));
  timeout ← lift (exec_timeout opts);
  limit ← lift (exec_limit opts);
  run_msb ([js "exec"; workerName; js "-u"; workerUser msb] ++ env_args env
       ++ (match truthy (o_cwd opts) with Some dir => [js "-w"; dir] | None => [] end)
       ++ timeout ++ [js "--"] ++ argv)
    (mkOpts None (JNum limit) JUndef (o_maxOutputBytes opts)).

(** ** Copies, stopping and removal *)
Definition copy (source target : jsstr) : M unit :=
  res ← run_msb [js "copy"; source; target] no_opts;
  throw_when (failed_run res) (msb_error (output_failure "msb copy" res)).
Definition copy_in (workerName hostSrc workerDest : jsstr) : M unit := copy hostSrc (workerName ++ js ":" ++ workerDest).
Definition copy_out (workerName workerSrc hostDest : jsstr) : M unit := copy (workerName ++ js ":" ++ workerSrc) hostDest.

Definition stop (workerName : jsstr) : M unit :=
  res ← run_msb [js "stop"; workerName] (opt_timeout 60000);
  throw_when (failed_run res) (msb_error (status_failure "msb stop" res)).
Definition remove (workerName : jsstr) : M unit :=
  res ← run_msb [js "remove"; workerName] (opt_timeout 60000);
  throw_when (failed_run res) (msb_error (status_failure "msb remove" res)).

Definition removeConfigDir (workerName : jsstr) : M unit :=
  call_unit E (CRm (join [stateDir cfg; js "workers"; workerName])).

Definition list_workers : M (list jsstr) :=
  res ← run_msb [js "list"] (opt_timeout 30000);
  _ ← throw_when (failed_run res) (msb_error (status_failure "msb list" res));
  mret (List.filter (fun l => 0 <? js_length l) (map trim (split_on 10 (stdout res)))).

Definition state_of_output (out : jsstr) : WorkerState :=
  if includes out (js "running") || includes out (js "active") then ACTIVE
  else if includes out (js "paused") || includes out (js "stopped") then PAUSED
  else ACTIVE.
Definition worker_status (workerName : jsstr) : M WorkerState :=
  res ← run_msb [js "status"; workerName] (opt_timeout 30000);
  mret (if failed_run res then FAILED else state_of_output (toLowerCase (stdout res))).

(** ** Waiting for the guest *)
Inductive readiness :=
  | Ready
  | NotReady (last : option SpawnResult)   (* the deadline passed *)
  | OutOfFuel.

Definition ready_probe (workerName : jsstr) : M (option SpawnResult) :=
  try_catch (r ← run_msb [js "exec"; workerName; js "-u"; workerUser msb; js "--"; js "true"] (opt_timeout 10000); mret (Some r))
    (fun _ => mret None).
Definition answered_zero (last : option SpawnResult) : bool := match last with Some r => ok_status r | None => false end.

Fixpoint wait_loop (fuel : nat) (deadline : Z) (workerName : jsstr) (last : option SpawnResult) : M readiness :=
  match fuel with
  | O => mret OutOfFuel
  | S fuel =>
      now ← call_int E CNow;
      if now <? deadline then
        probed ← ready_probe workerName;
        if answered_zero probed then mret Ready else
        _ ← call_unit E (CSleep 500);
        wait_loop fuel deadline workerName probed
      else mret (NotReady last)
  end.

(** A poll sleeps half a second, so 121 turns outlast the minute. *)
Definition READY_TIMEOUT : Z := 60000.
Definition READY_FUEL : nat := 121.

Definition never_ready (workerName : jsstr) (last : option SpawnResult) : exn :=
  msb_error (js "worker " ++ workerName ++ js " did not become ready within " ++ dec READY_TIMEOUT ++ js "ms (last status: "
    ++ (match last ≫= status with Some z => dec z | None => js "n/a" end) ++ js ")").
Definition out_of_fuel : exn := Exn EError (js "out of fuel").

Definition waitReady (workerName : jsstr) : M unit :=
  start ← call_int E CNow;
  outcome ← wait_loop READY_FUEL (start + READY_TIMEOUT) workerName None;
  match outcome with
  | Ready => mret tt
  | NotReady last => throw (never_ready workerName last)
  | OutOfFuel => throw out_of_fuel
  end.

(** ** Creating a worker *)
Definition str_field (k v : string) : jsstr * jsval := (js k, JStr (js v)).
Definition indented_line (v : jsval) : jsstr := json_indented v ++ [10%N].
Definition cpu_number (q : Q) : jsnum := rounded (Qnum q) (Zpos (Qden q)).

(** The files of a worker's configuration, in the order they are written. *)
Definition EMPTY_CONF : jsstr := js "{}" ++ [10%N].
Definition conf_files (spec : WorkerSpec) : list (string * jsstr) :=
  [("fs.conf", EMPTY_CONF);
   ("net.conf", indented_line (JObj [str_field "policy" "none"]));
   ("resource.conf", indented_line (JObj [(js "cpus", JNum (cpu_number (ws_cpu spec)));
                                          (js "memory", JStr (memSizeString (ws_memBytes spec)))]));
   ("runtime.conf", indented_line (JObj [str_field "security" "restricted"; str_field "workdir" "/work"]));
   ("secret.conf", EMPTY_CONF)]%string.
Definition conf_path (spec : WorkerSpec) (name : string) : jsstr := join [ws_configDir spec; js name].

Definition create_args (spec : WorkerSpec) (cpus : jsstr) : list jsstr :=
  [js "create"; ws_image spec;
   js "--conf"; conf_path spec "runtime.conf"; js "--net-conf"; conf_path spec "net.conf";
   js "--resource-conf"; conf_path spec "resource.conf"; js "--fs-conf"; conf_path spec "fs.conf";
   js "--secret-conf"; conf_path spec "secret.conf";
   js "-n"; ws_name spec; js "-c"; cpus; js "--max-cpus"; cpus].

(** The worker's copy of the prepared disk, or the directory made in its place. *)
Definition disk_args (spec : WorkerSpec) : M (list jsstr) :=
  match truthy (workerRootDisk msb) with
  | Some disk =>
      let workerDisk := join [ws_configDir spec; js "worker.ext4"] in
      _ ← call_unit E (CMkdir (ws_configDir spec));
      copied ← call_proc E (CSpawn [js "cp"; js "--sparse=always"; disk; workerDisk] (opt_timeout 120000));
      _ ← throw_when (failed_run copied)
        (msb_error (status_failure "worker disk copy" copied ++ js ": " ++ trim_message (stderr copied)));
      mret [js "--root-disk"; workerDisk ++ js ":format=raw,fstype=ext4"]
  | None => mret [js "--mkdir"; js "/work"]
  end.

Definition createWorker (spec : WorkerSpec) : M unit :=
  _ ← call_unit E (CMkdir (ws_configDir spec));
  _ ← for_eachM (fun file => call_unit E (CWriteFile (conf_path spec (fst file)) (snd file) 384)) (conf_files spec);
  cpus ← lift (js_String (JNum (cpu_number (ws_cpu spec))));
  disk ← disk_args spec;
  res ← run_msb (create_args spec cpus ++ disk) (opt_timeout 180000);
  _ ← throw_when (failed_run res) (msb_error (output_failure "msb create" res));
  waitReady (ws_name spec).

(** ** The environment the adapter gives the handlers *)
Definition outcome_of {A} (m : M A) (w : world) : res A * world := let '(r, w', _) := m w in (r, w').

Definition adapter_proc (c : call) : world -> res SpawnResult * world :=
  match c with
  | CExec worker argv opts => outcome_of (adapter_exec worker argv opts)
  | _ => on_proc E c
  end.
Definition adapter_unit (c : call) : world -> res unit * world :=
  match c with
  | CCreateWorker spec => outcome_of (createWorker spec)
  | CCopyIn worker hostSrc workerDest => outcome_of (copy_in worker hostSrc workerDest)
  | CCopyOut worker workerSrc hostDest => outcome_of (copy_out worker workerSrc hostDest)
  | CStop worker => outcome_of (stop worker)
  | CRemove worker => outcome_of (remove worker)
  | CRemoveConfigDir worker => outcome_of (removeConfigDir worker)
  | _ => on_unit E c
  end.
Definition adapter_env : Environment :=
  mkEnv adapter_proc adapter_unit (on_bool E) (on_text E) (on_int E) (on_names E) (on_stats E).
End adapter.

(** ** One spawned process *)
Module Child.

(** What a stream keeps: at most [cap] bytes, and whether there were more. *)
Record sink := mkSink { sk_chunks : list (list N); sk_bytes : Z; sk_truncated : bool }.
Definition empty_sink : sink := mkSink [] 0 false.

Definition push (cap : Z) (chunk : list N) (s : sink) : sink :=
  if sk_truncated s then s else
  let remaining := cap - sk_bytes s in
  let size := Z.of_nat (length chunk) in
  if size <=? remaining then mkSink (sk_chunks s ++ [chunk]) (sk_bytes s + size) false
  else mkSink (if 0 <? remaining then sk_chunks s ++ [take (Z.to_nat remaining) chunk] else sk_chunks s) cap true.
Definition bytes (s : sink) : list N := concat (sk_chunks s).
Definition sink_text (s : sink) : jsstr := utf8_lossy (bytes s).

(** What reaches the process's handlers. *)
Inductive process_event :=
  | Stdout (chunk : list N)
  | Stderr (chunk : list N)
  | Deadline                      (* the timeout of the call *)
  | KillTimer                     (* 1.5 s after SIGTERM *)
  | Failed (message : jsstr)      (* the child's error event *)
  | Closed (code : option Z).

Inductive signal := SIGTERM | SIGKILL.

Record child := mkChild {
  ch_out : sink; ch_err : sink;
  ch_error : option jsstr;
  ch_timedOut : bool;
  ch_armed : bool;                (* the timeout is pending *)
  ch_kill_armed : bool;           (* the second timer is pending *)
  ch_result : option SpawnResult; (* what the promise resolved to *)
  ch_signals : list signal
}.
Definition spawned : child := mkChild empty_sink empty_sink None false true false None [].

Definition finish_child (code : option Z) (c : child) : child :=
  match ch_result c with
  | Some _ => c
  | None =>
      mkChild (ch_out c) (ch_err c) (ch_error c) (ch_timedOut c) false (ch_kill_armed c)
        (Some (mkSpawnBytes code (sink_text (ch_out c)) (default (sink_text (ch_err c)) (ch_error c)) (ch_timedOut c)
                 (sk_truncated (ch_out c)) (sk_truncated (ch_err c)) (Some (bytes (ch_out c))) (Some (bytes (ch_err c)))))
        (ch_signals c)
  end.

Definition process_step (cap : Z) (e : process_event) (c : child) : child :=
  match e with
  | Stdout chunk =>
      mkChild (push cap chunk (ch_out c)) (ch_err c) (ch_error c) (ch_timedOut c) (ch_armed c) (ch_kill_armed c) (ch_result c) (ch_signals c)
  | Stderr chunk =>
      mkChild (ch_out c) (push cap chunk (ch_err c)) (ch_error c) (ch_timedOut c) (ch_armed c) (ch_kill_armed c) (ch_result c) (ch_signals c)
  | Deadline =>
      if ch_armed c
      then mkChild (ch_out c) (ch_err c) (ch_error c) true false true (ch_result c) (ch_signals c ++ [SIGTERM])
      else c
  | KillTimer =>
      if ch_kill_armed c
      then mkChild (ch_out c) (ch_err c) (ch_error c) (ch_timedOut c) (ch_armed c) false (ch_result c) (ch_signals c ++ [SIGKILL])
      else c
  | Failed message =>
      finish_child None (mkChild (ch_out c) (ch_err c) (Some (js "spawn error: " ++ message)) (ch_timedOut c) (ch_armed c)
                     (ch_kill_armed c) (ch_result c) (ch_signals c))
  | Closed code => finish_child code c
  end.

Definition run_child (cap : Z) (evs : list process_event) : child := foldl (fun c e => process_step cap e c) spawned evs.

Definition DEFAULT_OUTPUT : Z := 512 * 1024.
Definition cap_of (opts : SpawnOptions) : Z := default DEFAULT_OUTPUT (o_maxOutputBytes opts).

(** ** What is spawned *)
Inductive env_mode := Merge | Replace.

Definition childEnvironment (inherited : list (jsstr * jsstr)) (env : option (list (jsstr * jsstr))) : list (jsstr * jsstr) :=
  match env with
  | Some vars => foldl (fun m kv => map_set (fst kv) (snd kv) m) inherited vars
  | None => inherited
  end.

Record process := mkProcess { p_binary : jsstr; p_args : list jsstr; p_cwd : option jsstr; p_env : list (jsstr * jsstr) }.

Section spawn.
  Context (stat : jsstr -> stat_answer) (read : jsstr -> res jsstr) (process_cwd : jsstr) (inherited : list (jsstr * jsstr)).

Definition spawnCore (argv : list jsstr) (cwd : option jsstr) (env : option (list (jsstr * jsstr))) (mode : env_mode) : res process :=
  match argv with
  | binary :: _ =>
      if (js_length binary =? 0) || includes binary [0%N] then Throw (validation_error (js "invalid executable path"))
      else
        let vars := match mode with Replace => default [] env | Merge => childEnvironment inherited env end in
        hardened ← hardenGitArgv stat read process_cwd argv cwd vars;
        Ok (mkProcess binary (tail hardened) cwd vars)
  | [] => Throw (validation_error (js "invalid executable path"))
  end.
Definition spawnArgv argv cwd env : res process := spawnCore argv cwd env Merge.
Definition spawnExec argv cwd env (mode : option env_mode) : res process := spawnCore argv cwd env (default Merge mode).
End spawn.
End Child.
