(* ===== verification/MsbFacts.v ===== *)
(** * What the worker adapter guarantees

    Of [Msb]: a command runs in its worker as the configured user, with the
    allowed variables and a bounded time; a worker is created from policy only
    and returned when its guest answers; the wait for the guest ends; what a
    spawned process prints is kept up to the cap, and its promise settles once;
    an environment that keeps the broker's state keeps it through the adapter. *)
From Stdlib Require Import QArith.
From S2P Require Import Redact Prelude JsVal Json JsOps Types State Policy Path Validation HostPaths Codec Envelope GitGuard PluginValues Queue Effects Worker WorkerFacts Msb.
Open Scope Z_scope.

(** ** Variables of a command *)

(** A variable a worker command may see. *)
Definition worker_variable (allowed : list jsstr) (kv : jsstr * jsstr) : Prop :=
  fst kv ∈ allowed /\ CREDENTIAL_KEY_RE (fst kv) = false /\ 1 <= js_length (snd kv) <= 4096.

Definition object_of_variables (entries : list (jsstr * jsstr)) : jsval := JObj (map (fun kv => (fst kv, JStr (snd kv))) entries).

Lemma env_entry_Ok allowed kv e :
  env_entry allowed kv = Ok e -> kv = (fst e, JStr (snd e)) /\ worker_variable allowed e.
Proof.
  destruct kv as [k v]. unfold env_entry, throw_if, mem.
  destruct (CREDENTIAL_KEY_RE k) eqn:Hc; [done|]. case_bool_decide as Hm; [|done]. cbn [negb mbind res_bind].
  destruct v as [| | | |s| |]; try done.
  destruct (_ || _) eqn:Hs; cbn [mbind res_bind]; [done|]. intros [= <-]. cbn.
  apply orb_false_iff in Hs as [H1 H2]. unfold worker_variable. cbn.
  repeat split; auto; unfold js_length in *; lia.
Qed.

Lemma env_entries_Ok allowed fs entries :
  map_res (env_entry allowed) fs = Ok entries ->
  fs = map (fun kv => (fst kv, JStr (snd kv))) entries /\ Forall (worker_variable allowed) entries.
Proof.
  revert entries. induction fs as [|kv fs IH]; cbn; intros entries H; [by injection H as <-|].
  destruct (env_entry allowed kv) as [e|] eqn:He; cbn in H; [|done].
  destruct (map_res (env_entry allowed) fs) as [es|]; cbn in H; [|done]. injection H as <-.
  destruct (IH _ eq_refl) as [-> Hall]. apply env_entry_Ok in He as [-> Hv]. by split; [|constructor].
Qed.

Lemma assertWorkerEnv_Ok env allowed o :
  assertWorkerEnv env allowed = Ok o ->
  Forall (worker_variable allowed) (default [] o) /\ (is_nullish env = true \/ env = object_of_variables (default [] o)).
Proof.
  destruct env; cbn; intros H; try done; [injection H as <-; by split; [constructor|left]..|].
  destruct (map_res _ _) as [es|] eqn:He; cbn in H; [|done]. injection H as <-.
  apply env_entries_Ok in He as [-> Hall]. split; [done|by right].
Qed.

(** ** Time *)
Definition whole_ms (v : jsval) : Prop := is_nullish v = true \/ exists n, v = JNum (NumInt n).

Lemma capped_int n max :
  cappedTimeoutMs (NumInt n) max = NumInt (Z.max 1000 (Z.min n max)).
Proof.
  unfold cappedTimeoutMs, num_above, below_number; cbn. rewrite Z.mul_1_r.
  destruct (Z.ltb_spec max n); cbn; case_match; f_equal; lia.
Qed.

Lemma exec_limit_int cfg opts :
  whole_ms (o_timeoutMs opts) -> execTimeoutMsMax cfg <= 2 ^ 52 ->
  exists n, exec_limit cfg opts = Ok (NumInt n) /\ 11000 <= n <= Z.max 1000 (execTimeoutMsMax cfg) + 10000.
Proof.
  intros Hms Hmax. unfold exec_limit.
  assert (exists n, (if is_nullish (o_timeoutMs opts) then JNum (NumInt (execTimeoutMsDefault cfg)) else o_timeoutMs opts)
                    = JNum (NumInt n)) as [n ->].
  { destruct Hms as [->|[n ->]]; eauto. }
  cbn [numeric to_primitive to_number mbind res_bind]. rewrite capped_int.
  rewrite add_num_int by lia. eexists. split; [done|]. lia.
Qed.

(** ** Running a command *)
Section exec.
  Context (cfg : BrokerConfig) (msb : MsbConfig) (E : Environment).

Lemma always_run args opts (Q : res SpawnResult -> list event -> Prop) :
  (forall a, Q match a with
               | Ok p => if timedOut p then Throw (msb_error (js "msb " ++ default (js "?") (head args) ++ js " timed out"))
                         else Ok (normalized p)
               | Throw e => Throw e
               end [EvProc (CSpawn (msbBinary msb :: args) (run_options cfg msb opts)) a]) ->
  always (run_msb cfg msb E args opts) Q.
Proof.
  intros H. unfold run_msb. apply always_bind, always_call_proc. intros [p|e]; [|apply (H (Throw e))].
  specialize (H (Ok p)). cbn in H. destruct (timedOut p); [by apply always_throw|by apply always_ret].
Qed.

(** The guest's own timeout, when the caller gave one, ends ten seconds before
    the host's. *)
Definition guest_timeout (limit : Z) (args : list jsstr) : Prop := args = [] \/ args = [js "--timeout"; dec (limit - 10000)].

Lemma exec_timeout_guest opts limit args :
  whole_ms (o_timeoutMs opts) -> execTimeoutMsMax cfg <= 2 ^ 52 ->
  exec_limit cfg opts = Ok (NumInt limit) -> exec_timeout cfg opts = Ok args -> guest_timeout limit args.
Proof.
  unfold exec_limit, exec_timeout, guest_timeout. intros [Hn|[n ->]] Hmax.
  - destruct (o_timeoutMs opts); try done; intros _ [= <-]; by left.
  - cbn [is_nullish numeric to_primitive to_number mbind res_bind]. rewrite capped_int.
    rewrite add_num_int by lia. intros [= <-].
    destruct (is_falsy _); cbn; intros [= <-]; [by left|right]. by rewrite Z.add_simpl_r.
Qed.

(** The arguments of a command's process. *)
Definition exec_args (worker : jsstr) (entries : list (jsstr * jsstr)) (dir timeout argv : list jsstr) : list jsstr :=
  msbBinary msb :: [js "exec"; worker; js "-u"; workerUser msb] ++ env_args (Some entries) ++ dir ++ timeout ++ [js "--"] ++ argv.

(** One command, as the adapter runs it. *)
Definition confined_run (worker : jsstr) (argv : list jsstr) (opts : SpawnOptions) (r : res SpawnResult) (t : list event) : Prop :=
  exists entries dir timeout limit a,
    t = [EvProc (CSpawn (exec_args worker entries dir timeout argv)
                   (mkOpts None (JNum (NumInt limit)) JUndef (Some (default (outputMaxBytes msb) (o_maxOutputBytes opts))))) a] /\
    Forall (worker_variable (envAllowedKeys msb)) entries /\
    (is_nullish (o_env opts) = true \/ o_env opts = object_of_variables entries) /\
    (dir = [] \/ exists d, o_cwd opts = Some d /\ dir = [js "-w"; d]) /\
    guest_timeout limit timeout /\
    11000 <= limit <= Z.max 1000 (execTimeoutMsMax cfg) + 10000 /\
    (forall out, r = Ok out -> exists p, a = Ok p /\ timedOut p = false /\ out = normalized p).

(** C9: a command of a worker is at most one process: the worker program, as
    the configured user, with the command's own arguments after [--]; the
    variables it is given are the caller's, every one of them on the allowlist,
    none shaped like a credential and none out of bounds; the process ends
    within the policy's longest time and ten seconds; and a command that is
    refused (a variable outside the allowlist) starts nothing.  What is returned
    is the output of a process that did not time out. *)
Theorem worker_exec_confined worker argv opts :
  whole_ms (o_timeoutMs opts) -> execTimeoutMsMax cfg <= 2 ^ 52 ->
  always (adapter_exec cfg msb E worker argv opts) (fun r t =>
    (exists e, r = Throw e /\ t = []) \/ confined_run worker argv opts r t).
Proof.
  intros Hms Hmax. unfold adapter_exec.
  apply always_bind, always_lift. destruct (assertWorkerEnv _ _) as [env|e] eqn:Henv; [|by left; eauto].
  apply always_bind, always_lift. destruct (exec_timeout _ _) as [timeout|e] eqn:Ht; [|by left; eauto].
  apply always_bind, always_lift.
  destruct (exec_limit_int cfg opts Hms Hmax) as (n & Hn & Hbound). rewrite Hn.
  apply always_run. intros a. right. apply assertWorkerEnv_Ok in Henv as [Hall Heq].
  exists (default [] env), (match truthy (o_cwd opts) with Some dir => [js "-w"; dir] | None => [] end), timeout, n, a.
  split_and!; [|done|done| |by eapply exec_timeout_guest|lia|lia|].
  - by destruct env.
  - destruct (o_cwd opts) as [[|c d]|]; cbn; eauto.
  - intros out. destruct a as [p|e]; [|done]. destruct (timedOut p) eqn:Hp; [done|]. intros [= <-]. eauto.
Qed.
End exec.

Definition sample_msb : MsbConfig :=
  mkMsb (js "/bin/msb") (Some (js "/st/root.ext4")) (js "nobody") (map js ["LANG"; "PATH"]%string) 524288.
Definition sample_exec_opts (k : string) : SpawnOptions :=
  mkOpts (Some (js "/work")) (JNum (NumInt 5000)) (JObj [(js k, JStr (js "C"))]) None.

Example credential_starts_nothing :
  snd (adapter_exec sample_config sample_msb quiet_env (js "w") (map js ["ls"]%string) (sample_exec_opts "GH_Token") (sample_world ∅)) = [].
Proof. reflexivity. Qed.

Lemma worker_exec_confined_witness :
  (let '(r, _, t) := adapter_exec sample_config sample_msb quiet_env (js "w") (map js ["ls"; "-l"]%string) (sample_exec_opts "LANG") (sample_world ∅) in
   length t = 1%nat /\
   ((exists e, r = Throw e /\ t = []) \/
    confined_run sample_config sample_msb (js "w") (map js ["ls"; "-l"]%string) (sample_exec_opts "LANG") r t)).
Proof.
  assert (whole_ms (o_timeoutMs (sample_exec_opts "LANG"))) as Hms by (right; by exists 5000).
  assert (execTimeoutMsMax sample_config <= 2 ^ 52) as Hmax by (vm_compute; discriminate).
  pose proof (worker_exec_confined sample_config sample_msb quiet_env (js "w") (map js ["ls"; "-l"]%string)
    (sample_exec_opts "LANG") Hms Hmax (sample_world ∅)) as H. unfold wp in H.
  assert (length (snd (adapter_exec sample_config sample_msb quiet_env (js "w") (map js ["ls"; "-l"]%string)
    (sample_exec_opts "LANG") (sample_world ∅))) = 1%nat) as Hlen by reflexivity.
  destruct (adapter_exec _ _ _ _ _ _ _) as [[r w'] t]. split; [exact Hlen | exact H].
Defined.

(** ** Waiting for the guest *)
Section ready.
  Context (cfg : BrokerConfig) (msb : MsbConfig) (E : Environment) (clock : world -> Z).

(** The clock never goes back, reading it tells it, and a sleep lasts at least
    its time. *)
Definition keeps_clock : Prop := forall w,
  (exists w', on_int E CNow w = (Ok (clock w), w') /\ clock w <= clock w') /\
  (forall c, clock w <= clock (snd (on_proc E c w))) /\
  (forall ms, exists w', on_unit E (CSleep ms) w = (Ok tt, w') /\ clock w + ms <= clock w').

Definition probe_call (workerName : jsstr) : call :=
  CSpawn (msbBinary msb :: [js "exec"; workerName; js "-u"; workerUser msb; js "--"; js "true"]) (run_options cfg msb (opt_timeout 10000)).

Definition probes (t : list event) : Z := Z.of_nat (length (List.filter (fun e => match e with EvProc _ _ => true | _ => false end) t)).

Lemma probes_app t u : probes (t ++ u) = probes t + probes u.
Proof. unfold probes. rewrite List.filter_app, length_app. lia. Qed.

(** The guest answered: the last call of [t] is a probe that exited with 0. *)
Definition guest_answered (workerName : jsstr) (t : list event) : Prop :=
  exists t0 p, t = t0 ++ [EvProc (probe_call workerName) (Ok p)] /\ status p = Some 0 /\ timedOut p = false.

Lemma guest_answered_app workerName t u : guest_answered workerName u -> guest_answered workerName (t ++ u).
Proof. intros (t0 & p & -> & H). exists (t ++ t0), p. by rewrite app_assoc. Qed.

Lemma wp_ready_probe workerName w :
  keeps_clock ->
  wp (ready_probe cfg msb E workerName) (fun r w' t =>
    exists probed, r = Ok probed /\ clock w <= clock w' /\ probes t = 1 /\
      (answered_zero probed = true -> guest_answered workerName t)) w.
Proof.
  intros Hc. unfold wp, ready_probe, run_msb, try_catch, call_proc, mbind, M_bind. fold (probe_call workerName).
  destruct (Hc w) as (_ & Hp & _). specialize (Hp (probe_call workerName)).
  destruct (on_proc E (probe_call workerName) w) as [[p|e] w'] eqn:Ha; cbn in Hp.
  2: { exists None. by repeat split. }
  destruct (timedOut p) eqn:Ht; cbn; [exists None; by repeat split|].
  exists (Some (normalized p)). split_and!; [done|done|done|].
  cbn. unfold ok_status. cbn. intros H%bool_decide_eq_true. by exists [], p.
Qed.

Definition loop_ends (workerName : jsstr) (start deadline : Z) (r : res readiness) (w' : world) (t : list event) : Prop :=
  500 * probes t < Z.max 0 (deadline - start) + 500 /\
  ((r = Ok Ready /\ guest_answered workerName t) \/ (exists last, r = Ok (NotReady last) /\ deadline <= clock w')).

Lemma wait_loop_ends workerName deadline fuel w last :
  keeps_clock -> deadline - clock w <= 500 * (Z.of_nat fuel - 1) -> (0 < fuel)%nat ->
  wp (wait_loop cfg msb E fuel deadline workerName last) (loop_ends workerName (clock w) deadline) w.
Proof.
  intros Hc. revert w last. induction fuel as [|fuel IH]; intros w last Hfuel Hpos; [lia|]. cbn [wait_loop].
  destruct (Hc w) as ((w1 & Hnow & Hle) & _ & _).
  apply wp_bind. unfold wp at 1, call_int. rewrite Hnow.
  destruct (Z.ltb_spec (clock w) deadline) as [Hlt|Hge].
  2: { unfold wp, mret, M_ret, loop_ends. cbn. split; [unfold probes; cbn; lia|]. right. exists last. split; [done|lia]. }
  apply wp_bind. eapply wp_mono; [by apply wp_ready_probe|].
  intros r w2 t2 (probed & -> & Hle2 & Hp2 & Hans). cbn beta iota.
  assert (probes [EvInt CNow (Ok (clock w))] = 0) as Hp1 by done.
  destruct (answered_zero probed) eqn:Hz.
  { unfold wp, mret, M_ret, loop_ends. rewrite !probes_app. split; [unfold probes at 3; cbn; lia|].
    left. split; [done|]. rewrite app_nil_r. by apply guest_answered_app, Hans. }
  destruct (Hc w2) as (_ & _ & Hsleep). destruct (Hsleep 500) as (w3 & Hs & Hle3).
  apply wp_bind. unfold wp at 1, call_unit. rewrite Hs.
  destruct fuel as [|fuel]; [cbn in Hfuel; lia|].
  eapply wp_mono; [apply IH; lia|]. intros r w' t (Hn & Hr).
  assert (probes [EvUnit (CSleep 500) (Ok tt)] = 0) as Hp3 by done.
  split; [rewrite !probes_app; lia|]. destruct Hr as [[-> Hg]|(l & -> & Hd)]; [left|right; by exists l].
  split; [done|]. by do 3 apply guest_answered_app.
Qed.

Definition wait_ends (workerName : jsstr) (start : Z) (r : res unit) (w' : world) (t : list event) : Prop :=
  probes t <= 120 /\
  ((r = Ok tt /\ guest_answered workerName t) \/
   (exists last, r = Throw (never_ready workerName last) /\ start + READY_TIMEOUT <= clock w')).

(** C32: waiting for a guest ends, after at most 120 polls: either its last call
    is a poll that the guest answered with 0, or the minute has passed and the
    caller is told so.  The fuel of the model is never used up. *)
Theorem wait_for_guest_ends workerName w :
  keeps_clock -> wp (waitReady cfg msb E workerName) (wait_ends workerName (clock w)) w.
Proof.
  intros Hc. unfold waitReady. destruct (Hc w) as ((w1 & Hnow & Hle) & _ & _).
  apply wp_bind. unfold wp at 1, call_int. rewrite Hnow.
  apply wp_bind. eapply wp_mono.
  { apply (wait_loop_ends workerName (clock w + READY_TIMEOUT) READY_FUEL w1 None Hc); unfold READY_TIMEOUT, READY_FUEL; lia. }
  unfold READY_TIMEOUT. intros r w' t (Hn & Hr). unfold wait_ends.
  assert (probes [EvInt CNow (Ok (clock w))] = 0) as Hp1 by done.
  destruct Hr as [[-> Hg]|(l & -> & Hd)]; unfold wp, mret, M_ret, throw; rewrite app_nil_r, probes_app, Hp1; (split; [lia|]).
  - left. split; [done|]. by apply guest_answered_app.
  - right. exists l. done.
Qed.
End ready.

(** A guest that answers at the third poll; the world counts its milliseconds
    outside the broker. *)
Definition ms_of (w : world) : Z := Z.of_N (w_outside w).
Definition after_ms (ms : Z) (w : world) : world :=
  mkWorld (w_store w) (w_pool w) (w_queue w) (w_tasks w) (w_locks w) (w_now w) (w_outside w + Z.to_N ms).
Definition booting_env : Environment :=
  mkEnv (fun _ w => (Ok (mkSpawn (if ms_of w <? 1000 then Some 1 else Some 0) [] [] false false false), w))
        (fun c w => (Ok tt, after_ms (match c with CSleep ms => ms | _ => 0 end) w)) (fun _ w => (Ok true, w)) (fun _ w => (Ok [], w))
        (fun _ w => (Ok (ms_of w), w)) (fun _ w => (Ok [], w)) (fun _ w => (Ok (mkStats true false 1), w)).

Lemma booting_keeps_clock : keeps_clock booting_env ms_of.
Proof.
  intros w. cbn. split_and!; [eexists; split; [done|lia]|intros _; lia|].
  intros ms. eexists. split; [done|]. unfold ms_of, after_ms. cbn. lia.
Qed.

Lemma wait_for_guest_ends_witness :
  (let '(r, _, t) := waitReady sample_config sample_msb booting_env (js "w") (sample_world ∅) in
   r = Ok tt /\ probes t = 3) /\
  wp (waitReady sample_config sample_msb booting_env (js "w")) (wait_ends sample_config sample_msb ms_of (js "w") 0) (sample_world ∅).
Proof.
  split; [by vm_compute|].
  exact (wait_for_guest_ends sample_config sample_msb booting_env ms_of (js "w") (sample_world ∅) booting_keeps_clock).
Defined.

(** ** Creating a worker *)
Lemma always_both {A} (m : M A) (Q R : res A -> list event -> Prop) :
  always m Q -> always m R -> always m (fun r t => Q r t /\ R r t).
Proof. intros HQ HR w. specialize (HQ w). specialize (HR w). unfold wp in *. by destruct (m w) as [[r w'] t]. Qed.

Lemma always_units E {A} (f : A -> call) xs :
  always (for_eachM (fun x => call_unit E (f x)) xs)
    (fun r t => r = Ok tt -> t = map (fun x => EvUnit (f x) (Ok tt)) xs).
Proof.
  induction xs as [|x xs IH]; cbn [for_eachM map]; [by apply always_ret|].
  apply always_bind, always_call_unit. intros [[]|e]; [|done].
  eapply always_mono; [exact IH|]. intros r t H Hr. cbn. by rewrite (H Hr).
Qed.

Lemma only_units P E {A} (f : A -> call) xs :
  (forall x, x ∈ xs -> P (f x)) -> only_calls P (for_eachM (fun x => call_unit E (f x)) xs).
Proof.
  induction xs as [|x xs IH]; cbn [for_eachM]; intros H; [apply only_ret|].
  apply only_bind; [apply only_call_unit, H; left|]. intros _. apply IH. intros y Hy. apply H. by right.
Qed.

(** [String(n)] *)
Definition text_of_number (n : jsnum) : jsstr := match js_String (JNum n) with Ok s => s | Throw _ => [] end.
Lemma js_String_num n : js_String (JNum n) = Ok (text_of_number n).
Proof. by destruct n. Qed.

Section create.
  Context (cfg : BrokerConfig) (msb : MsbConfig) (E : Environment) (spec : WorkerSpec).

Definition create_call (disk : list jsstr) : call :=
  CSpawn (msbBinary msb :: create_args spec (text_of_number (cpu_number (ws_cpu spec))) ++ disk)
    (run_options cfg msb (opt_timeout 180000)).
Definition worker_disk : jsstr := join [ws_configDir spec; js "worker.ext4"].
Definition clone_call (disk : jsstr) : call := CSpawn [js "cp"; js "--sparse=always"; disk; worker_disk] (opt_timeout 120000).

(** How the worker gets its disk: the calls made for it and the arguments. *)
Definition disk_made (t : list event) (args : list jsstr) : Prop :=
  match truthy (workerRootDisk msb) with
  | None => t = [] /\ args = [js "--mkdir"; js "/work"]
  | Some disk =>
      exists copied, t = [EvUnit (CMkdir (ws_configDir spec)) (Ok tt); EvProc (clone_call disk) (Ok copied)] /\
        (status copied = Some 0 \/ timedOut copied = true) /\
        args = [js "--root-disk"; worker_disk ++ js ":format=raw,fstype=ext4"]
  end.

Definition write_conf (file : string * jsstr) : call := CWriteFile (conf_path spec (fst file)) (snd file) 384.

(** A creation that returned: the directory, the files of the policy, the disk,
    the creation, which exited with 0, and a guest that answered. *)
Definition created (t : list event) : Prop :=
  exists disk_calls disk p polls,
    t = EvUnit (CMkdir (ws_configDir spec)) (Ok tt) :: map (fun f => EvUnit (write_conf f) (Ok tt)) (conf_files spec)
        ++ disk_calls ++ EvProc (create_call disk) (Ok p) :: polls /\
    disk_made disk_calls disk /\ status p = Some 0 /\ timedOut p = false /\ guest_answered cfg msb (ws_name spec) polls.

(** The calls a creation may make. *)
Definition policy_call (c : call) : Prop :=
  match c with
  | CMkdir path => path = ws_configDir spec
  | CWriteFile path content mode => exists f, f ∈ conf_files spec /\ c = write_conf f
  | CSpawn argv opts =>
      (exists disk, truthy (workerRootDisk msb) = Some disk /\ c = clone_call disk) \/
      (exists disk, c = create_call disk) \/ c = probe_call cfg msb (ws_name spec)
  | CNow => True
  | CSleep ms => ms = 500
  | _ => False
  end.

Lemma only_wait_loop fuel deadline last : only_calls policy_call (wait_loop cfg msb E fuel deadline (ws_name spec) last).
Proof.
  revert last. induction fuel as [|fuel IH]; intros last; cbn [wait_loop]; repeat only_step; try done.
  unfold ready_probe, run_msb. repeat only_step. right. by right.
Qed.

Lemma only_createWorker : only_calls policy_call (createWorker cfg msb E spec).
Proof.
  unfold createWorker. apply only_bind; [by apply only_call_unit|intros _].
  apply only_bind; [apply (only_units _ _ write_conf); intros f Hf; by exists f|intros _].
  rewrite js_String_num. apply always_bind, always_lift. cbn [app].
  apply only_bind.
  { unfold disk_args. destruct (truthy _) as [disk|] eqn:Hd; repeat only_step; [done|]. left. by exists disk. }
  intros disk. apply only_bind; [unfold run_msb; repeat only_step; right; left; by exists disk|intros res].
  apply only_bind; [apply only_throw_when|intros _].
  unfold waitReady. apply only_bind; [by apply only_call_int|intros start].
  apply only_bind; [apply only_wait_loop|intros outcome]. repeat only_step.
Qed.

Lemma always_wait_loop fuel deadline last :
  always (wait_loop cfg msb E fuel deadline (ws_name spec) last)
    (fun r t => r = Ok Ready -> guest_answered cfg msb (ws_name spec) t).
Proof.
  revert last. induction fuel as [|fuel IH]; intros last; cbn [wait_loop]; [by apply always_ret|].
  apply always_bind, always_call_int. intros [now|e]; [|done].
  destruct (now <? deadline); [|by apply always_ret].
  apply always_bind. unfold ready_probe. apply always_try_catch, always_bind, always_run.
  assert (forall probed t, (answered_zero probed = true -> guest_answered cfg msb (ws_name spec) t) ->
    always (if answered_zero probed then mret Ready else
            _ ← call_unit E (CSleep 500); wait_loop cfg msb E fuel deadline (ws_name spec) probed)
      (fun r t' => r = Ok Ready -> guest_answered cfg msb (ws_name spec) ([EvInt CNow (Ok now)] ++ t ++ t'))) as Hrest.
  { intros probed t Ht. destruct (answered_zero probed).
    { apply always_ret. intros _. rewrite app_nil_r. by apply guest_answered_app, Ht. }
    apply always_bind, always_call_unit. intros [[]|e]; [|done].
    eapply always_mono; [apply IH|]. intros r u H Hr. by do 3 apply guest_answered_app; apply H. }
  intros a. fold (probe_call cfg msb (ws_name spec)). destruct a as [p|e]; [destruct (timedOut p) eqn:Ht|].
  - apply always_ret. rewrite app_nil_r. by apply Hrest.
  - apply always_ret. rewrite app_nil_r. apply Hrest. cbn. unfold ok_status. cbn. intros H%bool_decide_eq_true. by exists [], p.
  - apply always_ret. rewrite app_nil_r. by apply Hrest.
Qed.

Lemma always_waitReady :
  always (waitReady cfg msb E (ws_name spec)) (fun r t => r = Ok tt -> guest_answered cfg msb (ws_name spec) t).
Proof.
  unfold waitReady. apply always_bind, always_call_int. intros [start|e]; [|done].
  apply always_bind. eapply always_mono; [apply always_wait_loop|].
  intros [outcome|e] t H; [|done]. destruct outcome; [apply always_ret|by apply always_throw..].
  intros _. rewrite app_nil_r. by apply guest_answered_app, H.
Qed.

Lemma always_disk_args : always (disk_args msb E spec) (fun r t => forall args, r = Ok args -> disk_made t args).
Proof.
  unfold disk_args, disk_made. destruct (truthy _) as [disk|].
  2: { apply always_ret. by intros ? [= <-]. }
  apply always_bind, always_call_unit. intros [[]|e]; [|done].
  apply always_bind, always_call_proc. intros [copied|e]; [|done].
  apply always_bind, always_throw_when; [done|]. intros Hok. apply always_ret. intros ? [= <-].
  exists copied. split_and!; [done| |done].
  apply andb_false_iff in Hok as [H|H]; apply negb_false_iff in H; [left|by right]. by apply bool_decide_eq_true in H.
Qed.

End create.

(** A template disk whose copy timed out is taken for a copied one. *)
Definition slow_copy_env : Environment :=
  mkEnv (fun c w => (Ok (mkSpawn (Some 0) [] [] (match c with CSpawn (prog :: _) _ => str_eqb prog (js "cp") | _ => false end) false false), w))
        (fun _ w => (Ok tt, w)) (fun _ w => (Ok true, w)) (fun _ w => (Ok [], w))
        (fun _ w => (Ok 0, w)) (fun _ w => (Ok [], w)) (fun _ w => (Ok (mkStats true false 1), w)).
Definition sample_spec : WorkerSpec := mkSpec (js "ocw-s") 2%Q 2147483648 (js "debian") (js "/st/workers/ocw-s") (js "deny-by-default").

Example timed_out_copy_creates :
  (let '(r, _, t) := createWorker sample_config sample_msb slow_copy_env sample_spec (sample_world ∅) in
   r = Ok tt /\ existsb (fun e => match e with EvProc _ (Ok p) => timedOut p | _ => false end) t = true).
Proof. by vm_compute. Qed.

Example inactive_reads_active : state_of_output (js "inactive") = ACTIVE.
Proof. reflexivity. Qed.

(** ** The adapter as an environment *)
Section keeps.
  Context (cfg : BrokerConfig) (msb : MsbConfig) (E : Environment) (I : world -> Prop).
  Hypothesis HE : env_keeps I E.

Lemma keeps_run args opts : keeps I (run_msb cfg msb E args opts).
Proof using HE. unfold run_msb. repeat keeps_step. Qed.
Lemma keeps_copy a b : keeps I (copy cfg msb E a b).
Proof using HE. unfold copy. apply keeps_bind; [apply keeps_run|intros]. keeps_step. Qed.
Lemma keeps_adapter_exec worker argv opts : keeps I (adapter_exec cfg msb E worker argv opts).
Proof using HE. unfold adapter_exec. do 3 (apply keeps_bind; [apply keeps_lift|intros ?]). apply keeps_run. Qed.

Lemma keeps_wait_loop worker fuel deadline last : keeps I (wait_loop cfg msb E fuel deadline worker last).
Proof using HE.
  revert last. induction fuel as [|fuel IH]; intros last; cbn [wait_loop]; repeat keeps_step; [|apply IH].
  unfold ready_probe. apply keeps_try_catch; [|intros; keeps_step].
  apply keeps_bind; [apply keeps_run|intros; keeps_step].
Qed.

Lemma keeps_createWorker spec : keeps I (createWorker cfg msb E spec).
Proof using HE.
  unfold createWorker. do 3 (apply keeps_bind; [repeat keeps_step|intros ?]).
  apply keeps_bind; [unfold disk_args; repeat keeps_step|intros disk].
  apply keeps_bind; [apply keeps_run|intros res]. apply keeps_bind; [keeps_step|intros _].
  unfold waitReady. apply keeps_bind; [by keeps_step|intros start].
  apply keeps_bind; [apply keeps_wait_loop|intros outcome]. repeat keeps_step.
Qed.

Lemma outcome_keeps {A} (m : M A) w : keeps I m -> I w -> I (snd (outcome_of m w)).
Proof using Type. intros H Hw. specialize (H w Hw). unfold wp, outcome_of in *. by destruct (m w) as [[r w'] t]. Qed.

(** What the adapter's processes and files keep, the adapter keeps: in
    particular a session record nobody else writes ([session_locked]). *)
Theorem adapter_keeps : env_keeps I (adapter_env cfg msb E).
Proof using HE.
  intros c w Hw. destruct (HE c w Hw) as (Hp & Hu & Hb & Ht & Hi & Hn & Hs). cbn. split_and!; try done.
  - destruct c; try done. by apply outcome_keeps; [apply keeps_adapter_exec|].
  - destruct c; try done; cbn [adapter_unit]; apply outcome_keeps; try done.
    + apply keeps_createWorker.
    + apply keeps_copy.
    + apply keeps_copy.
    + unfold stop. apply keeps_bind; [apply keeps_run|intros; keeps_step].
    + unfold remove. apply keeps_bind; [apply keeps_run|intros; keeps_step].
    + unfold removeConfigDir. by keeps_step.
Qed.
End keeps.

Corollary adapter_session_locked cfg msb E sid : session_locked sid E -> session_locked sid (adapter_env cfg msb E).
Proof. intros H r. apply adapter_keeps, H. Qed.

(** What a confirmed removal is, for the release of a worker: the worker program
    exited with 0 in time. *)
Theorem removal_confirmed cfg msb E worker w w' :
  on_unit (adapter_env cfg msb E) (CRemove worker) w = (Ok tt, w') ->
  exists p, on_proc E (CSpawn [msbBinary msb; js "remove"; worker] (run_options cfg msb (opt_timeout 60000))) w = (Ok p, w') /\
    status p = Some 0 /\ timedOut p = false.
Proof.
  cbn. unfold outcome_of, remove, run_msb, call_proc, mbind, M_bind.
  destruct (on_proc E _ w) as [[p|e] w1]; [|done]. destruct (timedOut p) eqn:Ht; cbn; [done|].
  unfold throw_when, failed_run. cbn. rewrite Ht, andb_true_r. unfold ok_status. cbn.
  case_bool_decide as Hs; cbn; [|done]. intros [= <-]. by exists p.
Qed.

(** ** A spawned process *)
Section child.
Import Child.
Context (cap : Z) (Hcap : 0 <= cap).

Definition terminal (e : Child.process_event) : bool := match e with Failed _ | Closed _ => true | _ => false end.
Definition stdout_data (evs : list Child.process_event) : list N := concat (omap (fun e => match e with Stdout b => Some b | _ => None end) evs).
Definition stderr_data (evs : list Child.process_event) : list N := concat (omap (fun e => match e with Stderr b => Some b | _ => None end) evs).
Definition timed_out (evs : list Child.process_event) : bool := existsb (fun e => match e with Deadline => true | _ => false end) evs.

(** What is kept of a stream that carried [data]. *)
Definition kept_bytes (data : list N) : list N := take (Z.to_nat cap) data.
Definition cut (data : list N) : bool := cap <? Z.of_nat (length data).

(** The result of a process whose handlers saw [before] and then [e]. *)
Definition result_at (before : list Child.process_event) (e : Child.process_event) : SpawnResult :=
  let out := stdout_data before in
  let err := stderr_data before in
  mkSpawnBytes (match e with Closed code => code | _ => None end)
    (utf8_lossy (kept_bytes out))
    (match e with Failed m => js "spawn error: " ++ m | _ => utf8_lossy (kept_bytes err) end)
    (timed_out before) (cut out) (cut err) (Some (kept_bytes out)) (Some (kept_bytes err)).

Definition sink_of (data : list N) (s : sink) : Prop :=
  bytes s = kept_bytes data /\ sk_truncated s = cut data /\ sk_bytes s = Z.min cap (Z.of_nat (length data)).

Lemma push_sink data chunk s : sink_of data s -> sink_of (data ++ chunk) (push cap chunk s).
Proof using Hcap.
  intros (Hb & Ht & Hn). unfold push, sink_of, kept_bytes, cut, bytes in *. rewrite length_app.
  destruct (sk_truncated s) eqn:Hts; symmetry in Ht.
  { apply Z.ltb_lt in Ht. rewrite Hb, take_app_le, Hts, Hn by lia. repeat split; [|lia]. symmetry. apply Z.ltb_lt. lia. }
  apply Z.ltb_ge in Ht. rewrite Hn, take_ge in * by lia.
  destruct (Z.leb_spec (Z.of_nat (length chunk)) (cap - Z.min cap (Z.of_nat (length data)))); cbn.
  - rewrite concat_app, Hb, (take_ge (data ++ chunk)) by (rewrite ?length_app; lia). cbn. rewrite app_nil_r.
    repeat split; [|lia]. symmetry. apply Z.ltb_ge. lia.
  - rewrite take_app_ge by lia. destruct (Z.ltb_spec 0 (cap - Z.min cap (Z.of_nat (length data)))).
    + rewrite concat_app, Hb. cbn. rewrite app_nil_r. replace (Z.to_nat (cap - _)) with (Z.to_nat cap - length data)%nat by lia.
      repeat split; [|lia]. symmetry. apply Z.ltb_lt. lia.
    + rewrite Hb. replace (Z.to_nat cap - length data)%nat with 0%nat by lia. rewrite app_nil_r.
      repeat split; [|lia]. symmetry. apply Z.ltb_lt. lia.
Qed.

(** The state of a process that has not ended. *)
Definition running (evs : list Child.process_event) (c : child) : Prop :=
  sink_of (stdout_data evs) (ch_out c) /\ sink_of (stderr_data evs) (ch_err c) /\ ch_error c = None /\
  ch_timedOut c = timed_out evs /\ ch_armed c = negb (timed_out evs) /\ ch_result c = None.

Lemma run_child_snoc evs e : run_child cap (evs ++ [e]) = process_step cap e (run_child cap evs).
Proof using Type. unfold run_child. by rewrite foldl_snoc. Qed.

Lemma stdout_data_snoc evs e : stdout_data (evs ++ [e]) = stdout_data evs ++ match e with Stdout b => b | _ => [] end.
Proof using Type. unfold stdout_data. rewrite omap_app, concat_app. by destruct e; cbn; rewrite ?app_nil_r. Qed.
Lemma stderr_data_snoc evs e : stderr_data (evs ++ [e]) = stderr_data evs ++ match e with Stderr b => b | _ => [] end.
Proof using Type. unfold stderr_data. rewrite omap_app, concat_app. by destruct e; cbn; rewrite ?app_nil_r. Qed.
Lemma timed_out_snoc evs e : timed_out (evs ++ [e]) = timed_out evs || match e with Deadline => true | _ => false end.
Proof using Type. unfold timed_out. rewrite existsb_app. cbn. by rewrite orb_false_r. Qed.

Lemma running_run evs : forallb (fun e => negb (terminal e)) evs = true -> running evs (run_child cap evs).
Proof using Hcap.
  induction evs as [|e evs IH] using rev_ind; intros H.
  { unfold running, sink_of, kept_bytes, cut. cbn. rewrite take_nil. repeat split; try lia; symmetry; apply Z.ltb_ge; lia. }
  rewrite forallb_app in H. apply andb_true_iff in H as [H He]. cbn in He. rewrite andb_true_r in He.
  destruct (IH H) as (Ho & Hr & Hx & Ht & Ha & Hres). rewrite run_child_snoc. unfold running.
  rewrite stdout_data_snoc, stderr_data_snoc, timed_out_snoc.
  destruct e; cbn in He; try done; cbn [process_step]; rewrite ?app_nil_r, ?orb_false_r, ?orb_true_r.
  - split_and!; cbn; try done. by apply push_sink.
  - split_and!; cbn; try done. by apply push_sink.
  - rewrite Ha. destruct (timed_out evs) eqn:Hd; cbn; split_and!; cbn; try done; congruence.
  - destruct (ch_kill_armed _); split_and!; cbn; done.
Qed.

Lemma settled_stays evs r : ch_result (run_child cap evs) = Some r -> forall post, ch_result (run_child cap (evs ++ post)) = Some r.
Proof using Type.
  intros H post. induction post as [|e post IH] using rev_ind; [by rewrite app_nil_r|].
  rewrite app_assoc, run_child_snoc. destruct e; cbn [process_step]; repeat case_match; cbn; try done; unfold finish_child; cbn; by rewrite IH.
Qed.

Lemma finish_result evs e :
  running evs (run_child cap evs) -> terminal e = true -> ch_result (run_child cap (evs ++ [e])) = Some (result_at evs e).
Proof using Type.
  intros ((Hob & Hot & _) & (Heb & Het & _) & Hx & Ht & _ & Hres) He. rewrite run_child_snoc.
  destruct e; try done; cbn [process_step]; unfold finish_child; cbn; rewrite Hres; cbn; unfold result_at, sink_text; by rewrite ?Hob, ?Hot, ?Heb, ?Het, ?Ht, ?Hx.
Qed.

(** C31: the promise of a spawned process settles at its first error or close
    event, and never again: with the exit code, with exactly the first [cap]
    bytes of each stream and whether there were more, decoded whole however the
    pipe cut them, and with the timeout when it had fired.  A process that has
    not ended has no result. *)
Theorem process_result_of_streams evs :
  (forallb (fun e => negb (terminal e)) evs = true -> ch_result (run_child cap evs) = None) /\
  (forall before e after, evs = before ++ e :: after ->
     forallb (fun e => negb (terminal e)) before = true -> terminal e = true ->
     ch_result (run_child cap evs) = Some (result_at before e)).
Proof using Hcap.
  split; [intros H; apply (running_run evs H)|].
  intros before e after -> Hb He. rewrite cons_middle, app_assoc. apply settled_stays, finish_result; [|done].
  by apply running_run.
Qed.
End child.

(** A process whose second chunk passes the cap in the middle of a character,
    and which ends after its timeout. *)
Definition sample_process : list Child.process_event :=
  [Child.Stdout [104; 105]; Child.Deadline; Child.Stdout [195; 169; 33]; Child.KillTimer; Child.Closed None;
   Child.Stdout [120]; Child.Failed (js "late")]%N.

Lemma process_result_of_streams_witness :
  0 <= 4 /\
  option_map (fun r => (stdout r, outputTruncated r, timedOut r, status r)) (Child.ch_result (Child.run_child 4 sample_process)) =
    Some (js "hi" ++ [233%N], true, true, None).
Proof.
  split; [lia|].
  rewrite (proj2 (process_result_of_streams 4 ltac:(lia) sample_process) (take 4 sample_process) (Child.Closed None) (drop 5 sample_process)
    eq_refl eq_refl eq_refl).
  by vm_compute.
Defined.
